(* ===== verification/_CoqProject ===== *)
-Q . S2P
Prelude.v
Status.v
Dependency.v
Graph.v
Fixtures.v
Cluster.v
Structures.v
Propagation.v
UnionFind.v
Reach.v
Seams.v
Order.v
Engine.v
Text.v
Errors.v
Attribution.v
Occupancy.v
Timestamps.v
Actors.v
Health.v
Recorder.v
Ledger.v
Buffering.v
Authority.v
Permits.v
ChangeLog.v
Retention.v
Overrides.v
Projects.v
Assets.v
Racks.v
Ports.v
Containment.v
AssetWrites.v
Cabling.v
Invariants.v
NetRows.v
Services.v
Topology.v
Derivation.v
PowerRows.v
Power.v
Supply.v
Escalation.v
Path.v
Routes.v
Cost.v
PowerCost.v
Capacity.v
Ranges.v
Netip.v
Addresses.v
PrefixTree.v
EdgeRows.v
Edges.v
Loading.v
Fit.v
