(* ===== verification/Prelude.v ===== *)
(** * invctl: a model of the inventory's reasoning

    invctl records an infrastructure estate (assets, services, dependencies,
    networks, costs) and answers questions about it. This development models the
    parts of the Go program that compute those answers, as executable functions
    on the rows the store loads, and proves what each answer means. Paths below
    are relative to [src/internal/]. Every definition keeps the name and the
    shape of the Go function it translates; the doc comment before it says so
    where the name differs.

    ** The parts, and how they fit together

    _The impact engine_ ([impact/]). [Analyse] takes the graph of the estate and
    a request (assets down, media cut) and returns who is affected, why, and in
    what order to shut things down. It runs in phases, one file each:

    - [Status] ([domain/service.go]): the four service statuses with [Worse] and
      [Better], and the availability policies that turn surviving instances into
      a status.
    - [Dependency] ([domain/dependency.go]): the natures of an edge and
      [Propagate], what a provider's status does to its consumer.
    - [Graph] ([impact/graph.go], the input types of [clusters.go],
      [structures.go] and [reach.go]): the rows the engine reads.
    - [Fixtures]: small estates for the witnesses; models nothing.
    - [Cluster] ([domain/cluster.go], [impact/clusters.go]): which guests of
      failed hosts restart elsewhere.
    - [Structures] ([impact/structures.go]): declared VLANs, FHRP groups and the
      like that an outage empties.
    - [Propagation] ([impact/engine.go]: [routeStatuses], [providerHealth],
      [phasePropagate]): the dependency fixed point.
    - [UnionFind], [Reach], [Seams] ([impact/reach.go]): connectivity over the
      declared topology, pairwise reach, and the places where reach changes a
      dependency, an exposed endpoint or a report.
    - [Order] ([impact/engine.go]: [shutdownOrder], [detectCycles],
      [cycleKey]): the depth-first walk over the affected services.
    - [Engine] ([impact/engine.go]: [phaseCapacity], [sortImpacts],
      [Analyse]): the composition of all of the above.

    _Observed health_. Agents report readings; the store keeps the current state,
    a ledger of transitions in which rapid changes are compressed, and a queue of
    reports that name nothing known.

    - [Timestamps] ([domain/time.go]): instants, stored text, its order.
    - [Actors] ([domain/actor.go], [domain/agent.go]): who a write is attributed to.
    - [Health] ([domain/observed.go]): readings, staleness, overrides of a state.
    - [Recorder], [Ledger], [Buffering], [Authority] ([store/observed.go],
      [store/recorder.go] and their neighbours): the decision one report leads to,
      the rows the ledger holds, the buffer of unchanged readings and its flush, and
      whose reports are accepted for what.
    - [Retention] ([store/prune.go]): what a prune may delete.
    - [Overrides] ([store/overrides.go], [web/handlers/health.go]): an operator's
      word against an agent's, and its expiry.

    _Declared writes_. Every declared mutation is a transaction with a permit and an
    entry in the change log.

    - [Permits] ([domain/role.go], [auth/]): roles, permits and what they cover.
    - [ChangeLog] ([store/diff.go], [store/store.go], [domain/errors.go]): audit
      diffs, redaction, transactions as a monad with an environment, tables, a log
      and a supply of identifiers; rules to invert and to run them. The components
      below instantiate its tables.
    - [Projects] ([store/projects.go], [user_projects.go], [circuits.go]): links of
      projects, assignments, circuits. [Escalation]: what a project owner can reach
      through all of these and the creation of assets and services in a project together.
    - [Assets] ([domain/asset.go]), [Racks] ([domain/rack.go], [store/racks.go]),
      [Ports] ([domain/network.go], [device_type_component.go]): the rows.
      [Containment] ([store/assets.go]): the tables, the closure of the containment
      tree and the statements on it, with the theory of climbing a parent function.
      [AssetWrites] ([store/assets.go], [store/device_type_components.go]): creation,
      update, moves, retirement, ports from a template. [Cabling]
      ([store/network.go]): the writes of ports and cables on the same tables,
      breakouts among them, and the histories of all these requests together, with the
      touch that a port's row gets from the writers of its VLANs and wireless networks.
    - [Services] ([domain/service.go], [store/services.go]): the constructor, the checks
      and the four writes of services, creation inside a project among them.
    - [Invariants]: rules for what a transaction keeps of an invariant of the tables
      (a hint database and the tactic [keeping]). [NetRows] ([domain/reach.go]): the
      rows of the declared topology with their constructors and checks. [Topology]
      ([store/reach.go]): forwarder groups, members, uplinks, attachments with their
      pins and anchors, all twelve writes of them. [Derivation] ([store/reach.go]):
      the coverage counts, and what the cables suggest to declare.

    _Power_ ([domain/power.go], [domain/power_cost.go], [store/power.go],
    [store/power_sources.go], [store/power_findings.go], [store/power_cost.go]).

    - [PowerRows]: ratings and the four kinds of row with their constructors and
      checks. [Power]: all twelve writes of panels, feeds, inputs and supplies; the
      class [Chained] is what their tables have in common.
    - [Supply]: the report of the chain (convergences, single-fed assets, feeds over
      their limit) and what a failed feed or supply takes down, each from the rows
      its queries join. The order Go's map gives the supplies in is an argument.
    - [PowerCost]: the declared load, from the rows of [Containment]'s closure, and
      the estimate of what it costs, with [Cost]'s rounding.

    _The dependency graph_ ([store/deps.go], [domain/endpoint.go],
    [domain/dependency.go], [store/graph.go]).

    - [EdgeRows]: sockets, pools, their members, routes and edges, with their
      constructors and checks. [Edges]: all fourteen writes of them on tables with the
      schema's constraints, the permit an edge is written under, and the histories of
      these requests.
    - [Loading]: [LoadGraph], from these tables and the containment of the assets to the
      graph [Analyse] takes, and [DownInstances]. What it delegates to (topology,
      structures, clusters) is an argument.

    _Physical fit_ ([domain/fit.go], [store/fit.go]). [Fit]: the depth, load, airflow
    and cabling of one cabinet, and the report that feeds them; the one floating-point
    product is computed as the doubles do.

    _Routes_ ([store/path.go], [store/neighbourhood.go]). [Path]: the breadth-first
    search over the cables and what lies on a shortest path. [Routes]: the page's
    answer, with the ports that block and the budget of what is drawn.

    _Money and capacity_ ([domain/]).

    - [Errors] ([errors.go]): the collected validation failures.
    - [Attribution] ([attribution.go]): dividing a platform, and a bill, between
      its claimants by largest remainder.
    - [Occupancy] ([occupancy.go]): dividing one machine by declared shares;
      uses [Attribution]'s rule and [Errors].
    - [Cost] ([cost.go], [time.go]): cost lines, run rates, amortisation, totals.
    - [Capacity] ([capacity.go], and the ratio field of
      [web/handlers/app.go]): what a cluster can sell.

    _Names and addresses_ ([domain/]).

    - [Text]: the functions of Go's [strings] and [strconv] used below.
    - [Ranges] ([range_expand.go]): port-name ranges.
    - [Netip]: Go's [net/netip], [bytes.Compare] and big-endian [big.Int].
    - [Addresses] ([ipaddr.go], [iprange.go]): stored addresses, prefixes,
      reservations and the first free address.
    - [PrefixTree] ([prefix_tree.go], [Prefix.SetCIDR] of [network.go]): the
      containment tree of an estate's prefixes.

    This file holds what they share: notations, Go's string order, sorting and
    its comparators ([StrictWeak], [StrictTotal], [lex_less]: the promise every
    caller of [sort] makes, discharged by instances), wrapped 64-bit arithmetic,
    tactics and generic lemmas.

    ** What the theorems show

    - Propagation computes the least assignment no edge worsens when it stops
      before its bound, always stops within [3 n] rounds if allowed to, never
      improves a status, and records exactly the services that would not restart.
    - Union-find components are connectivity; [reach] answers ok, degraded or
      down exactly as paths through healthy groups exist, never guesses from
      missing topology, and never improves when more is lost. The memo tables
      change no answer.
    - The shutdown order names every affected service once and stops consumers
      first unless it reports a cycle; [detectCycles] is sound and complete and
      names a loop the same way wherever the walk entered it.
    - [Analyse] reports exactly the services whose status is not ok and the
      landmines; more loss is never reported as less impact; reporting
      reachability without acting on it, or having no topology, leaves the
      service rows alone.
    - Shares of what is not negative and in range sum exactly to what is divided and are
      within one unit of fair;
      undeclared occupancy is attributed to nobody; totals are additive; twelve
      months differ from the year by at most six units; stored dates sort as
      strings; measuring more hosts only raises a cluster's figures; a ratio
      offered back by a form is read as the same ratio.
    - A state change is counted in the ledger whichever way it was compressed;
      buffering changes no answer, no decision and no row of the ledger or the queue, and
      what a page shows lags only in the columns of the last report until the next flush
      that commits; nothing is recorded without the
      authority for it and the queue of unmatched reports is bounded; evidence about
      entities in scope outlives every prune; an override lapses.
    - The log of a project replays to its row, carries no redacted value, and every entry
      passed the permit of its transaction. Through links, assignments and creations a
      project owner reaches no entity that was there and that the projects they hold did
      not link; an entity has one owner, and links and assignments name what exists.
    - The closure is exactly the containment tree after any requests, names are
      unique among live siblings, replacements do not loop; a move is accepted exactly
      when it keeps this so; the closure reads give the subtree and the path; the
      retirement operation leaves no live edge and logs each it takes, which an update that
      sets the lifecycle does not. A position in a rack is accepted exactly when
      no box is in the way, and the elevation draws what is there.
    - A port carries one live cable, or the strands of one breakout that agree with
      each other, and a withdrawn port none, after any history in which reads may be
      older than the transactions they serve; nobody patches a port of an asset their
      permit does not cover, at either end; a cable is accepted exactly when its ends
      are free live ports.
    - The declared topology stays well formed under any requests: groups declare what
      their availability needs, edges name rows that exist, an asset is in one live
      group, live edges of a pair are not doubled. A withdrawn group loses exactly its
      edges. Derivation proposes exactly the edges the cables show and nobody declared,
      each once, and what it proposes can be declared; coverage counts exactly the
      attachable assets that are attached themselves or through what they are inside.
    - The power chain stays well formed under any requests, supplies without loops;
      while no edit takes a row out of use, nor brings a feed back under a panel that is
      retired, both of which the code lets through, nothing in use hangs off something
      retired. Then the report finds a convergence exactly when one feed,
      panel or supply takes the asset down, and a failed supply takes exactly what has
      no input elsewhere. The declared load counts every draw once.
    - The dependency graph stays well formed under any requests. An edge is written only
      by one who holds the services at both its ends, as stored and as submitted, and
      each of its columns by the operation made for it: a verification by a person, a
      withdrawal by its retirement. Sockets that are withdrawn by their retirement leave
      no live edge behind, so the engine resolves the provider of every edge it loads, and
      has it in the graph unless the service is retired, which nothing prevents;
      it counts the placements in use and takes down those below what fails.
    - A cabinet is reported as overloaded exactly when it is whatever the unweighed boxes
      weigh, a cable as too short exactly when it is, and a box as fed the exhaust of
      another exactly when it is, where no two boxes share a unit.
    - A search finds the shortest paths and marks what lies on one; the ports named
      as blocking are those of pairs all of whose cables, of either plane, are down.
    - A stored prefix whose network is not IPv4-mapped is exactly its block, and its first
      free address is the lowest a host may have that nothing covers; the prefix tree is the containment order.
    - Where the code falls short a theorem says how: the twenty-round bound
      truncates ordinary chains, a route through a retired proxy degrades its
      consumers, an edge may be declared on a withdrawn route and be created verified, a range that ends at the largest integer never finishes, an
      IPv4-mapped prefix loses its block.

    ** How the code is represented

    A Go [int] or [int64] is a [Z] with its wrap-around ([wrap64]) where it is
    computed with, on the 64-bit platforms the program targets; counters that
    only count list elements are left as lengths where no width can be reached.
    Strings are byte strings. A map is a [gmap] and a map of flags that are only
    ever [true] a [gset]; a missing key reads as the zero value ([m .[ k | z ]]).
    Loops over a map whose result the code then sorts are loops over the sorted
    keys. A pointer to a row is an [option] where [nil] is tested. Functions that
    update a shared counter or slice through a pointer return what they add.
    [sort.Slice] is the stable [isort]: the order Go leaves to chance between
    ties is only claimed where the comparator has none.

    Bounds. [phasePropagate] runs the code's own [maxIterations] of 20 rounds,
    and [propagate_loop] takes the bound as a parameter for the termination
    theorem. The walk of [Order] has fuel of one more than the services it may
    visit, which it never exhausts; [find] in [UnionFind] has the size of its
    map, and a parent never sorts after its child. [expand_loop] in [Ranges] has
    fuel that is not part of the code: enough of it always returns the names,
    except in the case where the code itself does not return.

    Stores. A transaction runs on the tables alone, whole or not at all, and a
    request may meet any [Fate]: it commits, fails, or loses a race and is tried
    again as [writeSerializable] does. What a request read before its transaction is
    an argument where it can differ ([seen] in [Containment], [AssetWrites] and
    [Cabling], where a history says which tables it may have been).
    Constraints of the schema are checks of the statement that would violate them.
    Identifiers come from a supply, the clock is an argument, an audit diff is the
    map its JSON renders, SQL orders text by its bytes. Loops over search results
    have their length for fuel; the searches of [Path] have the number of vertices,
    which is proved enough. Unicode tables are a class ([Unicode], [CodeRunes]) of
    functions that the ASCII text never reaches.

    ** What is not modelled

    The search index, the names joined for display, tags and custom values (the
    audit folds over them are arguments), rollback of a transaction's caches, and
    concurrent transactions of the engines below serializable isolation. Of the
    loading of the graph, the queries for the topology, the structures and the
    clusters. The other tables of the store, the web pages and the HTTP API beyond the handlers named
    above, the seed data, authentication and configuration: input and output around
    the functions modelled here. Of the domain package: inflation, cable
    bundles, certificates, the instances of services, the estate-wide counts of the physical fit and the remaining
    validating constructors. The reads of the power chain for its list pages are its
    tables in another order. Error texts are modelled where they are shown
    to an operator; elsewhere an error is a constructor or [None]. *)
From Stdlib Require Import String Ascii ZArith Lia Permutation Sorting.Sorted.
From stdpp Require Import base gmap strings list pretty.

(** ** Notations *)

Declare Scope go_scope.
Delimit Scope go_scope with go.

(** [m .[ k | z ]] is Go's [m[k]]: the zero value [z] when the key is absent. *)
Notation "m .[ k | z ]" := (default z (m !! k))
  (at level 1, k at level 200, z at level 200, format "m .[ k  |  z ]") : go_scope.

(** String concatenation, Go's [+] on strings. *)
Notation "a +++ b" := (String.append a b) (at level 60, right associativity) : go_scope.

Open Scope go_scope.

(** ** Go's bytewise string order *)

Definition str_ltb (s t : string) : bool := String.ltb s t.

(** The value of a decimal digit. *)
Definition digit (a : ascii) : option Z :=
  let n := Z.of_N (N_of_ascii a) in
  if ((48 <=? n) && (n <=? 57))%Z then Some (n - 48)%Z else None.

(** ** Sorting

    [isort less l] is the stable sort Go's [sort.SliceStable(l, less)] performs.
    It is also the model of [sort.Slice] and [sort.Strings]: those leave the
    order of elements that tie unspecified, and the theorems about their
    callers use only that the result is a permutation sorted by [less]. *)
Section Sorting.
Context {A : Type} (less : A -> A -> bool).

Fixpoint insert_sorted (x : A) (l : list A) : list A :=
  match l with
  | [] => [x]
  | y :: l' => if less y x then y :: insert_sorted x l' else x :: y :: l'
  end.

Definition isort (l : list A) : list A := foldr insert_sorted [] l.
End Sorting.

(** What [sort] requires of a comparison: a strict weak order. *)
Class StrictWeak {A} (less : A -> A -> bool) : Prop := {
  sw_asym : forall x y, less x y = true -> less y x = false;
  sw_negtrans : forall x y z, less y x = false -> less z y = false -> less z x = false
}.

(** A strict total order: ties are equalities. *)
Class StrictTotal {A} (less : A -> A -> bool) : Prop := {
  st_weak :: StrictWeak less;
  st_total : forall x y, less x y = false -> less y x = false -> x = y
}.

(** [if a.f != b.f { return a.f < b.f }; return rest] *)
Definition lex_less {A K} `{EqDecision K} (f : A -> K) (lk : K -> K -> bool)
    (rest : A -> A -> bool) (x y : A) : bool :=
  if decide (f x = f y) then rest x y else lk (f x) (f y).

(** ** Lists *)

(** Go's [seen := map[string]bool{}] loop over a slice: first occurrences. *)
Fixpoint first_occurrences (seen : gset string) (l : list string) : list string :=
  match l with
  | [] => []
  | s :: l' => if decide (s ∈ seen) then first_occurrences seen l'
               else s :: first_occurrences ({[s]} ∪ seen) l'
  end.

Definition count_if {A} (p : A -> bool) (l : list A) : nat := length (List.filter p l).

Definition sumZ (l : list Z) : Z := foldr Z.add 0%Z l.

(** ** Maps built in a loop *)

(** [m[key(v)] = f(v)] for the elements of a slice. *)
Definition index_by {V W} (key : V -> string) (f : V -> W) (l : list V) : gmap string W :=
  foldl (fun m v => <[key v := f v]> m) ∅ l.

(** [m[key(v)] = append(m[key(v)], f(v))] for the elements that pass a test. *)
Definition push {W} (k : string) (w : W) (m : gmap string (list W)) : gmap string (list W) :=
  <[k := default [] (m !! k) ++ [w]]> m.
Definition group_by {V W} (test : V -> bool) (key : V -> string) (f : V -> W) (l : list V) : gmap string (list W) :=
  foldl (fun m v => if test v then push (key v) (f v) m else m) ∅ l.

(** ** Machine integers: two's complement wrap-around at 64 bits *)

Definition wrap64 (z : Z) : Z := ((z + 2 ^ 63) mod 2 ^ 64 - 2 ^ 63)%Z.

Definition int64 (z : Z) : Prop := (- 2 ^ 63 <= z < 2 ^ 63)%Z.

(** [slice[i]++] *)
Fixpoint bump (i : nat) (l : list Z) : list Z :=
  match l, i with
  | [], _ => []
  | x :: l', O => wrap64 (x + 1) :: l'
  | x :: l', S i' => x :: bump i' l'
  end.

(** ** Tactics *)

(** Splits every [if], [match] and [decide] of the goal. *)
Ltac split_cases :=
  repeat match goal with
         | |- context [match negb ?x with _ => _ end] => destruct x eqn:?; cbn [negb]
         | |- context [match ?x with _ => _ end] => destruct x eqn:?
         end; simplify_eq/=.

(** Solves the goals a case analysis leaves: contradictions and arithmetic. *)
Ltac crush := split_cases; try done; try congruence; try lia; auto with go.

Create HintDb go discriminated.
#[export] Hint Constants Opaque : go.

(** ** Lemmas on strings *)

Lemma compare_refl s : String.compare s s = Eq.
Proof.
  induction s as [|a s IH]; cbn; [done|].
  unfold Ascii.compare. by rewrite N.compare_refl.
Qed.

Lemma ascii_compare_trans a b c :
  Ascii.compare a b = Lt -> Ascii.compare b c = Lt -> Ascii.compare a c = Lt.
Proof. unfold Ascii.compare. rewrite !N.compare_lt_iff. lia. Qed.

Lemma compare_lt_trans s t u :
  String.compare s t = Lt -> String.compare t u = Lt -> String.compare s u = Lt.
Proof.
  revert t u. induction s as [|a s IH]; intros [|b t] [|c u]; cbn; try done.
  destruct (Ascii.compare a b) eqn:Hab; try done.
  - apply Ascii.compare_eq_iff in Hab as ->.
    destruct (Ascii.compare b c); eauto.
  - intros _. destruct (Ascii.compare b c) eqn:Hbc; try done.
    + apply Ascii.compare_eq_iff in Hbc as ->. by rewrite Hab.
    + by rewrite (ascii_compare_trans _ _ _ Hab Hbc).
Qed.

Lemma str_ltb_lt s t : str_ltb s t = true <-> String.compare s t = Lt.
Proof. unfold str_ltb, String.ltb. by destruct (String.compare s t). Qed.

Lemma str_ltb_irrefl s : str_ltb s s = false.
Proof. unfold str_ltb, String.ltb. by rewrite compare_refl. Qed.

Lemma str_ltb_trans s t u :
  str_ltb s t = true -> str_ltb t u = true -> str_ltb s u = true.
Proof. rewrite !str_ltb_lt. apply compare_lt_trans. Qed.

Lemma str_ltb_total s t : str_ltb s t = false -> str_ltb t s = false -> s = t.
Proof.
  unfold str_ltb, String.ltb. rewrite (String.compare_antisym t s).
  destruct (String.compare s t) eqn:E; try done.
  intros _ _. by apply String.compare_eq_iff.
Qed.

Lemma append_cons a s t : String a s +++ t = String a (s +++ t).
Proof. reflexivity. Qed.

Lemma append_nil s : "" +++ s = s.
Proof. reflexivity. Qed.

Lemma append_cancel_l s t u : s +++ t = s +++ u -> t = u.
Proof. induction s as [|a s IH]; [done|]. rewrite !append_cons. intros [= H]. by apply IH. Qed.

Lemma append_length s t : String.length (s +++ t) = (String.length s + String.length t)%nat.
Proof. induction s as [|a s IH]; [done|]. rewrite append_cons. cbn. by rewrite IH. Qed.

Lemma append_cancel_r s t u : s +++ u = t +++ u -> s = t.
Proof.
  revert t. induction s as [|a s IH]; intros [|b t]; rewrite ?append_nil, ?append_cons; [done| | |].
  - intros H. apply (f_equal String.length) in H. pose proof (append_length t u). cbn in H. lia.
  - intros H. apply (f_equal String.length) in H. pose proof (append_length s u). cbn in H. lia.
  - intros [= -> H]. f_equal. by apply IH.
Qed.

Lemma append_assoc s t u : (s +++ t) +++ u = s +++ (t +++ u).
Proof. induction s as [|a s IH]; [done|]. rewrite !append_cons. by rewrite IH. Qed.

Lemma digit_range a d : digit a = Some d -> (0 <= d <= 9)%Z.
Proof. unfold digit. case_match eqn:E; [|done]. intros [= <-]. lia. Qed.

(** ** Lemmas on orders *)

(** A transitive irreflexive total comparison is a strict total order. *)
Lemma strict_total_intro {A} (less : A -> A -> bool) :
  (forall x, less x x = false) ->
  (forall x y z, less x y = true -> less y z = true -> less x z = true) ->
  (forall x y, less x y = false -> less y x = false -> x = y) ->
  StrictTotal less.
Proof.
  intros Hirr Htr Htot.
  assert (Has : forall x y, less x y = true -> less y x = false).
  { intros x y H. destruct (less y x) eqn:E; [|done].
    by rewrite <- (Hirr x), (Htr x y x). }
  split; [|done]. split; [done|]. intros x y z Hyx Hzy.
  destruct (less z x) eqn:Hzx; [exfalso|done].
  destruct (less x y) eqn:Hxy.
  - by rewrite (Htr z x y) in Hzy.
  - by rewrite (Htot x y) in Hzx; [congruence|..].
Qed.

#[export] Instance str_ltb_strict_total : StrictTotal str_ltb.
Proof.
  apply strict_total_intro; eauto using str_ltb_irrefl, str_ltb_trans, str_ltb_total.
Qed.

#[export] Instance Zltb_strict_total : StrictTotal Z.ltb.
Proof. apply strict_total_intro; intros; lia. Qed.

#[export] Instance Natltb_strict_total : StrictTotal Nat.ltb.
Proof.
  apply strict_total_intro; intros *; rewrite ?Nat.ltb_lt, ?Nat.ltb_ge; lia.
Qed.

(** The reverse comparison, Go's [a > b]. *)
#[export] Instance flip_strict_total {A} (less : A -> A -> bool) :
  StrictTotal less -> StrictTotal (fun x y => less y x).
Proof.
  intros H. split; [split|]; intros *.
  - apply sw_asym.
  - intros ? ?. by apply (sw_negtrans (less := less) z y x).
  - intros. by apply (st_total (less := less)).
Qed.

Lemma st_irrefl {A} (less : A -> A -> bool) `{!StrictWeak less} x : less x x = false.
Proof. destruct (less x x) eqn:E; [|done]. by rewrite <- E, sw_asym. Qed.

(** The comparators of the source compare one key at a time. *)
#[export] Instance lex_less_weak {A K} `{EqDecision K} (f : A -> K) lk rest :
  StrictTotal lk -> StrictWeak rest -> StrictWeak (lex_less f lk rest).
Proof.
  intros Hk Hr. split; unfold lex_less.
  - intros x y. case_decide as E; case_decide; try congruence.
    + apply sw_asym.
    + apply sw_asym.
  - intros x y z.
    destruct (decide (f y = f x)) as [E1|N1], (decide (f z = f y)) as [E2|N2],
      (decide (f z = f x)) as [E3|N3]; try congruence; intros H1 H2.
    + by apply (sw_negtrans x y z).
    + exfalso. apply N1. apply (st_total (less := lk)); [done|congruence].
    + by apply (sw_negtrans (less := lk) _ (f y)).
Qed.

(** The last comparison of a comparator. *)
Lemma key_less_weak {A K} (f : A -> K) (lk : K -> K -> bool) :
  StrictWeak lk -> StrictWeak (fun x y => lk (f x) (f y)).
Proof.
  intros H. split; intros *; [apply sw_asym|apply (sw_negtrans (less := lk))].
Qed.
#[export] Hint Extern 5 (StrictWeak (fun x y => ?lk (?f x) (?f y))) =>
  apply (key_less_weak f lk) : typeclass_instances.

(** ** Lemmas on sorting *)

Section SortFacts.
Context {A : Type} (less : A -> A -> bool).

Lemma insert_sorted_perm x l : insert_sorted less x l ≡ₚ x :: l.
Proof.
  induction l as [|y l IH]; cbn; [done|]. case_match; [|done].
  rewrite IH. apply perm_swap.
Qed.

Lemma isort_perm l : isort less l ≡ₚ l.
Proof.
  induction l as [|x l IH]; cbn; [done|]. by rewrite insert_sorted_perm, IH.
Qed.

Lemma isort_length l : length (isort less l) = length l.
Proof. by rewrite isort_perm. Qed.

Lemma elem_of_isort x l : x ∈ isort less l <-> x ∈ l.
Proof. by rewrite isort_perm. Qed.

Context `{!StrictWeak less}.

(** No element sorts after one that should follow it. *)
Definition sorted_by (l : list A) : Prop :=
  StronglySorted (fun x y => less y x = false) l.

Lemma insert_sorted_sorted x l : sorted_by l -> sorted_by (insert_sorted less x l).
Proof.
  induction 1 as [|y l Hl IH Hy]; cbn; [repeat constructor|].
  case_match eqn:E; constructor; try done.
  - rewrite insert_sorted_perm. constructor; [|done]. by apply sw_asym.
  - by constructor.
  - constructor; [done|]. eapply Forall_impl; [exact Hy|].
    intros z Hz. by apply (sw_negtrans x y z).
Qed.

Lemma isort_sorted l : sorted_by (isort less l).
Proof. induction l; cbn; [constructor|]. by apply insert_sorted_sorted. Qed.
End SortFacts.

(** Two sorted permutations of each other are equal when ties are equalities:
    the reason [sort.Slice] is deterministic where the keys are distinct. *)
Lemma sorted_by_unique {A} (less : A -> A -> bool) (l1 l2 : list A) :
  (forall x y, x ∈ l1 -> y ∈ l1 -> less x y = false -> less y x = false -> x = y) ->
  sorted_by less l1 -> sorted_by less l2 -> l1 ≡ₚ l2 -> l1 = l2.
Proof.
  intros Htot H1. revert l2. induction H1 as [|x l1 H1 IH Hx]; intros l2 H2 Hp.
  { by apply Permutation_nil_l in Hp. }
  destruct H2 as [|y l2 H2 Hy]; [by apply Permutation_nil_r in Hp|].
  assert (x = y) as <-.
  { assert (Hy' : y ∈ x :: l1) by (rewrite Hp; left).
    assert (Hx' : x ∈ y :: l2) by (rewrite <- Hp; left).
    apply elem_of_cons in Hx' as [->|Hx']; [done|].
    apply elem_of_cons in Hy' as [->|Hy']; [done|].
    rewrite Forall_forall in Hx, Hy.
    apply Htot; [left|by right| |]; [by apply Hy|by apply Hx]. }
  f_equal. apply Permutation_cons_inv in Hp.
  apply IH; [|done|done]. intros; apply Htot; [by right|by right|done|done].
Qed.

Lemma sorted_by_lookup {A} (less : A -> A -> bool) l i j x y :
  sorted_by less l -> i < j -> l !! i = Some x -> l !! j = Some y -> less y x = false.
Proof.
  intros Hs. revert i j. induction Hs as [|z l Hl IH Hz]; intros [|i] [|j]; cbn; try done; try lia.
  - intros _ [= <-] Hj. rewrite Forall_forall in Hz. apply Hz. by eapply list_elem_of_lookup_2.
  - intros Hij. apply IH. lia.
Qed.

(** Sorting only compares the elements of the list. *)
Lemma isort_ext {A} (less less' : A -> A -> bool) l :
  (forall x y, x ∈ l -> y ∈ l -> less x y = less' x y) -> isort less l = isort less' l.
Proof.
  induction l as [|x l IH]; intros H; [done|].
  change (insert_sorted less x (isort less l) = insert_sorted less' x (isort less' l)).
  rewrite IH by (intros; apply H; by right).
  assert (Hx : forall y, y ∈ isort less' l -> less y x = less' y x).
  { intros y Hy. rewrite elem_of_isort in Hy. apply H; [by right|left]. }
  revert Hx. clear IH H.
  induction (isort less' l) as [|y l' IH']; intros Hx; [done|].
  cbn [insert_sorted]. rewrite Hx by left. case_match; [|done].
  f_equal. apply IH'. intros; apply Hx. by right.
Qed.

(** ** Lemmas on first occurrences *)

Lemma elem_of_first_occurrences seen l x :
  x ∈ first_occurrences seen l <-> x ∈ l /\ x ∉ seen.
Proof.
  revert seen. induction l as [|s l IH]; intros seen; cbn; [set_solver|].
  case_decide; [rewrite IH; set_solver|].
  rewrite !elem_of_cons, IH. destruct (decide (x = s)); set_solver.
Qed.

Lemma first_occurrences_nodup seen l : NoDup (first_occurrences seen l).
Proof.
  revert seen. induction l as [|s l IH]; intros seen; cbn; [constructor|].
  case_decide; [done|]. constructor; [|done].
  rewrite elem_of_first_occurrences. set_solver.
Qed.

(** ** Lemmas on sums and machine integers *)

Lemma sumZ_app l1 l2 : sumZ (l1 ++ l2) = (sumZ l1 + sumZ l2)%Z.
Proof. induction l1; simpl; lia. Qed.

Lemma sumZ_perm l1 l2 : l1 ≡ₚ l2 -> sumZ l1 = sumZ l2.
Proof. induction 1; simpl; lia. Qed.

#[export] Instance sumZ_proper : Proper ((≡ₚ) ==> eq) sumZ.
Proof. intros l1 l2. apply sumZ_perm. Qed.

Lemma sumZ_nonneg l : Forall (fun z => 0 <= z)%Z l -> (0 <= sumZ l)%Z.
Proof. induction 1; simpl; lia. Qed.


Lemma wrap64_id z : int64 z -> wrap64 z = z.
Proof.
  unfold int64, wrap64. change (2 ^ 64)%Z with (2 * 2 ^ 63)%Z.
  intros. rewrite Z.mod_small; lia.
Qed.

Lemma sumZ_elem l x : Forall (fun z => 0 <= z)%Z l -> x ∈ l -> (x <= sumZ l)%Z.
Proof.
  induction 1 as [|y l Hy Hl IH]; [by intros ?%elem_of_nil|]. pose proof (sumZ_nonneg l Hl).
  intros [->|Hx]%elem_of_cons; simpl; [lia|]. specialize (IH Hx). lia.
Qed.

(** Incrementing one entry, where no entry is at the top of the range. *)
Lemma bump_lookup i l j :
  Forall (fun z => 0 <= z < 2 ^ 63 - 1)%Z l ->
  bump i l !! j = (fun x => if decide (j = i) then (x + 1)%Z else x) <$> l !! j.
Proof.
  intros Hl. revert i j. induction Hl as [|x l Hx Hl IH]; intros [|i] [|j]; cbn [bump lookup list_lookup]; try done.
  - cbn. rewrite wrap64_id by (unfold int64; lia). done.
  - destruct (l !! j); cbn; [|done]. by rewrite decide_False.
  - rewrite IH. destruct (l !! j); cbn; [|done]. repeat case_decide; done || lia.
Qed.

Lemma bump_length i l : length (bump i l) = length l.
Proof. revert i. induction l as [|x l IH]; intros [|i]; cbn; auto. Qed.

Lemma sumZ_bump i l :
  Forall (fun z => 0 <= z < 2 ^ 63 - 1)%Z l -> i < length l -> sumZ (bump i l) = (sumZ l + 1)%Z.
Proof.
  intros Hl. revert i. induction Hl as [|x l Hx Hl IH]; intros [|i]; cbn [bump length]; try lia.
  - intros _. simpl. rewrite wrap64_id by (unfold int64; lia). lia.
  - intros Hi. simpl. rewrite IH by lia. lia.
Qed.

(** Wrap-around is a congruence: partial sums may wrap early or late. *)
Lemma wrap64_add_l a b : wrap64 (wrap64 a + b) = wrap64 (a + b).
Proof.
  unfold wrap64. f_equal.
  replace ((a + 2 ^ 63) mod 2 ^ 64 - 2 ^ 63 + b + 2 ^ 63)%Z
    with ((a + 2 ^ 63) mod 2 ^ 64 + b)%Z by lia.
  rewrite Z.add_mod_idemp_l by done. f_equal. lia.
Qed.

Lemma wrap64_idem a : wrap64 (wrap64 a) = wrap64 a.
Proof. pose proof (wrap64_add_l a 0) as H. by rewrite !Z.add_0_r in H. Qed.

Lemma wrap64_add_r a b : wrap64 (a + wrap64 b) = wrap64 (a + b).
Proof. rewrite (Z.add_comm a (wrap64 b)), wrap64_add_l. f_equal. lia. Qed.

Lemma wrap64_range z : int64 (wrap64 z).
Proof.
  unfold int64, wrap64. change (2 ^ 64)%Z with (2 * 2 ^ 63)%Z.
  pose proof (Z.mod_pos_bound (z + 2 ^ 63) (2 * 2 ^ 63)). lia.
Qed.

Lemma elem_of_take_inv {A} (x : A) k l : x ∈ take k l -> x ∈ l.
Proof. intros H. rewrite <- (take_drop k l). apply elem_of_app. by left. Qed.

Lemma filter_all {A} (l : list A) : List.filter (fun _ => true) l = l.
Proof. induction l as [|x l IH]; [done|]. cbn. by rewrite IH. Qed.

Lemma elem_of_bool_filter {A} (p : A -> bool) l x :
  x ∈ List.filter p l <-> x ∈ l /\ p x = true.
Proof. by rewrite !list_elem_of_In, filter_In. Qed.

Lemma filter_none {A} (p : A -> bool) l : (forall x, x ∈ l -> p x = false) -> List.filter p l = [].
Proof.
  intros H. apply elem_of_nil_inv. intros x [Hx Hp]%elem_of_bool_filter. by rewrite H in Hp.
Qed.

Lemma filter_true {A} (p : A -> bool) l : (forall x, x ∈ l -> p x = true) -> List.filter p l = l.
Proof.
  induction l as [|x l IH]; intros Hp; [done|]. cbn. rewrite Hp by left. f_equal. apply IH. intros y Hy. apply Hp. by right.
Qed.

Lemma filter_sorted_by {A} (less : A -> A -> bool) (p : A -> bool) l : sorted_by less l -> sorted_by less (List.filter p l).
Proof.
  induction 1 as [|x l Hl IH Hx]; cbn; [constructor|]. destruct (p x); [|done]. constructor; [done|].
  rewrite Forall_forall in *. intros y [Hy _]%elem_of_bool_filter. by apply Hx.
Qed.

Lemma existsb_elem_of {A} (p : A -> bool) l :
  existsb p l = true <-> exists x, x ∈ l /\ p x = true.
Proof. rewrite existsb_exists. by setoid_rewrite list_elem_of_In. Qed.

Lemma forallb_elem_of {A} (p : A -> bool) l :
  forallb p l = true <-> forall x, x ∈ l -> p x = true.
Proof. rewrite forallb_forall. by setoid_rewrite list_elem_of_In. Qed.

(** Loop invariants: a [foldl] preserves what each turn preserves. *)
Lemma foldl_inv {A B} (P : A -> Prop) (f : A -> B -> A) l a :
  (forall a b, b ∈ l -> P a -> P (f a b)) -> P a -> P (foldl f a l).
Proof.
  revert a. induction l as [|b l IH]; intros a Hstep Ha; cbn; [done|].
  apply IH; [|by apply Hstep; [left|]]. intros; apply Hstep; [by right|done].
Qed.

(** A loop whose flag was never raised went through identity turns only. *)
Lemma foldl_stuck {A B} (flag : A -> bool) (f : A -> B -> A) l a :
  (forall a b, flag (f a b) = false -> f a b = a) ->
  (forall a b, flag a = true -> flag (f a b) = true) ->
  flag (foldl f a l) = false ->
  foldl f a l = a /\ forall b, b ∈ l -> f a b = a.
Proof.
  intros Hid Hup. revert a. induction l as [|b l IH]; intros a Hf; cbn in *.
  { split; [done|]. by intros ? ?%elem_of_nil. }
  assert (Hb : flag (f a b) = false).
  { destruct (flag (f a b)) eqn:E; [|done]. rewrite <- Hf. symmetry.
    apply (foldl_inv (fun a => flag a = true)); [by intros; apply Hup|done]. }
  apply Hid in Hb. rewrite Hb in *. destruct (IH a Hf) as [H1 H2].
  split; [done|]. by intros b' [->|?]%elem_of_cons; [|apply H2].
Qed.

Lemma existsb_false {A} (p : A -> bool) l :
  existsb p l = false <-> Forall (fun x => p x = false) l.
Proof.
  induction l as [|x l IH]; cbn; [split; [constructor|done]|].
  rewrite orb_false_iff, IH, Forall_cons. done.
Qed.

Lemma bool_filter_perm {A} (p : A -> bool) l1 l2 :
  l1 ≡ₚ l2 -> List.filter p l1 ≡ₚ List.filter p l2.
Proof.
  induction 1; cbn; [done|by case_match; [constructor|]| |by etrans].
  repeat case_match; try done. constructor.
Qed.

Lemma bool_filter_nodup {A} (p : A -> bool) l : NoDup l -> NoDup (List.filter p l).
Proof.
  induction 1; cbn; [constructor|]. case_match; [|done]. constructor; [|done].
  rewrite elem_of_bool_filter. tauto.
Qed.

(** Nothing was dropped by a partial map that kept every element. *)
Lemma omap_length_le {A B} (f : A -> option B) l : length (omap f l) <= length l.
Proof. induction l as [|x l IH]; cbn; [done|]. destruct (f x); cbn; lia. Qed.

Lemma omap_length_full {A B} (f : A -> option B) l x :
  length (omap f l) = length l -> x ∈ l -> is_Some (f x).
Proof.
  induction l as [|y l IH]; cbn; [by intros _ ?%elem_of_nil|].
  pose proof (omap_length_le f l). destruct (f y) eqn:E; cbn; [|lia].
  intros [=] [->|?]%elem_of_cons; eauto.
Qed.

(** Filtering what a partial map produced by what it was produced from. *)
Lemma bool_filter_omap {A B} (f : A -> option B) (p : B -> bool) (q : A -> bool) l :
  (forall x y, f x = Some y -> p y = q x) ->
  List.filter p (omap f l) = omap f (List.filter q l).
Proof.
  intros H. induction l as [|x l IH]; [done|]. cbn.
  destruct (f x) as [y|] eqn:E; cbn; [rewrite (H _ _ E)|];
    destruct (q x); cbn; rewrite ?E, IH; done.
Qed.

Lemma existsb_perm {A} (p : A -> bool) l1 l2 : l1 ≡ₚ l2 -> existsb p l1 = existsb p l2.
Proof. induction 1; cbn; try congruence. destruct (p x), (p y); done. Qed.

Lemma filter_filter {A} (f g : A -> bool) l :
  List.filter f (List.filter g l) = List.filter (fun x => g x && f x) l.
Proof.
  induction l as [|x l IH]; [done|]. cbn [List.filter]. destruct (g x); cbn; [|done].
  by destruct (f x); rewrite IH.
Qed.

Lemma count_if_perm {A} (p : A -> bool) l1 l2 : l1 ≡ₚ l2 -> count_if p l1 = count_if p l2.
Proof. intros H. unfold count_if. induction H; cbn; crush. Qed.
#[export] Instance count_if_proper {A} (p : A -> bool) : Proper ((≡ₚ) ==> eq) (count_if p).
Proof. intros l1 l2. apply count_if_perm. Qed.

Lemma count_if_cons {A} (p : A -> bool) x l :
  count_if p (x :: l) = ((if p x then 1 else 0) + count_if p l)%nat.
Proof. unfold count_if. cbn. by destruct (p x). Qed.

Lemma count_if_le {A} (p : A -> bool) l : count_if p l <= length l.
Proof. unfold count_if. induction l; cbn; crush. Qed.

Lemma count_if_pos {A} (p : A -> bool) l : (0 <? count_if p l)%nat = existsb p l.
Proof. unfold count_if. induction l as [|x l IH]; cbn; [done|]. by destruct (p x). Qed.

Lemma count_if_negb_lt {A} (p : A -> bool) l :
  (count_if (fun x => negb (p x)) l <? length l)%nat = existsb p l.
Proof.
  induction l as [|x l IH]; [done|]. pose proof (count_if_le (fun x => negb (p x)) l).
  unfold count_if in *. cbn. destruct (p x); cbn; [|done]. by apply Nat.leb_le.
Qed.

Lemma count_if_negb_0 {A} (p : A -> bool) l :
  count_if (fun x => negb (p x)) l = 0%nat <-> forallb p l = true.
Proof.
  unfold count_if. induction l as [|x l IH]; cbn; [done|].
  rewrite andb_true_iff. destruct (p x); cbn; intuition congruence || lia.
Qed.

Lemma count_if_app {A} (p : A -> bool) l k : count_if p (l ++ k) = (count_if p l + count_if p k)%nat.
Proof. unfold count_if. by rewrite List.filter_app, length_app. Qed.

(** Counting with one more condition counts the same when the condition always holds. *)
Lemma count_if_andb_all {A} (p q : A -> bool) l :
  count_if (fun x => p x && q x) l = count_if p l <-> forall x, x ∈ l -> p x = true -> q x = true.
Proof.
  induction l as [|x l IH]; [split; [by intros _ y ?%elem_of_nil|done]|].
  assert (Hle : forall l, count_if (fun x => p x && q x) l <= count_if p l).
  { clear. induction l as [|y l IH]; [done|]. unfold count_if in *; cbn. destruct (p y), (q y); cbn; lia. }
  specialize (Hle l). setoid_rewrite elem_of_cons. unfold count_if in *; cbn. destruct (p x) eqn:Hp, (q x) eqn:Hq; cbn.
  - rewrite Nat.succ_inj_wd, IH. split; [by intros H y [->|Hy]; [|apply H]|auto].
  - split; [lia|]. intros H. specialize (H x (or_introl eq_refl) Hp). congruence.
  - rewrite IH. split; [by intros H y [->|Hy]; [rewrite Hp|apply H]|auto].
  - rewrite IH. split; [by intros H y [->|Hy]; [rewrite Hp|apply H]|auto].
Qed.

(** Folds whose steps agree. *)
Lemma foldl_pointwise {A B} (f g : A -> B -> A) l a :
  (forall a b, f a b = g a b) -> foldl f a l = foldl g a l.
Proof. intros H. revert a. induction l as [|b l IH]; intros a; cbn; [done|]. by rewrite H. Qed.

#[export] Hint Resolve isort_perm isort_sorted first_occurrences_nodup str_ltb_irrefl
  wrap64_range count_if_le : go.

(** ** Maps built in a loop *)

Section Building.
Context {V W : Type} (key : V -> string) (f : V -> W).

Lemma index_in (l : list V) (m : gmap string W) v : v ∈ l -> (forall w, w ∈ l -> key w = key v -> w = v) ->
  foldl (fun m v => <[key v := f v]> m) m l !! key v = Some (f v).
Proof.
  induction l as [|w l IH] using rev_ind; intros Hv Hu; [by apply not_elem_of_nil in Hv|].
  rewrite foldl_snoc. destruct (decide (key w = key v)) as [E|E].
  - rewrite E, lookup_insert_eq. rewrite (Hu w); [done| |done]. apply elem_of_app. right. by apply list_elem_of_singleton.
  - rewrite lookup_insert_ne by done. apply IH.
    + apply elem_of_app in Hv as [?| ->%list_elem_of_singleton]; done.
    + intros x Hx. apply Hu, elem_of_app. by left.
Qed.

Lemma index_out (l : list V) (m : gmap string W) k : (forall w, w ∈ l -> key w <> k) -> foldl (fun m v => <[key v := f v]> m) m l !! k = m !! k.
Proof.
  induction l as [|w l IH] using rev_ind; intros Hn; [done|]. rewrite foldl_snoc, lookup_insert_ne.
  - apply IH. intros x Hx. apply Hn, elem_of_app. by left.
  - apply Hn, elem_of_app. right. by apply list_elem_of_singleton.
Qed.

Lemma index_dom l v : v ∈ l -> is_Some (index_by key f l !! key v).
Proof.
  unfold index_by. induction l as [|w l IH] using rev_ind; intros Hv; [by apply not_elem_of_nil in Hv|]. rewrite foldl_snoc.
  destruct (decide (key w = key v)) as [E|Hne]; [by rewrite E, lookup_insert_eq|]. rewrite lookup_insert_ne by done.
  apply elem_of_app in Hv as [?| ->%list_elem_of_singleton]; [auto|done].
Qed.

Lemma group_lookup (test : V -> bool) l k :
  default [] (group_by test key f l !! k) = f <$> List.filter (fun v => test v && String.eqb (key v) k) l.
Proof.
  unfold group_by. induction l as [|v l IH] using rev_ind; [cbn [foldl]; by rewrite lookup_empty|].
  rewrite foldl_snoc, List.filter_app, fmap_app, <- IH. cbn [List.filter]. destruct (test v); [|by rewrite app_nil_r]. unfold push. cbn [andb].
  destruct (String.eqb_spec (key v) k) as [->|Hne]; [by rewrite lookup_insert_eq|].
  rewrite lookup_insert_ne by done. by rewrite app_nil_r.
Qed.
End Building.
