(* ===== verification/Status.v ===== *)
(** Service health and availability policies: [internal/domain/service.go].

    [Status] with its two merges [Worse] and [Better], and
    [AvailabilityPolicy.Evaluate], the capacity arithmetic that turns surviving
    instances into a status. *)
From Stdlib Require Import String ZArith Lia.
From stdpp Require Import base gmap strings list.
From S2P Require Import Prelude.

#[local] Open Scope string_scope.
#[local] Open Scope list_scope.
#[local] Open Scope Z_scope.

(** * Definitions *)

(** Availability policies. *)
Definition AvailStandalone := "standalone".
Definition AvailActiveActive := "active_active".
Definition AvailActivePassive := "active_passive".
Definition AvailQuorum := "quorum".
Definition AvailSharded := "sharded".

Definition FailoverAuto := "auto".
Definition FailoverManual := "manual".
Definition FailoverNone := "none".

Definition RolePrimary := "primary".
Definition RoleStandby := "standby".

(** Lifecycles, shared by every entity ([internal/domain/asset.go]). *)
Definition LifecyclePlanned := "planned".
Definition LifecycleActive := "active".
Definition LifecycleMaintenance := "maintenance".
Definition LifecycleDeprecated := "deprecated".
Definition LifecycleRetired := "retired".

(** [Status] is a Go string type; [StatusUnset] is its zero value [""], which
    a read of a missing map key produces. *)
Inductive Status := StatusUnset | StatusOK | StatusDegraded | StatusDown.

#[export] Instance Status_eq_dec : EqDecision Status.
Proof. solve_decision. Defined.

(** [string(status)] *)
Definition status_string (s : Status) : string :=
  match s with
  | StatusUnset => ""
  | StatusOK => "ok"
  | StatusDegraded => "degraded"
  | StatusDown => "down"
  end.

Definition rank (s : Status) : nat :=
  match s with
  | StatusDown => 2
  | StatusDegraded => 1
  | _ => 0
  end.

Definition Worse (s other : Status) : Status :=
  if (rank s <? rank other)%nat then other else s.

Definition Better (s other : Status) : Status :=
  if (rank other <? rank s)%nat then other else s.

Record InstanceHealth := {
  ih_ID : string;
  ih_Role : string;
  ih_Shard : string;
  ih_Alive : bool
}.

Record AvailabilityPolicy := {
  ap_Availability : string;
  ap_MinHealthy : option Z;
  ap_FailoverMode : option string
}.

(** The shard an instance counts for: its shard key, or its role. *)
Definition shard_key (i : InstanceHealth) : string :=
  if decide (ih_Shard i = "") then ih_Role i else ih_Shard i.

(** One turn of the loop that counts survivors per shard. *)
Definition shard_step (alive : gmap string Z) (i : InstanceHealth) : gmap string Z :=
  let shard := shard_key i in
  let alive := match alive !! shard with
               | Some _ => alive
               | None => <[shard := 0]> alive
               end in
  if ih_Alive i then <[shard := alive.[shard | 0] + 1]> alive else alive.

Record PassiveScan := {
  primaryAlive : bool;
  standbyAlive : bool;
  hasPrimary : bool
}.

(** One turn of the loop that looks for a primary and a living standby. *)
Definition passive_step (s : PassiveScan) (i : InstanceHealth) : PassiveScan :=
  if decide (ih_Role i = RolePrimary) then
    {| primaryAlive := primaryAlive s || ih_Alive i;
       standbyAlive := standbyAlive s; hasPrimary := true |}
  else if decide (ih_Role i = RoleStandby) then
    {| primaryAlive := primaryAlive s;
       standbyAlive := standbyAlive s || ih_Alive i; hasPrimary := hasPrimary s |}
  else s.

Definition evaluate_active_passive (p : AvailabilityPolicy)
    (instances : list InstanceHealth) : Status :=
  let s := foldl passive_step
             {| primaryAlive := false; standbyAlive := false; hasPrimary := false |}
             instances in
  if negb (hasPrimary s) then StatusDegraded
  else if primaryAlive s then StatusOK
  else if negb (standbyAlive s) then StatusDown
  else if decide (ap_FailoverMode p = Some FailoverAuto) then StatusOK
  else StatusDegraded.

Definition evaluate_sharded (instances : list InstanceHealth) : Status :=
  if existsb (fun kn => snd kn =? 0) (map_to_list (foldl shard_step ∅ instances))
  then StatusDegraded else StatusOK.

(** [AvailabilityPolicy.Evaluate] *)
Definition Evaluate (p : AvailabilityPolicy) (instances : list InstanceHealth) : Status :=
  let total := Z.of_nat (length instances) in
  if total =? 0 then StatusOK else
  let surviving := Z.of_nat (count_if ih_Alive instances) in
  if surviving =? total then StatusOK else
  if surviving =? 0 then StatusDown else
  if decide (ap_Availability p = AvailStandalone) then StatusOK
  else if decide (ap_Availability p = AvailQuorum) then
    if surviving <? Z.quot total 2 + 1 then StatusDown else StatusOK
  else if decide (ap_Availability p = AvailActiveActive) then
    let min := match ap_MinHealthy p with
               | Some m => if 0 <? m then m else 1
               | None => 1
               end in
    if surviving <? min then StatusDegraded else StatusOK
  else if decide (ap_Availability p = AvailActivePassive) then
    evaluate_active_passive p instances
  else if decide (ap_Availability p = AvailSharded) then
    evaluate_sharded instances
  else StatusDegraded.

(** The [service] row, as the engine and the store read it. *)
Record Service := {
  svc_ID : string;
  svc_Code : string;
  svc_Name : string;
  svc_Kind : string;
  svc_EnvironmentID : string;
  svc_Availability : string;
  svc_MinHealthy : option Z;
  svc_FailoverMode : option string;
  svc_Tier : Z;
  svc_RTOMinutes : option Z;
  svc_RPOMinutes : option Z;
  svc_TeamID : option string;
  svc_ManagerRole : option string;
  svc_Lifecycle : string;
  svc_EOLDate : option string;
  svc_Attrs : string;
  svc_CreatedAt : string;
  svc_UpdatedAt : string;
  svc_RowVersion : Z
}.

(** [Service.EvaluateCapacity] *)
Definition EvaluateCapacity (s : Service) (instances : list InstanceHealth) : Status :=
  Evaluate {| ap_Availability := svc_Availability s; ap_MinHealthy := svc_MinHealthy s;
              ap_FailoverMode := svc_FailoverMode s |} instances.

(** Three replicas, of which one or two live; for the witnesses. *)
Definition demo_health (second : bool) : list InstanceHealth :=
  [{| ih_ID := "a"; ih_Role := ""; ih_Shard := ""; ih_Alive := true |};
   {| ih_ID := "b"; ih_Role := ""; ih_Shard := ""; ih_Alive := second |};
   {| ih_ID := "c"; ih_Role := ""; ih_Shard := ""; ih_Alive := false |}].

(** * The severity order *)

(** [s ⊑ₛ t]: [t] is at least as severe as [s]. *)
Definition status_le (s t : Status) : Prop := (rank s <= rank t)%nat.
Infix "⊑ₛ" := status_le (at level 70) : go_scope.

(** Removing capacity: the same instance, alive only if it was alive before. *)
Definition loses (i j : InstanceHealth) : Prop :=
  ih_ID i = ih_ID j /\ ih_Role i = ih_Role j /\ ih_Shard i = ih_Shard j /\
  (ih_Alive j = true -> ih_Alive i = true).

(** * Lemmas *)

#[export] Instance status_le_preorder : PreOrder status_le.
Proof. split; unfold status_le; [intros ?; lia|intros ???; lia]. Qed.

Lemma Worse_ge_l s t : s ⊑ₛ Worse s t.
Proof. by destruct s, t; unfold status_le; cbn; lia. Qed.

Lemma Worse_ge_r s t : t ⊑ₛ Worse s t.
Proof. by destruct s, t; unfold status_le; cbn; lia. Qed.

Lemma Worse_least s t u : s ⊑ₛ u -> t ⊑ₛ u -> Worse s t ⊑ₛ u.
Proof. unfold Worse. by case_match. Qed.

Lemma Worse_cases s t : Worse s t = s \/ Worse s t = t.
Proof. unfold Worse. case_match; auto. Qed.

Lemma rank_Worse s t : rank (Worse s t) = Nat.max (rank s) (rank t).
Proof. by destruct s, t. Qed.

Lemma rank_Better s t : rank (Better s t) = Nat.min (rank s) (rank t).
Proof. by destruct s, t. Qed.

Lemma Worse_changes s t : Worse s t <> s -> (rank s < rank (Worse s t))%nat.
Proof. by destruct s, t; cbn; try done; intros; lia. Qed.

Lemma Worse_same s t : Worse s t = s -> t ⊑ₛ s.
Proof. by destruct s, t; unfold status_le; cbn; intros; simplify_eq; lia. Qed.

Lemma Worse_mono s s' t t' : s ⊑ₛ s' -> t ⊑ₛ t' -> Worse s t ⊑ₛ Worse s' t'.
Proof. unfold status_le. rewrite !rank_Worse. lia. Qed.

Lemma status_le_down s : s ⊑ₛ StatusDown.
Proof. by destruct s; unfold status_le; cbn; lia. Qed.

Lemma rank_le_2 s : (rank s <= 2)%nat.
Proof. by destruct s; cbn; lia. Qed.

Lemma rank_2_down s : rank s = 2%nat -> s = StatusDown.
Proof. by destruct s. Qed.

#[export] Hint Resolve Worse_ge_l Worse_ge_r status_le_down rank_le_2 : go.

(** ** Survivor counts *)

Lemma loses_count l l' :
  Forall2 loses l l' -> (count_if ih_Alive l' <= count_if ih_Alive l)%nat.
Proof.
  unfold count_if. induction 1 as [|i j l l' (?&?&?&Ha) _ IH]; cbn; [done|].
  destruct (ih_Alive j); [rewrite Ha by done; cbn; lia|].
  destruct (ih_Alive i); cbn; lia.
Qed.

Lemma count_if_eq_length {A} (p : A -> bool) l :
  count_if p l = length l <-> Forall (fun x => p x = true) l.
Proof.
  unfold count_if. induction l as [|x l IH]; cbn; [done|].
  rewrite Forall_cons, <- IH. pose proof (count_if_le p l). unfold count_if in *.
  destruct (p x); cbn; [|split; [lia|by intros []]]. split; [|intros []]; lia || auto.
Qed.

Lemma count_if_eq_0 {A} (p : A -> bool) l :
  count_if p l = 0%nat <-> Forall (fun x => p x = false) l.
Proof.
  unfold count_if. induction l as [|x l IH]; cbn; [done|].
  rewrite Forall_cons, <- IH. destruct (p x); cbn; split; [lia|by intros []|done|by intros []].
Qed.

(** ** The active/passive scan *)

Lemma passive_scan l s :
  foldl passive_step s l =
  {| primaryAlive := primaryAlive s ||
       existsb (fun i => bool_decide (ih_Role i = RolePrimary) && ih_Alive i) l;
     standbyAlive := standbyAlive s ||
       existsb (fun i => bool_decide (ih_Role i = RoleStandby) && ih_Alive i) l;
     hasPrimary := hasPrimary s || existsb (fun i => bool_decide (ih_Role i = RolePrimary)) l |}.
Proof.
  revert s. induction l as [|i l IH]; intros s; cbn.
  { destruct s; cbn. by rewrite !orb_false_r. }
  rewrite IH. unfold passive_step.
  destruct (decide (ih_Role i = RolePrimary)) as [E|N]; cbn.
  - rewrite E, (bool_decide_eq_true_2 (RolePrimary = RolePrimary)) by done.
    rewrite (bool_decide_eq_false_2 (RolePrimary = RoleStandby)) by done. cbn.
    by rewrite !orb_true_r, orb_assoc.
  - rewrite (bool_decide_eq_false_2 _ N). cbn.
    destruct (decide (ih_Role i = RoleStandby)) as [E|N']; cbn.
    + rewrite (bool_decide_eq_true_2 _ E). cbn. by rewrite orb_assoc.
    + by rewrite (bool_decide_eq_false_2 _ N').
Qed.

Lemma existsb_loses l l' (p : string -> bool) :
  Forall2 loses l l' ->
  existsb (fun i => p (ih_Role i) && ih_Alive i) l' = true ->
  existsb (fun i => p (ih_Role i) && ih_Alive i) l = true.
Proof.
  induction 1 as [|i j l l' (?&Hr&?&Ha) _ IH]; cbn; [done|].
  rewrite !orb_true_iff, !andb_true_iff, Hr. intuition.
Qed.

Lemma existsb_role_loses l l' (p : string -> bool) :
  Forall2 loses l l' ->
  existsb (fun i => p (ih_Role i)) l' = existsb (fun i => p (ih_Role i)) l.
Proof.
  induction 1 as [|i j l l' (?&Hr&?&Ha) _ IH]; cbn; [done|]. by rewrite Hr, IH.
Qed.

Lemma evaluate_active_passive_mono p l l' :
  Forall2 loses l l' -> evaluate_active_passive p l ⊑ₛ evaluate_active_passive p l'.
Proof.
  intros H. unfold evaluate_active_passive, status_le. rewrite !passive_scan. cbn.
  pose proof (existsb_role_loses _ _ (fun r => bool_decide (r = RolePrimary)) H) as HR.
  pose proof (existsb_loses _ _ (fun r => bool_decide (r = RolePrimary)) H) as HP.
  pose proof (existsb_loses _ _ (fun r => bool_decide (r = RoleStandby)) H) as HS.
  cbn in HP, HS, HR. rewrite HR. split_cases; intuition congruence || lia.
Qed.

(** ** The shard count *)

Definition shard_alive (k : string) (l : list InstanceHealth) : Z :=
  Z.of_nat (count_if (fun i => bool_decide (shard_key i = k) && ih_Alive i) l).

Lemma shard_step_lookup m i k :
  shard_step m i !! k =
  if decide (shard_key i = k)
  then Some (m.[k | 0] + if ih_Alive i then 1 else 0) else m !! k.
Proof.
  unfold shard_step.
  destruct (m !! shard_key i) as [n|] eqn:E; destruct (ih_Alive i);
    destruct (decide (shard_key i = k)) as [<-|]; rewrite ?lookup_insert_eq;
    rewrite ?lookup_insert_ne by done; rewrite ?E; cbn; try done; f_equal; lia.
Qed.

Lemma shard_counts l m k :
  foldl shard_step m l !! k =
  match m !! k with
  | Some n => Some (n + shard_alive k l)
  | None => if existsb (fun i => bool_decide (shard_key i = k)) l
            then Some (shard_alive k l) else None
  end.
Proof.
  unfold shard_alive, count_if. revert m. induction l as [|i l IH]; intros m; cbn.
  { destruct (m !! k); [f_equal; lia|done]. }
  rewrite IH, shard_step_lookup.
  destruct (decide (shard_key i = k)) as [E|N].
  - rewrite (bool_decide_eq_true_2 _ E). cbn.
    destruct (m !! k), (ih_Alive i); cbn; f_equal; lia.
  - rewrite (bool_decide_eq_false_2 _ N). cbn. done.
Qed.

(** A shard is lost when every one of its instances is dead. *)
Definition shard_lost (l : list InstanceHealth) : Prop :=
  exists i, i ∈ l /\ forall j, j ∈ l -> shard_key j = shard_key i -> ih_Alive j = false.

Lemma shard_alive_0 k l :
  shard_alive k l = 0 <-> forall j, j ∈ l -> shard_key j = k -> ih_Alive j = false.
Proof.
  unfold shard_alive. split.
  - intros H%(Nat2Z.inj _ 0)%count_if_eq_0 j Hj Hk. rewrite Forall_forall in H.
    specialize (H j Hj). by rewrite (bool_decide_eq_true_2 _ Hk) in H.
  - intros H. replace (count_if _ l) with 0%nat; [done|]. symmetry.
    apply count_if_eq_0, Forall_forall. intros j Hj.
    case_bool_decide; [by apply H|done].
Qed.

Lemma evaluate_sharded_lost l : evaluate_sharded l = StatusDegraded <-> shard_lost l.
Proof.
  unfold evaluate_sharded.
  assert (Hiff : existsb (fun kn => snd kn =? 0) (map_to_list (foldl shard_step ∅ l)) = true
                 <-> shard_lost l).
  { rewrite existsb_exists. split.
    - intros ([k n] & Hin & Hz%Z.eqb_eq). cbn in Hz. subst n.
      apply list_elem_of_In, elem_of_map_to_list in Hin.
      rewrite shard_counts, lookup_empty in Hin. case_match eqn:E; [|done].
      simplify_eq. apply existsb_exists in E as (i & Hi%list_elem_of_In & Hk%bool_decide_eq_true).
      exists i. split; [done|]. rewrite Hk. by apply shard_alive_0.
    - intros (i & Hi & Hdead). exists (shard_key i, 0). split; [|done].
      apply list_elem_of_In, elem_of_map_to_list. rewrite shard_counts, lookup_empty.
      rewrite (proj2 (existsb_exists _ _)).
      + f_equal. by apply shard_alive_0.
      + exists i. rewrite <- list_elem_of_In. by rewrite bool_decide_eq_true. }
  case_match; intuition congruence.
Qed.

Lemma evaluate_sharded_ok l : ~ shard_lost l -> evaluate_sharded l = StatusOK.
Proof.
  rewrite <- evaluate_sharded_lost. unfold evaluate_sharded. by case_match.
Qed.

Lemma Forall2_elem_r {A B} (R : A -> B -> Prop) l l' y :
  Forall2 R l l' -> y ∈ l' -> exists x, x ∈ l /\ R x y.
Proof.
  induction 1; [by intros ?%elem_of_nil|]. intros [->|Hy]%elem_of_cons.
  - eexists. split; [left|done].
  - destruct IHForall2 as (z & ? & ?); [done|]. exists z. split; [by right|done].
Qed.

Lemma Forall2_elem_l {A B} (R : A -> B -> Prop) l l' x :
  Forall2 R l l' -> x ∈ l -> exists y, y ∈ l' /\ R x y.
Proof.
  induction 1; [by intros ?%elem_of_nil|]. intros [->|Hy]%elem_of_cons.
  - eexists. split; [left|done].
  - destruct IHForall2 as (z & ? & ?); [done|]. exists z. split; [by right|done].
Qed.

Lemma loses_shard_key i j : loses i j -> shard_key i = shard_key j.
Proof. unfold shard_key. intros (_ & -> & -> & _). done. Qed.

Lemma evaluate_sharded_mono l l' :
  Forall2 loses l l' -> evaluate_sharded l ⊑ₛ evaluate_sharded l'.
Proof.
  intros H. destruct (evaluate_sharded l) eqn:E; unfold evaluate_sharded in E;
    try (case_match; discriminate); [unfold status_le; cbn; lia|].
  fold (evaluate_sharded l) in E. apply evaluate_sharded_lost in E as (i & Hi & Hdead).
  replace (evaluate_sharded l') with StatusDegraded; [reflexivity|]. symmetry.
  apply evaluate_sharded_lost.
  destruct (Forall2_elem_l _ _ _ _ H Hi) as (i' & Hi' & Hl).
  exists i'. split; [done|]. intros j' Hj' Hk.
  destruct (Forall2_elem_r _ _ _ _ H Hj') as (j & Hj & Hlj).
  destruct (ih_Alive j') eqn:Ea; [|done].
  rewrite <- (Hdead j Hj); [symmetry; by apply Hlj|].
  by rewrite (loses_shard_key _ _ Hl), (loses_shard_key _ _ Hlj).
Qed.

(** ** Evaluation *)

Lemma Evaluate_mono p l l' : Forall2 loses l l' -> Evaluate p l ⊑ₛ Evaluate p l'.
Proof.
  intros H. pose proof (loses_count _ _ H). pose proof (Forall2_length _ _ _ H) as Hlen.
  pose proof (count_if_le ih_Alive l). pose proof (count_if_le ih_Alive l').
  unfold Evaluate. rewrite <- Hlen.
  destruct (Z.of_nat (length l) =? 0) eqn:E0; [done|].
  destruct (Z.of_nat (count_if ih_Alive l) =? Z.of_nat (length l)) eqn:E1.
  { destruct (_ =? _); [done|unfold status_le; cbn; lia]. }
  destruct (Z.of_nat (count_if ih_Alive l) =? 0) eqn:E2.
  { rewrite (proj2 (Z.eqb_neq _ (Z.of_nat (length l)))) by lia.
    rewrite (proj2 (Z.eqb_eq _ 0)) by lia. done. }
  rewrite (proj2 (Z.eqb_neq (Z.of_nat (count_if ih_Alive l')) (Z.of_nat (length l)))) by lia.
  destruct (Z.of_nat (count_if ih_Alive l') =? 0); [apply status_le_down|].
  repeat case_decide; try done; try by apply evaluate_active_passive_mono.
  - unfold status_le. split_cases; lia.
  - unfold status_le. split_cases; lia.
  - by apply evaluate_sharded_mono.
Qed.

Lemma evaluate_sharded_perm l l' : l ≡ₚ l' -> evaluate_sharded l = evaluate_sharded l'.
Proof.
  intros H.
  assert (Hl : shard_lost l <-> shard_lost l').
  { unfold shard_lost. split; intros (i & Hi & Hd); exists i.
    - split; [by rewrite <- H|]. intros j Hj. apply Hd. by rewrite H.
    - split; [by rewrite H|]. intros j Hj. apply Hd. by rewrite <- H. }
  rewrite <- !evaluate_sharded_lost in Hl. revert Hl.
  unfold evaluate_sharded. split_cases; intuition congruence.
Qed.

Lemma Evaluate_perm p l l' : l ≡ₚ l' -> Evaluate p l = Evaluate p l'.
Proof.
  intros H. unfold Evaluate. rewrite (Permutation_length H), (count_if_perm _ _ _ H).
  rewrite (evaluate_sharded_perm _ _ H).
  unfold evaluate_active_passive. rewrite !passive_scan. cbn.
  by rewrite !(existsb_perm _ _ _ H).
Qed.

Lemma Evaluate_all_alive p l : Forall (fun i => ih_Alive i = true) l -> Evaluate p l = StatusOK.
Proof.
  intros H%count_if_eq_length. unfold Evaluate. rewrite H, Z.eqb_refl. by case_match.
Qed.

Lemma Evaluate_none_alive p l :
  l <> [] -> Forall (fun i => ih_Alive i = false) l -> Evaluate p l = StatusDown.
Proof.
  intros Hl H%count_if_eq_0. unfold Evaluate. rewrite H.
  destruct l; [done|]. cbn [length]. by rewrite !(proj2 (Z.eqb_neq _ _)) by lia.
Qed.

Lemma Evaluate_set p l : Evaluate p l <> StatusUnset.
Proof.
  unfold Evaluate, evaluate_active_passive, evaluate_sharded. by split_cases.
Qed.

(** Half the instances, counted as the code counts them. *)
Lemma quorum_majority surviving total :
  0 <= total -> (surviving <? Z.quot total 2 + 1) = true <-> 2 * surviving <= total.
Proof.
  intros H. rewrite Z.ltb_lt, Z.quot_div_nonneg by lia.
  pose proof (Z.div_mod total 2). pose proof (Z.mod_pos_bound total 2). lia.
Qed.

Lemma evaluate_active_passive_spec p l :
  let primaries := List.filter (fun i => bool_decide (ih_Role i = RolePrimary)) l in
  let standbys := List.filter (fun i => bool_decide (ih_Role i = RoleStandby)) l in
  evaluate_active_passive p l =
    if decide (primaries = []) then StatusDegraded
    else if existsb ih_Alive primaries then StatusOK
    else if negb (existsb ih_Alive standbys) then StatusDown
    else if decide (ap_FailoverMode p = Some FailoverAuto) then StatusOK else StatusDegraded.
Proof.
  intros primaries standbys. unfold evaluate_active_passive. rewrite passive_scan.
  cbn [primaryAlive standbyAlive hasPrimary orb].
  assert (Hex : forall (r : string),
    existsb (fun i => bool_decide (ih_Role i = r) && ih_Alive i) l =
    existsb ih_Alive (List.filter (fun i => bool_decide (ih_Role i = r)) l)).
  { intros r. induction l as [|i l IH]; [done|]. cbn. case_match; cbn; by rewrite IH. }
  rewrite !Hex.
  assert (Hp : existsb (fun i => bool_decide (ih_Role i = RolePrimary)) l =
               negb (bool_decide (primaries = []))).
  { subst primaries standbys. clear. induction l as [|i l IH]; [done|]. cbn [existsb List.filter].
    destruct (bool_decide (ih_Role i = RolePrimary)); [done|exact IH]. }
  rewrite Hp. destruct (decide (primaries = [])) as [E|E].
  - by rewrite bool_decide_eq_true_2.
  - by rewrite bool_decide_eq_false_2.
Qed.

(** * Properties *)

(** Capacity is monotone under every policy: when the same instances are
    looked at and fewer of them are alive, the status is at least as severe. *)
Theorem Evaluate_monotone p l l' :
  Forall2 loses l l' -> Evaluate p l ⊑ₛ Evaluate p l'.
Proof. apply Evaluate_mono. Qed.

Lemma Evaluate_monotone_witness :
  Evaluate {| ap_Availability := AvailQuorum; ap_MinHealthy := None; ap_FailoverMode := None |}
    (demo_health true) ⊑ₛ
  Evaluate {| ap_Availability := AvailQuorum; ap_MinHealthy := None; ap_FailoverMode := None |}
    (demo_health false).
Proof.
  apply Evaluate_monotone. unfold demo_health. repeat constructor; unfold loses; cbn; auto.
Defined.

(** What each policy makes of a partial loss. A quorum is down exactly when
    no strict majority survives; an active-active set is degraded exactly when
    fewer survive than its minimum, which is one unless a positive minimum is
    set; a sharded set is degraded exactly when some shard has lost every
    replica; an active-passive pair without a living primary is down unless a
    standby lives, and then ok only under automatic failover. *)
Theorem Evaluate_partial_loss p l :
  (0 < count_if ih_Alive l < length l)%nat ->
  let alive := Z.of_nat (count_if ih_Alive l) in
  let min := match ap_MinHealthy p with Some m => Z.max 1 m | None => 1 end in
  let primaries := List.filter (fun i => bool_decide (ih_Role i = RolePrimary)) l in
  let standbys := List.filter (fun i => bool_decide (ih_Role i = RoleStandby)) l in
  (ap_Availability p = AvailQuorum ->
     Evaluate p l = if bool_decide (2 * alive <= Z.of_nat (length l)) then StatusDown else StatusOK) /\
  (ap_Availability p = AvailActiveActive ->
     Evaluate p l = if bool_decide (alive < min) then StatusDegraded else StatusOK) /\
  (ap_Availability p = AvailSharded -> (Evaluate p l = StatusDegraded <-> shard_lost l) /\
     (Evaluate p l = StatusOK <-> ~ shard_lost l)) /\
  (ap_Availability p = AvailActivePassive -> primaries <> [] -> existsb ih_Alive primaries = false ->
     Evaluate p l = if existsb ih_Alive standbys
                    then if decide (ap_FailoverMode p = Some FailoverAuto) then StatusOK else StatusDegraded
                    else StatusDown).
Proof.
  intros Hl alive min primaries standbys. unfold Evaluate. fold alive.
  rewrite !(proj2 (Z.eqb_neq _ _)) by lia. split_and!; intros Ha; rewrite Ha.
  - rewrite decide_False, decide_True by done.
    destruct (alive <? _) eqn:E.
    + apply quorum_majority in E; [by rewrite bool_decide_eq_true_2|lia].
    + rewrite bool_decide_eq_false_2; [done|]. rewrite <- quorum_majority by lia. congruence.
  - rewrite !decide_False, decide_True by done.
    assert (match ap_MinHealthy p with Some m => if 0 <? m then m else 1 | None => 1 end = min) as ->.
    { subst min. destruct (ap_MinHealthy p) as [m|]; [|done]. destruct (0 <? m) eqn:E; lia. }
    destruct (alive <? min) eqn:E;
      [rewrite bool_decide_eq_true_2|rewrite bool_decide_eq_false_2]; done || lia.
  - rewrite !decide_False, decide_True by done. split; [apply evaluate_sharded_lost|].
    rewrite <- evaluate_sharded_lost. unfold evaluate_sharded. case_match; naive_solver.
  - intros Hp Hd. rewrite !decide_False, decide_True by done.
    rewrite evaluate_active_passive_spec. fold primaries standbys.
    rewrite decide_False, Hd by done. by destruct (existsb ih_Alive standbys).
Qed.

Lemma Evaluate_partial_loss_witness :
  Evaluate {| ap_Availability := AvailQuorum; ap_MinHealthy := None; ap_FailoverMode := None |}
    (demo_health false) = StatusDown.
Proof.
  refine (proj1 (Evaluate_partial_loss
    {| ap_Availability := AvailQuorum; ap_MinHealthy := None; ap_FailoverMode := None |}
    (demo_health false) _) _); [vm_compute; lia|reflexivity].
Defined.
