(* ===== verification/Dependency.v ===== *)
(** Dependency edges and their failure semantics:
    [internal/domain/dependency.go].

    [Propagate] is the nature table that decides what a provider's status does
    to its consumer. *)
From Stdlib Require Import String ZArith Qcanon Lia.
From stdpp Require Import base gmap strings list.
From S2P Require Import Prelude Status.

#[local] Open Scope string_scope.
#[local] Open Scope list_scope.
#[local] Open Scope Z_scope.

(** * Definitions *)

Definition NatureHard := "hard".
Definition NatureSoft := "soft".
Definition NatureStartup := "startup".
Definition NatureAsync := "async".
Definition NatureOptional := "optional".

Definition Natures := [NatureHard; NatureSoft; NatureStartup; NatureAsync; NatureOptional].

(** The [dependency] row. A confidence is the number its [float64] stands for. *)
Record Dependency := {
  dep_ID : string;
  dep_ConsumerServiceID : string;
  dep_ConsumerInstanceID : option string;
  dep_ProviderEndpointID : option string;
  dep_ProviderRouteID : option string;
  dep_Nature : string;
  dep_ToleranceSeconds : option Z;
  dep_FailureMode : string;
  dep_IdentityID : option string;
  dep_AuthMethod : option string;
  dep_FirewallRuleRef : option string;
  dep_Source : string;
  dep_Confidence : option Qc;
  dep_FirstSeen : option string;
  dep_LastSeen : option string;
  dep_VerifiedBy : option string;
  dep_VerifiedAt : option string;
  dep_Lifecycle : string;
  dep_CreatedAt : string;
  dep_UpdatedAt : string;
  dep_RowVersion : Z
}.

Record Propagation := {
  prop_Status : Status;
  prop_WontRestart : bool
}.

Definition unaffected : Propagation :=
  {| prop_Status := StatusOK; prop_WontRestart := false |}.

Definition merge_status (s : Status) : Propagation :=
  {| prop_Status := s; prop_WontRestart := false |}.

(** [Dependency.Propagate] *)
Definition Propagate (d : Dependency) (provider : Status) (windowSeconds : Z) : Propagation :=
  if decide (provider = StatusOK) then unaffected else
  if decide (dep_Nature d = NatureHard) then
    if decide (provider = StatusDown) then merge_status StatusDown
    else merge_status StatusDegraded
  else if decide (dep_Nature d = NatureSoft) then
    if decide (provider = StatusDown) then merge_status StatusDegraded else unaffected
  else if decide (dep_Nature d = NatureAsync) then
    match dep_ToleranceSeconds d with
    | Some tolerance =>
        if bool_decide (provider = StatusDown) && (tolerance <? windowSeconds)
        then merge_status StatusDegraded else unaffected
    | None => unaffected
    end
  else if decide (dep_Nature d = NatureStartup) then
    if decide (provider = StatusDown)
    then {| prop_Status := StatusOK; prop_WontRestart := true |} else unaffected
  else unaffected.

(** [NatureDescription] *)
Definition NatureDescription (nature : string) : string :=
  if decide (nature = NatureHard) then "Consumer goes down immediately"
  else if decide (nature = NatureSoft) then "Consumer degrades but keeps serving"
  else if decide (nature = NatureStartup) then "Fine now, but will not restart"
  else if decide (nature = NatureAsync) then "Fine until the tolerance window elapses"
  else if decide (nature = NatureOptional) then "No effect"
  else "".

(** A retired edge carries nothing. *)
Definition dep_live (d : Dependency) : Prop := dep_Lifecycle d <> LifecycleRetired.

(** The provider's status as the model computes it: the zero value [""] ranks
    with [ok] but is not equal to it, and the table treats it as degraded. *)
Definition status_set (s : Status) : Prop := s <> StatusUnset.

(** * Lemmas *)

Lemma Propagate_ok d w : Propagate d StatusOK w = unaffected.
Proof. unfold Propagate. by rewrite decide_True. Qed.

(** A worse provider never does less damage. *)
Lemma Propagate_mono d w s t :
  status_set s -> s ⊑ₛ t -> prop_Status (Propagate d s w) ⊑ₛ prop_Status (Propagate d t w).
Proof.
  unfold status_set, Propagate, status_le. intros Hs Hle.
  destruct s, t; cbn in Hle; try done; try lia; split_cases; cbn; try lia; congruence.
Qed.

(** No nature amplifies: the consumer is never hit harder than the provider. *)
Lemma Propagate_le_provider d w s :
  status_set s -> prop_Status (Propagate d s w) ⊑ₛ s.
Proof.
  unfold status_set, Propagate, status_le. destruct s; try done; intros _;
    split_cases; cbn; try lia; congruence.
Qed.

Lemma Propagate_wontrestart d w s :
  prop_WontRestart (Propagate d s w) = true <->
  s = StatusDown /\ dep_Nature d = NatureStartup.
Proof.
  unfold Propagate. split.
  - split_cases; done.
  - intros [-> ->]. by vm_compute.
Qed.

Lemma Propagate_set d w s : status_set (prop_Status (Propagate d s w)).
Proof. unfold Propagate, status_set. by split_cases. Qed.

#[export] Hint Resolve Propagate_set : go.

(** * Properties *)

(** The nature table. A healthy provider costs its consumer nothing; no
    nature hits the consumer harder than the provider is hit; only a hard
    dependency on a provider that is down takes the consumer down; only a startup
    dependency on one that is down marks it unable to restart. *)
Lemma Propagate_table d w s :
  Propagate d StatusOK w = unaffected /\
  (status_set s -> prop_Status (Propagate d s w) ⊑ₛ s) /\
  (prop_Status (Propagate d s w) = StatusDown <-> s = StatusDown /\ dep_Nature d = NatureHard) /\
  (prop_WontRestart (Propagate d s w) = true <->
     s = StatusDown /\ dep_Nature d = NatureStartup).
Proof.
  split_and!.
  - apply Propagate_ok.
  - apply Propagate_le_provider.
  - unfold Propagate. split; [by split_cases|]. by intros [-> ->].
  - apply Propagate_wontrestart.
Qed.
