(* ===== verification/Graph.v ===== *)
(** The data the impact engine reasons about: [internal/impact/graph.go] and
    the input types of [clusters.go], [structures.go] and [reach.go].

    A Go [map[string]T] is a [gmap string T]; a [map[string]bool] that only
    ever holds [true] is a [gset string]. The services of a graph are stored by
    pointer in Go, and a missing service is the nil pointer a map miss gives. *)
From Stdlib Require Import String ZArith.
From stdpp Require Import base gmap strings list.
From S2P Require Import Prelude Status Dependency.

#[local] Open Scope string_scope.
#[local] Open Scope list_scope.

(** * Services and edges *)

Record Instance := {
  inst_ID : string;
  inst_ServiceID : string;
  inst_HostAssetID : string;
  inst_Role : string;
  inst_Shard : string;
  inst_Disabled : bool
}.

Record Endpoint := {
  ep_ID : string;
  ep_ServiceID : string;
  ep_Name : string;
  ep_BindScope : string;
  ep_Exposure : string;
  ep_ServiceEnvID : string
}.

Record Route := {
  rt_ID : string;
  rt_FrontendEndpointID : string;
  rt_BackendPoolID : string;
  rt_Name : string
}.

(** * Clusters and structures *)

Record Cluster := {
  cl_ID : string;
  cl_Name : string;
  cl_HAPolicy : string;
  cl_MinHosts : option Z;
  cl_MemberAssetIDs : list string;
  cl_GuestsByHost : gmap string (list string)
}.

Record Structure_ := {
  st_Kind : string;
  st_ID : string;
  st_Name : string;
  st_AssetIDs : list string
}.

(** * The net graph *)

Definition PlaneData := "data".
Definition PlaneMgmt := "mgmt".
Definition PlaneStorage := "storage".

Record NetGroupInfo := {
  ng_ID : string;
  ng_Code : string;
  ng_Availability : string;
  ng_MinHealthy : option Z;
  ng_FailoverMode : option string
}.

Record NetGroupMemberInfo := {
  ngm_AssetID : string;
  ngm_Role : string;
  ngm_AssetLifecycle : string
}.

Record NetUplinkInfo := {
  up_GroupID : string;
  up_UpstreamGroupID : string;
  up_Plane : string;
  up_CircuitID : string;
  up_LinkID : string;
  up_Label : string
}.

Record NetAttachmentInfo := {
  att_ID : string;
  att_AssetID : string;
  att_GroupID : string;
  att_Plane : string
}.

Record NetAttachmentMemberInfo := {
  attm_AssetID : string;
  attm_AssetLifecycle : string
}.

Record NetAnchorInfo := {
  anc_Code : string;
  anc_Scope : string;
  anc_GroupID : string;
  anc_Plane : string;
  anc_EnvironmentID : option string
}.

Record ClosureRow := {
  cr_AncestorID : string;
  cr_DescendantID : string;
  cr_Depth : Z
}.

Record AssetLabel := {
  al_Name : string;
  al_Kind : string
}.

Record NetGraph := {
  net_Groups : gmap string NetGroupInfo;
  net_Members : gmap string (list NetGroupMemberInfo);
  net_Uplinks : list NetUplinkInfo;
  net_Attachments : list NetAttachmentInfo;
  net_AttachmentMembers : gmap string (list NetAttachmentMemberInfo);
  net_Anchors : list NetAnchorInfo;
  net_Closure : list ClosureRow;
  net_AssetNames : gmap string AssetLabel
}.

(** [NewNetGraph] *)
Definition NewNetGraph : NetGraph :=
  {| net_Groups := ∅; net_Members := ∅; net_Uplinks := []; net_Attachments := [];
     net_AttachmentMembers := ∅; net_Anchors := []; net_Closure := [];
     net_AssetNames := ∅ |}.

(** [NetGraph.IsEmpty]; [None] is the nil pointer. *)
Definition IsEmpty (n : option NetGraph) : bool :=
  match n with
  | None => true
  | Some n => bool_decide (size (net_Groups n) = 0 /\ length (net_Attachments n) = 0 /\
                           length (net_Anchors n) = 0)
  end.

(** * The graph *)

Record Graph := {
  g_Services : gmap string Service;
  g_Instances : gmap string (list Instance);
  g_Endpoints : gmap string Endpoint;
  g_Routes : gmap string Route;
  g_PoolMembers : gmap string (list string);
  g_Deps : list Dependency;
  g_ServiceClusterAssetID : gmap string string;
  g_ClusterNodes : gmap string (list string);
  g_Clusters : list Cluster;
  g_Structures : list Structure_;
  g_Net : option NetGraph
}.

(** [NewGraph] *)
Definition NewGraph : Graph :=
  {| g_Services := ∅; g_Instances := ∅; g_Endpoints := ∅; g_Routes := ∅;
     g_PoolMembers := ∅; g_Deps := []; g_ServiceClusterAssetID := ∅;
     g_ClusterNodes := ∅; g_Clusters := []; g_Structures := []; g_Net := None |}.

(** [Graph.providerServiceID]: [""] when the provider does not resolve. *)
Definition providerServiceID (g : Graph) (d : Dependency) : string :=
  match dep_ProviderEndpointID d with
  | Some e => match g_Endpoints g !! e with
              | Some ep => ep_ServiceID ep
              | None => ""
              end
  | None =>
      match dep_ProviderRouteID d with
      | Some r =>
          match g_Routes g !! r with
          | Some rt => match g_Endpoints g !! rt_FrontendEndpointID rt with
                       | Some ep => ep_ServiceID ep
                       | None => ""
                       end
          | None => ""
          end
      | None => ""
      end
  end.

(** [codeOf] ([internal/impact/engine.go]) *)
Definition codeOf (g : Graph) (serviceID : string) : string :=
  match g_Services g !! serviceID with
  | Some svc => svc_Code svc
  | None => serviceID
  end.

(** * Bind scopes ([internal/domain/endpoint.go]) *)

Definition BindLoopback := "loopback".
Definition BindHost := "host".
Definition BindVIP := "vip".
Definition BindClusterIP := "cluster_ip".
Definition BindNodePort := "node_port".
Definition BindIngress := "ingress".
Definition BindUnix := "unix".

(** [domain.IsLocalBind], which [isLocalBind] of [reach.go] delegates to. *)
Definition isLocalBind (scope : string) : bool :=
  bool_decide (scope = BindLoopback) || bool_decide (scope = BindUnix).

(** [providerEndpointForDep] ([internal/impact/reach.go]) *)
Definition providerEndpointForDep (g : Graph) (dep : Dependency) : option Endpoint :=
  match dep_ProviderEndpointID dep with
  | Some e => g_Endpoints g !! e
  | None =>
      match dep_ProviderRouteID dep with
      | Some r => rt ← g_Routes g !! r; g_Endpoints g !! rt_FrontendEndpointID rt
      | None => None
      end
  end.

(** * Lemmas *)

(** Both resolutions of a provider agree. *)
Lemma providerServiceID_endpoint g d :
  providerServiceID g d =
  match providerEndpointForDep g d with Some ep => ep_ServiceID ep | None => "" end.
Proof.
  unfold providerServiceID, providerEndpointForDep.
  destruct (dep_ProviderEndpointID d) as [e|]; [done|].
  destruct (dep_ProviderRouteID d) as [r|]; [|done].
  by destruct (g_Routes g !! r).
Qed.
