(* ===== verification/Fixtures.v ===== *)
(** Small concrete estates on which the witnesses evaluate the model. Nothing
    here models code. *)
From Stdlib Require Import String ZArith.
From stdpp Require Import base gmap strings list pretty.
From S2P Require Import Prelude Status Dependency Graph.

#[local] Open Scope string_scope.
#[local] Open Scope list_scope.

Definition mk_service (id availability : string) (min : option Z) (failover : option string)
    (tier : Z) : Service :=
  {| svc_ID := id; svc_Code := id; svc_Name := id; svc_Kind := "api";
     svc_EnvironmentID := "env"; svc_Availability := availability; svc_MinHealthy := min;
     svc_FailoverMode := failover; svc_Tier := tier; svc_RTOMinutes := None;
     svc_RPOMinutes := None; svc_TeamID := None; svc_ManagerRole := None;
     svc_Lifecycle := LifecycleActive; svc_EOLDate := None; svc_Attrs := "{}";
     svc_CreatedAt := ""; svc_UpdatedAt := ""; svc_RowVersion := 1 |}.

Definition plain_service (id : string) : Service :=
  mk_service id AvailStandalone None None 1.

Definition mk_endpoint (id svc scope exposure : string) : Endpoint :=
  {| ep_ID := id; ep_ServiceID := svc; ep_Name := id; ep_BindScope := scope;
     ep_Exposure := exposure; ep_ServiceEnvID := "env" |}.

Definition mk_dep (id consumer : string) (endpoint route : option string) (nature : string)
    (tolerance : option Z) : Dependency :=
  {| dep_ID := id; dep_ConsumerServiceID := consumer; dep_ConsumerInstanceID := None;
     dep_ProviderEndpointID := endpoint; dep_ProviderRouteID := route; dep_Nature := nature;
     dep_ToleranceSeconds := tolerance; dep_FailureMode := "stops"; dep_IdentityID := None;
     dep_AuthMethod := None; dep_FirewallRuleRef := None; dep_Source := "declared";
     dep_Confidence := None; dep_FirstSeen := None; dep_LastSeen := None; dep_VerifiedBy := None;
     dep_VerifiedAt := None; dep_Lifecycle := LifecycleActive; dep_CreatedAt := "";
     dep_UpdatedAt := ""; dep_RowVersion := 1 |}.

Definition mk_instance (id svc host role : string) : Instance :=
  {| inst_ID := id; inst_ServiceID := svc; inst_HostAssetID := host; inst_Role := role;
     inst_Shard := ""; inst_Disabled := false |}.

(** A graph of standalone services joined by dependencies; every service has
    one endpoint, named after it, and one instance on a host named after it. *)
Definition service_graph (ids : list string) (deps : list Dependency) : Graph :=
  {| g_Services := list_to_map ((fun s => (s, plain_service s)) <$> ids);
     g_Instances := list_to_map ((fun s => (s, [mk_instance s s ("host-" +++ s) ""])) <$> ids);
     g_Endpoints := list_to_map ((fun s => (s, mk_endpoint s s BindHost "internal")) <$> ids);
     g_Routes := ∅; g_PoolMembers := ∅; g_Deps := deps; g_ServiceClusterAssetID := ∅;
     g_ClusterNodes := ∅; g_Clusters := []; g_Structures := []; g_Net := None |}.

(** [consumer] depends on [provider]'s endpoint. *)
Definition edge (consumer provider nature : string) : Dependency :=
  mk_dep (consumer +++ ">" +++ provider) consumer (Some provider) None nature None.

(** app -> db -> auth, and batch needs db at boot only. *)
Definition demo_graph : Graph :=
  service_graph ["app"; "db"; "auth"; "batch"]
    [edge "app" "db" NatureHard; edge "db" "auth" NatureSoft; edge "batch" "db" NatureStartup].

(** The [n]-th service of a chain. *)
Definition link_name (n : nat) : string := "s" +++ pretty n.

(** s0 -> s1 -> ... -> sn by hard edges, listed from the consumer end. *)
Definition chain_graph (n : nat) : Graph :=
  service_graph (link_name <$> seq 0 (S n))
    ((fun i => edge (link_name i) (link_name (S i)) NatureHard) <$> seq 0 n).

(** Every service up except the last of the chain. *)
Definition chain_statuses (n : nat) : gmap string Status :=
  <[link_name n := StatusDown]>
    (list_to_map ((fun i => (link_name i, StatusOK)) <$> seq 0 (S n))).

(** ** A small network

    Hosts h1 and h2 behind the forwarder groups core and edge; core's uplink
    runs to edge, where the anchor is. *)
Definition mk_group (id : string) : NetGroupInfo :=
  {| ng_ID := id; ng_Code := id; ng_Availability := AvailStandalone;
     ng_MinHealthy := None; ng_FailoverMode := None |}.

Definition mk_member (asset : string) : NetGroupMemberInfo :=
  {| ngm_AssetID := asset; ngm_Role := ""; ngm_AssetLifecycle := LifecycleActive |}.

Definition mk_attachment (id asset group : string) : NetAttachmentInfo :=
  {| att_ID := id; att_AssetID := asset; att_GroupID := group; att_Plane := PlaneData |}.

Definition demo_uplink : NetUplinkInfo :=
  {| up_GroupID := "core"; up_UpstreamGroupID := "edge"; up_Plane := PlaneData;
     up_CircuitID := "circuit"; up_LinkID := ""; up_Label := "" |}.

Definition demo_net : NetGraph :=
  {| net_Groups := {["core" := mk_group "core"; "edge" := mk_group "edge"]};
     net_Members := {["core" := [mk_member "sw1"]; "edge" := [mk_member "sw2"]]};
     net_Uplinks := [demo_uplink];
     net_Attachments := [mk_attachment "a1" "h1" "core"; mk_attachment "a2" "h2" "edge"];
     net_AttachmentMembers := ∅;
     net_Anchors := [{| anc_Code := "inet"; anc_Scope := "public"; anc_GroupID := "edge";
                        anc_Plane := PlaneData; anc_EnvironmentID := None |}];
     net_Closure := [{| cr_AncestorID := "h1"; cr_DescendantID := "h1"; cr_Depth := 0 |};
                     {| cr_AncestorID := "h2"; cr_DescendantID := "h2"; cr_Depth := 0 |}];
     net_AssetNames := ∅ |}.

(** web, published on h1, uses db on h2. *)
Definition net_graph : Graph :=
  {| g_Services := {["web" := plain_service "web"; "db" := plain_service "db"]};
     g_Instances := {["web" := [mk_instance "web" "web" "h1" ""];
                      "db" := [mk_instance "db" "db" "h2" ""]]};
     g_Endpoints := {["web" := mk_endpoint "web" "web" BindHost "public";
                      "db" := mk_endpoint "db" "db" BindHost "internal"]};
     g_Routes := ∅; g_PoolMembers := ∅; g_Deps := [edge "web" "db" NatureHard];
     g_ServiceClusterAssetID := ∅; g_ClusterNodes := ∅; g_Clusters := [];
     g_Structures := []; g_Net := Some demo_net |}.

Definition net_alive : gmap string (list string) := {["web" := ["h1"]; "db" := ["h2"]]}.
