(* ===== verification/Cluster.v ===== *)
(** Cluster high availability: [internal/domain/cluster.go] ([CanRelocate]) and
    [internal/impact/clusters.go] ([applyClusterHA]).

    Runs before every other phase of the engine and decides which guests of
    failed hosts restarted elsewhere. *)
From Stdlib Require Import String ZArith Lia.
From stdpp Require Import base gmap strings list pretty.
From S2P Require Import Prelude Status Dependency Graph.

#[local] Open Scope string_scope.
#[local] Open Scope list_scope.
#[local] Open Scope Z_scope.

(** * Definitions *)

Definition HANone := "none".
Definition HARestart := "restart".

Inductive Relocation := RelocateNotConfigured | RelocateOK | RelocateNoCapacity.

#[export] Instance Relocation_eq_dec : EqDecision Relocation.
Proof. solve_decision. Defined.

(** [need := 1; if minHosts != nil && *minHosts > 1 { need = *minHosts }] *)
Definition hosts_needed (minHosts : option Z) : Z :=
  match minHosts with
  | Some m => if 1 <? m then m else 1
  | None => 1
  end.

(** [domain.CanRelocate] *)
Definition CanRelocate (policy : string) (surviving : Z) (minHosts : option Z) : Relocation :=
  if decide (policy <> HARestart) then RelocateNotConfigured
  else if hosts_needed minHosts <=? surviving then RelocateOK
  else RelocateNoCapacity.

Record RelocationFinding := {
  rf_ClusterName : string;
  rf_Outcome : Relocation;
  rf_Guests : Z;
  rf_Surviving : Z;
  rf_Needed : Z;
  rf_Detail : string
}.

(** [RelocationFinding.Relocated] *)
Definition Relocated (f : RelocationFinding) : bool :=
  bool_decide (rf_Outcome f = RelocateOK).

(** The hosts of a cluster that are down, and how many are not. *)
Definition failed_hosts (c : Cluster) (down : gset string) : list string :=
  List.filter (fun h => bool_decide (h ∈ down)) (cl_MemberAssetIDs c).

Definition surviving_hosts (c : Cluster) (down : gset string) : Z :=
  Z.of_nat (count_if (fun h => bool_decide (h ∉ down)) (cl_MemberAssetIDs c)).

(** The guests on the failed hosts, in member order. *)
Definition displaced_guests (c : Cluster) (down : gset string) : list string :=
  failed_hosts c down ≫= fun host => (cl_GuestsByHost c).[host | []].

Definition relocation_detail (outcome : Relocation) (guests surviving needed : Z) : string :=
  if decide (outcome = RelocateOK) then
    pretty guests +++ " guest(s) restarted on the " +++ pretty surviving +++
    " surviving host(s); they were not serving during the restart"
  else
    pretty guests +++ " guest(s) have nowhere to go: " +++ pretty surviving +++
    " host(s) left and " +++ pretty needed +++
    " needed. HA is configured and cannot help here".

(** One turn of the loop over the clusters: the guests revived and the finding
    reported, or [None] where the loop continues. *)
Definition cluster_ha (c : Cluster) (down : gset string)
    : option (list string * RelocationFinding) :=
  match cl_MemberAssetIDs c with
  | [] => None
  | _ =>
      let surviving := surviving_hosts c down in
      match failed_hosts c down with
      | [] => None
      | _ =>
          match displaced_guests c down with
          | [] => None
          | guests =>
              let outcome := CanRelocate (cl_HAPolicy c) surviving (cl_MinHosts c) in
              if decide (outcome = RelocateNotConfigured) then None
              else
                let needed := hosts_needed (cl_MinHosts c) in
                let n := Z.of_nat (length guests) in
                Some (if decide (outcome = RelocateOK) then guests else [],
                      {| rf_ClusterName := cl_Name c; rf_Outcome := outcome;
                         rf_Guests := n; rf_Surviving := surviving; rf_Needed := needed;
                         rf_Detail := relocation_detail outcome n surviving needed |})
          end
      end
  end.

(** Failures before successes, then by cluster name. *)
Definition finding_less (f g : RelocationFinding) : bool :=
  if decide (Relocated f = Relocated g)
  then str_ltb (rf_ClusterName f) (rf_ClusterName g)
  else negb (Relocated f).

(** [applyClusterHA] *)
Definition applyClusterHA (clusters : list Cluster) (down : gset string)
    : gset string * list RelocationFinding :=
  let '(revive, findings) :=
    foldl (fun (acc : gset string * list RelocationFinding) c =>
             match cluster_ha c down with
             | Some (guests, f) => (acc.1 ∪ list_to_set guests, acc.2 ++ [f])
             | None => acc
             end) (∅, []) clusters in
  (revive, isort finding_less findings).

(** * Lemmas *)

Definition bool_ltb (a b : bool) : bool := negb a && b.

#[export] Instance bool_ltb_strict_total : StrictTotal bool_ltb.
Proof.
  apply strict_total_intro;
    [by intros []|by intros [] [] []|by intros [] []].
Qed.

#[export] Instance finding_less_weak : StrictWeak finding_less.
Proof.
  assert (H : StrictWeak (lex_less Relocated bool_ltb
                (fun f g => str_ltb (rf_ClusterName f) (rf_ClusterName g)))).
  { apply lex_less_weak; [apply _|]. apply key_less_weak. apply _. }
  assert (Heq : forall f g, finding_less f g = lex_less Relocated bool_ltb
                (fun f g => str_ltb (rf_ClusterName f) (rf_ClusterName g)) f g).
  { intros f g. unfold finding_less, lex_less. case_decide; [done|].
    by destruct (Relocated f), (Relocated g). }
  split; intros *; rewrite !Heq; [apply sw_asym|apply sw_negtrans].
Qed.

(** The loop, cluster by cluster. *)
Lemma applyClusterHA_fold clusters down acc :
  foldl (fun (acc : gset string * list RelocationFinding) c =>
             match cluster_ha c down with
             | Some (guests, f) => (acc.1 ∪ list_to_set guests, acc.2 ++ [f])
             | None => acc
             end) acc clusters =
  (acc.1 ∪ list_to_set (omap (fun c => cluster_ha c down) clusters ≫= fst),
   acc.2 ++ (snd <$> omap (fun c => cluster_ha c down) clusters)).
Proof.
  revert acc. induction clusters as [|c cs IH]; intros [r f]; cbn.
  { f_equal; [set_solver|by rewrite app_nil_r]. }
  destruct (cluster_ha c down) as [[gs fd]|]; rewrite IH; cbn.
  - f_equal; [rewrite list_to_set_app_L; set_solver|by rewrite <- app_assoc].
  - done.
Qed.

Lemma elem_of_displaced c down x :
  x ∈ displaced_guests c down <->
  exists host, host ∈ cl_MemberAssetIDs c /\ host ∈ down /\
               x ∈ (cl_GuestsByHost c).[host | []].
Proof.
  unfold displaced_guests, failed_hosts. rewrite list_elem_of_bind.
  setoid_rewrite elem_of_bool_filter. setoid_rewrite bool_decide_eq_true. naive_solver.
Qed.

Lemma CanRelocate_ok policy surviving m :
  CanRelocate policy surviving m = RelocateOK <->
  policy = HARestart /\ hosts_needed m <= surviving.
Proof.
  unfold CanRelocate. case_decide as Hp.
  - split; [done|]. by intros [? _].
  - destruct (hosts_needed m <=? surviving) eqn:E; split; try done.
    + intros _. split; [done|lia].
    + intros [_ ?]. lia.
Qed.

(** Which guests a single cluster revives. *)
Lemma cluster_ha_revives c down x :
  (exists p, cluster_ha c down = Some p /\ x ∈ p.1) <->
  x ∈ displaced_guests c down /\
  CanRelocate (cl_HAPolicy c) (surviving_hosts c down) (cl_MinHosts c) = RelocateOK.
Proof.
  unfold cluster_ha. split.
  - intros (p & Hp & Hx).
    destruct (cl_MemberAssetIDs c); [done|]. destruct (failed_hosts c down); [done|].
    destruct (displaced_guests c down) as [|y gs]; [done|].
    case_decide as Hn; [done|]. injection Hp as <-. cbn in Hx.
    case_decide as Ho; [done|]. by apply elem_of_nil in Hx.
  - intros [Hx Ho]. unfold displaced_guests in *.
    destruct (cl_MemberAssetIDs c) eqn:Em.
    { unfold failed_hosts in Hx. rewrite Em in Hx. by apply elem_of_nil in Hx. }
    destruct (failed_hosts c down) eqn:Ef; [by apply elem_of_nil in Hx|].
    rewrite Ho. destruct (_ ≫= _) eqn:Eg; [by apply elem_of_nil in Hx|].
    eexists. split; [rewrite decide_False by done; done|]. by rewrite decide_True.
Qed.

Lemma elem_of_revived clusters down x :
  x ∈ (applyClusterHA clusters down).1 <->
  exists c, c ∈ clusters /\ x ∈ displaced_guests c down /\
    CanRelocate (cl_HAPolicy c) (surviving_hosts c down) (cl_MinHosts c) = RelocateOK.
Proof.
  unfold applyClusterHA. rewrite applyClusterHA_fold. cbn.
  rewrite elem_of_union, elem_of_list_to_set, list_elem_of_bind.
  setoid_rewrite list_elem_of_omap.
  setoid_rewrite <- cluster_ha_revives.
  split; [intros [?%elem_of_empty|(p & Hx & c & Hc & Hp)]; [done|]; eauto|].
  intros (c & Hc & p & Hp & Hx). right. eauto 6.
Qed.

Lemma applyClusterHA_findings clusters down :
  (applyClusterHA clusters down).2 ≡ₚ (snd <$> omap (fun c => cluster_ha c down) clusters).
Proof. unfold applyClusterHA. rewrite applyClusterHA_fold. cbn. apply isort_perm. Qed.

(** * Properties *)

(** What cluster HA revives and reports. An asset leaves the down set exactly
    when it is a guest of a failed member of a cluster whose policy restarts
    guests and whose surviving members reach the floor; the findings are one per
    cluster that has HA and displaced guests, failures before successes. *)
Theorem applyClusterHA_spec clusters down :
  let r := applyClusterHA clusters down in
  (forall x, x ∈ r.1 <->
     exists c host, c ∈ clusters /\ host ∈ cl_MemberAssetIDs c /\ host ∈ down /\
       x ∈ (cl_GuestsByHost c).[host | []] /\ cl_HAPolicy c = HARestart /\
       hosts_needed (cl_MinHosts c) <= surviving_hosts c down) /\
  r.2 ≡ₚ (snd <$> omap (fun c => cluster_ha c down) clusters) /\
  (forall i j f g, (i < j)%nat -> r.2 !! i = Some f -> r.2 !! j = Some g ->
     Relocated f = true -> Relocated g = true).
Proof.
  intros r. split_and!; [| |].
  - intros x. subst r. rewrite elem_of_revived. setoid_rewrite elem_of_displaced.
    setoid_rewrite CanRelocate_ok. naive_solver.
  - apply applyClusterHA_findings.
  - intros i j f g Hij Hf Hg Hr.
    assert (Hs : sorted_by finding_less r.2).
    { subst r. unfold applyClusterHA. destruct (foldl _ _ _). apply isort_sorted, _. }
    pose proof (sorted_by_lookup _ _ _ _ _ _ Hs Hij Hf Hg) as Ho.
    unfold finding_less in Ho. rewrite Hr in Ho. case_decide; [done|].
    by destruct (Relocated g).
Qed.
