(* ===== verification/Structures.v ===== *)
(** Declared structures an outage empties or reduces to one member:
    [internal/impact/structures.go]. *)
From Stdlib Require Import String ZArith Lia.
From stdpp Require Import base gmap strings list pretty.
From S2P Require Import Prelude Status Dependency Graph.

#[local] Open Scope string_scope.
#[local] Open Scope list_scope.
#[local] Open Scope Z_scope.

(** * Definitions *)

Definition StructureVLAN := "vlan".
Definition StructureFHRP := "fhrp".
Definition StructureL2VPN := "l2vpn".
Definition StructureWLAN := "wlan".

Record StructureFinding := {
  sf_Kind : string;
  sf_Name : string;
  sf_Remaining : Z;
  sf_Total : Z;
  sf_Detail : string;
  sf_Href : string
}.

(** [StructureFinding.Emptied] *)
Definition Emptied (f : StructureFinding) : bool := sf_Remaining f =? 0.

(** [emptiedDetail] *)
Definition emptiedDetail (kind : string) (total : Z) : string :=
  if decide (kind = StructureVLAN) then
    "no ports left; the broadcast domain is declared and carries nothing (all " +++
    pretty total +++ " assets holding a port are down)"
  else if decide (kind = StructureFHRP) then
    "no router left to answer for the virtual address (all " +++ pretty total +++ " are down)"
  else if decide (kind = StructureL2VPN) then
    "nothing terminates into it any more (all " +++ pretty total +++ " ends are down)"
  else if decide (kind = StructureWLAN) then
    "nothing is broadcasting it any more (all " +++ pretty total +++
    " access points carrying it are down)"
  else "nothing left".

(** [reducedDetail] *)
Definition reducedDetail (kind : string) (total : Z) : string :=
  if decide (kind = StructureVLAN) then
    "one asset left holding a port, of " +++ pretty total +++
    " — the broadcast domain does not survive the next failure"
  else if decide (kind = StructureFHRP) then
    "one router left of " +++ pretty total +++
    " — it survived this and the protocol now buys nothing"
  else if decide (kind = StructureL2VPN) then
    "one end left of " +++ pretty total +++ " — the overlay connects nothing to anything"
  else if decide (kind = StructureWLAN) then
    "one access point left of " +++ pretty total +++
    " — the SSID is on the air in one place and does not survive the next failure"
  else "one left".

(** [structureHref] *)
Definition structureHref (kind id : string) : string :=
  if decide (kind = StructureVLAN) then "/vlans/" +++ id
  else if decide (kind = StructureFHRP) then "/redundancy/" +++ id
  else if decide (kind = StructureL2VPN) then "/overlays/" +++ id
  else if decide (kind = StructureWLAN) then "/wireless/" +++ id
  else "".

(** The distinct assets that hold a member, and those still up. *)
Definition member_assets (st : Structure_) : gset string := list_to_set (st_AssetIDs st).

Definition remaining_assets (st : Structure_) (down : gset string) : gset string :=
  list_to_set (List.filter (fun id => bool_decide (id ∉ down)) (st_AssetIDs st)).

(** One turn of the loop over the structures. *)
Definition structure_finding (st : Structure_) (down : gset string) : option StructureFinding :=
  let total := Z.of_nat (size (member_assets st)) in
  let remaining := Z.of_nat (size (remaining_assets st down)) in
  if total =? 0 then None
  else if remaining =? 0 then
    Some {| sf_Kind := st_Kind st; sf_Name := st_Name st; sf_Remaining := 0;
            sf_Total := total; sf_Detail := emptiedDetail (st_Kind st) total;
            sf_Href := structureHref (st_Kind st) (st_ID st) |}
  else if (remaining =? 1) && (1 <? total) then
    Some {| sf_Kind := st_Kind st; sf_Name := st_Name st; sf_Remaining := 1;
            sf_Total := total; sf_Detail := reducedDetail (st_Kind st) total;
            sf_Href := structureHref (st_Kind st) (st_ID st) |}
  else None.

Definition structure_less : StructureFinding -> StructureFinding -> bool :=
  lex_less sf_Remaining Z.ltb (fun f g => str_ltb (sf_Name f) (sf_Name g)).

(** [analyseStructures] *)
Definition analyseStructures (structures : list Structure_) (down : gset string)
    : list StructureFinding :=
  isort structure_less (omap (fun st => structure_finding st down) structures).

(** * Lemmas *)

#[export] Instance structure_less_weak : StrictWeak structure_less.
Proof. apply lex_less_weak; [apply _|]. apply key_less_weak. apply _. Qed.

Lemma remaining_difference st down :
  remaining_assets st down = member_assets st ∖ down.
Proof.
  apply set_eq. intros x. unfold remaining_assets, member_assets.
  rewrite elem_of_difference, !elem_of_list_to_set, elem_of_bool_filter, bool_decide_eq_true.
  done.
Qed.

(** Which structures are reported, on the sets the loop builds. *)
Lemma structure_finding_cases st down :
  match structure_finding st down with
  | None => member_assets st = ∅ \/
            (2 <= size (member_assets st ∖ down))%nat \/
            (size (member_assets st ∖ down) = 1%nat /\ size (member_assets st) = 1%nat)
  | Some f =>
      member_assets st <> ∅ /\ sf_Name f = st_Name st /\
      sf_Total f = Z.of_nat (size (member_assets st)) /\
      sf_Remaining f = Z.of_nat (size (member_assets st ∖ down)) /\
      (sf_Remaining f = 0 \/ sf_Remaining f = 1 /\ 1 < sf_Total f)
  end.
Proof.
  unfold structure_finding. rewrite remaining_difference.
  assert (Hle : (size (member_assets st ∖ down) <= size (member_assets st))%nat)
    by (apply subseteq_size; set_solver).
  destruct (Z.of_nat (size (member_assets st)) =? 0) eqn:E0.
  { left. apply size_empty_inv in E0 as ->%leibniz_equiv || idtac.
    apply leibniz_equiv, size_empty_inv. lia. }
  assert (member_assets st <> ∅).
  { intros Hm. rewrite Hm, size_empty in E0. done. }
  destruct (Z.of_nat (size (member_assets st ∖ down)) =? 0) eqn:E1; cbn.
  { repeat split; try done; [lia|by left]. }
  destruct (Z.of_nat (size (member_assets st ∖ down)) =? 1) eqn:E2; cbn; [|right; left; lia].
  destruct (1 <? Z.of_nat (size (member_assets st))) eqn:E3; cbn.
  - repeat split; try done; [lia|right; lia].
  - right. right. lia.
Qed.

(** * Properties *)

(** A declared structure is reported exactly when the outage leaves none of
    the distinct assets that hold its members up, or leaves one of several;
    the counts are of distinct assets, and emptied structures come first. *)
Lemma analyseStructures_spec structures down :
  let r := analyseStructures structures down in
  (forall st, st ∈ structures ->
     let total := size (member_assets st) in
     let left := size (member_assets st ∖ down) in
     (0 < total /\ (left = 0 \/ (left = 1 /\ 1 < total)))%nat <->
     exists f, structure_finding st down = Some f /\ f ∈ r) /\
  (forall f, f ∈ r -> exists st, st ∈ structures /\ sf_Name f = st_Name st /\
     sf_Total f = Z.of_nat (size (member_assets st)) /\
     sf_Remaining f = Z.of_nat (size (member_assets st ∖ down))) /\
  (forall i j f g, (i < j)%nat -> r !! i = Some f -> r !! j = Some g ->
     Emptied g = true -> Emptied f = true).
Proof.
  intros r. assert (Hin : forall f, f ∈ r <-> exists st, st ∈ structures /\ structure_finding st down = Some f).
  { intros f. subst r. unfold analyseStructures. by rewrite elem_of_isort, list_elem_of_omap. }
  split_and!.
  - intros st Hst total left. pose proof (structure_finding_cases st down) as H.
    fold total left in H. split.
    + intros [Ht Hl]. destruct (structure_finding st down) as [f|] eqn:E.
      * exists f. split; [done|]. apply Hin. eauto.
      * exfalso. destruct H as [H|H]; [subst total; rewrite H, size_empty in Ht|]; lia.
    + intros (f & E & _). rewrite E in H. destruct H as (Hne & _ & Ht & Hr & Hc).
      assert (total <> 0%nat).
      { subst total. intros Hz%size_empty_inv. by apply Hne, leibniz_equiv. }
      split; [lia|]. destruct Hc as [Hc|[Hc1 Hc2]]; lia.
  - intros f Hf. apply Hin in Hf as (st & Hst & E). exists st.
    pose proof (structure_finding_cases st down) as H. rewrite E in H. naive_solver.
  - intros i j f g Hij Hf Hg He.
    assert (Hs : sorted_by structure_less r) by apply isort_sorted, _.
    pose proof (sorted_by_lookup _ _ _ _ _ _ Hs Hij Hf Hg) as Ho.
    assert (Hfr : f ∈ r) by by eapply list_elem_of_lookup_2.
    apply Hin in Hfr as (st & _ & E). pose proof (structure_finding_cases st down) as H.
    rewrite E in H. destruct H as (_ & _ & _ & Hrem & _).
    unfold structure_less, lex_less, Emptied in *. case_decide; lia.
Qed.
