(* ===== verification/Propagation.v ===== *)
(** The dependency fixed point: [routeStatuses], [providerHealth],
    [propagationReason] and [phasePropagate] of [internal/impact/engine.go],
    with the [reachLevel] verdicts of [internal/impact/reach.go] it applies.

    [phasePropagate] iterates the dependency edges until no status changes, or
    until [maxIterations] rounds have run. Statuses only grow; [propagate_loop]
    is the loop with its bound as a parameter. *)
From Stdlib Require Import String ZArith Lia.
From stdpp Require Import base gmap strings list pretty.
From S2P Require Import Prelude Status Dependency Graph Fixtures.

#[local] Open Scope string_scope.
#[local] Open Scope list_scope.
#[local] Open Scope nat_scope.

(** * Definitions *)

(** [const maxIterations = 20] *)
Definition maxIterations : nat := 20.

Record Request := {
  req_DownAssetIDs : list string;
  req_CutCircuitIDs : list string;
  req_CutLinkIDs : list string;
  req_WindowSeconds : Z;
  req_UseObservedHealth : bool;
  req_SkipNetwork : bool;
  req_ReportReachabilityOnly : bool
}.

(** The verdict of the reachability pre-pass for one edge or pool member. *)
Inductive reachLevel := reachUnknown | reachOK | reachDegraded | reachDown.

#[export] Instance reachLevel_eq_dec : EqDecision reachLevel.
Proof. solve_decision. Defined.

(** [reachLevel.String] *)
Definition reachLevel_String (l : reachLevel) : string :=
  match l with
  | reachOK => "ok"
  | reachDegraded => "degraded"
  | reachDown => "down"
  | reachUnknown => "unknown"
  end.

(** The switch that downgrades a status by the path that leads to it. *)
Definition downgrade (l : reachLevel) (s : Status) : Status :=
  match l with
  | reachDown => StatusDown
  | reachDegraded => Worse s StatusDegraded
  | reachUnknown | reachOK => s
  end.

(** [tallyMember] *)
Definition tallyMember (status : Status) (counts : nat * nat) : nat * nat :=
  match status with
  | StatusDown => counts
  | StatusDegraded => (S counts.1, S counts.2)
  | _ => (S counts.1, counts.2)
  end.

(** [poolVerdict] *)
Definition poolVerdict (alive degraded members : nat) : Status :=
  if decide (alive = 0) then StatusDown
  else if (alive <? members) || (0 <? degraded) then StatusDegraded
  else StatusOK.

Record routeHealth := { rh_Status : Status; rh_Bare : Status }.

(** The pool members whose endpoint and service are in the graph. *)
Definition known_members (g : Graph) (r : Route) : list string :=
  List.filter (fun endpointID =>
    match g_Endpoints g !! endpointID with
    | Some ep => bool_decide (is_Some (g_Services g !! ep_ServiceID ep))
    | None => false
    end) ((g_PoolMembers g).[rt_BackendPoolID r | []]).

(** The status of the service that owns an endpoint. *)
Definition endpoint_status (g : Graph) (statuses : gmap string Status)
    (endpointID : string) : Status :=
  match g_Endpoints g !! endpointID with
  | Some ep => statuses.[ep_ServiceID ep | StatusUnset]
  | None => StatusOK
  end.

(** The pool's verdict over the members' statuses; [ok] for an empty pool. *)
Definition pool_status (members : list Status) : Status :=
  match members with
  | [] => StatusOK
  | _ => let counts := foldl (fun c s => tallyMember s c) (0, 0) members in
         poolVerdict counts.1 counts.2 (length members)
  end.

(** One route of [routeStatuses]: its proxy merged with its pool, with and
    without the network's effect on the pool members. *)
Definition route_health (g : Graph) (statuses : gmap string Status)
    (routeMemberReach : gmap string reachLevel) (r : Route) : routeHealth :=
  let frontend := endpoint_status g statuses (rt_FrontendEndpointID r) in
  let members := known_members g r in
  let own := endpoint_status g statuses <$> members in
  let seen := (fun e => downgrade (routeMemberReach.[rt_ID r +++ "/" +++ e | reachUnknown])
                          (endpoint_status g statuses e)) <$> members in
  {| rh_Status := Worse frontend (pool_status seen);
     rh_Bare := Worse frontend (pool_status own) |}.

(** [routeStatuses] *)
Definition routeStatuses (g : Graph) (statuses : gmap string Status)
    (routeMemberReach : gmap string reachLevel) : gmap string routeHealth :=
  route_health g statuses routeMemberReach <$> g_Routes g.

(** [providerHealth]: the status as the consumer sees it, the status with no
    network effect, and the provider's name. *)
Definition providerHealth (g : Graph) (dep : Dependency) (statuses : gmap string Status)
    (routeStatus : gmap string routeHealth) : option (Status * Status * string) :=
  match dep_ProviderEndpointID dep with
  | Some e =>
      ep ← g_Endpoints g !! e;
      svc ← g_Services g !! ep_ServiceID ep;
      let own := statuses.[ep_ServiceID ep | StatusUnset] in
      Some (own, own, svc_Code svc +++ "/" +++ ep_Name ep)
  | None =>
      match dep_ProviderRouteID dep with
      | Some r =>
          rt ← g_Routes g !! r;
          let rh := routeStatus.[rt_ID rt | {| rh_Status := StatusUnset;
                                               rh_Bare := StatusUnset |}] in
          Some (rh_Status rh, rh_Bare rh, "route " +++ rt_Name rt)
      | None => None
      end
  end.

(** [propagationReason] *)
Definition propagationReason (dep : Dependency) (providerStatus : Status)
    (providerName : string) (netEffect : reachLevel) : string :=
  let state := match netEffect with
               | reachDown => "unreachable"
               | reachDegraded => "reachable only over a degraded path"
               | _ => status_string providerStatus
               end in
  if decide (dep_Nature dep = NatureHard) then
    "hard dependency on " +++ providerName +++ " is " +++ state
  else if decide (dep_Nature dep = NatureSoft) then
    "soft dependency on " +++ providerName +++ " is " +++ state +++
    "; degraded but still serving"
  else if decide (dep_Nature dep = NatureAsync) then
    if decide (netEffect = reachDown) then
      "async dependency on " +++ providerName +++
      " has been unreachable for longer than its tolerance window"
    else
      "async dependency on " +++ providerName +++
      " is down for longer than its tolerance window"
  else "dependency on " +++ providerName +++ " is " +++ state.

Record startupFault := {
  sfault_Via : string;
  sfault_Reason : string;
  sfault_NetEffect : reachLevel
}.

(** The maps [phasePropagate] writes: [statuses] and [reasons] in place, the
    others as its results; [ps_changed] is the round's [changed] flag. *)
Record PState := {
  ps_statuses : gmap string Status;
  ps_reasons : gmap string string;
  ps_via : gmap string string;
  ps_viaPartition : gmap string bool;
  ps_wontRestart : gmap string startupFault;
  ps_changed : bool
}.

(** The gap between the two provider statuses, as a network effect. *)
Definition net_effect (providerStatus ownStatus : Status) : reachLevel :=
  if decide (providerStatus = ownStatus) then reachUnknown
  else if decide (providerStatus = StatusDown) then reachDown else reachDegraded.

(** Records an unmet startup dependency, once per consumer. *)
Definition record_startup (dep : Dependency) (providerName : string)
    (netEffect : reachLevel) (st : PState) : PState :=
  let unmet := if decide (netEffect = reachUnknown)
               then " is unmet" else " is unreachable from here" in
  {| ps_statuses := ps_statuses st; ps_reasons := ps_reasons st;
     ps_via := ps_via st; ps_viaPartition := ps_viaPartition st;
     ps_wontRestart :=
       <[dep_ConsumerServiceID dep :=
         {| sfault_Via := providerName;
            sfault_Reason := "startup dependency on " +++ providerName +++ unmet +++
              ": running now, will not come back after a restart";
            sfault_NetEffect := netEffect |}]> (ps_wontRestart st);
     ps_changed := true |}.

(** Writes a worsened status with its explanation. *)
Definition record_status (dep : Dependency) (merged providerStatus : Status)
    (providerName : string) (netEffect : reachLevel) (st : PState) : PState :=
  let c := dep_ConsumerServiceID dep in
  {| ps_statuses := <[c := merged]> (ps_statuses st);
     ps_reasons := <[c := propagationReason dep providerStatus providerName netEffect]>
                     (ps_reasons st);
     ps_via := <[c := providerName]> (ps_via st);
     ps_viaPartition := <[c := bool_decide (netEffect <> reachUnknown)]> (ps_viaPartition st);
     ps_wontRestart := ps_wontRestart st;
     ps_changed := true |}.

Section Phase.
Context (g : Graph) (window : Z)
        (reachOfDep routeMemberReach : gmap string reachLevel).

(** The provider as the consumer of [dep] experiences it. *)
Definition provider_seen (statuses : gmap string Status)
    (routeStatus : gmap string routeHealth) (dep : Dependency)
    : option (Status * Status * string) :=
  '(providerStatus, ownStatus, providerName) ← providerHealth g dep statuses routeStatus;
  Some (downgrade (reachOfDep.[dep_ID dep | reachUnknown]) providerStatus,
        ownStatus, providerName).

(** The body of the loop over the edges. *)
Definition propagate_dep (routeStatus : gmap string routeHealth)
    (st : PState) (dep : Dependency) : PState :=
  if decide (dep_Lifecycle dep = LifecycleRetired) then st else
  match ps_statuses st !! dep_ConsumerServiceID dep with
  | None => st
  | Some consumer =>
      match provider_seen (ps_statuses st) routeStatus dep with
      | None => st
      | Some (providerStatus, ownStatus, providerName) =>
          let netEffect := net_effect providerStatus ownStatus in
          let effect := Propagate dep providerStatus window in
          let st1 :=
            if decide (prop_WontRestart effect = true /\
                       ps_wontRestart st !! dep_ConsumerServiceID dep = None)
            then record_startup dep providerName netEffect st else st in
          let merged := Worse consumer (prop_Status effect) in
          if decide (merged = consumer) then st1
          else record_status dep merged providerStatus providerName netEffect st1
      end
  end.

(** One round: the routes are scored once, then every edge is applied. *)
Definition propagate_round (st : PState) : PState :=
  foldl (propagate_dep (routeStatuses g (ps_statuses st) routeMemberReach))
    {| ps_statuses := ps_statuses st; ps_reasons := ps_reasons st;
       ps_via := ps_via st; ps_viaPartition := ps_viaPartition st;
       ps_wontRestart := ps_wontRestart st; ps_changed := false |}
    (g_Deps g).

(** [for iterations = 1; iterations <= max; iterations++ { ... }] *)
Fixpoint propagate_loop (max fuel : nat) (st : PState) : PState * nat :=
  match fuel with
  | O => (st, max)
  | S fuel' =>
      let st' := propagate_round st in
      if ps_changed st' then propagate_loop max fuel' st'
      else (st', max - fuel')
  end.
End Phase.

(** The state [phasePropagate] starts from. *)
Definition initial_state (statuses : gmap string Status) (reasons : gmap string string) : PState :=
  {| ps_statuses := statuses; ps_reasons := reasons; ps_via := ∅;
     ps_viaPartition := ∅; ps_wontRestart := ∅; ps_changed := false |}.

(** [phasePropagate] *)
Definition phasePropagate (g : Graph) (req : Request) (statuses : gmap string Status)
    (reasons : gmap string string) (reachOfDep routeMemberReach : gmap string reachLevel)
    : PState * nat :=
  propagate_loop g (req_WindowSeconds req) reachOfDep routeMemberReach
    maxIterations maxIterations (initial_state statuses reasons).

(** An outage of auth, for the witnesses. *)
Definition demo_request : Request :=
  {| req_DownAssetIDs := []; req_CutCircuitIDs := []; req_CutLinkIDs := [];
     req_WindowSeconds := 0; req_UseObservedHealth := false; req_SkipNetwork := false;
     req_ReportReachabilityOnly := false |}.

Definition demo_statuses : gmap string Status :=
  {["app" := StatusOK; "db" := StatusDown; "auth" := StatusOK; "batch" := StatusOK]}.

(** * The order the loop climbs

    [s ≼ₛ t]: equal, or strictly less severe. Unlike [⊑ₛ] it separates [ok]
    from the zero value, which the nature table does not treat alike. *)
Definition status_below (s t : Status) : Prop := s = t \/ (rank s < rank t)%nat.
Infix "≼ₛ" := status_below (at level 70) : go_scope.

Definition map_below (X Y : gmap string Status) : Prop :=
  forall k, option_Forall2 status_below (X !! k) (Y !! k).
Infix "≼ₘ" := map_below (at level 70) : go_scope.

Section Closed.
Context (g : Graph) (window : Z)
        (reachOfDep routeMemberReach : gmap string reachLevel).

(** Statuses no edge worsens any further. *)
Definition closed (X : gmap string Status) : Prop :=
  forall dep, dep ∈ g_Deps g -> dep_live dep ->
  forall c p own name,
    X !! dep_ConsumerServiceID dep = Some c ->
    provider_seen g reachOfDep X (routeStatuses g X routeMemberReach) dep
      = Some (p, own, name) ->
    prop_Status (Propagate dep p window) ⊑ₛ c.
End Closed.

(** * Lemmas *)

#[export] Instance status_below_preorder : PreOrder status_below.
Proof.
  split; unfold status_below; [by left|]. intros x y z [->|?] [->|?]; auto. right; lia.
Qed.

#[export] Instance map_below_preorder : PreOrder map_below.
Proof.
  split; [intros X k; reflexivity|].
  intros X Y Z H1 H2 k. etrans; [apply H1|apply H2].
Qed.

Lemma below_le s t : s ≼ₛ t -> s ⊑ₛ t.
Proof. unfold status_below, status_le. intros [->|]; lia. Qed.

Lemma below_default X Y k : X ≼ₘ Y -> X.[k | StatusUnset] ≼ₛ Y.[k | StatusUnset].
Proof. intros H. destruct (H k); cbn; [done|reflexivity]. Qed.

Lemma map_below_lookup X Y k s :
  X ≼ₘ Y -> X !! k = Some s -> exists t, Y !! k = Some t /\ s ≼ₛ t.
Proof. intros H Hk. specialize (H k). rewrite Hk in H. inversion H; eauto. Qed.

Lemma map_below_lookup_r X Y k t :
  X ≼ₘ Y -> Y !! k = Some t -> exists s, X !! k = Some s /\ s ≼ₛ t.
Proof. intros H Hk. specialize (H k). rewrite Hk in H. inversion H; eauto. Qed.

Lemma map_below_insert_l X Y k s :
  X ≼ₘ Y -> (forall t, Y !! k = Some t -> s ≼ₛ t) -> is_Some (X !! k) -> <[k:=s]> X ≼ₘ Y.
Proof.
  intros H Hs [x Hx] k'. destruct (decide (k = k')) as [<-|].
  - rewrite lookup_insert_eq. destruct (map_below_lookup _ _ _ _ H Hx) as (t & Ht & _).
    rewrite Ht. constructor. by apply Hs.
  - rewrite lookup_insert_ne by done. apply H.
Qed.

Lemma map_below_insert_r X k x s :
  X !! k = Some x -> x ≼ₛ s -> X ≼ₘ <[k:=s]> X.
Proof.
  intros Hx Hs k'. destruct (decide (k = k')) as [<-|].
  - rewrite lookup_insert_eq, Hx. by constructor.
  - rewrite lookup_insert_ne by done. reflexivity.
Qed.

(** Decides a goal about the order by trying every status. *)
Ltac status_cases :=
  unfold status_below, status_le;
  repeat match goal with s : Status |- _ => destruct s end;
  repeat match goal with l : reachLevel |- _ => destruct l end;
  cbn; intros; destruct_or?; simplify_eq;
  first [done | by left | by right; lia | lia].

Lemma downgrade_below l s t : s ≼ₛ t -> downgrade l s ≼ₛ downgrade l t.
Proof. status_cases. Qed.

Lemma downgrade_above l s : s ≼ₛ downgrade l s.
Proof. status_cases. Qed.

Lemma Worse_below s s' t t' : s ≼ₛ s' -> t ≼ₛ t' -> Worse s t ≼ₛ Worse s' t'.
Proof. status_cases. Qed.

Lemma Worse_above s t : s ≼ₛ Worse s t.
Proof. status_cases. Qed.

Lemma Worse_below_bound c x e : c ≼ₛ x -> e ⊑ₛ x -> Worse c e ≼ₛ x.
Proof. status_cases. Qed.

(** The nature table respects the order, zero value included. *)
Lemma Propagate_below d w s t :
  s ≼ₛ t -> prop_Status (Propagate d s w) ⊑ₛ prop_Status (Propagate d t w).
Proof.
  intros [->|H]; [done|]. destruct s; try (by apply Propagate_mono; [done|red; lia]).
  unfold Propagate, status_le. destruct t; cbn in H; try lia;
    split_cases; cbn; try lia; congruence.
Qed.

(** ** Pools *)

Definition is_down (s : Status) : bool := match s with StatusDown => true | _ => false end.
Definition is_degraded (s : Status) : bool :=
  match s with StatusDegraded => true | _ => false end.
Definition is_hurt (s : Status) : bool := 0 <? rank s.

Lemma tally_counts l c :
  foldl (fun c s => tallyMember s c) c l =
  (c.1 + count_if (fun s => negb (is_down s)) l,
   c.2 + count_if is_degraded l).
Proof.
  unfold count_if. revert c. induction l as [|s l IH]; intros [a d]; cbn; [f_equal; lia|].
  rewrite IH. destruct s; cbn; f_equal; lia.
Qed.

(** A non-empty pool is down when every member is, and healthy when no member
    is hurt. *)
Lemma pool_status_spec l :
  l <> [] ->
  pool_status l = if forallb is_down l then StatusDown
                  else if existsb is_hurt l then StatusDegraded else StatusOK.
Proof.
  destruct l as [|s l']; [done|]. intros _. unfold pool_status, poolVerdict.
  generalize (s :: l') as l. clear. intros l. rewrite tally_counts. cbn [fst snd].
  rewrite !Nat.add_0_l, count_if_negb_lt, count_if_pos.
  case_decide as H; rewrite count_if_negb_0 in H; [by rewrite H|].
  destruct (forallb is_down l); [done|]. clear H.
  replace (existsb is_down l || _) with (existsb is_hurt l); [done|].
  induction l as [|s l IH]; cbn; [done|]. rewrite IH.
  by destruct s, (existsb is_down l), (existsb is_degraded l).
Qed.

Lemma forallb_down_below l l' :
  Forall2 status_below l l' -> forallb is_down l = true -> forallb is_down l' = true.
Proof.
  induction 1 as [|s t l l' Hs _ IH]; cbn; [done|].
  rewrite !andb_true_iff. intros [Hd H]. split; [|auto].
  destruct Hs as [<-|Hr]; [done|]. destruct s, t; cbn in *; done || lia.
Qed.

Lemma existsb_hurt_below l l' :
  Forall2 status_below l l' -> existsb is_hurt l = true -> existsb is_hurt l' = true.
Proof.
  induction 1 as [|s t l l' Hs _ IH]; cbn; [done|].
  rewrite !orb_true_iff. intros [H|H]; [left|right; auto].
  destruct Hs as [<-|Hr]; [done|]. destruct s, t; cbn in *; done || lia.
Qed.

Lemma pool_status_below l l' :
  Forall2 status_below l l' -> pool_status l ≼ₛ pool_status l'.
Proof.
  intros H. destruct (decide (l = [])) as [->|Hl].
  { by inversion H. }
  assert (Hl' : l' <> []) by (destruct H; done).
  rewrite !pool_status_spec by done.
  pose proof (forallb_down_below _ _ H). pose proof (existsb_hurt_below _ _ H).
  unfold status_below. split_cases; intuition (congruence || (cbn; lia)).
Qed.

(** ** Routes and providers *)

Lemma endpoint_status_below g X Y e :
  X ≼ₘ Y -> endpoint_status g X e ≼ₛ endpoint_status g Y e.
Proof.
  intros H. unfold endpoint_status. case_match; [by apply below_default|reflexivity].
Qed.

Lemma route_health_below g X Y rmr r :
  X ≼ₘ Y ->
  rh_Status (route_health g X rmr r) ≼ₛ rh_Status (route_health g Y rmr r) /\
  rh_Bare (route_health g X rmr r) ≼ₛ rh_Bare (route_health g Y rmr r).
Proof.
  intros H. cbn. split; apply Worse_below; try (by apply endpoint_status_below);
    apply pool_status_below; induction (known_members g r); constructor; try done;
    auto using downgrade_below, endpoint_status_below.
Qed.

(** The network only ever makes a route look worse than it is. *)
Lemma route_health_bare g X rmr r :
  rh_Bare (route_health g X rmr r) ≼ₛ rh_Status (route_health g X rmr r).
Proof.
  cbn. apply Worse_below; [reflexivity|]. apply pool_status_below.
  induction (known_members g r); constructor; [apply downgrade_above|done].
Qed.

Section Steps.
Context (g : Graph) (window : Z)
        (reachOfDep routeMemberReach : gmap string reachLevel).

#[local] Abbreviation seen X := (provider_seen g reachOfDep X (routeStatuses g X routeMemberReach)).
#[local] Abbreviation step rs := (propagate_dep g window reachOfDep rs).
#[local] Abbreviation round := (propagate_round g window reachOfDep routeMemberReach).
#[local] Abbreviation loop := (propagate_loop g window reachOfDep routeMemberReach).
#[local] Abbreviation closed X := (closed g window reachOfDep routeMemberReach X).

(** A provider looks no better when everything got worse. *)
Lemma provider_seen_below X Y X' dep p own name :
  X ≼ₘ Y -> X' ≼ₘ Y ->
  provider_seen g reachOfDep X (routeStatuses g X' routeMemberReach) dep
    = Some (p, own, name) ->
  exists p' own', seen Y dep = Some (p', own', name) /\ p ≼ₛ p'.
Proof.
  intros H H'. unfold provider_seen, providerHealth, routeStatuses.
  destruct (dep_ProviderEndpointID dep) as [e|].
  - destruct (g_Endpoints g !! e) as [ep|]; [|done]; cbn.
    destruct (g_Services g !! ep_ServiceID ep); [|done]; cbn. intros [= <- <- <-].
    do 2 eexists. split; [done|]. by apply downgrade_below, below_default.
  - destruct (dep_ProviderRouteID dep) as [r|]; [|done].
    destruct (g_Routes g !! r) as [rt|]; [|done]; cbn. rewrite !lookup_fmap.
    intros [= <- <- <-]. do 2 eexists. split; [done|]. apply downgrade_below.
    destruct (g_Routes g !! rt_ID rt); cbn; [|reflexivity].
    by apply (route_health_below g X' Y).
Qed.

(** What one edge does to the state, in one place. *)
Inductive step_outcome (rs : gmap string routeHealth) (st st' : PState)
    (dep : Dependency) : Prop :=
| step_skip : st' = st -> step_outcome rs st st' dep
| step_act c p own name :
    dep_live dep ->
    ps_statuses st !! dep_ConsumerServiceID dep = Some c ->
    provider_seen g reachOfDep (ps_statuses st) rs dep = Some (p, own, name) ->
    ps_changed st' = true ->
    ps_statuses st' =
      <[dep_ConsumerServiceID dep := Worse c (prop_Status (Propagate dep p window))]>
        (ps_statuses st) ->
    (prop_WontRestart (Propagate dep p window) = true /\
     ps_wontRestart st !! dep_ConsumerServiceID dep = None /\
     (exists f, sfault_Via f = name /\
       ps_wontRestart st' = <[dep_ConsumerServiceID dep := f]> (ps_wontRestart st)) \/
     ps_wontRestart st' = ps_wontRestart st /\
     Worse c (prop_Status (Propagate dep p window)) <> c) ->
    (ps_via st' = ps_via st /\ Worse c (prop_Status (Propagate dep p window)) = c \/
     ps_via st' = <[dep_ConsumerServiceID dep := name]> (ps_via st) /\
     Worse c (prop_Status (Propagate dep p window)) <> c) ->
    step_outcome rs st st' dep.

Lemma step_cases rs st dep : step_outcome rs st (step rs st dep) dep.
Proof.
  unfold propagate_dep. case_decide as Hl; [by constructor|].
  destruct (ps_statuses st !! _) as [c|] eqn:Ec; [|by constructor].
  destruct (provider_seen _ _ _ _ _) as [[[p own] name]|] eqn:Ep; [|by constructor].
  case_decide as Hm; case_decide as Hw.
  - eapply step_act; [done..| | |]; cbn.
    + rewrite Hm. symmetry. by apply insert_id.
    + left. destruct Hw. split_and!; [done..|].
      eexists. split; [|done]. done.
    + by left.
  - by constructor.
  - eapply step_act; [done..| |]; cbn.
    + left. destruct Hw. split_and!; [done..|].
      eexists. split; [|done]. done.
    + by right.
  - eapply step_act; [done..| |]; cbn; by right.
Qed.

(** An edge that is not retired and changes nothing is satisfied. *)
Lemma step_stuck rs st dep c p own name :
  dep_live dep -> step rs st dep = st ->
  ps_statuses st !! dep_ConsumerServiceID dep = Some c ->
  provider_seen g reachOfDep (ps_statuses st) rs dep = Some (p, own, name) ->
  ps_changed st = false ->
  prop_Status (Propagate dep p window) ⊑ₛ c /\
  (prop_WontRestart (Propagate dep p window) = true ->
   is_Some (ps_wontRestart st !! dep_ConsumerServiceID dep)).
Proof.
  intros Hl Hst Hc Hp Hch. unfold propagate_dep in Hst.
  rewrite decide_False, Hc, Hp in Hst by done.
  assert (Hch' := f_equal ps_changed Hst). rewrite Hch in Hch'.
  revert Hch'. case_decide as Hm; case_decide as Hw; cbn; try done.
  intros _. split; [by apply Worse_same|]. intros Hwr.
  destruct (ps_wontRestart st !! _) eqn:E; [done|]. by destruct Hw.
Qed.

Lemma step_flag rs st dep :
  ps_changed (step rs st dep) = false -> step rs st dep = st.
Proof. destruct (step_cases rs st dep); congruence. Qed.

Lemma step_flag_up rs st dep :
  ps_changed st = true -> ps_changed (step rs st dep) = true.
Proof. destruct (step_cases rs st dep); congruence. Qed.

(** Statuses only climb. *)
Lemma step_climbs rs st dep : ps_statuses st ≼ₘ ps_statuses (step rs st dep).
Proof.
  destruct (step_cases rs st dep) as [->|c p own name _ Hc _ _ -> _ _]; [reflexivity|].
  eapply map_below_insert_r; [done|]. apply Worse_above.
Qed.

(** No edge climbs above a closed assignment. *)
Lemma step_bounded X X' st dep :
  closed X -> dep ∈ g_Deps g -> X' ≼ₘ X -> ps_statuses st ≼ₘ X ->
  ps_statuses (step (routeStatuses g X' routeMemberReach) st dep) ≼ₘ X.
Proof.
  intros HX Hin HX' Hst.
  destruct (step_cases (routeStatuses g X' routeMemberReach) st dep)
    as [->|c p own name Hl Hc Hp _ -> _ _]; [done|].
  apply map_below_insert_l; [done| |by eexists]. intros t Ht.
  destruct (provider_seen_below _ _ _ _ _ _ _ Hst HX' Hp) as (p' & own' & Hp' & Hle).
  destruct (map_below_lookup _ _ _ _ Hst Hc) as (t' & Ht' & Hct). simplify_eq.
  apply Worse_below_bound; [done|]. etrans; [by apply Propagate_below|].
  by eapply HX.
Qed.

(** ** Rounds *)

Lemma round_climbs st : ps_statuses st ≼ₘ ps_statuses (round st).
Proof.
  unfold propagate_round. eapply (foldl_inv (fun a => ps_statuses st ≼ₘ ps_statuses a)).
  - intros a dep _ Ha. etrans; [exact Ha|]. apply step_climbs.
  - reflexivity.
Qed.

Lemma round_bounded X st :
  closed X -> ps_statuses st ≼ₘ X -> ps_statuses (round st) ≼ₘ X.
Proof.
  intros HX Hst. unfold propagate_round.
  apply (foldl_inv (fun a => ps_statuses a ≼ₘ X)); [|done].
  intros a dep Hin Ha. by apply step_bounded.
Qed.

(** A state in which a whole round changes nothing. *)
Definition converged (st : PState) : Prop :=
  ps_changed st = false /\
  forall dep, dep ∈ g_Deps g ->
    step (routeStatuses g (ps_statuses st) routeMemberReach) st dep = st.

Lemma round_converged st : ps_changed (round st) = false -> converged (round st).
Proof.
  unfold propagate_round. intros H.
  destruct (foldl_stuck ps_changed _ _ _ (step_flag _) (step_flag_up _) H) as [E Hall].
  rewrite E. split; [done|]. exact Hall.
Qed.

Lemma converged_closed st : converged st -> closed (ps_statuses st).
Proof.
  intros [Hf Hall] dep Hin Hl c p own name Hc Hp. by eapply step_stuck; eauto.
Qed.

Lemma converged_startup st dep c p own name :
  converged st -> dep ∈ g_Deps g -> dep_live dep ->
  ps_statuses st !! dep_ConsumerServiceID dep = Some c ->
  seen (ps_statuses st) dep = Some (p, own, name) ->
  prop_WontRestart (Propagate dep p window) = true ->
  is_Some (ps_wontRestart st !! dep_ConsumerServiceID dep).
Proof. intros [Hf Hall] Hin Hl Hc Hp. by eapply step_stuck; eauto. Qed.

(** ** The loop *)

Lemma loop_inv (P : PState -> Prop) max fuel st :
  (forall st, P st -> P (round st)) -> P st -> P (loop max fuel st).1.
Proof.
  intros Hr. revert st. induction fuel as [|f IH]; intros st Hst; cbn; [done|].
  case_match; cbn; auto.
Qed.

Lemma loop_early max fuel st :
  fuel <= max -> (loop max fuel st).2 < max -> converged (loop max fuel st).1.
Proof.
  revert st. induction fuel as [|f IH]; intros st Hm; cbn; [lia|].
  destruct (ps_changed (round st)) eqn:E; [apply IH; lia|].
  intros _. cbn. by apply round_converged.
Qed.
End Steps.

(** ** Termination

    Every round that reports a change raises the progress measure: a status
    climbs by at least one rank, or one more consumer is known not to restart.
    With [n] services the measure stays at most [3 n]. *)

Definition total_rank (m : gmap string Status) : nat :=
  sum_list_with (fun kv => rank kv.2) (map_to_list m).

Definition progress (st : PState) : nat :=
  total_rank (ps_statuses st) + size (ps_wontRestart st).

Lemma total_rank_insert m k s t :
  m !! k = Some s -> total_rank (<[k := t]> m) + rank s = total_rank m + rank t.
Proof.
  intros Hk. unfold total_rank.
  rewrite <- (insert_delete_eq m k t), map_to_list_insert by apply lookup_delete_eq.
  rewrite <- (map_to_list_delete m k s) by done. cbn. lia.
Qed.

Lemma total_rank_bound m : total_rank m <= 2 * size m.
Proof.
  unfold total_rank. rewrite <- length_map_to_list.
  induction (map_to_list m) as [|[k s] l IH]; cbn; [done|].
  pose proof (rank_le_2 s). lia.
Qed.

Section Termination.
Context (g : Graph) (window : Z)
        (reachOfDep routeMemberReach : gmap string reachLevel).

#[local] Abbreviation step rs := (propagate_dep g window reachOfDep rs).
#[local] Abbreviation round := (propagate_round g window reachOfDep routeMemberReach).
#[local] Abbreviation loop := (propagate_loop g window reachOfDep routeMemberReach).

(** Only services are recorded, and no service appears or disappears. *)
Definition scoped (keys : gset string) (st : PState) : Prop :=
  dom (ps_statuses st) = keys /\ dom (ps_wontRestart st) ⊆ keys.

Lemma step_scoped keys rs st dep : scoped keys st -> scoped keys (step rs st dep).
Proof.
  intros [Hs Hw]. destruct (step_cases g window reachOfDep rs st dep)
    as [->|c p own name _ Hc _ _ Hst Hwr _]; [done|].
  assert (Hin : dep_ConsumerServiceID dep ∈ keys).
  { rewrite <- Hs. by apply elem_of_dom_2 in Hc. }
  split; [rewrite Hst, dom_insert_L; set_solver|].
  destruct Hwr as [(_ & _ & f & _ & ->)|[-> _]]; [|done]. rewrite dom_insert_L. set_solver.
Qed.

Lemma step_progress rs st dep :
  step rs st dep = st \/ progress st < progress (step rs st dep).
Proof.
  destruct (step_cases g window reachOfDep rs st dep)
    as [->|c p own name _ Hc _ _ Hst Hwr _]; [by left|right].
  unfold progress. rewrite Hst. pose proof (total_rank_insert _ _ _
    (Worse c (prop_Status (Propagate dep p window))) Hc) as Ht.
  pose proof (Worse_ge_l c (prop_Status (Propagate dep p window))) as Hge.
  unfold status_le in Hge.
  destruct Hwr as [(_ & Hn & f & _ & ->)|[-> Hne%Worse_changes]]; [|lia].
  rewrite map_size_insert_None by done. lia.
Qed.

Lemma round_scoped keys st : scoped keys st -> scoped keys (round st).
Proof.
  intros H. unfold propagate_round. apply foldl_inv; [|done].
  intros a d _. apply step_scoped.
Qed.

Lemma round_progress st :
  ps_changed (round st) = true -> progress st < progress (round st).
Proof.
  unfold propagate_round. intros Hch.
  match goal with |- _ < progress ?r =>
    assert (H : ps_changed r = false /\ progress st <= progress r \/ progress st < progress r)
  end; [|destruct H as [[? _]|]; [congruence|done]].
  apply (foldl_inv (fun b => ps_changed b = false /\ progress st <= progress b
                             \/ progress st < progress b)).
  - intros a d _ H.
    destruct (step_progress (routeStatuses g (ps_statuses st) routeMemberReach) a d)
      as [->|Hp]; [done|]. right. destruct H as [[_ H]|H]; lia.
  - left. done.
Qed.

(** Enough fuel for the measure to run out is enough to converge. *)
Lemma loop_converges keys max fuel st :
  scoped keys st -> 3 * size keys < progress st + fuel ->
  converged g window reachOfDep routeMemberReach (loop max fuel st).1.
Proof.
  revert st. induction fuel as [|f IH]; intros st Hsc Hf.
  - exfalso. destruct Hsc as [Hs Hw]. unfold progress in Hf.
    pose proof (total_rank_bound (ps_statuses st)) as H1.
    apply subseteq_size in Hw. rewrite size_dom in Hw.
    rewrite <- Hs, size_dom in *. lia.
  - cbn. destruct (ps_changed (round st)) eqn:E; [|by apply round_converged].
    apply IH; [by apply round_scoped|]. apply round_progress in E. lia.
Qed.
End Termination.

(** ** Explanations *)

Section Explanations.
Context (g : Graph) (window : Z)
        (reachOfDep routeMemberReach : gmap string reachLevel).

#[local] Abbreviation seen X := (provider_seen g reachOfDep X (routeStatuses g X routeMemberReach)).
#[local] Abbreviation step rs := (propagate_dep g window reachOfDep rs).
#[local] Abbreviation round := (propagate_round g window reachOfDep routeMemberReach).

(** A startup dependency of [c] on a provider that is down, under [X]. *)
Definition unmet_startup (X : gmap string Status) (c provider : string) : Prop :=
  exists dep own, dep ∈ g_Deps g /\ dep_live dep /\ dep_ConsumerServiceID dep = c /\
    dep_Nature dep = NatureStartup /\ seen X dep = Some (StatusDown, own, provider).

Lemma below_down s : StatusDown ≼ₛ s -> s = StatusDown.
Proof. intros [<-|H]; [done|]. pose proof (rank_le_2 s). cbn in H. lia. Qed.

Lemma unmet_startup_mono X Y c provider :
  X ≼ₘ Y -> unmet_startup X c provider -> unmet_startup Y c provider.
Proof.
  intros H (dep & own & ? & ? & ? & ? & Hs).
  destruct (provider_seen_below g reachOfDep routeMemberReach _ _ _ _ _ _ _ H H Hs)
    as (p & own' & Hp & ->%below_down). by exists dep, own'.
Qed.

(** Every recorded startup fault is still true of the current statuses. *)
Definition faults_hold (st : PState) : Prop :=
  forall c f, ps_wontRestart st !! c = Some f ->
    unmet_startup (ps_statuses st) c (sfault_Via f).

Lemma step_faults_hold X st dep :
  dep ∈ g_Deps g -> X ≼ₘ ps_statuses st -> faults_hold st ->
  faults_hold (step (routeStatuses g X routeMemberReach) st dep).
Proof.
  intros Hin HX Hst c f Hf.
  pose proof (step_climbs g window reachOfDep (routeStatuses g X routeMemberReach) st dep) as Hup.
  apply (unmet_startup_mono _ _ _ _ Hup).
  destruct (step_cases g window reachOfDep (routeStatuses g X routeMemberReach) st dep)
    as [E|c' p own name Hl Hc Hp _ _ Hwr _]; [rewrite E in Hf; by apply Hst|].
  destruct Hwr as [(Hw & _ & f' & <- & E)|[E _]]; [|rewrite E in Hf; by apply Hst].
  rewrite E, lookup_insert in Hf. case_decide; [|by apply Hst]. simplify_eq.
  apply Propagate_wontrestart in Hw as [-> Hn].
  destruct (provider_seen_below g reachOfDep routeMemberReach _ (ps_statuses st) _ _ _ _ _
    (reflexivity _) HX Hp) as (p' & own' & Hp' & ->%below_down).
  by exists dep, own'.
Qed.

Lemma round_faults_hold st : faults_hold st -> faults_hold (round st).
Proof.
  intros H. unfold propagate_round.
  eapply (foldl_inv (fun a => ps_statuses st ≼ₘ ps_statuses a /\ faults_hold a)).
  - intros a d Hin [Ha Hf]. split; [|by apply step_faults_hold].
    etrans; [done|apply step_climbs].
  - by split.
Qed.

(** [via] names exactly the services that climbed since [init]. *)
Definition via_exact (init : gmap string Status) (st : PState) : Prop :=
  forall c, match ps_via st !! c with
            | None => ps_statuses st !! c = init !! c
            | Some _ => exists s t, init !! c = Some s /\
                          ps_statuses st !! c = Some t /\ (rank s < rank t)
            end.

Lemma step_via_exact init rs st dep :
  init ≼ₘ ps_statuses st -> via_exact init st -> via_exact init (step rs st dep).
Proof.
  intros Hi Hst c.
  destruct (step_cases g window reachOfDep rs st dep)
    as [->|c' p own name _ Hc _ _ E _ Hvia]; [apply Hst|].
  rewrite E, lookup_insert. case_decide as Ec.
  - subst c. destruct Hvia as [[-> Hm]|[-> Hm%Worse_changes]].
    + rewrite Hm. specialize (Hst (dep_ConsumerServiceID dep)). by rewrite Hc in Hst.
    + rewrite lookup_insert_eq. destruct (map_below_lookup_r _ _ _ _ Hi Hc) as (s & Hs & Hle).
      do 2 eexists. split; [done|]. split; [done|]. apply below_le in Hle.
      unfold status_le in Hle. lia.
  - destruct Hvia as [[-> _]|[-> _]]; [apply Hst|]. rewrite lookup_insert_ne by done. apply Hst.
Qed.

Lemma round_via_exact init st :
  init ≼ₘ ps_statuses st -> via_exact init st -> via_exact init (round st).
Proof.
  intros Hi H. unfold propagate_round.
  apply (foldl_inv (fun a => init ≼ₘ ps_statuses a /\ via_exact init a)).
  - intros a d _ [Ha Hf]. split; [|by apply step_via_exact].
    etrans; [done|apply step_climbs].
  - by split.
Qed.
End Explanations.

(** ** The phase as a whole *)

Lemma phase_inv (P : PState -> Prop) g req statuses reasons rod rmr :
  (forall st, P st -> P (propagate_round g (req_WindowSeconds req) rod rmr st)) ->
  P (initial_state statuses reasons) ->
  P (phasePropagate g req statuses reasons rod rmr).1.
Proof. intros. unfold phasePropagate. by apply loop_inv. Qed.

Lemma phase_climbs g req statuses reasons rod rmr :
  statuses ≼ₘ ps_statuses (phasePropagate g req statuses reasons rod rmr).1.
Proof.
  apply (phase_inv (fun st => statuses ≼ₘ ps_statuses st)); [|reflexivity].
  intros st H. etrans; [exact H|apply round_climbs].
Qed.

Lemma phase_bounded g req statuses reasons rod rmr X :
  closed g (req_WindowSeconds req) rod rmr X -> statuses ≼ₘ X ->
  ps_statuses (phasePropagate g req statuses reasons rod rmr).1 ≼ₘ X.
Proof.
  intros HX H. apply (phase_inv (fun st => ps_statuses st ≼ₘ X)); [|done].
  intros st. by apply round_bounded.
Qed.

Lemma phase_converged g req statuses reasons rod rmr :
  (phasePropagate g req statuses reasons rod rmr).2 < maxIterations ->
  converged g (req_WindowSeconds req) rod rmr
    (phasePropagate g req statuses reasons rod rmr).1.
Proof. unfold phasePropagate. by apply loop_early. Qed.

(** ** Verdicts that change nothing *)

(** No verdict downgrades: what a nil map reads as, and what an estate without
    a network gets. *)
Definition neutral (rod : gmap string reachLevel) : Prop :=
  forall id l, rod !! id = Some l -> l = reachOK.

Lemma neutral_empty : neutral ∅.
Proof. intros id l H. by rewrite lookup_empty in H. Qed.

Lemma neutral_downgrade rod id s : neutral rod -> downgrade (rod.[id | reachUnknown]) s = s.
Proof. intros H. destruct (rod !! id) as [l|] eqn:E; [|done]. cbn. by rewrite (H _ _ E). Qed.

Lemma provider_seen_neutral g rod X rs dep :
  neutral rod -> provider_seen g rod X rs dep = providerHealth g dep X rs.
Proof.
  intros H. unfold provider_seen. destruct (providerHealth g dep X rs) as [[[p own] name]|]; [|done].
  cbn. by rewrite neutral_downgrade.
Qed.

Lemma propagate_round_neutral g w rod rmr st :
  neutral rod -> propagate_round g w rod rmr st = propagate_round g w ∅ rmr st.
Proof.
  intros H. unfold propagate_round. generalize (routeStatuses g (ps_statuses st) rmr). intros rs.
  generalize {| ps_statuses := ps_statuses st; ps_reasons := ps_reasons st; ps_via := ps_via st;
    ps_viaPartition := ps_viaPartition st; ps_wontRestart := ps_wontRestart st;
    ps_changed := false |}.
  induction (g_Deps g) as [|d ds IH]; intros a; [done|]. cbn [foldl].
  assert (propagate_dep g w rod rs a d = propagate_dep g w ∅ rs a d) as ->; [|done].
  unfold propagate_dep. by rewrite !provider_seen_neutral by (done || apply neutral_empty).
Qed.

Lemma phase_neutral g req statuses reasons rod rmr :
  neutral rod ->
  phasePropagate g req statuses reasons rod rmr = phasePropagate g req statuses reasons ∅ rmr.
Proof.
  intros H. unfold phasePropagate. generalize (initial_state statuses reasons).
  generalize maxIterations at 2 4. intros fuel. induction fuel as [|f IH]; intros st; [done|].
  cbn [propagate_loop]. rewrite propagate_round_neutral by done. by rewrite IH.
Qed.

(** Without verdicts a provider looks to its consumers as it is. *)
Lemma providerHealth_own g X Y dep p own name :
  providerHealth g dep X (routeStatuses g Y ∅) = Some (p, own, name) -> p = own.
Proof.
  unfold providerHealth. destruct (dep_ProviderEndpointID dep) as [e|].
  - destruct (g_Endpoints g !! e) as [ep|]; [|done]; cbn.
    destruct (g_Services g !! ep_ServiceID ep); [|done]; cbn. congruence.
  - destruct (dep_ProviderRouteID dep) as [r|]; [|done].
    destruct (g_Routes g !! r) as [rt|]; [|done]. cbn. intros [= <- <- _].
    unfold routeStatuses. rewrite lookup_fmap. destruct (g_Routes g !! rt_ID rt) as [rt'|]; [|done].
    cbn [fmap option_fmap option_map default from_option rh_Status rh_Bare route_health].
    by do 2 f_equal.
Qed.

(** No row blames the network. *)
Definition no_partition (st : PState) : Prop :=
  (forall c b, ps_viaPartition st !! c = Some b -> b = false) /\
  (forall c f, ps_wontRestart st !! c = Some f -> sfault_NetEffect f = reachUnknown).

Lemma step_no_partition g w X st dep :
  no_partition st -> no_partition (propagate_dep g w ∅ (routeStatuses g X ∅) st dep).
Proof.
  intros [H1 H2]. unfold propagate_dep. case_decide; [done|].
  destruct (ps_statuses st !! _) as [c|]; [|done].
  rewrite provider_seen_neutral by apply neutral_empty.
  destruct (providerHealth _ _ _ _) as [[[p own] name]|] eqn:E; [|done].
  apply providerHealth_own in E as ->.
  assert (Hn : net_effect own own = reachUnknown) by (unfold net_effect; by rewrite decide_True).
  rewrite Hn. cbn zeta.
  assert (Hst1 : no_partition (if decide (prop_WontRestart (Propagate dep own w) = true /\
      ps_wontRestart st !! dep_ConsumerServiceID dep = None)
      then record_startup dep name reachUnknown st else st)).
  { case_decide; [|done]. split; cbn; [done|]. intros c' f. rewrite lookup_insert.
    case_decide; [by intros [= <-]|apply H2]. }
  revert Hst1. generalize (if decide (prop_WontRestart (Propagate dep own w) = true /\
      ps_wontRestart st !! dep_ConsumerServiceID dep = None)
      then record_startup dep name reachUnknown st else st).
  intros st1 Hst1. case_decide; [done|]. destruct Hst1 as [H1' H2']. split; [|exact H2'].
  intros c' b. unfold record_status. cbn [ps_viaPartition]. rewrite lookup_insert.
  case_decide; [by intros [= <-]|apply H1'].
Qed.

Lemma phase_no_partition g req statuses reasons :
  no_partition (phasePropagate g req statuses reasons ∅ ∅).1.
Proof.
  apply (phase_inv no_partition).
  - intros st H. unfold propagate_round. apply (foldl_inv no_partition); [|done].
    intros a d _. apply step_no_partition.
  - split; intros ? ? Hc; cbn in Hc; by rewrite lookup_empty in Hc.
Qed.

(** * Properties *)

(** C6. When [phasePropagate] stops before its bound, the statuses it leaves
    are the least assignment above the starting one that no edge worsens:
    propagation finds every consequence and invents none. *)
Theorem phasePropagate_least_fixpoint g req statuses reasons rod rmr :
  let r := phasePropagate g req statuses reasons rod rmr in
  r.2 < maxIterations ->
  closed g (req_WindowSeconds req) rod rmr (ps_statuses r.1) /\
  statuses ≼ₘ ps_statuses r.1 /\
  (forall X, closed g (req_WindowSeconds req) rod rmr X -> statuses ≼ₘ X ->
     ps_statuses r.1 ≼ₘ X).
Proof.
  intros r Hr. split_and!.
  - by apply converged_closed, phase_converged.
  - apply phase_climbs.
  - intros X. apply phase_bounded.
Qed.

Lemma phasePropagate_least_fixpoint_witness :
  let r := phasePropagate demo_graph demo_request demo_statuses ∅ ∅ ∅ in
  r.2 < maxIterations /\ closed demo_graph 0 ∅ ∅ (ps_statuses r.1).
Proof.
  split; [vm_compute; lia|].
  apply (phasePropagate_least_fixpoint demo_graph demo_request demo_statuses ∅ ∅ ∅).
  vm_compute. lia.
Defined.

(** Whatever the graph and however many rounds ran, propagation never
    improves a status, adds or drops a service, or goes beyond an assignment
    that already satisfies every edge. *)
Theorem phasePropagate_sound g req statuses reasons rod rmr X :
  closed g (req_WindowSeconds req) rod rmr X -> statuses ≼ₘ X ->
  statuses ≼ₘ ps_statuses (phasePropagate g req statuses reasons rod rmr).1 /\
  ps_statuses (phasePropagate g req statuses reasons rod rmr).1 ≼ₘ X /\
  dom (ps_statuses (phasePropagate g req statuses reasons rod rmr).1) = dom statuses.
Proof.
  intros HX H. split_and!; [apply phase_climbs|by apply phase_bounded|].
  apply set_eq. intros k. rewrite !elem_of_dom.
  destruct (phase_climbs g req statuses reasons rod rmr k); split; intros []; eauto.
Qed.

Lemma phasePropagate_sound_witness :
  let X := ps_statuses (phasePropagate demo_graph demo_request demo_statuses ∅ ∅ ∅).1 in
  X !! "app" = Some StatusDown /\
  ps_statuses (phasePropagate demo_graph demo_request demo_statuses ∅ ∅ ∅).1 ≼ₘ X.
Proof.
  split; [vm_compute; reflexivity|].
  apply (phasePropagate_sound demo_graph demo_request demo_statuses ∅ ∅ ∅).
  - apply (converged_closed demo_graph 0 ∅ ∅). apply phase_converged. vm_compute. lia.
  - apply phase_climbs.
Defined.

(** C34. The loop terminates by itself on any graph: with [n] services, a bound
    of more than [3 n] rounds is never reached, because each round that changes
    anything either worsens a status or records one more startup fault. *)
Theorem propagate_loop_terminates g window rod rmr statuses reasons max :
  3 * size statuses < max ->
  let r := propagate_loop g window rod rmr max max (initial_state statuses reasons) in
  converged g window rod rmr r.1 /\ closed g window rod rmr (ps_statuses r.1).
Proof.
  intros Hm r. assert (Hc : converged g window rod rmr r.1); [|split; [done|by apply converged_closed]].
  apply (loop_converges _ _ _ _ (dom statuses)).
  - split; cbn; [done|]. rewrite dom_empty_L. set_solver.
  - rewrite size_dom. lia.
Qed.

Lemma propagate_loop_terminates_witness :
  closed (chain_graph 21) 0 ∅ ∅
    (ps_statuses (propagate_loop (chain_graph 21) 0 ∅ ∅ 70 70
                    (initial_state (chain_statuses 21) ∅)).1).
Proof.
  apply (propagate_loop_terminates (chain_graph 21) 0 ∅ ∅ (chain_statuses 21) ∅ 70).
  vm_compute. lia.
Defined.

(** The bound is reached by ordinary data. On a chain of 21 hard edges
    whose last service is down, loaded from the consumer end, 20 rounds leave the
    first service reported healthy although the provider it hard-depends on is
    reported down; without the bound the first service is down. *)
Theorem phasePropagate_truncates :
  let req := {| req_DownAssetIDs := []; req_CutCircuitIDs := []; req_CutLinkIDs := [];
                req_WindowSeconds := 0%Z; req_UseObservedHealth := false;
                req_SkipNetwork := false; req_ReportReachabilityOnly := false |} in
  let r := phasePropagate (chain_graph 21) req (chain_statuses 21) ∅ ∅ ∅ in
  let full := propagate_loop (chain_graph 21) 0 ∅ ∅ 70 70
                (initial_state (chain_statuses 21) ∅) in
  ps_statuses r.1 !! "s0" = Some StatusOK /\ ps_statuses r.1 !! "s1" = Some StatusDown /\
  In (edge "s0" "s1" NatureHard) (g_Deps (chain_graph 21)) /\
  r.2 = maxIterations /\
  ps_statuses full.1 !! "s0" = Some StatusDown.
Proof. vm_compute. repeat split; try reflexivity. by left. Qed.

(** The landmine list is exact. When the loop converged, a service is
    recorded as unable to restart exactly when one of its startup dependencies
    is on a provider that the final statuses show down. *)
Theorem phasePropagate_wont_restart g req statuses reasons rod rmr c :
  let r := phasePropagate g req statuses reasons rod rmr in
  r.2 < maxIterations ->
  is_Some (statuses !! c) ->
  is_Some (ps_wontRestart r.1 !! c) <->
  exists provider, unmet_startup g rod rmr (ps_statuses r.1) c provider.
Proof.
  intros r Hr Hin. split.
  - intros [f Hf]. exists (sfault_Via f).
    assert (H : faults_hold g rod rmr r.1).
    { apply (phase_inv (faults_hold g rod rmr)); [apply round_faults_hold|].
      intros c' f' Hf'. cbn in Hf'. by rewrite lookup_empty in Hf'. }
    by apply H.
  - intros (provider & dep & own & Hd & Hl & <- & Hn & Hs).
    destruct Hin as [s Hs'].
    destruct (map_below_lookup _ _ _ _ (phase_climbs g req statuses reasons rod rmr) Hs')
      as (t & Ht & _).
    eapply (converged_startup g (req_WindowSeconds req)); [by apply phase_converged|done..|].
    by apply Propagate_wontrestart.
Qed.

Lemma phasePropagate_wont_restart_witness :
  is_Some (ps_wontRestart (phasePropagate demo_graph demo_request demo_statuses ∅ ∅ ∅).1 !! "batch")
  <-> exists provider, unmet_startup demo_graph ∅ ∅
        (ps_statuses (phasePropagate demo_graph demo_request demo_statuses ∅ ∅ ∅).1) "batch" provider.
Proof.
  apply (phasePropagate_wont_restart demo_graph demo_request demo_statuses ∅ ∅ ∅ "batch").
  - vm_compute. lia.
  - exists StatusOK. vm_compute. reflexivity.
Defined.

(** A service names a dependency as the cause exactly when propagation worsened
    it; otherwise its status is the one capacity gave it. *)
Lemma phasePropagate_via g req statuses reasons rod rmr c :
  let r := (phasePropagate g req statuses reasons rod rmr).1 in
  match ps_via r !! c with
  | None => ps_statuses r !! c = statuses !! c
  | Some _ => exists s t, statuses !! c = Some s /\ ps_statuses r !! c = Some t /\
                          rank s < rank t
  end.
Proof.
  assert (H : statuses ≼ₘ ps_statuses (phasePropagate g req statuses reasons rod rmr).1 /\
              via_exact statuses (phasePropagate g req statuses reasons rod rmr).1).
  { apply (phase_inv (fun st => statuses ≼ₘ ps_statuses st /\ via_exact statuses st)).
    - intros st [Ha Hv]. split; [etrans; [done|apply round_climbs]|by apply round_via_exact].
    - split; [reflexivity|]. intros c'. cbn. by rewrite lookup_empty. }
  apply H.
Qed.

(** A route whose proxy's service is not in the graph has the zero
    status, which the nature table reads as degraded: its hard consumer is
    reported degraded although every service in the graph is healthy. *)
Lemma routeStatuses_missing_proxy g statuses rmr r ep dep w :
  g_Endpoints g !! rt_FrontendEndpointID r = Some ep ->
  statuses !! ep_ServiceID ep = None ->
  known_members g r = [] ->
  dep_Nature dep = NatureHard ->
  rh_Status (route_health g statuses rmr r) = StatusUnset /\
  prop_Status (Propagate dep (rh_Status (route_health g statuses rmr r)) w) = StatusDegraded.
Proof.
  intros He Hs Hm Hn. cbn. unfold endpoint_status. rewrite He, Hs, Hm. cbn.
  split; [done|]. unfold Propagate. by rewrite Hn.
Qed.

Lemma routeStatuses_missing_proxy_witness :
  rh_Status (route_health
    {| g_Services := ∅; g_Instances := ∅;
       g_Endpoints := {["proxy" := mk_endpoint "proxy" "gone" BindHost "internal"]};
       g_Routes := ∅; g_PoolMembers := ∅; g_Deps := []; g_ServiceClusterAssetID := ∅;
       g_ClusterNodes := ∅; g_Clusters := []; g_Structures := []; g_Net := None |} ∅ ∅
    {| rt_ID := "r"; rt_FrontendEndpointID := "proxy"; rt_BackendPoolID := "pool"; rt_Name := "r" |})
  = StatusUnset.
Proof.
  refine (proj1 (routeStatuses_missing_proxy _ ∅ ∅ _ (mk_endpoint "proxy" "gone" BindHost "internal")
    (mk_dep "d" "c" None (Some "r") NatureHard None) 0 _ _ _ _)); vm_compute; reflexivity.
Defined.
