(* ===== verification/UnionFind.v ===== *)
(** The union-find structure of [internal/impact/reach.go].

    [parent] maps each vertex to its parent and each root to itself. [find]
    compresses the path it walks and [union] makes the lexicographically smaller
    root the representative, so the representative of a class is its least
    vertex whatever the order of the unions. Loops run on fuel; the parent of a
    vertex never sorts after it, which bounds every walk by the size of the
    map. *)
From Stdlib Require Import String ZArith Lia.
From stdpp Require Import base gmap strings list relations.
From S2P Require Import Prelude.

#[local] Open Scope string_scope.
#[local] Open Scope list_scope.
#[local] Open Scope nat_scope.

(** * Definitions *)

(** The [parent] field of [unionFind]. *)
Abbreviation unionFind := (gmap string string).

(** [newUnionFind] *)
Definition newUnionFind (nodes : list string) : unionFind :=
  list_to_map ((fun n => (n, n)) <$> nodes).

(** [for uf.parent[root] != root { root = uf.parent[root] }] *)
Fixpoint find_root (fuel : nat) (parent : unionFind) (root : string) : string :=
  match fuel with
  | O => root
  | S fuel' =>
      if decide (parent.[root | ""] = root) then root
      else find_root fuel' parent (parent.[root | ""])
  end.

(** [for uf.parent[x] != root { uf.parent[x], x = root, uf.parent[x] }] *)
Fixpoint compress (fuel : nat) (parent : unionFind) (x root : string) : unionFind :=
  match fuel with
  | O => parent
  | S fuel' =>
      if decide (parent.[x | ""] = root) then parent
      else compress fuel' (<[x := root]> parent) (parent.[x | ""]) root
  end.

(** [unionFind.find]: the root, and the structure with the path compressed. *)
Definition find (parent : unionFind) (x : string) : string * unionFind :=
  let fuel := S (size parent) in
  let root := find_root fuel parent x in
  (root, compress fuel parent x root).

(** [unionFind.union] *)
Definition union_ (parent : unionFind) (a b : string) : unionFind :=
  let '(ra, p1) := find parent a in
  let '(rb, p2) := find p1 b in
  if decide (ra = rb) then p2
  else if str_ltb ra rb then <[rb := ra]> p2 else <[ra := rb]> p2.

(** [for _, n := range nodes { out[n] = uf.find(n) }] *)
Definition find_all (parent : unionFind) (nodes : list string)
    : gmap string string * unionFind :=
  foldl (fun (acc : gmap string string * unionFind) n =>
           let '(r, p') := find acc.2 n in (<[n := r]> acc.1, p'))
        (∅, parent) nodes.

(** * The forest a structure describes *)

Inductive Root (p : unionFind) : string -> string -> Prop :=
| Root_here x : p !! x = Some x -> Root p x x
| Root_step x y r : p !! x = Some y -> y <> x -> Root p y r -> Root p x r.

(** Parents are vertices and never sort after their children. *)
Definition wf (p : unionFind) : Prop :=
  forall x y, p !! x = Some y -> is_Some (p !! y) /\ str_ltb x y = false.

(** [x] and [y] have the same root. *)
Definition same (p : unionFind) (x y : string) : Prop :=
  exists r, Root p x r /\ Root p y r.

(** How many vertices sort before [x]: the bound on the walk from [x]. *)
Definition lower (p : unionFind) (x : string) : nat :=
  size (filter (fun k => str_ltb k x = true) (dom p)).

(** * Lemmas *)

Lemma str_ltb_of_ne x y : str_ltb x y = false -> y <> x -> str_ltb y x = true.
Proof.
  intros H Hne. destruct (str_ltb y x) eqn:E; [done|]. exfalso. by apply Hne, str_ltb_total.
Qed.

Lemma str_le_trans x y z : str_ltb y x = false -> str_ltb z y = false -> str_ltb z x = false.
Proof. apply sw_negtrans. Qed.

Lemma Root_det p x r r' : Root p x r -> Root p x r' -> r = r'.
Proof.
  intros H. revert r'. induction H as [x Hx|x y r Hx Hne _ IH]; intros r' H';
    inversion H'; simplify_eq; auto.
Qed.

Lemma Root_root p x r : Root p x r -> p !! r = Some r.
Proof. by induction 1. Qed.

Lemma Root_self p x r : Root p x r -> Root p r r.
Proof. intros H%Root_root. by constructor. Qed.

Lemma Root_dom p x r : Root p x r -> is_Some (p !! x).
Proof. by destruct 1; eexists. Qed.

Lemma Root_le p x r : wf p -> Root p x r -> str_ltb x r = false.
Proof.
  intros Hwf. induction 1 as [x _|x y r Hx _ _ IH]; [apply str_ltb_irrefl|].
  eapply str_le_trans; [exact IH|]. by apply Hwf.
Qed.

Lemma lower_bound p x : lower p x <= size p.
Proof. unfold lower. rewrite <- size_dom. apply subseteq_size. set_solver. Qed.

Lemma lower_lt p x y : is_Some (p !! y) -> str_ltb y x = true -> lower p y < lower p x.
Proof.
  intros Hy Hlt. unfold lower. apply subset_size. split.
  - intros k. rewrite !elem_of_filter. intros [Hk ?]. split; [|done].
    by eapply str_ltb_trans.
  - intros H. specialize (H y). rewrite !elem_of_filter, str_ltb_irrefl in H.
    destruct H as [? _]; [|done]. split; [done|]. by apply elem_of_dom.
Qed.

Lemma lower_dom p p' x : dom p = dom p' -> lower p x = lower p' x.
Proof. unfold lower. by intros ->. Qed.

(** The walk of [find] ends at the root within its fuel. *)
Lemma find_root_spec fuel p x :
  wf p -> is_Some (p !! x) -> lower p x < fuel -> Root p x (find_root fuel p x).
Proof.
  intros Hwf. revert x. induction fuel as [|f IH]; intros x [y Hx] Hf; [lia|].
  cbn. rewrite Hx. cbn. case_decide as E; [subst; by constructor|].
  destruct (Hwf _ _ Hx) as [Hy Hle].
  eapply Root_step; [done..|]. apply IH; [done|].
  pose proof (lower_lt p x y Hy (str_ltb_of_ne _ _ Hle E)). lia.
Qed.

Lemma Root_exists p x : wf p -> is_Some (p !! x) -> exists r, Root p x r.
Proof. intros. eexists. apply (find_root_spec (S (lower p x))); [done..|lia]. Qed.

(** Two structures over the same vertices with the same roots. *)
Record equivalent (p p' : unionFind) : Prop := {
  equivalent_wf : wf p';
  equivalent_dom : dom p = dom p';
  equivalent_root : forall x r, Root p x r -> Root p' x r
}.

Lemma equivalent_root_iff p p' x r :
  wf p -> equivalent p p' -> Root p x r <-> Root p' x r.
Proof.
  intros Hwf [Hwf' Hd Hr]. split; [apply Hr|]. intros H.
  assert (Hx : is_Some (p !! x)).
  { rewrite <- elem_of_dom, Hd, elem_of_dom. by eapply Root_dom. }
  destruct (Root_exists _ _ Hwf Hx) as [r' Hr']. by rewrite (Root_det _ _ _ _ H (Hr _ _ Hr')).
Qed.

Lemma equivalent_refl p : wf p -> equivalent p p.
Proof. by split. Qed.

Lemma equivalent_trans p1 p2 p3 : equivalent p1 p2 -> equivalent p2 p3 -> equivalent p1 p3.
Proof. intros [? ? H1] [? ? H2]. split; [done|congruence|auto]. Qed.

(** Pointing a vertex straight at its root changes no root. *)
Lemma shortcut p x root : wf p -> Root p x root -> equivalent p (<[x := root]> p).
Proof.
  intros Hwf Hr. pose proof (Root_dom _ _ _ Hr) as Hx.
  pose proof (Root_root _ _ _ Hr) as Hrr. split.
  - intros z y. rewrite lookup_insert. case_decide as E.
    + intros [= <-]. subst z. split; [|by eapply Root_le].
      rewrite lookup_insert_is_Some. destruct (decide (x = root)); eauto.
    + intros Hz. destruct (Hwf _ _ Hz) as [Hy Hle]. split; [|done].
      rewrite lookup_insert_is_Some. destruct (decide (x = y)); eauto.
  - rewrite dom_insert_L. apply elem_of_dom in Hx. set_solver.
  - assert (Hroot : Root (<[x := root]> p) x root).
    { destruct (decide (root = x)) as [->|Hne].
      - constructor. by rewrite lookup_insert_eq.
      - eapply Root_step; [by rewrite lookup_insert_eq|done|].
        constructor. by rewrite lookup_insert_ne. }
    intros z r Hz. induction Hz as [z Hz|z y r Hz Hne Hy IH].
    + destruct (decide (x = z)) as [<-|]; [|constructor; by rewrite lookup_insert_ne].
      by destruct (Root_det _ _ _ _ (Root_here _ _ Hz) Hr).
    + destruct (decide (x = z)) as [<-|].
      * by destruct (Root_det _ _ _ _ (Root_step _ _ _ _ Hz Hne Hy) Hr).
      * eapply Root_step; [by rewrite lookup_insert_ne|done|done].
Qed.

Lemma compress_spec fuel p x root :
  wf p -> Root p x root -> equivalent p (compress fuel p x root).
Proof.
  revert p x. induction fuel as [|f IH]; intros p x Hwf Hr; cbn; [by apply equivalent_refl|].
  case_decide as E; [by apply equivalent_refl|].
  destruct Hr as [x Hx|x y r Hx Hne Hy]; [by rewrite Hx in E|]. rewrite Hx. cbn.
  assert (Hs : equivalent p (<[x := r]> p))
    by (apply shortcut; [done|by eapply Root_step]).
  eapply equivalent_trans; [exact Hs|]. apply IH; [apply Hs|]. by apply Hs.
Qed.

(** [find] returns the root and changes no root. *)
Lemma find_spec p x :
  wf p -> is_Some (p !! x) -> Root p x (find p x).1 /\ equivalent p (find p x).2.
Proof.
  intros Hwf Hx. assert (Hr : Root p x (find p x).1).
  { apply find_root_spec; [done..|]. pose proof (lower_bound p x). lia. }
  split; [done|]. by apply compress_spec.
Qed.

(** Hanging the root [hi] under the smaller root [lo]. *)
Lemma link_spec p hi lo :
  wf p -> Root p hi hi -> Root p lo lo -> str_ltb lo hi = true ->
  wf (<[hi := lo]> p) /\ dom (<[hi := lo]> p) = dom p /\
  forall z r, Root p z r -> Root (<[hi := lo]> p) z (if decide (r = hi) then lo else r).
Proof.
  intros Hwf Hhi Hlo Hlt. assert (Hne : lo <> hi) by (intros ->; by rewrite str_ltb_irrefl in Hlt).
  apply Root_root in Hhi, Hlo. split_and!.
  - intros z y. rewrite lookup_insert. case_decide as E.
    + intros [= <-]. subst z. split; [|by apply sw_asym].
      rewrite lookup_insert_is_Some. destruct (decide (hi = lo)); eauto.
    + intros Hz. destruct (Hwf _ _ Hz) as [Hy Hle]. split; [|done].
      rewrite lookup_insert_is_Some. destruct (decide (hi = y)); eauto.
  - rewrite dom_insert_L. apply elem_of_dom_2 in Hhi. set_solver.
  - assert (Hrl : Root (<[hi := lo]> p) lo lo) by (constructor; by rewrite lookup_insert_ne).
    intros z r Hz. induction Hz as [z Hz|z y r Hz Hzy Hy IH].
    + case_decide as E.
      * subst z. eapply Root_step; [by rewrite lookup_insert_eq|done|done].
      * constructor. by rewrite lookup_insert_ne.
    + destruct (decide (hi = z)) as [<-|]; [congruence|].
      eapply Root_step; [by rewrite lookup_insert_ne|done|done].
Qed.

Lemma same_dom p x y : same p x y -> is_Some (p !! x) /\ is_Some (p !! y).
Proof. intros (r & H1 & H2). split; by eapply Root_dom. Qed.

Lemma same_sym p x y : same p x y -> same p y x.
Proof. intros (r & ? & ?). by exists r. Qed.

Lemma same_trans p x y z : same p x y -> same p y z -> same p x z.
Proof.
  intros (r & H1 & H2) (r' & H3 & H4). exists r. by rewrite (Root_det _ _ _ _ H2 H3) in *.
Qed.

Lemma same_refl p x : wf p -> is_Some (p !! x) -> same p x x.
Proof. intros Hwf Hx. destruct (Root_exists _ _ Hwf Hx) as [r ?]. by exists r. Qed.

Lemma same_equivalent p p' x y : wf p -> equivalent p p' -> same p x y <-> same p' x y.
Proof.
  intros Hwf He. unfold same. by setoid_rewrite (equivalent_root_iff p p' _ _ Hwf He).
Qed.

(** The classes after one union: those of [a] and [b] merge, no other does. *)
Definition merged (p : unionFind) (a b x y : string) : Prop :=
  same p x y \/ (same p x a /\ same p b y) \/ (same p x b /\ same p a y).

Lemma link_merges p hi lo a b x y :
  wf p -> Root p a hi -> Root p b lo -> str_ltb lo hi = true ->
  same (<[hi := lo]> p) x y <-> merged p a b x y.
Proof.
  intros Hwf Ha Hb Hlt.
  destruct (link_spec p hi lo Hwf (Root_self _ _ _ Ha) (Root_self _ _ _ Hb) Hlt)
    as (Hwf' & Hd & Hr). split.
  - intros Hs. pose proof (same_dom _ _ _ Hs) as [Hx Hy].
    rewrite <- elem_of_dom, Hd, elem_of_dom in Hx, Hy.
    destruct (Root_exists _ _ Hwf Hx) as [rx Hrx], (Root_exists _ _ Hwf Hy) as [ry Hry].
    destruct Hs as (r & H1 & H2).
    pose proof (Root_det _ _ _ _ H1 (Hr _ _ Hrx)) as E1.
    pose proof (Root_det _ _ _ _ H2 (Hr _ _ Hry)) as E2.
    unfold merged, same. repeat case_decide; simplify_eq; eauto 10.
  - assert (Hsub : forall u v, same p u v -> same (<[hi := lo]> p) u v)
      by (intros u v (r & H1 & H2); eexists; eauto).
    assert (Hab : same (<[hi := lo]> p) a b).
    { exists lo. split; [|]; [specialize (Hr _ _ Ha)|specialize (Hr _ _ Hb)].
      - by rewrite decide_True in Hr.
      - rewrite decide_False in Hr; [done|]. intros ->. by rewrite str_ltb_irrefl in Hlt. }
    intros [H|[[H1 H2]|[H1 H2]]]; [auto|..].
    + eapply same_trans; [by apply Hsub|]. eapply same_trans; [exact Hab|auto].
    + eapply same_trans; [by apply Hsub|]. eapply same_trans; [apply same_sym, Hab|auto].
Qed.

#[local] Arguments find : simpl never.

(** [union] merges the classes of its arguments and nothing else. *)
Lemma union_spec p a b :
  wf p -> is_Some (p !! a) -> is_Some (p !! b) ->
  wf (union_ p a b) /\ dom (union_ p a b) = dom p /\
  forall x y, same (union_ p a b) x y <-> merged p a b x y.
Proof.
  intros Hwf Ha Hb. unfold union_.
  destruct (find_spec p a Hwf Ha) as [Hra He1]. destruct (find p a) as [ra p1]. cbn in *.
  assert (Hb1 : is_Some (p1 !! b)).
  { rewrite <- elem_of_dom, <- (equivalent_dom _ _ He1), elem_of_dom. done. }
  destruct (find_spec p1 b (equivalent_wf _ _ He1) Hb1) as [Hrb He2].
  destruct (find p1 b) as [rb p2]. cbn in *.
  pose proof (equivalent_trans _ _ _ He1 He2) as He. pose proof (equivalent_wf _ _ He) as Hwf2.
  apply (equivalent_root _ _ He) in Hra. apply (equivalent_root _ _ He2) in Hrb.
  assert (Hm : forall u v x y, merged p2 u v x y <-> merged p u v x y).
  { intros. unfold merged. by rewrite <- !(same_equivalent p p2 _ _ Hwf He). }
  rewrite (equivalent_dom _ _ He).
  destruct (decide (ra = rb)) as [Er|Er]; [|destruct (str_ltb ra rb) eqn:Elt].
  - subst rb. split_and!; [done..|]. intros x y. rewrite <- Hm. split; [by left|].
    assert (Hab : same p2 a b) by (by exists ra).
    intros [H|[[H1 H2]|[H1 H2]]]; [done|..].
    + eapply same_trans; [exact H1|]. by eapply same_trans.
    + eapply same_trans; [exact H1|]. eapply same_trans; [apply same_sym, Hab|done].
  - destruct (link_spec p2 rb ra) as (? & ? & _); [eauto using Root_self..|done|].
    split_and!; [done..|]. intros x y. rewrite <- Hm.
    rewrite (link_merges p2 rb ra b a) by done. unfold merged. tauto.
  - assert (Elt' : str_ltb rb ra = true) by (apply str_ltb_of_ne; congruence).
    destruct (link_spec p2 ra rb) as (? & ? & _); [eauto using Root_self..|done|].
    split_and!; [done..|]. intros x y. rewrite <- Hm. by apply link_merges.
Qed.

(** ** Connectivity *)

Section Edges.
Context {E : Type} (src dst : E -> string).

(** Undirected adjacency by an edge of the list. *)
Definition joined (es : list E) (x y : string) : Prop :=
  exists e, e ∈ es /\ src e = x /\ dst e = y.

(** Connected by edges of the list, in either direction. *)
Definition connected (es : list E) : string -> string -> Prop := rtsc (joined es).

Lemma connected_sym es x y : connected es x y -> connected es y x.
Proof. unfold connected. by symmetry. Qed.

Lemma connected_weaken es es' x y : es ⊆ es' -> connected es x y -> connected es' x y.
Proof.
  intros Hsub. apply (rtsc_congruence id). intros u v (e & ? & ?). exists e. auto.
Qed.

Lemma connected_edge es e : e ∈ es -> connected es (src e) (dst e).
Proof. intros. apply rtc_once. left. by exists e. Qed.

(** One more edge connects what it joins. *)
Lemma connected_snoc es e x y :
  connected (es ++ [e]) x y <->
  connected es x y \/
  (connected es x (src e) /\ connected es (dst e) y) \/
  (connected es x (dst e) /\ connected es (src e) y).
Proof.
  assert (Hsub : es ⊆ es ++ [e]) by (intros z; rewrite elem_of_app; auto).
  assert (He : e ∈ es ++ [e]) by (rewrite elem_of_app, list_elem_of_singleton; auto).
  split.
  - intros H. induction H as [x|x z y Hxz _ IH]; [left; constructor|].
    assert (Hz : connected es x z \/ (x = src e /\ z = dst e) \/ (x = dst e /\ z = src e)).
    { destruct Hxz as [(e' & Hin & <- & <-)|(e' & Hin & <- & <-)];
        rewrite elem_of_app, list_elem_of_singleton in Hin; destruct Hin as [Hin| ->]; auto.
      - left. by apply connected_edge.
      - left. by apply connected_sym, connected_edge. }
    destruct Hz as [Hz|[[-> ->]|[-> ->]]].
    + destruct IH as [IH|[[H1 H2]|[H1 H2]]];
        [left|right; left; split; [|done]|right; right; split; [|done]]; by etrans.
    + destruct IH as [IH|[[H1 H2]|[H1 H2]]]; [right; left..|]; try by split; [constructor|].
      by left.
    + destruct IH as [IH|[[H1 H2]|[H1 H2]]]; [right; right| |right; right];
        try by split; [constructor|]. by left.
  - intros [H|[[H1 H2]|[H1 H2]]]; [by eapply connected_weaken|..];
      (etrans; [by eapply connected_weaken|etrans; [|by eapply connected_weaken]]).
    + by apply connected_edge.
    + by apply connected_sym, connected_edge.
Qed.

(** [for _, e := range edges { uf.union(e.src, e.dst) }] *)
Definition union_all (p : unionFind) (es : list E) : unionFind :=
  foldl (fun p e => union_ p (src e) (dst e)) p es.

Lemma newUnionFind_lookup nodes x :
  newUnionFind nodes !! x = if decide (x ∈ nodes) then Some x else None.
Proof.
  unfold newUnionFind. induction nodes as [|n ns IH]; cbn; [done|].
  destruct (decide (n = x)) as [->|Hne].
  - rewrite lookup_insert_eq. by rewrite decide_True by left.
  - rewrite lookup_insert_ne, IH by done.
    destruct (decide (x ∈ ns)), (decide (x ∈ n :: ns)) as [H|H]; try done.
    + exfalso. apply H. by right.
    + apply elem_of_cons in H as [->|]; done.
Qed.

(** After all unions two vertices have one root exactly when they are
    connected. *)
Lemma union_all_spec nodes es :
  (forall e, e ∈ es -> src e ∈ nodes /\ dst e ∈ nodes) ->
  let p := union_all (newUnionFind nodes) es in
  wf p /\ (forall x, is_Some (p !! x) <-> x ∈ nodes) /\
  forall x y, x ∈ nodes -> y ∈ nodes -> same p x y <-> connected es x y.
Proof.
  induction es as [|e es IH] using rev_ind; intros Hes.
  - cbn. assert (Hl := newUnionFind_lookup nodes).
    assert (Hroot : forall x r, x ∈ nodes -> Root (newUnionFind nodes) x r <-> r = x).
    { intros x r Hx. specialize (Hl x). rewrite decide_True in Hl by done.
      split; [|by intros ->; constructor]. intros H. by inversion H; simplify_eq. }
    split_and!.
    + intros x y. rewrite !Hl. case_decide; [|done]. intros [= <-].
      rewrite decide_True by done. eauto using str_ltb_irrefl.
    + intros x. rewrite Hl. case_decide; split; try done; eauto.
    + intros x y Hx Hy. split.
      * intros (r & ->%Hroot & ->%Hroot); [constructor|done..].
      * intros H. inversion H as [|? z ? Hz]; subst.
        { exists y. rewrite Hroot; auto. }
        exfalso. destruct Hz as [(e & He & _)|(e & He & _)]; by apply elem_of_nil in He.
  - destruct IH as (Hwf & Hdom & Hsame).
    { intros e' He'. apply Hes. rewrite elem_of_app. by left. }
    destruct (Hes e) as [Hs Hd]; [rewrite elem_of_app; right; left|].
    unfold union_all. rewrite foldl_app. cbn. fold (union_all (newUnionFind nodes) es).
    destruct (union_spec (union_all (newUnionFind nodes) es) (src e) (dst e))
      as (Hwf' & Hdom' & Hm); [done|by apply Hdom..|].
    split_and!; [done|..].
    + intros x. rewrite <- elem_of_dom, Hdom', elem_of_dom. apply Hdom.
    + intros x y Hx Hy. rewrite Hm, connected_snoc. unfold merged. by rewrite !Hsame.
Qed.
End Edges.

(** [find_all] reads off the roots, compression notwithstanding. *)
Lemma find_all_spec p nodes :
  wf p -> (forall x, x ∈ nodes -> is_Some (p !! x)) ->
  forall x r, fst (find_all p nodes) !! x = Some r <-> x ∈ nodes /\ Root p x r.
Proof.
  intros Hwf. unfold find_all.
  assert (H : forall ns (out : gmap string string) p', equivalent p p' ->
    (forall x, x ∈ ns -> is_Some (p !! x)) ->
    forall x r,
    fst (foldl (fun (acc : gmap string string * unionFind) n =>
                 let '(r, p') := find acc.2 n in (<[n := r]> acc.1, p')) (out, p') ns) !! x
      = Some r <->
    (x ∈ ns /\ Root p x r) \/ ((x ∉ ns) /\ out !! x = Some r)).
  { induction ns as [|n ns IH]; intros out p' He Hin x r; cbn; [set_solver|].
    assert (Hn : is_Some (p' !! n)).
    { rewrite <- elem_of_dom, <- (equivalent_dom _ _ He), elem_of_dom. apply Hin. left. }
    destruct (find_spec p' n (equivalent_wf _ _ He) Hn) as [Hr He'].
    destruct (find p' n) as [rn p'']. cbn in Hr, He'.
    rewrite (IH _ _ (equivalent_trans _ _ _ He He')) by set_solver.
    rewrite lookup_insert, elem_of_cons.
    assert (Hrn : Root p n r <-> rn = r).
    { rewrite (equivalent_root_iff p p' _ _ Hwf He).
      split; [intros; by eapply Root_det|by intros <-]. }
    destruct (decide (n = x)) as [<-|Hne].
    - rewrite Hrn. destruct (decide (n ∈ ns)); naive_solver.
    - naive_solver. }
  intros Hin x r. rewrite H; [|by apply equivalent_refl|done].
  rewrite lookup_empty. naive_solver.
Qed.
