(* ===== verification/Reach.v ===== *)
(** Reachability (phase 0): group status, components and pairwise reach of
    [internal/impact/reach.go].

    A [reachModel] is built once per analysis; a nil model, which is what an
    estate with no declared topology gets, makes every query a no-op. The two
    memo tables of the Go struct are the [reachCache] of the cached queries,
    which return what the plain ones do. *)
From Stdlib Require Import String ZArith Lia.
From stdpp Require Import base gmap strings list relations.
From S2P Require Import Prelude Status Dependency Graph Fixtures Propagation UnionFind.

#[local] Open Scope string_scope.
#[local] Open Scope list_scope.
#[local] Open Scope nat_scope.

(** * Definitions *)

(** [cutMedia] *)
Record cutMedia := { cut_circuits : gset string; cut_links : gset string }.

(** [cutMedia.severs] *)
Definition severs (c : cutMedia) (u : NetUplinkInfo) : bool :=
  (bool_decide (up_CircuitID u <> "") && bool_decide (up_CircuitID u ∈ cut_circuits c))
  || (bool_decide (up_LinkID u <> "") && bool_decide (up_LinkID u ∈ cut_links c)).

(** [installedLifecycle] *)
Definition installedLifecycle (lc : string) : bool :=
  bool_decide (lc = LifecycleActive) || bool_decide (lc = LifecycleMaintenance)
  || bool_decide (lc = LifecycleDeprecated).

(** The installed members of a group, as capacity evaluation sees them. *)
Definition installed_members (net : NetGraph) (down : gset string) (id : string)
    : list InstanceHealth :=
  (fun m => {| ih_ID := ngm_AssetID m; ih_Role := ngm_Role m; ih_Shard := "";
               ih_Alive := bool_decide (ngm_AssetID m ∉ down) |})
    <$> List.filter (fun m => installedLifecycle (ngm_AssetLifecycle m))
          ((net_Members net).[id | []]).

(** One group of [groupStatuses]; an emptied group is down. *)
Definition group_status (net : NetGraph) (down : gset string) (id : string)
    (g : NetGroupInfo) : Status :=
  match installed_members net down id with
  | [] => StatusDown
  | installed =>
      Evaluate {| ap_Availability := ng_Availability g; ap_MinHealthy := ng_MinHealthy g;
                  ap_FailoverMode := ng_FailoverMode g |} installed
  end.

(** [groupStatuses] *)
Definition groupStatuses (net : NetGraph) (down : gset string) : gmap string Status :=
  map_imap (fun id g => Some (group_status net down id g)) (net_Groups net).

(** The vertices [components] admits, sorted. *)
Definition allowed_nodes (status : gmap string Status) (allow : Status -> bool) : list string :=
  isort str_ltb (fst <$> List.filter (fun kv => allow (snd kv)) (map_to_list status)).

(** The uplinks [components] follows, before sorting. *)
Definition allowed_edges (net : NetGraph) (nodes : list string) (plane : string)
    (cut : cutMedia) : list NetUplinkInfo :=
  List.filter (fun u =>
    bool_decide (up_Plane u = plane) &&
    (bool_decide (up_GroupID u ∈ nodes) && bool_decide (up_UpstreamGroupID u ∈ nodes)) &&
    negb (severs cut u)) (net_Uplinks net).

Definition edge_less : NetUplinkInfo -> NetUplinkInfo -> bool :=
  lex_less up_GroupID str_ltb
    (fun u v => str_ltb (up_UpstreamGroupID u) (up_UpstreamGroupID v)).

(** [components] *)
Definition components (net : NetGraph) (status : gmap string Status) (plane : string)
    (allow : Status -> bool) (cut : cutMedia) : gmap string string :=
  let nodes := allowed_nodes status allow in
  let edges := isort edge_less (allowed_edges net nodes plane cut) in
  let uf := union_all up_GroupID up_UpstreamGroupID (newUnionFind nodes) edges in
  fst (find_all uf nodes).

Record ancestorDepth := { ad_AssetID : string; ad_Depth : Z }.

(** [reachModel], without its memo tables. *)
Record reachModel := {
  rm_net : NetGraph;
  rm_down : gset string;
  rm_groupStatus : gmap string Status;
  rm_compOptimistic : gmap string (gmap string string);
  rm_compPessimistic : gmap string (gmap string string);
  rm_attachmentsByAssetPlane : gmap string (gmap string (list nat));
  rm_ancestorsByDescendant : gmap string (list ancestorDepth);
  rm_cut : cutMedia
}.

(** [planes] *)
Definition planes : list string := [PlaneData; PlaneMgmt; PlaneStorage].

Definition allow_optimistic (s : Status) : bool := bool_decide (s <> StatusDown).
Definition allow_pessimistic (s : Status) : bool := bool_decide (s = StatusOK).

(** [attachmentsByAssetPlane]: attachment indices by asset and plane. *)
Definition index_attachments (atts : list NetAttachmentInfo)
    : gmap string (gmap string (list nat)) :=
  foldl (fun (acc : gmap string (gmap string (list nat))) (ia : nat * NetAttachmentInfo) =>
           let '(i, a) := ia in
           let byPlane := acc.[att_AssetID a | ∅] in
           <[att_AssetID a :=
             <[att_Plane a := byPlane.[att_Plane a | []] ++ [i]]> byPlane]> acc)
        ∅ (zip (seq 0 (length atts)) atts).

(** One turn of the closure loop: a pair already seen is skipped. *)
Definition closure_step (acc : gset (string * string) * gmap string (list ancestorDepth))
    (c : ClosureRow) : gset (string * string) * gmap string (list ancestorDepth) :=
  let key := (cr_DescendantID c, cr_AncestorID c) in
  if decide (key ∈ acc.1) then acc
  else ({[key]} ∪ acc.1,
        <[cr_DescendantID c :=
          acc.2.[cr_DescendantID c | []] ++
          [{| ad_AssetID := cr_AncestorID c; ad_Depth := cr_Depth c |}]]> acc.2).

Definition depth_less (a b : ancestorDepth) : bool := Z.ltb (ad_Depth a) (ad_Depth b).

(** [ancestorsByDescendant], each list ascending by depth. *)
Definition index_ancestors (closure : list ClosureRow) : gmap string (list ancestorDepth) :=
  isort depth_less <$> (foldl closure_step (∅, ∅) closure).2.

(** [buildReachModel] *)
Definition buildReachModel (net : option NetGraph) (down : gset string) (cut : cutMedia)
    : option reachModel :=
  match net with
  | Some n =>
      if IsEmpty net then None
      else
        let status := groupStatuses n down in
        let comps allow := list_to_map ((fun p => (p, components n status p allow cut)) <$> planes) in
        Some {| rm_net := n; rm_down := down; rm_groupStatus := status;
                rm_compOptimistic := comps allow_optimistic;
                rm_compPessimistic := comps allow_pessimistic;
                rm_attachmentsByAssetPlane := index_attachments (net_Attachments n);
                rm_ancestorsByDescendant := index_ancestors (net_Closure n);
                rm_cut := cut |}
  | None => None
  end.

(** [reachModel.liveAttachment] on attachment [a]: Go indexes
    [m.net.Attachments] with an index the model itself produced. *)
Definition liveAttachment (m : reachModel) (a : NetAttachmentInfo) : bool :=
  if decide ((rm_groupStatus m).[att_GroupID a | StatusUnset] = StatusDown) then false
  else if decide (net_Groups (rm_net m) !! att_GroupID a = None) then false
  else
    match (net_AttachmentMembers (rm_net m)).[att_ID a | []] with
    | [] => true
    | members =>
        existsb (fun mem => installedLifecycle (attm_AssetLifecycle mem) &&
                            bool_decide (attm_AssetID mem ∉ rm_down m)) members
    end.

(** The attachment indices an asset itself has on a plane. *)
Definition own_attachments (m : reachModel) (assetID plane : string) : list nat :=
  ((rm_attachmentsByAssetPlane m).[assetID | ∅]).[plane | []].

(** [reachModel.effectiveAttachments]: nearest ancestor wins. *)
Definition effectiveAttachments (m : reachModel) (assetID plane : string)
    : option (list nat) :=
  match (rm_ancestorsByDescendant m).[assetID | []] with
  | [] => match own_attachments m assetID plane with
          | [] => None
          | idxs => Some idxs
          end
  | candidates =>
      (fix nearest (cs : list ancestorDepth) :=
         match cs with
         | [] => None
         | cand :: cs' => match own_attachments m (ad_AssetID cand) plane with
                          | [] => nearest cs'
                          | idxs => Some idxs
                          end
         end) candidates
  end.

(** [reachModel.modelled] *)
Definition modelled (m : option reachModel) (assetID plane : string) : bool :=
  match m with
  | Some m => bool_decide (is_Some (effectiveAttachments m assetID plane))
  | None => false
  end.

(** The live attachments among some indices. *)
Definition live_groups (m : reachModel) (idxs : list nat) : list string :=
  att_GroupID <$> List.filter (liveAttachment m)
    (omap (fun i => net_Attachments (rm_net m) !! i) idxs).

(** [reachModel.netOf]: the groups an asset is live-attached to. *)
Definition netOf (m : option reachModel) (assetID plane : string) : list string :=
  match m with
  | Some m => match effectiveAttachments m assetID plane with
              | Some idxs => first_occurrences ∅ (live_groups m idxs)
              | None => []
              end
  | None => []
  end.

(** [reachModel.isolated] *)
Definition isolated (m : option reachModel) (assetID plane : string) : bool :=
  modelled m assetID plane && bool_decide (netOf m assetID plane = []).

(** [comp[p] != "" && comp[p] == comp[q]] *)
Definition same_component (comp : gmap string string) (p q : string) : bool :=
  bool_decide (comp.[p | ""] <> "") && bool_decide (comp.[p | ""] = comp.[q | ""]).

(** [reachModel.reach]: [None] is the [("", false)] of an unknown answer. *)
Definition reach (m : option reachModel) (x y plane : string) : option Status :=
  match m with
  | None => None
  | Some m' =>
      if negb (modelled m x plane) || negb (modelled m y plane) then None
      else if isolated m x plane || isolated m y plane then Some StatusDown
      else
        let gx := netOf m x plane in
        let gy := netOf m y plane in
        let some_pair comp := existsb (fun p => existsb (same_component comp p) gy) gx in
        if some_pair ((rm_compPessimistic m').[plane | ∅]) then Some StatusOK
        else if some_pair ((rm_compOptimistic m').[plane | ∅]) then Some StatusDegraded
        else Some StatusDown
  end.

(** [reachModel.reachGroup] *)
Definition reachGroup (m : option reachModel) (assetID groupID plane : string)
    : option Status :=
  match m with
  | None => None
  | Some m' =>
      if negb (modelled m assetID plane) then None
      else if decide (net_Groups (rm_net m') !! groupID = None) then None
      else if isolated m assetID plane ||
              bool_decide ((rm_groupStatus m').[groupID | StatusUnset] = StatusDown)
      then Some StatusDown
      else
        let from := netOf m assetID plane in
        let some_group comp := existsb (fun g => same_component comp g groupID) from in
        if some_group ((rm_compPessimistic m').[plane | ∅]) then Some StatusOK
        else if some_group ((rm_compOptimistic m').[plane | ∅]) then Some StatusDegraded
        else Some StatusDown
  end.

(** [reachModel.groupCode] *)
Definition groupCode (m : option reachModel) (groupID : string) : string :=
  match m with
  | None => groupID
  | Some m => match net_Groups (rm_net m) !! groupID with
              | Some g => ng_Code g
              | None => groupID
              end
  end.

(** ** The memo tables *)

(** [netOfCache] and [modelledCache], keyed by [netKey]. *)
Record reachCache := {
  netOfCache : gmap (string * string) (list string);
  modelledCache : gmap (string * string) bool
}.

Definition emptyCache : reachCache := {| netOfCache := ∅; modelledCache := ∅ |}.

(** [reachModel.modelled], with its cache. *)
Definition modelled_cached (m : reachModel) (c : reachCache) (assetID plane : string)
    : bool * reachCache :=
  match modelledCache c !! (assetID, plane) with
  | Some v => (v, c)
  | None =>
      let ok := bool_decide (is_Some (effectiveAttachments m assetID plane)) in
      (ok, {| netOfCache := netOfCache c;
              modelledCache := <[(assetID, plane) := ok]> (modelledCache c) |})
  end.

(** [reachModel.netOf], with its cache. *)
Definition netOf_cached (m : reachModel) (c : reachCache) (assetID plane : string)
    : list string * reachCache :=
  match netOfCache c !! (assetID, plane) with
  | Some v => (v, c)
  | None =>
      let groups := match effectiveAttachments m assetID plane with
                    | Some idxs => first_occurrences ∅ (live_groups m idxs)
                    | None => []
                    end in
      (groups, {| netOfCache := <[(assetID, plane) := groups]> (netOfCache c);
                  modelledCache := modelledCache c |})
  end.

(** [reachModel.isolated], with the caches of the two queries it makes: the
    second is skipped when the first answers false. *)
Definition isolated_cached (m : reachModel) (c : reachCache) (assetID plane : string)
    : bool * reachCache :=
  let '(ok, c1) := modelled_cached m c assetID plane in
  if ok then let '(groups, c2) := netOf_cached m c1 assetID plane in
             (bool_decide (groups = []), c2)
  else (false, c1).

(** A cache holds only answers the model gives. *)
Definition cache_ok (m : reachModel) (c : reachCache) : Prop :=
  (forall x p v, modelledCache c !! (x, p) = Some v -> v = modelled (Some m) x p) /\
  (forall x p v, netOfCache c !! (x, p) = Some v -> v = netOf (Some m) x p).

(** The small network with the edge forwarder lost, for the witnesses. *)
Definition no_cut : cutMedia := {| cut_circuits := ∅; cut_links := ∅ |}.

Definition demo_model (down : gset string) : reachModel :=
  match buildReachModel (Some demo_net) down no_cut with
  | Some m => m
  | None => {| rm_net := demo_net; rm_down := down; rm_groupStatus := ∅;
               rm_compOptimistic := ∅; rm_compPessimistic := ∅;
               rm_attachmentsByAssetPlane := ∅; rm_ancestorsByDescendant := ∅;
               rm_cut := no_cut |}
  end.

(** * Lemmas *)

(** ** Components *)

Lemma elem_of_allowed_nodes status allow x :
  x ∈ allowed_nodes status allow <-> exists s, status !! x = Some s /\ allow s = true.
Proof.
  unfold allowed_nodes. rewrite elem_of_isort, list_elem_of_fmap. split.
  - intros ([k s] & -> & H). apply elem_of_bool_filter in H as [Hk Ha].
    apply elem_of_map_to_list in Hk. by exists s.
  - intros (s & Hx & Ha). exists (x, s). split; [done|].
    apply elem_of_bool_filter. split; [by apply elem_of_map_to_list|done].
Qed.

Section Components.
Context (net : NetGraph) (status : gmap string Status) (plane : string)
        (allow : Status -> bool) (cut : cutMedia).

#[local] Abbreviation nodes := (allowed_nodes status allow).
#[local] Abbreviation edges := (allowed_edges net nodes plane cut).
#[local] Abbreviation comp := (components net status plane allow cut).

(** [x] and [y] are joined by admitted edges. *)
Definition linked (x y : string) : Prop :=
  x ∈ nodes /\ y ∈ nodes /\ connected up_GroupID up_UpstreamGroupID edges x y.

Lemma edges_admitted e : e ∈ isort edge_less edges -> up_GroupID e ∈ nodes /\ up_UpstreamGroupID e ∈ nodes.
Proof.
  rewrite elem_of_isort. unfold allowed_edges. rewrite elem_of_bool_filter.
  rewrite !andb_true_iff, !bool_decide_eq_true. tauto.
Qed.

Lemma components_root x r :
  comp !! x = Some r <->
  x ∈ nodes /\
  Root (union_all up_GroupID up_UpstreamGroupID (newUnionFind nodes) (isort edge_less edges)) x r.
Proof.
  unfold components. set (p := union_all _ _ _ _).
  destruct (union_all_spec up_GroupID up_UpstreamGroupID nodes _ edges_admitted) as (Hwf & Hd & _).
  apply find_all_spec; [done|]. intros z. apply Hd.
Qed.

(** Two vertices have one representative exactly when they are linked. *)
Lemma components_linked x y :
  (exists r, comp !! x = Some r /\ comp !! y = Some r) <-> linked x y.
Proof.
  setoid_rewrite components_root.
  destruct (union_all_spec up_GroupID up_UpstreamGroupID nodes _ edges_admitted) as (Hwf & Hd & Hs).
  unfold linked. split.
  - intros (r & (Hx & Hrx) & (Hy & Hry)). split_and!; [done..|].
    eapply connected_weaken; [|apply Hs; [done..|by exists r]].
    intros e. by rewrite elem_of_isort.
  - intros (Hx & Hy & Hc).
    assert (H : connected up_GroupID up_UpstreamGroupID (isort edge_less edges) x y).
    { eapply connected_weaken; [|done]. intros e. by rewrite elem_of_isort. }
    apply Hs in H as (r & ? & ?); [|done..]. by exists r.
Qed.

(** The representative is the least vertex of the component. *)
Lemma components_least x r :
  comp !! x = Some r -> linked x r /\ forall y, linked x y -> str_ltb y r = false.
Proof.
  intros Hx. assert (Hr : comp !! r = Some r).
  { apply components_root in Hx as [Hin Hr]. apply components_root. split; [|by eapply Root_self].
    destruct (union_all_spec up_GroupID up_UpstreamGroupID nodes _ edges_admitted) as (_ & Hd & _).
    apply Hd. eexists. by eapply Root_root. }
  split; [apply components_linked; eauto|].
  intros y Hy. apply components_linked in Hy as (r' & Hx' & Hy).
  assert (r' = r) as -> by congruence. apply components_root in Hy as [_ Hy].
  eapply Root_le; [|done].
  by destruct (union_all_spec up_GroupID up_UpstreamGroupID nodes _ edges_admitted).
Qed.

Lemma same_component_linked x y :
  status !! "" = None -> same_component comp x y = true <-> linked x y.
Proof.
  intros Hne. rewrite <- components_linked. unfold same_component.
  rewrite andb_true_iff, !bool_decide_eq_true. split.
  - intros [H1 H2]. destruct (comp !! x) as [r|] eqn:Ex; [cbn in H1, H2|done].
    destruct (comp !! y) as [r'|] eqn:Ey; cbn in H2; [|done]. subst. by exists r'.
  - intros (r & Hx & Hy). rewrite Hx, Hy. cbn. split; [|done]. intros ->.
    apply components_least in Hx as [(_ & Hin & _) _].
    apply elem_of_allowed_nodes in Hin as (s & ? & _). congruence.
Qed.
End Components.

(** ** Group status *)

Lemma installed_members_loses net down down' id :
  down ⊆ down' ->
  Forall2 loses (installed_members net down id) (installed_members net down' id).
Proof.
  intros Hsub. unfold installed_members.
  induction (List.filter _ _) as [|m l IH]; cbn; constructor; [|done].
  unfold loses. cbn. rewrite !bool_decide_eq_true. split_and!; try done. set_solver.
Qed.

(** Taking more assets away never improves a group. *)
Lemma group_status_mono net down down' id g :
  down ⊆ down' -> group_status net down id g ⊑ₛ group_status net down' id g.
Proof.
  intros Hsub. unfold group_status.
  pose proof (installed_members_loses net down down' id Hsub) as H.
  destruct H as [|i j l l' Hij Hl]; [done|]. apply Evaluate_mono. by constructor.
Qed.

Lemma group_status_set net down id g : group_status net down id g <> StatusUnset.
Proof. unfold group_status. case_match; [done|]. apply Evaluate_set. Qed.

Lemma groupStatuses_lookup net down id :
  groupStatuses net down !! id = group_status net down id <$> net_Groups net !! id.
Proof. unfold groupStatuses. rewrite map_lookup_imap. by destruct (net_Groups net !! id). Qed.

(** ** More loss, fewer paths *)

Lemma allowed_nodes_shrink net down down' allow :
  down ⊆ down' ->
  (forall s t, s <> StatusUnset -> s ⊑ₛ t -> allow t = true -> allow s = true) ->
  allowed_nodes (groupStatuses net down') allow ⊆ allowed_nodes (groupStatuses net down) allow.
Proof.
  intros Hsub Hallow x. rewrite !elem_of_allowed_nodes. intros (s & Hs & Ha).
  rewrite groupStatuses_lookup in *. destruct (net_Groups net !! x) as [g|]; [|done].
  cbn in *. simplify_eq. eexists. split; [done|]. eapply Hallow; [|by apply group_status_mono|done].
  apply group_status_set.
Qed.

Lemma allow_optimistic_antitone s t :
  s <> StatusUnset -> s ⊑ₛ t -> allow_optimistic t = true -> allow_optimistic s = true.
Proof.
  unfold allow_optimistic, status_le. rewrite !bool_decide_eq_true. intros _ Hle Ht ->.
  apply Ht, rank_2_down. pose proof (rank_le_2 t). cbn in Hle. lia.
Qed.

Lemma allow_pessimistic_antitone s t :
  s <> StatusUnset -> s ⊑ₛ t -> allow_pessimistic t = true -> allow_pessimistic s = true.
Proof.
  unfold allow_pessimistic, status_le. rewrite !bool_decide_eq_true. intros Hs Hle ->.
  destruct s; cbn in Hle; done || lia.
Qed.

(** A larger outage: more assets down, more media cut. *)
Definition cut_subset (c c' : cutMedia) : Prop :=
  cut_circuits c ⊆ cut_circuits c' /\ cut_links c ⊆ cut_links c'.

Lemma severs_mono c c' u : cut_subset c c' -> severs c u = true -> severs c' u = true.
Proof.
  intros [H1 H2]. unfold severs.
  rewrite !orb_true_iff, !andb_true_iff, !bool_decide_eq_true. set_solver.
Qed.

Lemma allowed_edges_shrink net nodes nodes' plane cut cut' :
  nodes' ⊆ nodes -> cut_subset cut cut' ->
  allowed_edges net nodes' plane cut' ⊆ allowed_edges net nodes plane cut.
Proof.
  intros Hn Hc u. unfold allowed_edges. rewrite !elem_of_bool_filter, !andb_true_iff.
  rewrite !bool_decide_eq_true, !negb_true_iff. intros (? & (? & ? & ?) & Hs).
  split_and!; try done; try by apply Hn.
  destruct (severs cut u) eqn:E; [|done]. by rewrite (severs_mono _ _ _ Hc E) in Hs.
Qed.

Lemma linked_shrink net down down' plane allow cut cut' x y :
  down ⊆ down' -> cut_subset cut cut' ->
  (forall s t, s <> StatusUnset -> s ⊑ₛ t -> allow t = true -> allow s = true) ->
  linked net (groupStatuses net down') plane allow cut' x y ->
  linked net (groupStatuses net down) plane allow cut x y.
Proof.
  intros Hd Hc Ha (Hx & Hy & Hxy). pose proof (allowed_nodes_shrink net _ _ _ Hd Ha) as Hn.
  split_and!; [by apply Hn..|]. eapply connected_weaken; [|done].
  by apply allowed_edges_shrink.
Qed.

(** ** The model *)

Lemma buildReachModel_some net down cut m :
  buildReachModel (Some net) down cut = Some m ->
  rm_net m = net /\ rm_down m = down /\ rm_groupStatus m = groupStatuses net down /\
  rm_attachmentsByAssetPlane m = index_attachments (net_Attachments net) /\
  rm_ancestorsByDescendant m = index_ancestors (net_Closure net) /\
  forall plane,
    (rm_compOptimistic m).[plane | ∅] =
      (if decide (plane ∈ planes)
       then components net (groupStatuses net down) plane allow_optimistic cut else ∅) /\
    (rm_compPessimistic m).[plane | ∅] =
      (if decide (plane ∈ planes)
       then components net (groupStatuses net down) plane allow_pessimistic cut else ∅).
Proof.
  unfold buildReachModel. case_match; [done|]. intros [= <-].
  cbn [rm_net rm_down rm_groupStatus rm_attachmentsByAssetPlane rm_ancestorsByDescendant
       rm_compOptimistic rm_compPessimistic].
  split_and!; try done. intros plane. unfold planes.
  assert (Hl : forall comp : string -> gmap string string,
    (list_to_map (M := gmap string (gmap string string))
       ((fun p => (p, comp p)) <$> [PlaneData; PlaneMgmt; PlaneStorage])).[plane | ∅] =
    if decide (plane ∈ [PlaneData; PlaneMgmt; PlaneStorage]) then comp plane else ∅).
  { intros comp. cbn. rewrite !lookup_insert. repeat case_decide; subst; cbn; try done;
      try (exfalso; set_solver). all: set_unfold; naive_solver. }
  split; [exact (Hl (fun p => components net (groupStatuses net down) p allow_optimistic cut))
         |exact (Hl (fun p => components net (groupStatuses net down) p allow_pessimistic cut))].
Qed.

Lemma buildReachModel_none down cut : buildReachModel None down cut = None.
Proof. done. Qed.

(** Two models of one net graph resolve attachments alike. *)
Lemma effectiveAttachments_ext m m' x plane :
  rm_attachmentsByAssetPlane m = rm_attachmentsByAssetPlane m' ->
  rm_ancestorsByDescendant m = rm_ancestorsByDescendant m' ->
  effectiveAttachments m x plane = effectiveAttachments m' x plane.
Proof. unfold effectiveAttachments, own_attachments. by intros -> ->. Qed.

Lemma liveAttachment_shrink net down down' cut cut' m m' a :
  down ⊆ down' ->
  buildReachModel (Some net) down cut = Some m ->
  buildReachModel (Some net) down' cut' = Some m' ->
  liveAttachment m' a = true -> liveAttachment m a = true.
Proof.
  intros Hd Hm Hm'. unfold liveAttachment.
  destruct (buildReachModel_some _ _ _ _ Hm) as (-> & -> & -> & _).
  destruct (buildReachModel_some _ _ _ _ Hm') as (-> & -> & -> & _).
  rewrite !groupStatuses_lookup. destruct (net_Groups net !! att_GroupID a) as [g|]; cbn;
    [|by rewrite !(decide_True _ _ (eq_refl None)); case_decide].
  pose proof (group_status_mono net down down' (att_GroupID a) g Hd) as Hle.
  destruct (decide (group_status net down' _ g = StatusDown)) as [|Hn']; [done|].
  destruct (decide (group_status net down _ g = StatusDown)) as [E|Hn].
  { exfalso. apply Hn', rank_2_down. rewrite E in Hle.
    pose proof (rank_le_2 (group_status net down' (att_GroupID a) g)).
    unfold status_le in Hle. cbn in Hle. lia. }
  case_decide; [done|]. case_match; [done|].
  change (existsb (fun mem => installedLifecycle (attm_AssetLifecycle mem) &&
                    bool_decide (attm_AssetID mem ∉ down')) (n :: l) = true ->
          existsb (fun mem => installedLifecycle (attm_AssetLifecycle mem) &&
                    bool_decide (attm_AssetID mem ∉ down)) (n :: l) = true).
  rewrite !existsb_elem_of. intros (x & Hx & Ha). exists x. split; [done|].
  rewrite andb_true_iff, bool_decide_eq_true in *. set_solver.
Qed.

Lemma netOf_shrink net down down' cut cut' m m' x plane :
  down ⊆ down' ->
  buildReachModel (Some net) down cut = Some m ->
  buildReachModel (Some net) down' cut' = Some m' ->
  netOf (Some m') x plane ⊆ netOf (Some m) x plane.
Proof.
  intros Hd Hm Hm'. unfold netOf.
  destruct (buildReachModel_some _ _ _ _ Hm) as (Hn & _ & _ & Ha & Hc & _).
  destruct (buildReachModel_some _ _ _ _ Hm') as (Hn' & _ & _ & Ha' & Hc' & _).
  rewrite (effectiveAttachments_ext m' m) by congruence.
  destruct (effectiveAttachments m x plane) as [idxs|]; [|done].
  intros g. rewrite !elem_of_first_occurrences. intros [Hg ?]. split; [|done]. revert Hg.
  unfold live_groups. rewrite Hn, Hn', !list_elem_of_fmap. intros (a & -> & Ha0).
  exists a. split; [done|]. revert Ha0. rewrite !elem_of_bool_filter. intros [? Hl]. split; [done|].
  by eapply liveAttachment_shrink.
Qed.

Lemma modelled_ext net down down' cut cut' m m' x plane :
  buildReachModel (Some net) down cut = Some m ->
  buildReachModel (Some net) down' cut' = Some m' ->
  modelled (Some m') x plane = modelled (Some m) x plane.
Proof.
  intros Hm Hm'. unfold modelled.
  destruct (buildReachModel_some _ _ _ _ Hm) as (Hn & _ & _ & Ha & Hc & _).
  destruct (buildReachModel_some _ _ _ _ Hm') as (Hn' & _ & _ & Ha' & Hc' & _).
  by rewrite (effectiveAttachments_ext m' m) by congruence.
Qed.

Lemma isolated_mono net down down' cut cut' m m' x plane :
  down ⊆ down' ->
  buildReachModel (Some net) down cut = Some m ->
  buildReachModel (Some net) down' cut' = Some m' ->
  isolated (Some m) x plane = true -> isolated (Some m') x plane = true.
Proof.
  intros Hd Hm Hm'. unfold isolated. rewrite !andb_true_iff, !bool_decide_eq_true.
  rewrite (modelled_ext _ _ _ _ _ _ _ x plane Hm Hm'). intros [? Hx]. split; [done|].
  pose proof (netOf_shrink _ _ _ _ _ _ _ x plane Hd Hm Hm') as Hsub. rewrite Hx in Hsub.
  by apply list_nil_subseteq in Hsub || (destruct (netOf (Some m') x plane) as [|g l]; [done|];
    exfalso; apply (not_elem_of_nil g), Hsub; left).
Qed.

(** [reach] in terms of links. *)
Definition some_link (net : NetGraph) (down : gset string) (plane : string)
    (allow : Status -> bool) (cut : cutMedia) (gx gy : list string) : Prop :=
  plane ∈ planes /\
  exists p q, p ∈ gx /\ q ∈ gy /\ linked net (groupStatuses net down) plane allow cut p q.

Lemma some_pair_link net down plane allow cut comp gx gy :
  net_Groups net !! "" = None ->
  comp = (if decide (plane ∈ planes)
          then components net (groupStatuses net down) plane allow cut else ∅) ->
  existsb (fun p => existsb (same_component comp p) gy) gx = true <->
  some_link net down plane allow cut gx gy.
Proof.
  intros Hne ->. unfold some_link.
  assert (Hs : groupStatuses net down !! "" = None) by (by rewrite groupStatuses_lookup, Hne).
  rewrite existsb_elem_of. setoid_rewrite existsb_elem_of. case_decide as Hp.
  - setoid_rewrite (same_component_linked net _ plane allow cut _ _ Hs). naive_solver.
  - split; [|naive_solver]. intros (p & _ & q & _ & H).
    unfold same_component in H. by rewrite lookup_empty in H.
Qed.

Lemma some_link_shrink net down down' plane allow cut cut' gx gy gx' gy' :
  down ⊆ down' -> cut_subset cut cut' -> gx' ⊆ gx -> gy' ⊆ gy ->
  (forall s t, s <> StatusUnset -> s ⊑ₛ t -> allow t = true -> allow s = true) ->
  some_link net down' plane allow cut' gx' gy' -> some_link net down plane allow cut gx gy.
Proof.
  intros Hd Hc Hx Hy Ha (Hp & p & q & Hpx & Hqy & Hl). split; [done|].
  exists p, q. split_and!; [by apply Hx|by apply Hy|]. by eapply linked_shrink.
Qed.

(** Pairwise reach with its booleans read as links. *)
Lemma reach_cases net down cut m x y plane :
  net_Groups net !! "" = None ->
  buildReachModel (Some net) down cut = Some m ->
  modelled (Some m) x plane = true -> modelled (Some m) y plane = true ->
  isolated (Some m) x plane = false -> isolated (Some m) y plane = false ->
  let gx := netOf (Some m) x plane in
  let gy := netOf (Some m) y plane in
  (reach (Some m) x y plane = Some StatusOK /\
   some_link net down plane allow_pessimistic cut gx gy) \/
  (reach (Some m) x y plane = Some StatusDegraded /\
   ~ some_link net down plane allow_pessimistic cut gx gy /\
   some_link net down plane allow_optimistic cut gx gy) \/
  (reach (Some m) x y plane = Some StatusDown /\
   ~ some_link net down plane allow_pessimistic cut gx gy /\
   ~ some_link net down plane allow_optimistic cut gx gy).
Proof.
  intros Hne Hm Hmx Hmy Hix Hiy gx gy.
  destruct (buildReachModel_some _ _ _ _ Hm) as (_ & _ & _ & _ & _ & Hc).
  destruct (Hc plane) as [Ho Hp]. unfold reach. rewrite Hmx, Hmy, Hix, Hiy. cbn [negb orb].
  fold gx gy.
  pose proof (some_pair_link net down plane _ cut _ gx gy Hne Hp) as H1.
  pose proof (some_pair_link net down plane _ cut _ gx gy Hne Ho) as H2.
  destruct (existsb _ gx) eqn:E1; [left; split; [done|by apply H1]|].
  destruct (existsb _ gx) eqn:E2 in |- *; right; [left|right]; split_and!; try done;
    try (by apply H2); rewrite <- ?H1, <- ?H2; congruence.
Qed.

(** ** The memo tables *)

Lemma modelled_cached_spec m c x plane :
  cache_ok m c ->
  fst (modelled_cached m c x plane) = modelled (Some m) x plane /\
  cache_ok m (snd (modelled_cached m c x plane)).
Proof.
  intros [H1 H2]. unfold modelled_cached.
  destruct (modelledCache c !! (x, plane)) as [v|] eqn:E; cbn; [by split; [apply H1|]|].
  split; [done|]. split; cbn; [|done]. intros x' p' v.
  rewrite lookup_insert. case_decide; [intros; by simplify_eq|apply H1].
Qed.

Lemma netOf_cached_spec m c x plane :
  cache_ok m c ->
  fst (netOf_cached m c x plane) = netOf (Some m) x plane /\
  cache_ok m (snd (netOf_cached m c x plane)).
Proof.
  intros [H1 H2]. unfold netOf_cached.
  destruct (netOfCache c !! (x, plane)) as [v|] eqn:E; cbn; [by split; [apply H2|]|].
  split; [done|]. split; cbn; [done|]. intros x' p' v.
  rewrite lookup_insert. case_decide; [intros; by simplify_eq|apply H2].
Qed.

(** ** Symmetry *)

Lemma same_component_sym comp p q : same_component comp p q = same_component comp q p.
Proof.
  unfold same_component. apply eq_true_iff_eq.
  rewrite !andb_true_iff, !bool_decide_eq_true. split; intros [H1 H2]; split; congruence.
Qed.

Lemma some_pair_sym comp gx gy :
  existsb (fun p => existsb (same_component comp p) gy) gx =
  existsb (fun p => existsb (same_component comp p) gx) gy.
Proof.
  apply eq_true_iff_eq. rewrite !existsb_elem_of. setoid_rewrite existsb_elem_of.
  split; intros (p & ? & q & ? & H); exists q; (split; [done|]); exists p;
    (split; [done|]); by rewrite same_component_sym.
Qed.

(** Between two modelled assets an answer is always given. *)
Lemma reach_known m x y plane :
  modelled (Some m) x plane = true -> modelled (Some m) y plane = true ->
  exists s, reach (Some m) x y plane = Some s.
Proof.
  intros Mx My. unfold reach. rewrite Mx, My. cbn [negb orb].
  repeat match goal with |- exists _, (if ?b then _ else _) = _ => destruct b end; eauto.
Qed.

(** * Properties *)

(** [components] computes connectivity. Two groups share a representative
    exactly when both are admitted and a chain of uncut, admitted uplinks of the
    plane joins them, in either direction; and the representative is the least
    group of its component, so it does not depend on the order of the uplinks. *)
Theorem components_connectivity net status plane allow cut x y :
  let comp := components net status plane allow cut in
  ((exists r, comp !! x = Some r /\ comp !! y = Some r) <->
   linked net status plane allow cut x y) /\
  (forall r, comp !! x = Some r ->
     linked net status plane allow cut x r /\
     forall z, linked net status plane allow cut x z -> str_ltb z r = false).
Proof.
  split; [apply components_linked|]. intros r. apply components_least.
Qed.

(** Losing more never helps. With the same topology, when more assets are
    down and more media cut, a pair whose reach was known is still known and is
    no better than it was; a pair that was unknown stays unknown. *)
Theorem reach_monotone net down down' cut cut' x y plane :
  net_Groups net !! "" = None ->
  down ⊆ down' -> cut_subset cut cut' ->
  match reach (buildReachModel (Some net) down cut) x y plane,
        reach (buildReachModel (Some net) down' cut') x y plane with
  | Some s, Some s' => s ⊑ₛ s'
  | None, None => True
  | _, _ => False
  end.
Proof.
  intros Hne Hd Hc.
  destruct (buildReachModel (Some net) down cut) as [m|] eqn:Hm,
    (buildReachModel (Some net) down' cut') as [m'|] eqn:Hm';
    try (unfold buildReachModel in *; by destruct (IsEmpty (Some net))).
  pose proof (modelled_ext _ _ _ _ _ _ _ x plane Hm Hm') as Emx.
  pose proof (modelled_ext _ _ _ _ _ _ _ y plane Hm Hm') as Emy.
  pose proof (isolated_mono _ _ _ _ _ _ _ x plane Hd Hm Hm') as Hix.
  pose proof (isolated_mono _ _ _ _ _ _ _ y plane Hd Hm Hm') as Hiy.
  destruct (modelled (Some m) x plane) eqn:Mx, (modelled (Some m) y plane) eqn:My;
    try (unfold reach; by rewrite Emx, Emy, Mx, My).
  destruct (isolated (Some m') x plane || isolated (Some m') y plane) eqn:I'.
  { assert (reach (Some m') x y plane = Some StatusDown) as ->
      by (unfold reach; by rewrite Emx, Emy, I').
    destruct (reach_known m x y plane Mx My) as [s ->]. apply status_le_down. }
  apply orb_false_iff in I' as [Ix' Iy'].
  destruct (isolated (Some m) x plane) eqn:Ix; [by rewrite Hix in Ix'|].
  destruct (isolated (Some m) y plane) eqn:Iy; [by rewrite Hiy in Iy'|].
  pose proof (netOf_shrink _ _ _ _ _ _ _ x plane Hd Hm Hm') as Hx.
  pose proof (netOf_shrink _ _ _ _ _ _ _ y plane Hd Hm Hm') as Hy.
  destruct (reach_cases _ _ _ _ x y plane Hne Hm Mx My Ix Iy) as [[-> _]|[(-> & Hp & _)|(-> & Hp & Ho)]];
    destruct (reach_cases _ _ _ _ x y plane Hne Hm' Emx Emy Ix' Iy')
      as [[-> Hp']|[(-> & _ & Ho')|(-> & _)]]; try apply status_le_down; try reflexivity;
    try (unfold status_le; cbn; lia).
  - exfalso. apply Hp. by eapply some_link_shrink; eauto using allow_pessimistic_antitone.
  - exfalso. apply Hp. by eapply some_link_shrink; eauto using allow_pessimistic_antitone.
  - exfalso. apply Ho. by eapply some_link_shrink; eauto using allow_optimistic_antitone.
Qed.

Lemma reach_monotone_witness :
  match reach (buildReachModel (Some demo_net) ∅ no_cut) "h1" "h2" PlaneData,
        reach (buildReachModel (Some demo_net) {["sw2"]} no_cut) "h1" "h2" PlaneData with
  | Some s, Some s' => s ⊑ₛ s'
  | None, None => True
  | _, _ => False
  end.
Proof.
  apply (reach_monotone demo_net ∅ {["sw2"]} no_cut no_cut "h1" "h2" PlaneData);
    [vm_compute; reflexivity|apply empty_subseteq|split; done].
Defined.

(** C35. What the three answers of [reach] mean for two modelled assets with a
    surviving attachment each: ok when live-attached groups are joined through
    healthy groups only, degraded when they are joined only through groups that
    are degraded but not down, down when no path is left. *)
Theorem reach_meaning net down cut m x y plane :
  net_Groups net !! "" = None ->
  buildReachModel (Some net) down cut = Some m ->
  modelled (Some m) x plane = true -> modelled (Some m) y plane = true ->
  isolated (Some m) x plane = false -> isolated (Some m) y plane = false ->
  let gx := netOf (Some m) x plane in
  let gy := netOf (Some m) y plane in
  let healthy := some_link net down plane allow_pessimistic cut gx gy in
  let surviving := some_link net down plane allow_optimistic cut gx gy in
  (reach (Some m) x y plane = Some StatusOK <-> healthy) /\
  (reach (Some m) x y plane = Some StatusDegraded <-> ~ healthy /\ surviving) /\
  (reach (Some m) x y plane = Some StatusDown <-> ~ healthy /\ ~ surviving).
Proof.
  intros Hne Hm Mx My Ix Iy gx gy healthy surviving.
  pose proof (reach_cases _ _ _ _ x y plane Hne Hm Mx My Ix Iy) as H. cbn zeta in H.
  subst gx gy healthy surviving.
  destruct H as [[-> H]|[(-> & H1 & H2)|(-> & H1 & H2)]]; naive_solver.
Qed.

Lemma reach_meaning_witness :
  some_link demo_net ∅ PlaneData allow_pessimistic no_cut
    (netOf (Some (demo_model ∅)) "h1" PlaneData) (netOf (Some (demo_model ∅)) "h2" PlaneData).
Proof.
  refine (proj1 (proj1 (reach_meaning demo_net ∅ no_cut (demo_model ∅) "h1" "h2" PlaneData
    _ _ _ _ _ _)) _); vm_compute; reflexivity.
Defined.

(** Absence of topology is never read as disconnection. Reach is unknown
    exactly when one of the two assets has no effective attachment on the plane,
    an asset with none is not isolated, and without a model nothing is. *)
Theorem reach_unknown_iff m x y plane :
  (reach m x y plane = None <->
   modelled m x plane = false \/ modelled m y plane = false) /\
  (modelled m x plane = false -> isolated m x plane = false) /\
  modelled None x plane = false.
Proof.
  split_and!; [|unfold isolated; by intros ->|done].
  unfold reach. destruct m as [m|]; [|split; [by left|done]].
  destruct (modelled (Some m) x plane) eqn:Mx, (modelled (Some m) y plane) eqn:My; cbn;
    try (split; [auto|done]). split; [|by intros []]. split_cases; done.
Qed.

(** Pairwise reach does not depend on which asset asks. *)
Lemma reach_symmetric m x y plane : reach m x y plane = reach m y x plane.
Proof.
  unfold reach. destruct m as [m|]; [|done].
  rewrite (orb_comm (negb (modelled _ x plane))), (orb_comm (isolated _ x plane)).
  cbv zeta. by rewrite !(some_pair_sym _ (netOf (Some m) x plane) (netOf (Some m) y plane)).
Qed.

(** Memoising is transparent: whatever answers the tables already hold, a query
    for isolation returns what the uncached query returns and leaves the tables
    holding only correct answers. *)
Theorem isolated_cached_transparent m c x plane :
  cache_ok m c ->
  fst (isolated_cached m c x plane) = isolated (Some m) x plane /\
  cache_ok m (snd (isolated_cached m c x plane)).
Proof.
  intros Hc. unfold isolated_cached.
  destruct (modelled_cached_spec m c x plane Hc) as [Hm Hc1].
  destruct (modelled_cached m c x plane) as [ok c1]. cbn [fst snd] in Hm, Hc1. subst ok.
  unfold isolated. destruct (modelled (Some m) x plane); cbn [andb fst snd]; [|done].
  destruct (netOf_cached_spec m c1 x plane Hc1) as [Hn Hc2].
  destruct (netOf_cached m c1 x plane) as [groups c2]. cbn [fst snd] in Hn, Hc2. by subst groups.
Qed.

Lemma isolated_cached_transparent_witness :
  fst (isolated_cached (demo_model {["sw1"]}) emptyCache "h1" PlaneData) = true /\
  fst (isolated_cached (demo_model {["sw1"]}) emptyCache "h1" PlaneData) =
  isolated (Some (demo_model {["sw1"]})) "h1" PlaneData.
Proof.
  split; [vm_compute; reflexivity|].
  apply (isolated_cached_transparent (demo_model {["sw1"]}) emptyCache "h1" PlaneData).
  split; intros x p v H; cbn in H; by rewrite lookup_empty in H.
Defined.
