(* ===== verification/Seams.v ===== *)
(** The places where reachability meets the rest of the analysis, and the
    reports it produces: [internal/impact/reach.go] from [computeNeedsNet] on.

    Seam 1 decides whether a service cares about its network at all, seam 2
    folds host-pair reach into one verdict per dependency or pool member, seam 3
    checks exposed endpoints against their anchors. Go passes the coverage
    counters by pointer; here a function returns what it adds to them. *)
From Stdlib Require Import String ZArith Lia.
From stdpp Require Import base gmap strings list pretty.
From S2P Require Import Prelude Status Dependency Graph Fixtures Propagation UnionFind Reach.

#[local] Open Scope string_scope.
#[local] Open Scope list_scope.
#[local] Open Scope nat_scope.

(** * Definitions *)

(** ** Result rows *)

Inductive Cause := CauseCapacity | CauseReachability | CauseExposure | CauseDependency.

#[export] Instance Cause_eq_dec : EqDecision Cause.
Proof. solve_decision. Defined.

Record AssetIsolation := {
  ai_AssetID : string; ai_AssetName : string; ai_AssetKind : string;
  ai_Plane : string; ai_BlockingGroup : string
}.

(** [AssetIsolation.Label] *)
Definition Label (a : AssetIsolation) : string :=
  if decide (ai_AssetName a <> "") then ai_AssetName a else ai_AssetID a.

Record EdgePartition := {
  pt_DependencyID : string; pt_ConsumerService : string;
  pt_ProviderName : string; pt_Reach : string
}.

Record EndpointReach := {
  er_ServiceID : string; er_Code : string; er_Name : string;
  er_EndpointID : string; er_EndpointName : string; er_Scope : string;
  er_Status : Status; er_BlockingGroup : string
}.

Record GroupFinding := { gf_GroupCode : string; gf_Message : string }.

Record ReachCoverage := {
  cov_TopologyDeclared : bool; cov_Modelled : Z; cov_Inherited : Z; cov_Unmodelled : Z;
  cov_GroupsWithoutUplinkOrAnchor : Z; cov_NoAnchorForScope : gmap string Z;
  cov_ClusterUnresolved : Z
}.

(** [ServiceImpact] ([engine.go]) *)
Record ServiceImpact := {
  im_ServiceID : string; im_Code : string; im_Name : string; im_Tier : Z;
  im_Status : Status; im_Reason : string; im_LostInstances : Z; im_TotalInstances : Z;
  im_Via : string; im_Cause : Cause; im_LostToIsolation : Z
}.

(** ** Seam 1 *)

(** The endpoints of a service, in no particular order. *)
Definition endpoints_of (g : Graph) (svcID : string) : list Endpoint :=
  List.filter (fun ep => bool_decide (ep_ServiceID ep = svcID)) (snd <$> map_to_list (g_Endpoints g)).

(** The unretired dependencies of a service. *)
Definition deps_of (g : Graph) (svcID : string) : list Dependency :=
  List.filter (fun d => bool_decide (dep_ConsumerServiceID d = svcID))
    (List.filter (fun d => negb (bool_decide (dep_Lifecycle d = LifecycleRetired))) (g_Deps g)).

Definition dep_is_local (g : Graph) (d : Dependency) : bool :=
  match providerEndpointForDep g d with
  | Some pep => isLocalBind (ep_BindScope pep)
  | None => false
  end.

Definition service_needs_net (g : Graph) (svcID : string) : bool :=
  let eps := endpoints_of g svcID in
  let allLocal := (0 <? length eps) && forallb (fun ep => isLocalBind (ep_BindScope ep)) eps in
  let allLocal := if allLocal then forallb (dep_is_local g) (deps_of g svcID) else allLocal in
  negb allLocal.

(** [computeNeedsNet] *)
Definition computeNeedsNet (g : Graph) : gmap string bool :=
  map_imap (fun svcID _ => Some (service_needs_net g svcID)) (g_Services g).

(** ** Seam 2 *)

(** [dedupeStrings]: the empty string counts as already seen. *)
Definition dedupeStrings (l : list string) : list string := first_occurrences {[""]} l.

(** One consumer of [aggregateReach]: the best known reach to a provider. *)
Definition consumer_reach (net : option reachModel) (providers : list string) (c : string)
    : Status * bool :=
  foldl (fun '(per, known) p =>
           match reach net c p PlaneData with
           | Some s => (Better per s, true)
           | None => (per, known)
           end) (StatusDown, false) providers.

(** [aggregateReach] *)
Definition aggregateReach (net : option reachModel) (consumers providers : list string)
    : reachLevel :=
  let '(anyKnown, allDown, anyNotOK) :=
    foldl (fun '(anyKnown, allDown, anyNotOK) c =>
             let '(per, known) := consumer_reach net providers c in
             if known : bool then
               (true, if decide (per <> StatusDown) then false else allDown,
                if decide (per <> StatusOK) then true else anyNotOK)
             else (anyKnown, allDown, anyNotOK))
      (false, true, false) consumers in
  if negb anyKnown then reachUnknown
  else if allDown : bool then reachDown
  else if anyNotOK : bool then reachDegraded
  else reachOK.

(** [reachHosts], with what it adds to [coverage.ClusterUnresolved]. *)
Definition reachHosts (g : Graph) (net : option reachModel) (ep : Endpoint)
    (aliveHosts : gmap string (list string)) : list string * Z :=
  let alive := aliveHosts.[ep_ServiceID ep | []] in
  if bool_decide (ep_BindScope ep = BindClusterIP) || bool_decide (ep_BindScope ep = BindNodePort)
     || bool_decide (ep_BindScope ep = BindIngress)
  then
    let cluster := (g_ServiceClusterAssetID g).[ep_ServiceID ep | ""] in
    if decide (cluster <> "")
    then (List.filter (fun n => match net with
                                | None => true
                                | Some _ => negb (isolated net n PlaneData)
                                end) ((g_ClusterNodes g).[cluster | []]), 0%Z)
    else (alive, 1%Z)
  else (alive, 0%Z).

(** Consumer and provider are pods of the same cluster. *)
Definition same_cluster (g : Graph) (pep : Endpoint) (dep : Dependency) : bool :=
  bool_decide (ep_BindScope pep = BindClusterIP) &&
  match g_ServiceClusterAssetID g !! ep_ServiceID pep with
  | Some pc => bool_decide (pc <> "") &&
               bool_decide (g_ServiceClusterAssetID g !! dep_ConsumerServiceID dep = Some pc)
  | None => false
  end.

(** The body of [computeDepReach]'s loop: the verdict for one dependency,
    [None] when it gets none, and the growth of [ClusterUnresolved]. *)
Definition dep_reach (g : Graph) (net : option reachModel)
    (aliveHosts : gmap string (list string)) (dep : Dependency) : option reachLevel * Z :=
  if decide (dep_Lifecycle dep = LifecycleRetired) then (None, 0%Z)
  else
    match providerEndpointForDep g dep with
    | None => (None, 0%Z)
    | Some pep =>
        if isLocalBind (ep_BindScope pep) then (Some reachOK, 0%Z)
        else if same_cluster g pep dep then (Some reachOK, 0%Z)
        else
          match net with
          | None => (Some reachOK, 0%Z)
          | Some _ =>
              let consumers := dedupeStrings (aliveHosts.[dep_ConsumerServiceID dep | []]) in
              if decide (consumers = []) then (Some reachUnknown, 0%Z)
              else
                let '(hosts, unresolved) := reachHosts g net pep aliveHosts in
                let providers := dedupeStrings hosts in
                if decide (providers = []) then (Some reachUnknown, unresolved)
                else (Some (aggregateReach net consumers providers), unresolved)
          end
    end.

(** The loop's turn: record the verdict under the dependency's id. *)
Definition dep_reach_step (g : Graph) (net : option reachModel)
    (aliveHosts : gmap string (list string)) (acc : gmap string reachLevel * Z)
    (dep : Dependency) : gmap string reachLevel * Z :=
  let '(v, unresolved) := dep_reach g net aliveHosts dep in
  (match v with
   | Some lvl => <[dep_ID dep := lvl]> acc.1
   | None => acc.1
   end, (acc.2 + unresolved)%Z).

(** [computeDepReach] *)
Definition computeDepReach (g : Graph) (net : option reachModel)
    (aliveHosts : gmap string (list string)) : gmap string reachLevel * Z :=
  foldl (dep_reach_step g net aliveHosts) (∅, 0%Z) (g_Deps g).

(** One pool member of a route: [None] when [computeRouteMemberReach] skips it. *)
Definition member_reach (g : Graph) (net : option reachModel)
    (aliveHosts : gmap string (list string)) (frontHosts : list string) (endpointID : string)
    : option reachLevel :=
  match g_Endpoints g !! endpointID with
  | None => None
  | Some mep =>
      if isLocalBind (ep_BindScope mep) then None
      else
        let memberHosts := dedupeStrings (reachHosts g net mep aliveHosts).1 in
        if decide (memberHosts = []) then None
        else Some (aggregateReach net frontHosts memberHosts)
  end.

(** The hosts of a route's proxy; empty when the route is skipped. *)
Definition front_hosts (g : Graph) (aliveHosts : gmap string (list string)) (r : Route)
    : list string :=
  match g_Endpoints g !! rt_FrontendEndpointID r with
  | None => []
  | Some fep => if isLocalBind (ep_BindScope fep) then []
                else dedupeStrings (aliveHosts.[ep_ServiceID fep | []])
  end.

(** [computeRouteMemberReach] *)
Definition computeRouteMemberReach (g : Graph) (net : option reachModel)
    (aliveHosts : gmap string (list string)) : gmap string reachLevel :=
  match net with
  | None => ∅
  | Some _ =>
      foldl (fun out '(routeID, r) =>
               let frontHosts := front_hosts g aliveHosts r in
               if decide (frontHosts = []) then out
               else
                 foldl (fun (out : gmap string reachLevel) endpointID =>
                          match member_reach g net aliveHosts frontHosts endpointID with
                          | Some lvl => <[routeID +++ "/" +++ endpointID := lvl]> out
                          | None => out
                          end)
                       out ((g_PoolMembers g).[rt_BackendPoolID r | []]))
            ∅ (map_to_list (g_Routes g))
  end.

(** ** Seam 3 *)

(** [matchingAnchors]; a nil or empty environment matches every endpoint. *)
Definition matchingAnchors (net : NetGraph) (ep : Endpoint) : list NetAnchorInfo :=
  List.filter (fun a =>
    bool_decide (anc_Scope a = ep_Exposure ep) &&
    negb (bool_decide (anc_Scope a = "environment") &&
          match anc_EnvironmentID a with
          | Some e => bool_decide (e <> "") && bool_decide (e <> ep_ServiceEnvID ep)
          | None => false
          end)) (net_Anchors net).

(** [betterFoldAnchors]: best status, first blocking group, whether any is known. *)
Definition betterFoldAnchors (net : option reachModel) (hosts : list string)
    (anchors : list NetAnchorInfo) : Status * string * bool :=
  foldl (fun '(best, blocking, known) '(h, a) =>
           match reachGroup net h (anc_GroupID a) PlaneData with
           | None => (best, blocking, known)
           | Some s =>
               (if negb known then s else Better best s,
                if bool_decide (s <> StatusOK) && bool_decide (blocking = "")
                then groupCode net (anc_GroupID a) else blocking,
                true)
           end)
        (StatusDown, "", false)
        (h ← hosts; a ← anchors; [(h, a)]).

(** The endpoint is published beyond its own host and service. *)
Definition exposed (ep : Endpoint) : bool :=
  negb (isLocalBind (ep_BindScope ep) || bool_decide (ep_Exposure ep = "internal")
        || bool_decide (ep_Exposure ep = "")).

(** The body of [computeUnreachable]'s loop: the row for one endpoint, and the
    scope for which no anchor matched. *)
Definition endpoint_reach (g : Graph) (m : reachModel) (aliveHosts : gmap string (list string))
    (statuses : gmap string Status) (ep : Endpoint) : option EndpointReach * option string :=
  if negb (exposed ep) then (None, None)
  else
    match g_Services g !! ep_ServiceID ep with
    | None => (None, None)
    | Some svc =>
        if decide (statuses.[ep_ServiceID ep | StatusUnset] = StatusDown) then (None, None)
        else
          let anchors := matchingAnchors (rm_net m) ep in
          if decide (length anchors = 0) then (None, Some (ep_Exposure ep))
          else
            let hosts := dedupeStrings (aliveHosts.[ep_ServiceID ep | []]) in
            if decide (hosts = []) then (None, None)
            else
              let '(r, blocking, known) := betterFoldAnchors (Some m) hosts anchors in
              if negb known || bool_decide (r = StatusOK) then (None, None)
              else (Some {| er_ServiceID := ep_ServiceID ep; er_Code := svc_Code svc;
                            er_Name := svc_Name svc; er_EndpointID := ep_ID ep;
                            er_EndpointName := ep_Name ep; er_Scope := ep_Exposure ep;
                            er_Status := r; er_BlockingGroup := blocking |}, None)
    end.

Definition endpoint_reach_less : EndpointReach -> EndpointReach -> bool :=
  lex_less er_Code str_ltb (fun e f => str_ltb (er_EndpointName e) (er_EndpointName f)).

(** The endpoints in the order of their ids. *)
Definition endpoints_by_id (g : Graph) : list Endpoint :=
  snd <$> isort (fun a b => str_ltb (fst a) (fst b)) (map_to_list (g_Endpoints g)).

(** [computeUnreachable]; second, the additions to [NoAnchorForScope]. *)
Definition computeUnreachable (g : Graph) (net : option reachModel)
    (aliveHosts : gmap string (list string)) (statuses : gmap string Status)
    : list EndpointReach * gmap string Z :=
  match net with
  | None => ([], ∅)
  | Some m =>
      let rows := endpoint_reach g m aliveHosts statuses <$> endpoints_by_id g in
      (isort endpoint_reach_less (omap fst rows),
       foldl (fun (c : gmap string Z) scope => <[scope := (c.[scope | 0] + 1)%Z]> c)
             ∅ (omap snd rows))
  end.

(** The endpoints [nonLocalCount] counts for a service. *)
Definition exposed_endpoints (g : Graph) (svcID : string) : list Endpoint :=
  List.filter exposed (endpoints_of g svcID).

(** The rows of [unreachable] about a service, in order. *)
Definition rows_of (unreachable : list EndpointReach) (svcID : string) : list EndpointReach :=
  List.filter (fun u => bool_decide (er_ServiceID u = svcID)) unreachable.

Definition exposure_reason (u : EndpointReach) : string :=
  let blocked := if decide (er_BlockingGroup u = "") then "an unresolved forwarder"
                 else er_BlockingGroup u in
  er_EndpointName u +++ " requires a " +++ er_Scope u +++
  " anchor; the only path runs through " +++ blocked.

(** The impact of a service all of whose exposed endpoints are unreachable:
    [worst] folds the statuses of its rows, [reason] is of the first. *)
Definition exposure_impact (g : Graph) (unreachable : list EndpointReach) (id : string)
    : option ServiceImpact :=
  svc ← g_Services g !! id;
  match rows_of unreachable id with
  | [] => None
  | u :: us =>
      Some {| im_ServiceID := id; im_Code := svc_Code svc; im_Name := svc_Name svc;
              im_Tier := svc_Tier svc;
              im_Status := foldl (fun cur v => Worse cur (er_Status v)) (er_Status u) us;
              im_Reason := exposure_reason u; im_LostInstances := 0; im_TotalInstances := 0;
              im_Via := ""; im_Cause := CauseExposure; im_LostToIsolation := 0 |}
  end.

(** The services [computeExposureImpacts] reports. *)
Definition exposure_ids (g : Graph) (unreachable : list EndpointReach)
    (existing : gset string) : list string :=
  isort str_ltb
    (List.filter (fun id =>
       let n := length (exposed_endpoints g id) in
       (0 <? n) && (length (rows_of unreachable id) =? n) && bool_decide (id ∉ existing))
       (first_occurrences ∅ (ep_ServiceID <$> (snd <$> map_to_list (g_Endpoints g))))).

(** [computeExposureImpacts] *)
Definition computeExposureImpacts (g : Graph) (unreachable : list EndpointReach)
    (existing : gset string) : list ServiceImpact :=
  match unreachable with
  | [] => []
  | _ => omap (exposure_impact g unreachable) (exposure_ids g unreachable existing)
  end.

(** ** Reports *)

(** [candidateAssets] *)
Definition candidateAssets (g : Graph) (net : option NetGraph) : list string :=
  let hosts := inst_HostAssetID <$> concat (snd <$> map_to_list (g_Instances g)) in
  let subjects := match net with
                  | None => []
                  | Some n => (att_AssetID <$> net_Attachments n) ++ (cr_DescendantID <$> net_Closure n)
                  end in
  isort str_ltb (first_occurrences ∅ (hosts ++ subjects)).

(** The row for one asset and plane. *)
Definition isolation_row (m : reachModel) (id p : string) : AssetIsolation :=
  let blocking :=
    match effectiveAttachments m id p with
    | Some (i :: _) => match net_Attachments (rm_net m) !! i with
                       | Some a => groupCode (Some m) (att_GroupID a)
                       | None => ""
                       end
    | _ => ""
    end in
  let label := (net_AssetNames (rm_net m)).[id | {| al_Name := ""; al_Kind := "" |}] in
  {| ai_AssetID := id; ai_AssetName := al_Name label; ai_AssetKind := al_Kind label;
     ai_Plane := p; ai_BlockingGroup := blocking |}.

(** [computeIsolated] *)
Definition computeIsolated (g : Graph) (net : option reachModel) : list AssetIsolation :=
  match net with
  | None => []
  | Some m =>
      id ← List.filter (fun id => bool_decide (id ∉ rm_down m)) (candidateAssets g (Some (rm_net m)));
      isolation_row m id <$> List.filter (isolated (Some m) id) planes
  end.

(** [providerDisplayName] *)
Definition providerDisplayName (g : Graph) (dep : Dependency) : string :=
  let by_endpoint :=
    e ← dep_ProviderEndpointID dep; ep ← g_Endpoints g !! e;
    svc ← g_Services g !! ep_ServiceID ep; Some (svc_Code svc +++ "/" +++ ep_Name ep) in
  let by_route :=
    r ← dep_ProviderRouteID dep; rt ← g_Routes g !! r; Some ("route " +++ rt_Name rt) in
  match by_endpoint, by_route with
  | Some name, _ => name
  | None, Some name => name
  | None, None => ""
  end.

(** The row for one dependency. *)
Definition partition_row (g : Graph) (reachOfDep : gmap string reachLevel) (dep : Dependency)
    : option EdgePartition :=
  lvl ← reachOfDep !! dep_ID dep;
  if decide (lvl = reachOK) then None
  else if decide (lvl = reachUnknown) then None
  else consumer ← g_Services g !! dep_ConsumerServiceID dep;
       Some {| pt_DependencyID := dep_ID dep; pt_ConsumerService := svc_Code consumer;
               pt_ProviderName := providerDisplayName g dep; pt_Reach := reachLevel_String lvl |}.

Definition partition_less : EdgePartition -> EdgePartition -> bool :=
  lex_less pt_ConsumerService str_ltb (fun p q => str_ltb (pt_ProviderName p) (pt_ProviderName q)).

(** [computePartitions] *)
Definition computePartitions (g : Graph) (deps : list Dependency)
    (reachOfDep : gmap string reachLevel) : list EdgePartition :=
  if decide (size reachOfDep = 0) then []
  else isort partition_less (omap (partition_row g reachOfDep) deps).

(** The finding about one group: installed members against survivors. *)
Definition redundancy_row (net : NetGraph) (groupStatus : gmap string Status)
    (down : gset string) (id : string) (g : NetGroupInfo) : option GroupFinding :=
  let installed := installed_members net down id in
  let total := length installed in
  let surviving := count_if ih_Alive installed in
  if (total <=? 1) || (surviving =? total) then None
  else
    let note := match groupStatus.[id | StatusUnset] with
                | StatusDown => "the whole group is down"
                | StatusDegraded => "no redundancy remains until a standby is promoted"
                | _ => "one more loss and this group goes down"
                end in
    Some {| gf_GroupCode := ng_Code g;
            gf_Message := ng_Code g +++ ": " +++ pretty surviving +++ " of " +++ pretty total
                          +++ " members surviving; " +++ note |}.

(** [computeRedundancyLost], by group id. *)
Definition computeRedundancyLost (net : option NetGraph) (groupStatus : gmap string Status)
    (down : gset string) : list GroupFinding :=
  match net with
  | None => []
  | Some n =>
      omap (fun kv => redundancy_row n groupStatus down (fst kv) (snd kv))
           (isort (fun a b => str_ltb (fst a) (fst b)) (map_to_list (net_Groups n)))
  end.

(** The distinct hosts of the graph's instances. *)
Definition instance_hosts (g : Graph) : list string :=
  first_occurrences ∅ (inst_HostAssetID <$> concat (snd <$> map_to_list (g_Instances g))).

Definition has_own_data (m : reachModel) (id : string) : bool :=
  0 <? length (own_attachments m id PlaneData).

(** A group no uplink touches and no anchor names. *)
Definition stranded (n : NetGraph) (gid : string) : bool :=
  negb (existsb (fun u => bool_decide (up_GroupID u = gid) || bool_decide (up_UpstreamGroupID u = gid))
          (net_Uplinks n)) &&
  negb (existsb (fun a => bool_decide (anc_GroupID a = gid)) (net_Anchors n)).

(** [computeCoverage] *)
Definition computeCoverage (g : Graph) (net : option reachModel) : ReachCoverage :=
  match net with
  | None => {| cov_TopologyDeclared := false; cov_Modelled := 0; cov_Inherited := 0;
               cov_Unmodelled := 0; cov_GroupsWithoutUplinkOrAnchor := 0;
               cov_NoAnchorForScope := ∅; cov_ClusterUnresolved := 0 |}
  | Some m =>
      let hosts := instance_hosts g in
      let rest := List.filter (fun id => negb (has_own_data m id)) hosts in
      {| cov_TopologyDeclared := true;
         cov_Modelled := Z.of_nat (count_if (has_own_data m) hosts);
         cov_Inherited := Z.of_nat (count_if (fun id => modelled net id PlaneData) rest);
         cov_Unmodelled := Z.of_nat (count_if (fun id => negb (modelled net id PlaneData)) rest);
         cov_GroupsWithoutUplinkOrAnchor :=
           Z.of_nat (count_if (stranded (rm_net m)) (fst <$> map_to_list (net_Groups (rm_net m))));
         cov_NoAnchorForScope := ∅; cov_ClusterUnresolved := 0 |}
  end.

(** * Lemmas *)

(** ** Seam 1 *)

Lemma elem_of_endpoints_of g svcID ep :
  ep ∈ endpoints_of g svcID <-> ep_ServiceID ep = svcID /\ exists id, g_Endpoints g !! id = Some ep.
Proof.
  unfold endpoints_of. rewrite elem_of_bool_filter, bool_decide_eq_true, list_elem_of_fmap.
  setoid_rewrite <- elem_of_map_to_list. split.
  - intros [([k e] & -> & H) <-]. eauto.
  - intros [<- [k H]]. split; [by exists (k, ep)|done].
Qed.

Lemma elem_of_deps_of g svcID d :
  d ∈ deps_of g svcID <->
  d ∈ g_Deps g /\ dep_ConsumerServiceID d = svcID /\ dep_Lifecycle d <> LifecycleRetired.
Proof.
  unfold deps_of. rewrite !elem_of_bool_filter, negb_true_iff, bool_decide_eq_true,
    bool_decide_eq_false. tauto.
Qed.

Lemma dep_is_local_true g d :
  dep_is_local g d = true <->
  exists pep, providerEndpointForDep g d = Some pep /\ isLocalBind (ep_BindScope pep) = true.
Proof. unfold dep_is_local. destruct (providerEndpointForDep g d); naive_solver. Qed.

(** A service is indifferent to its network when it has endpoints, all of them
    local, and uses only local endpoints. *)
Lemma service_needs_net_false g svcID :
  service_needs_net g svcID = false <->
  endpoints_of g svcID <> [] /\
  (forall ep, ep ∈ endpoints_of g svcID -> isLocalBind (ep_BindScope ep) = true) /\
  (forall d, d ∈ deps_of g svcID -> dep_is_local g d = true).
Proof.
  unfold service_needs_net. rewrite negb_false_iff.
  rewrite <- (forallb_elem_of _ (endpoints_of g svcID)), <- (forallb_elem_of _ (deps_of g svcID)).
  destruct (endpoints_of g svcID) as [|ep eps]; [naive_solver|].
  cbn [length Nat.ltb Nat.leb andb]. destruct (forallb _ (ep :: eps)); naive_solver.
Qed.

(** ** Seam 2 *)

Lemma reach_set m x y p s : reach m x y p = Some s -> s <> StatusUnset.
Proof.
  unfold reach. destruct m as [m|]; [|done].
  repeat match goal with |- (if ?b then _ else _) = _ -> _ => destruct b
                        | |- (let _ := _ in _) = _ -> _ => cbv zeta end;
  by intros [= <-].
Qed.

(** The statuses a consumer sees among providers it has a known reach to. *)
Definition known_reach (net : option reachModel) (ps : list string) (c : string) : list Status :=
  omap (fun p => reach net c p PlaneData) ps.

Lemma elem_of_known_reach net ps c s :
  s ∈ known_reach net ps c <-> exists p, p ∈ ps /\ reach net c p PlaneData = Some s.
Proof. apply list_elem_of_omap. Qed.

Lemma consumer_reach_fold net ps c s k :
  foldl (fun '(per, known) p =>
           match reach net c p PlaneData with
           | Some s => (Better per s, true)
           | None => (per, known)
           end) (s, k) ps =
  (foldl Better s (known_reach net ps c),
   k || negb (bool_decide (known_reach net ps c = []))).
Proof.
  revert s k. induction ps as [|p ps IH]; intros s k; [by rewrite orb_false_r|].
  unfold known_reach in *. cbn [foldl omap list_omap].
  destruct (reach net c p PlaneData) as [t|]; rewrite IH; [|done].
  by rewrite orb_true_r.
Qed.

Lemma Better_fold l s :
  (forall t, t ∈ l -> t <> StatusUnset) -> s <> StatusUnset ->
  let b := foldl Better s l in
  (b = StatusOK <-> s = StatusOK \/ StatusOK ∈ l) /\
  (b = StatusDown <-> s = StatusDown /\ forall t, t ∈ l -> t = StatusDown).
Proof.
  revert s. induction l as [|t l IH]; intros s Hl Hs; cbn [foldl]; [set_solver|].
  assert (Ht : t <> StatusUnset) by (apply Hl; left).
  assert (Hb : Better s t <> StatusUnset) by (unfold Better; by case_match).
  destruct (IH (Better s t)) as [IH1 IH2]; [set_solver|done|]. split.
  - rewrite IH1, elem_of_cons.
    assert (Better s t = StatusOK <-> s = StatusOK \/ StatusOK = t) by (destruct s, t; naive_solver).
    tauto.
  - rewrite IH2. setoid_rewrite elem_of_cons.
    assert (Better s t = StatusDown <-> s = StatusDown /\ t = StatusDown) by (destruct s, t; naive_solver).
    naive_solver.
Qed.

(** What a consumer sees: nothing known, or the best of what is. *)
Lemma consumer_reach_spec net ps c :
  let '(per, known) := consumer_reach net ps c in
  (known = true <-> known_reach net ps c <> []) /\
  (per = StatusOK <-> StatusOK ∈ known_reach net ps c) /\
  (per = StatusDown <-> forall s, s ∈ known_reach net ps c -> s = StatusDown).
Proof.
  unfold consumer_reach. rewrite consumer_reach_fold. cbn [orb].
  rewrite negb_true_iff, bool_decide_eq_false.
  destruct (Better_fold (known_reach net ps c) StatusDown) as [H1 H2]; [|done|].
  { intros t (p & _ & H)%elem_of_known_reach. by eapply reach_set. }
  split; [done|]. split; [rewrite H1|rewrite H2]; naive_solver.
Qed.

(** A host pair whose reach is known, with the answer. *)
Definition known_pair (net : option reachModel) (cs ps : list string) (s : Status) : Prop :=
  exists c p, c ∈ cs /\ p ∈ ps /\ reach net c p PlaneData = Some s.

(** Some consumer knows a provider but reaches none fully. *)
Definition consumer_hurt (net : option reachModel) (cs ps : list string) : Prop :=
  exists c, c ∈ cs /\ known_reach net ps c <> [] /\ StatusOK ∉ known_reach net ps c.

Lemma known_pair_cons net c cs ps s :
  known_pair net (c :: cs) ps s <-> s ∈ known_reach net ps c \/ known_pair net cs ps s.
Proof. unfold known_pair. rewrite elem_of_known_reach. set_solver. Qed.

Lemma consumer_hurt_cons net c cs ps :
  consumer_hurt net (c :: cs) ps <->
  (known_reach net ps c <> [] /\ StatusOK ∉ known_reach net ps c) \/ consumer_hurt net cs ps.
Proof. unfold consumer_hurt. set_solver. Qed.

Lemma aggregate_fold net ps cs a d n :
  let '(a', d', n') :=
    foldl (fun '(anyKnown, allDown, anyNotOK) c =>
             let '(per, known) := consumer_reach net ps c in
             if known : bool then
               (true, if decide (per <> StatusDown) then false else allDown,
                if decide (per <> StatusOK) then true else anyNotOK)
             else (anyKnown, allDown, anyNotOK))
      (a, d, n) cs in
  (a' = true <-> a = true \/ exists s, known_pair net cs ps s) /\
  (d' = true <-> d = true /\ forall s, known_pair net cs ps s -> s = StatusDown) /\
  (n' = true <-> n = true \/ consumer_hurt net cs ps).
Proof.
  revert a d n. induction cs as [|c cs IH]; intros a d n.
  { cbn. unfold known_pair, consumer_hurt. set_solver. }
  cbn [foldl]. pose proof (consumer_reach_spec net ps c) as Hc.
  destruct (consumer_reach net ps c) as [per known]. destruct Hc as (Hk & Ho & Hd).
  assert (Hne : known_reach net ps c <> [] <-> exists s, s ∈ known_reach net ps c).
  { destruct (known_reach net ps c); set_solver. }
  pose proof (known_pair_cons net c cs ps) as Hpair.
  pose proof (consumer_hurt_cons net c cs ps) as Hhurt.
  revert Hk Ho Hd Hne Hpair Hhurt.
  generalize (known_reach net ps c) (known_pair net (c :: cs) ps) (consumer_hurt net (c :: cs) ps).
  intros kr P' Q' Hk Ho Hd Hne Hpair Hhurt.
  assert (Hex : (exists s, P' s) <-> (exists s, s ∈ kr) \/ exists s, known_pair net cs ps s).
  { setoid_rewrite Hpair. naive_solver. }
  assert (Hall : (forall s, P' s -> s = StatusDown) <->
                 (forall s, s ∈ kr -> s = StatusDown) /\
                 (forall s, known_pair net cs ps s -> s = StatusDown)).
  { setoid_rewrite Hpair. naive_solver. }
  destruct known.
  - specialize (IH true (if decide (per <> StatusDown) then false else d)
                  (if decide (per <> StatusOK) then true else n)).
    destruct (foldl _ _ cs) as [[a' d'] n']. destruct IH as (-> & -> & ->).
    rewrite Hex, Hall, Hhurt. clear Hex Hall Hhurt Hpair P' Q'.
    assert (Hs : exists s, s ∈ kr) by tauto. clear Hne.
    split_and!; [tauto| |].
    + rewrite <- Hd. case_decide; intuition congruence.
    + case_decide; intuition congruence.
  - specialize (IH a d n).
    destruct (foldl _ _ cs) as [[a' d'] n']. destruct IH as (-> & -> & ->).
    rewrite Hex, Hall, Hhurt. clear Hex Hall Hhurt Hpair P' Q'.
    assert (Hs : ~ exists s, s ∈ kr) by (rewrite <- Hne, <- Hk; done).
    assert (Hs' : forall s, s ∈ kr -> s = StatusDown) by (intros s ?; destruct Hs; eauto).
    rewrite Hne. tauto.
Qed.

(** The four verdicts over host pairs. *)
Lemma aggregateReach_cases net cs ps :
  let l := aggregateReach net cs ps in
  (l = reachUnknown <-> ~ exists s, known_pair net cs ps s) /\
  (l = reachDown <-> (exists s, known_pair net cs ps s) /\
                     forall s, known_pair net cs ps s -> s = StatusDown) /\
  (l = reachOK <-> (exists s, known_pair net cs ps s) /\ ~ consumer_hurt net cs ps).
Proof.
  unfold aggregateReach. pose proof (aggregate_fold net ps cs false true false) as H.
  destruct (foldl _ _ cs) as [[a d] n]. destruct H as (H1 & H2 & H3).
  assert (Hdn : d = true -> a = true -> n = true).
  { intros Hd Ha. apply H3. right. apply H1 in Ha as [|(s & c & p & Hc & Hp & E)]; [done|].
    exists c. split; [done|]. rewrite elem_of_known_reach. split.
    - intros E'. assert (Hs : s ∈ known_reach net ps c) by (apply elem_of_known_reach; eauto).
      rewrite E' in Hs. by apply elem_of_nil in Hs.
    - intros (q & Hq & E'). apply H2 in Hd as [_ Hd].
      by assert (StatusOK = StatusDown) by (apply Hd; by exists c, q). }
  destruct a, d, n; cbn [negb]; intuition congruence.
Qed.

Lemma dep_reach_step_lookup g net alive acc d id :
  (dep_reach_step g net alive acc d).1 !! id =
  if decide (dep_ID d = id)
  then match (dep_reach g net alive d).1 with Some l => Some l | None => acc.1 !! id end
  else acc.1 !! id.
Proof.
  unfold dep_reach_step. destruct (dep_reach g net alive d) as [[l|] u]; cbn [fst].
  - rewrite lookup_insert. by repeat case_decide.
  - by case_decide.
Qed.

Lemma dep_reach_loop g net alive d ds acc :
  NoDup (dep_ID <$> ds) ->
  (dep_ID d ∉ dep_ID <$> ds ->
   (foldl (dep_reach_step g net alive) acc ds).1 !! dep_ID d = acc.1 !! dep_ID d) /\
  (d ∈ ds -> acc.1 !! dep_ID d = None ->
   (foldl (dep_reach_step g net alive) acc ds).1 !! dep_ID d = (dep_reach g net alive d).1).
Proof.
  revert acc. induction ds as [|x ds IH]; intros acc Hn; cbn [foldl]; [set_solver|].
  rewrite fmap_cons in *. apply NoDup_cons in Hn as [Hx Hn].
  destruct (IH (dep_reach_step g net alive acc x) Hn) as [IH1 IH2].
  rewrite dep_reach_step_lookup in IH1, IH2. split.
  - intros [Hne Hni]%not_elem_of_cons. rewrite IH1 by done. by rewrite decide_False.
  - intros [->|Hd]%elem_of_cons Ha.
    + rewrite IH1 by done. rewrite decide_True by done. rewrite Ha. by destruct (dep_reach _ _ _ _) as [[] ?].
    + apply IH2; [done|]. rewrite decide_False; [done|]. intros Heq. apply Hx. rewrite Heq.
      by apply list_elem_of_fmap_2.
Qed.

(** The loop over dependencies writes each verdict under its own id. *)
Lemma computeDepReach_lookup g net alive d :
  NoDup (dep_ID <$> g_Deps g) -> d ∈ g_Deps g ->
  (computeDepReach g net alive).1 !! dep_ID d = (dep_reach g net alive d).1.
Proof.
  intros Hnd Hin.
  apply (proj2 (dep_reach_loop g net alive d (g_Deps g) (∅, 0%Z) Hnd)); [done|].
  apply lookup_empty.
Qed.

(** What the [down] verdict asserts of a dependency: some alive host of the
    consumer has a known path to a provider host, and none of the known paths
    survives. *)
Lemma dep_reach_down g net alive d :
  (dep_reach g net alive d).1 = Some reachDown <->
  dep_Lifecycle d <> LifecycleRetired /\
  exists pep, providerEndpointForDep g d = Some pep /\
    isLocalBind (ep_BindScope pep) = false /\ same_cluster g pep d = false /\
    is_Some net /\
    let cs := dedupeStrings (alive.[dep_ConsumerServiceID d | []]) in
    let ps := dedupeStrings (reachHosts g net pep alive).1 in
    (exists s, known_pair net cs ps s) /\ forall s, known_pair net cs ps s -> s = StatusDown.
Proof.
  unfold dep_reach. case_decide as Hl; [by split; [|intros [? _]]|].
  destruct (providerEndpointForDep g d) as [pep|]; [|by split; [|intros (_ & ? & ? & _)]].
  destruct (isLocalBind (ep_BindScope pep)) eqn:El.
  { split; [done|]. intros (_ & pep' & [= <-] & H & _). congruence. }
  destruct (same_cluster g pep d) eqn:Es.
  { split; [done|]. intros (_ & pep' & [= <-] & _ & H & _). congruence. }
  destruct net as [m|]; [|split; [done|]; intros (_ & ? & _ & _ & _ & [? ?] & _); done].
  cbv zeta. set (cs := dedupeStrings _). destruct (reachHosts g (Some m) pep alive) as [hosts u] eqn:Eh.
  assert (Hcase : forall ps, cs = [] \/ ps = [] -> ~ exists s, known_pair (Some m) cs ps s).
  { intros ps H (s & c & p & Hc & Hp & _). destruct H as [E|E]; rewrite E in *; set_solver. }
  pose proof (aggregateReach_cases (Some m) cs (dedupeStrings hosts)) as (_ & Hd & _).
  case_decide as Hcs; [|case_decide as Hps]; cbn [fst].
  - split; [done|]. intros (_ & pep' & [= <-] & _ & _ & _ & Hk & _). rewrite Eh in Hk.
    exfalso. eapply Hcase; [by left|done].
  - split; [done|]. intros (_ & pep' & [= <-] & _ & _ & _ & Hk & _). rewrite Eh in Hk.
    exfalso. eapply Hcase; [by right|done].
  - split.
    + intros [= H]. apply Hd in H. split; [done|]. exists pep. by rewrite Eh, El, Es.
    + intros (_ & pep' & [= <-] & _ & _ & _ & Hk). rewrite Eh in Hk. f_equal. by apply Hd.
Qed.

(** Without a model every verdict is [ok]: the pre-pass changes nothing. *)
Lemma dep_reach_no_net g alive d :
  dep_reach g None alive d = (None, 0%Z) \/ dep_reach g None alive d = (Some reachOK, 0%Z).
Proof.
  unfold dep_reach. case_decide; [by left|].
  destruct (providerEndpointForDep g d) as [pep|]; [|by left].
  destruct (isLocalBind (ep_BindScope pep)); [by right|].
  destruct (same_cluster g pep d); by right.
Qed.

Lemma computeDepReach_no_net g alive :
  (computeDepReach g None alive).2 = 0%Z /\
  forall id l, (computeDepReach g None alive).1 !! id = Some l -> l = reachOK.
Proof.
  unfold computeDepReach.
  apply (foldl_inv (fun acc : gmap string reachLevel * Z =>
           acc.2 = 0%Z /\ forall id l, acc.1 !! id = Some l -> l = reachOK)); [|done].
  intros acc d _ [H1 H2]. split.
  - unfold dep_reach_step. destruct (dep_reach_no_net g alive d) as [-> | ->]; cbn [snd]; lia.
  - intros id l. rewrite dep_reach_step_lookup.
    destruct (dep_reach_no_net g alive d) as [-> | ->]; cbn [fst]; case_decide; naive_solver.
Qed.

(** ** Seam 3 *)

(** The known answers of the host-anchor pairs, in the order they are asked. *)
Definition anchor_reach (net : option reachModel) (hosts : list string)
    (anchors : list NetAnchorInfo) : list Status :=
  omap (fun ha => reachGroup net (fst ha) (anc_GroupID (snd ha)) PlaneData)
       (h ← hosts; a ← anchors; [(h, a)]).

Lemma elem_of_anchor_reach net hosts anchors s :
  s ∈ anchor_reach net hosts anchors <->
  exists h a, h ∈ hosts /\ a ∈ anchors /\ reachGroup net h (anc_GroupID a) PlaneData = Some s.
Proof.
  unfold anchor_reach. rewrite list_elem_of_omap. split.
  - intros ([h a] & H & E). apply list_elem_of_bind in H as (h' & H & Hh).
    apply list_elem_of_bind in H as (a' & H & Ha). apply list_elem_of_singleton in H.
    simplify_eq. eauto.
  - intros (h & a & Hh & Ha & E). exists (h, a). split; [|done].
    apply list_elem_of_bind. exists h. split; [|done].
    apply list_elem_of_bind. exists a. split; [|done]. by apply list_elem_of_singleton.
Qed.

Lemma reachGroup_set m x gid p s : reachGroup m x gid p = Some s -> s <> StatusUnset.
Proof.
  unfold reachGroup. destruct m as [m|]; [|done].
  repeat match goal with |- (if ?b then _ else _) = _ -> _ => destruct b
                        | |- (let _ := _ in _) = _ -> _ => cbv zeta end;
  by intros [= <-].
Qed.

Lemma betterFoldAnchors_fold net pairs best blocking known :
  (known = false -> best = StatusDown) ->
  (forall h a s, (h, a) ∈ pairs -> reachGroup net h (anc_GroupID a) PlaneData = Some s ->
                 s <> StatusUnset) ->
  let '(b, _, k) :=
    foldl (fun '(best, blocking, known) '(h, a) =>
           match reachGroup net h (anc_GroupID a) PlaneData with
           | None => (best, blocking, known)
           | Some s =>
               (if negb known then s else Better best s,
                if bool_decide (s <> StatusOK) && bool_decide (blocking = "")
                then groupCode net (anc_GroupID a) else blocking,
                true)
           end) (best, blocking, known) pairs in
  let l := omap (fun ha => reachGroup net (fst ha) (anc_GroupID (snd ha)) PlaneData) pairs in
  b = foldl Better best l /\ k = known || negb (bool_decide (l = [])).
Proof.
  revert best blocking known. induction pairs as [|[h a] pairs IH]; intros best blocking known Hk Hs.
  { cbn. by rewrite orb_false_r. }
  cbn [foldl omap list_omap fst snd].
  destruct (reachGroup net h (anc_GroupID a) PlaneData) as [s|] eqn:E.
  - specialize (IH (if negb known then s else Better best s)
      (if bool_decide (s <> StatusOK) && bool_decide (blocking = "")
       then groupCode net (anc_GroupID a) else blocking) true).
    destruct (foldl _ _ pairs) as [[b bl] k]. destruct IH as [-> ->]; [done| |].
    { intros; eapply Hs; [by right|done]. }
    cbn [foldl orb]. rewrite orb_true_r. split; [|done]. destruct known; [done|].
    rewrite Hk by done. assert (s <> StatusUnset) by (eapply Hs; [left|done]). by destruct s.
  - apply IH; [done|]. intros; eapply Hs; [by right|done].
Qed.

(** One reachable anchor is enough. *)
Lemma betterFoldAnchors_spec net hosts anchors :
  let '(best, _, known) := betterFoldAnchors net hosts anchors in
  let l := anchor_reach net hosts anchors in
  (known = true <-> l <> []) /\
  (best = StatusOK <-> StatusOK ∈ l) /\
  (best = StatusDown <-> forall s, s ∈ l -> s = StatusDown).
Proof.
  unfold betterFoldAnchors.
  pose proof (betterFoldAnchors_fold net (h ← hosts; a ← anchors; [(h, a)]) StatusDown "" false) as H.
  destruct (foldl _ _ _) as [[b bl] k]. destruct H as [-> ->]; [done| |].
  { intros h a s _. apply reachGroup_set. }
  change (omap _ _) with (anchor_reach net hosts anchors). cbn [orb].
  rewrite negb_true_iff, bool_decide_eq_false.
  destruct (Better_fold (anchor_reach net hosts anchors) StatusDown) as [H1 H2]; [|done|].
  { intros t (h & a & _ & _ & E)%elem_of_anchor_reach. by eapply reachGroup_set. }
  split; [done|]. split; [rewrite H1|rewrite H2]; naive_solver.
Qed.

(** When [computeUnreachable] has a row for an endpoint. *)
Definition unreachable (g : Graph) (m : reachModel) (alive : gmap string (list string))
    (statuses : gmap string Status) (ep : Endpoint) : Prop :=
  let l := anchor_reach (Some m) (dedupeStrings (alive.[ep_ServiceID ep | []]))
                        (matchingAnchors (rm_net m) ep) in
  exposed ep = true /\ is_Some (g_Services g !! ep_ServiceID ep) /\
  statuses.[ep_ServiceID ep | StatusUnset] <> StatusDown /\ l <> [] /\ StatusOK ∉ l.

Lemma endpoint_reach_some g m alive statuses ep :
  unreachable g m alive statuses ep <-> is_Some (endpoint_reach g m alive statuses ep).1.
Proof.
  unfold unreachable, endpoint_reach.
  set (hosts := dedupeStrings _). set (anchors := matchingAnchors _ _).
  destruct (exposed ep); cbn [negb]; [|split; [intros (? & _)|intros [? ?]]; done].
  destruct (g_Services g !! ep_ServiceID ep) as [svc|];
    [|split; [intros (_ & [? ?] & _)|intros [? ?]]; done].
  assert (Hnil : length anchors = 0 \/ hosts = [] -> anchor_reach (Some m) hosts anchors = []).
  { intros H. apply elem_of_nil_inv. intros s (h & a & Hh & Ha & _)%elem_of_anchor_reach.
    destruct H as [H|H]; [apply nil_length_inv in H|]; rewrite H in *; set_solver. }
  case_decide as Hd; [split; [intros (_ & _ & ? & _)|intros [? ?]]; done|].
  case_decide as Ha; [split; [intros (_ & _ & _ & H & _); destruct H; auto|intros [? ?]; done]|].
  case_decide as Hh; [split; [intros (_ & _ & _ & H & _); destruct H; auto|intros [? ?]; done]|].
  pose proof (betterFoldAnchors_spec (Some m) hosts anchors) as H.
  destruct (betterFoldAnchors (Some m) hosts anchors) as [[r bl] k]. destruct H as (Hk & Ho & _).
  assert (Hc : negb k || bool_decide (r = StatusOK) = true <-> k = false \/ r = StatusOK).
  { rewrite orb_true_iff, negb_true_iff, bool_decide_eq_true. done. }
  destruct (negb k || bool_decide (r = StatusOK)); cbn [fst].
  - split; [|intros [? ?]; done]. intros (_ & _ & _ & H1 & H2).
    destruct Hc as [[->| ->] _]; [done| |]; naive_solver.
  - split; [eauto|]. intros _. destruct k; [|naive_solver].
    split_and!; [done|eauto|done|by apply Hk|]. rewrite <- Ho. naive_solver.
Qed.

(** What a row says of its endpoint. *)
Lemma endpoint_reach_row g m alive statuses ep u :
  (endpoint_reach g m alive statuses ep).1 = Some u ->
  er_ServiceID u = ep_ServiceID ep /\ er_EndpointID u = ep_ID ep /\
  er_Scope u = ep_Exposure ep /\
  (er_Status u = StatusDown <->
   forall s, s ∈ anchor_reach (Some m) (dedupeStrings (alive.[ep_ServiceID ep | []]))
                   (matchingAnchors (rm_net m) ep) -> s = StatusDown).
Proof.
  unfold endpoint_reach. set (hosts := dedupeStrings _). set (anchors := matchingAnchors _ _).
  destruct (exposed ep); cbn [negb]; [|done].
  destruct (g_Services g !! ep_ServiceID ep) as [svc|]; [|done].
  case_decide; [done|]. case_decide; [done|]. case_decide; [done|].
  pose proof (betterFoldAnchors_spec (Some m) hosts anchors) as Hs.
  destruct (betterFoldAnchors (Some m) hosts anchors) as [[r bl] k]. destruct Hs as (_ & _ & Hd).
  destruct (negb k || bool_decide (r = StatusOK)); [done|].
  by intros [= <-].
Qed.

(** A row never carries the zero status. *)
Lemma Better_fold_set l s :
  (forall t, t ∈ l -> t <> StatusUnset) -> s <> StatusUnset -> foldl Better s l <> StatusUnset.
Proof.
  revert s. induction l as [|t l IH]; intros s Hl Hs; [done|]. cbn [foldl].
  apply IH; [set_solver|]. assert (t <> StatusUnset) by (apply Hl; left).
  unfold Better. by case_match.
Qed.

Lemma endpoint_reach_set g m alive statuses ep u :
  (endpoint_reach g m alive statuses ep).1 = Some u -> er_Status u <> StatusUnset.
Proof.
  unfold endpoint_reach. destruct (exposed ep); cbn [negb]; [|done].
  destruct (g_Services g !! ep_ServiceID ep) as [svc|]; [|done].
  case_decide; [done|]. case_decide; [done|]. case_decide; [done|].
  unfold betterFoldAnchors.
  match goal with |- context [foldl ?f ?a ?l] =>
    pose proof (betterFoldAnchors_fold (Some m) l StatusDown "" false) as H' end.
  destruct (foldl _ _ _) as [[r bl] k]. destruct H' as [-> _]; [done| |].
  { intros h a s _. apply reachGroup_set. }
  destruct (negb k || _); [done|]. intros [= <-]. cbn [er_Status].
  apply Better_fold_set; [|done]. intros t (ha & _ & Ht)%list_elem_of_omap.
  exact (reachGroup_set (Some m) ha.1 (anc_GroupID ha.2) PlaneData t Ht).
Qed.

(** ** Exposure *)

Lemma endpoints_by_id_perm g : endpoints_by_id g ≡ₚ snd <$> map_to_list (g_Endpoints g).
Proof. unfold endpoints_by_id. by rewrite isort_perm. Qed.

Lemma elem_of_unreachable g m alive statuses u :
  u ∈ (computeUnreachable g (Some m) alive statuses).1 <->
  exists id ep, g_Endpoints g !! id = Some ep /\ (endpoint_reach g m alive statuses ep).1 = Some u.
Proof.
  unfold computeUnreachable. cbn [fst]. rewrite elem_of_isort, list_elem_of_omap.
  setoid_rewrite list_elem_of_fmap. setoid_rewrite endpoints_by_id_perm.
  setoid_rewrite list_elem_of_fmap. setoid_rewrite <- elem_of_map_to_list. split.
  - intros (r & (ep & -> & [id e] & -> & H) & E). eauto.
  - intros (id & ep & H & E). eexists. split; [|done]. exists ep. split; [done|].
    by exists (id, ep).
Qed.

(** The rows about a service are the rows of its exposed endpoints. *)
Lemma rows_of_unreachable g m alive statuses svcID :
  rows_of (computeUnreachable g (Some m) alive statuses).1 svcID ≡ₚ
  omap (fun ep => (endpoint_reach g m alive statuses ep).1) (exposed_endpoints g svcID).
Proof.
  unfold rows_of, computeUnreachable. cbn [fst].
  rewrite (bool_filter_perm _ _ _ (isort_perm _ _)).
  unfold exposed_endpoints, endpoints_of.
  set (E := snd <$> map_to_list (g_Endpoints g)).
  assert (H : omap fst (endpoint_reach g m alive statuses <$> endpoints_by_id g) ≡ₚ
              omap (fun ep => (endpoint_reach g m alive statuses ep).1) E).
  { rewrite endpoints_by_id_perm. fold E. clear. induction E as [|ep E IH]; [done|].
    cbn. destruct (endpoint_reach g m alive statuses ep).1; by rewrite IH. }
  rewrite (bool_filter_perm _ _ _ H).
  rewrite (bool_filter_omap _ _ (fun ep => bool_decide (ep_ServiceID ep = svcID))).
  2:{ intros ep u (Hu & _)%endpoint_reach_row. by rewrite Hu. }
  generalize (List.filter (fun ep => bool_decide (ep_ServiceID ep = svcID)) E). clear.
  intros l. induction l as [|ep l IH]; [done|]. cbn [List.filter].
  destruct (exposed ep) eqn:Ex; cbn [omap list_omap]; [by case_match; rewrite IH|].
  assert (endpoint_reach g m alive statuses ep = (None, None)) as ->; [|done].
  unfold endpoint_reach. by rewrite Ex.
Qed.

Lemma exposure_ids_spec g unreach existing id :
  id ∈ exposure_ids g unreach existing <->
  exposed_endpoints g id <> [] /\ (id ∉ existing) /\
  length (rows_of unreach id) = length (exposed_endpoints g id).
Proof.
  unfold exposure_ids. rewrite elem_of_isort, elem_of_bool_filter, elem_of_first_occurrences.
  rewrite !andb_true_iff, Nat.ltb_lt, Nat.eqb_eq, bool_decide_eq_true.
  destruct (exposed_endpoints g id) as [|ep l] eqn:E; cbn [length]; [split; [lia|naive_solver]|].
  assert (id ∈ ep_ServiceID <$> (snd <$> map_to_list (g_Endpoints g))).
  { assert (Hin : ep ∈ exposed_endpoints g id) by (rewrite E; left).
    unfold exposed_endpoints, endpoints_of in Hin. rewrite !elem_of_bool_filter in Hin.
    destruct Hin as [[Hin <-%bool_decide_eq_true] _]. by apply list_elem_of_fmap_2. }
  split; [|set_solver by lia]. intros [_ [[_ ?] ?]]. done.
Qed.

Lemma exposure_impact_spec g unreach id im :
  exposure_impact g unreach id = Some im ->
  im_ServiceID im = id /\ im_Cause im = CauseExposure /\ im_Via im = "" /\
  is_Some (g_Services g !! id) /\
  exists u, u ∈ rows_of unreach id /\ im_Reason im = exposure_reason u /\
    im_Status im ∈ er_Status <$> rows_of unreach id.
Proof.
  unfold exposure_impact. destruct (g_Services g !! id) as [svc|]; cbn [mbind option_bind]; [|done].
  destruct (rows_of unreach id) as [|u us]; [done|]. intros [= <-]. cbn.
  split_and!; [done..|eauto|]. exists u. split; [left|]. split; [done|].
  generalize (er_Status u). induction us as [|v us IH]; intros s; cbn; [left|].
  destruct (Worse_cases s (er_Status v)) as [-> | ->].
  - specialize (IH s). set_solver.
  - specialize (IH (er_Status v)). set_solver.
Qed.

(** ** Isolation report *)

Lemma elem_of_computeIsolated g m r :
  r ∈ computeIsolated g (Some m) <->
  exists id p, r = isolation_row m id p /\ id ∈ candidateAssets g (Some (rm_net m)) /\
    (id ∉ rm_down m) /\ p ∈ planes /\ isolated (Some m) id p = true.
Proof.
  unfold computeIsolated. rewrite list_elem_of_bind. split.
  - intros (id & Hr & Hid). apply list_elem_of_fmap in Hr as (p & -> & Hp).
    apply elem_of_bool_filter in Hp as [Hp Hi].
    apply elem_of_bool_filter in Hid as [Hid Hd%bool_decide_eq_true]. by exists id, p.
  - intros (id & p & -> & Hid & Hd & Hp & Hi). exists id. split.
    + apply list_elem_of_fmap_2. by apply elem_of_bool_filter.
    + apply elem_of_bool_filter. by rewrite bool_decide_eq_true.
Qed.

(** * Properties *)

(** A service is exempt from network loss exactly when it has at least one
    endpoint, every endpoint of its own is on loopback or a socket, and every
    dependency it has that is not retired resolves to such an endpoint. A pure
    consumer, which has no endpoint, is never exempt. *)
Theorem computeNeedsNet_spec g svcID :
  computeNeedsNet g !! svcID = Some false <->
  is_Some (g_Services g !! svcID) /\
  (exists id ep, g_Endpoints g !! id = Some ep /\ ep_ServiceID ep = svcID) /\
  (forall id ep, g_Endpoints g !! id = Some ep -> ep_ServiceID ep = svcID ->
     isLocalBind (ep_BindScope ep) = true) /\
  (forall d, d ∈ g_Deps g -> dep_ConsumerServiceID d = svcID ->
     dep_Lifecycle d <> LifecycleRetired ->
     exists pep, providerEndpointForDep g d = Some pep /\ isLocalBind (ep_BindScope pep) = true).
Proof.
  unfold computeNeedsNet. rewrite map_lookup_imap.
  destruct (g_Services g !! svcID) as [svc|]; cbn [mbind option_bind];
    [|split; [done|intros [[? ?] _]; done]].
  transitivity (service_needs_net g svcID = false); [split; congruence|].
  rewrite service_needs_net_false.
  setoid_rewrite dep_is_local_true. setoid_rewrite elem_of_deps_of.
  assert (Hne : endpoints_of g svcID <> [] <-> exists ep, ep ∈ endpoints_of g svcID).
  { destruct (endpoints_of g svcID); set_solver. }
  rewrite Hne. setoid_rewrite elem_of_endpoints_of. naive_solver.
Qed.

(** The fold over host pairs. The verdict is unknown exactly when no pair's
    reach is known; down exactly when some is known and every known one is down;
    ok exactly when some is known and every consumer host that knows a provider
    fully reaches one. Otherwise it is degraded. *)
Theorem aggregateReach_spec net cs ps :
  let known s := exists c p, c ∈ cs /\ p ∈ ps /\ reach net c p PlaneData = Some s in
  let served c := (exists p, p ∈ ps /\ is_Some (reach net c p PlaneData)) ->
                  exists p, p ∈ ps /\ reach net c p PlaneData = Some StatusOK in
  (aggregateReach net cs ps = reachUnknown <-> forall s, ~ known s) /\
  (aggregateReach net cs ps = reachDown <->
     (exists s, known s) /\ forall s, known s -> s = StatusDown) /\
  (aggregateReach net cs ps = reachOK <->
     (exists s, known s) /\ forall c, c ∈ cs -> served c).
Proof.
  intros known served. destruct (aggregateReach_cases net cs ps) as (H1 & H2 & H3).
  split_and!; [rewrite H1; naive_solver|exact H2|]. rewrite H3.
  assert (Hh : ~ consumer_hurt net cs ps <-> forall c, c ∈ cs -> served c); [|by rewrite Hh].
  assert (Hkn : forall c, known_reach net ps c <> [] <->
                  exists p, p ∈ ps /\ is_Some (reach net c p PlaneData)).
  { intros c. transitivity (exists s, s ∈ known_reach net ps c).
    - destruct (known_reach net ps c); set_solver.
    - setoid_rewrite elem_of_known_reach. split; [intros (s & p & ? & ?); eauto|].
      intros (p & ? & [s ?]). eauto. }
  unfold consumer_hurt, served. setoid_rewrite Hkn. setoid_rewrite elem_of_known_reach. split.
  - intros H c Hc Hp. destruct (decide (StatusOK ∈ known_reach net ps c)) as [Hok|Hno].
    + by apply elem_of_known_reach.
    + destruct H. exists c. split_and!; [done..|]. by rewrite <- elem_of_known_reach.
  - intros H (c & Hc & Hp & Hno). apply Hno. by apply H.
Qed.

(** A dependency is declared cut only on evidence. Under distinct ids, its
    verdict is down exactly when it is not retired, its provider resolves to an
    endpoint that is neither local nor a service address of the consumer's own
    cluster, there is a network model, some pair of an alive consumer host and a
    provider host has a known path, and no known path survives. *)
Theorem computeDepReach_down g net alive d :
  NoDup (dep_ID <$> g_Deps g) -> d ∈ g_Deps g ->
  (computeDepReach g net alive).1 !! dep_ID d = Some reachDown <->
  dep_Lifecycle d <> LifecycleRetired /\
  exists pep, providerEndpointForDep g d = Some pep /\
    isLocalBind (ep_BindScope pep) = false /\ same_cluster g pep d = false /\
    is_Some net /\
    let cs := dedupeStrings (alive.[dep_ConsumerServiceID d | []]) in
    let ps := dedupeStrings (reachHosts g net pep alive).1 in
    (exists s, known_pair net cs ps s) /\ forall s, known_pair net cs ps s -> s = StatusDown.
Proof. intros Hnd Hin. rewrite computeDepReach_lookup by done. apply dep_reach_down. Qed.

Lemma computeDepReach_down_witness :
  exists pep, providerEndpointForDep net_graph (edge "web" "db" NatureHard) = Some pep.
Proof.
  destruct (proj1 (computeDepReach_down net_graph (Some (demo_model {["sw2"]})) net_alive
    (edge "web" "db" NatureHard) ltac:(repeat constructor; set_solver) ltac:(left))) as (_ & pep & H & _).
  - vm_compute. reflexivity.
  - by exists pep.
Defined.

(** An endpoint is reported unreachable exactly when it is published, its
    service is known and not already down, some alive host of it has a known
    path to an anchor of its scope, and none of the known paths is healthy; the
    row says down exactly when all of them are down. *)
Theorem computeUnreachable_spec g m alive statuses u :
  u ∈ (computeUnreachable g (Some m) alive statuses).1 ->
  exists id ep, g_Endpoints g !! id = Some ep /\ er_EndpointID u = ep_ID ep /\
    unreachable g m alive statuses ep /\
    (er_Status u = StatusDown <->
     forall s, s ∈ anchor_reach (Some m) (dedupeStrings (alive.[ep_ServiceID ep | []]))
                     (matchingAnchors (rm_net m) ep) -> s = StatusDown).
Proof.
  intros (id & ep & He & Hu)%elem_of_unreachable. exists id, ep.
  pose proof (endpoint_reach_row _ _ _ _ _ _ Hu) as (_ & Hid & _ & Hst).
  split_and!; try done. apply endpoint_reach_some. eauto.
Qed.

Lemma computeUnreachable_spec_witness :
  exists u, u ∈ (computeUnreachable net_graph (Some (demo_model {["sw2"]})) net_alive ∅).1 /\
    exists ep, unreachable net_graph (demo_model {["sw2"]}) net_alive ∅ ep.
Proof.
  exists {| er_ServiceID := "web"; er_Code := "web"; er_Name := "web"; er_EndpointID := "web";
            er_EndpointName := "web"; er_Scope := "public"; er_Status := StatusDown;
            er_BlockingGroup := "edge" |}.
  assert (H : (computeUnreachable net_graph (Some (demo_model {["sw2"]})) net_alive ∅).1 =
    [{| er_ServiceID := "web"; er_Code := "web"; er_Name := "web"; er_EndpointID := "web";
        er_EndpointName := "web"; er_Scope := "public"; er_Status := StatusDown;
        er_BlockingGroup := "edge" |}]) by (vm_compute; reflexivity).
  split; [rewrite H; left|].
  destruct (computeUnreachable_spec net_graph (demo_model {["sw2"]}) net_alive ∅
    {| er_ServiceID := "web"; er_Code := "web"; er_Name := "web"; er_EndpointID := "web";
       er_EndpointName := "web"; er_Scope := "public"; er_Status := StatusDown;
       er_BlockingGroup := "edge" |}) as (id & ep & _ & _ & Hu & _); [rewrite H; left|].
  by exists ep.
Defined.

(** A service is reported as exposure-impacted only when it is not reported
    already and every one of its published endpoints, of which there is at least
    one, is unreachable; such a service is never down. *)
Lemma computeExposureImpacts_total g m alive statuses existing im :
  im ∈ computeExposureImpacts g (computeUnreachable g (Some m) alive statuses).1 existing ->
  im_Cause im = CauseExposure /\ (im_ServiceID im ∉ existing) /\
  statuses.[im_ServiceID im | StatusUnset] <> StatusDown /\
  exposed_endpoints g (im_ServiceID im) <> [] /\
  forall ep, ep ∈ exposed_endpoints g (im_ServiceID im) -> unreachable g m alive statuses ep.
Proof.
  unfold computeExposureImpacts. destruct (computeUnreachable _ _ _ _).1 eqn:E;
    [by intros ?%elem_of_nil|rewrite <- E]. clear E.
  intros (id & Hid & Him)%list_elem_of_omap.
  apply exposure_ids_spec in Hid as (Hne & Hex & Hlen).
  apply exposure_impact_spec in Him as (-> & Hc & _).
  assert (Hall : forall ep, ep ∈ exposed_endpoints g id -> unreachable g m alive statuses ep).
  { intros ep Hep. apply endpoint_reach_some.
    rewrite rows_of_unreachable in Hlen.
    by apply (omap_length_full (fun ep => (endpoint_reach g m alive statuses ep).1) _ _ Hlen). }
  split_and!; try done. destruct (exposed_endpoints g id) as [|ep eps] eqn:E; [done|].
  assert (Hep : ep ∈ ep :: eps) by left. pose proof (Hall ep Hep) as (_ & _ & Hs & _).
  rewrite <- E in Hep. unfold exposed_endpoints in Hep.
  apply elem_of_bool_filter in Hep as [[<- _]%elem_of_endpoints_of _]. done.
Qed.

Lemma computeExposureImpacts_total_witness :
  exists im, im ∈ computeExposureImpacts net_graph
    (computeUnreachable net_graph (Some (demo_model {["sw2"]})) net_alive ∅).1 ∅ /\
  im_Cause im = CauseExposure.
Proof.
  set (l := computeExposureImpacts _ _ _).
  assert (H : exists im, l = [im]) by (eexists; vm_compute; reflexivity).
  destruct H as [im H]. exists im. assert (Hin : im ∈ l) by (rewrite H; left).
  split; [exact Hin|].
  apply (computeExposureImpacts_total net_graph (demo_model {["sw2"]}) net_alive ∅ ∅ im Hin).
Defined.

(** The isolation report lists each surviving asset the analysis knows, with
    each plane it is cut off on, and no others: an asset inside the outage is
    off, not isolated. *)
Lemma computeIsolated_spec g m id p :
  (exists r, r ∈ computeIsolated g (Some m) /\ ai_AssetID r = id /\ ai_Plane r = p) <->
  id ∈ candidateAssets g (Some (rm_net m)) /\ (id ∉ rm_down m) /\ p ∈ planes /\
  isolated (Some m) id p = true.
Proof.
  setoid_rewrite elem_of_computeIsolated. split.
  - intros (r & (id' & p' & -> & ?) & <- & <-). done.
  - intros H. exists (isolation_row m id p). split; [by exists id, p|done].
Qed.
