(* ===== verification/Order.v ===== *)
(** Shutdown order and dependency cycles: [shutdownOrder], [detectCycles] and
    [cycleKey] of [internal/impact/engine.go].

    Both functions run the same three-colour depth-first walk over an adjacency
    of affected services, [Walk] and [visit] here. The recursion of Go's
    closure has no structural measure, so [visit] takes fuel; a walk never needs
    more than one unit per unvisited service, and the callers pass one more than
    there are services. *)
From Stdlib Require Import String ZArith Lia.
From stdpp Require Import base gmap strings list.
From S2P Require Import Prelude Status Dependency Graph Fixtures.

#[local] Open Scope string_scope.
#[local] Open Scope list_scope.
#[local] Open Scope nat_scope.

(** * Definitions *)

Inductive Colour := white | grey | black.

(** What the closures of the two functions share: [colour], [path], [order] and
    [cycles], the last one before naming. *)
Record Walk := {
  wk_colour : gmap string Colour;
  wk_path : list string;
  wk_order : list string;
  wk_cycles : list (list string)
}.

Definition empty_walk : Walk :=
  {| wk_colour := ∅; wk_path := []; wk_order := []; wk_cycles := [] |}.

(** [path[i:]] from the first occurrence of [node]. *)
Fixpoint from_first (node : string) (path : list string) : list string :=
  match path with
  | [] => []
  | n :: path' => if decide (n = node) then path else from_first node path'
  end.

(** The [grey] case: a back edge closes a cycle. *)
Definition back_edge (node : string) (w : Walk) : Walk :=
  match from_first node (wk_path w) with
  | [] => w
  | cycle => {| wk_colour := wk_colour w; wk_path := wk_path w; wk_order := wk_order w;
                wk_cycles := wk_cycles w ++ [cycle ++ [node]] |}
  end.

(** Colouring a node grey and pushing it on the path. *)
Definition enter (node : string) (w : Walk) : Walk :=
  {| wk_colour := <[node := grey]> (wk_colour w); wk_path := wk_path w ++ [node];
     wk_order := wk_order w; wk_cycles := wk_cycles w |}.

(** Popping the path and finishing the node. *)
Definition leave (node : string) (w : Walk) : Walk :=
  {| wk_colour := <[node := black]> (wk_colour w); wk_path := removelast (wk_path w);
     wk_order := wk_order w ++ [node]; wk_cycles := wk_cycles w |}.

(** [visit]; [None] when the fuel runs out. *)
Fixpoint visit (next : string -> list string) (fuel : nat) (node : string) (w : Walk)
    : option Walk :=
  match fuel with
  | O => None
  | S fuel' =>
      match (wk_colour w).[node | white] with
      | grey => Some (back_edge node w)
      | black => Some w
      | white =>
          w' ← foldl (fun acc provider => w ← acc; visit next fuel' provider w)
                     (Some (enter node w)) (next node);
          Some (leave node w')
      end
  end.

(** [for _, node := range nodes { visit(node) }] *)
Definition visit_all (next : string -> list string) (fuel : nat) (nodes : list string)
    (w : Walk) : option Walk :=
  foldl (fun acc node => w ← acc; visit next fuel node w) (Some w) nodes.

(** ** The adjacency *)

(** The edge a dependency contributes: an unretired one, [hard] when asked for,
    that joins two different affected services. *)
Definition walk_edge (g : Graph) (affected : gset string) (hard_only : bool)
    (dep : Dependency) : option (string * string) :=
  if (hard_only && bool_decide (dep_Nature dep <> NatureHard))
     || bool_decide (dep_Lifecycle dep = LifecycleRetired) then None
  else
    let consumer := dep_ConsumerServiceID dep in
    let provider := providerServiceID g dep in
    if bool_decide (provider = "") || bool_decide (provider = consumer) then None
    else if bool_decide (consumer ∉ affected) || bool_decide (provider ∉ affected) then None
    else Some (consumer, provider).

(** The [providers] map. *)
Definition providers_map (g : Graph) (affected : gset string) (hard_only : bool)
    : gmap string (list string) :=
  foldl (fun (m : gmap string (list string)) dep =>
           match walk_edge g affected hard_only dep with
           | Some (consumer, provider) => <[consumer := m.[consumer | []] ++ [provider]]> m
           | None => m
           end) ∅ (g_Deps g).

Definition code_less (g : Graph) (a b : string) : bool := str_ltb (codeOf g a) (codeOf g b).

(** A node's providers, by code. *)
Definition next_providers (g : Graph) (affected : gset string) (hard_only : bool)
    (node : string) : list string :=
  isort (code_less g) ((providers_map g affected hard_only).[node | []]).

(** The affected services, by code. *)
Definition walk_nodes (g : Graph) (affected : gset string) : list string :=
  isort (code_less g) (elements affected).

(** The whole walk. *)
Definition walk (g : Graph) (affected : gset string) (hard_only : bool) : option Walk :=
  visit_all (next_providers g affected hard_only) (S (size affected))
            (walk_nodes g affected) empty_walk.

(** A cycle by its codes. *)
Definition named (g : Graph) (cycle : list string) : list string := codeOf g <$> cycle.

(** [shutdownOrder] *)
Definition shutdownOrder (g : Graph) (affected : gset string)
    : list string * list (list string) :=
  match walk g affected true with
  | Some w => (codeOf g <$> reverse (wk_order w), named g <$> wk_cycles w)
  | None => ([], [])
  end.

(** ** Cycles *)

(** [minIdx]: the first index of the least name. *)
Definition min_index (ring : list string) : nat :=
  foldl (fun minIdx '(i, n) => if str_ltb n (ring !!! minIdx) then i else minIdx)
        0 (zip (seq 0 (length ring)) ring).

(** [ring[(minIdx+i)%len(ring)]] for every [i]. *)
Definition rotated (ring : list string) (minIdx : nat) : list string :=
  (fun i => ring !!! ((minIdx + i) mod length ring)) <$> seq 0 (length ring).

(** [strings.Join(names, ">")] *)
Definition join_names (names : list string) : string := String.concat ">" names.

(** [cycleKey] *)
Definition cycleKey (names : list string) : string :=
  if length names <? 2 then join_names names
  else let ring := removelast names in join_names (rotated ring (min_index ring)).

(** One cycle of [detectCycles]: reported unless its key was seen. *)
Definition report_cycle (acc : gset string * list (list string)) (names : list string)
    : gset string * list (list string) :=
  let key := cycleKey names in
  if decide (key ∈ acc.1) then acc else ({[key]} ∪ acc.1, acc.2 ++ [names]).

(** [detectCycles]; reporting a cycle does not steer the walk, so the [seen]
    filter runs over the cycles in the order the walk closes them. *)
Definition detectCycles (g : Graph) (affected : gset string) : list (list string) :=
  match walk g affected false with
  | Some w => (foldl report_cycle (∅, []) (named g <$> wk_cycles w)).2
  | None => []
  end.

(** * What the walk maintains *)

(** Consecutive elements are joined by edges. *)
Definition chain (next : string -> list string) (l : list string) : Prop :=
  forall l1 x y l2, l = l1 ++ x :: y :: l2 -> y ∈ next x.

(** A closed walk through distinct nodes. *)
Definition closed_walk (next : string -> list string) (c : list string) : Prop :=
  chain next c /\ exists n l, c = n :: l ++ [n] /\ NoDup (n :: l).

(** [x] occurs before [y]. *)
Definition before {A} (x y : A) (l : list A) : Prop :=
  exists l1 l2 l3, l = l1 ++ x :: l2 ++ y :: l3.

(** Some cycle ends with the edge from [u] to [v]. *)
Definition closing (u v : string) (cycles : list (list string)) : Prop :=
  exists l, (l ++ [u; v]) ∈ cycles.

Section WalkInvariant.
Context (next : string -> list string) (U : gset string).

Record walk_ok (w : Walk) : Prop := {
  wo_grey : forall n, (wk_colour w).[n | white] = grey <-> n ∈ wk_path w;
  wo_black : forall n, (wk_colour w).[n | white] = black <-> n ∈ wk_order w;
  wo_path : NoDup (wk_path w);
  wo_order : NoDup (wk_order w);
  wo_universe : forall n, n ∈ wk_path w \/ n ∈ wk_order w -> n ∈ U;
  wo_chain : chain next (wk_path w);
  wo_edges : forall u v, u ∈ wk_order w -> v ∈ next u ->
               before v u (wk_order w) \/ closing u v (wk_cycles w);
  wo_cycles : forall c, c ∈ wk_cycles w -> closed_walk next c
}.

(** The nodes of [U] not yet entered. *)
Definition unvisited (w : Walk) : gset string :=
  U ∖ list_to_set (wk_path w ++ wk_order w).

(** [w'] is [w] further on, with the same path. *)
Record walk_grew (w w' : Walk) : Prop := {
  wg_path : wk_path w' = wk_path w;
  wg_order : wk_order w `prefix_of` wk_order w';
  wg_cycles : wk_cycles w `prefix_of` wk_cycles w'
}.

(** The walk may move on to [node]. *)
Definition may_visit (w : Walk) (node : string) : Prop :=
  node ∈ U /\ forall l u, wk_path w = l ++ [u] -> node ∈ next u.

(** [node] was dealt with: finished, or the target of a recorded back edge. *)
Definition visited (w : Walk) (node : string) : Prop :=
  node ∈ wk_order w \/
  (node ∈ wk_path w /\ forall l u, wk_path w = l ++ [u] -> closing u node (wk_cycles w)).
End WalkInvariant.

(** * Lemmas *)

(** ** Chains and first occurrences *)

Lemma chain_nil next : chain next [].
Proof. intros l1 x y l2 H. by destruct l1. Qed.

Lemma chain_app_l next l l' : chain next (l ++ l') -> chain next l.
Proof. intros H l1 x y l2 ->. apply (H l1 x y (l2 ++ l')). by rewrite <- app_assoc. Qed.

Lemma chain_app_r next l l' : chain next (l ++ l') -> chain next l'.
Proof. intros H l1 x y l2 ->. apply (H (l ++ l1) x y l2). by rewrite <- app_assoc. Qed.

Lemma chain_snoc next l y :
  chain next l -> (forall l' x, l = l' ++ [x] -> y ∈ next x) -> chain next (l ++ [y]).
Proof.
  intros Hl Hy l1 a b l2. destruct l2 as [|c l2 _] using rev_ind; intros E.
  - change (l1 ++ [a; b]) with (l1 ++ [a] ++ [b]) in E. rewrite app_assoc in E.
    apply app_inj_tail in E as [-> ->]. by apply (Hy l1 a).
  - change (l1 ++ a :: b :: l2 ++ [c]) with (l1 ++ (a :: b :: l2) ++ [c]) in E.
    rewrite app_assoc in E. apply app_inj_tail in E as [-> _]. by apply (Hl l1 a b l2).
Qed.

Lemma from_first_split node path :
  node ∈ path -> exists l l', path = l ++ node :: l' /\ from_first node path = node :: l'.
Proof.
  induction path as [|n path IH]; intros H; [by apply elem_of_nil in H|]. cbn.
  case_decide as E; [subst; by exists [], path|].
  apply elem_of_cons in H as [->|H]; [done|].
  destruct (IH H) as (l & l' & -> & E'). by exists (n :: l), l'.
Qed.

Lemma before_app {A} (x y : A) l l' : before x y l -> before x y (l ++ l').
Proof.
  intros (l1 & l2 & l3 & ->). exists l1, l2, (l3 ++ l').
  by rewrite <- !app_assoc; cbn; rewrite <- app_assoc.
Qed.

Lemma before_last {A} (x y : A) l : x ∈ l -> before x y (l ++ [y]).
Proof.
  intros (l1 & l2 & ->)%list_elem_of_split. exists l1, l2, []. by rewrite <- app_assoc.
Qed.

Lemma before_elem {A} (x y : A) l : before x y l -> x ∈ l /\ y ∈ l.
Proof. intros (l1 & l2 & l3 & ->). set_solver. Qed.

Lemma before_reverse {A} (x y : A) l : before x y l -> before y x (reverse l).
Proof.
  intros (l1 & l2 & l3 & ->). exists (reverse l3), (reverse l2), (reverse l1).
  rewrite reverse_app, reverse_cons, reverse_app, reverse_cons. by rewrite <- !app_assoc.
Qed.

Lemma closing_prefix u v cs cs' : closing u v cs -> cs `prefix_of` cs' -> closing u v cs'.
Proof. intros [l H] [k ->]. exists l. set_solver. Qed.

(** ** The moves of the walk *)

Section WalkFacts.
Context (next : string -> list string) (U : gset string).
Hypothesis next_closed : forall u v, u ∈ U -> v ∈ next u -> v ∈ U.

#[local] Abbreviation ok := (walk_ok next U).
#[local] Abbreviation may := (may_visit next U).

#[local] Instance walk_grew_preorder : PreOrder walk_grew.
Proof.
  split; [by split|]. intros w1 w2 w3 [] []. split; [congruence|by etrans|by etrans].
Qed.

Lemma ok_disjoint w n : ok w -> n ∈ wk_path w -> n ∉ wk_order w.
Proof. intros Hok H1%(wo_grey _ _ _ Hok) H2%(wo_black _ _ _ Hok). congruence. Qed.

Lemma back_edge_ok w node :
  ok w -> may w node -> node ∈ wk_path w ->
  ok (back_edge node w) /\ walk_grew w (back_edge node w) /\ visited (back_edge node w) node.
Proof.
  intros Hok [HU Hnext] Hin. unfold back_edge.
  destruct (from_first_split _ _ Hin) as (l & l' & Ep & Ef). rewrite Ef. cbn zeta iota beta.
  assert (Hc : closed_walk next ((node :: l') ++ [node])).
  { split.
    - apply chain_snoc; [by apply (chain_app_r _ l); rewrite <- Ep; apply Hok|].
      intros l1 x E. apply (Hnext (l ++ l1)). by rewrite Ep, E, <- app_assoc.
    - exists node, l'. split; [done|]. pose proof (wo_path _ _ _ Hok) as Hp.
      rewrite Ep in Hp. by apply NoDup_app in Hp as (_ & _ & Hp). }
  split_and!.
  - destruct Hok. split; cbn [wk_colour wk_path wk_order wk_cycles]; try done.
    + intros u v Hu Hv. destruct (wo_edges0 u v Hu Hv) as [|[l1 H1]]; [by left|right].
      exists l1. set_solver.
    + intros c [Hc'|Hc']%elem_of_app; [by apply wo_cycles0|].
      apply list_elem_of_singleton in Hc'. by subst.
  - split; cbn; [done..|]. by eexists.
  - right. cbn. split; [done|]. intros m u E. rewrite Ep in E.
    destruct l' as [|z l' _] using rev_ind.
    + apply app_inj_tail in E as [-> ->]. exists []. cbn. set_solver.
    + change (l ++ node :: l' ++ [z]) with (l ++ (node :: l') ++ [z]) in E.
      rewrite app_assoc in E. apply app_inj_tail in E as [_ ->].
      exists (node :: l'). apply elem_of_app. right. apply list_elem_of_singleton.
      cbn. by rewrite <- app_assoc.
Qed.

Lemma enter_ok w node :
  ok w -> may w node -> node ∉ wk_path w -> node ∉ wk_order w -> ok (enter node w).
Proof.
  intros Hok [HU Hnext] Hp Ho. destruct Hok.
  assert (Hlook : forall n c, (<[node := grey]> (wk_colour w)).[n | white] = c <->
            (n = node /\ c = grey) \/ (n <> node /\ (wk_colour w).[n | white] = c)).
  { intros n c. rewrite lookup_insert. case_decide; cbn; naive_solver. }
  split; cbn [enter wk_colour wk_path wk_order wk_cycles].
  - intros n. rewrite Hlook, wo_grey0, elem_of_app, list_elem_of_singleton.
    destruct (decide (n = node)); naive_solver.
  - intros n. rewrite Hlook, wo_black0. destruct (decide (n = node)); naive_solver.
  - apply NoDup_app. split_and!; [done| |apply NoDup_singleton]. set_solver.
  - done.
  - set_solver.
  - apply chain_snoc; [done|]. eauto.
  - done.
  - done.
Qed.

Lemma leave_ok w node p :
  ok w -> wk_path w = p ++ [node] ->
  (forall v, v ∈ next node -> visited w v) -> ok (leave node w).
Proof.
  intros Hok Ep Hv.
  assert (Hno : node ∉ wk_order w) by (apply ok_disjoint; [done|rewrite Ep; set_solver]).
  pose proof (wo_path _ _ _ Hok) as Hnd. rewrite Ep in Hnd.
  apply NoDup_app in Hnd as (Hnd & Hnp & _).
  assert (node ∉ p) by (intros H; by apply (Hnp _ H), list_elem_of_singleton).
  destruct Hok. rewrite Ep in *.
  assert (Hlook : forall n c, (<[node := black]> (wk_colour w)).[n | white] = c <->
            (n = node /\ c = black) \/ (n <> node /\ (wk_colour w).[n | white] = c)).
  { intros n c. rewrite lookup_insert. case_decide; cbn; naive_solver. }
  split; cbn [leave wk_colour wk_path wk_order wk_cycles]; rewrite ?Ep, ?removelast_last.
  - intros n. rewrite Hlook, wo_grey0, elem_of_app, list_elem_of_singleton.
    destruct (decide (n = node)); naive_solver.
  - intros n. rewrite Hlook, wo_black0, elem_of_app, list_elem_of_singleton.
    destruct (decide (n = node)); naive_solver.
  - done.
  - apply NoDup_app. split_and!; [done| |apply NoDup_singleton]. set_solver.
  - set_solver.
  - by eapply chain_app_l.
  - intros u v [Hu| ->%list_elem_of_singleton]%elem_of_app Huv.
    + destruct (wo_edges0 u v Hu Huv); [left; by apply before_app|by right].
    + destruct (Hv v Huv) as [Hv'|[_ Hv']]; [left; by apply before_last|right]. by apply (Hv' p).
  - done.
Qed.

Lemma visited_grew w w' v : walk_grew w w' -> visited w v -> visited w' v.
Proof.
  intros [Hp [k Ho] Hc] [H|[H1 H2]]; [left; rewrite Ho; set_solver|right].
  rewrite Hp. split; [done|]. intros l u E. eapply closing_prefix; [by apply (H2 l)|done].
Qed.

Lemma unvisited_grew w w' : walk_grew w w' -> unvisited U w' ⊆ unvisited U w.
Proof. intros [Hp [k Ho] Hc]. unfold unvisited. rewrite Hp, Ho. set_solver. Qed.

Lemma may_grew w w' v : walk_grew w w' -> may w v -> may w' v.
Proof. intros [Hp _ _] [H1 H2]. split; [done|]. by rewrite Hp. Qed.

(** What one visit achieves. *)
Definition achieves (w : Walk) (node : string) (r : option Walk) : Prop :=
  exists w', r = Some w' /\ ok w' /\ walk_grew w w' /\ visited w' node.

(** Visiting several nodes one after the other. *)
Lemma visit_fold fuel nodes w :
  (forall w node, ok w -> may w node -> size (unvisited U w) < fuel ->
     achieves w node (visit next fuel node w)) ->
  ok w -> (forall v, v ∈ nodes -> may w v) -> size (unvisited U w) < fuel ->
  exists w', foldl (fun acc v => w ← acc; visit next fuel v w) (Some w) nodes = Some w' /\
    ok w' /\ walk_grew w w' /\ forall v, v ∈ nodes -> visited w' v.
Proof.
  intros Hvisit. revert w. induction nodes as [|v nodes IH]; intros w Hok Hmay Hf; cbn [foldl].
  { exists w. split_and!; [done|done|reflexivity|]. by intros ? ?%elem_of_nil. }
  destruct (Hvisit w v Hok) as (w1 & E1 & Hok1 & Hg1 & Hv1); [apply Hmay; left|done|].
  cbn [mbind option_bind]. rewrite E1.
  destruct (IH w1 Hok1) as (w2 & E2 & Hok2 & Hg2 & Hv2).
  { intros v' Hv'. eapply may_grew; [done|]. apply Hmay. by right. }
  { pose proof (subseteq_size _ _ (unvisited_grew _ _ Hg1)). lia. }
  exists w2. split_and!; [done|done|by etrans|].
  intros v' [->|Hv']%elem_of_cons; [by eapply visited_grew|by apply Hv2].
Qed.

(** With fuel for every node not yet entered, a visit returns, keeps the
    invariant and deals with its node. *)
Lemma visit_spec fuel w node :
  ok w -> may w node -> size (unvisited U w) < fuel -> achieves w node (visit next fuel node w).
Proof.
  revert w node. induction fuel as [|fuel IH]; intros w node Hok Hmay Hf; [lia|]. cbn [visit].
  destruct ((wk_colour w).[node | white]) eqn:Ec.
  - assert (Hp : node ∉ wk_path w) by (rewrite <- (wo_grey _ _ _ Hok); congruence).
    assert (Ho : node ∉ wk_order w) by (rewrite <- (wo_black _ _ _ Hok); congruence).
    pose proof (enter_ok _ _ Hok Hmay Hp Ho) as Hok1.
    assert (Hlt : size (unvisited U (enter node w)) < fuel).
    { assert (unvisited U (enter node w) ⊂ unvisited U w); [|].
      { unfold unvisited. cbn. destruct Hmay as [HU _]. set_solver. }
      pose proof (subset_size _ _ H). lia. }
    destruct (visit_fold fuel (next node) (enter node w) IH Hok1) as (w' & -> & Hok' & Hg & Hv).
    { intros v Hv. split; [eapply next_closed; [apply Hmay|done]|]. cbn.
      intros l u E. by apply app_inj_tail in E as [_ <-]. }
    { done. }
    cbn [mbind option_bind]. eexists. split; [done|]. destruct Hg as [Hgp Hgo Hgc].
    cbn in Hgp. split_and!; [by eapply leave_ok| |left; cbn; set_solver].
    split; cbn; [by rewrite Hgp, removelast_last| |done].
    etrans; [exact Hgo|]. by eexists.
  - apply (wo_grey _ _ _ Hok) in Ec. destruct (back_edge_ok _ _ Hok Hmay Ec) as (? & ? & ?).
    by exists (back_edge node w).
  - apply (wo_black _ _ _ Hok) in Ec. exists w. split_and!; [done|done|reflexivity|by left].
Qed.

Lemma empty_walk_ok : ok empty_walk.
Proof.
  split; cbn; try (intros; by rewrite lookup_empty); try set_solver; try constructor.
  apply chain_nil.
Qed.

(** A walk from scratch over the nodes of [U]. *)
Lemma visit_all_spec nodes :
  (forall n, n ∈ nodes <-> n ∈ U) ->
  exists w, visit_all next (S (size U)) nodes empty_walk = Some w /\ ok w /\
    wk_path w = [] /\ (forall n, n ∈ wk_order w <-> n ∈ U).
Proof.
  intros Hn. destruct (visit_fold (S (size U)) nodes empty_walk) as (w & E & Hok & Hg & Hv).
  - intros; by apply visit_spec.
  - apply empty_walk_ok.
  - intros v Hv. split; [by apply Hn|]. intros l u E. by destruct l.
  - assert (Hsub : unvisited U empty_walk ⊆ U) by (unfold unvisited; set_solver).
    apply subseteq_size in Hsub. lia.
  - destruct Hg as [Hp _ _]. cbn in Hp. exists w. split_and!; [done..|].
    intros n. split; [intros; apply (wo_universe _ _ _ Hok); by right|].
    intros H%Hn%Hv. destruct H as [|[H _]]; [done|]. rewrite Hp in H. set_solver.
Qed.
End WalkFacts.

(** ** The adjacency *)

(** [u] is an affected consumer of the affected service [v]. *)
Definition depends (g : Graph) (affected : gset string) (hard_only : bool) (u v : string) : Prop :=
  u ∈ affected /\ v ∈ affected /\ u <> v /\ v <> "" /\
  exists dep, dep ∈ g_Deps g /\ dep_ConsumerServiceID dep = u /\ providerServiceID g dep = v /\
    dep_Lifecycle dep <> LifecycleRetired /\ (hard_only = true -> dep_Nature dep = NatureHard).

Lemma walk_edge_some g affected h dep u v :
  walk_edge g affected h dep = Some (u, v) <->
  dep_ConsumerServiceID dep = u /\ providerServiceID g dep = v /\
  dep_Lifecycle dep <> LifecycleRetired /\ (h = true -> dep_Nature dep = NatureHard) /\
  u ∈ affected /\ v ∈ affected /\ u <> v /\ v <> "".
Proof.
  unfold walk_edge.
  destruct ((h && _) || _) eqn:E1.
  { split; [done|]. intros (_ & _ & Hl & Hn & _).
    apply orb_true_iff in E1 as [[Hh Hd]%andb_true_iff|Hd]; apply bool_decide_eq_true in Hd; naive_solver. }
  apply orb_false_iff in E1 as [E1 Hl%bool_decide_eq_false].
  destruct (bool_decide (_ = "") || _) eqn:E2.
  { split; [done|]. intros (<- & <- & _ & _ & _ & _ & H1 & H2).
    apply orb_true_iff in E2 as [H%bool_decide_eq_true|H%bool_decide_eq_true]; congruence. }
  apply orb_false_iff in E2 as [He%bool_decide_eq_false Hc%bool_decide_eq_false].
  destruct (bool_decide (_ ∉ affected) || _) eqn:E3.
  { split; [done|]. intros (<- & <- & _ & _ & H1 & H2 & _).
    apply orb_true_iff in E3 as [H%bool_decide_eq_true|H%bool_decide_eq_true]; done. }
  apply orb_false_iff in E3 as [Ha%bool_decide_eq_false Hb%bool_decide_eq_false].
  apply dec_stable in Ha, Hb.
  assert (Hh : h = true -> dep_Nature dep = NatureHard).
  { intros ->. cbn in E1. apply bool_decide_eq_false in E1. by apply dec_stable. }
  split; [intros [= <- <-]; split_and!; done || congruence|].
  by intros (<- & <- & _).
Qed.

Lemma elem_of_providers g affected h u v :
  v ∈ (providers_map g affected h).[u | []] <-> depends g affected h u v.
Proof.
  transitivity (exists dep, dep ∈ g_Deps g /\ walk_edge g affected h dep = Some (u, v)).
  - unfold providers_map.
    assert (H : forall ds (m : gmap string (list string)),
      v ∈ (foldl (fun (m : gmap string (list string)) dep =>
             match walk_edge g affected h dep with
             | Some (consumer, provider) => <[consumer := m.[consumer | []] ++ [provider]]> m
             | None => m
             end) m ds).[u | []] <->
      v ∈ m.[u | []] \/ exists dep, dep ∈ ds /\ walk_edge g affected h dep = Some (u, v)).
    { induction ds as [|d ds IH]; intros m; cbn [foldl]; [set_solver|]. rewrite IH.
      setoid_rewrite elem_of_cons.
      destruct (walk_edge g affected h d) as [[c p]|] eqn:E; [|naive_solver].
      rewrite lookup_insert. case_decide as Hc; [subst|naive_solver].
      cbn. rewrite elem_of_app, list_elem_of_singleton. naive_solver. }
    rewrite H. cbn. rewrite lookup_empty. cbn. set_solver.
  - setoid_rewrite walk_edge_some. unfold depends. naive_solver.
Qed.

Lemma elem_of_next_providers g affected h u v :
  v ∈ next_providers g affected h u <-> depends g affected h u v.
Proof. unfold next_providers. by rewrite elem_of_isort, elem_of_providers. Qed.

(** The walk of an estate always returns. *)
Lemma walk_spec g affected h :
  exists w, walk g affected h = Some w /\
    walk_ok (next_providers g affected h) affected w /\ wk_path w = [] /\
    (forall n, n ∈ wk_order w <-> n ∈ affected).
Proof.
  apply visit_all_spec.
  - intros u v Hu Hv%elem_of_next_providers. by destruct Hv as (_ & ? & _).
  - intros n. unfold walk_nodes. by rewrite elem_of_isort, elem_of_elements.
Qed.

(** ** Acyclicity *)

(** A closed walk along dependencies, its first service repeated at its end. *)
Definition cycle_of (g : Graph) (affected : gset string) (hard_only : bool)
    (c : list string) : Prop :=
  (exists n l, c = n :: l ++ [n]) /\
  forall l1 x y l2, c = l1 ++ x :: y :: l2 -> depends g affected hard_only x y.

Lemma chain_depends g affected h c :
  chain (next_providers g affected h) c <->
  forall l1 x y l2, c = l1 ++ x :: y :: l2 -> depends g affected h x y.
Proof. unfold chain. by setoid_rewrite elem_of_next_providers. Qed.

Lemma before_index {A} (x y : A) l : before x y l -> exists i j, i < j /\ l !! i = Some x /\ l !! j = Some y.
Proof.
  intros (l1 & l2 & l3 & ->). exists (length l1), (length (l1 ++ x :: l2)). split_and!.
  - rewrite length_app. cbn. lia.
  - by rewrite lookup_app_r, Nat.sub_diag by lia.
  - change (l1 ++ x :: l2 ++ y :: l3) with (l1 ++ (x :: l2) ++ y :: l3).
    rewrite app_assoc, lookup_app_r by lia. by rewrite Nat.sub_diag.
Qed.

Lemma nodup_index {A} (l : list A) i j x : NoDup l -> l !! i = Some x -> l !! j = Some x -> i = j.
Proof. intros H Hi Hj. by eapply NoDup_lookup. Qed.

(** Along a chain whose edges a list respects, positions increase. *)
Lemma chain_increases next (l : list string) c n m :
  NoDup l -> (forall x y, y ∈ next x -> before x y l) ->
  chain next (n :: c ++ [m]) -> exists i j, i < j /\ l !! i = Some n /\ l !! j = Some m.
Proof.
  intros Hn Hb. revert n. induction c as [|k c IH]; intros n Hc.
  - apply before_index, Hb. by apply (Hc [] n m []).
  - destruct (before_index n k l) as (i & j & Hij & Hi & Hj).
    { apply Hb. by apply (Hc [] n k (c ++ [m])). }
    destruct (IH k) as (j' & e & He & Hj' & Hee).
    { by apply (chain_app_r _ [n]). }
    assert (j = j') as -> by (by eapply nodup_index). exists i, e. split_and!; [lia|done|done].
Qed.

(** No recorded cycle exactly when there is none to record. *)
Lemma walk_cycles_nil g affected h w :
  walk g affected h = Some w -> wk_cycles w = [] <-> forall c, ~ cycle_of g affected h c.
Proof.
  intros E. destruct (walk_spec g affected h) as (w' & E' & Hok & _ & Ho).
  assert (w' = w) as -> by congruence. split.
  - intros Hc c [(n & l & ->) Hd]. apply chain_depends in Hd.
    assert (Hnd : NoDup (reverse (wk_order w))) by (rewrite reverse_Permutation; apply Hok).
    destruct (chain_increases (next_providers g affected h) (reverse (wk_order w)) l n n)
      as (i & j & Hij & Hi & Hj); [done| |done|].
    + intros x y Hy. apply before_reverse.
      assert (Hx : x ∈ wk_order w) by (apply Ho; by apply elem_of_next_providers in Hy as (? & _)).
      destruct (wo_edges _ _ _ Hok x y Hx Hy) as [|[m Hm]]; [done|]. rewrite Hc in Hm. set_solver.
    + pose proof (nodup_index _ i j n Hnd Hi Hj). lia.
  - intros Hn. destruct (wk_cycles w) as [|c cs] eqn:Ec; [done|]. exfalso. apply (Hn c).
    destruct (wo_cycles _ _ _ Hok c) as [Hch (n & l & Hc & _)]; [rewrite Ec; left|].
    split; [by exists n, l|]. by apply chain_depends.
Qed.

(** ** Cycle keys *)

(** [minIdx] is the first index of the least name of the scanned prefix. *)
Lemma min_index_scan ring l pre m :
  ring = pre ++ l -> m < length ring ->
  (forall i n, i < length pre -> ring !! i = Some n -> str_ltb n (ring !!! m) = false) ->
  let m' := foldl (fun minIdx '(i, n) => if str_ltb n (ring !!! minIdx) then i else minIdx)
                  m (zip (seq (length pre) (length l)) l) in
  m' < length ring /\ forall n, n ∈ ring -> str_ltb n (ring !!! m') = false.
Proof.
  revert pre m. induction l as [|n l IH]; intros pre m E Hm Hpre; cbn.
  { split; [done|]. intros n [i Hi]%list_elem_of_lookup. apply (Hpre i); [|done].
    apply lookup_lt_Some in Hi. rewrite E, app_nil_r in Hi. done. }
  assert (Hn : ring !! length pre = Some n).
  { rewrite E. by rewrite lookup_app_r, Nat.sub_diag by lia. }
  assert (Hlen : length (pre ++ [n]) = S (length pre)) by (rewrite length_app; cbn; lia).
  rewrite <- Hlen. apply IH; [by rewrite E, <- app_assoc| |].
  - case_match; [|done]. by apply lookup_lt_Some in Hn.
  - intros i x Hi Hx. rewrite Hlen in Hi.
    destruct (str_ltb n (ring !!! m)) eqn:El.
    + rewrite (list_lookup_total_correct _ _ _ Hn).
      destruct (decide (i = length pre)) as [->|Hne].
      { assert (x = n) as -> by congruence. apply str_ltb_irrefl. }
      destruct (str_ltb x n) eqn:Ex; [|done].
      rewrite <- (Hpre i x) by (done || lia). symmetry. by eapply str_ltb_trans.
    + destruct (decide (i = length pre)) as [->|Hne]; [congruence|]. apply (Hpre i); [lia|done].
Qed.

Lemma min_index_spec ring :
  ring <> [] -> min_index ring < length ring /\
  forall n, n ∈ ring -> str_ltb n (ring !!! min_index ring) = false.
Proof.
  intros Hr. apply (min_index_scan ring ring [] 0); [done| |].
  - destruct ring; [done|]. cbn. lia.
  - intros i n Hi. cbn in Hi. lia.
Qed.

Lemma rotated_split ring p q : ring = p ++ q -> q <> [] -> rotated ring (length p) = q ++ p.
Proof.
  intros -> Hq. assert (0 < length q) by (destruct q; [done|cbn; lia]).
  assert (Hlen : length (rotated (p ++ q) (length p)) = length p + length q).
  { unfold rotated. by rewrite length_fmap, length_seq, length_app. }
  apply (list_eq_same_length _ _ _ eq_refl); [rewrite Hlen, length_app; lia|].
  intros i x y Hi Hx Hy. rewrite length_app in Hi. revert Hx. unfold rotated.
  rewrite list_lookup_fmap, length_app, lookup_seq_lt by lia. intros [= <-].
  apply list_lookup_total_correct.
  destruct (decide (i < length q)) as [Hiq|Hiq].
  - rewrite lookup_app_l in Hy by done. rewrite Nat.mod_small by lia.
    rewrite lookup_app_r by lia. by replace (length p + i - length p) with i by lia.
  - rewrite lookup_app_r in Hy by lia.
    replace (length p + i) with ((i - length q) + 1 * (length p + length q)) by lia.
    rewrite Nat.Div0.mod_add, Nat.mod_small by lia. by rewrite lookup_app_l by lia.
Qed.

(** The rotation starts at the least name. *)
Lemma rotated_min ring p x q :
  NoDup ring -> ring = p ++ x :: q -> (forall n, n ∈ ring -> str_ltb n x = false) ->
  rotated ring (min_index ring) = x :: q ++ p.
Proof.
  intros Hnd E Hx. destruct (min_index_spec ring) as [Hm Hmin]; [by rewrite E; destruct p|].
  destruct (lookup_lt_is_Some_2 ring (min_index ring) Hm) as [y Hy].
  rewrite (list_lookup_total_correct _ _ _ Hy) in Hmin.
  assert (Hxi : ring !! length p = Some x) by (rewrite E, lookup_app_r, Nat.sub_diag; done || lia).
  assert (y = x) as ->.
  { apply str_ltb_total; [apply Hx; by eapply list_elem_of_lookup_2|].
    apply Hmin. by eapply list_elem_of_lookup_2. }
  rewrite (nodup_index ring _ (length p) x Hnd Hy Hxi). by apply (rotated_split ring p (x :: q)).
Qed.

Lemma least_name ring :
  ring <> [] -> exists p x q, ring = p ++ x :: q /\ forall n, n ∈ ring -> str_ltb n x = false.
Proof.
  intros Hr. destruct (min_index_spec ring Hr) as [Hm Hmin].
  destruct (lookup_lt_is_Some_2 ring _ Hm) as [x Hx].
  rewrite (list_lookup_total_correct _ _ _ Hx) in Hmin.
  apply take_drop_middle in Hx. eauto 6.
Qed.

Lemma cycleKey_ring ring n : ring <> [] -> cycleKey (ring ++ [n]) = join_names (rotated ring (min_index ring)).
Proof.
  intros Hr. unfold cycleKey. rewrite removelast_last, length_app. cbn [length].
  destruct (length ring + 1 <? 2) eqn:E; [|done]. apply Nat.ltb_lt in E.
  destruct ring; [done|cbn in E; lia].
Qed.

(** ** Reported cycles *)

Lemma report_cycles cs seen out :
  (forall k, k ∈ seen <-> k ∈ cycleKey <$> out) -> NoDup (cycleKey <$> out) ->
  let r := foldl report_cycle (seen, out) cs in
  NoDup (cycleKey <$> r.2) /\
  (forall c, c ∈ r.2 -> c ∈ out \/ c ∈ cs) /\
  (forall c, c ∈ out \/ c ∈ cs -> cycleKey c ∈ cycleKey <$> r.2).
Proof.
  revert seen out. induction cs as [|c cs IH]; intros seen out Hs Hn; cbn [foldl].
  { cbn. split_and!; [done|by left|]. intros c [H|H]; [by apply list_elem_of_fmap_2|set_solver]. }
  unfold report_cycle at 2 4 6. cbn [fst snd]. case_decide as Hd.
  - destruct (IH seen out Hs Hn) as (H1 & H2 & H3). cbn zeta. split_and!; [done| |].
    + intros c' Hc'. destruct (H2 c' Hc'); [by left|right; by right].
    + intros c' [H|[->|H]%elem_of_cons]; [apply H3; by left| |apply H3; by right].
      apply Hs in Hd. apply list_elem_of_fmap in Hd as (d & E & Hd). rewrite E.
      apply H3. by left.
  - destruct (IH ({[cycleKey c]} ∪ seen) (out ++ [c])) as (H1 & H2 & H3).
    + intros k. rewrite fmap_app, elem_of_union, elem_of_app, Hs. cbn.
      rewrite elem_of_singleton, list_elem_of_singleton. tauto.
    + rewrite fmap_app. apply NoDup_app. split_and!; [done| |apply NoDup_singleton].
      intros k Hk ->%list_elem_of_singleton. by apply Hd, Hs.
    + cbn zeta. split_and!; [done| |].
      * intros c' Hc'. destruct (H2 c' Hc') as [H|H]; set_solver.
      * intros c' Hc'. apply H3. set_solver.
Qed.

(** * Properties *)

(** C36. The shutdown order names every affected service exactly once, and
    stops consumers first: of two affected services joined by a hard dependency
    the consumer comes before the provider, unless the dependency is the closing
    edge of a reported cycle. Every reported cycle is a closed walk along hard
    dependencies between affected services. *)
Theorem shutdownOrder_respects g affected :
  exists ids cycles,
    shutdownOrder g affected = (codeOf g <$> ids, named g <$> cycles) /\
    ids ≡ₚ elements affected /\
    (forall u v, depends g affected true u v -> before u v ids \/ closing u v cycles) /\
    (forall c, c ∈ cycles -> cycle_of g affected true c).
Proof.
  unfold shutdownOrder. destruct (walk_spec g affected true) as (w & -> & Hok & _ & Ho).
  exists (reverse (wk_order w)), (wk_cycles w). split_and!; [done| | |].
  - rewrite reverse_Permutation. apply NoDup_Permutation; [apply Hok|apply NoDup_elements|].
    intros n. by rewrite Ho, elem_of_elements.
  - intros u v Hd. destruct (wo_edges _ _ _ Hok u v) as [H|H].
    + apply Ho. by destruct Hd.
    + by apply elem_of_next_providers.
    + left. by apply before_reverse.
    + by right.
  - intros c Hc. destruct (wo_cycles _ _ _ Hok c Hc) as [Hch (n & l & -> & _)].
    split; [by exists n, l|]. by apply chain_depends.
Qed.

(** [shutdownOrder] reports a cycle exactly when the hard dependencies
    among the affected services have one: if it reports none, there is none. *)
Theorem shutdownOrder_cycles g affected :
  (shutdownOrder g affected).2 = [] <-> forall c, ~ cycle_of g affected true c.
Proof.
  unfold shutdownOrder. destruct (walk_spec g affected true) as (w & E & _).
  rewrite E. cbn [snd].
  rewrite <- (walk_cycles_nil g affected true w E). by destruct (wk_cycles w).
Qed.

(** [detectCycles] is sound and complete over dependencies of every
    nature: it reports something exactly when a cycle exists, everything it
    reports is the naming of a cycle, and no loop is reported twice under one
    key. *)
Theorem detectCycles_spec g affected :
  (detectCycles g affected = [] <-> forall c, ~ cycle_of g affected false c) /\
  (forall names, names ∈ detectCycles g affected ->
     exists c, names = named g c /\ cycle_of g affected false c) /\
  NoDup (cycleKey <$> detectCycles g affected).
Proof.
  unfold detectCycles. destruct (walk_spec g affected false) as (w & E & Hok & _). rewrite E.
  destruct (report_cycles (named g <$> wk_cycles w) ∅ []) as (H1 & H2 & H3);
    [set_solver|constructor|]. split_and!; [| |done].
  - rewrite <- (walk_cycles_nil g affected false w E). split.
    + intros Hn. destruct (wk_cycles w) as [|c cs] eqn:Ec; [done|].
      assert (Hin : cycleKey (named g c) ∈ cycleKey <$> (foldl report_cycle (∅, []) (named g <$> c :: cs)).2)
        by (apply H3; right; left).
      rewrite Hn in Hin. by apply elem_of_nil in Hin.
    + intros Hc. rewrite Hc. done.
  - intros names Hin. destruct (H2 _ Hin) as [H|H]; [by apply elem_of_nil in H|].
    apply list_elem_of_fmap in H as (c & -> & Hc). exists c. split; [done|].
    destruct (wo_cycles _ _ _ Hok c Hc) as [Hch (n & l & -> & _)].
    split; [by exists n, l|]. by apply chain_depends.
Qed.

(** A loop has one key wherever the walk entered it: rotating a ring of
    distinct names does not change it. *)
Theorem cycleKey_rotation a b n m :
  NoDup (a ++ b) -> a ++ b <> [] -> cycleKey ((a ++ b) ++ [n]) = cycleKey ((b ++ a) ++ [m]).
Proof.
  intros Hnd Hne.
  assert (Hnd' : NoDup (b ++ a)) by (by rewrite (Permutation_app_comm b a)).
  assert (Hne' : b ++ a <> []) by (destruct a, b; done).
  rewrite !cycleKey_ring by done. f_equal.
  destruct (least_name (a ++ b) Hne) as (p & x & q & E & Hx).
  assert (Hx' : forall y, y ∈ b ++ a -> str_ltb y x = false) by (intros y Hy; apply Hx; set_solver).
  rewrite (rotated_min _ p x q Hnd E Hx).
  apply app_eq_app in E as (k & [[-> Ek]|[-> Ek]]).
  - destruct k as [|y k]; cbn in Ek.
    + subst b. rewrite app_nil_r in *.
      by rewrite (rotated_min _ [] x (q ++ p) Hnd' ltac:(done) Hx'), app_nil_r.
    + injection Ek as -> ->.
      rewrite (rotated_min _ (b ++ p) y k Hnd' ltac:(by rewrite <- app_assoc) Hx').
      by rewrite app_assoc.
  - subst b. rewrite (rotated_min _ k x (q ++ a) Hnd' ltac:(by rewrite <- app_assoc) Hx').
    by rewrite app_assoc.
Qed.

Lemma cycleKey_rotation_witness :
  cycleKey (["db"; "auth"] ++ ["db"]) = cycleKey (["auth"; "db"] ++ ["auth"]).
Proof.
  apply (cycleKey_rotation ["db"] ["auth"] "db" "auth"); [|done].
  apply (bool_decide_unpack _). by vm_compute.
Defined.
