(* ===== verification/Engine.v ===== *)
(** The analysis itself: [phaseCapacity], [sortImpacts] and [Analyse] of
    [internal/impact/engine.go], which compose cluster HA, reachability, capacity,
    the dependency fixed point, exposure and the reports into one result.

    A Go map of flags whose entries are all true is a [gset] of its keys. *)
From Stdlib Require Import String ZArith Lia.
From stdpp Require Import base gmap strings list pretty.
From S2P Require Import Prelude Status Dependency Graph Fixtures Cluster Structures Propagation.
From S2P Require Import UnionFind Reach Seams Order.

#[local] Open Scope string_scope.
#[local] Open Scope list_scope.
#[local] Open Scope Z_scope.

(** * Definitions *)

(** ** Capacity *)

(** [capacityReasonBase] *)
Definition capacityReasonBase (svc : Service) (status : Status) (lost total : Z) : string :=
  let surviving := total - lost in
  let counted := "lost " +++ pretty lost +++ " of " +++ pretty total +++ " instances" in
  if decide (svc_Availability svc = AvailQuorum) then
    counted +++ "; quorum needs " +++ pretty (total ÷ 2 + 1)
  else if decide (svc_Availability svc = AvailActivePassive) then
    if decide (status = StatusDegraded)
    then "primary lost; a standby can take over but promotion is manual"
    else counted
  else if decide (svc_Availability svc = AvailActiveActive) then
    let min := default 1 (svc_MinHealthy svc) in
    pretty surviving +++ " of " +++ pretty total +++ " instances surviving; policy needs " +++
    pretty min
  else if decide (svc_Availability svc = AvailSharded) then
    "at least one shard has no surviving replica"
  else counted.

(** [capacityReason] *)
Definition capacityReason (svc : Service) (status : Status) (lost total lostToIsolation : Z)
    : string :=
  let base := capacityReasonBase svc status lost total in
  if decide (lostToIsolation = 0) then base
  else if decide (lostToIsolation = lost) then
    base +++ " (running, but network-isolated -- not powered off)"
  else base +++ " (" +++ pretty lostToIsolation +++ " of those network-isolated)".

(** What the inner loop of [phaseCapacity] computes of one instance. *)
Record InstanceFate := {
  if_inst : Instance;
  if_downByPlacement : bool;
  if_alive : bool
}.

Definition instance_fate (downInstanceIDs : gset string) (net : option reachModel)
    (needsNet : gmap string bool) (serviceID : string) (inst : Instance) : InstanceFate :=
  let downByPlacement := bool_decide (inst_ID inst ∈ downInstanceIDs) in
  let isolatedNow := needsNet.[serviceID | false] && isolated net (inst_HostAssetID inst) PlaneData in
  {| if_inst := inst; if_downByPlacement := downByPlacement;
     if_alive := negb downByPlacement && negb isolatedNow |}.

(** The fates of a service's enabled instances. *)
Definition fates (g : Graph) (downInstanceIDs : gset string) (net : option reachModel)
    (needsNet : gmap string bool) (serviceID : string) : list InstanceFate :=
  instance_fate downInstanceIDs net needsNet serviceID <$>
    List.filter (fun inst => negb (inst_Disabled inst)) ((g_Instances g).[serviceID | []]).

Definition fate_health (f : InstanceFate) : InstanceHealth :=
  {| ih_ID := inst_ID (if_inst f); ih_Role := inst_Role (if_inst f);
     ih_Shard := inst_Shard (if_inst f); ih_Alive := if_alive f |}.

(** The six results of [phaseCapacity], for one service. *)
Record Capacity := {
  cp_status : Status;
  cp_lost : Z;
  cp_total : Z;
  cp_reason : option string;
  cp_lostToIsolation : Z;
  cp_aliveHosts : list string
}.

Definition service_capacity (g : Graph) (downInstanceIDs : gset string)
    (net : option reachModel) (needsNet : gmap string bool) (serviceID : string) (svc : Service)
    : Capacity :=
  let fs := fates g downInstanceIDs net needsNet serviceID in
  let lost := Z.of_nat (count_if (fun f => negb (if_alive f)) fs) in
  let isolation := Z.of_nat (count_if (fun f => negb (if_alive f) && negb (if_downByPlacement f)) fs) in
  let health := fate_health <$> fs in
  let total := Z.of_nat (length health) in
  let status := EvaluateCapacity svc health in
  {| cp_status := status; cp_lost := lost; cp_total := total;
     cp_reason := if decide (status <> StatusOK)
                  then Some (capacityReason svc status lost total isolation) else None;
     cp_lostToIsolation := isolation;
     cp_aliveHosts := (fun f => inst_HostAssetID (if_inst f)) <$> List.filter if_alive fs |}.

(** [phaseCapacity], as one map from service to its results. *)
Definition phaseCapacity (g : Graph) (downInstanceIDs : gset string)
    (net : option reachModel) (needsNet : gmap string bool) : gmap string Capacity :=
  map_imap (fun id svc => Some (service_capacity g downInstanceIDs net needsNet id svc))
           (g_Services g).

Definition statuses_of (c : gmap string Capacity) : gmap string Status := cp_status <$> c.
Definition reasons_of (c : gmap string Capacity) : gmap string string := omap cp_reason c.
Definition aliveHosts_of (c : gmap string Capacity) : gmap string (list string) :=
  omap (fun x => if decide (cp_aliveHosts x = []) then None else Some (cp_aliveHosts x)) c.

(** ** Ranking *)

(** [statusRank] *)
Definition statusRank (s : Status) : Z :=
  match s with
  | StatusDown => 2
  | StatusDegraded => 1
  | _ => 0
  end.

Definition impact_less (a b : ServiceImpact) : bool :=
  if decide (im_Status a <> im_Status b) then statusRank (im_Status b) <? statusRank (im_Status a)
  else if decide (im_Tier a <> im_Tier b) then im_Tier a <? im_Tier b
  else str_ltb (im_Code a) (im_Code b).

(** [sortImpacts] *)
Definition sortImpacts (impacts : list ServiceImpact) : list ServiceImpact :=
  isort impact_less impacts.

(** ** The analysis *)

Record Inputs := {
  in_DownInstanceIDs : gset string;
  in_DownAssetIDs : gset string;
  in_Net : option NetGraph
}.

Record Result := {
  res_Services : list ServiceImpact;
  res_WontRestart : list ServiceImpact;
  res_Cycles : list (list string);
  res_SafeOrder : list string;
  res_Iterations : nat;
  res_Isolated : list AssetIsolation;
  res_Partitions : list EdgePartition;
  res_Unreachable : list EndpointReach;
  res_RedundancyLost : list GroupFinding;
  res_Coverage : ReachCoverage;
  res_Relocations : list RelocationFinding;
  res_Structures : list StructureFinding
}.

(** The inputs after cluster HA: guests that restarted elsewhere leave the
    down set, and the instances they host with them. *)
Definition revive_inputs (g : Graph) (revived : gset string) (inp : Inputs) : Inputs :=
  if decide (size revived = 0%nat) then inp
  else {| in_DownInstanceIDs :=
            list_to_set (inst_ID <$> List.filter (fun inst =>
              bool_decide (inst_ID inst ∈ in_DownInstanceIDs inp) &&
              negb (bool_decide (inst_HostAssetID inst ∈ revived)))
              (concat (snd <$> map_to_list (g_Instances g))));
          in_DownAssetIDs := in_DownAssetIDs inp ∖ revived;
          in_Net := in_Net inp |}.

(** Which channel a row's status came through. *)
Definition impact_cause (st : PState) (c : Capacity) (id : string) : Cause :=
  let via := (ps_via st).[id | ""] in
  if decide (via <> "" /\ (ps_viaPartition st).[id | false] = true) then CauseReachability
  else if decide (via <> "") then CauseDependency
  else if decide (0 < cp_lostToIsolation c /\ cp_lostToIsolation c = cp_lost c)
  then CauseReachability
  else CauseCapacity.

Definition no_capacity : Capacity :=
  {| cp_status := StatusUnset; cp_lost := 0; cp_total := 0; cp_reason := None;
     cp_lostToIsolation := 0; cp_aliveHosts := [] |}.

(** The row of one service: [si]. *)
Definition service_row (cap : gmap string Capacity) (st : PState) (id : string)
    (svc : Service) (status : Status) : ServiceImpact :=
  let c := cap.[id | no_capacity] in
  {| im_ServiceID := id; im_Code := svc_Code svc; im_Name := svc_Name svc;
     im_Tier := svc_Tier svc; im_Status := status;
     im_Reason := (ps_reasons st).[id | ""];
     im_LostInstances := cp_lost c; im_TotalInstances := cp_total c;
     im_Via := (ps_via st).[id | ""]; im_Cause := impact_cause st c id;
     im_LostToIsolation := cp_lostToIsolation c |}.

(** The landmine row: [startup]. *)
Definition startup_row (si : ServiceImpact) (fault : startupFault) : ServiceImpact :=
  {| im_ServiceID := im_ServiceID si; im_Code := im_Code si; im_Name := im_Name si;
     im_Tier := im_Tier si; im_Status := im_Status si; im_Reason := sfault_Reason fault;
     im_LostInstances := im_LostInstances si; im_TotalInstances := im_TotalInstances si;
     im_Via := sfault_Via fault;
     im_Cause := if decide (sfault_NetEffect fault <> reachUnknown)
                 then CauseReachability else CauseDependency;
     im_LostToIsolation := im_LostToIsolation si |}.

(** The body of the loop over the final statuses: the row for
    [result.Services] and the row for [result.WontRestart]. *)
Definition service_rows (g : Graph) (cap : gmap string Capacity) (st : PState)
    (idst : string * Status) : option ServiceImpact * option ServiceImpact :=
  let '(id, status) := idst in
  let fault := ps_wontRestart st !! id in
  if decide (status = StatusOK /\ fault = None) then (None, None)
  else
    match g_Services g !! id with
    | None => (None, None)
    | Some svc =>
        let si := service_row cap st id svc status in
        (if decide (status <> StatusOK) then Some si else None,
         match fault with
         | Some f => if decide (status <> StatusDown) then Some (startup_row si f) else None
         | None => None
         end)
    end.

(** What [Analyse] computes before it reports: cluster HA, the reach model,
    capacity, the pre-pass and the fixed point. *)
Record Phases := {
  ph_inputs : Inputs;
  ph_relocations : list RelocationFinding;
  ph_net : option reachModel;
  ph_capacity : gmap string Capacity;
  ph_reachOfDep : gmap string reachLevel;
  ph_unresolved : Z;
  ph_state : PState;
  ph_iterations : nat
}.

Definition net_input (req : Request) (inp : Inputs) : option NetGraph :=
  if req_SkipNetwork req then None else in_Net inp.

Definition cut_of (req : Request) : cutMedia :=
  {| cut_circuits := list_to_set (req_CutCircuitIDs req);
     cut_links := list_to_set (req_CutLinkIDs req) |}.

Definition analyse_phases (g : Graph) (req : Request) (inp : Inputs) : Phases :=
  let netInput := net_input req inp in
  let '(revived, relocations) := applyClusterHA (g_Clusters g) (in_DownAssetIDs inp) in
  let inp := revive_inputs g revived inp in
  let net := buildReachModel netInput (in_DownAssetIDs inp) (cut_of req) in
  let needsNet := if req_ReportReachabilityOnly req then ∅ else computeNeedsNet g in
  let cap := phaseCapacity g (in_DownInstanceIDs inp) net needsNet in
  let '(reachOfDep, unresolved) := computeDepReach g net (aliveHosts_of cap) in
  let routeMemberReach := computeRouteMemberReach g net (aliveHosts_of cap) in
  let '(appliedDepReach, appliedRouteReach) :=
    if req_ReportReachabilityOnly req then (∅, ∅) else (reachOfDep, routeMemberReach) in
  let '(st, iterations) :=
    phasePropagate g req (statuses_of cap) (reasons_of cap) appliedDepReach appliedRouteReach in
  {| ph_inputs := inp; ph_relocations := relocations; ph_net := net; ph_capacity := cap;
     ph_reachOfDep := reachOfDep; ph_unresolved := unresolved; ph_state := st;
     ph_iterations := iterations |}.

(** [groupStatusesOrNil] *)
Definition groupStatusesOrNil (net : option reachModel) : gmap string Status :=
  match net with
  | None => ∅
  | Some m => rm_groupStatus m
  end.

(** [coverage] once every phase has added to it. *)
Definition add_coverage (c : ReachCoverage) (unresolved : Z) (noAnchor : gmap string Z)
    : ReachCoverage :=
  {| cov_TopologyDeclared := cov_TopologyDeclared c; cov_Modelled := cov_Modelled c;
     cov_Inherited := cov_Inherited c; cov_Unmodelled := cov_Unmodelled c;
     cov_GroupsWithoutUplinkOrAnchor := cov_GroupsWithoutUplinkOrAnchor c;
     cov_NoAnchorForScope := noAnchor;
     cov_ClusterUnresolved := cov_ClusterUnresolved c + unresolved |}.

(** [Analyse] *)
Definition Analyse (g : Graph) (req : Request) (inp : Inputs) : Result :=
  let ph := analyse_phases g req inp in
  let net := ph_net ph in
  let alive := aliveHosts_of (ph_capacity ph) in
  let statuses := ps_statuses (ph_state ph) in
  let rows := service_rows g (ph_capacity ph) (ph_state ph) <$> map_to_list statuses in
  let services := omap fst rows in
  let existing := list_to_set (im_ServiceID <$> services) in
  let '(unreachable, noAnchor) := computeUnreachable g net alive statuses in
  let services := if req_ReportReachabilityOnly req then services
                  else services ++ computeExposureImpacts g unreachable existing in
  let affected := list_to_set (im_ServiceID <$> services) in
  {| res_Services := sortImpacts services;
     res_WontRestart := sortImpacts (omap snd rows);
     res_Cycles := detectCycles g affected;
     res_SafeOrder := (shutdownOrder g affected).1;
     res_Iterations := ph_iterations ph;
     res_Isolated := computeIsolated g net;
     res_Partitions := computePartitions g (g_Deps g) (ph_reachOfDep ph);
     res_Unreachable := unreachable;
     res_RedundancyLost := computeRedundancyLost (net_input req inp) (groupStatusesOrNil net)
                             (in_DownAssetIDs (ph_inputs ph));
     res_Coverage := add_coverage (computeCoverage g net) (ph_unresolved ph) noAnchor;
     res_Relocations := ph_relocations ph;
     res_Structures := analyseStructures (g_Structures g) (in_DownAssetIDs (ph_inputs ph)) |}.

(** * Lemmas *)

(** ** Capacity *)

Lemma phaseCapacity_lookup g down net needs id :
  phaseCapacity g down net needs !! id =
  (fun svc => service_capacity g down net needs id svc) <$> g_Services g !! id.
Proof. unfold phaseCapacity. rewrite map_lookup_imap. by destruct (g_Services g !! id). Qed.

Lemma statuses_lookup g down net needs id :
  statuses_of (phaseCapacity g down net needs) !! id =
  (fun svc => EvaluateCapacity svc (fate_health <$> fates g down net needs id)) <$> g_Services g !! id.
Proof.
  unfold statuses_of. rewrite lookup_fmap, phaseCapacity_lookup.
  by destruct (g_Services g !! id).
Qed.

Lemma le_set_below s t : s ⊑ₛ t -> s <> StatusUnset -> t <> StatusUnset -> s ≼ₛ t.
Proof. unfold status_le, status_below. destruct s, t; cbn; intros; first [done|by left|right; lia]. Qed.

(** A service is charged for isolation only where it needs its network. *)
Definition charged (net : option reachModel) (needs : gmap string bool) (id host : string) : bool :=
  needs.[id | false] && isolated net host PlaneData.

Lemma fates_ext g down net needs net' needs' id :
  (forall h, charged net needs id h = charged net' needs' id h) ->
  fates g down net needs id = fates g down net' needs' id.
Proof.
  intros H. unfold fates. apply list_fmap_ext. intros i inst _. unfold instance_fate.
  specialize (H (inst_HostAssetID inst)). unfold charged in H. by rewrite H.
Qed.

Lemma phaseCapacity_ext g down net needs net' needs' :
  (forall id h, charged net needs id h = charged net' needs' id h) ->
  phaseCapacity g down net needs = phaseCapacity g down net' needs'.
Proof.
  intros H. apply map_eq. intros id. rewrite !phaseCapacity_lookup.
  destruct (g_Services g !! id) as [svc|]; [|done]. cbn. f_equal.
  unfold service_capacity. by rewrite (fates_ext g down net needs net' needs' id (H id)).
Qed.

(** Losing more, with more isolation, never improves a service's capacity. *)
Lemma phaseCapacity_mono g down net needs down' net' needs' :
  down ⊆ down' ->
  (forall id h, charged net needs id h = true -> charged net' needs' id h = true) ->
  statuses_of (phaseCapacity g down net needs) ≼ₘ statuses_of (phaseCapacity g down' net' needs').
Proof.
  intros Hd Hc id. rewrite !statuses_lookup. destruct (g_Services g !! id) as [svc|]; constructor.
  assert (Hle : EvaluateCapacity svc (fate_health <$> fates g down net needs id) ⊑ₛ
                EvaluateCapacity svc (fate_health <$> fates g down' net' needs' id)).
  { unfold EvaluateCapacity. apply Evaluate_mono. unfold fates.
    rewrite <- !list_fmap_compose. apply Forall2_fmap, Forall_Forall2_diag, Forall_forall.
    intros inst _. unfold loses, fate_health, instance_fate. cbn.
    split_and!; try done. rewrite !andb_true_iff, !negb_true_iff, !bool_decide_eq_false.
    intros [H1 H2]. split; [set_solver|]. unfold charged in Hc.
    destruct (needs.[id | false] && _) eqn:E; [|done]. by rewrite (Hc _ _ E) in H2. }
  apply le_set_below; [done|by apply Evaluate_set..].
Qed.

(** ** The phases *)

(** The inputs once cluster HA has run. *)
Definition ha_inputs (g : Graph) (inp : Inputs) : Inputs :=
  revive_inputs g (applyClusterHA (g_Clusters g) (in_DownAssetIDs inp)).1 inp.

(** Reachability cannot move a status: no topology, or reporting only. *)
Definition quiet (req : Request) (inp : Inputs) : Prop :=
  net_input req inp = None \/ req_ReportReachabilityOnly req = true.

Lemma analyse_phases_spec g req inp :
  let ph := analyse_phases g req inp in
  let rmr := computeRouteMemberReach g (ph_net ph) (aliveHosts_of (ph_capacity ph)) in
  let report := req_ReportReachabilityOnly req in
  ph_inputs ph = ha_inputs g inp /\
  ph_relocations ph = (applyClusterHA (g_Clusters g) (in_DownAssetIDs inp)).2 /\
  ph_net ph = buildReachModel (net_input req inp) (in_DownAssetIDs (ha_inputs g inp)) (cut_of req) /\
  ph_capacity ph = phaseCapacity g (in_DownInstanceIDs (ha_inputs g inp)) (ph_net ph)
                     (if report then ∅ else computeNeedsNet g) /\
  (ph_reachOfDep ph, ph_unresolved ph) =
    computeDepReach g (ph_net ph) (aliveHosts_of (ph_capacity ph)) /\
  (ph_state ph, ph_iterations ph) =
    phasePropagate g req (statuses_of (ph_capacity ph)) (reasons_of (ph_capacity ph))
      (if report then ∅ else ph_reachOfDep ph) (if report then ∅ else rmr).
Proof.
  unfold analyse_phases, ha_inputs.
  destruct (applyClusterHA _ _) as [revived relocations]. cbn zeta beta iota.
  destruct (computeDepReach _ _ _) as [rod unresolved] eqn:Er.
  destruct (req_ReportReachabilityOnly req).
  all: match goal with |- context [phasePropagate ?a ?b ?c ?d ?e ?f] =>
         destruct (phasePropagate a b c d e f) as [st it] eqn:Ep end.
  all: cbn [ph_inputs ph_relocations ph_net ph_capacity ph_reachOfDep ph_unresolved ph_state
            ph_iterations fst snd].
  all: split_and!; done.
Qed.

(** Under [quiet] the outcome is that of an estate without a network. *)
Lemma phases_quiet g req inp :
  quiet req inp ->
  let ph := analyse_phases g req inp in
  ph_capacity ph = phaseCapacity g (in_DownInstanceIDs (ha_inputs g inp)) None ∅ /\
  (ph_state ph, ph_iterations ph) =
    phasePropagate g req (statuses_of (ph_capacity ph)) (reasons_of (ph_capacity ph)) ∅ ∅.
Proof.
  intros Hq ph. destruct (analyse_phases_spec g req inp) as (_ & _ & Hn & Hc & Hr & Hs).
  fold ph in Hn, Hc, Hr, Hs. destruct (req_ReportReachabilityOnly req) eqn:Ero.
  - split; [|done]. rewrite Hc. apply phaseCapacity_ext. intros id h. unfold charged.
    by rewrite lookup_empty.
  - destruct Hq as [Hq|Hq]; [|congruence].
    rewrite Hq in Hn. cbn in Hn. rewrite Hn in *. split.
    + rewrite Hc. apply phaseCapacity_ext. intros id h. unfold charged, isolated, modelled.
      by rewrite andb_false_r, lookup_empty.
    + rewrite Hs. cbn [computeRouteMemberReach]. apply phase_neutral. intros id l Hl.
      destruct (computeDepReach_no_net g (aliveHosts_of (ph_capacity ph))) as [_ Hok].
      rewrite <- Hr in Hok. by apply (Hok id).
Qed.

(** The same outage asked of the same estate, by requests that differ in how
    much reachability may say. *)
Lemma phasePropagate_window g req req' statuses reasons rod rmr :
  req_WindowSeconds req = req_WindowSeconds req' ->
  phasePropagate g req statuses reasons rod rmr = phasePropagate g req' statuses reasons rod rmr.
Proof. intros H. unfold phasePropagate. by rewrite H. Qed.

(** ** The rows *)

Definition final_statuses (g : Graph) (req : Request) (inp : Inputs) : gmap string Status :=
  ps_statuses (ph_state (analyse_phases g req inp)).

Lemma service_rows_fst g cap st id status row :
  (service_rows g cap st (id, status)).1 = Some row <->
  status <> StatusOK /\ exists svc, g_Services g !! id = Some svc /\
    row = service_row cap st id svc status.
Proof.
  unfold service_rows. case_decide as Hd.
  { split; [done|]. intros [H _]. by destruct Hd. }
  destruct (g_Services g !! id) as [svc|]; cbn [fst]; [|naive_solver].
  case_decide; naive_solver.
Qed.

Lemma service_rows_snd g cap st id status row :
  (service_rows g cap st (id, status)).2 = Some row <->
  status <> StatusDown /\ exists svc f, g_Services g !! id = Some svc /\
    ps_wontRestart st !! id = Some f /\
    row = startup_row (service_row cap st id svc status) f.
Proof.
  unfold service_rows. case_decide as Hd.
  { split; [done|]. intros (_ & svc & f & _ & Hf & _). destruct Hd. congruence. }
  destruct (g_Services g !! id) as [svc|]; cbn [snd]; [|naive_solver].
  destruct (ps_wontRestart st !! id); [|naive_solver]. case_decide; naive_solver.
Qed.

(** The rows reported before exposure is considered. *)
Definition propagated_rows (g : Graph) (req : Request) (inp : Inputs) : list ServiceImpact :=
  let ph := analyse_phases g req inp in
  omap fst (service_rows g (ph_capacity ph) (ph_state ph) <$> map_to_list (ps_statuses (ph_state ph))).

Lemma elem_of_rows {A B} (f : string * Status -> A * B) (p : A * B -> option ServiceImpact)
    (m : gmap string Status) row :
  row ∈ omap p (f <$> map_to_list m) <->
  exists id s, m !! id = Some s /\ p (f (id, s)) = Some row.
Proof.
  rewrite list_elem_of_omap. setoid_rewrite list_elem_of_fmap.
  split.
  - intros (x & ([id s] & -> & H) & E). apply elem_of_map_to_list in H. eauto.
  - intros (id & s & H & E). eexists. split; [|done]. exists (id, s). split; [done|].
    by apply elem_of_map_to_list.
Qed.

Lemma elem_of_propagated g req inp row :
  row ∈ propagated_rows g req inp <->
  exists id s svc, final_statuses g req inp !! id = Some s /\ s <> StatusOK /\
    g_Services g !! id = Some svc /\
    row = service_row (ph_capacity (analyse_phases g req inp))
            (ph_state (analyse_phases g req inp)) id svc s.
Proof.
  unfold propagated_rows. cbn zeta.
  rewrite (elem_of_rows (service_rows g _ _) fst). setoid_rewrite service_rows_fst.
  unfold final_statuses. naive_solver.
Qed.

(** A service has at most one row. *)
Lemma propagated_rows_nodup g req inp : NoDup (im_ServiceID <$> propagated_rows g req inp).
Proof.
  unfold propagated_rows. cbn zeta. set (ph := analyse_phases g req inp).
  assert (H : NoDup (fst <$> map_to_list (ps_statuses (ph_state ph)))) by apply NoDup_fst_map_to_list.
  revert H. generalize (map_to_list (ps_statuses (ph_state ph))).
  intros l. induction l as [|[id s] l IH]; [constructor|].
  rewrite !fmap_cons. intros [Hid Hl]%NoDup_cons. specialize (IH Hl).
  cbn [omap list_omap]. destruct (service_rows _ _ _ (id, s)).1 as [row|] eqn:E; [|done].
  apply service_rows_fst in E as (_ & svc & _ & ->). rewrite fmap_cons. constructor; [|done].
  cbn. intros Hin. apply Hid. apply list_elem_of_fmap in Hin as (row & Er & Hrow).
  apply list_elem_of_omap in Hrow as (x & Hx & Ex). apply list_elem_of_fmap in Hx as ([id' s'] & -> & Hx).
  apply service_rows_fst in Ex as (_ & svc' & _ & ->). cbn in Er. subst id'.
  by apply (list_elem_of_fmap_2 fst) in Hx.
Qed.

(** ** The result *)

(** The exposure rows appended to the propagated ones. *)
Definition exposure_rows (g : Graph) (req : Request) (inp : Inputs) : list ServiceImpact :=
  let ph := analyse_phases g req inp in
  if req_ReportReachabilityOnly req then []
  else computeExposureImpacts g
         (computeUnreachable g (ph_net ph) (aliveHosts_of (ph_capacity ph)) (final_statuses g req inp)).1
         (list_to_set (im_ServiceID <$> propagated_rows g req inp)).

Lemma Analyse_Services g req inp :
  res_Services (Analyse g req inp) =
  sortImpacts (propagated_rows g req inp ++ exposure_rows g req inp).
Proof.
  unfold Analyse, exposure_rows, propagated_rows, final_statuses. cbn zeta.
  destruct (computeUnreachable _ _ _ _) as [u na]. cbn [res_Services fst].
  destruct (req_ReportReachabilityOnly req); [by rewrite app_nil_r|done].
Qed.

Lemma Analyse_WontRestart g req inp :
  let ph := analyse_phases g req inp in
  res_WontRestart (Analyse g req inp) =
  sortImpacts (omap snd (service_rows g (ph_capacity ph) (ph_state ph) <$>
                         map_to_list (ps_statuses (ph_state ph)))).
Proof.
  unfold Analyse. cbn zeta. by destruct (computeUnreachable _ _ _ _) as [u na].
Qed.

(** Both orders cover the services that were reported. *)
Definition affected (g : Graph) (req : Request) (inp : Inputs) : gset string :=
  list_to_set (im_ServiceID <$> (propagated_rows g req inp ++ exposure_rows g req inp)).

Lemma Analyse_orders g req inp :
  res_SafeOrder (Analyse g req inp) = (shutdownOrder g (affected g req inp)).1 /\
  res_Cycles (Analyse g req inp) = detectCycles g (affected g req inp).
Proof.
  unfold affected, Analyse, exposure_rows, propagated_rows, final_statuses. cbn zeta.
  destruct (computeUnreachable _ _ _ _) as [u na]. cbn [res_SafeOrder res_Cycles fst].
  by destruct (req_ReportReachabilityOnly req); [rewrite app_nil_r|].
Qed.

Lemma exposure_rows_no_net g req inp :
  net_input req inp = None -> exposure_rows g req inp = [].
Proof.
  intros H. unfold exposure_rows. destruct (req_ReportReachabilityOnly req); [done|].
  destruct (analyse_phases_spec g req inp) as (_ & _ & Hn & _). rewrite H in Hn.
  cbn in Hn. by rewrite Hn.
Qed.

Lemma elem_of_exposure_rows g req inp row :
  row ∈ exposure_rows g req inp ->
  im_Cause row = CauseExposure /\
  (im_ServiceID row ∉ im_ServiceID <$> propagated_rows g req inp) /\
  is_Some (g_Services g !! im_ServiceID row).
Proof.
  unfold exposure_rows. destruct (req_ReportReachabilityOnly req); [by intros ?%elem_of_nil|].
  unfold computeExposureImpacts. destruct (computeUnreachable _ _ _ _).1; [by intros ?%elem_of_nil|].
  intros (id & Hid & Hrow)%list_elem_of_omap.
  apply exposure_ids_spec in Hid as (_ & Hex & _).
  apply exposure_impact_spec in Hrow as (-> & Hc & _ & Hs & _).
  rewrite elem_of_list_to_set in Hex. done.
Qed.

Lemma exposure_rows_nodup g req inp : NoDup (im_ServiceID <$> exposure_rows g req inp).
Proof.
  unfold exposure_rows. destruct (req_ReportReachabilityOnly req); [constructor|].
  unfold computeExposureImpacts. destruct (computeUnreachable _ _ _ _).1 as [|u us]; [constructor|].
  generalize (u :: us). intros us'. set (ex := list_to_set _).
  assert (H : NoDup (exposure_ids g us' ex)).
  { unfold exposure_ids. rewrite isort_perm. apply bool_filter_nodup, first_occurrences_nodup. }
  induction (exposure_ids g us' ex) as [|id ids IH]; [constructor|].
  apply NoDup_cons in H as [Hid H]. specialize (IH H). cbn [omap list_omap].
  destruct (exposure_impact g us' id) as [row|] eqn:E; [|done].
  apply exposure_impact_spec in E as (Er & _). rewrite fmap_cons. constructor; [|done].
  rewrite Er. intros (row' & Er' & Hin)%list_elem_of_fmap.
  apply list_elem_of_omap in Hin as (id' & Hid' & E'). apply exposure_impact_spec in E' as (E' & _).
  congruence.
Qed.

(** Propagation starts from capacity. *)
Lemma final_statuses_climb g req inp :
  statuses_of (ph_capacity (analyse_phases g req inp)) ≼ₘ final_statuses g req inp.
Proof.
  destruct (analyse_phases_spec g req inp) as (_ & _ & _ & _ & _ & Hs).
  unfold final_statuses. set (ph := analyse_phases g req inp) in *.
  replace (ph_state ph) with (ph_state ph, ph_iterations ph).1 by done.
  rewrite Hs. apply phase_climbs.
Qed.

(** Reported statuses are never the zero value. *)
Lemma final_statuses_set g req inp id s :
  final_statuses g req inp !! id = Some s -> s <> StatusUnset.
Proof.
  intros H. destruct (analyse_phases_spec g req inp) as (_ & _ & _ & Hc & _ & _).
  destruct (map_below_lookup_r _ _ _ _ (final_statuses_climb g req inp) H) as (s0 & H0 & Hle).
  rewrite Hc, statuses_lookup in H0. destruct (g_Services g !! id); [|done].
  injection H0 as <-. destruct Hle as [<-|Hlt]; [by apply Evaluate_set|].
  intros ->. cbn in Hlt. lia.
Qed.

(** The final statuses are those of the services of the graph. *)
Lemma final_statuses_dom g req inp id :
  is_Some (final_statuses g req inp !! id) <-> is_Some (g_Services g !! id).
Proof.
  destruct (analyse_phases_spec g req inp) as (_ & _ & _ & Hc & _ & _).
  pose proof (final_statuses_climb g req inp id) as Hcl. rewrite Hc, statuses_lookup in Hcl.
  destruct (g_Services g !! id), (final_statuses g req inp !! id); cbn in Hcl; inversion Hcl;
    split; intros [? ?]; eauto; done.
Qed.

(** ** Ranking *)

(** The severity of a status, as a total order that separates the zero value. *)
Definition severity (s : Status) : nat :=
  match s with StatusUnset => 0 | StatusOK => 1 | StatusDegraded => 2 | StatusDown => 3 end.

Definition more_severe (s t : Status) : bool := (severity t <? severity s)%nat.

#[export] Instance more_severe_strict_total : StrictTotal more_severe.
Proof.
  unfold more_severe. apply strict_total_intro.
  - intros x. apply Nat.ltb_irrefl.
  - intros x y z. rewrite !Nat.ltb_lt. lia.
  - intros x y. rewrite !Nat.ltb_ge. destruct x, y; cbn; done || lia.
Qed.

(** [impact_less] is this lexicographic order wherever statuses are set. *)
Definition impact_order : ServiceImpact -> ServiceImpact -> bool :=
  lex_less im_Status more_severe
    (lex_less im_Tier Z.ltb (fun a b => str_ltb (im_Code a) (im_Code b))).

#[export] Instance impact_order_weak : StrictWeak impact_order.
Proof.
  apply lex_less_weak; [apply _|]. apply lex_less_weak; [apply _|].
  apply key_less_weak. apply _.
Qed.

Lemma impact_less_order a b :
  im_Status a <> StatusUnset -> im_Status b <> StatusUnset -> impact_less a b = impact_order a b.
Proof.
  unfold impact_less, impact_order, lex_less, more_severe. intros Ha Hb.
  repeat case_decide; try congruence. destruct (im_Status a), (im_Status b); done.
Qed.

Lemma sortImpacts_sorted l :
  (forall r, r ∈ l -> im_Status r <> StatusUnset) ->
  sortImpacts l ≡ₚ l /\ sorted_by impact_order (sortImpacts l).
Proof.
  intros H. unfold sortImpacts. split; [apply isort_perm|].
  rewrite (isort_ext _ impact_order); [apply isort_sorted, _|].
  intros; apply impact_less_order; auto.
Qed.

Lemma exposure_rows_set g req inp row :
  row ∈ exposure_rows g req inp -> im_Status row <> StatusUnset.
Proof.
  unfold exposure_rows. destruct (req_ReportReachabilityOnly req); [by intros ?%elem_of_nil|].
  unfold computeExposureImpacts. destruct (computeUnreachable _ _ _ _).1 as [|u us] eqn:Eu;
    [by intros ?%elem_of_nil|].
  intros (id & _ & Hrow)%list_elem_of_omap.
  apply exposure_impact_spec in Hrow as (_ & _ & _ & _ & v & _ & _ & Hst).
  apply list_elem_of_fmap in Hst as (w & -> & Hw).
  unfold rows_of in Hw. apply elem_of_bool_filter in Hw as [Hw _]. rewrite <- Eu in Hw.
  destruct (ph_net (analyse_phases g req inp)) as [m|]; [|by apply elem_of_nil in Hw].
  apply elem_of_unreachable in Hw as (eid & ep & _ & Hw). by eapply endpoint_reach_set.
Qed.

(** ** Requests and inputs that differ in one field *)

Definition report_only (req : Request) : Request :=
  {| req_DownAssetIDs := req_DownAssetIDs req; req_CutCircuitIDs := req_CutCircuitIDs req;
     req_CutLinkIDs := req_CutLinkIDs req; req_WindowSeconds := req_WindowSeconds req;
     req_UseObservedHealth := req_UseObservedHealth req;
     req_SkipNetwork := req_SkipNetwork req; req_ReportReachabilityOnly := true |}.

Definition skip_network (req : Request) : Request :=
  {| req_DownAssetIDs := req_DownAssetIDs req; req_CutCircuitIDs := req_CutCircuitIDs req;
     req_CutLinkIDs := req_CutLinkIDs req; req_WindowSeconds := req_WindowSeconds req;
     req_UseObservedHealth := req_UseObservedHealth req;
     req_SkipNetwork := true; req_ReportReachabilityOnly := req_ReportReachabilityOnly req |}.

(** Quiet requests over one window agree on capacity and propagation. *)
Lemma quiet_agree g req req' inp :
  quiet req inp -> quiet req' inp -> req_WindowSeconds req = req_WindowSeconds req' ->
  let ph := analyse_phases g req inp in
  let ph' := analyse_phases g req' inp in
  ph_capacity ph = ph_capacity ph' /\ ph_state ph = ph_state ph' /\
  ph_iterations ph = ph_iterations ph'.
Proof.
  intros Hq Hq' Hw. destruct (phases_quiet g req inp Hq) as [Hc Hs].
  destruct (phases_quiet g req' inp Hq') as [Hc' Hs']. cbn zeta.
  rewrite Hc' in Hs'. rewrite Hc in Hs.
  rewrite (phasePropagate_window g req req') in Hs by done. rewrite <- Hs' in Hs.
  split_and!; congruence.
Qed.

(** No verdict against an edge, no partition row. *)
Lemma computePartitions_neutral g deps rod : neutral rod -> computePartitions g deps rod = [].
Proof.
  intros H. unfold computePartitions. case_decide; [done|].
  assert (omap (partition_row g rod) deps = []) as ->; [|done].
  induction deps as [|d ds IH]; [done|]. cbn [omap list_omap].
  assert (partition_row g rod d = None) as ->; [|done].
  unfold partition_row. destruct (rod !! dep_ID d) as [l|] eqn:E; [|done].
  rewrite (H _ _ E). done.
Qed.

(** Nobody is charged for isolation where the network has no say. *)
Lemma quiet_isolation g down id :
  cp_lostToIsolation (phaseCapacity g down None ∅).[id | no_capacity] = 0.
Proof.
  rewrite phaseCapacity_lookup. destruct (g_Services g !! id) as [svc|]; [|done].
  cbn [fmap option_fmap option_map default from_option].
  unfold service_capacity. cbn [cp_lostToIsolation].
  assert (count_if (fun f => negb (if_alive f) && negb (if_downByPlacement f))
            (fates g down None ∅ id) = 0%nat) as ->; [|done].
  unfold fates, count_if.
  generalize (List.filter (fun inst => negb (inst_Disabled inst)) (g_Instances g).[id | []]).
  intros l. induction l as [|i insts IH]; [done|].
  rewrite fmap_cons. cbn [List.filter]. unfold instance_fate at 1. cbn [if_alive if_downByPlacement].
  rewrite lookup_empty. cbn [default from_option andb negb]. rewrite andb_true_r.
  unfold if_downByPlacement, instance_fate at 1. by destruct (bool_decide _).
Qed.

Lemma quiet_cause g req inp id :
  quiet req inp ->
  let ph := analyse_phases g req inp in
  impact_cause (ph_state ph) (ph_capacity ph).[id | no_capacity] id ∈
    [CauseCapacity; CauseDependency] /\
  cp_lostToIsolation (ph_capacity ph).[id | no_capacity] = 0 /\
  forall f, ps_wontRestart (ph_state ph) !! id = Some f -> sfault_NetEffect f = reachUnknown.
Proof.
  intros Hq ph. destruct (phases_quiet g req inp Hq) as [Hc Hs]. fold ph in Hc, Hs.
  assert (Hn : no_partition (ph_state ph)).
  { replace (ph_state ph) with (ph_state ph, ph_iterations ph).1 by done. rewrite Hs.
    apply phase_no_partition. }
  assert (Hi : cp_lostToIsolation (ph_capacity ph).[id | no_capacity] = 0)
    by (rewrite Hc; apply quiet_isolation).
  destruct Hn as [Hv Hf]. split_and!; [|done|by apply Hf].
  unfold impact_cause. rewrite Hi. case_decide as H1.
  { destruct H1 as [_ H1]. destruct (ps_viaPartition (ph_state ph) !! id) as [b|] eqn:E; [|done].
    by rewrite (Hv _ _ E) in H1. }
  case_decide; [set_solver|]. case_decide; [lia|set_solver].
Qed.

(** * Properties *)

(** Reporting without acting. Asked to report reachability only, the
    analysis reaches the same services, landmines, shutdown order, cycles and
    rounds as if the network had been skipped altogether, whatever topology is
    loaded. *)
Theorem Analyse_report_only g req inp :
  let r := Analyse g (report_only req) inp in
  let r0 := Analyse g (skip_network req) inp in
  res_Services r = res_Services r0 /\ res_WontRestart r = res_WontRestart r0 /\
  res_SafeOrder r = res_SafeOrder r0 /\ res_Cycles r = res_Cycles r0 /\
  res_Iterations r = res_Iterations r0.
Proof.
  intros r r0.
  destruct (quiet_agree g (report_only req) (skip_network req) inp) as (Hc & Hs & Hi);
    [by right|by left|done|].
  assert (Hp : propagated_rows g (report_only req) inp = propagated_rows g (skip_network req) inp).
  { unfold propagated_rows. cbn zeta. by rewrite Hc, Hs. }
  assert (He : exposure_rows g (report_only req) inp = exposure_rows g (skip_network req) inp).
  { by rewrite (exposure_rows_no_net g (skip_network req)). }
  assert (Ha : affected g (report_only req) inp = affected g (skip_network req) inp).
  { unfold affected. by rewrite Hp, He. }
  subst r r0. destruct (Analyse_orders g (report_only req) inp) as [-> ->].
  destruct (Analyse_orders g (skip_network req) inp) as [-> ->].
  rewrite !Analyse_Services, !Analyse_WontRestart, Hp, He, Ha, Hc, Hs.
  split_and!; try done. unfold Analyse. cbn zeta.
  destruct (computeUnreachable _ _ _ _), (computeUnreachable _ _ _ _). exact Hi.
Qed.

(** An estate with no declared topology gets no reachability finding of any
    kind, and no row of its report blames the network. *)
Theorem Analyse_no_topology g req inp :
  net_input req inp = None ->
  let r := Analyse g req inp in
  res_Isolated r = [] /\ res_Partitions r = [] /\ res_Unreachable r = [] /\
  res_RedundancyLost r = [] /\ cov_TopologyDeclared (res_Coverage r) = false /\
  forall row, row ∈ res_Services r ++ res_WontRestart r ->
    im_Cause row ∈ [CauseCapacity; CauseDependency] /\ im_LostToIsolation row = 0.
Proof.
  intros Hnet r. destruct (analyse_phases_spec g req inp) as (_ & _ & Hn & _ & Hr & _).
  rewrite Hnet in Hn. cbn in Hn.
  assert (Hrod : neutral (ph_reachOfDep (analyse_phases g req inp))).
  { intros id l Hl. destruct (computeDepReach_no_net g
      (aliveHosts_of (ph_capacity (analyse_phases g req inp)))) as [_ Hok].
    rewrite Hn in Hr. rewrite <- Hr in Hok. by apply (Hok id). }
  split_and!; try (subst r; unfold Analyse; cbn zeta; rewrite Hn; cbn; rewrite ?Hnet; done).
  { subst r. unfold Analyse. cbn zeta. rewrite Hn. cbn. by apply computePartitions_neutral. }
  intros row. subst r. rewrite Analyse_Services, Analyse_WontRestart, exposure_rows_no_net by done.
  rewrite app_nil_r, elem_of_app. unfold sortImpacts. rewrite !elem_of_isort.
  pose proof (fun id => quiet_cause g req inp id (or_introl Hnet)) as Hq.
  intros [(id & s & svc & _ & _ & _ & ->)%elem_of_propagated|Hrow].
  { destruct (Hq id) as (H1 & H2 & _). done. }
  apply (elem_of_rows (service_rows g _ _) snd) in Hrow as (id & s & _ & Hrow).
  apply service_rows_snd in Hrow as (_ & svc & f & _ & Hf & ->).
  destruct (Hq id) as (_ & H2 & H3). cbn. split; [|done]. rewrite (H3 f Hf).
  rewrite decide_False by (intros H; by apply H). set_solver.
Qed.

Lemma Analyse_no_topology_witness :
  res_Isolated (Analyse demo_graph demo_request
    {| in_DownInstanceIDs := {["auth"]}; in_DownAssetIDs := ∅; in_Net := None |}) = [].
Proof.
  refine (proj1 (Analyse_no_topology demo_graph demo_request
    {| in_DownInstanceIDs := {["auth"]}; in_DownAssetIDs := ∅; in_Net := None |} _)).
  reflexivity.
Defined.

(** C7. The report is complete and exact. No service has two rows; a service of
    the graph whose final status is not ok has a row with that status; and every
    row carries either the final status of its service, which is not ok, or is an
    exposure row of a service no other row reports. *)
Theorem Analyse_services g req inp :
  let rows := res_Services (Analyse g req inp) in
  NoDup (im_ServiceID <$> rows) /\
  (forall id s, final_statuses g req inp !! id = Some s -> s <> StatusOK ->
     exists row, row ∈ rows /\ im_ServiceID row = id /\ im_Status row = s) /\
  (forall row, row ∈ rows ->
     is_Some (g_Services g !! im_ServiceID row) /\
     (final_statuses g req inp !! im_ServiceID row = Some (im_Status row) /\
      im_Status row <> StatusOK \/
      im_Cause row = CauseExposure /\
      final_statuses g req inp !! im_ServiceID row = Some StatusOK)).
Proof.
  intros rows. subst rows. rewrite Analyse_Services. unfold sortImpacts. split_and!.
  - rewrite isort_perm, fmap_app. apply NoDup_app.
    split_and!; [apply propagated_rows_nodup| |apply exposure_rows_nodup].
    intros id Hid (row & -> & Hrow)%list_elem_of_fmap.
    by apply elem_of_exposure_rows in Hrow as (_ & Hex & _).
  - intros id s Hs Hok.
    destruct (proj1 (final_statuses_dom g req inp id)) as [svc Hsvc]; [eauto|].
    eexists. rewrite elem_of_isort, elem_of_app. split; [left|].
    + apply elem_of_propagated. by exists id, s, svc.
    + done.
  - intros row. rewrite elem_of_isort, elem_of_app.
    intros [(id & s & svc & Hs & Hok & Hsvc & ->)%elem_of_propagated|Hrow].
    + cbn. split; [eauto|]. by left.
    + apply elem_of_exposure_rows in Hrow as (Hc & Hex & Hsvc). split; [done|]. right.
      split; [done|]. destruct (proj2 (final_statuses_dom g req inp _) Hsvc) as [s Hs].
      destruct (decide (s = StatusOK)) as [->|Hne]; [done|]. exfalso. apply Hex.
      destruct Hsvc as [svc Hsvc]. apply list_elem_of_fmap.
      eexists. split; [|apply elem_of_propagated; by exists (im_ServiceID row), s, svc]. done.
Qed.

(** The rows are ordered worst first, then by tier, then by code, and
    nothing is lost in the sorting. *)
Lemma Analyse_worst_first g req inp :
  let rows := res_Services (Analyse g req inp) in
  rows ≡ₚ propagated_rows g req inp ++ exposure_rows g req inp /\
  forall i j a b, (i < j)%nat -> rows !! i = Some a -> rows !! j = Some b ->
    (rank (im_Status b) <= rank (im_Status a))%nat /\
    (im_Status a = im_Status b -> im_Tier a <= im_Tier b).
Proof.
  intros rows. subst rows. rewrite Analyse_Services.
  destruct (sortImpacts_sorted (propagated_rows g req inp ++ exposure_rows g req inp)) as [Hp Hs].
  { intros r [Hr|Hr]%elem_of_app; [|by eapply exposure_rows_set].
    apply elem_of_propagated in Hr as (id & s & svc & Hs & _ & _ & ->). cbn.
    by eapply final_statuses_set. }
  split; [done|]. intros i j a b Hij Ha Hb.
  assert (Ho : impact_order b a = false) by (by eapply sorted_by_lookup).
  unfold impact_order, lex_less, more_severe in Ho.
  case_decide as Hst; [|destruct (im_Status a), (im_Status b); cbn in *; split; done || lia].
  rewrite Hst. split; [done|]. intros _. case_decide as Ht; lia.
Qed.

(** The landmine list. A row of it is about a service that is not down, and
    carries the dependency and reason of an unmet startup dependency; every
    service with such a fault that is not down is listed. *)
Theorem Analyse_wont_restart g req inp row :
  let st := ph_state (analyse_phases g req inp) in
  row ∈ res_WontRestart (Analyse g req inp) <->
  exists id s svc f, ps_statuses st !! id = Some s /\ s <> StatusDown /\
    g_Services g !! id = Some svc /\ ps_wontRestart st !! id = Some f /\
    row = startup_row (service_row (ph_capacity (analyse_phases g req inp)) st id svc s) f.
Proof.
  intros st. rewrite Analyse_WontRestart. unfold sortImpacts. rewrite elem_of_isort.
  rewrite (elem_of_rows (service_rows g _ _) snd). setoid_rewrite service_rows_snd.
  unfold st. naive_solver.
Qed.

(** C26. Losing more instances never makes a service look better. Without
    clusters and with the network out of play, when the larger outage's
    propagation finished within its bound, every service is at least as badly
    off in it. *)
Theorem Analyse_monotone g req inp inp' id s :
  g_Clusters g = [] -> quiet req inp -> quiet req inp' ->
  in_DownInstanceIDs inp ⊆ in_DownInstanceIDs inp' ->
  (res_Iterations (Analyse g req inp') < maxIterations)%nat ->
  final_statuses g req inp !! id = Some s ->
  exists t, final_statuses g req inp' !! id = Some t /\ s ⊑ₛ t.
Proof.
  intros Hcl Hq Hq' Hsub Hit Hs.
  assert (Hha : forall i, ha_inputs g i = i) by (intros i; unfold ha_inputs; by rewrite Hcl).
  destruct (phases_quiet g req inp Hq) as [Hc Hst].
  destruct (phases_quiet g req inp' Hq') as [Hc' Hst'].
  rewrite Hc, Hha in Hst. rewrite Hc', Hha in Hst'.
  set (r := phasePropagate g req _ _ ∅ ∅) in Hst. set (r' := phasePropagate g req _ _ ∅ ∅) in Hst'.
  assert (Hr' : (r'.2 < maxIterations)%nat).
  { rewrite <- Hst'. revert Hit. unfold Analyse. cbn zeta. by destruct (computeUnreachable _ _ _ _). }
  assert (Hle : ps_statuses r.1 ≼ₘ ps_statuses r'.1).
  { apply phase_bounded; [by apply converged_closed, phase_converged|].
    etrans; [|apply phase_climbs]. apply phaseCapacity_mono; [done|].
    intros id' h. unfold charged. by rewrite lookup_empty. }
  unfold final_statuses in *.
  replace (ps_statuses (ph_state (analyse_phases g req inp))) with (ps_statuses r.1) in Hs
    by (by rewrite <- Hst).
  replace (ps_statuses (ph_state (analyse_phases g req inp'))) with (ps_statuses r'.1)
    by (by rewrite <- Hst').
  destruct (map_below_lookup _ _ _ _ Hle Hs) as (t & Ht & Hb). exists t.
  split; [done|]. by apply below_le.
Qed.

Lemma Analyse_monotone_witness :
  exists t, final_statuses demo_graph demo_request
    {| in_DownInstanceIDs := {["db"]}; in_DownAssetIDs := ∅; in_Net := None |} !! "app" = Some t /\
  StatusOK ⊑ₛ t.
Proof.
  apply (Analyse_monotone demo_graph demo_request
    {| in_DownInstanceIDs := ∅; in_DownAssetIDs := ∅; in_Net := None |}
    {| in_DownInstanceIDs := {["db"]}; in_DownAssetIDs := ∅; in_Net := None |} "app" StatusOK).
  - reflexivity.
  - left. reflexivity.
  - left. reflexivity.
  - apply empty_subseteq.
  - vm_compute. lia.
  - vm_compute. reflexivity.
Defined.
