(* ===== verification/Text.v ===== *)
(** The functions of Go's [strings] and [strconv] that the components call, on
    byte strings. *)
From Stdlib Require Import String Ascii ZArith Lia.
From stdpp Require Import base gmap strings list pretty.
From S2P Require Import Prelude.

#[local] Open Scope string_scope.
#[local] Open Scope list_scope.
#[local] Open Scope Z_scope.

(** * Definitions *)

(** [strings.Cut] on a one-byte separator; [strings.Index] and the two slices
    around it. *)
Fixpoint cut (sep : ascii) (s : string) : option (string * string) :=
  match s with
  | EmptyString => None
  | String a s' =>
      if Ascii.eqb a sep then Some ("", s')
      else '(before, after) ← cut sep s'; Some (String a before, after)
  end.

(** [strings.Contains] of one byte. *)
Fixpoint contains (c : ascii) (s : string) : bool :=
  match s with EmptyString => false | String a s' => Ascii.eqb a c || contains c s' end.

(** [strings.ContainsAny(s, "[]")] *)
Definition contains_bracket (s : string) : bool := contains "[" s || contains "]" s.

(** [strings.TrimLeft(s, "0")] *)
Fixpoint trim_zeros (s : string) : string :=
  match s with
  | String a s' => if Ascii.eqb a "0" then trim_zeros s' else s
  | EmptyString => s
  end.

Fixpoint digits_value (acc : Z) (s : string) : option Z :=
  match s with
  | EmptyString => Some acc
  | String a s' => d ← digit a; digits_value (10 * acc + d) s'
  end.

(** [strconv.Atoi]: an optional sign and at least one digit, in range. *)
Definition Atoi (s : string) : option Z :=
  let number (digits : string) : option Z :=
    if String.eqb digits "" then None else digits_value 0 digits in
  z ← match s with
      | String a s' =>
          if Ascii.eqb a "-" then n ← number s'; Some (- n)
          else if Ascii.eqb a "+" then number s' else number s
      | EmptyString => None
      end;
  if (- 2 ^ 63 <=? z) && (z <? 2 ^ 63) then Some z else None.

(** [strconv.Itoa] *)
Definition Itoa (z : Z) : string := pretty z.

(** The UTF-8 encodings of the runes [unicode.IsSpace] accepts. *)
Definition bytes_of (l : list N) : string :=
  foldr (fun n s => String (ascii_of_N n) s) "" l.

Definition space_runes : list string :=
  bytes_of <$> ([[9]; [10]; [11]; [12]; [13]; [32]; [194; 133]; [194; 160]; [225; 154; 128];
    [226; 128; 128]; [226; 128; 129]; [226; 128; 130]; [226; 128; 131]; [226; 128; 132];
    [226; 128; 133]; [226; 128; 134]; [226; 128; 135]; [226; 128; 136]; [226; 128; 137];
    [226; 128; 138]; [226; 128; 168]; [226; 128; 169]; [226; 128; 175]; [226; 129; 159];
    [227; 128; 128]])%N.

(** [s] without [prefix], when it starts with it. *)
Fixpoint strip (prefix s : string) : option string :=
  match prefix, s with
  | EmptyString, _ => Some s
  | String a p, String b s' => if Ascii.eqb a b then strip p s' else None
  | String _ _, EmptyString => None
  end.

(** One space off the front. *)
Fixpoint strip_one (spaces : list string) (s : string) : option string :=
  match spaces with
  | [] => None
  | p :: l => match strip p s with Some s' => Some s' | None => strip_one l s end
  end.

(** Every space off the front; a string has at most as many as bytes. *)
Fixpoint trim_left (fuel : nat) (spaces : list string) (s : string) : string :=
  match fuel with
  | O => s
  | S fuel' => match strip_one spaces s with
               | Some s' => trim_left fuel' spaces s'
               | None => s
               end
  end.

Fixpoint reverse_onto (s acc : string) : string :=
  match s with EmptyString => acc | String a s' => reverse_onto s' (String a acc) end.
Definition reverse (s : string) : string := reverse_onto s "".

(** [strings.TrimSpace] *)
Definition TrimSpace (s : string) : string :=
  let l := trim_left (String.length s) space_runes s in
  reverse (trim_left (String.length l) (reverse <$> space_runes) (reverse l)).

Example TrimSpace_both : TrimSpace "  a b	 " = "a b". Proof. vm_compute. reflexivity. Qed.

(** [strings.TrimSuffix] *)
Fixpoint TrimSuffix (s suffix : string) : string :=
  if String.eqb s suffix then ""
  else match s with
       | EmptyString => ""
       | String a s' => String a (TrimSuffix s' suffix)
       end.

(** [strings.ToLower], on the bytes of ASCII letters. *)
Fixpoint ascii_lower (s : string) : string :=
  match s with
  | EmptyString => ""
  | String a s' =>
      let n := N_of_ascii a in
      String (if ((65 <=? n) && (n <=? 90))%N then ascii_of_N (n + 32) else a) (ascii_lower s')
  end.

(** Go's Unicode tables, which the source reaches only through [strings] and
    [strconv]: lower case and quoting of a string that is not all ASCII. *)
Class Unicode := {
  lower_unicode : string -> string;
  quote_unicode : string -> string
}.

(** Every byte below 128. *)
Fixpoint is_ascii (s : string) : bool :=
  match s with
  | EmptyString => true
  | String a s' => (N_of_ascii a <? 128)%N && is_ascii s'
  end.

(** [strings.ToLower] *)
Definition ToLower `{Unicode} (s : string) : string :=
  if is_ascii s then ascii_lower s else lower_unicode s.

(** A byte of a quoted ASCII string: [strconv.Quote]'s escapes. *)
Definition quoted_byte (a : ascii) : string :=
  let n := N_of_ascii a in
  let backslash (c : ascii) := String "\" (String c "") in
  let hex (k : N) := ascii_of_N (if (k <? 10)%N then 48 + k else 87 + k) in
  if ((n =? 34) || (n =? 92))%N then backslash a
  else if ((32 <=? n) && (n <? 127))%N then String a ""
  else if (n =? 7)%N then backslash "a"%char else if (n =? 8)%N then backslash "b"%char
  else if (n =? 12)%N then backslash "f"%char else if (n =? 10)%N then backslash "n"%char
  else if (n =? 13)%N then backslash "r"%char else if (n =? 9)%N then backslash "t"%char
  else if (n =? 11)%N then backslash "v"%char
  else String "\" (String "x" (String (hex (n / 16)) (String (hex (n mod 16)) "")))%N.

Fixpoint quoted_bytes (s : string) : string :=
  match s with EmptyString => "" | String a s' => quoted_byte a +++ quoted_bytes s' end.

Definition quote_mark : string := String (ascii_of_N 34) "".

(** [strconv.Quote], the verb [%q] *)
Definition Quote `{Unicode} (s : string) : string :=
  if is_ascii s then quote_mark +++ quoted_bytes s +++ quote_mark else quote_unicode s.

(** [strings.ContainsAny] of the bytes of [chars]. *)
Fixpoint ContainsAny (s chars : string) : bool :=
  match s with EmptyString => false | String a s' => contains a chars || ContainsAny s' chars end.

(** [strings.HasPrefix] and [strings.TrimPrefix] *)
Definition HasPrefix (s prefix : string) : bool :=
  match strip prefix s with Some _ => true | None => false end.
Definition TrimPrefix (s prefix : string) : string :=
  match strip prefix s with Some s' => s' | None => s end.

(** [strings.Split] on one byte. *)
Fixpoint Split_byte (sep : ascii) (s : string) : list string :=
  match s with
  | EmptyString => [""]
  | String a s' =>
      if Ascii.eqb a sep then "" :: Split_byte sep s'
      else match Split_byte sep s' with
           | [] => [String a ""]
           | w :: ws => String a w :: ws
           end
  end.

(** The first [n] bytes. *)
Fixpoint take_bytes (n : nat) (s : string) : string :=
  match n, s with
  | S n', String a s' => String a (take_bytes n' s')
  | _, _ => ""
  end.

(** * Lemmas *)

(** ** Cutting *)

Lemma cut_spec sep s b a :
  cut sep s = Some (b, a) -> s = b +++ String sep a /\ contains sep b = false.
Proof.
  revert b a. induction s as [|c s IH]; intros b a; cbn [cut]; [done|].
  destruct (Ascii.eqb_spec c sep) as [->|Hne]; [by intros [= <- <-]|].
  destruct (cut sep s) as [[b' a']|] eqn:E; [|done]. cbn. intros [= <- <-].
  destruct (IH b' a' eq_refl) as [-> H]. cbn. split; [done|].
  rewrite H, orb_false_r. by apply Ascii.eqb_neq.
Qed.

Lemma digits_value_nonneg s acc z : 0 <= acc -> digits_value acc s = Some z -> acc <= z.
Proof.
  revert acc. induction s as [|a s IH]; intros acc Ha; cbn [digits_value]; [by intros [= <-]|].
  destruct (digit a) as [d|] eqn:E; [|done]. apply digit_range in E. cbn [mbind option_bind].
  intros H. apply IH in H; lia.
Qed.

(** A bound without a minus sign is not negative. *)
Lemma Atoi_nonneg s z : contains "-" s = false -> Atoi s = Some z -> 0 <= z.
Proof.
  intros Hc. unfold Atoi. destruct s as [|a s]; [done|]. cbn [contains] in Hc.
  apply orb_false_iff in Hc as [Ha _]. rewrite Ha.
  intros H. apply bind_Some in H as (n & Hn & H). case_match; [|done]. injection H as <-.
  repeat case_match; try done; by apply digits_value_nonneg in Hn.
Qed.

Lemma Atoi_range s z : Atoi s = Some z -> int64 z.
Proof.
  unfold Atoi. intros H. apply bind_Some in H as (n & _ & H). case_match eqn:E; [|done].
  injection H as <-. unfold int64. lia.
Qed.

Lemma contains_app c s t : contains c (s +++ t) = contains c s || contains c t.
Proof. induction s as [|a s IH]; [done|]. rewrite append_cons. cbn. by rewrite IH, orb_assoc. Qed.


Lemma cut_app sep b a : contains sep b = false -> cut sep (b +++ String sep a) = Some (b, a).
Proof.
  induction b as [|c b IH]; cbn [contains].
  - intros _. rewrite append_nil. cbn [cut]. by rewrite Ascii.eqb_refl.
  - intros [Hc Hb]%orb_false_iff. rewrite append_cons. cbn [cut]. by rewrite Hc, IH.
Qed.

Lemma cut_none sep s : contains sep s = false -> cut sep s = None.
Proof.
  induction s as [|c s IH]; cbn [contains cut]; [done|]. intros [-> Hs]%orb_false_iff. by rewrite IH.
Qed.

Lemma TrimSuffix_absent s suffix c :
  contains c suffix = true -> contains c s = false -> TrimSuffix s suffix = s.
Proof.
  intros Hc. induction s as [|a s IH]; intros Hs; cbn [TrimSuffix].
  - by destruct (String.eqb _ _).
  - destruct (String.eqb_spec (String a s) suffix) as [<-|_]; [congruence|].
    cbn in Hs. apply orb_false_iff in Hs as [_ Hs]. by rewrite IH.
Qed.

Lemma TrimSuffix_app s suffix : suffix <> "" -> TrimSuffix (s +++ suffix) suffix = s.
Proof.
  intros Hne. induction s as [|a s IH].
  - rewrite append_nil. destruct suffix; [done|]. cbn [TrimSuffix]. by rewrite String.eqb_refl.
  - rewrite append_cons. cbn [TrimSuffix]. rewrite IH.
    destruct (String.eqb_spec (String a (s +++ suffix)) suffix) as [H|_]; [|done].
    apply (f_equal String.length) in H. cbn in H. rewrite append_length in H. lia.
Qed.

(** ** Numbers as text *)

Lemma pretty_N_char_digit n : (n < 10)%N -> digit (pretty_N_char n) = Some (Z.of_N n).
Proof.
  intros H. assert (Hn : In n [0; 1; 2; 3; 4; 5; 6; 7; 8; 9]%N) by (cbn; lia).
  cbn in Hn. repeat destruct Hn as [<-|Hn]; done.
Qed.

(** The digits of a number are read back as the number. *)
Lemma digits_pretty n s : digits_value 0 (pretty_N_go n s) = digits_value (Z.of_N n) s.
Proof.
  revert s. induction (N.lt_wf_0 n) as [n _ IH]; intros s.
  destruct (decide (n = 0)%N) as [->|Hn]; [done|].
  rewrite pretty_N_go_step by lia. rewrite IH by (apply N.div_lt; lia). cbn [digits_value].
  rewrite pretty_N_char_digit by (apply N.mod_lt; lia). cbn [mbind option_bind]. f_equal.
  pose proof (N.div_mod n 10). lia.
Qed.

Lemma contains_pretty c n s : digit c = None -> contains c (pretty_N_go n s) = contains c s.
Proof.
  intros Hc. revert s. induction (N.lt_wf_0 n) as [n _ IH]; intros s.
  destruct (decide (n = 0)%N) as [->|Hn]; [done|].
  rewrite pretty_N_go_step by lia. rewrite IH by (apply N.div_lt; lia). cbn [contains].
  destruct (Ascii.eqb_spec (pretty_N_char (n mod 10)) c) as [<-|]; [|done].
  by rewrite pretty_N_char_digit in Hc by (apply N.mod_lt; lia).
Qed.

(** A natural number is written with digits only. *)
Lemma Itoa_contains c z : 0 <= z -> digit c = None -> contains c (Itoa z) = false.
Proof.
  intros Hz Hc. destruct z as [|p|p]; [|by apply (contains_pretty c (Npos p) "")|lia].
  change (Itoa 0) with "0". cbn [contains]. rewrite orb_false_r. apply Ascii.eqb_neq. by intros <-.
Qed.

Lemma Itoa_digits z : 0 <= z -> digits_value 0 (Itoa z) = Some z.
Proof.
  intros Hz. destruct z as [|p|p]; [done| |lia]. by apply (digits_pretty (Npos p) "").
Qed.

Lemma Itoa_not_nil z : 0 <= z -> Itoa z <> "".
Proof.
  intros Hz H. destruct (decide (z = 0)) as [->|]; [done|].
  pose proof (Itoa_digits z Hz) as Hd. rewrite H in Hd. cbn in Hd. congruence.
Qed.

(** [Atoi] undoes [Itoa]. *)
Lemma Atoi_Itoa z : 0 <= z < 2 ^ 63 -> Atoi (Itoa z) = Some z.
Proof.
  intros Hz. pose proof (Itoa_not_nil z) as Hne. pose proof (Itoa_digits z) as Hd.
  pose proof (Itoa_contains "-" z) as Hm. pose proof (Itoa_contains "+" z) as Hp.
  unfold Atoi. destruct (Itoa z) as [|a s]; [by destruct Hne; [lia|]|].
  cbn [contains] in *.
  destruct (Ascii.eqb a "-"); [by rewrite orb_true_l in Hm; specialize (Hm ltac:(lia) eq_refl)|].
  destruct (Ascii.eqb a "+"); [by rewrite orb_true_l in Hp; specialize (Hp ltac:(lia) eq_refl)|].
  change (String.eqb (String a s) "") with false. cbn [negb]. rewrite Hd by lia.
  cbn [mbind option_bind]. rewrite (proj2 (Z.leb_le (- 2 ^ 63) z)), (proj2 (Z.ltb_lt z (2 ^ 63))) by lia.
  done.
Qed.

(** ** Trimming *)

Lemma strip_app p s : strip p (p +++ s) = Some s.
Proof. induction p as [|a p IH]; [done|]. rewrite append_cons. cbn. by rewrite Ascii.eqb_refl. Qed.

Lemma strip_Some p s t : strip p s = Some t -> s = p +++ t.
Proof.
  revert s. induction p as [|a p IH]; intros s; cbn; [by intros [= ->]|].
  destruct s as [|b s]; [done|]. destruct (Ascii.eqb_spec a b) as [->|]; [|done].
  intros ->%IH. by rewrite append_cons.
Qed.

Lemma HasPrefix_app p s : HasPrefix (p +++ s) p = true.
Proof. unfold HasPrefix. by rewrite strip_app. Qed.

Lemma HasPrefix_inv s p : HasPrefix s p = true -> s = p +++ TrimPrefix s p.
Proof. unfold HasPrefix, TrimPrefix. destruct (strip p s) eqn:E; [|done]. intros _. by apply strip_Some. Qed.

Lemma TrimPrefix_app p s : TrimPrefix (p +++ s) p = s.
Proof. unfold TrimPrefix. by rewrite strip_app. Qed.

Lemma trim_left_contains c fuel spaces s :
  existsb (contains c) spaces = false -> contains c (trim_left fuel spaces s) = contains c s.
Proof.
  intros Hc. revert s. induction fuel as [|fuel IH]; intros s; cbn; [done|].
  destruct (strip_one spaces s) as [s'|] eqn:E; [|done]. rewrite IH. clear IH.
  induction spaces as [|p l IH]; cbn in *; [done|]. apply orb_false_iff in Hc as [Hp Hl].
  destruct (strip p s) as [t|] eqn:E'; [|by apply IH]. injection E as ->.
  by rewrite (strip_Some _ _ _ E'), contains_app, Hp.
Qed.

Lemma reverse_onto_contains c s acc : contains c (reverse_onto s acc) = contains c s || contains c acc.
Proof.
  revert acc. induction s as [|a s IH]; intros acc; cbn; [done|]. rewrite IH. cbn.
  destruct (contains c s), (contains c acc), (Ascii.eqb a c); done.
Qed.

(** A byte that no space contains is not trimmed. *)
Lemma TrimSpace_contains c s :
  existsb (contains c) space_runes = false -> contains c (TrimSpace s) = contains c s.
Proof.
  intros Hc. unfold TrimSpace, reverse. rewrite reverse_onto_contains, orb_false_r.
  rewrite trim_left_contains; [|].
  - by rewrite reverse_onto_contains, orb_false_r, trim_left_contains.
  - rewrite <- Hc. clear Hc. induction space_runes as [|p l IH]; [done|].
    cbn [fmap list_fmap existsb].
    by rewrite reverse_onto_contains, orb_false_r, IH.
Qed.

(** *** Trimming twice *)

Lemma strip_one_None spaces s : strip_one spaces s = None <-> forall p, p ∈ spaces -> strip p s = None.
Proof.
  induction spaces as [|p spaces IH]; cbn [strip_one].
  - split; [by intros _ p ?%elem_of_nil|done].
  - setoid_rewrite elem_of_cons. destruct (strip p s) as [t|] eqn:E.
    + split; [done|]. intros Hall. by rewrite (Hall p (or_introl eq_refl)) in E.
    + rewrite IH. split; [intros Hall q [->|Hq]; auto|auto].
Qed.

Lemma strip_one_Some spaces s t : strip_one spaces s = Some t -> exists p, p ∈ spaces /\ s = p +++ t.
Proof.
  induction spaces as [|p spaces IH]; cbn [strip_one]; [done|].
  destruct (strip p s) as [u|] eqn:E.
  - intros [= ->]. exists p. split; [by left|]. by apply strip_Some.
  - intros (q & Hq & ->)%IH. exists q. split; [by right|done].
Qed.

Lemma trim_left_done fuel spaces s :
  (forall p, p ∈ spaces -> p <> "") -> (String.length s <= fuel)%nat ->
  strip_one spaces (trim_left fuel spaces s) = None.
Proof.
  intros Hne. revert s. induction fuel as [|fuel IH]; intros s Hl; cbn [trim_left].
  - destruct s; [|cbn in Hl; lia]. apply strip_one_None. intros p Hp. by destruct p; [apply Hne in Hp|].
  - destruct (strip_one spaces s) as [t|] eqn:E; [|done]. apply IH.
    apply strip_one_Some in E as (p & Hp & ->). apply Hne in Hp.
    rewrite append_length in Hl. destruct p; [done|]. cbn in Hl. lia.
Qed.

Lemma trim_left_end fuel spaces s : exists pre, s = pre +++ trim_left fuel spaces s.
Proof.
  revert s. induction fuel as [|fuel IH]; intros s; cbn [trim_left]; [by exists ""|].
  destruct (strip_one spaces s) as [t|] eqn:E; [|by exists ""].
  apply strip_one_Some in E as (p & _ & ->). destruct (IH t) as [pre Hpre].
  exists (p +++ pre). by rewrite append_assoc, <- Hpre.
Qed.

Lemma trim_left_stuck fuel spaces s : strip_one spaces s = None -> trim_left fuel spaces s = s.
Proof. intros Hs. destruct fuel; cbn [trim_left]; [done|]. by rewrite Hs. Qed.

Lemma reverse_onto_app s t acc : reverse_onto (s +++ t) acc = reverse_onto t (reverse_onto s acc).
Proof. revert acc. induction s as [|a s IH]; intros acc; [done|]. rewrite append_cons. cbn. apply IH. Qed.

Lemma reverse_onto_acc s acc : reverse_onto s acc = reverse s +++ acc.
Proof.
  unfold reverse. revert acc. induction s as [|a s IH]; intros acc; [done|]. cbn [reverse_onto].
  rewrite IH, (IH (String a "")), append_assoc, append_cons, append_nil. done.
Qed.

Lemma reverse_app s t : reverse (s +++ t) = reverse t +++ reverse s.
Proof. unfold reverse at 1. by rewrite reverse_onto_app, reverse_onto_acc. Qed.

Lemma reverse_reverse s : reverse (reverse s) = s.
Proof.
  induction s as [|a s IH]; [done|]. unfold reverse at 2. cbn [reverse_onto].
  rewrite reverse_onto_acc, reverse_app, IH. done.
Qed.

Lemma strip_prefix_longer p s t : strip p s <> None -> strip p (s +++ t) <> None.
Proof.
  revert s. induction p as [|a p IH]; intros s; [done|]. destruct s as [|b s]; [done|].
  rewrite append_cons. cbn [strip]. destruct (Ascii.eqb a b); [apply IH|done].
Qed.

(** Trimming is idempotent. *)
Lemma TrimSpace_idem s : TrimSpace (TrimSpace s) = TrimSpace s.
Proof.
  set (l := trim_left (String.length s) space_runes s).
  set (r := trim_left (String.length l) (reverse <$> space_runes) (reverse l)).
  assert (Ht : TrimSpace s = reverse r) by done.
  assert (Hr : strip_one (reverse <$> space_runes) r = None).
  { apply trim_left_done.
    - intros p (q & -> & Hq)%list_elem_of_fmap. unfold space_runes in Hq. cbn in Hq.
      rewrite !elem_of_cons, elem_of_nil in Hq. by destruct_or!; subst.
    - assert (Hlen : forall a b, String.length (reverse_onto a b) = (String.length a + String.length b)%nat).
      { induction a as [|c a IH]; intros b; [done|]. cbn [reverse_onto]. rewrite IH. cbn. lia. }
      unfold reverse. rewrite Hlen. cbn. lia. }
  assert (Hl : strip_one space_runes (reverse r) = None).
  { apply strip_one_None. intros p Hp. destruct (strip p (reverse r)) as [t|] eqn:E; [|done]. exfalso.
    destruct (trim_left_end (String.length l) (reverse <$> space_runes) (reverse l)) as [pre Hpre].
    fold r in Hpre. apply (f_equal reverse) in Hpre. rewrite reverse_reverse, reverse_app in Hpre.
    assert (Hll : strip_one space_runes l = None).
    { apply trim_left_done; [|done]. intros q Hq. unfold space_runes in Hq. cbn in Hq.
      rewrite !elem_of_cons, elem_of_nil in Hq. by destruct_or!; subst. }
    apply (proj1 (strip_one_None _ _) Hll) in Hp. rewrite Hpre in Hp.
    by apply (strip_prefix_longer p (reverse r) (reverse pre)) in Hp; [|rewrite E]. }
  rewrite Ht. unfold TrimSpace. rewrite (trim_left_stuck _ _ (reverse r)) by done.
  rewrite reverse_reverse, (trim_left_stuck _ _ r) by done. done.
Qed.
