(* ===== verification/Errors.v ===== *)
(** Collected validation failures: [internal/domain/errors.go].

    Go's [*ValidationError] is the list of its field errors; the [error] a
    validator returns is [None] for [nil]. *)
From Stdlib Require Import String ZArith.
From stdpp Require Import base gmap strings list.
From S2P Require Import Prelude Text.

#[local] Open Scope string_scope.
#[local] Open Scope list_scope.

(** * Definitions *)

Record FieldError := { fe_Field : string; fe_Message : string }.

(** [ValidationError] *)
Definition ValidationError := list FieldError.

(** [ValidationError.Add], the message already formatted. *)
Definition Add (ve : ValidationError) (field message : string) : ValidationError :=
  ve ++ [ {| fe_Field := field; fe_Message := message |} ].

(** [ValidationError.OrNil] *)
Definition OrNil (ve : ValidationError) : option ValidationError :=
  match ve with [] => None | _ => Some ve end.

(** [if _, ok := m[f.Field]; !ok { m[f.Field] = f.Message }] *)
Definition first_message (m : gmap string string) (f : FieldError) : gmap string string :=
  match m !! fe_Field f with
  | Some _ => m
  | None => <[fe_Field f := fe_Message f]> m
  end.

(** [ValidationError.Messages] *)
Definition Messages (ve : ValidationError) : gmap string string := foldl first_message ∅ ve.

(** [ValidationError.Error] *)
Definition Error (ve : ValidationError) : string :=
  "validation failed: " +++
  String.concat "; " ((fun f => fe_Field f +++ ": " +++ fe_Message f) <$> ve).

(** [oneOf] *)
Definition oneOf (v : string) (allowed : list string) : bool :=
  existsb (fun a => bool_decide (v = a)) allowed.

(** The sentinel errors. Wrapping one adds text and keeps the sentinel, so
    [errors.Is] is equality here; [Stale] wraps [Conflict]. *)
Inductive Sentinel := ErrNotFound | ErrConflict | ErrStale | ErrInvalid | ErrForbidden.

(** An [error] a function of the store returns: a validation failure, a sentinel,
    or a failure of the database. *)
Inductive StoreError :=
  | Invalid (ve : ValidationError)
  | Wrapped (e : Sentinel)
  | DatabaseError.

(** [checkEnum] *)
Definition checkEnum (ve : ValidationError) (field value : string) (allowed : list string)
    : ValidationError :=
  if oneOf value allowed then ve
  else Add ve field ("must be one of " +++ String.concat ", " allowed).

(** [checkRequired]: the failures, and the trimmed value. *)
Definition checkRequired (ve : ValidationError) (field value : string) : ValidationError * string :=
  let trimmed := TrimSpace value in
  (if String.eqb trimmed "" then Add ve field "is required" else ve, trimmed).

(** [checkOptionalEnum] *)
Definition checkOptionalEnum (ve : ValidationError) (field : string) (value : option string)
    (allowed : list string) : ValidationError :=
  match value with Some v => checkEnum ve field v allowed | None => ve end.

(** [checkPositive] *)
Definition checkPositive (ve : ValidationError) (field : string) (v : option Z) : ValidationError :=
  match v with
  | Some z => if (z <=? 0)%Z
              then Add ve field "must be greater than zero, or left empty if nobody has measured it"
              else ve
  | None => ve
  end.

Definition MaxMillimetres : Z := 2000.
Definition MaxGrams : Z := 2000000.

(** [checkMillimetres] *)
Definition checkMillimetres (ve : ValidationError) (field : string) (mm : option Z) : ValidationError :=
  match mm with
  | Some z =>
      if (z <=? 0)%Z then Add ve field
        ("must be a positive measurement in millimetres, or left empty if nobody has measured it")
      else if (MaxMillimetres <? z)%Z
      then Add ve field "is larger than any rack-mounted thing; the unit is millimetres"
      else ve
  | None => ve
  end.

(** [checkGrams] *)
Definition checkGrams (ve : ValidationError) (field : string) (g : option Z) : ValidationError :=
  match g with
  | Some z =>
      if (z <=? 0)%Z
      then Add ve field "must be a positive weight in grams, or left empty if nobody has weighed it"
      else if (MaxGrams <? z)%Z
      then Add ve field "is heavier than any rack can hold; the unit is grams"
      else ve
  | None => ve
  end.

(** [containsString] *)
Definition containsString (haystack : list string) (needle : string) : bool :=
  existsb (fun v => String.eqb v needle) haystack.

(** [blankToNil] *)
Definition blankToNil (v : option string) : option string :=
  match v with
  | Some s => if String.eqb (TrimSpace s) "" then None else Some (TrimSpace s)
  | None => None
  end.

(** * Lemmas *)

Lemma OrNil_None ve : OrNil ve = None <-> ve = [].
Proof. destruct ve; cbn; split; congruence. Qed.

Lemma Add_not_nil ve field message : Add ve field message <> [].
Proof. unfold Add. by destruct ve. Qed.
#[export] Hint Resolve Add_not_nil : go.

(** A validator's loop only ever adds failures. *)
Lemma validation_loop_nil {A} (step : ValidationError -> A -> ValidationError) l ve :
  (forall ve a, step ve a = [] -> ve = []) -> foldl step ve l = [] -> ve = [].
Proof.
  intros H. revert ve. induction l as [|a l IH]; intros ve Hl; cbn in *; [done|].
  by apply (H ve a), IH.
Qed.

Lemma oneOf_elem v allowed : oneOf v allowed = true <-> v ∈ allowed.
Proof.
  unfold oneOf. rewrite existsb_elem_of. split.
  - intros (a & Ha & ->%bool_decide_eq_true). done.
  - intros H. exists v. split; [done|]. by apply bool_decide_eq_true.
Qed.

Lemma containsString_elem l s : containsString l s = true <-> s ∈ l.
Proof.
  unfold containsString. rewrite existsb_elem_of. split.
  - by intros (a & Ha & ->%String.eqb_eq).
  - intros Hs. exists s. split; [done|apply String.eqb_refl].
Qed.

Lemma checkRequired_nil ve field value ve' trimmed :
  checkRequired ve field value = (ve', trimmed) ->
  ve' = [] -> ve = [] /\ trimmed = TrimSpace value /\ trimmed <> "".
Proof.
  unfold checkRequired. intros [= <- <-] Hn.
  destruct (String.eqb_spec (TrimSpace value) "") as [E|E]; [by apply Add_not_nil in Hn|done].
Qed.

Lemma checkEnum_nil ve field value allowed :
  checkEnum ve field value allowed = [] -> ve = [] /\ value ∈ allowed.
Proof.
  unfold checkEnum. destruct (oneOf value allowed) eqn:E; [|by intros ?%Add_not_nil].
  intros ->. split; [done|]. by apply oneOf_elem.
Qed.

Lemma Messages_fold ve m f :
  foldl first_message m ve !! f =
  match m !! f with
  | Some s => Some s
  | None => fe_Message <$> List.find (fun e => bool_decide (fe_Field e = f)) ve
  end.
Proof.
  revert m. induction ve as [|e ve IH]; intros m; cbn; [by destruct (m !! f)|].
  rewrite IH. unfold first_message. case_bool_decide as Hf; subst.
  - destruct (m !! fe_Field e) eqn:E; [by rewrite E|]. by rewrite lookup_insert_eq.
  - destruct (m !! fe_Field e) eqn:E; [done|]. by rewrite lookup_insert_ne.
Qed.

(** A form shows the first failure of each field. *)
Lemma Messages_first ve f :
  Messages ve !! f = fe_Message <$> List.find (fun e => bool_decide (fe_Field e = f)) ve.
Proof. unfold Messages. by rewrite Messages_fold, lookup_empty. Qed.
