(* ===== verification/Attribution.v ===== *)
(** Dividing a shared platform: [internal/domain/attribution.go].

    One rounding rule, largest remainder, splits basis points and money alike.
    Go's [int] is the 64-bit integer of the platforms the program is built for,
    so every product and sum wraps; the theorems say below what size nothing
    does. *)
From Stdlib Require Import String ZArith Lia.
From stdpp Require Import base gmap strings list.
From S2P Require Import Prelude.

#[local] Open Scope string_scope.
#[local] Open Scope list_scope.
#[local] Open Scope Z_scope.

(** * Definitions *)

Definition BasisAllocated := "allocated".
Definition BasisObserved := "observed".
Definition IdleSubject := "idle capacity".

Record Claim := { clm_SubjectID : string; clm_Subject : string; clm_Amount : Z }.

Record Share := {
  sh_SubjectID : string; sh_Subject : string; sh_Amount : Z; sh_BasisPoints : Z
}.

Record Division := {
  div_Dimension : string; div_Unit : string; div_Sellable : Z; div_Claimed : Z;
  div_Denominator : Z; div_Shares : list Share; div_Idle : Share; div_Basis : string
}.

(** [Division.Total] *)
Definition Total (d : Division) : list Share :=
  div_Shares d ++
  (if (0 <? sh_Amount (div_Idle d)) || bool_decide (div_Shares d = []) then [div_Idle d] else []).

(** [Division.Oversubscribed] *)
Definition Oversubscribed (d : Division) : bool := div_Sellable d <? div_Claimed d.

(** ** Largest remainder *)

(** [type rem struct] *)
Record rem := { rem_i : nat; rem_remainder : Z }.

(** Biggest remainder first, ties by index. *)
Definition rem_less : rem -> rem -> bool :=
  lex_less rem_remainder (fun x y => y <? x) (fun a b => (rem_i a <? rem_i b)%nat).

(** [for i := 0; assigned < total && i < len(rems); i++] *)
Fixpoint hand_out (total assigned : Z) (rems : list rem) (out : list Z) : list Z :=
  match rems with
  | [] => out
  | r :: rems' =>
      if assigned <? total
      then hand_out total (wrap64 (assigned + 1)) rems' (bump (rem_i r) out)
      else out
  end.

(** The body both functions share: [out], [rems] and [assigned] after the first
    loop, then the hand-out. Go's [/] and [%] truncate towards zero. *)
Definition largest_remainder (total : Z) (amounts : list Z) (denominator : Z) : list Z :=
  let exact := (fun a => wrap64 (total * a)) <$> amounts in
  let out := (fun e => wrap64 (Z.quot e denominator)) <$> exact in
  let assigned := foldl (fun s x => wrap64 (s + x)) 0 out in
  let rems := (fun ie => {| rem_i := fst ie; rem_remainder := Z.rem (snd ie) denominator |}) <$>
                zip (seq 0 (length exact)) exact in
  hand_out total assigned (isort rem_less rems) out.

(** [apportion] *)
Definition apportion (total : Z) (amounts : list Z) (denominator : Z) : list Z :=
  if denominator <=? 0 then (fun _ => 0) <$> amounts
  else largest_remainder total amounts denominator.

(** [apportionMinor] *)
Definition apportionMinor (total : Z) (amounts : list Z) (denominator : Z) : list Z :=
  if denominator <=? 0 then (fun _ => 0) <$> amounts
  else largest_remainder total amounts denominator.

(** [Apportion], [ApportionMinorAcross] *)
Definition Apportion := apportion.
Definition ApportionMinorAcross := apportionMinor.

(** ** Division *)

(** The claims that count. *)
Definition positive_claims (claims : list Claim) : list Claim :=
  List.filter (fun c => 0 <? clm_Amount c) claims.

Definition share_less : Share -> Share -> bool :=
  lex_less sh_Amount (fun x y => y <? x) (fun a b => str_ltb (sh_Subject a) (sh_Subject b)).

Definition share_of (c : Claim) (points : Z) : Share :=
  {| sh_SubjectID := clm_SubjectID c; sh_Subject := clm_Subject c;
     sh_Amount := clm_Amount c; sh_BasisPoints := points |}.

Definition idle_share (amount points : Z) : Share :=
  {| sh_SubjectID := ""; sh_Subject := IdleSubject; sh_Amount := amount; sh_BasisPoints := points |}.

(** [Divide] *)
Definition Divide (dimension unit_ : string) (sellable : Z) (claims : list Claim) : Division :=
  let counted := positive_claims claims in
  let claimed := foldl (fun s c => wrap64 (s + clm_Amount c)) 0 counted in
  let denominator := if sellable <? claimed then claimed else sellable in
  let idle := wrap64 (denominator - claimed) in
  if denominator <=? 0 then
    {| div_Dimension := dimension; div_Unit := unit_; div_Sellable := sellable;
       div_Claimed := claimed; div_Denominator := denominator; div_Shares := [];
       div_Idle := idle_share idle 0; div_Basis := BasisAllocated |}
  else
    let points := apportion 10000 ((clm_Amount <$> counted) ++ [idle]) denominator in
    {| div_Dimension := dimension; div_Unit := unit_; div_Sellable := sellable;
       div_Claimed := claimed; div_Denominator := denominator;
       div_Shares := isort share_less (zip_with share_of counted points);
       div_Idle := idle_share idle (List.last points 0); div_Basis := BasisAllocated |}.

(** [DivideEqually] *)
Definition DivideEqually (dimension : string) (consumers : list Claim) : Division :=
  let heads := List.filter (fun c => negb (clm_Amount c <=? 0)) consumers in
  let total := foldl (fun s c => wrap64 (s + clm_Amount c)) 0 heads in
  Divide dimension "covered" total heads.

(** [Division.ApportionMinor] *)
Definition ApportionMinor (d : Division) (minor : Z) : list Z :=
  let slices := Total d in
  if div_Denominator d <=? 0 then (fun _ => 0) <$> slices
  else apportionMinor minor (sh_Amount <$> slices) (div_Denominator d).

(** * Lemmas *)

(** ** Sums that do not wrap *)

Lemma wrapped_sum l s :
  Forall (fun x => 0 <= x) l -> 0 <= s -> s + sumZ l < 2 ^ 63 ->
  foldl (fun s x => wrap64 (s + x)) s l = s + sumZ l.
Proof.
  revert s. induction l as [|x l IH]; intros s Hl Hs Hb; simpl; [lia|].
  apply Forall_cons in Hl as [Hx Hl]. pose proof (sumZ_nonneg l Hl). simpl in Hb.
  rewrite wrap64_id by (unfold int64; lia). rewrite IH; lia || done.
Qed.

Lemma wrapped_sum_map {A} (f : A -> Z) l s :
  foldl (fun s x => wrap64 (s + f x)) s l = foldl (fun s x => wrap64 (s + x)) s (f <$> l).
Proof. revert s. induction l as [|x l IH]; intros s; [done|]. apply IH. Qed.

#[export] Instance rem_less_weak : StrictWeak rem_less.
Proof.
  apply lex_less_weak.
  - apply (flip_strict_total Z.ltb). apply _.
  - apply key_less_weak. apply _.
Qed.

#[export] Instance share_less_weak : StrictWeak share_less.
Proof.
  apply lex_less_weak.
  - apply (flip_strict_total Z.ltb). apply _.
  - apply key_less_weak. apply _.
Qed.

(** ** Handing out the remainder *)

(** The hand-out raises by one the entries named by its first [total - assigned]
    remainders. *)
Lemma hand_out_spec total assigned rems out :
  Forall (fun x => 0 <= x) out -> sumZ out = assigned -> 0 <= total < 2 ^ 63 ->
  0 <= total - assigned <= Z.of_nat (length rems) ->
  Forall (fun r => (rem_i r < length out)%nat) rems -> NoDup (rem_i <$> rems) ->
  let r := hand_out total assigned rems out in
  length r = length out /\ sumZ r = total /\
  forall j, r !! j = (fun x => if decide (j ∈ rem_i <$> take (Z.to_nat (total - assigned)) rems)
                             then x + 1 else x) <$> out !! j.
Proof.
  revert assigned out. induction rems as [|r rems IH]; intros assigned out Ho Hs Ht Hk Hi Hnd;
    cbn [hand_out length] in *.
  { split_and!; [done|lia|]. intros j. rewrite take_nil. cbn. destruct (out !! j); cbn; [|done].
    by rewrite decide_False by (by intros ?%elem_of_nil). }
  destruct (assigned <? total) eqn:E; [apply Z.ltb_lt in E|apply Z.ltb_ge in E].
  - apply Forall_cons in Hi as [Hr Hi]. rewrite fmap_cons in Hnd. apply NoDup_cons in Hnd as [Hnr Hnd].
    pose proof (sumZ_nonneg out Ho).
    assert (Hb : Forall (fun z => 0 <= z < 2 ^ 63 - 1) out).
    { rewrite Forall_forall in Ho |- *. intros z Hz. pose proof (Ho z Hz).
      pose proof (sumZ_elem out z ltac:(by apply Forall_forall) Hz). lia. }
    rewrite wrap64_id by (unfold int64; lia).
    destruct (IH (assigned + 1) (bump (rem_i r) out)) as (H1 & H2 & H3); try done.
    + apply Forall_lookup. intros j x Hj. rewrite bump_lookup in Hj by done.
      destruct (out !! j) as [y|] eqn:Ey; [|done]. injection Hj as <-.
      rewrite Forall_lookup in Ho. specialize (Ho j y Ey). simpl in Ho. case_decide; lia.
    + rewrite sumZ_bump by done. lia.
    + lia.
    + by rewrite bump_length.
    + split_and!; [by rewrite H1, bump_length|done|]. intros j. rewrite H3, bump_lookup by done.
      replace (Z.to_nat (total - assigned)) with (S (Z.to_nat (total - (assigned + 1)))) by lia.
      cbn [take]. rewrite fmap_cons. destruct (out !! j) as [x|]; cbn [fmap option_fmap option_map]; [|done].
      f_equal. destruct (decide (j = rem_i r)) as [->|Hne].
      * rewrite (decide_True (P := rem_i r ∈ rem_i r :: _)) by left. rewrite decide_False; [done|].
        intros Hin. apply Hnr. apply list_elem_of_fmap in Hin as (q & -> & Hq).
        apply list_elem_of_fmap_2. by eapply elem_of_take_inv.
      * repeat case_decide; set_solver.
  - assert (total - assigned = 0) as -> by lia. split_and!; [done|lia|]. intros j. cbn.
    destruct (out !! j); cbn; [|done]. by rewrite decide_False by (by intros ?%elem_of_nil).
Qed.

(** The leading entries of a list sorted by remainder have one, as long as
    enough of its entries do. *)
Lemma leading_remainders l k :
  sorted_by rem_less l -> Forall (fun r => 0 <= rem_remainder r) l ->
  (k <= count_if (fun r => (0 <? rem_remainder r)%Z) l)%nat ->
  Forall (fun r => 0 < rem_remainder r) (take k l).
Proof.
  intros Hs. revert k. induction Hs as [|r l Hs IH Hr]; intros k Hp Hk; [by rewrite take_nil|].
  destruct k as [|k]; [constructor|]. apply Forall_cons in Hp as [Hr0 Hp].
  unfold count_if in Hk. cbn [List.filter] in Hk. cbn [take].
  destruct (0 <? rem_remainder r) eqn:E.
  - constructor; [lia|]. apply IH; [done|]. cbn in Hk. unfold count_if. lia.
  - exfalso. assert (Hz : List.filter (fun r => 0 <? rem_remainder r) l = []).
    { apply elem_of_nil_inv. intros q Hq. apply elem_of_bool_filter in Hq as [Hq Hq0].
      rewrite Forall_forall in Hr. specialize (Hr q Hq).
      unfold rem_less, lex_less in Hr. case_decide; lia. }
    rewrite Hz in Hk. cbn in Hk. lia.
Qed.

Lemma remainder_sum_bound l den :
  0 < den -> Forall (fun r => 0 <= rem_remainder r < den) l ->
  sumZ (rem_remainder <$> l) <= (den - 1) * Z.of_nat (count_if (fun r => 0 <? rem_remainder r) l).
Proof.
  intros Hd. unfold count_if. induction 1 as [|r l Hr Hl IH]; [simpl; lia|].
  cbn [List.filter fmap list_fmap]. simpl (sumZ (_ :: _)).
  destruct (0 <? rem_remainder r) eqn:E; cbn [length] in *; nia.
Qed.

(** The remainders of the exact products, by index. *)
Definition remainders (total : Z) (amounts : list Z) (den : Z) : list rem :=
  (fun ie => {| rem_i := fst ie; rem_remainder := snd ie |}) <$>
    zip (seq 0 (length amounts)) ((fun a => (total * a) mod den) <$> amounts).

Lemma remainders_index total amounts den :
  rem_i <$> remainders total amounts den = seq 0 (length amounts).
Proof.
  unfold remainders. rewrite <- list_fmap_compose.
  change (rem_i ∘ _) with (@fst nat Z). apply fst_zip. by rewrite length_seq, length_fmap.
Qed.

Lemma remainders_lookup total amounts den r :
  r ∈ remainders total amounts den ->
  exists a, amounts !! rem_i r = Some a /\ rem_remainder r = (total * a) mod den.
Proof.
  unfold remainders. intros ([i e] & -> & H)%list_elem_of_fmap. cbn.
  apply list_elem_of_lookup in H as [j H]. apply lookup_zip_Some in H as [Hi He].
  apply lookup_seq in Hi as [-> _]. rewrite list_lookup_fmap in He.
  destruct (amounts !! j) as [a|] eqn:Ea; [|done]. exists a. cbn. split; [done|]. cbn in He. congruence.
Qed.

Lemma remainders_snd total amounts den :
  rem_remainder <$> remainders total amounts den = (fun a => (total * a) mod den) <$> amounts.
Proof.
  unfold remainders. rewrite <- list_fmap_compose.
  change (rem_remainder ∘ _) with (@snd nat Z). apply snd_zip. by rewrite length_seq, length_fmap.
Qed.

(** The quotients and the remainders account for the whole product. *)
Lemma quotients_and_remainders total den amounts :
  0 < den ->
  total * sumZ amounts =
    sumZ ((fun a => total * a / den) <$> amounts) * den +
    sumZ ((fun a => (total * a) mod den) <$> amounts).
Proof.
  intros Hd. induction amounts as [|a l IH]; [simpl; lia|].
  rewrite !fmap_cons. unfold sumZ in *; cbn [foldr] in *.
  pose proof (Z.div_mod (total * a) den ltac:(lia)). lia.
Qed.

(** Within range the code computes on unwrapped numbers. *)
Lemma largest_remainder_unwrapped total amounts den :
  0 <= total -> 0 < den -> Forall (fun a => 0 <= a) amounts -> sumZ amounts = den ->
  total * den < 2 ^ 63 ->
  let out := (fun a => total * a / den) <$> amounts in
  sumZ out <= total /\
  largest_remainder total amounts den =
    hand_out total (sumZ out) (isort rem_less (remainders total amounts den)) out.
Proof.
  intros Ht Hd Ha Hs Hb out.
  assert (Hin : Forall (fun a => 0 <= total * a < 2 ^ 63) amounts).
  { apply Forall_forall. intros a Hin. pose proof (sumZ_elem _ _ Ha Hin).
    rewrite Forall_forall in Ha. specialize (Ha a Hin). simpl in Ha. nia. }
  assert (Hex : (fun a => wrap64 (total * a)) <$> amounts = (fun a => total * a) <$> amounts).
  { apply list_fmap_ext. intros i a Hi. apply wrap64_id.
    rewrite Forall_lookup in Hin. specialize (Hin i a Hi). simpl in Hin. unfold int64. lia. }
  assert (Hout : (fun e => wrap64 (Z.quot e den)) <$> ((fun a => total * a) <$> amounts) = out).
  { subst out. rewrite <- list_fmap_compose. apply list_fmap_ext. intros i a Hi.
    rewrite Forall_lookup in Hin. specialize (Hin i a Hi). simpl in Hin. unfold compose.
    rewrite Z.quot_div_nonneg by lia. apply wrap64_id. unfold int64.
    pose proof (Z.div_pos (total * a) den). pose proof (Z.div_le_upper_bound (total * a) den (total * a)). nia. }
  assert (Hnn : Forall (fun x => 0 <= x) out).
  { subst out. apply Forall_fmap. eapply Forall_impl; [exact Hin|]. intros a [H _]. by apply Z.div_pos. }
  assert (Hsum : sumZ out * den <= total * den).
  { pose proof (quotients_and_remainders total den amounts Hd) as H. rewrite Hs in H.
    enough (0 <= sumZ ((fun a => (total * a) mod den) <$> amounts)) by (subst out; lia).
    apply sumZ_nonneg, Forall_fmap, Forall_true. intros a. by apply Z.mod_pos_bound. }
  assert (Hle : sumZ out <= total) by nia. split; [done|].
  unfold largest_remainder. rewrite Hex, Hout.
  rewrite wrapped_sum by (done || nia). rewrite Z.add_0_l. do 2 f_equal.
  unfold remainders. rewrite length_fmap.
  apply list_eq. intros i. rewrite !list_lookup_fmap, !lookup_zip_with, !list_lookup_fmap.
  destruct (seq 0 (length amounts) !! i); [|done]. cbn.
  destruct (amounts !! i) as [a|] eqn:Ea; [|done]. cbn. do 2 f_equal.
  rewrite Forall_lookup in Hin. specialize (Hin i a Ea). simpl in Hin. by rewrite Z.rem_mod_nonneg by lia.
Qed.

(** What is left to hand out is at most the number of slices with a remainder. *)
Lemma remainders_left total amounts den :
  0 < den -> sumZ amounts = den ->
  let rems := remainders total amounts den in
  Forall (fun r => 0 <= rem_remainder r < den) rems /\
  (Z.to_nat (total - sumZ ((fun a => (total * a / den)%Z) <$> amounts)) <=
     count_if (fun r => (0 <? rem_remainder r)%Z) rems)%nat.
Proof.
  intros Hd Hs rems.
  assert (Hr : Forall (fun r => 0 <= rem_remainder r < den) rems).
  { apply Forall_forall. intros r (a & _ & ->)%remainders_lookup. by apply Z.mod_pos_bound. }
  split; [done|].
  pose proof (quotients_and_remainders total den amounts Hd) as H.
  rewrite Hs, <- (remainders_snd total amounts den) in H. fold rems in H.
  pose proof (remainder_sum_bound rems den Hd Hr). nia.
Qed.

(** A slice that is handed a unit had a remainder. *)
Lemma handed_out total amounts den j :
  0 < den -> sumZ amounts = den ->
  j ∈ rem_i <$> take (Z.to_nat (total - sumZ ((fun a => total * a / den) <$> amounts)))
                  (isort rem_less (remainders total amounts den)) ->
  exists a, amounts !! j = Some a /\ 0 < (total * a) mod den.
Proof.
  intros Hd Hs (r & -> & Hin)%list_elem_of_fmap.
  destruct (remainders_left total amounts den Hd Hs) as [Hr Hk].
  set (rems := remainders total amounts den) in *.
  assert (Hperm : isort rem_less rems ≡ₚ rems) by apply isort_perm.
  assert (Hrin : r ∈ rems) by (rewrite <- Hperm; by eapply elem_of_take_inv).
  apply remainders_lookup in Hrin as (a & Ha & Hra). exists a. split; [done|]. rewrite <- Hra.
  clear Ha Hra. revert r Hin. apply Forall_forall. apply leading_remainders.
  - apply isort_sorted, _.
  - rewrite Hperm. eapply Forall_impl; [exact Hr|]. by intros ? [? _].
  - by rewrite (count_if_perm _ _ _ Hperm).
Qed.

(** Largest remainder: the parts add up to the total, and each is within one
    unit of its exact share. *)
Lemma largest_remainder_spec total amounts den :
  0 <= total -> 0 < den -> Forall (fun a => 0 <= a) amounts -> sumZ amounts = den ->
  total * den < 2 ^ 63 ->
  let parts := largest_remainder total amounts den in
  length parts = length amounts /\ sumZ parts = total /\
  forall i a x, amounts !! i = Some a -> parts !! i = Some x ->
    Z.abs (x * den - total * a) < den.
Proof.
  intros Ht Hd Ha Hs Hb parts.
  destruct (largest_remainder_unwrapped total amounts den) as [Hle E]; try done.
  destruct (remainders_left total amounts den Hd Hs) as [_ Hk].
  set (out := (fun a => total * a / den) <$> amounts) in *.
  set (rems := remainders total amounts den) in *.
  assert (Hlen : length rems = length amounts).
  { subst rems. by rewrite <- (length_fmap rem_i), remainders_index, length_seq. }
  pose proof (count_if_le (fun r => (0 <? rem_remainder r)%Z) rems) as Hcl.
  assert (Hperm : isort rem_less rems ≡ₚ rems) by apply isort_perm.
  destruct (hand_out_spec total (sumZ out) (isort rem_less rems) out) as (H1 & H2 & H3).
  - subst out. apply Forall_fmap. eapply Forall_impl; [exact Ha|].
    intros a H. cbn beta in H. apply Z.div_pos; nia.
  - done.
  - nia.
  - rewrite (Permutation_length Hperm). lia.
  - rewrite Hperm. apply Forall_forall. intros r Hin.
    assert (Hi : rem_i r ∈ seq 0 (length amounts)).
    { rewrite <- (remainders_index total amounts den). by apply list_elem_of_fmap_2. }
    apply list_elem_of_In, in_seq in Hi. subst out. rewrite length_fmap. lia.
  - rewrite Hperm. subst rems. rewrite remainders_index. apply NoDup_seq.
  - subst parts. rewrite E. split_and!; [by subst out; rewrite H1, length_fmap|done|].
    intros i a x Hi Hx. rewrite H3 in Hx. subst out. rewrite list_lookup_fmap, Hi in Hx.
    cbn [fmap option_fmap option_map] in Hx. injection Hx as <-.
    pose proof (Z.div_mod (total * a) den ltac:(lia)) as Hdm.
    pose proof (Z.mod_pos_bound (total * a) den Hd) as Hmb.
    case_decide as Hin; [|nia].
    apply handed_out in Hin as (a' & Ha' & Hpos); [|done..].
    assert (a' = a) as -> by congruence. nia.
Qed.

(** ** What a division holds *)

Lemma positive_claims_nonneg claims :
  Forall (fun a => 0 < a) (clm_Amount <$> positive_claims claims).
Proof.
  apply Forall_fmap, Forall_forall. intros c [_ H]%elem_of_bool_filter. by apply Z.ltb_lt.
Qed.

Definition claimed_of (claims : list Claim) : Z := sumZ (clm_Amount <$> positive_claims claims).

Lemma claimed_of_nonneg claims : 0 <= claimed_of claims.
Proof.
  apply sumZ_nonneg. eapply Forall_impl; [apply positive_claims_nonneg|].
  intros a H. cbn beta in H. lia.
Qed.

(** The size of division no product of which wraps. *)
Definition division_in_range (sellable : Z) (claims : list Claim) : Prop :=
  - 2 ^ 63 <= sellable /\ 10000 * Z.max sellable (claimed_of claims) < 2 ^ 63.

Lemma wrapped_claims claims :
  claimed_of claims < 2 ^ 63 ->
  foldl (fun s c => wrap64 (s + clm_Amount c)) 0 (positive_claims claims) = claimed_of claims.
Proof.
  intros Hb. rewrite wrapped_sum_map, wrapped_sum; [done| |lia|done].
  eapply Forall_impl; [apply positive_claims_nonneg|]. intros a H. cbn beta in H. lia.
Qed.

(** The amounts a division apportions: the claims' and the idle remainder. *)
Definition divided_amounts (sellable : Z) (claims : list Claim) : list Z :=
  (clm_Amount <$> positive_claims claims) ++
  [Z.max sellable (claimed_of claims) - claimed_of claims].

Lemma divided_amounts_spec sellable claims :
  Forall (fun a => 0 <= a) (divided_amounts sellable claims) /\
  sumZ (divided_amounts sellable claims) = Z.max sellable (claimed_of claims).
Proof.
  unfold divided_amounts. split.
  - apply Forall_app. split; [|constructor; [lia|constructor]].
    eapply Forall_impl; [apply positive_claims_nonneg|]. intros a H. cbn beta in H. lia.
  - rewrite sumZ_app. unfold claimed_of. simpl. lia.
Qed.

Lemma divided_amounts_length sellable claims :
  length (divided_amounts sellable claims) = S (length (positive_claims claims)).
Proof. unfold divided_amounts. rewrite length_app, length_fmap. cbn. lia. Qed.

Lemma Divide_unfold dimension unit_ sellable claims :
  division_in_range sellable claims ->
  let denominator := Z.max sellable (claimed_of claims) in
  let points := apportion 10000 (divided_amounts sellable claims) denominator in
  Divide dimension unit_ sellable claims =
    {| div_Dimension := dimension; div_Unit := unit_; div_Sellable := sellable;
       div_Claimed := claimed_of claims; div_Denominator := denominator;
       div_Shares := if denominator <=? 0 then []
                     else isort share_less (zip_with share_of (positive_claims claims) points);
       div_Idle := idle_share (denominator - claimed_of claims)
                     (if denominator <=? 0 then 0 else List.last points 0);
       div_Basis := BasisAllocated |}.
Proof.
  intros [Hl Hr] denominator points. pose proof (claimed_of_nonneg claims) as Hc.
  unfold Divide. rewrite wrapped_claims by lia.
  replace (if sellable <? claimed_of claims then claimed_of claims else sellable) with denominator
    by (subst denominator; destruct (Z.ltb_spec sellable (claimed_of claims)); lia).
  rewrite wrap64_id by (unfold int64; lia). by destruct (denominator <=? 0).
Qed.

Lemma zip_shares_amounts counted points :
  (length counted <= length points)%nat ->
  sh_Amount <$> zip_with share_of counted points = clm_Amount <$> counted.
Proof.
  revert points. induction counted as [|c l IH]; intros [|p ps] H; cbn in *; [done|done|lia|].
  f_equal. apply IH. lia.
Qed.

Lemma zip_shares_points counted points :
  length points = S (length counted) ->
  (sh_BasisPoints <$> zip_with share_of counted points) ++ [List.last points 0] = points.
Proof.
  revert points. induction counted as [|c l IH]; intros [|p ps] H; cbn in *; try lia.
  - by destruct ps.
  - destruct ps as [|q ps]; [cbn in H; lia|]. f_equal. apply IH. cbn in *. lia.
Qed.

(** What is divided is exactly what the slices name. *)
Lemma Divide_amounts dimension unit_ sellable claims :
  division_in_range sellable claims ->
  let d := Divide dimension unit_ sellable claims in
  0 < div_Denominator d ->
  sh_Amount <$> div_Shares d ≡ₚ clm_Amount <$> positive_claims claims /\
  Forall (fun a => 0 <= a) (sh_Amount <$> Total d) /\
  sumZ (sh_Amount <$> Total d) = div_Denominator d.
Proof.
  intros Hr d Hd.
  assert (Hp : sh_Amount <$> div_Shares d ≡ₚ clm_Amount <$> positive_claims claims).
  { subst d. rewrite Divide_unfold in Hd |- * by done. cbn [div_Denominator div_Shares] in *.
    rewrite (proj2 (Z.leb_gt _ 0)) by done. rewrite (isort_perm share_less).
    rewrite zip_shares_amounts; [done|]. unfold apportion. rewrite (proj2 (Z.leb_gt _ 0)) by done.
    destruct (divided_amounts_spec sellable claims) as [Hnn Hsum]. destruct Hr as [_ Hr].
    destruct (largest_remainder_spec 10000 (divided_amounts sellable claims)
                (Z.max sellable (claimed_of claims))) as (-> & _); [lia|done..|].
    rewrite divided_amounts_length. lia. }
  split; [done|].
  assert (Hi : sh_Amount (div_Idle d) = div_Denominator d - claimed_of claims /\
               0 <= sh_Amount (div_Idle d)).
  { subst d. rewrite Divide_unfold by done. cbn. lia. }
  assert (Hpos : Forall (fun a => 0 <= a) (sh_Amount <$> div_Shares d)).
  { rewrite Hp. eapply Forall_impl; [apply positive_claims_nonneg|]. intros a H. cbn beta in H. lia. }
  assert (Hsum : sumZ (sh_Amount <$> div_Shares d) = claimed_of claims) by (by rewrite Hp).
  clearbody d. unfold Total. rewrite fmap_app, Forall_app, sumZ_app, Hsum.
  destruct (0 <? sh_Amount (div_Idle d)) eqn:E; cbn [orb].
  - split; [split; [done|repeat constructor; lia]|]. simpl. lia.
  - case_bool_decide; simpl; (split; [split; [done|repeat constructor; lia]|lia]).
Qed.

(** ** Properties *)

(** C39. Largest remainder is exact and fair on what is not negative and in range. A total
    of zero or more, split across amounts of zero or more that add up to a positive
    denominator, where total times denominator is below 2^63, comes back as parts that add
    up to the total, one per amount, each within one unit of its exact share and equal to
    it where the share is a whole number; there the rule for basis points and the rule for
    money are the same function. A negative total is not divided exactly: -100 across three
    equal amounts comes back as -99. *)
Theorem apportion_exact total amounts den :
  0 <= total -> 0 < den -> Forall (fun a => 0 <= a) amounts -> sumZ amounts = den ->
  total * den < 2 ^ 63 ->
  Apportion total amounts den = ApportionMinorAcross total amounts den /\
  let parts := Apportion total amounts den in
  length parts = length amounts /\ sumZ parts = total /\
  (forall i a x, amounts !! i = Some a -> parts !! i = Some x ->
    Z.abs (x * den - total * a) < den /\ (total * a mod den = 0 -> x * den = total * a)).
Proof.
  intros Ht Hd Ha Hs Hb. unfold Apportion, ApportionMinorAcross, apportion, apportionMinor.
  rewrite (proj2 (Z.leb_gt den 0)) by done. split; [done|].
  destruct (largest_remainder_spec total amounts den) as (H1 & H2 & H3); try done.
  split_and!; [done..|]. intros i a x Hi Hx. specialize (H3 i a x Hi Hx). split; [done|].
  intros Hm. apply Z.mod_divide in Hm as [k Hk]; [|lia]. rewrite Hk in *.
  rewrite <- Z.mul_sub_distr_r, Z.abs_mul, (Z.abs_eq den) in H3 by lia. assert (x = k) by nia. lia.
Qed.

Lemma apportion_exact_witness :
  sumZ (Apportion 10000 [1; 1; 1] 3) = 10000 /\ Apportion 10000 [1; 1; 1] 3 = [3334; 3333; 3333].
Proof.
  split; [|reflexivity].
  apply (apportion_exact 10000 [1; 1; 1] 3); [lia|lia|repeat constructor; lia|reflexivity|reflexivity].
Defined.

(** A division accounts for the whole platform. The denominator is
    the larger of what exists and what is claimed, the claims and the idle
    slice add up to it, oversubscription leaves no idle slice, the slices are
    the positive claims, largest first, and the basis points including idle sum
    to exactly 10000. *)
Theorem Divide_sums dimension unit_ sellable claims :
  division_in_range sellable claims ->
  let d := Divide dimension unit_ sellable claims in
  div_Denominator d = Z.max sellable (div_Claimed d) /\
  div_Claimed d + sh_Amount (div_Idle d) = div_Denominator d /\ 0 <= sh_Amount (div_Idle d) /\
  (Oversubscribed d = true -> sh_Amount (div_Idle d) = 0) /\
  (0 < div_Denominator d ->
     sumZ (sh_BasisPoints <$> div_Shares d ++ [div_Idle d]) = 10000 /\
     (sh_Amount <$> div_Shares d ≡ₚ clm_Amount <$> positive_claims claims) /\
     sorted_by share_less (div_Shares d)).
Proof.
  intros Hr d. subst d. rewrite Divide_unfold by done. cbn [div_Denominator div_Claimed div_Idle
    div_Shares sh_Amount idle_share]. unfold Oversubscribed. cbn [div_Sellable div_Claimed].
  split_and!; [done|lia|lia|intros ?%Z.ltb_lt; lia|].
  intros Hd. rewrite (proj2 (Z.leb_gt _ 0)) by done.
  destruct (divided_amounts_spec sellable claims) as [Hnn Hsum].
  unfold apportion. rewrite (proj2 (Z.leb_gt _ 0)) by done.
  destruct Hr as [_ Hr].
  destruct (largest_remainder_spec 10000 (divided_amounts sellable claims)
              (Z.max sellable (claimed_of claims))) as (Hlen & Htot & _); [lia|done..|].
  rewrite divided_amounts_length in Hlen.
  set (points := largest_remainder _ _ _) in *. split_and!.
  - rewrite fmap_app, sumZ_app, (isort_perm share_less), <- sumZ_app. cbn [fmap list_fmap sh_BasisPoints].
    by rewrite zip_shares_points by lia.
  - rewrite (isort_perm share_less). by rewrite zip_shares_amounts by lia.
  - apply isort_sorted, _.
Qed.

Definition sample_claims : list Claim :=
  [ {| clm_SubjectID := "p1"; clm_Subject := "web"; clm_Amount := 3 |};
    {| clm_SubjectID := "p2"; clm_Subject := "db"; clm_Amount := 5 |};
    {| clm_SubjectID := "p3"; clm_Subject := "spare"; clm_Amount := 0 |} ].

Lemma Divide_sums_witness :
  sumZ (sh_BasisPoints <$> Total (Divide "CPU" "vCPU" 9 sample_claims)) = 10000 /\
  sh_Subject <$> div_Shares (Divide "CPU" "vCPU" 9 sample_claims) = ["db"; "web"].
Proof.
  split; [|vm_compute; reflexivity].
  apply (Divide_sums "CPU" "vCPU" 9 sample_claims); [split; vm_compute; congruence|vm_compute; reflexivity].
Defined.

(** A bill divided across a division's slices, idle included, sums to
    exactly the bill, one part per slice of [Total], each within one minor unit
    of its exact share. *)
Lemma ApportionMinor_exact dimension unit_ sellable claims minor :
  division_in_range sellable claims ->
  let d := Divide dimension unit_ sellable claims in
  0 < div_Denominator d -> 0 <= minor -> minor * div_Denominator d < 2 ^ 63 ->
  let parts := ApportionMinor d minor in
  length parts = length (Total d) /\ sumZ parts = minor /\
  (forall i s x, Total d !! i = Some s -> parts !! i = Some x ->
     Z.abs (x * div_Denominator d - minor * sh_Amount s) < div_Denominator d).
Proof.
  intros Hr d Hd Hm Hb. unfold ApportionMinor. rewrite (proj2 (Z.leb_gt _ 0)) by done.
  destruct (Divide_amounts dimension unit_ sellable claims Hr Hd) as (_ & Hnn & Hsum). fold d in Hnn, Hsum.
  unfold apportionMinor. rewrite (proj2 (Z.leb_gt _ 0)) by done.
  destruct (largest_remainder_spec minor (sh_Amount <$> Total d) (div_Denominator d))
    as (H1 & H2 & H3); [done..|].
  split_and!; [by rewrite H1, length_fmap|done|]. intros i s x Hi. apply H3.
  by rewrite list_lookup_fmap, Hi.
Qed.

Lemma ApportionMinor_exact_witness :
  sumZ (ApportionMinor (Divide "CPU" "vCPU" 9 sample_claims) 1000) = 1000 /\
  ApportionMinor (Divide "CPU" "vCPU" 9 sample_claims) 1000 = [556; 333; 111].
Proof.
  split; [|vm_compute; reflexivity].
  apply (ApportionMinor_exact "CPU" "vCPU" 9 sample_claims 1000);
    [split; vm_compute; congruence|vm_compute; reflexivity|lia|vm_compute; reflexivity].
Defined.

(** Money that is given back is not divided exactly: only positive remainders
    are ever handed out, so a negative amount keeps what truncation dropped. *)
Lemma ApportionMinor_negative :
  ApportionMinor (Divide "CPU" "vCPU" 3 [ {| clm_SubjectID := "a"; clm_Subject := "a"; clm_Amount := 1 |};
                                          {| clm_SubjectID := "b"; clm_Subject := "b"; clm_Amount := 1 |};
                                          {| clm_SubjectID := "c"; clm_Subject := "c"; clm_Amount := 1 |} ])
    (-100) = [-33; -33; -33].
Proof. vm_compute. reflexivity. Qed.
