(* ===== verification/Occupancy.v ===== *)
(** Sharing one machine: [internal/domain/occupancy.go].

    A machine several projects occupy is divided by declared percentages. What
    the declarations leave out belongs to nobody. *)
From Stdlib Require Import String ZArith Lia.
From stdpp Require Import base gmap strings list pretty.
From S2P Require Import Prelude Errors Attribution.

#[local] Open Scope string_scope.
#[local] Open Scope list_scope.
#[local] Open Scope Z_scope.

(** * Definitions *)

Record Occupant := {
  oc_AssetID : string; oc_ProjectID : string; oc_Percent : Z; oc_Note : option string;
  oc_ProjectCode : string; oc_CreatedAt : string; oc_UpdatedAt : string
}.

Record Occupancy := {
  ocy_AssetID : string; ocy_AssetName : string; ocy_Occupants : list Occupant
}.

(** [Occupancy.DeclaredPercent] *)
Definition DeclaredPercent (o : Occupancy) : Z :=
  foldl (fun total x => wrap64 (total + oc_Percent x)) 0 (ocy_Occupants o).

(** [Occupancy.Shared] *)
Definition Shared (o : Occupancy) : bool := negb (bool_decide (ocy_Occupants o = [])).

(** [Occupancy.Balanced] *)
Definition Balanced (o : Occupancy) : bool := negb (Shared o) || (DeclaredPercent o =? 100).

(** [Occupancy.Denominator] *)
Definition Denominator (o : Occupancy) : Z :=
  let declared := DeclaredPercent o in if 100 <? declared then declared else 100.

(** [Occupancy.weights] *)
Definition weights (o : Occupancy) : list string * list Z :=
  let slack := wrap64 (Denominator o - DeclaredPercent o) in
  (oc_ProjectID <$> ocy_Occupants o,
   (oc_Percent <$> ocy_Occupants o) ++ (if 0 <? slack then [slack] else [])).

(** [for i, id := range ids { out[id] += parts[i] }] *)
Definition add_part (out : gmap string Z) (ip : string * Z) : gmap string Z :=
  <[fst ip := wrap64 (out.[fst ip|0] + snd ip)]> out.

(** [Occupancy.Split] *)
Definition Split (o : Occupancy) (amount : Z) : gmap string Z :=
  if (amount <=? 0) || negb (Shared o) then ∅
  else let '(ids, ws) := weights o in
       foldl add_part ∅ (zip ids (apportion amount ws (Denominator o))).

(** [Occupancy.SplitMinor] *)
Definition SplitMinor (o : Occupancy) (amount : Z) : gmap string Z :=
  if (amount <=? 0) || negb (Shared o) then ∅
  else let '(ids, ws) := weights o in
       foldl add_part ∅ (zip ids (apportionMinor amount ws (Denominator o))).

(** One turn of the loop of [ValidateOccupants]: [ve] and [seen]. *)
Definition validate_occupant (s : ValidationError * gset string) (x : Occupant)
    : ValidationError * gset string :=
  let '(ve, seen) := s in
  if bool_decide (oc_ProjectID x = "") then (Add ve "project_id" "an occupant needs a project", seen)
  else
    let ve := if decide (oc_ProjectID x ∈ seen)
              then Add ve "project_id" (oc_ProjectID x +++ " is named twice; one row per project")
              else ve in
    let seen := {[oc_ProjectID x]} ∪ seen in
    (if (oc_Percent x <=? 0) || (100 <? oc_Percent x)
     then Add ve "percent" ("a share is between 1 and 100, and " +++ pretty (oc_Percent x) +++ " is not")
     else ve, seen).

(** [ValidateOccupants] *)
Definition ValidateOccupants (occupants : list Occupant) : option ValidationError :=
  OrNil (fst (foldl validate_occupant ([], ∅) occupants)).

Definition occupant_less : Occupant -> Occupant -> bool :=
  lex_less oc_Percent (fun x y => y <? x) (fun a b => str_ltb (oc_ProjectCode a) (oc_ProjectCode b)).

(** [SortOccupants] *)
Definition SortOccupants (occupants : list Occupant) : list Occupant := isort occupant_less occupants.

(** * Lemmas *)

(** ** Validation *)

(** What a set of occupants has to be. *)
Definition well_declared (seen : gset string) (l : list Occupant) : Prop :=
  NoDup (oc_ProjectID <$> l) /\
  Forall (fun x => oc_ProjectID x <> "" /\ (oc_ProjectID x ∉ seen) /\ 1 <= oc_Percent x <= 100) l.

Lemma validate_occupant_nil ve seen x :
  fst (validate_occupant (ve, seen) x) = [] <->
  ve = [] /\ oc_ProjectID x <> "" /\ (oc_ProjectID x ∉ seen) /\ 1 <= oc_Percent x <= 100.
Proof.
  unfold validate_occupant. case_bool_decide as Hb.
  { cbn. split; [by intros ?%Add_not_nil|by intros (? & ? & _)]. }
  case_decide as Hs; destruct ((oc_Percent x <=? 0) || (100 <? oc_Percent x)) eqn:E; cbn [fst];
    rewrite ?orb_true_iff, ?orb_false_iff in E;
    (split; [try by intros ?%Add_not_nil|intros (? & ? & ? & ?)]); try done; try lia.
  intros ->. split_and!; try done; lia.
Qed.

Lemma validate_occupant_seen ve seen x :
  oc_ProjectID x <> "" -> snd (validate_occupant (ve, seen) x) = {[oc_ProjectID x]} ∪ seen.
Proof. intros H. unfold validate_occupant. by case_bool_decide. Qed.

Lemma validate_loop_grows l s : fst (foldl validate_occupant s l) = [] -> fst s = [].
Proof.
  revert s. induction l as [|x l IH]; intros [ve seen] H; [done|]. apply IH in H.
  by apply validate_occupant_nil in H as [H _].
Qed.

Lemma validate_loop l seen :
  fst (foldl validate_occupant ([], seen) l) = [] <-> well_declared seen l.
Proof.
  revert seen. induction l as [|x l IH]; intros seen; cbn [foldl].
  { split; [|done]. intros _. split; constructor. }
  assert (Hstep : oc_ProjectID x <> "" -> oc_ProjectID x ∉ seen -> 1 <= oc_Percent x <= 100 ->
                  validate_occupant ([], seen) x = ([], {[oc_ProjectID x]} ∪ seen)).
  { intros H1 H2 H3. rewrite (surjective_pairing (validate_occupant _ _)).
    rewrite validate_occupant_seen by done. f_equal. by apply validate_occupant_nil. }
  unfold well_declared. rewrite fmap_cons, NoDup_cons, Forall_cons. split.
  - intros H. pose proof (validate_loop_grows _ _ H) as (_ & H1 & H2 & H3)%validate_occupant_nil.
    rewrite Hstep in H by done. apply IH in H as [Hn Hf]. rewrite Forall_forall in Hf.
    split; [split; [|done]|split; [done|]].
    + intros (y & Hy & Hin)%list_elem_of_fmap. apply Hf in Hin. set_solver.
    + apply Forall_forall. intros y Hy. apply Hf in Hy. set_solver.
  - intros ((Hnx & Hn) & (H1 & H2 & H3) & Hf). rewrite Hstep by done. apply IH. split; [done|].
    rewrite Forall_forall in Hf |- *. intros y Hy. destruct (Hf y Hy) as (? & ? & ?).
    apply (list_elem_of_fmap_2 oc_ProjectID) in Hy. split_and!; try done; try lia.
    intros [Heq%elem_of_singleton|]%elem_of_union; [|done]. by rewrite Heq in Hy.
Qed.

(** ** Splitting *)

Lemma split_nodup (ids : list string) (parts : list Z) (m : gmap string Z) :
  NoDup ids -> Forall int64 parts -> (forall i, i ∈ ids -> m !! i = None) ->
  foldl add_part m (zip ids parts) = list_to_map (zip ids parts) ∪ m.
Proof.
  revert m parts. induction ids as [|i ids IH]; intros m parts Hn Hp Hm; [cbn; by rewrite (left_id_L ∅ (∪))|].
  destruct parts as [|p parts]; [cbn; by rewrite (left_id_L ∅ (∪))|].
  apply NoDup_cons in Hn as [Hi Hn]. apply Forall_cons in Hp as [Hp0 Hp]. cbn [zip zip_with foldl].
  assert (E : add_part m (i, p) = <[i := p]> m).
  { unfold add_part. cbn. by rewrite Hm by left; cbn; rewrite wrap64_id. }
  rewrite E, IH; try done.
  2: { intros j Hj. rewrite lookup_insert_ne by (intros ->; done). apply Hm. by right. }
  cbn [list_to_map foldr fst snd]. rewrite <- insert_union_r, insert_union_l; [done|].
  apply not_elem_of_list_to_map_1. intros H. apply Hi.
  apply list_elem_of_fmap in H as ([j q] & -> & H). by apply elem_of_zip_l in H.
Qed.

(** Within range, with the declarations that validation accepts. *)
Definition split_in_range (o : Occupancy) (amount : Z) : Prop :=
  0 < amount /\ amount * Z.max 100 (sumZ (oc_Percent <$> ocy_Occupants o)) < 2 ^ 63.

Section Range.
Context (o : Occupancy) (amount : Z).
Hypothesis Hvalid : ValidateOccupants (ocy_Occupants o) = None.
Hypothesis Hrange : split_in_range o amount.

Local Definition percents : list Z := oc_Percent <$> ocy_Occupants o.

Lemma valid_declared : well_declared ∅ (ocy_Occupants o).
Proof. apply validate_loop. by apply OrNil_None. Qed.

Lemma percents_nonneg : Forall (fun a => 0 <= a) percents.
Proof.
  apply Forall_fmap. eapply Forall_impl; [apply valid_declared|]. intros x (_ & _ & H). cbn. lia.
Qed.

Lemma declared_sum : DeclaredPercent o = sumZ percents.
Proof.
  unfold DeclaredPercent. rewrite wrapped_sum_map, wrapped_sum; [done|apply percents_nonneg|lia|].
  destruct Hrange. unfold percents. nia.
Qed.

Lemma denominator_max : Denominator o = Z.max 100 (sumZ percents).
Proof.
  unfold Denominator. rewrite declared_sum. destruct (Z.ltb_spec 100 (sumZ percents)); lia.
Qed.

Lemma weights_spec :
  exists slack, (100 <= sumZ percents -> slack = []) /\
    weights o = (oc_ProjectID <$> ocy_Occupants o, percents ++ slack) /\
    Forall (fun a => 0 <= a) slack /\ sumZ slack = Denominator o - sumZ percents.
Proof.
  destruct Hrange as [Hpos Hr]. fold percents in Hr.
  pose proof (sumZ_nonneg _ percents_nonneg).
  unfold weights. rewrite denominator_max, declared_sum, wrap64_id by (unfold int64; lia).
  destruct (Z.ltb_spec 0 (Z.max 100 (sumZ percents) - sumZ percents)); eexists;
    (split; [|split; [reflexivity|]]).
  - intros ?. lia.
  - split; [repeat constructor; lia|simpl; lia].
  - done.
  - split; [constructor|simpl; lia].
Qed.

(** The parts, one per occupant, with what the undeclared remainder took. *)
Lemma Split_parts :
  ocy_Occupants o <> [] ->
  exists parts rest,
    Split o amount = list_to_map (zip (oc_ProjectID <$> ocy_Occupants o) parts) /\
    SplitMinor o amount = Split o amount /\
    length parts = length (ocy_Occupants o) /\
    sumZ parts + sumZ rest = amount /\ Forall (fun x => 0 <= x) rest /\
    (100 <= sumZ percents -> rest = []) /\
    (forall i x p, ocy_Occupants o !! i = Some x -> parts !! i = Some p ->
       Z.abs (p * Denominator o - amount * oc_Percent x) < Denominator o).
Proof.
  intros Hne. destruct Hrange as [Hpos Hr]. fold percents in Hr.
  destruct weights_spec as (slack & Hs1 & Hw & Hs0 & Hs).
  pose proof denominator_max as HD. pose proof percents_nonneg as Hp0.
  pose proof (sumZ_nonneg _ Hs0) as Hsn. pose proof (sumZ_nonneg _ Hp0) as Hpn.
  destruct (largest_remainder_spec amount (percents ++ slack) (Denominator o))
    as (Hlen & Hsum & Hfair); [lia|lia|by apply Forall_app|rewrite sumZ_app; lia|lia|].
  set (all := largest_remainder amount (percents ++ slack) (Denominator o)) in *.
  assert (Hall : Forall (fun x => 0 <= x) all).
  { apply Forall_lookup. intros i x Hi.
    destruct (lookup_lt_is_Some_2 (percents ++ slack) i) as [a Ha].
    { rewrite <- Hlen. by eapply lookup_lt_Some. }
    specialize (Hfair i a x Ha Hi). assert (0 <= a); [|nia].
    apply (Forall_lookup_1 (fun a => 0 <= a) (percents ++ slack) i); [by apply Forall_app|done]. }
  assert (Hlp : length percents = length (ocy_Occupants o)) by apply length_fmap.
  exists (take (length percents) all), (drop (length percents) all). rewrite length_app in Hlen.
  assert (Hsplit : Split o amount = list_to_map (zip (oc_ProjectID <$> ocy_Occupants o)
                                                   (take (length percents) all))).
  { unfold Split. rewrite (proj2 (Z.leb_gt amount 0)) by done. unfold Shared.
    rewrite bool_decide_false by done. cbn [negb orb]. rewrite Hw. unfold apportion.
    rewrite (proj2 (Z.leb_gt (Denominator o) 0)) by lia. fold all.
    rewrite <- (zip_with_take_r _ _ all), length_fmap, <- Hlp.
    rewrite split_nodup; [by rewrite (right_id_L ∅ (∪))|apply valid_declared| |done].
    apply Forall_take, Forall_forall. intros x Hx. pose proof (sumZ_elem all x Hall Hx).
    rewrite Forall_forall in Hall. specialize (Hall x Hx). cbn beta in Hall. unfold int64. nia. }
  split_and!; [done| | | | | |].
  - by unfold SplitMinor, Split.
  - rewrite length_take. lia.
  - by rewrite <- sumZ_app, take_drop.
  - by apply Forall_drop.
  - intros H. apply drop_ge. rewrite Hlen, Hs1 by done. cbn. lia.
  - intros i x p Hx Hp. apply lookup_take_Some in Hp as [Hp Hi]. apply (Hfair i); [|done].
    rewrite lookup_app_l by lia. unfold percents. by rewrite list_lookup_fmap, Hx.
Qed.
End Range.

(** ** Properties *)

(** [ValidateOccupants] accepts exactly the sets that name each project once, by
    a project, with shares between 1 and 100. *)
Lemma ValidateOccupants_iff occupants :
  ValidateOccupants occupants = None <->
  NoDup (oc_ProjectID <$> occupants) /\
  Forall (fun x => oc_ProjectID x <> "" /\ 1 <= oc_Percent x <= 100) occupants.
Proof.
  unfold ValidateOccupants. rewrite OrNil_None, validate_loop. unfold well_declared.
  assert (H : forall x : Occupant, (oc_ProjectID x <> "" /\ 1 <= oc_Percent x <= 100) <->
    (oc_ProjectID x <> "" /\ (oc_ProjectID x ∉ (∅ : gset string)) /\ 1 <= oc_Percent x <= 100)).
  { intros x. split; [intros [? ?]; split_and!; try done; set_solver|by intros (? & _ & ?)]. }
  rewrite !Forall_forall. setoid_rewrite H. done.
Qed.

(** Validated occupants share an amount without gaining a unit: the
    parts never exceed the amount, they are the whole amount when 100 percent or
    more is declared, and every occupant gets its declared share to within one
    unit. What is not declared is attributed to nobody rather than spread. Money
    is split by the same rule. *)
Theorem Split_fair o amount :
  ValidateOccupants (ocy_Occupants o) = None -> split_in_range o amount ->
  let m := Split o amount in
  let whole := sumZ (snd <$> map_to_list m) in
  SplitMinor o amount = m /\
  whole <= amount /\
  (Shared o = true -> 100 <= DeclaredPercent o -> whole = amount) /\
  (forall x, x ∈ ocy_Occupants o -> exists p, m !! oc_ProjectID x = Some p /\
     Z.abs (p * Denominator o - amount * oc_Percent x) < Denominator o).
Proof.
  intros Hv Hr m whole.
  destruct (decide (ocy_Occupants o = [])) as [He|Hne].
  { assert (Shared o = false) by (unfold Shared; by rewrite bool_decide_true).
    destruct Hr as [Hpos _].
    subst whole m. unfold Split, SplitMinor. rewrite H, orb_true_r, He.
    split_and!; [done|rewrite map_to_list_empty; simpl; lia|done|by intros ? ?%elem_of_nil]. }
  destruct (Split_parts o amount Hv Hr Hne) as (parts & rest & Hm & Hmin & Hlen & Hsum & Hrest & Hfull & Hfair).
  assert (Hnd : NoDup (zip (oc_ProjectID <$> ocy_Occupants o) parts).*1).
  { rewrite fst_zip by (rewrite length_fmap; lia). apply ValidateOccupants_iff. done. }
  assert (Hw : whole = sumZ parts).
  { subst whole m. rewrite Hm, (map_to_list_to_map _ Hnd), snd_zip; [done|]. rewrite length_fmap. lia. }
  pose proof (sumZ_nonneg _ Hrest).
  split_and!; [done|lia| |].
  - intros _. rewrite (declared_sum o amount Hv Hr). intros Hf. rewrite (Hfull Hf) in Hsum. simpl in Hsum. lia.
  - intros x [i Hi]%list_elem_of_lookup. pose proof Hi as Hi'. apply lookup_lt_Some in Hi'.
    destruct (lookup_lt_is_Some_2 parts i) as [p Hp]; [lia|].
    exists p. split; [|by eapply Hfair]. subst m. rewrite Hm. apply elem_of_list_to_map_1; [done|].
    apply list_elem_of_lookup. exists i. apply lookup_zip_Some. by rewrite list_lookup_fmap, Hi.
Qed.

Definition sample_occupants : list Occupant :=
  [ {| oc_AssetID := "a"; oc_ProjectID := "p1"; oc_Percent := 60; oc_Note := None;
       oc_ProjectCode := "WEB"; oc_CreatedAt := ""; oc_UpdatedAt := "" |};
    {| oc_AssetID := "a"; oc_ProjectID := "p2"; oc_Percent := 30; oc_Note := None;
       oc_ProjectCode := "DB"; oc_CreatedAt := ""; oc_UpdatedAt := "" |} ].

Definition sample_occupancy : Occupancy :=
  {| ocy_AssetID := "a"; ocy_AssetName := "host"; ocy_Occupants := sample_occupants |}.

Lemma Split_fair_witness :
  sumZ (snd <$> map_to_list (Split sample_occupancy 1001)) <= 1001 /\
  map_to_list (Split sample_occupancy 1001) ≡ₚ [("p1", 601); ("p2", 300)].
Proof.
  split; [|vm_compute; reflexivity].
  apply (Split_fair sample_occupancy 1001); [vm_compute; reflexivity|split; vm_compute; reflexivity].
Defined.
