(* ===== verification/Timestamps.v ===== *)
(** Stored dates and timestamps: [internal/domain/time.go].

    A stored date or timestamp is a string, compared as one. A [time.Time] in
    UTC is the number of nanoseconds since 1970, [Time] below; [time.Duration]
    is an [int64] of nanoseconds. [ParseDate] and [ParseTime] are Go's
    [time.Parse] at the layouts 2006-01-02 and 2006-01-02T15:04:05Z, with what
    that function accepts beyond the layout: an hour of one digit, and a
    fraction after the seconds. *)
From Stdlib Require Import String Ascii ZArith Lia.
From stdpp Require Import base gmap strings list.
From S2P Require Import Prelude Text Errors.

#[local] Open Scope string_scope.
#[local] Open Scope list_scope.
#[local] Open Scope Z_scope.

(** * Definitions *)

(** ** Dates *)

Record Date := { dt_Year : Z; dt_Month : Z; dt_Day : Z }.

Definition isLeap (year : Z) : bool :=
  (year mod 4 =? 0) && (negb (year mod 100 =? 0) || (year mod 400 =? 0)).

Definition daysIn (month year : Z) : Z :=
  if (month =? 2) then (if isLeap year then 29 else 28)
  else if (month =? 4) || (month =? 6) || (month =? 9) || (month =? 11) then 30 else 31.

Definition dash (a : ascii) : bool := Ascii.eqb a "-".

(** [ParseDate]: [time.Parse("2006-01-02", s)]. *)
Definition ParseDate (s : string) : option Date :=
  match s with
  | String a (String b (String c (String d (String e (String f (String g
      (String h (String i (String j EmptyString))))))))) =>
      y1 ← digit a; y2 ← digit b; y3 ← digit c; y4 ← digit d;
      m1 ← digit f; m2 ← digit g; d1 ← digit i; d2 ← digit j;
      let year := 1000 * y1 + 100 * y2 + 10 * y3 + y4 in
      let month := 10 * m1 + m2 in
      let day := 10 * d1 + d2 in
      if dash e && dash h && (1 <=? month) && (month <=? 12) && (1 <=? day) &&
         (day <=? daysIn month year)
      then Some {| dt_Year := year; dt_Month := month; dt_Day := day |} else None
  | _ => None
  end.

(** [time.Time.Before], on midnights of calendar days. *)
Definition Before (a b : Date) : bool :=
  (dt_Year a <? dt_Year b) ||
  ((dt_Year a =? dt_Year b) &&
     ((dt_Month a <? dt_Month b) || ((dt_Month a =? dt_Month b) && (dt_Day a <? dt_Day b)))).

(** ** Instants *)

(** [time.Time], in UTC. *)
Abbreviation Time := Z (only parsing).

Definition Second : Z := 1000000000.
Definition Minute : Z := 60 * Second.
Definition Hour : Z := 60 * Minute.
Definition Day : Z := 24 * Hour.

(** [time.Time.Sub]: the difference, held at the ends of [time.Duration]. *)
Definition Sub (t u : Time) : Z := Z.max (- 2 ^ 63) (Z.min (2 ^ 63 - 1) (t - u)).

(** [time.Time.Before] and [time.Time.After], on instants. *)
Definition TimeBefore (t u : Time) : bool := t <? u.
Definition TimeAfter (t u : Time) : bool := u <? t.

(** Days from 1 January of year 0 to 1 January of [year]. *)
Definition daysBeforeYear (year : Z) : Z :=
  365 * year + (year + 3) / 4 - (year + 99) / 100 + (year + 399) / 400.

(** Days of the first [k] months of [year]. *)
Fixpoint monthsDays (year : Z) (k : nat) : Z :=
  match k with
  | O => 0
  | S k' => monthsDays year k' + daysIn (Z.of_nat k) year
  end.

(** 1 January 1970, counted from year 0. *)
Definition epochDay : Z := 719528.

(** The day of a date, from 1970. *)
Definition dayOf (d : Date) : Z :=
  daysBeforeYear (dt_Year d) + monthsDays (dt_Year d) (Z.to_nat (dt_Month d - 1)) +
  (dt_Day d - 1) - epochDay.

(** The year that holds a day counted from year 0: the mean year is 146097 / 400
    days, and the year it gives is at most one off. *)
Definition yearOf (n : Z) : Z :=
  let y := 400 * n / 146097 in
  if n <? daysBeforeYear y then y - 1
  else if daysBeforeYear (y + 1) <=? n then y + 1 else y.

(** The month and day of the month of a day of the year, from month [month]. *)
Fixpoint monthOf (year : Z) (later : nat) (month day : Z) : Z * Z :=
  match later with
  | O => (month, day)
  | S later' =>
      if day <? daysIn month year then (month, day)
      else monthOf year later' (month + 1) (day - daysIn month year)
  end.

(** [time.Time.Date], of a day from 1970. *)
Definition dateOf (day : Z) : Date :=
  let n := day + epochDay in
  let year := yearOf n in
  let '(month, d) := monthOf year 11 1 (n - daysBeforeYear year) in
  {| dt_Year := year; dt_Month := month; dt_Day := d + 1 |}.

(** ** Timestamps as text *)

Definition digit_char (d : Z) : ascii := ascii_of_N (48 + Z.to_N d).

(** Two digits. *)
Definition pad2 (n : Z) : string :=
  String (digit_char (n / 10)) (String (digit_char (n mod 10)) "").

(** At least four digits. *)
Definition pad4 (n : Z) : string :=
  if n <=? 9999 then pad2 (n / 100) +++ pad2 (n mod 100) else Itoa n.

Definition year_text (year : Z) : string :=
  if year <? 0 then "-" +++ pad4 (- year) else pad4 year.

(** [time.Time.Format] at [DateFormat]. *)
Definition date_text (d : Date) : string :=
  year_text (dt_Year d) +++ "-" +++ pad2 (dt_Month d) +++ "-" +++ pad2 (dt_Day d).

(** [FormatTime]: whole seconds, rounded down. *)
Definition FormatTime (t : Time) : string :=
  let secs := t / Second in
  let clock := secs mod 86400 in
  date_text (dateOf (secs / 86400)) +++ "T" +++ pad2 (clock / 3600) +++ ":" +++
  pad2 (clock / 60 mod 60) +++ ":" +++ pad2 (clock mod 60) +++ "Z".

(** [FormatDate] *)
Definition FormatDate (t : Time) : string := date_text (dateOf (t / Day)).

(** [NullableTime] *)
Definition NullableTime (t : option Time) : option string := FormatTime <$> t.

(** One literal byte of the layout. *)
Definition expect (c : ascii) (s : string) : option string :=
  match s with
  | String a s' => if Ascii.eqb a c then Some s' else None
  | EmptyString => None
  end.

(** Go's [getnum]: two digits, or one where the layout is not [fixed]. *)
Definition getnum (fixed : bool) (s : string) : option (Z * string) :=
  match s with
  | EmptyString => None
  | String a s1 =>
      d1 ← digit a;
      match s1 with
      | String b s2 =>
          match digit b with
          | Some d2 => Some (10 * d1 + d2, s2)
          | None => if fixed then None else Some (d1, s1)
          end
      | EmptyString => if fixed then None else Some (d1, s1)
      end
  end.

(** The digits in front of a string. *)
Fixpoint leading_digits (s : string) : list Z * string :=
  match s with
  | String a s' =>
      match digit a with
      | Some d => let '(l, rest) := leading_digits s' in (d :: l, rest)
      | None => ([], s)
      end
  | EmptyString => ([], s)
  end.

(** Go's [parseNanoseconds]: the first nine digits of a fraction. *)
Fixpoint nanoseconds (places : nat) (digits : list Z) : Z :=
  match places, digits with
  | S k, d :: l => d * 10 ^ Z.of_nat k + nanoseconds k l
  | _, _ => 0
  end.

(** A fraction of a second, accepted after the seconds although the layout has
    none: a period or a comma, and at least one digit. *)
Definition fraction (s : string) : Z * string :=
  match s with
  | String a s' =>
      if Ascii.eqb a "." || Ascii.eqb a "," then
        match leading_digits s' with
        | ([], _) => (0, s)
        | (l, rest) => (nanoseconds 9 l, rest)
        end
      else (0, s)
  | EmptyString => (0, s)
  end.

(** The four digits of a year. *)
Definition getyear (s : string) : option (Z * string) :=
  '(hi, s1) ← getnum true s; '(lo, s2) ← getnum true s1; Some (100 * hi + lo, s2).

(** [ParseTime] *)
Definition ParseTime (s : string) : option Time :=
  '(year, s) ← getyear s; s ← expect "-" s;
  '(month, s) ← getnum true s;
  if (month <? 1) || (12 <? month) then None else
  s ← expect "-" s;
  '(day, s) ← getnum true s; s ← expect "T" s;
  '(hour, s) ← getnum false s;
  if 24 <=? hour then None else
  s ← expect ":" s;
  '(minute, s) ← getnum true s;
  if 60 <=? minute then None else
  s ← expect ":" s;
  '(sec, s) ← getnum true s;
  if 60 <=? sec then None else
  let '(nsec, s) := fraction s in
  s ← expect "Z" s;
  if negb (String.eqb s "") || (day <? 1) || (daysIn month year <? day) then None else
  Some ((((dayOf {| dt_Year := year; dt_Month := month; dt_Day := day |} * 24 + hour) * 60 +
           minute) * 60 + sec) * Second + nsec).

Example ParseTime_epoch : ParseTime "1970-01-02T00:00:01Z" = Some (Day + Second).
Proof. vm_compute. reflexivity. Qed.
Example ParseTime_lenient :
  ParseTime "2026-08-01T9:59:59Z" = Some 1785578399000000000 /\
  ParseTime "2026-08-01T09:59:59Z" = Some 1785578399000000000 /\
  ParseTime "2026-08-01T09:59:59,25Z" = Some 1785578399250000000.
Proof. vm_compute. split_and!; reflexivity. Qed.
Example FormatTime_leap : FormatTime 1709164800000000000 = "2024-02-29T00:00:00Z".
Proof. vm_compute. reflexivity. Qed.

(** [checkDate]: the failures, and the value to keep. *)
Definition checkDate (ve : ValidationError) (field : string) (value : option string)
    : ValidationError * option string :=
  match value with
  | None => (ve, None)
  | Some v =>
      let trimmed := TrimSpace v in
      if String.eqb trimmed "" then (ve, None)
      else match ParseDate trimmed with
           | None => (Add ve field "must be a real date in the form 2006-01-02", value)
           | Some _ => (ve, Some trimmed)
           end
  end.

(** * Lemmas *)

(** ** Dates sort as strings *)

Lemma digit_compare a b i j :
  digit a = Some i -> digit b = Some j -> Ascii.compare a b = Z.compare i j.
Proof.
  unfold digit, Ascii.compare. repeat case_match; try done. intros [= <-] [= <-].
  destruct (N.compare_spec (N_of_ascii a) (N_of_ascii b)),
    (Z.compare_spec (Z.of_N (N_of_ascii a) - 48) (Z.of_N (N_of_ascii b) - 48)); done || lia.
Qed.

Lemma dash_compare a b : dash a = true -> dash b = true -> Ascii.compare a b = Eq.
Proof. unfold dash. intros ->%Ascii.eqb_eq ->%Ascii.eqb_eq. reflexivity. Qed.

(** The ten characters of a date that parses. *)
Lemma ParseDate_inv s t :
  ParseDate s = Some t ->
  exists a b c d e f g h i j y1 y2 y3 y4 m1 m2 d1 d2,
    s = String a (String b (String c (String d (String e (String f (String g
      (String h (String i (String j EmptyString))))))))) /\
    (digit a = Some y1 /\ digit b = Some y2 /\ digit c = Some y3 /\ digit d = Some y4) /\
    (dash e = true /\ digit f = Some m1 /\ digit g = Some m2) /\
    (dash h = true /\ digit i = Some d1 /\ digit j = Some d2) /\
    dt_Year t = 1000 * y1 + 100 * y2 + 10 * y3 + y4 /\
    dt_Month t = 10 * m1 + m2 /\ dt_Day t = 10 * d1 + d2 /\
    1 <= dt_Month t <= 12 /\ 1 <= dt_Day t <= daysIn (dt_Month t) (dt_Year t).
Proof.
  unfold ParseDate. intros H.
  destruct s as [|a [|b [|c [|d [|e [|f [|g [|h [|i [|j [|]]]]]]]]]]]; try done.
  destruct (digit a) as [y1|] eqn:Ea; [|done]. destruct (digit b) as [y2|] eqn:Eb; [|done].
  destruct (digit c) as [y3|] eqn:Ec; [|done]. destruct (digit d) as [y4|] eqn:Ed; [|done].
  destruct (digit f) as [m1|] eqn:Ef; [|done]. destruct (digit g) as [m2|] eqn:Eg; [|done].
  destruct (digit i) as [d1|] eqn:Ei; [|done]. destruct (digit j) as [d2|] eqn:Ej; [|done].
  unfold mbind, option_bind in H.
  case_match eqn:E; [|done]. injection H as <-. rewrite !andb_true_iff, !Z.leb_le in E. destruct E as [[[[[? ?] ?] ?] ?] ?].
  exists a, b, c, d, e, f, g, h, i, j, y1, y2, y3, y4, m1, m2, d1, d2. cbn [dt_Year dt_Month dt_Day].
  split_and!; done || lia.
Qed.

Lemma ParseDate_range s t :
  ParseDate s = Some t -> 0 <= dt_Year t <= 9999 /\ 1 <= dt_Month t <= 12 /\ 1 <= dt_Day t.
Proof.
  intros (a & b & c & d & e & f & g & h & i & j & y1 & y2 & y3 & y4 & m1 & m2 & d1 & d2 & _ &
    (?%digit_range & ?%digit_range & ?%digit_range & ?%digit_range) & _ & _ & ? & _ & _ & ? & ?)%ParseDate_inv.
  lia.
Qed.

(** Digits compare most significant first. *)
Definition lex (c d : comparison) : comparison := match c with Eq => d | r => r end.

(** [String.compare], one character at a time. *)
Lemma compare_cons a s b t :
  String.compare (String a s) (String b t) =
    lex (Ascii.compare a b) (String.compare s t).
Proof. cbn. by destruct (Ascii.compare a b). Qed.

Lemma lex_digits k a b x y d :
  0 <= x < k -> 0 <= y < k ->
  lex (Z.compare a b) (lex (Z.compare x y) d) = lex (Z.compare (k * a + x) (k * b + y)) d.
Proof.
  intros Hx Hy. destruct (Z.compare_spec a b), (Z.compare_spec x y),
    (Z.compare_spec (k * a + x) (k * b + y)); cbn [lex]; done || nia.
Qed.

(** Comparing two dates as strings compares their days, months and years. *)
Lemma ParseDate_compare s t a b :
  ParseDate s = Some a -> ParseDate t = Some b ->
  String.compare s t =
    lex (Z.compare (dt_Year a) (dt_Year b))
      (lex (Z.compare (dt_Month a) (dt_Month b)) (Z.compare (dt_Day a) (dt_Day b))).
Proof.
  intros (sa & sb & sc & sd & se & sf & sg & sh & si & sj & y1 & y2 & y3 & y4 & m1 & m2 & d1 & d2 &
      -> & (A1 & A2 & A3 & A4) & (A5 & A6 & A7) & (A8 & A9 & A10) & -> & -> & -> & _)%ParseDate_inv
    (ta & tb & tc & td & te & tf & tg & th & ti & tj & z1 & z2 & z3 & z4 & n1 & n2 & e1 & e2 &
      -> & (B1 & B2 & B3 & B4) & (B5 & B6 & B7) & (B8 & B9 & B10) & -> & -> & -> & _)%ParseDate_inv.
  rewrite !compare_cons, (digit_compare _ _ _ _ A1 B1), (digit_compare _ _ _ _ A2 B2),
    (digit_compare _ _ _ _ A3 B3), (digit_compare _ _ _ _ A4 B4), (dash_compare _ _ A5 B5),
    (digit_compare _ _ _ _ A6 B6), (digit_compare _ _ _ _ A7 B7), (dash_compare _ _ A8 B8),
    (digit_compare _ _ _ _ A9 B9), (digit_compare _ _ _ _ A10 B10).
  change (String.compare "" "") with Eq.
  apply digit_range in A1, A2, A3, A4, A6, A7, A9, A10, B1, B2, B3, B4, B6, B7, B9, B10.
  rewrite !(lex_digits 10) by lia.
  replace (1000 * y1 + 100 * y2 + 10 * y3 + y4) with (10 * (10 * (10 * y1 + y2) + y3) + y4) by lia.
  replace (1000 * z1 + 100 * z2 + 10 * z3 + z4) with (10 * (10 * (10 * z1 + z2) + z3) + z4) by lia.
  by destruct (10 * d1 + d2 ?= 10 * e1 + e2).
Qed.

Lemma ParseDate_Before s t a b :
  ParseDate s = Some a -> ParseDate t = Some b -> str_ltb s t = Before a b.
Proof.
  intros Hs Ht. unfold str_ltb, String.ltb, Before. rewrite (ParseDate_compare _ _ _ _ Hs Ht).
  destruct (Z.compare_spec (dt_Year a) (dt_Year b)), (Z.compare_spec (dt_Month a) (dt_Month b)),
    (Z.compare_spec (dt_Day a) (dt_Day b)); cbn [lex]; lia.
Qed.

(** Stored dates sort as strings: the bytewise order of two dates
    that parse is the order of their days, and two strings are equal exactly
    when their days are. So comparing the stored text, as [AppliesOn] and the
    queries do, compares the dates. *)
Theorem ParseDate_order s t a b :
  ParseDate s = Some a -> ParseDate t = Some b ->
  str_ltb s t = Before a b /\ (s = t <-> a = b).
Proof.
  intros Hs Ht. pose proof (ParseDate_compare _ _ _ _ Hs Ht) as H. split.
  - by apply ParseDate_Before.
  - split; [intros ->; congruence|]. intros ->. apply String.compare_eq_iff.
    by rewrite H, !Z.compare_refl.
Qed.

Lemma ParseDate_order_witness :
  str_ltb "2027-02-28" "2027-03-01" =
    Before {| dt_Year := 2027; dt_Month := 2; dt_Day := 28 |}
           {| dt_Year := 2027; dt_Month := 3; dt_Day := 1 |} /\
  ParseDate "2027-02-29" = None.
Proof.
  split; [|reflexivity]. by apply (ParseDate_order "2027-02-28" "2027-03-01").
Defined.

(** ** The calendar *)

(** Division by literals, for [lia]. *)
Ltac zdiv := Z.div_mod_to_equations; lia.

Definition yearDays (year : Z) : Z := if isLeap year then 366 else 365.

Lemma daysBeforeYear_step y : daysBeforeYear (y + 1) = daysBeforeYear y + yearDays y.
Proof.
  unfold daysBeforeYear, yearDays, isLeap.
  destruct (Z.eqb_spec (y mod 4) 0), (Z.eqb_spec (y mod 100) 0), (Z.eqb_spec (y mod 400) 0);
    cbn [negb andb orb]; zdiv.
Qed.

Lemma yearDays_bounds y : 365 <= yearDays y <= 366.
Proof. unfold yearDays. case_match; lia. Qed.

Lemma daysBeforeYear_mono a b : a < b -> daysBeforeYear (a + 1) <= daysBeforeYear b.
Proof.
  intros H. replace b with (a + 1 + Z.of_nat (Z.to_nat (b - (a + 1)))) by lia.
  induction (Z.to_nat (b - (a + 1))) as [|k IH]; [rewrite Z.add_0_r; lia|].
  rewrite Nat2Z.inj_succ. unfold Z.succ. rewrite Z.add_assoc, (daysBeforeYear_step (a + 1 + _)).
  pose proof (yearDays_bounds (a + 1 + Z.of_nat k)). lia.
Qed.

Lemma yearOf_spec n : daysBeforeYear (yearOf n) <= n < daysBeforeYear (yearOf n + 1).
Proof.
  unfold yearOf.
  destruct (Z.ltb_spec n (daysBeforeYear (400 * n / 146097))) as [H|H].
  - split; [|replace (_ - 1 + 1) with (400 * n / 146097) by lia; done].
    clear H. unfold daysBeforeYear. zdiv.
  - destruct (Z.leb_spec (daysBeforeYear (400 * n / 146097 + 1)) n) as [H'|H']; [|lia].
    split; [done|]. clear H H'. unfold daysBeforeYear. zdiv.
Qed.

Lemma yearOf_unique n y : daysBeforeYear y <= n < daysBeforeYear (y + 1) -> yearOf n = y.
Proof.
  intros H. pose proof (yearOf_spec n).
  destruct (Z.lt_trichotomy (yearOf n) y) as [Hl|[?|Hl]]; [|done|];
    apply daysBeforeYear_mono in Hl; lia.
Qed.

Lemma months_year y : monthsDays y 12 = yearDays y.
Proof. cbn. unfold yearDays, daysIn. cbn. by destruct (isLeap y). Qed.

Lemma daysIn_bounds m y : 28 <= daysIn m y <= 31.
Proof. unfold daysIn. repeat case_match; lia. Qed.

(** The days before month [m], for months as numbers. *)
Definition beforeMonth (y m : Z) : Z := monthsDays y (Z.to_nat (m - 1)).

Lemma beforeMonth_step y m : 1 <= m -> beforeMonth y (m + 1) = beforeMonth y m + daysIn m y.
Proof.
  intros H. unfold beforeMonth. replace (Z.to_nat (m + 1 - 1)) with (S (Z.to_nat (m - 1))) by lia.
  cbn [monthsDays]. by replace (Z.of_nat (S (Z.to_nat (m - 1)))) with m by lia.
Qed.

Lemma beforeMonth_mono y a b : 1 <= a -> a < b -> beforeMonth y (a + 1) <= beforeMonth y b.
Proof.
  intros Ha H. replace b with (a + 1 + Z.of_nat (Z.to_nat (b - (a + 1)))) by lia.
  induction (Z.to_nat (b - (a + 1))) as [|k IH]; [rewrite Z.add_0_r; lia|].
  rewrite Nat2Z.inj_succ. unfold Z.succ. rewrite Z.add_assoc, (beforeMonth_step y (a + 1 + _)) by lia.
  pose proof (daysIn_bounds (a + 1 + Z.of_nat k) y). lia.
Qed.

Lemma monthOf_spec y k m d m' d' :
  1 <= m -> Z.of_nat k = 12 - m -> 0 <= d < yearDays y - beforeMonth y m ->
  monthOf y k m d = (m', d') ->
  m <= m' <= 12 /\ 0 <= d' < daysIn m' y /\ beforeMonth y m + d = beforeMonth y m' + d'.
Proof.
  revert m d. induction k as [|k IH]; intros m d Hm Hk Hd; cbn [monthOf].
  - intros [= <- <-]. assert (m = 12) as -> by lia. split_and!; try lia.
    rewrite <- months_year in Hd. change (monthsDays y 12) with (beforeMonth y (12 + 1)) in Hd.
    rewrite beforeMonth_step in Hd by lia. lia.
  - destruct (Z.ltb_spec d (daysIn m y)) as [Hlt|Hge]; [intros [= <- <-]; lia|].
    intros H. pose proof (beforeMonth_step y m Hm).
    apply IH in H; lia.
Qed.

Definition valid_date (d : Date) : Prop :=
  1 <= dt_Month d <= 12 /\ 1 <= dt_Day d <= daysIn (dt_Month d) (dt_Year d).

Lemma dayOf_before d : dayOf d + epochDay =
  daysBeforeYear (dt_Year d) + beforeMonth (dt_Year d) (dt_Month d) + (dt_Day d - 1).
Proof. unfold dayOf, beforeMonth. lia. Qed.

(** Every day has a date, and it is the day's. *)
Lemma dateOf_spec n : valid_date (dateOf n) /\ dayOf (dateOf n) = n.
Proof.
  unfold dateOf. set (m := n + epochDay). pose proof (yearOf_spec m) as Hy.
  rewrite daysBeforeYear_step in Hy.
  destruct (monthOf (yearOf m) 11 1 (m - daysBeforeYear (yearOf m))) as [mo d] eqn:E.
  apply monthOf_spec in E; [|lia..|change (beforeMonth (yearOf m) 1) with 0; lia].
  change (beforeMonth (yearOf m) 1) with 0 in E.
  split; [unfold valid_date; cbn [dt_Month dt_Day dt_Year]; lia|].
  pose proof (dayOf_before {| dt_Year := yearOf m; dt_Month := mo; dt_Day := d + 1 |}) as H.
  cbn [dt_Month dt_Day dt_Year] in H. unfold m in *. lia.
Qed.

(** A date lies in its month, and its month in its year. *)
Lemma dayOf_year d :
  valid_date d ->
  daysBeforeYear (dt_Year d) <= dayOf d + epochDay < daysBeforeYear (dt_Year d + 1).
Proof.
  intros [Hm Hd]. rewrite dayOf_before, daysBeforeYear_step, <- months_year.
  change (monthsDays ?y 12) with (beforeMonth y (12 + 1)).
  assert (beforeMonth (dt_Year d) (dt_Month d + 1) <= beforeMonth (dt_Year d) (12 + 1))
    by (apply beforeMonth_mono; lia).
  assert (0 <= beforeMonth (dt_Year d) (dt_Month d)).
  { destruct (decide (dt_Month d = 1)) as [->|]; [done|].
    pose proof (beforeMonth_mono (dt_Year d) 1 (dt_Month d) ltac:(lia) ltac:(lia)) as Hj.
    rewrite beforeMonth_step in Hj by lia. change (beforeMonth (dt_Year d) 1) with 0 in Hj.
    pose proof (daysIn_bounds 1 (dt_Year d)). lia. }
  rewrite (beforeMonth_step _ (dt_Month d)) in * by lia. lia.
Qed.

Lemma dayOf_lt a b : valid_date a -> valid_date b -> Before a b = true -> dayOf a < dayOf b.
Proof.
  intros Ha Hb H. pose proof (dayOf_year a Ha). pose proof (dayOf_year b Hb).
  destruct Ha as [Hma Hda], Hb as [Hmb Hdb].
  unfold Before in H. rewrite !orb_true_iff, !andb_true_iff, !orb_true_iff, !andb_true_iff,
    !Z.ltb_lt, !Z.eqb_eq in H.
  pose proof (dayOf_before a). pose proof (dayOf_before b).
  destruct H as [H|[Hy [H|[Hm H]]]].
  - apply daysBeforeYear_mono in H. lia.
  - rewrite Hy in *. pose proof (beforeMonth_mono (dt_Year b) (dt_Month a) _ ltac:(lia) H).
    rewrite (beforeMonth_step _ (dt_Month a)) in * by lia. lia.
  - rewrite Hy, Hm in *. lia.
Qed.

Lemma Before_total a b : Before a b = false -> Before b a = false -> a = b.
Proof. destruct a, b. unfold Before. cbn. intros. f_equal; lia. Qed.

(** The order of dates is the order of their days. *)
Lemma dayOf_Before a b : valid_date a -> valid_date b -> Before a b = (dayOf a <? dayOf b).
Proof.
  intros Ha Hb. destruct (Before a b) eqn:E; [pose proof (dayOf_lt a b Ha Hb E); lia|].
  destruct (Before b a) eqn:E'; [pose proof (dayOf_lt b a Hb Ha E'); lia|].
  rewrite (Before_total a b E E'). lia.
Qed.

Lemma dayOf_inj a b : valid_date a -> valid_date b -> dayOf a = dayOf b -> a = b.
Proof.
  intros Ha Hb H. apply Before_total; rewrite dayOf_Before by done; lia.
Qed.

Lemma dateOf_dayOf d : valid_date d -> dateOf (dayOf d) = d.
Proof. intros H. apply dayOf_inj; [apply dateOf_spec|done|apply dateOf_spec]. Qed.

(** ** Fixed-width fields *)

Lemma digit_digit_char d : 0 <= d <= 9 -> digit (digit_char d) = Some d.
Proof.
  intros H. assert (Hd : In d [0; 1; 2; 3; 4; 5; 6; 7; 8; 9]) by (cbn; lia).
  cbn in Hd. repeat destruct Hd as [<-|Hd]; done.
Qed.

Lemma digit_char_digit c d : digit c = Some d -> digit_char d = c.
Proof.
  unfold digit, digit_char. case_match; [|done]. intros [= <-].
  replace (48 + Z.to_N (Z.of_N (N_of_ascii c) - 48))%N with (N_of_ascii c) by lia.
  apply ascii_N_embedding.
Qed.

Lemma pad2_cons n s :
  pad2 n +++ s = String (digit_char (n / 10)) (String (digit_char (n mod 10)) s).
Proof. reflexivity. Qed.

Lemma pad2_digits n :
  0 <= n < 100 ->
  digit (digit_char (n / 10)) = Some (n / 10) /\ digit (digit_char (n mod 10)) = Some (n mod 10).
Proof. intros H. split; apply digit_digit_char; zdiv. Qed.

Lemma getnum_pad2 fixed n s : 0 <= n < 100 -> getnum fixed (pad2 n +++ s) = Some (n, s).
Proof.
  intros H. destruct (pad2_digits n H) as [H1 H2]. rewrite pad2_cons. cbn [getnum].
  rewrite H1. cbn [mbind option_bind]. rewrite H2. do 2 f_equal. zdiv.
Qed.

Lemma pad2_compare a b s t :
  0 <= a < 100 -> 0 <= b < 100 ->
  String.compare (pad2 a +++ s) (pad2 b +++ t) = lex (Z.compare a b) (String.compare s t).
Proof.
  intros Ha Hb. destruct (pad2_digits a Ha) as [A1 A2], (pad2_digits b Hb) as [B1 B2].
  rewrite !pad2_cons, !compare_cons, (digit_compare _ _ _ _ A1 B1), (digit_compare _ _ _ _ A2 B2).
  rewrite (lex_digits 10) by (apply Z.mod_pos_bound; lia).
  by rewrite <- (Z.div_mod a 10), <- (Z.div_mod b 10) by lia.
Qed.

(** What [getnum] reads is two digits, or one where that is allowed. *)
Lemma getnum_inv fixed s n r :
  getnum fixed s = Some (n, r) ->
  (0 <= n < 100 /\ s = pad2 n +++ r) \/
  (fixed = false /\ 0 <= n <= 9 /\ s = String (digit_char n) r).
Proof.
  unfold getnum. destruct s as [|a s1]; [done|].
  destruct (digit a) as [d1|] eqn:Ha; [|done]. cbn [mbind option_bind].
  pose proof (digit_range _ _ Ha). intros H0.
  assert (H1 : (exists b s2 d2, s1 = String b s2 /\ digit b = Some d2 /\ n = 10 * d1 + d2 /\ r = s2) \/
               (fixed = false /\ n = d1 /\ r = s1)).
  { destruct s1 as [|b s2]; [destruct fixed; [done|]; injection H0 as <- <-; auto|].
    destruct (digit b) as [d2|] eqn:Hb; [injection H0 as <- <-; left; eauto 8|].
    destruct fixed; [done|]. injection H0 as <- <-. auto. }
  destruct H1 as [(b & s2 & d2 & -> & Hb & -> & ->)|(-> & -> & ->)].
  - left. pose proof (digit_range _ _ Hb). split; [lia|]. rewrite pad2_cons.
    replace ((10 * d1 + d2) / 10) with d1 by zdiv.
    replace ((10 * d1 + d2) mod 10) with d2 by zdiv.
    by rewrite (digit_char_digit a), (digit_char_digit b).
  - right. split_and!; [done|lia..|]. by rewrite (digit_char_digit a).
Qed.

Lemma expect_inv c s r : expect c s = Some r -> s = String c r.
Proof.
  destruct s as [|a s]; cbn; [done|]. destruct (Ascii.eqb_spec a c) as [->|]; [|done].
  by intros [= ->].
Qed.

Lemma leading_digits_length s l r :
  leading_digits s = (l, r) -> (String.length r + length l = String.length s)%nat.
Proof.
  revert l r. induction s as [|a s IH]; intros l r; cbn; [by intros [= <- <-]|].
  destruct (digit a); [|by intros [= <- <-]].
  destruct (leading_digits s) as [l' r'] eqn:E. intros [= <- <-].
  cbn. specialize (IH _ _ eq_refl). lia.
Qed.

Lemma fraction_inv s n r :
  fraction s = (n, r) -> (n = 0 /\ r = s) \/ (String.length r + 2 <= String.length s)%nat.
Proof.
  unfold fraction. destruct s as [|a s]; [intros [= <- <-]; auto|].
  destruct (_ || _); [|intros [= <- <-]; auto].
  destruct (leading_digits s) as [l r'] eqn:E. apply leading_digits_length in E.
  destruct l as [|d l]; intros [= <- <-]; [auto|]. cbn in *. lia.
Qed.

(** ** Timestamps sort as strings *)

(** The six fields of a timestamp, as text. *)
Definition stamp (d : Date) (h m s : Z) : string :=
  pad2 (dt_Year d / 100) +++ pad2 (dt_Year d mod 100) +++ String "-" (pad2 (dt_Month d) +++
  String "-" (pad2 (dt_Day d) +++ String "T" (pad2 h +++ String ":" (pad2 m +++ String ":"
  (pad2 s +++ String "Z" "")))))%char.

Definition clock_ok (h m s : Z) : Prop := 0 <= h < 24 /\ 0 <= m < 60 /\ 0 <= s < 60.

Definition date_ok (d : Date) : Prop := valid_date d /\ 0 <= dt_Year d <= 9999.

(** The instant of the six fields. *)
Definition instant (d : Date) (h m s : Z) : Time :=
  (((dayOf d * 24 + h) * 60 + m) * 60 + s) * Second.

(** The years the format can write in four digits. *)
Definition storable (t : Time) : Prop := 0 <= dt_Year (dateOf (t / Day)) <= 9999.

Lemma date_ok_fields d :
  date_ok d ->
  (0 <= dt_Year d / 100 < 100 /\ 0 <= dt_Year d mod 100 < 100) /\
  0 <= dt_Month d < 100 /\ 0 <= dt_Day d < 100.
Proof.
  intros [[Hm Hd] Hy]. pose proof (daysIn_bounds (dt_Month d) (dt_Year d)).
  split_and!; try lia; zdiv.
Qed.

Lemma ParseTime_stamp d h m s :
  date_ok d -> clock_ok h m s -> ParseTime (stamp d h m s) = Some (instant d h m s).
Proof.
  intros Hd (Hh & Hm & Hs). destruct (date_ok_fields d Hd) as [[Y1 Y2] [M D]].
  destruct Hd as [[Hmo Hday] _].
  unfold ParseTime, stamp, getyear. rewrite !getnum_pad2 by done. cbn [mbind option_bind].
  rewrite !getnum_pad2 by done. cbn [expect Ascii.eqb Bool.eqb mbind option_bind].
  rewrite !getnum_pad2 by lia. cbn [expect Ascii.eqb Bool.eqb mbind option_bind].
  replace ((dt_Month d <? 1) || (12 <? dt_Month d)) with false by lia.
  rewrite !getnum_pad2 by lia. cbn [expect Ascii.eqb Bool.eqb mbind option_bind].
  rewrite !getnum_pad2 by lia. cbn [expect Ascii.eqb Bool.eqb mbind option_bind].
  replace (24 <=? h) with false by lia. rewrite !getnum_pad2 by lia.
  cbn [expect Ascii.eqb Bool.eqb mbind option_bind].
  replace (60 <=? m) with false by lia. rewrite !getnum_pad2 by lia.
  cbn [expect fraction Ascii.eqb Bool.eqb orb mbind option_bind String.eqb negb].
  replace (60 <=? s) with false by lia.
  replace (100 * (dt_Year d / 100) + dt_Year d mod 100) with (dt_Year d) by zdiv.
  replace ((dt_Day d <? 1) || (daysIn (dt_Month d) (dt_Year d) <? dt_Day d)) with false by lia.
  cbn [orb]. destruct d. cbn [dt_Year dt_Month dt_Day]. unfold instant. f_equal. lia.
Qed.

(** The fields [FormatTime] writes. *)
Lemma FormatTime_stamp t :
  storable t ->
  let secs := t / Second in let clock := secs mod 86400 in
  FormatTime t = stamp (dateOf (secs / 86400)) (clock / 3600) (clock / 60 mod 60) (clock mod 60) /\
  date_ok (dateOf (secs / 86400)) /\ clock_ok (clock / 3600) (clock / 60 mod 60) (clock mod 60) /\
  instant (dateOf (secs / 86400)) (clock / 3600) (clock / 60 mod 60) (clock mod 60) = secs * Second.
Proof.
  intros H. cbv zeta. assert (E : t / Second / 86400 = t / Day)
    by (unfold Second, Day, Hour, Minute, Second; rewrite Z.div_div by lia; done).
  destruct (dateOf_spec (t / Day)) as [Hv Hd]. unfold storable in H.
  split_and!.
  - unfold FormatTime, date_text, year_text, pad4, stamp. rewrite E.
    replace (dt_Year (dateOf (t / Day)) <? 0) with false by lia.
    replace (dt_Year (dateOf (t / Day)) <=? 9999) with true by lia.
    rewrite !append_assoc. reflexivity.
  - rewrite E. by split.
  - set (secs := t / Second). split_and!; zdiv.
  - unfold instant. rewrite E, Hd, <- E. set (secs := t / Second). f_equal. zdiv.
Qed.

Lemma stamp_length d h m s : String.length (stamp d h m s) = 20%nat.
Proof. reflexivity. Qed.

Lemma lex_assoc a b c : lex (lex a b) c = lex a (lex b c).
Proof. by destruct a. Qed.

(** The fields of two dates compare as their days. *)
Lemma dayOf_compare a b :
  valid_date a -> valid_date b ->
  lex (Z.compare (dt_Year a) (dt_Year b))
    (lex (Z.compare (dt_Month a) (dt_Month b)) (Z.compare (dt_Day a) (dt_Day b))) =
  Z.compare (dayOf a) (dayOf b).
Proof.
  intros Ha Hb. pose proof (dayOf_Before a b Ha Hb) as H. pose proof (dayOf_Before b a Hb Ha) as H'.
  unfold Before in *.
  destruct (Z.compare_spec (dt_Year a) (dt_Year b)), (Z.compare_spec (dt_Month a) (dt_Month b)),
    (Z.compare_spec (dt_Day a) (dt_Day b)), (Z.compare_spec (dayOf a) (dayOf b)); cbn [lex]; done || lia.
Qed.

Lemma stamp_compare d h m s d' h' m' s' :
  date_ok d -> clock_ok h m s -> date_ok d' -> clock_ok h' m' s' ->
  String.compare (stamp d h m s) (stamp d' h' m' s') =
    Z.compare (instant d h m s) (instant d' h' m' s').
Proof.
  intros Hd (Hh & Hm & Hs) Hd' (Hh' & Hm' & Hs').
  destruct (date_ok_fields d Hd) as [[Y1 Y2] [M D]], (date_ok_fields d' Hd') as [[Y1' Y2'] [M' D']].
  unfold stamp. rewrite !pad2_compare, compare_cons by lia.
  do 5 (rewrite pad2_compare, compare_cons by lia).
  change (Ascii.compare ?a ?a) with Eq. change (String.compare "" "") with Eq. cbn [lex].
  rewrite (lex_digits 100), <- !Z.div_mod by lia.
  rewrite <- (lex_assoc (_ ?= _) (_ ?= _)), <- lex_assoc, !lex_assoc.
  rewrite <- (lex_assoc (Z.compare (dt_Month d) _)), <- (lex_assoc (Z.compare (dt_Year d) _)).
  rewrite dayOf_compare by (apply Hd || apply Hd').
  rewrite (lex_digits 24), (lex_digits 60), (lex_digits 60) by lia.
  unfold instant, Second.
  match goal with |- lex (?x ?= ?y) Eq = _ => destruct (Z.compare_spec x y) end; cbn [lex];
    symmetry; [apply Z.compare_eq_iff|apply Z.compare_lt_iff|apply Z.compare_gt_iff]; lia.
Qed.

Lemma getnum_fixed_inv s n r : getnum true s = Some (n, r) -> 0 <= n < 100 /\ s = pad2 n +++ r.
Proof. by intros [?|[? _]]%getnum_inv. Qed.

(** What follows the hour: the minutes, the seconds, perhaps a fraction. *)
Definition clock_rest (m s : Z) (rest : string) : string :=
  String ":" (pad2 m +++ String ":" (pad2 s +++ rest)).

(** Everything [ParseTime] accepts: the layout's text, but for the hour, which
    may have one digit, and a fraction after the seconds. *)
Lemma ParseTime_inv s t :
  ParseTime s = Some t ->
  exists d h m sec nsec hour rest,
    date_ok d /\ clock_ok h m sec /\ t = instant d h m sec + nsec /\
    s = date_text d +++ String "T" (hour +++ clock_rest m sec rest) /\
    (hour = pad2 h \/ h <= 9 /\ hour = String (digit_char h) "") /\
    fraction rest = (nsec, "Z").
Proof.
  unfold ParseTime, getyear. intros H.
  apply bind_Some in H as ([year s2] & Hy & H).
  apply bind_Some in Hy as ([hi s1] & [Hhi ->]%getnum_fixed_inv & Hy).
  apply bind_Some in Hy as ([lo s2'] & [Hlo ->]%getnum_fixed_inv & [= <- <-]).
  apply bind_Some in H as (s3 & ->%expect_inv & H).
  apply bind_Some in H as ([month s4] & [Hmo ->]%getnum_fixed_inv & H).
  destruct (_ || _) eqn:Em in H; [done|].
  apply bind_Some in H as (s5 & ->%expect_inv & H).
  apply bind_Some in H as ([day s6] & [Hd ->]%getnum_fixed_inv & H).
  apply bind_Some in H as (s7 & ->%expect_inv & H).
  apply bind_Some in H as ([h s8] & Hh & H).
  destruct (24 <=? h) eqn:Eh; [done|].
  apply bind_Some in H as (s9 & ->%expect_inv & H).
  apply bind_Some in H as ([m s10] & [Hm ->]%getnum_fixed_inv & H).
  destruct (60 <=? m) eqn:Emi; [done|].
  apply bind_Some in H as (s11 & ->%expect_inv & H).
  apply bind_Some in H as ([sec s12] & [Hs ->]%getnum_fixed_inv & H).
  destruct (60 <=? sec) eqn:Es; [done|].
  destruct (fraction s12) as [nsec s13] eqn:Ef.
  apply bind_Some in H as (s14 & ->%expect_inv & H).
  destruct (negb _ || _ || _) eqn:Ed; [done|]. injection H as <-.
  rewrite !orb_false_iff, negb_false_iff in Ed. destruct Ed as [[->%String.eqb_eq ?] ?].
  exists {| dt_Year := 100 * hi + lo; dt_Month := month; dt_Day := day |}, h, m, sec, nsec.
  assert (Hhour : exists hour, s7 = hour +++ String ":" (pad2 m +++ String ":" (pad2 sec +++ s12)) /\
    0 <= h /\ (hour = pad2 h \/ h <= 9 /\ hour = String (digit_char h) "")).
  { apply getnum_inv in Hh as [[? ->]|(_ & ? & ->)].
    - exists (pad2 h). split_and!; [done|lia|auto].
    - exists (String (digit_char h) ""). split_and!; [done|lia|right; split; [lia|done]]. }
  destruct Hhour as (hour & -> & Hh0 & Hhour). exists hour, s12.
  split_and!; try done; unfold date_ok, valid_date, clock_ok; cbn [dt_Year dt_Month dt_Day]; try lia.
  unfold date_text, year_text, pad4. cbn [dt_Year dt_Month dt_Day].
  replace (100 * hi + lo <? 0) with false by lia. replace (100 * hi + lo <=? 9999) with true by lia.
  replace ((100 * hi + lo) / 100) with hi by zdiv. replace ((100 * hi + lo) mod 100) with lo by zdiv.
  by rewrite !append_assoc.
Qed.

(** A timestamp of twenty characters that parses is one [FormatTime] writes. *)
Lemma ParseTime_canonical s t :
  ParseTime s = Some t -> String.length s = 20%nat ->
  exists d h m sec, s = stamp d h m sec /\ date_ok d /\ clock_ok h m sec /\ t = instant d h m sec.
Proof.
  intros (d & h & m & sec & nsec & hour & rest & Hd & Hc & -> & -> & Hhour & Hf)%ParseTime_inv Hlen.
  exists d, h, m, sec.
  assert (Hdt : date_text d = pad2 (dt_Year d / 100) +++ pad2 (dt_Year d mod 100) +++
    "-" +++ pad2 (dt_Month d) +++ "-" +++ pad2 (dt_Day d)).
  { unfold date_text, year_text, pad4. destruct Hd as [_ Hy].
    replace (dt_Year d <? 0) with false by lia. replace (dt_Year d <=? 9999) with true by lia.
    by rewrite append_assoc. }
  rewrite Hdt in *. unfold clock_rest in *.
  assert (Hl : (String.length hour + String.length rest = 3)%nat).
  { repeat first [rewrite append_length in Hlen | progress cbn [String.length pad2] in Hlen]. lia. }
  apply fraction_inv in Hf as [[-> Hr]|Hf]; cbn [String.length] in *;
    destruct Hhour as [->|[_ ->]]; cbn [String.length pad2] in *; try lia.
  - subst rest. split_and!; try done. lia.
  - subst rest. cbn in Hl. lia.
Qed.

(** [FormatTime] writes back the twenty characters it is read from. *)
Lemma FormatTime_instant d h m s :
  date_ok d -> clock_ok h m s -> FormatTime (instant d h m s) = stamp d h m s.
Proof.
  intros [Hv Hy] (Hh & Hm & Hs).
  assert (E : instant d h m s / Second = ((dayOf d * 24 + h) * 60 + m) * 60 + s)
    by (unfold instant; rewrite Z.div_mul; done).
  assert (Ed : instant d h m s / Day = dayOf d).
  { change Day with (Second * 86400). rewrite <- Z.div_div, E by (unfold Second; lia). zdiv. }
  assert (Hst : storable (instant d h m s)) by (unfold storable; by rewrite Ed, dateOf_dayOf).
  destruct (FormatTime_stamp _ Hst) as [-> _]. rewrite E.
  replace ((((dayOf d * 24 + h) * 60 + m) * 60 + s) / 86400) with (dayOf d) by zdiv.
  rewrite dateOf_dayOf by done. f_equal; zdiv.
Qed.

(** The string order of two timestamps in the stored form is the order of the
    instants they name. *)
Lemma FormatTime_ltb t u :
  storable t -> storable u -> str_ltb (FormatTime t) (FormatTime u) = (t / Second <? u / Second).
Proof.
  intros Ht Hu. destruct (FormatTime_stamp t Ht) as (-> & Hd & Hc & E),
    (FormatTime_stamp u Hu) as (-> & Hd' & Hc' & E').
  unfold str_ltb, String.ltb. rewrite stamp_compare, E, E' by done.
  unfold Second. destruct (Z.compare_spec (t / 1000000000 * 1000000000) (u / 1000000000 * 1000000000)); lia.
Qed.

Lemma ParseTime_FormatTime t : storable t -> ParseTime (FormatTime t) = Some (t / Second * Second).
Proof.
  intros Ht. destruct (FormatTime_stamp t Ht) as (-> & Hd & Hc & E). by rewrite ParseTime_stamp, E.
Qed.

Lemma FormatTime_ParseTime s t :
  ParseTime s = Some t -> String.length s = 20%nat -> storable t /\ FormatTime t = s.
Proof.
  intros H Hl. destruct (ParseTime_canonical s t H Hl) as (d & h & m & sec & -> & Hd & Hc & ->).
  split; [|by apply FormatTime_instant].
  unfold storable. destruct Hc as (Hh & Hm & Hs).
  replace (instant d h m sec / Day) with (dayOf d); [rewrite dateOf_dayOf; apply Hd|].
  change Day with (Second * 86400). rewrite <- Z.div_div by (unfold Second; lia).
  unfold instant. rewrite Z.div_mul by done. zdiv.
Qed.

(** [FormatTime] is constant within a second. *)
Lemma FormatTime_floor t : FormatTime (t / Second * Second) = FormatTime t.
Proof. unfold FormatTime. by rewrite Z.div_mul. Qed.

(** Stored timestamps mean what they sort as. Over the years a timestamp can
    name, writing an instant and reading it back gives the instant to the
    second; a text of twenty characters that is accepted is written back
    unchanged; and the bytewise order of two stored timestamps is the order of
    their seconds, so the string comparisons of the store compare times. *)
Theorem FormatTime_order t u :
  storable t -> storable u ->
  ParseTime (FormatTime t) = Some (t / Second * Second) /\
  str_ltb (FormatTime t) (FormatTime u) = (t / Second <? u / Second) /\
  forall s v, ParseTime s = Some v -> String.length s = 20%nat -> FormatTime v = s.
Proof.
  intros Ht Hu. split_and!.
  - by apply ParseTime_FormatTime.
  - by apply FormatTime_ltb.
  - intros s v Hp Hl. by apply FormatTime_ParseTime.
Qed.

Lemma FormatTime_order_witness :
  ParseTime (FormatTime 1709251199999999999) = Some 1709251199000000000 /\
  str_ltb (FormatTime 1709251199999999999) (FormatTime 1709251200000000000) = true.
Proof.
  assert (H : storable 1709251199999999999 /\ storable 1709251200000000000)
    by (vm_compute; repeat split; congruence).
  destruct (FormatTime_order 1709251199999999999 1709251200000000000) as (H1 & H2 & _); [apply H..|].
  split; [by rewrite H1|by rewrite H2].
Defined.

Lemma yearOf_mono a b : a <= b -> yearOf a <= yearOf b.
Proof.
  intros H. destruct (Z.le_gt_cases (yearOf a) (yearOf b)) as [?|Hl]; [done|].
  pose proof (yearOf_spec a). pose proof (yearOf_spec b).
  apply daysBeforeYear_mono in Hl. lia.
Qed.

Lemma dateOf_year n : dt_Year (dateOf n) = yearOf (n + epochDay).
Proof. unfold dateOf. by destruct (monthOf _ _ _ _). Qed.

(** The instants that can be written are an interval. *)
Lemma storable_between a b c : storable a -> storable c -> a <= b <= c -> storable b.
Proof.
  unfold storable. rewrite !dateOf_year. intros Ha Hc H.
  assert (a / Day <= b / Day <= c / Day) by (split; apply Z.div_le_mono; done || lia).
  pose proof (yearOf_mono (a / Day + epochDay) (b / Day + epochDay)).
  pose proof (yearOf_mono (b / Day + epochDay) (c / Day + epochDay)). lia.
Qed.

Lemma storable_floor t : storable t -> storable (t / Second * Second).
Proof.
  unfold storable. replace (t / Second * Second / Day) with (t / Day); [done|].
  change Day with (Second * 86400). rewrite <- !Z.div_div by done. by rewrite Z.div_mul.
Qed.

Lemma FormatTime_not_nil t : FormatTime t <> "".
Proof.
  intros H. apply (f_equal String.length) in H. unfold FormatTime in H.
  rewrite !append_length in H. change (String.length "T") with 1%nat in H.
  change (String.length "") with O in H. lia.
Qed.

(** A stored timestamp is not after the clock that was read before it. *)
Lemma FormatTime_le t u :
  storable t -> storable u -> t <= u -> str_ltb (FormatTime u) (FormatTime t) = false.
Proof.
  intros Ht Hu H. rewrite FormatTime_ltb by done. apply Z.ltb_ge, Z.div_le_mono; done.
Qed.
