(* ===== verification/Actors.v ===== *)
(** Who writes, and what a monitoring credential may write about: the actors of
    [internal/domain/dependency.go], and [internal/domain/agent.go].

    A credential's words are mapped to health states by a closed table of
    vocabularies; its scope is an explicit list of environment codes. *)
From Stdlib Require Import String Ascii ZArith Lia.
From stdpp Require Import base gmap strings list.
From S2P Require Import Prelude Text Errors.

#[local] Open Scope string_scope.
#[local] Open Scope list_scope.

(** * Definitions *)

(** ** Health states *)

(** [type HealthState string]. A value read from the database is any string; the
    four valid ones are those of [HealthStates]. *)
Definition HealthState := string.
Definition HealthUp : HealthState := "up".
Definition HealthDegraded : HealthState := "degraded".
Definition HealthDown : HealthState := "down".
Definition HealthUnknown : HealthState := "unknown".
Definition HealthStates : list HealthState := [HealthUp; HealthDegraded; HealthDown; HealthUnknown].

(** [HealthState.Valid] *)
Definition ValidHealth (h : HealthState) : bool := existsb (fun s => String.eqb h s) HealthStates.

(** [HealthStateNames] *)
Definition HealthStateNames : list string := HealthStates.

(** ** Actors *)

Definition ActorKindUser := "user".
Definition ActorKindAgent := "agent".
Definition ActorKindSystem := "system".
Definition ActorKinds := [ActorKindUser; ActorKindAgent; ActorKindSystem].

Record Actor := { ac_ID : string; ac_Name : string; ac_Kind : string }.

Definition SystemActor : Actor :=
  {| ac_ID := "system"; ac_Name := "system"; ac_Kind := ActorKindSystem |}.

Definition AgentActorPrefix := "monitor:".

(** [": \t\n"] *)
Definition reporter_stops : string := ": " +++ bytes_of [9%N; 10%N].

Section Credentials.
Context `{Unicode}.

(** [AgentActor] *)
Definition AgentActor (credentialID : string) : ValidationError + Actor :=
  let '(ve, id) := checkRequired [] "credential_id" credentialID in
  let ve :=
    if HasPrefix id AgentActorPrefix then
      Add ve "credential_id" ("is already namespaced; pass the bare credential id, not " +++ Quote id)
    else if ContainsAny id reporter_stops then
      Add ve "credential_id" "must not contain a colon or whitespace"
    else if negb (String.eqb id (ToLower id)) then
      Add ve "credential_id" "must be lower case, like every other identifier read from the environment"
    else ve in
  match OrNil ve with
  | Some e => inl e
  | None =>
      let namespaced := AgentActorPrefix +++ id in
      inr {| ac_ID := namespaced; ac_Name := namespaced; ac_Kind := ActorKindAgent |}
  end.

(** [Actor.IsAgent] *)
Definition IsAgent (a : Actor) : bool := String.eqb (ac_Kind a) ActorKindAgent.

(** [Actor.CredentialID] *)
Definition CredentialID (a : Actor) : option string :=
  if negb (IsAgent a) || negb (HasPrefix (ac_ID a) AgentActorPrefix) then None
  else Some (TrimPrefix (ac_ID a) AgentActorPrefix).

(** [Actor.Validate] *)
Definition ValidateActor (a : Actor) : option ValidationError :=
  let '(ve, _) := checkRequired [] "actor" (ac_ID a) in
  let ve := checkEnum ve "actor_kind" (ac_Kind a) ActorKinds in
  let namespaced := HasPrefix (ac_ID a) AgentActorPrefix in
  OrNil
    (if String.eqb (ac_Kind a) ActorKindAgent then
       if namespaced then ve
       else Add ve "actor" ("an agent actor must be built with domain.AgentActor: " +++
              Quote (ac_ID a) +++ " is missing the " +++ Quote AgentActorPrefix +++ " namespace")
     else if String.eqb (ac_Kind a) ActorKindUser || String.eqb (ac_Kind a) ActorKindSystem then
       if namespaced
       then Add ve "actor" ("a " +++ ac_Kind a +++ " actor must not carry the " +++
              Quote AgentActorPrefix +++ " namespace")
       else ve
     else ve).

Definition SourceDeclared := "declared".

(** [CheckProvenanceWrite] *)
Definition CheckProvenanceWrite (actor : Actor) (source : string) : option ValidationError :=
  if negb (String.eqb source SourceDeclared) || negb (String.eqb (ac_Kind actor) ActorKindAgent)
  then None
  else Some (Add [] "source" ("only a signed-in operator may assert source = " +++ Quote SourceDeclared +++
    "; a " +++ ac_Kind actor +++ " actor may set only a discovered_* value")).

(** [CheckAttestationWrite] *)
Definition CheckAttestationWrite (actor : Actor) : option ValidationError :=
  if String.eqb (ac_Kind actor) ActorKindUser then None
  else Some (Add [] "verified_by" ("only a signed-in operator may verify an edge; a " +++
    ac_Kind actor +++ " actor may not attest to one")).

(** ** Environment scope *)

Definition EnvironmentScope := list string.

(** [",:| \t\n"] *)
Definition code_stops : string := ",:| " +++ bytes_of [9%N; 10%N].

(** One turn of the loop of [NewEnvironmentScope]: [ve], [seen] and [out]. *)
Definition scope_step (st : ValidationError * gset string * list string) (raw : string)
    : ValidationError * gset string * list string :=
  let '(ve, seen, out) := st in
  let code := ToLower (TrimSpace raw) in
  if String.eqb code "" then st
  else if ContainsAny code code_stops
  then (Add ve "environments" (Quote code +++ " is not an environment code"), seen, out)
  else if decide (code ∈ seen) then st
  else (ve, {[code]} ∪ seen, out ++ [code]).

(** [NewEnvironmentScope] *)
Definition NewEnvironmentScope (codes : list string) : ValidationError + EnvironmentScope :=
  let '(ve, _, out) := foldl scope_step ([], ∅, []) codes in
  let ve := match out with
            | [] => Add ve "environments"
                "a monitoring credential must be scoped to at least one environment; there is no wildcard"
            | _ => ve
            end in
  match OrNil ve with Some e => inl e | None => inr (isort str_ltb out) end.

(** [EnvironmentScope.IsEmpty] *)
Definition ScopeEmpty (s : EnvironmentScope) : bool := (length s =? 0)%nat.

(** [EnvironmentScope.Canonical] *)
Definition Canonical (s : EnvironmentScope) (code : string) : option string :=
  List.find (fun c => String.eqb c (ToLower (TrimSpace code))) s.

(** [EnvironmentScope.Allows] *)
Definition Allows (s : EnvironmentScope) (code : string) : bool :=
  match Canonical s code with Some _ => true | None => false end.

(** [EnvironmentScope.AllowsAny] *)
Definition AllowsAny (s : EnvironmentScope) (codes : list string) : bool := existsb (Allows s) codes.

(** [EnvironmentScope.AllowsAll] *)
Definition AllowsAll (s : EnvironmentScope) (codes : list string) : bool :=
  match codes with [] => false | _ => forallb (Allows s) codes end.

(** ** Vendor vocabularies *)

Record HealthVocabulary := { vb_name : string; vb_words : gmap string HealthState }.

Definition no_vocabulary : HealthVocabulary := {| vb_name := ""; vb_words := ∅ |}.

(** [HealthVocabulary.IsZero] *)
Definition VocabularyIsZero (v : HealthVocabulary) : bool := String.eqb (vb_name v) "".

Definition EchoLimit : nat := 64.

(** [Echo] *)
Definition Echo (v : string) : string :=
  if (String.length v <=? EchoLimit)%nat then v else take_bytes EchoLimit v +++ "...".

(** [HealthVocabulary.vocabularyName] *)
Definition vocabularyName (v : HealthVocabulary) : string :=
  if String.eqb (vb_name v) "" then "(unset)" else vb_name v.

(** [HealthVocabulary.Map] *)
Definition MapWord (v : HealthVocabulary) (raw : string) : ValidationError + HealthState :=
  match vb_words v !! raw with
  | Some state => inr state
  | None => inl (Add [] "state" (Quote (Echo raw) +++ " is not a state in the " +++
      vocabularyName v +++ " vocabulary; map it at the adapter to one of " +++
      String.concat ", " HealthStateNames))
  end.

(** [HealthVocabulary.Words] *)
Definition Words (v : HealthVocabulary) : list string := isort str_ltb (map_to_list (vb_words v)).*1.

Definition VocabularyInvctl := "invctl".

Definition healthVocabularies : gmap string HealthVocabulary :=
  list_to_map ((fun v => (vb_name v, v)) <$> [
    {| vb_name := VocabularyInvctl;
       vb_words := list_to_map [(HealthUp, HealthUp); (HealthDegraded, HealthDegraded);
         (HealthDown, HealthDown); (HealthUnknown, HealthUnknown)] |};
    {| vb_name := "prometheus";
       vb_words := list_to_map [("firing", HealthDown); ("pending", HealthDegraded);
         ("inactive", HealthUp); ("resolved", HealthUp)] |};
    {| vb_name := "kubernetes";
       vb_words := list_to_map [("Ready", HealthUp); ("NotReady", HealthDown);
         ("SchedulingDisabled", HealthDegraded); ("Unknown", HealthUnknown)] |};
    {| vb_name := "nagios";
       vb_words := list_to_map [("0", HealthUp); ("1", HealthDegraded); ("2", HealthDown);
         ("3", HealthUnknown)] |} ]).

(** [VocabularyNames] *)
Definition VocabularyNames : list string := isort str_ltb (map_to_list healthVocabularies).*1.

(** [LookupVocabulary] *)
Definition LookupVocabulary (name : string) : Sentinel + HealthVocabulary :=
  if String.eqb (TrimSpace name) "" then inr healthVocabularies.[VocabularyInvctl | no_vocabulary]
  else match healthVocabularies !! name with
       | Some v => inr v
       | None => inl ErrInvalid
       end.

(** * Lemmas *)

(** ** Scopes *)

Lemma Canonical_spec s code c :
  Canonical s code = Some c <-> c = ToLower (TrimSpace code) /\ c ∈ s.
Proof.
  unfold Canonical. split.
  - intros Hf. apply List.find_some in Hf as [Hin ->%String.eqb_eq]. split; [done|].
    by apply list_elem_of_In.
  - intros [-> Hin]. induction s as [|a s IH]; [by apply not_elem_of_nil in Hin|]. cbn [List.find].
    destruct (String.eqb_spec a (ToLower (TrimSpace code))) as [->|Hne]; [done|].
    apply IH. apply elem_of_cons in Hin as [Heq|?]; [congruence|done].
Qed.

Lemma Allows_spec s code : Allows s code = true <-> ToLower (TrimSpace code) ∈ s.
Proof.
  unfold Allows. destruct (Canonical s code) as [c|] eqn:E.
  - apply Canonical_spec in E as [-> ?]. done.
  - split; [done|]. intros Hin. by rewrite (proj2 (Canonical_spec s code _) (conj eq_refl Hin)) in E.
Qed.

Lemma AllowsAll_spec s codes :
  AllowsAll s codes = true <->
  codes <> [] /\ forall code, code ∈ codes -> ToLower (TrimSpace code) ∈ s.
Proof.
  unfold AllowsAll. destruct codes as [|c codes]; [by split; [|intros []]|].
  rewrite forallb_forall. split.
  - intros Hall. split; [done|]. intros code Hin. apply Allows_spec, Hall. by apply list_elem_of_In.
  - intros [_ Hall] code Hin. apply Allows_spec, Hall. by apply list_elem_of_In.
Qed.

(** ** Actors *)

Lemma ValidateActor_None a :
  ValidateActor a = None <->
  TrimSpace (ac_ID a) <> "" /\ ac_Kind a ∈ ActorKinds /\
  (ac_Kind a = ActorKindAgent <-> HasPrefix (ac_ID a) AgentActorPrefix = true).
Proof.
  unfold ValidateActor, checkRequired, checkEnum.
  destruct (oneOf (ac_Kind a) ActorKinds) eqn:Hk.
  - apply oneOf_elem in Hk. rewrite OrNil_None.
    destruct (String.eqb_spec (TrimSpace (ac_ID a)) "") as [->|Ht].
    + split; [|by intros [? _]]. repeat case_match; intros Hn; exfalso; revert Hn; apply Add_not_nil.
    + unfold ActorKinds in Hk. rewrite !elem_of_cons in Hk.
      destruct Hk as [-> |[-> |[-> |Hk%elem_of_nil]]]; [..|done]; cbn [String.eqb];
        destruct (HasPrefix (ac_ID a) AgentActorPrefix) eqn:Hp; cbn.
      all: split; [intros Hn; (split_and!; [done|set_solver|done]) || by apply Add_not_nil in Hn|].
      all: intros (_ & _ & Hiff); try done; by destruct Hiff as [H1 H2]; (discriminate (H1 eq_refl) || discriminate (H2 eq_refl)).
  - rewrite OrNil_None. split.
    + repeat case_match; intros Hn; exfalso; revert Hn; apply Add_not_nil.
    + intros (_ & Hin%oneOf_elem & _). congruence.
Qed.

Lemma AgentActor_inv credentialID a :
  AgentActor credentialID = inr a ->
  let id := TrimSpace credentialID in
  a = {| ac_ID := AgentActorPrefix +++ id; ac_Name := AgentActorPrefix +++ id; ac_Kind := ActorKindAgent |} /\
  id <> "" /\ ContainsAny id reporter_stops = false /\ ToLower id = id.
Proof.
  unfold AgentActor, checkRequired. cbv zeta. set (id := TrimSpace credentialID).
  set (ve := if String.eqb id "" then _ else _).
  destruct (HasPrefix id AgentActorPrefix);
    [by destruct (OrNil _) eqn:E; [|apply OrNil_None, Add_not_nil in E]|].
  destruct (ContainsAny id reporter_stops);
    [by destruct (OrNil _) eqn:E; [|apply OrNil_None, Add_not_nil in E]|].
  destruct (String.eqb_spec id (ToLower id)) as [Hl|Hl]; cbn [negb];
    [|by destruct (OrNil _) eqn:E; [|apply OrNil_None, Add_not_nil in E]].
  destruct (OrNil ve) eqn:E; [done|]. apply OrNil_None in E. subst ve.
  destruct (String.eqb_spec id "") as [Heq|Hne]; [by apply Add_not_nil in E|].
  intros [= <-]. done.
Qed.

Lemma no_space_m : existsb (contains "m") space_runes = false.
Proof. reflexivity. Qed.

(** Attribution cannot be forged. The actor built for a credential is valid and
    names that credential back, trimmed; any valid actor whose id equals the
    agent's is itself an agent of the same credential, so a credential called
    after a person's account id writes nothing that could be read as that
    person's, and two credentials share an actor id only when they are the same
    credential. *)
Theorem AgentActor_attribution credentialID a :
  AgentActor credentialID = inr a ->
  ValidateActor a = None /\ CredentialID a = Some (TrimSpace credentialID) /\
  (forall u, ValidateActor u = None -> ac_ID u = ac_ID a ->
     ac_Kind u = ActorKindAgent /\ CredentialID u = Some (TrimSpace credentialID)) /\
  (forall credentialID' a', AgentActor credentialID' = inr a' -> ac_ID a' = ac_ID a ->
     TrimSpace credentialID' = TrimSpace credentialID).
Proof.
  intros Ha. destruct (AgentActor_inv _ _ Ha) as (-> & Hne & _ & _). cbn [ac_ID].
  set (id := TrimSpace credentialID) in *.
  assert (Hc : forall u, ac_Kind u = ActorKindAgent -> ac_ID u = AgentActorPrefix +++ id -> CredentialID u = Some id).
  { intros u Hk Hu. unfold CredentialID, IsAgent. by rewrite Hk, Hu, HasPrefix_app, TrimPrefix_app. }
  split_and!.
  - apply ValidateActor_None. cbn [ac_ID ac_Kind]. rewrite HasPrefix_app. split_and!; [|set_solver|done].
    intros Ht. pose proof (TrimSpace_contains "m" (AgentActorPrefix +++ id) no_space_m) as Hm.
    by rewrite Ht in Hm.
  - by apply Hc.
  - intros u Hu Hid. apply ValidateActor_None in Hu as (_ & _ & [_ Hk]).
    rewrite Hid, HasPrefix_app in Hk. split; [by apply Hk|]. apply Hc; [by apply Hk|done].
  - intros c' a' Ha' Hid. destruct (AgentActor_inv _ _ Ha') as (-> & _). cbn [ac_ID] in Hid.
    rewrite <- (TrimPrefix_app AgentActorPrefix (TrimSpace c')), Hid. apply TrimPrefix_app.
Qed.
End Credentials.

(** * Samples *)

Lemma AgentActor_attribution_witness :
  let tables := {| lower_unicode := ascii_lower; quote_unicode := fun s => s |} in
  exists a, AgentActor (H := tables) " probe-1 " = inr a /\ ValidateActor (H := tables) a = None /\
    CredentialID a = Some "probe-1".
Proof.
  cbv zeta. eexists. split; [reflexivity|].
  split; [|exact eq_refl].
  eapply (AgentActor_attribution (H := {| lower_unicode := ascii_lower; quote_unicode := fun s => s |})
    " probe-1 "). reflexivity.
Defined.

(** No vocabulary maps a word to anything but a health state. *)
Lemma vocabularies_map_states :
  map_Forall (fun _ v => map_Forall (fun _ s => ValidHealth s = true) (vb_words v)) healthVocabularies.
Proof. apply (bool_decide_unpack _). vm_compute. exact I. Qed.
