(* ===== verification/Health.v ===== *)
(** Observed health: [internal/domain/observed.go].

    A reading ([AssetHealth]) is what one reporter last said about one entity,
    with the flap episode that may be open on it. This file holds the report a
    reporter sends ([NewObservation]), the questions a reading answers
    (staleness, flapping, when an episode ends) and the operator's override.
    What is done with a report is in [Recorder]. *)
From Stdlib Require Import String Ascii ZArith Lia Floats.SpecFloat.
From stdpp Require Import base gmap strings list.
From S2P Require Import Prelude Text Errors Timestamps Actors.

#[local] Open Scope string_scope.
#[local] Open Scope list_scope.
#[local] Open Scope Z_scope.

(** * Definitions *)

(** ** Vocabulary and constants *)

Definition ObservableAsset := "asset".
Definition ObservableServiceInstance := "service_instance".
Definition ObservableEntityTypes := [ObservableAsset; ObservableServiceInstance].

Definition TransitionChange := "transition".
Definition TransitionFlapOpen := "flap_open".
Definition TransitionFlapClose := "flap_close".
Definition TransitionKinds := [TransitionChange; TransitionFlapOpen; TransitionFlapClose].

Definition FlapThreshold : Z := 5.
Definition FlapWindow : Z := 5 * Minute.
Definition MaxIntervalSeconds : Z := 6 * 60 * 60.
Definition MaxClockSkew : Z := 300 * Second.
Definition StaleAfterIntervals : Z := 3.

(** ** Reports *)

Record Observation := {
  ob_ObservationID : string; ob_EntityType : string; ob_EntityID : string;
  ob_Reporter : string; ob_State : HealthState; ob_ReportedAt : string;
  ob_IntervalSeconds : Z
}.

Record ObservationSpec := {
  os_ObservationID : string; os_EntityType : string; os_EntityID : string;
  os_State : string; os_ReportedAt : string; os_IntervalSeconds : Z
}.

Section Reports.
Context `{Unicode}.

(** [ParseHealthState] *)
Definition ParseHealthState (v : string) : ValidationError + HealthState :=
  if ValidHealth v then inr v
  else inl (Add [] "state" (Quote v +++ " is not a health state; map it at the adapter to one of " +++
    String.concat ", " HealthStateNames)).

(** [checkReporter] *)
Definition checkReporter (ve : ValidationError) (field reporter : string) : ValidationError * string :=
  let '(ve, trimmed) := checkRequired ve field reporter in
  if String.eqb trimmed "" then (ve, "") else
  let ve := if ContainsAny trimmed reporter_stops
            then Add ve field "must not contain a colon or whitespace" else ve in
  let ve := if negb (String.eqb trimmed (ToLower trimmed))
            then Add ve field "must be lower case, like every other identifier read from the environment"
            else ve in
  (ve, trimmed).

(** The [reported_at] of [NewObservation]: rejected when it is not a timestamp
    or too far ahead, held at the server's clock when it is a little ahead. *)
Definition check_reported_at (ve : ValidationError) (reportedAt : string) (now : Time)
    : ValidationError * string :=
  if String.eqb reportedAt "" then (ve, reportedAt) else
  match ParseTime reportedAt with
  | None => (Add ve "reported_at" "must be RFC3339 UTC to the second, like 2006-01-02T15:04:05Z", reportedAt)
  | Some t =>
      if TimeAfter t (now + MaxClockSkew)
      then (Add ve "reported_at" "is more than 5m0s ahead of the server clock", reportedAt)
      else if TimeAfter t now then (ve, FormatTime now)
      else (ve, reportedAt)
  end.

(** The [interval_seconds] of [NewObservation]. *)
Definition check_interval (ve : ValidationError) (interval : Z) : ValidationError :=
  if interval <=? 0 then
    Add ve "interval_seconds" ("is required and must be positive: without a declared cadence " +++
      "a reading can never be shown as stale")
  else if MaxIntervalSeconds <? interval then
    Add ve "interval_seconds" ("is " +++ Itoa interval +++ ", above the " +++ Itoa MaxIntervalSeconds +++
      " second ceiling: a reporter may not declare its own staleness horizon")
  else ve.

(** [NewObservation] *)
Definition NewObservation (spec : ObservationSpec) (reporter : string) (now : Time)
    : ValidationError + Observation :=
  let ve := checkEnum [] "entity_type" (os_EntityType spec) ObservableEntityTypes in
  let '(ve, entityID) := checkRequired ve "entity_id" (os_EntityID spec) in
  let '(ve, reporter) := checkReporter ve "reporter" reporter in
  let '(ve, state) := match ParseHealthState (os_State spec) with
                      | inl sub => (ve ++ sub, "")
                      | inr s => (ve, s)
                      end in
  let '(ve, reportedAt) := checkRequired ve "reported_at" (os_ReportedAt spec) in
  let '(ve, reportedAt) := check_reported_at ve reportedAt now in
  let ve := check_interval ve (os_IntervalSeconds spec) in
  match OrNil ve with
  | Some e => inl e
  | None => inr {| ob_ObservationID := TrimSpace (os_ObservationID spec);
                   ob_EntityType := os_EntityType spec; ob_EntityID := entityID;
                   ob_Reporter := reporter; ob_State := state; ob_ReportedAt := reportedAt;
                   ob_IntervalSeconds := os_IntervalSeconds spec |}
  end.
End Reports.

(** [Observation.Supersedes] *)
Definition Supersedes (o : Observation) (storedReportedAt : string) : bool :=
  str_ltb storedReportedAt (ob_ReportedAt o).

(** ** Readings *)

Record AssetHealth := {
  ah_EntityType : string; ah_EntityID : string; ah_Reporter : string;
  ah_State : HealthState; ah_StateSince : string; ah_ReportedAt : string;
  ah_LastReportAt : string; ah_IntervalSeconds : option Z; ah_ObservationID : option string;
  ah_FlapSince : option string; ah_FlapCount : option Z; ah_FlapFirstState : option string;
  ah_FlapSeen : option string
}.

(** [AssetHealth.Flapping] *)
Definition Flapping (h : AssetHealth) : bool :=
  match ah_FlapSince h with Some s => negb (String.eqb s "") | None => false end.

(** [AssetHealth.FlapOpenedAt] *)
Definition FlapOpenedAt (h : AssetHealth) : string :=
  if negb (Flapping h) then "" else default "" (ah_FlapSince h).

(** [AssetHealth.FlapTransitions] *)
Definition FlapTransitions (h : AssetHealth) : Z := default 0 (ah_FlapCount h).

(** [EncodeHealthStates] *)
Definition EncodeHealthStates (states : list HealthState) : string :=
  String.concat "," (List.filter (fun s => existsb (String.eqb s) states) HealthStates).

(** [DecodeHealthStates] *)
Definition DecodeHealthStates (v : string) : list HealthState :=
  if String.eqb v "" then [] else List.filter ValidHealth (Split_byte "," v).

(** [AssetHealth.FlapStates] *)
Definition FlapStates (h : AssetHealth) : list HealthState :=
  match ah_FlapSeen h with None => [] | Some v => DecodeHealthStates v end.

(** [AssetHealth.SawDuringEpisode] *)
Definition SawDuringEpisode (h : AssetHealth) (state : HealthState) : bool :=
  existsb (fun s => String.eqb s state) (FlapStates h).

(** [float64(z)], rounded to nearest even. *)
Definition float64 (z : Z) : spec_float := binary_normalize 53 1024 z 0 false.

(** [FlapCloseHysteresis] is one half. *)
Definition FlapCloseHysteresis : spec_float := binary_normalize 53 1024 1 (-1) false.

(** [AssetHealth.FlapRateQualifies] *)
Definition FlapRateQualifies (h : AssetHealth) (now : Time) : bool :=
  match ah_FlapCount h, ah_FlapSince h with
  | Some count, Some s =>
      match ParseTime s with
      | None => false
      | Some since =>
          let elapsed := Sub now since in
          if elapsed <=? FlapWindow then true
          else
            let windows := SFdiv 53 1024 (float64 elapsed) (float64 FlapWindow) in
            SFleb (SFmul 53 1024 (SFmul 53 1024 (float64 FlapThreshold) windows) FlapCloseHysteresis)
                  (float64 count)
      end
  | _, _ => false
  end.

(** [AssetHealth.FlapSettled] *)
Definition FlapSettled (h : AssetHealth) (now : Time) : bool :=
  if negb (Flapping h) then false
  else match ParseTime (ah_StateSince h) with
       | None => true
       | Some since =>
           if negb (TimeBefore now (since + FlapWindow)) then true
           else negb (FlapRateQualifies h now)
       end.

(** [FlapQualifies] *)
Definition FlapQualifies (transitionsInWindow : Z) : bool := FlapThreshold <? transitionsInWindow.

(** [FlapWindowStart] *)
Definition FlapWindowStart (now : Time) : Time := now - FlapWindow.

(** [AssetHealth.StaleAfter] *)
Definition StaleAfter (h : AssetHealth) : option Time :=
  match ah_IntervalSeconds h with
  | None => None
  | Some interval =>
      if interval <=? 0 then None
      else match ParseTime (ah_LastReportAt h) with
           | None => None
           | Some last => Some (last + wrap64 (wrap64 (StaleAfterIntervals * interval) * Second))
           end
  end.

(** [AssetHealth.IsStale] *)
Definition IsStale (h : AssetHealth) (now : Time) : bool :=
  match StaleAfter h with None => true | Some horizon => TimeAfter now horizon end.

(** [AssetHealth.DisplayState] *)
Definition DisplayState (h : AssetHealth) (now : Time) : HealthState :=
  if IsStale h now then HealthUnknown else ah_State h.

(** ** Ledger and drift rows *)

Record ObservedTransition := {
  ot_ID : string; ot_EntityType : string; ot_EntityID : string; ot_Reporter : string;
  ot_Kind : string; ot_FromState : option string; ot_ToState : HealthState; ot_At : string;
  ot_FlapCount : option Z; ot_WindowStart : option string; ot_WindowEnd : option string;
  ot_FirstState : option string; ot_LastState : option string; ot_SettledState : option string
}.

Record UnmatchedObservation := {
  um_ID : string; um_EntityType : string; um_EntityRef : string; um_Reporter : string;
  um_State : HealthState; um_ReportedAt : string; um_FirstSeenAt : string;
  um_LastSeenAt : string; um_ReportCount : Z
}.

(** ** Overrides *)

Definition OverrideActive := "active".
Definition OverrideCleared := "cleared".
Definition OverrideLifecycles := [OverrideActive; OverrideCleared].

Definition MaxOverrideDuration : Z := 24 * Hour.

Record HealthOverride := {
  ho_ID : string; ho_EntityType : string; ho_EntityID : string; ho_AssertedState : HealthState;
  ho_Reason : string; ho_Actor : string; ho_Lifecycle : string; ho_CreatedAt : string;
  ho_UpdatedAt : string; ho_ExpiresAt : string
}.

Record HealthOverrideSpec := {
  hs_EntityType : string; hs_EntityID : string; hs_AssertedState : string; hs_Reason : string;
  hs_ExpiresAt : Time
}.

(** The zero [time.Time]: 1 January of year 1. *)
Definition zeroTime : Time := -62135596800 * Second.

Section Overrides.
Context `{Unicode}.

(** [HealthOverride.Validate], which also trims the reason in place. *)
Definition ValidateOverride (o : HealthOverride) : HealthOverride * option ValidationError :=
  let ve := checkEnum [] "entity_type" (ho_EntityType o) ObservableEntityTypes in
  let '(ve, _) := checkRequired ve "entity_id" (ho_EntityID o) in
  let ve := checkEnum ve "lifecycle" (ho_Lifecycle o) OverrideLifecycles in
  let ve := if negb (ValidHealth (ho_AssertedState o))
            then checkEnum ve "asserted_state" (ho_AssertedState o) HealthStateNames else ve in
  let '(ve, reason) := checkRequired ve "reason" (ho_Reason o) in
  let '(ve, _) := checkRequired ve "actor" (ho_Actor o) in
  let ve := if negb (str_ltb (ho_CreatedAt o) (ho_ExpiresAt o))
            then Add ve "expires_at" "must be after the override was created" else ve in
  let baseline := if str_ltb (ho_CreatedAt o) (ho_UpdatedAt o) then ho_UpdatedAt o else ho_CreatedAt o in
  let ve := match ParseTime baseline, ParseTime (ho_ExpiresAt o) with
            | Some decided, Some expires =>
                if MaxOverrideDuration <? Sub expires decided
                then Add ve "expires_at" ("is more than 24h0m0s after the last decision: an override that " +++
                       "outlives an incident hides the next one")
                else ve
            | _, _ => ve
            end in
  ({| ho_ID := ho_ID o; ho_EntityType := ho_EntityType o; ho_EntityID := ho_EntityID o;
      ho_AssertedState := ho_AssertedState o; ho_Reason := reason; ho_Actor := ho_Actor o;
      ho_Lifecycle := ho_Lifecycle o; ho_CreatedAt := ho_CreatedAt o; ho_UpdatedAt := ho_UpdatedAt o;
      ho_ExpiresAt := ho_ExpiresAt o |}, OrNil ve).

(** The state an operator asserts, its failures renamed to the form's field. *)
Definition asserted_state (ve : ValidationError) (v : string) : ValidationError * HealthState :=
  match ParseHealthState v with
  | inr s => (ve, s)
  | inl sub => (foldl (fun ve f => Add ve "asserted_state" (fe_Message f)) ve sub, "")
  end.

(** The checks of an expiry shared by [NewHealthOverride] and [Amend]. *)
Definition check_expiry (ve : ValidationError) (expires now : Time) : ValidationError :=
  if expires =? zeroTime then
    Add ve "expires_at" ("is required: an override with no end is how a real outage stays " +++
      "invisible for six weeks")
  else if negb (TimeAfter expires now) then Add ve "expires_at" "must be in the future"
  else if TimeAfter expires (now + MaxOverrideDuration)
  then Add ve "expires_at" "must be no more than 24h0m0s from now"
  else ve.

(** [NewHealthOverride] *)
Definition NewHealthOverride (id : string) (spec : HealthOverrideSpec) (actor : Actor) (now : Time)
    : ValidationError + HealthOverride :=
  let ve := if negb (String.eqb (ac_Kind actor) ActorKindUser)
            then Add [] "actor" ("only a signed-in operator may override an observation, not a " +++
                   ac_Kind actor +++ " actor") else [] in
  let ve := if String.eqb (TrimSpace (ac_ID actor)) "" then Add ve "actor" "is required" else ve in
  let '(ve, state) := asserted_state ve (hs_AssertedState spec) in
  let ve := check_expiry ve (hs_ExpiresAt spec) now in
  let '(o, err) := ValidateOverride
    {| ho_ID := id; ho_EntityType := hs_EntityType spec; ho_EntityID := hs_EntityID spec;
       ho_AssertedState := state; ho_Reason := hs_Reason spec; ho_Actor := TrimSpace (ac_ID actor);
       ho_Lifecycle := OverrideActive; ho_CreatedAt := FormatTime now; ho_UpdatedAt := FormatTime now;
       ho_ExpiresAt := FormatTime (hs_ExpiresAt spec) |} in
  match OrNil (ve ++ default [] err) with Some e => inl e | None => inr o end.

(** [HealthOverride.Amend]: the amended row, or the failures, which leave the
    row as it was. *)
Definition Amend (o : HealthOverride) (spec : HealthOverrideSpec) (actor : Actor) (now : Time)
    : ValidationError + HealthOverride :=
  let ve := if negb (String.eqb (ac_Kind actor) ActorKindUser)
            then Add [] "actor" ("only a signed-in operator may amend an override, not a " +++
                   ac_Kind actor +++ " actor") else [] in
  let ve := if negb (String.eqb (ho_Lifecycle o) OverrideActive)
            then Add ve "lifecycle" "this override has been cleared; write a new one and say why" else ve in
  let '(ve, state) := asserted_state ve (hs_AssertedState spec) in
  let ve := check_expiry ve (hs_ExpiresAt spec) now in
  match OrNil ve with
  | Some e => inl e
  | None =>
      let '(amended, err) := ValidateOverride
        {| ho_ID := ho_ID o; ho_EntityType := ho_EntityType o; ho_EntityID := ho_EntityID o;
           ho_AssertedState := state; ho_Reason := hs_Reason spec; ho_Actor := ho_Actor o;
           ho_Lifecycle := ho_Lifecycle o; ho_CreatedAt := ho_CreatedAt o;
           ho_UpdatedAt := FormatTime now; ho_ExpiresAt := FormatTime (hs_ExpiresAt spec) |} in
      match err with Some e => inl e | None => inr amended end
  end.

(** [HealthOverride.Clear] *)
Definition ClearOverride (o : HealthOverride) (actor : Actor) (now : Time)
    : ValidationError + HealthOverride :=
  let ve := if negb (String.eqb (ac_Kind actor) ActorKindUser)
            then Add [] "actor" ("only a signed-in operator may clear an override, not a " +++
                   ac_Kind actor +++ " actor") else [] in
  let ve := if negb (String.eqb (ho_Lifecycle o) OverrideActive)
            then Add ve "lifecycle" "this override has already been cleared" else ve in
  match OrNil ve with
  | Some e => inl e
  | None => inr {| ho_ID := ho_ID o; ho_EntityType := ho_EntityType o; ho_EntityID := ho_EntityID o;
                   ho_AssertedState := ho_AssertedState o; ho_Reason := ho_Reason o;
                   ho_Actor := ho_Actor o; ho_Lifecycle := OverrideCleared;
                   ho_CreatedAt := ho_CreatedAt o; ho_UpdatedAt := FormatTime now;
                   ho_ExpiresAt := ho_ExpiresAt o |}
  end.
End Overrides.

(** [HealthOverride.IsActiveAt] *)
Definition IsActiveAt (o : HealthOverride) (now : Time) : bool :=
  String.eqb (ho_Lifecycle o) OverrideActive && str_ltb (FormatTime now) (ho_ExpiresAt o).

(** * Lemmas *)

Lemma ValidHealth_elem s : ValidHealth s = true <-> s ∈ HealthStates.
Proof.
  unfold ValidHealth. rewrite existsb_elem_of. split.
  - intros (a & Ha & ->%String.eqb_eq). done.
  - intros H. exists s. split; [done|]. apply String.eqb_refl.
Qed.

(** What the [flap_seen] column holds is the set of valid states put into it. *)
Lemma Decode_Encode s l :
  s ∈ DecodeHealthStates (EncodeHealthStates l) <-> s ∈ HealthStates /\ s ∈ l.
Proof.
  assert (Hd : DecodeHealthStates (EncodeHealthStates l) =
    List.filter (fun s => existsb (String.eqb s) l) HealthStates).
  { unfold EncodeHealthStates, HealthStates. cbn [List.filter].
    by destruct (existsb (String.eqb HealthUp) l), (existsb (String.eqb HealthDegraded) l),
      (existsb (String.eqb HealthDown) l), (existsb (String.eqb HealthUnknown) l). }
  rewrite Hd, !list_elem_of_In, filter_In, <- !list_elem_of_In, existsb_elem_of.
  split; intros [H1 H2]; (split; [done|]).
  - destruct H2 as (w & Hw & ->%String.eqb_eq). done.
  - exists s. split; [done|]. apply String.eqb_refl.
Qed.

Lemma SawDuringEpisode_elem h s : SawDuringEpisode h s = true <-> s ∈ FlapStates h.
Proof.
  unfold SawDuringEpisode. rewrite existsb_elem_of. split.
  - intros (a & Ha & ->%String.eqb_eq). done.
  - intros H. exists s. split; [done|]. apply String.eqb_refl.
Qed.

Lemma FlapSettled_flapping h now : FlapSettled h now = true -> Flapping h = true.
Proof. unfold FlapSettled. by destruct (Flapping h). Qed.

(** An episode is over a full window after the last state change, whatever its
    rate was. *)
Lemma FlapSettled_quiet h now since :
  Flapping h = true -> ParseTime (ah_StateSince h) = Some since -> since + FlapWindow <= now ->
  FlapSettled h now = true.
Proof.
  intros Hf Hs Hn. unfold FlapSettled, TimeBefore. rewrite Hf, Hs. cbn [negb].
  by rewrite (proj2 (Z.ltb_ge _ _) Hn).
Qed.

(** ** Reports *)

Section ReportFacts.
Context `{Unicode}.

Lemma checkReporter_nil ve field reporter ve' r :
  checkReporter ve field reporter = (ve', r) -> ve' = [] -> ve = [] /\ r = TrimSpace reporter.
Proof.
  unfold checkReporter. destruct (checkRequired ve field reporter) as [ve1 t] eqn:E. intros Heq Hn.
  destruct (String.eqb_spec t "") as [->|Ht].
  - injection Heq as -> <-. by apply checkRequired_nil in E as (_ & _ & ?).
  - injection Heq as <- <-.
    destruct (negb _); [by apply Add_not_nil in Hn|].
    destruct (ContainsAny _ _); [by apply Add_not_nil in Hn|].
    apply checkRequired_nil in E; [|done]. destruct E as (-> & -> & _). done.
Qed.

Lemma check_interval_nil ve i :
  check_interval ve i = [] -> ve = [] /\ 0 < i <= MaxIntervalSeconds.
Proof.
  unfold check_interval.
  destruct (i <=? 0) eqn:E1; [by intros ?%Add_not_nil|].
  destruct (MaxIntervalSeconds <? i) eqn:E2; [by intros ?%Add_not_nil|]. intros ->. split; [done|]. split; lia.
Qed.

Lemma check_reported_at_nil ve s now ve' s' :
  check_reported_at ve s now = (ve', s') -> ve' = [] -> s <> "" ->
  ve = [] /\ exists t, ParseTime s = Some t /\ t <= now + MaxClockSkew /\
    s' = if now <? t then FormatTime now else s.
Proof.
  unfold check_reported_at, TimeAfter. intros Heq Hn Hs.
  destruct (String.eqb_spec s "") as [|_]; [done|].
  destruct (ParseTime s) as [t|] eqn:Ht; [|injection Heq as <- <-; by apply Add_not_nil in Hn].
  destruct (now + MaxClockSkew <? t) eqn:E; [injection Heq as <- <-; by apply Add_not_nil in Hn|].
  destruct (now <? t) eqn:E'; injection Heq as <- <-; (split; [done|]); exists t; rewrite E'; split_and!; done || lia.
Qed.

(** Everything a report that was accepted is known to be. *)
Lemma NewObservation_inv spec reporter now obs :
  NewObservation spec reporter now = inr obs ->
  ob_EntityType obs = os_EntityType spec /\ os_EntityType spec ∈ ObservableEntityTypes /\
  ob_EntityID obs = TrimSpace (os_EntityID spec) /\ ob_EntityID obs <> "" /\
  ob_Reporter obs = TrimSpace reporter /\
  ob_State obs = os_State spec /\ ValidHealth (ob_State obs) = true /\
  ob_IntervalSeconds obs = os_IntervalSeconds spec /\
  0 < ob_IntervalSeconds obs <= MaxIntervalSeconds /\
  ob_ObservationID obs = TrimSpace (os_ObservationID spec) /\
  exists t, ParseTime (TrimSpace (os_ReportedAt spec)) = Some t /\ t <= now + MaxClockSkew /\
    ob_ReportedAt obs = if now <? t then FormatTime now else TrimSpace (os_ReportedAt spec).
Proof.
  unfold NewObservation.
  destruct (checkRequired (checkEnum _ _ _ _) _ _) as [ve1 entityID] eqn:E1.
  destruct (checkReporter ve1 _ _) as [ve2 rep] eqn:E2.
  destruct (match ParseHealthState (os_State spec) with inl sub => (ve2 ++ sub, "") | inr s => (ve2, s) end)
    as [ve3 state] eqn:E3.
  destruct (checkRequired ve3 _ _) as [ve4 at1] eqn:E4.
  destruct (check_reported_at ve4 at1 now) as [ve5 at2] eqn:E5.
  destruct (OrNil (check_interval ve5 _)) eqn:E6; [done|]. intros [= <-].
  apply OrNil_None, check_interval_nil in E6 as [-> Hi].
  destruct (decide (at1 = "")) as [->|Hat].
  { cbn in E5. injection E5 as -> <-.
    apply checkRequired_nil in E4 as (_ & _ & ?); done. }
  apply check_reported_at_nil in E5 as [-> (t & Ht & Hle & ->)]; [|done..].
  apply checkRequired_nil in E4 as (-> & -> & _); [|done].
  unfold ParseHealthState in E3. destruct (ValidHealth (os_State spec)) eqn:Hv.
  2:{ injection E3 as E3 _. by apply app_eq_nil in E3 as [_ ?%Add_not_nil]. }
  injection E3 as -> <-.
  apply checkReporter_nil in E2 as [-> ->]; [|done].
  apply checkRequired_nil in E1 as (E0 & -> & Hid); [|done].
  apply checkEnum_nil in E0 as [_ Htype].
  cbn. split_and!; try done; try lia. exists t. done.
Qed.
End ReportFacts.

(** ** What a reporter's clock can do *)

(** A report that is accepted names an instant the server's clock has reached,
    and keeps no other claim on time: its state is one of the four, exactly as
    sent, and its cadence is positive and at most six hours. Where the timestamp
    is written in the twenty characters of the stored form it does not sort
    after the clock either, so the next report the same reporter stamps with a
    later second supersedes it: the future cannot be reserved. *)
Theorem NewObservation_clock `{Unicode} spec reporter now obs :
  storable now -> NewObservation spec reporter now = inr obs ->
  (ob_State obs = os_State spec /\ ob_State obs ∈ HealthStates) /\
  0 < ob_IntervalSeconds obs <= MaxIntervalSeconds /\
  (exists t, ParseTime (ob_ReportedAt obs) = Some t /\ t <= now) /\
  (String.length (TrimSpace (os_ReportedAt spec)) = 20%nat ->
   str_ltb (FormatTime now) (ob_ReportedAt obs) = false /\
   forall later next, storable later -> now / Second < later / Second ->
     ob_ReportedAt next = FormatTime later -> Supersedes next (ob_ReportedAt obs) = true).
Proof.
  intros Hnow (_ & _ & _ & _ & _ & Hs & Hv & _ & Hi & _ & t & Ht & Hle & Hat)%NewObservation_inv.
  assert (Hlast : String.length (TrimSpace (os_ReportedAt spec)) = 20%nat ->
    exists u, storable u /\ u <= now /\ ob_ReportedAt obs = FormatTime u).
  { intros Hl. rewrite Hat. destruct (Z.ltb_spec now t) as [_|Hge]; [by exists now|].
    destruct (FormatTime_ParseTime _ _ Ht Hl) as [Hst Hf]. exists t. by rewrite Hf. }
  split_and!; try done; try lia.
  - by apply ValidHealth_elem.
  - rewrite Hat. destruct (Z.ltb_spec now t) as [_|Hge]; [|by exists t].
    exists (now / Second * Second). split; [by apply ParseTime_FormatTime|].
    unfold Second. Z.div_mod_to_equations. lia.
  - intros Hl. destruct (Hlast Hl) as (u & Hu & Hun & ->). split; [by apply FormatTime_le|].
    intros later next Hlater Hlt Hn. unfold Supersedes. rewrite Hn, FormatTime_ltb by done.
    apply Z.ltb_lt. apply Z.le_lt_trans with (now / Second); [|done]. by apply Z.div_le_mono.
Qed.

(** Tables for strings that are ASCII, where none is consulted. *)
Definition ascii_tables : Unicode := {| lower_unicode := ascii_lower; quote_unicode := fun s => s |}.

Definition sample_spec (reportedAt : string) : ObservationSpec :=
  {| os_ObservationID := ""; os_EntityType := ObservableAsset; os_EntityID := "a1";
     os_State := "down"; os_ReportedAt := reportedAt; os_IntervalSeconds := 60 |}.

(** 2026-08-01T10:00:00Z *)
Definition ten_o_clock : Time := 1785578400 * Second.

Definition sample_obs (state reportedAt : string) : Observation :=
  {| ob_ObservationID := ""; ob_EntityType := ObservableAsset; ob_EntityID := "a1";
     ob_Reporter := "probe"; ob_State := state; ob_ReportedAt := reportedAt;
     ob_IntervalSeconds := 60 |}.

Lemma NewObservation_clock_witness :
  NewObservation (H := ascii_tables) (sample_spec "2026-08-01T10:04:00Z") "probe" ten_o_clock =
    inr (sample_obs "down" "2026-08-01T10:00:00Z") /\
  str_ltb (FormatTime ten_o_clock) "2026-08-01T10:00:00Z" = false.
Proof.
  assert (Hst : storable ten_o_clock) by (vm_compute; split; congruence).
  assert (E : NewObservation (H := ascii_tables) (sample_spec "2026-08-01T10:04:00Z") "probe" ten_o_clock =
    inr (sample_obs "down" "2026-08-01T10:00:00Z")) by (vm_compute; reflexivity).
  split; [exact E|].
  destruct (NewObservation_clock (H := ascii_tables) _ _ _ _ Hst E) as (_ & _ & _ & Hl).
  refine (proj1 (Hl _)). vm_compute. reflexivity.
Defined.

(** The text of a date in the stored form, ten characters. *)
Lemma date_text_stamp d h m s :
  date_ok d -> stamp d h m s = date_text d +++ String "T" (pad2 h +++ clock_rest m s "Z").
Proof.
  intros [_ Hy]. unfold stamp, date_text, year_text, pad4, clock_rest.
  replace (dt_Year d <? 0) with false by lia. replace (dt_Year d <=? 9999) with true by lia.
  by rewrite !append_assoc.
Qed.

Lemma str_ltb_app_l p s t : str_ltb (p +++ s) (p +++ t) = str_ltb s t.
Proof.
  induction p as [|a p IH]; [done|]. rewrite !append_cons. rewrite <- IH.
  unfold str_ltb, String.ltb. rewrite compare_cons.
  unfold Ascii.compare. by rewrite N.compare_refl.
Qed.

(** A timestamp whose hour is the single digit 9 sorts after every stored one
    of its day from ten o'clock on. *)
Lemma nine_sorts_last d h m s rest :
  date_ok d -> clock_ok h m s -> 10 <= h ->
  str_ltb (stamp d h m s) (date_text d +++ String "T" (String "9" rest)) = true.
Proof.
  intros Hd (Hh & _ & _) H10. rewrite date_text_stamp, str_ltb_app_l by done.
  assert (Hc : h / 10 = 1 \/ h / 10 = 2) by zdiv.
  unfold str_ltb, String.ltb. rewrite compare_cons, pad2_cons, compare_cons.
  by destruct Hc as [-> | ->].
Qed.

(** The future can be reserved after all: the parser takes an hour of one digit.
    At ten in the morning a report stamped T9:00:00Z is accepted as it was sent,
    not being ahead of the clock; from then to midnight no report stamped by an
    honest clock supersedes it, so every one of them is discarded as stale. *)
Theorem one_digit_hour_reserves_the_day `{Unicode} :
  let poison := "2026-08-01T9:00:00Z" in
  NewObservation (sample_spec poison) "probe" ten_o_clock = inr (sample_obs "down" poison) /\
  forall later next,
    ten_o_clock <= later < ten_o_clock + 14 * Hour -> ob_ReportedAt next = FormatTime later ->
    Supersedes next poison = false.
Proof.
  split; [vm_compute; reflexivity|]. intros later next Hl Hn. unfold Supersedes. rewrite Hn.
  assert (Hs : 1785578400 <= later / Second < 1785628800)
    by (change (ten_o_clock + 14 * Hour) with (1785628800 * Second) in Hl;
        unfold ten_o_clock, Second in *; zdiv).
  assert (Hday : later / Second / 86400 = 20666) by zdiv.
  destruct (FormatTime_stamp later) as (-> & Hd & Hc & _).
  { unfold storable. replace (later / Day) with 20666; [vm_compute; split; congruence|].
    change Day with (Second * 86400). by rewrite <- Z.div_div by done. }
  rewrite Hday in *.
  assert (H10 : 10 <= later / Second mod 86400 / 3600) by zdiv.
  apply sw_asym.
  apply (nine_sorts_last _ _ _ _ ":00:00Z" Hd Hc H10).
Qed.

(** ** Staleness *)

(** A reading is shown only while its reporter keeps its word: for the cadences
    a reporter may declare, the state is shown up to and including three
    intervals after the last report and as unknown from then on; with no usable
    cadence or report time it is unknown. *)
Theorem DisplayState_fresh h now :
  match ah_IntervalSeconds h, ParseTime (ah_LastReportAt h) with
  | Some interval, Some last =>
      interval <= MaxIntervalSeconds ->
      DisplayState h now =
        if (0 <? interval) && (now <=? last + 3 * interval * Second) then ah_State h else HealthUnknown
  | _, _ => DisplayState h now = HealthUnknown
  end.
Proof.
  unfold DisplayState, IsStale, StaleAfter.
  destruct (ah_IntervalSeconds h) as [i|]; [|done].
  destruct (ParseTime (ah_LastReportAt h)) as [last|]; [|by destruct (i <=? 0)].
  intros Hi. destruct (Z.leb_spec i 0) as [H0|H0]; [by rewrite (proj2 (Z.ltb_ge 0 i))|].
  rewrite (proj2 (Z.ltb_lt 0 i)) by done. cbn [andb].
  unfold MaxIntervalSeconds, StaleAfterIntervals, TimeAfter in *.
  rewrite (wrap64_id (3 * i)), wrap64_id by (unfold int64, Second; lia).
  destruct (Z.ltb_spec (last + 3 * i * Second) now), (Z.leb_spec now (last + 3 * i * Second)); done || lia.
Qed.

Definition sample_reading : AssetHealth :=
  {| ah_EntityType := ObservableAsset; ah_EntityID := "a1"; ah_Reporter := "probe"; ah_State := "up";
     ah_StateSince := "2026-08-01T10:00:00Z"; ah_ReportedAt := "2026-08-01T10:00:00Z";
     ah_LastReportAt := "2026-08-01T10:00:00Z"; ah_IntervalSeconds := Some 60; ah_ObservationID := None;
     ah_FlapSince := None; ah_FlapCount := None; ah_FlapFirstState := None; ah_FlapSeen := None |}.

Lemma DisplayState_fresh_witness :
  DisplayState sample_reading (ten_o_clock + 180 * Second) = "up" /\
  DisplayState sample_reading (ten_o_clock + 180 * Second + 1) = HealthUnknown.
Proof.
  assert (Hp : ParseTime "2026-08-01T10:00:00Z" = Some ten_o_clock) by (vm_compute; reflexivity).
  split.
  - pose proof (DisplayState_fresh sample_reading (ten_o_clock + 180 * Second)) as H1.
    cbn [sample_reading ah_IntervalSeconds ah_LastReportAt] in H1. rewrite Hp in H1.
    rewrite H1 by (vm_compute; discriminate). vm_compute. reflexivity.
  - pose proof (DisplayState_fresh sample_reading (ten_o_clock + 180 * Second + 1)) as H1.
    cbn [sample_reading ah_IntervalSeconds ah_LastReportAt] in H1. rewrite Hp in H1.
    rewrite H1 by (vm_compute; discriminate). vm_compute. reflexivity.
Defined.

(** ** Overrides *)

Section OverrideFacts.
Context `{Unicode}.

Lemma check_expiry_nil ve expires now :
  check_expiry ve expires now = [] -> ve = [] /\ now < expires <= now + MaxOverrideDuration.
Proof.
  unfold check_expiry, TimeAfter. destruct (expires =? zeroTime); [by intros ?%Add_not_nil|].
  destruct (now <? expires) eqn:E1; [|by intros ?%Add_not_nil]. cbn [negb].
  destruct (now + MaxOverrideDuration <? expires) eqn:E2; [by intros ?%Add_not_nil|].
  intros ->. split; [done|]. lia.
Qed.

Lemma asserted_state_nil ve v ve' s :
  asserted_state ve v = (ve', s) -> ve' = [] -> ve = [] /\ s = v /\ ValidHealth v = true.
Proof.
  unfold asserted_state, ParseHealthState. destruct (ValidHealth v) eqn:E.
  - by intros [= <- <-].
  - intros [= <- _]. cbn. by intros ?%Add_not_nil.
Qed.

Lemma guard_nil (b : bool) ve field msg :
  (if b then Add ve field msg else ve) = [] -> b = false /\ ve = [].
Proof. destruct b; [by intros ?%Add_not_nil|done]. Qed.

(** What [Validate] changes and what it guarantees. *)
Lemma ValidateOverride_inv o o' :
  ValidateOverride o = (o', None) ->
  (ho_EntityType o' = ho_EntityType o /\ ho_EntityID o' = ho_EntityID o /\
   ho_Lifecycle o' = ho_Lifecycle o /\ ho_ExpiresAt o' = ho_ExpiresAt o /\
   ho_AssertedState o' = ho_AssertedState o /\ ho_Actor o' = ho_Actor o) /\
  ho_EntityType o ∈ ObservableEntityTypes /\ ho_Reason o' = TrimSpace (ho_Reason o) /\
  ho_Reason o' <> "".
Proof.
  unfold ValidateOverride.
  destruct (checkRequired (checkEnum [] _ _ _) _ _) as [ve1 e1] eqn:E1.
  destruct (checkRequired (if negb _ then _ else _) "reason" _) as [ve2 reason] eqn:E2.
  destruct (checkRequired ve2 "actor" _) as [ve3 a] eqn:E3. intros [= <- Hn%OrNil_None]. cbn.
  assert (Hve3 : ve3 = []).
  { destruct (negb (str_ltb (ho_CreatedAt o) _)); cycle 1.
    - repeat case_match; try done; by apply Add_not_nil in Hn.
    - repeat case_match; try done; by apply Add_not_nil in Hn. }
  apply checkRequired_nil in E3 as [-> _]; [|done].
  apply checkRequired_nil in E2 as (E2 & -> & Hr); [|done].
  assert (E2' : checkEnum ve1 "lifecycle" (ho_Lifecycle o) OverrideLifecycles = []).
  { destruct (negb (ValidHealth _)); [|done]. by apply checkEnum_nil in E2 as [? _]. }
  apply checkEnum_nil in E2' as [-> _]. apply checkRequired_nil in E1 as [E1 _]; [|done].
  apply checkEnum_nil in E1 as [_ ?]. done.
Qed.

(** An override and the instant of the last decision about it: it was written,
    amended, or cleared then. *)
Inductive decided : HealthOverride -> Time -> Prop :=
  | decided_new id spec actor now o :
      storable now -> storable (now + MaxOverrideDuration) ->
      NewHealthOverride id spec actor now = inr o -> decided o now
  | decided_amend o before spec actor now o' :
      storable now -> storable (now + MaxOverrideDuration) ->
      decided o before -> Amend o spec actor now = inr o' -> decided o' now
  | decided_clear o before actor now o' :
      decided o before -> ClearOverride o actor now = inr o' -> decided o' now.

(** The invariant of an override. *)
Definition override_ok (o : HealthOverride) (last : Time) : Prop :=
  ho_EntityType o ∈ ObservableEntityTypes /\ ho_Reason o <> "" /\ ValidHealth (ho_AssertedState o) = true /\
  (ho_Lifecycle o = OverrideCleared \/
   exists e, ho_Lifecycle o = OverrideActive /\ ho_ExpiresAt o = FormatTime e /\ storable e /\
     last < e <= last + MaxOverrideDuration).

Lemma NewHealthOverride_ok id spec actor now o :
  storable now -> storable (now + MaxOverrideDuration) ->
  NewHealthOverride id spec actor now = inr o ->
  override_ok o now /\ ac_Kind actor = ActorKindUser /\ ho_EntityID o = hs_EntityID spec.
Proof.
  intros Hs Hs'. unfold NewHealthOverride.
  destruct (asserted_state _ (hs_AssertedState spec)) as [ve state] eqn:E1.
  destruct (ValidateOverride _) as [o' err] eqn:E2.
  destruct (OrNil (check_expiry ve _ now ++ default [] err)) eqn:E3; [done|]. intros [= ->].
  apply OrNil_None, app_eq_nil in E3 as [E3 E4].
  assert (err = None) as ->.
  { destruct err as [e|]; [|done]. cbn in E4. subst e. exfalso. clear -E2. unfold ValidateOverride in E2.
    repeat match type of E2 with context [checkRequired ?a ?b ?c] => destruct (checkRequired a b c) end.
    injection E2 as _ E2. by destruct (OrNil_None []) as [_ ?]; unfold OrNil in E2; case_match. }
  apply check_expiry_nil in E3 as [-> He].
  apply asserted_state_nil in E1 as (E1 & -> & Hv); [|done].
  apply guard_nil in E1 as [_ E1]. apply guard_nil in E1 as [Hk _].
  apply ValidateOverride_inv in E2 as ((Ht & Hid & Hl & Hx & Ha & _) & Hty & _ & Hre). cbn in *.
  split_and!.
  - unfold override_ok. rewrite Ht, Ha. split_and!; try done. right. exists (hs_ExpiresAt spec).
    split_and!; try done; try lia. apply (storable_between now _ (now + MaxOverrideDuration)); done || lia.
  - apply negb_false_iff, String.eqb_eq in Hk. done.
  - done.
Qed.

Lemma Amend_ok o spec actor now o' :
  storable now -> storable (now + MaxOverrideDuration) ->
  Amend o spec actor now = inr o' ->
  override_ok o' now /\ ac_Kind actor = ActorKindUser /\ ho_Lifecycle o = OverrideActive /\
  ho_EntityType o' = ho_EntityType o /\ ho_EntityID o' = ho_EntityID o.
Proof.
  intros Hs Hs'. unfold Amend.
  destruct (asserted_state _ (hs_AssertedState spec)) as [ve state] eqn:E1.
  destruct (OrNil (check_expiry ve _ now)) eqn:E3; [done|].
  destruct (ValidateOverride _) as [o1 [e|]] eqn:E2; [done|]. intros [= ->].
  apply OrNil_None, check_expiry_nil in E3 as [-> He].
  apply asserted_state_nil in E1 as (E1 & -> & Hv); [|done].
  apply guard_nil in E1 as [Hl1 E1]. apply guard_nil in E1 as [Hk _].
  apply negb_false_iff, String.eqb_eq in Hk, Hl1.
  apply ValidateOverride_inv in E2 as ((Ht & Hid & Hl & Hx & Ha & _) & Hty & _ & Hre). cbn in *.
  split_and!; try done.
  unfold override_ok. rewrite Ht, Ha. split_and!; try done. right. exists (hs_ExpiresAt spec).
  split_and!; try congruence; try lia.
  apply (storable_between now _ (now + MaxOverrideDuration)); done || lia.
Qed.

Lemma ClearOverride_inv o actor now o' :
  ClearOverride o actor now = inr o' ->
  ac_Kind actor = ActorKindUser /\ ho_Lifecycle o = OverrideActive /\
  ho_Lifecycle o' = OverrideCleared /\ ho_EntityType o' = ho_EntityType o /\
  ho_EntityID o' = ho_EntityID o /\ ho_Reason o' = ho_Reason o /\
  ho_AssertedState o' = ho_AssertedState o.
Proof.
  unfold ClearOverride. destruct (OrNil _) eqn:E; [done|]. intros [= <-].
  apply OrNil_None, guard_nil in E as [Hl E]. apply guard_nil in E as [Hk _].
  apply negb_false_iff, String.eqb_eq in Hk, Hl. done.
Qed.

Lemma decided_ok o last : decided o last -> override_ok o last.
Proof.
  induction 1 as [id spec actor now o Hs Hs' E|o before spec actor now o' Hs Hs' _ _ E
    |o before actor now o' _ IH E].
  - by apply NewHealthOverride_ok in E as [? _].
  - by apply Amend_ok in E as [? _].
  - apply ClearOverride_inv in E as (_ & _ & Hl & Ht & _ & Hr & Ha).
    destruct IH as (H1 & H2 & H3 & _). unfold override_ok. rewrite Ht, Hr, Ha.
    split_and!; try done. by left.
Qed.

(** No override outlives a day of nobody deciding. Through any sequence of
    writing, amending and clearing an override, each by a signed-in operator, it
    shadows its entity's readings only before twenty-four hours have passed since
    the last of those decisions; a cleared one shadows nothing, and no amendment
    brings it back. *)
Theorem override_unattended o last t :
  decided o last -> storable t ->
  (IsActiveAt o t = true -> t < last + MaxOverrideDuration) /\
  (ho_Lifecycle o = OverrideCleared ->
   IsActiveAt o t = false /\ forall spec actor now o', Amend o spec actor now <> inr o').
Proof.
  intros Hd Ht. destruct (decided_ok o last Hd) as (_ & _ & _ & Hl). unfold IsActiveAt. split.
  - intros [Ha Hlt]%andb_true_iff. apply String.eqb_eq in Ha.
    destruct Hl as [Hl|(e & _ & He & Hse & Hb)]; [rewrite Hl in Ha; done|].
    rewrite He, FormatTime_ltb, Z.ltb_lt in Hlt by done. unfold Second in Hlt. zdiv.
  - intros Hc. rewrite Hc. split; [done|]. intros spec actor now o'. unfold Amend. rewrite Hc.
    destruct (asserted_state _ _) as [ve state] eqn:E. destruct (OrNil _) eqn:E2; [done|].
    apply OrNil_None, check_expiry_nil in E2 as [-> _].
    apply asserted_state_nil in E as (E & _); [|done]. apply guard_nil in E as [E _]. done.
Qed.
End OverrideFacts.

Definition operator : Actor := {| ac_ID := "u1"; ac_Name := "ada"; ac_Kind := ActorKindUser |}.

Definition sample_override : HealthOverride :=
  {| ho_ID := "o1"; ho_EntityType := ObservableAsset; ho_EntityID := "a1"; ho_AssertedState := "up";
     ho_Reason := "sensor fault"; ho_Actor := "u1"; ho_Lifecycle := OverrideActive;
     ho_CreatedAt := "2026-08-01T10:00:00Z"; ho_UpdatedAt := "2026-08-01T10:00:00Z";
     ho_ExpiresAt := "2026-08-02T10:00:00Z" |}.

Lemma override_unattended_witness :
  decided (H := ascii_tables) sample_override ten_o_clock /\
  IsActiveAt sample_override (ten_o_clock + MaxOverrideDuration - Second) = true /\
  ten_o_clock + MaxOverrideDuration - Second < ten_o_clock + MaxOverrideDuration.
Proof.
  assert (Hd : decided (H := ascii_tables) sample_override ten_o_clock).
  { apply (decided_new (H := ascii_tables) "o1" {| hs_EntityType := ObservableAsset; hs_EntityID := "a1";
      hs_AssertedState := "up"; hs_Reason := "sensor fault";
      hs_ExpiresAt := ten_o_clock + MaxOverrideDuration |} operator);
      [vm_compute; split; congruence..|vm_compute; reflexivity]. }
  assert (Ha : IsActiveAt sample_override (ten_o_clock + MaxOverrideDuration - Second) = true)
    by (vm_compute; reflexivity).
  split_and!; [exact Hd|exact Ha|].
  apply (override_unattended (H := ascii_tables) _ _ _ Hd); [vm_compute; split; congruence|exact Ha].
Defined.
