(* ===== verification/Recorder.v ===== *)
(** The observation recorder: [internal/store/observed.go].

    The recorder applies reports from monitoring credentials. A report that
    changes nothing is buffered in memory and written on the next flush; a state
    change is written at once, together with a row of the transition ledger, or
    is compressed into an open flap episode.

    The tables the file writes are fields of [DB], and each SQL statement is a
    function on it; strings are compared bytewise. A transaction commits or
    fails as a whole: the flag given to [observedTx] says which, and a failed
    one leaves the tables as they were. The declared tables it only reads are
    [Inventory]. [NewID] is the store's supply of identifiers, numbered. The
    mutex makes each access to the buffer one step; what runs between the read
    of a reading and its write is covered by the theorems on sequences of
    transactions, which do not assume that nothing came between. *)
From Stdlib Require Import String Ascii ZArith Lia.
From stdpp Require Import base gmap strings list.
From S2P Require Import Prelude Text Errors Timestamps Actors Health.

#[local] Open Scope string_scope.
#[local] Open Scope list_scope.
#[local] Open Scope Z_scope.

(** * Definitions *)

(** ** The tables *)

Record healthKey := { hk_EntityType : string; hk_EntityID : string; hk_Reporter : string }.

#[export] Instance healthKey_eq_dec : EqDecision healthKey.
Proof. solve_decision. Defined.
#[export] Instance healthKey_countable : Countable healthKey.
Proof.
  apply (inj_countable' (fun k => (hk_EntityType k, hk_EntityID k, hk_Reporter k))
    (fun '(t, e, r) => {| hk_EntityType := t; hk_EntityID := e; hk_Reporter := r |})).
  by intros [].
Defined.

(** [asset_health], [observed_transition] in the order of insertion, and
    [unmatched_observation]; the identifiers used so far. *)
Record DB := {
  db_health : gmap healthKey AssetHealth;
  db_ledger : list ObservedTransition;
  db_unmatched : gmap healthKey UnmatchedObservation;
  db_ids : nat
}.

Definition with_health (h : gmap healthKey AssetHealth) (db : DB) : DB :=
  {| db_health := h; db_ledger := db_ledger db; db_unmatched := db_unmatched db; db_ids := db_ids db |}.

(** The rows this file only reads: which assets and placements exist, the host
    of a placement, and the environment codes of an asset. *)
Record Inventory := {
  inv_assets : gset string;
  inv_instances : gmap string string;
  inv_environments : gmap string (list string)
}.

(** What the database does: whether reads and the write transaction succeed. *)
Record Faults := { ft_reads : bool; ft_writes : bool }.

(** ** What happened to a report *)

Inductive ObservationDisposition :=
  | ObservationTransitioned | ObservationUnchanged | ObservationDuplicate | ObservationStale.

#[export] Instance disposition_eq_dec : EqDecision ObservationDisposition.
Proof. solve_decision. Defined.

Record ObservedReading := {
  or_Health : AssetHealth; or_Display : HealthState; or_Stale : bool; or_StaleSince : string
}.

(** [None] is the zero reading. *)
Record ObservationResult := {
  rs_Disposition : ObservationDisposition;
  rs_Reading : option ObservedReading
}.

(** [newObservedReading] *)
Definition newObservedReading (h : AssetHealth) (now : Time) : ObservedReading :=
  {| or_Health := h; or_Display := DisplayState h now; or_Stale := IsStale h now;
     or_StaleSince :=
       if negb (IsStale h now) then ""
       else match StaleAfter h with
            | Some horizon => FormatTime horizon
            | None => ah_LastReportAt h
            end |}.

(** [settled] *)
Definition settled (d : ObservationDisposition) (health : option AssetHealth) (now : Time)
    : ObservationResult :=
  {| rs_Disposition := d; rs_Reading := (fun h => newObservedReading h now) <$> health |}.

(** ** The buffer's entries *)

Record pendingBump := {
  pb_reportedAt : string; pb_lastReportAt : string; pb_observationID : string;
  pb_intervalSeconds : Z
}.

(** [optionalText] *)
Definition optionalText (v : string) : option string := if String.eqb v "" then None else Some v.

(** [derefText] *)
Definition derefText (v : option string) : string := default "" v.

(** [if v > out { out = v }] on text. *)
Definition later_text (v out : string) : string := if str_ltb out v then v else out.

(** A reading with its four report columns replaced. *)
Definition with_report (h : AssetHealth) (reportedAt lastReportAt : string) (interval : option Z)
    (observationID : option string) : AssetHealth :=
  {| ah_EntityType := ah_EntityType h; ah_EntityID := ah_EntityID h; ah_Reporter := ah_Reporter h;
     ah_State := ah_State h; ah_StateSince := ah_StateSince h; ah_ReportedAt := reportedAt;
     ah_LastReportAt := lastReportAt; ah_IntervalSeconds := interval;
     ah_ObservationID := observationID; ah_FlapSince := ah_FlapSince h;
     ah_FlapCount := ah_FlapCount h; ah_FlapFirstState := ah_FlapFirstState h;
     ah_FlapSeen := ah_FlapSeen h |}.

(** The reading of a key with nothing stored. *)
Definition blank_reading (key : healthKey) : AssetHealth :=
  {| ah_EntityType := hk_EntityType key; ah_EntityID := hk_EntityID key;
     ah_Reporter := hk_Reporter key; ah_State := ""; ah_StateSince := ""; ah_ReportedAt := "";
     ah_LastReportAt := ""; ah_IntervalSeconds := None; ah_ObservationID := None;
     ah_FlapSince := None; ah_FlapCount := None; ah_FlapFirstState := None; ah_FlapSeen := None |}.

(** [applyBump] *)
Definition applyBump (stored : option AssetHealth) (key : healthKey) (bump : pendingBump)
    : AssetHealth :=
  let out := default (blank_reading key) stored in
  with_report out (later_text (pb_reportedAt bump) (ah_ReportedAt out))
    (later_text (pb_lastReportAt bump) (ah_LastReportAt out))
    (if 0 <? pb_intervalSeconds bump then Some (pb_intervalSeconds bump) else ah_IntervalSeconds out)
    (optionalText (pb_observationID bump)).

(** [bumpFor] *)
Definition bumpFor (obs : Observation) (now : Time) : pendingBump :=
  {| pb_reportedAt := ob_ReportedAt obs; pb_lastReportAt := FormatTime now;
     pb_observationID := ob_ObservationID obs; pb_intervalSeconds := ob_IntervalSeconds obs |}.

(** ** Classification and flap compression *)

(** [classify] *)
Definition classify (obs : Observation) (current : option AssetHealth) : ObservationDisposition :=
  match current with
  | None => ObservationTransitioned
  | Some h =>
      if negb (String.eqb (ob_ObservationID obs) "") &&
         bool_decide (ah_ObservationID h = Some (ob_ObservationID obs))
      then ObservationDuplicate
      else if negb (Supersedes obs (ah_ReportedAt h)) then ObservationStale
      else if negb (String.eqb (ah_State h) (ob_State obs)) then ObservationTransitioned
      else ObservationUnchanged
  end.

Record flapEpisode := {
  ep_since : string; ep_count : Z; ep_first : HealthState; ep_seen : list HealthState
}.

Definition no_episode : flapEpisode :=
  {| ep_since := ""; ep_count := 0; ep_first := ""; ep_seen := [] |}.

(** [flapEpisode.open] *)
Definition episode_open (e : flapEpisode) : bool := negb (String.eqb (ep_since e) "").

(** A reading with its four episode columns replaced. *)
Definition with_flap (h : AssetHealth) (since : option string) (count : option Z)
    (first seen : option string) : AssetHealth :=
  {| ah_EntityType := ah_EntityType h; ah_EntityID := ah_EntityID h; ah_Reporter := ah_Reporter h;
     ah_State := ah_State h; ah_StateSince := ah_StateSince h; ah_ReportedAt := ah_ReportedAt h;
     ah_LastReportAt := ah_LastReportAt h; ah_IntervalSeconds := ah_IntervalSeconds h;
     ah_ObservationID := ah_ObservationID h; ah_FlapSince := since; ah_FlapCount := count;
     ah_FlapFirstState := first; ah_FlapSeen := seen |}.

(** [flapEpisode.applyTo] *)
Definition applyTo (e : flapEpisode) (h : AssetHealth) : AssetHealth :=
  if negb (episode_open e) then with_flap h None None None None
  else with_flap h (Some (ep_since e)) (Some (ep_count e)) (Some (ep_first e))
         (Some (EncodeHealthStates (ep_seen e))).

(** [flapEpisode.withState] *)
Definition withState (e : flapEpisode) (state : HealthState) : flapEpisode :=
  {| ep_since := ep_since e; ep_count := ep_count e + 1; ep_first := ep_first e;
     ep_seen := ep_seen e ++ [state] |}.

(** [episodeFrom] *)
Definition episodeFrom (h : option AssetHealth) : flapEpisode :=
  match h with
  | None => no_episode
  | Some h =>
      if negb (Flapping h) then no_episode
      else {| ep_since := FlapOpenedAt h; ep_count := FlapTransitions h;
              ep_first := derefText (ah_FlapFirstState h); ep_seen := FlapStates h |}
  end.

Record flapClosure := { cl_episode : flapEpisode; cl_last : HealthState; cl_settled : HealthState }.

Record flapPlan := {
  pl_closing : option flapClosure; pl_opens : bool; pl_emit : bool; pl_episode : flapEpisode
}.

(** The row that closes an episode gone quiet. *)
Definition quiet_closure (h : AssetHealth) : flapClosure :=
  {| cl_episode := episodeFrom (Some h); cl_last := ah_State h; cl_settled := ah_State h |}.

(** [planFlap] *)
Definition planFlap (current : option AssetHealth) (to : HealthState) (at_ : string) (churn : Z)
    (now : Time) : flapPlan :=
  match current with
  | None => {| pl_closing := None; pl_opens := false; pl_emit := true; pl_episode := no_episode |}
  | Some h =>
      let '(settledClose, current) :=
        if FlapSettled h now then (Some (quiet_closure h), applyTo no_episode h) else (None, h) in
      if Flapping current then
        let episode := episodeFrom (Some current) in
        if SawDuringEpisode current to
        then {| pl_closing := settledClose; pl_opens := false; pl_emit := false;
                pl_episode := withState episode to |}
        else {| pl_closing := Some {| cl_episode := withState episode to;
                                      cl_last := ah_State current; cl_settled := to |};
                pl_opens := false; pl_emit := true; pl_episode := no_episode |}
      else if bool_decide (settledClose = None) && FlapQualifies (churn + 1)
      then {| pl_closing := None; pl_opens := true; pl_emit := false;
              pl_episode := {| ep_since := at_; ep_count := 1; ep_first := ah_State current;
                               ep_seen := [ah_State current; to] |} |}
      else {| pl_closing := settledClose; pl_opens := false; pl_emit := true;
              pl_episode := no_episode |}
  end.

(** ** Statements *)

Definition row_is (key : healthKey) (t : ObservedTransition) : bool :=
  String.eqb (ot_EntityType t) (hk_EntityType key) && String.eqb (ot_EntityID t) (hk_EntityID key) &&
  String.eqb (ot_Reporter t) (hk_Reporter key).

(** A state change: [kind IN ('transition', 'flap_open')]. *)
Definition is_change (t : ObservedTransition) : bool :=
  String.eqb (ot_Kind t) TransitionChange || String.eqb (ot_Kind t) TransitionFlapOpen.

(** [countRecentTransitions]: [recentTransitionCount]. *)
Definition countRecentTransitions (key : healthKey) (windowStart : string) (db : DB) : Z :=
  Z.of_nat (count_if (fun t => row_is key t && is_change t && negb (str_ltb (ot_At t) windowStart))
              (db_ledger db)).

Definition key_of (h : AssetHealth) : healthKey :=
  {| hk_EntityType := ah_EntityType h; hk_EntityID := ah_EntityID h; hk_Reporter := ah_Reporter h |}.

(** [upsertHealth]: [healthUpsert], and whether a row was written. *)
Definition upsertHealth (h : AssetHealth) (db : DB) : bool * DB :=
  let applied := match db_health db !! key_of h with
                 | None => true
                 | Some e => str_ltb (ah_ReportedAt e) (ah_ReportedAt h)
                 end in
  (applied, if applied then with_health (<[key_of h := h]> (db_health db)) db else db).

(** [bumpHealth]: [healthBumpUpdate]. *)
Definition bumpHealth (key : healthKey) (bump : pendingBump) (db : DB) : DB :=
  match db_health db !! key with
  | Some e =>
      if str_ltb (pb_reportedAt bump) (ah_ReportedAt e) then db
      else with_health
        (<[key := with_report e (pb_reportedAt bump) (pb_lastReportAt bump)
             (if 0 <? pb_intervalSeconds bump then Some (pb_intervalSeconds bump) else None)
             (optionalText (pb_observationID bump))]> (db_health db)) db
  | None => db
  end.

(** [clearFlap]: [healthClearFlap]. *)
Definition clearFlap (key : healthKey) (db : DB) : DB :=
  with_health (alter (fun h => with_flap h None None None None) key (db_health db)) db.

(** [readHealth] *)
Definition readHealth (key : healthKey) (db : DB) : option AssetHealth := db_health db !! key.

Section Store.
Context (NewID : nat -> string).

(** [transitionInsert], with an identifier of its own. *)
Definition appendLedger (row : string -> ObservedTransition) (db : DB) : DB :=
  {| db_health := db_health db; db_ledger := db_ledger db ++ [row (NewID (db_ids db))];
     db_unmatched := db_unmatched db; db_ids := S (db_ids db) |}.

(** [recordTransition] *)
Definition recordTransition (key : healthKey) (from : option string) (to : HealthState) (at_ : string)
    : DB -> DB :=
  appendLedger (fun id =>
    {| ot_ID := id; ot_EntityType := hk_EntityType key; ot_EntityID := hk_EntityID key;
       ot_Reporter := hk_Reporter key; ot_Kind := TransitionChange; ot_FromState := from;
       ot_ToState := to; ot_At := at_; ot_FlapCount := None; ot_WindowStart := None;
       ot_WindowEnd := None; ot_FirstState := None; ot_LastState := None; ot_SettledState := None |}).

(** [recordFlapOpen] *)
Definition recordFlapOpen (key : healthKey) (e : flapEpisode) (to : HealthState) (at_ : string)
    : DB -> DB :=
  appendLedger (fun id =>
    {| ot_ID := id; ot_EntityType := hk_EntityType key; ot_EntityID := hk_EntityID key;
       ot_Reporter := hk_Reporter key; ot_Kind := TransitionFlapOpen; ot_FromState := Some (ep_first e);
       ot_ToState := to; ot_At := at_; ot_FlapCount := None; ot_WindowStart := None;
       ot_WindowEnd := None; ot_FirstState := None; ot_LastState := None; ot_SettledState := None |}).

(** [recordFlapClose] *)
Definition recordFlapClose (key : healthKey) (c : flapClosure) (at_ : string) : DB -> DB :=
  let e := cl_episode c in
  appendLedger (fun id =>
    {| ot_ID := id; ot_EntityType := hk_EntityType key; ot_EntityID := hk_EntityID key;
       ot_Reporter := hk_Reporter key; ot_Kind := TransitionFlapClose; ot_FromState := Some (ep_first e);
       ot_ToState := cl_settled c; ot_At := at_; ot_FlapCount := Some (ep_count e);
       ot_WindowStart := Some (ep_since e); ot_WindowEnd := Some at_;
       ot_FirstState := Some (ep_first e); ot_LastState := Some (cl_last c);
       ot_SettledState := Some (cl_settled c) |}).

(** ** Transactions *)

Definition obs_key (obs : Observation) : healthKey :=
  {| hk_EntityType := ob_EntityType obs; hk_EntityID := ob_EntityID obs;
     hk_Reporter := ob_Reporter obs |}.

(** The reading a state change writes, before its episode. *)
Definition new_reading (obs : Observation) (at_ : string) : AssetHealth :=
  {| ah_EntityType := ob_EntityType obs; ah_EntityID := ob_EntityID obs;
     ah_Reporter := ob_Reporter obs; ah_State := ob_State obs; ah_StateSince := at_;
     ah_ReportedAt := ob_ReportedAt obs; ah_LastReportAt := at_;
     ah_IntervalSeconds := Some (ob_IntervalSeconds obs);
     ah_ObservationID := optionalText (ob_ObservationID obs);
     ah_FlapSince := None; ah_FlapCount := None; ah_FlapFirstState := None; ah_FlapSeen := None |}.

(** The ledger rows of a plan: the episode that ends before the change that
    ended it. *)
Definition record_plan (key : healthKey) (current : option AssetHealth) (plan : flapPlan)
    (to : HealthState) (at_ : string) (db : DB) : DB :=
  let db := match pl_closing plan with
            | Some c => recordFlapClose key c at_ db
            | None => db
            end in
  if pl_opens plan then recordFlapOpen key (pl_episode plan) to at_ db
  else if pl_emit plan then recordTransition key (ah_State <$> current) to at_ db
  else db.

(** The transaction of [writeThrough]. *)
Definition write_tx (obs : Observation) (now : Time) (db : DB) : ObservationResult * DB :=
  let key := obs_key obs in
  let at_ := FormatTime now in
  let current := readHealth key db in
  match classify obs current with
  | ObservationDuplicate => (settled ObservationDuplicate current now, db)
  | ObservationStale => (settled ObservationStale current now, db)
  | ObservationUnchanged =>
      let bumped := bumpFor obs now in
      (settled ObservationUnchanged (Some (applyBump current key bumped)) now, bumpHealth key bumped db)
  | ObservationTransitioned =>
      let churn := countRecentTransitions key (FormatTime (FlapWindowStart now)) db in
      let plan := planFlap current (ob_State obs) at_ churn now in
      let health := applyTo (pl_episode plan) (new_reading obs at_) in
      let '(applied, db') := upsertHealth health db in
      if negb applied then (settled ObservationStale (readHealth key db') now, db')
      else (settled ObservationTransitioned (Some health) now,
            record_plan key current plan (ob_State obs) at_ db')
  end.

(** The transaction of [closeSettledEpisode]; [None] when the row is gone. *)
Definition close_tx (obs : Observation) (now : Time) (db : DB) : option ObservationResult * DB :=
  let key := obs_key obs in
  let at_ := FormatTime now in
  let bump := bumpFor obs now in
  match readHealth key db with
  | None => (None, db)
  | Some fresh =>
      let '(fresh', db') :=
        if FlapSettled fresh now
        then (applyTo no_episode fresh, clearFlap key (recordFlapClose key (quiet_closure fresh) at_ db))
        else (fresh, db) in
      (Some (settled ObservationUnchanged (Some (applyBump (Some fresh') key bump)) now),
       bumpHealth key bump db')
  end.

Definition MaxUnmatchedPerReporter : Z := 500.

(** [SELECT COUNT( * ) FROM unmatched_observation WHERE reporter = ?] *)
Definition queued_by (reporter : string) (db : DB) : Z :=
  Z.of_nat (count_if (fun kv => String.eqb (um_Reporter (snd kv)) reporter)
              (map_to_list (db_unmatched db))).

(** [unmatchedUpsert] *)
Definition upsertUnmatched (obs : Observation) (at_ : string) (db : DB) : DB :=
  let row := match db_unmatched db !! obs_key obs with
             | None => {| um_ID := NewID (db_ids db); um_EntityType := ob_EntityType obs;
                          um_EntityRef := ob_EntityID obs; um_Reporter := ob_Reporter obs;
                          um_State := ob_State obs; um_ReportedAt := ob_ReportedAt obs;
                          um_FirstSeenAt := at_; um_LastSeenAt := at_; um_ReportCount := 1 |}
             | Some e => {| um_ID := um_ID e; um_EntityType := um_EntityType e;
                            um_EntityRef := um_EntityRef e; um_Reporter := um_Reporter e;
                            um_State := ob_State obs; um_ReportedAt := ob_ReportedAt obs;
                            um_FirstSeenAt := um_FirstSeenAt e; um_LastSeenAt := at_;
                            um_ReportCount := um_ReportCount e + 1 |}
             end in
  {| db_health := db_health db; db_ledger := db_ledger db;
     db_unmatched := <[obs_key obs := row]> (db_unmatched db); db_ids := S (db_ids db) |}.

(** The transaction of [queueUnmatched]. *)
Definition unmatched_tx (obs : Observation) (now : Time) (db : DB) : DB :=
  if MaxUnmatchedPerReporter <=? queued_by (ob_Reporter obs) db then db
  else upsertUnmatched obs (FormatTime now) db.

(** [observedTx]: what the transaction returned, and the tables after it. *)
Definition observedTx {A} (commits : bool) (fn : DB -> A * DB) (db : DB) : option A * DB :=
  if commits then let '(a, db') := fn db in (Some a, db') else (None, db).

(** ** The recorder *)

(** [ObservedRecorder] *)
Record ObservedRecorder := { rc_db : DB; rc_pending : gmap healthKey pendingBump }.

Definition with_db (r : ObservedRecorder) (db : DB) : ObservedRecorder :=
  {| rc_db := db; rc_pending := rc_pending r |}.

(** [ObservedRecorder.forget] *)
Definition forget (key : healthKey) (r : ObservedRecorder) : ObservedRecorder :=
  {| rc_db := rc_db r; rc_pending := delete key (rc_pending r) |}.

(** [ObservedRecorder.currentReading] *)
Definition currentReading (key : healthKey) (r : ObservedRecorder) : option AssetHealth :=
  match readHealth key (rc_db r) with
  | None => None
  | Some stored =>
      match rc_pending r !! key with
      | None => Some stored
      | Some bump => Some (applyBump (Some stored) key bump)
      end
  end.

(** [ObservedRecorder.buffer] *)
Definition buffer (key : healthKey) (obs : Observation) (current : option AssetHealth) (now : Time)
    (r : ObservedRecorder) : AssetHealth * ObservedRecorder :=
  let bump := bumpFor obs now in
  let keep := match rc_pending r !! key with
              | None => true
              | Some prev => negb (str_ltb (pb_reportedAt bump) (pb_reportedAt prev))
              end in
  (applyBump current key bump,
   {| rc_db := rc_db r;
      rc_pending := if keep then <[key := bump]> (rc_pending r) else rc_pending r |}).

(** [ObservedRecorder.writeThrough] *)
Definition writeThrough (commits : bool) (obs : Observation) (now : Time) (r : ObservedRecorder)
    : (StoreError + ObservationResult) * ObservedRecorder :=
  match observedTx commits (write_tx obs now) (rc_db r) with
  | (None, db) => (inl DatabaseError, with_db r db)
  | (Some out, db) => (inr out, forget (obs_key obs) (with_db r db))
  end.

(** [ObservedRecorder.closeSettledEpisode] *)
Definition closeSettledEpisode (commits : bool) (obs : Observation) (current : option AssetHealth)
    (now : Time) (r : ObservedRecorder) : (StoreError + ObservationResult) * ObservedRecorder :=
  match observedTx commits (close_tx obs now) (rc_db r) with
  | (None, db) => (inl DatabaseError, with_db r db)
  | (Some None, db) => (inr (settled ObservationUnchanged current now), with_db r db)
  | (Some (Some out), db) => (inr out, forget (obs_key obs) (with_db r db))
  end.

(** What [RecordObservation] does with a report it has authorised. *)
Definition applyObservation (commits : bool) (obs : Observation) (now : Time) (r : ObservedRecorder)
    : (StoreError + ObservationResult) * ObservedRecorder :=
  let key := obs_key obs in
  let current := currentReading key r in
  match classify obs current with
  | ObservationTransitioned => writeThrough commits obs now r
  | ObservationDuplicate => (inr (settled ObservationDuplicate current now), r)
  | ObservationStale => (inr (settled ObservationStale current now), r)
  | ObservationUnchanged =>
      if match current with Some h => FlapSettled h now | None => false end
      then closeSettledEpisode commits obs current now r
      else let '(bumped, r') := buffer key obs current now r in
           (inr (settled ObservationUnchanged (Some bumped) now), r')
  end.

(** [observableExists] *)
Definition observableExists (inv : Inventory) (entityType entityID : string) : Sentinel + bool :=
  if String.eqb entityType ObservableAsset then inr (bool_decide (entityID ∈ inv_assets inv))
  else if String.eqb entityType ObservableServiceInstance
  then inr (bool_decide (is_Some (inv_instances inv !! entityID)))
  else inl ErrInvalid.

(** [entityEnvironments] *)
Definition entityEnvironments (inv : Inventory) (entityType entityID : string)
    : Sentinel + list string :=
  let codes (asset : string) := isort str_ltb ((inv_environments inv).[asset | []]) in
  if String.eqb entityType ObservableAsset then inr (codes entityID)
  else if String.eqb entityType ObservableServiceInstance
  then inr (match inv_instances inv !! entityID with Some host => codes host | None => [] end)
  else inl ErrInvalid.

Section Authorised.
Context `{Unicode}.

(** [observationReporter] *)
Definition observationReporter (actor : Actor) : ValidationError + string :=
  match ValidateActor actor with
  | Some ve => inl ve
  | None =>
      match CredentialID actor with
      | Some id => inr id
      | None => inl (Add [] "actor" ("an observation is attributed to a monitoring credential, not a " +++
                  ac_Kind actor +++ " actor; build one with domain.AgentActor"))
      end
  end.

(** [authoriseScope] *)
Definition authoriseScope (inv : Inventory) (scope : EnvironmentScope) (obs : Observation)
    : option Sentinel :=
  match entityEnvironments inv (ob_EntityType obs) (ob_EntityID obs) with
  | inl e => Some e
  | inr codes => if AllowsAll scope codes then None else Some ErrForbidden
  end.

(** [RecordObservation] *)
Definition RecordObservation (inv : Inventory) (faults : Faults) (now : Time) (actor : Actor)
    (scope : EnvironmentScope) (spec : ObservationSpec) (r : ObservedRecorder)
    : (StoreError + ObservationResult) * ObservedRecorder :=
  match observationReporter actor with
  | inl ve => (inl (Invalid ve), r)
  | inr reporter =>
  if ScopeEmpty scope
  then (inl (Invalid (Add [] "scope" ("a monitoring credential must arrive with its environment " +++
          "scope; this one has none"))), r)
  else
  match NewObservation spec reporter now with
  | inl ve => (inl (Invalid ve), r)
  | inr obs =>
  if negb (ft_reads faults) then (inl DatabaseError, r) else
  match observableExists inv (ob_EntityType obs) (ob_EntityID obs) with
  | inl e => (inl (Wrapped e), r)
  | inr false =>
      match observedTx (ft_writes faults) (fun db => (tt, unmatched_tx obs now db)) (rc_db r) with
      | (None, db) => (inl DatabaseError, with_db r db)
      | (Some _, db) => (inl (Wrapped ErrNotFound), with_db r db)
      end
  | inr true =>
      match authoriseScope inv scope obs with
      | Some e => (inl (Wrapped e), r)
      | None => applyObservation (ft_writes faults) obs now r
      end
  end
  end
  end.
End Authorised.

(** ** Flushing *)

(** The order of [Flush]'s sort. *)
Definition key_less : healthKey -> healthKey -> bool :=
  lex_less hk_EntityType str_ltb (lex_less hk_EntityID str_ltb
    (fun a b => str_ltb (hk_Reporter a) (hk_Reporter b))).

(** The transaction of [Flush]. *)
Definition flush_tx (pending : gmap healthKey pendingBump) (db : DB) : DB :=
  foldl (fun db kb => bumpHealth (fst kb) (snd kb) db) db
    (isort (fun a b => key_less (fst a) (fst b)) (map_to_list pending)).

(** [ObservedRecorder.restore]: the buffer after a failed flush took [pending]
    from it. *)
Definition restore (pending buffered : gmap healthKey pendingBump) : gmap healthKey pendingBump :=
  map_fold (fun key bump m =>
    match m !! key with
    | Some newer => if negb (str_ltb (pb_reportedAt newer) (pb_reportedAt bump)) then m
                    else <[key := bump]> m
    | None => <[key := bump]> m
    end) buffered pending.

(** [ObservedRecorder.Flush]: how many were written, or an error. *)
Definition Flush (commits : bool) (r : ObservedRecorder) : option nat * ObservedRecorder :=
  let pending := rc_pending r in
  if (size pending =? 0)%nat then (Some O, {| rc_db := rc_db r; rc_pending := ∅ |})
  else match observedTx commits (fun db => (tt, flush_tx pending db)) (rc_db r) with
       | (None, db) => (None, {| rc_db := db; rc_pending := restore pending ∅ |})
       | (Some _, db) => (Some (size pending), {| rc_db := db; rc_pending := ∅ |})
       end.

(** [ObservedRecorder.Run]: one flush per tick, and one more when the context
    is cancelled. *)
Definition Run (ticks : list bool) (final : bool) (r : ObservedRecorder) : ObservedRecorder :=
  snd (Flush final (foldl (fun r commits => snd (Flush commits r)) r ticks)).

(** ** Reading back *)

(** [GetObservedState] *)
Definition GetObservedState (entityType entityID : string) (now : Time) (db : DB)
    : list ObservedReading :=
  (fun h => newObservedReading h now) <$>
    isort (fun a b => str_ltb (ah_Reporter a) (ah_Reporter b))
      (List.filter (fun h => String.eqb (ah_EntityType h) entityType &&
                             String.eqb (ah_EntityID h) entityID)
         (map_to_list (db_health db)).*2).

(** [LIMIT], of at least one row: fifty when none is asked for. *)
Definition limited {A} (limit : Z) (l : list A) : list A :=
  firstn (Z.to_nat (if limit <=? 0 then 50 else limit)) l.

(** [ListTransitions]: newest first. *)
Definition ListTransitions (entityType entityID : string) (limit : Z) (db : DB)
    : list ObservedTransition :=
  limited limit
    (isort (lex_less ot_At (fun a b => str_ltb b a) (fun a b => str_ltb (ot_ID b) (ot_ID a)))
       (List.filter (fun t => String.eqb (ot_EntityType t) entityType &&
                              String.eqb (ot_EntityID t) entityID) (db_ledger db))).

(** [ListUnmatchedObservations]: most recently seen first. *)
Definition ListUnmatchedObservations (limit : Z) (db : DB) : list UnmatchedObservation :=
  limited limit
    (isort (lex_less um_LastSeenAt (fun a b => str_ltb b a) (fun a b => str_ltb (um_ID b) (um_ID a)))
       (map_to_list (db_unmatched db)).*2).
End Store.
