(* ===== verification/Ledger.v ===== *)
(** What the recorder leaves in the tables, over any sequence of its
    transactions: the rows satisfy the constraints of the schema
    ([internal/store/migrations/shared/00008_observed.sql]), and the transition
    ledger accounts for every state change, written or compressed.

    A transaction is taken as the unit of interleaving: nothing is assumed about
    the order in which reports, closures and flushes reach the database, nor
    about what was read before a transaction began. *)
From Stdlib Require Import String Ascii ZArith Lia.
From stdpp Require Import base gmap strings list.
From S2P Require Import Prelude Text Errors Timestamps Actors Health Recorder.

#[local] Open Scope string_scope.
#[local] Open Scope list_scope.
#[local] Open Scope Z_scope.

(** * Definitions *)

(** ** Sequences of transactions *)

Inductive Tx :=
  | TxReport (obs : Observation) (now : Time)
  | TxClose (obs : Observation) (now : Time)
  | TxFlush (pending : gmap healthKey pendingBump)
  | TxUnmatched (obs : Observation) (now : Time).

Section Sequences.
Context (NewID : nat -> string).

(** The state change a transaction made, if it made one, and the tables. *)
Definition exec (tx : Tx) (db : DB) : option healthKey * DB :=
  match tx with
  | TxReport obs now =>
      let '(out, db') := write_tx NewID obs now db in
      (if decide (rs_Disposition out = ObservationTransitioned) then Some (obs_key obs) else None, db')
  | TxClose obs now => (None, snd (close_tx NewID obs now db))
  | TxFlush pending => (None, flush_tx pending db)
  | TxUnmatched obs now => (None, unmatched_tx NewID obs now db)
  end.

Fixpoint exec_all (txs : list Tx) (db : DB) : list healthKey * DB :=
  match txs with
  | [] => ([], db)
  | tx :: txs' =>
      let '(change, db') := exec tx db in
      let '(changes, db'') := exec_all txs' db' in
      (match change with Some k => k :: changes | None => changes end, db'')
  end.
End Sequences.

Definition empty_db : DB := {| db_health := ∅; db_ledger := []; db_unmatched := ∅; db_ids := 0 |}.

(** The reports the recorder runs transactions for: those [NewObservation] has
    accepted. *)
Definition obs_ok (obs : Observation) : Prop :=
  ob_EntityType obs ∈ ObservableEntityTypes /\ ValidHealth (ob_State obs) = true /\
  0 < ob_IntervalSeconds obs.

Definition bump_ok (b : pendingBump) : Prop := 0 < pb_intervalSeconds b.

Definition tx_ok (tx : Tx) : Prop :=
  match tx with
  | TxReport obs _ | TxClose obs _ | TxUnmatched obs _ => obs_ok obs
  | TxFlush pending => map_Forall (fun _ b => bump_ok b) pending
  end.

(** ** The constraints of the schema *)

(** [CHECK] of [asset_health], its key, and what the recorder adds: an open
    episode has seen the state the row is in. *)
Definition episode_ok (h : AssetHealth) : Prop :=
  (ah_FlapSince h = None /\ ah_FlapCount h = None /\ ah_FlapFirstState h = None /\ ah_FlapSeen h = None) \/
  (exists since count first seen,
     ah_FlapSince h = Some since /\ since <> "" /\ ah_FlapCount h = Some count /\ 0 < count /\
     ah_FlapFirstState h = Some first /\ ValidHealth first = true /\ ah_FlapSeen h = Some seen /\
     ah_State h ∈ DecodeHealthStates seen).

Definition health_ok (k : healthKey) (h : AssetHealth) : Prop :=
  key_of h = k /\ ah_EntityType h ∈ ObservableEntityTypes /\ ValidHealth (ah_State h) = true /\
  (exists i, ah_IntervalSeconds h = Some i /\ 0 < i) /\ episode_ok h.

Definition optional_state (s : option string) : Prop := forall v, s = Some v -> ValidHealth v = true.

(** What a closing row says was hidden: every change of the episode but the one
    that opened it, and but the novel one, if it was one, that ended it and has a
    row of its own. *)
Definition hidden_row (t : ObservedTransition) : Z :=
  if String.eqb (ot_Kind t) TransitionFlapClose
  then default 0 (ot_FlapCount t) - 1 - (if decide (ot_LastState t = ot_SettledState t) then 0 else 1)
  else 0.

(** [CHECK] of [observed_transition], and no row hides less than nothing. *)
Definition ledger_ok (t : ObservedTransition) : Prop :=
  ot_EntityType t ∈ ObservableEntityTypes /\ ot_Kind t ∈ TransitionKinds /\
  optional_state (ot_FromState t) /\ ValidHealth (ot_ToState t) = true /\
  (forall c, ot_FlapCount t = Some c -> 0 < c) /\
  optional_state (ot_FirstState t) /\ optional_state (ot_LastState t) /\
  optional_state (ot_SettledState t) /\
  (ot_Kind t = TransitionFlapClose ->
     is_Some (ot_FlapCount t) /\ is_Some (ot_WindowStart t) /\ is_Some (ot_WindowEnd t) /\
     is_Some (ot_FirstState t) /\ is_Some (ot_LastState t) /\ is_Some (ot_SettledState t)) /\
  0 <= hidden_row t.

Definition db_ok (db : DB) : Prop :=
  map_Forall health_ok (db_health db) /\ Forall ledger_ok (db_ledger db).

(** ** Accounting *)

(** Rows that show a state change by themselves. *)
Definition visible (k : healthKey) (l : list ObservedTransition) : Z :=
  Z.of_nat (count_if (fun t => row_is k t && is_change t) l).

Definition hidden (k : healthKey) (l : list ObservedTransition) : Z :=
  sumZ (hidden_row <$> List.filter (row_is k) l).

(** The part of the account the ledger holds. *)
Definition written (k : healthKey) (l : list ObservedTransition) : Z := visible k l + hidden k l.

(** What the open episode has absorbed so far. *)
Definition absorbed (h : option AssetHealth) : Z :=
  match h with Some h => if Flapping h then FlapTransitions h - 1 else 0 | None => 0 end.

Definition accounted (k : healthKey) (db : DB) : Z :=
  written k (db_ledger db) + absorbed (db_health db !! k).

(** * Lemmas *)

Lemma FlapStates_absorbed h : episode_ok h -> Flapping h = true ->
  exists since count first seen,
    ah_FlapSince h = Some since /\ since <> "" /\ ah_FlapCount h = Some count /\ 0 < count /\
    ah_FlapFirstState h = Some first /\ ValidHealth first = true /\ ah_FlapSeen h = Some seen /\
    ah_State h ∈ DecodeHealthStates seen.
Proof. intros [(Hs & _)|H]; [|done]. unfold Flapping. by rewrite Hs. Qed.

Lemma Flapping_cleared h : Flapping (applyTo no_episode h) = false.
Proof. reflexivity. Qed.

(** ** What a plan can be *)

Inductive plan_case (h : AssetHealth) (to at_ : string) (churn : Z) (now : Time) : flapPlan -> Prop :=
  | plan_quiet : FlapSettled h now = true ->
      plan_case h to at_ churn now
        {| pl_closing := Some (quiet_closure h); pl_opens := false; pl_emit := true;
           pl_episode := no_episode |}
  | plan_absorbed : FlapSettled h now = false -> Flapping h = true -> to ∈ FlapStates h ->
      plan_case h to at_ churn now
        {| pl_closing := None; pl_opens := false; pl_emit := false;
           pl_episode := withState (episodeFrom (Some h)) to |}
  | plan_novel : FlapSettled h now = false -> Flapping h = true -> to ∉ FlapStates h ->
      plan_case h to at_ churn now
        {| pl_closing := Some {| cl_episode := withState (episodeFrom (Some h)) to;
                                 cl_last := ah_State h; cl_settled := to |};
           pl_opens := false; pl_emit := true; pl_episode := no_episode |}
  | plan_opens : Flapping h = false -> FlapThreshold < churn + 1 ->
      plan_case h to at_ churn now
        {| pl_closing := None; pl_opens := true; pl_emit := false;
           pl_episode := {| ep_since := at_; ep_count := 1; ep_first := ah_State h;
                            ep_seen := [ah_State h; to] |} |}
  | plan_plain : Flapping h = false -> churn + 1 <= FlapThreshold ->
      plan_case h to at_ churn now
        {| pl_closing := None; pl_opens := false; pl_emit := true; pl_episode := no_episode |}.

Lemma planFlap_cases h to at_ churn now :
  plan_case h to at_ churn now (planFlap (Some h) to at_ churn now).
Proof.
  unfold planFlap. destruct (FlapSettled h now) eqn:Hs.
  { rewrite Flapping_cleared. cbn. by apply plan_quiet. }
  destruct (Flapping h) eqn:Hf.
  - destruct (SawDuringEpisode h to) eqn:Hw.
    + apply plan_absorbed; try done. by apply SawDuringEpisode_elem.
    + apply plan_novel; try done. rewrite <- SawDuringEpisode_elem. by rewrite Hw.
  - cbn [bool_decide]. unfold FlapQualifies. destruct (Z.ltb_spec FlapThreshold (churn + 1)) as [H|H].
    + by apply plan_opens.
    + by apply plan_plain.
Qed.

(** ** One row of the ledger *)

Definition row_key (t : ObservedTransition) : healthKey :=
  {| hk_EntityType := ot_EntityType t; hk_EntityID := ot_EntityID t; hk_Reporter := ot_Reporter t |}.

Lemma row_is_key k t : row_is k t = bool_decide (row_key t = k).
Proof.
  unfold row_is, row_key. destruct k as [a b c]. cbn.
  destruct (String.eqb_spec (ot_EntityType t) a), (String.eqb_spec (ot_EntityID t) b),
    (String.eqb_spec (ot_Reporter t) c); cbn [andb]; symmetry;
    (apply bool_decide_eq_true || apply bool_decide_eq_false); congruence.
Qed.

Lemma written_snoc k l t :
  written k (l ++ [t]) =
  written k l + if decide (row_key t = k) then (if is_change t then 1 else 0) + hidden_row t else 0.
Proof.
  unfold written, visible, hidden, count_if.
  rewrite !List.filter_app, length_app, fmap_app, sumZ_app. cbn [List.filter]. rewrite row_is_key.
  destruct (decide (row_key t = k)) as [E|E].
  - rewrite bool_decide_true by done. cbn [andb].
    destruct (is_change t); cbn [length fmap list_fmap sumZ foldr]; lia.
  - rewrite bool_decide_false by done. cbn [andb length fmap list_fmap sumZ foldr]. lia.
Qed.

Section Rows.
Context (NewID : nat -> string).

Lemma recordTransition_written k key from to at_ db :
  written k (db_ledger (recordTransition NewID key from to at_ db)) =
  written k (db_ledger db) + if decide (key = k) then 1 else 0.
Proof.
  cbn [recordTransition appendLedger db_ledger]. rewrite written_snoc. destruct key. by repeat case_decide.
Qed.

Lemma recordFlapOpen_written k key e to at_ db :
  written k (db_ledger (recordFlapOpen NewID key e to at_ db)) =
  written k (db_ledger db) + if decide (key = k) then 1 else 0.
Proof.
  cbn [recordFlapOpen appendLedger db_ledger]. rewrite written_snoc. destruct key. by repeat case_decide.
Qed.

Lemma recordFlapClose_written k key c at_ db :
  written k (db_ledger (recordFlapClose NewID key c at_ db)) =
  written k (db_ledger db) +
    if decide (key = k)
    then ep_count (cl_episode c) - 1 - (if decide (cl_last c = cl_settled c) then 0 else 1) else 0.
Proof.
  cbn [recordFlapClose appendLedger db_ledger]. rewrite written_snoc. unfold hidden_row. cbn.
  destruct key. cbn. unfold row_key. cbn.
  destruct (decide _); [|done].
  repeat case_decide; try congruence; lia.
Qed.

Lemma record_plan_written k key current plan to at_ db :
  written k (db_ledger (record_plan NewID key current plan to at_ db)) =
  written k (db_ledger db) +
    if decide (key = k) then
      (match pl_closing plan with
       | Some c => ep_count (cl_episode c) - 1 - (if decide (cl_last c = cl_settled c) then 0 else 1)
       | None => 0
       end) + (if pl_opens plan || pl_emit plan then 1 else 0)
    else 0.
Proof.
  unfold record_plan. destruct (pl_closing plan) as [c|], (pl_opens plan), (pl_emit plan); cbn [orb];
    rewrite ?recordTransition_written, ?recordFlapOpen_written, ?recordFlapClose_written;
    case_decide; lia.
Qed.

Lemma record_plan_health key current plan to at_ db :
  db_health (record_plan NewID key current plan to at_ db) = db_health db.
Proof. unfold record_plan. by destruct (pl_closing plan), (pl_opens plan), (pl_emit plan). Qed.

(** ** Effects of the transactions *)

Lemma key_of_applyTo e h : key_of (applyTo e h) = key_of h.
Proof. unfold applyTo. by destruct (negb _). Qed.

Lemma ah_State_applyTo e h : ah_State (applyTo e h) = ah_State h.
Proof. unfold applyTo. by destruct (negb _). Qed.

(** A state change writes the row and the rows of its plan: the guard of the
    upsert is the one [classify] has already tested. *)
Lemma write_tx_change obs now db :
  classify obs (readHealth (obs_key obs) db) = ObservationTransitioned ->
  let key := obs_key obs in let at_ := FormatTime now in
  let plan := planFlap (readHealth key db) (ob_State obs) at_
    (countRecentTransitions key (FormatTime (FlapWindowStart now)) db) now in
  let health := applyTo (pl_episode plan) (new_reading obs at_) in
  write_tx NewID obs now db =
    (settled ObservationTransitioned (Some health) now,
     record_plan NewID key (readHealth key db) plan (ob_State obs) at_
       (with_health (<[key := health]> (db_health db)) db)).
Proof.
  intros Hc. cbv zeta. unfold write_tx. rewrite Hc. unfold upsertHealth. rewrite key_of_applyTo.
  change (key_of (new_reading _ _)) with (obs_key obs).
  replace (match db_health db !! obs_key obs with None => true | Some e => _ end) with true; [done|].
  unfold readHealth in Hc. destruct (db_health db !! obs_key obs) as [e|]; [|done].
  unfold classify in Hc. destruct (_ && _); [done|].
  destruct (Supersedes obs (ah_ReportedAt e)) eqn:E; [|done]. symmetry.
  clear Hc. unfold applyTo. destruct (negb _); exact E.
Qed.

(** Any other report moves at most the report columns of its own row. *)
Definition same_change (h h' : AssetHealth) : Prop :=
  key_of h' = key_of h /\ ah_State h' = ah_State h /\ ah_StateSince h' = ah_StateSince h /\
  ah_FlapSince h' = ah_FlapSince h /\ ah_FlapCount h' = ah_FlapCount h /\
  ah_FlapFirstState h' = ah_FlapFirstState h /\ ah_FlapSeen h' = ah_FlapSeen h.

Lemma bumpHealth_ledger key bump db : db_ledger (bumpHealth key bump db) = db_ledger db.
Proof. unfold bumpHealth. repeat case_match; done. Qed.

Lemma bumpHealth_lookup key bump db k :
  db_health (bumpHealth key bump db) !! k = db_health db !! k \/
  (k = key /\ exists h, db_health db !! k = Some h /\
     db_health (bumpHealth key bump db) !! k =
       Some (with_report h (pb_reportedAt bump) (pb_lastReportAt bump)
         (if 0 <? pb_intervalSeconds bump then Some (pb_intervalSeconds bump) else None)
         (optionalText (pb_observationID bump)))).
Proof.
  unfold bumpHealth. destruct (db_health db !! key) as [e|] eqn:E; [|by left].
  case_match; [by left|]. cbn. destruct (decide (k = key)) as [->|Hne].
  - right. rewrite lookup_insert_eq. eauto.
  - left. by rewrite lookup_insert_ne.
Qed.

(** ** The rows satisfy the schema *)

Lemma appendLedger_ok row db :
  db_ok db -> (forall id, ledger_ok (row id)) -> db_ok (appendLedger NewID row db).
Proof.
  intros [Hh Hl] Hr. split; [done|]. cbn. apply Forall_app. split; [done|]. apply Forall_cons. split; [apply Hr|constructor].
Qed.

Lemma optional_state_Some s : ValidHealth s = true -> optional_state (Some s).
Proof. by intros H v [= <-]. Qed.

Lemma optional_state_None : optional_state None.
Proof. by intros v. Qed.

Lemma recordTransition_ok key from to at_ db :
  db_ok db -> hk_EntityType key ∈ ObservableEntityTypes -> optional_state from -> ValidHealth to = true ->
  db_ok (recordTransition NewID key from to at_ db).
Proof.
  intros Hdb Hk Hf Ht. apply appendLedger_ok; [done|]. intros id.
  split_and!; cbn; try done; auto using optional_state_None. left.
Qed.

Lemma recordFlapOpen_ok key e to at_ db :
  db_ok db -> hk_EntityType key ∈ ObservableEntityTypes -> ValidHealth (ep_first e) = true ->
  ValidHealth to = true -> db_ok (recordFlapOpen NewID key e to at_ db).
Proof.
  intros Hdb Hk Hf Ht. apply appendLedger_ok; [done|]. intros id.
  split_and!; cbn; try done; auto using optional_state_None, optional_state_Some. right. left.
Qed.

Definition closure_ok (c : flapClosure) : Prop :=
  (if decide (cl_last c = cl_settled c) then 1 else 2) <= ep_count (cl_episode c) /\
  ValidHealth (ep_first (cl_episode c)) = true /\
  ValidHealth (cl_last c) = true /\ ValidHealth (cl_settled c) = true.

Lemma recordFlapClose_ok key c at_ db :
  db_ok db -> hk_EntityType key ∈ ObservableEntityTypes -> closure_ok c ->
  db_ok (recordFlapClose NewID key c at_ db).
Proof.
  intros Hdb Hk (Hc & Hf & Hl & Hs). apply appendLedger_ok; [done|]. intros id.
  split_and!; cbn; try done; auto using optional_state_Some.
  - right. right. left.
  - intros n [= <-]. destruct (decide (cl_last c = cl_settled c)); lia.
  - unfold hidden_row. cbn [ot_Kind ot_FlapCount ot_LastState ot_SettledState default].
    change (String.eqb TransitionFlapClose TransitionFlapClose) with true. cbv iota.
    destruct (decide (cl_last c = cl_settled c)) as [E|Hne].
    + rewrite E, decide_True by done. lia.
    + rewrite decide_False by (by intros [= ?]). lia.
Qed.

Lemma record_plan_ok key current plan to at_ db :
  db_ok db -> hk_EntityType key ∈ ObservableEntityTypes -> ValidHealth to = true ->
  (forall h, current = Some h -> ValidHealth (ah_State h) = true) ->
  (forall c, pl_closing plan = Some c -> closure_ok c) ->
  (pl_opens plan = true -> ValidHealth (ep_first (pl_episode plan)) = true) ->
  db_ok (record_plan NewID key current plan to at_ db).
Proof.
  intros Hdb Hk Ht Hcur Hc Ho. unfold record_plan.
  set (db1 := match pl_closing plan with Some c => _ | None => _ end).
  assert (Hdb1 : db_ok db1).
  { unfold db1. destruct (pl_closing plan) as [c|]; [|done]. apply recordFlapClose_ok; auto. }
  destruct (pl_opens plan); [apply recordFlapOpen_ok; auto|].
  destruct (pl_emit plan); [|done]. apply recordTransition_ok; auto.
  destruct current as [h|]; [|apply optional_state_None]. apply optional_state_Some. auto.
Qed.

Lemma with_health_ok m db : db_ok db -> map_Forall health_ok m -> db_ok (with_health m db).
Proof. by intros [_ Hl] Hm. Qed.

Lemma episode_ok_applyTo e h :
  ah_FlapSince h = None -> ValidHealth (ah_State h) = true ->
  (episode_open e = true -> 0 < ep_count e /\ ValidHealth (ep_first e) = true /\ ah_State h ∈ ep_seen e) ->
  episode_ok (applyTo e h).
Proof.
  intros Hn Hv He. unfold applyTo. destruct (episode_open e) eqn:Ho; cbn [negb]; [|by left].
  right. destruct (He eq_refl) as (Hc & Hf & Hs).
  exists (ep_since e), (ep_count e), (ep_first e), (EncodeHealthStates (ep_seen e)). cbn.
  unfold episode_open in Ho. rewrite negb_true_iff, String.eqb_neq in Ho.
  split_and!; try done. apply Decode_Encode. split; [by apply ValidHealth_elem|done].
Qed.

Lemma absorbed_applyTo e h :
  absorbed (Some (applyTo e h)) = if episode_open e then ep_count e - 1 else 0.
Proof.
  unfold absorbed, applyTo. destruct (episode_open e) eqn:Ho; cbn; [|done].
  unfold Flapping. cbn. unfold episode_open in Ho. by rewrite Ho.
Qed.

Lemma bumpHealth_ok key bump db :
  db_ok db -> bump_ok bump ->
  db_ok (bumpHealth key bump db) /\ forall k, accounted k (bumpHealth key bump db) = accounted k db.
Proof.
  intros [Hh Hl] Hb. split; [split|].
  - intros k h Hk. destruct (bumpHealth_lookup key bump db k) as [E|(-> & h0 & E0 & E)];
      rewrite E in Hk; [by apply (Hh k)|].
    injection Hk as <-. destruct (Hh _ _ E0) as (H1 & H2 & H3 & _ & H5).
    split_and!; try done. cbn. unfold bump_ok in Hb. rewrite (proj2 (Z.ltb_lt _ _) Hb). eauto.
  - by rewrite bumpHealth_ledger.
  - intros k. unfold accounted. rewrite bumpHealth_ledger. f_equal.
    destruct (bumpHealth_lookup key bump db k) as [-> |(_ & h0 & -> & ->)]; done.
Qed.

Lemma flush_tx_ok pending db :
  db_ok db -> map_Forall (fun _ b => bump_ok b) pending ->
  db_ok (flush_tx pending db) /\ forall k, accounted k (flush_tx pending db) = accounted k db.
Proof.
  intros Hdb Hp. unfold flush_tx.
  assert (Hl : Forall (fun kb => bump_ok (snd kb))
    (isort (fun a b => key_less (fst a) (fst b)) (map_to_list pending))).
  { rewrite isort_perm. apply Forall_forall. intros [k b] Hk%elem_of_map_to_list. by apply (Hp k). }
  revert db Hdb Hl. generalize (isort (fun a b => key_less (fst a) (fst b)) (map_to_list pending)).
  induction l as [|[k b] l IH]; intros db Hdb Hl; [done|]. cbn [foldl fst snd].
  apply Forall_cons in Hl as [Hb Hl]. destruct (bumpHealth_ok k b db Hdb Hb) as [Hdb' Ha].
  destruct (IH _ Hdb' Hl) as [H1 H2]. split; [done|]. intros k'. by rewrite H2, Ha.
Qed.

Lemma quiet_closure_ok h :
  ValidHealth (ah_State h) = true -> episode_ok h -> Flapping h = true ->
  closure_ok (quiet_closure h) /\ ep_count (cl_episode (quiet_closure h)) = FlapTransitions h.
Proof.
  intros Hv He Hf. destruct (FlapStates_absorbed h He Hf) as (s & c & f & seen & _ & _ & Hc & H0 & Hf1 & Hv1 & _).
  unfold closure_ok, quiet_closure, episodeFrom. cbn. rewrite Hf. cbn.
  unfold FlapTransitions. rewrite Hc, Hf1, decide_True by done. cbn. split_and!; done || lia.
Qed.

Lemma clearFlap_lookup key db k :
  db_health (clearFlap key db) !! k =
  if decide (k = key) then (fun h => with_flap h None None None None) <$> db_health db !! k
  else db_health db !! k.
Proof.
  cbn. case_decide as E; [subst; by rewrite lookup_alter_eq|by rewrite lookup_alter_ne].
Qed.

Lemma clearFlap_ok key db : db_ok db -> db_ok (clearFlap key db).
Proof.
  intros [Hh Hl]. split; [|done]. intros k h. rewrite clearFlap_lookup.
  case_decide; [|by apply Hh]. destruct (db_health db !! k) as [h0|] eqn:E; [|done].
  intros [= <-]. destruct (Hh _ _ E) as (H1 & H2 & H3 & H4 & _). split_and!; try done. by left.
Qed.

Lemma accounted_insert k key h db :
  accounted k (with_health (<[key := h]> (db_health db)) db) =
  accounted k db + if decide (key = k) then absorbed (Some h) - absorbed (db_health db !! k) else 0.
Proof.
  unfold accounted, with_health. cbn [db_ledger db_health].
  case_decide as E; [subst; rewrite lookup_insert_eq; lia|]. rewrite lookup_insert_ne by done. lia.
Qed.

(** A state change moves its key's account by one, whichever way it is recorded. *)
Lemma plan_balance h to at_ churn now plan :
  health_ok (key_of h) h -> ValidHealth to = true -> at_ <> "" ->
  plan_case h to at_ churn now plan ->
  (forall c, pl_closing plan = Some c -> closure_ok c) /\
  (pl_opens plan = true -> ValidHealth (ep_first (pl_episode plan)) = true) /\
  (episode_open (pl_episode plan) = true ->
     0 < ep_count (pl_episode plan) /\ ValidHealth (ep_first (pl_episode plan)) = true /\
     to ∈ ep_seen (pl_episode plan)) /\
  match pl_closing plan with
  | Some c => ep_count (cl_episode c) - 1 - (if decide (cl_last c = cl_settled c) then 0 else 1)
  | None => 0
  end + (if pl_opens plan || pl_emit plan then 1 else 0) +
  (if episode_open (pl_episode plan) then ep_count (pl_episode plan) - 1 else 0) =
  absorbed (Some h) + 1.
Proof.
  intros (_ & _ & Hv & _ & He) Ht Hat Hp. unfold absorbed.
  destruct Hp as [Hs|Hs Hf Hin|Hs Hf Hin|Hf Hq|Hf Hq]; cbn [pl_closing pl_opens pl_emit pl_episode orb].
  - apply FlapSettled_flapping in Hs. destruct (quiet_closure_ok h Hv He Hs) as [Hc Hn].
    rewrite Hs, Hn. split_and!; try done; [by intros c [= <-]|].
    unfold quiet_closure. cbn. rewrite decide_True by done. lia.
  - rewrite Hf. destruct (FlapStates_absorbed h He Hf) as (s & c & f & seen & H1 & H2 & H3 & H4 & H5 & H6 & _).
    unfold episodeFrom. rewrite Hf. cbn. unfold FlapTransitions, FlapOpenedAt. rewrite Hf, H1, H3, H5. cbn.
    unfold episode_open. cbn. rewrite (proj2 (String.eqb_neq s "") H2). cbn.
    split_and!; try done; try lia. intros _. split_and!; try done; [lia|]. apply elem_of_app. right. by left.
  - rewrite Hf. destruct (FlapStates_absorbed h He Hf) as (s & c & f & seen & H1 & H2 & H3 & H4 & H5 & H6 & H7 & H8).
    assert (Hne : ah_State h <> to).
    { intros <-. apply Hin. unfold FlapStates. by rewrite H7. }
    unfold episodeFrom. rewrite Hf. cbn. unfold FlapTransitions. rewrite H3, H5. cbn.
    split_and!; try done; [|rewrite decide_False by done; cbn; lia].
    intros c' [= <-]. unfold closure_ok. cbn. rewrite decide_False by done. split_and!; try done. lia.
  - rewrite Hf. unfold episode_open. cbn. rewrite (proj2 (String.eqb_neq at_ "") Hat). cbn.
    split_and!; try done. intros _. split_and!; try done. right. by left.
  - rewrite Hf. by split_and!.
Qed.

Lemma write_tx_ok obs now db :
  db_ok db -> obs_ok obs ->
  let '(out, db') := write_tx NewID obs now db in
  db_ok db' /\ forall k, accounted k db' = accounted k db +
    if decide (rs_Disposition out = ObservationTransitioned /\ obs_key obs = k) then 1 else 0.
Proof.
  intros Hdb (Hty & Hv & Hi).
  destruct (classify obs (readHealth (obs_key obs) db)) eqn:Hc.
  2:{ unfold write_tx. rewrite Hc. cbn [settled rs_Disposition].
      destruct (bumpHealth_ok (obs_key obs) (bumpFor obs now) db Hdb Hi) as [H1 H2].
      split; [done|]. intros k. rewrite H2, decide_False by naive_solver. lia. }
  2,3: unfold write_tx; rewrite Hc; cbn [settled rs_Disposition]; split; [done|];
       intros k; rewrite decide_False by naive_solver; lia.
  rewrite write_tx_change by done. cbn [settled rs_Disposition].
  set (key := obs_key obs) in *. set (at_ := FormatTime now).
  assert (Hat : at_ <> "") by apply FormatTime_not_nil.
  set (churn := countRecentTransitions _ _ _). unfold readHealth in *.
  assert (Hplan : let plan := planFlap (db_health db !! key) (ob_State obs) at_ churn now in
    (forall c, pl_closing plan = Some c -> closure_ok c) /\
    (pl_opens plan = true -> ValidHealth (ep_first (pl_episode plan)) = true) /\
    (episode_open (pl_episode plan) = true ->
       0 < ep_count (pl_episode plan) /\ ValidHealth (ep_first (pl_episode plan)) = true /\
       ob_State obs ∈ ep_seen (pl_episode plan)) /\
    match pl_closing plan with
    | Some c => ep_count (cl_episode c) - 1 - (if decide (cl_last c = cl_settled c) then 0 else 1)
    | None => 0
    end + (if pl_opens plan || pl_emit plan then 1 else 0) +
    (if episode_open (pl_episode plan) then ep_count (pl_episode plan) - 1 else 0) =
    absorbed (db_health db !! key) + 1).
  { destruct (db_health db !! key) as [h|] eqn:E; [|done].
    pose proof (proj1 Hdb _ _ E) as Hh. pose proof (proj1 Hh) as Hk. rewrite <- Hk in Hh.
    by apply (plan_balance h (ob_State obs) at_ churn now _ Hh), planFlap_cases. }
  cbv zeta in Hplan. set (plan := planFlap _ _ _ _ _) in *.
  destruct Hplan as (P1 & P2 & P3 & P4).
  set (health := applyTo (pl_episode plan) (new_reading obs at_)).
  assert (Hdb1 : db_ok (with_health (<[key := health]> (db_health db)) db)).
  { apply with_health_ok; [done|]. apply map_Forall_insert_2; [|apply Hdb].
    unfold health. split; [by rewrite key_of_applyTo|].
    assert (He : episode_ok (applyTo (pl_episode plan) (new_reading obs at_)))
      by (apply episode_ok_applyTo; done).
    revert He. unfold applyTo. destruct (negb _); intros He; split_and!; try done; cbn; eauto. }
  split.
  - apply record_plan_ok; try done. intros h Hh. by apply (proj1 Hdb _ _ Hh).
  - intros k. unfold accounted at 1.
    rewrite record_plan_written, record_plan_health.
    pose proof (accounted_insert k key health db) as Hacc. unfold accounted at 1 in Hacc.
    cbn [with_health db_ledger db_health] in *.
    assert (Habs : absorbed (Some health) =
      if episode_open (pl_episode plan) then ep_count (pl_episode plan) - 1 else 0)
      by apply absorbed_applyTo.
    destruct (decide (key = k)) as [<-|Hne].
    + rewrite decide_True by done. lia.
    + rewrite decide_False by naive_solver. lia.
Qed.

Lemma close_tx_ok obs now db :
  db_ok db -> obs_ok obs ->
  db_ok (snd (close_tx NewID obs now db)) /\
  forall k, accounted k (snd (close_tx NewID obs now db)) = accounted k db.
Proof.
  intros Hdb (Hty & _ & Hi). unfold close_tx, readHealth.
  destruct (db_health db !! obs_key obs) as [fresh|] eqn:E; [|done].
  pose proof (proj1 Hdb _ _ E) as (Hk & Ht & Hv & _ & He).
  destruct (FlapSettled fresh now) eqn:Hs; cbn [snd]; [|by apply bumpHealth_ok].
  apply FlapSettled_flapping in Hs. destruct (quiet_closure_ok fresh Hv He Hs) as [Hc Hn].
  set (db1 := clearFlap _ _).
  assert (Hdb1 : db_ok db1) by (by apply clearFlap_ok, recordFlapClose_ok).
  destruct (bumpHealth_ok (obs_key obs) (bumpFor obs now) db1 Hdb1 Hi) as [H1 H2].
  split; [done|]. intros k. rewrite H2. unfold accounted, db1.
  change (db_ledger (clearFlap ?key ?db)) with (db_ledger db). rewrite clearFlap_lookup.
  pose proof (recordFlapClose_written k (obs_key obs) (quiet_closure fresh) (FormatTime now) db) as Hw.
  change (db_health (recordFlapClose NewID ?a ?b ?c db)) with (db_health db).
  destruct (decide (k = obs_key obs)) as [->|Hd]; [|rewrite decide_False in Hw by done; lia].
  rewrite !decide_True in Hw by done. rewrite E. cbn [fmap option_fmap option_map absorbed].
  rewrite Hs. change (Flapping (with_flap fresh None None None None)) with false.
  cbv iota. lia.
Qed.

Lemma unmatched_tx_ok obs now db :
  db_ok db -> db_ok (unmatched_tx NewID obs now db) /\
  forall k, accounted k (unmatched_tx NewID obs now db) = accounted k db.
Proof. intros Hdb. unfold unmatched_tx. by case_match. Qed.

Lemma exec_ok tx db :
  db_ok db -> tx_ok tx ->
  let '(change, db') := exec NewID tx db in
  db_ok db' /\ forall k, accounted k db' = accounted k db + if decide (change = Some k) then 1 else 0.
Proof.
  intros Hdb Htx. destruct tx as [obs now|obs now|pending|obs now]; cbn [exec tx_ok] in *.
  - pose proof (write_tx_ok obs now db Hdb Htx) as H. destruct (write_tx NewID obs now db) as [out db'].
    destruct H as [H1 H2]. split; [done|]. intros k. rewrite H2.
    repeat case_decide; naive_solver.
  - destruct (close_tx_ok obs now db Hdb Htx) as [H1 H2]. split; [done|]. intros k.
    rewrite H2, decide_False by done. lia.
  - destruct (flush_tx_ok pending db Hdb Htx) as [H1 H2]. split; [done|]. intros k.
    rewrite H2, decide_False by done. lia.
  - destruct (unmatched_tx_ok obs now db Hdb) as [H1 H2]. split; [done|]. intros k.
    rewrite H2, decide_False by done. lia.
Qed.

Lemma exec_all_ok txs db :
  db_ok db -> Forall tx_ok txs ->
  let '(changes, db') := exec_all NewID txs db in
  db_ok db' /\ forall k, accounted k db' = accounted k db +
    Z.of_nat (count_if (fun k' => bool_decide (k' = k)) changes).
Proof.
  revert db. induction txs as [|tx txs IH]; intros db Hdb Htxs; cbn [exec_all].
  { split; [done|]. intros k. cbn. lia. }
  apply Forall_cons in Htxs as [Htx Htxs]. pose proof (exec_ok tx db Hdb Htx) as H.
  destruct (exec NewID tx db) as [change db']. destruct H as [Hdb' Hacc].
  specialize (IH db' Hdb' Htxs). destruct (exec_all NewID txs db') as [changes db''].
  destruct IH as [H1 H2]. split; [done|]. intros k. rewrite H2, Hacc.
  destruct change as [k'|]; [|rewrite decide_False by done; lia].
  unfold count_if. cbn [List.filter].
  destruct (decide (Some k' = Some k)) as [Heq|Hne]; [|].
  - rewrite bool_decide_true by congruence. cbn [length]. lia.
  - rewrite bool_decide_false by congruence. lia.
Qed.

Lemma empty_db_ok : db_ok empty_db.
Proof. split; [apply map_Forall_empty|constructor]. Qed.

(** ** The properties *)

(** No transaction of the recorder is refused by the schema. Over any sequence
    of reports, closures, flushes and drift entries, whatever their order and
    whatever the clock said, each reading sits under its own key with a valid
    state and a positive cadence, its four episode columns are all empty or all
    set, and each ledger row satisfies the checks of its table. *)
Theorem recorder_rows_valid txs :
  Forall tx_ok txs -> db_ok (snd (exec_all NewID txs empty_db)).
Proof.
  intros H. pose proof (exec_all_ok txs empty_db empty_db_ok H) as H1.
  destruct (exec_all NewID txs empty_db) as [changes db]. apply H1.
Qed.

(** C2. Counted, never suppressed. For each entity and reporter the ledger
    accounts for every state change the recorder has made: those with a row of
    their own, those the closing rows say they hid, which no row counts twice or
    below zero, and those the open episode has absorbed so far. *)
Theorem flap_accounting txs k :
  Forall tx_ok txs ->
  let '(changes, db) := exec_all NewID txs empty_db in
  Z.of_nat (count_if (fun k' => bool_decide (k' = k)) changes) =
    visible k (db_ledger db) + hidden k (db_ledger db) + absorbed (db_health db !! k) /\
  (forall t, t ∈ db_ledger db -> 0 <= hidden_row t) /\ 0 <= absorbed (db_health db !! k).
Proof.
  intros H. pose proof (exec_all_ok txs empty_db empty_db_ok H) as H1.
  destruct (exec_all NewID txs empty_db) as [changes db]. destruct H1 as [[Hh Hl] Ha].
  split_and!.
  - specialize (Ha k). unfold accounted at 2 in Ha. cbn [empty_db db_ledger db_health] in Ha.
    rewrite lookup_empty in Ha. change (written k []) with 0 in Ha. cbn [absorbed] in Ha.
    unfold accounted, written in Ha. lia.
  - intros t Ht. rewrite Forall_forall in Hl. apply (Hl t Ht).
  - destruct (db_health db !! k) as [h|] eqn:E; [|done]. cbn [absorbed].
    destruct (Flapping h) eqn:Hf; [|done]. destruct (Hh k h E) as (_ & _ & _ & _ & He).
    destruct (FlapStates_absorbed h He Hf) as (? & c & ? & ? & _ & _ & Hc & H0 & _).
    unfold FlapTransitions. rewrite Hc. cbn. lia.
Qed.

(** What a state change leaves. The row of the entity shows the new state, and
    its onset is the server's clock, whether or not the change is compressed;
    and the change is the last row of the ledger, in its own words, unless an
    episode is open, has not settled, and has already seen that state. *)
Theorem write_tx_visible obs now db :
  let '(out, db') := write_tx NewID obs now db in
  rs_Disposition out = ObservationTransitioned ->
  (exists h, db_health db' !! obs_key obs = Some h /\ ah_State h = ob_State obs /\
     ah_StateSince h = FormatTime now) /\
  ((exists rows t, db_ledger db' = db_ledger db ++ rows ++ [t] /\ row_key t = obs_key obs /\
      is_change t = true /\ ot_ToState t = ob_State obs /\ ot_At t = FormatTime now) \/
   (db_ledger db' = db_ledger db /\
    exists h, db_health db !! obs_key obs = Some h /\ Flapping h = true /\
      FlapSettled h now = false /\ ob_State obs ∈ FlapStates h)).
Proof.
  destruct (classify obs (readHealth (obs_key obs) db)) eqn:Hc.
  2-4: by unfold write_tx; rewrite Hc.
  rewrite write_tx_change by done. intros _. split.
  { rewrite record_plan_health. cbn [with_health db_health]. rewrite lookup_insert_eq.
    eexists. split; [done|]. unfold applyTo. by destruct (negb _). }
  unfold readHealth. destruct (db_health db !! obs_key obs) as [h|] eqn:E.
  2:{ left. exists []. eexists. split; [reflexivity|]. by destruct obs. }
  destruct (planFlap_cases h (ob_State obs) (FormatTime now)
    (countRecentTransitions (obs_key obs) (FormatTime (FlapWindowStart now)) db) now)
    as [Hs|Hs Hf Hin|Hs Hf Hin|Hf Hq|Hf Hq]; unfold record_plan;
    cbn [pl_closing pl_opens pl_emit pl_episode].
  - left. eexists [_], _. split; [cbn; by rewrite <- app_assoc|]. by destruct obs.
  - right. split; [done|]. by exists h.
  - left. eexists [_], _. split; [cbn; by rewrite <- app_assoc|]. by destruct obs.
  - left. eexists [], _. split; [reflexivity|]. by destruct obs.
  - left. eexists [], _. split; [reflexivity|]. by destruct obs.
Qed.
End Rows.

(** ** A flapping probe *)

Definition sample_id (n : nat) : string := Itoa (Z.of_nat n).

Definition sample_report (seconds : Z) (state : string) : Tx :=
  let now := ten_o_clock + seconds * Second in TxReport (sample_obs state (FormatTime now)) now.

(** Nine changes ten seconds apart, a quiet hour, and one more. *)
Definition sample_txs : list Tx :=
  (fun '(t, s) => sample_report t s) <$>
    [(0, "up"); (10, "down"); (20, "up"); (30, "down"); (40, "up"); (50, "down"); (60, "up");
     (70, "down"); (80, "up"); (3600, "down")].

Definition sample_key : healthKey :=
  {| hk_EntityType := ObservableAsset; hk_EntityID := "a1"; hk_Reporter := "probe" |}.

Lemma sample_txs_ok : Forall tx_ok sample_txs.
Proof.
  repeat (apply Forall_cons; split; [split_and!; [left|reflexivity|reflexivity]|]). constructor.
Qed.

(** Ten changes: seven rows of their own, three in the closing row. *)
Example sample_ledger :
  let '(changes, db) := exec_all sample_id sample_txs empty_db in
  (length changes, visible sample_key (db_ledger db), hidden sample_key (db_ledger db),
   (fun t => (ot_Kind t, ot_ToState t, ot_FlapCount t)) <$> drop 5 (db_ledger db)) =
  (10%nat, 7, 3,
   [("flap_open", "down", None); ("flap_close", "up", Some 4); ("transition", "down", None)]).
Proof. vm_compute. reflexivity. Qed.

Lemma recorder_rows_valid_witness :
  db_ok (snd (exec_all sample_id sample_txs empty_db)).
Proof. apply (recorder_rows_valid sample_id sample_txs). exact sample_txs_ok. Defined.

Lemma flap_accounting_witness :
  let '(changes, db) := exec_all sample_id sample_txs empty_db in
  Z.of_nat (count_if (fun k' => bool_decide (k' = sample_key)) changes) =
    visible sample_key (db_ledger db) + hidden sample_key (db_ledger db) +
    absorbed (db_health db !! sample_key).
Proof.
  pose proof (flap_accounting sample_id sample_txs sample_key sample_txs_ok) as H.
  destruct (exec_all sample_id sample_txs empty_db) as [changes db]. exact (proj1 H).
Defined.

Lemma write_tx_visible_witness :
  let '(_, db) := write_tx sample_id (sample_obs "down" "2026-08-01T10:00:00Z") ten_o_clock empty_db in
  exists h, db_health db !! sample_key = Some h /\ ah_State h = "down" /\
    ah_StateSince h = FormatTime ten_o_clock.
Proof.
  pose proof (write_tx_visible sample_id (sample_obs "down" "2026-08-01T10:00:00Z") ten_o_clock empty_db) as H.
  assert (E : rs_Disposition (fst (write_tx sample_id (sample_obs "down" "2026-08-01T10:00:00Z")
    ten_o_clock empty_db)) = ObservationTransitioned) by (vm_compute; reflexivity).
  destruct (write_tx sample_id _ _ _) as [out db]. exact (proj1 (H E)).
Defined.
