(* ===== verification/Buffering.v ===== *)
(** What the buffer of the recorder changes: the recorder of [Recorder] against one that
    writes every report at once, by a simulation. The answers, the ledger and the drift
    queue are the same; a page shows the times of the last report as they were at the
    last flush, and is the same after one.

    Also here: a report delivered again is ignored, and what a reused idempotency
    key does. *)
From Stdlib Require Import String Ascii ZArith Lia.
From stdpp Require Import base gmap strings list.
From S2P Require Import Prelude Text Errors Timestamps Actors Health Recorder Ledger.

#[local] Open Scope string_scope.
#[local] Open Scope list_scope.
#[local] Open Scope Z_scope.

(** * Definitions *)

(** ** The recorder without a buffer *)

Section Direct.
Context (NewID : nat -> string).

(** A report that changes nothing is written at once; the rest is as in
    [applyObservation]. *)
Definition applyDirect (commits : bool) (obs : Observation) (now : Time) (db : DB)
    : (StoreError + ObservationResult) * DB :=
  let key := obs_key obs in
  let current := readHealth key db in
  match classify obs current with
  | ObservationTransitioned =>
      match observedTx commits (write_tx NewID obs now) db with
      | (None, db') => (inl DatabaseError, db')
      | (Some out, db') => (inr out, db')
      end
  | ObservationDuplicate => (inr (settled ObservationDuplicate current now), db)
  | ObservationStale => (inr (settled ObservationStale current now), db)
  | ObservationUnchanged =>
      if match current with Some h => FlapSettled h now | None => false end
      then match observedTx commits (close_tx NewID obs now) db with
           | (None, db') => (inl DatabaseError, db')
           | (Some None, db') => (inr (settled ObservationUnchanged current now), db')
           | (Some (Some out), db') => (inr out, db')
           end
      else let bumped := applyBump current key (bumpFor obs now) in
           (inr (settled ObservationUnchanged (Some bumped) now),
            with_health (<[key := bumped]> (db_health db)) db)
  end.

(** ** Histories *)

(** What happens to a recorder: a report that was validated and authorised, or
    a tick of the flush, each with the fate of its transaction. *)
Inductive Event :=
  | Report (obs : Observation) (now : Time) (commits : bool)
  | Tick (commits : bool).

Fixpoint run_buffered (events : list Event) (r : ObservedRecorder)
    : list (StoreError + ObservationResult) * ObservedRecorder :=
  match events with
  | [] => ([], r)
  | Report obs now commits :: events' =>
      let '(out, r') := applyObservation NewID commits obs now r in
      let '(outs, r'') := run_buffered events' r' in (out :: outs, r'')
  | Tick commits :: events' => run_buffered events' (snd (Flush commits r))
  end.

Fixpoint run_direct (events : list Event) (db : DB) : list (StoreError + ObservationResult) * DB :=
  match events with
  | [] => ([], db)
  | Report obs now commits :: events' =>
      let '(out, db') := applyDirect commits obs now db in
      let '(outs, db'') := run_direct events' db' in (out :: outs, db'')
  | Tick _ :: events' => run_direct events' db
  end.
End Direct.

Definition empty_recorder : ObservedRecorder := {| rc_db := empty_db; rc_pending := ∅ |}.

(** A stored row against the one that has every report: it lags in the columns of the
    last report and in no other. *)
Definition lags (row written : option AssetHealth) : Prop :=
  match row, written with
  | None, None => True
  | Some h, Some h' =>
      h' = with_report h (ah_ReportedAt h') (ah_LastReportAt h') (ah_IntervalSeconds h') (ah_ObservationID h') /\
      str_ltb (ah_ReportedAt h') (ah_ReportedAt h) = false /\ str_ltb (ah_LastReportAt h') (ah_LastReportAt h) = false
  | _, _ => False
  end.

(** The server's clock does not go back, and stays in the years it can write. *)
Fixpoint clocked (clock : Time) (events : list Event) : Prop :=
  match events with
  | [] => True
  | Report obs now _ :: events' =>
      obs_ok obs /\ clock <= now /\ storable now /\ clocked now events'
  | Tick _ :: events' => clocked clock events'
  end.

Definition reports (events : list Event) : list Observation :=
  omap (fun e => match e with Report obs _ _ => Some obs | Tick _ => None end) events.

(** An idempotency key names one report: two reports of one reporter about one
    entity with the same key are the same delivery. *)
Definition ids_name_reports (obs : list Observation) : Prop :=
  forall o o', o ∈ obs -> o' ∈ obs -> obs_key o = obs_key o' -> ob_ObservationID o <> "" ->
    ob_ObservationID o = ob_ObservationID o' -> ob_ReportedAt o = ob_ReportedAt o'.

(** * Lemmas *)

(** ** Text order *)

Lemma str_leb_trans a b c : str_ltb b a = false -> str_ltb c b = false -> str_ltb c a = false.
Proof. intros H1 H2. by apply (sw_negtrans (less := str_ltb) a b c). Qed.

Lemma str_lt_le_trans a b c : str_ltb a b = true -> str_ltb c b = false -> str_ltb a c = true.
Proof.
  intros H1 H2. destruct (str_ltb a c) eqn:E; [done|].
  by rewrite (str_leb_trans b c a H2 E) in H1.
Qed.

Lemma str_le_lt_trans a b c : str_ltb b a = false -> str_ltb b c = true -> str_ltb a c = true.
Proof.
  intros H1 H2. destruct (str_ltb a c) eqn:E; [done|].
  by rewrite (str_leb_trans c a b E H1) in H2.
Qed.

Lemma str_lt_le a b : str_ltb a b = true -> str_ltb b a = false.
Proof. apply sw_asym. Qed.

Lemma later_text_ge v out :
  str_ltb (later_text v out) v = false /\ str_ltb (later_text v out) out = false.
Proof.
  unfold later_text. destruct (str_ltb out v) eqn:E; split;
    rewrite ?str_ltb_irrefl; try done. by apply str_lt_le.
Qed.

Lemma later_text_id v out : str_ltb v out = false -> later_text v out = v.
Proof.
  intros H. unfold later_text. destruct (str_ltb out v) eqn:E; [done|]. by apply str_ltb_total.
Qed.

(** ** Bumps *)

(** The row a bump makes of [h] when it is not older. *)
Definition bumped (h : AssetHealth) (b : pendingBump) : AssetHealth :=
  with_report h (pb_reportedAt b) (pb_lastReportAt b) (Some (pb_intervalSeconds b))
    (optionalText (pb_observationID b)).

(** A bump that may be applied to [h]: not older on either clock. *)
Definition newer (b : pendingBump) (h : AssetHealth) : Prop :=
  str_ltb (pb_reportedAt b) (ah_ReportedAt h) = false /\
  str_ltb (pb_lastReportAt b) (ah_LastReportAt h) = false /\ bump_ok b.

Lemma applyBump_newer h key b : newer b h -> applyBump (Some h) key b = bumped h b.
Proof.
  intros (H1 & H2 & H3). unfold applyBump, bumped. cbn [default from_option id].
  by rewrite !later_text_id, (proj2 (Z.ltb_lt _ _) H3).
Qed.

Lemma bumpHealth_newer key b db h :
  db_health db !! key = Some h -> newer b h ->
  bumpHealth key b db = with_health (<[key := bumped h b]> (db_health db)) db.
Proof.
  intros E (H1 & H2 & H3). unfold bumpHealth. by rewrite E, H1, (proj2 (Z.ltb_lt _ _) H3).
Qed.

Lemma bumped_bumped h b b' : bumped (bumped h b) b' = bumped h b'.
Proof. reflexivity. Qed.

(** Readings that differ in their report columns only decide alike. *)
Lemma FlapSettled_bumped h b now : FlapSettled (bumped h b) now = FlapSettled h now.
Proof. reflexivity. Qed.

Lemma planFlap_bumped h b to at_ churn now :
  planFlap (Some (bumped h b)) to at_ churn now = planFlap (Some h) to at_ churn now.
Proof.
  unfold planFlap. rewrite FlapSettled_bumped. by destruct (FlapSettled h now).
Qed.

(** ** Flushing writes what is shown *)

Definition same_rest (db db' : DB) : Prop :=
  db_ledger db' = db_ledger db /\ db_unmatched db' = db_unmatched db /\ db_ids db' = db_ids db.

Lemma same_rest_refl db : same_rest db db.
Proof. done. Qed.

Lemma same_rest_trans a b c : same_rest a b -> same_rest b c -> same_rest a c.
Proof. unfold same_rest. intros (-> & -> & ->) H. done. Qed.

Lemma bumpHealth_rest key b db : same_rest db (bumpHealth key b db).
Proof. unfold bumpHealth. destruct (db_health db !! key); [by destruct (str_ltb _ _)|done]. Qed.

Lemma flush_list l db :
  NoDup l.*1 ->
  (forall k b, (k, b) ∈ l -> exists h, db_health db !! k = Some h /\ newer b h) ->
  let db' := foldl (fun db kb => bumpHealth (fst kb) (snd kb) db) db l in
  same_rest db db' /\
  (forall k b h, (k, b) ∈ l -> db_health db !! k = Some h -> db_health db' !! k = Some (bumped h b)) /\
  (forall k, k ∉ l.*1 -> db_health db' !! k = db_health db !! k).
Proof.
  revert db. induction l as [|[k0 b0] l IH]; intros db Hnd Hl; cbv zeta; cbn [foldl fst snd].
  { split_and!; [done| |done]. by intros k b h ?%elem_of_nil. }
  cbn in Hnd. apply NoDup_cons in Hnd as [Hk0 Hnd].
  destruct (Hl k0 b0 ltac:(by left)) as (h0 & E0 & N0).
  pose proof (bumpHealth_rest k0 b0 db) as Hrest.
  assert (Hdb : db_health (bumpHealth k0 b0 db) = <[k0 := bumped h0 b0]> (db_health db))
    by (by rewrite (bumpHealth_newer _ _ _ _ E0 N0)).
  destruct (IH (bumpHealth k0 b0 db) Hnd) as (H1 & H2 & H3).
  { intros k b Hkb. destruct (Hl k b ltac:(by right)) as (h & E & N). exists h. split; [|done].
    rewrite Hdb, lookup_insert_ne; [done|]. intros ->. apply Hk0.
    apply list_elem_of_fmap. by exists (k, b). }
  split_and!.
  - by apply (same_rest_trans _ _ _ Hrest).
  - intros k b h [[= -> ->]|Hkb]%elem_of_cons E.
    + rewrite H3, Hdb, lookup_insert_eq by done. congruence.
    + apply H2; [done|]. rewrite Hdb, lookup_insert_ne; [done|]. intros ->. apply Hk0.
      apply list_elem_of_fmap. by exists (k, b).
  - intros k Hk. cbn in Hk. apply not_elem_of_cons in Hk as [Hne Hk].
    rewrite H3, Hdb, lookup_insert_ne; done.
Qed.

(** Every buffered bump is for a stored row, and not older than it. *)
Definition pending_newer (r : ObservedRecorder) : Prop :=
  forall k b, rc_pending r !! k = Some b ->
    exists h, db_health (rc_db r) !! k = Some h /\ newer b h.

Lemma current_stored k r :
  pending_newer r ->
  currentReading k r = match db_health (rc_db r) !! k with
                       | None => None
                       | Some h => match rc_pending r !! k with
                                   | None => Some h
                                   | Some b => Some (bumped h b)
                                   end
                       end.
Proof.
  intros Hp. unfold currentReading, readHealth.
  destruct (db_health (rc_db r) !! k) as [h|] eqn:E; [|done].
  destruct (rc_pending r !! k) as [b|] eqn:Eb; [|done].
  destruct (Hp k b Eb) as (h' & E' & N). rewrite applyBump_newer; congruence.
Qed.

Lemma flush_tx_current r :
  pending_newer r ->
  same_rest (rc_db r) (flush_tx (rc_pending r) (rc_db r)) /\
  forall k, db_health (flush_tx (rc_pending r) (rc_db r)) !! k = currentReading k r.
Proof.
  intros Hp. unfold flush_tx.
  set (l := isort _ _).
  assert (Hperm : l ≡ₚ map_to_list (rc_pending r)) by apply isort_perm.
  destruct (flush_list l (rc_db r)) as (H1 & H2 & H3).
  - rewrite Hperm. apply NoDup_fst_map_to_list.
  - intros k b Hkb. rewrite Hperm in Hkb. apply elem_of_map_to_list in Hkb. by apply Hp.
  - split; [done|]. intros k. rewrite current_stored by done.
    destruct (rc_pending r !! k) as [b|] eqn:Eb.
    + destruct (Hp k b Eb) as (h & E & N). rewrite E. apply H2; [|done].
      rewrite Hperm. by apply elem_of_map_to_list.
    + rewrite H3; [by destruct (db_health (rc_db r) !! k)|]. rewrite Hperm. intros ([k' b] & -> & Hkb)%list_elem_of_fmap.
      apply elem_of_map_to_list in Hkb. cbn in Eb. congruence.
Qed.

(** A failed flush puts everything back. *)
Lemma restore_empty pending : restore pending ∅ = pending.
Proof.
  unfold restore. apply (map_fold_weak_ind (fun r m => r = m)); [done|].
  intros k b m r Hk ->. by rewrite Hk.
Qed.

(** ** The simulation *)

Definition text_by (clock : Time) (s : string) : Prop := str_ltb (FormatTime clock) s = false.

(** An observation key on a row is that of a past report stamped as the row is. *)
Definition id_known (past : list Observation) (k : healthKey) (id : option string) (at_ : string) : Prop :=
  forall v, id = Some v -> exists o, o ∈ past /\ obs_key o = k /\ ob_ObservationID o = v /\ ob_ReportedAt o = at_.

(** What holds of a recorder between events, at a time and after some reports. *)
Definition buffer_ok (clock : Time) (past : list Observation) (r : ObservedRecorder) : Prop :=
  pending_newer r /\
  (forall k h, db_health (rc_db r) !! k = Some h ->
     text_by clock (ah_LastReportAt h) /\ id_known past k (ah_ObservationID h) (ah_ReportedAt h)) /\
  (forall k b, rc_pending r !! k = Some b ->
     text_by clock (pb_lastReportAt b) /\
     id_known past k (optionalText (pb_observationID b)) (pb_reportedAt b)).

(** The unbuffered tables hold what the buffered recorder shows. *)
Definition shows (r : ObservedRecorder) (d : DB) : Prop :=
  same_rest (rc_db r) d /\ forall k, db_health d !! k = currentReading k r.

Lemma flush_simulation commits clock past r d :
  buffer_ok clock past r -> shows r d ->
  buffer_ok clock past (snd (Flush commits r)) /\ shows (snd (Flush commits r)) d.
Proof.
  intros (Hp & Hh & Hb) [Hrest Hd]. unfold Flush.
  destruct (Nat.eqb_spec (size (rc_pending r)) 0) as [Hz|Hz]; cbn [snd].
  { apply map_size_empty_inv in Hz.
    assert (r = {| rc_db := rc_db r; rc_pending := ∅ |}) as Hr by (destruct r; cbn in *; by subst).
    by rewrite <- Hr. }
  destruct commits; cbn [observedTx snd].
  - destruct (flush_tx_current r Hp) as [Hr2 Hf]. split; [split_and!|split].
    + intros k b. cbn. by rewrite lookup_empty.
    + intros k h. cbn. rewrite Hf, current_stored by done. intros Hk.
      destruct (db_health (rc_db r) !! k) as [h0|] eqn:E; [|done].
      destruct (rc_pending r !! k) as [b|] eqn:Eb; injection Hk as <-; [by apply (Hb k b)|by apply Hh].
    + intros k b. cbn. by rewrite lookup_empty.
    + unfold same_rest in *. cbn [rc_db]. destruct Hrest as (E1 & E2 & E3), Hr2 as (F1 & F2 & F3). by rewrite F1, F2, F3.
    + intros k. rewrite Hd. unfold currentReading at 2, readHealth. cbn. rewrite Hf, lookup_empty.
      by destruct (currentReading k r).
  - rewrite restore_empty. by destruct r.
Qed.

Lemma text_by_mono c c' s : storable c -> storable c' -> c <= c' -> text_by c s -> text_by c' s.
Proof. intros Hc Hc' Hle H. unfold text_by in *. apply (str_leb_trans _ _ _ H). by apply FormatTime_le. Qed.

Lemma id_known_mono past past' k id at_ : past ⊆ past' -> id_known past k id at_ -> id_known past' k id at_.
Proof. intros Hs H v Hv. destruct (H v Hv) as (o & Ho & H'). exists o. split; [by apply Hs|done]. Qed.

Lemma buffer_ok_mono c c' past obs r :
  storable c -> storable c' -> c <= c' -> buffer_ok c past r -> buffer_ok c' (obs :: past) r.
Proof.
  intros Hc Hc' Hle (Hp & Hh & Hb). assert (Hs : past ⊆ obs :: past) by set_solver.
  split_and!; [done| |].
  - intros k h E. destruct (Hh k h E). eauto using text_by_mono, id_known_mono.
  - intros k b E. destruct (Hb k b E). eauto using text_by_mono, id_known_mono.
Qed.

Lemma id_known_new past k obs :
  obs_key obs = k ->
  id_known (obs :: past) k (optionalText (ob_ObservationID obs)) (ob_ReportedAt obs).
Proof.
  intros Hk v Hv. exists obs. split_and!; [by left|done| |done].
  unfold optionalText in Hv. destruct (String.eqb _ _); [done|]. by injection Hv.
Qed.

(** A row the simulation allows at a key, and the overlay on it. *)
Lemma current_cases clock past r k :
  buffer_ok clock past r ->
  match db_health (rc_db r) !! k with
  | None => currentReading k r = None
  | Some h =>
      (currentReading k r = Some h /\ rc_pending r !! k = None) \/
      exists b, rc_pending r !! k = Some b /\ newer b h /\ currentReading k r = Some (bumped h b)
  end.
Proof.
  intros (Hp & _). rewrite current_stored by done.
  destruct (db_health (rc_db r) !! k) as [h|] eqn:E; [|done].
  destruct (rc_pending r !! k) as [b|] eqn:Eb; [right|by left].
  destruct (Hp k b Eb) as (h' & E' & N). exists b. split_and!; congruence.
Qed.

(** The reading shown is as new as the clock allows. *)
Lemma current_by clock past r k e :
  buffer_ok clock past r -> currentReading k r = Some e -> text_by clock (ah_LastReportAt e).
Proof.
  intros Hok He. pose proof (current_cases clock past r k Hok) as Hc.
  destruct (db_health (rc_db r) !! k) as [h|] eqn:E; [|congruence].
  destruct Hok as (_ & Hh & Hb).
  destruct Hc as [[Hc _]|(b & Eb & _ & Hc)]; rewrite Hc in He; injection He as <-.
  - by apply (Hh k).
  - by apply (Hb k).
Qed.

(** A report that supersedes what is shown may be applied to it. *)
Lemma bumpFor_newer clock past r k e obs now :
  buffer_ok clock past r -> storable clock -> storable now -> clock <= now -> obs_ok obs ->
  currentReading k r = Some e -> Supersedes obs (ah_ReportedAt e) = true ->
  newer (bumpFor obs now) e.
Proof.
  intros Hok Hc Hn Hle (_ & _ & Hi) He Hs. split_and!; [|..].
  - by apply str_lt_le.
  - cbn. pose proof (current_by _ _ _ _ _ Hok He) as Ht.
    by apply (text_by_mono clock now _ Hc Hn Hle) in Ht.
  - done.
Qed.

Lemma newer_stored b h b' : newer b h -> newer b' (bumped h b) -> newer b' h.
Proof.
  intros (H1 & H2 & _) (H3 & H4 & H5). cbn in H3, H4. split_and!; [| |done].
  - by apply (str_leb_trans _ _ _ H1).
  - by apply (str_leb_trans _ _ _ H2).
Qed.

Section Simulation.
Context (NewID : nat -> string).

Lemma appendLedger_rest row db d :
  same_rest db d -> same_rest (appendLedger NewID row db) (appendLedger NewID row d).
Proof. intros (E1 & E2 & E3). unfold same_rest. cbn. by rewrite E1, E2, E3. Qed.

Lemma record_plan_rest key cur cur' plan to at_ db d :
  same_rest db d -> ah_State <$> cur = ah_State <$> cur' ->
  same_rest (record_plan NewID key cur plan to at_ db) (record_plan NewID key cur' plan to at_ d).
Proof.
  intros H Hc. unfold record_plan. rewrite Hc.
  destruct (pl_closing plan), (pl_opens plan), (pl_emit plan); by repeat apply appendLedger_rest.
Qed.

(** The re-read inside the transaction agrees with what was shown. *)
Lemma classify_stored clock past r obs :
  buffer_ok clock past r -> (forall o, o ∈ past -> ids_name_reports [o; obs]) ->
  let current := currentReading (obs_key obs) r in
  classify obs current = ObservationTransitioned ->
  classify obs (readHealth (obs_key obs) (rc_db r)) = ObservationTransitioned.
Proof.
  intros Hok Hids current Hc. unfold current, readHealth in *. clear current.
  pose proof (current_cases clock past r (obs_key obs) Hok) as H.
  destruct (db_health (rc_db r) !! obs_key obs) as [h|] eqn:E; [|done].
  destruct H as [[H _]|(b & Eb & N & H)]; rewrite H in Hc; [done|].
  cbn [classify] in *. change (ah_State (bumped h b)) with (ah_State h) in Hc.
  destruct (negb _ && _) in Hc; [done|].
  destruct (Supersedes obs (ah_ReportedAt (bumped h b))) eqn:Hs; [|done].
  destruct (String.eqb (ah_State h) (ob_State obs)) eqn:Hst; [done|].
  assert (Hs' : Supersedes obs (ah_ReportedAt h) = true).
  { apply (str_le_lt_trans _ (pb_reportedAt b)); [apply N|exact Hs]. }
  rewrite Hs'. cbn [negb].
  destruct (negb _ && bool_decide _) eqn:Hid; [|done].
  apply andb_true_iff in Hid as [Hne Heq]. rewrite bool_decide_eq_true in Heq.
  rewrite negb_true_iff, String.eqb_neq in Hne.
  destruct Hok as (_ & Hh & _). destruct (Hh _ _ E) as [_ Hk].
  destruct (Hk _ Heq) as (o & Ho & Hkey & Hoid & Hoat).
  assert (Hat : ob_ReportedAt o = ob_ReportedAt obs)
    by (apply (Hids o Ho); [left|right; left|..]; congruence).
  unfold Supersedes in Hs'. by rewrite <- Hat, Hoat, str_ltb_irrefl in Hs'.
Qed.

Lemma write_simulation commits clock past r d obs now :
  buffer_ok clock past r -> shows r d -> storable clock -> storable now -> clock <= now ->
  obs_ok obs -> (forall o, o ∈ past -> ids_name_reports [o; obs]) ->
  classify obs (currentReading (obs_key obs) r) = ObservationTransitioned ->
  let '(out, r') := writeThrough NewID commits obs now r in
  let '(out', d') := applyDirect NewID commits obs now d in
  out = out' /\ buffer_ok now (obs :: past) r' /\ shows r' d'.
Proof.
  intros Hok [Hrest Hd] Hc Hn Hle Hobs Hids Hcl. pose proof Hok as (Hp & Hh & Hb).
  pose proof (classify_stored clock past r obs Hok Hids Hcl) as Hcl'.
  pose proof (buffer_ok_mono clock now past obs r Hc Hn Hle Hok) as Hok'.
  unfold writeThrough, applyDirect, readHealth. rewrite Hd, Hcl.
  destruct commits; cbn [observedTx]; [|by destruct r].
  assert (Hcl2 : classify obs (readHealth (obs_key obs) d) = ObservationTransitioned)
    by (unfold readHealth; by rewrite Hd).
  rewrite !write_tx_change by done.
  assert (Hcount : countRecentTransitions (obs_key obs) (FormatTime (FlapWindowStart now)) d =
    countRecentTransitions (obs_key obs) (FormatTime (FlapWindowStart now)) (rc_db r)).
  { unfold countRecentTransitions. by destruct Hrest as (-> & _). }
  rewrite Hcount. set (churn := countRecentTransitions _ _ _). set (key := obs_key obs) in *.
  assert (Hcur : ah_State <$> readHealth key (rc_db r) = ah_State <$> readHealth key d /\
    forall at_, planFlap (readHealth key d) (ob_State obs) at_ churn now =
      planFlap (readHealth key (rc_db r)) (ob_State obs) at_ churn now).
  { unfold readHealth. rewrite Hd. pose proof (current_cases clock past r key Hok) as H.
    destruct (db_health (rc_db r) !! key) as [h|]; [|by rewrite H].
    destruct H as [[-> _]|(b & _ & _ & ->)]; [done|]. split; [done|]. intros. apply planFlap_bumped. }
  destruct Hcur as [Hst Hplan]. rewrite Hplan. set (plan := planFlap _ _ _ _ _).
  set (health := applyTo (pl_episode plan) (new_reading obs (FormatTime now))).
  assert (Hhealth : ah_ReportedAt health = ob_ReportedAt obs /\ ah_LastReportAt health = FormatTime now /\
    ah_ObservationID health = optionalText (ob_ObservationID obs))
    by (unfold health, applyTo; by destruct (negb _)).
  destruct Hhealth as (G1 & G2 & G3). destruct Hok' as (_ & Hh' & Hb').
  split_and!; [done| |].
  - split_and!.
    + intros k b. cbn. rewrite record_plan_health. cbn [with_health db_health]. intros Hk.
      apply lookup_delete_Some in Hk as [Hne Hk]. rewrite lookup_insert_ne by done. by apply Hp.
    + intros k h. cbn. rewrite record_plan_health. cbn [with_health db_health].
      intros [[<- <-]|[Hne Hk]]%lookup_insert_Some; [|by apply Hh'].
      rewrite G1, G2, G3. split; [apply str_ltb_irrefl|]. by apply id_known_new.
    + intros k b. cbn. intros [_ Hk]%lookup_delete_Some. by apply Hb'.
  - split.
    + cbn. by apply record_plan_rest.
    + intros k. unfold currentReading, readHealth. cbn. rewrite !record_plan_health. cbn [with_health db_health].
      destruct (decide (key = k)) as [<-|Hne].
      * by rewrite !lookup_insert_eq, lookup_delete_eq.
      * rewrite !lookup_insert_ne, lookup_delete_ne by done. rewrite Hd. done.
Qed.

(** What the closing transaction does when nothing came between. *)
Lemma close_tx_settled obs now db h :
  db_health db !! obs_key obs = Some h -> FlapSettled h now = true -> newer (bumpFor obs now) h ->
  let row := bumped (applyTo no_episode h) (bumpFor obs now) in
  exists db', close_tx NewID obs now db = (Some (settled ObservationUnchanged (Some row) now), db') /\
    same_rest (recordFlapClose NewID (obs_key obs) (quiet_closure h) (FormatTime now) db) db' /\
    db_health db' !! obs_key obs = Some row /\
    forall k, k <> obs_key obs -> db_health db' !! k = db_health db !! k.
Proof.
  intros E Hs N. cbv zeta. set (bump := bumpFor obs now) in *.
  assert (N' : newer bump (applyTo no_episode h)) by exact N.
  eexists. unfold close_tx, readHealth. rewrite E, Hs. fold bump.
  rewrite applyBump_newer by done. split; [done|].
  set (db1 := clearFlap _ _).
  assert (E1 : db_health db1 !! obs_key obs = Some (applyTo no_episode h)).
  { unfold db1. rewrite clearFlap_lookup, decide_True by done. cbn. by rewrite E. }
  rewrite (bumpHealth_newer _ _ _ _ E1 N'). split_and!; [done|cbn; by rewrite lookup_insert_eq|].
  intros k Hk. cbn [with_health db_health]. rewrite lookup_insert_ne by done.
  unfold db1. by rewrite clearFlap_lookup, decide_False.
Qed.

Lemma close_simulation commits clock past r d obs now :
  buffer_ok clock past r -> shows r d -> storable clock -> storable now -> clock <= now ->
  obs_ok obs -> classify obs (currentReading (obs_key obs) r) = ObservationUnchanged ->
  (exists e, currentReading (obs_key obs) r = Some e /\ FlapSettled e now = true) ->
  let '(out, r') := closeSettledEpisode NewID commits obs (currentReading (obs_key obs) r) now r in
  let '(out', d') := applyDirect NewID commits obs now d in
  out = out' /\ buffer_ok now (obs :: past) r' /\ shows r' d'.
Proof.
  intros Hok [Hrest Hd] Hc Hn Hle Hobs Hcl (e & He & Hset).
  pose proof (buffer_ok_mono clock now past obs r Hc Hn Hle Hok) as Hok'.
  unfold applyDirect, closeSettledEpisode, readHealth. rewrite Hd, Hcl, He, Hset.
  destruct commits; cbn [observedTx]; [|by destruct r].
  assert (Hsup : Supersedes obs (ah_ReportedAt e) = true).
  { rewrite He in Hcl. cbn [classify] in Hcl. destruct (_ && _); [done|].
    by destruct (Supersedes obs (ah_ReportedAt e)). }
  pose proof (bumpFor_newer _ _ _ _ _ _ _ Hok Hc Hn Hle Hobs He Hsup) as N.
  assert (Hst : exists h, db_health (rc_db r) !! obs_key obs = Some h /\ FlapSettled h now = true /\
    newer (bumpFor obs now) h /\ quiet_closure e = quiet_closure h /\
    bumped (applyTo no_episode e) (bumpFor obs now) = bumped (applyTo no_episode h) (bumpFor obs now)).
  { pose proof (current_cases clock past r (obs_key obs) Hok) as H.
    destruct (db_health (rc_db r) !! obs_key obs) as [h|]; [|congruence]. exists h.
    destruct H as [[H _]|(b & _ & Nb & H)]; rewrite H in He; injection He as <-; [done|].
    split_and!; try done. by apply (newer_stored b). }
  destruct Hst as (h & Eh & Hseth & Nh & Eq1 & Eq2).
  destruct (close_tx_settled obs now (rc_db r) h Eh Hseth Nh) as (db' & -> & F1 & F2 & F3).
  destruct (close_tx_settled obs now d e) as (d' & -> & G1 & G2 & G3); [by rewrite Hd|done..|].
  rewrite Eq2. destruct Hok' as (Hp & Hh & Hb). split_and!; [done| |].
  - split_and!; cbn [forget with_db rc_db rc_pending].
    + intros k b Hk. cbn in Hk |- *. apply lookup_delete_Some in Hk as [Hne Hk].
      rewrite F3 by done. by apply Hp.
    + intros k h' Hk. destruct (decide (k = obs_key obs)) as [->|Hne]; [|by apply Hh; rewrite <- F3].
      rewrite F2 in Hk. injection Hk as <-. split; [apply str_ltb_irrefl|]. by apply id_known_new.
    + intros k b [_ Hk]%lookup_delete_Some. by apply Hb.
  - split.
    + cbn [forget with_db rc_db]. rewrite Eq1 in G1.
      destruct F1 as (A1 & A2 & A3), G1 as (B1 & B2 & B3). unfold same_rest.
      rewrite A1, A2, A3, B1, B2, B3. by apply appendLedger_rest.
    + intros k. unfold currentReading, readHealth. cbn [forget with_db rc_db rc_pending].
      destruct (decide (k = obs_key obs)) as [->|Hne].
      * by rewrite G2, F2, lookup_delete_eq, Eq2.
      * rewrite G3, F3, lookup_delete_ne by done. by rewrite Hd.
Qed.

Lemma buffer_simulation clock past r d obs now :
  buffer_ok clock past r -> shows r d -> storable clock -> storable now -> clock <= now ->
  obs_ok obs ->
  (exists e, currentReading (obs_key obs) r = Some e /\ Supersedes obs (ah_ReportedAt e) = true) ->
  let '(row, r') := buffer (obs_key obs) obs (currentReading (obs_key obs) r) now r in
  row = applyBump (currentReading (obs_key obs) r) (obs_key obs) (bumpFor obs now) /\
  buffer_ok now (obs :: past) r' /\
  shows r' (with_health (<[obs_key obs := row]> (db_health d)) d).
Proof.
  intros Hok [Hrest Hd] Hc Hn Hle Hobs (e & He & Hsup).
  pose proof (buffer_ok_mono clock now past obs r Hc Hn Hle Hok) as Hok'.
  pose proof (bumpFor_newer _ _ _ _ _ _ _ Hok Hc Hn Hle Hobs He Hsup) as N.
  set (bump := bumpFor obs now) in *. set (key := obs_key obs) in *.
  assert (Hst : exists h, db_health (rc_db r) !! key = Some h /\ newer bump h /\ bumped e bump = bumped h bump /\
    match rc_pending r !! key with
    | None => true
    | Some prev => negb (str_ltb (pb_reportedAt bump) (pb_reportedAt prev))
    end = true).
  { pose proof (current_cases clock past r key Hok) as H.
    destruct (db_health (rc_db r) !! key) as [h|]; [|congruence]. exists h.
    destruct H as [[H Hnone]|(b & Eb & Nb & H)]; rewrite H in He; injection He as <-.
    - by rewrite Hnone.
    - rewrite Eb. split_and!; try done; [by apply (newer_stored b)|].
      apply negb_true_iff. apply N. }
  destruct Hst as (h & Eh & Nh & Eq & Hkeep).
  unfold buffer. fold bump. rewrite Hkeep, He. rewrite applyBump_newer by done.
  destruct Hok' as (Hp & Hh & Hb). split_and!; [done| |].
  - split_and!; cbn [rc_db rc_pending].
    + intros k b Hk. cbn in Hk |- *.
      apply lookup_insert_Some in Hk as [[<- <-]|[Hne Hk]]; [by exists h|by apply Hp].
    + done.
    + intros k b [[<- <-]|[Hne Hk]]%lookup_insert_Some; [|by apply Hb].
      split; [apply str_ltb_irrefl|]. by apply id_known_new.
  - split; [done|]. intros k. unfold currentReading, readHealth. cbn [rc_db rc_pending with_health db_health].
    destruct (decide (key = k)) as [<-|Hne].
    + rewrite !lookup_insert_eq, Eh. rewrite applyBump_newer by done. by rewrite Eq.
    + rewrite !lookup_insert_ne by done. rewrite Hd. done.
Qed.

Lemma report_simulation commits clock past r d obs now :
  buffer_ok clock past r -> shows r d -> storable clock -> storable now -> clock <= now ->
  obs_ok obs -> (forall o, o ∈ past -> ids_name_reports [o; obs]) ->
  let '(out, r') := applyObservation NewID commits obs now r in
  let '(out', d') := applyDirect NewID commits obs now d in
  out = out' /\ buffer_ok now (obs :: past) r' /\ shows r' d'.
Proof.
  intros Hok Hsh Hc Hn Hle Hobs Hids. pose proof Hsh as [Hrest Hd].
  pose proof (buffer_ok_mono clock now past obs r Hc Hn Hle Hok) as Hok'.
  unfold applyObservation. destruct (classify obs (currentReading (obs_key obs) r)) eqn:Hcl.
  - by apply (write_simulation commits clock past).
  - destruct (currentReading (obs_key obs) r) as [e|] eqn:He; [|done].
    assert (Hsup : Supersedes obs (ah_ReportedAt e) = true).
    { cbn [classify] in Hcl. destruct (_ && _); [done|]. by destruct (Supersedes obs (ah_ReportedAt e)). }
    destruct (FlapSettled e now) eqn:Hset.
    + rewrite <- He. apply (close_simulation commits clock past); try done; [by rewrite He|by exists e].
    + pose proof (buffer_simulation clock past r d obs now Hok Hsh Hc Hn Hle Hobs) as H.
      rewrite He in H. specialize (H (ex_intro _ e (conj eq_refl Hsup))).
      destruct (buffer (obs_key obs) obs (Some e) now r) as [row r'].
      unfold applyDirect, readHealth. rewrite Hd, He, Hcl, Hset. destruct H as (-> & H1 & H2).
      by split_and!.
  - unfold applyDirect, readHealth. by rewrite Hd, Hcl.
  - unfold applyDirect, readHealth. by rewrite Hd, Hcl.
Qed.

Lemma run_simulation events clock past r d :
  buffer_ok clock past r -> shows r d -> storable clock -> clocked clock events ->
  ids_name_reports (past ++ reports events) ->
  let '(outs, r') := run_buffered NewID events r in
  let '(outs', d') := run_direct NewID events d in
  outs = outs' /\ (exists clock' past', buffer_ok clock' past' r') /\ shows r' d'.
Proof.
  revert clock past r d. induction events as [|ev events IH]; intros clock past r d Hok Hsh Hc Hcl Hids.
  { split_and!; [done|by exists clock, past|apply Hsh..]. }
  destruct ev as [obs now commits|commits]; cbn [run_buffered run_direct clocked] in *.
  - destruct Hcl as (Hobs & Hle & Hn & Hcl).
    assert (Hids1 : forall o, o ∈ past -> ids_name_reports [o; obs]).
    { intros o Ho a b Ha Hb. apply Hids; cbn [reports omap list_omap]; set_solver. }
    pose proof (report_simulation commits clock past r d obs now Hok Hsh Hc Hn Hle Hobs Hids1) as H.
    destruct (applyObservation NewID commits obs now r) as [out r1].
    destruct (applyDirect NewID commits obs now d) as [out' d1]. destruct H as (-> & Hok1 & Hsh1).
    specialize (IH now (obs :: past) r1 d1 Hok1 Hsh1 Hn Hcl).
    destruct (run_buffered NewID events r1) as [outs r2], (run_direct NewID events d1) as [outs' d2].
    destruct IH as [-> Hsh2]; [|by split].
    intros a b Ha Hb. apply Hids; cbn [reports omap list_omap app] in *; set_solver.
  - destruct (flush_simulation commits clock past r d Hok Hsh) as [Hok1 Hsh1].
    by apply (IH clock past).
Qed.

Lemma empty_recorder_ok clock : buffer_ok clock [] empty_recorder /\ shows empty_recorder empty_db.
Proof.
  split; [split_and!|split]; try done; intros k *; cbn; rewrite ?lookup_empty; done.
Qed.

(** What is stored is what is read back but for the columns of the last report. *)
Lemma stored_lags clock past r k : buffer_ok clock past r -> lags (db_health (rc_db r) !! k) (currentReading k r).
Proof.
  intros Hok. pose proof (current_cases clock past r k Hok) as Hc.
  destruct (db_health (rc_db r) !! k) as [h|]; [|by rewrite Hc].
  destruct Hc as [[-> _]|(b & _ & (H1 & H2 & _) & ->)]; cbn.
  - split_and!; [by destruct h|apply str_ltb_irrefl..].
  - by split_and!.
Qed.

(** A flush that commits stores what is read back. *)
Lemma flushed_stored clock past r d :
  buffer_ok clock past r -> shows r d -> db_health (rc_db (snd (Flush true r))) = db_health d.
Proof.
  intros Hok Hsh. apply map_eq. intros k.
  destruct (flush_simulation true clock past r d Hok Hsh) as [_ [_ Hd]]. rewrite Hd.
  unfold currentReading, readHealth.
  assert (rc_pending (snd (Flush true r)) = ∅) as -> by (unfold Flush; by destruct (_ =? _)%nat).
  rewrite lookup_empty. by destruct (db_health _ !! k).
Qed.

(** C3. What buffering changes and what it does not. Take any history of validated
    reports and flushes, with the transactions of each committing or failing, a clock
    that does not go back and keys that name one report each, and compare the recorder
    with one that writes each report at once. Every report gets the same answer, the
    recorder reads back the same current readings, with which it decides about the next
    report, and the ledger and the drift queue are the same tables, whenever the flushes
    happen, however many fail, and whether there is one at all. What a page shows comes
    from the stored rows, and those may lag: a stored row is older than the reading in
    the columns of the last report, its times, its cadence and its key, and equal to it
    in every other, the state, its onset and the flap episode included. After the next
    flush that commits a page shows what it would show had each report been written at
    once. *)
Theorem buffering_transparent events clock :
  storable clock -> clocked clock events -> ids_name_reports (reports events) ->
  let '(outs, r) := run_buffered NewID events empty_recorder in
  let '(outs', d) := run_direct NewID events empty_db in
  outs = outs' /\ (forall k, currentReading k r = db_health d !! k) /\
  db_ledger (rc_db r) = db_ledger d /\ db_unmatched (rc_db r) = db_unmatched d /\
  (forall k, lags (db_health (rc_db r) !! k) (db_health d !! k)) /\
  (forall ty id now, GetObservedState ty id now (rc_db (snd (Flush true r))) = GetObservedState ty id now d).
Proof.
  intros Hc Hcl Hids. destruct (empty_recorder_ok clock) as [Hok Hsh].
  pose proof (run_simulation events clock [] empty_recorder empty_db Hok Hsh Hc Hcl Hids) as H.
  destruct (run_buffered NewID events empty_recorder) as [outs r].
  destruct (run_direct NewID events empty_db) as [outs' d].
  destruct H as (-> & (clock' & past' & Hok') & Hsh'). pose proof Hsh' as [(H1 & H2 & _) Hd]. split_and!; [done..| |].
  - intros k. rewrite Hd. by eapply stored_lags.
  - intros ty id now. unfold GetObservedState. by rewrite (flushed_stored clock' past' r d).
Qed.

(** ** Delivering a report again *)

(** What a reading that is as new as the report makes of it. *)
Lemma classify_not_newer obs e :
  Supersedes obs (ah_ReportedAt e) = false ->
  classify obs (Some e) = ObservationDuplicate \/ classify obs (Some e) = ObservationStale.
Proof. intros H. cbn [classify]. rewrite H. destruct (_ && _); auto. Qed.

Lemma ignored_again commits obs now r :
  (exists e, currentReading (obs_key obs) r = Some e /\
     (classify obs (Some e) = ObservationDuplicate \/ classify obs (Some e) = ObservationStale)) ->
  exists out, applyObservation NewID commits obs now r = (inr out, r) /\
    (rs_Disposition out = ObservationDuplicate \/ rs_Disposition out = ObservationStale).
Proof.
  intros (e & He & Hc). unfold applyObservation. rewrite He.
  destruct Hc as [-> | ->]; eexists; (split; [reflexivity|]); auto.
Qed.

Lemma bumpHealth_reported key b db h :
  db_health db !! key = Some h ->
  exists h', db_health (bumpHealth key b db) !! key = Some h' /\
    str_ltb (ah_ReportedAt h') (pb_reportedAt b) = false.
Proof.
  intros E. unfold bumpHealth. rewrite E. destruct (str_ltb _ _) eqn:El.
  - exists h. split; [done|]. by apply str_lt_le.
  - cbn. rewrite lookup_insert_eq. eexists. split; [done|]. apply str_ltb_irrefl.
Qed.

Lemma write_tx_seen obs now db :
  let '(out, db') := write_tx NewID obs now db in
  exists e, db_health db' !! obs_key obs = Some e /\
    (classify obs (Some e) = ObservationDuplicate \/ classify obs (Some e) = ObservationStale).
Proof.
  destruct (classify obs (readHealth (obs_key obs) db)) eqn:Hc.
  - rewrite write_tx_change by done. rewrite record_plan_health. cbn [with_health db_health].
    rewrite lookup_insert_eq. eexists. split; [done|]. apply classify_not_newer.
    unfold Supersedes, applyTo. destruct (negb _); apply str_ltb_irrefl.
  - unfold write_tx. rewrite Hc. unfold readHealth in *.
    destruct (db_health db !! obs_key obs) as [h|] eqn:E; [|done].
    destruct (bumpHealth_reported _ (bumpFor obs now) _ _ E) as (h' & E' & Hr).
    exists h'. split; [done|]. by apply classify_not_newer.
  - unfold write_tx. rewrite Hc. unfold readHealth in *.
    destruct (db_health db !! obs_key obs) as [h|] eqn:E; [|done]. exists h. auto.
  - unfold write_tx. rewrite Hc. unfold readHealth in *.
    destruct (db_health db !! obs_key obs) as [h|] eqn:E; [|done]. exists h. auto.
Qed.

Lemma close_tx_seen obs now db h :
  db_health db !! obs_key obs = Some h ->
  let '(out, db') := close_tx NewID obs now db in
  (exists res, out = Some res) /\ exists e, db_health db' !! obs_key obs = Some e /\
    (classify obs (Some e) = ObservationDuplicate \/ classify obs (Some e) = ObservationStale).
Proof.
  intros E. unfold close_tx, readHealth. rewrite E. destruct (FlapSettled h now).
  - assert (E1 : exists h1, db_health (clearFlap (obs_key obs)
      (recordFlapClose NewID (obs_key obs) (quiet_closure h) (FormatTime now) db)) !! obs_key obs = Some h1).
    { rewrite clearFlap_lookup, decide_True by done. cbn. rewrite E. by eexists. }
    destruct E1 as [h1 E1]. destruct (bumpHealth_reported _ (bumpFor obs now) _ _ E1) as (h' & E' & Hr).
    split; [by eexists|]. exists h'. split; [done|]. by apply classify_not_newer.
  - destruct (bumpHealth_reported _ (bumpFor obs now) _ _ E) as (h' & E' & Hr).
    split; [by eexists|]. exists h'. split; [done|]. by apply classify_not_newer.
Qed.

(** A delivery repeated is a delivery ignored. Once the recorder has answered a
    report, whatever it answered and whatever state it was in, the same report
    sent again, at any time and with the database up or down, is answered as a
    duplicate or as stale and changes nothing: no table, and not the buffer. *)
Theorem redelivery_ignored commits commits' obs now now' r out r' :
  applyObservation NewID commits obs now r = (inr out, r') ->
  exists out', applyObservation NewID commits' obs now' r' = (inr out', r') /\
    (rs_Disposition out' = ObservationDuplicate \/ rs_Disposition out' = ObservationStale).
Proof.
  intros H. apply ignored_again. unfold applyObservation in H.
  destruct (classify obs (currentReading (obs_key obs) r)) eqn:Hc.
  - unfold writeThrough in H. pose proof (write_tx_seen obs now (rc_db r)) as Hw.
    destruct commits; cbn [observedTx] in H; [|done].
    destruct (write_tx NewID obs now (rc_db r)) as [o db']. injection H as _ <-.
    destruct Hw as (e & He & Hcl). exists e. split; [|done].
    unfold currentReading, readHealth. cbn [forget with_db rc_db rc_pending].
    by rewrite He, lookup_delete_eq.
  - destruct (currentReading (obs_key obs) r) as [e|] eqn:He; [|done].
    unfold currentReading, readHealth in He.
    destruct (db_health (rc_db r) !! obs_key obs) as [h|] eqn:Eh; [|done].
    assert (Hsup : Supersedes obs (ah_ReportedAt e) = true).
    { cbn [classify] in Hc. destruct (_ && _); [done|]. by destruct (Supersedes obs (ah_ReportedAt e)). }
    destruct (FlapSettled e now).
    + unfold closeSettledEpisode in H. pose proof (close_tx_seen obs now (rc_db r) h Eh) as Hw.
      destruct commits; cbn [observedTx] in H; [|done].
      destruct (close_tx NewID obs now (rc_db r)) as [o db'].
      destruct Hw as ((res & ->) & e' & He' & Hcl). injection H as _ <-. exists e'. split; [|done].
      unfold currentReading, readHealth. cbn [forget with_db rc_db rc_pending].
      by rewrite He', lookup_delete_eq.
    + unfold buffer in H.
      assert (Hkeep : match rc_pending r !! obs_key obs with
        | None => true
        | Some prev => negb (str_ltb (pb_reportedAt (bumpFor obs now)) (pb_reportedAt prev))
        end = true).
      { destruct (rc_pending r !! obs_key obs) as [p|]; [|done]. injection He as <-.
        apply negb_true_iff, str_lt_le. cbn. unfold Supersedes in Hsup. cbn in Hsup.
        apply (str_le_lt_trans _ (later_text (pb_reportedAt p) (ah_ReportedAt h))); [|done].
        apply later_text_ge. }
      rewrite Hkeep in H. injection H as _ <-.
      exists (applyBump (Some h) (obs_key obs) (bumpFor obs now)). split.
      * unfold currentReading, readHealth. cbn [rc_db rc_pending]. by rewrite Eh, lookup_insert_eq.
      * apply classify_not_newer. unfold Supersedes. cbn. apply later_text_ge.
  - injection H as <- <-. destruct (currentReading (obs_key obs) r) as [e|]; [|done].
    exists e. auto.
  - injection H as <- <-. destruct (currentReading (obs_key obs) r) as [e|]; [|done].
    exists e. auto.
Qed.
End Simulation.

(** ** Samples *)

Definition sample_history : list Event :=
  [Report (sample_obs "up" (FormatTime ten_o_clock)) ten_o_clock true;
   Report (sample_obs "up" (FormatTime (ten_o_clock + 60 * Second))) (ten_o_clock + 60 * Second) true;
   Tick false;
   Report (sample_obs "up" (FormatTime (ten_o_clock + 120 * Second))) (ten_o_clock + 120 * Second) true;
   Tick true;
   Report (sample_obs "down" (FormatTime (ten_o_clock + 180 * Second))) (ten_o_clock + 180 * Second) true].

Lemma sample_obs_ok state at_ : ValidHealth state = true -> obs_ok (sample_obs state at_).
Proof. intros H. split_and!; [left|done|done]. Qed.

Lemma buffering_transparent_witness :
  let '(outs, r) := run_buffered sample_id sample_history empty_recorder in
  let '(outs', d) := run_direct sample_id sample_history empty_db in
  outs = outs' /\ currentReading sample_key r = db_health d !! sample_key /\
  GetObservedState ObservableAsset "a1" ten_o_clock (rc_db (snd (Flush true r))) = GetObservedState ObservableAsset "a1" ten_o_clock d.
Proof.
  pose proof (buffering_transparent sample_id sample_history ten_o_clock) as H.
  assert (H1 : storable ten_o_clock) by (vm_compute; split; congruence).
  assert (H2 : clocked ten_o_clock sample_history).
  { cbn [clocked sample_history].
    repeat (split; [apply sample_obs_ok; reflexivity|split; [vm_compute; discriminate|
      split; [vm_compute; split; discriminate|]]]). exact I. }
  assert (H3 : ids_name_reports (reports sample_history)).
  { intros o o' Ho _ _ Hne _. destruct Hne. revert o Ho. apply Forall_forall.
    unfold sample_history. cbn [reports omap list_omap].
    repeat (apply Forall_cons; split; [reflexivity|]). constructor. }
  specialize (H H1 H2 H3). destruct (run_buffered sample_id sample_history empty_recorder) as [outs r].
  destruct (run_direct sample_id sample_history empty_db) as [outs' d].
  destruct H as (Ho & Hd & _ & _ & _ & Hg). split; [exact Ho|]. split; [apply Hd|apply Hg].
Defined.

Lemma redelivery_ignored_witness :
  let obs := sample_obs "up" (FormatTime ten_o_clock) in
  let '(_, r) := applyObservation sample_id true obs ten_o_clock empty_recorder in
  exists out, applyObservation sample_id false obs (ten_o_clock + Second) r = (inr out, r) /\
    (rs_Disposition out = ObservationDuplicate \/ rs_Disposition out = ObservationStale).
Proof.
  cbv zeta.
  destruct (applyObservation sample_id true (sample_obs "up" (FormatTime ten_o_clock)) ten_o_clock
    empty_recorder) as [[e|out] r] eqn:E; [vm_compute in E; discriminate E|].
  exact (redelivery_ignored sample_id true false _ _ _ _ _ _ E).
Defined.

(** Without a flush a page stops believing a reading that is reported every minute. *)
Lemma unflushed_reading_goes_stale :
  let at_ n := ten_o_clock + n * 60 * Second in
  let heartbeats := (fun n => Report (sample_obs "up" (FormatTime (at_ n))) (at_ n) true) <$> [0; 1; 2; 3; 4; 5] in
  let r := snd (run_buffered sample_id heartbeats empty_recorder) in
  (or_Display <$> GetObservedState ObservableAsset "a1" (at_ 5) (rc_db r)) = ["unknown"] /\
  (or_Display <$> GetObservedState ObservableAsset "a1" (at_ 5) (rc_db (snd (Flush true r)))) = ["up"].
Proof. vm_compute. by split. Qed.

(** An idempotency key used for a second report can undo an accepted one. The
    reading is stored with key a, then a heartbeat with key b is buffered; a
    state change that reuses a passes the check against what is shown, is found
    to be a duplicate of the stored row inside the transaction, and the buffered
    heartbeat is forgotten with it. After a flush the same report is applied. *)
Definition keyed (id state : string) (seconds : Z) (commits : bool) : Event :=
  let now := ten_o_clock + seconds * Second in
  Report {| ob_ObservationID := id; ob_EntityType := ObservableAsset; ob_EntityID := "a1";
            ob_Reporter := "probe"; ob_State := state; ob_ReportedAt := FormatTime now;
            ob_IntervalSeconds := 60 |} now commits.

Definition shown (r : ObservedRecorder) : option (HealthState * string) :=
  (fun h => (ah_State h, ah_ReportedAt h)) <$> currentReading sample_key r.

Lemma reused_key_depends_on_flush :
  let before := [keyed "a" "up" 0 true; keyed "b" "up" 60 true] in
  let change := keyed "a" "down" 120 true in
  shown (snd (run_buffered sample_id (before ++ [change]) empty_recorder)) =
    Some ("up", "2026-08-01T10:00:00Z") /\
  shown (snd (run_buffered sample_id (before ++ [Tick true; change]) empty_recorder)) =
    Some ("down", "2026-08-01T10:02:00Z").
Proof. vm_compute. split; reflexivity. Qed.
