(* ===== verification/Authority.v ===== *)
(** What a monitoring credential may do to the recorder: what a call of
    [RecordObservation] needs to be answered, what it can touch, that histories
    of calls and flushes are the sequences of transactions of [Ledger], and the
    bound of the drift queue. *)
From Stdlib Require Import String Ascii ZArith Lia.
From stdpp Require Import base gmap strings list.
From S2P Require Import Prelude Text Errors Timestamps Actors Health Recorder Ledger.

#[local] Open Scope string_scope.
#[local] Open Scope list_scope.
#[local] Open Scope Z_scope.

(** * Definitions *)

(** The environment codes an entity sits in, and whether the inventory has it. *)
Definition codes_of (inv : Inventory) (obs : Observation) : list string :=
  match entityEnvironments inv (ob_EntityType obs) (ob_EntityID obs) with
  | inr codes => codes
  | inl _ => []
  end.

(** A change confined to one reading: the other rows and buffered bumps stay,
    and the ledger only grows, by rows of that reading. *)
Definition db_touches (key : healthKey) (db db' : DB) : Prop :=
  (forall k, k <> key -> db_health db' !! k = db_health db !! k /\
                         db_unmatched db' !! k = db_unmatched db !! k) /\
  exists rows, db_ledger db' = db_ledger db ++ rows /\ Forall (fun t => row_key t = key) rows.

Definition touches (key : healthKey) (r r' : ObservedRecorder) : Prop :=
  db_touches key (rc_db r) (rc_db r') /\
  forall k, k <> key -> rc_pending r' !! k = rc_pending r !! k.

(** ** Histories of calls *)

Inductive Call :=
  | CallRecord (inv : Inventory) (faults : Faults) (now : Time) (actor : Actor)
      (scope : EnvironmentScope) (spec : ObservationSpec)
  | CallFlush (commits : bool).

Section Calls.
Context `{Unicode} (NewID : nat -> string).

(** The reading whose state change the call was answered with, if any. *)
Definition answered_change (res : StoreError + ObservationResult) : option healthKey :=
  match res with
  | inr out =>
      if decide (rs_Disposition out = ObservationTransitioned)
      then (fun rd => key_of (or_Health rd)) <$> rs_Reading out else None
  | inl _ => None
  end.

Definition call (c : Call) (r : ObservedRecorder) : option healthKey * ObservedRecorder :=
  match c with
  | CallRecord inv faults now actor scope spec =>
      let '(res, r') := RecordObservation NewID inv faults now actor scope spec r in
      (answered_change res, r')
  | CallFlush commits => (None, snd (Flush commits r))
  end.

Fixpoint run_calls (cs : list Call) (r : ObservedRecorder) : list healthKey * ObservedRecorder :=
  match cs with
  | [] => ([], r)
  | c :: cs' =>
      let '(change, r') := call c r in
      let '(changes, r'') := run_calls cs' r' in
      (match change with Some k => k :: changes | None => changes end, r'')
  end.
End Calls.

(** * Lemmas *)

(** ** Confinement *)

Lemma db_touches_refl key db : db_touches key db db.
Proof. split; [done|]. exists []. by rewrite app_nil_r. Qed.

Lemma db_touches_trans key a b c : db_touches key a b -> db_touches key b c -> db_touches key a c.
Proof.
  intros [H1 (l1 & E1 & F1)] [H2 (l2 & E2 & F2)]. split.
  - intros k Hk. destruct (H2 k Hk) as [-> ->]. by apply H1.
  - exists (l1 ++ l2). rewrite E2, E1, app_assoc. split; [done|by apply Forall_app].
Qed.

Lemma bumpHealth_touches key bump db : db_touches key db (bumpHealth key bump db).
Proof.
  split; [|exists []; rewrite bumpHealth_ledger, app_nil_r; done].
  intros k Hk. split.
  - by destruct (bumpHealth_lookup key bump db k) as [E|[? _]].
  - unfold bumpHealth. by repeat case_match.
Qed.

Lemma clearFlap_touches key db : db_touches key db (clearFlap key db).
Proof.
  split; [|exists []; by rewrite app_nil_r].
  intros k Hk. split; [|done]. rewrite clearFlap_lookup. by case_decide.
Qed.

Lemma with_row_touches key h db : db_touches key db (with_health (<[key := h]> (db_health db)) db).
Proof.
  split; [|exists []; by rewrite app_nil_r].
  intros k Hk. split; [|done]. cbn. by rewrite lookup_insert_ne by congruence.
Qed.

Section Store.
Context (NewID : nat -> string).

Lemma appendLedger_touches key row db :
  (forall id, row_key (row id) = key) -> db_touches key db (appendLedger NewID row db).
Proof. intros Hr. split; [done|]. eexists. split; [done|]. by apply Forall_singleton. Qed.

Lemma record_plan_touches key current plan to at_ db :
  db_touches key db (record_plan NewID key current plan to at_ db).
Proof.
  unfold record_plan.
  assert (Hc : db_touches key db
    match pl_closing plan with Some c => recordFlapClose NewID key c at_ db | None => db end).
  { destruct (pl_closing plan); [by apply appendLedger_touches; destruct key|apply db_touches_refl]. }
  eapply db_touches_trans; [exact Hc|].
  destruct (pl_opens plan); [by apply appendLedger_touches; destruct key|].
  destruct (pl_emit plan); [by apply appendLedger_touches; destruct key|apply db_touches_refl].
Qed.

Lemma write_tx_touches obs now db :
  db_touches (obs_key obs) db (snd (write_tx NewID obs now db)).
Proof.
  destruct (classify obs (readHealth (obs_key obs) db)) eqn:Hc.
  - rewrite (write_tx_change NewID obs now db Hc). cbn [snd].
    eapply db_touches_trans; [apply with_row_touches|apply record_plan_touches].
  - unfold write_tx. rewrite Hc. apply bumpHealth_touches.
  - unfold write_tx. rewrite Hc. apply db_touches_refl.
  - unfold write_tx. rewrite Hc. apply db_touches_refl.
Qed.

Lemma close_tx_touches obs now db :
  db_touches (obs_key obs) db (snd (close_tx NewID obs now db)).
Proof.
  unfold close_tx. destruct (readHealth (obs_key obs) db) as [h|]; [|apply db_touches_refl].
  destruct (FlapSettled h now); cbn [snd].
  - eapply db_touches_trans; [|apply bumpHealth_touches].
    eapply db_touches_trans; [|apply clearFlap_touches].
    by apply appendLedger_touches; destruct obs.
  - apply bumpHealth_touches.
Qed.

Lemma unmatched_tx_touches obs now db :
  db_touches (obs_key obs) db (unmatched_tx NewID obs now db).
Proof.
  unfold unmatched_tx. case_match; [apply db_touches_refl|].
  split; [|exists []; by rewrite app_nil_r].
  intros k Hk. split; [done|]. cbn. by rewrite lookup_insert_ne by congruence.
Qed.

(** A report that is applied reaches the tables through one transaction. *)
Inductive applied (obs : Observation) (now : Time) (r : ObservedRecorder) :
    StoreError + ObservationResult -> ObservedRecorder -> Prop :=
  | applied_nothing res :
      answered_change res = None -> applied obs now r res r
  | applied_buffered res pending :
      answered_change res = None ->
      pending = rc_pending r \/ pending = <[obs_key obs := bumpFor obs now]> (rc_pending r) ->
      applied obs now r res {| rc_db := rc_db r; rc_pending := pending |}
  | applied_tx res tx :
      tx = TxReport obs now \/ tx = TxClose obs now ->
      answered_change res = fst (exec NewID tx (rc_db r)) ->
      applied obs now r res
        {| rc_db := snd (exec NewID tx (rc_db r));
           rc_pending := delete (obs_key obs) (rc_pending r) |}.

Lemma with_db_same r : with_db r (rc_db r) = r.
Proof. by destruct r. Qed.

Lemma settled_answer d h now :
  answered_change (inr (settled d h now)) =
  if decide (d = ObservationTransitioned) then key_of <$> h else None.
Proof. cbn. case_decide; [by destruct h|done]. Qed.

Lemma write_tx_answer obs now db :
  answered_change (inr (fst (write_tx NewID obs now db))) = fst (exec NewID (TxReport obs now) db).
Proof.
  destruct (classify obs (readHealth (obs_key obs) db)) eqn:Hc; cbn [exec].
  - rewrite (write_tx_change NewID obs now db Hc). cbn [fst]. rewrite settled_answer.
    cbn. by rewrite key_of_applyTo.
  - unfold write_tx. by rewrite Hc.
  - unfold write_tx. by rewrite Hc.
  - unfold write_tx. by rewrite Hc.
Qed.

Lemma applyObservation_applied commits obs now r :
  applied obs now r (fst (applyObservation NewID commits obs now r))
    (snd (applyObservation NewID commits obs now r)).
Proof.
  unfold applyObservation. destruct (classify obs _).
  - unfold writeThrough. destruct commits; cbn [observedTx].
    + pose proof (write_tx_answer obs now (rc_db r)) as Ha.
      pose proof (applied_tx obs now r (inr (fst (write_tx NewID obs now (rc_db r))))
        (TxReport obs now) (or_introl eq_refl) Ha) as Hp.
      cbn [exec] in Hp. by destruct (write_tx NewID obs now (rc_db r)) as [out db'].
    + cbn [fst snd]. rewrite with_db_same. by constructor.
  - destruct (match currentReading _ _ with Some h => _ | None => _ end).
    + unfold closeSettledEpisode. destruct commits; cbn [observedTx].
      * destruct (close_tx NewID obs now (rc_db r)) as [[out|] db'] eqn:E; cbn [fst snd].
        -- assert (Ha : answered_change (inr out) = None).
           { unfold close_tx in E. destruct (readHealth _ _); [|done].
             repeat case_match; by injection E as <- <-. }
           pose proof (applied_tx obs now r (inr out) (TxClose obs now) (or_intror eq_refl) Ha) as Hp.
           cbn [exec] in Hp. by rewrite E in Hp.
        -- unfold close_tx in E. destruct (readHealth _ _); [repeat case_match; done|].
           injection E as <-. rewrite with_db_same. by constructor.
      * cbn [fst snd]. rewrite with_db_same. by constructor.
    + unfold buffer. cbn [fst snd]. apply applied_buffered; [done|].
      destruct (match rc_pending r !! _ with None => _ | Some _ => _ end); auto.
  - by constructor.
  - by constructor.
Qed.

Lemma applied_touches obs now r res r' : applied obs now r res r' -> touches (obs_key obs) r r'.
Proof.
  intros [res' _|res' pending _ Hp|res' tx Htx _].
  - split; [apply db_touches_refl|done].
  - split; [apply db_touches_refl|]. intros k Hk. cbn.
    destruct Hp as [-> | ->]; [done|]. by rewrite lookup_insert_ne by congruence.
  - split; [|intros k Hk; cbn; by rewrite lookup_delete_ne by congruence]. cbn [rc_db].
    destruct Htx as [-> | ->]; cbn [exec].
    + pose proof (write_tx_touches obs now (rc_db r)) as Ht.
      by destruct (write_tx NewID obs now (rc_db r)).
    + apply close_tx_touches.
Qed.
End Store.

(** ** Calls *)

Section Calling.
Context `{Unicode} (NewID : nat -> string).

Lemma authoriseScope_None inv scope obs :
  authoriseScope inv scope obs = None ->
  codes_of inv obs <> [] /\
  forall code, code ∈ codes_of inv obs -> ToLower (TrimSpace code) ∈ scope.
Proof.
  unfold authoriseScope, codes_of. destruct (entityEnvironments _ _ _) as [e|codes]; [done|].
  destruct (AllowsAll scope codes) eqn:E; [|done]. intros _. by apply AllowsAll_spec.
Qed.

Lemma authoriseScope_found inv scope obs : authoriseScope inv scope obs <> Some ErrNotFound.
Proof.
  unfold authoriseScope, entityEnvironments. by repeat case_match; simplify_eq.
Qed.

(** The ways a call can go: refused before anything was read or written, queued
    as drift, or authorised and applied. *)
Inductive recorded (inv : Inventory) (now : Time) (actor : Actor) (scope : EnvironmentScope)
    (spec : ObservationSpec) (r : ObservedRecorder) :
    StoreError + ObservationResult -> ObservedRecorder -> Prop :=
  | recorded_refused e :
      e <> Wrapped ErrNotFound -> recorded inv now actor scope spec r (inl e) r
  | recorded_unmatched id obs :
      observationReporter actor = inr id -> NewObservation spec id now = inr obs ->
      observableExists inv (ob_EntityType obs) (ob_EntityID obs) = inr false ->
      recorded inv now actor scope spec r (inl (Wrapped ErrNotFound))
        (with_db r (unmatched_tx NewID obs now (rc_db r)))
  | recorded_applied id obs res r' :
      observationReporter actor = inr id -> NewObservation spec id now = inr obs ->
      observableExists inv (ob_EntityType obs) (ob_EntityID obs) = inr true ->
      authoriseScope inv scope obs = None -> applied NewID obs now r res r' ->
      res <> inl (Wrapped ErrNotFound) ->
      recorded inv now actor scope spec r res r'.

Lemma applyObservation_error commits obs now r e :
  fst (applyObservation NewID commits obs now r) = inl e -> e = DatabaseError.
Proof.
  unfold applyObservation, writeThrough, closeSettledEpisode, buffer, observedTx.
  repeat case_match; cbn; congruence.
Qed.

Lemma RecordObservation_recorded inv faults now actor scope spec r :
  recorded inv now actor scope spec r
    (fst (RecordObservation NewID inv faults now actor scope spec r))
    (snd (RecordObservation NewID inv faults now actor scope spec r)).
Proof.
  unfold RecordObservation. destruct (observationReporter actor) as [ve|id] eqn:Ha; [by constructor|].
  destruct (ScopeEmpty scope); [by constructor|].
  destruct (NewObservation spec id now) as [ve|obs] eqn:Ho; [by constructor|].
  destruct (ft_reads faults); cbn [negb]; [|by constructor].
  destruct (observableExists inv _ _) as [e|[]] eqn:Hx.
  - constructor. intros [= ->]. unfold observableExists in Hx. by repeat case_match.
  - destruct (authoriseScope inv scope obs) as [e|] eqn:Hs.
    + constructor. intros [= ->]. by apply authoriseScope_found in Hs.
    + eapply recorded_applied; [done..|apply applyObservation_applied|].
      intros ?%applyObservation_error. done.
  - destruct (ft_writes faults); cbn [observedTx fst snd].
    + by eapply recorded_unmatched.
    + rewrite with_db_same. by constructor.
Qed.

Lemma observationReporter_agent actor id :
  observationReporter actor = inr id -> ac_Kind actor = ActorKindAgent /\ CredentialID actor = Some id.
Proof.
  unfold observationReporter. destruct (ValidateActor actor); [done|].
  destruct (CredentialID actor) eqn:E; [|done]. intros [= ->]. split; [|done].
  unfold CredentialID, IsAgent in E. by destruct (String.eqb_spec (ac_Kind actor) ActorKindAgent).
Qed.

(** ** The properties *)

(** C8. What a credential may write about. A call of RecordObservation either is
    refused and changes nothing, or its actor is a monitoring agent, the report
    is attributed to that agent's credential, and everything it changes is that
    credential's own reading of the entity: no other row, no other buffered
    bump, and the ledger only gains rows of that reading. When the entity is
    missing the health table, the ledger and the buffer are as they were;
    otherwise the inventory holds the entity, it sits in at least one
    environment, and every one of them is in the credential's scope. *)
Theorem RecordObservation_authorised inv faults now actor scope spec r :
  let '(res, r') := RecordObservation NewID inv faults now actor scope spec r in
  ((exists e, res = inl e /\ e <> Wrapped ErrNotFound) /\ r' = r) \/
  exists id obs,
    ac_Kind actor = ActorKindAgent /\ CredentialID actor = Some id /\
    NewObservation spec id now = inr obs /\ ob_Reporter obs = TrimSpace id /\
    touches (obs_key obs) r r' /\
    match res with
    | inl (Wrapped ErrNotFound) =>
      observableExists inv (ob_EntityType obs) (ob_EntityID obs) = inr false /\
      db_health (rc_db r') = db_health (rc_db r) /\ db_ledger (rc_db r') = db_ledger (rc_db r) /\
      rc_pending r' = rc_pending r
    | _ =>
      observableExists inv (ob_EntityType obs) (ob_EntityID obs) = inr true /\
      codes_of inv obs <> [] /\
      forall code, code ∈ codes_of inv obs -> ToLower (TrimSpace code) ∈ scope
    end.
Proof.
  pose proof (RecordObservation_recorded inv faults now actor scope spec r) as H1.
  destruct (RecordObservation NewID inv faults now actor scope spec r) as [res r']. cbn in H1.
  destruct H1 as [e He|id obs Ha Ho Hx|id obs res r' Ha Ho Hx Hs Hap Hne]; [left; eauto|right..];
    exists id, obs; destruct (observationReporter_agent _ _ Ha) as [Hk Hid];
    pose proof (NewObservation_inv _ _ _ _ Ho) as (_ & _ & _ & _ & Hr & _);
    do 4 (split; [done|]).
  - split; [split; [apply unmatched_tx_touches|done]|].
    split; [done|]. unfold unmatched_tx. cbn. by case_match.
  - split; [by eapply applied_touches|].
    assert (Hin : observableExists inv (ob_EntityType obs) (ob_EntityID obs) = inr true /\
      codes_of inv obs <> [] /\
      forall code, code ∈ codes_of inv obs -> ToLower (TrimSpace code) ∈ scope)
      by (split; [done|by apply authoriseScope_None]).
    destruct res as [[|[]|]|]; done.
Qed.

(** ** Histories *)

Definition pending_ok (r : ObservedRecorder) : Prop := map_Forall (fun _ b => bump_ok b) (rc_pending r).

Lemma NewObservation_ok spec id now obs : NewObservation spec id now = inr obs -> obs_ok obs.
Proof.
  intros Ho. pose proof (NewObservation_inv _ _ _ _ Ho) as (Ht & Hin & _ & _ & _ & _ & Hs & _ & Hi & _).
  split_and!; [by rewrite Ht|done|lia].
Qed.

Lemma restore_nothing pending : restore pending ∅ = pending.
Proof.
  unfold restore. induction pending as [|k b m Hm Hfst IH] using map_first_key_ind; [done|].
  rewrite map_fold_insert_first_key by done. rewrite IH, Hm. done.
Qed.

Lemma Flush_txs commits r :
  pending_ok r ->
  exists txs, Forall tx_ok txs /\ exec_all NewID txs (rc_db r) = ([], rc_db (snd (Flush commits r))) /\
    pending_ok (snd (Flush commits r)).
Proof.
  intros Hp. unfold Flush. destruct (size (rc_pending r) =? 0)%nat.
  - exists []. split; [constructor|]. split; [done|apply map_Forall_empty].
  - destruct commits; cbn [observedTx snd].
    + exists [TxFlush (rc_pending r)]. split; [by apply Forall_singleton|].
      split; [done|apply map_Forall_empty].
    + exists []. split; [constructor|]. split; [done|]. unfold pending_ok. cbn. by rewrite restore_nothing.
Qed.

Lemma applied_txs obs now r res r' :
  obs_ok obs -> pending_ok r -> applied NewID obs now r res r' ->
  (exists txs, Forall tx_ok txs /\
    exec_all NewID txs (rc_db r) = (option_list (answered_change res), rc_db r')) /\ pending_ok r'.
Proof.
  intros Hobs Hp [res' Ha|res' pending Ha Hp'|res' tx Htx Ha]; rewrite ?Ha.
  - split; [|done]. by exists [].
  - split; [by exists []|]. destruct Hp' as [-> | ->]; [done|].
    apply map_Forall_insert_2; [|done]. by destruct Hobs as (_ & _ & ?).
  - split; [|by apply map_Forall_delete]. exists [tx].
    split; [apply Forall_singleton; by destruct Htx as [-> | ->]|].
    cbn. destruct (exec NewID tx (rc_db r)) as [[k|] db']; done.
Qed.

Lemma call_txs c r :
  pending_ok r ->
  let '(change, r') := call NewID c r in
  (exists txs, Forall tx_ok txs /\ exec_all NewID txs (rc_db r) = (option_list change, rc_db r')) /\
  pending_ok r'.
Proof.
  intros Hp. destruct c as [inv faults now actor scope spec|commits]; cbn [call].
  - pose proof (RecordObservation_recorded inv faults now actor scope spec r) as H1.
    destruct (RecordObservation NewID inv faults now actor scope spec r) as [res r']. cbn in H1.
    destruct H1 as [e _|id obs Ha Ho _|id obs res r' Ha Ho _ _ Hap _].
    + split; [|done]. by exists [].
    + split; [|done]. exists [TxUnmatched obs now].
      split; [apply Forall_singleton; by eapply NewObservation_ok|done].
    + by eapply applied_txs; [eapply NewObservation_ok|..].
  - destruct (Flush_txs commits r Hp) as (txs & Hok & He & Hp'). split; [by exists txs|done].
Qed.

Lemma exec_all_app txs txs' db :
  exec_all NewID (txs ++ txs') db =
  let '(changes, db') := exec_all NewID txs db in
  let '(changes', db'') := exec_all NewID txs' db' in (changes ++ changes', db'').
Proof.
  revert db. induction txs as [|tx txs IH]; intros db; cbn [exec_all app].
  - by destruct (exec_all NewID txs' db).
  - destruct (exec NewID tx db) as [change db1]. rewrite IH.
    destruct (exec_all NewID txs db1) as [ch db2]. destruct (exec_all NewID txs' db2) as [ch' db3].
    by destruct change.
Qed.

Lemma run_calls_txs cs r :
  pending_ok r ->
  let '(changes, r') := run_calls NewID cs r in
  exists txs, Forall tx_ok txs /\ exec_all NewID txs (rc_db r) = (changes, rc_db r') /\ pending_ok r'.
Proof.
  revert r. induction cs as [|c cs IH]; intros r Hp; cbn [run_calls]; [by exists []|].
  pose proof (call_txs c r Hp) as Hc. destruct (call NewID c r) as [change r1].
  destruct Hc as [(txs & Hok & He) Hp1]. specialize (IH r1 Hp1).
  destruct (run_calls NewID cs r1) as [changes r2]. destruct IH as (txs' & Hok' & He' & Hp2).
  exists (txs ++ txs'). split; [by apply Forall_app|]. split; [|done].
  rewrite exec_all_app, He, He'. by destruct change.
Qed.

(** The calls of the recorder implement the transactions of the ledger. Any
    history of RecordObservation calls, by any actors with any scopes, payloads
    and database faults, and of flushes, leaves the tables a sequence of valid
    transactions leaves, and the calls answered as state changes are the changes
    of that sequence, in order; so the account a reader keeps of any reading, from
    the ledger rows and the open episode, grows by exactly the changes answered. *)
Theorem calls_are_transactions cs r k :
  pending_ok r -> db_ok (rc_db r) ->
  let '(changes, r') := run_calls NewID cs r in
  (exists txs, Forall tx_ok txs /\ exec_all NewID txs (rc_db r) = (changes, rc_db r')) /\
  accounted k (rc_db r') =
    accounted k (rc_db r) + Z.of_nat (count_if (fun k' => bool_decide (k' = k)) changes).
Proof.
  intros Hp Hdb. pose proof (run_calls_txs cs r Hp) as Hc.
  destruct (run_calls NewID cs r) as [changes r']. destruct Hc as (txs & Hok & He & _).
  split; [by exists txs|]. pose proof (exec_all_ok NewID txs (rc_db r) Hdb Hok) as H1.
  rewrite He in H1. by destruct H1 as [_ ->].
Qed.

(** ** The drift queue *)

Lemma queued_by_insert rep key row db :
  queued_by rep {| db_health := db_health db; db_ledger := db_ledger db;
                   db_unmatched := <[key := row]> (db_unmatched db); db_ids := S (db_ids db) |} =
  queued_by rep db + (if String.eqb (um_Reporter row) rep then 1 else 0) -
  match db_unmatched db !! key with
  | Some e => if String.eqb (um_Reporter e) rep then 1 else 0
  | None => 0
  end.
Proof.
  unfold queued_by. cbn [db_unmatched]. destruct (db_unmatched db !! key) as [e|] eqn:E.
  - rewrite <- (insert_delete_eq (db_unmatched db)), (map_to_list_insert _ _ _ (lookup_delete_eq _ _)).
    rewrite <- (map_to_list_delete _ _ _ E), !count_if_cons. cbn [snd]. repeat case_match; lia.
  - rewrite (map_to_list_insert _ _ _ E), count_if_cons. cbn [snd]. repeat case_match; lia.
Qed.

Lemma unmatched_tx_queued rep obs now db :
  queued_by rep db <= MaxUnmatchedPerReporter ->
  queued_by rep (unmatched_tx NewID obs now db) <= MaxUnmatchedPerReporter.
Proof.
  intros Hq. unfold unmatched_tx. destruct (Z.leb_spec MaxUnmatchedPerReporter (queued_by (ob_Reporter obs) db));
    [done|].
  unfold upsertUnmatched. rewrite queued_by_insert.
  destruct (db_unmatched db !! obs_key obs) as [e|]; cbn [um_Reporter]; [lia|].
  destruct (String.eqb_spec (ob_Reporter obs) rep) as [<-|_]; lia.
Qed.

Lemma bumpHealth_unmatched key bump db : db_unmatched (bumpHealth key bump db) = db_unmatched db.
Proof. unfold bumpHealth. by repeat case_match. Qed.

Lemma record_plan_unmatched key current plan to at_ db :
  db_unmatched (record_plan NewID key current plan to at_ db) = db_unmatched db.
Proof. unfold record_plan. by destruct (pl_closing plan), (pl_opens plan), (pl_emit plan). Qed.

(** Only reports about missing entities reach the queue. *)
Lemma exec_queued rep tx db :
  queued_by rep db <= MaxUnmatchedPerReporter ->
  queued_by rep (snd (exec NewID tx db)) <= MaxUnmatchedPerReporter.
Proof.
  intros Hq. destruct tx as [obs now|obs now|pending|obs now]; cbn [exec].
  - enough (Hu : db_unmatched (snd (write_tx NewID obs now db)) = db_unmatched db).
    { destruct (write_tx NewID obs now db) as [out db']. cbn in *. unfold queued_by. by rewrite Hu. }
    destruct (classify obs (readHealth (obs_key obs) db)) eqn:Hc.
    + rewrite (write_tx_change NewID obs now db Hc). apply (record_plan_unmatched _ _ _ _ _ (with_health _ db)).
    + unfold write_tx. rewrite Hc. apply bumpHealth_unmatched.
    + unfold write_tx. by rewrite Hc.
    + unfold write_tx. by rewrite Hc.
  - enough (Hu : db_unmatched (snd (close_tx NewID obs now db)) = db_unmatched db)
      by (unfold queued_by; cbn [snd]; by rewrite Hu).
    unfold close_tx. destruct (readHealth _ db); [|done].
    destruct (FlapSettled _ now); cbn [snd]; by rewrite bumpHealth_unmatched.
  - enough (Hu : db_unmatched (flush_tx pending db) = db_unmatched db)
      by (unfold queued_by; cbn [snd]; by rewrite Hu).
    unfold flush_tx. revert db Hq. induction (isort _ _) as [|kb l IH]; intros db Hq; [done|].
    cbn [foldl]. rewrite IH; unfold queued_by; by rewrite bumpHealth_unmatched.
  - by apply unmatched_tx_queued.
Qed.

(** The drift queue is bounded per credential, whatever refs the credential
    makes up: after any history of calls by any credentials no reporter has more
    than MaxUnmatchedPerReporter rows, and the rows of the tables satisfy the
    schema. *)
Theorem drift_queue_bounded cs :
  let '(_, r) := run_calls NewID cs {| rc_db := empty_db; rc_pending := ∅ |} in
  (forall reporter, queued_by reporter (rc_db r) <= MaxUnmatchedPerReporter) /\ db_ok (rc_db r).
Proof.
  pose proof (run_calls_txs cs {| rc_db := empty_db; rc_pending := ∅ |} (map_Forall_empty _)) as Hc.
  destruct (run_calls NewID cs _) as [changes r]. destruct Hc as (txs & Hok & He & _). split.
  - intros rep. assert (Hq : queued_by rep empty_db <= MaxUnmatchedPerReporter) by done.
    cbn [rc_db] in He. replace (rc_db r) with (snd (exec_all NewID txs empty_db)) by (by rewrite He).
    clear He Hok. revert Hq. generalize empty_db. induction txs as [|tx txs IH]; intros db Hq; [done|].
    cbn [exec_all]. pose proof (exec_queued rep tx db Hq) as Hq'.
    destruct (exec NewID tx db) as [change db']. specialize (IH db' Hq').
    by destruct (exec_all NewID txs db').
  - pose proof (exec_all_ok NewID txs empty_db empty_db_ok Hok) as Hok'. cbn [rc_db] in He.
    rewrite He in Hok'. apply Hok'.
Qed.
End Calling.

(** * Samples *)

Definition sample_inventory : Inventory :=
  {| inv_assets := {["a1"]}; inv_instances := ∅; inv_environments := {["a1" := ["dev"; "prod"]]} |}.

Definition sample_agent : Actor :=
  {| ac_ID := "monitor:probe"; ac_Name := "monitor:probe"; ac_Kind := ActorKindAgent |}.

Definition sample_calls : list Call :=
  [CallRecord sample_inventory {| ft_reads := true; ft_writes := true |} ten_o_clock sample_agent
     ["dev"; "prod"] (sample_spec "2026-08-01T10:00:00Z");
   CallRecord sample_inventory {| ft_reads := true; ft_writes := true |} ten_o_clock sample_agent
     ["dev"] (sample_spec "2026-08-01T09:00:00Z");
   CallFlush true].

Lemma calls_are_transactions_witness :
  let r := {| rc_db := empty_db; rc_pending := ∅ |} in
  let '(changes, r') := run_calls (H := ascii_tables) sample_id sample_calls r in
  changes = [sample_key] /\ accounted sample_key (rc_db r') = 1.
Proof.
  cbv zeta. pose proof (calls_are_transactions (H := ascii_tables) sample_id sample_calls
    {| rc_db := empty_db; rc_pending := ∅ |} sample_key (map_Forall_empty _) empty_db_ok) as Hc.
  destruct (run_calls _ _ _) as [changes r'] eqn:E. destruct Hc as [_ Hc].
  rewrite Hc. vm_compute in E. by injection E as <- _.
Defined.
