(* ===== verification/Permits.v ===== *)
(** Who may write what: [internal/domain/role.go], and the decisions of
    [internal/auth/auth.go] and [internal/auth/permit.go].

    A permit is the authorization every write transaction runs under. It is a
    value of one of three kinds, and a nil interface is [None] where the code
    tests for it. [ProjectResolver] is the slice of the store the authorizer
    reads; [Projects] implements it. *)
From Stdlib Require Import String Ascii ZArith Lia.
From stdpp Require Import base gmap strings list.
From S2P Require Import Prelude Text Errors Actors.

#[local] Open Scope string_scope.
#[local] Open Scope list_scope.

(** * Definitions *)

(** ** Scope classes *)

(** The four classes; the zero value, which nothing in the table has, is
    [None] in [ScopeClassOf]. *)
Inductive ScopeClass := ScopeProjectLinked | ScopeSubjectDerived | ScopeEstateConfig | ScopeTopology.

#[export] Instance ScopeClass_eq_dec : EqDecision ScopeClass.
Proof. solve_decision. Defined.

Definition entityScope : gmap string ScopeClass :=
  list_to_map [
    ("asset", ScopeProjectLinked); ("service", ScopeProjectLinked); ("circuit",
    ScopeProjectLinked); ("app_user", ScopeEstateConfig); ("custom_field", ScopeEstateConfig);
    ("device_type", ScopeEstateConfig); ("device_type_component", ScopeEstateConfig);
    ("environment", ScopeEstateConfig); ("identity", ScopeEstateConfig); ("inflation_rate",
    ScopeEstateConfig); ("manufacturer", ScopeEstateConfig); ("project", ScopeEstateConfig);
    ("project_asset", ScopeEstateConfig); ("project_circuit", ScopeEstateConfig);
    ("project_service", ScopeEstateConfig); ("provider", ScopeEstateConfig); ("tag",
    ScopeEstateConfig); ("team", ScopeEstateConfig); ("user_project", ScopeEstateConfig);
    ("saved_view", ScopeSubjectDerived); ("dependency", ScopeSubjectDerived); ("link",
    ScopeSubjectDerived); ("asset_cost", ScopeSubjectDerived); ("asset_kind",
    ScopeEstateConfig); ("service_kind", ScopeEstateConfig); ("interface_form_factor",
    ScopeEstateConfig); ("environment_role", ScopeEstateConfig); ("ip_address_role",
    ScopeEstateConfig); ("data_class", ScopeEstateConfig); ("container_engine",
    ScopeEstateConfig); ("cost_kind", ScopeEstateConfig); ("responsibility_role",
    ScopeEstateConfig); ("storage_kind", ScopeEstateConfig); ("wireless_security",
    ScopeEstateConfig); ("observed_transition", ScopeEstateConfig); ("unmatched_observation",
    ScopeEstateConfig); ("aggregate", ScopeTopology); ("asn", ScopeTopology); ("backend_member",
    ScopeTopology); ("backend_pool", ScopeTopology); ("cable_bundle", ScopeTopology);
    ("certificate", ScopeTopology); ("circuit_cost", ScopeTopology); ("circuit_termination",
    ScopeTopology); ("cluster", ScopeTopology); ("endpoint", ScopeTopology); ("fhrp_group",
    ScopeTopology); ("health_override", ScopeTopology); ("interface", ScopeSubjectDerived);
    ("ip_address", ScopeSubjectDerived); ("ip_range", ScopeTopology); ("journal_entry",
    ScopeSubjectDerived); ("l2vpn", ScopeTopology); ("l2vpn_termination", ScopeTopology);
    ("net_anchor", ScopeTopology); ("net_attachment", ScopeTopology); ("net_group",
    ScopeTopology); ("net_group_member", ScopeTopology); ("net_uplink", ScopeTopology);
    ("port_pass_through", ScopeTopology); ("power_feed", ScopeTopology); ("power_input",
    ScopeTopology); ("power_panel", ScopeTopology); ("power_source", ScopeTopology); ("prefix",
    ScopeTopology); ("project_cost", ScopeTopology); ("rir", ScopeTopology); ("route",
    ScopeTopology); ("rt_container", ScopeTopology); ("rt_k8s", ScopeTopology); ("rt_systemd",
    ScopeTopology); ("rt_windows", ScopeTopology); ("service_cost", ScopeTopology);
    ("service_instance", ScopeSubjectDerived); ("vlan", ScopeTopology); ("vlan_group",
    ScopeTopology); ("wireless_lan", ScopeTopology)].

Definition ScopeClassOf (entityType : string) : option ScopeClass := entityScope !! entityType.

(** ** Permits *)

(** A nil inner map answers false, as a missing one does. *)
Definition ScopedEntities := gmap string (gmap string bool).

(** [ScopedEntities.covers] *)
Definition covers (e : ScopedEntities) (entityType entityID : string) : bool :=
  default false (e !! entityType ≫= fun ids => ids !! entityID).

Inductive Permit :=
  | administratorPermit (actor : Actor)
  | systemPermit (reason : string)
  | scopedPermit (actor : Actor) (projects : list string) (entities : ScopedEntities).

(** [Permit.Actor] *)
Definition PermitActor (p : Permit) : Actor :=
  match p with
  | administratorPermit a => a
  | systemPermit _ => SystemActor
  | scopedPermit a _ _ => a
  end.

Definition projectLinkTables : gmap string string :=
  list_to_map [("project_asset", "asset"); ("project_service", "service"); ("project_circuit", "circuit")].

(** [linkedEntityFromID] *)
Definition linkedEntityFromID (entityType entityID : string) : option (string * string * string) :=
  match projectLinkTables !! entityType with
  | None => None
  | Some linkedType =>
      match cut "/" entityID with
      | Some (projectID, linkedID) => Some (projectID, linkedType, linkedID)
      | None => None
      end
  end.

(** [scopedPermit.holdsProject] *)
Definition holdsProject (projects : list string) (projectID : string) : bool :=
  existsb (fun id => String.eqb id projectID) projects.

(** [Permit.Covers] *)
Definition Covers (p : Permit) (entityType entityID : string) : bool :=
  match p with
  | administratorPermit _ => true
  | systemPermit _ => negb (String.eqb entityType "app_user")
  | scopedPermit _ projects entities =>
      match ScopeClassOf entityType with
      | Some ScopeProjectLinked | Some ScopeSubjectDerived => covers entities entityType entityID
      | Some ScopeEstateConfig | Some ScopeTopology | None =>
          match linkedEntityFromID entityType entityID with
          | Some (projectID, linkedType, linkedID) =>
              holdsProject projects projectID && covers entities linkedType linkedID
          | None => false
          end
      end
  end.

(** [PermitHoldsProject] *)
Definition PermitHoldsProject (p : option Permit) (projectID : string) : bool :=
  match p with
  | Some (administratorPermit _) | Some (systemPermit _) => true
  | Some (scopedPermit _ projects _) => holdsProject projects projectID
  | None => false
  end.

(** ** Users and roles *)

Definition RoleAdministrator := "administrator".
Definition RoleObserver := "observer".
Definition RoleProjectOwner := "project_owner".
Definition Roles := [RoleAdministrator; RoleObserver; RoleProjectOwner].

Record AppUser := {
  us_ID : string; us_Username : string; us_DisplayName : option string; us_Email : option string;
  us_Source : string; us_PasswordHash : option string; us_IsActive : bool;
  us_LastLoginAt : option string; us_CreatedAt : string; us_Role : string; us_CanSeeCosts : bool;
  us_Subject : option string
}.

(** [AppUser.ValidateRole] *)
Definition ValidateRole (u : AppUser) : option ValidationError :=
  OrNil (checkEnum [] "role" (us_Role u) Roles).

(** [UserActor] *)
Definition UserActor (u : AppUser) : Actor :=
  {| ac_ID := us_ID u; ac_Name := us_Username u; ac_Kind := ActorKindUser |}.

(** [ProjectResolver]: the reads of the store the authorizer makes; [None] is a
    failed read. *)
Class ProjectResolver (S : Type) := {
  ProjectsForUser : S -> string -> option (list string);
  AssetIDsForProjects : S -> list string -> option (list string);
  ServiceIDsForProjects : S -> list string -> option (list string);
  CircuitIDsForProjects : S -> list string -> option (list string)
}.

(** The [admins] of [Authorizer]. *)
Definition Authorizer := gset string.

Section Authorization.
Context `{Unicode}.

(** [NewAuthorizer] *)
Definition NewAuthorizer (adminUsers : list string) : Authorizer :=
  list_to_set ((fun u => ToLower (TrimSpace u)) <$> adminUsers).

(** [Authorizer.isAdministrator] *)
Definition isAdministrator (a : Authorizer) (user : AppUser) : bool :=
  bool_decide (ToLower (us_Username user) ∈ a) || String.eqb (us_Role user) RoleAdministrator.

(** [Authorizer.IsAdministrator] *)
Definition IsAdministrator (a : Authorizer) (user : option AppUser) : bool :=
  match user with
  | Some u => us_IsActive u && isAdministrator a u
  | None => false
  end.

(** [Authorizer.EnvOverride] *)
Definition EnvOverride (a : Authorizer) (user : option AppUser) : bool :=
  match user with Some u => bool_decide (ToLower (us_Username u) ∈ a) | None => false end.

(** [Authorizer.CanWrite] *)
Definition CanWrite (a : Authorizer) (user : option AppUser) : bool :=
  match user with
  | Some u => us_IsActive u && (isAdministrator a u || String.eqb (us_Role u) RoleProjectOwner)
  | None => false
  end.

(** [Authorizer.CanRead] *)
Definition CanRead (user : option AppUser) : bool :=
  match user with Some u => us_IsActive u | None => false end.

(** [Authorizer.CanSeeCosts] *)
Definition CanSeeCosts (a : Authorizer) (user : option AppUser) : bool :=
  match user with
  | Some u => us_IsActive u && (isAdministrator a u || us_CanSeeCosts u)
  | None => false
  end.

(** [idSet] *)
Definition idSet (ids : list string) : gmap string bool := list_to_map ((fun id => (id, true)) <$> ids).

Section Minting.
Context {S : Type} `{ProjectResolver S}.

(** [Authorizer.Permit] *)
Definition MintPermit (a : Authorizer) (store : S) (user : option AppUser) : StoreError + Permit :=
  match user with
  | None => inl (Wrapped ErrForbidden)
  | Some u =>
      if negb (us_IsActive u) then inl (Wrapped ErrForbidden)
      else if isAdministrator a u then inr (administratorPermit (UserActor u))
      else if negb (String.eqb (us_Role u) RoleProjectOwner) then inl (Wrapped ErrForbidden)
      else
        match ProjectsForUser store (us_ID u) with
        | None => inl DatabaseError
        | Some projectIDs =>
            match AssetIDsForProjects store projectIDs, ServiceIDsForProjects store projectIDs,
                  CircuitIDsForProjects store projectIDs with
            | Some assetIDs, Some serviceIDs, Some circuitIDs =>
                inr (scopedPermit (UserActor u) projectIDs
                  (list_to_map [("asset", idSet assetIDs); ("service", idSet serviceIDs);
                                ("circuit", idSet circuitIDs)]))
            | _, _, _ => inl DatabaseError
            end
        end
  end.
End Minting.
End Authorization.

(** * Lemmas *)

Lemma covers_spec e t id : covers e t id = true <-> exists ids, e !! t = Some ids /\ ids !! id = Some true.
Proof.
  unfold covers. destruct (e !! t) as [ids|]; cbn; [|split; [done|by intros (? & [=] & _)]].
  destruct (ids !! id) as [[]|] eqn:E; cbn; split; try done; [by eauto| |];
    intros (ids' & [= <-] & E'); congruence.
Qed.

Lemma idSet_lookup ids id : idSet ids !! id = Some true <-> id ∈ ids.
Proof.
  unfold idSet. induction ids as [|a ids IH]; cbn.
  - rewrite lookup_empty. split; [done|by intros ?%elem_of_nil].
  - rewrite elem_of_cons. destruct (decide (id = a)) as [->|Hne].
    + rewrite lookup_insert_eq. split; auto.
    + rewrite lookup_insert_ne by done. rewrite IH. naive_solver.
Qed.

Lemma holdsProject_elem ps p : holdsProject ps p = true <-> p ∈ ps.
Proof.
  unfold holdsProject. rewrite existsb_elem_of. split.
  - by intros (a & Ha & ->%String.eqb_eq).
  - intros Hp. exists p. split; [done|apply String.eqb_refl].
Qed.

Lemma cut_iff sep s b a : cut sep s = Some (b, a) <-> s = b +++ String sep a /\ contains sep b = false.
Proof. split; [apply cut_spec|]. intros [-> Hb]. by apply cut_app. Qed.

(** The three types a project links to, each with its link table. *)
Definition linkable : list (string * string) :=
  [("asset", "project_asset"); ("service", "project_service"); ("circuit", "project_circuit")].

Lemma linkedEntityFromID_spec t id P ty e :
  linkedEntityFromID t id = Some (P, ty, e) <->
  (ty, t) ∈ linkable /\ id = P +++ String "/" e /\ contains "/" P = false.
Proof.
  unfold linkedEntityFromID.
  assert (Hl : forall ty', projectLinkTables !! t = Some ty' <-> (ty', t) ∈ linkable).
  { intros ty'. unfold projectLinkTables. rewrite <- elem_of_list_to_map by (vm_compute; repeat constructor; set_solver).
    unfold linkable. rewrite !elem_of_cons, !elem_of_nil. naive_solver. }
  destruct (projectLinkTables !! t) as [ty'|] eqn:E.
  - destruct (cut "/" id) as [[b a]|] eqn:Ec.
    + rewrite cut_iff in Ec. rewrite <- Hl. split; [intros [= <- <- <-]; by split|].
      intros (Ht & -> & Hb). destruct Ec as [Ec1 Ec2].
      assert (H2 : cut "/" (P +++ String "/" e) = Some (b, a)) by (by apply cut_iff).
      rewrite cut_app in H2 by done. congruence.
    + split; [done|]. intros (_ & -> & Hb). by rewrite cut_app in Ec.
  - split; [done|]. intros (Ht%Hl & _). congruence.
Qed.

(** What a scoped permit covers, in one line per kind of row. *)
Lemma scoped_Covers a ps es t id :
  Covers (scopedPermit a ps es) t id = true <->
  ((ScopeClassOf t = Some ScopeProjectLinked \/ ScopeClassOf t = Some ScopeSubjectDerived) /\
   covers es t id = true) \/
  (exists P ty e, (ty, t) ∈ linkable /\ id = P +++ String "/" e /\ contains "/" P = false /\
     P ∈ ps /\ covers es ty e = true).
Proof.
  assert (Hlink : forall P ty e, linkedEntityFromID t id = Some (P, ty, e) ->
    ScopeClassOf t = Some ScopeEstateConfig).
  { intros P ty e (Hin & _)%linkedEntityFromID_spec. unfold linkable in Hin.
    rewrite !elem_of_cons, elem_of_nil in Hin.
    destruct Hin as [[= -> ->]|[[= -> ->]|[[= -> ->]|[]]]]; vm_compute; reflexivity. }
  assert (Hrest : match linkedEntityFromID t id with
      | Some (P, ty, e) => holdsProject ps P && covers es ty e
      | None => false
      end = true <->
    exists P ty e, (ty, t) ∈ linkable /\ id = P +++ String "/" e /\ contains "/" P = false /\
      P ∈ ps /\ covers es ty e = true).
  { destruct (linkedEntityFromID t id) as [[[P ty] e]|] eqn:E.
    - apply linkedEntityFromID_spec in E as (Hin & Hid & Hs). rewrite andb_true_iff, holdsProject_elem.
      split; [intros [HP He]; by exists P, ty, e|].
      intros (P' & ty' & e' & Hin' & Hid' & Hs' & HP & He).
      assert (E1 := proj2 (linkedEntityFromID_spec t id P ty e) (conj Hin (conj Hid Hs))).
      assert (E2 := proj2 (linkedEntityFromID_spec t id P' ty' e') (conj Hin' (conj Hid' Hs'))).
      rewrite E1 in E2. by injection E2 as -> -> ->.
    - split; [done|]. intros (P & ty & e & Hin & Hid & Hs & _).
      by rewrite (proj2 (linkedEntityFromID_spec t id P ty e) (conj Hin (conj Hid Hs))) in E. }
  cbn [Covers]. destruct (ScopeClassOf t) as [[]|] eqn:Hc; try rewrite Hrest.
  1, 2: split; [by left; auto|intros [[_ ?]|(P & ty & e & Hin & Hid & Hs & _)]; [done|]];
    discriminate (Hlink _ _ _ (proj2 (linkedEntityFromID_spec t id P ty e) (conj Hin (conj Hid Hs)))).
  all: split; [by right|by intros [[[|] _]|?]].
Qed.

(** The entities of a permit for the three linkable types. *)
Lemma covers_three assets services circuits t id :
  covers (list_to_map [("asset", idSet assets); ("service", idSet services);
                       ("circuit", idSet circuits)]) t id = true <->
  (t = "asset" /\ id ∈ assets) \/ (t = "service" /\ id ∈ services) \/ (t = "circuit" /\ id ∈ circuits).
Proof.
  rewrite covers_spec, <- !idSet_lookup. split.
  - intros (ids & Ht & Hid). apply elem_of_list_to_map_2 in Ht.
    rewrite !elem_of_cons, elem_of_nil in Ht. naive_solver.
  - intros [[-> Hi]|[[-> Hi]|[-> Hi]]]; eexists; (split; [|exact Hi]); reflexivity.
Qed.

(** ** What a minted permit reaches *)

Section Reach.
Context `{Unicode} {S : Type} `{ProjectResolver S}.

(** A permit says what a person may write and nothing else. One is minted only
    for an active user, who is its actor. An administrator, by role or by name
    in the break-glass list, writes everything. A project owner writes exactly
    the assets, services and circuits linked to the projects they are assigned
    to, and the link rows between those projects and those entities; no other
    type of row, and no link row that has only one of its halves in scope. *)
Theorem MintPermit_reach a store user p :
  MintPermit a store user = inr p ->
  exists u, user = Some u /\ us_IsActive u = true /\ PermitActor p = UserActor u /\
    if isAdministrator a u then forall t id, Covers p t id = true
    else us_Role u = RoleProjectOwner /\
      exists projects assets services circuits,
        ProjectsForUser store (us_ID u) = Some projects /\
        AssetIDsForProjects store projects = Some assets /\
        ServiceIDsForProjects store projects = Some services /\
        CircuitIDsForProjects store projects = Some circuits /\
        let linked t id := (t = "asset" /\ id ∈ assets) \/ (t = "service" /\ id ∈ services) \/
                           (t = "circuit" /\ id ∈ circuits) in
        forall t id, Covers p t id = true <->
          linked t id \/
          exists project entity ty, (ty, t) ∈ linkable /\ id = project +++ String "/" entity /\
            contains "/" project = false /\ project ∈ projects /\ linked ty entity.
Proof.
  unfold MintPermit. destruct user as [u|]; [|done]. intros Hm. exists u.
  destruct (us_IsActive u); cbn [negb] in Hm; [|done].
  destruct (isAdministrator a u) eqn:Ha; [by injection Hm as <-|].
  destruct (String.eqb_spec (us_Role u) RoleProjectOwner) as [Hr|]; cbn [negb] in Hm; [|done].
  destruct (ProjectsForUser store (us_ID u)) as [projects|] eqn:E1; [|done].
  destruct (AssetIDsForProjects store projects) as [assets|] eqn:E2; [|done].
  destruct (ServiceIDsForProjects store projects) as [services|] eqn:E3; [|done].
  destruct (CircuitIDsForProjects store projects) as [circuits|] eqn:E4; [|done].
  injection Hm as <-. do 3 (split; [done|]). split; [done|].
  exists projects, assets, services, circuits. do 4 (split; [done|]). cbv zeta.
  pose proof (covers_three assets services circuits) as Hcov.
  intros t id. rewrite scoped_Covers, Hcov. split.
  - intros [[_ Hc]|(P & ty & e & Hin & Hid & Hs & HP & He)]; [by left|].
    right. exists P, e, ty. by rewrite <- Hcov.
  - intros [Hl|(P & e & ty & Hin & Hid & Hs & HP & He)].
    + left. split; [|done]. left. destruct Hl as [[-> _]|[[-> _]|[-> _]]]; vm_compute; reflexivity.
    + right. exists P, ty, e. by rewrite Hcov.
Qed.

(** ** Roles in order *)

Definition with_role (r : string) (u : AppUser) : AppUser :=
  {| us_ID := us_ID u; us_Username := us_Username u; us_DisplayName := us_DisplayName u;
     us_Email := us_Email u; us_Source := us_Source u; us_PasswordHash := us_PasswordHash u;
     us_IsActive := us_IsActive u; us_LastLoginAt := us_LastLoginAt u; us_CreatedAt := us_CreatedAt u;
     us_Role := r; us_CanSeeCosts := us_CanSeeCosts u; us_Subject := us_Subject u |}.

(** Observer, project owner, administrator. *)
Definition role_rank (r : string) : nat :=
  if String.eqb r RoleAdministrator then 2 else if String.eqb r RoleProjectOwner then 1 else 0.

(** A demotion never widens anything. Whatever a person may do in a role of
    lower rank they may do in one of higher rank: reach a write route, see
    costs, act as administrator, and write any row their permit covers. An
    inactive account may do nothing in any role, even when it is named in the
    break-glass list. *)
Theorem demotion_never_widens a store u r r' :
  role_rank r <= role_rank r' ->
  let low := Some (with_role r u) in let high := Some (with_role r' u) in
  (CanWrite a low = true -> CanWrite a high = true) /\
  (CanSeeCosts a low = true -> CanSeeCosts a high = true) /\
  (IsAdministrator a low = true -> IsAdministrator a high = true) /\
  (forall p p' t id, MintPermit a store low = inr p -> MintPermit a store high = inr p' ->
     Covers p t id = true -> Covers p' t id = true) /\
  (CanWrite a low = false -> MintPermit a store low = inl (Wrapped ErrForbidden)) /\
  (us_IsActive u = false -> CanWrite a high = false /\ CanSeeCosts a high = false /\
     MintPermit a store high = inl (Wrapped ErrForbidden)).
Proof.
  unfold role_rank, MintPermit, CanWrite, CanSeeCosts, IsAdministrator, isAdministrator.
  cbn [with_role us_IsActive us_Username us_Role us_CanSeeCosts us_ID].
  destruct (us_IsActive u); cbn [andb negb]; [|by intros _; split_and!].
  destruct (bool_decide (ToLower (us_Username u) ∈ a)); cbn [orb]; [by intros _; split_and!; naive_solver|].
  destruct (String.eqb r RoleAdministrator), (String.eqb r' RoleAdministrator),
    (String.eqb r RoleProjectOwner), (String.eqb r' RoleProjectOwner); cbn [orb negb];
    intros Hle; try lia; split_and!; try done.
  all: intros p p' t id Hp Hp' Hc; (by simplify_eq) || idtac.
  all: assert (Heq : inr p = inr p' :> StoreError + Permit) by (rewrite <- Hp, <- Hp'; reflexivity);
    by injection Heq as <-.
Qed.
End Reach.

(** * Samples *)

(** A store in which a project has two assets and everybody owns it. *)
#[local] Instance sample_resolver : ProjectResolver unit := {
  ProjectsForUser _ _ := Some ["p1"];
  AssetIDsForProjects _ _ := Some ["a1"; "a2"];
  ServiceIDsForProjects _ _ := Some [];
  CircuitIDsForProjects _ _ := Some []
}.

#[local] Instance sample_tables : Unicode := {| lower_unicode := ascii_lower; quote_unicode := fun s => s |}.

Definition sample_user (role : string) : AppUser :=
  {| us_ID := "u1"; us_Username := "ada"; us_DisplayName := None; us_Email := None; us_Source := "local";
     us_PasswordHash := None; us_IsActive := true; us_LastLoginAt := None;
     us_CreatedAt := "2026-08-01T10:00:00Z"; us_Role := role; us_CanSeeCosts := false; us_Subject := None |}.

Lemma MintPermit_reach_witness :
  exists p, MintPermit ∅ tt (Some (sample_user RoleProjectOwner)) = inr p /\
    Covers p "project_asset" "p1/a2" = true /\ Covers p "project_asset" "p1/a3" = false /\
    Covers p "app_user" "u1" = false.
Proof.
  destruct (MintPermit ∅ tt (Some (sample_user RoleProjectOwner))) as [e|p] eqn:E;
    [vm_compute in E; discriminate E|].
  destruct (MintPermit_reach ∅ tt _ p E) as (u & [= <-] & _ & _ & H1).
  replace (isAdministrator ∅ (sample_user RoleProjectOwner)) with false in H1 by (vm_compute; reflexivity).
  destruct H1 as (_ & projects & assets & services & circuits & [= <-] & [= <-] & [= <-] & [= <-] & H1).
  exists p. split; [done|]. split; [|split].
  - apply H1. right. exists "p1", "a2", "asset". do 3 (split; [(left || reflexivity)|]).
    split; [left|]. left. split; [reflexivity|right; left].
  - vm_compute in E. injection E as <-. vm_compute. reflexivity.
  - vm_compute in E. injection E as <-. vm_compute. reflexivity.
Defined.

Lemma demotion_never_widens_witness :
  CanWrite ∅ (Some (sample_user RoleAdministrator)) = true.
Proof.
  destruct (demotion_never_widens ∅ tt (sample_user "") RoleProjectOwner RoleAdministrator) as [H1 _];
    [vm_compute; repeat constructor|]. apply H1. vm_compute. reflexivity.
Defined.
