(* ===== verification/ChangeLog.v ===== *)
(** Audited writes: the diffs of [internal/store/diff.go], the redaction table
    of [internal/domain/errors.go], and the write transactions of
    [internal/store/store.go].

    A declared mutation runs in a transaction that carries a permit, and every
    row it adds to the change log passes the permit first. A transaction is a
    function of its environment and state that fails or returns; [writeTx] runs
    one and keeps its state only when it commits. A diff is kept as the map that
    the code renders as JSON; reflection over a Go struct is a walk over
    [Struct], its columns with their [db] tags and its embedded structs. *)
From Stdlib Require Import String Ascii ZArith Lia Qcanon.
From stdpp Require Import base gmap strings list.
From S2P Require Import Prelude Text Errors Timestamps Actors Permits.

#[local] Open Scope string_scope.
#[local] Open Scope list_scope.

(** * Definitions *)

(** ** Values and structs *)

(** A column's value after [deref]: a nil pointer is [VNull]. A [float64] is the number
    it stands for. *)
Inductive Value := VNull | VText (s : string) | VInt (z : Z) | VBool (b : bool) | VNum (q : Qc).

#[export] Instance Value_eq_dec : EqDecision Value.
Proof. solve_decision. Defined.

(** [deref] of an optional column. *)
Definition text_or_null (s : option string) : Value := match s with Some v => VText v | None => VNull end.
Definition int_or_null (z : option Z) : Value := match z with Some v => VInt v | None => VNull end.

Inductive Struct := MkStruct (name : string) (fields : list Field)
with Field := Column (tag : string) (value : Value) | Embedded (s : Struct).

Definition struct_name (s : Struct) : string := match s with MkStruct name _ => name end.

(** [auditField] *)
Record auditField := { af_value : Value; af_entity : string }.

(** The tags the walk leaves out. *)
Definition skipped (tag : string) : bool :=
  String.eqb tag "" || String.eqb tag "-" || String.eqb tag "updated_at" || String.eqb tag "row_version".

(** [auditFields] *)
Fixpoint auditFields (s : Struct) (out : gmap string auditField) : gmap string auditField :=
  match s with
  | MkStruct name fields =>
      (fix walk (fs : list Field) (out : gmap string auditField) : gmap string auditField :=
         match fs with
         | [] => out
         | Embedded s' :: fs' => walk fs' (auditFields s' out)
         | Column tag v :: fs' =>
             walk fs' (if skipped tag then out
                       else <[tag := {| af_value := v; af_entity := name |}]> out)
         end) fields out
  end.

Definition audited (s : Struct) : gmap string auditField := auditFields s ∅.

(** ** Redaction *)

Definition RedactedFields : gset string :=
  list_to_set ["password_hash"; "secret_ref"; "contact_ref"; "key_ref"; "psk_ref"; "subject"].

Definition RedactedFieldsByEntity : gmap string (gset string) :=
  list_to_map [("AppUser", list_to_set ["username"; "display_name"; "email"]);
               ("SavedView", list_to_set ["params"])].

(** [IsRedacted] *)
Definition IsRedacted (entity column : string) : bool :=
  bool_decide (column ∈ RedactedFields) || bool_decide (column ∈ default ∅ (RedactedFieldsByEntity !! entity)).

Definition Redacted : Value := VText "[redacted]".

(** ** Diffs *)

(** [fieldChange] *)
Record fieldChange := { fc_Old : Value; fc_New : Value }.

(** One turn of the loop of [diffJSON]. *)
Definition field_change (before after : option auditField) : option fieldChange :=
  match after with
  | None => None
  | Some a =>
      let old := match before with Some b => af_value b | None => VNull end in
      if decide (old = af_value a) then None
      else Some {| fc_Old := old; fc_New := af_value a |}
  end.

Definition mask_change (name : string) (after : option auditField) (c : fieldChange) : fieldChange :=
  match after with
  | Some a => if IsRedacted (af_entity a) name then {| fc_Old := Redacted; fc_New := Redacted |} else c
  | None => c
  end.

(** [diffJSON]: [inl] for two types, [None] when nothing changed. *)
Definition diffJSON (before after : Struct) : unit + option (gmap string fieldChange) :=
  if negb (String.eqb (struct_name before) (struct_name after)) then inl tt
  else
    let beforeFields := audited before in
    let afterFields := audited after in
    let changes := map_imap (fun name a =>
      mask_change name (Some a) <$> field_change (beforeFields !! name) (Some a)) afterFields in
    inr (if decide (changes = ∅) then None else Some changes).

(** [snapshotJSON] *)
Definition snapshotJSON (entity : Struct) : gmap string Value :=
  map_imap (fun name f => Some (if IsRedacted (af_entity f) name then Redacted else af_value f))
    (audited entity).

(** ** The change log *)

Definition ActionCreate := "create".
Definition ActionUpdate := "update".
Definition ActionDelete := "delete".
Definition ActionRetire := "retire".
Definition ChangeActions := [ActionCreate; ActionUpdate; ActionDelete; ActionRetire].

(** The [diff] column: what is rendered as JSON, or a text written out in the
    code. *)
Inductive Diff :=
  | Snapshot (fields : gmap string Value)
  | Changes (fields : gmap string fieldChange)
  | Literal (text : string).

(** A row of [change_log]. *)
Record ChangeRow := {
  cr_ID : string; cr_EntityType : string; cr_EntityID : string; cr_Action : string;
  cr_Actor : string; cr_ActorKind : string; cr_Diff : Diff; cr_BatchID : option string; cr_At : string
}.

(** ** Transactions *)

(** The tables of the component that writes, the log, and the identifiers used. *)
Record Store (T : Type) := MkStore { st_tables : T; st_log : list ChangeRow; st_ids : nat }.
Arguments MkStore {T}.
Arguments st_tables {T}.
Arguments st_log {T}.
Arguments st_ids {T}.

(** [tx], apart from the connection. *)
Record TxEnv := { tx_permit : option Permit; tx_actor : Actor; tx_at : string }.

Definition Tx (T A : Type) := TxEnv -> Store T -> StoreError + (A * Store T).

#[export] Instance Tx_ret T : MRet (Tx T) := fun A a env st => inr (a, st).
#[export] Instance Tx_bind T : MBind (Tx T) := fun A B f m env st =>
  match m env st with inl e => inl e | inr (a, st') => f a env st' end.

(** Leave the transaction with an error. *)
Definition fail {T A} (e : StoreError) : Tx T A := fun env st => inl e.

(** A statement that reads, and one that writes or is refused. *)
Definition query {T A} (f : T -> A) : Tx T A := fun env st => inr (f (st_tables st), st).
Definition statement {T} (f : T -> StoreError + T) : Tx T unit := fun env st =>
  match f (st_tables st) with
  | inl e => inl e
  | inr tables => inr (tt, MkStore tables (st_log st) (st_ids st))
  end.

Section Transactions.
Context (NewID : nat -> string) {T : Type}.

(** [NewID] inside a transaction. *)
Definition newID : Tx T string := fun env st =>
  inr (NewID (st_ids st), MkStore (st_tables st) (st_log st) (S (st_ids st))).

(** [tx.authorize] *)
Definition authorize (entityType entityID : string) : Tx T unit := fun env st =>
  match tx_permit env with
  | Some p => if Covers p entityType entityID then inr (tt, st) else inl (Wrapped ErrForbidden)
  | None => inl (Wrapped ErrForbidden)
  end.

(** The one [INSERT INTO change_log]. *)
Definition insert_change (id entityType entityID action : string) (diff : Diff) (batchID : string)
    : Tx T unit := fun env st =>
  inr (tt, MkStore (st_tables st)
    (st_log st ++ [{| cr_ID := id; cr_EntityType := entityType; cr_EntityID := entityID;
       cr_Action := action; cr_Actor := ac_ID (tx_actor env); cr_ActorKind := ac_Kind (tx_actor env);
       cr_Diff := diff; cr_BatchID := if String.eqb batchID "" then None else Some batchID;
       cr_At := tx_at env |}]) (st_ids st)).

(** [tx.log] *)
Definition log (entityType entityID action : string) (diff : Diff) (batchID : string) : Tx T unit :=
  _ ← authorize entityType entityID;
  id ← newID;
  insert_change id entityType entityID action diff batchID.

(** [tx.logCreateBatch] and [tx.logCreate] *)
Definition logCreateBatch (entityType entityID : string) (entity : Struct) (batchID : string) : Tx T unit :=
  log entityType entityID ActionCreate (Snapshot (snapshotJSON entity)) batchID.
Definition logCreate (entityType entityID : string) (entity : Struct) : Tx T unit :=
  logCreateBatch entityType entityID entity "".

(** [tx.logUpdateBatch] and [tx.logUpdate] *)
Definition logUpdateBatch (entityType entityID : string) (before after : Struct) (batchID : string)
    : Tx T unit :=
  _ ← authorize entityType entityID;
  match diffJSON before after with
  | inl _ => fail DatabaseError
  | inr None => mret tt
  | inr (Some diff) => log entityType entityID ActionUpdate (Changes diff) batchID
  end.
Definition logUpdate (entityType entityID : string) (before after : Struct) : Tx T unit :=
  logUpdateBatch entityType entityID before after "".

(** What becomes of an attempt: it commits if its body allows, fails on the way,
    or loses a race the engine detects. *)
Inductive Fate := Commits | Aborts | Races.

(** [SQLStore.writeTx] *)
Definition writeTx {A} (fate : Fate) (p : option Permit) (now : Time) (fn : Tx T A) (st : Store T)
    : (StoreError + A) * Store T :=
  let env := {| tx_permit := p;
                tx_actor := match p with Some p => PermitActor p
                            | None => {| ac_ID := ""; ac_Name := ""; ac_Kind := "" |} end;
                tx_at := FormatTime now |} in
  match fate with
  | Commits => match fn env st with inl e => (inl e, st) | inr (a, st') => (inr a, st') end
  | Aborts | Races => (inl DatabaseError, st)
  end.

(** [SQLStore.write] *)
Definition write {A} (fate : Fate) (p : option Permit) (now : Time) (fn : Tx T A) (st : Store T)
    : (StoreError + A) * Store T := writeTx fate p now fn st.

(** The loop of [SQLStore.writeSerializable], with [k] attempts left. *)
Fixpoint attempts {A} (k : nat) (fates : nat -> Fate) (p : option Permit) (now : Time) (fn : Tx T A)
    (st : Store T) : (StoreError + A) * Store T :=
  match k with
  | O => (inl DatabaseError, st)
  | S k' => match fates k with
            | Races => attempts k' fates p now fn st
            | f => writeTx f p now fn st
            end
  end.

(** [SQLStore.writeSerializable] *)
Definition writeSerializable {A} (fates : nat -> Fate) (p : option Permit) (now : Time) (fn : Tx T A)
    (st : Store T) : (StoreError + A) * Store T := attempts 3 fates p now fn st.
End Transactions.

(** ** Reading the log back *)

(** The masked columns after an entry: a create sets them, an update moves the
    ones it names. *)
Definition replay_step (m : gmap string Value) (d : Diff) : gmap string Value :=
  match d with
  | Snapshot fields => fields
  | Changes fields => (fc_New <$> fields) ∪ m
  | Literal _ => m
  end.

Definition replay (ds : list Diff) : gmap string Value := foldl replay_step ∅ ds.

(** The entries about one row, in the order they were written. *)
Definition entries_of (entityType entityID : string) (log : list ChangeRow) : list Diff :=
  cr_Diff <$> List.filter (fun r => String.eqb (cr_EntityType r) entityType && String.eqb (cr_EntityID r) entityID) log.

(** * Lemmas *)

(** ** Shapes *)

(** A struct's type: its columns without their values. *)
Fixpoint shape (s : Struct) : Struct :=
  match s with
  | MkStruct name fields =>
      MkStruct name ((fix walk (fs : list Field) : list Field :=
        match fs with
        | [] => []
        | Column tag _ :: fs' => Column tag VNull :: walk fs'
        | Embedded s' :: fs' => Embedded (shape s') :: walk fs'
        end) fields)
  end.

Lemma auditFields_shape : forall s out out',
  af_entity <$> out = af_entity <$> out' ->
  af_entity <$> auditFields s out = af_entity <$> auditFields (shape s) out'.
Proof.
  fix IH 1. intros [name fs]. cbn [auditFields shape].
  induction fs as [|[tag v|s'] fs IHfs]; intros out out' Ho; [done| |].
  - apply IHfs. destruct (skipped tag); [done|]. by rewrite !fmap_insert, Ho.
  - apply IHfs. by apply IH.
Qed.

Lemma struct_name_shape s : struct_name (shape s) = struct_name s.
Proof. by destruct s. Qed.

Lemma audited_shape s s' : shape s = shape s' -> af_entity <$> audited s = af_entity <$> audited s'.
Proof.
  intros Hs. unfold audited. rewrite (auditFields_shape s ∅ ∅), (auditFields_shape s' ∅ ∅) by done.
  by rewrite Hs.
Qed.

(** Two rows of one type have the same columns, owned by the same structs. *)
Lemma audited_columns s s' name : shape s = shape s' ->
  match audited s !! name, audited s' !! name with
  | Some f, Some f' => af_entity f = af_entity f'
  | None, None => True
  | _, _ => False
  end.
Proof.
  intros Hs%audited_shape. pose proof (f_equal (fun m => m !! name) Hs) as Hn. cbn in Hn.
  rewrite !lookup_fmap in Hn. by destruct (audited s !! name), (audited s' !! name); simplify_eq.
Qed.

(** ** Diffs, column by column *)

Definition masked (name : string) (f : auditField) : Value :=
  if IsRedacted (af_entity f) name then Redacted else af_value f.

Lemma snapshotJSON_lookup s name : snapshotJSON s !! name = masked name <$> audited s !! name.
Proof. unfold snapshotJSON. rewrite map_lookup_imap. by destruct (audited s !! name). Qed.

Definition column_change (b a : Struct) (name : string) : option fieldChange :=
  match audited a !! name with
  | Some f => mask_change name (Some f) <$> field_change (audited b !! name) (Some f)
  | None => None
  end.

Definition changes_of (b a : Struct) : gmap string fieldChange :=
  map_imap (fun name f => mask_change name (Some f) <$> field_change (audited b !! name) (Some f))
    (audited a).

Lemma changes_of_lookup b a name : changes_of b a !! name = column_change b a name.
Proof. unfold changes_of, column_change. rewrite map_lookup_imap. by destruct (audited a !! name). Qed.

Lemma diffJSON_same b a : shape b = shape a ->
  diffJSON b a = inr (if decide (changes_of b a = ∅) then None else Some (changes_of b a)).
Proof.
  intros Hs. unfold diffJSON. rewrite <- (struct_name_shape b), <- (struct_name_shape a), Hs.
  by rewrite String.eqb_refl.
Qed.

(** A diff moves the masked columns of the row it was taken from to those of the
    row it was taken to. *)
Lemma changes_of_moves b a : shape b = shape a ->
  (fc_New <$> changes_of b a) ∪ snapshotJSON b = snapshotJSON a.
Proof.
  intros Hs. apply map_eq. intros name. rewrite lookup_union, lookup_fmap, changes_of_lookup.
  rewrite !snapshotJSON_lookup. unfold column_change.
  pose proof (audited_columns b a name Hs) as Hc.
  destruct (audited b !! name) as [fb|] eqn:Eb, (audited a !! name) as [fa|] eqn:Ea; try done.
  unfold field_change, mask_change. cbn. unfold masked. rewrite Hc.
  destruct (decide (af_value fb = af_value fa)) as [Heq|Hne]; cbn.
  - rewrite Heq. by destruct (IsRedacted _ _).
  - by destruct (IsRedacted _ _).
Qed.

(** ** Reconstruction *)

Lemma entries_of_app t id l1 l2 : entries_of t id (l1 ++ l2) = entries_of t id l1 ++ entries_of t id l2.
Proof. unfold entries_of. by rewrite List.filter_app, fmap_app. Qed.

Lemma replay_app ds d : replay (ds ++ [d]) = replay_step (replay ds) d.
Proof. unfold replay. by rewrite foldl_app. Qed.

(** An update of a row whose entries gave its columns: one entry, or none when no
    audited column changes, and they give the columns of the row it leaves. *)
Lemma replay_update ds b a d :
  shape b = shape a -> replay ds = snapshotJSON b -> diffJSON b a = inr d ->
  replay (ds ++ match d with Some d => [Changes d] | None => [] end) = snapshotJSON a.
Proof.
  intros Hs Hr Hd. pose proof (changes_of_moves b a Hs) as Hm. rewrite diffJSON_same in Hd by done.
  destruct (decide (changes_of b a = ∅)) as [He|Hne]; injection Hd as <-.
  - rewrite app_nil_r, Hr, <- Hm, He, fmap_empty. by rewrite (left_id ∅ (∪)).
  - by rewrite replay_app, Hr.
Qed.

(** ** Redaction *)

(** Two rows of one type that differ at most in redacted columns. *)
Definition visibly_equal (s s' : Struct) : Prop :=
  shape s = shape s' /\
  forall name f f', audited s !! name = Some f -> audited s' !! name = Some f' ->
    IsRedacted (af_entity f) name = false -> af_value f = af_value f'.

Definition column_value (s : Struct) (name : string) : option Value := af_value <$> audited s !! name.

Lemma visibly_equal_masked s s' name :
  visibly_equal s s' -> masked name <$> audited s !! name = masked name <$> audited s' !! name.
Proof.
  intros [Hs Hv]. pose proof (audited_columns s s' name Hs) as Hc. specialize (Hv name).
  destruct (audited s !! name) as [f|], (audited s' !! name) as [f'|]; try done.
  cbn. f_equal. unfold masked. rewrite <- Hc. destruct (IsRedacted _ _) eqn:E; [done|]. by apply Hv.
Qed.

Lemma visibly_equal_snapshot s s' :
  shape s = shape s' -> snapshotJSON s = snapshotJSON s' -> visibly_equal s s'.
Proof.
  intros Hs Hj. split; [done|]. intros name f f' Hf Hf' Hr.
  pose proof (audited_columns s s' name Hs) as Hc. rewrite Hf, Hf' in Hc.
  pose proof (snapshotJSON_lookup s name) as H1. rewrite Hj, snapshotJSON_lookup, Hf, Hf' in H1.
  injection H1 as H1. unfold masked in H1. rewrite <- Hc, Hr in H1. done.
Qed.

(** No secret reaches the log. The entries written for a row depend on its
    redacted columns only through whether they changed: two rows that agree on
    the other columns have the same creation entry, and two updates that agree
    on the other columns, and on which columns they change, the same update
    entry. *)
Theorem redacted_values_never_logged b a b' a' :
  shape b = shape a -> visibly_equal b b' -> visibly_equal a a' ->
  (forall name, column_value b name = column_value a name <-> column_value b' name = column_value a' name) ->
  snapshotJSON a = snapshotJSON a' /\ diffJSON b a = diffJSON b' a'.
Proof.
  intros Hs Hb Ha Hch. split.
  - apply map_eq. intros name. rewrite !snapshotJSON_lookup. by apply visibly_equal_masked.
  - assert (Hs' : shape b' = shape a') by (destruct Hb as [<- _], Ha as [<- _]; done).
    rewrite !diffJSON_same by done.
    enough (Heq : changes_of b a = changes_of b' a') by (by rewrite Heq).
    apply map_eq. intros name. rewrite !changes_of_lookup. unfold column_change.
    pose proof (audited_columns b a name Hs) as H1. pose proof (audited_columns b' a' name Hs') as H2.
    destruct Hb as [Hsb Hvb], Ha as [Hsa Hva].
    pose proof (audited_columns a a' name Hsa) as H3.
    specialize (Hvb name). specialize (Hva name). specialize (Hch name). unfold column_value in Hch.
    destruct (audited b !! name) as [fb|], (audited a !! name) as [fa|], (audited b' !! name) as [fb'|],
      (audited a' !! name) as [fa'|]; try done.
    cbn in *. unfold mask_change. rewrite <- H3.
    destruct (IsRedacted (af_entity fa) name) eqn:Hr.
    + assert (Hiff : af_value fb = af_value fa <-> af_value fb' = af_value fa').
      { destruct Hch as [H4 H5]. split; intros E; rewrite E in *;
          [specialize (H4 eq_refl)|specialize (H5 eq_refl)]; congruence. }
      by destruct (decide (af_value fb = af_value fa)), (decide (af_value fb' = af_value fa')); tauto.
    + by rewrite (Hvb fb fb'), (Hva fa fa') by congruence.
Qed.

(** ** Transactions *)

(** A row written under an environment: its permit covers the row's entity, and
    the row carries the permit's actor and the transaction's clock. *)
Definition stamped (env : TxEnv) (r : ChangeRow) : Prop :=
  (exists p, tx_permit env = Some p /\ Covers p (cr_EntityType r) (cr_EntityID r) = true) /\
  cr_Actor r = ac_ID (tx_actor env) /\ cr_ActorKind r = ac_Kind (tx_actor env) /\ cr_At r = tx_at env.

(** A transaction whose every log row is authorised, and which uses no identifier
    twice. *)
Definition guarded {T A} (m : Tx T A) : Prop :=
  forall env st a st', m env st = inr (a, st') ->
    (exists rows, st_log st' = st_log st ++ rows /\ Forall (stamped env) rows) /\ st_ids st <= st_ids st'.

Lemma guarded_still {T} env (st st' : Store T) :
  st_log st' = st_log st -> st_ids st <= st_ids st' ->
  (exists rows, st_log st' = st_log st ++ rows /\ Forall (stamped env) rows) /\ st_ids st <= st_ids st'.
Proof. intros -> Hi. split; [|done]. exists []. by rewrite app_nil_r. Qed.

Section Guarded.
Context (NewID : nat -> string) {T : Type}.

Lemma guarded_ret {A} (a : A) : guarded (mret a : Tx T A).
Proof. intros env st a' st' [= <- <-]. by apply guarded_still. Qed.

Lemma guarded_bind {A B} (m : Tx T A) (f : A -> Tx T B) :
  guarded m -> (forall a, guarded (f a)) -> guarded (m ≫= f).
Proof.
  intros Hm Hf env st b st' Hb. unfold mbind, Tx_bind in Hb.
  destruct (m env st) as [e|[a st1]] eqn:E; [done|].
  destruct (Hm _ _ _ _ E) as [(l1 & E1 & F1) I1], (Hf _ _ _ _ _ Hb) as [(l2 & E2 & F2) I2].
  split; [|lia]. exists (l1 ++ l2). rewrite E2, E1, app_assoc. split; [done|by apply Forall_app].
Qed.

Lemma guarded_fail {A} e : guarded (fail e : Tx T A).
Proof. by intros env st a st'. Qed.

Lemma guarded_query {A} (f : T -> A) : guarded (query f).
Proof. intros env st a st' [= <- <-]. by apply guarded_still. Qed.

Lemma guarded_statement (f : T -> StoreError + T) : guarded (statement f).
Proof.
  intros env st a st'. unfold statement. destruct (f (st_tables st)); [done|]. intros [= <- <-].
  by apply guarded_still.
Qed.

Lemma guarded_newID : guarded (newID NewID : Tx T string).
Proof. intros env st a st' [= <- <-]. apply guarded_still; cbn; [done|lia]. Qed.

Lemma guarded_authorize t id : guarded (authorize t id : Tx T unit).
Proof.
  intros env st a st'. unfold authorize. repeat case_match; try done. intros [= <- <-].
  by apply guarded_still.
Qed.

Lemma guarded_log t id action d b : guarded (log NewID t id action d b : Tx T unit).
Proof.
  intros env st a st' Hl. unfold log, mbind, Tx_bind, authorize, newID, insert_change in Hl.
  destruct (tx_permit env) as [p|] eqn:Hp; [|done]. destruct (Covers p t id) eqn:Hc; [|done].
  injection Hl as <- <-. cbn. split; [|lia]. eexists. split; [done|]. apply Forall_singleton.
  split_and!; [|done..]. by exists p.
Qed.

Lemma guarded_logCreate t id e : guarded (logCreate NewID t id e : Tx T unit).
Proof. apply guarded_log. Qed.

Lemma guarded_logUpdate t id b a : guarded (logUpdate NewID t id b a : Tx T unit).
Proof.
  apply guarded_bind; [apply guarded_authorize|]. intros _.
  destruct (diffJSON b a) as [|[d|]]; [apply guarded_fail|apply guarded_log|apply guarded_ret].
Qed.

(** ** Inverting a transaction that returned *)

Lemma bind_inv {A B} (m : Tx T A) (f : A -> Tx T B) env st b st' :
  (m ≫= f) env st = inr (b, st') ->
  exists a st1, m env st = inr (a, st1) /\ f a env st1 = inr (b, st').
Proof. unfold mbind, Tx_bind. destruct (m env st) as [e|[a st1]] eqn:E; [done|]. eauto. Qed.

Lemma query_inv {A} (f : T -> A) env st a st' :
  query f env st = inr (a, st') -> a = f (st_tables st) /\ st' = st.
Proof. by intros [= <- <-]. Qed.

Lemma ret_inv {A} (a : A) env (st : Store T) b st' :
  (mret a : Tx T A) env st = inr (b, st') -> b = a /\ st' = st.
Proof. by intros [= <- <-]. Qed.

Lemma statement_inv (f : T -> StoreError + T) env st a st' :
  statement f env st = inr (a, st') -> exists e, f (st_tables st) = inr e /\ st_tables st' = e.
Proof. unfold statement. destruct (f (st_tables st)) as [|e]; [done|]. intros [= <- <-]. by exists e. Qed.

Lemma newID_inv env (st : Store T) id st' :
  newID NewID env st = inr (id, st') -> st_tables st' = st_tables st.
Proof. by intros [= <- <-]. Qed.

Lemma authorize_inv t id env (st : Store T) a st' :
  authorize t id env st = inr (a, st') ->
  (exists p, tx_permit env = Some p /\ Covers p t id = true) /\ st' = st.
Proof. unfold authorize. repeat case_match; try done. intros [= <- <-]. eauto. Qed.

Lemma log_inv t id action d b env (st : Store T) a st' :
  log NewID t id action d b env st = inr (a, st') ->
  (exists p, tx_permit env = Some p /\ Covers p t id = true) /\ st_tables st' = st_tables st.
Proof.
  unfold log. intros (x & st1 & [Hc ->]%authorize_inv & H1)%bind_inv. split; [done|].
  apply bind_inv in H1 as (y & st2 & H1%newID_inv & H2). by injection H2 as _ <-.
Qed.

Lemma logCreate_inv t id e env (st : Store T) a st' :
  logCreate NewID t id e env st = inr (a, st') ->
  (exists p, tx_permit env = Some p /\ Covers p t id = true) /\ st_tables st' = st_tables st.
Proof. apply log_inv. Qed.

Lemma logUpdate_inv t id b f env (st : Store T) a st' :
  logUpdate NewID t id b f env st = inr (a, st') ->
  (exists p, tx_permit env = Some p /\ Covers p t id = true) /\ st_tables st' = st_tables st.
Proof.
  intros (x & st1 & [Hc ->]%authorize_inv & H1)%bind_inv. split; [done|].
  destruct (diffJSON b f) as [|[d|]]; [done|by apply log_inv in H1 as [_ ?]|by apply ret_inv in H1 as [_ ->]].
Qed.

(** What a log statement that returned has written about each row. *)
Lemma log_entries t id action d b env (st : Store T) a st' :
  log NewID t id action d b env st = inr (a, st') ->
  st_tables st' = st_tables st /\
  forall t' id', entries_of t' id' (st_log st') = entries_of t' id' (st_log st) ++
    (if String.eqb t t' && String.eqb id id' then [d] else []).
Proof.
  intros Hl. unfold log, mbind, Tx_bind, authorize, newID, insert_change in Hl.
  destruct (tx_permit env) as [p|]; [|done]. destruct (Covers p t id); [|done]. injection Hl as <- <-.
  split; [done|]. intros t' id'. cbn [st_log]. rewrite entries_of_app. f_equal. unfold entries_of.
  cbn [List.filter cr_EntityType cr_EntityID]. by destruct (_ && _).
Qed.

Lemma logUpdate_entries t id s s' env (st : Store T) a st' :
  logUpdate NewID t id s s' env st = inr (a, st') ->
  exists d, diffJSON s s' = inr d /\ st_tables st' = st_tables st /\
  forall t' id', entries_of t' id' (st_log st') = entries_of t' id' (st_log st) ++
    (if String.eqb t t' && String.eqb id id' then match d with Some d => [Changes d] | None => [] end else []).
Proof.
  intros (x & st1 & [_ ->]%authorize_inv & H1)%bind_inv.
  destruct (diffJSON s s') as [|[d|]]; [done| |].
  - exists (Some d). split; [done|]. by eapply log_entries.
  - apply ret_inv in H1 as [_ ->]. exists None. split_and!; [done..|]. intros t' id'.
    destruct (_ && _); by rewrite app_nil_r.
Qed.

(** What [write] and [writeSerializable] have in common: they either change
    nothing or run the body once, to its end, under the permit. *)
Definition env_of (p : option Permit) (now : Time) : TxEnv :=
  {| tx_permit := p;
     tx_actor := match p with Some p => PermitActor p
                 | None => {| ac_ID := ""; ac_Name := ""; ac_Kind := "" |} end;
     tx_at := FormatTime now |}.

Inductive written_by {A} (p : option Permit) (now : Time) (fn : Tx T A) (st : Store T) :
    (StoreError + A) * Store T -> Prop :=
  | written_not e : written_by p now fn st (inl e, st)
  | written_once a st' : fn (env_of p now) st = inr (a, st') -> written_by p now fn st (inr a, st').

Lemma write_written {A} fate p now (fn : Tx T A) st : written_by p now fn st (write fate p now fn st).
Proof.
  unfold write, writeTx. fold (env_of p now). destruct fate; [|constructor..].
  destruct (fn (env_of p now) st) as [e|[a st']] eqn:E; by constructor.
Qed.

Lemma attempts_written {A} k fates p now (fn : Tx T A) st :
  written_by p now fn st (attempts k fates p now fn st).
Proof.
  induction k as [|k IH]; cbn [attempts]; [constructor|].
  destruct (fates (S k)); [apply (write_written Commits)|apply (write_written Aborts)|exact IH].
Qed.

Lemma writeSerializable_written {A} fates p now (fn : Tx T A) st :
  written_by p now fn st (writeSerializable fates p now fn st).
Proof. apply attempts_written. Qed.

Lemma written_log {A} p now (fn : Tx T A) st res st' :
  guarded fn -> written_by p now fn st (res, st') ->
  exists rows, st_log st' = st_log st ++ rows /\ Forall (stamped (env_of p now)) rows.
Proof.
  intros Hg Hw. remember (res, st') as out eqn:Ho. destruct Hw as [e|a st1 E]; simplify_eq.
  - exists []. by rewrite app_nil_r.
  - by apply (Hg _ _ _ _ E).
Qed.

Lemma written_ids {A} p now (fn : Tx T A) st out :
  guarded fn -> written_by p now fn st out -> st_ids st <= st_ids (snd out).
Proof. intros Hg [e|a st1 E]; [done|]. by apply (Hg _ _ _ _ E). Qed.

(** One of the attempts commits, those before it having lost a race. *)
Definition settles (fates : nat -> Fate) : Prop :=
  fates 3%nat = Commits \/
  (fates 3%nat = Races /\ (fates 2%nat = Commits \/ (fates 2%nat = Races /\ fates 1%nat = Commits))).

Lemma writeSerializable_settles {A} fates p now (fn : Tx T A) st :
  settles fates -> writeSerializable fates p now fn st = write Commits p now fn st.
Proof.
  intros Hs. unfold writeSerializable. cbn [attempts].
  destruct Hs as [->|[-> [->|[-> ->]]]]; reflexivity.
Qed.

(** What a log row says: of which row of the model, what happened and the [diff]. *)
Definition said (r : ChangeRow) : string * string * string * Diff :=
  (cr_EntityType r, cr_EntityID r, cr_Action r, cr_Diff r).

Lemma log_said t id action d b env (st : Store T) a st' :
  log NewID t id action d b env st = inr (a, st') ->
  exists rows, st_log st' = st_log st ++ rows /\ said <$> rows = [(t, id, action, d)].
Proof.
  unfold log. intros (x & s1 & [_ ->]%authorize_inv & H)%bind_inv.
  apply bind_inv in H as (y & s2 & H1 & H). injection H1 as _ <-. injection H as _ <-. by eexists [_].
Qed.

(** ** When they run *)

(** A log statement is refused under a permit that does not cover the row. *)
Lemma log_refused p now t id action d b (st : Store T) :
  Covers p t id = false ->
  log NewID t id action d b (env_of (Some p) now) st = inl (Wrapped ErrForbidden).
Proof. intros Hc. unfold log, mbind, Tx_bind, authorize. cbn [tx_permit env_of]. by rewrite Hc. Qed.

(** Log statements run under a permit that covers the row. *)
Lemma log_runs p now t id action d b (st : Store T) :
  Covers p t id = true ->
  exists st', log NewID t id action d b (env_of (Some p) now) st = inr (tt, st') /\
    st_tables st' = st_tables st.
Proof.
  intros Hc. unfold log, mbind, Tx_bind, authorize. cbn [tx_permit env_of]. rewrite Hc. by eexists.
Qed.

Lemma logCreate_runs p now t id s (st : Store T) :
  Covers p t id = true ->
  exists st', logCreate NewID t id s (env_of (Some p) now) st = inr (tt, st') /\ st_tables st' = st_tables st.
Proof. apply log_runs. Qed.

Lemma logUpdate_runs p now t id s s' (st : Store T) :
  Covers p t id = true -> shape s = shape s' ->
  exists st', logUpdate NewID t id s s' (env_of (Some p) now) st = inr (tt, st') /\ st_tables st' = st_tables st.
Proof.
  intros Hc Hs. unfold logUpdate, logUpdateBatch, mbind at 1, Tx_bind at 1, authorize.
  cbn [tx_permit env_of]. rewrite Hc, diffJSON_same by done.
  destruct (decide _); [by eexists|]. by apply log_runs.
Qed.
End Guarded.

Create HintDb tx.
#[export] Hint Resolve guarded_ret guarded_fail guarded_query guarded_statement guarded_newID
  guarded_authorize guarded_log guarded_logCreate guarded_logUpdate : tx.

(** A body is guarded when its statements are: through binds and tests. *)
Ltac guarding :=
  repeat first
    [ progress intros
    | solve [auto with tx]
    | apply guarded_bind
    | match goal with |- guarded (match ?x with _ => _ end) => destruct x end ].

(** Take a returned transaction apart, statement by statement. *)
Ltac tx_inv H :=
  cbv zeta in H;
  match type of H with
  | (_ ≫= _) _ _ = inr _ =>
      let a := fresh "a" in let st := fresh "st" in let H1 := fresh "Htx" in
      apply bind_inv in H as (a & st & H1 & H); tx_inv H1; tx_inv H
  | query _ _ _ = inr _ => apply query_inv in H as [? ?]; subst
  | mret _ _ _ = inr _ => apply ret_inv in H as [? ?]; subst
  | fail _ _ _ = inr _ => discriminate H
  | statement _ _ _ = inr _ => apply statement_inv in H as (? & H & ?)
  | newID _ _ _ = inr _ => apply newID_inv in H
  | log _ _ _ _ _ _ _ _ = inr _ => apply log_inv in H as [H ?]
  | logCreate _ _ _ _ _ _ = inr _ => apply logCreate_inv in H as [H ?]
  | logUpdate _ _ _ _ _ _ _ = inr _ => apply logUpdate_inv in H as [H ?]
  | _ => idtac
  end.

(** Follow the tables of the goal back through the statements taken apart. *)
Ltac follow_tables :=
  repeat match goal with E : st_tables ?s = _ |- context [st_tables ?s] => rewrite E end.

(** ** Samples *)

Definition sample_account (email : string) (active : bool) : Struct :=
  MkStruct "userAudit" [Embedded (MkStruct "AppUser"
    [Column "id" (VText "u1"); Column "email" (VText email); Column "is_active" (VBool active);
     Column "updated_at" (VText "2026-08-01T10:00:00Z")]); Column "note" VNull].

Lemma redacted_values_never_logged_witness :
  diffJSON (sample_account "a@example.org" true) (sample_account "b@example.org" false) =
  diffJSON (sample_account "c@example.org" true) (sample_account "d@example.org" false).
Proof.
  apply redacted_values_never_logged; [done| | |].
  - apply visibly_equal_snapshot; [done|vm_compute; reflexivity].
  - apply visibly_equal_snapshot; [done|vm_compute; reflexivity].
  - intros name. unfold column_value, audited.
    cbn [auditFields sample_account skipped String.eqb Ascii.eqb eqb orb].
    destruct (decide (name = "note")) as [->|H1]; [by vm_compute|].
    destruct (decide (name = "is_active")) as [->|H2]; [vm_compute; split; discriminate|].
    destruct (decide (name = "email")) as [->|H3]; [vm_compute; split; discriminate|].
    destruct (decide (name = "id")) as [->|H4]; [by vm_compute|].
    rewrite !lookup_insert_ne by done. done.
Defined.
