(* ===== verification/Retention.v ===== *)
(** Pruning what was observed: [internal/store/prune.go] and the retention floor of
    [internal/domain/observed.go].

    The only rows the program removes are those of the transition ledger and of the
    drift queue. A run over the ledger counts and deletes inside one transaction of
    the tables of the recorder; which environments are in scope is declared data,
    a set of environment codes beside the inventory. A run over the drift queue
    counts before its transaction, so its two states are separate arguments. *)
From Stdlib Require Import String Ascii ZArith Lia.
From stdpp Require Import base gmap strings list.
From S2P Require Import Prelude Text Errors Timestamps Actors Health Recorder Permits ChangeLog.

#[local] Open Scope string_scope.
#[local] Open Scope list_scope.
#[local] Open Scope Z_scope.

(** * Definitions *)

Definition MinInScopeRetentionDays : Z := 365.

(** [InScopeRetentionFloor] *)
Definition InScopeRetentionFloor (now : Time) : Time := now - MinInScopeRetentionDays * Day.

Definition prunableTable := "observed_transition".
Definition unmatchedTable := "unmatched_observation".

Record PruneOptions := { po_Before : Time; po_DryRun : bool }.

Record PruneReport := {
  pp_RunID : string; pp_Before : Time; pp_InScopeFloor : Time; pp_Deleted : Z; pp_Protected : Z;
  pp_DryRun : bool; pp_At : Time
}.

(** [PruneReport.FloorApplied] *)
Definition FloorApplied (r : PruneReport) : bool := TimeBefore (pp_InScopeFloor r) (pp_Before r).

(** What decides whether an entity is in scope. *)
Record Scoped := { sc_inventory : Inventory; sc_in_scope : gset string }.

(** [inScopeSubquery]: whether the entity is among the rows it selects. *)
Definition inScope (d : Scoped) (entityType entityID : string) : bool :=
  let asset_in_scope (asset : string) :=
    existsb (fun code => bool_decide (code ∈ sc_in_scope d))
      ((inv_environments (sc_inventory d)).[asset | []]) in
  if String.eqb entityType ObservableAsset then asset_in_scope entityID
  else if String.eqb entityType ObservableServiceInstance
  then match inv_instances (sc_inventory d) !! entityID with
       | Some host => asset_in_scope host
       | None => false
       end
  else false.

(** [pruneDelete] and [pruneDeletableCount]: the rows a run takes. *)
Definition deletable (d : Scoped) (entityType beforeText floorText : string) (t : ObservedTransition) : bool :=
  String.eqb (ot_EntityType t) entityType && str_ltb (ot_At t) beforeText &&
  (str_ltb (ot_At t) floorText || negb (inScope d entityType (ot_EntityID t))).

(** [pruneProtectedCount]: the rows the floor keeps. *)
Definition protected (d : Scoped) (entityType beforeText floorText : string) (t : ObservedTransition) : bool :=
  String.eqb (ot_EntityType t) entityType && str_ltb (ot_At t) beforeText &&
  negb (str_ltb (ot_At t) floorText) && inScope d entityType (ot_EntityID t).

Definition count_rows (f : ObservedTransition -> bool) (db : DB) : Z := Z.of_nat (count_if f (db_ledger db)).

Definition with_ledger (l : list ObservedTransition) (db : DB) : DB :=
  {| db_health := db_health db; db_ledger := l; db_unmatched := db_unmatched db; db_ids := db_ids db |}.

(** ** The audit entry *)

Definition quote_char : ascii := ascii_of_nat 34.
Definition json_text (s : string) : string := String quote_char (s +++ String quote_char "").
Definition json_pair (name value : string) : string := json_text name +++ ":" +++ value.

(** [pruneDiff] *)
Definition pruneDiff (r : PruneReport) : Diff :=
  Literal ("{" +++ json_pair "pruned" ("{" +++ String.concat ","
    [json_pair "table" (json_text prunableTable); json_pair "before" (json_text (FormatTime (pp_Before r)));
     json_pair "in_scope_floor" (json_text (FormatTime (pp_InScopeFloor r)));
     json_pair "in_scope_minimum_days" (Itoa MinInScopeRetentionDays);
     json_pair "deleted" (Itoa (pp_Deleted r)); json_pair "protected_in_scope" (Itoa (pp_Protected r))]
    +++ "}") +++ "}").

(** ** The runs *)

(** The checks both runs start with. *)
Definition check_prune (p : Permit) (opts : PruneOptions) (now : Time) : ValidationError :=
  let ve := if negb (String.eqb (ac_Kind (PermitActor p)) ActorKindUser)
    then Add [] "actor" ("a prune is an operator's act and is recorded as one; a " +++
           ac_Kind (PermitActor p) +++ " actor may not run it") else [] in
  let ve := if String.eqb (ac_ID (PermitActor p)) ""
    then Add ve "actor" "is required: the run records who did it" else ve in
  if po_Before opts =? zeroTime then Add ve "before" "is required: a prune with no cutoff is a truncate"
  else if TimeAfter (po_Before opts) now then Add ve "before" "must not be in the future" else ve.

(** The floor of a run. *)
Definition prune_floor (opts : PruneOptions) (now : Time) : Time :=
  let floor := InScopeRetentionFloor now in
  if TimeBefore (po_Before opts) floor then po_Before opts else floor.

Definition prune_report (id : string) (opts : PruneOptions) (now : Time) (deleted kept : Z) : PruneReport :=
  {| pp_RunID := id; pp_Before := po_Before opts; pp_InScopeFloor := prune_floor opts now;
     pp_Deleted := deleted; pp_Protected := kept; pp_DryRun := po_DryRun opts; pp_At := now |}.

Section Runs.
Context (NewID : nat -> string).

(** The loop of a real run: deleted and protected so far. *)
Fixpoint prune_types (d : Scoped) (beforeText floorText : string) (types : list string) (deleted kept : Z)
    : Tx DB (Z * Z) :=
  match types with
  | [] => mret (deleted, kept)
  | ty :: types' =>
      k ← query (count_rows (protected d ty beforeText floorText));
      n ← query (count_rows (deletable d ty beforeText floorText));
      _ ← statement (fun db => inr (with_ledger
            (List.filter (fun t => negb (deletable d ty beforeText floorText t)) (db_ledger db)) db));
      prune_types d beforeText floorText types' (deleted + n) (kept + k)
  end.

(** The loop of a dry run. *)
Definition count_types (d : Scoped) (beforeText floorText : string) (db : DB) : Z * Z :=
  foldl (fun '(n, k) ty => (n + count_rows (deletable d ty beforeText floorText) db,
                            k + count_rows (protected d ty beforeText floorText) db))
    (0, 0) ObservableEntityTypes.

(** [PruneObservedTransitions]; [reads] is whether the reads of a dry run succeed. *)
Definition PruneObservedTransitions (d : Scoped) (reads : bool) (fate : Fate) (p : Permit) (now : Time)
    (opts : PruneOptions) (st : Store DB) : (StoreError + PruneReport) * Store DB :=
  match OrNil (check_prune p opts now) with
  | Some ve => (inl (Invalid ve), st)
  | None =>
      let id := NewID (st_ids st) in
      let st := MkStore (st_tables st) (st_log st) (S (st_ids st)) in
      let beforeText := FormatTime (po_Before opts) in
      let floorText := FormatTime (prune_floor opts now) in
      if po_DryRun opts then
        if reads then
          let '(n, k) := count_types d beforeText floorText (st_tables st) in
          (inr (prune_report id opts now n k), st)
        else (inl DatabaseError, st)
      else
        write fate (Some p) now (
          counts ← prune_types d beforeText floorText ObservableEntityTypes 0 0;
          let report := prune_report id opts now (fst counts) (snd counts) in
          _ ← log NewID prunableTable id ActionDelete (pruneDiff report) "";
          mret report) st
  end.

(** [PruneUnmatchedObservations]: [counted] are the tables when it counts, [st] the
    store when its transaction begins. *)
Definition PruneUnmatchedObservations (reads : bool) (fate : Fate) (p : Permit) (now : Time)
    (opts : PruneOptions) (counted : DB) (st : Store DB) : (StoreError + PruneReport) * Store DB :=
  match OrNil (check_prune p opts now) with
  | Some ve => (inl (Invalid ve), st)
  | None =>
      let id := NewID (st_ids st) in
      let st := MkStore (st_tables st) (st_log st) (S (st_ids st)) in
      let cutoff := FormatTime (po_Before opts) in
      let old := fun row => str_ltb (um_LastSeenAt row) cutoff in
      let report :=
        {| pp_RunID := id; pp_Before := po_Before opts; pp_InScopeFloor := zeroTime;
           pp_Deleted := Z.of_nat (count_if (fun kv => old (snd kv)) (map_to_list (db_unmatched counted)));
           pp_Protected := 0; pp_DryRun := po_DryRun opts; pp_At := now |} in
      if negb reads then (inl DatabaseError, st)
      else if po_DryRun opts then (inr report, st)
      else
        write fate (Some p) now (
          _ ← statement (fun db => inr
                {| db_health := db_health db; db_ledger := db_ledger db;
                   db_unmatched := base.filter (fun kv => old (snd kv) = false) (db_unmatched db);
                   db_ids := db_ids db |});
          _ ← log NewID unmatchedTable id ActionDelete (pruneDiff report) "";
          mret report) st
  end.
End Runs.

(** Any number of runs over the ledger, each with the declared data, the clock, the
    request and the fate it met. *)
Record PruneRun := {
  rn_declared : Scoped; rn_reads : bool; rn_fate : Fate; rn_permit : Permit; rn_now : Time;
  rn_opts : PruneOptions
}.

Definition prune_all (NewID : nat -> string) (runs : list PruneRun) (st : Store DB) : Store DB :=
  foldl (fun st r => snd (PruneObservedTransitions NewID (rn_declared r) (rn_reads r) (rn_fate r) (rn_permit r)
                            (rn_now r) (rn_opts r) st)) st runs.

(** * Lemmas *)

Lemma count_if_filter {A} (f g : A -> bool) l :
  (forall x, f x = true -> g x = true) -> count_if f (List.filter g l) = count_if f l.
Proof.
  intros Hfg. induction l as [|x l IH]; [done|]. cbn [List.filter]. rewrite count_if_cons, <- IH.
  destruct (g x) eqn:E; [by rewrite count_if_cons|].
  destruct (f x) eqn:Ef; [by rewrite Hfg in E|done].
Qed.

Lemma count_if_orb {A} (f g : A -> bool) l :
  (forall x, f x = true -> g x = false) ->
  count_if (fun x => f x || g x) l = (count_if f l + count_if g l)%nat.
Proof.
  intros Hd. induction l as [|x l IH]; [done|]. rewrite !count_if_cons, IH. specialize (Hd x).
  destruct (f x); cbn [orb]; [rewrite Hd by done|]; lia.
Qed.

Lemma filter_pointwise {A} (f g : A -> bool) l :
  (forall x, f x = g x) -> List.filter f l = List.filter g l.
Proof. intros H. induction l as [|x l IH]; [done|]. cbn. by rewrite H, IH. Qed.

Lemma count_if_pointwise {A} (f g : A -> bool) l :
  (forall x, f x = g x) -> count_if f l = count_if g l.
Proof. intros H. unfold count_if. by rewrite (filter_pointwise f g). Qed.

Section Counting.
Context (d : Scoped) (b f : string).

Definition takes (types : list string) (t : ObservedTransition) : bool :=
  existsb (fun ty => deletable d ty b f t) types.
Definition protects (types : list string) (t : ObservedTransition) : bool :=
  existsb (fun ty => protected d ty b f t) types.

Lemma deletable_type ty t : deletable d ty b f t = true -> ot_EntityType t = ty.
Proof. unfold deletable. rewrite !andb_true_iff, String.eqb_eq. tauto. Qed.
Lemma protected_type ty t : protected d ty b f t = true -> ot_EntityType t = ty.
Proof. unfold protected. rewrite !andb_true_iff, String.eqb_eq. tauto. Qed.

Lemma takes_type types t : takes types t = true -> ot_EntityType t ∈ types.
Proof. intros (ty & Hty & <-%deletable_type)%existsb_elem_of. done. Qed.
Lemma protects_type types t : protects types t = true -> ot_EntityType t ∈ types.
Proof. intros (ty & Hty & <-%protected_type)%existsb_elem_of. done. Qed.

Lemma apart (p q : ObservedTransition -> bool) (ty : string) (types : list string) :
  ty ∉ types -> (forall t, p t = true -> ot_EntityType t = ty) ->
  (forall t, q t = true -> ot_EntityType t ∈ types) -> forall t, p t = true -> q t = false.
Proof.
  intros Hn Hp Hq t Ht. apply not_true_iff_false. intros Hqt. apply Hq in Hqt. by rewrite (Hp t Ht) in Hqt.
Qed.

(** The loop deletes what some type's statement deletes, and counts it. *)
Lemma prune_types_run types deleted kept env st :
  NoDup types ->
  prune_types d b f types deleted kept env st =
  inr ((deleted + count_rows (takes types) (st_tables st), kept + count_rows (protects types) (st_tables st)),
       MkStore (with_ledger (List.filter (fun t => negb (takes types t)) (db_ledger (st_tables st))) (st_tables st))
         (st_log st) (st_ids st)).
Proof.
  revert deleted kept st. induction types as [|ty types IH]; intros deleted kept [db lg ids] Hnd.
  - cbn. unfold count_rows. cbn [st_tables].
    assert (Hz : forall p : ObservedTransition -> bool, (forall t, p t = false) -> count_if p (db_ledger db) = 0%nat).
    { intros p Hp. unfold count_if. induction (db_ledger db); cbn; [done|]. by rewrite Hp. }
    rewrite !Hz by done. rewrite !Z.add_0_r. unfold mret, Tx_ret.
    unfold with_ledger. cbn. rewrite filter_all. by destruct db.
  - apply NoDup_cons in Hnd as [Hn Hnd]. cbn [prune_types]. unfold mbind, Tx_bind, query, statement. cbn [st_tables].
    rewrite IH by done. unfold count_rows, with_ledger. cbn [st_tables st_log st_ids db_ledger db_health db_unmatched db_ids].
    assert (Hdel : forall t, deletable d ty b f t = true -> takes types t = false).
    { apply (apart _ _ ty types); [done|apply deletable_type|apply takes_type]. }
    assert (Hpro : forall t, protected d ty b f t = true -> protects types t = false).
    { apply (apart _ _ ty types); [done|apply protected_type|apply protects_type]. }
    assert (Hdel' : forall t, takes types t = true -> negb (deletable d ty b f t) = true).
    { intros t Ht. destruct (deletable d ty b f t) eqn:E; [by rewrite Hdel in Ht|done]. }
    assert (Hpro' : forall t, protects types t = true -> negb (deletable d ty b f t) = true).
    { intros t Ht. destruct (deletable d ty b f t) eqn:E; [|done].
      apply protects_type in Ht. apply deletable_type in E. by rewrite E in Ht. }
    rewrite (count_if_filter (takes types)) by done. rewrite (count_if_filter (protects types)) by done.
    rewrite filter_filter. do 3 f_equal.
    + change (takes (ty :: types)) with (fun t => deletable d ty b f t || takes types t).
      rewrite (count_if_orb (deletable d ty b f)) by done. lia.
    + change (protects (ty :: types)) with (fun t => protected d ty b f t || protects types t).
      rewrite (count_if_orb (protected d ty b f)) by done. lia.
    + f_equal. apply filter_pointwise. intros t. cbn. by rewrite negb_orb.
Qed.
End Counting.

Lemma count_types_spec d b f db :
  count_types d b f db = (count_rows (takes d b f ObservableEntityTypes) db,
                          count_rows (protects d b f ObservableEntityTypes) db).
Proof.
  unfold count_types, ObservableEntityTypes, takes, protects, count_rows. cbn [foldl existsb].
  assert (Hd : forall t, deletable d ObservableAsset b f t = true ->
    deletable d ObservableServiceInstance b f t || false = false).
  { intros t Ht%deletable_type. apply orb_false_intro; [|done]. apply not_true_iff_false.
    intros Ht'%deletable_type. rewrite Ht in Ht'. discriminate Ht'. }
  assert (Hp : forall t, protected d ObservableAsset b f t = true ->
    protected d ObservableServiceInstance b f t || false = false).
  { intros t Ht%protected_type. apply orb_false_intro; [|done]. apply not_true_iff_false.
    intros Ht'%protected_type. rewrite Ht in Ht'. discriminate Ht'. }
  rewrite (count_if_orb _ _ _ Hd), (count_if_orb _ _ _ Hp).
  rewrite (count_if_pointwise (fun x => deletable d ObservableServiceInstance b f x || false)
    (deletable d ObservableServiceInstance b f)) by (intros x; apply orb_false_r).
  rewrite (count_if_pointwise (fun x => protected d ObservableServiceInstance b f x || false)
    (protected d ObservableServiceInstance b f)) by (intros x; apply orb_false_r).
  f_equal; lia.
Qed.

Section Runs.
Context (NewID : nat -> string).

(** The predicate and the report of a run. *)
Definition run_takes (d : Scoped) (opts : PruneOptions) (now : Time) : ObservedTransition -> bool :=
  takes d (FormatTime (po_Before opts)) (FormatTime (prune_floor opts now)) ObservableEntityTypes.
Definition run_protects (d : Scoped) (opts : PruneOptions) (now : Time) : ObservedTransition -> bool :=
  protects d (FormatTime (po_Before opts)) (FormatTime (prune_floor opts now)) ObservableEntityTypes.

Lemma real_run d id p now opts (st : Store DB) :
  Covers p prunableTable id = true ->
  let report := prune_report id opts now (count_rows (run_takes d opts now) (st_tables st))
                  (count_rows (run_protects d opts now) (st_tables st)) in
  exists row st', (counts ← prune_types d (FormatTime (po_Before opts)) (FormatTime (prune_floor opts now))
                     ObservableEntityTypes 0 0;
                   let report := prune_report id opts now (fst counts) (snd counts) in
                   _ ← log NewID prunableTable id ActionDelete (pruneDiff report) "";
                   mret report) (env_of (Some p) now) st = inr (report, st') /\
    st_tables st' = with_ledger (List.filter (fun t => negb (run_takes d opts now t)) (db_ledger (st_tables st)))
                      (st_tables st) /\
    st_log st' = st_log st ++ [row] /\ cr_EntityType row = prunableTable /\ cr_EntityID row = id /\
    cr_Action row = ActionDelete /\ cr_Actor row = ac_ID (PermitActor p) /\ cr_Diff row = pruneDiff report.
Proof.
  intros Hc report. unfold mbind at 1, Tx_bind at 1.
  rewrite prune_types_run by (vm_compute; repeat constructor; set_solver). cbn [fst snd].
  fold (run_takes d opts now) (run_protects d opts now). rewrite !Z.add_0_l. fold report.
  unfold log, mbind, Tx_bind, authorize, newID, insert_change, mret, Tx_ret. cbn [tx_permit env_of].
  rewrite Hc. do 2 eexists. by split_and!.
Qed.

(** A prune takes what it says and says what it took. With a permit that covers
    it, a request that passes the checks deletes exactly the observed rows older
    than the cutoff that are older than the floor too or about an entity out of
    scope; it touches nothing else of the recorder's tables, it reports how many
    it deleted and how many the floor kept, and it leaves one row in the change
    log with those numbers and the operator's name. A dry run changes nothing and
    reports the same numbers. *)
Theorem PruneObservedTransitions_spec d p now opts st :
  check_prune p opts now = [] -> Covers p prunableTable (NewID (st_ids st)) = true ->
  let taken := run_takes d opts now in
  let report := prune_report (NewID (st_ids st)) opts now (count_rows taken (st_tables st))
                  (count_rows (run_protects d opts now) (st_tables st)) in
  let (res, st') := PruneObservedTransitions NewID d true Commits p now opts st in
  res = inr report /\
  if po_DryRun opts then st_tables st' = st_tables st /\ st_log st' = st_log st
  else st_tables st' = with_ledger (List.filter (fun t => negb (taken t)) (db_ledger (st_tables st))) (st_tables st) /\
    exists row, st_log st' = st_log st ++ [row] /\ cr_EntityType row = prunableTable /\
      cr_EntityID row = pp_RunID report /\ cr_Action row = ActionDelete /\
      cr_Actor row = ac_ID (PermitActor p) /\ cr_Diff row = pruneDiff report.
Proof.
  intros Hv Hc taken report. unfold PruneObservedTransitions. rewrite Hv. cbn [OrNil].
  destruct (po_DryRun opts).
  - rewrite count_types_spec. done.
  - unfold write, writeTx. fold (env_of (Some p) now).
    set (st0 := MkStore (st_tables st) (st_log st) (S (st_ids st))).
    destruct (real_run d (NewID (st_ids st)) p now opts st0 Hc) as (row & st' & Hrun & Ht & Hl & Hrest).
    cbv zeta in Hrun. rewrite Hrun. split; [done|]. split; [done|]. by exists row.
Qed.

(** What a run leaves of the ledger. *)
Lemma run_ledger d reads fate p now opts st t :
  t ∈ db_ledger (st_tables st) -> run_takes d opts now t = false ->
  t ∈ db_ledger (st_tables (snd (PruneObservedTransitions NewID d reads fate p now opts st))).
Proof.
  intros Ht Hk. unfold PruneObservedTransitions. destruct (OrNil _); [done|].
  destruct (po_DryRun opts); [destruct reads; [destruct (count_types _ _ _ _)|]; done|].
  match goal with |- context [write ?f ?q ?n ?b ?s] => destruct (write_written f q n b s) as [err|r st' Htx] end;
    [done|]. cbn [snd]. apply bind_inv in Htx as (counts & st1 & Hp & Htx).
  rewrite prune_types_run in Hp by (vm_compute; repeat constructor; set_solver). injection Hp as _ <-.
  cbv zeta in Htx. tx_inv Htx. subst. follow_tables. cbn [st_tables with_ledger db_ledger].
  apply list_elem_of_In, List.filter_In. split; [by apply list_elem_of_In|].
  by apply negb_true_iff.
Qed.

(** A row younger than the floor, about an entity in scope, is not taken. *)
Lemma in_scope_not_taken d opts now t at_ :
  ot_At t = FormatTime at_ -> storable at_ -> storable (InScopeRetentionFloor now) -> storable (po_Before opts) ->
  InScopeRetentionFloor now <= at_ -> inScope d (ot_EntityType t) (ot_EntityID t) = true ->
  run_takes d opts now t = false.
Proof.
  intros Ha Hs Hf Hsb Hle Hin. apply not_true_iff_false. unfold run_takes, takes.
  intros (ty & _ & Hd)%existsb_elem_of. pose proof (deletable_type _ _ _ _ _ Hd) as Hty.
  unfold deletable in Hd. rewrite !andb_true_iff, orb_true_iff, negb_true_iff in Hd.
  destruct Hd as [[_ Hb] Hd]. rewrite Hty in Hin. destruct Hd as [Hd|Hd]; [|congruence].
  rewrite Ha in Hb, Hd. unfold prune_floor, TimeBefore in Hd.
  destruct (po_Before opts <? InScopeRetentionFloor now) eqn:E.
  - apply Z.ltb_lt in E. rewrite FormatTime_ltb, Z.ltb_lt in Hd by done. unfold Second in Hd. zdiv.
  - rewrite FormatTime_ltb, Z.ltb_lt in Hd by done. unfold Second in Hd. zdiv.
Qed.

(** C33. Evidence about entities in scope outlives a year. Take a row of the ledger and
    any number of runs, at any clocks, with any cutoffs, by anybody, whatever
    becomes of them. If at each run the entity resolves to an environment in scope
    and the row is at most 365 days old, the row is still there. *)
Theorem in_scope_evidence_kept runs st t at_ :
  t ∈ db_ledger (st_tables st) -> ot_At t = FormatTime at_ -> storable at_ ->
  Forall (fun r => inScope (rn_declared r) (ot_EntityType t) (ot_EntityID t) = true /\
                   rn_now r - 365 * Day <= at_ /\ storable (rn_now r - 365 * Day) /\
                   storable (po_Before (rn_opts r))) runs ->
  t ∈ db_ledger (st_tables (prune_all NewID runs st)).
Proof.
  intros Ht Ha Hs Hr. unfold prune_all. revert st Ht. induction Hr as [|r runs (Hin & Hle & Hf & Hb) _ IH];
    intros st Ht; [done|]. cbn [foldl]. apply IH. apply run_ledger; [done|].
  by apply (in_scope_not_taken _ _ _ _ at_).
Qed.

(** ** The drift queue *)

Definition entry_of (table : string) (rest : string) : Diff :=
  Literal ("{" +++ (json_text "pruned" +++ ":" +++ ("{" +++ (json_text "table" +++ ":" +++ json_text table +++ rest)))).

(** A run over the queue deletes the rows last seen before the cutoff. Its entry in
    the change log is filed under the queue, and names the ledger's table; the
    number it gives is of the rows that were old when they were counted. *)
Lemma PruneUnmatchedObservations_run p now opts counted st :
  check_prune p opts now = [] -> Covers p unmatchedTable (NewID (st_ids st)) = true ->
  po_DryRun opts = false ->
  let cutoff := FormatTime (po_Before opts) in
  let (res, st') := PruneUnmatchedObservations NewID true Commits p now opts counted st in
  (forall key row, db_unmatched (st_tables st') !! key = Some row <->
     db_unmatched (st_tables st) !! key = Some row /\ str_ltb (um_LastSeenAt row) cutoff = false) /\
  db_ledger (st_tables st') = db_ledger (st_tables st) /\
  exists report row rest, res = inr report /\
    pp_Deleted report = Z.of_nat (count_if (fun kv => str_ltb (um_LastSeenAt (snd kv)) cutoff)
                                    (map_to_list (db_unmatched counted))) /\
    st_log st' = st_log st ++ [row] /\ cr_EntityType row = unmatchedTable /\
    cr_Diff row = entry_of prunableTable rest.
Proof.
  intros Hv Hc Hd cutoff. unfold PruneUnmatchedObservations. rewrite Hv, Hd. cbn [OrNil negb].
  unfold write, writeTx, mbind, Tx_bind, statement, log, mbind, Tx_bind, authorize, newID, insert_change.
  cbn [tx_permit]. rewrite Hc. split; [|split].
  - intros key row. cbn [st_tables db_unmatched]. rewrite map_lookup_filter_Some. done.
  - done.
  - do 3 eexists. split_and!; [reflexivity|reflexivity|reflexivity|reflexivity|].
    unfold entry_of, pruneDiff, json_pair. cbn [String.concat cr_Diff]. rewrite !append_assoc. reflexivity.
Qed.

(** A reporter at its cap is not seen any more: what it goes on reporting is
    recorded as last seen when the cap was reached, and the next run that reaches
    past that moment deletes it. *)
Lemma saturated_queue_is_pruned p now opts obs row st seen :
  check_prune p opts now = [] -> Covers p unmatchedTable (NewID (st_ids st)) = true ->
  po_DryRun opts = false -> MaxUnmatchedPerReporter <= queued_by (ob_Reporter obs) (st_tables st) ->
  db_unmatched (st_tables st) !! obs_key obs = Some row ->
  str_ltb (um_LastSeenAt row) (FormatTime (po_Before opts)) = true ->
  let reported := MkStore (unmatched_tx NewID obs seen (st_tables st)) (st_log st) (st_ids st) in
  db_unmatched (st_tables (snd (PruneUnmatchedObservations NewID true Commits p now opts (st_tables reported)
    reported))) !! obs_key obs = None.
Proof.
  intros Hv Hc Hd Hcap Hrow Hold reported.
  pose proof (PruneUnmatchedObservations_run p now opts (st_tables reported) reported Hv Hc Hd) as Hrun.
  cbv zeta in Hrun. destruct (PruneUnmatchedObservations _ _ _ _ _ _ _ _) as [res st']. destruct Hrun as [Hk _].
  cbn [snd]. apply eq_None_not_Some. intros [row' Hrow']. apply Hk in Hrow' as [Hrow' Hnew].
  unfold reported, unmatched_tx in Hrow'. rewrite (proj2 (Z.leb_le _ _) Hcap) in Hrow'. cbn [st_tables] in Hrow'.
  congruence.
Qed.
End Runs.

(** * Samples *)

Definition sample_transition (at_ : string) : ObservedTransition :=
  {| ot_ID := "t1"; ot_EntityType := ObservableAsset; ot_EntityID := "a1"; ot_Reporter := "monitor:probe";
     ot_Kind := TransitionChange; ot_FromState := Some HealthUp; ot_ToState := HealthDown; ot_At := at_;
     ot_FlapCount := None; ot_WindowStart := None; ot_WindowEnd := None; ot_FirstState := None;
     ot_LastState := None; ot_SettledState := None |}.

Definition sample_scope : Scoped :=
  {| sc_inventory := {| inv_assets := {["a1"]}; inv_instances := ∅; inv_environments := {["a1" := ["prod"]]} |};
     sc_in_scope := {["prod"]} |}.

Definition sample_ledger : Store DB :=
  MkStore {| db_health := ∅; db_ledger := [sample_transition "2026-08-01T10:00:00Z"; sample_transition "2024-08-01T10:00:00Z"];
             db_unmatched := ∅; db_ids := 0%nat |} [] 0%nat.

Definition prune_now : PruneOptions := {| po_Before := ten_o_clock + Day; po_DryRun := false |}.

Definition run_id (n : nat) : string := String.concat "" (repeat "r" n).

Lemma PruneObservedTransitions_spec_witness :
  let (res, st') := PruneObservedTransitions run_id sample_scope true Commits (administratorPermit operator)
                      (ten_o_clock + Day) prune_now sample_ledger in
  (pp_Deleted <$> match res with inr r => Some r | inl _ => None end) = Some 1 /\
  db_ledger (st_tables st') = [sample_transition "2026-08-01T10:00:00Z"].
Proof.
  pose proof (PruneObservedTransitions_spec run_id sample_scope (administratorPermit operator)
    (ten_o_clock + Day) prune_now sample_ledger ltac:(vm_compute; reflexivity) eq_refl) as Hs.
  cbv zeta in Hs. destruct (PruneObservedTransitions _ _ _ _ _ _ _ _) as [res st'].
  destruct Hs as [-> [-> _]]. split; vm_compute; reflexivity.
Defined.

Lemma in_scope_evidence_kept_witness :
  sample_transition "2026-08-01T10:00:00Z" ∈ db_ledger (st_tables (prune_all run_id
    [{| rn_declared := sample_scope; rn_reads := true; rn_fate := Commits;
        rn_permit := administratorPermit operator; rn_now := ten_o_clock + Day; rn_opts := prune_now |}] sample_ledger)).
Proof.
  apply (in_scope_evidence_kept run_id _ _ _ ten_o_clock); [left|vm_compute; reflexivity|vm_compute; split; congruence|].
  apply Forall_singleton. split; [vm_compute; reflexivity|]. split; [vm_compute; discriminate|].
  split; vm_compute; split; congruence.
Defined.
