(* ===== verification/Overrides.v ===== *)
(** Operators' overrides of observed health: [internal/store/overrides.go] and the
    request that writes one, [internal/web/handlers/health.go].

    An override is a declared row: it is written through the audited transactions,
    it shadows its entity's readings only until it expires, and expiry is judged
    when the row is read. The table is a map by identifier; its CHECK constraints
    and its partial unique index, one active row to an entity, are checks of the
    statements that write it. *)
From Stdlib Require Import String Ascii ZArith Lia.
From stdpp Require Import base gmap strings list.
From S2P Require Import Prelude Text Errors Timestamps Actors Health Recorder Permits ChangeLog.

#[local] Open Scope string_scope.
#[local] Open Scope list_scope.
#[local] Open Scope Z_scope.

(** * Definitions *)

(** ** The table *)

Abbreviation Overrides := (gmap string HealthOverride).

Definition overriding (entityType entityID : string) (o : HealthOverride) : bool :=
  String.eqb (ho_EntityType o) entityType && String.eqb (ho_EntityID o) entityID.

Definition is_active (o : HealthOverride) : bool := String.eqb (ho_Lifecycle o) OverrideActive.

(** The CHECK constraints. *)
Definition override_checks (o : HealthOverride) : bool :=
  oneOf (ho_EntityType o) ObservableEntityTypes && ValidHealth (ho_AssertedState o) &&
  negb (String.eqb (ho_Reason o) "") && oneOf (ho_Lifecycle o) OverrideLifecycles &&
  str_ltb (ho_CreatedAt o) (ho_ExpiresAt o).

(** Another active row of the entity. *)
Definition active_elsewhere (o : HealthOverride) (e : Overrides) : bool :=
  existsb (fun q => overriding (ho_EntityType o) (ho_EntityID o) q && is_active q &&
                    negb (String.eqb (ho_ID q) (ho_ID o))) (map_to_list e).*2.

Definition put_override (o : HealthOverride) (e : Overrides) : StoreError + Overrides :=
  if negb (override_checks o) then inl (Wrapped ErrInvalid)
  else if is_active o && active_elsewhere o e then inl (Wrapped ErrConflict)
  else inr (<[ho_ID o := o]> e).

Definition insert_override (o : HealthOverride) (e : Overrides) : StoreError + Overrides :=
  if override_checks o && bool_decide (is_Some (e !! ho_ID o)) then inl (Wrapped ErrConflict)
  else put_override o e.

(** A stored row with the columns [saveOverride] sets. *)
Definition saved (row o : HealthOverride) : HealthOverride :=
  {| ho_ID := ho_ID row; ho_EntityType := ho_EntityType row; ho_EntityID := ho_EntityID row;
     ho_AssertedState := ho_AssertedState o; ho_Reason := ho_Reason o; ho_Actor := ho_Actor row;
     ho_Lifecycle := ho_Lifecycle o; ho_CreatedAt := ho_CreatedAt row;
     ho_UpdatedAt := ho_UpdatedAt o; ho_ExpiresAt := ho_ExpiresAt o |}.

Definition override_struct (o : HealthOverride) : Struct :=
  MkStruct "HealthOverride"
    [Column "id" (VText (ho_ID o)); Column "entity_type" (VText (ho_EntityType o));
     Column "entity_id" (VText (ho_EntityID o)); Column "asserted_state" (VText (ho_AssertedState o));
     Column "reason" (VText (ho_Reason o)); Column "actor" (VText (ho_Actor o));
     Column "lifecycle" (VText (ho_Lifecycle o)); Column "created_at" (VText (ho_CreatedAt o));
     Column "updated_at" (VText (ho_UpdatedAt o)); Column "expires_at" (VText (ho_ExpiresAt o))].

(** ** Reads *)

(** [GetHealthOverride], without the names it joins. *)
Definition GetHealthOverride (e : Overrides) (id : string) : Sentinel + HealthOverride :=
  match e !! id with Some o => inr o | None => inl ErrNotFound end.

(** [ActiveOverride], without the names it joins. *)
Definition ActiveOverride (e : Overrides) (entityType entityID : string) (now : Time)
    : option HealthOverride :=
  List.find (fun o => overriding entityType entityID o && IsActiveAt o now) (map_to_list e).*2.

(** [ActiveOverridesFor] *)
Definition ActiveOverridesFor (e : Overrides) (entityType : string) (ids : list string) (now : Time)
    : gmap string HealthOverride :=
  match ids with
  | [] => ∅
  | _ => foldl (fun out o => <[ho_EntityID o := o]> out) ∅
           (List.filter (fun o => String.eqb (ho_EntityType o) entityType && IsActiveAt o now &&
              containsString ids (ho_EntityID o)) (map_to_list e).*2)
  end.

(** [ListActiveOverrides] *)
Definition ListActiveOverrides (e : Overrides) (now : Time) : list HealthOverride :=
  isort (fun a b => str_ltb (ho_ExpiresAt a) (ho_ExpiresAt b))
    (List.filter (fun o => IsActiveAt o now) (map_to_list e).*2).

(** ** Writes *)

Section Writes.
Context (NewID : nat -> string).

(** [tx.overrideByID] *)
Definition overrideByID (id : string) : Tx Overrides HealthOverride :=
  row ← query (fun e => e !! id);
  match row with Some o => mret o | None => fail (Wrapped ErrNotFound) end.

(** [tx.overrideForEntity] *)
Definition overrideForEntity (entityType entityID : string) : Tx Overrides (option HealthOverride) :=
  query (fun e => List.find (fun o => overriding entityType entityID o && is_active o) (map_to_list e).*2).

(** [tx.saveOverride] *)
Definition saveOverride (o : HealthOverride) : Tx Overrides unit :=
  statement (fun e => match e !! ho_ID o with
                      | Some row => put_override (saved row o) e
                      | None => inr e
                      end).

Context `{Unicode}.

(** What [CreateHealthOverride] does with the entity's active row: an override in
    force is a conflict, a lapsed one is cleared. *)
Definition supersede (existing : option HealthOverride) (actor : Actor) (now : Time) : Tx Overrides unit :=
  match existing with
  | None => mret tt
  | Some existing =>
      if IsActiveAt existing now then fail (Wrapped ErrConflict)
      else match ClearOverride existing actor now with
           | inl ve => fail (Invalid ve)
           | inr superseded =>
               _ ← saveOverride superseded;
               logUpdate NewID "health_override" (ho_ID superseded) (override_struct existing)
                 (override_struct superseded)
           end
  end.

(** [CreateHealthOverride]; [reads] is whether the read before the transaction
    succeeds. *)
Definition CreateHealthOverride (inv : Inventory) (reads : bool) (fates : nat -> Fate) (p : Permit)
    (now : Time) (o : HealthOverride) (st : Store Overrides) : (StoreError + unit) * Store Overrides :=
  let '(o, err) := ValidateOverride o in
  match err with
  | Some ve => (inl (Invalid ve), st)
  | None =>
      match (if reads then inr (observableExists inv (ho_EntityType o) (ho_EntityID o)) else inl tt) with
      | inl _ => (inl DatabaseError, st)
      | inr (inl e) => (inl (Wrapped e), st)
      | inr (inr false) => (inl (Wrapped ErrNotFound), st)
      | inr (inr true) =>
          writeSerializable fates (Some p) now (
            existing ← overrideForEntity (ho_EntityType o) (ho_EntityID o);
            _ ← supersede existing (PermitActor p) now;
            _ ← statement (insert_override o);
            logCreate NewID "health_override" (ho_ID o) (override_struct o)) st
      end
  end.

(** [AmendHealthOverride] *)
Definition AmendHealthOverride (fate : Fate) (p : Permit) (now : Time) (id : string)
    (spec : HealthOverrideSpec) (st : Store Overrides)
    : (StoreError + HealthOverride) * Store Overrides :=
  write fate (Some p) now (
    before ← overrideByID id;
    match Amend before spec (PermitActor p) now with
    | inl ve => fail (Invalid ve)
    | inr amended =>
        _ ← saveOverride amended;
        _ ← logUpdate NewID "health_override" id (override_struct before) (override_struct amended);
        mret amended
    end) st.

(** [ClearHealthOverride] *)
Definition ClearHealthOverride (fate : Fate) (p : Permit) (now : Time) (id : string)
    (st : Store Overrides) : (StoreError + unit) * Store Overrides :=
  write fate (Some p) now (
    before ← overrideByID id;
    match ClearOverride before (PermitActor p) now with
    | inl ve => fail (Invalid ve)
    | inr cleared =>
        _ ← saveOverride cleared;
        logUpdate NewID "health_override" id (override_struct before) (override_struct cleared)
    end) st.

(** [HealthOverrideCreate], after the form is read: the override is built from the
    request at one reading of the clock and stored at another. *)
Definition HealthOverrideCreate (inv : Inventory) (reads : bool) (fates : nat -> Fate) (p : Permit)
    (id : string) (spec : HealthOverrideSpec) (built now : Time) (st : Store Overrides)
    : (StoreError + unit) * Store Overrides :=
  match NewHealthOverride id spec (PermitActor p) built with
  | inl ve => (inl (Invalid ve), st)
  | inr o => CreateHealthOverride inv reads fates p now o st
  end.

(** Everything that can happen to the table: the three requests, by anybody, at
    any reading of the clock, in any order. *)
Inductive overridden : Store Overrides -> Prop :=
  | overridden_none log ids : overridden (MkStore ∅ log ids)
  | overridden_create inv reads fates p id spec built now st :
      overridden st -> storable built -> storable (built + MaxOverrideDuration) ->
      overridden (snd (HealthOverrideCreate inv reads fates p id spec built now st))
  | overridden_amend fate p now id spec st :
      overridden st -> storable now -> storable (now + MaxOverrideDuration) ->
      overridden (snd (AmendHealthOverride fate p now id spec st))
  | overridden_clear fate p now id st :
      overridden st -> overridden (snd (ClearHealthOverride fate p now id st)).
End Writes.

(** The invariant of the table: rows are stored under their own identifiers, each
    has come about by decisions of operators and passes the checks of the table,
    and no two active ones are about the same entity. *)
Definition overrides_ok `{Unicode} (e : Overrides) : Prop :=
  (forall id o, e !! id = Some o ->
     ho_ID o = id /\ (exists last, decided o last) /\ override_checks o = true) /\
  (forall id id' o o', e !! id = Some o -> e !! id' = Some o' ->
     ho_EntityType o = ho_EntityType o' -> ho_EntityID o = ho_EntityID o' ->
     ho_Lifecycle o = OverrideActive -> ho_Lifecycle o' = OverrideActive -> id = id').

(** * Lemmas *)

Lemma overriding_spec ty id o : overriding ty id o = true <-> ho_EntityType o = ty /\ ho_EntityID o = id.
Proof. unfold overriding. by rewrite andb_true_iff, !String.eqb_eq. Qed.

Lemma is_active_spec o : is_active o = true <-> ho_Lifecycle o = OverrideActive.
Proof. apply String.eqb_eq. Qed.

Lemma elem_of_values (e : Overrides) o : o ∈ (map_to_list e).*2 <-> exists id, e !! id = Some o.
Proof.
  rewrite list_elem_of_fmap. split.
  - intros ([id q] & -> & Hin%elem_of_map_to_list). by exists id.
  - intros (id & Hid). exists (id, o). split; [done|]. by apply elem_of_map_to_list.
Qed.

Lemma find_first {A} (f : A -> bool) l :
  match List.find f l with
  | Some x => x ∈ l /\ f x = true
  | None => forall x, x ∈ l -> f x = false
  end.
Proof.
  destruct (List.find f l) as [x|] eqn:E.
  - apply List.find_some in E as [? ?]. split; [by apply list_elem_of_In|done].
  - intros x Hx. by apply (List.find_none _ _ E), list_elem_of_In.
Qed.

Lemma active_elsewhere_spec o (e : Overrides) :
  active_elsewhere o e = true <->
  exists id q, e !! id = Some q /\ ho_EntityType q = ho_EntityType o /\ ho_EntityID q = ho_EntityID o /\
    ho_Lifecycle q = OverrideActive /\ ho_ID q <> ho_ID o.
Proof.
  unfold active_elsewhere. rewrite existsb_elem_of. split.
  - intros (q & (id & Hq)%elem_of_values & Hf).
    rewrite !andb_true_iff, overriding_spec, is_active_spec, negb_true_iff, String.eqb_neq in Hf.
    destruct Hf as [[[? ?] ?] ?]. by exists id, q.
  - intros (id & q & Hq & ? & ? & ? & ?). exists q. split; [apply elem_of_values; by exists id|].
    rewrite !andb_true_iff, overriding_spec, is_active_spec, negb_true_iff, String.eqb_neq. done.
Qed.

Section Facts.
Context `{Unicode}.

Lemma ValidateOverride_fst o :
  fst (ValidateOverride o) =
  {| ho_ID := ho_ID o; ho_EntityType := ho_EntityType o; ho_EntityID := ho_EntityID o;
     ho_AssertedState := ho_AssertedState o; ho_Reason := TrimSpace (ho_Reason o); ho_Actor := ho_Actor o;
     ho_Lifecycle := ho_Lifecycle o; ho_CreatedAt := ho_CreatedAt o; ho_UpdatedAt := ho_UpdatedAt o;
     ho_ExpiresAt := ho_ExpiresAt o |}.
Proof. reflexivity. Qed.

Lemma Amend_saved o spec actor now o' : Amend o spec actor now = inr o' -> saved o o' = o'.
Proof.
  unfold Amend. destruct (asserted_state _ _) as [ve state]. destruct (OrNil _); [done|].
  match goal with |- context [ValidateOverride ?q] =>
    pose proof (ValidateOverride_fst q) as Hk; destruct (ValidateOverride q) as [a [e|]] end; [done|].
  intros [= <-]. cbn [fst] in Hk. by rewrite Hk.
Qed.

Lemma ClearOverride_saved o actor now o' : ClearOverride o actor now = inr o' -> saved o o' = o'.
Proof. unfold ClearOverride. destruct (OrNil _); [done|]. by intros [= <-]. Qed.

Lemma saved_ID row o : ho_ID (saved row o) = ho_ID row.
Proof. done. Qed.

(** A new override is what its second validation leaves. *)
Lemma NewHealthOverride_stable id spec actor now o :
  NewHealthOverride id spec actor now = inr o ->
  fst (ValidateOverride o) = o /\ ho_ID o = id /\ ho_EntityType o = hs_EntityType spec /\
  ho_EntityID o = hs_EntityID spec /\ ho_Lifecycle o = OverrideActive.
Proof.
  unfold NewHealthOverride. destruct (asserted_state _ _) as [ve state].
  match goal with |- context [ValidateOverride ?q] =>
    pose proof (ValidateOverride_fst q) as Hk; destruct (ValidateOverride q) as [a err] end.
  cbn [fst] in Hk. destruct (OrNil _); [done|]. intros [= <-]. rewrite ValidateOverride_fst, Hk.
  cbn -[TrimSpace]. by rewrite TrimSpace_idem.
Qed.

(** ** The writes of the table keep its invariant *)

Lemma put_override_ok o (e e' : Overrides) :
  overrides_ok e -> (exists last, decided o last) -> put_override o e = inr e' -> overrides_ok e'.
Proof.
  intros [Hk Hu] Hd. unfold put_override. destruct (negb (override_checks o)) eqn:Hch; [done|].
  apply negb_false_iff in Hch.
  destruct (is_active o && active_elsewhere o e) eqn:Ha; [done|]. intros [= <-].
  assert (Hone : forall id q, e !! id = Some q -> ho_EntityType q = ho_EntityType o ->
    ho_EntityID q = ho_EntityID o -> ho_Lifecycle q = OverrideActive -> ho_Lifecycle o = OverrideActive ->
    id = ho_ID o).
  { intros id q Hq Ht Hi Hlq Hlo. apply is_active_spec in Hlo. rewrite Hlo in Ha. cbn in Ha.
    destruct (decide (id = ho_ID o)) as [|Hne]; [done|].
    rewrite (proj2 (active_elsewhere_spec o e)) in Ha; [done|]. exists id, q. split_and!; try done.
    by rewrite (proj1 (Hk _ _ Hq)). }
  split.
  - intros id q [[<- <-]|[_ Hq]]%lookup_insert_Some; [done|]. by apply Hk.
  - intros id id' q q' Hq Hq' Ht Hi Hl Hl'. apply lookup_insert_Some in Hq as [[<- <-]|[Hn Hq]];
      apply lookup_insert_Some in Hq' as [[<- <-]|[Hn' Hq']].
    + done.
    + symmetry. by apply (Hone id' q').
    + by apply (Hone id q).
    + by apply (Hu id id' q q').
Qed.

Lemma insert_override_ok o (e e' : Overrides) :
  overrides_ok e -> (exists last, decided o last) -> insert_override o e = inr e' -> overrides_ok e'.
Proof. unfold insert_override. destruct (_ && _); [done|]. apply put_override_ok. Qed.

(** Saving a row decided from the stored one. *)
Lemma save_ok row o (e e' : Overrides) :
  overrides_ok e -> e !! ho_ID o = Some row -> saved row o = o -> (exists last, decided o last) ->
  (match e !! ho_ID o with Some row => put_override (saved row o) e | None => inr e end) = inr e' ->
  overrides_ok e'.
Proof. intros Hok Hrow Hs Hd. rewrite Hrow, Hs. by apply put_override_ok. Qed.
End Facts.

Section Reachable.
Context (NewID : nat -> string) `{Unicode}.

Lemma overrideByID_inv id env st o st' :
  overrideByID id env st = inr (o, st') -> st' = st /\ st_tables st !! id = Some o.
Proof.
  unfold overrideByID. intros (row & st1 & Hq & Htx)%bind_inv. tx_inv Hq.
  destruct (st_tables st !! id); [|discriminate Htx]. by apply ret_inv in Htx as [-> ->].
Qed.

Lemma supersede_ok existing actor now env st u st' :
  overrides_ok (st_tables st) ->
  (forall o, existing = Some o -> exists id, st_tables st !! id = Some o) ->
  supersede NewID existing actor now env st = inr (u, st') -> overrides_ok (st_tables st').
Proof.
  intros Hok Hex Htx. destruct existing as [o|]; cbn [supersede] in Htx; [|by apply ret_inv in Htx as [_ ->]].
  destruct (Hex o eq_refl) as (id & Hid). destruct (proj1 Hok _ _ Hid) as (<- & [last Hd] & Hch).
  destruct (IsActiveAt o now); [discriminate Htx|].
  destruct (ClearOverride o actor now) as [ve|c] eqn:Hc; [discriminate Htx|].
  pose proof (ClearOverride_saved _ _ _ _ Hc) as Hs. pose proof (f_equal ho_ID Hs) as HID. cbn in HID.
  unfold saveOverride in Htx. tx_inv Htx. follow_tables.
  apply (save_ok o c (st_tables st) _ Hok); [by rewrite <- HID|done| |done].
  exists now. by apply (decided_clear o last actor).
Qed.

Lemma overridden_ok st : overridden NewID st -> overrides_ok (st_tables st).
Proof.
  induction 1 as [log ids|inv reads fates p id spec built now st _ Hok Hb Hb'
    |fate p now id spec st _ Hok Hn Hn'|fate p now id st _ Hok].
  - change (overrides_ok (∅ : gmap string HealthOverride)).
    split; [by intros id o ?%lookup_empty_Some|by intros id id' o o' ?%lookup_empty_Some].
  - unfold HealthOverrideCreate. destruct (NewHealthOverride _ _ _ _) as [ve|o] eqn:Hnew; [done|].
    pose proof (NewHealthOverride_stable _ _ _ _ _ Hnew) as (Hst & _). unfold CreateHealthOverride.
    destruct (ValidateOverride o) as [o' [ve|]]; [done|]. cbn [fst] in Hst. subst o'.
    destruct reads; [|done]. destruct (observableExists _ _ _) as [e|[|]]; [done| |done].
    match goal with |- context [writeSerializable ?f ?q ?n ?b st] =>
      destruct (writeSerializable_written f q n b st) as [err|[] st' Htx] end; [done|]. cbn [snd].
    apply bind_inv in Htx as (ex & st1 & Hq & Htx). unfold overrideForEntity in Hq. tx_inv Hq.
    apply bind_inv in Htx as (u & st2 & Hsup & Htx). tx_inv Htx. follow_tables.
    eapply insert_override_ok; [|by exists built; eapply decided_new|exact Htx0].
    eapply supersede_ok; [exact Hok| |exact Hsup]. intros q Hq.
    match type of Hq with List.find ?f ?l = _ => pose proof (find_first f l) as Hf; rewrite Hq in Hf end.
    apply elem_of_values. apply Hf.
  - unfold AmendHealthOverride.
    match goal with |- context [write ?f ?q ?n ?b st] => destruct (write_written f q n b st) as [err|a st' Htx] end;
      [done|]. cbn [snd]. apply bind_inv in Htx as (before & st1 & Hq & Htx).
    apply overrideByID_inv in Hq as [-> Hb]. destruct (proj1 Hok _ _ Hb) as (Hid & [last Hd] & Hch).
    destruct (Amend _ _ _ _) as [ve|am] eqn:Ha; [discriminate Htx|].
    pose proof (Amend_saved _ _ _ _ _ Ha) as Hs. pose proof (f_equal ho_ID Hs) as HID. cbn in HID.
    unfold saveOverride in Htx. tx_inv Htx. subst. follow_tables.
    apply (save_ok before am (st_tables st) _ Hok); [by rewrite <- HID|done| |done].
    exists now. by apply (decided_amend before last spec (PermitActor p)).
  - unfold ClearHealthOverride.
    match goal with |- context [write ?f ?q ?n ?b st] => destruct (write_written f q n b st) as [err|a st' Htx] end;
      [done|]. cbn [snd]. apply bind_inv in Htx as (before & st1 & Hq & Htx).
    apply overrideByID_inv in Hq as [-> Hb]. destruct (proj1 Hok _ _ Hb) as (Hid & [last Hd] & Hch).
    destruct (ClearOverride _ _ _) as [ve|c] eqn:Hc; [discriminate Htx|].
    pose proof (ClearOverride_saved _ _ _ _ Hc) as Hs. pose proof (f_equal ho_ID Hs) as HID. cbn in HID.
    unfold saveOverride in Htx. tx_inv Htx. follow_tables.
    apply (save_ok before c (st_tables st) _ Hok); [by rewrite <- HID, Hid|done| |done].
    exists now. by apply (decided_clear before last (PermitActor p)).
Qed.
End Reachable.

(** ** Creating an override *)

Section Creating.
Context `{Unicode}.

(** A row that passes [Validate] passes the checks of the table. *)
Lemma ValidateOverride_checks o o' : ValidateOverride o = (o', None) -> override_checks o' = true.
Proof.
  intros Hv. pose proof (ValidateOverride_inv o o' Hv) as (_ & Hty & _ & Hre).
  pose proof (ValidateOverride_fst o) as Hf. rewrite Hv in Hf. cbn [fst] in Hf. subst o'.
  unfold ValidateOverride in Hv. cbn in Hre |- *.
  destruct (checkRequired (checkEnum [] _ _ _) _ _) as [ve1 e1] eqn:E1.
  destruct (checkRequired (if negb _ then _ else _) "reason" _) as [ve2 reason] eqn:E2.
  destruct (checkRequired ve2 "actor" _) as [ve3 a] eqn:E3. injection Hv as _ Hn%OrNil_None.
  assert (Hn2 : (if negb (str_ltb (ho_CreatedAt o) (ho_ExpiresAt o))
    then Add ve3 "expires_at" "must be after the override was created" else ve3) = []).
  { repeat case_match; try done; by apply Add_not_nil in Hn. }
  apply guard_nil in Hn2 as [Hlt ->]. apply negb_false_iff in Hlt.
  apply checkRequired_nil in E3 as [-> _]; [|done]. apply checkRequired_nil in E2 as (E2 & _); [|done].
  assert (Hs : checkEnum ve1 "lifecycle" (ho_Lifecycle o) OverrideLifecycles = [] /\
    ValidHealth (ho_AssertedState o) = true).
  { destruct (ValidHealth (ho_AssertedState o)) eqn:Hh; cbn [negb] in E2; [done|].
    apply checkEnum_nil in E2 as [_ E2]. by rewrite (proj2 (ValidHealth_elem _) E2) in Hh. }
  destruct Hs as [[_ Hlc]%checkEnum_nil Hh]. unfold override_checks. cbn -[oneOf ValidHealth str_ltb TrimSpace].
  rewrite (proj2 (oneOf_elem _ _) Hty), (proj2 (oneOf_elem _ _) Hlc), Hh, Hlt.
  by rewrite (proj2 (String.eqb_neq _ _) Hre).
Qed.

Lemma ValidateOverride_twice o o' : ValidateOverride o = (o', None) -> ValidateOverride o' = (o', None).
Proof.
  intros Hv. pose proof (ValidateOverride_fst o) as Hf. rewrite Hv in Hf. cbn [fst] in Hf. subst o'.
  unfold ValidateOverride, checkRequired in *. cbn -[TrimSpace] in *. rewrite TrimSpace_idem in *.
  injection Hv as Hv. by rewrite Hv.
Qed.

Lemma NewHealthOverride_valid id spec actor now o :
  NewHealthOverride id spec actor now = inr o -> ValidateOverride o = (o, None).
Proof.
  unfold NewHealthOverride. destruct (asserted_state _ _) as [ve state].
  destruct (ValidateOverride _) as [o1 err] eqn:E. destruct (OrNil _) eqn:En; [done|]. intros [= ->].
  apply OrNil_None, app_eq_nil in En as [_ En]. eapply ValidateOverride_twice. rewrite E. f_equal.
  destruct err as [e|]; [|done]. cbn in En. subst e. exfalso. unfold ValidateOverride in E.
  repeat match type of E with context [checkRequired ?a ?b ?c] => destruct (checkRequired a b c) end.
  injection E as _ E. unfold OrNil in E. by case_match.
Qed.

(** The override in force, if any, is the answer to the read. *)
Lemma ActiveOverride_spec (e : Overrides) ty id now o :
  overrides_ok e ->
  ActiveOverride e ty id now = Some o <->
  e !! ho_ID o = Some o /\ ho_EntityType o = ty /\ ho_EntityID o = id /\ IsActiveAt o now = true.
Proof.
  intros [Hk Hu]. unfold ActiveOverride. set (f := fun o => _ && IsActiveAt o now).
  assert (Hf : forall q, f q = true <-> (ho_EntityType q = ty /\ ho_EntityID q = id) /\ IsActiveAt q now = true).
  { intros q. unfold f. by rewrite andb_true_iff, overriding_spec. }
  pose proof (find_first f (map_to_list e).*2) as Hs. destruct (List.find f _) as [q|].
  - destruct Hs as [(k & Hq)%elem_of_values [[Ht Hi] Ha]%Hf]. destruct (Hk _ _ Hq) as [<- _]. split.
    + by intros [= <-].
    + intros (Ho & Ht' & Hi' & Ha'). f_equal.
      assert (Hkey : ho_ID q = ho_ID o).
      { eapply Hu; eauto; try congruence; unfold IsActiveAt in Ha, Ha';
          apply andb_true_iff in Ha as [Ha _], Ha' as [Ha' _]; by apply String.eqb_eq. }
      rewrite Hkey in Hq. congruence.
  - split; [done|]. intros (Ho & Ht & Hi & Ha).
    assert (Hin : o ∈ (map_to_list e).*2) by (apply elem_of_values; eauto).
    apply Hs in Hin. by rewrite (proj2 (Hf o)) in Hin by done.
Qed.

(** C25. No entity is silenced twice, or for longer than somebody decided. Whatever
    requests have been made, by whomever, at whatever readings of the clock, and
    whatever became of their transactions: at most one override is in force for
    an entity, it is the one the page is shown, and it is in force only before
    twenty-four hours have passed since an operator last decided about it. *)
Theorem overrides_lapse NewID st ty id t o :
  overridden NewID st -> storable t ->
  (exists k, st_tables st !! k = Some o) -> ho_EntityType o = ty -> ho_EntityID o = id ->
  IsActiveAt o t = true ->
  ActiveOverride (st_tables st) ty id t = Some o /\
  exists last, decided o last /\ t < last + MaxOverrideDuration.
Proof.
  intros Hr Ht [k Hk] Hty Hid Ha. pose proof (overridden_ok NewID st Hr) as Hok.
  destruct (proj1 Hok _ _ Hk) as (<- & [last Hd] & Hch). split.
  - by apply ActiveOverride_spec.
  - exists last. split; [done|]. destruct (decided_ok o last Hd) as (_ & _ & _ & Hl).
    unfold IsActiveAt in Ha. apply andb_true_iff in Ha as [Hlc Hlt]. apply String.eqb_eq in Hlc.
    destruct Hl as [Hl|(e & _ & He & Hse & Hb)]; [rewrite Hl in Hlc; done|].
    rewrite He, FormatTime_ltb, Z.ltb_lt in Hlt by done. unfold Second in Hlt. zdiv.
Qed.

(** The row that clearing leaves, in place. *)
Lemma ClearOverride_clears o actor now :
  ac_Kind actor = ActorKindUser -> ho_Lifecycle o = OverrideActive ->
  exists c, ClearOverride o actor now = inr c /\ ho_Lifecycle c = OverrideCleared /\ ho_ID c = ho_ID o /\
    ho_EntityType c = ho_EntityType o /\ ho_EntityID c = ho_EntityID o /\
    override_checks c = override_checks o.
Proof.
  intros Hk Hl. unfold ClearOverride. rewrite Hk, Hl, !String.eqb_refl. cbn [negb OrNil].
  eexists. split; [reflexivity|]. split_and!; [done|done|done|done|].
  unfold override_checks. cbn. by rewrite Hl.
Qed.

Lemma supersede_runs NewID p now q (st : Store Overrides) :
  (forall x, Covers p "health_override" x = true) -> ac_Kind (PermitActor p) = ActorKindUser ->
  overrides_ok (st_tables st) -> st_tables st !! ho_ID q = Some q -> ho_Lifecycle q = OverrideActive ->
  IsActiveAt q now = false ->
  exists c st', supersede NewID (Some q) (PermitActor p) now (env_of (Some p) now) st = inr (tt, st') /\
    (ho_Lifecycle c = OverrideCleared /\ ho_EntityType c = ho_EntityType q /\ ho_EntityID c = ho_EntityID q) /\
    st_tables st' = <[ho_ID q := c]> (st_tables st).
Proof.
  intros Hcov Hk [Hok Hu] Hq Hl Ha. cbn [supersede]. rewrite Ha.
  destruct (ClearOverride_clears q (PermitActor p) now Hk Hl) as (c & Hc & Hlc & Hid & Hte & Hie & Hch). rewrite Hc.
  pose proof (ClearOverride_saved _ _ _ _ Hc) as Hs. exists c.
  unfold mbind, Tx_bind, saveOverride, statement. rewrite Hid, Hq, Hs. unfold put_override.
  destruct (Hok _ _ Hq) as (_ & _ & Hcq). rewrite Hch, Hcq. cbn [negb]. unfold is_active at 1. rewrite Hlc.
  cbn [String.eqb Ascii.eqb eqb andb OverrideCleared OverrideActive].
  match goal with |- context [logUpdate NewID ?t ?i ?b ?a ?env ?st1] =>
    destruct (logUpdate_runs NewID p now t i b a st1 (Hcov i) eq_refl) as (st2 & -> & Ht) end.
  exists st2. rewrite Ht. by split_and!; rewrite ?Hid.
Qed.

(** The row of a new override goes in when no active row is about its entity. *)
Lemma insert_override_free o (e : Overrides) :
  override_checks o = true -> e !! ho_ID o = None ->
  (forall id q, e !! id = Some q -> ho_EntityType q = ho_EntityType o -> ho_EntityID q = ho_EntityID o ->
     ho_Lifecycle q <> OverrideActive) ->
  insert_override o e = inr (<[ho_ID o := o]> e).
Proof.
  intros Hch Hn Hfree. unfold insert_override, put_override. rewrite Hch, Hn. cbn.
  destruct (active_elsewhere o e) eqn:Ha; [|by rewrite andb_false_r].
  apply active_elsewhere_spec in Ha as (id & q & Hq & Ht & Hi & Hl & _). by destruct (Hfree id q Hq Ht Hi).
Qed.

(** What the entity's override is before and after one is put over the others. *)
Lemma ActiveOverride_put (e e' : Overrides) o ty id t :
  overrides_ok e -> overrides_ok e' -> e' !! ho_ID o = Some o ->
  (forall q, ho_EntityType q <> ho_EntityType o \/ ho_EntityID q <> ho_EntityID o ->
     e' !! ho_ID q = Some q <-> e !! ho_ID q = Some q) ->
  (forall q, e' !! ho_ID q = Some q -> ho_EntityType q = ho_EntityType o -> ho_EntityID q = ho_EntityID o ->
     ho_Lifecycle q = OverrideActive -> q = o) ->
  ActiveOverride e' ty id t =
    if decide (ty = ho_EntityType o /\ id = ho_EntityID o) then (if IsActiveAt o t then Some o else None)
    else ActiveOverride e ty id t.
Proof.
  intros Hok Hok' Ho Hrest Hone. apply option_eq. intros q. rewrite ActiveOverride_spec by done.
  destruct (decide _) as [[-> ->]|Hne].
  - split.
    + intros (Hq & Ht & Hi & Ha). assert (q = o) as ->.
      { apply Hone; try done. unfold IsActiveAt in Ha. apply andb_true_iff in Ha as [Ha _].
        by apply String.eqb_eq. }
      by rewrite Ha.
    + destruct (IsActiveAt o t) eqn:Ha; [|done]. by intros [= <-].
  - rewrite ActiveOverride_spec by done. split; intros (Hq & Ht & Hi & Ha); (split; [|done]);
      apply Hrest; try done; rewrite Ht, Hi; destruct (decide (ty = ho_EntityType o)); [right|left|right|left];
      congruence || (intros ->; by apply Hne).
Qed.

(** Once the entity's active row, if any, has lapsed and is superseded, no active
    row is about the entity, and the other entities' rows are as they were. *)
Definition freed (o : HealthOverride) (e e' : Overrides) : Prop :=
  e' !! ho_ID o = None /\
  (forall q, ho_EntityType q <> ho_EntityType o \/ ho_EntityID q <> ho_EntityID o ->
     e' !! ho_ID q = Some q <-> e !! ho_ID q = Some q) /\
  (forall id q, e' !! id = Some q -> ho_EntityType q = ho_EntityType o ->
     ho_EntityID q = ho_EntityID o -> ho_Lifecycle q <> OverrideActive).

Lemma supersede_frees NewID p now o (st : Store Overrides) :
  (forall x, Covers p "health_override" x = true) -> ac_Kind (PermitActor p) = ActorKindUser ->
  overrides_ok (st_tables st) -> st_tables st !! ho_ID o = None ->
  ActiveOverride (st_tables st) (ho_EntityType o) (ho_EntityID o) now = None ->
  exists st1, supersede NewID
      (List.find (fun q => overriding (ho_EntityType o) (ho_EntityID o) q && is_active q)
         (map_to_list (st_tables st)).*2) (PermitActor p) now (env_of (Some p) now) st = inr (tt, st1) /\
    freed o (st_tables st) (st_tables st1).
Proof.
  intros Hcov Hk Hok Hn Ha. set (f := fun q => _ && is_active q).
  pose proof (find_first f (map_to_list (st_tables st)).*2) as Hf. destruct (List.find f _) as [q|].
  - destruct Hf as [(k & Hq)%elem_of_values Hfq]. unfold f in Hfq.
    apply andb_true_iff in Hfq as [[Ht Hi]%overriding_spec Hl%is_active_spec].
    destruct (proj1 Hok _ _ Hq) as [<- _].
    assert (Hin : IsActiveAt q now = false).
    { apply not_true_iff_false. intros Hact.
      by rewrite (proj2 (ActiveOverride_spec _ _ _ _ q Hok)) in Ha by done. }
    destruct (supersede_runs NewID p now q st Hcov Hk Hok Hq Hl Hin) as (c & st1 & -> & (Hlc & Hct & Hci) & Hst1).
    exists st1. rewrite Hst1. split; [done|]. unfold freed. split_and!.
    + rewrite lookup_insert_ne; [done|]. intros Heq. by rewrite Heq, Hn in Hq.
    + intros r Hr. destruct (decide (ho_ID r = ho_ID q)) as [Heq|Hne]; [|by rewrite lookup_insert_ne].
      rewrite Heq, lookup_insert_eq, Hq. split; intros [= <-]; destruct Hr; congruence.
    + intros id r [[<- <-]|[Hne Hr]]%lookup_insert_Some Ht' Hi'; [by rewrite Hlc|]. intros Hl'.
      apply Hne. destruct Hok as [_ Hu]. apply (Hu (ho_ID q) id q r); congruence.
  - exists st. split; [done|]. split_and!; [done|done|]. intros id r Hr Ht Hi Hl.
    assert (Hin : r ∈ (map_to_list (st_tables st)).*2) by (apply elem_of_values; eauto).
    apply Hf in Hin. unfold f in Hin.
    by rewrite (proj2 (overriding_spec _ _ r)), (proj2 (is_active_spec r)) in Hin by done.
Qed.

(** The row in force is the one the transaction finds. *)
Lemma in_force_found (e : Overrides) q now :
  overrides_ok e -> e !! ho_ID q = Some q -> IsActiveAt q now = true ->
  List.find (fun r => overriding (ho_EntityType q) (ho_EntityID q) r && is_active r) (map_to_list e).*2 = Some q.
Proof.
  intros [Hk Hu] Hq [Hl _]%andb_true_iff. set (f := fun r => _ && is_active r).
  pose proof (find_first f (map_to_list e).*2) as Hf. apply String.eqb_eq in Hl.
  destruct (List.find f _) as [r|].
  - destruct Hf as [(k & Hr)%elem_of_values [[Ht Hi]%overriding_spec Hl'%is_active_spec]%andb_true_iff].
    assert (k = ho_ID q) as -> by (eapply Hu; eauto; congruence). congruence.
  - assert (Hin : q ∈ (map_to_list e).*2) by (apply elem_of_values; eauto). apply Hf in Hin. unfold f in Hin.
    by rewrite (proj2 (overriding_spec _ _ q)), (proj2 (is_active_spec q)) in Hin by done.
Qed.

(** The transaction of a creation, on an entity with no override in force. *)
Lemma creation_runs NewID p now o (st : Store Overrides) :
  (forall x, Covers p "health_override" x = true) -> ac_Kind (PermitActor p) = ActorKindUser ->
  overrides_ok (st_tables st) -> override_checks o = true -> st_tables st !! ho_ID o = None ->
  ActiveOverride (st_tables st) (ho_EntityType o) (ho_EntityID o) now = None ->
  exists e1 st', (existing ← overrideForEntity (ho_EntityType o) (ho_EntityID o);
               _ ← supersede NewID existing (PermitActor p) now;
               _ ← statement (insert_override o);
               logCreate NewID "health_override" (ho_ID o) (override_struct o)) (env_of (Some p) now) st
              = inr (tt, st') /\
    freed o (st_tables st) e1 /\ st_tables st' = <[ho_ID o := o]> e1.
Proof.
  intros Hcov Hk Hok Hch Hn Ha. unfold overrideForEntity, mbind, Tx_bind, query.
  destruct (supersede_frees NewID p now o st Hcov Hk Hok Hn Ha) as (st1 & -> & Hfreed).
  pose proof Hfreed as (Hn1 & _ & Hfree). unfold statement.
  rewrite (insert_override_free o (st_tables st1) Hch Hn1 Hfree).
  match goal with |- context [logCreate NewID ?t ?i ?b ?env ?st2] =>
    destruct (logCreate_runs NewID p now t i b st2 (Hcov i)) as (st3 & -> & Ht) end.
  by exists (st_tables st1), st3.
Qed.

(** Overriding. For a permit that covers overrides and an actor who is a person, a
    well-formed request about an entity that exists is refused exactly when an
    override is in force for that entity, and then nothing has changed. Otherwise
    it succeeds: from then on the entity's override is the one just written, for as
    long as it says, a lapsed one having been cleared to make room, and every other
    entity is shown what it was shown before. *)
Theorem HealthOverrideCreate_spec NewID inv fates p id spec built now o st :
  overridden NewID st -> settles fates -> storable built -> storable (built + MaxOverrideDuration) ->
  (forall x, Covers p "health_override" x = true) -> ac_Kind (PermitActor p) = ActorKindUser ->
  NewHealthOverride id spec (PermitActor p) built = inr o -> st_tables st !! id = None ->
  observableExists inv (ho_EntityType o) (ho_EntityID o) = inr true ->
  let (res, st') := HealthOverrideCreate NewID inv true fates p id spec built now st in
  match ActiveOverride (st_tables st) (ho_EntityType o) (ho_EntityID o) now with
  | Some _ => res = inl (Wrapped ErrConflict) /\ st' = st
  | None => res = inr tt /\ forall ty eid t,
      ActiveOverride (st_tables st') ty eid t =
        if decide (ty = ho_EntityType o /\ eid = ho_EntityID o) then (if IsActiveAt o t then Some o else None)
        else ActiveOverride (st_tables st) ty eid t
  end.
Proof.
  intros Hr Hs Hb Hb' Hcov Hk Hnew Hn Hex.
  pose proof (overridden_ok NewID _ Hr) as Hok.
  pose proof (overridden_ok NewID _ (overridden_create NewID inv true fates p id spec built now st Hr Hb Hb')) as Hok'.
  unfold HealthOverrideCreate in *. rewrite Hnew in *. unfold CreateHealthOverride in *.
  pose proof (NewHealthOverride_valid _ _ _ _ _ Hnew) as Hv. rewrite Hv, Hex in *.
  rewrite writeSerializable_settles in * by done. unfold write, writeTx in *. fold (env_of (Some p) now) in *.
  destruct (NewHealthOverride_stable _ _ _ _ _ Hnew) as (_ & Hid & _). rewrite <- Hid in Hn.
  destruct (ActiveOverride _ _ _ now) as [q|] eqn:Ha.
  - apply (ActiveOverride_spec _ _ _ _ q Hok) in Ha as (Hq & Ht & Hi & Ha).
    pose proof (in_force_found _ q now Hok Hq Ha) as Hf. rewrite Ht, Hi in Hf.
    unfold overrideForEntity, mbind, Tx_bind, query. rewrite Hf. cbn [supersede]. by rewrite Ha.
  - destruct (creation_runs NewID p now o st) as (e1 & st' & Hrun & (Hn1 & Hrest & Hfree) & Hst'); try done.
    { by eapply ValidateOverride_checks. }
    rewrite Hrun in *. split; [done|]. intros ty eid t. cbn [snd] in Hok'.
    apply ActiveOverride_put; [done|done|by rewrite Hst', lookup_insert_eq| |].
    + intros q Hq. rewrite Hst', <- Hrest by done.
      destruct (decide (ho_ID q = ho_ID o)) as [Heq|Hne]; [|by rewrite lookup_insert_ne].
      rewrite Heq, lookup_insert_eq, Hn1. split; [intros [= <-]; by destruct Hq|done].
    + intros q Hq Ht' Hi' Hl'. rewrite Hst' in Hq. apply lookup_insert_Some in Hq as [[_ <-]|[_ Hq]]; [done|].
      by destruct (Hfree _ _ Hq Ht' Hi').
Qed.
End Creating.

(** * Samples *)

#[local] Existing Instance ascii_tables.

Definition counted_id (n : nat) : string := String.concat "" (repeat "i" n).

Definition machine_room : Inventory :=
  {| inv_assets := {["a1"; "a2"]}; inv_instances := ∅; inv_environments := ∅ |}.

Definition silence_spec : HealthOverrideSpec :=
  {| hs_EntityType := ObservableAsset; hs_EntityID := "a1"; hs_AssertedState := "up";
     hs_Reason := "sensor fault"; hs_ExpiresAt := ten_o_clock + MaxOverrideDuration |}.

Definition no_overrides : Store Overrides := MkStore ∅ [] 0%nat.

Definition silence (id : string) (at_ : Time) (st : Store Overrides) : (StoreError + unit) * Store Overrides :=
  HealthOverrideCreate counted_id machine_room true (fun _ => Commits) (administratorPermit operator) id
    silence_spec ten_o_clock at_ st.

Lemma silenced : overridden counted_id (snd (silence "o1" ten_o_clock no_overrides)).
Proof.
  unfold silence. apply overridden_create; [apply overridden_none|vm_compute; split; congruence..].
Qed.

Lemma overrides_lapse_witness :
  let st := snd (silence "o1" ten_o_clock no_overrides) in
  exists last, decided sample_override last /\ ten_o_clock < last + MaxOverrideDuration.
Proof.
  cbv zeta. apply (overrides_lapse counted_id _ ObservableAsset "a1" ten_o_clock sample_override silenced);
    [vm_compute; split; congruence|exists "o1"; vm_compute; reflexivity|reflexivity|reflexivity|].
  vm_compute. reflexivity.
Defined.

(** The override is in force a second later, so a second one is refused; a day
    later it has lapsed, and the second one supersedes it. *)
Lemma HealthOverrideCreate_spec_witness :
  let st := snd (silence "o1" ten_o_clock no_overrides) in
  fst (silence "o2" (ten_o_clock + Second) st) = inl (Wrapped ErrConflict) /\
  fst (silence "o2" (ten_o_clock + MaxOverrideDuration) st) = inr tt.
Proof.
  cbv zeta. assert (Hnew : exists o, NewHealthOverride "o2" silence_spec operator ten_o_clock = inr o /\
    ho_EntityType o = ObservableAsset /\ ho_EntityID o = "a1") by (eexists; vm_compute; split_and!; reflexivity).
  destruct Hnew as (o & Hnew & Ht & Hi).
  assert (Hspec := fun now => HealthOverrideCreate_spec counted_id machine_room (fun _ => Commits)
    (administratorPermit operator) "o2" silence_spec ten_o_clock now o _ silenced (or_introl eq_refl)
    ltac:(vm_compute; split; congruence) ltac:(vm_compute; split; congruence) (fun _ => eq_refl) eq_refl
    Hnew ltac:(vm_compute; reflexivity) ltac:(rewrite Ht, Hi; vm_compute; reflexivity)).
  fold (silence "o1" ten_o_clock no_overrides) in Hspec. rewrite Ht, Hi in Hspec.
  split; unfold silence at 1.
  - specialize (Hspec (ten_o_clock + Second)).
    destruct (ActiveOverride _ _ _ _) as [q|] eqn:Ha; [|vm_compute in Ha; discriminate Ha].
    destruct (HealthOverrideCreate _ _ _ _ _ _ _ _ _ _) as [res st']. apply Hspec.
  - specialize (Hspec (ten_o_clock + MaxOverrideDuration)).
    destruct (ActiveOverride _ _ _ _) as [q|] eqn:Ha; [vm_compute in Ha; discriminate Ha|].
    destruct (HealthOverrideCreate _ _ _ _ _ _ _ _ _ _) as [res st']. apply Hspec.
Defined.
