(* ===== verification/Projects.v ===== *)
(** Projects: their links, the people assigned to them, and what a project owner
    may reach. [internal/store/projects.go], [internal/store/user_projects.go],
    the circuits of [internal/store/circuits.go] and [internal/domain/circuit.go],
    [internal/domain/project.go]. The invariant of the tables, which every request
    keeps, and the rule that an entity has one owner.

    The three link tables have one shape and the code has one copy of each
    operation per table, or one that takes the table's name; here there is one,
    and [LinkTable] says which table. The assets, services, providers and users a
    row refers to are sets of identifiers. Constraints of the schema are checks of
    the statement that would violate them, in the order CHECK, uniqueness, foreign
    key, with the error [translateWriteErr] gives. The search index is not part of
    the state. *)
From Stdlib Require Import String Ascii ZArith Lia.
From stdpp Require Import base gmap strings list.
From S2P Require Import Prelude Text Errors Status Timestamps Actors Permits ChangeLog.

#[local] Open Scope string_scope.
#[local] Open Scope list_scope.

(** * Definitions *)

(** ** Data *)

Definition ProjectOwns := "owns".
Definition ProjectUses := "uses".
Definition ProjectRelations := [ProjectOwns; ProjectUses].
Definition ProjectLifecycles :=
  [LifecyclePlanned; LifecycleActive; LifecycleDeprecated; LifecycleRetired].

Record Project := {
  pr_ID : string; pr_Code : string; pr_Name : string; pr_Description : option string;
  pr_TeamID : option string; pr_PricedForVCPU : option Z; pr_PricedForMemoryMB : option Z;
  pr_Lifecycle : string; pr_CreatedAt : string; pr_UpdatedAt : string; pr_RowVersion : Z
}.

Record ProjectSpec := {
  ps_Code : string; ps_Name : string; ps_Description : option string; ps_TeamID : option string;
  ps_Lifecycle : string; ps_PricedForVCPU : option Z; ps_PricedForMemoryMB : option Z
}.

(** [Project.IsRetired] *)
Definition ProjectRetired (p : Project) : bool := String.eqb (pr_Lifecycle p) LifecycleRetired.

Inductive LinkTable := ProjectAsset | ProjectService | ProjectCircuit.

#[export] Instance LinkTable_eq_dec : EqDecision LinkTable.
Proof. solve_decision. Defined.
#[export] Instance LinkTable_countable : Countable LinkTable.
Proof.
  apply (inj_countable' (fun t => match t with ProjectAsset => 0 | ProjectService => 1 | ProjectCircuit => 2 end)
    (fun n => match n with 0 => ProjectAsset | 1 => ProjectService | _ => ProjectCircuit end)).
  by intros [].
Defined.

(** The table, the type of the entity it links, and the column of that entity. *)
Definition table_name (t : LinkTable) : string :=
  match t with ProjectAsset => "project_asset" | ProjectService => "project_service"
             | ProjectCircuit => "project_circuit" end.
Definition linked_type (t : LinkTable) : string :=
  match t with ProjectAsset => "asset" | ProjectService => "service" | ProjectCircuit => "circuit" end.

(** [ProjectAssetLink], [ProjectServiceLink] and [ProjectCircuitLink]. *)
Record ProjectLink := {
  pl_ProjectID : string; pl_EntityID : string; pl_Relation : string; pl_Note : option string;
  pl_Lifecycle : string; pl_CreatedAt : string; pl_UpdatedAt : string
}.

Section Constructors.
Context `{Unicode}.

(** [NewProject] *)
Definition NewProject (id : string) (spec : ProjectSpec) (now : Time) : ValidationError + Project :=
  let '(ve, code) := checkRequired [] "code" (ToLower (TrimSpace (ps_Code spec))) in
  let '(ve, name) := checkRequired ve "name" (ps_Name spec) in
  let lifecycle := TrimSpace (ps_Lifecycle spec) in
  let lifecycle := if String.eqb lifecycle "" then LifecycleActive else lifecycle in
  let ve := if containsString ProjectLifecycles lifecycle then ve
            else Add ve "lifecycle" ("must be one of " +++ String.concat ", " ProjectLifecycles) in
  let ve := checkPositive ve "priced_for_vcpu" (ps_PricedForVCPU spec) in
  let ve := checkPositive ve "priced_for_memory_mb" (ps_PricedForMemoryMB spec) in
  match OrNil ve with
  | Some e => inl e
  | None =>
      inr {| pr_ID := id; pr_Code := code; pr_Name := name; pr_Description := ps_Description spec;
             pr_TeamID := blankToNil (ps_TeamID spec); pr_PricedForVCPU := ps_PricedForVCPU spec;
             pr_PricedForMemoryMB := ps_PricedForMemoryMB spec; pr_Lifecycle := lifecycle;
             pr_CreatedAt := FormatTime now; pr_UpdatedAt := FormatTime now; pr_RowVersion := 0 |}
  end.

(** [checkRelation] *)
Definition checkRelation (ve : ValidationError) (relation : string) : ValidationError * string :=
  let relation := ToLower (TrimSpace relation) in
  if String.eqb relation "" then (Add ve "relation" "is required", relation)
  else (if containsString ProjectRelations relation then ve
        else Add ve "relation" ("must be one of " +++ String.concat ", " ProjectRelations), relation).

(** [NewProjectAssetLink], [NewProjectServiceLink] and [NewProjectCircuitLink] *)
Definition NewProjectLink (t : LinkTable) (projectID entityID relation : string) (note : option string)
    (now : Time) : ValidationError + ProjectLink :=
  let '(ve, _) := checkRequired [] "project_id" projectID in
  let '(ve, _) := checkRequired ve (linked_type t +++ "_id") entityID in
  let '(ve, relation) := checkRelation ve relation in
  match OrNil ve with
  | Some e => inl e
  | None => inr {| pl_ProjectID := projectID; pl_EntityID := entityID; pl_Relation := relation;
                   pl_Note := note; pl_Lifecycle := LifecycleActive; pl_CreatedAt := FormatTime now;
                   pl_UpdatedAt := FormatTime now |}
  end.
End Constructors.

Record Circuit := {
  ci_ID : string; ci_CID : string; ci_ProviderID : string; ci_ServiceType : option string;
  ci_CommitMbps : option Z; ci_InstallDate : option string; ci_ContractEnd : option string;
  ci_Description : option string; ci_Lifecycle : string; ci_CreatedAt : option string;
  ci_UpdatedAt : option string; ci_RowVersion : Z
}.

Section CircuitChecks.
Context `{Unicode}.

(** [Circuit.Validate]: the circuit with its dates normalised, and the failures. *)
Definition ValidateCircuit (c : Circuit) : Circuit * option ValidationError :=
  let ve := if String.eqb (TrimSpace (ci_CID c)) ""
    then Add [] "cid" "a circuit needs the provider's own identifier; it is what you quote when you ring them"
    else [] in
  let ve := if String.eqb (TrimSpace (ci_ProviderID c)) ""
    then Add ve "provider_id" "a circuit needs a provider" else ve in
  let '(ve, install) := checkDate ve "install_date" (ci_InstallDate c) in
  let '(ve, contract) := checkDate ve "contract_end" (ci_ContractEnd c) in
  let ve := match ci_CommitMbps c with
    | Some mbps => if (mbps <=? 0)%Z
        then Add ve "commit_mbps" "a committed rate is a positive number of megabits, or blank" else ve
    | None => ve
    end in
  let ve := match install, contract with
    | Some i, Some e => if str_ltb e i
        then Add ve "contract_end" "the contract ends before the circuit was installed" else ve
    | _, _ => ve
    end in
  let ve := if String.eqb (ci_Lifecycle c) LifecycleActive || String.eqb (ci_Lifecycle c) LifecycleRetired
    then ve else Add ve "lifecycle" (Quote (ci_Lifecycle c) +++ " is not a lifecycle") in
  ({| ci_ID := ci_ID c; ci_CID := ci_CID c; ci_ProviderID := ci_ProviderID c;
      ci_ServiceType := ci_ServiceType c; ci_CommitMbps := ci_CommitMbps c; ci_InstallDate := install;
      ci_ContractEnd := contract; ci_Description := ci_Description c; ci_Lifecycle := ci_Lifecycle c;
      ci_CreatedAt := ci_CreatedAt c; ci_UpdatedAt := ci_UpdatedAt c; ci_RowVersion := ci_RowVersion c |},
   OrNil ve).

(** [NewCircuit] *)
Definition NewCircuit (id cid providerID : string) : ValidationError + Circuit :=
  let '(c, err) := ValidateCircuit
    {| ci_ID := id; ci_CID := TrimSpace cid; ci_ProviderID := providerID; ci_ServiceType := None;
       ci_CommitMbps := None; ci_InstallDate := None; ci_ContractEnd := None; ci_Description := None;
       ci_Lifecycle := LifecycleActive; ci_CreatedAt := None; ci_UpdatedAt := None; ci_RowVersion := 0 |} in
  match err with Some e => inl e | None => inr c end.
End CircuitChecks.

(** [userProjectRow] *)
Record userProjectRow := {
  up_ID : string; up_UserID : string; up_ProjectID : string; up_Lifecycle : string;
  up_CreatedAt : string; up_UpdatedAt : string; up_RowVersion : Z
}.

(** ** The tables *)

Record Estate := {
  es_projects : gmap string Project;
  es_links : gmap (LinkTable * string * string) ProjectLink;
  es_assignments : list userProjectRow;
  es_circuits : gmap string Circuit;
  es_assets : gset string; es_services : gset string; es_providers : gset string; es_users : gset string
}.

Definition with_projects (p : gmap string Project) (e : Estate) : Estate :=
  {| es_projects := p; es_links := es_links e; es_assignments := es_assignments e;
     es_circuits := es_circuits e; es_assets := es_assets e; es_services := es_services e;
     es_providers := es_providers e; es_users := es_users e |}.
Definition with_links (l : gmap (LinkTable * string * string) ProjectLink) (e : Estate) : Estate :=
  {| es_projects := es_projects e; es_links := l; es_assignments := es_assignments e;
     es_circuits := es_circuits e; es_assets := es_assets e; es_services := es_services e;
     es_providers := es_providers e; es_users := es_users e |}.
Definition with_assignments (a : list userProjectRow) (e : Estate) : Estate :=
  {| es_projects := es_projects e; es_links := es_links e; es_assignments := a;
     es_circuits := es_circuits e; es_assets := es_assets e; es_services := es_services e;
     es_providers := es_providers e; es_users := es_users e |}.
Definition with_circuits (c : gmap string Circuit) (e : Estate) : Estate :=
  {| es_projects := es_projects e; es_links := es_links e; es_assignments := es_assignments e;
     es_circuits := c; es_assets := es_assets e; es_services := es_services e;
     es_providers := es_providers e; es_users := es_users e |}.

(** The row a link of the table refers to. *)
Definition entity_exists (t : LinkTable) (id : string) (e : Estate) : bool :=
  match t with
  | ProjectAsset => bool_decide (id ∈ es_assets e)
  | ProjectService => bool_decide (id ∈ es_services e)
  | ProjectCircuit => bool_decide (is_Some (es_circuits e !! id))
  end.

(** ** Audited shapes *)

Definition project_struct (p : Project) : Struct :=
  MkStruct "Project"
    [Column "id" (VText (pr_ID p)); Column "code" (VText (pr_Code p)); Column "name" (VText (pr_Name p));
     Column "description" (text_or_null (pr_Description p)); Column "team_id" (text_or_null (pr_TeamID p));
     Column "priced_for_vcpu" (int_or_null (pr_PricedForVCPU p));
     Column "priced_for_memory_mb" (int_or_null (pr_PricedForMemoryMB p));
     Column "lifecycle" (VText (pr_Lifecycle p)); Column "created_at" (VText (pr_CreatedAt p));
     Column "updated_at" (VText (pr_UpdatedAt p)); Column "row_version" (VInt (pr_RowVersion p))].

(** [auditedProject] *)
Definition auditedProject (p : Project) (tags : string) : Struct :=
  MkStruct "projectAudit" [Embedded (project_struct p); Column "tags" (VText tags)].

Definition link_struct (t : LinkTable) (l : ProjectLink) : Struct :=
  MkStruct (match t with ProjectAsset => "ProjectAssetLink" | ProjectService => "ProjectServiceLink"
                       | ProjectCircuit => "ProjectCircuitLink" end)
    [Column "project_id" (VText (pl_ProjectID l)); Column (linked_type t +++ "_id") (VText (pl_EntityID l));
     Column "relation" (VText (pl_Relation l)); Column "note" (text_or_null (pl_Note l));
     Column "lifecycle" (VText (pl_Lifecycle l)); Column "created_at" (VText (pl_CreatedAt l));
     Column "updated_at" (VText (pl_UpdatedAt l))].

Definition circuit_struct (c : Circuit) : Struct :=
  MkStruct "Circuit"
    [Column "id" (VText (ci_ID c)); Column "cid" (VText (ci_CID c));
     Column "provider_id" (VText (ci_ProviderID c)); Column "service_type" (text_or_null (ci_ServiceType c));
     Column "commit_mbps" (int_or_null (ci_CommitMbps c));
     Column "install_date" (text_or_null (ci_InstallDate c));
     Column "contract_end" (text_or_null (ci_ContractEnd c));
     Column "description" (text_or_null (ci_Description c)); Column "lifecycle" (VText (ci_Lifecycle c));
     Column "created_at" (text_or_null (ci_CreatedAt c)); Column "updated_at" (text_or_null (ci_UpdatedAt c));
     Column "row_version" (VInt (ci_RowVersion c))].

Definition assignment_struct (a : userProjectRow) : Struct :=
  MkStruct "userProjectRow"
    [Column "id" (VText (up_ID a)); Column "user_id" (VText (up_UserID a));
     Column "project_id" (VText (up_ProjectID a)); Column "lifecycle" (VText (up_Lifecycle a));
     Column "created_at" (VText (up_CreatedAt a)); Column "updated_at" (VText (up_UpdatedAt a));
     Column "row_version" (VInt (up_RowVersion a))].

(** ** Statements *)

Definition refuse {A} (e : Sentinel) : StoreError + A := inl (Wrapped e).

(** Another project's active [owns] link to the entity. *)
Definition owned_elsewhere (t : LinkTable) (projectID entityID : string) (e : Estate) : bool :=
  existsb (fun kl =>
    let '((t', p, id), l) := kl in
    bool_decide (t' = t) && String.eqb id entityID && String.eqb (pl_Relation l) ProjectOwns &&
    String.eqb (pl_Lifecycle l) LifecycleActive && negb (String.eqb p projectID))
    (map_to_list (es_links e)).

(** The constraints of a link row: CHECK, the partial unique index, the foreign
    keys. *)
Definition link_constraints (t : LinkTable) (l : ProjectLink) (e : Estate) : option Sentinel :=
  if negb (containsString ProjectRelations (pl_Relation l)) ||
     negb (containsString [LifecycleActive; LifecycleRetired] (pl_Lifecycle l)) then Some ErrInvalid
  else if String.eqb (pl_Relation l) ProjectOwns && String.eqb (pl_Lifecycle l) LifecycleActive &&
          owned_elsewhere t (pl_ProjectID l) (pl_EntityID l) e then Some ErrConflict
  else if bool_decide (es_projects e !! pl_ProjectID l = None) || negb (entity_exists t (pl_EntityID l) e)
  then Some ErrInvalid else None.

Definition link_key (t : LinkTable) (l : ProjectLink) : LinkTable * string * string :=
  (t, pl_ProjectID l, pl_EntityID l).

(** [INSERT ... ON CONFLICT (project_id, ...) DO UPDATE]: the row keeps its
    creation time. *)
Definition upsert_link (t : LinkTable) (l : ProjectLink) (e : Estate) : StoreError + Estate :=
  match link_constraints t l e with
  | Some err => refuse err
  | None =>
      let row := match es_links e !! link_key t l with
        | Some old => {| pl_ProjectID := pl_ProjectID l; pl_EntityID := pl_EntityID l;
                         pl_Relation := pl_Relation l; pl_Note := pl_Note l;
                         pl_Lifecycle := pl_Lifecycle l; pl_CreatedAt := pl_CreatedAt old;
                         pl_UpdatedAt := pl_UpdatedAt l |}
        | None => l
        end in
      inr (with_links (<[link_key t l := row]> (es_links e)) e)
  end.

(** A plain [INSERT] of a link. *)
Definition insert_link (t : LinkTable) (l : ProjectLink) (e : Estate) : StoreError + Estate :=
  if bool_decide (is_Some (es_links e !! link_key t l)) then refuse ErrConflict
  else match link_constraints t l e with
       | Some err => refuse err
       | None => inr (with_links (<[link_key t l := l]> (es_links e)) e)
       end.

Definition retired_link (now : string) (l : ProjectLink) : ProjectLink :=
  {| pl_ProjectID := pl_ProjectID l; pl_EntityID := pl_EntityID l; pl_Relation := pl_Relation l;
     pl_Note := pl_Note l; pl_Lifecycle := LifecycleRetired; pl_CreatedAt := pl_CreatedAt l;
     pl_UpdatedAt := now |}.

Definition with_lifecycle (lifecycle now : string) (p : Project) : Project :=
  {| pr_ID := pr_ID p; pr_Code := pr_Code p; pr_Name := pr_Name p; pr_Description := pr_Description p;
     pr_TeamID := pr_TeamID p; pr_PricedForVCPU := pr_PricedForVCPU p;
     pr_PricedForMemoryMB := pr_PricedForMemoryMB p; pr_Lifecycle := lifecycle;
     pr_CreatedAt := pr_CreatedAt p; pr_UpdatedAt := now; pr_RowVersion := (pr_RowVersion p + 1)%Z |}.

Definition is_active_assignment (userID projectID : string) (a : userProjectRow) : bool :=
  String.eqb (up_UserID a) userID && String.eqb (up_ProjectID a) projectID &&
  String.eqb (up_Lifecycle a) LifecycleActive.

Section Store.
Context (NewID : nat -> string).

(** [link.ProjectID + "/" + link.AssetID] *)
Definition link_id (projectID entityID : string) : string := projectID +++ "/" +++ entityID.

(** ** Projects *)

(** [CreateProject] *)
Definition CreateProject (fate : Fate) (permit : option Permit) (now : Time) (p : Project)
    : Store Estate -> (StoreError + unit) * Store Estate :=
  let p := {| pr_ID := pr_ID p; pr_Code := pr_Code p; pr_Name := pr_Name p;
              pr_Description := pr_Description p; pr_TeamID := pr_TeamID p;
              pr_PricedForVCPU := pr_PricedForVCPU p; pr_PricedForMemoryMB := pr_PricedForMemoryMB p;
              pr_Lifecycle := pr_Lifecycle p; pr_CreatedAt := pr_CreatedAt p;
              pr_UpdatedAt := pr_UpdatedAt p; pr_RowVersion := 1 |} in
  write fate permit now (
    _ ← statement (fun e =>
      if String.eqb (pr_Code p) "" || String.eqb (pr_Name p) "" ||
         negb (containsString ProjectLifecycles (pr_Lifecycle p)) then refuse ErrInvalid
      else if bool_decide (is_Some (es_projects e !! pr_ID p)) ||
              existsb (fun q => String.eqb (pr_Code q) (pr_Code p)) (map_to_list (es_projects e)).*2
      then refuse ErrConflict
      else inr (with_projects (<[pr_ID p := p]> (es_projects e)) e));
    logCreate NewID "project" (pr_ID p) (auditedProject p "")).

(** [UpdateProject]; [tags] is what [entityTagsAudit] reads. *)
Definition UpdateProject (fate : Fate) (permit : option Permit) (now : Time) (p : Project) (tags : string)
    : Store Estate -> (StoreError + unit) * Store Estate :=
  write fate permit now (
    before ← query (fun e => es_projects e !! pr_ID p);
    match before with
    | None => fail (Wrapped ErrNotFound)
    | Some before =>
        let p' := {| pr_ID := pr_ID p; pr_Code := pr_Code p; pr_Name := pr_Name p;
          pr_Description := pr_Description p; pr_TeamID := pr_TeamID p;
          pr_PricedForVCPU := pr_PricedForVCPU p; pr_PricedForMemoryMB := pr_PricedForMemoryMB p;
          pr_Lifecycle := pr_Lifecycle p; pr_CreatedAt := pr_CreatedAt before;
          pr_UpdatedAt := pr_UpdatedAt p; pr_RowVersion := (pr_RowVersion p + 1)%Z |} in
        _ ← statement (fun e =>
          if negb (pr_RowVersion before =? pr_RowVersion p)%Z then refuse ErrStale
          else if String.eqb (pr_Code p) "" || String.eqb (pr_Name p) "" ||
             negb (containsString ProjectLifecycles (pr_Lifecycle p)) then refuse ErrInvalid
          else if existsb (fun q => String.eqb (pr_Code q) (pr_Code p) && negb (String.eqb (pr_ID q) (pr_ID p)))
                    (map_to_list (es_projects e)).*2
          then refuse ErrConflict
          else inr (with_projects (<[pr_ID p := p']> (es_projects e)) e));
        logUpdate NewID "project" (pr_ID p) (auditedProject before tags) (auditedProject p' tags)
    end).

(** The loop of [releaseLinks] over the entities released. *)
Fixpoint log_released (t : LinkTable) (projectID : string) (ids : list string) : Tx Estate unit :=
  match ids with
  | [] => mret tt
  | id :: ids' =>
      _ ← log NewID (table_name t) (link_id projectID id) ActionRetire (Literal "project retired") "";
      log_released t projectID ids'
  end.

(** The active links of a project in one table, in order. *)
Definition active_links (t : LinkTable) (projectID : string) (e : Estate) : list string :=
  isort str_ltb (omap (fun kl =>
    let '((t', p, id), l) := kl in
    if bool_decide (t' = t) && String.eqb p projectID && String.eqb (pl_Lifecycle l) LifecycleActive
    then Some id else None) (map_to_list (es_links e))).

(** [releaseLinks] *)
Definition releaseLinks (t : LinkTable) (projectID now : string) : Tx Estate unit :=
  ids ← query (active_links t projectID);
  match ids with
  | [] => mret tt
  | _ =>
      _ ← statement (fun e => inr (with_links
        (map_imap (fun k l =>
           let '(t', p, id) := k in
           Some (if bool_decide (t' = t) && String.eqb p projectID &&
                    String.eqb (pl_Lifecycle l) LifecycleActive then retired_link now l else l))
          (es_links e)) e));
      log_released t projectID ids
  end.

(** [RetireProject] *)
Definition RetireProject (fate : Fate) (permit : option Permit) (now : Time) (id : string)
    : Store Estate -> (StoreError + unit) * Store Estate :=
  write fate permit now (
    before ← query (fun e => es_projects e !! id);
    match before with
    | None => fail (Wrapped ErrNotFound)
    | Some before =>
        if ProjectRetired before then mret tt
        else
          let at_ := FormatTime now in
          let after := with_lifecycle LifecycleRetired at_ before in
          _ ← statement (fun e => inr (with_projects (<[id := after]> (es_projects e)) e));
          _ ← logUpdate NewID "project" id (project_struct before) (project_struct after);
          _ ← releaseLinks ProjectAsset id at_;
          releaseLinks ProjectService id at_
    end).

(** ** Links *)

(** [checkOwnerFree] *)
Definition checkOwnerFree (t : LinkTable) (entityID projectID : string) : Tx Estate unit :=
  taken ← query (owned_elsewhere t projectID entityID);
  if (taken : bool) then fail (Wrapped ErrConflict) else mret tt.

(** [LinkProjectAsset], [LinkProjectService] and [LinkProjectCircuit] *)
Definition LinkProject (t : LinkTable) (fates : nat -> Fate) (permit : option Permit) (now : Time)
    (l : ProjectLink) : Store Estate -> (StoreError + unit) * Store Estate :=
  writeSerializable fates permit now (
    _ ← (if String.eqb (pl_Relation l) ProjectOwns
         then checkOwnerFree t (pl_EntityID l) (pl_ProjectID l) else mret tt);
    before ← query (fun e => es_links e !! link_key t l);
    _ ← statement (upsert_link t l);
    match before with
    | Some before => logUpdate NewID (table_name t) (link_id (pl_ProjectID l) (pl_EntityID l))
                       (link_struct t before) (link_struct t l)
    | None => logCreate NewID (table_name t) (link_id (pl_ProjectID l) (pl_EntityID l)) (link_struct t l)
    end).

(** [retireLink] *)
Definition retireLink (t : LinkTable) (fate : Fate) (permit : option Permit) (now : Time)
    (projectID entityID : string) : Store Estate -> (StoreError + unit) * Store Estate :=
  write fate permit now (
    link ← query (fun e => es_links e !! (t, projectID, entityID));
    match link with
    | None => fail (Wrapped ErrNotFound)
    | Some l =>
        if String.eqb (pl_Lifecycle l) LifecycleRetired then mret tt
        else
          _ ← statement (fun e => inr (with_links
            (<[(t, projectID, entityID) := retired_link (FormatTime now) l]> (es_links e)) e));
          log NewID (table_name t) (link_id projectID entityID) ActionRetire (Literal "retired") ""
    end).

(** ** Assignments *)

(** [AssignProject] *)
Definition AssignProject (fate : Fate) (permit : option Permit) (now : Time) (userID projectID : string)
    : Store Estate -> (StoreError + unit) * Store Estate :=
  write fate permit now (
    existing ← query (fun e => existsb (is_active_assignment userID projectID) (es_assignments e));
    if (existing : bool) then mret tt
    else
      id ← newID NewID;
      let row := {| up_ID := id; up_UserID := userID; up_ProjectID := projectID;
                    up_Lifecycle := LifecycleActive; up_CreatedAt := FormatTime now;
                    up_UpdatedAt := FormatTime now; up_RowVersion := 1 |} in
      _ ← statement (fun e =>
        if existsb (fun a => String.eqb (up_ID a) id) (es_assignments e) then refuse ErrConflict
        else if negb (bool_decide (userID ∈ es_users e)) || bool_decide (es_projects e !! projectID = None)
        then refuse ErrInvalid
        else inr (with_assignments (es_assignments e ++ [row]) e));
      logCreate NewID "user_project" (link_id userID projectID) (assignment_struct row)).

(** [ReleaseProject] *)
Definition ReleaseProject (fate : Fate) (permit : option Permit) (now : Time) (userID projectID : string)
    : Store Estate -> (StoreError + unit) * Store Estate :=
  write fate permit now (
    found ← query (fun e => List.find (is_active_assignment userID projectID) (es_assignments e));
    match found with
    | None => mret tt
    | Some a =>
        _ ← statement (fun e => inr (with_assignments
          ((fun b => if String.eqb (up_ID b) (up_ID a)
             then {| up_ID := up_ID b; up_UserID := up_UserID b; up_ProjectID := up_ProjectID b;
                     up_Lifecycle := LifecycleRetired; up_CreatedAt := up_CreatedAt b;
                     up_UpdatedAt := FormatTime now; up_RowVersion := (up_RowVersion b + 1)%Z |}
             else b) <$> es_assignments e) e));
        log NewID "user_project" (link_id userID projectID) ActionRetire (Literal "retired") ""
    end).

(** [ProjectsForUser], in order of the project's identifier. *)
Definition projects_for_user (e : Estate) (userID : string) : list string :=
  isort str_ltb (omap (fun a =>
    if String.eqb (up_UserID a) userID && String.eqb (up_Lifecycle a) LifecycleActive
    then match es_projects e !! up_ProjectID a with
         | Some p => if ProjectRetired p then None else Some (up_ProjectID a)
         | None => None
         end
    else None) (es_assignments e)).

Definition idChunkSize : nat := 500.

(** [chunkIDs]; there are at most as many chunks as identifiers. *)
Fixpoint chunks (fuel : nat) (ids : list string) : list (list string) :=
  match fuel, ids with
  | _, [] => []
  | O, _ => []
  | S fuel', _ => firstn idChunkSize ids :: chunks fuel' (skipn idChunkSize ids)
  end.
Definition chunkIDs (ids : list string) : list (list string) :=
  if (length ids <=? idChunkSize)%nat then [ids] else chunks (length ids) ids.

(** [entityIDsForProjects]; the statement's rows come in the table's order. *)
Definition entityIDsForProjects (t : LinkTable) (e : Estate) (projectIDs : list string) : list string :=
  match projectIDs with
  | [] => []
  | _ => foldl (fun out chunk =>
      foldl (fun out kl =>
        let '((t', p, id), l) := kl in
        if bool_decide (t' = t) && containsString chunk p && String.eqb (pl_Lifecycle l) LifecycleActive &&
           match es_projects e !! p with Some pr => negb (ProjectRetired pr) | None => false end &&
           negb (containsString out id)
        then out ++ [id] else out) out (map_to_list (es_links e))) [] (chunkIDs projectIDs)
  end.

(** ** Circuits *)

(** [insertCircuit] *)
Definition insertCircuit (c : Circuit) : Tx Estate unit :=
  _ ← statement (fun e =>
    if match ci_CommitMbps c with Some m => (m <=? 0)%Z | None => false end ||
       negb (containsString [LifecycleActive; LifecycleRetired] (ci_Lifecycle c)) then refuse ErrInvalid
    else if bool_decide (is_Some (es_circuits e !! ci_ID c)) ||
       (negb (String.eqb (ci_Lifecycle c) LifecycleRetired) &&
        existsb (fun d => String.eqb (ci_ProviderID d) (ci_ProviderID c) && String.eqb (ci_CID d) (ci_CID c) &&
                          negb (String.eqb (ci_Lifecycle d) LifecycleRetired))
          (map_to_list (es_circuits e)).*2)
    then refuse ErrConflict
    else if negb (bool_decide (ci_ProviderID c ∈ es_providers e)) then refuse ErrInvalid
    else inr (with_circuits (<[ci_ID c := c]> (es_circuits e)) e));
  logCreate NewID "circuit" (ci_ID c) (circuit_struct c).

(** A new circuit as the store completes it. *)
Definition new_circuit (c : Circuit) (now : Time) : Circuit :=
  {| ci_ID := ci_ID c; ci_CID := ci_CID c; ci_ProviderID := ci_ProviderID c;
     ci_ServiceType := ci_ServiceType c; ci_CommitMbps := ci_CommitMbps c;
     ci_InstallDate := ci_InstallDate c; ci_ContractEnd := ci_ContractEnd c;
     ci_Description := ci_Description c; ci_Lifecycle := ci_Lifecycle c;
     ci_CreatedAt := Some (FormatTime now); ci_UpdatedAt := Some (FormatTime now); ci_RowVersion := 1 |}.

(** [insertProjectCircuitLink] *)
Definition insertProjectCircuitLink (projectID circuitID : string) (now : Time) : Tx Estate unit :=
  let l := {| pl_ProjectID := projectID; pl_EntityID := circuitID; pl_Relation := ProjectOwns;
              pl_Note := None; pl_Lifecycle := LifecycleActive; pl_CreatedAt := FormatTime now;
              pl_UpdatedAt := FormatTime now |} in
  _ ← statement (insert_link ProjectCircuit l);
  logCreate NewID (table_name ProjectCircuit) (link_id projectID circuitID) (link_struct ProjectCircuit l).

Section Circuits.
Context `{Unicode}.

(** [CreateCircuit] *)
Definition CreateCircuit (fate : Fate) (permit : option Permit) (now : Time) (c : Circuit)
    (st : Store Estate) : (StoreError + unit) * Store Estate :=
  let '(c, err) := ValidateCircuit c in
  match err with
  | Some ve => (inl (Invalid ve), st)
  | None => write fate permit now (insertCircuit (new_circuit c now)) st
  end.

(** [CreateCircuitInProject] *)
Definition CreateCircuitInProject (fate : Fate) (permit : option Permit) (now : Time) (projectID : string)
    (c : Circuit) (st : Store Estate) : (StoreError + unit) * Store Estate :=
  let '(c, err) := ValidateCircuit c in
  match err with
  | Some ve => (inl (Invalid ve), st)
  | None =>
      if negb (PermitHoldsProject permit projectID) then (inl (Wrapped ErrForbidden), st)
      else
        let actor := match permit with Some p => PermitActor p | None => SystemActor end in
        let c := new_circuit c now in
        let txPermit := scopedPermit actor [projectID] {["circuit" := {[ci_ID c := true]}]} in
        write fate (Some txPermit) now (
          _ ← insertCircuit c;
          insertProjectCircuitLink projectID (ci_ID c) now) st
  end.
End Circuits.
End Store.

(** The reads of the authorizer, on these tables. *)
#[export] Instance Estate_resolver : ProjectResolver (Store Estate) := {
  ProjectsForUser st userID := Some (projects_for_user (st_tables st) userID);
  AssetIDsForProjects st ids := Some (entityIDsForProjects ProjectAsset (st_tables st) ids);
  ServiceIDsForProjects st ids := Some (entityIDsForProjects ProjectService (st_tables st) ids);
  CircuitIDsForProjects st ids := Some (entityIDsForProjects ProjectCircuit (st_tables st) ids)
}.

(** ** Requests *)

Inductive Op :=
  | OpCreateProject (p : Project)
  | OpUpdateProject (p : Project) (tags : string)
  | OpRetireProject (id : string)
  | OpLink (t : LinkTable) (l : ProjectLink)
  | OpRetireLink (t : LinkTable) (projectID entityID : string)
  | OpAssign (userID projectID : string)
  | OpRelease (userID projectID : string)
  | OpCreateCircuit (c : Circuit)
  | OpCreateCircuitInProject (projectID : string) (c : Circuit).

Section Requests.
Context `{Unicode} (NewID : nat -> string).

Definition run_op (op : Op) (fates : nat -> Fate) (p : option Permit) (now : Time) (st : Store Estate)
    : (StoreError + unit) * Store Estate :=
  match op with
  | OpCreateProject q => CreateProject NewID (fates O) p now q st
  | OpUpdateProject q tags => UpdateProject NewID (fates O) p now q tags st
  | OpRetireProject id => RetireProject NewID (fates O) p now id st
  | OpLink t l => LinkProject NewID t fates p now l st
  | OpRetireLink t P E => retireLink NewID t (fates O) p now P E st
  | OpAssign u P => AssignProject NewID (fates O) p now u P st
  | OpRelease u P => ReleaseProject NewID (fates O) p now u P st
  | OpCreateCircuit c => CreateCircuit NewID (fates O) p now c st
  | OpCreateCircuitInProject P c => CreateCircuitInProject NewID (fates O) p now P c st
  end.

End Requests.

(** * Lemmas *)

(** ** The invariant of the tables *)

Definition owning (l : ProjectLink) : Prop :=
  pl_Relation l = ProjectOwns /\ pl_Lifecycle l = LifecycleActive.

(** Links are stored under the project and entity they name, and both exist; an
    entity has at most one active owner; projects are stored under their
    identifiers and have different codes; assignments have different identifiers,
    a user at most one active assignment to a project, and both the project and the
    user exist. *)
Record estate_ok (e : Estate) : Prop := {
  ok_links : forall t P E l, es_links e !! (t, P, E) = Some l ->
    pl_ProjectID l = P /\ pl_EntityID l = E /\ is_Some (es_projects e !! P) /\ entity_exists t E e = true;
  ok_owner : forall t P P' E l l', es_links e !! (t, P, E) = Some l -> es_links e !! (t, P', E) = Some l' ->
    owning l -> owning l' -> P = P';
  ok_codes : forall P Q p q, es_projects e !! P = Some p -> es_projects e !! Q = Some q ->
    pr_ID p = P /\ (pr_Code p = pr_Code q -> P = Q);
  ok_ids : NoDup (up_ID <$> es_assignments e);
  ok_single : forall u P, (count_if (is_active_assignment u P) (es_assignments e) <= 1)%nat;
  ok_assigned : forall a, a ∈ es_assignments e ->
    is_Some (es_projects e !! up_ProjectID a) /\ up_UserID a ∈ es_users e
}.

Lemma owned_elsewhere_spec t P E e :
  owned_elsewhere t P E e = true <->
  exists P' l, es_links e !! (t, P', E) = Some l /\ owning l /\ P' <> P.
Proof.
  unfold owned_elsewhere. rewrite existsb_elem_of. split.
  - intros ([[[t' P'] E'] l] & Hin%elem_of_map_to_list & Hl).
    rewrite !andb_true_iff, bool_decide_eq_true, negb_true_iff, !String.eqb_eq, String.eqb_neq in Hl.
    destruct Hl as ((((-> & ->) & Hr) & Hl) & Hne). by exists P', l.
  - intros (P' & l & Hl & [Hr Ha] & Hne). exists ((t, P', E), l). split; [by apply elem_of_map_to_list|].
    cbn. rewrite !andb_true_iff, bool_decide_eq_true, negb_true_iff, !String.eqb_eq, String.eqb_neq. done.
Qed.

(** Writing one row the constraints allow. *)
Lemma ok_insert_link t l row e :
  estate_ok e -> link_constraints t l e = None ->
  pl_ProjectID row = pl_ProjectID l -> pl_EntityID row = pl_EntityID l ->
  pl_Relation row = pl_Relation l -> pl_Lifecycle row = pl_Lifecycle l ->
  estate_ok (with_links (<[link_key t l := row]> (es_links e)) e).
Proof.
  intros [O1 O2 O3 O4 O5 O6] Hc HP HE Hr Hl. unfold link_constraints in Hc.
  destruct (_ || _) in Hc; [discriminate Hc|].
  destruct (_ && _) eqn:Hown in Hc; [discriminate Hc|].
  destruct (_ || _) eqn:Hfk in Hc; [discriminate Hc|]. clear Hc.
  apply orb_false_iff in Hfk as [Hproj Hent]. rewrite bool_decide_eq_false in Hproj.
  apply negb_false_iff in Hent.
  assert (Hnew : forall P' l', es_links e !! (t, P', pl_EntityID l) = Some l' -> owning l' -> owning row ->
    P' = pl_ProjectID l).
  { intros P' l' Hl' Ho' [Ho1 Ho2]. rewrite Hr in Ho1. rewrite Hl in Ho2.
    rewrite Ho1, Ho2, !String.eqb_refl in Hown. cbn in Hown.
    destruct (decide (P' = pl_ProjectID l)) as [|Hne]; [done|].
    by rewrite (proj2 (owned_elsewhere_spec _ _ _ _)) in Hown by eauto. }
  split; try done.
  - intros t' P E l' Hl'. cbn in Hl'. apply lookup_insert_Some in Hl' as [[[= <- <- <-] <-]|[_ Hl']].
    + split_and!; [done|done|by apply not_eq_None_Some|done].
    + by apply (O1 _ _ _ _ Hl').
  - intros t' P P' E l1 l2 H1 H2 Ho1 Ho2. cbn in H1, H2.
    apply lookup_insert_Some in H1 as [[[= <- <- <-] <-]|[_ H1]];
      apply lookup_insert_Some in H2 as [[[=] <-]|[_ H2]]; subst.
    + done.
    + symmetry. by eapply Hnew.
    + by eapply Hnew.
    + by apply (O2 t' P P' E l1 l2).
Qed.

(** Rewriting rows without making an owner. *)
Lemma ok_weaken_links links' e :
  estate_ok e ->
  (forall k l', links' !! k = Some l' -> exists l, es_links e !! k = Some l /\
     pl_ProjectID l' = pl_ProjectID l /\ pl_EntityID l' = pl_EntityID l /\ (owning l' -> owning l)) ->
  estate_ok (with_links links' e).
Proof.
  intros [O1 O2 O3 O4 O5 O6] Hw. split; try done.
  - intros t P E l' Hl'. cbn in Hl'. destruct (Hw _ _ Hl') as (l & Hl & HP & HE & _).
    rewrite HP, HE. apply (O1 _ _ _ _ Hl).
  - intros t P P' E l1 l2 H1 H2 Ho1 Ho2. cbn in H1, H2.
    destruct (Hw _ _ H1) as (l1' & H1' & _ & _ & Hw1), (Hw _ _ H2) as (l2' & H2' & _ & _ & Hw2).
    by eapply (O2 t P P' E l1' l2'); eauto.
Qed.

Lemma not_owning_retired now l : ~ owning (retired_link now l).
Proof. intros [_ H]. discriminate H. Qed.

Lemma ok_retire_link t P E l now e :
  estate_ok e -> es_links e !! (t, P, E) = Some l ->
  estate_ok (with_links (<[(t, P, E) := retired_link now l]> (es_links e)) e).
Proof.
  intros Hok Hl. apply ok_weaken_links; [done|]. intros k l' Hk.
  apply lookup_insert_Some in Hk as [[<- <-]|[_ Hk]].
  - exists l. by split_and!; [| | |intros ?%not_owning_retired].
  - exists l'. by split_and!.
Qed.

Lemma ok_insert_project p id e :
  estate_ok e -> pr_ID p = id ->
  (forall Q q, es_projects e !! Q = Some q -> Q <> id -> pr_Code q <> pr_Code p) ->
  estate_ok (with_projects (<[id := p]> (es_projects e)) e).
Proof.
  intros [O1 O2 O3 O4 O5 O6] Hid Hcode.
  assert (Hgrow : forall P, is_Some (es_projects e !! P) -> is_Some (<[id := p]> (es_projects e) !! P)).
  { intros P ?. rewrite lookup_insert_is_Some. destruct (decide (id = P)); auto. }
  split; try done.
  - intros t P E l Hl. destruct (O1 _ _ _ _ Hl) as (? & ? & ? & ?). split_and!; auto.
  - intros P Q p1 q1 H1 H2. cbn in H1, H2.
    apply lookup_insert_Some in H1 as [[<- <-]|[Hn1 H1]];
      apply lookup_insert_Some in H2 as [[<- <-]|[Hn2 H2]].
    + done.
    + split; [done|]. intros Heq. by destruct (Hcode _ _ H2 (not_eq_sym Hn2)).
    + split; [by apply (O3 P P p1 p1)|]. intros Heq. by destruct (Hcode _ _ H1 (not_eq_sym Hn1)).
    + by apply (O3 P Q p1 q1).
  - intros a Ha. cbn. destruct (O6 a Ha) as [Hp Hu]. split; [by apply Hgrow|done].
Qed.

Lemma existsb_rows {K A} `{Countable K} (f : A -> bool) (m : gmap K A) :
  existsb f (map_to_list m).*2 = false <-> forall k x, m !! k = Some x -> f x = false.
Proof.
  rewrite <- not_true_iff_false, existsb_elem_of. split.
  - intros Hn k x Hk. apply not_true_iff_false. intros Hf. apply Hn. exists x. split; [|done].
    apply list_elem_of_fmap. exists (k, x). split; [done|]. by apply elem_of_map_to_list.
  - intros Hall (x & ([k y] & -> & Hin%elem_of_map_to_list)%list_elem_of_fmap & Hf). cbn in *.
    by rewrite (Hall _ _ Hin) in Hf.
Qed.

Lemma ok_circuit c e :
  estate_ok e -> estate_ok (with_circuits (<[ci_ID c := c]> (es_circuits e)) e).
Proof.
  intros [O1 O2 O3 O4 O5 O6]. split; try done.
  intros t P E l Hl. destruct (O1 _ _ _ _ Hl) as (? & ? & ? & He). split_and!; try done.
  destruct t; try done. cbn in *. rewrite bool_decide_eq_true in *.
  rewrite lookup_insert_is_Some. destruct (decide (ci_ID c = E)); auto.
Qed.

Lemma ok_assign row e :
  estate_ok e -> existsb (fun a => String.eqb (up_ID a) (up_ID row)) (es_assignments e) = false ->
  existsb (is_active_assignment (up_UserID row) (up_ProjectID row)) (es_assignments e) = false ->
  is_Some (es_projects e !! up_ProjectID row) -> up_UserID row ∈ es_users e ->
  estate_ok (with_assignments (es_assignments e ++ [row]) e).
Proof.
  intros [O1 O2 O3 O4 O5 O6] Hid Hact Hproj Huser. split; try done; cbn [es_assignments with_assignments].
  - rewrite fmap_app, NoDup_app. split_and!; [done| |apply NoDup_singleton].
    intros i (a & -> & Ha)%list_elem_of_fmap Hi%list_elem_of_singleton.
    apply not_true_iff_false in Hid. apply Hid, existsb_elem_of. exists a. by rewrite Hi, String.eqb_refl.
  - intros u P. rewrite Permutation_app_comm. change ([row] ++ es_assignments e) with (row :: es_assignments e).
    rewrite count_if_cons. specialize (O5 u P). destruct (is_active_assignment u P row) eqn:Hr; [|done].
    unfold is_active_assignment in Hr. rewrite !andb_true_iff, !String.eqb_eq in Hr.
    destruct Hr as [[<- <-] _]. pose proof (count_if_pos (is_active_assignment (up_UserID row) (up_ProjectID row))
      (es_assignments e)) as Hc. rewrite Hact in Hc. apply Nat.ltb_ge in Hc. lia.
  - intros a [Ha| ->%list_elem_of_singleton]%elem_of_app; [by apply O6|done].
Qed.

Lemma count_if_fmap_le {A} (f : A -> bool) (g : A -> A) l :
  (forall x, f (g x) = true -> f x = true) -> (count_if f (g <$> l) <= count_if f l)%nat.
Proof.
  intros Hg. induction l as [|x l IH]; [done|]. cbn [fmap list_fmap]. rewrite !count_if_cons.
  specialize (Hg x). destruct (f (g x)) eqn:E; [rewrite Hg by done|destruct (f x)]; lia.
Qed.

(** Retiring some of the rows in place. *)
Lemma ok_reassign g e :
  estate_ok e ->
  (forall a, up_ID (g a) = up_ID a /\ up_ProjectID (g a) = up_ProjectID a /\ up_UserID (g a) = up_UserID a /\
     forall u P, is_active_assignment u P (g a) = true -> is_active_assignment u P a = true) ->
  estate_ok (with_assignments (g <$> es_assignments e) e).
Proof.
  intros [O1 O2 O3 O4 O5 O6] Hg. split; try done; cbn [es_assignments with_assignments].
  - rewrite <- list_fmap_compose. erewrite list_fmap_ext; [exact O4|]. intros i a _. apply Hg.
  - intros u P. etransitivity; [|apply (O5 u P)]. apply count_if_fmap_le. intros a. apply Hg.
  - intros a (b & -> & Hb)%list_elem_of_fmap. destruct (Hg b) as (_ & -> & -> & _). by apply O6.
Qed.

Section Invariant.
Context `{Unicode} (NewID : nat -> string).

(** A body that keeps the invariant. *)
Definition keeps {A} (m : Tx Estate A) : Prop :=
  forall env st a st', m env st = inr (a, st') -> estate_ok (st_tables st) -> estate_ok (st_tables st').

Lemma written_keeps {A} p now (fn : Tx Estate A) st out :
  keeps fn -> written_by p now fn st out -> estate_ok (st_tables st) -> estate_ok (st_tables (snd out)).
Proof. intros Hk [e|a st' E] Hok; [done|]. by apply (Hk _ _ _ _ E). Qed.

Lemma keeps_bind {A B} (m : Tx Estate A) (f : A -> Tx Estate B) :
  keeps m -> (forall a, keeps (f a)) -> keeps (m ≫= f).
Proof. intros Hm Hf env st b st' (a & st1 & H1 & H2)%bind_inv Hok. eapply Hf, Hm; eauto. Qed.

Lemma keeps_ret {A} (a : A) : keeps (mret a : Tx Estate A).
Proof. by intros env st a' st' [_ ->]%ret_inv. Qed.
Lemma keeps_fail {A} e : keeps (fail e : Tx Estate A).
Proof. by intros env st a st'. Qed.
Lemma keeps_query {A} (f : Estate -> A) : keeps (query f).
Proof. by intros env st a st' [_ ->]%query_inv. Qed.
Lemma keeps_statement f : (forall e e', f e = inr e' -> estate_ok e -> estate_ok e') -> keeps (statement f).
Proof. intros Hf env st a st' (e & He & ->)%statement_inv. by apply Hf. Qed.
Lemma keeps_log t id action d b : keeps (log NewID t id action d b).
Proof. by intros env st a st' [_ ->]%log_inv. Qed.
Lemma keeps_logCreate t id s : keeps (logCreate NewID t id s).
Proof. apply keeps_log. Qed.
Lemma keeps_logUpdate t id s s' : keeps (logUpdate NewID t id s s').
Proof. by intros env st a st' [_ ->]%logUpdate_inv. Qed.
Lemma keeps_log_released t P ids : keeps (log_released NewID t P ids).
Proof.
  induction ids as [|i ids IH]; cbn [log_released]; [apply keeps_ret|].
  apply keeps_bind; [apply keeps_log|done].
Qed.

Lemma keeps_releaseLinks t P now : keeps (releaseLinks NewID t P now).
Proof.
  unfold releaseLinks. apply keeps_bind; [apply keeps_query|]. intros [|i ids]; [apply keeps_ret|].
  apply keeps_bind; [|intros _; apply keeps_log_released]. apply keeps_statement. intros e e' [= <-] Hok.
  apply ok_weaken_links; [done|]. intros [[t' p] id] l' Hl. rewrite map_lookup_imap in Hl.
  destruct (es_links e !! (t', p, id)) as [l|]; [|discriminate Hl]. cbn in Hl. injection Hl as <-.
  exists l. split; [done|]. destruct (_ && _); [|done]. by split_and!; [| |intros ?%not_owning_retired].
Qed.

Lemma keeps_upsert t l : keeps (statement (upsert_link t l)).
Proof.
  apply keeps_statement. intros e e' Hu Hok. unfold upsert_link in Hu.
  destruct (link_constraints t l e) eqn:Hc; [discriminate Hu|]. injection Hu as <-.
  apply ok_insert_link; try done; by destruct (es_links e !! link_key t l).
Qed.

Lemma keeps_insert_link t l : keeps (statement (insert_link t l)).
Proof.
  apply keeps_statement. intros e e' Hu Hok. unfold insert_link in Hu. destruct (bool_decide _); [done|].
  destruct (link_constraints t l e) eqn:Hc; [discriminate Hu|]. injection Hu as <-.
  by apply ok_insert_link.
Qed.

Lemma keeps_insertCircuit c : keeps (insertCircuit NewID c).
Proof.
  intros env st [] st' Htx Hok.
  unfold insertCircuit in Htx. tx_inv Htx. rewrite H1, H0.
  destruct (_ || _) in Htx0; [discriminate Htx0|]. destruct (_ || _) in Htx0; [discriminate Htx0|].
  destruct (negb _) in Htx0; [discriminate Htx0|]. injection Htx0 as <-. by apply ok_circuit.
Qed.

#[local] Hint Resolve keeps_ret keeps_fail keeps_query keeps_log keeps_logCreate keeps_logUpdate
  keeps_releaseLinks keeps_upsert keeps_insert_link keeps_insertCircuit : tx.

Ltac keeping :=
  repeat first
    [ progress intros
    | solve [auto with tx]
    | apply keeps_bind
    | match goal with |- keeps (match ?x with _ => _ end) => destruct x end ].

Lemma CreateProject_keeps fate p now q st :
  estate_ok (st_tables st) -> estate_ok (st_tables (snd (CreateProject NewID fate p now q st))).
Proof.
  eapply written_keeps; [|apply write_written]. apply keeps_bind; [|keeping].
  apply keeps_statement. intros e e' Hs Hok. destruct (_ || _) in Hs; [discriminate Hs|].
  destruct (_ || _) eqn:Hc in Hs; [discriminate Hs|]. injection Hs as <-.
  apply orb_false_iff in Hc as [_ Hc]. apply ok_insert_project; [done..|].
  intros Q r HQ _. rewrite existsb_rows in Hc. apply Hc in HQ. by apply String.eqb_neq in HQ.
Qed.

Lemma UpdateProject_keeps fate p now q tags st :
  estate_ok (st_tables st) -> estate_ok (st_tables (snd (UpdateProject NewID fate p now q tags st))).
Proof.
  eapply written_keeps; [|apply write_written]. apply keeps_bind; [keeping|].
  intros [before|]; [|keeping]. apply keeps_bind; [|keeping].
  apply keeps_statement. intros e e' Hs Hok. destruct (negb _) in Hs; [discriminate Hs|].
  destruct (_ || _) in Hs; [discriminate Hs|].
  destruct (existsb _ _) eqn:Hc in Hs; [discriminate Hs|]. injection Hs as <-.
  apply ok_insert_project; [done..|]. intros Q r HQ Hne.
  destruct (ok_codes _ Hok Q Q r r HQ HQ) as [Hid _].
  rewrite existsb_rows in Hc. apply Hc, andb_false_iff in HQ as [HQ|HQ].
  - by apply String.eqb_neq in HQ.
  - apply negb_false_iff, String.eqb_eq in HQ. congruence.
Qed.

Lemma RetireProject_keeps fate p now id st :
  estate_ok (st_tables st) -> estate_ok (st_tables (snd (RetireProject NewID fate p now id st))).
Proof.
  intros Hok. unfold RetireProject.
  match goal with |- context [write ?f ?q now ?b st] => destruct (write_written f q now b st) as [err|[] st' Htx] end;
    [done|]. apply bind_inv in Htx as (b & st1 & Hq & Htx). tx_inv Hq. cbn [snd].
  destruct (es_projects (st_tables st) !! id) as [before|] eqn:Hb; [|discriminate Htx].
  destruct (ProjectRetired before); [by apply ret_inv in Htx as [_ ->]|]. cbv zeta in Htx.
  apply bind_inv in Htx as (b & st1 & Hs & Htx). tx_inv Hs. injection Hs as Hs.
  assert (Hk : keeps (_ ← logUpdate NewID "project" id (project_struct before)
      (project_struct (with_lifecycle LifecycleRetired (FormatTime now) before));
    _ ← releaseLinks NewID ProjectAsset id (FormatTime now); releaseLinks NewID ProjectService id (FormatTime now)))
    by keeping.
  apply (Hk _ _ _ _ Htx). rewrite H0, <- Hs. destruct (ok_codes _ Hok _ _ _ _ Hb Hb) as [Hid _].
  apply ok_insert_project; [done..|]. cbn. intros Q r HQ Hne Heq.
  destruct (ok_codes _ Hok Q id r before HQ Hb) as [_ Hc]. by apply Hne, Hc.
Qed.

Lemma LinkProject_keeps t fates p now l st :
  estate_ok (st_tables st) -> estate_ok (st_tables (snd (LinkProject NewID t fates p now l st))).
Proof.
  eapply written_keeps; [|apply writeSerializable_written]. unfold checkOwnerFree. keeping.
Qed.

Lemma retireLink_keeps t fate p now P E st :
  estate_ok (st_tables st) -> estate_ok (st_tables (snd (retireLink NewID t fate p now P E st))).
Proof.
  intros Hok. unfold retireLink.
  match goal with |- context [write ?f ?q now ?b st] => destruct (write_written f q now b st) as [err|[] st' Htx] end;
    [done|]. apply bind_inv in Htx as (b & st1 & Hq & Htx). tx_inv Hq. cbn [snd].
  destruct (es_links (st_tables st) !! (t, P, E)) as [l|] eqn:Hl; [|discriminate Htx].
  destruct (String.eqb _ _) in Htx; [by apply ret_inv in Htx as [_ ->]|]. tx_inv Htx.
  injection Htx0 as <-. rewrite H1, H0. by apply ok_retire_link.
Qed.

Lemma AssignProject_keeps fate p now u P st :
  estate_ok (st_tables st) -> estate_ok (st_tables (snd (AssignProject NewID fate p now u P st))).
Proof.
  intros Hok. unfold AssignProject.
  match goal with |- context [write ?f ?q now ?b st] => destruct (write_written f q now b st) as [err|[] st' Htx] end;
    [done|]. apply bind_inv in Htx as (b & st1 & Hq & Htx). tx_inv Hq. cbn [snd].
  destruct (existsb (is_active_assignment u P) _) eqn:Ha in Htx; [by apply ret_inv in Htx as [_ ->]|].
  tx_inv Htx. rewrite Htx0 in Htx1. destruct (existsb _ _) eqn:Hid in Htx1; [discriminate Htx1|].
  destruct (_ || _) eqn:Hfk in Htx1; [discriminate Htx1|]. injection Htx1 as <-.
  apply orb_false_iff in Hfk as [Hu Hfk]. rewrite bool_decide_eq_false in Hfk.
  apply negb_false_iff, bool_decide_eq_true in Hu. rewrite H1, H0.
  apply ok_assign; try done. by apply not_eq_None_Some.
Qed.

Lemma ReleaseProject_keeps fate p now u P st :
  estate_ok (st_tables st) -> estate_ok (st_tables (snd (ReleaseProject NewID fate p now u P st))).
Proof.
  eapply written_keeps; [|apply write_written]. apply keeps_bind; [keeping|].
  intros [a|]; [|keeping]. apply keeps_bind; [|keeping]. apply keeps_statement. intros e e' [= <-] Hok.
  apply ok_reassign; [done|]. intros b. destruct (String.eqb (up_ID b) (up_ID a)); [|done].
  split_and!; [done..|]. intros v Q. unfold is_active_assignment. cbn. by rewrite andb_false_r.
Qed.

(** ** The invariant *)

(** C24. Every request on the projects, their links and assignments and the circuits
    keeps the tables well formed, whatever permit it has, whatever becomes of its
    transaction, and however its input looks. In particular no sequence of links,
    retirements and creations leaves an asset, a service or a circuit with two
    active owners, no two projects share a code, no user has two active assignments
    to one project, every link names a project and an entity that exist, and every
    assignment, retired ones included, a project and a user that exist. *)
Theorem run_op_ok op fates p now st :
  estate_ok (st_tables st) -> estate_ok (st_tables (snd (run_op NewID op fates p now st))).
Proof.
  intros Hok. destruct op; cbn [run_op].
  - by apply CreateProject_keeps.
  - by apply UpdateProject_keeps.
  - by apply RetireProject_keeps.
  - by apply LinkProject_keeps.
  - by apply retireLink_keeps.
  - by apply AssignProject_keeps.
  - by apply ReleaseProject_keeps.
  - unfold CreateCircuit. destruct (ValidateCircuit c) as [c' [ve|]]; [done|].
    eapply written_keeps; [|apply write_written|done]. keeping.
  - unfold CreateCircuitInProject, insertProjectCircuitLink.
    destruct (ValidateCircuit c) as [c' [ve|]]; [done|]. destruct (negb _); [done|].
    eapply written_keeps; [|apply write_written|done]. keeping.
Qed.
End Invariant.

(** ** The log and the projects *)

(** The tables and the log after some requests, each under a permit of its own, at a
    time of its own, committing, failing or losing races. *)
Inductive project_history `{Unicode} (NewID : nat -> string) (st0 : Store Estate) : Store Estate -> Prop :=
  | project_history_start : project_history NewID st0 st0
  | project_history_request st op fates p now :
      project_history NewID st0 st -> project_history NewID st0 (snd (run_op NewID op fates p now st)).

Lemma audited_project q tags :
  audited (auditedProject q tags) =
  <["tags" := {| af_value := VText tags; af_entity := "projectAudit" |}]> (audited (project_struct q)).
Proof. reflexivity. Qed.

(** An entry about a project is the same with any fold of tags, and without one. *)
Lemma project_diff b a tags :
  diffJSON (auditedProject b tags) (auditedProject a tags) = diffJSON (project_struct b) (project_struct a).
Proof.
  rewrite !diffJSON_same by done.
  enough (changes_of (auditedProject b tags) (auditedProject a tags) = changes_of (project_struct b) (project_struct a)) as ->
    by done.
  apply map_eq. intros name. rewrite !changes_of_lookup. unfold column_change. rewrite !audited_project.
  destruct (decide (name = "tags")) as [->|Hne].
  - rewrite !lookup_insert_eq. unfold field_change. cbn. by rewrite decide_True by done.
  - by rewrite !lookup_insert_ne by done.
Qed.

Section Recorded.
Context `{Unicode} (NewID : nat -> string) (log0 : list ChangeRow).

(** The entries about each project give its columns, and those about an identifier no
    project has are the ones that were there. *)
Definition recorded (st : Store Estate) : Prop :=
  forall id, match es_projects (st_tables st) !! id with
             | Some pr => replay (entries_of "project" id (st_log st)) = snapshotJSON (auditedProject pr "")
             | None => entries_of "project" id (st_log st) = entries_of "project" id log0
             end.

(** A body that leaves the projects and their entries alone. *)
Definition spares {A} (m : Tx Estate A) : Prop :=
  forall env st a st', m env st = inr (a, st') ->
    es_projects (st_tables st') = es_projects (st_tables st) /\
    forall id, entries_of "project" id (st_log st') = entries_of "project" id (st_log st).

Lemma spares_bind {A B} (m : Tx Estate A) (f : A -> Tx Estate B) :
  spares m -> (forall a, spares (f a)) -> spares (m ≫= f).
Proof.
  intros Hm Hf env st b st' (a & st1 & [E1 F1]%Hm & [E2 F2]%Hf)%bind_inv. rewrite E2, E1. split; [done|].
  intros id. by rewrite F2.
Qed.
Lemma spares_ret {A} (a : A) : spares (mret a : Tx Estate A).
Proof. by intros env st a' st' [_ ->]%ret_inv. Qed.
Lemma spares_fail {A} e : spares (fail e : Tx Estate A).
Proof. by intros env st a st'. Qed.
Lemma spares_query {A} (f : Estate -> A) : spares (query f).
Proof. by intros env st a st' [_ ->]%query_inv. Qed.
Lemma spares_newID : spares (newID NewID).
Proof. by intros env st a st' [= <- <-]. Qed.
Lemma spares_statement f : (forall e e', f e = inr e' -> es_projects e' = es_projects e) -> spares (statement f).
Proof.
  intros Hf env st a st'. unfold statement. destruct (f (st_tables st)) as [|e] eqn:E; [done|]. intros [= <- <-].
  split; [by apply Hf|done].
Qed.
Lemma spares_log t id action d b : t <> "project" -> spares (log NewID t id action d b).
Proof.
  intros Ht env st a st' [-> Hl]%log_entries. split; [done|]. intros id'. rewrite Hl.
  rewrite (proj2 (String.eqb_neq t "project")) by done. by rewrite app_nil_r.
Qed.
Lemma spares_logUpdate t id s s' : t <> "project" -> spares (logUpdate NewID t id s s').
Proof.
  intros Ht env st a st' (d & _ & -> & Hl)%logUpdate_entries. split; [done|]. intros id'. rewrite Hl.
  rewrite (proj2 (String.eqb_neq t "project")) by done. by rewrite app_nil_r.
Qed.

Lemma table_not_project t : table_name t <> "project".
Proof. by destruct t. Qed.

Lemma spares_upsert t l : spares (statement (upsert_link t l)).
Proof. apply spares_statement. intros e e'. unfold upsert_link. destruct (link_constraints t l e); [done|]. by intros [= <-]. Qed.
Lemma spares_insert_link t l : spares (statement (insert_link t l)).
Proof.
  apply spares_statement. intros e e'. unfold insert_link. destruct (bool_decide _); [done|].
  destruct (link_constraints t l e); [done|]. by intros [= <-].
Qed.
Lemma spares_log_released t P ids : spares (log_released NewID t P ids).
Proof.
  induction ids as [|i ids IH]; cbn [log_released]; [apply spares_ret|].
  apply spares_bind; [apply spares_log, table_not_project|done].
Qed.

#[local] Hint Resolve spares_ret spares_fail spares_query spares_newID spares_log spares_logUpdate spares_upsert
  spares_insert_link spares_log_released table_not_project : tx.

Ltac sparing :=
  repeat first
    [ progress intros
    | solve [auto with tx]
    | apply spares_log; first [by apply table_not_project|done]
    | apply spares_bind
    | apply spares_statement; intros ? ?; repeat case_match; intros; simplify_eq; done
    | match goal with |- spares (match ?x with _ => _ end) => destruct x end ].

Lemma spares_releaseLinks t P now : spares (releaseLinks NewID t P now).
Proof. unfold releaseLinks. sparing. Qed.
Lemma spares_insertCircuit c : spares (insertCircuit NewID c).
Proof. unfold insertCircuit. sparing. Qed.
Lemma spares_checkOwnerFree t E P : spares (checkOwnerFree t E P).
Proof. unfold checkOwnerFree. sparing. Qed.
#[local] Hint Resolve spares_releaseLinks spares_insertCircuit spares_checkOwnerFree : tx.

Lemma spared_recorded st st' :
  es_projects (st_tables st') = es_projects (st_tables st) ->
  (forall id, entries_of "project" id (st_log st') = entries_of "project" id (st_log st)) ->
  recorded st -> recorded st'.
Proof. intros He Hl Hr id. rewrite He, Hl. apply Hr. Qed.

Lemma written_spared {A} p now (fn : Tx Estate A) st out :
  spares fn -> written_by p now fn st out -> recorded st -> recorded (snd out).
Proof. intros Hs [e|a st' [E F]%Hs]; [done|]. by apply spared_recorded. Qed.

(** One project is written, with its entry. *)
Lemma recorded_put st st' id pr :
  recorded st -> es_projects (st_tables st') = <[id := pr]> (es_projects (st_tables st)) ->
  replay (entries_of "project" id (st_log st')) = snapshotJSON (auditedProject pr "") ->
  (forall id', id' <> id -> entries_of "project" id' (st_log st') = entries_of "project" id' (st_log st)) ->
  recorded st'.
Proof.
  intros Hr He Hid Hother id'. rewrite He. destruct (decide (id' = id)) as [->|Hne].
  - by rewrite lookup_insert_eq.
  - rewrite lookup_insert_ne by done. rewrite Hother by done. apply Hr.
Qed.

(** A project is changed and the change logged, with whatever fold of tags. *)
Lemma recorded_change st st1 st2 id before after tags env x :
  recorded st -> es_projects (st_tables st) !! id = Some before ->
  st_log st1 = st_log st -> es_projects (st_tables st1) = <[id := after]> (es_projects (st_tables st)) ->
  logUpdate NewID "project" id (auditedProject before tags) (auditedProject after tags) env st1 = inr (x, st2) \/
  logUpdate NewID "project" id (project_struct before) (project_struct after) env st1 = inr (x, st2) ->
  recorded st2.
Proof.
  intros Hr Hb Hlog He Hrun.
  assert (exists d, diffJSON (auditedProject before "") (auditedProject after "") = inr d /\
    st_tables st2 = st_tables st1 /\ forall t' id', entries_of t' id' (st_log st2) = entries_of t' id' (st_log st1) ++
      (if String.eqb "project" t' && String.eqb id id' then match d with Some d => [Changes d] | None => [] end else []))
    as (d & Hd & Ht & Hent).
  { rewrite project_diff. destruct Hrun as [(d & Hd & H2)%logUpdate_entries|(d & Hd & H2)%logUpdate_entries]; exists d.
    - rewrite project_diff in Hd. exact (conj Hd H2).
    - exact (conj Hd H2). }
  apply (recorded_put st st2 id after Hr).
  - by rewrite Ht.
  - rewrite Hent, Hlog, !String.eqb_refl. cbn [andb]. specialize (Hr id). rewrite Hb in Hr.
    apply (replay_update _ (auditedProject before "") (auditedProject after "")); [reflexivity|exact Hr|exact Hd].
  - intros id' Hne. rewrite Hent, Hlog, (proj2 (String.eqb_neq id id')) by done. rewrite andb_false_r. by rewrite app_nil_r.
Qed.

Lemma CreateProject_recorded fate p now q st : recorded st -> recorded (snd (CreateProject NewID fate p now q st)).
Proof.
  intros Hr. unfold CreateProject.
  match goal with |- context [write ?f ?q now ?b st] => destruct (write_written f q now b st) as [err|[] st' Htx] end;
    [done|]. apply bind_inv in Htx as ([] & st1 & Hs & [Ht Hlog]%log_entries). cbn [snd] in *.
  unfold statement in Hs. destruct (_ || _) in Hs; [discriminate Hs|]. destruct (_ || _) in Hs; [discriminate Hs|].
  injection Hs as <-. cbn [st_log st_tables] in Hlog, Ht.
  eapply (recorded_put st st' (pr_ID q) _ Hr); [by rewrite Ht| |].
  - rewrite Hlog, !String.eqb_refl. cbn [andb]. rewrite replay_app. done.
  - intros id' Hne. rewrite Hlog. cbn. rewrite (proj2 (String.eqb_neq (pr_ID q) id')) by done. by rewrite app_nil_r.
Qed.

Lemma UpdateProject_recorded fate p now q tags st :
  recorded st -> recorded (snd (UpdateProject NewID fate p now q tags st)).
Proof.
  intros Hr. unfold UpdateProject.
  match goal with |- context [write ?f ?q now ?b st] => destruct (write_written f q now b st) as [err|[] st' Htx] end;
    [done|]. apply bind_inv in Htx as (b & st1 & [-> ->]%query_inv & Htx). cbn [snd].
  destruct (es_projects (st_tables st) !! pr_ID q) as [before|] eqn:Hb; [|discriminate Htx]. cbv zeta in Htx.
  apply bind_inv in Htx as ([] & st1 & Hs & Hlog). unfold statement in Hs.
  destruct (negb _) in Hs; [discriminate Hs|]. destruct (_ || _) in Hs; [discriminate Hs|].
  destruct (existsb _ _) in Hs; [discriminate Hs|]. injection Hs as <-.
  eapply (recorded_change st _ st' (pr_ID q) before _ tags); [exact Hr|exact Hb| | |left; exact Hlog]; done.
Qed.

Lemma RetireProject_recorded fate p now id st : recorded st -> recorded (snd (RetireProject NewID fate p now id st)).
Proof.
  intros Hr. unfold RetireProject.
  match goal with |- context [write ?f ?q now ?b st] => destruct (write_written f q now b st) as [err|[] st' Htx] end;
    [done|]. apply bind_inv in Htx as (b & st1 & [-> ->]%query_inv & Htx). cbn [snd].
  destruct (es_projects (st_tables st) !! id) as [before|] eqn:Hb; [|discriminate Htx].
  destruct (ProjectRetired before); [by apply ret_inv in Htx as [_ ->]|]. cbv zeta in Htx.
  apply bind_inv in Htx as ([] & st1 & Hs & Htx). apply bind_inv in Htx as ([] & st2 & Hlog & Htx).
  injection Hs as <-.
  assert (recorded st2) as Hr2.
  { eapply (recorded_change st _ st2 id before _ ""); [exact Hr|exact Hb| | |right; exact Hlog]; done. }
  apply bind_inv in Htx as ([] & st3 & [E1 F1]%spares_releaseLinks & [E2 F2]%spares_releaseLinks).
  by eapply spared_recorded, spared_recorded.
Qed.

Lemma run_op_recorded op fates p now st : recorded st -> recorded (snd (run_op NewID op fates p now st)).
Proof.
  intros Hr. destruct op; cbn [run_op].
  - by apply CreateProject_recorded.
  - by apply UpdateProject_recorded.
  - by apply RetireProject_recorded.
  - eapply written_spared; [|apply writeSerializable_written|done]. sparing.
  - eapply written_spared; [|apply write_written|done]. sparing.
  - eapply written_spared; [|apply write_written|done]. sparing.
  - eapply written_spared; [|apply write_written|done]. sparing.
  - unfold CreateCircuit. destruct (ValidateCircuit c) as [c' [ve|]]; [done|].
    eapply written_spared; [|apply write_written|done]. sparing.
  - unfold CreateCircuitInProject, insertProjectCircuitLink.
    destruct (ValidateCircuit c) as [c' [ve|]]; [done|]. destruct (negb _); [done|].
    eapply written_spared; [|apply write_written|done]. sparing.
Qed.
End Recorded.

Section Reconstruction.
Context `{Unicode} (NewID : nat -> string).

End Reconstruction.

(** ** Taking ownership *)

Section Ownership.
Context `{Unicode} (NewID : nat -> string).

(** A body that cannot end in a conflict. *)
Definition never_conflicts {A} (m : Tx Estate A) : Prop :=
  forall env st, m env st <> inl (Wrapped ErrConflict).

Lemma log_no_conflict t id action d b : never_conflicts (log NewID t id action d b).
Proof.
  intros env st. unfold log, mbind, Tx_bind, authorize. destruct (tx_permit env) as [p|]; [|done].
  by destruct (Covers p t id).
Qed.

Lemma logUpdate_no_conflict t id s s' : never_conflicts (logUpdate NewID t id s s').
Proof.
  intros env st. unfold logUpdate, logUpdateBatch, mbind at 1, Tx_bind at 1, authorize.
  destruct (tx_permit env) as [p|]; [|done]. destruct (Covers p t id); [|done].
  destruct (diffJSON s s') as [|[d|]]; [done|apply log_no_conflict|done].
Qed.

Lemma link_constraints_conflict t l e :
  link_constraints t l e = Some ErrConflict -> owned_elsewhere t (pl_ProjectID l) (pl_EntityID l) e = true.
Proof.
  unfold link_constraints. destruct (_ || _); [done|]. destruct (_ && _) eqn:Ho.
  - by apply andb_true_iff in Ho as [_ ->].
  - by destruct (_ || _).
Qed.

(** Taking ownership. Asking for the [owns] relation to an entity is refused as a
    conflict exactly when another project actively owns it, also when the attempt
    that says so is the second or the third. A refused request leaves the store as
    it was. When the request is accepted the link is in the table with the
    relation, the note and the lifecycle asked for, no other project owns the
    entity, and no other row of the tables has changed. *)
Theorem LinkProject_conflict t fates p now l st :
  settles fates -> pl_Relation l = ProjectOwns ->
  let '(res, st') := LinkProject NewID t fates p now l st in
  (res = inl (Wrapped ErrConflict) <->
   exists P l', es_links (st_tables st) !! (t, P, pl_EntityID l) = Some l' /\ owning l' /\ P <> pl_ProjectID l) /\
  match res with
  | inl _ => st' = st
  | inr _ => exists row, pl_Relation row = pl_Relation l /\ pl_Note row = pl_Note l /\
      pl_Lifecycle row = pl_Lifecycle l /\
      st_tables st' = with_links (<[link_key t l := row]> (es_links (st_tables st))) (st_tables st) /\
      forall P l', es_links (st_tables st) !! (t, P, pl_EntityID l) = Some l' -> owning l' -> P = pl_ProjectID l
  end.
Proof.
  intros Hf Hr. unfold LinkProject. rewrite writeSerializable_settles by done.
  replace (String.eqb (pl_Relation l) ProjectOwns) with true by (by rewrite Hr).
  unfold write, writeTx, checkOwnerFree. fold (env_of p now).
  unfold mbind, Tx_bind, query, statement. cbn [st_tables].
  pose proof (owned_elsewhere_spec t (pl_ProjectID l) (pl_EntityID l) (st_tables st)) as Hspec.
  destruct (owned_elsewhere t (pl_ProjectID l) (pl_EntityID l) (st_tables st)) eqn:Ho;
    [cbn; by rewrite <- Hspec|]. cbn -[logUpdate logCreate env_of upsert_link].
  destruct (upsert_link t l (st_tables st)) as [err|e1] eqn:Hu.
  - rewrite <- Hspec. split; [|done]. split; [|done]. intros [= ->]. unfold upsert_link in Hu.
    destruct (link_constraints t l (st_tables st)) as [c|] eqn:Hc; [|done]. injection Hu as ->.
    by rewrite (link_constraints_conflict _ _ _ Hc) in Ho.
  - assert (Hrow : exists row, pl_Relation row = pl_Relation l /\ pl_Note row = pl_Note l /\
      pl_Lifecycle row = pl_Lifecycle l /\
      e1 = with_links (<[link_key t l := row]> (es_links (st_tables st))) (st_tables st)).
    { unfold upsert_link in Hu. destruct (link_constraints t l (st_tables st)); [done|].
      injection Hu as <-. destruct (es_links (st_tables st) !! link_key t l);
        eexists; (split_and!; [..|reflexivity]); done. }
    assert (Hno : forall P l', es_links (st_tables st) !! (t, P, pl_EntityID l) = Some l' -> owning l' ->
      P = pl_ProjectID l).
    { intros P l' Hl' Ho'. destruct (decide (P = pl_ProjectID l)) as [|Hne]; [done|].
      by discriminate (proj2 Hspec ltac:(eauto)). }
    set (st1 := MkStore e1 (st_log st) (st_ids st)).
    destruct (es_links (st_tables st) !! link_key t l) as [before|].
    + pose proof (logUpdate_no_conflict (table_name t) (link_id (pl_ProjectID l) (pl_EntityID l))
        (link_struct t before) (link_struct t l) (env_of p now) st1) as Hn.
      destruct (logUpdate _ _ _ _ _ _ st1) as [err|[u st2]] eqn:Hlog;
        [rewrite <- Hspec; split; [|done]; split; [congruence|done]|].
      apply logUpdate_inv in Hlog as [_ ->]. naive_solver.
    + pose proof (log_no_conflict (table_name t) (link_id (pl_ProjectID l) (pl_EntityID l)) ActionCreate
        (Snapshot (snapshotJSON (link_struct t l))) "" (env_of p now) st1) as Hn.
      destruct (logCreate _ _ _ _ _ st1) as [err|[u st2]] eqn:Hlog;
        [rewrite <- Hspec; split; [|done]; split; [intros [= ->]; by apply Hn in Hlog|done]|].
      apply logCreate_inv in Hlog as [_ ->]. naive_solver.
Qed.
End Ownership.

(** * Samples *)

#[local] Instance plain_tables : Unicode := {| lower_unicode := ascii_lower; quote_unicode := fun s => s |}.

Definition sample_id (n : nat) : string := String.concat "" (repeat "i" n).

Definition sample_project (id : string) : Project :=
  {| pr_ID := id; pr_Code := id; pr_Name := id; pr_Description := None; pr_TeamID := None;
     pr_PricedForVCPU := None; pr_PricedForMemoryMB := None; pr_Lifecycle := LifecycleActive;
     pr_CreatedAt := "2026-08-01T10:00:00Z"; pr_UpdatedAt := "2026-08-01T10:00:00Z"; pr_RowVersion := 1 |}.

Definition sample_link (P E : string) : ProjectLink :=
  {| pl_ProjectID := P; pl_EntityID := E; pl_Relation := ProjectOwns; pl_Note := None;
     pl_Lifecycle := LifecycleActive; pl_CreatedAt := "2026-08-01T10:00:00Z";
     pl_UpdatedAt := "2026-08-01T10:00:00Z" |}.

Definition sample_circuit (id : string) : Circuit :=
  {| ci_ID := id; ci_CID := id; ci_ProviderID := "v1"; ci_ServiceType := None; ci_CommitMbps := None;
     ci_InstallDate := None; ci_ContractEnd := None; ci_Description := None;
     ci_Lifecycle := LifecycleActive; ci_CreatedAt := None; ci_UpdatedAt := None; ci_RowVersion := 0 |}.

(** Two projects; the first owns an asset and a circuit and is held by a user. *)
Definition sample_estate : Estate :=
  {| es_projects := {["p1" := sample_project "p1"; "p2" := sample_project "p2"]};
     es_links := {[(ProjectAsset, "p1", "a1") := sample_link "p1" "a1";
                   (ProjectCircuit, "p1", "c1") := sample_link "p1" "c1"]};
     es_assignments := [{| up_ID := "r1"; up_UserID := "u1"; up_ProjectID := "p1";
        up_Lifecycle := LifecycleActive; up_CreatedAt := ""; up_UpdatedAt := ""; up_RowVersion := 1 |}];
     es_circuits := {["c1" := sample_circuit "c1"]};
     es_assets := {["a1"; "a2"]}; es_services := ∅; es_providers := {["v1"]}; es_users := {["u1"]} |}.

Definition sample_store : Store Estate := MkStore sample_estate [] 0.

Lemma sample_ok : estate_ok sample_estate.
Proof.
  split; cbn [sample_estate es_links es_projects es_assignments].
  - intros t P E l Hl. apply lookup_insert_Some in Hl as [[[= <- <- <-] <-]|[_ Hl]].
    + split_and!; [done|done|by eexists|reflexivity].
    + apply lookup_singleton_Some in Hl as [[= <- <- <-] <-]. split_and!; [done|done|by eexists|reflexivity].
  - intros t P P' E l l' Hl Hl' _ _. rewrite lookup_insert_Some, lookup_singleton_Some in Hl, Hl'. naive_solver.
  - intros P Q p q Hp Hq. rewrite lookup_insert_Some, lookup_singleton_Some in Hp, Hq. naive_solver.
  - apply NoDup_singleton.
  - intros u P. unfold count_if. cbn. destruct (is_active_assignment u P _); cbn; lia.
  - intros a ->%list_elem_of_singleton. split; [by eexists|set_solver].
Qed.

Lemma run_op_ok_witness :
  estate_ok (st_tables (snd (run_op sample_id (OpRetireProject "p1") (fun _ => Commits)
    (Some (systemPermit "")) 0%Z sample_store))).
Proof. apply run_op_ok, sample_ok. Defined.

Lemma LinkProject_conflict_witness :
  fst (LinkProject sample_id ProjectAsset (fun k => if (k =? 3)%nat then Races else Commits)
         (Some (systemPermit "")) 0%Z (sample_link "p2" "a1") sample_store) = inl (Wrapped ErrConflict).
Proof.
  pose proof (LinkProject_conflict sample_id ProjectAsset (fun k => if (k =? 3)%nat then Races else Commits)
    (Some (systemPermit "")) 0%Z (sample_link "p2" "a1") sample_store (or_intror (conj eq_refl (or_introl eq_refl)))
    eq_refl) as Hc.
  destruct (LinkProject _ _ _ _ _ _ _) as [res st']. apply Hc. exists "p1", (sample_link "p1" "a1").
  split; [vm_compute; reflexivity|]. split; [done|]. discriminate.
Defined.


(** Linking again says the link was made again. The row keeps its creation time and the
    entry says it has a new one. *)
Lemma relinking_logs_a_creation_time :
  let admin := Some (systemPermit "") in
  let again := {| pl_ProjectID := "p1"; pl_EntityID := "a1"; pl_Relation := ProjectUses; pl_Note := None;
    pl_Lifecycle := LifecycleActive; pl_CreatedAt := "2026-09-01T10:00:00Z"; pl_UpdatedAt := "2026-09-01T10:00:00Z" |} in
  let st := snd (LinkProject sample_id ProjectAsset (fun _ => Commits) admin 0%Z again sample_store) in
  (pl_CreatedAt <$> es_links (st_tables st) !! (ProjectAsset, "p1", "a1")) = Some "2026-08-01T10:00:00Z" /\
  replay (entries_of "project_asset" "p1/a1" (st_log st)) !! "created_at" = Some (VText "2026-09-01T10:00:00Z").
Proof. vm_compute. by split. Qed.

(** A retired project keeps its circuits. Retiring one releases its assets, so
    that another project may own them, and does not release its circuits: the
    other project is refused a circuit by a project that is gone. *)
Lemma retired_project_keeps_its_circuits :
  let admin := Some (systemPermit "") in
  let (r, st) := RetireProject sample_id Commits admin 0%Z "p1" sample_store in
  let link t E := fst (LinkProject sample_id t (fun _ => Commits) admin 0%Z (sample_link "p2" E) st) in
  r = inr tt /\ link ProjectAsset "a1" = inr tt /\ link ProjectCircuit "c1" = inl (Wrapped ErrConflict).
Proof. vm_compute. by split_and!. Qed.
