(* ===== verification/Assets.v ===== *)
(** Assets: the containment tree's nodes, [internal/domain/asset.go], with the checks
    of [errors.go] and [team.go] they use.

    A record has the columns of the struct; [Validate] answers the asset as it leaves
    it, normalised in place, and the failures it collected. *)
From Stdlib Require Import String Ascii ZArith Lia.
From stdpp Require Import base gmap strings list.
From S2P Require Import Prelude Status Text Errors Timestamps ChangeLog.

#[local] Open Scope string_scope.
#[local] Open Scope list_scope.
#[local] Open Scope Z_scope.

(** * Definitions *)

(** ** Checks *)

(** [unicode.IsSpace] and [unicode.IsPrint] on the runes of a code that is not ASCII. *)
Class CodeRunes := code_unicode : string -> bool.

Definition MaxVocabularyCodeLen : Z := 64.

(** The loop of [isVocabularyCode] over ASCII. *)
Fixpoint code_bytes (s : string) : bool :=
  match s with
  | EmptyString => true
  | String a s' => ((32 <? N_of_ascii a)%N && (N_of_ascii a <? 127)%N) && code_bytes s'
  end.

(** [isVocabularyCode] *)
Definition isVocabularyCode `{CodeRunes} (value : string) : bool :=
  if is_ascii value then code_bytes value else code_unicode value.

(** [checkVocabulary] *)
Definition checkVocabulary `{CodeRunes} (ve : ValidationError) (field value : string) : ValidationError * string :=
  let trimmed := TrimSpace value in
  (if String.eqb trimmed "" then Add ve field "is required"
   else if MaxVocabularyCodeLen <? Z.of_nat (String.length trimmed)
   then Add ve field ("must be " +++ Itoa MaxVocabularyCodeLen +++ " characters or fewer")
   else if negb (isVocabularyCode trimmed) then Add ve field "must not contain spaces or control characters"
   else ve, trimmed).

(** [checkResponsibility] *)
Definition checkResponsibility `{Unicode} (ve : ValidationError) (teamID managerRole : option string)
    : ValidationError * option string * option string :=
  let teamID := blankToNil teamID in
  match blankToNil managerRole with
  | None => (ve, teamID, None)
  | Some role =>
      (match teamID with
       | None => Add ve "manager_role" ("needs a team: a role says who in a team is " +++
                   "answerable, so it means nothing on its own")
       | Some _ => ve
       end, teamID, Some (ToLower (TrimSpace role)))
  end.

(** ** Assets *)

Definition AssetLifecycles :=
  [LifecyclePlanned; LifecycleActive; LifecycleMaintenance; LifecycleDeprecated; LifecycleRetired].

Record Asset := {
  as_ID : string; as_Kind : string; as_Name : string; as_ParentID : option string;
  as_Serial : option string; as_AssetTag : option string; as_Vendor : option string; as_Model : option string;
  as_DeviceTypeID : option string; as_UHeight : option Z; as_RackPosition : option Z; as_RackFace : option string;
  as_UsableDepthMM : option Z; as_WidthMM : option Z; as_MaxLoadGrams : option Z;
  as_CPUCores : option Z; as_MemoryMB : option Z; as_VCPUProvisioned : option Z; as_VCPUAllocated : option Z;
  as_MemoryProvisionedMB : option Z; as_MemoryAllocatedMB : option Z;
  as_StorageKind : option string; as_RawCapacityGB : option Z; as_ReplacesAssetID : option string;
  as_Lifecycle : string; as_TeamID : option string; as_ManagerRole : option string; as_EOLDate : option string;
  as_Attrs : string; as_CreatedAt : string; as_UpdatedAt : string; as_RowVersion : Z
}.

(** An asset with the columns a write sets besides those of its form. *)
Definition set_parent (parent : option string) (a : Asset) : Asset :=
  {| as_ID := as_ID a; as_Kind := as_Kind a; as_Name := as_Name a; as_ParentID := parent;
     as_Serial := as_Serial a; as_AssetTag := as_AssetTag a; as_Vendor := as_Vendor a; as_Model := as_Model a;
     as_DeviceTypeID := as_DeviceTypeID a; as_UHeight := as_UHeight a; as_RackPosition := as_RackPosition a;
     as_RackFace := as_RackFace a; as_UsableDepthMM := as_UsableDepthMM a; as_WidthMM := as_WidthMM a;
     as_MaxLoadGrams := as_MaxLoadGrams a; as_CPUCores := as_CPUCores a; as_MemoryMB := as_MemoryMB a;
     as_VCPUProvisioned := as_VCPUProvisioned a; as_VCPUAllocated := as_VCPUAllocated a;
     as_MemoryProvisionedMB := as_MemoryProvisionedMB a; as_MemoryAllocatedMB := as_MemoryAllocatedMB a;
     as_StorageKind := as_StorageKind a; as_RawCapacityGB := as_RawCapacityGB a;
     as_ReplacesAssetID := as_ReplacesAssetID a; as_Lifecycle := as_Lifecycle a; as_TeamID := as_TeamID a;
     as_ManagerRole := as_ManagerRole a; as_EOLDate := as_EOLDate a; as_Attrs := as_Attrs a;
     as_CreatedAt := as_CreatedAt a; as_UpdatedAt := as_UpdatedAt a; as_RowVersion := as_RowVersion a |}.

Definition set_stamps (lifecycle createdAt updatedAt : string) (version : Z) (a : Asset) : Asset :=
  {| as_ID := as_ID a; as_Kind := as_Kind a; as_Name := as_Name a; as_ParentID := as_ParentID a;
     as_Serial := as_Serial a; as_AssetTag := as_AssetTag a; as_Vendor := as_Vendor a; as_Model := as_Model a;
     as_DeviceTypeID := as_DeviceTypeID a; as_UHeight := as_UHeight a; as_RackPosition := as_RackPosition a;
     as_RackFace := as_RackFace a; as_UsableDepthMM := as_UsableDepthMM a; as_WidthMM := as_WidthMM a;
     as_MaxLoadGrams := as_MaxLoadGrams a; as_CPUCores := as_CPUCores a; as_MemoryMB := as_MemoryMB a;
     as_VCPUProvisioned := as_VCPUProvisioned a; as_VCPUAllocated := as_VCPUAllocated a;
     as_MemoryProvisionedMB := as_MemoryProvisionedMB a; as_MemoryAllocatedMB := as_MemoryAllocatedMB a;
     as_StorageKind := as_StorageKind a; as_RawCapacityGB := as_RawCapacityGB a;
     as_ReplacesAssetID := as_ReplacesAssetID a; as_Lifecycle := lifecycle; as_TeamID := as_TeamID a;
     as_ManagerRole := as_ManagerRole a; as_EOLDate := as_EOLDate a; as_Attrs := as_Attrs a;
     as_CreatedAt := createdAt; as_UpdatedAt := updatedAt; as_RowVersion := version |}.

(** [Asset.IsRetired] *)
Definition IsRetired (a : Asset) : bool := String.eqb (as_Lifecycle a) LifecycleRetired.

Section AssetChecks.
Context `{Unicode} `{CodeRunes}.

(** [NewAsset] *)
Definition NewAsset (id kind name : string) (parentID : option string) (now : Time) : ValidationError + Asset :=
  let '(ve, name) := checkRequired [] "name" name in
  let '(ve, kind) := checkVocabulary ve "kind" kind in
  let ve := if bool_decide (parentID = Some id) then Add ve "parent_id" "an asset cannot contain itself" else ve in
  match OrNil ve with
  | Some e => inl e
  | None => inr {|
      as_ID := id; as_Kind := kind; as_Name := name; as_ParentID := parentID; as_Serial := None;
      as_AssetTag := None; as_Vendor := None; as_Model := None; as_DeviceTypeID := None; as_UHeight := None;
      as_RackPosition := None; as_RackFace := None; as_UsableDepthMM := None; as_WidthMM := None;
      as_MaxLoadGrams := None; as_CPUCores := None; as_MemoryMB := None; as_VCPUProvisioned := None;
      as_VCPUAllocated := None; as_MemoryProvisionedMB := None; as_MemoryAllocatedMB := None;
      as_StorageKind := None; as_RawCapacityGB := None; as_ReplacesAssetID := None;
      as_Lifecycle := LifecycleActive; as_TeamID := None; as_ManagerRole := None; as_EOLDate := None;
      as_Attrs := "{}"; as_CreatedAt := FormatTime now; as_UpdatedAt := FormatTime now; as_RowVersion := 0 |}
  end.

(** [Asset.Validate] *)
Definition ValidateAsset (a : Asset) : Asset * option ValidationError :=
  let '(ve, name) := checkRequired [] "name" (as_Name a) in
  let '(ve, kind) := checkVocabulary ve "kind" (as_Kind a) in
  let ve := checkEnum ve "lifecycle" (as_Lifecycle a) AssetLifecycles in
  let ve := if bool_decide (as_ParentID a = Some (as_ID a))
            then Add ve "parent_id" "an asset cannot contain itself" else ve in
  let '(ve, replaces) := match as_ReplacesAssetID a with
    | None => (ve, None)
    | Some r => (if String.eqb r (as_ID a) then Add ve "replaces_asset_id" "an asset cannot replace itself" else ve,
                 if String.eqb (TrimSpace r) "" then None else Some r)
    end in
  let '(ve, eol) := checkDate ve "eol_date" (as_EOLDate a) in
  let ve := checkPositive ve "cpu_cores" (as_CPUCores a) in
  let ve := checkPositive ve "memory_mb" (as_MemoryMB a) in
  let ve := checkPositive ve "vcpu_provisioned" (as_VCPUProvisioned a) in
  let ve := checkPositive ve "vcpu_allocated" (as_VCPUAllocated a) in
  let ve := checkPositive ve "raw_capacity_gb" (as_RawCapacityGB a) in
  let ve := checkPositive ve "memory_provisioned_mb" (as_MemoryProvisionedMB a) in
  let ve := checkPositive ve "memory_allocated_mb" (as_MemoryAllocatedMB a) in
  let ve := checkMillimetres ve "usable_depth_mm" (as_UsableDepthMM a) in
  let ve := checkMillimetres ve "width_mm" (as_WidthMM a) in
  let ve := checkGrams ve "max_load_grams" (as_MaxLoadGrams a) in
  let '(ve, team, role) := checkResponsibility ve (as_TeamID a) (as_ManagerRole a) in
  ({| as_ID := as_ID a; as_Kind := kind; as_Name := name; as_ParentID := as_ParentID a;
      as_Serial := as_Serial a; as_AssetTag := as_AssetTag a; as_Vendor := as_Vendor a; as_Model := as_Model a;
      as_DeviceTypeID := as_DeviceTypeID a; as_UHeight := as_UHeight a; as_RackPosition := as_RackPosition a;
      as_RackFace := as_RackFace a; as_UsableDepthMM := as_UsableDepthMM a; as_WidthMM := as_WidthMM a;
      as_MaxLoadGrams := as_MaxLoadGrams a; as_CPUCores := as_CPUCores a; as_MemoryMB := as_MemoryMB a;
      as_VCPUProvisioned := as_VCPUProvisioned a; as_VCPUAllocated := as_VCPUAllocated a;
      as_MemoryProvisionedMB := as_MemoryProvisionedMB a; as_MemoryAllocatedMB := as_MemoryAllocatedMB a;
      as_StorageKind := as_StorageKind a; as_RawCapacityGB := as_RawCapacityGB a; as_ReplacesAssetID := replaces;
      as_Lifecycle := as_Lifecycle a; as_TeamID := team; as_ManagerRole := role; as_EOLDate := eol;
      as_Attrs := if String.eqb (TrimSpace (as_Attrs a)) "" then "{}" else as_Attrs a;
      as_CreatedAt := as_CreatedAt a; as_UpdatedAt := as_UpdatedAt a; as_RowVersion := as_RowVersion a |},
   OrNil ve).
End AssetChecks.

(** ** The audited shape *)

Definition asset_struct (a : Asset) : Struct :=
  MkStruct "Asset"
    [Column "id" (VText (as_ID a)); Column "kind" (VText (as_Kind a)); Column "name" (VText (as_Name a));
     Column "parent_id" (text_or_null (as_ParentID a)); Column "serial" (text_or_null (as_Serial a));
     Column "asset_tag" (text_or_null (as_AssetTag a)); Column "vendor" (text_or_null (as_Vendor a));
     Column "model" (text_or_null (as_Model a)); Column "device_type_id" (text_or_null (as_DeviceTypeID a));
     Column "u_height" (int_or_null (as_UHeight a)); Column "rack_position" (int_or_null (as_RackPosition a));
     Column "rack_face" (text_or_null (as_RackFace a)); Column "usable_depth_mm" (int_or_null (as_UsableDepthMM a));
     Column "width_mm" (int_or_null (as_WidthMM a)); Column "max_load_grams" (int_or_null (as_MaxLoadGrams a));
     Column "cpu_cores" (int_or_null (as_CPUCores a)); Column "memory_mb" (int_or_null (as_MemoryMB a));
     Column "vcpu_provisioned" (int_or_null (as_VCPUProvisioned a));
     Column "vcpu_allocated" (int_or_null (as_VCPUAllocated a));
     Column "memory_provisioned_mb" (int_or_null (as_MemoryProvisionedMB a));
     Column "memory_allocated_mb" (int_or_null (as_MemoryAllocatedMB a));
     Column "storage_kind" (text_or_null (as_StorageKind a));
     Column "raw_capacity_gb" (int_or_null (as_RawCapacityGB a));
     Column "replaces_asset_id" (text_or_null (as_ReplacesAssetID a)); Column "lifecycle" (VText (as_Lifecycle a));
     Column "team_id" (text_or_null (as_TeamID a)); Column "manager_role" (text_or_null (as_ManagerRole a));
     Column "eol_date" (text_or_null (as_EOLDate a)); Column "attrs" (VText (as_Attrs a));
     Column "created_at" (VText (as_CreatedAt a)); Column "updated_at" (VText (as_UpdatedAt a));
     Column "row_version" (VInt (as_RowVersion a))].

(** [auditedAsset]; [custom] and [tags] are the folds of the asset's custom fields and tags. *)
Definition auditedAsset (a : Asset) (codes : list string) (custom tags : string) : Struct :=
  MkStruct "assetAudit"
    [Embedded (asset_struct a); Column "environments" (VText (String.concat "," (isort str_ltb codes)));
     Column "custom_fields" (VText custom); Column "tags" (VText tags)].

(** * Lemmas *)

Lemma asset_shape a b : shape (asset_struct a) = shape (asset_struct b).
Proof. done. Qed.

Lemma audited_shape_asset a b codes codes' custom custom' tags tags' :
  shape (auditedAsset a codes custom tags) = shape (auditedAsset b codes' custom' tags').
Proof. done. Qed.

(** Validation moves nothing but the columns it normalises. *)
Lemma ValidateAsset_fst `{Unicode, CodeRunes} a :
  let a' := (ValidateAsset a).1 in
  as_ID a' = as_ID a /\ as_ParentID a' = as_ParentID a /\ as_Lifecycle a' = as_Lifecycle a /\
  as_DeviceTypeID a' = as_DeviceTypeID a /\ as_RackPosition a' = as_RackPosition a /\ as_RackFace a' = as_RackFace a.
Proof.
  cbn zeta. unfold ValidateAsset. repeat case_match; done.
Qed.
