(* ===== verification/Racks.v ===== *)
(** Rack elevations: [internal/domain/rack.go] and [internal/store/racks.go].

    A mounted box occupies the units from its position up, on one face or on both;
    a position is checked against the recorded height of the rack and against what
    is already there, and the elevation draws every unit from the top down. *)
From Stdlib Require Import String Ascii ZArith Lia.
From stdpp Require Import base gmap strings list.
From S2P Require Import Prelude Text Errors Assets.

#[local] Open Scope string_scope.
#[local] Open Scope list_scope.
#[local] Open Scope Z_scope.

(** * Definitions *)

Definition FaceFront := "front".
Definition FaceRear := "rear".
Definition Faces := [FaceFront; FaceRear].

Definition DefaultRackUnits : Z := 42.
Definition MaxRackUnits : Z := 60.

Record Placement := {
  pm_AssetID : string; pm_Name : string; pm_Kind : string; pm_Position : Z; pm_Height : Z;
  pm_FullDepth : bool; pm_Face : string; pm_HeightKnown : bool
}.

(** [Placement.Top] *)
Definition Top (p : Placement) : Z := pm_Position p + pm_Height p - 1.

(** [Placement.Occupies] *)
Definition Occupies (p : Placement) (unit : Z) (face : string) : bool :=
  if (unit <? pm_Position p) || (Top p <? unit) then false
  else pm_FullDepth p || String.eqb (pm_Face p) face.

(** The units of the loop of [Overlaps]: [Position] to [Top]. *)
Definition units (p : Placement) : list Z := seqZ (pm_Position p) (pm_Height p).

(** [Placement.Overlaps] *)
Definition Overlaps (p other : Placement) : bool :=
  if String.eqb (pm_AssetID p) (pm_AssetID other) then false
  else existsb (fun unit => existsb (fun face => Occupies p unit face && Occupies other unit face) Faces) (units p).

(** [CheckPlacement]: nil, or the failures. *)
Definition CheckPlacement (p : Placement) (rackUnits : Z) (existing : list Placement) : option ValidationError :=
  let ve := if pm_Position p <=? 0
            then Add [] "rack_position" "is the lowest unit the box occupies, counting from the floor"
            else if MaxRackUnits <? pm_Position p then Add [] "rack_position" "is higher than any rack" else [] in
  let ve := if negb (String.eqb (pm_Face p) "") && negb (containsString Faces (pm_Face p))
            then Add ve "rack_face" ("must be " +++ FaceFront +++ " or " +++ FaceRear) else ve in
  match OrNil ve with
  | Some e => Some e
  | None =>
      if (0 <? rackUnits) && (rackUnits <? Top p) then
        OrNil (if 1 <? pm_Height p
               then Add ve "rack_position" ("a " +++ Itoa (pm_Height p) +++ "U box at U" +++ Itoa (pm_Position p) +++
                      " would reach U" +++ Itoa (Top p) +++ ", past the top of a " +++ Itoa rackUnits +++ "U rack")
               else Add ve "rack_position" ("this rack is " +++ Itoa rackUnits +++ "U"))
      else
        match List.find (Overlaps p) existing with
        | None => None
        | Some other =>
            let where_ := if 1 <? pm_Height other
                          then "at U" +++ Itoa (pm_Position other) +++ "–U" +++ Itoa (Top other)
                          else "at U" +++ Itoa (pm_Position other) in
            OrNil (Add ve "rack_position" (pm_Name other +++ " is already there, " +++ where_))
        end
  end.

(** ** The rows of the store *)

(** [AssetRow], the columns an elevation needs: the asset and its model's shape. *)
Record AssetRow := { aw_Asset : Asset; aw_DeviceTypeUHeight : option Z; aw_DeviceTypeFullDepth : bool }.

(** [placementOf], of a row whose position is recorded. *)
Definition placementOf (row : AssetRow) (position : Z) : Placement :=
  let a := aw_Asset row in
  let '(face, full) := match as_RackFace a with
    | Some f => if negb (String.eqb f "") then (f, aw_DeviceTypeFullDepth row) else (FaceFront, true)
    | None => (FaceFront, true)
    end in
  let '(height, known) := match aw_DeviceTypeUHeight row with
    | Some h => if 0 <? h then (h, true) else (1, false)
    | None => (1, false)
    end in
  {| pm_AssetID := as_ID a; pm_Name := as_Name a; pm_Kind := as_Kind a; pm_Position := position;
     pm_Height := height; pm_FullDepth := full; pm_Face := face; pm_HeightKnown := known |}.

(** The rows of a rack with a position, in their order. *)
Definition placements_of (rows : list AssetRow) : list Placement :=
  omap (fun row => placementOf row <$> as_RackPosition (aw_Asset row)) rows.

(** [requireFreeRackSpace], on what it reads: the rack ([None] when there is no such
    parent), its contents, and the row of the asset with its model's shape. *)
Definition requireFreeRackSpace (rack : option Asset) (contents : list AssetRow) (moving : AssetRow)
    : option ValidationError :=
  let a := aw_Asset moving in
  match as_RackPosition a, as_ParentID a with
  | None, _ | _, None => None
  | Some position, Some _ =>
      match rack with
      | None => None
      | Some rack =>
          let rackUnits := default 0 (as_UHeight rack) in
          CheckPlacement (placementOf moving position) rackUnits
            (placements_of (List.filter (fun row => negb (String.eqb (as_ID (aw_Asset row)) (as_ID a))) contents))
      end
  end.

(** ** The elevation *)

(** [RackUnit] *)
Record RackUnit := {
  ru_Number : Z; ru_Front : option Placement; ru_Rear : option Placement; ru_FrontStart : bool; ru_RearStart : bool
}.

Record RackElevation := {
  re_Height : Z; re_HeightKnown : bool; re_Units : list RackUnit; re_Unpositioned : list AssetRow; re_FreeUnits : Z
}.

(** One shelf: the first placement that occupies each face. *)
Definition rack_unit (placements : list Placement) (n : Z) : RackUnit :=
  let front := List.find (fun p => Occupies p n FaceFront) placements in
  let rear := List.find (fun p => Occupies p n FaceRear) placements in
  let start (o : option Placement) := match o with Some p => pm_Position p =? n | None => false end in
  {| ru_Number := n; ru_Front := front; ru_Rear := rear; ru_FrontStart := start front; ru_RearStart := start rear |}.

Definition is_free (u : RackUnit) : bool :=
  match ru_Front u, ru_Rear u with None, None => true | _, _ => false end.

(** [Elevation], on the rack and the rows in it. *)
Definition Elevation (rack : Asset) (contents : list AssetRow) : RackElevation :=
  let '(height, known) := match as_UHeight rack with
    | Some h => if 0 <? h then (h, true) else (DefaultRackUnits, false)
    | None => (DefaultRackUnits, false)
    end in
  let placements := isort (fun p q => pm_Position p <? pm_Position q) (placements_of contents) in
  let shelves := rack_unit placements <$> rev (seqZ 1 height) in
  {| re_Height := height; re_HeightKnown := known; re_Units := shelves;
     re_Unpositioned := List.filter (fun row => bool_decide (as_RackPosition (aw_Asset row) = None)) contents;
     re_FreeUnits := Z.of_nat (count_if is_free shelves) |}.

(** ** What two boxes share *)

(** A unit and a face. *)
Definition shares (p q : Placement) : Prop :=
  pm_AssetID p <> pm_AssetID q /\
  exists unit face, face ∈ Faces /\ Occupies p unit face = true /\ Occupies q unit face = true.

(** The position is one of a rack, the face one of its two, and the box ends below
    the recorded top, if one is recorded. *)
Definition admissible (p : Placement) (rackUnits : Z) : Prop :=
  1 <= pm_Position p <= MaxRackUnits /\ (pm_Face p = "" \/ pm_Face p ∈ Faces) /\ (0 < rackUnits -> Top p <= rackUnits).

(** * Lemmas *)

Lemma Occupies_spec p unit face :
  Occupies p unit face = true <-> pm_Position p <= unit <= Top p /\ (pm_FullDepth p = true \/ pm_Face p = face).
Proof.
  unfold Occupies. destruct (Z.ltb_spec unit (pm_Position p)), (Z.ltb_spec (Top p) unit); cbn;
    rewrite ?orb_true_iff, ?String.eqb_eq; intuition (try lia; discriminate).
Qed.

Lemma elem_of_units p unit : unit ∈ units p <-> pm_Position p <= unit <= Top p.
Proof. unfold units, Top. rewrite elem_of_seqZ. lia. Qed.

Lemma Overlaps_spec p q : Overlaps p q = true <-> shares p q.
Proof.
  unfold Overlaps, shares. destruct (String.eqb_spec (pm_AssetID p) (pm_AssetID q)) as [E|E]; [split; [done|by intros []]|].
  rewrite existsb_elem_of. setoid_rewrite existsb_elem_of. setoid_rewrite andb_true_iff. split.
  - intros (unit & _ & face & Hf & Hp & Hq). split; [done|]. eauto.
  - intros (_ & unit & face & Hf & Hp & Hq). exists unit. split; [|by exists face].
    apply elem_of_units. by apply Occupies_spec in Hp as [? _].
Qed.

(** Sharing does not depend on which of the two is asked, though the code looks only
    at the units of one. *)
Lemma shares_sym p q : shares p q <-> shares q p.
Proof. unfold shares. firstorder. Qed.

Lemma find_spec_none {A} (f : A -> bool) l : List.find f l = None <-> forall x, x ∈ l -> f x = false.
Proof.
  split.
  - intros Hf x Hx. apply (find_none f l Hf), list_elem_of_In, Hx.
  - intros Hall. destruct (List.find f l) as [x|] eqn:E; [|done].
    apply find_some in E as [Hx Hf]. rewrite Hall in Hf; [done|]. by apply list_elem_of_In.
Qed.

Lemma containsString_Faces f : containsString Faces f = true <-> f ∈ Faces.
Proof.
  unfold containsString. rewrite existsb_elem_of. setoid_rewrite String.eqb_eq. split; [by intros (x & ? & ->)|eauto].
Qed.

Lemma CheckPlacement_None p R existing :
  CheckPlacement p R existing = None <-> admissible p R /\ forall q, q ∈ existing -> ~ shares p q.
Proof.
  assert (Hex : (forall q, q ∈ existing -> ~ shares p q) <-> List.find (Overlaps p) existing = None).
  { rewrite find_spec_none. setoid_rewrite <- Overlaps_spec. setoid_rewrite not_true_iff_false. done. }
  assert (Hface : pm_Face p = "" \/ pm_Face p ∈ Faces <-> negb (String.eqb (pm_Face p) "") && negb (containsString Faces (pm_Face p)) = false).
  { rewrite andb_false_iff, !negb_false_iff, String.eqb_eq, containsString_Faces. done. }
  rewrite Hex. unfold admissible. rewrite Hface. unfold CheckPlacement.
  destruct (Z.leb_spec (pm_Position p) 0); [|destruct (Z.ltb_spec MaxRackUnits (pm_Position p))].
  all: destruct (negb _ && negb _) eqn:Hf; cbn [Add app OrNil]; try (split; [done|intuition (try lia; done)]).
  destruct (Z.ltb_spec 0 R), (Z.ltb_spec R (Top p)); cbn [andb]; try (destruct (1 <? _)); cbn.
  all: destruct (List.find _ _) as [q|]; cbn; split; try done; intuition (try lia; done).
Qed.

(** No two boxes of a rack want the same unit of the same face. *)
Definition apart (placements : list Placement) : Prop :=
  forall p q, p ∈ placements -> q ∈ placements -> ~ shares p q.

Definition rack_apart (rows : list AssetRow) : Prop := apart (placements_of rows).

Lemma elem_of_placements p rows :
  p ∈ placements_of rows <->
  exists row n, row ∈ rows /\ as_RackPosition (aw_Asset row) = Some n /\ p = placementOf row n.
Proof.
  unfold placements_of. rewrite list_elem_of_omap. split.
  - intros (row & Hr & (n & Hn & ->)%fmap_Some). by exists row, n.
  - intros (row & n & Hr & Hn & ->). exists row. by rewrite Hn.
Qed.

Lemma placementOf_id row n : pm_AssetID (placementOf row n) = as_ID (aw_Asset row).
Proof. unfold placementOf. repeat case_match; done. Qed.

Lemma placementOf_position row n : pm_Position (placementOf row n) = n.
Proof. unfold placementOf. repeat case_match; done. Qed.

Lemma placementOf_height row n : 1 <= pm_Height (placementOf row n).
Proof. unfold placementOf. repeat case_match; cbn; try lia; simplify_eq; lia. Qed.

(** A box whose position is accepted keeps the rack apart, where it was recorded in it
    before or not. *)
Lemma racked_apart rack rows moving n :
  rack_apart rows -> as_RackPosition (aw_Asset moving) = Some n -> is_Some (as_ParentID (aw_Asset moving)) ->
  requireFreeRackSpace (Some rack) rows moving = None ->
  rack_apart (moving :: List.filter (fun row => negb (String.eqb (as_ID (aw_Asset row)) (as_ID (aw_Asset moving)))) rows).
Proof.
  intros Hap Hn [parent Hp] Hreq. unfold requireFreeRackSpace in Hreq. rewrite Hn, Hp in Hreq.
  apply CheckPlacement_None in Hreq as [_ Hfree]. set (others := List.filter _ rows) in *.
  assert (Hsub : forall q, q ∈ placements_of others -> q ∈ placements_of rows).
  { intros q (row & m & [Hr _]%elem_of_bool_filter & Hm & ->)%elem_of_placements. apply elem_of_placements. eauto. }
  assert (Hcons : forall q, q ∈ placements_of (moving :: others) -> q = placementOf moving n \/ q ∈ placements_of others).
  { intros q (row & m & [->|Hr]%elem_of_cons & Hm & ->)%elem_of_placements; [left; congruence|right].
    apply elem_of_placements. eauto. }
  intros p q [->|Hp']%Hcons [->|Hq]%Hcons; [by intros [? _]|by apply Hfree|rewrite shares_sym; by apply Hfree|].
  apply Hap; by apply Hsub.
Qed.

(** ** The drawing *)

Lemma find_unique {A} (f : A -> bool) l x :
  x ∈ l -> f x = true -> (forall y, y ∈ l -> f y = true -> y = x) -> List.find f l = Some x.
Proof.
  intros Hx Hf Hu. destruct (List.find f l) as [y|] eqn:E.
  - apply find_some in E as [Hy Hfy]. f_equal. apply Hu; [by apply list_elem_of_In|done].
  - rewrite find_spec_none in E. rewrite E in Hf; done.
Qed.

Lemma rack_unit_sound placements n p :
  (ru_Front (rack_unit placements n) = Some p -> p ∈ placements /\ Occupies p n FaceFront = true) /\
  (ru_Rear (rack_unit placements n) = Some p -> p ∈ placements /\ Occupies p n FaceRear = true).
Proof. cbn. split; intros [Hp Ho]%find_some; split; [by apply list_elem_of_In|done|by apply list_elem_of_In|done]. Qed.

Lemma rack_unit_complete placements n p :
  apart placements -> NoDup (pm_AssetID <$> placements) -> p ∈ placements ->
  (Occupies p n FaceFront = true -> ru_Front (rack_unit placements n) = Some p) /\
  (Occupies p n FaceRear = true -> ru_Rear (rack_unit placements n) = Some p).
Proof.
  intros Hap Hnd Hp.
  assert (Heq : forall q face, face ∈ Faces -> Occupies p n face = true -> q ∈ placements -> Occupies q n face = true -> q = p).
  { intros q face Hf Ho Hq Hoq. destruct (decide (pm_AssetID q = pm_AssetID p)) as [E|E].
    - apply list_elem_of_lookup in Hp as [i Hi], Hq as [j Hj].
      assert (i = j) as ->; [|congruence]. eapply NoDup_lookup; [exact Hnd|..]; rewrite list_lookup_fmap.
      + by rewrite Hi.
      + by rewrite Hj; cbn; rewrite E.
    - destruct (Hap q p Hq Hp). split; eauto. }
  split; intros Ho; apply find_unique; auto; intros q Hq Hoq; eapply Heq; eauto; unfold Faces; set_solver.
Qed.

Lemma placements_nodup rows :
  NoDup ((as_ID ∘ aw_Asset) <$> rows) -> NoDup (pm_AssetID <$> placements_of rows).
Proof.
  induction rows as [|row rows IH]; [done|]. cbn. intros [Hn Hd]%NoDup_cons. unfold placements_of. cbn.
  destruct (as_RackPosition (aw_Asset row)) as [n|]; cbn; [|by apply IH]. rewrite placementOf_id. apply NoDup_cons.
  split; [|by apply IH]. intros (p & Hid & (row' & m & Hr & _ & ->)%elem_of_placements)%list_elem_of_fmap. apply Hn.
  rewrite Hid, placementOf_id. apply list_elem_of_fmap. by exists row'.
Qed.

Lemma count_if_fmap {A B} (f : A -> B) (p : B -> bool) l : count_if p (f <$> l) = count_if (fun x => p (f x)) l.
Proof. unfold count_if. induction l as [|x l IH]; cbn; [done|]. destruct (p (f x)); cbn; auto. Qed.

Lemma count_if_ext {A} (p q : A -> bool) l : (forall x, p x = q x) -> count_if p l = count_if q l.
Proof. intros H. unfold count_if. f_equal. apply filter_ext, H. Qed.

(** * Theorems *)

(** C29. A position is accepted exactly when it is one of a rack, on a face a rack has,
    below the recorded top, and no other box there has a unit of a face the new one
    needs; and a rack whose boxes do not collide still has none that do when a box
    accepted there is put in it, newly or moved within it. *)
Theorem CheckPlacement_exact p R existing :
  (CheckPlacement p R existing = None <-> admissible p R /\ forall q, q ∈ existing -> ~ shares p q) /\
  forall rack rows moving n,
    rack_apart rows -> as_RackPosition (aw_Asset moving) = Some n -> is_Some (as_ParentID (aw_Asset moving)) ->
    requireFreeRackSpace (Some rack) rows moving = None ->
    rack_apart (moving :: List.filter (fun row => negb (String.eqb (as_ID (aw_Asset row)) (as_ID (aw_Asset moving)))) rows).
Proof. split; [apply CheckPlacement_None|]. intros *. apply racked_apart. Qed.

(** The drawing of a rack whose boxes do not collide. The shelves are numbered from
    the top down to one; a face of a shelf shows a box exactly when the box covers it,
    so no box hides another; and the free units are those no box touches. *)
Theorem Elevation_faithful rack rows :
  rack_apart rows -> NoDup ((as_ID ∘ aw_Asset) <$> rows) ->
  let e := Elevation rack rows in
  (ru_Number <$> re_Units e = rev (seqZ 1 (re_Height e))) /\
  (forall u p, u ∈ re_Units e ->
     (ru_Front u = Some p <-> p ∈ placements_of rows /\ Occupies p (ru_Number u) FaceFront = true) /\
     (ru_Rear u = Some p <-> p ∈ placements_of rows /\ Occupies p (ru_Number u) FaceRear = true)) /\
  re_FreeUnits e = Z.of_nat (count_if
    (fun n => forallb (fun p => negb (Occupies p n FaceFront || Occupies p n FaceRear)) (placements_of rows))
    (seqZ 1 (re_Height e))).
Proof.
  intros Hap Hnd. cbv zeta. set (ps := isort (fun p q => pm_Position p <? pm_Position q) (placements_of rows)).
  assert (Hps : forall p, p ∈ ps <-> p ∈ placements_of rows) by (intros p; unfold ps; by rewrite isort_perm).
  assert (Hap' : apart ps) by (intros p q Hp%Hps Hq%Hps; by apply Hap).
  assert (Hnd' : NoDup (pm_AssetID <$> ps)) by (unfold ps; rewrite isort_perm; by apply placements_nodup).
  set (h := match as_UHeight rack with Some h => if 0 <? h then h else DefaultRackUnits | None => DefaultRackUnits end).
  assert (He : re_Height (Elevation rack rows) = h /\ re_Units (Elevation rack rows) = rack_unit ps <$> rev (seqZ 1 h) /\
    re_FreeUnits (Elevation rack rows) = Z.of_nat (count_if is_free (rack_unit ps <$> rev (seqZ 1 h)))).
  { unfold Elevation, h. destruct (as_UHeight rack) as [z|]; [destruct (0 <? z)|]; done. }
  destruct He as (-> & -> & ->). split_and!.
  - rewrite <- list_fmap_compose. apply list_fmap_id.
  - intros u p (n & -> & _)%list_elem_of_fmap. change (ru_Number (rack_unit ps n)) with n. rewrite <- Hps. split; split.
    + apply rack_unit_sound.
    + intros [Hp Ho]. by apply (rack_unit_complete ps n p).
    + apply rack_unit_sound.
    + intros [Hp Ho]. by apply (rack_unit_complete ps n p).
  - f_equal. rewrite count_if_fmap. rewrite <- Permutation_rev. apply count_if_ext. intros n.
    unfold is_free. apply eq_true_iff_eq. rewrite forallb_elem_of. setoid_rewrite negb_true_iff.
    setoid_rewrite orb_false_iff. setoid_rewrite <- Hps. split.
    + intros Hn p Hp. cbn in Hn. destruct (List.find _ ps) eqn:E1 in Hn; [done|]. destruct (List.find _ ps) eqn:E2 in Hn; [done|].
      rewrite find_spec_none in E1. rewrite find_spec_none in E2. auto.
    + intros Hall. cbn. rewrite (proj2 (find_spec_none (fun p => Occupies p n FaceFront) ps)) by (intros p Hp; by apply Hall).
      rewrite (proj2 (find_spec_none (fun p => Occupies p n FaceRear) ps)); [done|]. intros p Hp; by apply Hall.
Qed.

(** ** Samples *)

Definition sample_box (id : string) (position : option Z) (units_ : option Z) : AssetRow :=
  {| aw_Asset := {|
       as_ID := id; as_Kind := "server"; as_Name := id; as_ParentID := Some "rack"; as_Serial := None;
       as_AssetTag := None; as_Vendor := None; as_Model := None; as_DeviceTypeID := None; as_UHeight := units_;
       as_RackPosition := position; as_RackFace := None; as_UsableDepthMM := None; as_WidthMM := None;
       as_MaxLoadGrams := None; as_CPUCores := None; as_MemoryMB := None; as_VCPUProvisioned := None;
       as_VCPUAllocated := None; as_MemoryProvisionedMB := None; as_MemoryAllocatedMB := None;
       as_StorageKind := None; as_RawCapacityGB := None; as_ReplacesAssetID := None;
       as_Lifecycle := "active"; as_TeamID := None; as_ManagerRole := None; as_EOLDate := None;
       as_Attrs := "{}"; as_CreatedAt := ""; as_UpdatedAt := ""; as_RowVersion := 1 |};
     aw_DeviceTypeUHeight := Some 2; aw_DeviceTypeFullDepth := false |}.

Definition sample_rack (units_ : option Z) : Asset := aw_Asset (sample_box "rack" None units_).

Example two_boxes : (fun u => pm_Name <$> ru_Front u) <$>
    re_Units (Elevation (sample_rack (Some 5)) [sample_box "b" (Some 1) None; sample_box "a" (Some 4) None]) =
  [Some "a"; Some "a"; None; Some "b"; Some "b"].
Proof. vm_compute. reflexivity. Qed.

Lemma sample_apart : rack_apart [sample_box "b" (Some 1) None; sample_box "a" (Some 4) None].
Proof.
  intros p q Hp Hq. rewrite <- Overlaps_spec. revert p q Hp Hq. cbn [placements_of omap list_omap].
  intros p q [->|[->|?%elem_of_nil]%elem_of_cons]%elem_of_cons [->|[->|?%elem_of_nil]%elem_of_cons]%elem_of_cons;
    try done; vm_compute; discriminate.
Qed.

Lemma CheckPlacement_exact_witness :
  rack_apart (sample_box "c" (Some 6) None :: [sample_box "b" (Some 1) None; sample_box "a" (Some 4) None]).
Proof.
  pose proof (proj2 (CheckPlacement_exact (placementOf (sample_box "c" (Some 6) None) 6) 0 [])) as H.
  apply (H (sample_rack None) [sample_box "b" (Some 1) None; sample_box "a" (Some 4) None] (sample_box "c" (Some 6) None) 6).
  - apply sample_apart.
  - done.
  - by eexists.
  - vm_compute. reflexivity.
Defined.

Lemma Elevation_faithful_witness :
  re_FreeUnits (Elevation (sample_rack (Some 5)) [sample_box "b" (Some 1) None; sample_box "a" (Some 4) None]) = 1.
Proof.
  destruct (Elevation_faithful (sample_rack (Some 5)) [sample_box "b" (Some 1) None; sample_box "a" (Some 4) None]) as (_ & _ & Hf).
  - apply sample_apart.
  - cbn. repeat constructor; set_solver.
  - rewrite Hf. vm_compute. reflexivity.
Defined.

(** A rack of unrecorded height is drawn with forty-two units, and a position up to
    sixty is accepted in it: the box is on no shelf and not among the unpositioned. *)
Lemma box_above_the_drawing :
  let box := sample_box "top" (Some 50) None in
  requireFreeRackSpace (Some (sample_rack None)) [] box = None /\
  let e := Elevation (sample_rack None) [box] in
  re_Unpositioned e = [] /\ re_FreeUnits e = 42 /\ Forall (fun u => ru_Front u = None /\ ru_Rear u = None) (re_Units e).
Proof.
  vm_compute. split_and!; try reflexivity. repeat constructor.
Qed.
