(* ===== verification/Ports.v ===== *)
(** Ports and cables: [Interface], [Link] and [BreakoutSpec] of
    [internal/domain/network.go], and the template of a device
    type, [internal/domain/device_type_component.go], a new asset's ports come from. *)
From Stdlib Require Import String Ascii ZArith.
From stdpp Require Import base gmap strings list.
From S2P Require Import Prelude Status Text Errors ChangeLog Assets.

#[local] Open Scope string_scope.
#[local] Open Scope list_scope.
#[local] Open Scope Z_scope.

(** * Definitions *)

Record Interface := {
  if_ID : string; if_AssetID : string; if_Name : string; if_FormFactor : string; if_SpeedMbps : option Z;
  if_MAC : option string; if_MTU : option Z; if_LagParentID : option string; if_IsMgmt : bool; if_Enabled : bool;
  if_Lifecycle : string; if_CreatedAt : option string; if_UpdatedAt : option string; if_RowVersion : Z
}.

Section Checks.
Context `{Unicode} `{CodeRunes}.

(** [Interface.Validate] *)
Definition ValidateInterface (i : Interface) : Interface * option ValidationError :=
  let '(ve, name) := checkRequired [] "name" (if_Name i) in
  let '(ve, _) := checkRequired ve "asset_id" (if_AssetID i) in
  let '(ve, form) := checkVocabulary ve "form_factor" (if_FormFactor i) in
  let ve := match if_SpeedMbps i with
    | Some z => if z <=? 0 then Add ve "speed_mbps" "must be a positive number of megabits, or blank" else ve
    | None => ve
    end in
  let ve := match if_MTU i with
    | Some z => if (z <? 68) || (65535 <? z) then Add ve "mtu" "must be between 68 and 65535, or blank" else ve
    | None => ve
    end in
  let ve := if bool_decide (if_LagParentID i = Some (if_ID i))
            then Add ve "lag_parent_id" "a port cannot be bonded into itself" else ve in
  let ve := if String.eqb (if_Lifecycle i) LifecycleActive || String.eqb (if_Lifecycle i) LifecycleRetired
            then ve else Add ve "lifecycle" (Quote (if_Lifecycle i) +++ " is not a lifecycle") in
  ({| if_ID := if_ID i; if_AssetID := if_AssetID i; if_Name := name; if_FormFactor := form;
      if_SpeedMbps := if_SpeedMbps i; if_MAC := if_MAC i; if_MTU := if_MTU i; if_LagParentID := if_LagParentID i;
      if_IsMgmt := if_IsMgmt i; if_Enabled := if_Enabled i; if_Lifecycle := if_Lifecycle i;
      if_CreatedAt := if_CreatedAt i; if_UpdatedAt := if_UpdatedAt i; if_RowVersion := if_RowVersion i |}, OrNil ve).

(** [NewInterface] *)
Definition NewInterface (id assetID name formFactor : string) : ValidationError + Interface :=
  let '(i, err) := ValidateInterface
    {| if_ID := id; if_AssetID := assetID; if_Name := name; if_FormFactor := formFactor; if_SpeedMbps := None;
       if_MAC := None; if_MTU := None; if_LagParentID := None; if_IsMgmt := false; if_Enabled := true;
       if_Lifecycle := LifecycleActive; if_CreatedAt := None; if_UpdatedAt := None; if_RowVersion := 0 |} in
  match err with Some e => inl e | None => inr i end.

(** [Link] *)
Record Link := {
  li_ID : string; li_A : string; li_B : string; li_Medium : option string; li_LengthM : option Z;
  li_Lifecycle : string; li_RowVersion : Z; li_BreakoutID : option string; li_BreakoutPosition : option Z
}.

(** [Link.Validate] *)
Definition ValidateLink (l : Link) : option ValidationError :=
  let '(ve, _) := checkRequired [] "a_interface_id" (li_A l) in
  let '(ve, _) := checkRequired ve "b_interface_id" (li_B l) in
  let ve := if negb (String.eqb (li_A l) "") && String.eqb (li_A l) (li_B l)
            then Add ve "b_interface_id" "an interface cannot be linked to itself" else ve in
  OrNil (match li_BreakoutID l, li_BreakoutPosition l with
         | Some _, None => Add ve "breakout_position" "a breakout id requires a position"
         | None, Some _ => Add ve "breakout_id" "a breakout position requires a breakout id"
         | _, Some z => if z <=? 0 then Add ve "breakout_position" "must be a positive number" else ve
         | None, None => ve
         end).

(** [BreakoutSpec] *)
Record BreakoutSpec := { bs_A : string; bs_B : list string; bs_Medium : option string; bs_LengthM : option Z }.

(** The loop of [BreakoutSpec.Validate], at position [n]. *)
Fixpoint check_strands (a : string) (n : Z) (seen bs : list string) (ve : ValidationError) : ValidationError :=
  match bs with
  | [] => ve
  | b :: bs' =>
      if String.eqb b "" then check_strands a (n + 1) seen bs' (Add ve "b_interface_ids" ("position " +++ Itoa n +++ ": choose a port"))
      else
        let ve := if String.eqb b a
          then Add ve "b_interface_ids" ("position " +++ Itoa n +++ ": an interface cannot be linked to itself") else ve in
        let ve := if bool_decide (b ∈ seen)
          then Add ve "b_interface_ids" ("position " +++ Itoa n +++ ": the same port cannot appear twice in one breakout")
          else ve in
        check_strands a (n + 1) (b :: seen) bs' ve
  end.

(** [BreakoutSpec.Validate] *)
Definition ValidateBreakout (b : BreakoutSpec) : option ValidationError :=
  let '(ve, _) := checkRequired [] "a_interface_id" (bs_A b) in
  let ve := if (length (bs_B b) <? 2)%nat then Add ve "b_interface_ids" "a breakout needs at least two strands" else ve in
  OrNil (check_strands (bs_A b) 1 [] (bs_B b) ve).

Definition ComponentKindInterface := "interface".

(** [DeviceTypeComponent] *)
Record DeviceTypeComponent := {
  dc_ID : string; dc_DeviceTypeID : string; dc_Kind : string; dc_Name : string; dc_Position : Z;
  dc_FormFactor : option string; dc_SpeedMbps : option Z; dc_IsMgmt : bool; dc_Lifecycle : string
}.

(** [newInterfaceFromTemplate]; an interface component has a form factor, by the CHECK
    of its table, and without one the code would stop. *)
Definition newInterfaceFromTemplate (id assetID : string) (c : DeviceTypeComponent) (at_ : string)
    : StoreError + Interface :=
  match dc_FormFactor c with
  | None => inl DatabaseError
  | Some form =>
      match NewInterface id assetID (dc_Name c) form with
      | inl ve => inl (Invalid ve)
      | inr i => inr {|
          if_ID := if_ID i; if_AssetID := if_AssetID i; if_Name := if_Name i; if_FormFactor := if_FormFactor i;
          if_SpeedMbps := dc_SpeedMbps c; if_MAC := if_MAC i; if_MTU := if_MTU i; if_LagParentID := if_LagParentID i;
          if_IsMgmt := dc_IsMgmt c; if_Enabled := if_Enabled i; if_Lifecycle := if_Lifecycle i;
          if_CreatedAt := Some at_; if_UpdatedAt := Some at_; if_RowVersion := 1 |}
      end
  end.
End Checks.

Definition interface_struct (i : Interface) : Struct :=
  MkStruct "Interface"
    [Column "id" (VText (if_ID i)); Column "asset_id" (VText (if_AssetID i)); Column "name" (VText (if_Name i));
     Column "form_factor" (VText (if_FormFactor i)); Column "speed_mbps" (int_or_null (if_SpeedMbps i));
     Column "mac" (text_or_null (if_MAC i)); Column "mtu" (int_or_null (if_MTU i));
     Column "lag_parent_id" (text_or_null (if_LagParentID i)); Column "is_mgmt" (VBool (if_IsMgmt i));
     Column "enabled" (VBool (if_Enabled i)); Column "lifecycle" (VText (if_Lifecycle i));
     Column "created_at" (text_or_null (if_CreatedAt i)); Column "updated_at" (text_or_null (if_UpdatedAt i));
     Column "row_version" (VInt (if_RowVersion i))].

Definition link_struct_of (l : Link) : Struct :=
  MkStruct "Link"
    [Column "id" (VText (li_ID l)); Column "a_interface_id" (VText (li_A l)); Column "b_interface_id" (VText (li_B l));
     Column "medium" (text_or_null (li_Medium l)); Column "length_m" (int_or_null (li_LengthM l));
     Column "lifecycle" (VText (li_Lifecycle l)); Column "row_version" (VInt (li_RowVersion l));
     Column "breakout_id" (text_or_null (li_BreakoutID l));
     Column "breakout_position" (int_or_null (li_BreakoutPosition l))].

(** * Lemmas *)

Lemma NewInterface_asset `{Unicode, CodeRunes} id assetID name form i :
  NewInterface id assetID name form = inr i ->
  if_ID i = id /\ if_AssetID i = assetID /\ if_Lifecycle i = LifecycleActive /\ if_Name i = TrimSpace name.
Proof. unfold NewInterface, ValidateInterface, checkRequired. repeat case_match; intros [= <-]; simplify_eq; done. Qed.
