(* ===== verification/Containment.v ===== *)
(** The containment tree and its closure: the asset half of [internal/store/assets.go].

    An asset names its parent, and [asset_closure] holds a row for each asset and each
    of its ancestors, itself included, with the steps between them. Creating an asset
    adds its rows and moving one rebuilds those of its subtree; this file models those
    writes with their checks and the constraints of the tables, and retirement with
    the topology it takes along.

    A write reads some of what it uses before its transaction opens; [seen] is the
    tables as those reads saw them, which need not be the tables the transaction runs
    on. The search index and the audit folds of custom fields and tags are left out:
    the folds are arguments. *)
From Stdlib Require Import String Ascii ZArith Lia.
From stdpp Require Import base gmap strings list.
From S2P Require Import Prelude Status Text Errors Timestamps Permits ChangeLog Projects Assets Racks Ports.

#[local] Open Scope string_scope.
#[local] Open Scope list_scope.
#[local] Open Scope nat_scope.

(** * Definitions *)

(** ** The tables *)

(** A row of [asset_closure]: ancestor, descendant, depth. *)
Definition ContainmentRow : Type := string * string * nat.

Record TopologyRow := { tr_AssetID : string; tr_Lifecycle : string; tr_UpdatedAt : string }.

(** A row of another table that names a port: the table and the column, and its
    lifecycle where the table has one. *)
Record Fastening := { fa_table : string; fa_column : string; fa_port : string; fa_Lifecycle : string }.

Record AssetTables := {
  pt_assets : gmap string Asset;
  pt_closure : list ContainmentRow;
  pt_environments : gmap string string;                 (* id to code *)
  pt_memberships : list (string * string);              (* asset, environment *)
  pt_interfaces : gmap string Interface;
  pt_members : gmap (string * string) TopologyRow;      (* net_group_member, by group and asset *)
  pt_attachments : gmap string TopologyRow;             (* net_attachment *)
  pt_pins : list (string * string);                     (* net_attachment_member: attachment, asset *)
  pt_links : gmap string Link;
  pt_kinds : list string; pt_roles : list string; pt_form_factors : list string;
  pt_teams : gset string; pt_storage_kinds : gset string;
  pt_device_types : gmap string (option Z * bool);      (* height and depth of the model *)
  pt_components : list DeviceTypeComponent;
  pt_fastened : list Fastening;
  pt_projects : gset string;
  pt_owners : gmap (string * string) ProjectLink        (* project_asset, by project and asset *)
}.

Definition with_assets (a : gmap string Asset) (t : AssetTables) : AssetTables :=
  {| pt_assets := a; pt_closure := pt_closure t; pt_environments := pt_environments t;
     pt_memberships := pt_memberships t; pt_interfaces := pt_interfaces t; pt_members := pt_members t;
     pt_attachments := pt_attachments t; pt_pins := pt_pins t; pt_links := pt_links t; pt_kinds := pt_kinds t;
     pt_roles := pt_roles t; pt_form_factors := pt_form_factors t; pt_teams := pt_teams t;
     pt_storage_kinds := pt_storage_kinds t; pt_device_types := pt_device_types t;
     pt_components := pt_components t; pt_fastened := pt_fastened t; pt_projects := pt_projects t; pt_owners := pt_owners t |}.
Definition with_closure (c : list ContainmentRow) (t : AssetTables) : AssetTables :=
  {| pt_assets := pt_assets t; pt_closure := c; pt_environments := pt_environments t;
     pt_memberships := pt_memberships t; pt_interfaces := pt_interfaces t; pt_members := pt_members t;
     pt_attachments := pt_attachments t; pt_pins := pt_pins t; pt_links := pt_links t; pt_kinds := pt_kinds t;
     pt_roles := pt_roles t; pt_form_factors := pt_form_factors t; pt_teams := pt_teams t;
     pt_storage_kinds := pt_storage_kinds t; pt_device_types := pt_device_types t;
     pt_components := pt_components t; pt_fastened := pt_fastened t; pt_projects := pt_projects t; pt_owners := pt_owners t |}.
Definition with_memberships (m : list (string * string)) (t : AssetTables) : AssetTables :=
  {| pt_assets := pt_assets t; pt_closure := pt_closure t; pt_environments := pt_environments t;
     pt_memberships := m; pt_interfaces := pt_interfaces t; pt_members := pt_members t;
     pt_attachments := pt_attachments t; pt_pins := pt_pins t; pt_links := pt_links t; pt_kinds := pt_kinds t;
     pt_roles := pt_roles t; pt_form_factors := pt_form_factors t; pt_teams := pt_teams t;
     pt_storage_kinds := pt_storage_kinds t; pt_device_types := pt_device_types t;
     pt_components := pt_components t; pt_fastened := pt_fastened t; pt_projects := pt_projects t; pt_owners := pt_owners t |}.
Definition with_interfaces (i : gmap string Interface) (t : AssetTables) : AssetTables :=
  {| pt_assets := pt_assets t; pt_closure := pt_closure t; pt_environments := pt_environments t;
     pt_memberships := pt_memberships t; pt_interfaces := i; pt_members := pt_members t;
     pt_attachments := pt_attachments t; pt_pins := pt_pins t; pt_links := pt_links t; pt_kinds := pt_kinds t;
     pt_roles := pt_roles t; pt_form_factors := pt_form_factors t; pt_teams := pt_teams t;
     pt_storage_kinds := pt_storage_kinds t; pt_device_types := pt_device_types t;
     pt_components := pt_components t; pt_fastened := pt_fastened t; pt_projects := pt_projects t; pt_owners := pt_owners t |}.
Definition with_members (m : gmap (string * string) TopologyRow) (t : AssetTables) : AssetTables :=
  {| pt_assets := pt_assets t; pt_closure := pt_closure t; pt_environments := pt_environments t;
     pt_memberships := pt_memberships t; pt_interfaces := pt_interfaces t; pt_members := m;
     pt_attachments := pt_attachments t; pt_pins := pt_pins t; pt_links := pt_links t; pt_kinds := pt_kinds t;
     pt_roles := pt_roles t; pt_form_factors := pt_form_factors t; pt_teams := pt_teams t;
     pt_storage_kinds := pt_storage_kinds t; pt_device_types := pt_device_types t;
     pt_components := pt_components t; pt_fastened := pt_fastened t; pt_projects := pt_projects t; pt_owners := pt_owners t |}.
Definition with_attachments (a : gmap string TopologyRow) (t : AssetTables) : AssetTables :=
  {| pt_assets := pt_assets t; pt_closure := pt_closure t; pt_environments := pt_environments t;
     pt_memberships := pt_memberships t; pt_interfaces := pt_interfaces t; pt_members := pt_members t;
     pt_attachments := a; pt_pins := pt_pins t; pt_links := pt_links t; pt_kinds := pt_kinds t;
     pt_roles := pt_roles t; pt_form_factors := pt_form_factors t; pt_teams := pt_teams t;
     pt_storage_kinds := pt_storage_kinds t; pt_device_types := pt_device_types t;
     pt_components := pt_components t; pt_fastened := pt_fastened t; pt_projects := pt_projects t; pt_owners := pt_owners t |}.
Definition with_links (l : gmap string Link) (t : AssetTables) : AssetTables :=
  {| pt_assets := pt_assets t; pt_closure := pt_closure t; pt_environments := pt_environments t;
     pt_memberships := pt_memberships t; pt_interfaces := pt_interfaces t; pt_members := pt_members t;
     pt_attachments := pt_attachments t; pt_pins := pt_pins t; pt_links := l; pt_kinds := pt_kinds t;
     pt_roles := pt_roles t; pt_form_factors := pt_form_factors t; pt_teams := pt_teams t;
     pt_storage_kinds := pt_storage_kinds t; pt_device_types := pt_device_types t;
     pt_components := pt_components t; pt_fastened := pt_fastened t; pt_projects := pt_projects t; pt_owners := pt_owners t |}.
Definition with_owners (o : gmap (string * string) ProjectLink) (t : AssetTables) : AssetTables :=
  {| pt_assets := pt_assets t; pt_closure := pt_closure t; pt_environments := pt_environments t;
     pt_memberships := pt_memberships t; pt_interfaces := pt_interfaces t; pt_members := pt_members t;
     pt_attachments := pt_attachments t; pt_pins := pt_pins t; pt_links := pt_links t; pt_kinds := pt_kinds t;
     pt_roles := pt_roles t; pt_form_factors := pt_form_factors t; pt_teams := pt_teams t;
     pt_storage_kinds := pt_storage_kinds t; pt_device_types := pt_device_types t;
     pt_components := pt_components t; pt_fastened := pt_fastened t; pt_projects := pt_projects t; pt_owners := o |}.

Definition refused {A} (e : Sentinel) : StoreError + A := inl (Wrapped e).

(** ** Constraints of the asset table *)

Definition live (a : Asset) : bool := negb (IsRetired a).

(** Another live asset of the name under the parent: the two partial unique indexes. *)
Definition sibling_taken (t : AssetTables) (name : string) (parent : option string) (excludeID : string) : bool :=
  existsb (fun a => bool_decide (as_ParentID a = parent) && String.eqb (as_Name a) name && live a &&
                    negb (String.eqb (as_ID a) excludeID)) (map_to_list (pt_assets t)).*2.

Definition positive_or_null (z : option Z) : bool := match z with Some z => (0 <? z)%Z | None => true end.
Definition up_to_60 (z : option Z) : bool := match z with Some z => (0 <? z)%Z && (z <=? 60)%Z | None => true end.

(** The CHECK constraints. *)
Definition asset_checks (a : Asset) : bool :=
  containsString AssetLifecycles (as_Lifecycle a) && up_to_60 (as_UHeight a) && up_to_60 (as_RackPosition a) &&
  match as_RackFace a with Some f => containsString Faces f | None => true end &&
  forallb positive_or_null [as_UsableDepthMM a; as_WidthMM a; as_MaxLoadGrams a; as_CPUCores a; as_MemoryMB a;
    as_VCPUProvisioned a; as_VCPUAllocated a; as_MemoryProvisionedMB a; as_MemoryAllocatedMB a; as_RawCapacityGB a].

Definition names_a (exists_ : string -> bool) (ref : option string) : bool :=
  match ref with Some id => exists_ id | None => true end.

(** The foreign keys. *)
Definition asset_references (t : AssetTables) (a : Asset) : bool :=
  let asset id := bool_decide (is_Some (pt_assets t !! id)) || String.eqb id (as_ID a) in
  containsString (pt_kinds t) (as_Kind a) && names_a asset (as_ParentID a) && names_a asset (as_ReplacesAssetID a) &&
  names_a (fun id => bool_decide (is_Some (pt_device_types t !! id))) (as_DeviceTypeID a) &&
  names_a (fun id => bool_decide (id ∈ pt_teams t)) (as_TeamID a) &&
  names_a (containsString (pt_roles t)) (as_ManagerRole a) &&
  names_a (fun id => bool_decide (id ∈ pt_storage_kinds t)) (as_StorageKind a).

Definition put_asset (a : Asset) (t : AssetTables) : StoreError + AssetTables :=
  if negb (asset_checks a) then refused ErrInvalid
  else if live a && sibling_taken t (as_Name a) (as_ParentID a) (as_ID a) then refused ErrConflict
  else if negb (asset_references t a) then refused ErrInvalid
  else inr (with_assets (<[as_ID a := a]> (pt_assets t)) t).

(** [INSERT INTO asset] *)
Definition insert_asset (a : Asset) (t : AssetTables) : StoreError + AssetTables :=
  if bool_decide (is_Some (pt_assets t !! as_ID a)) then refused ErrConflict else put_asset a t.

(** ** Statements on the closure *)

Definition closure_key (r : ContainmentRow) : string * string := fst r.

(** [INSERT ... SELECT]: no row of a key may be there or come twice. *)
Definition insert_rows (rows cl : list ContainmentRow) : StoreError + list ContainmentRow :=
  if bool_decide (NoDup (closure_key <$> (cl ++ rows))) then inr (cl ++ rows) else refused ErrConflict.

(** The rows of a new leaf: one for each ancestor of its parent. *)
Definition leaf_rows (id parent : string) (cl : list ContainmentRow) : list ContainmentRow :=
  omap (fun '((a, d), n) => if String.eqb d parent then Some ((a, id), S n) else None) cl.

(** The descendants of an asset: the subquery of the detaching statement. *)
Definition descendants (id : string) (cl : list ContainmentRow) : list string :=
  omap (fun '((a, d), _) => if String.eqb a id then Some d else None) cl.

(** The detaching [DELETE]. *)
Definition detach (id : string) (cl : list ContainmentRow) : list ContainmentRow :=
  List.filter (fun '((a, d), _) =>
    negb (bool_decide (d ∈ descendants id cl) && negb (bool_decide (a ∈ descendants id cl)))) cl.

(** The rows the reattaching [INSERT ... SELECT] makes. *)
Definition joined_rows (id parent : string) (cl : list ContainmentRow) : list ContainmentRow :=
  super ← cl;
  omap (fun sub : ContainmentRow =>
    if String.eqb (snd (fst super)) parent && String.eqb (fst (fst sub)) id
    then Some ((fst (fst super), snd (fst sub)), S (snd super + snd sub)) else None) cl.

Definition on_closure (f : list ContainmentRow -> StoreError + list ContainmentRow) : Tx AssetTables unit :=
  statement (fun t => match f (pt_closure t) with inl e => inl e | inr cl => inr (with_closure cl t) end).

(** [insertClosureForNewNode] *)
Definition insertClosureForNewNode (id : string) (parentID : option string) : Tx AssetTables unit :=
  _ ← on_closure (insert_rows [((id, id), 0)]);
  match parentID with
  | None => mret tt
  | Some parent => if String.eqb parent "" then mret tt
                   else on_closure (fun cl => insert_rows (leaf_rows id parent cl) cl)
  end.

(** ** Checks inside the transaction *)

(** [requireVocabulary] *)
Definition requireVocabulary {T} (codes : T -> list string) (field value : string) : Tx T unit :=
  cs ← query codes;
  if containsString cs value then mret tt
  else fail (Invalid (Add [] field ("must be one of " +++ String.concat ", " cs))).

(** [requireRole] *)
Definition requireRole (role : option string) : Tx AssetTables unit :=
  match role with
  | None => mret tt
  | Some r => if String.eqb r "" then mret tt else requireVocabulary pt_roles "manager_role" r
  end.

Section Checks.
Context `{Unicode}.

(** [requireUniqueSiblingName] *)
Definition requireUniqueSiblingName (field name : string) (parentID : option string) (lifecycle excludeID : string)
    : Tx AssetTables unit :=
  if String.eqb lifecycle LifecycleRetired then mret tt
  else
    taken ← query (fun t => sibling_taken t name parentID excludeID);
    if negb taken then mret tt
    else fail (Invalid (Add [] field (
      if String.eqb field "parent_id" then "that destination already contains something called " +++ Quote name
      else match parentID with
           | None => "another top-level asset is already called " +++ Quote name
           | Some _ => "something here is already called " +++ Quote name
           end))).
End Checks.

Definition replacementChainMax : nat := 20.

(** The loop of [requireNoReplacementCycle]: nil, or why the chain is refused. *)
Fixpoint replacement_walk (hops : nat) (assets : gmap string Asset) (seen : list string) (at_ : string)
    : option Sentinel :=
  match hops with
  | O => Some ErrConflict
  | S hops' =>
      if bool_decide (at_ ∈ seen) then Some ErrConflict
      else match assets !! at_ with
           | None => None
           | Some b => match as_ReplacesAssetID b with
                       | None => None
                       | Some next => if String.eqb next "" then None
                                      else replacement_walk hops' assets (at_ :: seen) next
                       end
           end
  end.

(** [requireNoReplacementCycle] *)
Definition requireNoReplacementCycle (assetID : string) (replaces : option string) : Tx AssetTables unit :=
  match replaces with
  | None => mret tt
  | Some r =>
      if String.eqb r "" then mret tt
      else refusal ← query (fun t => replacement_walk replacementChainMax (pt_assets t) [assetID] r);
           match refusal with Some e => fail (Wrapped e) | None => mret tt end
  end.

(** * Lemmas *)

(** ** Climbing *)

(** [n] steps up from a node, along a parent function. *)
Fixpoint climb (par : string -> option string) (n : nat) (d : string) : option string :=
  match n with O => Some d | S n' => par d ≫= climb par n' end.

Lemma climb_add par n m d : climb par (n + m) d = climb par n d ≫= climb par m.
Proof. revert d. induction n as [|n IH]; intros d; [done|]. cbn. destruct (par d); [apply IH|done]. Qed.

Lemma climb_last par n d : climb par (S n) d = climb par n d ≫= par.
Proof.
  rewrite <- Nat.add_1_r, climb_add. destruct (climb par n d) as [a|]; [|done].
  cbn. by destruct (par a).
Qed.

Lemma climb_congr par par' : (forall d, par d = par' d) -> forall n d, climb par' n d = climb par n d.
Proof. intros Hp. induction n as [|n IH]; intros d; [done|]. cbn. rewrite Hp. destruct (par' d); [apply IH|done]. Qed.

(** Two parent functions that differ at one node agree below it. *)
Lemma climb_ext par par' id n d :
  (forall x, x <> id -> par' x = par x) ->
  (forall k, k < n -> climb par k d <> Some id) ->
  climb par' n d = climb par n d.
Proof.
  intros Hp. revert d. induction n as [|n IH]; intros d Hk; [done|]. cbn.
  rewrite Hp by (intros ->; by apply (Hk 0); [lia|]).
  destruct (par d) as [q|] eqn:E; [|done]. cbn. apply IH. intros k Hlt Hc.
  apply (Hk (S k)); [lia|]. cbn. by rewrite E.
Qed.

Definition no_loop (par : string -> option string) : Prop := forall n d, climb par (S n) d <> Some d.

Lemma no_loop_congr par par' : (forall d, par d = par' d) -> no_loop par -> no_loop par'.
Proof. intros Hp Hl n d. rewrite (climb_congr par par' Hp). apply Hl. Qed.

(** Without loops a node is at one height over another. *)
Lemma climb_unique par n m d a :
  no_loop par -> climb par n d = Some a -> climb par m d = Some a -> n = m.
Proof.
  intros Hl. assert (forall n m, n < m -> climb par n d = Some a -> climb par m d <> Some a) as Hlt.
  { intros i j Hij Hi Hj. replace j with (i + S (j - S i)) in Hj by lia.
    rewrite climb_add, Hi in Hj. by apply (Hl (j - S i) a). }
  intros Hn Hm. destruct (lt_eq_lt_dec n m) as [[Hc|Hc]|Hc]; [|done|]; by edestruct Hlt.
Qed.

(** ** The closure of a parent function *)

Record closes (dom : string -> Prop) (par : string -> option string) (cl : list ContainmentRow) : Prop := {
  closes_keys : NoDup (closure_key <$> cl);
  closes_rows : forall a d n, ((a, d), n) ∈ cl <-> dom d /\ climb par n d = Some a;
  closes_parents : forall d p, par d = Some p -> dom d /\ dom p
}.

Lemma key_unique (cl : list ContainmentRow) k n m : NoDup (closure_key <$> cl) -> (k, n) ∈ cl -> (k, m) ∈ cl -> n = m.
Proof.
  intros Hnd Hn Hm. apply list_elem_of_lookup in Hn as [i Hi], Hm as [j Hj].
  assert ((closure_key <$> cl) !! i = Some k) as Hki by by apply (list_lookup_fmap_Some_2 closure_key cl i (k, n)).
  assert ((closure_key <$> cl) !! j = Some k) as Hkj by by apply (list_lookup_fmap_Some_2 closure_key cl j (k, m)).
  pose proof (NoDup_lookup _ i j k Hnd Hki Hkj) as ->. congruence.
Qed.

Lemma closes_no_loop dom par cl : closes dom par cl -> no_loop par.
Proof.
  intros [Hk Hr Hp] n d Hc.
  assert (dom d) by (cbn in Hc; destruct (par d) eqn:E; [by apply (Hp _ _ E)|done]).
  pose proof (key_unique cl (d, d) (S n) 0 Hk) as Hu. rewrite !Hr in Hu. discriminate Hu; done.
Qed.

Lemma closes_climb_dom dom par cl d n a : closes dom par cl -> dom d -> climb par n d = Some a -> dom a.
Proof.
  intros [_ _ Hp]. destruct n as [|n]; [by intros ? [= <-]|]. rewrite climb_last.
  destruct (climb par n d) as [b|]; [|done]. intros _ E. by apply (Hp b).
Qed.

Lemma closes_ext dom dom' par par' cl :
  (forall d, dom d <-> dom' d) -> (forall d, par d = par' d) -> closes dom par cl -> closes dom' par' cl.
Proof.
  intros Hd Hp [Hk Hr Hps]. pose proof (climb_congr par par' Hp) as He.
  split; [done|..]; intros; rewrite <- ?Hd; [by rewrite He, Hr|]. rewrite <- Hp in *. eauto.
Qed.

Lemma elem_descendants id cl d : d ∈ descendants id cl <-> exists n, ((id, d), n) ∈ cl.
Proof.
  unfold descendants. rewrite list_elem_of_omap. split.
  - intros ([[a x] n] & Hin & Hs). destruct (String.eqb_spec a id); simplify_eq. by exists n.
  - intros [n Hin]. exists ((id, d), n). by rewrite String.eqb_refl.
Qed.

Lemma elem_leaf_rows id parent cl a d n :
  ((a, d), n) ∈ leaf_rows id parent cl <-> d = id /\ exists m, n = S m /\ ((a, parent), m) ∈ cl.
Proof.
  unfold leaf_rows. rewrite list_elem_of_omap. split.
  - intros ([[x y] m] & Hin & Hs). destruct (String.eqb_spec y parent); simplify_eq. eauto.
  - intros (-> & m & -> & Hin). exists ((a, parent), m). by rewrite String.eqb_refl.
Qed.

Lemma elem_joined_rows id parent cl a d n :
  ((a, d), n) ∈ joined_rows id parent cl <->
  exists k m, n = S (k + m) /\ ((a, parent), k) ∈ cl /\ ((id, d), m) ∈ cl.
Proof.
  unfold joined_rows. rewrite list_elem_of_bind. split.
  - intros (super & ([[x y] m] & Hsub & Hs)%list_elem_of_omap & Hsuper).
    destruct super as [[b p] k]. cbn in Hs.
    destruct (String.eqb_spec p parent), (String.eqb_spec x id); simplify_eq/=. by exists k, m.
  - intros (k & m & -> & Hk & Hm). exists ((a, parent), k). split; [|done].
    apply list_elem_of_omap. exists ((id, d), m). cbn. by rewrite !String.eqb_refl.
Qed.

Lemma elem_detach id cl a d n :
  ((a, d), n) ∈ detach id cl <->
  ((a, d), n) ∈ cl /\ ~ (d ∈ descendants id cl /\ a ∉ descendants id cl).
Proof.
  unfold detach. rewrite elem_of_bool_filter.
  repeat case_bool_decide; cbn; intuition (done || congruence).
Qed.

Lemma insert_rows_ok rows cl cl' :
  insert_rows rows cl = inr cl' -> cl' = cl ++ rows /\ NoDup (closure_key <$> cl').
Proof. unfold insert_rows. case_bool_decide; [|done]. by intros [= <-]. Qed.

Lemma bool_filter_sublist {A} (f : A -> bool) l : List.filter f l `sublist_of` l.
Proof. induction l as [|x l IH]; cbn; [done|]. destruct (f x); by constructor. Qed.

(** A new leaf, under a node or a root. *)
Lemma closes_leaf dom par cl id q cl1 cl2 :
  closes dom par cl -> ~ dom id -> (forall p, q = Some p -> dom p) ->
  insert_rows [((id, id), 0)] cl = inr cl1 ->
  match q with Some p => insert_rows (leaf_rows id p cl1) cl1 = inr cl2 | None => cl2 = cl1 end ->
  closes (fun d => d = id \/ dom d) (fun d => if decide (d = id) then q else par d) cl2.
Proof.
  intros Hc Hid Hq [-> Hk1]%insert_rows_ok H2. pose proof Hc as [Hk Hr Hp].
  assert (forall n d, dom d -> climb (fun d => if decide (d = id) then q else par d) n d = climb par n d) as Hold.
  { intros n d Hd. apply (climb_ext _ _ id); [intros x Hx; by rewrite decide_False|].
    intros k _ Hki. by apply Hid, (closes_climb_dom dom par cl d k id Hc). }
  assert (forall a n, ((a, id), n) ∉ cl) as Hno by (intros a n [Hd _]%Hr; done).
  assert (NoDup (closure_key <$> cl2) /\
    cl2 = (cl ++ [((id, id), 0)]) ++ match q with Some p => leaf_rows id p (cl ++ [((id, id), 0)]) | None => [] end)
    as [Hk2 ->].
  { destruct q as [p|]; [|subst; by rewrite app_nil_r]. by apply insert_rows_ok in H2 as [-> ?]. }
  split; [done| |].
  - intros a d n. rewrite !elem_of_app, list_elem_of_singleton.
    destruct (decide (d = id)) as [->|Hd].
    + assert (((a, id), n) ∈ match q with Some p => leaf_rows id p (cl ++ [((id, id), 0)]) | None => [] end <->
        exists p m, q = Some p /\ n = S m /\ climb par m p = Some a) as ->.
      { destruct q as [p|]; [|set_solver]. rewrite elem_leaf_rows. setoid_rewrite elem_of_app.
        setoid_rewrite list_elem_of_singleton. setoid_rewrite Hr.
        assert (p <> id) by (intros ->; by apply Hid, Hq). split; [|naive_solver].
        intros (_ & m & -> & [[_ Hm]|?]); [eauto|congruence]. }
      split.
      * intros [[Hin|[= -> ->]]|(p & m & -> & -> & Hm)]; [by apply Hno in Hin|by split; [left|]|].
        split; [by left|]. cbn. rewrite decide_True by done. cbn. by rewrite Hold by by apply Hq.
      * intros [_ Hcl]. destruct n as [|m]; [injection Hcl as <-; auto|right].
        cbn in Hcl. rewrite decide_True in Hcl by done. destruct q as [p|]; [|done]. cbn in Hcl.
        exists p, m. split_and!; [done..|]. by rewrite Hold in Hcl by by apply Hq.
    + split.
      * intros [[[Hdd Hin]%Hr|[= ]]|Hin]; [|done|].
        { split; [by right|]. by rewrite Hold. }
        destruct q as [p|]; [by apply elem_leaf_rows in Hin as [-> _]|set_solver].
      * intros [[?|Hdd] Hcl]; [done|]. left; left. apply Hr. split; [done|]. by rewrite Hold in Hcl.
  - intros d p. case_decide as Hd; [|intros [? ?]%Hp; auto]. intros ->. auto.
Qed.

(** The nodes of a subtree. *)
Definition under (par : string -> option string) (id d : string) : Prop := exists m, climb par m d = Some id.

Lemma closes_descendants dom par cl id d :
  closes dom par cl -> d ∈ descendants id cl <-> dom d /\ under par id d.
Proof. intros [_ Hr _]. rewrite elem_descendants. setoid_rewrite Hr. unfold under. naive_solver. Qed.

(** Where a move takes the rows of the closure. *)
Definition moved (par : string -> option string) (id : string) (q : option string) : string -> option string :=
  fun d => if decide (d = id) then q else par d.

Lemma climb_moved_outside par id q n d : ~ under par id d -> climb (moved par id q) n d = climb par n d.
Proof.
  intros Hu. apply (climb_ext _ _ id); [intros x Hx; unfold moved; by rewrite decide_False|].
  intros k _ Hk. apply Hu. by exists k.
Qed.

Lemma climb_moved_inside par id q n d m :
  no_loop par -> climb par m d = Some id -> (forall p, q = Some p -> ~ under par id p) ->
  climb (moved par id q) n d =
  if decide (n <= m) then climb par n d else q ≫= climb par (n - S m).
Proof.
  intros Hl Hm Hq.
  assert (forall k, k <= m -> climb (moved par id q) k d = climb par k d) as Hlow.
  { intros k Hk. apply (climb_ext _ _ id); [intros x Hx; unfold moved; by rewrite decide_False|].
    intros j Hj Hc. pose proof (climb_unique par j m d id Hl Hc Hm). lia. }
  case_decide as Hn; [by apply Hlow|].
  replace n with (m + S (n - S m)) at 1 by lia. rewrite climb_add, Hlow, Hm by done. cbn.
  assert (moved par id q id = q) as -> by (unfold moved; by rewrite decide_True).
  destruct q as [p|]; [|done]. cbn.
  by apply climb_moved_outside, Hq.
Qed.

(** A move of a subtree under a node outside it, or to the top. *)
Lemma closes_move dom par cl id q cl1 cl2 :
  closes dom par cl -> dom id -> (forall p, q = Some p -> dom p) ->
  (forall p, q = Some p -> p ∉ descendants id cl) ->
  detach id cl = cl1 ->
  match q with Some p => insert_rows (joined_rows id p cl1) cl1 = inr cl2 | None => cl2 = cl1 end ->
  closes dom (moved par id q) cl2.
Proof.
  intros Hc Hid Hq Hout <- H2. pose proof Hc as [Hk Hr Hp]. pose proof (closes_no_loop _ _ _ Hc) as Hl.
  assert (forall p, q = Some p -> ~ under par id p) as Hqu.
  { intros p -> Hu. apply (Hout p eq_refl), (closes_descendants _ _ _ _ _ Hc). auto. }
  assert (NoDup (closure_key <$> cl2) /\
    forall a d n, ((a, d), n) ∈ cl2 <-> ((a, d), n) ∈ detach id cl \/
      exists p, q = Some p /\ ((a, d), n) ∈ joined_rows id p (detach id cl)) as [Hk2 Hin].
  { destruct q as [p|].
    - apply insert_rows_ok in H2 as [-> ?]. split; [done|]. intros. rewrite elem_of_app. naive_solver.
    - subst. split; [|naive_solver]. unfold detach.
      refine (sublist_NoDup _ _ Hk _). apply fmap_sublist, bool_filter_sublist. }
  split; [done| |].
  2: { intros d p. unfold moved. case_decide as Hd; [|by apply Hp]. intros ->. subst. auto. }
  assert (forall a d n, ((a, d), n) ∈ detach id cl <->
    dom d /\ climb par n d = Some a /\ (under par id d -> under par id a)) as Hdet.
  { intros a d n. rewrite elem_detach, Hr, !(closes_descendants _ _ _ _ _ Hc). split.
    - intros ([Hd Ha] & Hn). split_and!; [done..|]. intros Hu. destruct (decide (a ∈ descendants id cl)) as [He|He];
        rewrite (closes_descendants _ _ _ _ _ Hc) in He; naive_solver.
    - intros (Hd & Ha & Hn). split; [done|]. intros [[_ Hu] Hna]. apply Hna.
      split; [by apply (closes_climb_dom dom par cl d n a Hc)|auto]. }
  intros a d n. rewrite Hin, Hdet. setoid_rewrite elem_joined_rows. setoid_rewrite Hdet.
  destruct (decide (d ∈ descendants id cl)) as [He|He]; rewrite (closes_descendants _ _ _ _ _ Hc) in He.
  - destruct He as [Hd [m Hm]]. rewrite (climb_moved_inside par id q n d m Hl Hm Hqu). split.
    + intros [(_ & Ha & Hu)|(p & -> & k & m' & -> & (_ & Hk' & _) & (_ & Hm' & _))].
      * split; [done|]. destruct Hu as [j Hj]; [by exists m|].
        assert (n + j = m) by (apply (climb_unique par _ _ d id Hl); [by rewrite climb_add, Ha|done]).
        by rewrite decide_True by lia.
      * split; [done|]. pose proof (climb_unique par m' m d id Hl Hm' Hm) as ->.
        rewrite decide_False by lia. replace (S (k + m) - S m) with k by lia. exact Hk'.
    + intros [_ Ha]. case_decide as Hn.
      * left. split_and!; [done..|]. intros _. exists (m - n).
        replace m with (n + (m - n)) in Hm by lia. by rewrite climb_add, Ha in Hm.
      * right. destruct q as [p|]; [|done]. cbn in Ha. exists p. split; [done|].
        exists (n - S m), m. split_and!; [lia|auto|done| |done|done|].
        { intros Hu. by destruct (Hqu p). }
        { intros _. by exists 0. }
  - assert (dom d -> ~ under par id d) as Hnu by naive_solver. split.
    + intros [(Hd & Ha & _)|(p & -> & k & m' & -> & _ & (Hd & Hm' & _))].
      * split; [done|]. rewrite climb_moved_outside by auto. done.
      * destruct (Hnu Hd). by exists m'.
    + intros [Hd Ha]. left. rewrite climb_moved_outside in Ha by auto. naive_solver.
Qed.

(** ** Replacements *)

Lemma climb_meets par id d n :
  (exists m, m <= n /\ climb par m d = Some id) \/ (forall m, m <= n -> climb par m d <> Some id).
Proof.
  induction n as [|n [(m & Hm & Hi)|IH]].
  - destruct (decide (climb par 0 d = Some id)); [left; by exists 0|right]. by intros [|m] Hm; [|lia].
  - left. exists m. split; [lia|done].
  - destruct (decide (climb par (S n) d = Some id)); [left; by exists (S n)|right].
    intros m Hm. destruct (decide (m = S n)) as [->|]; [done|]. apply IH. lia.
Qed.

Lemma no_loop_moved par id q :
  no_loop par -> (forall p, q = Some p -> ~ under par id p) -> no_loop (moved par id q).
Proof.
  intros Hl Hq n d Hc. destruct (climb_meets par id d (S n)) as [(m & Hm & Hi)|Hno].
  - rewrite (climb_moved_inside par id q _ d m Hl Hi Hq) in Hc. case_decide; [by apply (Hl n d)|].
    destruct q as [p|] eqn:E; [|done]. cbn [mbind option_bind] in Hc. apply (Hq p eq_refl).
    exists (S n - S m + m). by rewrite climb_add, Hc.
  - rewrite (climb_ext par (moved par id q) id) in Hc; [by apply (Hl n d)| |].
    + intros x Hx. unfold moved. by rewrite decide_False.
    + intros k Hk. apply Hno. lia.
Qed.

Definition replaces_of (assets : gmap string Asset) (d : string) : option string := assets !! d ≫= as_ReplacesAssetID.
Definition parent_of (assets : gmap string Asset) (d : string) : option string := assets !! d ≫= as_ParentID.

(** A chain the walk accepts meets none of the nodes it has seen. *)
Lemma replacement_walk_avoids hops assets seen at_ m x :
  (forall d, replaces_of assets d <> Some "") ->
  replacement_walk hops assets seen at_ = None -> climb (replaces_of assets) m at_ = Some x -> x ∉ seen.
Proof.
  intros Hne. revert seen at_ m. induction hops as [|hops IH]; intros seen at_ m; [done|]. cbn [replacement_walk].
  case_bool_decide as Hs; [done|]. intros Hw Hc.
  destruct m as [|m]; [by injection Hc as <-|]. cbn [climb] in Hc. specialize (Hne at_).
  change (replaces_of assets at_) with (assets !! at_ ≫= as_ReplacesAssetID) in Hc, Hne.
  destruct (assets !! at_) as [b|]; [|done]. cbn in Hc, Hne.
  destruct (as_ReplacesAssetID b) as [next|]; [|done]. cbn in Hc, Hne.
  destruct (String.eqb_spec next ""); [congruence|].
  pose proof (IH _ _ _ Hw Hc) as Hn. set_solver.
Qed.

(** ** The rows of the asset table *)

(** What the constraints of the table and its references promise. *)
Record rows_ok (t : AssetTables) : Prop := {
  rows_ids : forall id a, pt_assets t !! id = Some a -> as_ID a = id;
  rows_named : pt_assets t !! "" = None;
  rows_checks : forall id a, pt_assets t !! id = Some a -> asset_checks a = true;
  rows_references : forall id a, pt_assets t !! id = Some a -> asset_references t a = true;
  rows_siblings : forall i j a b, pt_assets t !! i = Some a -> pt_assets t !! j = Some b ->
    live a = true -> live b = true -> as_ParentID a = as_ParentID b -> as_Name a = as_Name b -> i = j
}.

Lemma sibling_taken_spec t name parent excludeID : 
  sibling_taken t name parent excludeID = true <->
  exists id a, pt_assets t !! id = Some a /\ as_ParentID a = parent /\ as_Name a = name /\ live a = true /\
    as_ID a <> excludeID.
Proof.
  unfold sibling_taken. rewrite existsb_exists. split.
  - intros (a & Hin & Hb). apply list_elem_of_In, list_elem_of_fmap in Hin as ([id b] & -> & Hin%elem_of_map_to_list).
    rewrite !andb_true_iff, bool_decide_eq_true, negb_true_iff, String.eqb_eq, String.eqb_neq in Hb.
    exists id, b. naive_solver.
  - intros (id & a & Hl & Hp & Hn & Hlv & Hx). exists a. split.
    + apply list_elem_of_In, list_elem_of_fmap. exists (id, a). split; [done|]. by apply elem_of_map_to_list.
    + rewrite !andb_true_iff, bool_decide_eq_true, negb_true_iff, String.eqb_eq, String.eqb_neq. naive_solver.
Qed.

Lemma put_asset_ok a t t' :
  put_asset a t = inr t' ->
  t' = with_assets (<[as_ID a := a]> (pt_assets t)) t /\ asset_checks a = true /\ asset_references t a = true /\
  (live a = true -> sibling_taken t (as_Name a) (as_ParentID a) (as_ID a) = false).
Proof.
  unfold put_asset. destruct (asset_checks a); [|done]. cbn [negb].
  destruct (live a && _) eqn:E; [done|]. destruct (asset_references t a); [|done]. intros [= <-].
  split_and!; [done..|]. intros Hl. by rewrite Hl in E.
Qed.

(** References to assets are the only ones that change with the table, and a row
    never goes. *)
Lemma asset_references_grow t m a :
  (forall id, is_Some (pt_assets t !! id) -> is_Some (m !! id)) ->
  asset_references t a = true -> asset_references (with_assets m t) a = true.
Proof.
  intros Hm. unfold asset_references. cbn. rewrite !andb_true_iff. intros [[[[[[H1 H2] H3] H4] H5] H6] H7].
  split_and!; try done.
  - destruct (as_ParentID a) as [p|]; [|done]. cbn in *. rewrite orb_true_iff, bool_decide_eq_true in *. naive_solver.
  - destruct (as_ReplacesAssetID a) as [p|]; [|done]. cbn in *. rewrite orb_true_iff, bool_decide_eq_true in *.
    naive_solver.
Qed.

Lemma asset_references_names t a :
  asset_references t a = true ->
  (forall p, as_ParentID a = Some p -> is_Some (pt_assets t !! p) \/ p = as_ID a) /\
  (forall p, as_ReplacesAssetID a = Some p -> is_Some (pt_assets t !! p) \/ p = as_ID a).
Proof.
  unfold asset_references. cbn. rewrite !andb_true_iff. intros [[[[[[H1 H2] H3] H4] H5] H6] H7].
  split; intros p Hp; rewrite Hp in *; cbn in *;
    rewrite orb_true_iff, bool_decide_eq_true, String.eqb_eq in *; done.
Qed.

Lemma rows_named_refs t : rows_ok t ->
  (forall d p, parent_of (pt_assets t) d = Some p -> is_Some (pt_assets t !! d) /\ is_Some (pt_assets t !! p)) /\
  (forall d p, replaces_of (pt_assets t) d = Some p -> is_Some (pt_assets t !! d) /\ is_Some (pt_assets t !! p)).
Proof.
  intros Hok. unfold parent_of, replaces_of.
  split; intros d p; destruct (pt_assets t !! d) as [a|] eqn:Ha; [|done| |done]; cbn; intros Hp;
    (split; [done|]);
    pose proof (asset_references_names t a (rows_references t Hok d a Ha)) as [H1 H2];
    pose proof (rows_ids t Hok d a Ha) as Hid; [apply H1 in Hp as [?| ->]|apply H2 in Hp as [?| ->]]; try done;
    by rewrite Hid, Ha.
Qed.

Lemma rows_ok_put a t t' :
  rows_ok t -> as_ID a <> "" -> put_asset a t = inr t' -> rows_ok t'.
Proof.
  intros [Hi Hn Hc Hr Hs] Hne (-> & Hca & Hra & Hsa)%put_asset_ok.
  assert (forall id, is_Some (pt_assets t !! id) -> is_Some (<[as_ID a := a]> (pt_assets t) !! id)) as Hg.
  { intros id Hid. destruct (decide (id = as_ID a)) as [->|]; [by rewrite lookup_insert_eq|by rewrite lookup_insert_ne]. }
  split; cbn [pt_assets with_assets].
  - intros id b [[<- <-]|[? Hb]]%lookup_insert_Some; [done|by apply Hi].
  - by rewrite lookup_insert_ne.
  - intros id b [[<- <-]|[? Hb]]%lookup_insert_Some; [done|by eapply Hc].
  - intros id b [[<- <-]|[? Hb]]%lookup_insert_Some; apply asset_references_grow; [done..|eauto].
  - assert (forall j b, j <> as_ID a -> pt_assets t !! j = Some b -> live a = true -> live b = true ->
      as_ParentID b = as_ParentID a -> as_Name b = as_Name a -> False) as Hx.
    { intros j b Hj Hb Hla Hlb Hp Hnm. specialize (Hsa Hla). apply not_true_iff_false in Hsa. apply Hsa.
      apply sibling_taken_spec. exists j, b. rewrite (Hi j b Hb). done. }
    intros i j b c [[<- <-]|[? Hb]]%lookup_insert_Some [[<- <-]|[? Hcj]]%lookup_insert_Some Hlb Hlc Hp Hnm;
      [done|exfalso; eauto..|eauto].
Qed.

(** ** Reading the closure *)

(** A climb that ends, ends at a top. *)
Lemma climb_top par d n : climb par n d = None -> exists h, h < n /\ (exists a, climb par h d = Some a) /\ climb par (S h) d = None.
Proof.
  induction n as [|n IH]; [done|]. intros Hn. destruct (climb par n d) as [a|] eqn:E; [|].
  - exists n. split; [lia|]. split; [by exists a|done].
  - destruct (IH eq_refl) as (h & Hh & ? & ?). exists h. split; [lia|done].
Qed.

Lemma climb_le par d n m a : m <= n -> climb par n d = Some a -> exists b, climb par m d = Some b.
Proof.
  intros Hm Hn. replace n with (m + (n - m)) in Hn by lia. rewrite climb_add in Hn.
  destruct (climb par m d) as [b|]; [by exists b|done].
Qed.

Definition depth_bound (cl : list ContainmentRow) : nat := foldr Nat.max 0 cl.*2.

Lemma depth_bounded cl k n : (k, n) ∈ cl -> n <= depth_bound cl.
Proof.
  unfold depth_bound. induction cl as [|[k' m] cl IH]; [by intros ?%not_elem_of_nil|].
  intros [[= <- <-]|Hin]%elem_of_cons; cbn; [lia|]. specialize (IH Hin). lia.
Qed.

(** Every node has its height. *)
Lemma closes_height dom par cl d :
  closes dom par cl -> dom d -> exists h, (exists a, climb par h d = Some a) /\ climb par (S h) d = None.
Proof.
  intros Hc Hd. destruct (climb par (S (depth_bound cl)) d) as [a|] eqn:E.
  - assert (((a, d), S (depth_bound cl)) ∈ cl) as Hin by by apply (closes_rows _ _ _ Hc).
    apply depth_bounded in Hin. lia.
  - destruct (climb_top _ _ _ E) as (h & _ & ? & ?). by exists h.
Qed.

(** The rows of a node above it, the farthest first. *)
Definition path_rows (d : string) (cl : list ContainmentRow) : list ContainmentRow :=
  isort (fun x y : ContainmentRow => (snd y <? snd x)%nat)
    (List.filter (fun r : ContainmentRow => String.eqb (snd (fst r)) d && (0 <? snd r)%nat) cl).

#[export] Instance deeper_weak : StrictWeak (fun x y : ContainmentRow => snd y <? snd x).
Proof.
  split.
  - intros x y ?%Nat.ltb_lt. apply Nat.ltb_ge. lia.
  - intros x y z. rewrite !Nat.ltb_ge. lia.
Qed.

Lemma path_rows_spec dom par cl d h :
  closes dom par cl -> dom d -> (exists a, climb par h d = Some a) -> climb par (S h) d = None ->
  path_rows d cl = (fun n => ((default "" (climb par n d), d), n)) <$> rev (seq 1 h).
Proof.
  intros Hc Hd [a Ha] Htop. pose proof (closes_no_loop _ _ _ Hc) as Hl.
  assert (forall n, n <= h -> exists b, climb par n d = Some b) as Hle by (intros; by eapply climb_le).
  assert (forall x y, x ∈ path_rows d cl -> y ∈ path_rows d cl -> snd x = snd y -> x = y) as Hinj.
  { intros [[x dx] n] [[y dy] m] Hx Hy Hnm. unfold path_rows in *. rewrite elem_of_isort, elem_of_bool_filter in *.
    cbn [fst snd] in *. rewrite !andb_true_iff, !String.eqb_eq in *. destruct Hx as [Hx [-> _]], Hy as [Hy [-> _]].
    subst m. apply (closes_rows _ _ _ Hc) in Hx as [_ Hx], Hy as [_ Hy]. congruence. }
  assert (path_rows d cl ≡ₚ (fun n => ((default "" (climb par n d), d), n)) <$> rev (seq 1 h)) as Hperm.
  { apply NoDup_Permutation.
    - unfold path_rows. rewrite isort_perm. apply bool_filter_nodup. eapply NoDup_fmap_1, (closes_keys _ _ _ Hc).
    - apply NoDup_fmap_2_strong; [|apply NoDup_ListNoDup, NoDup_rev, seq_NoDup]. intros n m _ _ E. by injection E.
    - intros [[x dx] n]. unfold path_rows. rewrite elem_of_isort, elem_of_bool_filter, list_elem_of_fmap.
      cbn [fst snd]. rewrite andb_true_iff, String.eqb_eq, Nat.ltb_lt. setoid_rewrite list_elem_of_In.
      setoid_rewrite <- in_rev. setoid_rewrite in_seq. split.
      + intros [Hin [-> Hn]]. rewrite <- list_elem_of_In in Hin. apply (closes_rows _ _ _ Hc) in Hin as [_ Hin].
        exists n. rewrite Hin. split; [done|]. split; [lia|].
        destruct (decide (n <= h)); [lia|]. destruct (climb_le par d n (S h) x) as [? E]; [lia|done|congruence].
      + intros (m & [= -> -> <-] & Hm). split; [|split; [done|lia]]. apply list_elem_of_In, (closes_rows _ _ _ Hc).
        split; [done|]. destruct (Hle n) as [b Hb]; [lia|]. by rewrite Hb. }
  refine (sorted_by_unique (fun x y : ContainmentRow => snd y <? snd x) _ _ _ (isort_sorted _ _) _ Hperm).
  - intros x y Hx Hy ?%Nat.ltb_ge ?%Nat.ltb_ge. apply Hinj; [done..|lia].
  - clear. unfold sorted_by. induction h as [|h IH]; [constructor|].
    rewrite seq_S, rev_app_distr. cbn [rev app fmap list_fmap]. constructor; [exact IH|].
    apply Forall_fmap, Forall_forall. intros n Hn. cbn [fst snd compose]. apply list_elem_of_In, in_rev, in_seq in Hn.
    apply Nat.ltb_ge. lia.
Qed.

(** ** Moves fit the table *)

Lemma NoDup_omap_inj {A B} (f : A -> option B) l :
  (forall x y z, f x = Some z -> f y = Some z -> x = y) -> NoDup l -> NoDup (omap f l).
Proof.
  intros Hf. induction 1 as [|x l Hx Hl IH]; cbn; [constructor|].
  destruct (f x) as [z|] eqn:E; [|done]. constructor; [|done].
  intros (y & Hy & Ey)%list_elem_of_omap. by rewrite (Hf x y z E Ey) in Hx.
Qed.

Lemma NoDup_joined_rows id p cl : NoDup (closure_key <$> cl) -> NoDup (joined_rows id p cl).
Proof.
  intros Hk. pose proof (NoDup_fmap_1 _ _ Hk) as Hnd. unfold joined_rows. apply NoDup_bind; [| |done].
  - intros [[a x] k] [[b y] m] [[c d] n] Hx Hy
      ([[? ?] ?] & Hs1 & H1)%list_elem_of_omap ([[? ?] ?] & Hs2 & H2)%list_elem_of_omap. cbn in *.
    destruct (String.eqb_spec x p), (String.eqb_spec y p); simplify_eq/=; try by case_match.
    repeat case_match; simplify_eq. f_equal. by eapply (key_unique cl (c, p)).
  - intros [[a x] k] _. apply NoDup_omap_inj; [|done].
    intros [[b y] m] [[c z] n] [[? ?] ?]. cbn. repeat case_match; intros; simplify_eq; [|done..].
    rewrite !andb_true_iff, !String.eqb_eq in *. destruct_and!; subst. repeat f_equal; lia.
Qed.

Lemma move_fits dom par cl id p :
  closes dom par cl -> dom id -> dom p -> p ∉ descendants id cl ->
  exists cl', insert_rows (joined_rows id p (detach id cl)) (detach id cl) = inr cl'.
Proof.
  intros Hc Hid Hp Hout. pose proof (closes_no_loop _ _ _ Hc) as Hl.
  assert (NoDup (closure_key <$> detach id cl)) as Hk1.
  { refine (sublist_NoDup _ _ (closes_keys _ _ _ Hc) _). apply fmap_sublist, bool_filter_sublist. }
  assert (forall a d n, ((a, d), n) ∈ joined_rows id p (detach id cl) ->
    exists k m, n = S (k + m) /\ climb par k p = Some a /\ climb par m d = Some id /\ dom d) as Hj.
  { intros a d n (k & m & -> & [Hk _]%elem_detach & [Hm _]%elem_detach)%elem_joined_rows.
    apply (closes_rows _ _ _ Hc) in Hk as [_ Hk], Hm as [Hd Hm]. by exists k, m. }
  unfold insert_rows. rewrite bool_decide_eq_true_2; [by eexists|].
  rewrite fmap_app. apply NoDup_app. split_and!; [done| |].
  - intros [a d] (([x y] & n) & [= -> ->] & [_ Hdet]%elem_detach)%list_elem_of_fmap.
    intros (([x' y'] & n') & [= -> ->] & (k & m & -> & Hk & Hm & Hd)%Hj)%list_elem_of_fmap.
    apply Hdet. split; [apply (closes_descendants _ _ _ _ _ Hc); split; [done|by exists m]|].
    intros [Ha [j Hja]]%(closes_descendants _ _ _ _ _ Hc). apply Hout.
    apply (closes_descendants _ _ _ _ _ Hc). split; [done|]. exists (k + j). by rewrite climb_add, Hk.
  - apply NoDup_fmap_2_strong; [|by apply NoDup_joined_rows].
    intros [[a d] n] [[a' d'] n'] (k & m & -> & Hk & Hm & _)%Hj (k' & m' & -> & Hk' & Hm' & _)%Hj [= <- <-].
    by rewrite (climb_unique par k k' p a Hl Hk Hk'), (climb_unique par m m' d id Hl Hm Hm').
Qed.
