(* ===== verification/AssetWrites.v ===== *)
(** Writes on assets: creation, update, moves and retirement in
    [internal/store/assets.go], and the ports a new asset takes from the template of
    its device type, [internal/store/device_type_components.go].

    [seen] is the tables as the reads before the transaction saw them. The invariant
    of the tables, which every write keeps whatever those reads saw; the containment
    tree and its closure agree, names are unique among live siblings, no chain of
    replacements comes back on itself. *)
From Stdlib Require Import String Ascii ZArith Lia.
From stdpp Require Import base gmap strings list.
From S2P Require Import Prelude Status Text Errors Timestamps Actors Permits ChangeLog Projects Assets Racks Ports Containment.

#[local] Open Scope string_scope.
#[local] Open Scope list_scope.

(** * Definitions *)

(** ** Reads before a transaction *)

Definition AssetListLimit : nat := 500.

(** The row of an asset, with the height and the depth of its model. *)
Definition decorated (seen : AssetTables) (a : Asset) : AssetRow :=
  let model := as_DeviceTypeID a ≫= fun id => pt_device_types seen !! id in
  {| aw_Asset := a; aw_DeviceTypeUHeight := model ≫= fst; aw_DeviceTypeFullDepth := default false (snd <$> model) |}.

Definition asset_less : Asset -> Asset -> bool :=
  lex_less as_Kind str_ltb (fun a b => str_ltb (as_Name a) (as_Name b)).

(** [ListAssets] of the live assets under a parent. *)
Definition contents_of (seen : AssetTables) (parent : string) : list AssetRow :=
  decorated seen <$> take AssetListLimit (isort asset_less
    (List.filter (fun a => live a && bool_decide (as_ParentID a = Some parent)) (map_to_list (pt_assets seen)).*2)).

(** [requireFreeRackSpace] on the tables. *)
Definition rack_space (seen : AssetTables) (a : Asset) : option ValidationError :=
  match as_ParentID a with
  | None => None
  | Some parent => requireFreeRackSpace (pt_assets seen !! parent) (contents_of seen parent) (decorated seen a)
  end.

(** [environmentCodes] *)
Definition environmentCodes (seen : AssetTables) (ids : list string) : list string :=
  (List.filter (fun kv : string * string => bool_decide (kv.1 ∈ ids)) (map_to_list (pt_environments seen))).*2.

(** The codes of the environments of an asset, as [GetAsset] reads them. *)
Definition membership_codes (seen : AssetTables) (id : string) : list string :=
  environmentCodes seen (omap (fun '(a, e) => if String.eqb a id then Some e else None) (pt_memberships seen)).

(** ** Statements *)

(** A loop of a transaction. *)
Fixpoint each {T A} (f : A -> Tx T unit) (l : list A) : Tx T unit :=
  match l with
  | [] => mret tt
  | x :: l' => _ ← f x; each f l'
  end.

Definition insert_membership (assetID envID : string) (t : AssetTables) : StoreError + AssetTables :=
  if bool_decide ((assetID, envID) ∈ pt_memberships t) then refused ErrConflict
  else if bool_decide (pt_environments t !! envID = None) then refused ErrInvalid
  else inr (with_memberships (pt_memberships t ++ [(assetID, envID)]) t).

(** [setAssetEnvironments]; [None] is a nil slice. *)
Definition setAssetEnvironments (assetID : string) (environmentIDs : option (list string)) : Tx AssetTables unit :=
  match environmentIDs with
  | None => mret tt
  | Some ids =>
      _ ← statement (fun t => inr (with_memberships
            (List.filter (fun '(a, _) => negb (String.eqb a assetID)) (pt_memberships t)) t));
      each (fun envID => if String.eqb envID "" then mret tt else statement (insert_membership assetID envID)) ids
  end.

Definition port_lifecycle (i : Interface) : bool :=
  containsString [LifecycleActive; LifecycleRetired] (if_Lifecycle i).

(** [INSERT INTO interface] *)
Definition insert_interface (i : Interface) (t : AssetTables) : StoreError + AssetTables :=
  if bool_decide (is_Some (pt_interfaces t !! if_ID i)) ||
     existsb (fun j => String.eqb (if_AssetID j) (if_AssetID i) && String.eqb (if_Name j) (if_Name i))
       (map_to_list (pt_interfaces t)).*2 then refused ErrConflict
  else if negb (containsString (pt_form_factors t) (if_FormFactor i)) ||
          bool_decide (pt_assets t !! if_AssetID i = None) || negb (port_lifecycle i) ||
          negb (names_a (fun id => bool_decide (is_Some (pt_interfaces t !! id)) || String.eqb id (if_ID i)) (if_LagParentID i))
  then refused ErrInvalid
  else inr (with_interfaces (<[if_ID i := i]> (pt_interfaces t)) t).

(** The row an [INSERT] makes: [row_version] has its default. *)
Definition inserted (a : Asset) : Asset := set_stamps (as_Lifecycle a) (as_CreatedAt a) (as_UpdatedAt a) 1 a.

(** [UPDATE asset SET ... WHERE id = ? AND row_version = ?] and [requireVersion]. *)
Definition update_asset (a : Asset) (t : AssetTables) : StoreError + AssetTables :=
  match pt_assets t !! as_ID a with
  | None => refused ErrStale
  | Some row =>
      if (as_RowVersion row =? as_RowVersion a)%Z
      then put_asset (set_parent (as_ParentID row)
             (set_stamps (as_Lifecycle a) (as_CreatedAt row) (as_UpdatedAt a) (as_RowVersion row + 1) a)) t
      else refused ErrStale
  end.

(** [UPDATE asset SET parent_id = ?, ...] *)
Definition update_parent (id : string) (parent : option string) (at_ : string) (t : AssetTables)
    : StoreError + AssetTables :=
  match pt_assets t !! id with
  | None => inr t
  | Some row => put_asset (set_parent parent
                  (set_stamps (as_Lifecycle row) (as_CreatedAt row) at_ (as_RowVersion row + 1) row)) t
  end.

(** [UPDATE asset SET lifecycle = 'retired', ...] *)
Definition update_retired (id at_ : string) (t : AssetTables) : StoreError + AssetTables :=
  match pt_assets t !! id with
  | None => inr t
  | Some row => put_asset (set_stamps LifecycleRetired (as_CreatedAt row) at_ (as_RowVersion row + 1) row) t
  end.

Definition retired_row (at_ : string) (r : TopologyRow) : TopologyRow :=
  {| tr_AssetID := tr_AssetID r; tr_Lifecycle := LifecycleRetired; tr_UpdatedAt := at_ |}.
Definition retired_cable (l : Link) : Link :=
  {| li_ID := li_ID l; li_A := li_A l; li_B := li_B l; li_Medium := li_Medium l; li_LengthM := li_LengthM l;
     li_Lifecycle := LifecycleRetired; li_RowVersion := li_RowVersion l; li_BreakoutID := li_BreakoutID l;
     li_BreakoutPosition := li_BreakoutPosition l |}.

(** ** Topology naming an asset *)

Definition is_live (lifecycle : string) : bool := String.eqb lifecycle LifecycleActive.

(** The groups with a live membership of the asset. *)
Definition live_memberships (assetID : string) (t : AssetTables) : list string :=
  omap (fun '((g, a), r) => if String.eqb a assetID && is_live (tr_Lifecycle r) then Some g else None)
    (map_to_list (pt_members t)).

(** The live attachments that are the asset's or are pinned to it. *)
Definition live_attachments (assetID : string) (t : AssetTables) : list string :=
  omap (fun '(id, r) =>
    if is_live (tr_Lifecycle r) && (String.eqb (tr_AssetID r) assetID || bool_decide ((id, assetID) ∈ pt_pins t))
    then Some id else None) (map_to_list (pt_attachments t)).

Definition port_of (t : AssetTables) (assetID port : string) : bool :=
  match pt_interfaces t !! port with Some i => String.eqb (if_AssetID i) assetID | None => false end.

(** The live cables in a port of the asset. *)
Definition live_cables (assetID : string) (t : AssetTables) : list string :=
  omap (fun '(id, l) =>
    if is_live (li_Lifecycle l) && (port_of t assetID (li_A l) || port_of t assetID (li_B l)) then Some id else None)
    (map_to_list (pt_links t)).

Definition component_less : DeviceTypeComponent -> DeviceTypeComponent -> bool :=
  lex_less dc_Kind str_ltb (lex_less dc_Position Z.ltb (fun a b => str_ltb (dc_Name a) (dc_Name b))).

(** [ListDeviceTypeComponents] *)
Definition ListDeviceTypeComponents (deviceTypeID : string) (t : AssetTables) : list DeviceTypeComponent :=
  isort component_less (List.filter (fun c =>
    String.eqb (dc_DeviceTypeID c) deviceTypeID && is_live (dc_Lifecycle c)) (pt_components t)).

Definition is_interface (c : DeviceTypeComponent) : bool := String.eqb (dc_Kind c) ComponentKindInterface.

(** [missingTemplateComponents] *)
Definition missingTemplateComponents (assetID : string) (components : list DeviceTypeComponent) (t : AssetTables)
    : list DeviceTypeComponent :=
  let have := omap (fun i => if String.eqb (if_AssetID i) assetID then Some (if_Name i) else None)
                (map_to_list (pt_interfaces t)).*2 in
  List.filter (fun c => is_interface c && negb (bool_decide (dc_Name c ∈ have))) components.

Section Writes.
Context `{Unicode} `{CodeRunes} (NewID : nat -> string).

(** [n] identifiers made before a transaction opens. *)
Definition minted (n : nat) (st : Store AssetTables) : list string * Store AssetTables :=
  (NewID <$> seq (st_ids st) n, MkStore (st_tables st) (st_log st) (st_ids st + n)).

(** ** Ports from a template *)

(** One turn of the loop of [instantiateInterfaceComponents]. *)
Definition instantiate_one (assetID at_ : string) (c : DeviceTypeComponent) (id : string) : Tx AssetTables unit :=
  if negb (is_interface c) then fail DatabaseError
  else match newInterfaceFromTemplate id assetID c at_ with
       | inl e => fail e
       | inr i => _ ← statement (insert_interface i);
                  logCreate NewID "interface" (if_ID i) (interface_struct i)
       end.

(** [instantiateInterfaceComponents], on identifiers as many as the components. *)
Definition instantiateInterfaceComponents (assetID : string) (components : list DeviceTypeComponent)
    (ids : list string) (at_ : string) : Tx AssetTables unit :=
  each (fun '(c, id) => instantiate_one assetID at_ c id) (combine components ids).

(** [n] identifiers made inside a transaction. *)
Fixpoint newIDs (n : nat) : Tx AssetTables (list string) :=
  match n with
  | O => mret []
  | S n' => id ← newID NewID; ids ← newIDs n'; mret (id :: ids)
  end.

(** [instantiateComponents] *)
Definition instantiateComponents (a : Asset) (planned : option (list string)) (at_ : string) : Tx AssetTables unit :=
  match as_DeviceTypeID a with
  | None => mret tt
  | Some model =>
      components ← query (ListDeviceTypeComponents model);
      let ifaces := List.filter is_interface components in
      ids ← match planned with
            | Some planned => if Nat.eqb (length planned) (length ifaces) then mret planned
                              else fail (Wrapped ErrConflict)
            | None => newIDs (length ifaces)
            end;
      instantiateInterfaceComponents (as_ID a) ifaces ids at_
  end.

(** [ApplyTemplate]: the number of ports added. *)
Definition ApplyTemplate (seen : AssetTables) (fate : Fate) (p : Permit) (now : Time) (assetID : string)
    (st : Store AssetTables) : (StoreError + nat) * Store AssetTables :=
  if negb (Covers p "asset" assetID) then (inl (Wrapped ErrForbidden), st)
  else match pt_assets seen !! assetID with
  | None => (inl (Wrapped ErrNotFound), st)
  | Some row =>
      match as_DeviceTypeID row with
      | None => (inr 0, st)
      | Some model =>
          let missing := missingTemplateComponents assetID (ListDeviceTypeComponents model seen) seen in
          match missing with
          | [] => (inr 0, st)
          | _ =>
              let '(ids, st) := minted (length missing) st in
              let txPermit := scopedPermit (PermitActor p) [] {[ "interface" := list_to_map ((fun id => (id, true)) <$> ids) ]} in
              write fate (Some txPermit) now (
                _ ← instantiateInterfaceComponents assetID missing ids (FormatTime now);
                mret (length missing)) st
          end
      end
  end.

(** ** Creation *)

(** [insertAsset] *)
Definition insertAsset (a : Asset) (environmentIDs : option (list string)) (codes : list string)
    (planned : option (list string)) (at_ : string) : Tx AssetTables unit :=
  _ ← requireVocabulary pt_kinds "kind" (as_Kind a);
  _ ← requireRole (as_ManagerRole a);
  _ ← requireUniqueSiblingName "name" (as_Name a) (as_ParentID a) (as_Lifecycle a) (as_ID a);
  _ ← requireNoReplacementCycle (as_ID a) (as_ReplacesAssetID a);
  _ ← statement (insert_asset (inserted a));
  _ ← insertClosureForNewNode (as_ID a) (as_ParentID a);
  _ ← setAssetEnvironments (as_ID a) environmentIDs;
  _ ← logCreate NewID "asset" (as_ID a) (auditedAsset a codes "" "");
  instantiateComponents a planned at_.

(** What creations check before their transaction. *)
Definition creatable (seen : AssetTables) (a : Asset) : StoreError + Asset :=
  match ValidateAsset (inserted a) with
  | (_, Some ve) => inl (Invalid ve)
  | (a, None) => match rack_space seen a with Some ve => inl (Invalid ve) | None => inr a end
  end.

(** [CreateAsset] *)
Definition CreateAsset (seen : AssetTables) (fate : Fate) (p : option Permit) (now : Time) (a : Asset)
    (environmentIDs : option (list string)) (st : Store AssetTables) : (StoreError + unit) * Store AssetTables :=
  match creatable seen a with
  | inl e => (inl e, st)
  | inr a => write fate p now (insertAsset a environmentIDs (environmentCodes seen (default [] environmentIDs)) None
                                 (FormatTime now)) st
  end.

(** [insertProjectAssetLink] *)
Definition insert_owner (projectID assetID at_ : string) (t : AssetTables) : StoreError + AssetTables :=
  let link := {| pl_ProjectID := projectID; pl_EntityID := assetID; pl_Relation := ProjectOwns; pl_Note := None;
                 pl_Lifecycle := LifecycleActive; pl_CreatedAt := at_; pl_UpdatedAt := at_ |} in
  if bool_decide (is_Some (pt_owners t !! (projectID, assetID))) ||
     existsb (fun l => String.eqb (pl_EntityID l) assetID && String.eqb (pl_Relation l) ProjectOwns &&
                       is_live (pl_Lifecycle l)) (map_to_list (pt_owners t)).*2 then refused ErrConflict
  else if bool_decide (projectID ∉ pt_projects t) || bool_decide (pt_assets t !! assetID = None) then refused ErrInvalid
  else inr (with_owners (<[(projectID, assetID) := link]> (pt_owners t)) t).

Definition insertProjectAssetLink (projectID assetID at_ : string) : Tx AssetTables unit :=
  _ ← statement (insert_owner projectID assetID at_);
  logCreate NewID "project_asset" (link_id projectID assetID)
    (link_struct ProjectAsset {| pl_ProjectID := projectID; pl_EntityID := assetID; pl_Relation := ProjectOwns;
       pl_Note := None; pl_Lifecycle := LifecycleActive; pl_CreatedAt := at_; pl_UpdatedAt := at_ |}).

(** [CreateAssetInProject] *)
Definition CreateAssetInProject (seen : AssetTables) (fate : Fate) (p : option Permit) (now : Time)
    (projectID : string) (a : Asset) (st : Store AssetTables) : (StoreError + unit) * Store AssetTables :=
  match ValidateAsset (inserted a) with
  | (_, Some ve) => (inl (Invalid ve), st)
  | (a, None) =>
      match p with
      | Some permit =>
          if negb (PermitHoldsProject p projectID) then (inl (Wrapped ErrForbidden), st)
          else match rack_space seen a with
          | Some ve => (inl (Invalid ve), st)
          | None =>
              let wanted := match as_DeviceTypeID a with
                | None => 0
                | Some model => length (List.filter is_interface (ListDeviceTypeComponents model seen))
                end in
              let '(ids, st) := minted wanted st in
              let entities : ScopedEntities := <["asset" := {[ as_ID a := true ]}]>
                (match ids with [] => ∅ | _ => {[ "interface" := list_to_map ((fun id => (id, true)) <$> ids) ]} end) in
              let txPermit := scopedPermit (PermitActor permit) [projectID] entities in
              (* a nil slice when the template asks for no port *)
              let planned := match ids with [] => None | _ => Some ids end in
              write fate (Some txPermit) now (
                _ ← insertAsset a None [] planned (FormatTime now);
                insertProjectAssetLink projectID (as_ID a) (FormatTime now)) st
          end
      | None => (inl (Wrapped ErrForbidden), st)
      end
  end.

(** ** Update *)

(** [UpdateAsset]; [custom] and [tags] are what the audit folds read. *)
Definition UpdateAsset (seen : AssetTables) (fate : Fate) (p : option Permit) (now : Time) (a : Asset)
    (environmentIDs : option (list string)) (custom tags : string) (st : Store AssetTables)
    : (StoreError + unit) * Store AssetTables :=
  match ValidateAsset a with
  | (_, Some ve) => (inl (Invalid ve), st)
  | (a, None) =>
      match pt_assets seen !! as_ID a with
      | None => (inl (Wrapped ErrNotFound), st)
      | Some before =>
          let a := set_parent (as_ParentID before)
                     (set_stamps (as_Lifecycle a) (as_CreatedAt before) (FormatTime now) (as_RowVersion a) a) in
          match rack_space seen a with
          | Some ve => (inl (Invalid ve), st)
          | None =>
              let beforeCodes := membership_codes seen (as_ID a) in
              let afterCodes := match environmentIDs with
                | None => beforeCodes | Some ids => environmentCodes seen ids end in
              write fate p now (
                _ ← requireVocabulary pt_kinds "kind" (as_Kind a);
                _ ← requireRole (as_ManagerRole a);
                _ ← requireUniqueSiblingName "name" (as_Name a) (as_ParentID a) (as_Lifecycle a) (as_ID a);
                _ ← requireNoReplacementCycle (as_ID a) (as_ReplacesAssetID a);
                _ ← statement (update_asset a);
                _ ← setAssetEnvironments (as_ID a) environmentIDs;
                logUpdate NewID "asset" (as_ID a) (auditedAsset before beforeCodes custom tags)
                  (auditedAsset a afterCodes custom tags)) st
          end
      end
  end.

(** ** Moves *)

(** The checks and the statements of a move, inside its transaction. *)
Definition reparent_body (before : Asset) (id : string) (newParentID : option string) (at_ : string)
    : Tx AssetTables unit :=
  _ ← match newParentID with
      | None => mret tt
      | Some parent =>
          _ ← authorize "asset" parent;
          n ← query (fun t => count_if (fun r => bool_decide (closure_key r = (id, parent))) (pt_closure t));
          if (0 <? n)%nat
          then fail (Invalid (Add [] "parent_id" "that asset is inside this one; moving it there would create a cycle"))
          else mret tt
      end;
  _ ← requireUniqueSiblingName "parent_id" (as_Name before) newParentID (as_Lifecycle before) id;
  _ ← on_closure (fun cl => inr (detach id cl));
  _ ← match newParentID with
      | None => mret tt
      | Some parent => on_closure (fun cl => insert_rows (joined_rows id parent cl) cl)
      end;
  _ ← statement (update_parent id newParentID at_);
  logUpdate NewID "asset" id (asset_struct before) (asset_struct (set_parent newParentID before)).

(** [ReparentAsset] *)
Definition ReparentAsset (seen : AssetTables) (fate : Fate) (p : option Permit) (now : Time) (id : string)
    (newParentID : option string) (st : Store AssetTables) : (StoreError + unit) * Store AssetTables :=
  match pt_assets seen !! id with
  | None => (inl (Wrapped ErrNotFound), st)
  | Some before =>
      let newParentID := match newParentID with
        | Some s => if String.eqb s "" then None else Some s
        | None => None
        end in
      if bool_decide (newParentID = Some id)
      then (inl (Invalid (Add [] "parent_id" "an asset cannot contain itself")), st)
      else write fate p now (reparent_body before id newParentID (FormatTime now)) st
  end.

(** ** Retirement *)

(** [{"lifecycle":{"old":%q,"new":%q}}] *)
Definition lifecycle_diff (old new : string) : Diff :=
  Literal ("{" +++ Quote "lifecycle" +++ ":{" +++ Quote "old" +++ ":" +++ Quote old +++ "," +++
           Quote "new" +++ ":" +++ Quote new +++ "}}").

(** The statement and the log row that retire one row of the topology. *)
Definition retire_one (entityType entityID : string) (f : AssetTables -> AssetTables) : Tx AssetTables unit :=
  _ ← statement (fun t => inr (f t));
  log NewID entityType entityID ActionRetire (lifecycle_diff LifecycleActive LifecycleRetired) "".

Definition retire_member (assetID at_ group : string) : Tx AssetTables unit :=
  retire_one "net_group_member" (group +++ "/" +++ assetID)
    (fun t => with_members (alter (retired_row at_) (group, assetID) (pt_members t)) t).

(** [retireRows] on [net_attachment] *)
Definition retire_attachment (at_ id : string) : Tx AssetTables unit :=
  retire_one "net_attachment" id (fun t => with_attachments (alter (retired_row at_) id (pt_attachments t)) t).

Definition retire_cable (id : string) : Tx AssetTables unit :=
  retire_one "link" id (fun t => with_links (alter retired_cable id (pt_links t)) t).

(** [retireAssetTopology] *)
Definition retireAssetTopology (assetID at_ : string) : Tx AssetTables unit :=
  groups ← query (live_memberships assetID);
  _ ← each (retire_member assetID at_) groups;
  attachments ← query (live_attachments assetID);
  _ ← each (retire_attachment at_) attachments;
  cables ← query (live_cables assetID);
  each retire_cable cables.

(** [RetireAsset] *)
Definition RetireAsset (seen : AssetTables) (fates : nat -> Fate) (p : option Permit) (now : Time) (id : string)
    (st : Store AssetTables) : (StoreError + unit) * Store AssetTables :=
  match pt_assets seen !! id with
  | None => (inl (Wrapped ErrNotFound), st)
  | Some before =>
      if IsRetired before then (inr tt, st)
      else writeSerializable fates p now (
        _ ← statement (update_retired id (FormatTime now));
        _ ← log NewID "asset" id ActionRetire (lifecycle_diff (as_Lifecycle before) LifecycleRetired) "";
        retireAssetTopology id (FormatTime now)) st
  end.
End Writes.

(** ** Reads of the closure *)

(** [SubtreeIDs] *)
Definition SubtreeIDs (t : AssetTables) (assetIDs : list string) : list string :=
  remove_dups (assetIDs ≫= fun id => descendants id (pt_closure t)).

(** [Ancestors]: the path from the root down to the asset, itself left out. *)
Definition Ancestors (t : AssetTables) (assetID : string) : list Asset :=
  omap (fun r : ContainmentRow => pt_assets t !! fst (fst r))
    (isort (fun x y => (snd y <? snd x)%nat)
      (List.filter (fun r : ContainmentRow => String.eqb (snd (fst r)) assetID && (0 <? snd r)%nat) (pt_closure t))).

(** ** Requests *)

Inductive AssetOp :=
  | OpCreate (a : Asset) (environmentIDs : option (list string))
  | OpCreateInProject (projectID : string) (a : Asset)
  | OpUpdate (a : Asset) (environmentIDs : option (list string)) (custom tags : string)
  | OpReparent (id : string) (newParentID : option string)
  | OpRetire (id : string)
  | OpApplyTemplate (assetID : string).

(** A request with what it saw, what becomes of its transaction, its permit and its
    clock. *)
Record AssetRequest := { rq_seen : AssetTables; rq_fates : nat -> Fate; rq_permit : Permit; rq_now : Time; rq_op : AssetOp }.

Definition run_request `{Unicode} `{CodeRunes} (NewID : nat -> string) (st : Store AssetTables) (r : AssetRequest)
    : Store AssetTables :=
  let p := Some (rq_permit r) in
  match rq_op r with
  | OpCreate a envs => (CreateAsset NewID (rq_seen r) (rq_fates r 1) p (rq_now r) a envs st).2
  | OpCreateInProject project a => (CreateAssetInProject NewID (rq_seen r) (rq_fates r 1) p (rq_now r) project a st).2
  | OpUpdate a envs custom tags => (UpdateAsset NewID (rq_seen r) (rq_fates r 1) p (rq_now r) a envs custom tags st).2
  | OpReparent id parent => (ReparentAsset NewID (rq_seen r) (rq_fates r 1) p (rq_now r) id parent st).2
  | OpRetire id => (RetireAsset NewID (rq_seen r) (rq_fates r) p (rq_now r) id st).2
  | OpApplyTemplate id => (ApplyTemplate NewID (rq_seen r) (rq_fates r 1) (rq_permit r) (rq_now r) id st).2
  end.

(** * Lemmas *)

(** ** The invariant, and statements that do not touch it *)

Record assets_ok (t : AssetTables) : Prop := {
  ok_rows : rows_ok t;
  ok_closure : closes (fun d => is_Some (pt_assets t !! d)) (parent_of (pt_assets t)) (pt_closure t);
  ok_replaces : no_loop (replaces_of (pt_assets t))
}.

(** Tables with the same assets, closure and vocabularies. *)
Record same_core (t t' : AssetTables) : Prop := {
  core_assets : pt_assets t' = pt_assets t;
  core_closure : pt_closure t' = pt_closure t;
  core_references : forall a, asset_references t' a = asset_references t a
}.

#[export] Instance same_core_refl : Reflexive same_core.
Proof. by constructor. Qed.
#[export] Instance same_core_trans : Transitive same_core.
Proof. intros x y z [H1 H2 H3] [H4 H5 H6]. split; [congruence..|]. intros a. by rewrite H6, H3. Qed.

Lemma rows_ok_core t t' : same_core t t' -> rows_ok t -> rows_ok t'.
Proof. intros [Ha _ Hr] [H1 H2 H3 H4 H5]. split; rewrite ?Ha; try done. intros. rewrite Hr. eauto. Qed.

Lemma assets_ok_core t t' : same_core t t' -> assets_ok t -> assets_ok t'.
Proof.
  intros Hc [H1 H2 H3]. split; [by eapply rows_ok_core|..];
    rewrite (core_assets _ _ Hc), ?(core_closure _ _ Hc); done.
Qed.

Definition quiet {A} (m : Tx AssetTables A) : Prop :=
  forall env st a st', m env st = inr (a, st') -> same_core (st_tables st) (st_tables st').

Lemma quiet_ret {A} (a : A) : quiet (mret a).
Proof. by intros env st x st' [-> ->]%ret_inv. Qed.
Lemma quiet_fail {A} e : quiet (fail e : Tx AssetTables A).
Proof. by intros env st x st'. Qed.
Lemma quiet_query {A} (f : AssetTables -> A) : quiet (query f).
Proof. by intros env st x st' [-> ->]%query_inv. Qed.
Lemma quiet_bind {A B} (m : Tx AssetTables A) (f : A -> Tx AssetTables B) :
  quiet m -> (forall a, quiet (f a)) -> quiet (m ≫= f).
Proof. intros Hm Hf env st b st' (a & st1 & H1 & H2)%bind_inv. transitivity (st_tables st1); [by eapply Hm|by eapply Hf]. Qed.
Lemma quiet_statement f : (forall t t', f t = inr t' -> same_core t t') -> quiet (statement f).
Proof. intros Hf env st a st' (t & H & ->)%statement_inv. by apply Hf. Qed.
Lemma quiet_newID NewID : quiet (newID NewID).
Proof. by intros env st a st' ->%newID_inv. Qed.
Lemma quiet_authorize t id : quiet (authorize t id).
Proof. by intros env st a st' [_ ->]%authorize_inv. Qed.
Lemma quiet_log NewID t id action d b : quiet (log NewID t id action d b).
Proof. by intros env st a st' [_ ->]%log_inv. Qed.
Lemma quiet_logCreate NewID t id s : quiet (logCreate NewID t id s).
Proof. by intros env st a st' [_ ->]%logCreate_inv. Qed.
Lemma quiet_logUpdate NewID t id b s : quiet (logUpdate NewID t id b s).
Proof. by intros env st a st' [_ ->]%logUpdate_inv. Qed.
Lemma quiet_each {A} (f : A -> Tx AssetTables unit) l : (forall x, quiet (f x)) -> quiet (each f l).
Proof. intros Hf. induction l; [apply quiet_ret|]. by apply quiet_bind. Qed.

Create HintDb quiet.
#[export] Hint Resolve quiet_ret quiet_fail quiet_query quiet_newID quiet_authorize quiet_log quiet_logCreate
  quiet_logUpdate : quiet.

Ltac quietly :=
  repeat first
    [ progress intros
    | solve [auto with quiet]
    | apply quiet_bind
    | apply quiet_each
    | match goal with |- quiet (match ?x with _ => _ end) => destruct x end ].

Section Steps.
Context `{Unicode} `{CodeRunes} (NewID : nat -> string).

Lemma quiet_requireVocabulary (codes : AssetTables -> list string) field value : quiet (requireVocabulary codes field value).
Proof. unfold requireVocabulary. quietly. Qed.
Lemma quiet_requireRole role : quiet (requireRole role).
Proof. unfold requireRole. quietly; apply quiet_requireVocabulary. Qed.
Lemma quiet_requireUniqueSiblingName f n p l e : quiet (requireUniqueSiblingName f n p l e).
Proof. unfold requireUniqueSiblingName. quietly. Qed.
Lemma quiet_requireNoReplacementCycle id r : quiet (requireNoReplacementCycle id r).
Proof. unfold requireNoReplacementCycle. quietly. Qed.

Lemma insert_membership_core id env t t' : insert_membership id env t = inr t' -> same_core t t'.
Proof. unfold insert_membership. repeat case_bool_decide; try done. by intros [= <-]. Qed.

Lemma quiet_setAssetEnvironments id envs : quiet (setAssetEnvironments id envs).
Proof.
  unfold setAssetEnvironments. quietly; apply quiet_statement; intros t t'; [by intros [= <-]|apply insert_membership_core].
Qed.

Lemma insert_interface_core i t t' : insert_interface i t = inr t' -> same_core t t'.
Proof. unfold insert_interface. repeat case_match; try done. by intros [= <-]. Qed.

Lemma quiet_instantiate assetID components ids at_ :
  quiet (instantiateInterfaceComponents NewID assetID components ids at_).
Proof.
  unfold instantiateInterfaceComponents. apply quiet_each. intros [c id]. unfold instantiate_one. quietly.
  apply quiet_statement. intros t t'. apply insert_interface_core.
Qed.

Lemma quiet_newIDs n : quiet (newIDs NewID n).
Proof. induction n; cbn [newIDs]; quietly. Qed.

#[local] Hint Resolve quiet_instantiate quiet_newIDs : quiet.

Lemma quiet_instantiateComponents a planned at_ : quiet (instantiateComponents NewID a planned at_).
Proof. unfold instantiateComponents. quietly. Qed.

Lemma quiet_retire_one ty id f : (forall t, same_core t (f t)) -> quiet (retire_one NewID ty id f).
Proof. intros Hf. unfold retire_one. quietly. apply quiet_statement. intros t t' [= <-]. apply Hf. Qed.

Lemma quiet_retire_member id at_ g : quiet (retire_member NewID id at_ g).
Proof. by apply quiet_retire_one. Qed.
Lemma quiet_retire_attachment at_ id : quiet (retire_attachment NewID at_ id).
Proof. by apply quiet_retire_one. Qed.
Lemma quiet_retire_cable id : quiet (retire_cable NewID id).
Proof. by apply quiet_retire_one. Qed.
#[local] Hint Resolve quiet_retire_member quiet_retire_attachment quiet_retire_cable : quiet.

Lemma quiet_retireAssetTopology id at_ : quiet (retireAssetTopology NewID id at_).
Proof. unfold retireAssetTopology. quietly. Qed.
End Steps.

#[export] Hint Resolve quiet_requireVocabulary quiet_requireRole quiet_requireUniqueSiblingName
  quiet_requireNoReplacementCycle quiet_setAssetEnvironments quiet_instantiate quiet_instantiateComponents
  quiet_retireAssetTopology : quiet.

Section Invariant.
Context `{Unicode} `{CodeRunes} (NewID : nat -> string).

Lemma requireNoReplacementCycle_inv id r env st x st' :
  requireNoReplacementCycle id r env st = inr (x, st') ->
  st' = st /\ forall p, r = Some p -> p <> "" ->
    replacement_walk replacementChainMax (pt_assets (st_tables st)) [id] p = None.
Proof.
  unfold requireNoReplacementCycle. destruct r as [p|]; [|by intros [_ ->]%ret_inv].
  destruct (String.eqb_spec p "") as [->|Hp]; [intros [_ ->]%ret_inv; split; [done|by intros ? [= <-] []]|].
  intros Hb. tx_inv Hb. destruct (replacement_walk _ _ _ _) eqn:E; [done|].
  apply ret_inv in Hb as [_ ->]. split; [done|]. by intros ? [= <-].
Qed.

(** A replacement accepted for a node does not chain back to it. *)
Lemma replacement_accepted t id p :
  assets_ok t -> replacement_walk replacementChainMax (pt_assets t) [id] p = None ->
  ~ under (replaces_of (pt_assets t)) id p.
Proof.
  intros Hok Hw [m Hm].
  assert (id ∉ [id]) as Hn; [|by apply Hn, list_elem_of_singleton].
  refine (replacement_walk_avoids _ _ _ _ _ _ _ Hw Hm). intros d Hd. pose proof (proj2 (rows_named_refs t (ok_rows _ Hok)) d "" Hd) as [_ [a Ha]].
  by rewrite (rows_named t (ok_rows _ Hok)) in Ha.
Qed.

Lemma parent_of_insert m id a d :
  parent_of (<[id := a]> m) d = moved (parent_of m) id (as_ParentID a) d.
Proof.
  unfold parent_of, moved. case_decide as Hd; [by rewrite Hd, lookup_insert_eq|by rewrite lookup_insert_ne].
Qed.

Lemma replaces_of_insert m id a d :
  replaces_of (<[id := a]> m) d = moved (replaces_of m) id (as_ReplacesAssetID a) d.
Proof.
  unfold replaces_of, moved. case_decide as Hd; [by rewrite Hd, lookup_insert_eq|by rewrite lookup_insert_ne].
Qed.

(** A row put with a parent closes when its closure does. *)
Lemma assets_ok_put t a t' cl :
  assets_ok t -> as_ID a <> "" -> put_asset a t = inr t' ->
  (forall p, as_ReplacesAssetID a = Some p -> ~ under (replaces_of (pt_assets t)) (as_ID a) p) ->
  closes (fun d => d = as_ID a \/ is_Some (pt_assets t !! d)) (moved (parent_of (pt_assets t)) (as_ID a) (as_ParentID a)) cl ->
  assets_ok (with_closure cl t').
Proof.
  intros Hok Hne Hput Hrep Hcl. pose proof (rows_ok_put _ _ _ (ok_rows _ Hok) Hne Hput) as Hrows.
  apply put_asset_ok in Hput as (-> & _). split; [by destruct Hrows|..]; cbn [pt_assets pt_closure with_closure with_assets].
  - eapply closes_ext; [| |exact Hcl].
    + intros d. rewrite lookup_insert_is_Some. destruct (decide (d = as_ID a)); naive_solver.
    + intros d. by rewrite parent_of_insert.
  - eapply no_loop_congr; [intros d; symmetry; apply replaces_of_insert|].
    apply no_loop_moved; [apply (ok_replaces _ Hok)|done].
Qed.

Lemma on_closure_inv f env st x st' :
  on_closure f env st = inr (x, st') ->
  exists cl, f (pt_closure (st_tables st)) = inr cl /\ st_tables st' = with_closure cl (st_tables st).
Proof.
  unfold on_closure. intros (t & Hf & ->)%statement_inv. destruct (f _) as [|cl] eqn:E; [done|]. injection Hf as <-. by exists cl.
Qed.

Lemma insertClosure_inv id parent env st x st' :
  (forall p, parent = Some p -> p <> "") ->
  insertClosureForNewNode id parent env st = inr (x, st') ->
  exists cl1 cl2, insert_rows [((id, id), 0)] (pt_closure (st_tables st)) = inr cl1 /\
    match parent with Some p => insert_rows (leaf_rows id p cl1) cl1 = inr cl2 | None => cl2 = cl1 end /\
    st_tables st' = with_closure cl2 (st_tables st).
Proof.
  intros Hp (x1 & s1 & (cl1 & H1 & E1)%on_closure_inv & Hb)%bind_inv. exists cl1.
  destruct parent as [p|]; [|apply ret_inv in Hb as [_ ->]; by exists cl1].
  destruct (String.eqb_spec p ""); [by destruct (Hp p)|].
  apply on_closure_inv in Hb as (cl2 & H2 & E2). rewrite E1 in *. by exists cl2.
Qed.

(** The closure of a new asset's rows. *)
Lemma closes_insert t a t' cl1 cl2 :
  assets_ok t -> as_ID a <> "" -> insert_asset a t = inr t' ->
  insert_rows [((as_ID a, as_ID a), 0)] (pt_closure t') = inr cl1 ->
  match as_ParentID a with Some p => insert_rows (leaf_rows (as_ID a) p cl1) cl1 = inr cl2 | None => cl2 = cl1 end ->
  closes (fun d => d = as_ID a \/ is_Some (pt_assets t !! d)) (moved (parent_of (pt_assets t)) (as_ID a) (as_ParentID a)) cl2.
Proof.
  intros Hok Hne Hins H1 H2. unfold insert_asset in Hins. case_bool_decide as Hfresh; [done|].
  apply put_asset_ok in Hins as (-> & _ & Href & _). cbn [pt_closure with_assets] in H1.
  refine (closes_leaf _ _ _ (as_ID a) _ _ _ (ok_closure _ Hok) Hfresh _ H1 H2).
  intros p Hp. pose proof (proj1 (asset_references_names _ _ Href) p Hp) as [Hd| ->]; [done|].
  rewrite Hp in H2. apply insert_rows_ok in H1 as [-> _], H2 as [-> Hk].
  pose proof (key_unique _ (as_ID a, as_ID a) 0 1 Hk) as Hu.
  discriminate Hu; rewrite !elem_of_app, !list_elem_of_singleton; [auto|]. right.
  apply elem_leaf_rows. split; [done|]. exists 0. split; [done|]. rewrite elem_of_app, list_elem_of_singleton. auto.
Qed.

Lemma insertAsset_ok a envs codes planned at_ env st x st' :
  assets_ok (st_tables st) -> as_ID a <> "" ->
  insertAsset NewID a envs codes planned at_ env st = inr (x, st') -> assets_ok (st_tables st').
Proof.
  intros Hok Hne Hrun. unfold insertAsset in Hrun.
  apply bind_inv in Hrun as (x1 & s1 & H1%quiet_requireVocabulary & Hrun).
  apply bind_inv in Hrun as (x2 & s2 & H2%quiet_requireRole & Hrun).
  apply bind_inv in Hrun as (x3 & s3 & H3%quiet_requireUniqueSiblingName & Hrun).
  apply bind_inv in Hrun as (x4 & s4 & [-> Hwalk]%requireNoReplacementCycle_inv & Hrun).
  assert (assets_ok (st_tables s3)) as Hok3 by (eapply assets_ok_core, Hok; by rewrite H1, H2).
  clear H1 H2 H3 Hok. apply bind_inv in Hrun as (x5 & s5 & (t5 & Hins & E5)%statement_inv & Hrun).
  apply bind_inv in Hrun as (x6 & s6 & Hcl & Hrun).
  eapply assets_ok_core; [refine ((_ : quiet _) _ _ _ _ Hrun); quietly|].
  assert (put_asset (inserted a) (st_tables s3) = inr t5) as Hput.
  { unfold insert_asset in Hins. by case_bool_decide. }
  assert (forall p, as_ParentID a = Some p \/ as_ReplacesAssetID a = Some p -> p <> "") as Hnames.
  { intros p Hp ->. apply put_asset_ok in Hput as (_ & _ & Href%asset_references_names & _).
    pose proof (rows_named _ (ok_rows _ Hok3)) as Hno.
    destruct Href as [Hq Hr], Hp as [Hp|Hp]; [apply Hq in Hp as [[? ?]|?]|apply Hr in Hp as [[? ?]|?]]; first [congruence|by apply Hne]. }
  apply insertClosure_inv in Hcl as (cl1 & cl2 & Hc1 & Hc2 & ->); [|auto]. rewrite E5 in *.
  refine (assets_ok_put _ (inserted a) _ _ Hok3 Hne Hput _ _).
  - intros p Hp. apply replacement_accepted; [done|]. apply Hwalk; auto.
  - by apply (closes_insert _ (inserted a) _ _ _ Hok3 Hne Hins Hc1).
Qed.
(** A row put where there is one, under the parent it has. *)
Lemma assets_ok_replace t row a t' :
  assets_ok t -> pt_assets t !! as_ID a = Some row -> as_ParentID a = as_ParentID row -> put_asset a t = inr t' ->
  (forall p, as_ReplacesAssetID a = Some p -> ~ under (replaces_of (pt_assets t)) (as_ID a) p) -> assets_ok t'.
Proof.
  intros Hok Hrow Hpar Hput Hrep.
  assert (as_ID a <> "") as Hne by (intros E; rewrite E, (rows_named _ (ok_rows _ Hok)) in Hrow; done).
  pose proof (assets_ok_put t a t' (pt_closure t) Hok Hne Hput Hrep) as Hp.
  apply put_asset_ok in Hput as (-> & _). apply Hp.
  eapply closes_ext; [| |exact (ok_closure _ Hok)].
  - intros d. split; [auto|]. intros [->|?]; [by eexists|done].
  - intros d. unfold moved, parent_of. case_decide as Hd; [|done]. by rewrite Hd, Hrow, Hpar.
Qed.

(** A row put with the predecessor it has. *)
Lemma replaces_kept t row :
  assets_ok t -> pt_assets t !! as_ID row = Some row ->
  forall p, as_ReplacesAssetID row = Some p -> ~ under (replaces_of (pt_assets t)) (as_ID row) p.
Proof.
  intros Hok Hrow p Hp [m Hm]. apply (ok_replaces _ Hok m (as_ID row)). cbn [climb].
  assert (replaces_of (pt_assets t) (as_ID row) = Some p) as -> by (unfold replaces_of; by rewrite Hrow).
  done.
Qed.

Lemma update_retired_ok id at_ t t' : assets_ok t -> update_retired id at_ t = inr t' -> assets_ok t'.
Proof.
  intros Hok. unfold update_retired. destruct (pt_assets t !! id) as [row|] eqn:E; [|by intros [= <-]].
  pose proof (rows_ids _ (ok_rows _ Hok) id row E) as <-. intros Hput.
  refine (assets_ok_replace t row _ t' Hok _ _ Hput _); [exact E|done|]. exact (replaces_kept t row Hok E).
Qed.

Lemma update_asset_ok a t t' :
  assets_ok t -> (forall p, as_ReplacesAssetID a = Some p -> p <> "" ->
    replacement_walk replacementChainMax (pt_assets t) [as_ID a] p = None) ->
  update_asset a t = inr t' -> assets_ok t'.
Proof.
  intros Hok Hwalk. unfold update_asset. destruct (pt_assets t !! as_ID a) as [row|] eqn:E; [|done].
  destruct (_ =? _)%Z; [|done]. intros Hput.
  refine (assets_ok_replace t row _ t' Hok _ _ Hput _); [exact E|done|]. intros p Hp. apply replacement_accepted; [done|].
  apply Hwalk; [done|]. intros ->. apply put_asset_ok in Hput as (_ & _ & Href%asset_references_names & _).
  apply (proj2 Href) in Hp as [[b Hb]|Hp]; [by rewrite (rows_named _ (ok_rows _ Hok)) in Hb|].
  cbn in Hp. by rewrite <- Hp, (rows_named _ (ok_rows _ Hok)) in E.
Qed.

Lemma put_asset_with_closure a t cl t' :
  put_asset a (with_closure cl t) = inr t' -> exists t1, put_asset a t = inr t1 /\ t' = with_closure cl t1.
Proof.
  intros Hput. pose proof (put_asset_ok _ _ _ Hput) as (-> & Hc & Hr & Hs).
  exists (with_assets (<[as_ID a := a]> (pt_assets t)) t). split; [|reflexivity]. unfold put_asset. change (asset_references t a) with (asset_references (with_closure cl t) a).
  change (sibling_taken t) with (sibling_taken (with_closure cl t)). rewrite Hc, Hr. cbn [negb].
  destruct (live a); [by rewrite Hs|done].
Qed.

(** A move, from the tables its checks saw inside the transaction. *)
Lemma move_ok t id q at_ cl t' :
  assets_ok t -> q <> Some id -> (forall p, q = Some p -> p ∉ descendants id (pt_closure t)) ->
  match q with
  | Some p => insert_rows (joined_rows id p (detach id (pt_closure t))) (detach id (pt_closure t)) = inr cl
  | None => cl = detach id (pt_closure t)
  end ->
  update_parent id q at_ (with_closure cl t) = inr t' -> assets_ok t'.
Proof.
  intros Hok Hself Hout Hcl. unfold update_parent. cbn [pt_assets with_closure].
  destruct (pt_assets t !! id) as [row|] eqn:E.
  - pose proof (rows_ids _ (ok_rows _ Hok) id row E) as Hid.
    intros (t1 & Hput & ->)%put_asset_with_closure. 
    assert (as_ID row <> "") as Hne.
    { intros Hn. rewrite <- Hid, Hn, (rows_named _ (ok_rows _ Hok)) in E. done. }
    refine (assets_ok_put _ _ _ _ Hok _ Hput _ _); [done| |].
    { rewrite <- Hid in E. exact (replaces_kept t row Hok E). }
    cbn [as_ID as_ParentID set_parent set_stamps]. rewrite Hid.
    eapply closes_ext; [| |refine (closes_move _ _ _ id q _ cl (ok_closure _ Hok) _ _ Hout eq_refl Hcl)]; [|done| |].
    + intros d. cbn. split; [auto|]. intros [->|?]; [by eexists|done].
    + by eexists.
    + intros p ->. apply put_asset_ok in Hput as (_ & _ & Href%asset_references_names & _).
      destruct (proj1 Href p eq_refl) as [?|Hp]; [done|]. cbn in Hp. congruence.
  - intros [= <-]. eapply assets_ok_core, Hok. split; [done| |done]. cbn [pt_closure with_closure].
    assert (descendants id (pt_closure t) = []) as Hnil.
    { destruct (descendants id (pt_closure t)) as [|d l] eqn:Hd; [done|].
      assert (d ∈ descendants id (pt_closure t)) as Hin by (rewrite Hd; left).
      apply (closes_descendants _ _ _ _ _ (ok_closure _ Hok)) in Hin as [Hdom [m Hm]].
      pose proof (closes_climb_dom _ _ _ _ _ _ (ok_closure _ Hok) Hdom Hm) as [b Hb]. congruence. }
    assert (detach id (pt_closure t) = pt_closure t) as Hdet.
    { unfold detach. rewrite Hnil. clear. induction (pt_closure t) as [|[[a d] n] cl IH]; [done|].
      cbn [List.filter]. rewrite bool_decide_eq_false_2 by set_solver. cbn. by f_equal. }
    rewrite Hdet in Hcl. destruct q as [p|]; [|done]. apply insert_rows_ok in Hcl as [-> _].
    assert (joined_rows id p (pt_closure t) = []) as ->; [|by rewrite app_nil_r].
    destruct (joined_rows id p (pt_closure t)) as [|[[a d] n] l] eqn:Hj; [done|].
    assert (((a, d), n) ∈ joined_rows id p (pt_closure t)) as Hin by (rewrite Hj; left).
    apply elem_joined_rows in Hin as (k & m & _ & _ & Hm).
    assert (d ∈ descendants id (pt_closure t)) as Hd by (apply elem_descendants; by exists m).
    rewrite Hnil in Hd. by apply not_elem_of_nil in Hd.
Qed.

Lemma closure_counts id p cl :
  (0 <? count_if (fun r : ContainmentRow => bool_decide (closure_key r = (id, p))) cl)%nat = false -> p ∉ descendants id cl.
Proof.
  intros Hc [n Hn]%elem_descendants. apply Nat.ltb_ge in Hc. unfold count_if in Hc.
  assert (((id, p), n) ∈ List.filter (fun r : ContainmentRow => bool_decide (closure_key r = (id, p))) cl) as Hin.
  { apply elem_of_bool_filter. split; [done|]. by apply bool_decide_eq_true. }
  destruct (List.filter _ cl) as [|x l]; [by apply not_elem_of_nil in Hin|]. cbn in Hc. lia.
Qed.

(** The statements of a move, one after the other. *)
Lemma reparent_body_inv before id q at_ env st x st' :
  reparent_body NewID before id q at_ env st = inr (x, st') ->
  exists cl t', (forall p, q = Some p -> (p ∉ descendants id (pt_closure (st_tables st))) /\
      (exists permit, tx_permit env = Some permit /\ Covers permit "asset" p = true)) /\
    match q with
    | Some p => insert_rows (joined_rows id p (detach id (pt_closure (st_tables st)))) (detach id (pt_closure (st_tables st))) = inr cl
    | None => cl = detach id (pt_closure (st_tables st))
    end /\
    update_parent id q at_ (with_closure cl (st_tables st)) = inr t' /\ st_tables st' = t'.
Proof.
  unfold reparent_body. intros (x1 & s1 & H1 & Hrun)%bind_inv.
  assert (s1 = st /\ forall p, q = Some p -> (p ∉ descendants id (pt_closure (st_tables st))) /\
      (exists permit, tx_permit env = Some permit /\ Covers permit "asset" p = true)) as [-> Hout].
  { destruct q as [p|]; [|by apply ret_inv in H1 as [_ ->]]. tx_inv H1.
    apply authorize_inv in Htx as [Hcov ->]. destruct (0 <? _)%nat eqn:E; [done|]. apply ret_inv in H1 as [_ ->].
    split; [done|]. intros ? [= <-]. split; [by apply closure_counts|done]. }
  apply bind_inv in Hrun as (x2 & s2 & H2 & Hrun).
  assert (s2 = st) as ->.
  { unfold requireUniqueSiblingName in H2. destruct (String.eqb _ _); [by apply ret_inv in H2 as [_ ->]|].
    tx_inv H2. destruct (negb _); [by apply ret_inv in H2 as [_ ->]|done]. }
  apply bind_inv in Hrun as (x3 & s3 & (cl1 & [= <-] & E3)%on_closure_inv & Hrun).
  apply bind_inv in Hrun as (x4 & s4 & H4 & Hrun).
  apply bind_inv in Hrun as (x5 & s5 & (t' & H5 & E5)%statement_inv & [_ E6]%logUpdate_inv).
  destruct q as [p|].
  - apply on_closure_inv in H4 as (cl & Hcl & E4). rewrite E3 in *. rewrite E4 in H5.
    exists cl, t'. split_and!; [done..|congruence].
  - apply ret_inv in H4 as [_ ->]. rewrite E3 in H5.
    exists (detach id (pt_closure (st_tables st))), t'. split_and!; [done..|congruence].
Qed.

Lemma reparent_body_ok before id q at_ env st x st' :
  assets_ok (st_tables st) -> q <> Some id ->
  reparent_body NewID before id q at_ env st = inr (x, st') -> assets_ok (st_tables st').
Proof.
  intros Hok Hq (cl & t' & Hout & Hcl & Hup & ->)%reparent_body_inv.
  eapply move_ok; [done|done| |done..]. intros p Hp. by apply Hout.
Qed.

(** A write keeps what its body keeps. *)
Lemma written_preserves {A} (I : AssetTables -> Prop) p now (fn : Tx AssetTables A) st res :
  I (st_tables st) -> (forall env x st', fn env st = inr (x, st') -> I (st_tables st')) ->
  written_by p now fn st res -> I (st_tables res.2).
Proof. intros Hi Hf [e|x st' E]; [done|by eapply Hf]. Qed.

Lemma quiet_keeps {A} (fn : Tx AssetTables A) env st x st' :
  quiet fn -> assets_ok (st_tables st) -> fn env st = inr (x, st') -> assets_ok (st_tables st').
Proof. intros Hq Hok Hrun. eapply assets_ok_core, Hok. by eapply Hq. Qed.

Lemma ValidateAsset_ID a a' e : ValidateAsset a = (a', e) -> as_ID a' = as_ID a.
Proof. intros Hv. pose proof (ValidateAsset_fst a) as (Hid & _). by rewrite Hv in Hid. Qed.

Lemma creatable_ID seen a a' : creatable seen a = inr a' -> as_ID a' = as_ID a.
Proof.
  unfold creatable. destruct (ValidateAsset (inserted a)) as [b [e|]] eqn:E; [done|].
  destruct (rack_space _ _); [done|]. intros [= <-]. by apply ValidateAsset_ID in E.
Qed.

Lemma CreateAsset_ok seen fate p now a envs st :
  assets_ok (st_tables st) -> as_ID a <> "" ->
  assets_ok (st_tables (CreateAsset NewID seen fate p now a envs st).2).
Proof.
  intros Hok Hne. unfold CreateAsset. destruct (creatable seen a) as [e|a'] eqn:E; [done|].
  refine (written_preserves assets_ok _ _ _ _ _ Hok _ (write_written _ _ _ _ _)). intros env x st' Hrun.
  eapply insertAsset_ok, Hrun; [done|]. by rewrite (creatable_ID _ _ _ E).
Qed.

Lemma insert_owner_core project id at_ t t' : insert_owner project id at_ t = inr t' -> same_core t t'.
Proof. unfold insert_owner. repeat case_match; try done. by intros [= <-]. Qed.

Lemma CreateAssetInProject_ok seen fate p now project a st :
  assets_ok (st_tables st) -> as_ID a <> "" ->
  assets_ok (st_tables (CreateAssetInProject NewID seen fate p now project a st).2).
Proof.
  intros Hok Hne. unfold CreateAssetInProject, minted.
  destruct (ValidateAsset (inserted a)) as [a' [e|]] eqn:E; [done|]. apply ValidateAsset_ID in E.
  destruct p as [p|]; [|done]. destruct (negb _); [done|]. destruct (rack_space _ _); [done|]. cbv zeta.
  refine (written_preserves assets_ok _ _ _ _ _ _ _ (write_written _ _ _ _ _)); [exact Hok|].
  intros env x st' (x1 & s1 & H1 & H2)%bind_inv.
  eapply quiet_keeps, H2; [|eapply insertAsset_ok, H1; [exact Hok|by rewrite E]].
  unfold insertProjectAssetLink. quietly. apply quiet_statement. intros t t'. apply insert_owner_core.
Qed.

Lemma UpdateAsset_ok seen fate p now a envs custom tags st :
  assets_ok (st_tables st) -> assets_ok (st_tables (UpdateAsset NewID seen fate p now a envs custom tags st).2).
Proof.
  intros Hok. unfold UpdateAsset. destruct (ValidateAsset a) as [a' [e|]]; [done|].
  destruct (pt_assets seen !! as_ID a') as [before|]; [|done]. cbv zeta. destruct (rack_space _ _); [done|].
  refine (written_preserves assets_ok _ _ _ _ _ Hok _ (write_written _ _ _ _ _)). intros env x st' Hrun.
  apply bind_inv in Hrun as (x1 & s1 & H1%quiet_requireVocabulary & Hrun).
  apply bind_inv in Hrun as (x2 & s2 & H2%quiet_requireRole & Hrun).
  apply bind_inv in Hrun as (x3 & s3 & H3%quiet_requireUniqueSiblingName & Hrun).
  apply bind_inv in Hrun as (x4 & s4 & [-> Hwalk]%requireNoReplacementCycle_inv & Hrun).
  assert (assets_ok (st_tables s3)) as Hok3 by (eapply assets_ok_core, Hok; by rewrite H1, H2).
  apply bind_inv in Hrun as (x5 & s5 & (t5 & Hup & E5)%statement_inv & Hrun).
  eapply quiet_keeps, Hrun; [quietly|]. rewrite E5. by eapply update_asset_ok.
Qed.

Lemma ReparentAsset_ok seen fate p now id q st :
  assets_ok (st_tables st) -> assets_ok (st_tables (ReparentAsset NewID seen fate p now id q st).2).
Proof.
  intros Hok. unfold ReparentAsset. destruct (pt_assets seen !! id) as [before|]; [|done]. cbv zeta.
  case_bool_decide as Hself; [done|].
  refine (written_preserves assets_ok _ _ _ _ _ Hok _ (write_written _ _ _ _ _)). intros env x st' Hrun.
  by eapply reparent_body_ok.
Qed.

Lemma RetireAsset_ok seen fates p now id st :
  assets_ok (st_tables st) -> assets_ok (st_tables (RetireAsset NewID seen fates p now id st).2).
Proof.
  intros Hok. unfold RetireAsset. destruct (pt_assets seen !! id) as [before|]; [|done].
  destruct (IsRetired before); [done|].
  refine (written_preserves assets_ok _ _ _ _ _ Hok _ (writeSerializable_written _ _ _ _ _)). intros env x st' Hrun.
  apply bind_inv in Hrun as (x1 & s1 & (t1 & Hup & E1)%statement_inv & Hrun).
  eapply quiet_keeps, Hrun; [quietly|]. rewrite E1. by eapply update_retired_ok.
Qed.

Lemma ApplyTemplate_ok seen fate p now id st :
  assets_ok (st_tables st) -> assets_ok (st_tables (ApplyTemplate NewID seen fate p now id st).2).
Proof.
  intros Hok. unfold ApplyTemplate, minted. destruct (negb _); [done|]. destruct (pt_assets seen !! id) as [row|]; [|done].
  destruct (as_DeviceTypeID row) as [model|]; [|done]. cbv zeta. destruct (missingTemplateComponents _ _ _) eqn:E; [done|].
  refine (written_preserves assets_ok _ _ _ _ _ _ _ (write_written _ _ _ _ _)); [exact Hok|]. intros env x st' Hrun.
  eapply quiet_keeps, Hrun; [quietly|exact Hok].
Qed.

(** A creation comes with an identifier. *)
Definition identified (r : AssetRequest) : Prop :=
  match rq_op r with OpCreate a _ | OpCreateInProject _ a => as_ID a <> "" | _ => True end.

Lemma run_request_ok st r : assets_ok (st_tables st) -> identified r -> assets_ok (st_tables (run_request NewID st r)).
Proof.
  unfold identified, run_request. destruct (rq_op r); intros Hok Hid;
    [by apply CreateAsset_ok|by apply CreateAssetInProject_ok|by apply UpdateAsset_ok|by apply ReparentAsset_ok
    |by apply RetireAsset_ok|by apply ApplyTemplate_ok].
Qed.

Lemma requests_ok st reqs :
  assets_ok (st_tables st) -> Forall identified reqs -> assets_ok (st_tables (foldl (run_request NewID) st reqs)).
Proof.
  intros Hok Hreqs. revert st Hok. induction Hreqs as [|r reqs Hr _ IH]; intros st Hok; [done|]. cbn.
  by apply IH, run_request_ok.
Qed.
End Invariant.

(** ** Moves, in full *)

Section Moves.
Context `{Unicode} `{CodeRunes} (NewID : nat -> string).

(** What lets an asset under a parent. *)
Definition fits_under (t : AssetTables) (permit : Permit) (id : string) (row : Asset) (q : option string) : Prop :=
  match q with
  | Some p => is_Some (pt_assets t !! p) /\ Covers permit "asset" p = true /\
              forall n, climb (parent_of (pt_assets t)) n p <> Some id
  | None => True
  end /\
  (live row = true -> forall i b, pt_assets t !! i = Some b -> live b = true -> as_ParentID b = q ->
    as_Name b = as_Name row -> i = id).

Lemma not_taken t row id q :
  rows_ok t ->
  (sibling_taken t (as_Name row) q id = false <->
   forall i b, pt_assets t !! i = Some b -> live b = true -> as_ParentID b = q -> as_Name b = as_Name row -> i = id).
Proof.
  intros Hok. rewrite <- not_true_iff_false, sibling_taken_spec. split.
  - intros Hn i b Hb Hl Hp Hnm. destruct (decide (i = id)) as [|Hi]; [done|]. destruct Hn. exists i, b.
    by rewrite (rows_ids _ Hok i b Hb).
  - intros Hall (i & b & Hb & Hp & Hnm & Hl & Hi). apply Hi. rewrite (rows_ids _ Hok i b Hb). by eapply Hall.
Qed.

Lemma bind_runs {A B} (m : Tx AssetTables A) (f : A -> Tx AssetTables B) env st a st' r :
  m env st = inr (a, st') -> f a env st' = r -> (m ≫= f) env st = r.
Proof. intros Hm Hf. unfold mbind, Tx_bind. by rewrite Hm. Qed.

Lemma put_runs t a :
  asset_checks a = true -> asset_references t a = true ->
  (live a = true -> sibling_taken t (as_Name a) (as_ParentID a) (as_ID a) = false) ->
  put_asset a t = inr (with_assets (<[as_ID a := a]> (pt_assets t)) t).
Proof. intros Hc Hr Hs. unfold put_asset. rewrite Hc, Hr. destruct (live a); [by rewrite Hs|done]. Qed.

Lemma references_moved t q c u v row :
  asset_references t row = true -> (forall p, q = Some p -> is_Some (pt_assets t !! p)) ->
  asset_references t (set_parent q (set_stamps (as_Lifecycle row) c u v row)) = true.
Proof.
  unfold asset_references. cbn. rewrite !andb_true_iff. intros [[[[[[H1 H2] H3] H4] H5] H6] H7] Hq.
  split_and!; try done. destruct q as [p|]; [|done]. cbn. rewrite bool_decide_eq_true_2 by auto. done.
Qed.

Lemma reparent_body_runs t permit now id q row st :
  st_tables st = t -> assets_ok t -> pt_assets t !! id = Some row -> Covers permit "asset" id = true ->
  fits_under t permit id row q ->
  exists st', reparent_body NewID row id q (FormatTime now) (env_of (Some permit) now) st = inr (tt, st').
Proof.
  intros <- Hok Hrow Hcov [Hq Hsib]. pose proof (rows_ids _ (ok_rows _ Hok) id row Hrow) as Hid.
  assert (forall p, q = Some p -> p ∉ descendants id (pt_closure (st_tables st))) as Hout.
  { intros p -> Hd. apply (closes_descendants _ _ _ _ _ (ok_closure _ Hok)) in Hd as [_ [n Hn]].
    by apply (proj2 (proj2 Hq) n). }
  assert (exists cl, match q with
      | Some p => insert_rows (joined_rows id p (detach id (pt_closure (st_tables st)))) (detach id (pt_closure (st_tables st))) = inr cl
      | None => cl = detach id (pt_closure (st_tables st)) end) as [cl Hcl].
  { destruct q as [p|]; [|by eexists]. apply (move_fits _ _ _ _ _ (ok_closure _ Hok)); [by eexists|apply Hq|by apply Hout]. }
  set (row' := set_parent q (set_stamps (as_Lifecycle row) (as_CreatedAt row) (FormatTime now) (as_RowVersion row + 1) row)).
  assert (put_asset row' (with_closure cl (st_tables st)) =
    inr (with_assets (<[as_ID row' := row']> (pt_assets (st_tables st))) (with_closure cl (st_tables st)))) as Hput.
  { refine (put_runs (with_closure cl (st_tables st)) row' _ _ _).
    - exact (rows_checks _ (ok_rows _ Hok) id row Hrow).
    - apply references_moved; [exact (rows_references _ (ok_rows _ Hok) id row Hrow)|]. intros p ->. apply Hq.
    - intros Hl. change (sibling_taken (with_closure cl (st_tables st))) with (sibling_taken (st_tables st)).
      refine (proj2 (not_taken (st_tables st) row' (as_ID row') q (ok_rows _ Hok)) _). cbn. rewrite Hid. by apply Hsib. }
  destruct (logUpdate_runs NewID permit now "asset" id (asset_struct row) (asset_struct (set_parent q row))
    (MkStore (with_assets (<[as_ID row' := row']> (pt_assets (st_tables st))) (with_closure cl (st_tables st)))
       (st_log st) (st_ids st)) Hcov (asset_shape _ _)) as (st' & Hlog & _).
  exists st'. unfold reparent_body.
  eapply (bind_runs _ _ _ _ tt st).
  { destruct q as [p|]; [|done]. destruct Hq as (Hp & Hcp & Hn).
    eapply (bind_runs _ _ _ _ tt st); [unfold authorize; cbn [tx_permit env_of]; by rewrite Hcp|].
    eapply bind_runs; [reflexivity|]. cbv beta.
    assert ((0 <? count_if (fun r : ContainmentRow => bool_decide (closure_key r = (id, p))) (pt_closure (st_tables st)))%nat = false) as ->; [|done].
    apply Nat.ltb_ge. unfold count_if.
    destruct (List.filter _ (pt_closure (st_tables st))) as [|[k n] l] eqn:E; [done|].
    assert ((k, n) ∈ List.filter (fun r : ContainmentRow => bool_decide (closure_key r = (id, p))) (pt_closure (st_tables st)))
      as [Hin Hk]%elem_of_bool_filter by (rewrite E; left).
    apply bool_decide_eq_true in Hk. cbn in Hk. subst k. destruct (Hout p eq_refl). apply elem_descendants. by exists n. }
  eapply (bind_runs _ _ _ _ tt st).
  { unfold requireUniqueSiblingName. destruct (String.eqb (as_Lifecycle row) LifecycleRetired) eqn:E; [done|].
    eapply bind_runs; [reflexivity|]. cbv beta. rewrite (proj2 (not_taken _ row id q (ok_rows _ Hok))); [done|].
    apply Hsib. unfold live, IsRetired. by rewrite E. }
  eapply bind_runs; [reflexivity|].
  eapply (bind_runs _ _ _ _ tt (MkStore (with_closure cl (st_tables st)) (st_log st) (st_ids st))).
  { destruct q as [p|]; [|by subst cl]. unfold on_closure, statement. cbn [st_tables pt_closure with_closure]. by rewrite Hcl. }
  eapply bind_runs; [|exact Hlog]. unfold statement, update_parent. cbn [st_tables pt_assets with_closure].
  rewrite Hrow. fold row'. by rewrite Hput.
Qed.
End Moves.

(** ** Retirement of rows *)

(** Altering rows one by one with a function that has no more to do the second time. *)
Lemma lookup_foldl_alter {K V} `{Countable K} (f : V -> V) (ks : list K) (m : gmap K V) k :
  (forall v, f (f v) = f v) ->
  foldl (fun m k => alter f k m) m ks !! k = if decide (k ∈ ks) then f <$> m !! k else m !! k.
Proof.
  intros Hf. revert m. induction ks as [|x ks IH]; intros m; cbn; [by rewrite decide_False by apply not_elem_of_nil|].
  rewrite IH. destruct (decide (k = x)) as [->|Hx].
  - rewrite lookup_alter_eq, (decide_True (P := x ∈ x :: ks)) by left.
    case_decide; [|done]. destruct (m !! x); cbn; [by rewrite Hf|done].
  - rewrite lookup_alter_ne by done. destruct (decide (k ∈ ks)), (decide (k ∈ x :: ks)); set_solver.
Qed.

Section Retiring.
Context `{Unicode} (NewID : nat -> string).

(** The row of the log a retirement of the topology adds. *)
Definition retirement (ty id : string) : string * string * string * Diff :=
  (ty, id, ActionRetire, lifecycle_diff LifecycleActive LifecycleRetired).

(** The rows of the log from one store to a later one. *)
Definition tells (st st' : Store AssetTables) (l : list (string * string * string * Diff)) : Prop :=
  exists rows, st_log st' = st_log st ++ rows /\ said <$> rows = l.

Lemma tells_trans st st1 st2 l l1 : tells st st1 l -> tells st1 st2 l1 -> tells st st2 (l ++ l1).
Proof. intros (r & E & <-) (r1 & E1 & <-). exists (r ++ r1). by rewrite E1, E, app_assoc, fmap_app. Qed.

Lemma tells_none st st' : st_log st' = st_log st -> tells st st' [].
Proof. intros E. exists []. by rewrite app_nil_r. Qed.

(** A loop of retirements: the tables one after the other, a row of the log each. *)
Lemma each_retire {A} (ty : string) (name : A -> string) (g : A -> AssetTables -> AssetTables) (l : list A) env st x st' :
  each (fun y => retire_one NewID ty (name y) (g y)) l env st = inr (x, st') ->
  st_tables st' = foldl (fun t y => g y t) (st_tables st) l /\
  tells st st' ((fun y => retirement ty (name y)) <$> l).
Proof.
  revert st. induction l as [|y l IH]; intros st Hrun; cbn [each] in Hrun.
  { apply ret_inv in Hrun as [_ ->]. split; [done|by apply tells_none]. }
  apply bind_inv in Hrun as (x1 & s1 & H1 & Hrun). destruct (IH _ Hrun) as [-> Hl].
  unfold retire_one in H1. apply bind_inv in H1 as (x2 & s2 & H2 & H1). injection H2 as _ <-.
  pose proof H1 as [_ Et]%log_inv. split; [by rewrite Et|].
  by apply (tells_trans _ s1 _ [_] _ (log_said _ _ _ _ _ _ _ _ _ _ H1)).
Qed.

Lemma foldl_members (f : string -> TopologyRow -> TopologyRow) ks a t :
  foldl (fun t g => with_members (alter (f a) (g, a) (pt_members t)) t) t ks =
  with_members (foldl (fun m k => alter (f a) k m) (pt_members t) ((fun g => (g, a)) <$> ks)) t.
Proof. revert t. induction ks as [|g ks IH]; intros t; [by destruct t|]. cbn [foldl fmap list_fmap]. by rewrite IH. Qed.

Lemma foldl_attachments f ks t :
  foldl (fun t id => with_attachments (alter f id (pt_attachments t)) t) t ks =
  with_attachments (foldl (fun m k => alter f k m) (pt_attachments t) ks) t.
Proof. revert t. induction ks as [|g ks IH]; intros t; [by destruct t|]. cbn [foldl]. by rewrite IH. Qed.

Lemma foldl_links f ks t :
  foldl (fun t id => with_links (alter f id (pt_links t)) t) t ks =
  with_links (foldl (fun m k => alter f k m) (pt_links t) ks) t.
Proof. revert t. induction ks as [|g ks IH]; intros t; [by destruct t|]. cbn [foldl]. by rewrite IH. Qed.

(** The edges a retirement takes. *)
Definition takes_member (id : string) (t : AssetTables) (k : string * string) (r : TopologyRow) : bool :=
  String.eqb k.2 id && is_live (tr_Lifecycle r).
Definition takes_attachment (id : string) (t : AssetTables) (k : string) (r : TopologyRow) : bool :=
  is_live (tr_Lifecycle r) && (String.eqb (tr_AssetID r) id || bool_decide ((k, id) ∈ pt_pins t)).
Definition takes_cable (id : string) (t : AssetTables) (k : string) (l : Link) : bool :=
  is_live (li_Lifecycle l) && (port_of t id (li_A l) || port_of t id (li_B l)).

Lemma elem_live_memberships id t g : g ∈ live_memberships id t <-> exists r, pt_members t !! (g, id) = Some r /\ takes_member id t (g, id) r = true.
Proof.
  unfold live_memberships, takes_member. rewrite list_elem_of_omap. cbn. rewrite String.eqb_refl. split.
  - intros ([[g' a] r] & Hin%elem_of_map_to_list & Hs). destruct (String.eqb_spec a id); [subst|done].
    cbn in Hs. destruct (is_live _) eqn:E; [|done]. injection Hs as <-. eauto.
  - intros (r & Hr & Hl). exists ((g, id), r). rewrite elem_of_map_to_list, String.eqb_refl. by rewrite Hl.
Qed.

Lemma elem_live_attachments id t k : k ∈ live_attachments id t <-> exists r, pt_attachments t !! k = Some r /\ takes_attachment id t k r = true.
Proof.
  unfold live_attachments. rewrite list_elem_of_omap. split.
  - intros ([k' r] & Hin%elem_of_map_to_list & Hs). destruct (_ && _) eqn:E; [|done]. injection Hs as <-. eauto.
  - intros (r & Hr & Hl). exists (k, r). rewrite elem_of_map_to_list. unfold takes_attachment in Hl. by rewrite Hl.
Qed.

Lemma elem_live_cables id t k : k ∈ live_cables id t <-> exists r, pt_links t !! k = Some r /\ takes_cable id t k r = true.
Proof.
  unfold live_cables. rewrite list_elem_of_omap. split.
  - intros ([k' r] & Hin%elem_of_map_to_list & Hs). destruct (_ && _) eqn:E; [|done]. injection Hs as <-. eauto.
  - intros (r & Hr & Hl). exists (k, r). rewrite elem_of_map_to_list. unfold takes_cable in Hl. by rewrite Hl.
Qed.

(** The tables after a retirement, edge by edge. *)
Record topology_retired (id at_ : string) (t t' : AssetTables) : Prop := {
  rt_members : forall k, pt_members t' !! k =
    (fun r => if takes_member id t k r then retired_row at_ r else r) <$> pt_members t !! k;
  rt_attachments : forall k, pt_attachments t' !! k =
    (fun r => if takes_attachment id t k r then retired_row at_ r else r) <$> pt_attachments t !! k;
  rt_links : forall k, pt_links t' !! k =
    (fun r => if takes_cable id t k r then retired_cable r else r) <$> pt_links t !! k;
  rt_pins : pt_pins t' = pt_pins t;
  rt_interfaces : pt_interfaces t' = pt_interfaces t;
  rt_memberships : pt_memberships t' = pt_memberships t
}.

(** The rows of the log that tell of it. *)
Definition topology_retirements (id : string) (t : AssetTables) : list (string * string * string * Diff) :=
  ((fun g => retirement "net_group_member" (g +++ "/" +++ id)) <$> live_memberships id t) ++
  (retirement "net_attachment" <$> live_attachments id t) ++ (retirement "link" <$> live_cables id t).

(** Afterwards no edge is left to take. *)
Lemma topology_retired_none id at_ t t' : topology_retired id at_ t t' ->
  live_memberships id t' = [] /\ live_attachments id t' = [] /\ live_cables id t' = [].
Proof.
  intros [Hm Ha Hl Hp Hi _]. split_and!; apply elem_of_nil_inv.
  - intros g (r & Hr & Htk)%elem_live_memberships. rewrite Hm in Hr.
    destruct (pt_members t !! (g, id)) as [r0|]; [|done]. injection Hr as <-.
    destruct (takes_member id t (g, id) r0) eqn:E.
    + unfold takes_member in Htk. cbn [tr_Lifecycle retired_row] in Htk. by rewrite andb_false_r in Htk.
    + unfold takes_member in *. congruence.
  - intros k (r & Hr & Htk)%elem_live_attachments. rewrite Ha in Hr.
    destruct (pt_attachments t !! k) as [r0|]; [|done]. injection Hr as <-.
    destruct (takes_attachment id t k r0) eqn:E; [done|].
    unfold takes_attachment in *. rewrite Hp in Htk. congruence.
  - intros k (r & Hr & Htk)%elem_live_cables. rewrite Hl in Hr.
    destruct (pt_links t !! k) as [r0|]; [|done]. injection Hr as <-.
    destruct (takes_cable id t k r0) eqn:E; [done|].
    unfold takes_cable, port_of in *. rewrite Hi in Htk. congruence.
Qed.

(** A table altered at the keys an edge test picks. *)
Lemma lookup_picked {K V} `{Countable K} (f : V -> V) (test : K -> V -> bool) (ks : list K) (m : gmap K V) k :
  (forall v, f (f v) = f v) -> (k ∈ ks <-> exists v, m !! k = Some v /\ test k v = true) ->
  foldl (fun m k => alter f k m) m ks !! k = (fun v => if test k v then f v else v) <$> m !! k.
Proof.
  intros Hf Hk. rewrite lookup_foldl_alter by done. case_decide as Hin.
  - apply Hk in Hin as (v & -> & Ht). cbn. by rewrite Ht.
  - destruct (m !! k) as [v|] eqn:E; [|done]. cbn. destruct (test k v) eqn:Ht; [|done]. destruct Hin. apply Hk. eauto.
Qed.

Lemma retireAssetTopology_inv id at_ env st x st' :
  retireAssetTopology NewID id at_ env st = inr (x, st') ->
  topology_retired id at_ (st_tables st) (st_tables st') /\ tells st st' (topology_retirements id (st_tables st)).
Proof.
  unfold retireAssetTopology. intros (gs & s1 & [-> ->]%query_inv & Hrun)%bind_inv.
  apply bind_inv in Hrun as (x2 & s2 & H2 & Hrun).
  apply (each_retire "net_group_member" (fun g => g +++ "/" +++ id)) in H2 as [E2 L2].
  rewrite (foldl_members (fun _ => retired_row at_)) in E2.
  apply bind_inv in Hrun as (atts & s3 & [-> ->]%query_inv & Hrun).
  apply bind_inv in Hrun as (x4 & s4 & H4 & Hrun).
  apply (each_retire "net_attachment" (fun k => k)) in H4 as [E4 L4]. rewrite foldl_attachments in E4.
  apply bind_inv in Hrun as (cables & s5 & [-> ->]%query_inv & Hrun).
  apply (each_retire "link" (fun k => k)) in Hrun as [E6 L6]. rewrite foldl_links in E6.
  assert (live_attachments id (st_tables s2) = live_attachments id (st_tables st)) as Ha by by rewrite E2.
  assert (live_cables id (st_tables s4) = live_cables id (st_tables st)) as Hc by by rewrite E4, E2.
  rewrite Hc in L6. rewrite Ha in L4. split; [|eapply tells_trans; [exact L2|eapply tells_trans; eassumption]].
  rewrite E6, Hc, E4, Ha, E2. split; cbn; intros.
  - apply (lookup_picked _ (takes_member id (st_tables st))); [done|]. rewrite list_elem_of_fmap.
    setoid_rewrite elem_live_memberships. destruct k as [g a]. split.
    + by intros (? & [= -> ->] & ?).
    + intros (r & Hr & Ht). pose proof Ht as Hid. unfold takes_member in Hid. cbn in Hid.
      apply andb_true_iff in Hid as [->%String.eqb_eq _]. eauto.
  - apply (lookup_picked _ (takes_attachment id (st_tables st))); [done|]. apply elem_live_attachments.
  - apply (lookup_picked _ (takes_cable id (st_tables st))); [done|]. apply elem_live_cables.
  - done.
  - done.
  - done.
Qed.
End Retiring.

(** ** Ports from a template *)

Section Templates.
Context `{Unicode} `{CodeRunes} (NewID : nat -> string).

Lemma newInterfaceFromTemplate_fields id assetID c at_ i :
  newInterfaceFromTemplate id assetID c at_ = inr i ->
  if_ID i = id /\ if_AssetID i = assetID /\ if_Name i = TrimSpace (dc_Name c).
Proof.
  unfold newInterfaceFromTemplate. destruct (dc_FormFactor c) as [form|]; [|done].
  destruct (NewInterface id assetID (dc_Name c) form) as [e|j] eqn:E; [done|]. intros Hi.
  apply NewInterface_asset in E as (H1 & H2 & _ & H3). by apply (inj inr) in Hi as <-.
Qed.

(** The ports before and after a port was added for a component. *)
Record port_added (assetID : string) (c : DeviceTypeComponent) (id : string) (t t' : AssetTables) : Prop := {
  pa_port : exists i, pt_interfaces t !! id = None /\ t' = with_interfaces (<[id := i]> (pt_interfaces t)) t /\
    if_AssetID i = assetID /\ if_Name i = TrimSpace (dc_Name c)
}.

Lemma instantiate_one_inv assetID at_ c id env st x st' :
  instantiate_one NewID assetID at_ c id env st = inr (x, st') ->
  port_added assetID c id (st_tables st) (st_tables st').
Proof.
  unfold instantiate_one. destruct (negb _); [done|].
  destruct (newInterfaceFromTemplate id assetID c at_) as [e|i] eqn:E; [done|].
  apply newInterfaceFromTemplate_fields in E as (Hid & Ha & Hn).
  intros (x1 & s1 & (t1 & Hi & E1)%statement_inv & [_ E2]%logCreate_inv)%bind_inv.
  rewrite E2, E1. unfold insert_interface in Hi. rewrite Hid in Hi.
  destruct (_ || existsb _ _) eqn:Hnone; [done|]. apply orb_false_iff in Hnone as [Hnone _].
  apply bool_decide_eq_false, eq_None_not_Some in Hnone.
  destruct (_ || _); [done|]. injection Hi as <-. split. by exists i.
Qed.

(** What a loop of additions does to the ports. *)
Lemma instantiate_inv assetID at_ cs ids env st x st' :
  length ids = length cs ->
  instantiateInterfaceComponents NewID assetID cs ids at_ env st = inr (x, st') ->
  exists ports, st_tables st' = with_interfaces ports (st_tables st) /\
    pt_interfaces (st_tables st) ⊆ ports /\ size ports = size (pt_interfaces (st_tables st)) + length cs /\
    (forall c, c ∈ cs -> exists id i, ports !! id = Some i /\ if_AssetID i = assetID /\ if_Name i = TrimSpace (dc_Name c)).
Proof.
  unfold instantiateInterfaceComponents. revert ids st. induction cs as [|c cs IH]; intros [|id ids] st Hlen Hrun; try done.
  { apply (ret_inv tt env) in Hrun as [_ ->]. exists (pt_interfaces (st_tables st)).
    split_and!; [by destruct (st_tables st)|done|cbn; lia|by intros c ?%not_elem_of_nil]. }
  cbn [combine each] in Hrun. apply bind_inv in Hrun as (x1 & s1 & H1%instantiate_one_inv & Hrun).
  apply IH in Hrun as (ports & E & Hsub & Hsize & Hall); [|by injection Hlen].
  destruct H1 as [(i & Hnone & E1 & Ha & Hn)]. rewrite E1 in *. cbn [pt_interfaces with_interfaces] in *.
  assert (ports !! id = Some i) as Hi by (eapply lookup_weaken, Hsub; apply lookup_insert_eq).
  exists ports. split_and!; [done| | |].
  - etrans; [by apply insert_subseteq|done].
  - rewrite Hsize, map_size_insert_None by done. cbn. lia.
  - intros c' [->|Hc]%elem_of_cons; [by exists id, i|by apply Hall].
Qed.

Lemma elem_missing assetID cs t c :
  c ∈ missingTemplateComponents assetID cs t <->
  c ∈ cs /\ is_interface c = true /\
  ~ exists id i, pt_interfaces t !! id = Some i /\ if_AssetID i = assetID /\ if_Name i = dc_Name c.
Proof.
  unfold missingTemplateComponents. rewrite elem_of_bool_filter, andb_true_iff, negb_true_iff, bool_decide_eq_false.
  rewrite list_elem_of_omap.
  assert ((exists x, x ∈ (map_to_list (pt_interfaces t)).*2 /\
      (if String.eqb (if_AssetID x) assetID then Some (if_Name x) else None) = Some (dc_Name c)) <->
    exists id i, pt_interfaces t !! id = Some i /\ if_AssetID i = assetID /\ if_Name i = dc_Name c) as ->; [|naive_solver].
  setoid_rewrite list_elem_of_fmap. split.
  - intros (i & ([id j] & -> & Hin%elem_of_map_to_list) & Hs). cbn in *.
    destruct (String.eqb_spec (if_AssetID j) assetID); [|done]. injection Hs as Hs. by exists id, j.
  - intros (id & i & Hi & Ha & Hn). exists i. split; [exists (id, i); by rewrite elem_of_map_to_list|].
    by rewrite Ha, String.eqb_refl, Hn.
Qed.

(** ** Requests under a permit of their own *)

Lemma guarded_each {T A} (f : A -> Tx T unit) l : (forall x, guarded (f x)) -> guarded (each f l).
Proof. intros Hf. induction l; [apply guarded_ret|]. by apply guarded_bind. Qed.

Lemma guarded_requireVocabulary {T} (codes : T -> list string) field value : guarded (requireVocabulary codes field value).
Proof. unfold requireVocabulary. guarding. Qed.
Lemma requireVocabulary_inv {T} (codes : T -> list string) field value env st a st' :
  requireVocabulary codes field value env st = inr (a, st') -> st' = st.
Proof. unfold requireVocabulary. intros Hrun. tx_inv Hrun. case_match; tx_inv Hrun; done. Qed.
Lemma guarded_requireRole role : guarded (requireRole role).
Proof. unfold requireRole. guarding; apply guarded_requireVocabulary. Qed.
Lemma guarded_requireUniqueSiblingName f n p l e : guarded (requireUniqueSiblingName f n p l e).
Proof. unfold requireUniqueSiblingName. guarding. Qed.
Lemma guarded_requireNoReplacementCycle id r : guarded (requireNoReplacementCycle id r).
Proof. unfold requireNoReplacementCycle. guarding. Qed.
Lemma guarded_insertClosure id p : guarded (insertClosureForNewNode id p).
Proof. unfold insertClosureForNewNode, on_closure. guarding. Qed.
Lemma guarded_setAssetEnvironments id envs : guarded (setAssetEnvironments id envs).
Proof. unfold setAssetEnvironments. guarding. apply guarded_each. guarding. Qed.
Lemma guarded_instantiate assetID cs ids at_ : guarded (instantiateInterfaceComponents NewID assetID cs ids at_).
Proof. unfold instantiateInterfaceComponents. apply guarded_each. intros [c id]. unfold instantiate_one. guarding. Qed.
Lemma guarded_newIDs n : guarded (newIDs NewID n).
Proof. induction n; cbn [newIDs]; guarding. Qed.
#[local] Hint Resolve guarded_requireVocabulary guarded_requireRole guarded_requireUniqueSiblingName
  guarded_requireNoReplacementCycle guarded_insertClosure guarded_setAssetEnvironments guarded_instantiate
  guarded_newIDs : tx.

Lemma guarded_insertAsset a envs codes planned at_ : guarded (insertAsset NewID a envs codes planned at_).
Proof. unfold insertAsset, instantiateComponents. guarding. Qed.

Lemma guarded_insertProjectAssetLink project id at_ : guarded (insertProjectAssetLink NewID project id at_).
Proof. unfold insertProjectAssetLink. guarding. Qed.

(** A body that leaves the projects and their links to assets alone. *)
Definition unlinked {A} (m : Tx AssetTables A) : Prop :=
  forall env st a st', m env st = inr (a, st') ->
    pt_owners (st_tables st') = pt_owners (st_tables st) /\ pt_projects (st_tables st') = pt_projects (st_tables st).

Lemma unlinked_bind {A B} (m : Tx AssetTables A) (f : A -> Tx AssetTables B) :
  unlinked m -> (forall a, unlinked (f a)) -> unlinked (m ≫= f).
Proof. intros Hm Hf env st b st' (a & st1 & [<- <-]%Hm & ?%Hf)%bind_inv. done. Qed.
Lemma unlinked_each {A} (f : A -> Tx AssetTables unit) l : (forall x, unlinked (f x)) -> unlinked (each f l).
Proof. intros Hf. induction l; [by intros env st a st' [_ ->]%ret_inv|]. by apply unlinked_bind. Qed.
Lemma unlinked_still {A} (m : Tx AssetTables A) :
  (forall env st a st', m env st = inr (a, st') -> st_tables st' = st_tables st) -> unlinked m.
Proof. by intros Hm env st a st' ->%Hm. Qed.
Lemma unlinked_statement f :
  (forall t t', f t = inr t' -> pt_owners t' = pt_owners t /\ pt_projects t' = pt_projects t) -> unlinked (statement f).
Proof. intros Hf env st a st' (t & H1 & ->)%statement_inv. by apply Hf. Qed.

Lemma still_ret {A} (a : A) env (st : Store AssetTables) x st' : (mret a : Tx _ A) env st = inr (x, st') -> st_tables st' = st_tables st.
Proof. by intros [_ ->]%ret_inv. Qed.
Lemma still_query {A} (f : AssetTables -> A) env st x st' : query f env st = inr (x, st') -> st_tables st' = st_tables st.
Proof. by intros [_ ->]%query_inv. Qed.
Lemma still_newID env (st : Store AssetTables) x st' : newID NewID env st = inr (x, st') -> st_tables st' = st_tables st.
Proof. apply newID_inv. Qed.
Lemma still_logged t id s env (st : Store AssetTables) x st' :
  logCreate NewID t id s env st = inr (x, st') -> st_tables st' = st_tables st.
Proof. by intros [_ ?]%logCreate_inv. Qed.

Ltac unlinking :=
  repeat first
    [ progress intros
    | assumption
    | solve [apply unlinked_still; first [apply still_ret|apply still_query|apply still_newID|apply still_logged|done]]
    | apply unlinked_each
    | apply unlinked_statement; intros ? ?; repeat case_match; intros; simplify_eq; done
    | apply unlinked_bind
    | match goal with |- unlinked (match ?x with _ => _ end) => destruct x end ].

Lemma unlinked_newIDs n : unlinked (newIDs NewID n).
Proof. induction n; cbn [newIDs]; unlinking. Qed.

Lemma unlinked_insertAsset a envs codes planned at_ : unlinked (insertAsset NewID a envs codes planned at_).
Proof.
  unfold insertAsset, requireVocabulary, requireRole, requireUniqueSiblingName, requireNoReplacementCycle,
    insertClosureForNewNode, on_closure, setAssetEnvironments, insert_membership, instantiateComponents,
    instantiateInterfaceComponents, instantiate_one, insert_interface, insert_asset, put_asset.
  unlinking; try apply unlinked_newIDs.
Qed.

(** What a new asset leaves in the table of assets. *)
Lemma insertAsset_inv a envs codes planned at_ env st x st' :
  insertAsset NewID a envs codes planned at_ env st = inr (x, st') ->
  pt_assets (st_tables st) !! as_ID a = None /\
  pt_assets (st_tables st') = <[as_ID a := inserted a]> (pt_assets (st_tables st)).
Proof.
  intros Hrun. unfold insertAsset in Hrun.
  apply bind_inv in Hrun as (x1 & s1 & ->%requireVocabulary_inv & Hrun).
  apply bind_inv in Hrun as (x2 & s2 & H2%quiet_requireRole & Hrun).
  apply bind_inv in Hrun as (x3 & s3 & H3%quiet_requireUniqueSiblingName & Hrun).
  apply bind_inv in Hrun as (x4 & s4 & [-> _]%requireNoReplacementCycle_inv & Hrun).
  apply bind_inv in Hrun as (x5 & s5 & (t5 & Hins & E5)%statement_inv & Hrun).
  apply bind_inv in Hrun as (x6 & s6 & Hcl & Hrun).
  assert (same_core (st_tables s6) (st_tables st')) as Hlast by (refine ((_ : quiet _) _ _ _ _ Hrun); quietly).
  assert (pt_assets (st_tables s3) = pt_assets (st_tables st)) as E3 by (by rewrite (core_assets _ _ H3), (core_assets _ _ H2)).
  unfold insert_asset in Hins. case_bool_decide as Hn; [done|]. apply put_asset_ok in Hins as (-> & _).
  rewrite E3 in Hn. split; [by apply eq_None_not_Some|]. rewrite (core_assets _ _ Hlast).
  apply bind_inv in Hcl as (x7 & s7 & (c7 & _ & E7)%on_closure_inv & Hcl).
  assert (pt_assets (st_tables s6) = pt_assets (st_tables s7)) as ->.
  { destruct (as_ParentID a); [|by apply ret_inv in Hcl as [_ ->]]. destruct (String.eqb _ _); [by apply ret_inv in Hcl as [_ ->]|].
    by apply on_closure_inv in Hcl as (c8 & _ & ->). }
  by rewrite E7, E5, <- E3.
Qed.

(** What the permit of a creation in a project covers. *)
Lemma project_permit_covers actor project assetID ids t id :
  let entities : ScopedEntities := <["asset" := {[ assetID := true ]}]>
    (match ids with [] => ∅ | _ => {[ "interface" := list_to_map ((fun id => (id, true)) <$> ids) ]} end) in
  Covers (scopedPermit actor [project] entities) t id = true ->
  (t = "asset" /\ id = assetID) \/ (t = "interface" /\ id ∈ ids) \/
  (t = "project_asset" /\ id = link_id project assetID).
Proof.
  intros entities Hc.
  assert (forall t id, covers entities t id = true -> (t = "asset" /\ id = assetID) \/ (t = "interface" /\ id ∈ ids)) as Hcov.
  { intros u x (m & Hm & Hx)%covers_spec. unfold entities in Hm. apply lookup_insert_Some in Hm as [[<- <-]|[_ Hm]].
    - left. by apply lookup_singleton_Some in Hx as [-> _].
    - right. destruct ids as [|y ids]; [done|]. apply lookup_singleton_Some in Hm as [<- <-]. split; [done|].
      apply elem_of_list_to_map_2 in Hx. apply list_elem_of_fmap in Hx as (z & [= -> ] & Hz). done. }
  apply scoped_Covers in Hc as [[_ Hc]|(P & ty & e & Hl & -> & _ & HP & Hc)]; [naive_solver|].
  apply list_elem_of_singleton in HP as ->. unfold linkable in Hl. rewrite !elem_of_cons, elem_of_nil in Hl.
  right. right. destruct (Hcov _ _ Hc) as [[-> ->]|[-> _]]; destruct Hl as [[= ->]|[[=]|[[=]|[]]]]; done.
Qed.
End Templates.

(** * Theorems *)

(** Reading the closure: the subtrees of some assets are the assets at or below one
    of them, each once, and the ancestors of an asset are the path from the top down to
    its parent. *)
Theorem closure_reads t :
  assets_ok t ->
  (forall ids, NoDup (SubtreeIDs t ids) /\
    forall d, d ∈ SubtreeIDs t ids <->
      is_Some (pt_assets t !! d) /\ exists id n, id ∈ ids /\ climb (parent_of (pt_assets t)) n d = Some id) /\
  (forall d, is_Some (pt_assets t !! d) -> exists h, climb (parent_of (pt_assets t)) (S h) d = None /\
    Some <$> Ancestors t d =
      (fun n => climb (parent_of (pt_assets t)) n d ≫= fun a => pt_assets t !! a) <$> rev (seq 1 h)).
Proof.
  intros Hok. pose proof (ok_closure _ Hok) as Hc. split.
  - intros ids. unfold SubtreeIDs. split; [apply NoDup_remove_dups|]. intros d.
    rewrite elem_of_remove_dups, list_elem_of_bind. setoid_rewrite (closes_descendants _ _ _ _ _ Hc).
    unfold under. naive_solver.
  - intros d Hd. destruct (closes_height _ _ _ d Hc Hd) as (h & Ha & Htop). exists h. split; [done|].
    change (Ancestors t d) with (omap (fun r : ContainmentRow => pt_assets t !! fst (fst r)) (path_rows d (pt_closure t))).
    rewrite (path_rows_spec _ _ _ d h Hc Hd Ha Htop).
    assert (forall l : list nat, (forall n, n ∈ l -> n <= h) ->
      Some <$> omap (fun r : ContainmentRow => pt_assets t !! fst (fst r))
        ((fun n => ((default "" (climb (parent_of (pt_assets t)) n d), d), n)) <$> l) =
      (fun n => climb (parent_of (pt_assets t)) n d ≫= fun a => pt_assets t !! a) <$> l) as Hl.
    { intros l Hl. induction l as [|n l IH]; [done|]. cbn.
      destruct Ha as [a Ha]. destruct (climb_le (parent_of (pt_assets t)) d h n a) as [b Hb]; [apply Hl; left|done|].
      rewrite Hb. cbn. destruct (closes_climb_dom _ _ _ d n b Hc Hd Hb) as [x Hx].
      rewrite Hx. cbn. f_equal. apply IH. intros m Hm. apply Hl. by right. }
    apply Hl. intros n Hn. apply list_elem_of_In, in_rev, in_seq in Hn. lia.
Qed.

Section Theorems.
Context `{Unicode} `{CodeRunes} (NewID : nat -> string).

(** C4. Whatever requests run, on whatever their reads saw before their transactions
    and whichever of these commit: the closure holds a row for each asset and each
    number of steps up from it, and no other; no asset is above itself, no chain of
    replacements comes back on itself, and two live assets under one parent differ in
    name. *)
Theorem closure_is_containment st reqs :
  assets_ok (st_tables st) -> Forall identified reqs ->
  let t := st_tables (foldl (run_request NewID) st reqs) in
  (forall a d n, ((a, d), n) ∈ pt_closure t <-> is_Some (pt_assets t !! d) /\ climb (parent_of (pt_assets t)) n d = Some a) /\
  (forall n d, climb (parent_of (pt_assets t)) (S n) d <> Some d) /\
  (forall n d, climb (replaces_of (pt_assets t)) (S n) d <> Some d) /\
  (forall i j a b, pt_assets t !! i = Some a -> pt_assets t !! j = Some b -> live a = true -> live b = true ->
    as_ParentID a = as_ParentID b -> as_Name a = as_Name b -> i = j).
Proof.
  intros Hok Hreqs t. destruct (requests_ok NewID st reqs Hok Hreqs) as [Hr Hc Hl].
  split_and!; [apply Hc|by apply (closes_no_loop _ _ _ Hc)|apply Hl|apply Hr].
Qed.

(** C16. A move, by somebody who holds the asset, on tables that do not change under it:
    it is refused, and nothing is changed, or it leaves every asset where it was but
    this one, and the closure exact. It is accepted if and only if the new parent is
    an asset the permit covers, is not the asset nor inside it, and, for a live asset,
    no other live asset there has its name. *)
Theorem ReparentAsset_outcome st permit now id q row :
  assets_ok (st_tables st) -> pt_assets (st_tables st) !! id = Some row -> Covers permit "asset" id = true ->
  q <> Some "" ->
  let out := ReparentAsset NewID (st_tables st) Commits (Some permit) now id q st in
  let t' := st_tables out.2 in
  match out.1 with
  | inr _ => assets_ok t' /\
             forall d, parent_of (pt_assets t') d = if decide (d = id) then q else parent_of (pt_assets (st_tables st)) d
  | inl _ => out.2 = st
  end /\
  (out.1 = inr tt <-> fits_under (st_tables st) permit id row q).
Proof.
  intros Hok Hrow Hcov Hq. cbv zeta. unfold ReparentAsset. rewrite Hrow. cbv zeta.
  assert (match q with Some s => if String.eqb s "" then None else Some s | None => None end = q) as ->.
  { destruct q as [s|]; [|done]. by destruct (String.eqb_spec s ""); subst. }
  case_bool_decide as Hself.
  { split; [done|]. split; [done|]. intros [Hf _]. subst q. by destruct (proj2 (proj2 Hf) 0). }
  pose proof (write_written Commits (Some permit) now (reparent_body NewID row id q (FormatTime now)) st) as Hw.
  destruct (write _ _ _ _ _) as [[e|[]] st'] eqn:E; cbn [fst snd].
  - assert (st' = st) as -> by by inversion Hw. split; [done|]. split; [done|]. intros Hf.
    destruct (reparent_body_runs NewID _ permit now id q row st eq_refl Hok Hrow Hcov Hf) as [st2 Hrun].
    unfold write, writeTx in E. fold (env_of (Some permit) now) in E. by rewrite Hrun in E.
  - assert (reparent_body NewID row id q (FormatTime now) (env_of (Some permit) now) st = inr (tt, st')) as Hrun by by inversion Hw.
    clear Hw E. split.
    + split; [by eapply reparent_body_ok, Hrun|].
      apply reparent_body_inv in Hrun as (cl & t' & _ & _ & Hup & ->). unfold update_parent in Hup.
      cbn [pt_assets with_closure] in Hup. rewrite Hrow in Hup. apply put_asset_ok in Hup as (-> & _).
      intros d. cbn [pt_assets with_assets with_closure]. rewrite parent_of_insert.
      cbn [as_ID set_parent set_stamps]. by rewrite (rows_ids _ (ok_rows _ Hok) id row Hrow).
    + split; [|done]. intros _. apply reparent_body_inv in Hrun as (cl & t' & Hout & Hcl & Hup & _).
      unfold update_parent in Hup. cbn [pt_assets with_closure] in Hup. rewrite Hrow in Hup.
      apply put_asset_ok in Hup as (_ & _ & Href%asset_references_names & Hsib).
      cbn [as_ID as_ParentID as_Name set_parent set_stamps] in *.
      rewrite (rows_ids _ (ok_rows _ Hok) id row Hrow) in *. split.
      * destruct q as [p|]; [|done]. destruct (Hout p eq_refl) as [Hd (pm & [= <-] & Hcp)].
        destruct (proj1 Href p eq_refl) as [Hp| ->]; [|done]. split_and!; [done..|]. intros n Hn.
        apply Hd, (closes_descendants _ _ _ _ _ (ok_closure _ Hok)). split; [done|]. by exists n.
      * intros Hl. apply (not_taken _ row id q (ok_rows _ Hok)). by apply Hsib.
Qed.

(** C17. After the retirement operation, on an asset that its read before the transaction
    found and found unretired, no live edge names the asset: no membership of a group, no
    attachment of its own or pinned to it, no cable in one of its ports. The edges that
    named it are retired and the others are as they were, and the log is longer by one row
    of the retirement of the asset and one of each of those edges, by their kinds and
    identifiers. An update that sets the lifecycle to retired is another operation, and
    leaves the edges live. *)
Theorem RetireAsset_takes_topology seen fates p now id before st st' :
  assets_ok (st_tables st) -> pt_assets seen !! id = Some before -> IsRetired before = false ->
  RetireAsset NewID seen fates p now id st = (inr tt, st') ->
  let t := st_tables st in
  let t' := st_tables st' in
  (forall row, pt_assets t' !! id = Some row -> IsRetired row = true) /\
  live_memberships id t' = [] /\ live_attachments id t' = [] /\ live_cables id t' = [] /\
  topology_retired id (FormatTime now) t t' /\
  tells st st' (("asset", id, ActionRetire, lifecycle_diff (as_Lifecycle before) LifecycleRetired) :: topology_retirements id t).
Proof.
  intros Hok Hb Hr Hrun. cbv zeta. unfold RetireAsset in Hrun. rewrite Hb, Hr in Hrun.
  match type of Hrun with writeSerializable _ _ _ ?f _ = _ =>
    pose proof (writeSerializable_written fates p now f st) as Hw end.
  rewrite Hrun in Hw. inversion Hw as [|x st2 Hbody]; subst. clear Hw Hrun.
  apply bind_inv in Hbody as (x1 & s1 & H1 & Hbody). apply bind_inv in Hbody as (x2 & s2 & H2 & Hbody).
  pose proof (quiet_retireAssetTopology NewID id (FormatTime now) _ _ _ _ Hbody) as Hcore.
  apply retireAssetTopology_inv in Hbody as [Htop Hlog].
  assert (exists assets, st_tables s2 = with_assets assets (st_tables st) /\
    forall row, assets !! id = Some row -> IsRetired row = true) as (assets & E2 & Hret).
  { apply log_inv in H2 as [_ ->]. apply statement_inv in H1 as (t1 & Hup & ->). unfold update_retired in Hup.
    destruct (pt_assets (st_tables st) !! id) as [row|] eqn:E.
    - apply put_asset_ok in Hup as (-> & _). eexists. split; [done|]. cbn [as_ID set_stamps].
      rewrite (rows_ids _ (ok_rows _ Hok) id row E). intros row'. rewrite lookup_insert_eq. by intros [= <-].
    - injection Hup as <-. exists (pt_assets (st_tables st)). split; [by destruct (st_tables st)|]. congruence. }
  assert (tells st s2 [("asset", id, ActionRetire, lifecycle_diff (as_Lifecycle before) LifecycleRetired)]) as L2.
  { unfold statement in H1. destruct (update_retired _ _ _); [done|]. injection H1 as _ <-. by apply log_said in H2. }
  assert (topology_retired id (FormatTime now) (st_tables st) (st_tables st')) as Ht by (rewrite E2 in Htop; by destruct Htop).
  destruct (topology_retired_none _ _ _ _ Ht) as (Hm & Ha & Hl).
  split_and!; [|done..|].
  - intros row. rewrite (core_assets _ _ Hcore), E2. apply Hret.
  - rewrite E2 in Hlog. exact (tells_trans _ _ _ _ _ L2 Hlog).
Qed.


(** Applying a template leaves the asset with a port for every port of the template,
    adds no other and changes none that was there; applied again it adds nothing. *)
Theorem ApplyTemplate_fills p now assetID row model n st st' :
  pt_assets (st_tables st) !! assetID = Some row -> as_DeviceTypeID row = Some model ->
  (forall c, c ∈ ListDeviceTypeComponents model (st_tables st) -> TrimSpace (dc_Name c) = dc_Name c) ->
  ApplyTemplate NewID (st_tables st) Commits p now assetID st = (inr n, st') ->
  missingTemplateComponents assetID (ListDeviceTypeComponents model (st_tables st')) (st_tables st') = [] /\
  n = length (missingTemplateComponents assetID (ListDeviceTypeComponents model (st_tables st)) (st_tables st)) /\
  pt_interfaces (st_tables st) ⊆ pt_interfaces (st_tables st') /\
  size (pt_interfaces (st_tables st')) = size (pt_interfaces (st_tables st)) + n /\
  ApplyTemplate NewID (st_tables st') Commits p now assetID st' = (inr 0, st').
Proof.
  intros Hrow Hmodel Htrim Hrun.
  assert (forall t, pt_assets t !! assetID = Some row -> Covers p "asset" assetID = true ->
    missingTemplateComponents assetID (ListDeviceTypeComponents model t) t = [] ->
    forall s, ApplyTemplate NewID t Commits p now assetID s = (inr 0, s)) as Hidle.
  { intros t Ht Hc Hm s. unfold ApplyTemplate. by rewrite Hc, Ht, Hmodel, Hm. }
  unfold ApplyTemplate in Hrun. destruct (Covers p "asset" assetID) eqn:Hc; [|done]. cbn [negb] in Hrun.
  rewrite Hrow, Hmodel in Hrun. cbv zeta in Hrun.
  destruct (missingTemplateComponents assetID (ListDeviceTypeComponents model (st_tables st)) (st_tables st))
    as [|c0 cs] eqn:Hmiss.
  { injection Hrun as <- <-. cbn. split_and!; [done..|lia|]. by apply Hidle. }
  rewrite <- Hmiss in *. unfold minted in Hrun.
  match type of Hrun with write ?f ?q ?u ?b ?s = _ => pose proof (write_written f q u b s) as Hw end.
  rewrite Hrun in Hw. inversion Hw as [|x s2 Hbody]; subst. clear Hw Hrun.
  apply bind_inv in Hbody as (x1 & s1 & H1 & [-> ->]%ret_inv).
  apply instantiate_inv in H1 as (ports & E & Hsub & Hsize & Hall); [|by rewrite length_fmap, length_seq].
  cbn [st_tables] in *. rewrite E. cbn [pt_interfaces with_interfaces].
  assert (missingTemplateComponents assetID (ListDeviceTypeComponents model (st_tables st))
    (with_interfaces ports (st_tables st)) = []) as Hnone.
  { apply elem_of_nil_inv. intros c (Hin & Hif & Hno)%elem_missing. apply Hno. cbn [pt_interfaces with_interfaces].
    assert (c ∈ missingTemplateComponents assetID (ListDeviceTypeComponents model (st_tables st)) (st_tables st)) as Hm.
    { apply elem_missing. split_and!; [done..|]. intros (id & i & Hi & Hai). apply Hno. exists id, i.
      split; [by eapply lookup_weaken|done]. }
    destruct (Hall c Hm) as (id & i & Hi & Ha & Hn). exists id, i. by rewrite Hn, Htrim. }
  split_and!; [done|done|done|done|]. by apply Hidle.
Qed.

(** A row of the log that creating an asset in a project may leave. *)
Definition creation_row (permit : option Permit) (project assetID : string) (ids : nat) (r : ChangeRow) : Prop :=
  PermitHoldsProject permit project = true /\ cr_Actor r = default "" (ac_ID <$> (PermitActor <$> permit)) /\
  ((cr_EntityType r = "asset" /\ cr_EntityID r = assetID) \/
   (cr_EntityType r = "interface" /\ exists n, cr_EntityID r = NewID n /\ ids <= n) \/
   (cr_EntityType r = "project_asset" /\ cr_EntityID r = link_id project assetID)).

(** What creating an asset in a project does to the tables of projects and assets. Either
    they and the log stay, or the permit holds the project, no asset had the identifier,
    the asset and its link are there and no other of these rows has moved. *)
Theorem CreateAssetInProject_effect seen fate permit now project a st :
  let st' := (CreateAssetInProject NewID seen fate permit now project a st).2 in
  st_ids st <= st_ids st' /\
  (st_tables st' = st_tables st /\ st_log st' = st_log st \/
   PermitHoldsProject permit project = true /\ pt_assets (st_tables st) !! as_ID a = None /\
   (exists row, pt_assets (st_tables st') = <[as_ID a := row]> (pt_assets (st_tables st))) /\
   (exists l, pt_owners (st_tables st') = <[(project, as_ID a) := l]> (pt_owners (st_tables st))) /\
   pt_projects (st_tables st') = pt_projects (st_tables st) /\
   exists rows, st_log st' = st_log st ++ rows /\ Forall (creation_row permit project (as_ID a) (st_ids st)) rows).
Proof.
  cbv zeta. unfold CreateAssetInProject. destruct (ValidateAsset (inserted a)) as [a' [e|]] eqn:E; [by auto|].
  apply ValidateAsset_ID in E. change (as_ID (inserted a)) with (as_ID a) in E.
  destruct permit as [permit|]; [|by auto]. destruct (PermitHoldsProject (Some permit) project) eqn:Hhold; [|by auto].
  cbn [negb]. destruct (rack_space _ _); [by auto|]. unfold minted. cbv zeta.
  match goal with |- context [write ?f ?q ?u ?b ?s] =>
    assert (guarded b) as Hg by (apply guarded_bind; [apply guarded_insertAsset|intros _; apply guarded_insertProjectAssetLink]);
    pose proof (write_written f q u b s) as Hw; destruct (write f q u b s) as [res s'] eqn:Hrun end.
  pose proof (written_ids _ _ _ _ _ Hg Hw) as Hids. destruct (written_log _ _ _ _ _ _ Hg Hw) as (rows & Hlog & Hrows).
  cbn [snd st_ids st_log st_tables] in *. split; [lia|]. inversion Hw as [err|x st1 Hbody]; subst; [by left|]. right.
  apply bind_inv in Hbody as (x1 & s1 & H1 & (x2 & s2 & (t' & Hs & H2)%statement_inv & [_ H3]%logCreate_inv)%bind_inv).
  pose proof H1 as [Ho Hp]%unlinked_insertAsset. apply insertAsset_inv in H1 as [Hn Ha].
  cbn [st_tables] in *. rewrite E in *. unfold insert_owner in Hs. cbv zeta in Hs.
  destruct (bool_decide _ || existsb _ _) in Hs; [discriminate Hs|].
  destruct (bool_decide _ || bool_decide _) in Hs; [discriminate Hs|]. injection Hs as <-. rewrite H3, H2.
  cbn [pt_assets pt_owners pt_projects with_owners]. rewrite Ha, Ho, Hp.
  split; [done|]. split; [done|]. split; [by eexists|]. split; [by eexists|]. split; [done|].
  exists rows. split; [done|]. eapply Forall_impl; [exact Hrows|]. intros r [(q & [= <-] & Hc) (Hact & _ & _)].
  split; [done|]. split; [done|]. apply project_permit_covers in Hc.
  destruct Hc as [?|[[? (n & -> & Hin)%list_elem_of_fmap]|?]]; [auto| |auto]. right. left. split; [done|].
  exists n. split; [done|]. apply list_elem_of_In, in_seq in Hin. lia.
Qed.

(** C5. What a project owner can write by creating an asset in a project: the log gains
    rows about that asset, ports made for it and its link to that project, and no other,
    in the owner's name, and only when the permit holds the project. *)
Theorem CreateAssetInProject_confined seen fate permit now project a st :
  exists rows, st_log (CreateAssetInProject NewID seen fate permit now project a st).2 = st_log st ++ rows /\
    Forall (fun r =>
      PermitHoldsProject permit project = true /\ cr_Actor r = default "" (ac_ID <$> (PermitActor <$> permit)) /\
      ((cr_EntityType r = "asset" /\ cr_EntityID r = as_ID a) \/
       (cr_EntityType r = "interface" /\ exists n, cr_EntityID r = NewID n /\ st_ids st <= n) \/
       (cr_EntityType r = "project_asset" /\ cr_EntityID r = link_id project (as_ID a)))) rows.
Proof.
  destruct (CreateAssetInProject_effect seen fate permit now project a st) as [_ [[_ ->]|(_ & _ & _ & _ & _ & Hrows)]];
    [exists []; by rewrite app_nil_r|exact Hrows].
Qed.
End Theorems.

(** * Samples *)

#[local] Instance sample_unicode : Unicode := {| lower_unicode := ascii_lower; quote_unicode := fun s => s |}.
#[local] Instance sample_codes : CodeRunes := fun _ => true.

Definition sample_ids (n : nat) : string := String.concat "" (repeat "i" n).

(** The tables before anything is declared. *)
Definition no_assets : AssetTables :=
  {| pt_assets := ∅; pt_closure := []; pt_environments := ∅; pt_memberships := []; pt_interfaces := ∅; pt_members := ∅;
     pt_attachments := ∅; pt_pins := []; pt_links := ∅; pt_kinds := ["rack"; "server"; "site"]; pt_roles := [];
     pt_form_factors := ["rj45"]; pt_teams := ∅; pt_storage_kinds := ∅; pt_device_types := {["m1" := (Some 2%Z, true)]};
     pt_fastened := [];
     pt_components := [
       {| dc_ID := "c2"; dc_DeviceTypeID := "m1"; dc_Kind := "interface"; dc_Name := "eth1"; dc_Position := 2;
          dc_FormFactor := Some "rj45"; dc_SpeedMbps := Some 1000%Z; dc_IsMgmt := false; dc_Lifecycle := "active" |};
       {| dc_ID := "c1"; dc_DeviceTypeID := "m1"; dc_Kind := "interface"; dc_Name := "eth0"; dc_Position := 1;
          dc_FormFactor := Some "rj45"; dc_SpeedMbps := Some 1000%Z; dc_IsMgmt := false; dc_Lifecycle := "active" |}];
     pt_projects := ∅; pt_owners := ∅ |}.

Lemma no_assets_ok : assets_ok no_assets.
Proof.
  split; [split; try done; intros; by apply lookup_empty_Some in H|split; try done|by intros n d].
  - constructor.
  - intros a d n. split; [by intros ?%not_elem_of_nil|by intros [[? ?] _]].
Qed.

(** An asset as its form gives it. *)
Definition declared (id kind : string) (parent : option string) (position : option Z) (lifecycle : string)
    (model : option string) (version : Z) : Asset :=
  {| as_ID := id; as_Kind := kind; as_Name := id; as_ParentID := parent; as_Serial := None; as_AssetTag := None;
     as_Vendor := None; as_Model := None; as_DeviceTypeID := model; as_UHeight := None; as_RackPosition := position;
     as_RackFace := None; as_UsableDepthMM := None; as_WidthMM := None; as_MaxLoadGrams := None; as_CPUCores := None;
     as_MemoryMB := None; as_VCPUProvisioned := None; as_VCPUAllocated := None; as_MemoryProvisionedMB := None;
     as_MemoryAllocatedMB := None; as_StorageKind := None; as_RawCapacityGB := None; as_ReplacesAssetID := None;
     as_Lifecycle := lifecycle; as_TeamID := None; as_ManagerRole := None; as_EOLDate := None; as_Attrs := "";
     as_CreatedAt := ""; as_UpdatedAt := ""; as_RowVersion := version |}.

(** A request on what its store holds. *)
Definition asked (st : Store AssetTables) (op : AssetOp) : AssetRequest :=
  {| rq_seen := st_tables st; rq_fates := fun _ => Commits; rq_permit := systemPermit "sample"; rq_now := 0%Z; rq_op := op |}.
Definition perform (st : Store AssetTables) (op : AssetOp) : Store AssetTables := run_request sample_ids st (asked st op).

Definition opening : list AssetOp :=
  [OpCreate (declared "hall" "site" None None "active" None 0) None;
   OpCreate (declared "r1" "rack" (Some "hall") None "active" None 0) None;
   OpCreate (declared "r2" "rack" (Some "hall") None "active" None 0) None;
   OpCreate (declared "s1" "server" (Some "r1") (Some 1%Z) "active" (Some "m1") 0) None;
   OpCreate (declared "s2" "server" (Some "r2") (Some 2%Z) "active" (Some "m1") 0) None].

Definition machine_hall : Store AssetTables := foldl perform (MkStore no_assets [] 0) opening.

Lemma perform_ok st op :
  assets_ok (st_tables st) -> identified (asked st op) -> assets_ok (st_tables (perform st op)).
Proof. apply run_request_ok. Qed.

Lemma machine_hall_ok : assets_ok (st_tables machine_hall).
Proof. unfold machine_hall, opening. cbn [foldl]. repeat (apply perform_ok; [|done]). apply no_assets_ok. Qed.

Lemma closure_is_containment_witness :
  let moves := [asked machine_hall (OpReparent "s1" (Some "r2")); asked machine_hall (OpRetire "s2")] in
  (("hall", "s1"), 2) ∈ pt_closure (st_tables (foldl (run_request sample_ids) machine_hall moves)).
Proof.
  cbv zeta.
  destruct (closure_is_containment sample_ids machine_hall
    [asked machine_hall (OpReparent "s1" (Some "r2")); asked machine_hall (OpRetire "s2")]) as (Hrows & _).
  - apply machine_hall_ok.
  - repeat constructor.
  - apply Hrows. split; [eexists; vm_compute; reflexivity|vm_compute; reflexivity].
Defined.

#[local] Opaque machine_hall.

Lemma closure_reads_witness : "s2" ∈ SubtreeIDs (st_tables machine_hall) ["r2"].
Proof.
  apply (proj1 (closure_reads (st_tables machine_hall) machine_hall_ok) ["r2"]).
  split; [eexists; vm_compute; reflexivity|]. exists "r2", 1. split; [left|vm_compute; reflexivity].
Defined.

(** The row of an asset that is there. *)
Definition row_of (st : Store AssetTables) (id : string) : Asset :=
  default (declared "" "" None None "" None 0) (pt_assets (st_tables st) !! id).

Lemma ReparentAsset_outcome_witness :
  fits_under (st_tables machine_hall) (systemPermit "sample") "s1" (row_of machine_hall "s1") (Some "r2").
Proof.
  assert (pt_assets (st_tables machine_hall) !! "s1" = Some (row_of machine_hall "s1")) as Hrow
    by (vm_compute; reflexivity).
  assert ((ReparentAsset sample_ids (st_tables machine_hall) Commits (Some (systemPermit "sample")) 0%Z "s1"
    (Some "r2") machine_hall).1 = inr tt) as Hdone by (vm_compute; reflexivity).
  assert (Some "r2" <> Some "") as Hnamed by discriminate.
  destruct (ReparentAsset_outcome sample_ids machine_hall (systemPermit "sample") 0%Z "s1" (Some "r2")
    (row_of machine_hall "s1") machine_hall_ok Hrow eq_refl Hnamed) as [_ Hiff].
  exact (proj1 Hiff Hdone).
Defined.

(** Tables with edges of the topology: [s1] attached to a switch group and cabled to [s2]. *)
Definition wired (t : AssetTables) : AssetTables :=
  let edge (a : string) := {| tr_AssetID := a; tr_Lifecycle := "active"; tr_UpdatedAt := "" |} in
  with_links {["cable" := {| li_ID := "cable"; li_A := sample_ids 4; li_B := sample_ids 9; li_Medium := None; li_LengthM := None;
    li_Lifecycle := "active"; li_RowVersion := 1; li_BreakoutID := None; li_BreakoutPosition := None |}]}
    (with_attachments {["att1" := edge "s1"; "att2" := edge "s2"]} t).

Lemma wired_core t : same_core t (wired t).
Proof. done. Qed.

Definition wired_hall : Store AssetTables := MkStore (wired (st_tables machine_hall)) [] 0.

Lemma wired_hall_ok : assets_ok (st_tables wired_hall).
Proof. exact (assets_ok_core _ _ (wired_core _) machine_hall_ok). Qed.

#[local] Opaque wired_hall.

Lemma RetireAsset_takes_topology_witness :
  live_attachments "s1" (st_tables (perform wired_hall (OpRetire "s1"))) = [].
Proof.
  assert (pt_assets (st_tables wired_hall) !! "s1" = Some (row_of wired_hall "s1")) as Hrow by (vm_compute; reflexivity).
  assert (IsRetired (row_of wired_hall "s1") = false) as Hlive by (vm_compute; reflexivity).
  destruct (RetireAsset sample_ids (st_tables wired_hall) (fun _ => Commits) (Some (systemPermit "sample")) 0%Z "s1"
    wired_hall) as [res st'] eqn:E.
  change (perform wired_hall (OpRetire "s1")) with (RetireAsset sample_ids (st_tables wired_hall) (fun _ => Commits)
    (Some (systemPermit "sample")) 0%Z "s1" wired_hall).2.
  assert (res = inr tt) as -> by (change res with (res, st').1; rewrite <- E; vm_compute; reflexivity).
  destruct (RetireAsset_takes_topology sample_ids _ _ _ _ _ _ _ _ wired_hall_ok Hrow Hlive E) as (_ & _ & Ha & _).
  rewrite E. exact Ha.
Defined.

(** The hall before its servers took the ports of their model. *)
Definition bare_hall : Store AssetTables := MkStore (with_interfaces ∅ (st_tables machine_hall)) [] 0.

#[local] Opaque bare_hall.

Lemma ApplyTemplate_fills_witness :
  pt_interfaces (st_tables bare_hall) ⊆
  pt_interfaces (st_tables (ApplyTemplate sample_ids (st_tables bare_hall) Commits (systemPermit "sample") 0%Z "s1" bare_hall).2).
Proof.
  assert (pt_assets (st_tables bare_hall) !! "s1" = Some (row_of bare_hall "s1")) as Hrow by (vm_compute; reflexivity).
  assert (as_DeviceTypeID (row_of bare_hall "s1") = Some "m1") as Hmodel by (vm_compute; reflexivity).
  assert (Forall (fun c => TrimSpace (dc_Name c) = dc_Name c) (ListDeviceTypeComponents "m1" (st_tables bare_hall))) as Htrim
    by (vm_compute; repeat constructor).
  rewrite Forall_forall in Htrim.
  destruct (ApplyTemplate sample_ids (st_tables bare_hall) Commits (systemPermit "sample") 0%Z "s1" bare_hall)
    as [res st'] eqn:E.
  assert (res = inr 2) as -> by (change res with (res, st').1; rewrite <- E; vm_compute; reflexivity).
  apply (ApplyTemplate_fills sample_ids (systemPermit "sample") 0%Z "s1" (row_of bare_hall "s1") "m1" 2 bare_hall st' Hrow Hmodel Htrim E).
Defined.

(** A move does not look at the space in the rack: [s1] at U1 and U2 goes to the rack
    where [s2] is at U2 and U3, a place that could not be given to it by an update. *)
Lemma moved_into_collision :
  let st := perform machine_hall (OpReparent "s1" (Some "r2")) in
  as_ParentID (row_of st "s1") = Some "r2" /\
  (exists ve, rack_space (st_tables st) (row_of st "s1") = Some ve) /\
  (exists ve, (UpdateAsset sample_ids (st_tables st) Commits (Some (systemPermit "sample")) 0%Z (row_of st "s1") None "" "" st).1
    = inl (Invalid ve)).
Proof. cbv zeta. split; [vm_compute; reflexivity|]. split; eexists; vm_compute; reflexivity. Qed.

(** An update that retires an asset leaves the edges that name it live. *)
Lemma retired_by_update_keeps_edges :
  let st := perform wired_hall (OpUpdate (declared "s1" "server" None (Some 1%Z) "retired" (Some "m1") 1) None "" "") in
  IsRetired (row_of st "s1") = true /\ live_attachments "s1" (st_tables st) = ["att1"] /\
  live_cables "s1" (st_tables st) = ["cable"].
Proof. vm_compute. split_and!; reflexivity. Qed.
