(* ===== verification/Cabling.v ===== *)
(** Ports and cables: the writes of [internal/store/network.go] on the tables of
    [Containment].

    A port holds one live cable, a withdrawn port holds none, and the strands of a
    breakout, which share their near port, agree on medium and length. A port and a
    cable have no project of their own: the permit of the caller is asked about the
    assets behind them, and the transaction runs under a permit for the one row. *)
From Stdlib Require Import String Ascii ZArith Lia.
From stdpp Require Import base gmap strings list.
From S2P Require Import Prelude Status Text Errors Timestamps Actors Permits ChangeLog Projects Assets Ports Containment AssetWrites.

#[local] Open Scope string_scope.
#[local] Open Scope list_scope.

(** * Definitions *)

(** ** Subjects *)

(** A permit for rows of one type. *)
Definition narrow (p : Permit) (entityType : string) (ids : list string) : Permit :=
  scopedPermit (PermitActor p) [] {[ entityType := list_to_map ((fun id => (id, true)) <$> ids) ]}.

(** [authorizeInterfaceSubject] *)
Definition authorizeInterfaceSubject (p : Permit) (assetID interfaceID : string) : StoreError + Permit :=
  if Covers p "asset" assetID then inr (narrow p "interface" [interfaceID]) else inl (Wrapped ErrForbidden).

(** The asset behind a port, and whether the permit covers it. *)
Definition covered_port (seen : AssetTables) (p : Permit) (port : string) : StoreError + unit :=
  match pt_interfaces seen !! port with
  | None => inl (Wrapped ErrNotFound)
  | Some i => if Covers p "asset" (if_AssetID i) then inr tt else inl (Wrapped ErrForbidden)
  end.

(** [authorizeLinkSubjects]: both ends are read before either is asked about. *)
Definition authorizeLinkSubjects (seen : AssetTables) (p : Permit) (a b linkID : string) : StoreError + Permit :=
  match pt_interfaces seen !! a, pt_interfaces seen !! b with
  | Some i, Some j =>
      if Covers p "asset" (if_AssetID i) && Covers p "asset" (if_AssetID j) then inr (narrow p "link" [linkID])
      else inl (Wrapped ErrForbidden)
  | _, _ => inl (Wrapped ErrNotFound)
  end.

(** The loop of [authorizeBreakoutSubjects] over the far ends. *)
Fixpoint covered_ports (seen : AssetTables) (p : Permit) (ports : list string) : StoreError + unit :=
  match ports with
  | [] => inr tt
  | port :: ports' => match covered_port seen p port with inl e => inl e | inr _ => covered_ports seen p ports' end
  end.

(** [authorizeBreakoutSubjects] *)
Definition authorizeBreakoutSubjects (seen : AssetTables) (p : Permit) (spec : BreakoutSpec) (linkIDs : list string)
    : StoreError + Permit :=
  match covered_ports seen p (bs_A spec :: bs_B spec) with
  | inl e => inl e
  | inr _ => inr (narrow p "link" linkIDs)
  end.

(** ** Statements *)

Definition is_patched (l : Link) (port : string) : bool := String.eqb (li_A l) port || String.eqb (li_B l) port.

(** The count of the live cables in one of some ports. *)
Definition patches (ports : list string) (t : AssetTables) : nat :=
  count_if (fun l => is_live (li_Lifecycle l) && existsb (is_patched l) ports) (map_to_list (pt_links t)).*2.

Definition link_lifecycle (l : Link) : bool := containsString [LifecycleActive; LifecycleRetired] (li_Lifecycle l).

(** Another live strand at the position. *)
Definition position_taken (l : Link) (t : AssetTables) : bool :=
  match li_BreakoutID l, li_BreakoutPosition l with
  | Some b, Some n => existsb (fun m =>
      bool_decide (li_BreakoutID m = Some b /\ li_BreakoutPosition m = Some n) &&
      negb (String.eqb (li_Lifecycle m) LifecycleRetired) && negb (String.eqb (li_ID m) (li_ID l)))
      (map_to_list (pt_links t)).*2
  | _, _ => false
  end.

Definition put_link (l : Link) (t : AssetTables) : StoreError + AssetTables :=
  if String.eqb (li_A l) (li_B l) || negb (link_lifecycle l) ||
     match li_BreakoutPosition l with Some z => (z <=? 0)%Z | None => false end then refused ErrInvalid
  else if negb (String.eqb (li_Lifecycle l) LifecycleRetired) && position_taken l t then refused ErrConflict
  else if bool_decide (pt_interfaces t !! li_A l = None) || bool_decide (pt_interfaces t !! li_B l = None)
  then refused ErrInvalid
  else inr (with_links (<[li_ID l := l]> (pt_links t)) t).

(** [INSERT INTO link] *)
Definition insert_link_row (l : Link) (t : AssetTables) : StoreError + AssetTables :=
  if bool_decide (is_Some (pt_links t !! li_ID l)) then refused ErrConflict else put_link l t.

(** [UPDATE link SET medium = ?, length_m = ? ... WHERE id = ? AND row_version = ?] *)
Definition update_link (l : Link) (t : AssetTables) : StoreError + AssetTables :=
  match pt_links t !! li_ID l with
  | None => refused ErrStale
  | Some row =>
      if (li_RowVersion row =? li_RowVersion l)%Z
      then put_link {| li_ID := li_ID row; li_A := li_A row; li_B := li_B row; li_Medium := li_Medium l;
             li_LengthM := li_LengthM l; li_Lifecycle := li_Lifecycle row; li_RowVersion := li_RowVersion row + 1;
             li_BreakoutID := li_BreakoutID row; li_BreakoutPosition := li_BreakoutPosition row |} t
      else refused ErrStale
  end.

(** A port with the columns an update writes. *)
Definition port_with (row i : Interface) (name lifecycle : string) : Interface :=
  {| if_ID := if_ID row; if_AssetID := if_AssetID row; if_Name := name; if_FormFactor := if_FormFactor i;
     if_SpeedMbps := if_SpeedMbps i; if_MAC := if_MAC i; if_MTU := if_MTU i; if_LagParentID := if_LagParentID row;
     if_IsMgmt := if_IsMgmt i; if_Enabled := if_Enabled i; if_Lifecycle := lifecycle;
     if_CreatedAt := if_CreatedAt row; if_UpdatedAt := if_UpdatedAt i; if_RowVersion := if_RowVersion row + 1 |}.

Definition put_port (i : Interface) (t : AssetTables) : StoreError + AssetTables :=
  if negb (port_lifecycle i) then refused ErrInvalid
  else if existsb (fun j => String.eqb (if_AssetID j) (if_AssetID i) && String.eqb (if_Name j) (if_Name i) &&
                            negb (String.eqb (if_ID j) (if_ID i))) (map_to_list (pt_interfaces t)).*2
  then refused ErrConflict
  else if negb (containsString (pt_form_factors t) (if_FormFactor i)) then refused ErrInvalid
  else inr (with_interfaces (<[if_ID i := i]> (pt_interfaces t)) t).

(** [UPDATE interface SET ... WHERE id = ? AND row_version = ?], with the new row made
    from the one that is there. *)
Definition update_port (id : string) (version : Z) (f : Interface -> Interface) (t : AssetTables)
    : StoreError + AssetTables :=
  match pt_interfaces t !! id with
  | None => refused ErrStale
  | Some row => if (if_RowVersion row =? version)%Z then put_port (f row) t else refused ErrStale
  end.

(** ** Checks *)

(** [requireLiveInterface] *)
Definition requireLiveInterface (field port : string) : Tx AssetTables unit :=
  i ← query (fun t => pt_interfaces t !! port);
  match i with
  | None => fail (Invalid (Add [] field "choose a port"))
  | Some i => if String.eqb (if_Lifecycle i) LifecycleRetired
              then fail (Invalid (Add [] field "that port has been withdrawn")) else mret tt
  end.

Definition interfaceAttachments : list (string * string * string) :=
  [("link", "a_interface_id", "a cable is patched into it");
   ("link", "b_interface_id", "a cable is patched into it");
   ("port_pass_through", "front_interface_id", "a panel strand passes through it");
   ("port_pass_through", "rear_interface_id", "a panel strand passes through it");
   ("circuit_termination", "interface_id", "a circuit lands on it");
   ("ip_address", "interface_id", "an address is assigned to it");
   ("interface_vlan", "interface_id", "it is a member of a VLAN");
   ("interface_wlan", "interface_id", "it broadcasts a wireless LAN");
   ("fhrp_member", "interface_id", "it is a member of an FHRP group");
   ("l2vpn_termination", "interface_id", "an L2VPN terminates on it");
   ("interface", "lag_parent_id", "another port is bonded into it")].

Definition tableHasLifecycle : gmap string bool :=
  list_to_map [("link", true); ("port_pass_through", true); ("circuit_termination", true); ("l2vpn_termination", true);
    ("interface", true); ("ip_address", true); ("interface_vlan", false); ("interface_wlan", false);
    ("fhrp_member", false)].

(** The rows of a table that name a port in a column, with their lifecycles. *)
Definition naming (table column port : string) (t : AssetTables) : list string :=
  if String.eqb table "link" then
    omap (fun l => if String.eqb (if String.eqb column "a_interface_id" then li_A l else li_B l) port
                   then Some (li_Lifecycle l) else None) (map_to_list (pt_links t)).*2
  else if String.eqb table "interface" then
    omap (fun i => if bool_decide (if_LagParentID i = Some port) then Some (if_Lifecycle i) else None)
      (map_to_list (pt_interfaces t)).*2
  else
    omap (fun f => if String.eqb (fa_table f) table && String.eqb (fa_column f) column && String.eqb (fa_port f) port
                   then Some (fa_Lifecycle f) else None) (pt_fastened t).

(** [attachmentHolds] *)
Definition attachmentHolds (table column port : string) (t : AssetTables) : bool :=
  existsb (fun lifecycle => negb (default false (tableHasLifecycle !! table) && String.eqb lifecycle LifecycleRetired))
    (naming table column port t).

(** [requireNoBreakoutDrift] *)
Definition requireNoBreakoutDrift (breakoutID excludeLinkID : string) (medium : option string) (lengthM : option Z)
    : Tx AssetTables unit :=
  siblings ← query (fun t => List.filter (fun l =>
    bool_decide (li_BreakoutID l = Some breakoutID) && negb (String.eqb (li_ID l) excludeLinkID) &&
    is_live (li_Lifecycle l)) (map_to_list (pt_links t)).*2);
  if forallb (fun l => bool_decide (li_Medium l = medium /\ li_LengthM l = lengthM)) siblings then mret tt
  else fail (Invalid (Add [] "medium" "every strand of a breakout cable must share the same medium and length")).

(** ** Operations *)

Section Operations.
Context `{Unicode} `{CodeRunes} (NewID : nat -> string).

(** A withdrawn port of a name on an asset: [retiredInterfaceID] and the read of
    [reactivateRetiredInterface]. *)
Definition retired_port (assetID name : string) (t : AssetTables) : option Interface :=
  List.find (fun i => String.eqb (if_AssetID i) assetID && String.eqb (if_Name i) name &&
                      String.eqb (if_Lifecycle i) LifecycleRetired) (map_to_list (pt_interfaces t)).*2.

(** A port under an identifier, with its stamps. *)
Definition identified_as (id : string) (created updated : option string) (lifecycle : string) (version : Z) (i : Interface)
    : Interface :=
  {| if_ID := id; if_AssetID := if_AssetID i; if_Name := if_Name i; if_FormFactor := if_FormFactor i;
     if_SpeedMbps := if_SpeedMbps i; if_MAC := if_MAC i; if_MTU := if_MTU i; if_LagParentID := if_LagParentID i;
     if_IsMgmt := if_IsMgmt i; if_Enabled := if_Enabled i; if_Lifecycle := lifecycle; if_CreatedAt := created;
     if_UpdatedAt := updated; if_RowVersion := version |}.

(** [reactivateRetiredInterface] *)
Definition reactivateRetiredInterface (i : Interface) : Tx AssetTables bool :=
  before ← query (retired_port (if_AssetID i) (if_Name i));
  match before with
  | None => mret false
  | Some before =>
      let after := identified_as (if_ID before) (if_CreatedAt before) (if_UpdatedAt i) LifecycleActive
                     (if_RowVersion before + 1) i in
      _ ← statement (update_port (if_ID before) (if_RowVersion before)
            (fun row => port_with row i (if_Name row) LifecycleActive));
      _ ← logUpdate NewID "interface" (if_ID before) (interface_struct before) (interface_struct after);
      mret true
  end.

(** The transaction of [CreateInterface]. *)
Definition create_port_body (i : Interface) : Tx AssetTables unit :=
  _ ← requireVocabulary pt_form_factors "form_factor" (if_FormFactor i);
  reactivated ← reactivateRetiredInterface i;
  if (reactivated : bool) then mret tt
  else _ ← statement (insert_interface i); logCreate NewID "interface" (if_ID i) (interface_struct i).

(** [CreateInterface] *)
Definition CreateInterface (seen : AssetTables) (fate : Fate) (p : Permit) (now : Time) (i : Interface)
    (st : Store AssetTables) : (StoreError + unit) * Store AssetTables :=
  let at_ := Some (FormatTime now) in
  let id := match retired_port (if_AssetID i) (if_Name i) seen with
    | Some r => if String.eqb (if_ID r) "" then if_ID i else if_ID r
    | None => if_ID i
    end in
  let i := identified_as id at_ at_ (if_Lifecycle i) 1 i in
  match authorizeInterfaceSubject p (if_AssetID i) id with
  | inl e => (inl e, st)
  | inr permit => write fate (Some permit) now (create_port_body i) st
  end.

(** [UpdateInterface] *)
Definition UpdateInterface (seen : AssetTables) (fate : Fate) (p : Permit) (now : Time) (i : Interface)
    (st : Store AssetTables) : (StoreError + unit) * Store AssetTables :=
  match ValidateInterface i with
  | (_, Some ve) => (inl (Invalid ve), st)
  | (i, None) =>
      match pt_interfaces seen !! if_ID i with
      | None => (inl (Wrapped ErrNotFound), st)
      | Some before =>
          let i := {| if_ID := if_ID i; if_AssetID := if_AssetID before; if_Name := if_Name i;
            if_FormFactor := if_FormFactor i; if_SpeedMbps := if_SpeedMbps i; if_MAC := if_MAC i; if_MTU := if_MTU i;
            if_LagParentID := if_LagParentID before; if_IsMgmt := if_IsMgmt i; if_Enabled := if_Enabled i;
            if_Lifecycle := if_Lifecycle before; if_CreatedAt := if_CreatedAt i;
            if_UpdatedAt := Some (FormatTime now); if_RowVersion := if_RowVersion i |} in
          match authorizeInterfaceSubject p (if_AssetID before) (if_ID i) with
          | inl e => (inl e, st)
          | inr permit => write fate (Some permit) now (
              _ ← requireVocabulary pt_form_factors "form_factor" (if_FormFactor i);
              _ ← statement (update_port (if_ID i) (if_RowVersion i)
                    (fun row => port_with row i (if_Name i) (if_Lifecycle row)));
              logUpdate NewID "interface" (if_ID i) (interface_struct before) (interface_struct i)) st
          end
      end
  end.

Definition unattached (port : string) (a : string * string * string) : Tx AssetTables unit :=
  let '(table, column, _) := a in
  held ← query (attachmentHolds table column port);
  if (held : bool) then fail (Wrapped ErrConflict) else mret tt.

(** [RetireInterface] *)
Definition RetireInterface (seen : AssetTables) (fate : Fate) (p : Permit) (now : Time) (id : string)
    (st : Store AssetTables) : (StoreError + unit) * Store AssetTables :=
  match pt_interfaces seen !! id with
  | None => (inl (Wrapped ErrNotFound), st)
  | Some before =>
      match authorizeInterfaceSubject p (if_AssetID before) id with
      | inl e => (inl e, st)
      | inr permit =>
          if String.eqb (if_Lifecycle before) LifecycleRetired then (inr tt, st)
          else
            let at_ := Some (FormatTime now) in
            let stamped (row : Interface) := identified_as (if_ID row) (if_CreatedAt row) at_ (if_Lifecycle row)
                                               (if_RowVersion row) row in
            write fate (Some permit) now (
              _ ← each (unattached id) interfaceAttachments;
              _ ← statement (update_port id (if_RowVersion before)
                    (fun row => port_with row (stamped row) (if_Name row) LifecycleRetired));
              logUpdate NewID "interface" id (interface_struct before)
                (interface_struct (identified_as id (if_CreatedAt before) at_ LifecycleRetired (if_RowVersion before) before))) st
      end
  end.

(** The row [CreateLink] inserts: no column of a breakout, the default version. *)
Definition plain_link (l : Link) : Link :=
  {| li_ID := li_ID l; li_A := li_A l; li_B := li_B l; li_Medium := li_Medium l; li_LengthM := li_LengthM l;
     li_Lifecycle := li_Lifecycle l; li_RowVersion := 1; li_BreakoutID := None; li_BreakoutPosition := None |}.

Definition free_ports (ports : list string) : Tx AssetTables unit :=
  n ← query (patches ports);
  if (0 <? n)%nat then fail (Wrapped ErrConflict) else mret tt.

(** The transaction of [CreateLink]. *)
Definition create_link_body (l : Link) : Tx AssetTables unit :=
  _ ← requireLiveInterface "a_interface_id" (li_A l);
  _ ← requireLiveInterface "b_interface_id" (li_B l);
  _ ← free_ports [li_A l; li_B l];
  _ ← statement (insert_link_row (plain_link l));
  logCreate NewID "link" (li_ID l) (link_struct_of l).

(** [CreateLink] *)
Definition CreateLink (seen : AssetTables) (fates : nat -> Fate) (p : Permit) (now : Time) (l : Link)
    (st : Store AssetTables) : (StoreError + unit) * Store AssetTables :=
  let l := {| li_ID := li_ID l; li_A := li_A l; li_B := li_B l; li_Medium := li_Medium l; li_LengthM := li_LengthM l;
    li_Lifecycle := if String.eqb (li_Lifecycle l) "" then LifecycleActive else li_Lifecycle l;
    li_RowVersion := li_RowVersion l; li_BreakoutID := li_BreakoutID l; li_BreakoutPosition := li_BreakoutPosition l |} in
  match authorizeLinkSubjects seen p (li_A l) (li_B l) (li_ID l) with
  | inl e => (inl e, st)
  | inr permit => writeSerializable fates (Some permit) now (create_link_body l) st
  end.

(** [UpdateLink] *)
Definition UpdateLink (seen : AssetTables) (fate : Fate) (p : Permit) (now : Time) (l : Link)
    (st : Store AssetTables) : (StoreError + unit) * Store AssetTables :=
  match pt_links seen !! li_ID l with
  | None => (inl (Wrapped ErrNotFound), st)
  | Some before =>
      let l := {| li_ID := li_ID l; li_A := li_A before; li_B := li_B before; li_Medium := li_Medium l;
        li_LengthM := li_LengthM l; li_Lifecycle := li_Lifecycle before; li_RowVersion := li_RowVersion l;
        li_BreakoutID := li_BreakoutID before; li_BreakoutPosition := li_BreakoutPosition before |} in
      match authorizeLinkSubjects seen p (li_A before) (li_B before) (li_ID l) with
      | inl e => (inl e, st)
      | inr permit => write fate (Some permit) now (
          _ ← match li_BreakoutID before with
              | Some b => requireNoBreakoutDrift b (li_ID l) (li_Medium l) (li_LengthM l)
              | None => mret tt
              end;
          _ ← statement (update_link l);
          logUpdate NewID "link" (li_ID l) (link_struct_of before) (link_struct_of l)) st
      end
  end.

(** [RetireLink] *)
Definition RetireLink (seen : AssetTables) (fate : Fate) (p : Permit) (now : Time) (id : string)
    (st : Store AssetTables) : (StoreError + unit) * Store AssetTables :=
  match pt_links seen !! id with
  | None => (inl (Wrapped ErrNotFound), st)
  | Some before =>
      match authorizeLinkSubjects seen p (li_A before) (li_B before) id with
      | inl e => (inl e, st)
      | inr permit =>
          if String.eqb (li_Lifecycle before) LifecycleRetired then (inr tt, st)
          else write fate (Some permit) now (
            _ ← statement (fun t => inr (with_links (alter retired_cable id (pt_links t)) t));
            log NewID "link" id ActionRetire (lifecycle_diff (li_Lifecycle before) LifecycleRetired) "") st
      end
  end.

(** One turn of the loop of [CreateBreakout]: the strand at position [n]. *)
Definition strand (spec : BreakoutSpec) (breakoutID : string) (n : Z) (port linkID : string) : Tx AssetTables Link :=
  _ ← requireLiveInterface ("b_interface_id_" +++ Itoa n) port;
  _ ← free_ports [port];
  let l := {| li_ID := linkID; li_A := bs_A spec; li_B := port; li_Medium := bs_Medium spec;
              li_LengthM := bs_LengthM spec; li_Lifecycle := LifecycleActive; li_RowVersion := 0;
              li_BreakoutID := Some breakoutID; li_BreakoutPosition := Some n |} in
  match ValidateLink l with
  | Some ve => fail (Invalid ve)
  | None =>
      _ ← statement (insert_link_row {| li_ID := li_ID l; li_A := li_A l; li_B := li_B l; li_Medium := li_Medium l;
            li_LengthM := li_LengthM l; li_Lifecycle := li_Lifecycle l; li_RowVersion := 1;
            li_BreakoutID := li_BreakoutID l; li_BreakoutPosition := li_BreakoutPosition l |});
      _ ← logCreateBatch NewID "link" linkID (link_struct_of l) breakoutID;
      mret l
  end.

Fixpoint strands (spec : BreakoutSpec) (breakoutID : string) (n : Z) (ends : list (string * string))
    : Tx AssetTables (list Link) :=
  match ends with
  | [] => mret []
  | (port, linkID) :: ends' =>
      l ← strand spec breakoutID n port linkID;
      ls ← strands spec breakoutID (n + 1) ends';
      mret (l :: ls)
  end.

(** [CreateBreakout] *)
Definition CreateBreakout (seen : AssetTables) (fates : nat -> Fate) (p : Permit) (now : Time) (spec : BreakoutSpec)
    (st : Store AssetTables) : (StoreError + list Link) * Store AssetTables :=
  match ValidateBreakout spec with
  | Some ve => (inl (Invalid ve), st)
  | None =>
      let '(breakout, st) := minted NewID 1 st in
      let breakoutID := List.hd "" breakout in
      let '(linkIDs, st) := minted NewID (length (bs_B spec)) st in
      match authorizeBreakoutSubjects seen p spec linkIDs with
      | inl e => (inl e, st)
      | inr permit => writeSerializable fates (Some permit) now (
          _ ← requireLiveInterface "a_interface_id" (bs_A spec);
          _ ← free_ports [bs_A spec];
          strands spec breakoutID 1 (combine (bs_B spec) linkIDs)) st
      end
  end.
End Operations.

(** ** Requests *)

Inductive CablingOp :=
  | OpCreateInterface (i : Interface)
  | OpUpdateInterface (i : Interface)
  | OpRetireInterface (id : string)
  | OpCreateLink (l : Link)
  | OpUpdateLink (l : Link)
  | OpRetireLink (id : string)
  | OpCreateBreakout (spec : BreakoutSpec).

Record CablingRequest := {
  cq_seen : AssetTables; cq_fates : nat -> Fate; cq_permit : Permit; cq_now : Time; cq_op : CablingOp
}.

Definition run_cabling `{Unicode} `{CodeRunes} (NewID : nat -> string) (st : Store AssetTables) (r : CablingRequest)
    : Store AssetTables :=
  let '(seen, p, now) := (cq_seen r, cq_permit r, cq_now r) in
  match cq_op r with
  | OpCreateInterface i => (CreateInterface NewID seen (cq_fates r 1) p now i st).2
  | OpUpdateInterface i => (UpdateInterface NewID seen (cq_fates r 1) p now i st).2
  | OpRetireInterface id => (RetireInterface NewID seen (cq_fates r 1) p now id st).2
  | OpCreateLink l => (CreateLink NewID seen (cq_fates r) p now l st).2
  | OpUpdateLink l => (UpdateLink NewID seen (cq_fates r 1) p now l st).2
  | OpRetireLink id => (RetireLink NewID seen (cq_fates r 1) p now id st).2
  | OpCreateBreakout spec => (CreateBreakout NewID seen (cq_fates r) p now spec st).2
  end.

(** [UPDATE interface SET updated_at = ?, row_version = row_version + 1], which the writers
    of a port's VLANs and of a radio's networks run beside their own tables. *)
Definition touched_port (at_ : string) (i : Interface) : Interface :=
  {| if_ID := if_ID i; if_AssetID := if_AssetID i; if_Name := if_Name i; if_FormFactor := if_FormFactor i;
     if_SpeedMbps := if_SpeedMbps i; if_MAC := if_MAC i; if_MTU := if_MTU i; if_LagParentID := if_LagParentID i;
     if_IsMgmt := if_IsMgmt i; if_Enabled := if_Enabled i; if_Lifecycle := if_Lifecycle i; if_CreatedAt := if_CreatedAt i;
     if_UpdatedAt := Some at_; if_RowVersion := if_RowVersion i + 1 |}.

(** The stores that requests reach from one without ports and cables, with the tables a
    read may have seen on the way. A write that is none of these requests leaves the
    cables as they are, and the ports too, or but for the time and the version of one. *)
Inductive history `{Unicode} `{CodeRunes} (NewID : nat -> string) : list AssetTables -> Store AssetTables -> Prop :=
  | history_starts st : pt_interfaces (st_tables st) = ∅ -> pt_links (st_tables st) = ∅ ->
      history NewID [st_tables st] st
  | history_asset visited st r : history NewID visited st ->
      history NewID (st_tables (run_request NewID st r) :: visited) (run_request NewID st r)
  | history_cabling visited st r : history NewID visited st -> cq_seen r ∈ visited ->
      history NewID (st_tables (run_cabling NewID st r) :: visited) (run_cabling NewID st r)
  | history_other visited st st' : history NewID visited st -> st_ids st <= st_ids st' ->
      pt_interfaces (st_tables st') = pt_interfaces (st_tables st) ->
      pt_links (st_tables st') = pt_links (st_tables st) -> history NewID (st_tables st' :: visited) st'
  | history_touch visited st st' id at_ : history NewID visited st -> st_ids st <= st_ids st' ->
      pt_interfaces (st_tables st') = alter (touched_port at_) id (pt_interfaces (st_tables st)) ->
      pt_links (st_tables st') = pt_links (st_tables st) -> history NewID (st_tables st' :: visited) st'.

(** * Lemmas *)

(** ** The invariant *)

Definition patched (l : Link) (port : string) : Prop := li_A l = port \/ li_B l = port.

(** Two live cables: a port they share is the near port of one breakout, and two strands
    of one breakout are one assembly. *)
Record compatible (l m : Link) : Prop := {
  co_port : forall port, patched l port -> patched m port ->
    li_A l = port /\ li_A m = port /\ exists b, li_BreakoutID l = Some b /\ li_BreakoutID m = Some b;
  co_strand : forall b, li_BreakoutID l = Some b -> li_BreakoutID m = Some b ->
    li_A l = li_A m /\ li_Medium l = li_Medium m /\ li_LengthM l = li_LengthM m /\
    li_BreakoutPosition l <> li_BreakoutPosition m
}.

#[export] Instance compatible_sym : Symmetric compatible.
Proof.
  intros l m [H1 H2]. split.
  - intros port Hm Hl. destruct (H1 port Hl Hm) as (? & ? & b & ? & ?). eauto.
  - intros b Hm Hl. destruct (H2 b Hl Hm) as (? & ? & ? & ?). eauto.
Qed.

Definition live_link (l : Link) : Prop := li_Lifecycle l = LifecycleActive.

Record cabling_ok (t : AssetTables) : Prop := {
  ck_ports : forall k i, pt_interfaces t !! k = Some i -> if_ID i = k;
  ck_names : forall k k' i i', pt_interfaces t !! k = Some i -> pt_interfaces t !! k' = Some i' ->
    if_AssetID i = if_AssetID i' -> if_Name i = if_Name i' -> k = k';
  ck_links : forall k l, pt_links t !! k = Some l -> li_ID l = k;
  ck_ends : forall k l, pt_links t !! k = Some l ->
    li_A l <> li_B l /\ is_Some (pt_interfaces t !! li_A l) /\ is_Some (pt_interfaces t !! li_B l);
  ck_bare : forall k l port i, pt_links t !! k = Some l -> live_link l -> patched l port ->
    pt_interfaces t !! port = Some i -> if_Lifecycle i <> LifecycleRetired;
  ck_pairs : forall k m l l', pt_links t !! k = Some l -> pt_links t !! m = Some l' -> k <> m ->
    live_link l -> live_link l' -> compatible l l'
}.

(** Every breakout took its identifier from the generator. *)
Definition minted_breakouts (NewID : nat -> string) (st : Store AssetTables) : Prop :=
  forall k l b, pt_links (st_tables st) !! k = Some l -> li_BreakoutID l = Some b ->
    exists n, n < st_ids st /\ b = NewID n.

(** What no write takes back: a port stays on its asset, a cable keeps its ends and its
    breakout, and a withdrawn cable stays withdrawn. *)
Record evolves (t t' : AssetTables) : Prop := {
  ev_ports : forall k i, pt_interfaces t !! k = Some i ->
    exists i', pt_interfaces t' !! k = Some i' /\ if_AssetID i' = if_AssetID i;
  ev_links : forall k l, pt_links t !! k = Some l ->
    exists l', pt_links t' !! k = Some l' /\ li_A l' = li_A l /\ li_B l' = li_B l /\
      li_BreakoutID l' = li_BreakoutID l /\ (live_link l' -> live_link l)
}.

#[export] Instance evolves_refl : Reflexive evolves.
Proof. intros t. split; eauto 10. Qed.
#[export] Instance evolves_trans : Transitive evolves.
Proof.
  intros t1 t2 t3 [P1 L1] [P2 L2]. split.
  - intros k i (i2 & H2 & E2)%P1. destruct (P2 _ _ H2) as (i3 & H3 & E3). exists i3. split; congruence.
  - intros k l (l2 & H2 & E2 & E2' & E2'' & F2)%L1. destruct (L2 _ _ H2) as (l3 & H3 & E3 & E3' & E3'' & F3).
    exists l3. split_and!; [congruence..|auto].
Qed.

(** Tables with the same ports and cables. *)
Definition same_cables (t t' : AssetTables) : Prop :=
  pt_interfaces t' = pt_interfaces t /\ pt_links t' = pt_links t.

Lemma cabling_ok_same t t' : same_cables t t' -> cabling_ok t -> cabling_ok t' /\ evolves t t'.
Proof.
  intros [Hi Hl] [H1 H2 H3 H4 H5 H6]. split.
  - split; rewrite ?Hi, ?Hl; eauto.
  - split; rewrite ?Hi, ?Hl; eauto 10.
Qed.

(** A store that went on from another. *)
Definition advances (NewID : nat -> string) (st st' : Store AssetTables) : Prop :=
  cabling_ok (st_tables st) -> minted_breakouts NewID st ->
  cabling_ok (st_tables st') /\ minted_breakouts NewID st' /\ evolves (st_tables st) (st_tables st') /\
  st_ids st <= st_ids st'.

#[export] Instance advances_refl NewID : Reflexive (advances NewID).
Proof. intros st H1 H2. split_and!; [done..|lia]. Qed.
#[export] Instance advances_trans NewID : Transitive (advances NewID).
Proof.
  intros s1 s2 s3 H12 H23 Hok Hm. destruct (H12 Hok Hm) as (Hok2 & Hm2 & He2 & Hn2).
  destruct (H23 Hok2 Hm2) as (Hok3 & Hm3 & He3 & Hn3). split_and!; [done..|by etransitivity|lia].
Qed.

(** New tables whose breakouts were already there. *)
Lemma advances_tables NewID st t' log' ids' :
  st_ids st <= ids' ->
  (cabling_ok (st_tables st) -> cabling_ok t' /\ evolves (st_tables st) t') ->
  (cabling_ok (st_tables st) -> forall k l', pt_links t' !! k = Some l' -> li_BreakoutID l' = None \/
     exists m l, pt_links (st_tables st) !! m = Some l /\ li_BreakoutID l' = li_BreakoutID l) ->
  advances NewID st (MkStore t' log' ids').
Proof.
  intros Hids Hok Hb Hc Hm. destruct (Hok Hc) as [Hc' He]. split_and!; [done| |done|done].
  intros k l' b Hl' Hbr. destruct (Hb Hc _ _ Hl') as [Hn|(m & l & Hl & E)]; [congruence|].
  destruct (Hm m l b Hl) as (n & Hn & ->); [congruence|]. exists n. cbn. split; [lia|done].
Qed.

(** ** Statements keep the invariant *)

Lemma is_live_spec lifecycle : is_live lifecycle = true <-> lifecycle = LifecycleActive.
Proof. apply String.eqb_eq. Qed.

Lemma is_patched_spec l port : is_patched l port = true <-> patched l port.
Proof. unfold is_patched, patched. by rewrite orb_true_iff, !String.eqb_eq. Qed.

Lemma rows_elem {K V} `{Countable K} (m : gmap K V) v : v ∈ (map_to_list m).*2 <-> exists k, m !! k = Some v.
Proof.
  rewrite list_elem_of_fmap. split.
  - intros ([k v'] & -> & Hin%elem_of_map_to_list). by exists k.
  - intros [k Hk]. exists (k, v). split; [done|by apply elem_of_map_to_list].
Qed.

Lemma patches_none ports t :
  patches ports t = 0 <-> forall k l port, pt_links t !! k = Some l -> live_link l -> port ∈ ports -> ~ patched l port.
Proof.
  unfold patches. split.
  - intros Hz k l port Hk Hl Hp Hpat. assert (l ∈ (map_to_list (pt_links t)).*2) as Hin by (apply rows_elem; eauto).
    unfold count_if in Hz. apply length_zero_iff_nil in Hz.
    assert (In l []) as []. rewrite <- Hz. apply filter_In. split; [by apply list_elem_of_In|].
    apply andb_true_iff. split; [by apply is_live_spec|]. apply existsb_exists. exists port.
    split; [by apply list_elem_of_In|by apply is_patched_spec].
  - intros Hf. unfold count_if. apply length_zero_iff_nil. destruct (List.filter _ _) as [|l ls] eqn:E; [done|].
    assert (In l (l :: ls)) as Hin by by left. rewrite <- E in Hin. apply filter_In in Hin as [Hin Hb].
    apply list_elem_of_In, rows_elem in Hin as [k Hk]. apply andb_true_iff in Hb as [Hl%is_live_spec Hb].
    apply existsb_exists in Hb as (port & Hp%list_elem_of_In & Hpat%is_patched_spec). by destruct (Hf k l port Hk Hl Hp).
Qed.

Lemma put_link_inv l t t' : put_link l t = inr t' ->
  li_A l <> li_B l /\ is_Some (pt_interfaces t !! li_A l) /\ is_Some (pt_interfaces t !! li_B l) /\
  t' = with_links (<[li_ID l := l]> (pt_links t)) t /\
  (li_Lifecycle l <> LifecycleRetired -> position_taken l t = false).
Proof.
  unfold put_link. destruct (String.eqb_spec (li_A l) (li_B l)); [done|]. cbn [orb].
  destruct (_ || _); [done|]. destruct (String.eqb_spec (li_Lifecycle l) LifecycleRetired) as [E|E]; cbn.
  - repeat case_bool_decide; try done. intros [= <-]. split_and!; [done|by apply not_eq_None_Some..|done|done].
  - destruct (position_taken l t); [done|]. repeat case_bool_decide; try done. intros [= <-].
    split_and!; [done|by apply not_eq_None_Some..|done|done].
Qed.

Lemma links_insert t l :
  cabling_ok t -> li_A l <> li_B l -> is_Some (pt_interfaces t !! li_A l) -> is_Some (pt_interfaces t !! li_B l) ->
  (live_link l -> forall port i, patched l port -> pt_interfaces t !! port = Some i -> if_Lifecycle i <> LifecycleRetired) ->
  (live_link l -> forall k m, pt_links t !! k = Some m -> k <> li_ID l -> live_link m -> compatible l m) ->
  cabling_ok (with_links (<[li_ID l := l]> (pt_links t)) t).
Proof.
  intros [H1 H2 H3 H4 H5 H6] Hne HA HB Hbare Hpairs. split; cbn [pt_interfaces pt_links with_links]; [done|done| | | |].
  - intros k m. rewrite lookup_insert_Some. intros [[<- <-]|[_ Hk]]; eauto.
  - intros k m. rewrite lookup_insert_Some. intros [[<- <-]|[_ Hk]]; [done|eauto].
  - intros k m port i. rewrite lookup_insert_Some. intros [[<- <-]|[_ Hk]]; eauto.
  - intros k k' m m'. rewrite !lookup_insert_Some. intros [[<- <-]|[Hn Hk]] [[<- <-]|[Hn' Hk']] Hd Hl Hl'; [done|..|by eapply H6].
    + by eapply Hpairs.
    + symmetry. by eapply Hpairs.
Qed.

Lemma evolves_insert t l :
  (forall m, pt_links t !! li_ID l = Some m ->
     li_A l = li_A m /\ li_B l = li_B m /\ li_BreakoutID l = li_BreakoutID m /\ (live_link l -> live_link m)) ->
  evolves t (with_links (<[li_ID l := l]> (pt_links t)) t).
Proof.
  intros Hrow. split; cbn [pt_interfaces pt_links with_links]; [eauto|]. intros k m Hk.
  destruct (decide (li_ID l = k)) as [<-|Hn].
  - exists l. rewrite lookup_insert_eq. eauto.
  - exists m. rewrite lookup_insert_ne by done. eauto 10.
Qed.

Lemma insert_link_row_inv l t t' : insert_link_row l t = inr t' -> pt_links t !! li_ID l = None /\ put_link l t = inr t'.
Proof. unfold insert_link_row. case_bool_decide as Hn; [done|]. by apply eq_None_not_Some in Hn. Qed.

(** A cable into free live ports. *)
Lemma plain_link_ok t t' l :
  cabling_ok t -> li_BreakoutID l = None -> insert_link_row l t = inr t' -> patches [li_A l; li_B l] t = 0 ->
  (forall port i, patched l port -> pt_interfaces t !! port = Some i -> if_Lifecycle i <> LifecycleRetired) ->
  cabling_ok t' /\ evolves t t'.
Proof.
  intros Hok Hb [Hfresh (Hne & HA & HB & -> & _)%put_link_inv]%insert_link_row_inv Hfree Hlive. split.
  - apply links_insert; [done..|]. intros _ k m Hk _ Hm. split; [|congruence]. intros port Hl Hport. exfalso.
    rewrite patches_none in Hfree. apply (Hfree k m port Hk Hm); [|done]. destruct Hl as [<-| <-]; set_solver.
  - apply evolves_insert. congruence.
Qed.

(** A cable that only loses its place among the live ones. *)
Lemma retired_cable_ok t k : cabling_ok t ->
  cabling_ok (with_links (alter retired_cable k (pt_links t)) t) /\ evolves t (with_links (alter retired_cable k (pt_links t)) t).
Proof.
  intros Hok. destruct (pt_links t !! k) as [l|] eqn:E.
  - assert (alter retired_cable k (pt_links t) = <[li_ID (retired_cable l) := retired_cable l]> (pt_links t)) as ->.
    { cbn [li_ID retired_cable]. rewrite (ck_links _ Hok _ _ E). apply map_eq. intros j.
      destruct (decide (k = j)) as [<-|Hn]; [by rewrite lookup_alter_eq, E, lookup_insert_eq|].
      by rewrite lookup_alter_ne, lookup_insert_ne. }
    destruct (ck_ends _ Hok _ _ E) as (H1 & H2 & H3). split; [by apply links_insert|]. apply evolves_insert.
    cbn [li_ID retired_cable]. rewrite (ck_links _ Hok _ _ E), E. by intros m [= <-].
  - assert (alter retired_cable k (pt_links t) = pt_links t) as ->.
    { apply map_eq. intros j. destruct (decide (k = j)) as [<-|Hn]; [by rewrite lookup_alter_eq, E|by rewrite lookup_alter_ne]. }
    by apply cabling_ok_same.
Qed.

Lemma advances_retired_cable NewID st k log' :
  advances NewID st (MkStore (with_links (alter retired_cable k (pt_links (st_tables st))) (st_tables st)) log' (st_ids st)).
Proof.
  apply advances_tables; [lia|apply retired_cable_ok|]. intros _ j l'. cbn [pt_links with_links].
  rewrite lookup_alter_Some. intros [(-> & l & Hl & ->)|[_ Hl]]; eauto.
Qed.

(** ** Ports *)

(** A new or rewritten port. *)
Lemma ports_insert t i :
  cabling_ok t ->
  (forall k j, pt_interfaces t !! k = Some j -> if_AssetID j = if_AssetID i -> if_Name j = if_Name i -> k = if_ID i) ->
  (forall j, pt_interfaces t !! if_ID i = Some j -> if_AssetID j = if_AssetID i) ->
  (if_Lifecycle i = LifecycleRetired -> forall k l, pt_links t !! k = Some l -> live_link l -> ~ patched l (if_ID i)) ->
  cabling_ok (with_interfaces (<[if_ID i := i]> (pt_interfaces t)) t) /\
  evolves t (with_interfaces (<[if_ID i := i]> (pt_interfaces t)) t).
Proof.
  intros [H1 H2 H3 H4 H5 H6] Hname Hasset Hbare. split; [split; cbn [pt_interfaces pt_links with_interfaces]|].
  - intros k j. rewrite lookup_insert_Some. intros [[<- <-]|[_ Hk]]; eauto.
  - intros k k' j j'. rewrite !lookup_insert_Some. intros [[<- <-]|[Hn Hk]] [[<- <-]|[Hn' Hk']] Ha Hnm; [done| | |eauto].
    + symmetry. by eapply Hname.
    + by eapply Hname.
  - done.
  - intros k l Hk. destruct (H4 k l Hk) as (? & HA & HB). split; [done|].
    rewrite !lookup_insert_is_Some'. auto.
  - intros k l port j Hk Hl Hp. rewrite lookup_insert_Some. intros [[<- <-]|[_ Hj]]; [|eauto].
    intros Hr. by eapply Hbare.
  - done.
  - split; cbn [pt_interfaces pt_links with_interfaces]; [|eauto 10]. intros k j Hk.
    destruct (decide (if_ID i = k)) as [<-|Hn]; [|exists j; by rewrite lookup_insert_ne].
    exists i. rewrite lookup_insert_eq. split; [done|]. symmetry. by apply Hasset.
Qed.

Lemma insert_interface_inv i t t' : insert_interface i t = inr t' ->
  pt_interfaces t !! if_ID i = None /\ t' = with_interfaces (<[if_ID i := i]> (pt_interfaces t)) t /\
  forall k j, pt_interfaces t !! k = Some j -> if_AssetID j = if_AssetID i -> if_Name j = if_Name i -> False.
Proof.
  unfold insert_interface. destruct (bool_decide (is_Some (pt_interfaces t !! if_ID i))) eqn:Hf; [done|].
  apply bool_decide_eq_false, eq_None_not_Some in Hf. cbn [orb].
  destruct (existsb _ _) eqn:He; [done|]. destruct (_ || _); [done|]. intros [= <-]. split_and!; [done..|].
  rewrite existsb_rows in He. intros k j Hk Ha Hn. specialize (He k j Hk). by rewrite Ha, Hn, !String.eqb_refl in He.
Qed.

Lemma put_port_inv i t t' : put_port i t = inr t' ->
  t' = with_interfaces (<[if_ID i := i]> (pt_interfaces t)) t /\
  forall k j, pt_interfaces t !! k = Some j -> if_AssetID j = if_AssetID i -> if_Name j = if_Name i -> if_ID j = if_ID i.
Proof.
  unfold put_port. destruct (negb _); [done|]. destruct (existsb _ _) eqn:He; [done|]. destruct (negb _); [done|].
  intros [= <-]. split; [done|]. rewrite existsb_rows in He. intros k j Hk Ha Hn. specialize (He k j Hk).
  rewrite Ha, Hn, !String.eqb_refl in He. cbn [andb] in He. by apply negb_false_iff, String.eqb_eq in He.
Qed.

(** A port of a template; it names an asset without live cables in a port of its key. *)
Lemma insert_interface_ok i t t' : cabling_ok t -> insert_interface i t = inr t' -> cabling_ok t' /\ evolves t t'.
Proof.
  intros Hok (Hf & -> & Hn)%insert_interface_inv. apply ports_insert; [done| | |].
  - intros k j Hk Ha Hnm. by destruct (Hn k j).
  - congruence.
  - intros _ k l Hk _ Hp. destruct (ck_ends _ Hok k l Hk) as (_ & HA & HB). destruct Hp as [Hp|Hp];
      rewrite Hp, Hf in *; by destruct HA, HB.
Qed.

Lemma update_port_ok id version f t t' :
  cabling_ok t -> update_port id version f t = inr t' ->
  (forall row, if_ID (f row) = if_ID row /\ if_AssetID (f row) = if_AssetID row) ->
  (forall row, pt_interfaces t !! id = Some row -> if_Lifecycle (f row) = LifecycleRetired ->
     forall k l, pt_links t !! k = Some l -> live_link l -> ~ patched l id) ->
  cabling_ok t' /\ evolves t t'.
Proof.
  intros Hok. unfold update_port. destruct (pt_interfaces t !! id) as [row|] eqn:E; [|done].
  destruct (_ =? _)%Z; [|done]. intros [-> Hn]%put_port_inv Hf Hbare. destruct (Hf row) as [Hid Ha].
  pose proof (ck_ports _ Hok _ _ E) as Hkey. apply ports_insert; [done|..]; rewrite Hid, Hkey in *.
  - intros k j Hk Hja Hjn. pose proof (Hn k j Hk Hja Hjn) as Hj. by rewrite (ck_ports _ Hok _ _ Hk) in Hj.
  - intros j Hj. congruence.
  - intros Hr. by eapply Hbare.
Qed.

(** ** Bodies of transactions *)

Section Advancing.
Context `{Unicode} `{CodeRunes} (NewID : nat -> string).

Definition advancing {A} (m : Tx AssetTables A) : Prop :=
  forall env st a st', m env st = inr (a, st') -> advances NewID st st'.

Lemma advances_same st st' :
  same_cables (st_tables st) (st_tables st') -> st_ids st <= st_ids st' -> advances NewID st st'.
Proof.
  intros Hs Hi. destruct st' as [t' log' ids']. apply advances_tables; [done|intros; by apply cabling_ok_same|].
  intros _ k l'. cbn in Hs. destruct Hs as [_ ->]. eauto.
Qed.

Lemma advancing_ret {A} (a : A) : advancing (mret a).
Proof. by intros env st x st' [-> ->]%ret_inv. Qed.
Lemma advancing_fail {A} e : advancing (fail e : Tx AssetTables A).
Proof. by intros env st x st'. Qed.
Lemma advancing_query {A} (f : AssetTables -> A) : advancing (query f).
Proof. by intros env st x st' [-> ->]%query_inv. Qed.
Lemma advancing_bind {A B} (m : Tx AssetTables A) (f : A -> Tx AssetTables B) :
  advancing m -> (forall a, advancing (f a)) -> advancing (m ≫= f).
Proof. intros Hm Hf env st b st' (a & st1 & H1 & H2)%bind_inv. transitivity st1; [by eapply Hm|by eapply Hf]. Qed.
Lemma advancing_newID : advancing (newID NewID).
Proof. intros env st a st' [= _ <-]. apply advances_same; [done|cbn; lia]. Qed.
Lemma advancing_authorize t id : advancing (authorize t id).
Proof. by intros env st a st' [_ ->]%authorize_inv. Qed.
Lemma advancing_log t id action d b : advancing (log NewID t id action d b).
Proof.
  unfold log. apply advancing_bind; [apply advancing_authorize|]. intros _. apply advancing_bind; [apply advancing_newID|].
  intros x env st a st' [= _ <-]. by apply advances_same.
Qed.
Lemma advancing_logCreate t id s : advancing (logCreate NewID t id s).
Proof. apply advancing_log. Qed.
Lemma advancing_logUpdate t id b s : advancing (logUpdate NewID t id b s).
Proof.
  apply advancing_bind; [apply advancing_authorize|]. intros _.
  destruct (diffJSON b s) as [|[d|]]; [apply advancing_fail|apply advancing_log|apply advancing_ret].
Qed.
Lemma advancing_each {A} (f : A -> Tx AssetTables unit) l : (forall x, advancing (f x)) -> advancing (each f l).
Proof. intros Hf. induction l; [apply advancing_ret|]. by apply advancing_bind. Qed.

(** A statement on other tables. *)
Lemma advancing_elsewhere f : (forall t t', f t = inr t' -> same_cables t t') -> advancing (statement f).
Proof.
  intros Hf env st a st' Hrun. unfold statement in Hrun. destruct (f (st_tables st)) as [|t'] eqn:E; [done|].
  injection Hrun as _ <-. by apply advances_same; [apply Hf|cbn].
Qed.
Lemma advancing_insert_interface i : advancing (statement (insert_interface i)).
Proof.
  intros env st a st' Hrun. unfold statement in Hrun. destruct (insert_interface _ _) as [|t'] eqn:E; [done|].
  injection Hrun as _ <-. apply advances_tables; [lia|intros; by eapply insert_interface_ok|].
  apply insert_interface_inv in E as (_ & -> & _). cbn. eauto.
Qed.
End Advancing.

Create HintDb advancing.
#[export] Hint Resolve advancing_ret advancing_fail advancing_query advancing_newID advancing_authorize advancing_log
  advancing_logCreate advancing_logUpdate advancing_insert_interface : advancing.

Ltac advance :=
  repeat first
    [ progress intros
    | solve [auto with advancing]
    | apply advancing_bind
    | apply advancing_each
    | match goal with |- advancing _ (match ?x with _ => _ end) => destruct x end ].

(** A statement that leaves the ports and the cables alone, by its cases. *)
Ltac elsewhere := apply advancing_elsewhere; intros ? ?; repeat case_match; intros; simplify_eq; done.

Section AssetBodies.
Context `{Unicode} `{CodeRunes} (NewID : nat -> string).

Lemma put_asset_elsewhere a t t' : put_asset a t = inr t' -> same_cables t t'.
Proof. unfold put_asset. repeat case_match; intros; simplify_eq; done. Qed.

Lemma advancing_on_closure f : advancing NewID (on_closure f).
Proof. unfold on_closure. elsewhere. Qed.
Lemma advancing_requireVocabulary (codes : AssetTables -> list string) field value : advancing NewID (requireVocabulary codes field value).
Proof. unfold requireVocabulary. advance. Qed.
Lemma advancing_requireRole role : advancing NewID (requireRole role).
Proof. unfold requireRole. advance; apply advancing_requireVocabulary. Qed.
Lemma advancing_requireUniqueSiblingName f n p l e : advancing NewID (requireUniqueSiblingName f n p l e).
Proof. unfold requireUniqueSiblingName. advance. Qed.
Lemma advancing_requireNoReplacementCycle id r : advancing NewID (requireNoReplacementCycle id r).
Proof. unfold requireNoReplacementCycle. advance. Qed.
Lemma advancing_setAssetEnvironments id envs : advancing NewID (setAssetEnvironments id envs).
Proof. unfold setAssetEnvironments, insert_membership. advance; elsewhere. Qed.
Lemma advancing_instantiate assetID cs ids at_ : advancing NewID (instantiateInterfaceComponents NewID assetID cs ids at_).
Proof. unfold instantiateInterfaceComponents. apply advancing_each. intros [c id]. unfold instantiate_one. advance. Qed.
Lemma advancing_newIDs n : advancing NewID (newIDs NewID n).
Proof. induction n; cbn [newIDs]; advance. Qed.
#[local] Hint Resolve advancing_on_closure advancing_requireVocabulary advancing_requireRole
  advancing_requireUniqueSiblingName advancing_requireNoReplacementCycle advancing_setAssetEnvironments
  advancing_instantiate advancing_newIDs : advancing.
Lemma advancing_insertClosure id p : advancing NewID (insertClosureForNewNode id p).
Proof. unfold insertClosureForNewNode. advance. Qed.
Lemma advancing_instantiateComponents a planned at_ : advancing NewID (instantiateComponents NewID a planned at_).
Proof. unfold instantiateComponents. advance. Qed.
#[local] Hint Resolve advancing_insertClosure advancing_instantiateComponents : advancing.

Lemma advancing_insertAsset a envs codes planned at_ : advancing NewID (insertAsset NewID a envs codes planned at_).
Proof.
  unfold insertAsset. advance. apply advancing_elsewhere. intros t t'. unfold insert_asset.
  case_match; [done|]. apply put_asset_elsewhere.
Qed.
Lemma advancing_insertProjectAssetLink project id at_ : advancing NewID (insertProjectAssetLink NewID project id at_).
Proof. unfold insertProjectAssetLink, insert_owner. advance. elsewhere. Qed.
Lemma advancing_reparent_body before id q at_ : advancing NewID (reparent_body NewID before id q at_).
Proof.
  unfold reparent_body. advance. apply advancing_elsewhere. intros t t'. unfold update_parent.
  case_match; [apply put_asset_elsewhere|]. by intros [= <-].
Qed.
Lemma advancing_retireAssetTopology id at_ : advancing NewID (retireAssetTopology NewID id at_).
Proof.
  unfold retireAssetTopology, retire_member, retire_attachment, retire_cable, retire_one.
  advance; [by apply advancing_elsewhere; intros t t' [= <-]..|].
  intros env st u st' Hrun. injection Hrun as _ <-. apply advances_retired_cable.
Qed.
#[local] Hint Resolve advancing_insertAsset advancing_insertProjectAssetLink advancing_reparent_body
  advancing_retireAssetTopology : advancing.

(** A write advances the store when its body does. *)
Lemma advances_written {A} p now (fn : Tx AssetTables A) st res :
  advancing NewID fn -> written_by p now fn st res -> advances NewID st res.2.
Proof. intros Hf [e|x st' E]; [done|]. by eapply Hf. Qed.

Lemma advances_minted n st : advances NewID st (minted NewID n st).2.
Proof. apply advances_same; [done|cbn; lia]. Qed.

(** A request on assets. *)
Lemma run_request_advances st r : advances NewID st (run_request NewID st r).
Proof.
  unfold run_request. destruct (rq_op r) as [a envs|project a|a envs custom tags|id q|id|id].
  - unfold CreateAsset. destruct (creatable _ a); [done|]. eapply advances_written, write_written. advance.
  - unfold CreateAssetInProject. destruct (ValidateAsset _) as [b [ve|]]; [done|]. destruct (negb _); [done|].
    destruct (rack_space _ _); [done|]. cbv zeta. destruct (minted _ _ _) as [ids st1] eqn:E.
    transitivity st1; [change st1 with (ids, st1).2; rewrite <- E; apply advances_minted|].
    eapply advances_written, write_written. advance.
  - unfold UpdateAsset. destruct (ValidateAsset a) as [b [ve|]]; [done|]. destruct (pt_assets _ !! _); [|done].
    cbv zeta. destruct (rack_space _ _); [done|]. eapply advances_written, write_written. advance.
    apply advancing_elsewhere. intros t t'. unfold update_asset. repeat case_match; try done. apply put_asset_elsewhere.
  - unfold ReparentAsset. destruct (pt_assets _ !! _); [|done]. cbv zeta. case_bool_decide; [done|].
    eapply advances_written, write_written. advance.
  - unfold RetireAsset. destruct (pt_assets _ !! _); [|done]. destruct (IsRetired _); [done|].
    eapply advances_written, writeSerializable_written. advance. apply advancing_elsewhere. intros t t'.
    unfold update_retired. case_match; [apply put_asset_elsewhere|]. by intros [= <-].
  - unfold ApplyTemplate. destruct (negb _); [done|]. destruct (pt_assets _ !! _); [|done].
    destruct (as_DeviceTypeID _) as [model|]; [|done]. cbv zeta. destruct (missingTemplateComponents _ _ _) as [|c cs] eqn:Em; [done|].
    rewrite <- Em. destruct (minted _ _ _) as [ids st1] eqn:E.
    transitivity st1; [change st1 with (ids, st1).2; rewrite <- E; apply advances_minted|].
    eapply advances_written, write_written. advance.
Qed.
End AssetBodies.

(** ** What a request changes *)

Definition port_covered (p : Permit) (t : AssetTables) (k : string) : Prop :=
  exists i, pt_interfaces t !! k = Some i /\ Covers p "asset" (if_AssetID i) = true.

Definition cable_covered (p : Permit) (t : AssetTables) (k : string) : Prop :=
  exists l, pt_links t !! k = Some l /\ port_covered p t (li_A l) /\ port_covered p t (li_B l).

(** The tables but for the ports and the cables. *)
Definition uncabled (t : AssetTables) : AssetTables := with_interfaces ∅ (with_links ∅ t).

(** A change to ports and cables whose assets the permit covers, logged in its actor's name. *)
Record within_permit (p : Permit) (st st' : Store AssetTables) : Prop := {
  wp_ports : forall k, pt_interfaces (st_tables st') !! k <> pt_interfaces (st_tables st) !! k ->
    port_covered p (st_tables st') k;
  wp_links : forall k, pt_links (st_tables st') !! k <> pt_links (st_tables st) !! k ->
    cable_covered p (st_tables st') k;
  wp_rest : uncabled (st_tables st') = uncabled (st_tables st);
  wp_log : exists rows, st_log st' = st_log st ++ rows /\
    Forall (fun r => cr_Actor r = ac_ID (PermitActor p) /\
      (cr_EntityType r = "interface" /\ port_covered p (st_tables st') (cr_EntityID r) \/
       cr_EntityType r = "link" /\ cable_covered p (st_tables st') (cr_EntityID r))) rows
}.

Lemma within_permit_refl p st st' : st_tables st' = st_tables st -> st_log st' = st_log st -> within_permit p st st'.
Proof. intros Ht Hl. split; rewrite ?Ht; [done..|]. exists []. by rewrite Hl, app_nil_r. Qed.

Lemma narrow_Covers p entityType ids t id :
  entityType ∈ ["interface"; "link"; "dependency"] -> Covers (narrow p entityType ids) t id = true <-> t = entityType /\ id ∈ ids.
Proof.
  intros Hty. unfold narrow.
  assert (forall t id, covers {[ entityType := list_to_map ((fun id => (id, true)) <$> ids) ]} t id = true <->
    t = entityType /\ id ∈ ids) as Hcov.
  { intros u x. rewrite covers_spec. split.
    - intros (m & [<- <-]%lookup_singleton_Some & Hx). split; [done|].
      by apply elem_of_list_to_map_2, list_elem_of_fmap in Hx as (y & [= ->] & Hy).
    - intros [-> Hx]. eexists. split; [apply lookup_singleton_eq|].
      apply elem_of_list_to_map_1'; [|apply list_elem_of_fmap; eauto].
      by intros y (z & [= -> ->] & _)%list_elem_of_fmap. }
  rewrite scoped_Covers, Hcov. split.
  - intros [[_ ?]|(P & ty & e & _ & _ & _ & HP%not_elem_of_nil & _)]; done.
  - intros [-> Hx]. left. split; [|done]. right. rewrite !elem_of_cons, elem_of_nil in Hty.
    by destruct Hty as [->|[->|[->|[]]]].
Qed.

Lemma narrow_port p ids t id : Covers (narrow p "interface" ids) t id = true -> t = "interface" /\ id ∈ ids.
Proof. apply narrow_Covers, list_elem_of_here. Qed.

Lemma narrow_cable p ids t id : Covers (narrow p "link" ids) t id = true -> t = "link" /\ id ∈ ids.
Proof. apply narrow_Covers, list_elem_of_further, list_elem_of_here. Qed.

Section Effects.
Context `{Unicode} `{CodeRunes} (NewID : nat -> string).

Lemma guarded_requireLiveInterface field port : guarded (requireLiveInterface field port).
Proof. unfold requireLiveInterface. guarding. Qed.
Lemma guarded_free_ports ports : guarded (free_ports ports).
Proof. unfold free_ports. guarding. Qed.
Lemma guarded_requireNoBreakoutDrift b e m l : guarded (requireNoBreakoutDrift b e m l).
Proof. unfold requireNoBreakoutDrift. guarding. Qed.
Lemma guarded_unattached port a : guarded (unattached port a).
Proof. unfold unattached. guarding. Qed.
#[local] Hint Resolve guarded_requireLiveInterface guarded_free_ports guarded_requireNoBreakoutDrift
  guarded_unattached guarded_requireVocabulary guarded_each : tx.
Lemma guarded_strand spec b n port id : guarded (strand NewID spec b n port id).
Proof. unfold strand, logCreateBatch. guarding. Qed.
#[local] Hint Resolve guarded_strand : tx.
Lemma guarded_strands spec b n ends : guarded (strands NewID spec b n ends).
Proof. revert n. induction ends as [|[port id] ends IH]; intros n; cbn [strands]; guarding. Qed.

(** A row of a table of ports, or of cables, replaced under a permit for it alone. *)
Lemma permitted_port {A} p now (fn : Tx AssetTables A) st a st' i id :
  guarded fn -> fn (env_of (Some (narrow p "interface" [id])) now) st = inr (a, st') -> id = if_ID i ->
  st_tables st' = with_interfaces (<[if_ID i := i]> (pt_interfaces (st_tables st))) (st_tables st) ->
  Covers p "asset" (if_AssetID i) = true -> within_permit p st st'.
Proof.
  intros Hg Hrun -> Ht Hc.
  assert (port_covered p (st_tables st') (if_ID i)) as Hp by (exists i; by rewrite Ht; cbn; rewrite lookup_insert_eq).
  split; [intros k Hk..| |].
  - rewrite Ht in Hk. cbn in Hk. destruct (decide (if_ID i = k)) as [<-|Hn]; [done|by rewrite lookup_insert_ne in Hk].
  - by rewrite Ht in Hk.
  - by rewrite Ht.
  - destruct (Hg _ _ _ _ Hrun) as [(rows & Hrows & Hs) _]. exists rows. split; [done|].
    eapply Forall_impl; [exact Hs|]. intros r ((q & [= <-] & Hq) & Ha & _). split; [exact Ha|]. left.
    apply narrow_port in Hq as [Ht' Hid%list_elem_of_singleton]. by rewrite Hid.
Qed.

Lemma permitted_cables {A} p now (fn : Tx AssetTables A) st a st' ls ids :
  guarded fn -> fn (env_of (Some (narrow p "link" ids)) now) st = inr (a, st') ->
  st_tables st' = with_links ls (st_tables st) ->
  (forall k, k ∉ ids -> ls !! k = pt_links (st_tables st) !! k) ->
  (forall k, k ∈ ids -> cable_covered p (st_tables st') k) -> within_permit p st st'.
Proof.
  intros Hg Hrun Ht Hout Hin. split; [intros k Hk..| |].
  - by rewrite Ht in Hk.
  - destruct (decide (k ∈ ids)) as [Hi|Hi]; [by apply Hin|]. rewrite Ht in Hk. by destruct Hk; apply Hout.
  - by rewrite Ht.
  - destruct (Hg _ _ _ _ Hrun) as [(rows & Hrows & Hs) _]. exists rows. split; [done|].
    eapply Forall_impl; [exact Hs|]. intros r ((q & [= <-] & Hq) & Ha & _). split; [exact Ha|]. right.
    apply narrow_cable in Hq as [Ht' Hq]. auto.
Qed.

(** A write that stays within its permit and advances the store. *)
Definition sound (p : Permit) (st st' : Store AssetTables) : Prop :=
  cabling_ok (st_tables st) -> within_permit p st st' /\ advances NewID st st'.

Lemma sound_refl p st : sound p st st.
Proof. intros _. split; [by apply within_permit_refl|done]. Qed.

Lemma sound_written {A} p permit now (fn : Tx AssetTables A) st res :
  (forall a st', fn (env_of (Some permit) now) st = inr (a, st') -> sound p st st') ->
  written_by (Some permit) now fn st res -> sound p st res.2.
Proof. intros Hf [e|a st' Hrun]; [apply sound_refl|by eapply Hf]. Qed.

(** ** Ports *)

Lemma update_port_inv id version f t t' : update_port id version f t = inr t' ->
  exists row, pt_interfaces t !! id = Some row /\ if_RowVersion row = version /\
    t' = with_interfaces (<[if_ID (f row) := f row]> (pt_interfaces t)) t.
Proof.
  unfold update_port. destruct (pt_interfaces t !! id) as [row|]; [|done].
  destruct (Z.eqb_spec (if_RowVersion row) version); [|done]. intros [-> _]%put_port_inv. eauto.
Qed.

Lemma retired_port_spec assetID name t i : retired_port assetID name t = Some i ->
  (exists k, pt_interfaces t !! k = Some i) /\ if_AssetID i = assetID /\ if_Name i = name /\ if_Lifecycle i = LifecycleRetired.
Proof.
  unfold retired_port. intros [Hin%list_elem_of_In%rows_elem Hb]%List.find_some.
  apply andb_true_iff in Hb as [[Ha%String.eqb_eq Hn%String.eqb_eq]%andb_true_iff Hl%String.eqb_eq]. done.
Qed.

Lemma advances_update_port st id version f log' ids' t' :
  update_port id version f (st_tables st) = inr t' -> st_ids st <= ids' ->
  (forall row, if_ID (f row) = if_ID row /\ if_AssetID (f row) = if_AssetID row) ->
  (cabling_ok (st_tables st) -> forall row, pt_interfaces (st_tables st) !! id = Some row ->
     if_Lifecycle (f row) = LifecycleRetired ->
     forall k l, pt_links (st_tables st) !! k = Some l -> live_link l -> ~ patched l id) ->
  advances NewID st (MkStore t' log' ids').
Proof.
  intros Hup Hids Hf Hbare. apply advances_tables; [done|intros Hok; by eapply update_port_ok; eauto|].
  intros _ k l'. apply update_port_inv in Hup as (row & _ & _ & ->). cbn. eauto.
Qed.

(** The statement of a transaction on a port, and what follows it. *)
Lemma sound_update_port {A} p now id version f (rest : Tx AssetTables A) st a st' :
  guarded rest -> advancing NewID rest -> (forall env s x s', rest env s = inr (x, s') -> st_tables s' = st_tables s) ->
  (_ ← statement (update_port id version f); rest) (env_of (Some (narrow p "interface" [id])) now) st = inr (a, st') ->
  (forall row, if_ID (f row) = if_ID row /\ if_AssetID (f row) = if_AssetID row) ->
  (cabling_ok (st_tables st) -> forall row, pt_interfaces (st_tables st) !! id = Some row ->
     Covers p "asset" (if_AssetID row) = true /\ (if_Lifecycle (f row) = LifecycleRetired ->
     forall k l, pt_links (st_tables st) !! k = Some l -> live_link l -> ~ patched l id)) ->
  sound p st st'.
Proof.
  intros Hg Hadv Hkeep Hrun Hf Hrow Hok. pose proof Hrun as Hwhole.
  apply bind_inv in Hrun as (u & s1 & H1 & H2). unfold statement in H1.
  destruct (update_port id version f (st_tables st)) as [|t'] eqn:Hup; [done|]. injection H1 as _ <-.
  pose proof (update_port_inv _ _ _ _ _ Hup) as (row & Hk & _ & ->). destruct (Hf row) as [Hid Ha].
  split.
  - eapply (permitted_port p now _ st a st' (f row) id); [|exact Hwhole|..].
    + by apply guarded_bind; [apply guarded_statement|].
    + by rewrite Hid, (ck_ports _ Hok _ _ Hk).
    + by rewrite (Hkeep _ _ _ _ H2).
    + rewrite Ha. by apply (Hrow Hok).
  - etransitivity; [|by eapply Hadv]. eapply advances_update_port; [exact Hup|done|done|].
    intros Hok' row' Hrow'. by apply (Hrow Hok').
Qed.

Lemma logUpdate_keeps t id b s env (st : Store AssetTables) a st' :
  logUpdate NewID t id b s env st = inr (a, st') -> st_tables st' = st_tables st.
Proof. by intros [_ ?]%logUpdate_inv. Qed.

Lemma port_with_keeps row i name lifecycle :
  if_ID (port_with row i name lifecycle) = if_ID row /\ if_AssetID (port_with row i name lifecycle) = if_AssetID row.
Proof. done. Qed.

Lemma authorizeInterfaceSubject_inv p assetID id permit :
  authorizeInterfaceSubject p assetID id = inr permit -> Covers p "asset" assetID = true /\ permit = narrow p "interface" [id].
Proof. unfold authorizeInterfaceSubject. destruct (Covers p "asset" assetID); [|done]. by intros [= <-]. Qed.

Lemma reactivate_sound p now i st reactivated st' :
  reactivateRetiredInterface NewID i (env_of (Some (narrow p "interface" [if_ID i])) now) st = inr (reactivated, st') ->
  Covers p "asset" (if_AssetID i) = true -> sound p st st' /\ (reactivated = false -> st' = st).
Proof.
  unfold reactivateRetiredInterface. intros (before & s1 & [-> ->]%query_inv & Hrun)%bind_inv Hc.
  destruct (retired_port _ _ _) as [before|] eqn:Hret; [|by apply ret_inv in Hrun as [-> ->]; split; [apply sound_refl|]].
  apply retired_port_spec in Hret as ([k Hk] & Ha & Hn & Hl).
  pose proof Hrun as (u & s3 & _ & Hlog)%bind_inv. apply bind_inv in Hlog as (v & s4 & Hlog & [-> _]%ret_inv).
  apply logUpdate_inv in Hlog as [(q & [= <-] & [_ Hid%list_elem_of_singleton]%narrow_port) _].
  split; [|done]. rewrite <- Hid in Hrun. eapply sound_update_port; [| | |exact Hrun|..].
  - guarding.
  - advance.
  - intros env s x s' (y & s2 & E%logUpdate_keeps & [_ ->]%ret_inv)%bind_inv. done.
  - intros row. apply port_with_keeps.
  - intros Hok row Hrow. split; [|done].
    rewrite (ck_ports _ Hok _ _ Hk), Hk in Hrow. injection Hrow as <-. by rewrite Ha.
Qed.

Lemma create_port_body_sound p now id i st a st' :
  create_port_body NewID i (env_of (Some (narrow p "interface" [id])) now) st = inr (a, st') ->
  id = if_ID i -> Covers p "asset" (if_AssetID i) = true -> sound p st st'.
Proof.
  intros Hrun -> Hc. unfold create_port_body in Hrun.
  apply bind_inv in Hrun as (u & s1 & ->%requireVocabulary_inv & Hrun).
  apply bind_inv in Hrun as (reactivated & s2 & [Hs Hsame]%reactivate_sound & Hrun); [|done].
  destruct reactivated; [by apply ret_inv in Hrun as [_ ->]|]. rewrite (Hsame eq_refl) in Hrun.
  intros Hok. pose proof Hrun as Hwhole. apply bind_inv in Hrun as (v & s3 & H1 & H2). split.
  - pose proof H1 as (t' & (_ & -> & _)%insert_interface_inv & E)%statement_inv.
    eapply (permitted_port p now _ st a st' i); [|exact Hwhole|done| |done].
    + apply guarded_bind; [apply guarded_statement|]. intros _. apply guarded_logCreate.
    + apply logCreate_inv in H2 as [_ H2]. by rewrite H2.
  - transitivity s3; [by eapply advancing_insert_interface|by eapply advancing_logCreate].
Qed.

Lemma CreateInterface_sound seen fate p now i st :
  sound p st (CreateInterface NewID seen fate p now i st).2.
Proof.
  unfold CreateInterface. cbv zeta. destruct (authorizeInterfaceSubject _ _ _) as [e|permit] eqn:E; [apply sound_refl|].
  apply authorizeInterfaceSubject_inv in E as [Hc ->]. eapply sound_written, write_written.
  intros a st' Hrun. by eapply create_port_body_sound.
Qed.

Lemma UpdateInterface_sound seen fate p now i st :
  evolves seen (st_tables st) -> sound p st (UpdateInterface NewID seen fate p now i st).2.
Proof.
  intros Hev. unfold UpdateInterface. destruct (ValidateInterface i) as [j [ve|]]; [apply sound_refl|].
  destruct (pt_interfaces seen !! if_ID j) as [before|] eqn:Hb; [|apply sound_refl]. cbv zeta.
  destruct (authorizeInterfaceSubject _ _ _) as [e|permit] eqn:E; [apply sound_refl|].
  apply authorizeInterfaceSubject_inv in E as [Hc ->]. eapply sound_written, write_written.
  intros a st' Hrun. apply bind_inv in Hrun as (u & s1 & ->%requireVocabulary_inv & Hrun).
  eapply sound_update_port; [| | |exact Hrun|..].
  - apply guarded_logUpdate.
  - apply advancing_logUpdate.
  - intros. by eapply logUpdate_keeps.
  - intros row. apply port_with_keeps.
  - intros Hok row Hrow. cbn in Hrow. split.
    + destruct (ev_ports _ _ Hev _ _ Hb) as (i' & Hi' & Ha). rewrite Hrow in Hi'. injection Hi' as <-. by rewrite Ha.
    + cbn. intros Hr k l Hk Hl Hp. by apply (ck_bare _ Hok k l _ row Hk Hl Hp).
Qed.

(** A port without attachments has no live cable. *)
Lemma attachmentHolds_link column port t :
  attachmentHolds "link" column port t = false ->
  forall k l, pt_links t !! k = Some l -> live_link l ->
    (if String.eqb column "a_interface_id" then li_A l else li_B l) <> port.
Proof.
  intros Hf k l Hk Hl Hp. assert (attachmentHolds "link" column port t = true) as Ht; [|by rewrite Hf in Ht].
  unfold attachmentHolds. apply existsb_exists. exists (li_Lifecycle l). split; [|by rewrite Hl].
  apply list_elem_of_In. unfold naming. apply list_elem_of_omap. exists l. split; [apply rows_elem; eauto|].
  by rewrite Hp, String.eqb_refl.
Qed.

Lemma unattached_inv port a env st x st' :
  unattached port a env st = inr (x, st') ->
  st' = st /\ attachmentHolds a.1.1 a.1.2 port (st_tables st) = false.
Proof.
  destruct a as [[table column] what]. unfold unattached. intros Hrun. tx_inv Hrun.
  destruct (attachmentHolds _ _ _ _) eqn:E; tx_inv Hrun; done.
Qed.

Lemma each_unattached port attachments env st x st' :
  each (unattached port) attachments env st = inr (x, st') ->
  st' = st /\ forall a, a ∈ attachments -> attachmentHolds a.1.1 a.1.2 port (st_tables st) = false.
Proof.
  induction attachments as [|a attachments IH]; cbn [each].
  - intros [_ ->]%ret_inv. split; [done|]. by intros a ?%not_elem_of_nil.
  - intros (y & s1 & [-> Ha]%unattached_inv & [-> Hrest]%IH)%bind_inv. split; [done|].
    intros b [->|Hb]%elem_of_cons; [done|by apply Hrest].
Qed.

Lemma unattached_bare port t :
  (forall a, a ∈ interfaceAttachments -> attachmentHolds a.1.1 a.1.2 port t = false) ->
  forall k l, pt_links t !! k = Some l -> live_link l -> ~ patched l port.
Proof.
  intros Hf k l Hk Hl [Hp|Hp].
  - by apply (attachmentHolds_link "a_interface_id" port t (Hf _ (list_elem_of_here _ _)) k l Hk Hl).
  - by apply (attachmentHolds_link "b_interface_id" port t
      (Hf _ (list_elem_of_further _ _ _ (list_elem_of_here _ _))) k l Hk Hl).
Qed.

Lemma RetireInterface_sound seen fate p now id st :
  evolves seen (st_tables st) -> sound p st (RetireInterface NewID seen fate p now id st).2.
Proof.
  intros Hev. unfold RetireInterface. destruct (pt_interfaces seen !! id) as [before|] eqn:Hb; [|apply sound_refl].
  destruct (authorizeInterfaceSubject _ _ _) as [e|permit] eqn:E; [apply sound_refl|].
  apply authorizeInterfaceSubject_inv in E as [Hc ->]. destruct (String.eqb _ _); [apply sound_refl|]. cbv zeta.
  eapply sound_written, write_written. intros a st' Hrun.
  apply bind_inv in Hrun as (u & s1 & [-> Hfree]%each_unattached & Hrun).
  eapply sound_update_port; [| | |exact Hrun|..].
  - apply guarded_logUpdate.
  - apply advancing_logUpdate.
  - intros. by eapply logUpdate_keeps.
  - intros row. apply port_with_keeps.
  - intros Hok row Hrow. split.
    + destruct (ev_ports _ _ Hev _ _ Hb) as (i' & Hi' & Ha). rewrite Hrow in Hi'. injection Hi' as <-. by rewrite Ha.
    + intros _. by apply unattached_bare.
Qed.

(** ** Cables *)

Lemma port_covered_evolves p t t' port : evolves t t' -> port_covered p t port -> port_covered p t' port.
Proof. intros Hev (i & Hi & Hc). destruct (ev_ports _ _ Hev _ _ Hi) as (i' & Hi' & Ha). exists i'. by rewrite Ha. Qed.

Lemma authorizeLinkSubjects_inv seen p a b id permit :
  authorizeLinkSubjects seen p a b id = inr permit ->
  port_covered p seen a /\ port_covered p seen b /\ permit = narrow p "link" [id].
Proof.
  unfold authorizeLinkSubjects, port_covered. destruct (pt_interfaces seen !! a) as [i|]; [|done].
  destruct (pt_interfaces seen !! b) as [j|]; [|done]. destruct (_ && _) eqn:E; [|done].
  apply andb_true_iff in E as [? ?]. intros [= <-]. eauto 10.
Qed.

Lemma requireLiveInterface_inv field port env st a st' :
  requireLiveInterface field port env st = inr (a, st') ->
  st' = st /\ exists i, pt_interfaces (st_tables st) !! port = Some i /\ if_Lifecycle i <> LifecycleRetired.
Proof.
  unfold requireLiveInterface. intros (i & s1 & [-> ->]%query_inv & Hrun)%bind_inv.
  destruct (pt_interfaces _ !! port) as [i|]; [|done]. destruct (String.eqb_spec (if_Lifecycle i) LifecycleRetired); [done|].
  apply ret_inv in Hrun as [_ ->]. eauto.
Qed.

Lemma free_ports_inv ports env st a st' :
  free_ports ports env st = inr (a, st') -> st' = st /\ patches ports (st_tables st) = 0.
Proof.
  unfold free_ports. intros (n & s1 & [-> ->]%query_inv & Hrun)%bind_inv.
  destruct (Nat.ltb_spec 0 (patches ports (st_tables st))); [done|]. apply ret_inv in Hrun as [_ ->]. split; [done|lia].
Qed.

Lemma statement_runs {T} (f : T -> StoreError + T) env (st : Store T) a st' :
  statement f env st = inr (a, st') -> exists t', f (st_tables st) = inr t' /\ st' = MkStore t' (st_log st) (st_ids st).
Proof. unfold statement. destruct (f (st_tables st)) as [|t']; [done|]. intros [= _ <-]. eauto. Qed.

(** A new cable and the log row after it. *)
Lemma sound_new_cable {A} p now id l (fn : Tx AssetTables A) st a st' :
  guarded fn -> fn (env_of (Some (narrow p "link" [id])) now) st = inr (a, st') ->
  li_ID l = id -> li_BreakoutID l = None ->
  (exists t', insert_link_row l (st_tables st) = inr t' /\ st_tables st' = t') -> st_ids st <= st_ids st' ->
  patches [li_A l; li_B l] (st_tables st) = 0 ->
  (forall port, patched l port -> exists i, pt_interfaces (st_tables st) !! port = Some i /\ if_Lifecycle i <> LifecycleRetired) ->
  port_covered p (st_tables st) (li_A l) -> port_covered p (st_tables st) (li_B l) -> sound p st st'.
Proof.
  intros Hg Hrun Hid Hb (t' & Hins & Et) Hids Hfree Hlive HA HB Hok. subst id.
  pose proof (insert_link_row_inv _ _ _ Hins) as [_ (_ & _ & _ & -> & _)%put_link_inv]. split.
  - eapply (permitted_cables p now fn st a st'); [done..|exact Et| |].
    + intros k Hk. rewrite lookup_insert_ne; [done|]. intros Heq. apply Hk. rewrite Heq. by left.
    + intros k ->%list_elem_of_singleton. exists l. unfold port_covered. rewrite Et. cbn. by rewrite lookup_insert_eq.
  - destruct st' as [t'' log' ids']. cbn in Et, Hids. subst t''. apply advances_tables; [done| |].
    + intros Hok'. eapply plain_link_ok; [done|exact Hb|exact Hins|exact Hfree|].
      intros port i Hp Hi. destruct (Hlive port Hp) as (i' & Hi' & Hne). congruence.
    + intros _ k l'. cbn. rewrite lookup_insert_Some. intros [[_ <-]|[_ Hk]]; eauto.
Qed.

Lemma log_keeps t id action d b env (st : Store AssetTables) a st' :
  log NewID t id action d b env st = inr (a, st') -> st_tables st' = st_tables st /\ st_ids st <= st_ids st'.
Proof.
  intros Hrun. split; [by apply log_inv in Hrun as [_ ?]|]. unfold log in Hrun.
  apply bind_inv in Hrun as (x & s1 & [_ ->]%authorize_inv & Hrun).
  apply bind_inv in Hrun as (y & s2 & H1 & H2). injection H1 as _ <-. injection H2 as _ <-. cbn. lia.
Qed.

#[local] Hint Resolve guarded_requireLiveInterface guarded_free_ports guarded_requireNoBreakoutDrift : tx.

Lemma CreateLink_sound seen fates p now l st :
  evolves seen (st_tables st) -> sound p st (CreateLink NewID seen fates p now l st).2.
Proof.
  intros Hev. unfold CreateLink. cbv zeta. destruct (authorizeLinkSubjects _ _ _ _ _) as [e|permit] eqn:E; [apply sound_refl|].
  apply authorizeLinkSubjects_inv in E as (HA & HB & ->). cbn [li_A li_B li_ID] in *.
  eapply sound_written, writeSerializable_written. intros a st' Hrun. pose proof Hrun as Hwhole.
  apply bind_inv in Hrun as (u1 & s1 & [-> LA]%requireLiveInterface_inv & Hrun).
  apply bind_inv in Hrun as (u2 & s2 & [-> LB]%requireLiveInterface_inv & Hrun).
  apply bind_inv in Hrun as (u3 & s3 & [-> Hfree]%free_ports_inv & Hrun).
  apply bind_inv in Hrun as (u4 & s4 & (t' & Hins & ->)%statement_runs & [Et Hids]%log_keeps).
  match type of Hins with insert_link_row ?x _ = _ => eapply (sound_new_cable p now _ x) end;
    [|exact Hwhole|reflexivity|reflexivity| | |exact Hfree| | |].
  - guarding.
  - eauto.
  - exact Hids.
  - intros port [<-| <-]; eauto.
  - by eapply port_covered_evolves.
  - by eapply port_covered_evolves.
Qed.

Lemma requireNoBreakoutDrift_inv b id medium lengthM env st a st' :
  requireNoBreakoutDrift b id medium lengthM env st = inr (a, st') ->
  st' = st /\ forall k m, pt_links (st_tables st) !! k = Some m -> li_BreakoutID m = Some b -> li_ID m <> id ->
    live_link m -> li_Medium m = medium /\ li_LengthM m = lengthM.
Proof.
  unfold requireNoBreakoutDrift. intros (ls & s1 & [-> ->]%query_inv & Hrun)%bind_inv.
  destruct (forallb _ _) eqn:Hall; [|done]. apply ret_inv in Hrun as [_ ->]. split; [done|].
  intros k m Hk Hb Hne Hl. rewrite forallb_forall in Hall.
  assert (bool_decide (li_Medium m = medium /\ li_LengthM m = lengthM) = true) as Hm; [|by apply bool_decide_eq_true in Hm].
  apply Hall, filter_In. split; [apply list_elem_of_In, rows_elem; eauto|].
  rewrite !andb_true_iff, bool_decide_eq_true, negb_true_iff, String.eqb_neq. split_and!; [done|done|by apply is_live_spec].
Qed.

Lemma update_link_inv l t t' : update_link l t = inr t' ->
  exists row, pt_links t !! li_ID l = Some row /\ li_RowVersion row = li_RowVersion l /\
    let l' := {| li_ID := li_ID row; li_A := li_A row; li_B := li_B row; li_Medium := li_Medium l;
      li_LengthM := li_LengthM l; li_Lifecycle := li_Lifecycle row; li_RowVersion := li_RowVersion row + 1;
      li_BreakoutID := li_BreakoutID row; li_BreakoutPosition := li_BreakoutPosition row |}%Z in
    t' = with_links (<[li_ID row := l']> (pt_links t)) t.
Proof.
  unfold update_link. destruct (pt_links t !! li_ID l) as [row|]; [|done].
  destruct (Z.eqb_spec (li_RowVersion row) (li_RowVersion l)); [|done]. intros (_ & _ & _ & -> & _)%put_link_inv. eauto.
Qed.

(** A correction that the live strands of the cable's breakout agree with. *)
Lemma update_link_ok l t t' :
  cabling_ok t -> update_link l t = inr t' ->
  (forall row b k m, pt_links t !! li_ID l = Some row -> li_BreakoutID row = Some b -> pt_links t !! k = Some m ->
     li_BreakoutID m = Some b -> li_ID m <> li_ID l -> live_link m -> li_Medium m = li_Medium l /\ li_LengthM m = li_LengthM l) ->
  cabling_ok t' /\ evolves t t'.
Proof.
  intros Hok (row & Hk & _ & ->)%update_link_inv Hdrift. pose proof (ck_links _ Hok _ _ Hk) as Hid.
  destruct (ck_ends _ Hok _ _ Hk) as (Hne & HA & HB).
  match goal with |- context [<[li_ID row := ?r]> _] => change (li_ID row) with (li_ID r) end. split.
  - apply links_insert; [done..|by intros Hl port i; apply (ck_bare _ Hok _ _ _ _ Hk)|]. intros Hl k m Hm Hkm Hml.
    cbn in Hkm. rewrite Hid in Hkm. destruct (ck_pairs _ Hok _ _ _ _ Hk Hm (not_eq_sym Hkm) Hl Hml) as [Hport Hstrand].
    split; cbn; [exact Hport|]. intros b Hb Hb'. destruct (Hstrand b Hb Hb') as (? & _ & _ & ?).
    destruct (Hdrift row b k m Hk Hb Hm Hb') as [? ?]; [by rewrite (ck_links _ Hok _ _ Hm)|done|by split_and!].
  - apply evolves_insert. cbn. rewrite Hid, Hk. by intros m [= <-].
Qed.

Lemma UpdateLink_sound seen fate p now l st :
  evolves seen (st_tables st) -> sound p st (UpdateLink NewID seen fate p now l st).2.
Proof.
  intros Hev. unfold UpdateLink. destruct (pt_links seen !! li_ID l) as [before|] eqn:Hb; [|apply sound_refl]. cbv zeta.
  destruct (authorizeLinkSubjects _ _ _ _ _) as [e|permit] eqn:E; [apply sound_refl|].
  apply authorizeLinkSubjects_inv in E as (HA & HB & ->). cbn [li_ID] in *.
  eapply sound_written, write_written. intros a st' Hrun Hok. pose proof Hrun as Hwhole.
  destruct (ev_links _ _ Hev _ _ Hb) as (row & Hrow & EA & EB & EK & _).
  apply bind_inv in Hrun as (u1 & s1 & Hd & Hrun). apply bind_inv in Hrun as (u2 & s2 & H2 & H3).
  assert (s1 = st /\ forall b k m, li_BreakoutID row = Some b -> pt_links (st_tables st) !! k = Some m ->
    li_BreakoutID m = Some b -> li_ID m <> li_ID l -> live_link m -> li_Medium m = li_Medium l /\ li_LengthM m = li_LengthM l)
    as [-> Hdrift].
  { rewrite EK. destruct (li_BreakoutID before) as [b|]; [|by apply ret_inv in Hd as [_ ->]].
    apply requireNoBreakoutDrift_inv in Hd as [-> Hd]. split; [done|]. intros b' k m [= <-] Hm. by apply (Hd k). }
  apply statement_runs in H2 as (t' & Hup & ->). pose proof Hup as Hup'.
  apply update_link_inv in Hup' as (row' & Hrow' & _ & Et). cbn in Hrow', Et. rewrite Hrow in Hrow'. injection Hrow' as <-.
  pose proof (ck_links _ Hok _ _ Hrow) as Hid. split.
  - pose proof (logUpdate_keeps _ _ _ _ _ _ _ _ H3) as E3. cbn in E3.
    eapply (permitted_cables p now _ st a st'); [|exact Hwhole|by rewrite E3, Et| |].
    + guarding.
    + intros k Hk. rewrite lookup_insert_ne; [done|]. intros Heq. apply Hk. rewrite <- Heq, Hid. by left.
    + intros k ->%list_elem_of_singleton. unfold cable_covered, port_covered. rewrite E3, Et. cbn. rewrite Hid, lookup_insert_eq.
      eexists. split; [done|]. cbn. rewrite EA, EB. split; by eapply port_covered_evolves.
  - etransitivity; [|by eapply advancing_logUpdate]. apply advances_tables; [done| |].
    + intros _. eapply update_link_ok; [done|exact Hup|]. cbn. intros row' b k m Hr. rewrite Hrow in Hr. injection Hr as <-.
      apply Hdrift.
    + intros _ k l'. rewrite Et. cbn. rewrite lookup_insert_Some. intros [[_ <-]|[_ Hk]]; eauto 10.
Qed.

Lemma RetireLink_sound seen fate p now id st :
  evolves seen (st_tables st) -> sound p st (RetireLink NewID seen fate p now id st).2.
Proof.
  intros Hev. unfold RetireLink. destruct (pt_links seen !! id) as [before|] eqn:Hb; [|apply sound_refl].
  destruct (authorizeLinkSubjects _ _ _ _ _) as [e|permit] eqn:E; [apply sound_refl|].
  apply authorizeLinkSubjects_inv in E as (HA & HB & ->). destruct (String.eqb _ _); [apply sound_refl|].
  eapply sound_written, write_written. intros a st' Hrun Hok. pose proof Hrun as Hwhole.
  destruct (ev_links _ _ Hev _ _ Hb) as (row & Hrow & EA & EB & EK & _).
  apply bind_inv in Hrun as (u & s1 & (t' & Ht & ->)%statement_runs & H3). injection Ht as <-. split.
  - pose proof (log_keeps _ _ _ _ _ _ _ _ _ H3) as [E3 _]. cbn in E3.
    eapply (permitted_cables p now _ st a st'); [|exact Hwhole|exact E3| |].
    + guarding.
    + intros k Hk. apply lookup_alter_ne. intros <-. apply Hk. by left.
    + intros k ->%list_elem_of_singleton. unfold cable_covered, port_covered. rewrite E3. cbn.
      rewrite lookup_alter_eq, Hrow. eexists. split; [done|]. cbn. rewrite EA, EB. split; by eapply port_covered_evolves.
  - transitivity (MkStore (with_links (alter retired_cable id (pt_links (st_tables st))) (st_tables st)) (st_log st) (st_ids st));
      [apply advances_retired_cable|by eapply advancing_log].
Qed.

(** ** Breakouts *)

(** The strand of a breakout at a position, as its row. *)
Definition strand_row (spec : BreakoutSpec) (b : string) (n : Z) (port id : string) : Link :=
  {| li_ID := id; li_A := bs_A spec; li_B := port; li_Medium := bs_Medium spec; li_LengthM := bs_LengthM spec;
     li_Lifecycle := LifecycleActive; li_RowVersion := 1; li_BreakoutID := Some b; li_BreakoutPosition := Some n |}.

Lemma strand_inv spec b n port id env st l st' :
  strand NewID spec b n port id env st = inr (l, st') ->
  (exists i, pt_interfaces (st_tables st) !! port = Some i /\ if_Lifecycle i <> LifecycleRetired) /\
  patches [port] (st_tables st) = 0 /\ insert_link_row (strand_row spec b n port id) (st_tables st) = inr (st_tables st') /\
  st_ids st <= st_ids st' /\ li_ID l = id /\ li_A l = bs_A spec /\ li_B l = port.
Proof.
  unfold strand. cbv zeta. intros (u1 & s1 & [-> Hl]%requireLiveInterface_inv & Hrun)%bind_inv.
  apply bind_inv in Hrun as (u2 & s2 & [-> Hfree]%free_ports_inv & Hrun).
  destruct (ValidateLink _); [done|].
  apply bind_inv in Hrun as (u3 & s3 & (t' & Hins & ->)%statement_runs & Hrun).
  apply bind_inv in Hrun as (u4 & s4 & [Et Hids]%log_keeps & [-> ->]%ret_inv). cbn in Et, Hids.
  split_and!; [done|done| |done..]. by rewrite Et.
Qed.

(** The strands so far, the next at [n]: the near port carries them alone. *)
Record assembling (spec : BreakoutSpec) (b : string) (n : Z) (t : AssetTables) : Prop := {
  as_ok : cabling_ok t;
  as_near : exists i, pt_interfaces t !! bs_A spec = Some i /\ if_Lifecycle i <> LifecycleRetired;
  as_strands : forall k l, pt_links t !! k = Some l -> li_BreakoutID l = Some b ->
    li_A l = bs_A spec /\ li_Medium l = bs_Medium spec /\ li_LengthM l = bs_LengthM spec /\
    exists z, li_BreakoutPosition l = Some z /\ (z < n)%Z;
  as_alone : forall k l, pt_links t !! k = Some l -> live_link l -> patched l (bs_A spec) ->
    li_A l = bs_A spec /\ li_BreakoutID l = Some b
}.

Lemma assembling_step spec b n port id t t' :
  assembling spec b n t -> insert_link_row (strand_row spec b n port id) t = inr t' -> patches [port] t = 0 ->
  (exists i, pt_interfaces t !! port = Some i /\ if_Lifecycle i <> LifecycleRetired) ->
  assembling spec b (n + 1) t' /\ evolves t t'.
Proof.
  intros [Hok Hnear Hs Halone] [Hfresh (Hne & HA & HB & -> & _)%put_link_inv]%insert_link_row_inv Hfree Hlive.
  rewrite patches_none in Hfree. cbn [strand_row li_ID li_A li_B] in *. split; [split|].
  - change id with (li_ID (strand_row spec b n port id)). apply links_insert; [done..| |].
    + intros _ q i [<-|<-] Hi; cbn in Hi; [destruct Hnear as (j & Hj & Hr)|destruct Hlive as (j & Hj & Hr)]; congruence.
    + intros _ k m Hk _ Hm. split; cbn.
      * intros q [<-|<-] Hq; cbn in Hq.
        -- destruct (Halone k m Hk Hm Hq) as [? ?]. eauto 10.
        -- exfalso. by apply (Hfree k m port Hk Hm (list_elem_of_here _ _)).
      * intros b' [= <-] Hb. destruct (Hs k m Hk Hb) as (? & ? & ? & z & Hz & Hlt). split_and!; [done..|].
        rewrite Hz. intros [= ->]. lia.
  - exact Hnear.
  - intros k l. cbn. rewrite lookup_insert_Some. intros [[_ <-]|[_ Hk]] Hb; cbn.
    + split_and!; [done..|]. exists n. split; [done|lia].
    + destruct (Hs k l Hk Hb) as (? & ? & ? & z & Hz & Hlt). split_and!; [done..|]. exists z. split; [done|lia].
  - intros k l. cbn. rewrite lookup_insert_Some. intros [[_ <-]|[_ Hk]] Hl Hp; [done|by eapply Halone].
  - change id with (li_ID (strand_row spec b n port id)). apply evolves_insert. cbn. congruence.
Qed.

Lemma strands_inv spec b ends : forall n env st ls st',
  assembling spec b n (st_tables st) -> strands NewID spec b n ends env st = inr (ls, st') ->
  cabling_ok (st_tables st') /\ evolves (st_tables st) (st_tables st') /\ st_ids st <= st_ids st' /\
  (exists links, st_tables st' = with_links links (st_tables st)) /\
  (forall k, k ∉ ends.*2 -> pt_links (st_tables st') !! k = pt_links (st_tables st) !! k) /\
  (forall k l, pt_links (st_tables st') !! k = Some l ->
     li_BreakoutID l = Some b \/ pt_links (st_tables st) !! k = Some l) /\
  (forall port id, (port, id) ∈ ends -> exists l, pt_links (st_tables st') !! id = Some l /\ li_A l = bs_A spec /\ li_B l = port).
Proof.
  induction ends as [|[port id] ends IH]; intros n env st ls st' Ha; cbn [strands].
  - intros [_ ->]%ret_inv. split_and!; [by apply as_ok in Ha|done|done|..].
    + exists (pt_links (st_tables st)). by destruct (st_tables st).
    + done.
    + auto.
    + by intros ? ? ?%not_elem_of_nil.
  - intros (l & s1 & (Hlive & Hfree & Hins & Hids & _)%strand_inv & Hrun)%bind_inv.
    apply bind_inv in Hrun as (ls' & s2 & Hrun & [_ ->]%ret_inv).
    destruct (assembling_step _ _ _ _ _ _ _ Ha Hins Hfree Hlive) as [Ha1 Hev1].
    apply insert_link_row_inv in Hins as [Hfresh (_ & _ & _ & E1 & _)%put_link_inv]. cbn [strand_row li_ID] in *.
    destruct (IH _ _ _ _ _ Ha1 Hrun) as (Hok & Hev & Hids' & [links El] & Hout & Hnew & Hin). split_and!; [done| |lia|..].
    + by etransitivity.
    + exists links. by rewrite El, E1.
    + intros k. cbn. intros [Hk Hks]%not_elem_of_cons. rewrite Hout by done. rewrite E1. cbn. by rewrite lookup_insert_ne.
    + intros k m Hk. destruct (Hnew k m Hk) as [?|Hm]; [by left|]. rewrite E1 in Hm. cbn in Hm.
      apply lookup_insert_Some in Hm as [[_ <-]|[_ Hm]]; auto.
    + intros q k [[= -> ->]|Hq]%elem_of_cons; [|by apply Hin].
      destruct (ev_links _ _ Hev id (strand_row spec b n port id)) as (m & Hm & EA & EB & _); [|by exists m].
      rewrite E1. cbn. by rewrite lookup_insert_eq.
Qed.

Lemma covered_ports_inv seen p ports : covered_ports seen p ports = inr tt -> forall port, port ∈ ports -> port_covered p seen port.
Proof.
  induction ports as [|q ports IH]; cbn; [by intros _ ? ?%not_elem_of_nil|].
  destruct (covered_port seen p q) as [e|[]] eqn:E; [done|]. intros Hps port [->|Hp]%elem_of_cons; [|by apply IH].
  unfold covered_port in E. destruct (pt_interfaces seen !! q) as [i|] eqn:Hq; [|done].
  exists i. split; [done|]. by destruct (Covers p "asset" (if_AssetID i)).
Qed.

(** The transaction of [CreateBreakout], under identifiers that no cable has. *)
Lemma breakout_body seen p now spec b ids st a st' :
  cabling_ok (st_tables st) -> evolves seen (st_tables st) -> length ids = length (bs_B spec) ->
  (forall k l, pt_links (st_tables st) !! k = Some l -> li_BreakoutID l <> Some b) ->
  covered_ports seen p (bs_A spec :: bs_B spec) = inr tt ->
  (_ ← requireLiveInterface "a_interface_id" (bs_A spec); _ ← free_ports [bs_A spec];
   strands NewID spec b 1 (combine (bs_B spec) ids)) (env_of (Some (narrow p "link" ids)) now) st = inr (a, st') ->
  within_permit p st st' /\ cabling_ok (st_tables st') /\ evolves (st_tables st) (st_tables st') /\ st_ids st <= st_ids st' /\
  forall k l, pt_links (st_tables st') !! k = Some l ->
    li_BreakoutID l = Some b \/ pt_links (st_tables st) !! k = Some l.
Proof.
  intros Hok Hev Hlen Hfresh Hcov Hrun. pose proof Hrun as Hwhole.
  apply bind_inv in Hrun as (u1 & s1 & [-> Hnear]%requireLiveInterface_inv & Hrun).
  apply bind_inv in Hrun as (u2 & s2 & [-> Hfree]%free_ports_inv & Hrun).
  assert (assembling spec b 1 (st_tables st)) as Ha.
  { split; [done|done| |].
    - intros k l Hk Hb. by destruct (Hfresh k l Hk).
    - intros k l Hk Hl Hp. rewrite patches_none in Hfree. by destruct (Hfree k l (bs_A spec) Hk Hl (list_elem_of_here _ _)). }
  destruct (strands_inv _ _ _ _ _ _ _ _ Ha Hrun) as (Hok' & Hev' & Hids & [links El] & Hout & Hnew & Hin).
  split_and!; [|done..].
  assert ((combine (bs_B spec) ids).*2 = ids) as Hsnd by (apply snd_zip; lia).
  eapply (permitted_cables p now _ st a st'); [|exact Hwhole|exact El| |].
  - guarding. apply guarded_strands.
  - intros k Hk. rewrite <- Hout by by rewrite Hsnd. by rewrite El.
  - intros k Hk. rewrite <- Hsnd in Hk. apply list_elem_of_fmap in Hk as ([port id] & -> & Hk).
    destruct (Hin port id Hk) as (l & Hl & EA & EB). exists l. split; [done|]. rewrite EA, EB.
    pose proof (covered_ports_inv _ _ _ Hcov) as Hp.
    split; (eapply port_covered_evolves; [etransitivity; [exact Hev|exact Hev']|apply Hp]); [by left|right].
    by apply elem_of_zip_l in Hk.
Qed.

Lemma CreateBreakout_sound seen fates p now spec st :
  Inj (=) (=) NewID -> minted_breakouts NewID st -> evolves seen (st_tables st) ->
  sound p st (CreateBreakout NewID seen fates p now spec st).2.
Proof.
  intros Hinj Hminted Hev. unfold CreateBreakout. destruct (ValidateBreakout spec); [apply sound_refl|].
  unfold minted. cbn [fmap list_fmap seq List.hd st_tables st_log st_ids]. set (b := NewID (st_ids st)).
  set (ids := NewID <$> seq (st_ids st + 1) (length (bs_B spec))).
  set (st2 := MkStore (st_tables st) (st_log st) (st_ids st + 1 + length (bs_B spec))).
  assert (sound p st st2) as Hst2 by (intros _; split; [by apply within_permit_refl|apply advances_same; [done|cbn; lia]]).
  unfold authorizeBreakoutSubjects. destruct (covered_ports _ _ _) as [e|[]] eqn:Hcov; [exact Hst2|].
  assert (forall res, written_by (Some (narrow p "link" ids)) now
    (_ ← requireLiveInterface "a_interface_id" (bs_A spec); _ ← free_ports [bs_A spec];
     strands NewID spec b 1 (combine (bs_B spec) ids)) st2 res -> sound p st res.2) as Hgoal;
    [|by apply Hgoal, writeSerializable_written].
  intros res [e|a st' Hrun]; [exact Hst2|]. intros Hok. cbn [snd].
  destruct (breakout_body seen p now spec b ids st2 a st') as ([C1 C2 C3 C4] & Hok' & Hev' & Hids & Hnew); try done.
  - unfold ids. by rewrite length_fmap, length_seq.
  - intros k l Hk Hb. destruct (Hminted k l b Hk Hb) as (m & Hm & Em%Hinj). lia.
  - unfold st2 in Hids. cbn in Hids. split; [by split|]. intros _ _. split_and!; [done| |done|lia].
    intros k l b' Hk Hb. destruct (Hnew k l Hk) as [Hb'|Hl].
    + rewrite Hb' in Hb. injection Hb as <-. exists (st_ids st). split; [lia|done].
    + destruct (Hminted k l b' Hl Hb) as (m & Hm & ->). exists m. split; [lia|done].
Qed.

(** ** Histories *)

Lemma run_cabling_sound st r :
  Inj (=) (=) NewID -> minted_breakouts NewID st -> evolves (cq_seen r) (st_tables st) ->
  sound (cq_permit r) st (run_cabling NewID st r).
Proof.
  intros Hinj Hm Hev. unfold run_cabling. destruct (cq_op r).
  - apply CreateInterface_sound.
  - by apply UpdateInterface_sound.
  - by apply RetireInterface_sound.
  - by apply CreateLink_sound.
  - by apply UpdateLink_sound.
  - by apply RetireLink_sound.
  - by apply CreateBreakout_sound.
Qed.

(** Touching a port moves nothing a cable depends on. *)
Lemma lookup_touched at_ id (m : gmap string Interface) k i' : alter (touched_port at_) id m !! k = Some i' ->
  exists i, m !! k = Some i /\ if_ID i' = if_ID i /\ if_AssetID i' = if_AssetID i /\ if_Name i' = if_Name i /\
    if_Lifecycle i' = if_Lifecycle i.
Proof.
  rewrite lookup_alter. case_decide as Hk; [subst k|by eauto 10]. destruct (m !! id) as [i|]; [|done].
  intros [= <-]. eauto 10.
Qed.

Lemma touched_advances st st' id at_ : st_ids st <= st_ids st' ->
  pt_interfaces (st_tables st') = alter (touched_port at_) id (pt_interfaces (st_tables st)) ->
  pt_links (st_tables st') = pt_links (st_tables st) -> advances NewID st st'.
Proof.
  intros Hids Hi Hl Hok Hm. split_and!; [| | |done].
  - destruct Hok as [K1 K2 K3 K4 K5 K6]. split; rewrite ?Hi, ?Hl; try done.
    + intros k i' (i & Hk & -> & _)%lookup_touched. by apply (K1 k).
    + intros k k' i i' (j & Hk & _ & -> & -> & _)%lookup_touched (j' & Hk' & _ & -> & -> & _)%lookup_touched. by apply K2.
    + intros k l Hk. rewrite !lookup_alter_is_Some. by apply (K4 k l).
    + intros k l port i' Hk Hlive Hp (i & Hi' & _ & _ & _ & ->)%lookup_touched. by apply (K5 k l port i).
  - intros k l b. rewrite Hl. intros Hk Hb. destruct (Hm k l b Hk Hb) as (n & Hn & ->). exists n. split; [lia|done].
  - split; rewrite ?Hi, ?Hl; [|by eauto 10]. intros k i Hk. destruct (decide (id = k)) as [->|];
      [rewrite lookup_alter_eq, Hk|rewrite lookup_alter_ne, Hk by done]; by eexists.
Qed.

Lemma history_ok visited st : Inj (=) (=) NewID -> history NewID visited st ->
  cabling_ok (st_tables st) /\ minted_breakouts NewID st /\ forall seen, seen ∈ visited -> evolves seen (st_tables st).
Proof.
  intros Hinj. assert (forall visited st st', advances NewID st st' ->
    cabling_ok (st_tables st) /\ minted_breakouts NewID st /\ (forall seen, seen ∈ visited -> evolves seen (st_tables st)) ->
    cabling_ok (st_tables st') /\ minted_breakouts NewID st' /\
    forall seen, seen ∈ st_tables st' :: visited -> evolves seen (st_tables st')) as Hstep.
  { intros v s s' Hadv (Hok & Hm & Hv). destruct (Hadv Hok Hm) as (Hok' & Hm' & He & _). split_and!; [done..|].
    intros seen [->|Hseen]%elem_of_cons; [done|]. transitivity (st_tables s); [by apply Hv|done]. }
  induction 1 as [st Hi Hl|visited st r Hh IH|visited st r Hh IH Hseen|visited st st' Hh IH Hids Hi Hl
    |visited st st' id at_ Hh IH Hids Hi Hl].
  - split_and!; [split; rewrite ?Hi, ?Hl; intros *; rewrite lookup_empty; done| |].
    + intros k l b. by rewrite Hl, lookup_empty.
    + by intros seen ->%list_elem_of_singleton.
  - apply (Hstep _ st); [apply run_request_advances|done].
  - apply (Hstep _ st); [|done]. destruct IH as (Hok & Hm & Hv). by apply run_cabling_sound; [..|apply Hv|].
  - apply (Hstep _ st); [|done]. by apply advances_same.
  - apply (Hstep _ st); [|done]. by eapply touched_advances.
Qed.
End Effects.

(** ** New cables *)

(** What a new cable asks of its ends. *)
Definition joinable (t : AssetTables) (p : Permit) (l : Link) : Prop :=
  li_A l <> li_B l /\
  forall port, patched l port -> (exists i, pt_interfaces t !! port = Some i /\ if_Lifecycle i <> LifecycleRetired /\
    Covers p "asset" (if_AssetID i) = true) /\
    forall k m, pt_links t !! k = Some m -> live_link m -> ~ patched m port.

Section NewCables.
Context `{Unicode} `{CodeRunes} (NewID : nat -> string).

Lemma create_link_body_inv l env st a st' :
  create_link_body NewID l env st = inr (a, st') ->
  let live port := exists i, pt_interfaces (st_tables st) !! port = Some i /\ if_Lifecycle i <> LifecycleRetired in
  live (li_A l) /\ live (li_B l) /\ li_A l <> li_B l /\ patches [li_A l; li_B l] (st_tables st) = 0 /\
  st_tables st' = with_links (<[li_ID l := plain_link l]> (pt_links (st_tables st))) (st_tables st).
Proof.
  intros (u1 & s1 & [-> LA]%requireLiveInterface_inv & Hrun)%bind_inv.
  apply bind_inv in Hrun as (u2 & s2 & [-> LB]%requireLiveInterface_inv & Hrun).
  apply bind_inv in Hrun as (u3 & s3 & [-> Hfree]%free_ports_inv & Hrun).
  apply bind_inv in Hrun as (u4 & s4 & (t' & Hins & ->)%statement_runs & [Et _]%log_keeps). cbn in Et.
  apply insert_link_row_inv in Hins as [_ (Hne & _ & _ & -> & _)%put_link_inv]. cbv zeta. by split_and!.
Qed.

Lemma requireLiveInterface_runs field port i env st :
  pt_interfaces (st_tables st) !! port = Some i -> if_Lifecycle i <> LifecycleRetired ->
  requireLiveInterface field port env st = inr (tt, st).
Proof.
  intros Hi Hl. unfold requireLiveInterface, mbind, Tx_bind, query. rewrite Hi.
  by destruct (String.eqb_spec (if_Lifecycle i) LifecycleRetired).
Qed.

Lemma create_link_body_runs t permit now l st :
  st_tables st = t -> pt_links t !! li_ID l = None -> li_Lifecycle l = LifecycleActive -> joinable t permit l ->
  exists st', create_link_body NewID l (env_of (Some (narrow permit "link" [li_ID l])) now) st = inr (tt, st').
Proof.
  intros <- Hfresh Hlife [Hne Hj].
  destruct (Hj (li_A l) (or_introl eq_refl)) as [(i & Hi & Li & _) FA].
  destruct (Hj (li_B l) (or_intror eq_refl)) as [(j & Hj' & Lj & _) FB].
  assert (patches [li_A l; li_B l] (st_tables st) = 0) as Hfree.
  { apply patches_none. intros k m port Hk Hm [->|[->|[]%not_elem_of_nil]%elem_of_cons]%elem_of_cons; eauto. }
  eassert (insert_link_row (plain_link l) (st_tables st) = inr _) as Hins.
  { unfold insert_link_row. rewrite bool_decide_false by (cbn; rewrite Hfresh; apply is_Some_None).
    unfold put_link. cbn [li_A li_B li_Lifecycle li_BreakoutPosition plain_link].
    assert (link_lifecycle (plain_link l) = true) as Hll by (unfold link_lifecycle; cbn [li_Lifecycle plain_link]; by rewrite Hlife).
    rewrite (proj2 (String.eqb_neq _ _) Hne), Hll, Hlife, Hi, Hj'. reflexivity. }
  destruct (logCreate_runs NewID (narrow permit "link" [li_ID l]) now "link" (li_ID l) (link_struct_of l)
    (MkStore (with_links (<[li_ID l := plain_link l]> (pt_links (st_tables st))) (st_tables st)) (st_log st) (st_ids st)))
    as (st' & Hlog & _).
  { apply narrow_Covers; [apply list_elem_of_further, list_elem_of_here|]. split; [done|by left]. }
  exists st'. unfold create_link_body. eapply bind_runs; [by eapply requireLiveInterface_runs|].
  eapply bind_runs; [by eapply requireLiveInterface_runs|]. eapply bind_runs.
  { unfold free_ports, mbind, Tx_bind, query. by rewrite Hfree. }
  eapply bind_runs; [unfold statement; by rewrite Hins|]. exact Hlog.
Qed.
End NewCables.

(** * Theorems *)

Section Theorems.
Context `{Unicode} `{CodeRunes} (NewID : nat -> string).

(** C9. Whatever requests came before, a port is patched once: two live cables that share
    a port are strands of one breakout and share its near port alone. A withdrawn port has
    no live cable, live strands of a breakout agree on medium and length and have positions
    of their own, and an asset has no two ports of one name. *)
Theorem cabling_is_physical visited st :
  Inj (=) (=) NewID -> history NewID visited st ->
  let t := st_tables st in
  (forall k m l l' port, pt_links t !! k = Some l -> pt_links t !! m = Some l' -> k <> m -> live_link l -> live_link l' ->
     patched l port -> patched l' port ->
     li_A l = port /\ li_A l' = port /\ li_B l <> li_B l' /\ exists b, li_BreakoutID l = Some b /\ li_BreakoutID l' = Some b) /\
  (forall k l port i, pt_links t !! k = Some l -> live_link l -> patched l port -> pt_interfaces t !! port = Some i ->
     if_Lifecycle i <> LifecycleRetired) /\
  (forall k m l l' b, pt_links t !! k = Some l -> pt_links t !! m = Some l' -> k <> m -> live_link l -> live_link l' ->
     li_BreakoutID l = Some b -> li_BreakoutID l' = Some b ->
     li_Medium l = li_Medium l' /\ li_LengthM l = li_LengthM l' /\ li_BreakoutPosition l <> li_BreakoutPosition l') /\
  (forall k m i j, pt_interfaces t !! k = Some i -> pt_interfaces t !! m = Some j ->
     if_AssetID i = if_AssetID j -> if_Name i = if_Name j -> k = m).
Proof.
  intros Hinj Hh. destruct (history_ok NewID _ _ Hinj Hh) as (Hok & _ & _). cbv zeta. split_and!.
  - intros k m l l' port Hk Hm Hne Hl Hl' Hp Hp'. pose proof (ck_pairs _ Hok _ _ _ _ Hk Hm Hne Hl Hl') as [Hport _].
    destruct (Hport port Hp Hp') as (EA & EA' & Hb). split_and!; [done..| |done]. intros EB.
    destruct (ck_ends _ Hok _ _ Hk) as [Hends _]. destruct (Hport (li_B l)) as (? & _ & _); [by right|by right|congruence].
  - exact (ck_bare _ Hok).
  - intros k m l l' b Hk Hm Hne Hl Hl' Hb Hb'. pose proof (ck_pairs _ Hok _ _ _ _ Hk Hm Hne Hl Hl') as [_ Hs].
    by destruct (Hs b Hb Hb') as (_ & ? & ? & ?).
  - exact (ck_names _ Hok).
Qed.

(** C10. A request on ports and cables, whose reads may be older than its transaction,
    changes only ports of assets its caller's permit covers and cables with both ends on
    such assets, and logs those in the caller's name; nothing else of the tables moves. *)
Theorem cabling_confined visited st r :
  Inj (=) (=) NewID -> history NewID visited st -> cq_seen r ∈ visited ->
  within_permit (cq_permit r) st (run_cabling NewID st r).
Proof.
  intros Hinj Hh Hseen. destruct (history_ok NewID _ _ Hinj Hh) as (Hok & Hm & Hv).
  by apply run_cabling_sound; [..|apply Hv|].
Qed.

(** A cable under a new identifier is made exactly when its ends are two free live
    ports on assets that the permit covers; then it is the one new row, and else nothing
    changes. *)
Theorem CreateLink_outcome fates p now l st :
  settles fates -> pt_links (st_tables st) !! li_ID l = None -> li_Lifecycle l = "" ->
  let res := CreateLink NewID (st_tables st) fates p now l st in
  (res.1 = inr tt <-> joinable (st_tables st) p l) /\
  (forall e, res.1 = inl e -> res.2 = st) /\
  (res.1 = inr tt -> exists row, pt_links (st_tables res.2) = <[li_ID l := row]> (pt_links (st_tables st)) /\
     live_link row /\ li_A row = li_A l /\ li_B row = li_B l /\ li_BreakoutID row = None).
Proof.
  intros Hs Hfresh Hlife res. unfold res, CreateLink. rewrite Hlife. cbn [String.eqb li_A li_B li_ID].
  destruct (authorizeLinkSubjects _ _ _ _ _) as [e|permit] eqn:E.
  - cbn [fst snd]. split_and!; [|done|done]. split; [done|]. intros [_ Hj]. exfalso.
    destruct (Hj (li_A l) (or_introl eq_refl)) as [(i & Hi & _ & Ci) _], (Hj (li_B l) (or_intror eq_refl)) as [(j & Hj' & _ & Cj) _].
    unfold authorizeLinkSubjects in E. by rewrite Hi, Hj', Ci, Cj in E.
  - pose proof E as (_ & _ & ->)%authorizeLinkSubjects_inv. rewrite writeSerializable_settles by done.
    set (l' := {| li_ID := li_ID l |}).
    pose proof (write_written Commits (Some (narrow p "link" [li_ID l])) now (create_link_body NewID l') st) as Hw.
    destruct (write _ _ _ _ _) as [[e|[]] st'] eqn:Ew; cbn [fst snd].
    + assert (st' = st) as -> by by inversion Hw. split_and!; [|done|done]. split; [done|]. intros Hj. exfalso.
      destruct (create_link_body_runs NewID _ p now l' st eq_refl Hfresh eq_refl Hj) as [st2 Hrun].
      unfold write, writeTx in Ew. fold (env_of (Some (narrow p "link" [li_ID l])) now) in Ew.
      change (li_ID l') with (li_ID l) in Hrun. by rewrite Hrun in Ew.
    + assert (exists env, create_link_body NewID l' env st = inr (tt, st')) as [env Hrun] by (inversion Hw; eauto).
      apply create_link_body_inv in Hrun as (LA & LB & Hne & Hfree & Et). split_and!; [|done|].
      * split; [intros _|done]. apply authorizeLinkSubjects_inv in E as (HA & HB & _). split; [exact Hne|].
        rewrite patches_none in Hfree. cbn in LA, LB, Hfree. intros port Hport. split.
        -- destruct Hport as [<-| <-]; [destruct LA as (i & Hi & Hl), HA as (i' & Hi' & Hc)
             |destruct LB as (i & Hi & Hl), HB as (i' & Hi' & Hc)]; exists i; by simplify_eq.
        -- intros k m Hk Hm. apply (Hfree k m port Hk Hm). destruct Hport as [<-| <-]; set_solver.
      * intros _. eexists. rewrite Et. cbn. by split_and!.
Qed.

(** While another strand of its breakout is live, a live strand keeps its medium and
    its length through every correction that is accepted. *)
Theorem strand_correction_changes_nothing visited st seen fate p now l row k m b :
  Inj (=) (=) NewID -> history NewID visited st -> seen ∈ visited ->
  pt_links (st_tables st) !! li_ID l = Some row -> live_link row -> li_BreakoutID row = Some b ->
  pt_links (st_tables st) !! k = Some m -> k <> li_ID l -> live_link m -> li_BreakoutID m = Some b ->
  let res := UpdateLink NewID seen fate p now l st in
  res.1 = inr tt ->
  exists row', pt_links (st_tables res.2) !! li_ID l = Some row' /\
    li_Medium row' = li_Medium row /\ li_LengthM row' = li_LengthM row.
Proof.
  intros Hinj Hh Hseen Hrow Hl Hb Hm Hne Hlm Hbm res Hres.
  destruct (history_ok NewID _ _ Hinj Hh) as (Hok & _ & Hv). pose proof (Hv _ Hseen) as Hev. revert Hres. unfold res, UpdateLink.
  destruct (pt_links seen !! li_ID l) as [before|] eqn:Hbefore; [|done]. cbv zeta.
  destruct (ev_links _ _ Hev _ _ Hbefore) as (row' & Hrow' & _ & _ & EK & _). rewrite Hrow in Hrow'. injection Hrow' as <-.
  rewrite <- EK, Hb. destruct (authorizeLinkSubjects _ _ _ _ _) as [e|permit]; [done|].
  match goal with |- (write ?f ?q ?t ?fn st).1 = _ -> _ => pose proof (write_written f q t fn st) as Hw end.
  destruct Hw as [e|[] st' Hrun]; [done|]. intros _. cbn [snd].
  apply bind_inv in Hrun as (u1 & s1 & [-> Hd]%requireNoBreakoutDrift_inv & Hrun). cbn [li_ID li_Medium li_LengthM] in Hd.
  apply bind_inv in Hrun as (u2 & s2 & (t' & Hup & ->)%statement_runs & E3%logUpdate_keeps). cbn in E3.
  apply update_link_inv in Hup as (row' & Hr & _ & Et). cbn in Hr, Et. rewrite Hrow in Hr. injection Hr as <-.
  destruct (Hd k m Hm Hbm) as [E1 E2]; [by rewrite (ck_links _ Hok _ _ Hm)|done|].
  pose proof (ck_pairs _ Hok _ _ _ _ Hrow Hm (not_eq_sym Hne) Hl Hlm) as [_ Hs].
  destruct (Hs b Hb Hbm) as (_ & S1 & S2 & _). rewrite E3, Et. cbn.
  rewrite (ck_links _ Hok _ _ Hrow), lookup_insert_eq. eexists. split; [done|]. cbn. by rewrite S1, S2.
Qed.
End Theorems.

(** * Samples *)

#[local] Existing Instance AssetWrites.sample_unicode.
#[local] Existing Instance AssetWrites.sample_codes.

#[export] Instance sample_ids_inj : Inj (=) (=) sample_ids.
Proof.
  assert (forall n, String.length (sample_ids n) = n) as Hlen.
  { induction n as [|n IH]; [done|]. rewrite <- IH at 2. by destruct n. }
  intros n m Heq. by rewrite <- (Hlen n), Heq, Hlen.
Qed.

(** Performed requests make a history, which holds its last tables. *)
Lemma performed_history ops : forall visited st, history sample_ids visited st -> st_tables st ∈ visited ->
  exists visited', history sample_ids visited' (foldl perform st ops) /\ st_tables (foldl perform st ops) ∈ visited'.
Proof.
  induction ops as [|op ops IH]; intros visited st Hh Hin; cbn [foldl]; [eauto|].
  eapply IH; [by apply history_asset|by left].
Qed.

Lemma machine_hall_history : exists visited, history sample_ids visited machine_hall /\ st_tables machine_hall ∈ visited.
Proof. eapply (performed_history opening), list_elem_of_here. by apply (history_starts sample_ids). Qed.

Definition cable_request (st : Store AssetTables) (op : CablingOp) : CablingRequest :=
  {| cq_seen := st_tables st; cq_fates := fun _ => Commits; cq_permit := systemPermit "sample"; cq_now := 0%Z; cq_op := op |}.

#[local] Opaque machine_hall.

(** A breakout from the first port of s1 to both ports of s2. *)
Definition sample_breakout : BreakoutSpec :=
  {| bs_A := sample_ids 4; bs_B := [sample_ids 9; sample_ids 10]; bs_Medium := Some "dac"; bs_LengthM := Some 3%Z |}.
Definition cabled_hall : Store AssetTables := run_cabling sample_ids machine_hall (cable_request machine_hall (OpCreateBreakout sample_breakout)).

Lemma cabled_hall_history : exists visited, history sample_ids visited cabled_hall /\ st_tables cabled_hall ∈ visited.
Proof.
  destruct machine_hall_history as (visited & Hh & Hin). eexists. split; [|apply list_elem_of_here].
  exact (history_cabling sample_ids visited machine_hall (cable_request machine_hall (OpCreateBreakout sample_breakout)) Hh Hin).
Qed.

Lemma machine_hall_uncabled id : pt_links (st_tables machine_hall) !! id = None.
Proof. assert (pt_links (st_tables machine_hall) = ∅) as -> by (vm_compute; reflexivity). apply lookup_empty. Qed.

Definition sample_strand (n : nat) (position : Z) (port : nat) : Link :=
  strand_row sample_breakout (sample_ids 13) position (sample_ids port) (sample_ids n).

Lemma cabled_hall_links :
  pt_links (st_tables cabled_hall) !! sample_ids 14 = Some (sample_strand 14 1 9) /\
  pt_links (st_tables cabled_hall) !! sample_ids 15 = Some (sample_strand 15 2 10).
Proof. split; vm_compute; reflexivity. Qed.

#[local] Opaque cabled_hall.

Lemma cabling_is_physical_witness :
  li_B (sample_strand 14 1 9) <> li_B (sample_strand 15 2 10).
Proof.
  destruct cabled_hall_history as (visited & Hh & _). destruct cabled_hall_links as [H1 H2].
  destruct (cabling_is_physical sample_ids visited cabled_hall _ Hh) as [Hport _].
  by destruct (Hport _ _ _ _ (sample_ids 4) H1 H2) as (_ & _ & Hne & _); [done|done|done|left|left|].
Defined.

Lemma cabling_confined_witness :
  port_covered (systemPermit "sample") (st_tables cabled_hall) (sample_ids 9) /\
  cable_covered (systemPermit "sample") (st_tables cabled_hall) (sample_ids 14).
Proof.
  destruct machine_hall_history as (visited & Hh & Hin).
  assert (within_permit (systemPermit "sample") machine_hall cabled_hall) as Hc by exact (cabling_confined sample_ids visited machine_hall
    (cable_request machine_hall (OpCreateBreakout sample_breakout)) sample_ids_inj Hh Hin).
  destruct cabled_hall_links as [H1 _].
  assert (cable_covered (systemPermit "sample") (st_tables cabled_hall) (sample_ids 14)) as Hcable.
  { apply (wp_links _ _ _ Hc). rewrite H1, machine_hall_uncabled. discriminate. }
  split; [|exact Hcable]. destruct Hcable as (l & Hl & _ & HB). rewrite H1 in Hl. by injection Hl as <-.
Defined.

Definition sample_cable (id : string) (a b : nat) : Link :=
  {| li_ID := id; li_A := sample_ids a; li_B := sample_ids b; li_Medium := Some "cat6"; li_LengthM := None;
     li_Lifecycle := ""; li_RowVersion := 0; li_BreakoutID := None; li_BreakoutPosition := None |}.

Lemma CreateLink_outcome_witness :
  joinable (st_tables machine_hall) (systemPermit "sample") (sample_cable "c" 5 9).
Proof.
  assert (settles (fun _ => Commits)) as Hs by by left.
  assert (pt_links (st_tables machine_hall) !! "c" = None) as Hf by (vm_compute; reflexivity).
  apply (CreateLink_outcome sample_ids (fun _ => Commits) (systemPermit "sample") 0%Z (sample_cable "c" 5 9) machine_hall Hs Hf eq_refl).
  vm_compute. reflexivity.
Defined.

(** A second length for one strand is refused; the length it has is accepted. *)
Definition corrected (length : Z) : Link :=
  {| li_ID := sample_ids 14; li_A := ""; li_B := ""; li_Medium := Some "dac"; li_LengthM := Some length;
     li_Lifecycle := ""; li_RowVersion := 1; li_BreakoutID := None; li_BreakoutPosition := None |}.

Lemma strand_correction_changes_nothing_witness :
  let res length := UpdateLink sample_ids (st_tables cabled_hall) Commits (systemPermit "sample") 0%Z (corrected length) cabled_hall in
  (exists row, pt_links (st_tables (res 3%Z).2) !! sample_ids 14 = Some row /\ li_LengthM row = Some 3%Z) /\
  (exists ve, (res 5%Z).1 = inl (Invalid ve)).
Proof.
  destruct cabled_hall_history as (visited & Hh & Hin). destruct cabled_hall_links as [H1 H2]. cbv zeta. split.
  - assert ((UpdateLink sample_ids (st_tables cabled_hall) Commits (systemPermit "sample") 0%Z (corrected 3%Z) cabled_hall).1 = inr tt)
      as Hres by (vm_compute; reflexivity).
    assert (sample_ids 15 <> sample_ids 14) as Hne by by intros [=]%sample_ids_inj.
    destruct (strand_correction_changes_nothing sample_ids visited cabled_hall (st_tables cabled_hall) Commits (systemPermit "sample") 0%Z
      (corrected 3%Z) (sample_strand 14 1 9) (sample_ids 15) (sample_strand 15 2 10) (sample_ids 13)
      sample_ids_inj Hh Hin H1 eq_refl eq_refl H2 Hne eq_refl eq_refl Hres) as (row & Hrow & _ & Hl).
    exists row. split; [exact Hrow|exact Hl].
  - eexists. vm_compute. reflexivity.
Defined.

(** A retired asset keeps its ports, which still take cables. *)
Lemma cable_to_a_retired_asset :
  let retired := perform machine_hall (OpRetire "s2") in
  let st := run_cabling sample_ids retired (cable_request retired (OpCreateLink (sample_cable "c" 5 9))) in
  as_Lifecycle <$> pt_assets (st_tables st) !! "s2" = Some LifecycleRetired /\
  (exists l i, pt_links (st_tables st) !! "c" = Some l /\ live_link l /\
     pt_interfaces (st_tables st) !! li_B l = Some i /\ if_AssetID i = "s2").
Proof.
  cbv zeta. split; [vm_compute; reflexivity|]. eexists _, _.
  split; [vm_compute; reflexivity|]. split; [reflexivity|]. split; vm_compute; reflexivity.
Qed.
