(* ===== verification/Invariants.v ===== *)
(** Invariants of the tables through a transaction: what its statements keep, its body
    keeps, and so does the write that runs it. *)
From Stdlib Require Import String ZArith Lia.
From stdpp Require Import base gmap strings list.
From S2P Require Import Prelude Text Errors Timestamps Permits ChangeLog Containment AssetWrites.

(** * Definitions *)

(** The rows of a table. *)
Definition rows {K V} `{Countable K} (m : gmap K V) : list V := (map_to_list m).*2.

(** A key of a table. *)
Definition known {V} (m : gmap string V) (id : string) : bool := bool_decide (is_Some (m !! id)).

(** A reference that is recorded names a row. *)
Definition refers {V} (m : gmap string V) (ref : option string) : Prop := forall id, ref = Some id -> is_Some (m !! id).

(** * Lemmas *)

(** A body that leads from tables with the invariant to tables with it. *)
Definition keeps {T A} (I : T -> Prop) (m : Tx T A) : Prop :=
  forall env st a st', m env st = inr (a, st') -> I (st_tables st) -> I (st_tables st').

Section Keeping.
Context (NewID : nat -> string) {T : Type} (I : T -> Prop).

Lemma kept_ret {A} (a : A) : keeps I (mret a : Tx T A).
Proof. by intros env st x st' [-> ->]%ret_inv. Qed.

Lemma kept_fail {A} e : keeps I (fail e : Tx T A).
Proof. by intros env st x st'. Qed.

Lemma kept_query {A} (f : T -> A) : keeps I (query f).
Proof. by intros env st x st' [-> ->]%query_inv. Qed.

Lemma kept_bind {A B} (m : Tx T A) (f : A -> Tx T B) : keeps I m -> (forall a, keeps I (f a)) -> keeps I (m ≫= f).
Proof. intros Hm Hf env st b st' (a & st1 & H1 & H2)%bind_inv Hi. eapply Hf; [done|]. by eapply Hm. Qed.

Lemma kept_statement (f : T -> StoreError + T) : (forall t t', I t -> f t = inr t' -> I t') -> keeps I (statement f).
Proof. intros Hf env st a st' (t' & Ht & ->)%statement_inv Hi. by eapply Hf. Qed.

Lemma kept_log t id action d b : keeps I (log NewID t id action d b : Tx T unit).
Proof. by intros env st a st' [_ ->]%log_inv. Qed.

Lemma kept_logCreate t id s : keeps I (logCreate NewID t id s : Tx T unit).
Proof. by intros env st a st' [_ ->]%logCreate_inv. Qed.

Lemma kept_logUpdate t id b s : keeps I (logUpdate NewID t id b s : Tx T unit).
Proof. by intros env st a st' [_ ->]%logUpdate_inv. Qed.

Lemma kept_each {A} (f : A -> Tx T unit) l : (forall x, keeps I (f x)) -> keeps I (each f l).
Proof. intros Hf. induction l as [|x l IH]; [apply kept_ret|]. by apply kept_bind. Qed.

Lemma kept_written {A} p now (m : Tx T A) st res :
  keeps I m -> written_by p now m st res -> I (st_tables st) -> I (st_tables res.2).
Proof. intros Hm [e|a st' Hrun] Hi; [done|]. by eapply Hm. Qed.

Lemma kept_write {A} fate p now (m : Tx T A) st :
  keeps I m -> I (st_tables st) -> I (st_tables (write fate p now m st).2).
Proof. intros Hm. eapply kept_written, write_written. exact Hm. Qed.

Lemma kept_writeSerializable {A} fates p now (m : Tx T A) st :
  keeps I m -> I (st_tables st) -> I (st_tables (writeSerializable fates p now m st).2).
Proof. intros Hm. eapply kept_written, writeSerializable_written. exact Hm. Qed.
End Keeping.

Create HintDb keeps.
#[export] Hint Resolve kept_ret kept_fail kept_query kept_log kept_logCreate kept_logUpdate : keeps.

(** A body keeps what its statements keep: through binds, loops and tests. *)
Ltac keeping :=
  repeat first
    [ progress intros
    | solve [auto with keeps]
    | apply kept_bind
    | apply kept_each
    | match goal with |- keeps _ (match ?x with _ => _ end) => destruct x end ].

(** ** Rows of a table *)

Lemma known_spec {V} (m : gmap string V) id : known m id = true <-> is_Some (m !! id).
Proof. apply bool_decide_eq_true. Qed.

Lemma names_known {V} (m : gmap string V) ref : names_a (known m) ref = true -> refers m ref.
Proof. intros Hn id ->. by apply known_spec. Qed.

Lemma known_fresh {V} (m : gmap string V) id : m !! id = None -> known m id = false.
Proof. intros E. unfold known. rewrite E. by apply bool_decide_eq_false, eq_None_not_Some. Qed.

Lemma elem_of_table {K V} `{Countable K} (m : gmap K V) v : v ∈ (map_to_list m).*2 <-> exists k, m !! k = Some v.
Proof.
  rewrite list_elem_of_fmap. split.
  - intros ([k v'] & -> & Hin%elem_of_map_to_list). by exists k.
  - intros [k Hk]. exists (k, v). split; [done|by apply elem_of_map_to_list].
Qed.

(** A row of a table with one row changed. *)
Lemma alter_row {K V} `{Countable K} (f : V -> V) k (m : gmap K V) j v' :
  alter f k m !! j = Some v' -> exists v, m !! j = Some v /\ (v' = v \/ (j = k /\ v' = f v)).
Proof. rewrite lookup_alter_Some. intros [(<- & v & Hv & ->)|[_ Hv]]; eauto. Qed.

Lemma alter_is_Some {K V} `{Countable K} (f : V -> V) k (m : gmap K V) j :
  is_Some (m !! j) -> is_Some (alter f k m !! j).
Proof. by rewrite lookup_alter_is_Some. Qed.

(** No row of a kind, when a search finds none. *)
Lemma none_of_rows {K V} `{Countable K} (m : gmap K V) (p : V -> bool) :
  existsb p (rows m) = false -> forall k v, m !! k = Some v -> p v = false.
Proof. rewrite existsb_false, Forall_forall. intros Hp k v Hk. apply Hp, elem_of_table. eauto. Qed.

(** No row of a kind, when their count is zero. *)
Lemma count_rows_zero {K V} `{Countable K} (p : V -> bool) (m : gmap K V) :
  (0 <? count_if p (map_to_list m).*2)%nat = false -> forall k v, m !! k = Some v -> p v = false.
Proof.
  intros Hc%Nat.ltb_ge k v Hk. destruct (p v) eqn:E; [|done]. exfalso.
  assert (In v (List.filter p (map_to_list m).*2)) as Hin.
  { apply filter_In. split; [apply list_elem_of_In, elem_of_table; eauto|done]. }
  unfold count_if in Hc. destruct (List.filter p (map_to_list m).*2); [done|]. cbn in Hc. lia.
Qed.

(** ** Bodies that check before they write *)

(** A body that leads from tables with one property to tables with another. *)
Definition leads {T A} (P : T -> Prop) (m : Tx T A) (Q : T -> Prop) : Prop :=
  forall env st a st', m env st = inr (a, st') -> P (st_tables st) -> Q (st_tables st').

(** A check: it changes nothing, and once it is passed the tables have the property. *)
Definition checks {T A} (m : Tx T A) (Q : T -> Prop) : Prop :=
  forall env st a st', m env st = inr (a, st') -> st' = st /\ Q (st_tables st).

Section Checking.
Context {T : Type}.
Implicit Types P Q R : T -> Prop.

Lemma checks_ret {A} (a : A) : checks (mret a : Tx T A) (fun _ => True).
Proof. by intros env st x st' [-> ->]%ret_inv. Qed.

Lemma checks_bind {A B} (m : Tx T A) (f : A -> Tx T B) P Q :
  checks m P -> (forall a, checks (f a) Q) -> checks (m ≫= f) (fun t => P t /\ Q t).
Proof.
  intros Hm Hf env st b st' (a & st1 & H1 & H2)%bind_inv.
  destruct (Hm _ _ _ _ H1) as [-> Hp]. by destruct (Hf _ _ _ _ _ H2) as [-> Hq].
Qed.

Lemma checks_query {A B} (f : T -> A) (k : A -> Tx T B) Q :
  (forall a, checks (k a) (fun t => a = f t -> Q t)) -> checks (query f ≫= k) Q.
Proof.
  intros Hk env st b st' (a & st1 & [-> ->]%query_inv & H)%bind_inv.
  destruct (Hk _ _ _ _ _ H) as [-> Hq]. auto.
Qed.

Lemma checks_fail {A} e Q : checks (fail e : Tx T A) Q.
Proof. by intros env st x st'. Qed.

Lemma leads_after {A B} (m : Tx T A) (f : A -> Tx T B) P Q R :
  checks m Q -> (forall a, leads (fun t => P t /\ Q t) (f a) R) -> leads P (m ≫= f) R.
Proof.
  intros Hm Hf env st b st' (a & st1 & H1 & H2)%bind_inv Hp. destruct (Hm _ _ _ _ H1) as [-> Hq]. by eapply Hf.
Qed.

Lemma leads_statement {A} (f : T -> StoreError + T) (k : unit -> Tx T A) P R :
  (forall t t', P t -> f t = inr t' -> R t') -> (forall a, keeps R (k a)) -> leads P (statement f ≫= k) R.
Proof.
  intros Hf Hk env st b st' (a & st1 & (t' & Ht & <-)%statement_inv & H2)%bind_inv Hp. eapply Hk; [done|]. by eapply Hf.
Qed.

Lemma leads_write {A} fate p now (m : Tx T A) st P R :
  leads P m R -> P (st_tables st) -> R (st_tables st) -> R (st_tables (write fate p now m st).2).
Proof.
  intros Hm Hp Hr. destruct (write_written fate p now m st) as [e|a st' Hrun]; [done|]. by eapply Hm.
Qed.

Lemma leads_writeSerializable {A} fates p now (m : Tx T A) st P R :
  leads P m R -> P (st_tables st) -> R (st_tables st) -> R (st_tables (writeSerializable fates p now m st).2).
Proof.
  intros Hm Hp Hr. destruct (writeSerializable_written fates p now m st) as [e|a st' Hrun]; [done|]. by eapply Hm.
Qed.
End Checking.
