(* ===== verification/NetRows.v ===== *)
(** The declared topology: the rows of [internal/domain/reach.go] with their
    constructors and checks.

    Forwarder groups, the assets in them, directed uplinks between them, attachments
    of hosts and anchors of a scope. The columns that say where a row comes from, which
    four of the five types share, are one record. *)
From Stdlib Require Import String Ascii ZArith Qcanon.
From stdpp Require Import base gmap strings list numbers.
From S2P Require Import Prelude Status Graph Text Errors Timestamps Actors ChangeLog.

#[local] Open Scope string_scope.
#[local] Open Scope list_scope.

(** * Definitions *)

(** ** Vocabularies *)

Definition NetGroupKinds := ["standalone"; "ha_pair"; "mclag"; "stack"; "vrrp"; "cluster"].
Definition NetGroupRoles := ["edge"; "core"; "distribution"; "access"].
Definition FailoverModes := ["auto"; "manual"; "none"].
Definition ServiceLifecycles := [LifecyclePlanned; LifecycleActive; LifecycleDeprecated; LifecycleRetired].
Definition NetGroupAvailabilities := [AvailStandalone; AvailActiveActive; AvailActivePassive].
Definition NetGroupMemberRoles := ["primary"; "standby"; "member"].
Definition Planes := [PlaneData; PlaneMgmt; PlaneStorage].
Definition NetworkSources := [SourceDeclared; "derived_link"; "discovered_lldp"].
Definition AnchorScopes := ["environment"; "cross_env"; "external"].
Definition AttachableAssetKinds := ["server"; "hypervisor"; "cluster"; "vm"; "k8s_node"; "bridge"; "storage"].

(** The lifecycles of the rows that are edges. *)
Definition edge_lifecycles := [LifecycleActive; LifecycleRetired].

(** [NetRoleRank], from position [n] of the roles. *)
Fixpoint rank_from (n : nat) (roles : list string) (role : string) : nat :=
  match roles with
  | [] => n
  | r :: roles' => if String.eqb r role then n else rank_from (S n) roles' role
  end.

Definition NetRoleRank (role : string) : nat := rank_from 0 NetGroupRoles role.

(** ** Rows *)

(** [source], [confidence], [first_seen], [last_seen], [verified_by], [verified_at]. A
    confidence is the number its [float64] stands for; one that is no number (NaN), which
    passes the comparisons of the check, is not modelled. *)
Record Provenance := {
  pv_Source : string; pv_Confidence : option Qc; pv_FirstSeen : option string; pv_LastSeen : option string;
  pv_VerifiedBy : option string; pv_VerifiedAt : option string
}.

Record NetGroup := {
  ng_ID : string; ng_Code : string; ng_Name : string; ng_Kind : string; ng_Role : string; ng_Availability : string;
  ng_MinHealthy : option Z; ng_FailoverMode : option string; ng_EnvironmentID : option string;
  ng_Lifecycle : string; ng_Provenance : Provenance; ng_Attrs : string; ng_CreatedAt : string; ng_UpdatedAt : string;
  ng_RowVersion : Z
}.

Record NetGroupSpec := {
  gs_Code : string; gs_Name : string; gs_Kind : string; gs_Role : string; gs_Availability : string;
  gs_MinHealthy : option Z; gs_FailoverMode : option string; gs_EnvironmentID : option string
}.

Record NetGroupMember := {
  nm_GroupID : string; nm_AssetID : string; nm_Role : string; nm_Lifecycle : string; nm_CreatedAt : string;
  nm_UpdatedAt : string
}.

Record NetUplink := {
  nu_ID : string; nu_GroupID : string; nu_UpstreamGroupID : string; nu_Plane : string; nu_Lifecycle : string;
  nu_Provenance : Provenance; nu_CreatedAt : string; nu_UpdatedAt : string
}.

Record NetAttachment := {
  na_ID : string; na_AssetID : string; na_GroupID : string; na_Plane : string; na_Lifecycle : string;
  na_Provenance : Provenance; na_CreatedAt : string; na_UpdatedAt : string
}.

Record NetAttachmentMember := { am_AttachmentID : string; am_AssetID : string; am_InterfaceID : option string }.

Record NetAnchor := {
  an_ID : string; an_Code : string; an_Name : string; an_Scope : string; an_GroupID : string;
  an_EnvironmentID : option string; an_Plane : string; an_Lifecycle : string; an_Provenance : Provenance;
  an_CreatedAt : string; an_UpdatedAt : string; an_RowVersion : Z
}.

(** What a person declares. *)
Definition declared_provenance : Provenance :=
  {| pv_Source := SourceDeclared; pv_Confidence := None; pv_FirstSeen := None; pv_LastSeen := None;
     pv_VerifiedBy := None; pv_VerifiedAt := None |}.

(** ** Checks *)

Definition or_blank (s : option string) : bool := match s with Some v => String.eqb v "" | None => true end.

(** The last check of four of the validators. *)
Definition check_confidence (ve : ValidationError) (p : Provenance) : ValidationError :=
  match pv_Confidence p with
  | Some c => if bool_decide (c < 0)%Qc || bool_decide (1 < c)%Qc then Add ve "confidence" "must be between 0 and 1" else ve
  | None => ve
  end.

Section Validation.
Context `{Unicode}.

(** [NetGroup.Validate] *)
Definition ValidateNetGroup (g : NetGroup) : NetGroup * option ValidationError :=
  let '(ve, code) := checkRequired [] "code" (ng_Code g) in
  let '(ve, name) := checkRequired ve "name" (ng_Name g) in
  let ve := checkEnum ve "kind" (ng_Kind g) NetGroupKinds in
  let ve := checkEnum ve "role" (ng_Role g) NetGroupRoles in
  let ve := checkEnum ve "availability" (ng_Availability g) NetGroupAvailabilities in
  let ve := checkEnum ve "lifecycle" (ng_Lifecycle g) ServiceLifecycles in
  let ve := checkEnum ve "source" (pv_Source (ng_Provenance g)) NetworkSources in
  let ve := match ng_FailoverMode g with
    | Some m => if String.eqb m "" then ve else checkEnum ve "failover_mode" m FailoverModes
    | None => ve
    end in
  let ve := if String.eqb (ng_Availability g) AvailActiveActive then
      match ng_MinHealthy g with
      | None => Add ve "min_healthy" "is required for active_active"
      | Some n => if (n <? 1)%Z then Add ve "min_healthy" "must be at least 1" else ve
      end
    else ve in
  let ve := if String.eqb (ng_Availability g) AvailActivePassive && or_blank (ng_FailoverMode g)
            then Add ve "failover_mode" "is required for active_passive" else ve in
  let ve := check_confidence ve (ng_Provenance g) in
  ({| ng_ID := ng_ID g; ng_Code := ToLower code; ng_Name := name; ng_Kind := ng_Kind g; ng_Role := ng_Role g;
      ng_Availability := ng_Availability g; ng_MinHealthy := ng_MinHealthy g; ng_FailoverMode := ng_FailoverMode g;
      ng_EnvironmentID := ng_EnvironmentID g; ng_Lifecycle := ng_Lifecycle g; ng_Provenance := ng_Provenance g;
      ng_Attrs := if String.eqb (TrimSpace (ng_Attrs g)) "" then "{}" else ng_Attrs g;
      ng_CreatedAt := ng_CreatedAt g; ng_UpdatedAt := ng_UpdatedAt g; ng_RowVersion := ng_RowVersion g |}, OrNil ve).

(** [NewNetGroup] *)
Definition NewNetGroup (id : string) (spec : NetGroupSpec) (now : Time) : ValidationError + NetGroup :=
  let '(g, err) := ValidateNetGroup
    {| ng_ID := id; ng_Code := ToLower (TrimSpace (gs_Code spec)); ng_Name := gs_Name spec; ng_Kind := gs_Kind spec;
       ng_Role := gs_Role spec; ng_Availability := gs_Availability spec; ng_MinHealthy := gs_MinHealthy spec;
       ng_FailoverMode := gs_FailoverMode spec; ng_EnvironmentID := gs_EnvironmentID spec;
       ng_Lifecycle := LifecycleActive; ng_Provenance := declared_provenance; ng_Attrs := "{}";
       ng_CreatedAt := FormatTime now; ng_UpdatedAt := FormatTime now; ng_RowVersion := 0 |} in
  match err with Some e => inl e | None => inr g end.

(** [NetGroupMember.Validate] *)
Definition ValidateNetGroupMember (m : NetGroupMember) : NetGroupMember * option ValidationError :=
  let '(ve, _) := checkRequired [] "group_id" (nm_GroupID m) in
  let '(ve, _) := checkRequired ve "asset_id" (nm_AssetID m) in
  let ve := checkEnum ve "role" (nm_Role m) NetGroupMemberRoles in
  let lifecycle := if String.eqb (nm_Lifecycle m) "" then LifecycleActive else nm_Lifecycle m in
  let ve := checkEnum ve "lifecycle" lifecycle edge_lifecycles in
  ({| nm_GroupID := nm_GroupID m; nm_AssetID := nm_AssetID m; nm_Role := nm_Role m; nm_Lifecycle := lifecycle;
      nm_CreatedAt := nm_CreatedAt m; nm_UpdatedAt := nm_UpdatedAt m |}, OrNil ve).

(** [NewNetGroupMember] *)
Definition NewNetGroupMember (groupID assetID role : string) (now : Time) : ValidationError + NetGroupMember :=
  let '(m, err) := ValidateNetGroupMember
    {| nm_GroupID := groupID; nm_AssetID := assetID; nm_Role := if String.eqb role "" then "member" else role;
       nm_Lifecycle := LifecycleActive; nm_CreatedAt := FormatTime now; nm_UpdatedAt := FormatTime now |} in
  match err with Some e => inl e | None => inr m end.

(** [NetUplink.Validate] *)
Definition ValidateNetUplink (u : NetUplink) : option ValidationError :=
  let '(ve, _) := checkRequired [] "group_id" (nu_GroupID u) in
  let '(ve, _) := checkRequired ve "upstream_group_id" (nu_UpstreamGroupID u) in
  let ve := if negb (String.eqb (nu_GroupID u) "") && String.eqb (nu_GroupID u) (nu_UpstreamGroupID u)
            then Add ve "upstream_group_id" "a group cannot uplink to itself" else ve in
  let ve := checkEnum ve "plane" (nu_Plane u) Planes in
  let ve := checkEnum ve "lifecycle" (nu_Lifecycle u) edge_lifecycles in
  let ve := checkEnum ve "source" (pv_Source (nu_Provenance u)) NetworkSources in
  OrNil (check_confidence ve (nu_Provenance u)).

(** [NewNetUplink] *)
Definition NewNetUplink (id groupID upstreamGroupID plane : string) (now : Time) : ValidationError + NetUplink :=
  let u := {| nu_ID := id; nu_GroupID := groupID; nu_UpstreamGroupID := upstreamGroupID;
    nu_Plane := if String.eqb plane "" then PlaneData else plane; nu_Lifecycle := LifecycleActive;
    nu_Provenance := declared_provenance; nu_CreatedAt := FormatTime now; nu_UpdatedAt := FormatTime now |} in
  match ValidateNetUplink u with Some e => inl e | None => inr u end.

(** [NetAttachment.Validate] *)
Definition ValidateNetAttachment (a : NetAttachment) : option ValidationError :=
  let '(ve, _) := checkRequired [] "asset_id" (na_AssetID a) in
  let '(ve, _) := checkRequired ve "group_id" (na_GroupID a) in
  let ve := checkEnum ve "plane" (na_Plane a) Planes in
  let ve := checkEnum ve "lifecycle" (na_Lifecycle a) edge_lifecycles in
  let ve := checkEnum ve "source" (pv_Source (na_Provenance a)) NetworkSources in
  OrNil (check_confidence ve (na_Provenance a)).

(** [NewNetAttachment] *)
Definition NewNetAttachment (id assetID groupID plane : string) (now : Time) : ValidationError + NetAttachment :=
  let a := {| na_ID := id; na_AssetID := assetID; na_GroupID := groupID;
    na_Plane := if String.eqb plane "" then PlaneData else plane; na_Lifecycle := LifecycleActive;
    na_Provenance := declared_provenance; na_CreatedAt := FormatTime now; na_UpdatedAt := FormatTime now |} in
  match ValidateNetAttachment a with Some e => inl e | None => inr a end.

(** [NewNetAttachmentMember] *)
Definition NewNetAttachmentMember (attachmentID assetID : string) (interfaceID : option string)
    : ValidationError + NetAttachmentMember :=
  let '(ve, _) := checkRequired [] "attachment_id" attachmentID in
  let '(ve, _) := checkRequired ve "asset_id" assetID in
  match OrNil ve with
  | Some e => inl e
  | None => inr {| am_AttachmentID := attachmentID; am_AssetID := assetID; am_InterfaceID := interfaceID |}
  end.

(** [NetAnchor.Validate] *)
Definition ValidateNetAnchor (a : NetAnchor) : NetAnchor * option ValidationError :=
  let '(ve, code) := checkRequired [] "code" (an_Code a) in
  let '(ve, name) := checkRequired ve "name" (an_Name a) in
  let ve := checkEnum ve "scope" (an_Scope a) AnchorScopes in
  let '(ve, _) := checkRequired ve "group_id" (an_GroupID a) in
  let plane := if String.eqb (an_Plane a) "" then PlaneData else an_Plane a in
  let ve := checkEnum ve "plane" plane Planes in
  let ve := checkEnum ve "lifecycle" (an_Lifecycle a) edge_lifecycles in
  let ve := checkEnum ve "source" (pv_Source (an_Provenance a)) NetworkSources in
  let ve := check_confidence ve (an_Provenance a) in
  ({| an_ID := an_ID a; an_Code := ToLower code; an_Name := name; an_Scope := an_Scope a; an_GroupID := an_GroupID a;
      an_EnvironmentID := an_EnvironmentID a; an_Plane := plane; an_Lifecycle := an_Lifecycle a;
      an_Provenance := an_Provenance a; an_CreatedAt := an_CreatedAt a; an_UpdatedAt := an_UpdatedAt a;
      an_RowVersion := an_RowVersion a |}, OrNil ve).

(** [NewNetAnchor] *)
Definition NewNetAnchor (id code name scope groupID : string) (now : Time) : ValidationError + NetAnchor :=
  let '(a, err) := ValidateNetAnchor
    {| an_ID := id; an_Code := ToLower (TrimSpace code); an_Name := name; an_Scope := scope; an_GroupID := groupID;
       an_EnvironmentID := None; an_Plane := PlaneData; an_Lifecycle := LifecycleActive;
       an_Provenance := declared_provenance; an_CreatedAt := FormatTime now; an_UpdatedAt := FormatTime now;
       an_RowVersion := 0 |} in
  match err with Some e => inl e | None => inr a end.
End Validation.

(** ** Rows as the audit reads them *)

Definition provenance_columns (p : Provenance) : list Field :=
  [Column "source" (VText (pv_Source p));
   Column "confidence" (match pv_Confidence p with Some q => VNum q | None => VNull end);
   Column "first_seen" (text_or_null (pv_FirstSeen p)); Column "last_seen" (text_or_null (pv_LastSeen p));
   Column "verified_by" (text_or_null (pv_VerifiedBy p)); Column "verified_at" (text_or_null (pv_VerifiedAt p))].

Definition net_group_struct (g : NetGroup) : Struct :=
  MkStruct "NetGroup"
    ([Column "id" (VText (ng_ID g)); Column "code" (VText (ng_Code g)); Column "name" (VText (ng_Name g));
      Column "kind" (VText (ng_Kind g)); Column "role" (VText (ng_Role g));
      Column "availability" (VText (ng_Availability g)); Column "min_healthy" (int_or_null (ng_MinHealthy g));
      Column "failover_mode" (text_or_null (ng_FailoverMode g));
      Column "environment_id" (text_or_null (ng_EnvironmentID g)); Column "lifecycle" (VText (ng_Lifecycle g))] ++
     provenance_columns (ng_Provenance g) ++
     [Column "attrs" (VText (ng_Attrs g)); Column "created_at" (VText (ng_CreatedAt g));
      Column "updated_at" (VText (ng_UpdatedAt g)); Column "row_version" (VInt (ng_RowVersion g))]).

Definition net_group_member_struct (m : NetGroupMember) : Struct :=
  MkStruct "NetGroupMember"
    [Column "group_id" (VText (nm_GroupID m)); Column "asset_id" (VText (nm_AssetID m));
     Column "role" (VText (nm_Role m)); Column "lifecycle" (VText (nm_Lifecycle m));
     Column "created_at" (VText (nm_CreatedAt m)); Column "updated_at" (VText (nm_UpdatedAt m))].

Definition net_uplink_struct (u : NetUplink) : Struct :=
  MkStruct "NetUplink"
    ([Column "id" (VText (nu_ID u)); Column "group_id" (VText (nu_GroupID u));
      Column "upstream_group_id" (VText (nu_UpstreamGroupID u)); Column "plane" (VText (nu_Plane u));
      Column "lifecycle" (VText (nu_Lifecycle u))] ++ provenance_columns (nu_Provenance u) ++
     [Column "created_at" (VText (nu_CreatedAt u)); Column "updated_at" (VText (nu_UpdatedAt u))]).

Definition net_attachment_struct (a : NetAttachment) : Struct :=
  MkStruct "NetAttachment"
    ([Column "id" (VText (na_ID a)); Column "asset_id" (VText (na_AssetID a)); Column "group_id" (VText (na_GroupID a));
      Column "plane" (VText (na_Plane a)); Column "lifecycle" (VText (na_Lifecycle a))] ++
     provenance_columns (na_Provenance a) ++
     [Column "created_at" (VText (na_CreatedAt a)); Column "updated_at" (VText (na_UpdatedAt a))]).

Definition net_anchor_struct (a : NetAnchor) : Struct :=
  MkStruct "NetAnchor"
    ([Column "id" (VText (an_ID a)); Column "code" (VText (an_Code a)); Column "name" (VText (an_Name a));
      Column "scope" (VText (an_Scope a)); Column "group_id" (VText (an_GroupID a));
      Column "environment_id" (text_or_null (an_EnvironmentID a)); Column "plane" (VText (an_Plane a));
      Column "lifecycle" (VText (an_Lifecycle a))] ++ provenance_columns (an_Provenance a) ++
     [Column "created_at" (VText (an_CreatedAt a)); Column "updated_at" (VText (an_UpdatedAt a));
      Column "row_version" (VInt (an_RowVersion a))]).
