(* ===== verification/Services.v ===== *)
(** Services: [internal/domain/service.go] and the writes of [internal/store/services.go].

    The row of a service with its constructor and checks, and its four writes: creation,
    creation inside a project, update and retirement. [seen] is the table as [GetService]
    read it before the transaction opened. The search index is left out, and the audit
    folds of custom fields and tags are arguments. *)
From Stdlib Require Import String Ascii ZArith Lia.
From stdpp Require Import base gmap strings list.
From S2P Require Import Prelude Status Text Errors Timestamps Actors Permits ChangeLog Projects Assets Containment AssetWrites NetRows.

#[local] Open Scope string_scope.
#[local] Open Scope list_scope.

(** * Definitions *)

(** ** Rows *)

Definition Availabilities := [AvailStandalone; AvailActiveActive; AvailActivePassive; AvailQuorum; AvailSharded].

Record ServiceSpec := {
  ss_Code : string; ss_Name : string; ss_Kind : string; ss_EnvironmentID : string; ss_Availability : string;
  ss_Tier : Z; ss_MinHealthy : option Z; ss_FailoverMode : option string; ss_RTOMinutes : option Z;
  ss_RPOMinutes : option Z; ss_TeamID : option string; ss_ManagerRole : option string; ss_EOLDate : option string
}.

(** A service with the columns a write stamps. *)
Definition stamped_service (lifecycle createdAt updatedAt : string) (version : Z) (s : Service) : Service :=
  {| svc_ID := svc_ID s; svc_Code := svc_Code s; svc_Name := svc_Name s; svc_Kind := svc_Kind s;
     svc_EnvironmentID := svc_EnvironmentID s; svc_Availability := svc_Availability s;
     svc_MinHealthy := svc_MinHealthy s; svc_FailoverMode := svc_FailoverMode s; svc_Tier := svc_Tier s;
     svc_RTOMinutes := svc_RTOMinutes s; svc_RPOMinutes := svc_RPOMinutes s; svc_TeamID := svc_TeamID s;
     svc_ManagerRole := svc_ManagerRole s; svc_Lifecycle := lifecycle; svc_EOLDate := svc_EOLDate s;
     svc_Attrs := svc_Attrs s; svc_CreatedAt := createdAt; svc_UpdatedAt := updatedAt; svc_RowVersion := version |}.

Section Validation.
Context `{Unicode} `{CodeRunes}.

(** [Service.Validate] *)
Definition ValidateService (s : Service) : Service * option ValidationError :=
  let '(ve, code) := checkRequired [] "code" (svc_Code s) in
  let '(ve, name) := checkRequired ve "name" (svc_Name s) in
  let '(ve, kind) := checkVocabulary ve "kind" (svc_Kind s) in
  let ve := checkEnum ve "availability" (svc_Availability s) Availabilities in
  let ve := checkEnum ve "lifecycle" (svc_Lifecycle s) ServiceLifecycles in
  let '(ve, _) := checkRequired ve "environment_id" (svc_EnvironmentID s) in
  let ve := if (svc_Tier s <? 1)%Z || (4 <? svc_Tier s)%Z then Add ve "tier" "must be between 1 and 4" else ve in
  let ve := match svc_FailoverMode s with
    | Some m => if String.eqb m "" then ve else checkEnum ve "failover_mode" m FailoverModes
    | None => ve
    end in
  let '(ve, eol) := checkDate ve "eol_date" (svc_EOLDate s) in
  let '(ve, team, role) := checkResponsibility ve (svc_TeamID s) (svc_ManagerRole s) in
  let ve := if String.eqb (svc_Availability s) AvailActiveActive then
      match svc_MinHealthy s with
      | None => Add ve "min_healthy" "is required for active_active"
      | Some n => if (n <? 1)%Z then Add ve "min_healthy" "must be at least 1" else ve
      end
    else ve in
  let ve := if String.eqb (svc_Availability s) AvailActivePassive && or_blank (svc_FailoverMode s)
            then Add ve "failover_mode" "is required for active_passive" else ve in
  ({| svc_ID := svc_ID s; svc_Code := ToLower code; svc_Name := name; svc_Kind := kind;
      svc_EnvironmentID := svc_EnvironmentID s; svc_Availability := svc_Availability s;
      svc_MinHealthy := svc_MinHealthy s; svc_FailoverMode := svc_FailoverMode s; svc_Tier := svc_Tier s;
      svc_RTOMinutes := svc_RTOMinutes s; svc_RPOMinutes := svc_RPOMinutes s; svc_TeamID := team;
      svc_ManagerRole := role; svc_Lifecycle := svc_Lifecycle s; svc_EOLDate := eol;
      svc_Attrs := if String.eqb (TrimSpace (svc_Attrs s)) "" then "{}" else svc_Attrs s;
      svc_CreatedAt := svc_CreatedAt s; svc_UpdatedAt := svc_UpdatedAt s; svc_RowVersion := svc_RowVersion s |},
   OrNil ve).

(** [NewService] *)
Definition NewService (id : string) (spec : ServiceSpec) (now : Time) : ValidationError + Service :=
  let '(s, err) := ValidateService
    {| svc_ID := id; svc_Code := ToLower (TrimSpace (ss_Code spec)); svc_Name := ss_Name spec;
       svc_Kind := ss_Kind spec; svc_EnvironmentID := ss_EnvironmentID spec;
       svc_Availability := ss_Availability spec; svc_MinHealthy := ss_MinHealthy spec;
       svc_FailoverMode := ss_FailoverMode spec; svc_Tier := ss_Tier spec; svc_RTOMinutes := ss_RTOMinutes spec;
       svc_RPOMinutes := ss_RPOMinutes spec; svc_TeamID := ss_TeamID spec; svc_ManagerRole := ss_ManagerRole spec;
       svc_Lifecycle := LifecycleActive; svc_EOLDate := ss_EOLDate spec; svc_Attrs := "{}";
       svc_CreatedAt := FormatTime now; svc_UpdatedAt := FormatTime now; svc_RowVersion := 0 |} in
  match err with Some e => inl e | None => inr s end.
End Validation.

(** ** The audited shape *)

Definition service_struct (s : Service) : Struct :=
  MkStruct "Service"
    [Column "id" (VText (svc_ID s)); Column "code" (VText (svc_Code s)); Column "name" (VText (svc_Name s));
     Column "kind" (VText (svc_Kind s)); Column "environment_id" (VText (svc_EnvironmentID s));
     Column "availability" (VText (svc_Availability s)); Column "min_healthy" (int_or_null (svc_MinHealthy s));
     Column "failover_mode" (text_or_null (svc_FailoverMode s)); Column "tier" (VInt (svc_Tier s));
     Column "rto_minutes" (int_or_null (svc_RTOMinutes s)); Column "rpo_minutes" (int_or_null (svc_RPOMinutes s));
     Column "team_id" (text_or_null (svc_TeamID s)); Column "manager_role" (text_or_null (svc_ManagerRole s));
     Column "lifecycle" (VText (svc_Lifecycle s)); Column "eol_date" (text_or_null (svc_EOLDate s));
     Column "attrs" (VText (svc_Attrs s)); Column "created_at" (VText (svc_CreatedAt s));
     Column "updated_at" (VText (svc_UpdatedAt s)); Column "row_version" (VInt (svc_RowVersion s))].

(** [auditedService] *)
Definition auditedService (s : Service) (custom tags : string) : Struct :=
  MkStruct "serviceAudit" [Embedded (service_struct s); Column "custom_fields" (VText custom); Column "tags" (VText tags)].

(** ** The tables *)

Record ServiceTables := {
  vt_services : gmap string Service;
  vt_kinds : list string; vt_roles : list string;
  vt_environments : gmap string string;                 (* id to lifecycle *)
  vt_teams : gset string; vt_projects : gset string;
  vt_owners : gmap (string * string) ProjectLink        (* project_service, by project and service *)
}.

Definition with_services (m : gmap string Service) (t : ServiceTables) : ServiceTables :=
  {| vt_services := m; vt_kinds := vt_kinds t; vt_roles := vt_roles t; vt_environments := vt_environments t;
     vt_teams := vt_teams t; vt_projects := vt_projects t; vt_owners := vt_owners t |}.
Definition with_service_owners (o : gmap (string * string) ProjectLink) (t : ServiceTables) : ServiceTables :=
  {| vt_services := vt_services t; vt_kinds := vt_kinds t; vt_roles := vt_roles t;
     vt_environments := vt_environments t; vt_teams := vt_teams t; vt_projects := vt_projects t; vt_owners := o |}.

(** The CHECK on a date column: its length and its two dashes. *)
Definition date_shaped (d : option string) : bool :=
  match d with
  | None => true
  | Some v => (String.length v =? 10)%nat && String.eqb (String.substring 4 1 v) "-" &&
              String.eqb (String.substring 7 1 v) "-"
  end.

(** The CHECK constraints. *)
Definition service_checks (s : Service) : bool :=
  containsString Availabilities (svc_Availability s) && names_a (containsString FailoverModes) (svc_FailoverMode s) &&
  ((1 <=? svc_Tier s)%Z && (svc_Tier s <=? 4)%Z) && containsString ServiceLifecycles (svc_Lifecycle s) &&
  date_shaped (svc_EOLDate s).

(** [UNIQUE (code)] *)
Definition code_taken (t : ServiceTables) (s : Service) : bool :=
  existsb (fun r => String.eqb (svc_Code r) (svc_Code s) && negb (String.eqb (svc_ID r) (svc_ID s)))
    (map_to_list (vt_services t)).*2.

(** The foreign keys. *)
Definition service_references (t : ServiceTables) (s : Service) : bool :=
  containsString (vt_kinds t) (svc_Kind s) && bool_decide (is_Some (vt_environments t !! svc_EnvironmentID s)) &&
  names_a (fun id => bool_decide (id ∈ vt_teams t)) (svc_TeamID s) &&
  names_a (containsString (vt_roles t)) (svc_ManagerRole s).

Definition put_service (s : Service) (t : ServiceTables) : StoreError + ServiceTables :=
  if negb (service_checks s) then refused ErrInvalid
  else if code_taken t s then refused ErrConflict
  else if negb (service_references t s) then refused ErrInvalid
  else inr (with_services (<[svc_ID s := s]> (vt_services t)) t).

(** The row an [INSERT] makes: [row_version] has its default. *)
Definition first_version (s : Service) : Service :=
  stamped_service (svc_Lifecycle s) (svc_CreatedAt s) (svc_UpdatedAt s) 1 s.

(** [INSERT INTO service] *)
Definition insert_service (s : Service) (t : ServiceTables) : StoreError + ServiceTables :=
  if bool_decide (is_Some (vt_services t !! svc_ID s)) then refused ErrConflict else put_service (first_version s) t.

(** [UPDATE service SET ... WHERE id = ? AND row_version = ?] and [requireVersion]. *)
Definition update_service (s : Service) (t : ServiceTables) : StoreError + ServiceTables :=
  match vt_services t !! svc_ID s with
  | None => refused ErrStale
  | Some row =>
      if (svc_RowVersion row =? svc_RowVersion s)%Z
      then put_service (stamped_service (svc_Lifecycle s) (svc_CreatedAt row) (svc_UpdatedAt s) (svc_RowVersion row + 1) s) t
      else refused ErrStale
  end.

(** [UPDATE service SET lifecycle = 'retired', ...] *)
Definition retire_service (id at_ : string) (t : ServiceTables) : StoreError + ServiceTables :=
  match vt_services t !! id with
  | None => inr t
  | Some row => put_service (stamped_service LifecycleRetired (svc_CreatedAt row) at_ (svc_RowVersion row + 1) row) t
  end.

(** ** Checks of a transaction *)

(** [requireAssignableEnvironment] on a column that is not null. *)
Definition requireAssignableEnvironment (field next : string) (current : option string) : Tx ServiceTables unit :=
  if String.eqb next "" || bool_decide (current = Some next) then mret tt
  else
    lifecycle ← query (fun t => vt_environments t !! next);
    match lifecycle with
    | None => fail (Invalid (Add [] field "choose an environment"))
    | Some l => if String.eqb l LifecycleRetired
                then fail (Invalid (Add [] field "that environment has been withdrawn")) else mret tt
    end.

(** [requireRole] *)
Definition requireManagerRole (role : option string) : Tx ServiceTables unit :=
  match role with
  | None => mret tt
  | Some r => if String.eqb r "" then mret tt else requireVocabulary vt_roles "manager_role" r
  end.

(** ** Writes *)

Section Store.
Context `{Unicode} `{CodeRunes} (NewID : nat -> string).

(** [insertService] *)
Definition insertService (s : Service) : Tx ServiceTables unit :=
  _ ← requireVocabulary vt_kinds "kind" (svc_Kind s);
  _ ← requireAssignableEnvironment "environment_id" (svc_EnvironmentID s) None;
  _ ← requireManagerRole (svc_ManagerRole s);
  _ ← statement (insert_service s);
  logCreate NewID "service" (svc_ID s) (auditedService s "" "").

(** [CreateService] *)
Definition CreateService (fate : Fate) (p : option Permit) (now : Time) (s : Service) (st : Store ServiceTables)
    : (StoreError + unit) * Store ServiceTables :=
  match ValidateService (first_version s) with
  | (_, Some ve) => (inl (Invalid ve), st)
  | (s, None) => write fate p now (insertService s) st
  end.

(** A plain [INSERT INTO project_service]. *)
Definition insert_service_owner (link : ProjectLink) (t : ServiceTables) : StoreError + ServiceTables :=
  let key := (pl_ProjectID link, pl_EntityID link) in
  if bool_decide (is_Some (vt_owners t !! key)) ||
     existsb (fun l => String.eqb (pl_EntityID l) (pl_EntityID link) && String.eqb (pl_Relation l) ProjectOwns &&
                       String.eqb (pl_Lifecycle l) LifecycleActive) (map_to_list (vt_owners t)).*2
  then refused ErrConflict
  else if bool_decide (pl_ProjectID link ∉ vt_projects t) || bool_decide (vt_services t !! pl_EntityID link = None)
  then refused ErrInvalid
  else inr (with_service_owners (<[key := link]> (vt_owners t)) t).

Definition new_owner (projectID entityID at_ : string) : ProjectLink :=
  {| pl_ProjectID := projectID; pl_EntityID := entityID; pl_Relation := ProjectOwns; pl_Note := None;
     pl_Lifecycle := LifecycleActive; pl_CreatedAt := at_; pl_UpdatedAt := at_ |}.

(** [insertProjectServiceLink] *)
Definition insertProjectServiceLink (projectID serviceID at_ : string) : Tx ServiceTables unit :=
  _ ← statement (insert_service_owner (new_owner projectID serviceID at_));
  logCreate NewID "project_service" (link_id projectID serviceID)
    (link_struct ProjectService (new_owner projectID serviceID at_)).

(** [CreateServiceInProject] *)
Definition CreateServiceInProject (fate : Fate) (p : option Permit) (now : Time) (projectID : string) (s : Service)
    (st : Store ServiceTables) : (StoreError + unit) * Store ServiceTables :=
  match ValidateService (first_version s) with
  | (_, Some ve) => (inl (Invalid ve), st)
  | (s, None) =>
      if negb (PermitHoldsProject p projectID) then (inl (Wrapped ErrForbidden), st)
      else
        let actor := match p with Some p => PermitActor p | None => SystemActor end in
        let txPermit := scopedPermit actor [projectID] {["service" := {[svc_ID s := true]}]} in
        write fate (Some txPermit) now (
          _ ← insertService s;
          insertProjectServiceLink projectID (svc_ID s) (FormatTime now)) st
  end.

(** [UpdateService]; [custom] and [tags] are what the audit folds read. *)
Definition UpdateService (seen : ServiceTables) (fate : Fate) (p : option Permit) (now : Time) (s : Service)
    (custom tags : string) (st : Store ServiceTables) : (StoreError + unit) * Store ServiceTables :=
  match ValidateService s with
  | (_, Some ve) => (inl (Invalid ve), st)
  | (s, None) =>
      match vt_services seen !! svc_ID s with
      | None => (inl (Wrapped ErrNotFound), st)
      | Some before =>
          let s := stamped_service (svc_Lifecycle s) (svc_CreatedAt before) (FormatTime now) (svc_RowVersion s) s in
          write fate p now (
            _ ← requireAssignableEnvironment "environment_id" (svc_EnvironmentID s) (Some (svc_EnvironmentID before));
            _ ← requireVocabulary vt_kinds "kind" (svc_Kind s);
            _ ← requireManagerRole (svc_ManagerRole s);
            _ ← statement (update_service s);
            logUpdate NewID "service" (svc_ID s) (auditedService before custom tags) (auditedService s custom tags)) st
      end
  end.

(** [RetireService] *)
Definition RetireService (seen : ServiceTables) (fate : Fate) (p : option Permit) (now : Time) (id : string)
    (st : Store ServiceTables) : (StoreError + unit) * Store ServiceTables :=
  match vt_services seen !! id with
  | None => (inl (Wrapped ErrNotFound), st)
  | Some before =>
      if String.eqb (svc_Lifecycle before) LifecycleRetired then (inr tt, st)
      else write fate p now (
        _ ← statement (retire_service id (FormatTime now));
        log NewID "service" id ActionRetire (lifecycle_diff (svc_Lifecycle before) LifecycleRetired) "") st
  end.
End Store.

(** * Lemmas *)

(** ** The invariant of the tables *)

(** Services are stored under their identifiers, satisfy the checks of the schema and
    refer to rows that exist; no two share a code; a link names a project and a service
    that exist, and a service has at most one active owner. *)
Record services_ok (t : ServiceTables) : Prop := {
  vo_rows : forall id s, vt_services t !! id = Some s ->
    svc_ID s = id /\ service_checks s = true /\ service_references t s = true;
  vo_codes : forall i j r s, vt_services t !! i = Some r -> vt_services t !! j = Some s -> svc_Code r = svc_Code s -> i = j;
  vo_links : forall P E l, vt_owners t !! (P, E) = Some l ->
    pl_EntityID l = E /\ P ∈ vt_projects t /\ is_Some (vt_services t !! E);
  vo_owner : forall P P' E l l', vt_owners t !! (P, E) = Some l -> vt_owners t !! (P', E) = Some l' ->
    owning l -> owning l' -> P = P'
}.

Lemma put_service_ok s t t' : put_service s t = inr t' -> services_ok t -> services_ok t'.
Proof.
  unfold put_service. destruct (service_checks s) eqn:Hc; [|done]. cbn [negb].
  destruct (code_taken t s) eqn:Hcode; [done|]. destruct (service_references t s) eqn:Hr; [|done].
  intros [= <-] [V1 V2 V3 V4]. unfold code_taken in Hcode. rewrite existsb_rows in Hcode.
  assert (Hnew : forall i r, vt_services t !! i = Some r -> svc_Code r = svc_Code s -> i = svc_ID s).
  { intros i r Hi Heq. pose proof (Hcode i r Hi) as Hn. rewrite Heq, String.eqb_refl in Hn.
    apply negb_false_iff, String.eqb_eq in Hn. by destruct (V1 _ _ Hi) as [<- _]. }
  split; cbn [vt_services vt_owners vt_projects with_services]; try done.
  - intros id r [[<- <-]|[_ Hl]]%lookup_insert_Some; [done|]. by apply V1.
  - intros i j r1 r2 [[<- <-]|[N1 H1]]%lookup_insert_Some [[<- <-]|[N2 H2]]%lookup_insert_Some Heq; [done| | |eauto].
    + symmetry. by eapply Hnew.
    + by eapply Hnew.
  - intros P E l Hl. destruct (V3 _ _ _ Hl) as (? & ? & Hs). split_and!; [done..|].
    rewrite lookup_insert_is_Some. destruct (decide (svc_ID s = E)); auto.
Qed.

Lemma insert_service_owner_ok link t t' : insert_service_owner link t = inr t' -> services_ok t -> services_ok t'.
Proof.
  unfold insert_service_owner. cbv zeta. destruct (bool_decide _ || existsb _ _) eqn:Hu; [done|].
  destruct (bool_decide _ || bool_decide _) eqn:Hf; [done|]. intros [= <-] [V1 V2 V3 V4].
  apply orb_false_iff in Hu as [_ Hu]. apply orb_false_iff in Hf as [Hp Hs].
  rewrite bool_decide_eq_false in Hp, Hs. apply dec_stable in Hp. rewrite existsb_rows in Hu.
  assert (Hfree : forall P l, vt_owners t !! (P, pl_EntityID link) = Some l -> ~ owning l).
  { intros P l Hl [Hr Ha]. specialize (Hu _ _ Hl). destruct (V3 _ _ _ Hl) as (He & _).
    by rewrite He, Hr, Ha, !String.eqb_refl in Hu. }
  split; cbn [vt_services vt_owners vt_projects with_service_owners]; try done.
  - intros P E l [[[= <- <-] <-]|[_ Hl]]%lookup_insert_Some; [|by apply V3].
    split_and!; [done|done|by apply not_eq_None_Some].
  - intros P P' E l l' [[[= <- <-] <-]|[N1 H1]]%lookup_insert_Some [[[=] <-]|[N2 H2]]%lookup_insert_Some Ho Ho';
      subst; [done| | |by eapply V4].
    + by destruct (Hfree _ _ H2).
    + by destruct (Hfree _ _ H1).
Qed.

Lemma retire_service_ok id at_ t t' : retire_service id at_ t = inr t' -> services_ok t -> services_ok t'.
Proof. unfold retire_service. destruct (vt_services t !! id); [apply put_service_ok|by intros [= <-]]. Qed.

Section Writes.
Context `{Unicode} `{CodeRunes} (NewID : nat -> string).

(** A body that keeps a property of the tables. *)
Definition holds_on (P : ServiceTables -> Prop) {A} (m : Tx ServiceTables A) : Prop :=
  forall env st a st', m env st = inr (a, st') -> P (st_tables st) -> P (st_tables st').

Lemma holds_bind P {A B} (m : Tx ServiceTables A) (f : A -> Tx ServiceTables B) :
  holds_on P m -> (forall a, holds_on P (f a)) -> holds_on P (m ≫= f).
Proof. intros Hm Hf env st b st' (a & st1 & H1 & H2)%bind_inv Hok. eapply Hf, Hm; eauto. Qed.
Lemma holds_statement P f : (forall t t', f t = inr t' -> P t -> P t') -> holds_on P (statement f).
Proof. intros Hf env st a st' (e & He & ->)%statement_inv. by apply Hf. Qed.

Lemma still_holds P {A} (m : Tx ServiceTables A) :
  (forall env st a st', m env st = inr (a, st') -> st_tables st' = st_tables st) -> holds_on P m.
Proof. intros Hm env st a st' Hr Hok. by rewrite (Hm _ _ _ _ Hr). Qed.

Lemma still_vocabulary (codes : ServiceTables -> list string) f v env st a st' :
  requireVocabulary codes f v env st = inr (a, st') -> st_tables st' = st_tables st.
Proof. intros ->%requireVocabulary_inv. done. Qed.
Lemma still_environment f n c env st a st' :
  requireAssignableEnvironment f n c env st = inr (a, st') -> st_tables st' = st_tables st.
Proof.
  unfold requireAssignableEnvironment. destruct (_ || _); [by intros [_ ->]%ret_inv|].
  intros (l & st1 & [-> ->]%query_inv & Hr)%bind_inv. by repeat case_match; try discriminate Hr; apply ret_inv in Hr as [_ ->].
Qed.
Lemma still_role r env st a st' : requireManagerRole r env st = inr (a, st') -> st_tables st' = st_tables st.
Proof.
  unfold requireManagerRole. destruct r as [r|]; [destruct (String.eqb r "")|];
    [by intros [_ ->]%ret_inv|apply still_vocabulary|by intros [_ ->]%ret_inv].
Qed.
Lemma still_log t id action d b env (st : Store ServiceTables) a st' :
  log NewID t id action d b env st = inr (a, st') -> st_tables st' = st_tables st.
Proof. by intros [_ ?]%log_inv. Qed.
Lemma still_logUpdate t id s s' env (st : Store ServiceTables) a st' :
  logUpdate NewID t id s s' env st = inr (a, st') -> st_tables st' = st_tables st.
Proof. by intros [_ ?]%logUpdate_inv. Qed.

(** Through the binds of a body, its statements aside. *)
Ltac holding :=
  repeat first
    [ progress intros
    | solve [apply still_holds; eauto using still_vocabulary, still_environment, still_role, still_log, still_logUpdate]
    | apply holds_bind
    | match goal with |- holds_on _ (match ?x with _ => _ end) => destruct x end ].

Lemma insertService_ok s : holds_on services_ok (insertService NewID s).
Proof.
  unfold insertService. holding. apply holds_statement. intros t t'. unfold insert_service.
  destruct (bool_decide _); [done|]. apply put_service_ok.
Qed.

Lemma written_holds P {A} p now (fn : Tx ServiceTables A) st out :
  holds_on P fn -> written_by p now fn st out -> P (st_tables st) -> P (st_tables (snd out)).
Proof. intros Hk [e|a st' E] Hok; [done|]. by apply (Hk _ _ _ _ E). Qed.

(** Every write of a service keeps the tables well formed, whatever it read before its
    transaction, whatever permit it has and whatever becomes of it. *)
Theorem service_writes_ok seen fate p now s custom tags project id st :
  services_ok (st_tables st) ->
  services_ok (st_tables (CreateService NewID fate p now s st).2) /\
  services_ok (st_tables (CreateServiceInProject NewID fate p now project s st).2) /\
  services_ok (st_tables (UpdateService NewID seen fate p now s custom tags st).2) /\
  services_ok (st_tables (RetireService NewID seen fate p now id st).2).
Proof.
  intros Hok. split_and!.
  - unfold CreateService. destruct (ValidateService _) as [s' [ve|]]; [done|].
    eapply written_holds; [apply insertService_ok|apply write_written|done].
  - unfold CreateServiceInProject. destruct (ValidateService _) as [s' [ve|]]; [done|]. destruct (negb _); [done|].
    cbv zeta. eapply written_holds; [|apply write_written|done]. apply holds_bind; [apply insertService_ok|].
    unfold insertProjectServiceLink. holding. apply holds_statement, insert_service_owner_ok.
  - unfold UpdateService. destruct (ValidateService s) as [s' [ve|]]; [done|].
    destruct (vt_services seen !! svc_ID s') as [before|]; [|done]. cbv zeta.
    eapply written_holds; [|apply write_written|done]. holding. apply holds_statement. intros t t'.
    unfold update_service. destruct (vt_services t !! _); [|done]. destruct (_ =? _)%Z; [apply put_service_ok|done].
  - unfold RetireService. destruct (vt_services seen !! id) as [before|]; [|done].
    destruct (String.eqb _ _); [done|]. eapply written_holds; [|apply write_written|done]. holding.
    apply holds_statement, retire_service_ok.
Qed.
End Writes.

(** ** Creation inside a project *)

Section InProject.
Context `{Unicode} `{CodeRunes} (NewID : nat -> string).

Lemma service_permit_covers a project id ty i :
  Covers (scopedPermit a [project] {["service" := {[id := true]}]}) ty i = true ->
  (ty = "service" /\ i = id) \/ (ty = "project_service" /\ i = link_id project id).
Proof.
  assert (Hes : forall ty i, covers {["service" := {[id := true]}]} ty i = true -> ty = "service" /\ i = id).
  { intros ty' i' (ids & [<- <-]%lookup_singleton_Some & [<- _]%lookup_singleton_Some)%covers_spec. done. }
  intros [[_ Hc%Hes]|(P & ty' & e & Hin & -> & _ & ->%list_elem_of_singleton & [-> ->]%Hes)]%scoped_Covers; [by left|].
  right. unfold linkable in Hin. rewrite !elem_of_cons, elem_of_nil in Hin. naive_solver.
Qed.

Lemma ValidateService_ID s : svc_ID (ValidateService s).1 = svc_ID s.
Proof. unfold ValidateService. repeat case_match; done. Qed.

Lemma guarded_insertService s : guarded (insertService NewID s).
Proof.
  unfold insertService, requireManagerRole, requireAssignableEnvironment. guarding; apply guarded_requireVocabulary.
Qed.

Lemma insertService_inv s env st x st' :
  insertService NewID s env st = inr (x, st') ->
  vt_services (st_tables st) !! svc_ID s = None /\
  st_tables st' = with_services (<[svc_ID s := first_version s]> (vt_services (st_tables st))) (st_tables st).
Proof.
  unfold insertService. intros (x1 & s1 & H1%still_vocabulary & Hr)%bind_inv.
  apply bind_inv in Hr as (x2 & s2 & H2%still_environment & Hr). apply bind_inv in Hr as (x3 & s3 & H3%still_role & Hr).
  apply bind_inv in Hr as (x4 & s4 & (t' & Htx & H4)%statement_inv & [_ H5]%logCreate_inv).
  rewrite H3, H2, H1 in Htx. rewrite H5, H4. unfold insert_service, put_service in Htx.
  destruct (bool_decide_reflect (is_Some (vt_services (st_tables st) !! svc_ID s))) as [|Hn]; [done|].
  repeat (case_match; try discriminate Htx). injection Htx as <-. split; [by apply eq_None_not_Some|done].
Qed.

(** What creating a service in a project does. Either nothing changes, or the permit
    holds the project, no service had the identifier, the service and its link are in the
    tables and nothing else has moved; and every row of the log is about that service or
    that link, in the name of the permit's holder. *)
Theorem CreateServiceInProject_effect fate p now project s st :
  let st' := (CreateServiceInProject NewID fate p now project s st).2 in
  st_ids st <= st_ids st' /\
  (st_tables st' = st_tables st /\ st_log st' = st_log st \/
   PermitHoldsProject p project = true /\ vt_services (st_tables st) !! svc_ID s = None /\
   (exists row, svc_ID row = svc_ID s /\
      st_tables st' =
        with_service_owners (<[(project, svc_ID s) := new_owner project (svc_ID s) (FormatTime now)]> (vt_owners (st_tables st)))
          (with_services (<[svc_ID s := row]> (vt_services (st_tables st))) (st_tables st))) /\
   exists rows, st_log st' = st_log st ++ rows /\
     Forall (fun r => cr_Actor r = ac_ID (match p with Some p => PermitActor p | None => SystemActor end) /\
       ((cr_EntityType r = "service" /\ cr_EntityID r = svc_ID s) \/
        (cr_EntityType r = "project_service" /\ cr_EntityID r = link_id project (svc_ID s)))) rows).
Proof.
  cbv zeta. unfold CreateServiceInProject.
  destruct (ValidateService (first_version s)) as [s' e] eqn:E.
  assert (svc_ID s' = svc_ID s) as Hid by (pose proof (ValidateService_ID (first_version s)) as Hv; by rewrite E in Hv).
  destruct e as [ve|]; [by auto|]. destruct (PermitHoldsProject p project) eqn:Hh; cbn [negb]; [|by auto].
  match goal with |- context [write ?f ?q ?u ?b st] =>
    assert (guarded b) as Hg; [|assert (Hw := write_written f q u b st); destruct (write f q u b st) as [res st'] eqn:Eout] end.
  { apply guarded_bind; [apply guarded_insertService|]. intros _. unfold insertProjectServiceLink. guarding. }
  pose proof (written_ids _ _ _ _ _ Hg Hw) as Hids. destruct (written_log _ _ _ _ _ _ Hg Hw) as (rows & Hlog & Hrows).
  split; [exact Hids|]. cbn [snd] in *. inversion Hw as [err|x st1 Htx]; subst; [by left|]. right. split; [done|].
  apply bind_inv in Htx as (x1 & s1 & [Hn H1]%insertService_inv & Htx). rewrite Hid in *. split; [done|].
  apply bind_inv in Htx as (x2 & s2 & (t' & Hs & H2)%statement_inv & [_ H3]%logCreate_inv). split.
  - exists (first_version s'). split; [exact Hid|]. rewrite H3, H2. rewrite H1 in Hs. unfold insert_service_owner in Hs.
    cbv zeta in Hs. destruct (bool_decide _ || existsb _ _) in Hs; [discriminate Hs|].
    destruct (bool_decide _ || bool_decide _) in Hs; [discriminate Hs|]. by injection Hs as <-.
  - exists rows. split; [done|]. eapply Forall_impl; [exact Hrows|].
    intros r [(q & [= <-] & Hc%service_permit_covers) (Ha & _ & _)]. by split.
Qed.
End InProject.
