(* ===== verification/Topology.v ===== *)
(** The writes of the declared topology: [internal/store/reach.go].

    Groups, memberships, uplinks, attachments with their pins, and anchors. Every write
    is a transaction under the caller's own permit. Withdrawing a group withdraws every
    live edge that names it. The tables a write only reads (assets, their kinds, ports,
    environments) are part of the state too. *)
From Stdlib Require Import String Ascii ZArith Lia.
From stdpp Require Import base gmap strings list.
From S2P Require Import Prelude Status Graph Text Errors Timestamps Actors Permits ChangeLog Projects Assets Ports Containment AssetWrites Invariants NetRows.

#[local] Open Scope string_scope.
#[local] Open Scope list_scope.

(** * Definitions *)

(** ** The tables *)

Record NetTables := {
  nt_assets : gmap string Asset;
  nt_kinds : gmap string bool;                          (* asset_kind: code to is_attachable *)
  nt_environments : gmap string string;                 (* id to lifecycle *)
  nt_ports : gset string;
  nt_groups : gmap string NetGroup;
  nt_members : gmap (string * string) NetGroupMember;   (* by group and asset *)
  nt_uplinks : gmap string NetUplink;
  nt_attachments : gmap string NetAttachment;
  nt_pins : list NetAttachmentMember;
  nt_anchors : gmap string NetAnchor
}.

Definition with_groups (g : gmap string NetGroup) (t : NetTables) : NetTables :=
  {| nt_assets := nt_assets t; nt_kinds := nt_kinds t; nt_environments := nt_environments t; nt_ports := nt_ports t;
     nt_groups := g; nt_members := nt_members t; nt_uplinks := nt_uplinks t; nt_attachments := nt_attachments t;
     nt_pins := nt_pins t; nt_anchors := nt_anchors t |}.
Definition with_net_members (m : gmap (string * string) NetGroupMember) (t : NetTables) : NetTables :=
  {| nt_assets := nt_assets t; nt_kinds := nt_kinds t; nt_environments := nt_environments t; nt_ports := nt_ports t;
     nt_groups := nt_groups t; nt_members := m; nt_uplinks := nt_uplinks t; nt_attachments := nt_attachments t;
     nt_pins := nt_pins t; nt_anchors := nt_anchors t |}.
Definition with_uplinks (u : gmap string NetUplink) (t : NetTables) : NetTables :=
  {| nt_assets := nt_assets t; nt_kinds := nt_kinds t; nt_environments := nt_environments t; nt_ports := nt_ports t;
     nt_groups := nt_groups t; nt_members := nt_members t; nt_uplinks := u; nt_attachments := nt_attachments t;
     nt_pins := nt_pins t; nt_anchors := nt_anchors t |}.
Definition with_net_attachments (a : gmap string NetAttachment) (t : NetTables) : NetTables :=
  {| nt_assets := nt_assets t; nt_kinds := nt_kinds t; nt_environments := nt_environments t; nt_ports := nt_ports t;
     nt_groups := nt_groups t; nt_members := nt_members t; nt_uplinks := nt_uplinks t; nt_attachments := a;
     nt_pins := nt_pins t; nt_anchors := nt_anchors t |}.
Definition with_pins (p : list NetAttachmentMember) (t : NetTables) : NetTables :=
  {| nt_assets := nt_assets t; nt_kinds := nt_kinds t; nt_environments := nt_environments t; nt_ports := nt_ports t;
     nt_groups := nt_groups t; nt_members := nt_members t; nt_uplinks := nt_uplinks t; nt_attachments := nt_attachments t;
     nt_pins := p; nt_anchors := nt_anchors t |}.
Definition with_anchors (a : gmap string NetAnchor) (t : NetTables) : NetTables :=
  {| nt_assets := nt_assets t; nt_kinds := nt_kinds t; nt_environments := nt_environments t; nt_ports := nt_ports t;
     nt_groups := nt_groups t; nt_members := nt_members t; nt_uplinks := nt_uplinks t; nt_attachments := nt_attachments t;
     nt_pins := nt_pins t; nt_anchors := a |}.

(** ** Statements, with the constraints of their tables *)

(** The CHECK constraints, the unique code and the foreign key of [net_group]. *)
Definition put_group (g : NetGroup) (t : NetTables) : StoreError + NetTables :=
  if negb (containsString NetGroupKinds (ng_Kind g) && containsString NetGroupRoles (ng_Role g) &&
           containsString NetGroupAvailabilities (ng_Availability g) && containsString ServiceLifecycles (ng_Lifecycle g) &&
           containsString NetworkSources (pv_Source (ng_Provenance g)) &&
           names_a (containsString FailoverModes) (ng_FailoverMode g)) then refused ErrInvalid
  else if existsb (fun h => String.eqb (ng_Code h) (ng_Code g) && negb (String.eqb (ng_ID h) (ng_ID g))) (rows (nt_groups t))
  then refused ErrConflict
  else if negb (names_a (known (nt_environments t)) (ng_EnvironmentID g)) then refused ErrInvalid
  else inr (with_groups (<[ng_ID g := g]> (nt_groups t)) t).

(** [INSERT INTO net_group]; [row_version] has its default. *)
Definition insert_group (g : NetGroup) (t : NetTables) : StoreError + NetTables :=
  if known (nt_groups t) (ng_ID g) then refused ErrConflict
  else put_group {| ng_ID := ng_ID g; ng_Code := ng_Code g; ng_Name := ng_Name g; ng_Kind := ng_Kind g;
         ng_Role := ng_Role g; ng_Availability := ng_Availability g; ng_MinHealthy := ng_MinHealthy g;
         ng_FailoverMode := ng_FailoverMode g; ng_EnvironmentID := ng_EnvironmentID g; ng_Lifecycle := ng_Lifecycle g;
         ng_Provenance := ng_Provenance g; ng_Attrs := ng_Attrs g; ng_CreatedAt := ng_CreatedAt g;
         ng_UpdatedAt := ng_UpdatedAt g; ng_RowVersion := 1 |} t.

(** [UPDATE net_group SET code = ?, ... WHERE id = ? AND row_version = ?] *)
Definition update_group (g : NetGroup) (t : NetTables) : StoreError + NetTables :=
  match nt_groups t !! ng_ID g with
  | None => refused ErrStale
  | Some row =>
      if (ng_RowVersion row =? ng_RowVersion g)%Z
      then put_group {| ng_ID := ng_ID row; ng_Code := ng_Code g; ng_Name := ng_Name g; ng_Kind := ng_Kind g;
             ng_Role := ng_Role g; ng_Availability := ng_Availability g; ng_MinHealthy := ng_MinHealthy g;
             ng_FailoverMode := ng_FailoverMode g; ng_EnvironmentID := ng_EnvironmentID g;
             ng_Lifecycle := ng_Lifecycle row; ng_Provenance := ng_Provenance row; ng_Attrs := ng_Attrs row;
             ng_CreatedAt := ng_CreatedAt row; ng_UpdatedAt := ng_UpdatedAt g; ng_RowVersion := ng_RowVersion row + 1 |} t
      else refused ErrStale
  end.

(** An active membership of the asset in another group. *)
Definition member_elsewhere (m : NetGroupMember) (t : NetTables) : bool :=
  existsb (fun n => String.eqb (nm_AssetID n) (nm_AssetID m) && is_live (nm_Lifecycle n) &&
                    negb (String.eqb (nm_GroupID n) (nm_GroupID m))) (rows (nt_members t)).

(** [INSERT INTO net_group_member ... ON CONFLICT (group_id, asset_id) DO UPDATE] *)
Definition upsert_member (m : NetGroupMember) (t : NetTables) : StoreError + NetTables :=
  if negb (containsString NetGroupMemberRoles (nm_Role m) && containsString edge_lifecycles (nm_Lifecycle m))
  then refused ErrInvalid
  else if is_live (nm_Lifecycle m) && member_elsewhere m t then refused ErrConflict
  else if negb (known (nt_groups t) (nm_GroupID m) && known (nt_assets t) (nm_AssetID m)) then refused ErrInvalid
  else
    let key := (nm_GroupID m, nm_AssetID m) in
    let created := match nt_members t !! key with Some row => nm_CreatedAt row | None => nm_CreatedAt m end in
    inr (with_net_members (<[key := {| nm_GroupID := nm_GroupID m; nm_AssetID := nm_AssetID m; nm_Role := nm_Role m;
           nm_Lifecycle := nm_Lifecycle m; nm_CreatedAt := created; nm_UpdatedAt := nm_UpdatedAt m |}]> (nt_members t)) t).

(** The live uplinks between two groups on a plane. *)
Definition uplinks_between (groupID upstream plane : string) (t : NetTables) : nat :=
  count_if (fun u => is_live (nu_Lifecycle u) && String.eqb (nu_GroupID u) groupID &&
                     String.eqb (nu_UpstreamGroupID u) upstream && String.eqb (nu_Plane u) plane) (rows (nt_uplinks t)).

(** [INSERT INTO net_uplink] *)
Definition insert_uplink (u : NetUplink) (t : NetTables) : StoreError + NetTables :=
  if known (nt_uplinks t) (nu_ID u) then refused ErrConflict
  else if negb (containsString Planes (nu_Plane u) && containsString edge_lifecycles (nu_Lifecycle u) &&
                containsString NetworkSources (pv_Source (nu_Provenance u)) &&
                negb (String.eqb (nu_GroupID u) (nu_UpstreamGroupID u))) then refused ErrInvalid
  else if is_live (nu_Lifecycle u) && (0 <? uplinks_between (nu_GroupID u) (nu_UpstreamGroupID u) (nu_Plane u) t)%nat
  then refused ErrConflict
  else if negb (known (nt_groups t) (nu_GroupID u) && known (nt_groups t) (nu_UpstreamGroupID u)) then refused ErrInvalid
  else inr (with_uplinks (<[nu_ID u := u]> (nt_uplinks t)) t).

(** The live attachments of an asset to a group on a plane. *)
Definition attachments_between (assetID groupID plane : string) (t : NetTables) : nat :=
  count_if (fun a => is_live (na_Lifecycle a) && String.eqb (na_AssetID a) assetID &&
                     String.eqb (na_GroupID a) groupID && String.eqb (na_Plane a) plane) (rows (nt_attachments t)).

(** [INSERT INTO net_attachment] *)
Definition insert_attachment (a : NetAttachment) (t : NetTables) : StoreError + NetTables :=
  if known (nt_attachments t) (na_ID a) then refused ErrConflict
  else if negb (containsString Planes (na_Plane a) && containsString edge_lifecycles (na_Lifecycle a) &&
                containsString NetworkSources (pv_Source (na_Provenance a))) then refused ErrInvalid
  else if is_live (na_Lifecycle a) && (0 <? attachments_between (na_AssetID a) (na_GroupID a) (na_Plane a) t)%nat
  then refused ErrConflict
  else if negb (known (nt_assets t) (na_AssetID a) && known (nt_groups t) (na_GroupID a)) then refused ErrInvalid
  else inr (with_net_attachments (<[na_ID a := a]> (nt_attachments t)) t).

(** [INSERT INTO net_attachment_member], under the attachment just made. *)
Definition insert_pin (attachmentID : string) (m : NetAttachmentMember) (t : NetTables) : StoreError + NetTables :=
  if existsb (fun n => String.eqb (am_AttachmentID n) attachmentID && String.eqb (am_AssetID n) (am_AssetID m)) (nt_pins t)
  then refused ErrConflict
  else if negb (known (nt_attachments t) attachmentID && known (nt_assets t) (am_AssetID m) &&
                names_a (fun i => bool_decide (i ∈ nt_ports t)) (am_InterfaceID m)) then refused ErrInvalid
  else inr (with_pins (nt_pins t ++ [{| am_AttachmentID := attachmentID; am_AssetID := am_AssetID m;
              am_InterfaceID := am_InterfaceID m |}]) t).

(** The constraints of [net_anchor]. *)
Definition put_anchor (a : NetAnchor) (t : NetTables) : StoreError + NetTables :=
  if negb (containsString AnchorScopes (an_Scope a) && containsString Planes (an_Plane a) &&
           containsString edge_lifecycles (an_Lifecycle a)) then refused ErrInvalid
  else if existsb (fun b => String.eqb (an_Code b) (an_Code a) && negb (String.eqb (an_ID b) (an_ID a))) (rows (nt_anchors t))
  then refused ErrConflict
  else if negb (known (nt_groups t) (an_GroupID a) && names_a (known (nt_environments t)) (an_EnvironmentID a))
  then refused ErrInvalid
  else inr (with_anchors (<[an_ID a := a]> (nt_anchors t)) t).

(** [INSERT INTO net_anchor]: the columns of its provenance are not among those named
    and have their defaults. *)
Definition insert_anchor (a : NetAnchor) (t : NetTables) : StoreError + NetTables :=
  if known (nt_anchors t) (an_ID a) then refused ErrConflict
  else put_anchor {| an_ID := an_ID a; an_Code := an_Code a; an_Name := an_Name a; an_Scope := an_Scope a;
         an_GroupID := an_GroupID a; an_EnvironmentID := an_EnvironmentID a; an_Plane := an_Plane a;
         an_Lifecycle := an_Lifecycle a; an_Provenance := declared_provenance; an_CreatedAt := an_CreatedAt a;
         an_UpdatedAt := an_UpdatedAt a; an_RowVersion := 1 |} t.

(** [UPDATE net_anchor SET code = ?, ... WHERE id = ? AND row_version = ?] *)
Definition update_anchor (a : NetAnchor) (t : NetTables) : StoreError + NetTables :=
  match nt_anchors t !! an_ID a with
  | None => refused ErrStale
  | Some row =>
      if (an_RowVersion row =? an_RowVersion a)%Z
      then put_anchor {| an_ID := an_ID row; an_Code := an_Code a; an_Name := an_Name a; an_Scope := an_Scope a;
             an_GroupID := an_GroupID a; an_EnvironmentID := an_EnvironmentID a; an_Plane := an_Plane a;
             an_Lifecycle := an_Lifecycle row; an_Provenance := an_Provenance row; an_CreatedAt := an_CreatedAt row;
             an_UpdatedAt := an_UpdatedAt a; an_RowVersion := an_RowVersion row + 1 |} t
      else refused ErrStale
  end.

(** *** Withdrawn rows *)

Definition retired_group (at_ : string) (g : NetGroup) : NetGroup :=
  {| ng_ID := ng_ID g; ng_Code := ng_Code g; ng_Name := ng_Name g; ng_Kind := ng_Kind g; ng_Role := ng_Role g;
     ng_Availability := ng_Availability g; ng_MinHealthy := ng_MinHealthy g; ng_FailoverMode := ng_FailoverMode g;
     ng_EnvironmentID := ng_EnvironmentID g; ng_Lifecycle := LifecycleRetired; ng_Provenance := ng_Provenance g;
     ng_Attrs := ng_Attrs g; ng_CreatedAt := ng_CreatedAt g; ng_UpdatedAt := at_; ng_RowVersion := ng_RowVersion g |}.
Definition retired_member (at_ : string) (m : NetGroupMember) : NetGroupMember :=
  {| nm_GroupID := nm_GroupID m; nm_AssetID := nm_AssetID m; nm_Role := nm_Role m; nm_Lifecycle := LifecycleRetired;
     nm_CreatedAt := nm_CreatedAt m; nm_UpdatedAt := at_ |}.
Definition retired_uplink (at_ : string) (u : NetUplink) : NetUplink :=
  {| nu_ID := nu_ID u; nu_GroupID := nu_GroupID u; nu_UpstreamGroupID := nu_UpstreamGroupID u; nu_Plane := nu_Plane u;
     nu_Lifecycle := LifecycleRetired; nu_Provenance := nu_Provenance u; nu_CreatedAt := nu_CreatedAt u; nu_UpdatedAt := at_ |}.
Definition retired_attachment (at_ : string) (a : NetAttachment) : NetAttachment :=
  {| na_ID := na_ID a; na_AssetID := na_AssetID a; na_GroupID := na_GroupID a; na_Plane := na_Plane a;
     na_Lifecycle := LifecycleRetired; na_Provenance := na_Provenance a; na_CreatedAt := na_CreatedAt a; na_UpdatedAt := at_ |}.
Definition retired_anchor (at_ : string) (a : NetAnchor) : NetAnchor :=
  {| an_ID := an_ID a; an_Code := an_Code a; an_Name := an_Name a; an_Scope := an_Scope a; an_GroupID := an_GroupID a;
     an_EnvironmentID := an_EnvironmentID a; an_Plane := an_Plane a; an_Lifecycle := LifecycleRetired;
     an_Provenance := an_Provenance a; an_CreatedAt := an_CreatedAt a; an_UpdatedAt := at_;
     an_RowVersion := an_RowVersion a |}.

(** ** Checks inside the transaction *)

(** [requireAssignableEnvironment] *)
Definition requireAssignableEnvironment (field : string) (next current : option string) : Tx NetTables unit :=
  match next with
  | None => mret tt
  | Some id =>
      if String.eqb id "" then mret tt
      else if bool_decide (current = Some id) then mret tt
      else
        lifecycle ← query (fun t => nt_environments t !! id);
        match lifecycle with
        | None => fail (Invalid (Add [] field "choose an environment"))
        | Some l => if String.eqb l LifecycleRetired
                    then fail (Invalid (Add [] field "that environment has been withdrawn")) else mret tt
        end
  end.

(** [requireLiveNetGroup] *)
Definition requireLiveNetGroup (id : string) : Tx NetTables unit :=
  g ← query (fun t => nt_groups t !! id);
  match g with
  | None => fail (Invalid (Add [] "group_id" "choose a forwarder group"))
  | Some g => if String.eqb (ng_Lifecycle g) LifecycleRetired
              then fail (Invalid (Add [] "group_id" "that forwarder group has been withdrawn")) else mret tt
  end.

(** The pins as the audit reads them: [auditedNetAttachment]. *)
Definition pin_text (m : NetAttachmentMember) : string :=
  match am_InterfaceID m with
  | Some i => if String.eqb i "" then am_AssetID m else am_AssetID m +++ "@" +++ i
  | None => am_AssetID m
  end.

Definition auditedNetAttachment (a : NetAttachment) (members : list NetAttachmentMember) : Struct :=
  MkStruct "netAttachmentAudit"
    [Embedded (net_attachment_struct a);
     Column "pinned_members" (VText (String.concat "," (isort str_ltb (pin_text <$> members))))].

(** A live membership of the group, or why the pin is refused. *)
Definition require_member (groupID : string) (m : NetAttachmentMember) : Tx NetTables unit :=
  row ← query (fun t => nt_members t !! (groupID, am_AssetID m));
  match row with
  | Some r => if is_live (nm_Lifecycle r) then mret tt
              else fail (Invalid (Add [] "member_asset_id" (am_AssetID m +++ " is not an active member of that group")))
  | None => fail (Invalid (Add [] "member_asset_id" (am_AssetID m +++ " is not an active member of that group")))
  end.

(** ** Operations *)

Section Operations.
Context `{Unicode} (NewID : nat -> string).

(** [CreateNetGroup] *)
Definition CreateNetGroup (fate : Fate) (p : Permit) (now : Time) (g : NetGroup) (st : Store NetTables)
    : (StoreError + unit) * Store NetTables :=
  match ValidateNetGroup g with
  | (_, Some ve) => (inl (Invalid ve), st)
  | (g, None) => write fate (Some p) now (
      _ ← requireAssignableEnvironment "environment_id" (ng_EnvironmentID g) None;
      _ ← statement (insert_group g);
      logCreate NewID "net_group" (ng_ID g) (net_group_struct g)) st
  end.

(** [UpdateNetGroup] *)
Definition UpdateNetGroup (seen : NetTables) (fate : Fate) (p : Permit) (now : Time) (g : NetGroup) (st : Store NetTables)
    : (StoreError + unit) * Store NetTables :=
  match ValidateNetGroup g with
  | (_, Some ve) => (inl (Invalid ve), st)
  | (g, None) =>
      match nt_groups seen !! ng_ID g with
      | None => (inl (Wrapped ErrNotFound), st)
      | Some before =>
          let g := {| ng_ID := ng_ID g; ng_Code := ng_Code g; ng_Name := ng_Name g; ng_Kind := ng_Kind g;
            ng_Role := ng_Role g; ng_Availability := ng_Availability g; ng_MinHealthy := ng_MinHealthy g;
            ng_FailoverMode := ng_FailoverMode g; ng_EnvironmentID := ng_EnvironmentID g;
            ng_Lifecycle := ng_Lifecycle before; ng_Provenance := ng_Provenance before; ng_Attrs := ng_Attrs g;
            ng_CreatedAt := ng_CreatedAt before; ng_UpdatedAt := FormatTime now; ng_RowVersion := ng_RowVersion g |} in
          write fate (Some p) now (
            _ ← requireAssignableEnvironment "environment_id" (ng_EnvironmentID g) (ng_EnvironmentID before);
            _ ← statement (update_group g);
            logUpdate NewID "net_group" (ng_ID g) (net_group_struct before) (net_group_struct g)) st
      end
  end.

(** The statement and the log row that withdraw one row. *)
Definition withdraw (entityType entityID : string) (f : NetTables -> NetTables) : Tx NetTables unit :=
  _ ← statement (fun t => inr (f t));
  log NewID entityType entityID ActionRetire (lifecycle_diff LifecycleActive LifecycleRetired) "".

Definition withdraw_member (at_ groupID assetID : string) : Tx NetTables unit :=
  withdraw "net_group_member" (groupID +++ "/" +++ assetID)
    (fun t => with_net_members (alter (retired_member at_) (groupID, assetID) (nt_members t)) t).
(** [retireRows] on each table. *)
Definition withdraw_uplink (at_ id : string) : Tx NetTables unit :=
  withdraw "net_uplink" id (fun t => with_uplinks (alter (retired_uplink at_) id (nt_uplinks t)) t).
Definition withdraw_attachment (at_ id : string) : Tx NetTables unit :=
  withdraw "net_attachment" id (fun t => with_net_attachments (alter (retired_attachment at_) id (nt_attachments t)) t).
Definition withdraw_anchor (at_ id : string) : Tx NetTables unit :=
  withdraw "net_anchor" id (fun t => with_anchors (alter (retired_anchor at_) id (nt_anchors t)) t).

(** The live edges that name a group, by what makes each its own. *)
Definition names_member (groupID : string) (m : NetGroupMember) : bool :=
  String.eqb (nm_GroupID m) groupID && is_live (nm_Lifecycle m).
Definition names_uplink (groupID : string) (u : NetUplink) : bool :=
  (String.eqb (nu_GroupID u) groupID || String.eqb (nu_UpstreamGroupID u) groupID) && is_live (nu_Lifecycle u).
Definition names_attachment (groupID : string) (a : NetAttachment) : bool :=
  String.eqb (na_GroupID a) groupID && is_live (na_Lifecycle a).
Definition names_anchor (groupID : string) (a : NetAnchor) : bool :=
  String.eqb (an_GroupID a) groupID && is_live (an_Lifecycle a).

(** [retireNetGroupCascade] *)
Definition retireNetGroupCascade (groupID at_ : string) : Tx NetTables unit :=
  members ← query (fun t => nm_AssetID <$> List.filter (names_member groupID) (rows (nt_members t)));
  _ ← each (withdraw_member at_ groupID) members;
  uplinks ← query (fun t => nu_ID <$> List.filter (names_uplink groupID) (rows (nt_uplinks t)));
  _ ← each (withdraw_uplink at_) uplinks;
  attachments ← query (fun t => na_ID <$> List.filter (names_attachment groupID) (rows (nt_attachments t)));
  _ ← each (withdraw_attachment at_) attachments;
  anchors ← query (fun t => an_ID <$> List.filter (names_anchor groupID) (rows (nt_anchors t)));
  each (withdraw_anchor at_) anchors.

(** [RetireNetGroup] *)
Definition RetireNetGroup (seen : NetTables) (fates : nat -> Fate) (p : Permit) (now : Time) (id : string)
    (st : Store NetTables) : (StoreError + unit) * Store NetTables :=
  match nt_groups seen !! id with
  | None => (inl (Wrapped ErrNotFound), st)
  | Some before =>
      if String.eqb (ng_Lifecycle before) LifecycleRetired then (inr tt, st)
      else writeSerializable fates (Some p) now (
        _ ← statement (fun t => inr (with_groups (alter (retired_group (FormatTime now)) id (nt_groups t)) t));
        _ ← log NewID "net_group" id ActionRetire (lifecycle_diff (ng_Lifecycle before) LifecycleRetired) "";
        retireNetGroupCascade id (FormatTime now)) st
  end.

(** [AddNetGroupMember] *)
Definition AddNetGroupMember (fate : Fate) (p : Permit) (now : Time) (m : NetGroupMember) (st : Store NetTables)
    : (StoreError + unit) * Store NetTables :=
  match ValidateNetGroupMember m with
  | (_, Some ve) => (inl (Invalid ve), st)
  | (m, None) => write fate (Some p) now (
      before ← query (fun t => nt_members t !! (nm_GroupID m, nm_AssetID m));
      _ ← statement (upsert_member m);
      let id := nm_GroupID m +++ "/" +++ nm_AssetID m in
      match before with
      | Some before => logUpdate NewID "net_group_member" id (net_group_member_struct before) (net_group_member_struct m)
      | None => logCreate NewID "net_group_member" id (net_group_member_struct m)
      end) st
  end.

(** [RetireNetGroupMember] *)
Definition RetireNetGroupMember (fate : Fate) (p : Permit) (now : Time) (groupID assetID : string) (st : Store NetTables)
    : (StoreError + unit) * Store NetTables :=
  write fate (Some p) now (
    row ← query (fun t => nt_members t !! (groupID, assetID));
    match row with
    | Some r => if is_live (nm_Lifecycle r) then withdraw_member (FormatTime now) groupID assetID else mret tt
    | None => mret tt
    end) st.

(** [CreateNetUplink] *)
Definition CreateNetUplink (fates : nat -> Fate) (p : Permit) (now : Time) (u : NetUplink) (st : Store NetTables)
    : (StoreError + unit) * Store NetTables :=
  match ValidateNetUplink u with
  | Some ve => (inl (Invalid ve), st)
  | None => writeSerializable fates (Some p) now (
      n ← query (uplinks_between (nu_GroupID u) (nu_UpstreamGroupID u) (nu_Plane u));
      if (0 <? n)%nat then fail (Wrapped ErrConflict)
      else _ ← statement (insert_uplink u); logCreate NewID "net_uplink" (nu_ID u) (net_uplink_struct u)) st
  end.

(** [RetireNetUplink] *)
Definition RetireNetUplink (seen : NetTables) (fate : Fate) (p : Permit) (now : Time) (id : string)
    (st : Store NetTables) : (StoreError + unit) * Store NetTables :=
  match nt_uplinks seen !! id with
  | None => (inl (Wrapped ErrNotFound), st)
  | Some before =>
      if String.eqb (nu_Lifecycle before) LifecycleRetired then (inr tt, st)
      else write fate (Some p) now (
        _ ← statement (fun t => inr (with_uplinks (alter (retired_uplink (FormatTime now)) id (nt_uplinks t)) t));
        log NewID "net_uplink" id ActionRetire (lifecycle_diff (nu_Lifecycle before) LifecycleRetired) "") st
  end.

(** [CreateNetAttachment] *)
Definition CreateNetAttachment (fates : nat -> Fate) (p : Permit) (now : Time) (a : NetAttachment)
    (members : list NetAttachmentMember) (st : Store NetTables) : (StoreError + unit) * Store NetTables :=
  match ValidateNetAttachment a with
  | Some ve => (inl (Invalid ve), st)
  | None => writeSerializable fates (Some p) now (
      host ← query (fun t => nt_assets t !! na_AssetID a);
      match host with
      | None => fail DatabaseError
      | Some host =>
          attachable ← query (fun t => default false (nt_kinds t !! as_Kind host));
          if negb attachable
          then fail (Invalid (Add [] "asset_id" ("a " +++ as_Kind host +++ " cannot have a network attachment")))
          else
            n ← query (attachments_between (na_AssetID a) (na_GroupID a) (na_Plane a));
            if (0 <? n)%nat then fail (Wrapped ErrConflict)
            else
              _ ← each (require_member (na_GroupID a)) members;
              _ ← statement (insert_attachment a);
              _ ← each (fun m => statement (insert_pin (na_ID a) m)) members;
              logCreate NewID "net_attachment" (na_ID a) (auditedNetAttachment a members)
      end) st
  end.

(** [RetireNetAttachment] *)
Definition RetireNetAttachment (seen : NetTables) (fate : Fate) (p : Permit) (now : Time) (id : string)
    (st : Store NetTables) : (StoreError + unit) * Store NetTables :=
  match nt_attachments seen !! id with
  | None => (inl (Wrapped ErrNotFound), st)
  | Some before =>
      if String.eqb (na_Lifecycle before) LifecycleRetired then (inr tt, st)
      else write fate (Some p) now (
        _ ← statement (fun t => inr (with_net_attachments (alter (retired_attachment (FormatTime now)) id (nt_attachments t)) t));
        log NewID "net_attachment" id ActionRetire (lifecycle_diff (na_Lifecycle before) LifecycleRetired) "") st
  end.

(** [CreateNetAnchor] *)
Definition CreateNetAnchor (fate : Fate) (p : Permit) (now : Time) (a : NetAnchor) (st : Store NetTables)
    : (StoreError + unit) * Store NetTables :=
  match ValidateNetAnchor a with
  | (_, Some ve) => (inl (Invalid ve), st)
  | (a, None) => write fate (Some p) now (
      _ ← requireAssignableEnvironment "environment_id" (an_EnvironmentID a) None;
      _ ← statement (insert_anchor a);
      logCreate NewID "net_anchor" (an_ID a) (net_anchor_struct a)) st
  end.

(** [UpdateNetAnchor] *)
Definition UpdateNetAnchor (seen : NetTables) (fate : Fate) (p : Permit) (now : Time) (a : NetAnchor) (st : Store NetTables)
    : (StoreError + unit) * Store NetTables :=
  match ValidateNetAnchor a with
  | (_, Some ve) => (inl (Invalid ve), st)
  | (a, None) =>
      match nt_anchors seen !! an_ID a with
      | None => (inl (Wrapped ErrNotFound), st)
      | Some before =>
          let a := {| an_ID := an_ID a; an_Code := an_Code a; an_Name := an_Name a; an_Scope := an_Scope a;
            an_GroupID := an_GroupID a; an_EnvironmentID := an_EnvironmentID a; an_Plane := an_Plane a;
            an_Lifecycle := an_Lifecycle before; an_Provenance := an_Provenance before;
            an_CreatedAt := an_CreatedAt before; an_UpdatedAt := FormatTime now; an_RowVersion := an_RowVersion a |} in
          write fate (Some p) now (
            _ ← requireAssignableEnvironment "environment_id" (an_EnvironmentID a) (an_EnvironmentID before);
            _ ← requireLiveNetGroup (an_GroupID a);
            _ ← statement (update_anchor a);
            logUpdate NewID "net_anchor" (an_ID a) (net_anchor_struct before) (net_anchor_struct a)) st
      end
  end.

(** [RetireNetAnchor] *)
Definition RetireNetAnchor (seen : NetTables) (fate : Fate) (p : Permit) (now : Time) (id : string)
    (st : Store NetTables) : (StoreError + unit) * Store NetTables :=
  match nt_anchors seen !! id with
  | None => (inl (Wrapped ErrNotFound), st)
  | Some before =>
      if String.eqb (an_Lifecycle before) LifecycleRetired then (inr tt, st)
      else write fate (Some p) now (
        _ ← statement (fun t => inr (with_anchors (alter (retired_anchor (FormatTime now)) id (nt_anchors t)) t));
        log NewID "net_anchor" id ActionRetire (lifecycle_diff (an_Lifecycle before) LifecycleRetired) "") st
  end.
End Operations.

(** ** Requests *)

Inductive NetOp :=
  | OpCreateGroup (g : NetGroup) | OpUpdateGroup (g : NetGroup) | OpRetireGroup (id : string)
  | OpAddMember (m : NetGroupMember) | OpRetireMember (groupID assetID : string)
  | OpCreateUplink (u : NetUplink) | OpRetireUplink (id : string)
  | OpCreateAttachment (a : NetAttachment) (members : list NetAttachmentMember) | OpRetireAttachment (id : string)
  | OpCreateAnchor (a : NetAnchor) | OpUpdateAnchor (a : NetAnchor) | OpRetireAnchor (id : string).

Record NetRequest := { nr_seen : NetTables; nr_fates : nat -> Fate; nr_permit : Permit; nr_now : Time; nr_op : NetOp }.

Definition run_net `{Unicode} (NewID : nat -> string) (st : Store NetTables) (r : NetRequest) : Store NetTables :=
  let '(seen, fates, p, now) := (nr_seen r, nr_fates r, nr_permit r, nr_now r) in
  let fate := fates 1%nat in
  match nr_op r with
  | OpCreateGroup g => (CreateNetGroup NewID fate p now g st).2
  | OpUpdateGroup g => (UpdateNetGroup NewID seen fate p now g st).2
  | OpRetireGroup id => (RetireNetGroup NewID seen fates p now id st).2
  | OpAddMember m => (AddNetGroupMember NewID fate p now m st).2
  | OpRetireMember g a => (RetireNetGroupMember NewID fate p now g a st).2
  | OpCreateUplink u => (CreateNetUplink NewID fates p now u st).2
  | OpRetireUplink id => (RetireNetUplink NewID seen fate p now id st).2
  | OpCreateAttachment a ms => (CreateNetAttachment NewID fates p now a ms st).2
  | OpRetireAttachment id => (RetireNetAttachment NewID seen fate p now id st).2
  | OpCreateAnchor a => (CreateNetAnchor NewID fate p now a st).2
  | OpUpdateAnchor a => (UpdateNetAnchor NewID seen fate p now a st).2
  | OpRetireAnchor id => (RetireNetAnchor NewID seen fate p now id st).2
  end.

(** * Lemmas *)

(** ** The invariant *)

(** What a group declares about failures, as [NetGroup.Validate] asks it. *)
Record group_valid (g : NetGroup) : Prop := {
  gv_kind : ng_Kind g ∈ NetGroupKinds;
  gv_role : ng_Role g ∈ NetGroupRoles;
  gv_availability : ng_Availability g ∈ NetGroupAvailabilities;
  gv_min_healthy : ng_Availability g = AvailActiveActive -> exists n, ng_MinHealthy g = Some n /\ (1 <= n)%Z;
  gv_failover : ng_Availability g = AvailActivePassive -> exists m, ng_FailoverMode g = Some m /\ m ∈ FailoverModes
}.

Definition live_row (lifecycle : string) : Prop := lifecycle = LifecycleActive.

Record topology_ok (t : NetTables) : Prop := {
  tk_groups : forall k g, nt_groups t !! k = Some g -> ng_ID g = k /\ group_valid g;
  tk_codes : forall k k' g g', nt_groups t !! k = Some g -> nt_groups t !! k' = Some g' -> ng_Code g = ng_Code g' -> k = k';
  tk_members : forall k m, nt_members t !! k = Some m ->
    k = (nm_GroupID m, nm_AssetID m) /\ is_Some (nt_groups t !! nm_GroupID m) /\ is_Some (nt_assets t !! nm_AssetID m);
  tk_one_group : forall k k' m m', nt_members t !! k = Some m -> nt_members t !! k' = Some m' ->
    live_row (nm_Lifecycle m) -> live_row (nm_Lifecycle m') -> nm_AssetID m = nm_AssetID m' -> k = k';
  tk_uplinks : forall k u, nt_uplinks t !! k = Some u ->
    nu_ID u = k /\ nu_Plane u ∈ Planes /\ nu_GroupID u <> nu_UpstreamGroupID u /\
    is_Some (nt_groups t !! nu_GroupID u) /\ is_Some (nt_groups t !! nu_UpstreamGroupID u);
  tk_one_uplink : forall k k' u u', nt_uplinks t !! k = Some u -> nt_uplinks t !! k' = Some u' ->
    live_row (nu_Lifecycle u) -> live_row (nu_Lifecycle u') -> nu_GroupID u = nu_GroupID u' ->
    nu_UpstreamGroupID u = nu_UpstreamGroupID u' -> nu_Plane u = nu_Plane u' -> k = k';
  tk_attachments : forall k a, nt_attachments t !! k = Some a ->
    na_ID a = k /\ na_Plane a ∈ Planes /\ is_Some (nt_assets t !! na_AssetID a) /\ is_Some (nt_groups t !! na_GroupID a);
  tk_one_attachment : forall k k' a a', nt_attachments t !! k = Some a -> nt_attachments t !! k' = Some a' ->
    live_row (na_Lifecycle a) -> live_row (na_Lifecycle a') -> na_AssetID a = na_AssetID a' ->
    na_GroupID a = na_GroupID a' -> na_Plane a = na_Plane a' -> k = k';
  tk_pins : forall m, m ∈ nt_pins t -> exists a, nt_attachments t !! am_AttachmentID m = Some a /\
    is_Some (nt_members t !! (na_GroupID a, am_AssetID m));
  tk_pins_once : NoDup ((fun m => (am_AttachmentID m, am_AssetID m)) <$> nt_pins t);
  tk_anchors : forall k a, nt_anchors t !! k = Some a ->
    an_ID a = k /\ an_Scope a ∈ AnchorScopes /\ an_Plane a ∈ Planes /\ is_Some (nt_groups t !! an_GroupID a);
  tk_anchor_codes : forall k k' a a', nt_anchors t !! k = Some a -> nt_anchors t !! k' = Some a' -> an_Code a = an_Code a' -> k = k'
}.

Lemma is_live_row lifecycle : is_live lifecycle = true <-> live_row lifecycle.
Proof. apply String.eqb_eq. Qed.

Lemma retired_not_live : ~ live_row LifecycleRetired.
Proof. done. Qed.
#[local] Hint Resolve retired_not_live : core.

(** Boolean tests of a statement, as what they mean. *)
Ltac tests :=
  repeat match goal with
  | H : negb _ = false |- _ => apply negb_false_iff in H
  | H : negb _ = true |- _ => apply negb_true_iff in H
  | H : _ && _ = true |- _ => apply andb_true_iff in H as [? H]
  | H : known _ _ = true |- _ => apply known_spec in H
  | H : containsString _ _ = true |- _ => apply containsString_elem in H
  end.

(** *** Groups *)

(** A row put under its identifier, unlike the codes of the others. *)
Lemma code_unique {V} (id code : V -> string) (m : gmap string V) (x : V) :
  (forall k v, m !! k = Some v -> id v = k) ->
  existsb (fun v => String.eqb (code v) (code x) && negb (String.eqb (id v) (id x))) (rows m) = false ->
  (forall k k' v v', m !! k = Some v -> m !! k' = Some v' -> code v = code v' -> k = k') ->
  forall k k' v v', <[id x := x]> m !! k = Some v -> <[id x := x]> m !! k' = Some v' -> code v = code v' -> k = k'.
Proof.
  intros Hid He Hu. assert (forall k v, m !! k = Some v -> code v = code x -> k = id x) as Hx.
  { intros k v Hk Hc. unfold rows in He. rewrite existsb_rows in He. specialize (He k v Hk).
    rewrite Hc, String.eqb_refl in He. cbn [andb] in He. apply negb_false_iff, String.eqb_eq in He.
    by rewrite <- (Hid k v Hk). }
  intros k k' v v'. rewrite !lookup_insert_Some. intros [[<- <-]|[_ Hk]] [[<- <-]|[_ Hk']] Hc; [done| | |by eapply Hu].
  - symmetry. by apply (Hx k' v').
  - by apply (Hx k v).
Qed.

Lemma put_group_ok g t t' :
  topology_ok t -> put_group g t = inr t' ->
  (ng_Availability g = AvailActiveActive -> exists n, ng_MinHealthy g = Some n /\ (1 <= n)%Z) ->
  (ng_Availability g = AvailActivePassive -> is_Some (ng_FailoverMode g)) -> topology_ok t'.
Proof.
  intros Hok Hput Hmin Hmode. unfold put_group in Hput. destruct (negb (_ && _)) eqn:Hc; [done|].
  destruct (existsb _ _) eqn:Hcode; [done|]. destruct (names_a (known _) _); [|done]. injection Hput as <-. tests.
  assert (group_valid g) as Hv.
  { split; [done|done|done|done|]. intros [m Hm]%Hmode. exists m. split; [done|].
    rewrite Hm in Hc. by apply containsString_elem. }
  destruct Hok. split; cbn [nt_groups nt_members nt_uplinks nt_attachments nt_pins nt_anchors nt_assets with_groups]; try done.
  - intros k h. rewrite lookup_insert_Some. intros [[<- <-]|[_ Hk]]; eauto.
  - apply (code_unique ng_ID ng_Code); [|done|done]. intros k v Hk. by apply tk_groups0.
  - intros k m Hk. destruct (tk_members0 k m Hk) as (? & ? & ?). rewrite lookup_insert_is_Some'. auto.
  - intros k u Hk. destruct (tk_uplinks0 k u Hk) as (? & ? & ? & ? & ?). rewrite !lookup_insert_is_Some'. auto 10.
  - intros k a Hk. destruct (tk_attachments0 k a Hk) as (? & ? & ? & ?). rewrite !lookup_insert_is_Some'. auto 10.
  - intros k a Hk. destruct (tk_anchors0 k a Hk) as (? & ? & ? & ?). rewrite !lookup_insert_is_Some'. auto 10.
Qed.

(** *** Edges *)

(** The other fields of the invariant, where a statement leaves their tables alone. *)
Ltac untouched := cbn [nt_groups nt_members nt_uplinks nt_attachments nt_pins nt_anchors nt_assets with_groups with_net_members
  with_uplinks with_net_attachments with_pins with_anchors]; try done.

Lemma upsert_member_inv m t t' : upsert_member m t = inr t' ->
  exists row, t' = with_net_members (<[(nm_GroupID m, nm_AssetID m) := row]> (nt_members t)) t /\
    nm_GroupID row = nm_GroupID m /\ nm_AssetID row = nm_AssetID m /\ nm_Role row = nm_Role m /\
    nm_Lifecycle row = nm_Lifecycle m /\
    (forall old, nt_members t !! (nm_GroupID m, nm_AssetID m) = Some old -> nm_CreatedAt row = nm_CreatedAt old) /\
    is_Some (nt_groups t !! nm_GroupID m) /\ is_Some (nt_assets t !! nm_AssetID m) /\
    (live_row (nm_Lifecycle m) -> forall k n, nt_members t !! k = Some n -> live_row (nm_Lifecycle n) ->
       nm_AssetID n = nm_AssetID m -> nm_GroupID n = nm_GroupID m).
Proof.
  unfold upsert_member. destruct (containsString _ _ && _); [|done]. cbn [negb].
  destruct (is_live (nm_Lifecycle m) && _) eqn:He; [done|]. destruct (known _ _ && _) eqn:Hk; [|done].
  intros [= <-]. tests. eexists. split; [done|]. cbn. split_and!; try done.
  - by intros old ->.
  - intros Hl k n Hn Hln Ha. rewrite (proj2 (is_live_row _) Hl) in He. cbn in He. unfold member_elsewhere, rows in He.
    rewrite existsb_rows in He. specialize (He k n Hn).
    rewrite Ha, String.eqb_refl, (proj2 (is_live_row _) Hln) in He. cbn in He. by apply negb_false_iff, String.eqb_eq in He.
Qed.

Lemma upsert_member_ok m t t' : topology_ok t -> upsert_member m t = inr t' -> topology_ok t'.
Proof.
  intros [] (row & -> & EG & EA & _ & EL & _ & HG & HA & Hone)%upsert_member_inv. split; untouched.
  - intros k n. rewrite lookup_insert_Some. intros [[<- <-]|[_ Hk]]; [rewrite EG, EA; auto|eauto].
  - intros k k' n n'. rewrite !lookup_insert_Some. intros [[<- <-]|[_ Hk]] [[<- <-]|[_ Hk']] Hl Hl' Hn; [done|..|by eapply tk_one_group0].
    + rewrite EL in Hl. rewrite EA in Hn. destruct (tk_members0 _ _ Hk') as (-> & _ & _).
      by rewrite (Hone Hl _ _ Hk' Hl' (eq_sym Hn)), Hn.
    + rewrite EL in Hl'. rewrite EA in Hn. destruct (tk_members0 _ _ Hk) as (-> & _ & _).
      by rewrite (Hone Hl' _ _ Hk Hl Hn), Hn.
  - intros n Hn. destruct (tk_pins0 n Hn) as (a & Ha & Hm). exists a. split; [done|]. rewrite lookup_insert_is_Some'. auto.
Qed.

Lemma insert_uplink_ok u t t' : topology_ok t -> insert_uplink u t = inr t' -> topology_ok t'.
Proof.
  intros [] Hput. unfold insert_uplink in Hput. destruct (known (nt_uplinks t) _) eqn:Hnew; [done|].
  destruct (containsString _ _ && _ && _ && _) eqn:Hc; [|done]. cbn [negb] in Hput.
  destruct (is_live _ && _) eqn:He; [done|]. destruct (known _ _ && _) eqn:Hk; [|done]. injection Hput as <-.
  apply andb_true_iff in Hc as [Hc Hne%negb_true_iff%String.eqb_neq]. tests. split; untouched.
  - intros k v. rewrite lookup_insert_Some. intros [[<- <-]|[_ Hv]]; [by split_and!|eauto].
  - assert (live_row (nu_Lifecycle u) -> forall k v, nt_uplinks t !! k = Some v -> live_row (nu_Lifecycle v) ->
      nu_GroupID v = nu_GroupID u -> nu_UpstreamGroupID v = nu_UpstreamGroupID u -> nu_Plane v = nu_Plane u -> False) as Hone.
    { intros Hl k v Hv Hlv E1 E2 E3. rewrite (proj2 (is_live_row _) Hl) in He. cbn in He.
      pose proof (count_rows_zero _ _ He k v Hv) as Hz. cbn in Hz.
      by rewrite (proj2 (is_live_row _) Hlv), E1, E2, E3, !String.eqb_refl in Hz. }
    intros k k' v v'. rewrite !lookup_insert_Some. intros [[<- <-]|[_ Hv]] [[<- <-]|[_ Hv']] Hl Hl' E1 E2 E3; [done|..|by eapply tk_one_uplink0].
    + by destruct (Hone Hl k' v' Hv' Hl').
    + by destruct (Hone Hl' k v Hv Hl).
Qed.

Lemma insert_attachment_inv a t t' : insert_attachment a t = inr t' ->
  nt_attachments t !! na_ID a = None /\ t' = with_net_attachments (<[na_ID a := a]> (nt_attachments t)) t /\
  na_Plane a ∈ Planes /\ is_Some (nt_assets t !! na_AssetID a) /\ is_Some (nt_groups t !! na_GroupID a) /\
  (live_row (na_Lifecycle a) -> forall k v, nt_attachments t !! k = Some v -> live_row (na_Lifecycle v) ->
      na_AssetID v = na_AssetID a -> na_GroupID v = na_GroupID a -> na_Plane v = na_Plane a -> False).
Proof.
  unfold insert_attachment. destruct (known (nt_attachments t) _) eqn:Hnew; [done|].
  destruct (containsString _ _ && _ && _) eqn:Hc; [|done]. cbn [negb].
  destruct (is_live _ && _) eqn:He; [done|]. destruct (known _ _ && _) eqn:Hk; [|done]. intros [= <-].
  tests. split_and!; try done.
  - apply eq_None_not_Some. by intros Hs%known_spec; rewrite Hs in Hnew.
  - intros Hl k v Hv Hlv E1 E2 E3. rewrite (proj2 (is_live_row _) Hl) in He. cbn in He.
    pose proof (count_rows_zero _ _ He k v Hv) as Hz. cbn in Hz.
    by rewrite (proj2 (is_live_row _) Hlv), E1, E2, E3, !String.eqb_refl in Hz.
Qed.

Lemma insert_attachment_ok a t t' : topology_ok t -> insert_attachment a t = inr t' -> topology_ok t'.
Proof.
  intros [] (Hnew & -> & Hp & HA & HG & Hone)%insert_attachment_inv. split; untouched.
  - intros k v. rewrite lookup_insert_Some. intros [[<- <-]|[_ Hv]]; [by split_and!|eauto].
  - intros k k' v v'. rewrite !lookup_insert_Some. intros [[<- <-]|[_ Hv]] [[<- <-]|[_ Hv']] Hl Hl' E1 E2 E3; [done|..|by eapply tk_one_attachment0].
    + by destruct (Hone Hl k' v' Hv' Hl').
    + by destruct (Hone Hl' k v Hv Hl).
  - intros m Hm. destruct (tk_pins0 m Hm) as (b & Hb & Hmem). exists b. split; [|done].
    rewrite lookup_insert_ne; [done|]. congruence.
Qed.

Lemma insert_pin_inv id m t t' : insert_pin id m t = inr t' ->
  t' = with_pins (nt_pins t ++ [{| am_AttachmentID := id; am_AssetID := am_AssetID m; am_InterfaceID := am_InterfaceID m |}]) t /\
  (id, am_AssetID m) ∉ ((fun n => (am_AttachmentID n, am_AssetID n)) <$> nt_pins t).
Proof.
  unfold insert_pin. destruct (existsb _ _) eqn:He; [done|]. destruct (known _ _ && _ && _); [|done]. intros [= <-].
  split; [done|]. intros (n & [= -> E2] & Hn)%list_elem_of_fmap.
  assert (existsb (fun n' => String.eqb (am_AttachmentID n') (am_AttachmentID n) && String.eqb (am_AssetID n') (am_AssetID m))
    (nt_pins t) = true) as Ht; [|by rewrite He in Ht].
  apply existsb_exists. exists n. split; [by apply list_elem_of_In|]. by rewrite E2, !String.eqb_refl.
Qed.

Lemma insert_pin_ok id m a t t' :
  topology_ok t -> insert_pin id m t = inr t' -> nt_attachments t !! id = Some a ->
  is_Some (nt_members t !! (na_GroupID a, am_AssetID m)) -> topology_ok t'.
Proof.
  intros [] [-> Hnew]%insert_pin_inv Ha Hm. split; untouched.
  - intros n [Hn|Hn%list_elem_of_singleton]%elem_of_app; [by apply tk_pins0|]. subst n. by exists a.
  - rewrite fmap_app. apply NoDup_app. split_and!; [done| |apply NoDup_singleton].
    intros k Hk Hin%list_elem_of_singleton. by subst k.
Qed.

Lemma put_anchor_ok a t t' : topology_ok t -> put_anchor a t = inr t' -> topology_ok t'.
Proof.
  intros [] Hput. unfold put_anchor in Hput. destruct (containsString _ _ && _ && _) eqn:Hc; [|done]. cbn [negb] in Hput.
  destruct (existsb _ _) eqn:Hcode; [done|]. destruct (known _ _ && _) eqn:Hk; [|done]. injection Hput as <-.
  apply andb_true_iff in Hk as [Hg _]. tests. split; untouched.
  - intros k b. rewrite lookup_insert_Some. intros [[<- <-]|[_ Hb]]; [by split_and!|eauto].
  - apply (code_unique an_ID an_Code); [|done|done]. intros k v Hk. by apply tk_anchors0.
Qed.

Lemma check_confidence_nil ve p : check_confidence ve p = [] -> ve = [].
Proof. unfold check_confidence. repeat case_match; try done. by intros []%Add_not_nil. Qed.

Lemma ValidateNetGroup_pairs `{Unicode} g g' : ValidateNetGroup g = (g', None) ->
  ng_ID g' = ng_ID g /\ ng_Lifecycle g' = ng_Lifecycle g /\
  (ng_Availability g' = AvailActiveActive -> exists n, ng_MinHealthy g' = Some n /\ (1 <= n)%Z) /\
  (ng_Availability g' = AvailActivePassive -> is_Some (ng_FailoverMode g')).
Proof.
  unfold ValidateNetGroup. destruct (checkRequired [] _ _) as [v1 code], (checkRequired v1 _ _) as [v2 name].
  intros [= <- Hnil%OrNil_None%check_confidence_nil]. cbn. split_and!; [done|done|..].
  - intros Ha. rewrite Ha in Hnil. cbn in Hnil. destruct (ng_MinHealthy g) as [n|]; [|by apply Add_not_nil in Hnil].
    exists n. split; [done|]. destruct (Z.ltb_spec n 1); [by apply Add_not_nil in Hnil|done].
  - intros Ha. rewrite Ha in Hnil. cbn in Hnil. destruct (ng_FailoverMode g); [done|]. by apply Add_not_nil in Hnil.
Qed.

(** *** Withdrawals *)

Ltac altered H :=
  let v := fresh "v" in let Hrow := fresh "Hrow" in apply alter_row in H as (v & Hrow & [->|[-> ->]]).

Lemma retired_group_ok at_ id t : topology_ok t -> topology_ok (with_groups (alter (retired_group at_) id (nt_groups t)) t).
Proof.
  intros []. split; untouched.
  - intros k g Hg. altered Hg; [by apply tk_groups0|]. destruct (tk_groups0 _ _ Hrow) as [Hid []]. by split.
  - intros k k' g g' Hg Hg' Hc. altered Hg; altered Hg'; by eapply tk_codes0.
  - intros k m Hm. rewrite lookup_alter_is_Some. by apply tk_members0.
  - intros k u Hu. rewrite !lookup_alter_is_Some. by apply tk_uplinks0.
  - intros k a Ha. rewrite lookup_alter_is_Some. by apply tk_attachments0.
  - intros k a Ha. rewrite lookup_alter_is_Some. by apply tk_anchors0.
Qed.

Lemma retired_member_ok at_ key t : topology_ok t -> topology_ok (with_net_members (alter (retired_member at_) key (nt_members t)) t).
Proof.
  intros []. split; untouched.
  - intros k m Hm. altered Hm; exact (tk_members0 _ _ Hrow).
  - intros k k' m m' Hm Hm' Hl Hl' E. altered Hm; altered Hm'; try (by eapply tk_one_group0); done.
  - intros m Hm. destruct (tk_pins0 m Hm) as (a & Ha & Hmem). exists a. by rewrite lookup_alter_is_Some.
Qed.

Lemma retired_uplink_ok at_ id t : topology_ok t -> topology_ok (with_uplinks (alter (retired_uplink at_) id (nt_uplinks t)) t).
Proof.
  intros []. split; untouched.
  - intros k u Hu. altered Hu; exact (tk_uplinks0 _ _ Hrow).
  - intros k k' u u' Hu Hu' Hl Hl' E1 E2 E3. altered Hu; altered Hu'; try (by eapply tk_one_uplink0); done.
Qed.

Lemma retired_attachment_ok at_ id t :
  topology_ok t -> topology_ok (with_net_attachments (alter (retired_attachment at_) id (nt_attachments t)) t).
Proof.
  intros []. split; untouched.
  - intros k a Ha. altered Ha; exact (tk_attachments0 _ _ Hrow).
  - intros k k' a a' Ha Ha' Hl Hl' E1 E2 E3. altered Ha; altered Ha'; try (by eapply tk_one_attachment0); done.
  - intros m Hm. destruct (tk_pins0 m Hm) as (a & Ha & Hmem).
    destruct (decide (id = am_AttachmentID m)) as [->|Hne].
    + exists (retired_attachment at_ a). by rewrite lookup_alter_eq, Ha.
    + exists a. by rewrite lookup_alter_ne.
Qed.

Lemma retired_anchor_ok at_ id t : topology_ok t -> topology_ok (with_anchors (alter (retired_anchor at_) id (nt_anchors t)) t).
Proof.
  intros []. split; untouched.
  - intros k a Ha. altered Ha; exact (tk_anchors0 _ _ Hrow).
  - intros k k' a a' Ha Ha' E. altered Ha; altered Ha'; by eapply tk_anchor_codes0.
Qed.

(** ** Operations keep the invariant *)

Section Preservation.
Context `{Unicode} (NewID : nat -> string).

Lemma kept_requireAssignableEnvironment f n c : keeps topology_ok (requireAssignableEnvironment f n c).
Proof. unfold requireAssignableEnvironment. keeping. Qed.
Lemma kept_requireLiveNetGroup id : keeps topology_ok (requireLiveNetGroup id).
Proof. unfold requireLiveNetGroup. keeping. Qed.
Lemma kept_require_member g m : keeps topology_ok (require_member g m).
Proof. unfold require_member. keeping. Qed.

Lemma kept_total (f : NetTables -> NetTables) : (forall t, topology_ok t -> topology_ok (f t)) ->
  keeps topology_ok (statement (fun t => inr (f t))).
Proof. intros Hf. apply kept_statement. intros t t' Ht [= <-]. by apply Hf. Qed.

Lemma kept_withdraw ty id f : (forall t, topology_ok t -> topology_ok (f t)) -> keeps topology_ok (withdraw NewID ty id f).
Proof. intros Hf. unfold withdraw. apply kept_bind; [by apply kept_total|]. keeping. Qed.

Lemma kept_withdraw_member at_ g a : keeps topology_ok (withdraw_member NewID at_ g a).
Proof. apply kept_withdraw. intros. by apply retired_member_ok. Qed.
Lemma kept_withdraw_uplink at_ id : keeps topology_ok (withdraw_uplink NewID at_ id).
Proof. apply kept_withdraw. intros. by apply retired_uplink_ok. Qed.
Lemma kept_withdraw_attachment at_ id : keeps topology_ok (withdraw_attachment NewID at_ id).
Proof. apply kept_withdraw. intros. by apply retired_attachment_ok. Qed.
Lemma kept_withdraw_anchor at_ id : keeps topology_ok (withdraw_anchor NewID at_ id).
Proof. apply kept_withdraw. intros. by apply retired_anchor_ok. Qed.
#[local] Hint Resolve kept_requireAssignableEnvironment kept_requireLiveNetGroup kept_require_member
  kept_withdraw_member kept_withdraw_uplink kept_withdraw_attachment kept_withdraw_anchor
  retired_group_ok retired_uplink_ok retired_attachment_ok retired_anchor_ok : keeps.

Lemma kept_cascade id at_ : keeps topology_ok (retireNetGroupCascade NewID id at_).
Proof. unfold retireNetGroupCascade. keeping. Qed.
#[local] Hint Resolve kept_cascade : keeps.

(** The pins of a new attachment name live members of its group, as the loop before
    the insertion saw to. *)
Lemma require_members_inv groupID members env st x st' :
  each (require_member groupID) members env st = inr (x, st') ->
  st' = st /\ forall m, m ∈ members -> exists r, nt_members (st_tables st) !! (groupID, am_AssetID m) = Some r /\ live_row (nm_Lifecycle r).
Proof.
  revert x. induction members as [|m members IH]; intros x; cbn [each].
  - intros [_ ->]%ret_inv. split; [done|]. by intros m ?%not_elem_of_nil.
  - intros (y & s1 & Hm & Hrest)%bind_inv. unfold require_member in Hm.
    apply bind_inv in Hm as (r & s2 & [-> ->]%query_inv & Hm).
    destruct (nt_members _ !! _) as [r|] eqn:Hr; [|done]. destruct (is_live (nm_Lifecycle r)) eqn:Hl; [|done].
    apply ret_inv in Hm as [_ ->]. apply IH in Hrest as [-> Hrest]. split; [done|].
    intros n [->|Hn]%elem_of_cons; [exists r; split; [done|by apply is_live_row]|by apply Hrest].
Qed.

Lemma insert_pins_ok a members env : forall st x st',
  each (fun m => statement (insert_pin (na_ID a) m)) members env st = inr (x, st') ->
  topology_ok (st_tables st) -> nt_attachments (st_tables st) !! na_ID a = Some a ->
  (forall m, m ∈ members -> is_Some (nt_members (st_tables st) !! (na_GroupID a, am_AssetID m))) ->
  topology_ok (st_tables st').
Proof.
  induction members as [|m members IH]; intros st x st'; cbn [each]; [by intros [_ ->]%ret_inv|].
  intros (y & s1 & (t1 & Hpin & E1)%statement_inv & Hrest)%bind_inv Hok Ha Hmem. eapply IH; [exact Hrest| | |].
  - rewrite E1. eapply insert_pin_ok; [done..|]. apply Hmem. by left.
  - by rewrite E1; apply insert_pin_inv in Hpin as [-> _].
  - intros n Hn. rewrite E1. apply insert_pin_inv in Hpin as [-> _]. apply Hmem. by right.
Qed.

Lemma kept_create_attachment a members :
  keeps topology_ok (
    _ ← each (require_member (na_GroupID a)) members;
    _ ← statement (insert_attachment a);
    _ ← each (fun m => statement (insert_pin (na_ID a) m)) members;
    logCreate NewID "net_attachment" (na_ID a) (auditedNetAttachment a members)).
Proof.
  intros env st x st' (u1 & s1 & [-> Hmem]%require_members_inv & Hrun)%bind_inv Hok.
  apply bind_inv in Hrun as (u2 & s2 & (t2 & Hins & E2)%statement_inv & Hrun).
  apply bind_inv in Hrun as (u3 & s3 & Hpins & [_ ->]%logCreate_inv).
  pose proof Hins as (_ & Et & _)%insert_attachment_inv. eapply insert_pins_ok; [exact Hpins|..]; rewrite E2.
  - by eapply insert_attachment_ok.
  - rewrite Et. untouched. by rewrite lookup_insert_eq.
  - rewrite Et. untouched. intros m (r & Hr & _)%Hmem. by rewrite Hr.
Qed.

Lemma run_net_ok st r : topology_ok (st_tables st) -> topology_ok (st_tables (run_net NewID st r)).
Proof.
  intros Hok. unfold run_net. destruct (nr_op r) as [g|g|id|m|g a|u|id|a ms|id|a|a|id].
  - unfold CreateNetGroup. destruct (ValidateNetGroup g) as [g' [ve|]] eqn:Hv; [done|].
    apply ValidateNetGroup_pairs in Hv as (_ & _ & Hmin & Hmode). apply kept_write; [|done]. keeping.
    apply kept_statement. intros t t' Ht. unfold insert_group. destruct (known _ _); [done|]. intros Hput.
    by eapply put_group_ok.
  - unfold UpdateNetGroup. destruct (ValidateNetGroup g) as [g' [ve|]] eqn:Hv; [done|].
    apply ValidateNetGroup_pairs in Hv as (_ & _ & Hmin & Hmode). destruct (nt_groups _ !! _) as [before|]; [|done].
    cbv zeta. apply kept_write; [|done]. keeping. apply kept_statement. intros t t' Ht. unfold update_group.
    destruct (nt_groups t !! _); [|done]. destruct (_ =? _)%Z; [|done]. intros Hput. by eapply put_group_ok.
  - unfold RetireNetGroup. destruct (nt_groups _ !! _); [|done]. destruct (String.eqb _ _); [done|].
    apply kept_writeSerializable; [|done]. keeping. apply kept_total. auto with keeps.
  - unfold AddNetGroupMember. destruct (ValidateNetGroupMember m) as [m' [ve|]]; [done|]. cbv zeta.
    apply kept_write; [|done]. keeping. apply kept_statement. apply upsert_member_ok.
  - unfold RetireNetGroupMember. apply kept_write; [|done]. keeping.
  - unfold CreateNetUplink. destruct (ValidateNetUplink u); [done|]. apply kept_writeSerializable; [|done]. keeping.
    apply kept_statement. apply insert_uplink_ok.
  - unfold RetireNetUplink. destruct (nt_uplinks _ !! _); [|done]. destruct (String.eqb _ _); [done|].
    apply kept_write; [|done]. keeping. apply kept_total. auto with keeps.
  - unfold CreateNetAttachment. destruct (ValidateNetAttachment a); [done|]. apply kept_writeSerializable; [|done].
    apply kept_bind; [auto with keeps|intros [host|]; [|auto with keeps]]. apply kept_bind; [auto with keeps|intros b].
    destruct (negb b); [auto with keeps|]. apply kept_bind; [auto with keeps|intros n].
    destruct (0 <? n)%nat; [auto with keeps|]. apply kept_create_attachment.
  - unfold RetireNetAttachment. destruct (nt_attachments _ !! _); [|done]. destruct (String.eqb _ _); [done|].
    apply kept_write; [|done]. keeping. apply kept_total. auto with keeps.
  - unfold CreateNetAnchor. destruct (ValidateNetAnchor a) as [a' [ve|]]; [done|]. apply kept_write; [|done]. keeping.
    apply kept_statement. intros t t' Ht. unfold insert_anchor. destruct (known _ _); [done|]. by apply put_anchor_ok.
  - unfold UpdateNetAnchor. destruct (ValidateNetAnchor a) as [a' [ve|]]; [done|]. destruct (nt_anchors _ !! _); [|done].
    cbv zeta. apply kept_write; [|done]. keeping. apply kept_statement. intros t t' Ht. unfold update_anchor.
    destruct (nt_anchors t !! _); [|done]. destruct (_ =? _)%Z; [|done]. by apply put_anchor_ok.
  - unfold RetireNetAnchor. destruct (nt_anchors _ !! _); [|done]. destruct (String.eqb _ _); [done|].
    apply kept_write; [|done]. keeping. apply kept_total. auto with keeps.
Qed.
End Preservation.

(** ** The edges of a withdrawn group *)

(** A table whose rows of a kind were changed, and no others. *)
Definition swept {K V} `{Countable K} (test : V -> bool) (f : V -> V) (m m' : gmap K V) : Prop :=
  forall k, m' !! k = (fun v => if test v then f v else v) <$> m !! k.

(** What the cascade does to the tables. *)
Record edges_withdrawn (id at_ : string) (t t' : NetTables) : Prop := {
  ew_members : swept (names_member id) (retired_member at_) (nt_members t) (nt_members t');
  ew_uplinks : swept (names_uplink id) (retired_uplink at_) (nt_uplinks t) (nt_uplinks t');
  ew_attachments : swept (names_attachment id) (retired_attachment at_) (nt_attachments t) (nt_attachments t');
  ew_anchors : swept (names_anchor id) (retired_anchor at_) (nt_anchors t) (nt_anchors t');
  ew_groups : nt_groups t' = nt_groups t;
  ew_assets : nt_assets t' = nt_assets t;
  ew_pins : nt_pins t' = nt_pins t
}.

(** The live edges a group has. *)
Definition live_edges (id : string) (t : NetTables) : nat :=
  length (List.filter (names_member id) (rows (nt_members t))) + length (List.filter (names_uplink id) (rows (nt_uplinks t))) +
  length (List.filter (names_attachment id) (rows (nt_attachments t))) + length (List.filter (names_anchor id) (rows (nt_anchors t))).

Lemma swept_none {K V} `{Countable K} test f (m m' : gmap K V) :
  swept test f m m' -> (forall v, test (f v) = false) -> forall k v, m' !! k = Some v -> test v = false.
Proof.
  intros Hs Hf k v Hk. rewrite Hs in Hk. destruct (m !! k) as [w|]; [|done]. injection Hk as <-.
  by destruct (test w) eqn:E.
Qed.

Lemma swept_rows {K V} `{Countable K} (test : V -> bool) (f : V -> V) (key : V -> K) (ks : list K) (m : gmap K V) :
  (forall v, f (f v) = f v) -> (forall k v, m !! k = Some v -> key v = k) ->
  ks = key <$> List.filter test (rows m) -> swept test f m (foldl (fun m k => alter f k m) m ks).
Proof.
  intros Hf Hkey -> k. apply (lookup_picked f (fun _ => test)); [done|]. rewrite list_elem_of_fmap. split.
  - intros (v & -> & [Hin Ht]%list_elem_of_In%filter_In). apply list_elem_of_In, elem_of_table in Hin as [j Hj].
    rewrite (Hkey j v Hj). eauto.
  - intros (v & Hv & Ht). exists v. split; [by rewrite (Hkey k v Hv)|]. apply list_elem_of_In, filter_In.
    split; [|done]. apply list_elem_of_In, elem_of_table. eauto.
Qed.

Section Withdrawing.
Context `{Unicode} (NewID : nat -> string).

Lemma log_grows {T} t id action d b env (st : Store T) a st' :
  log NewID t id action d b env st = inr (a, st') -> length (st_log st') = S (length (st_log st)).
Proof.
  unfold log, mbind, Tx_bind, authorize, newID, insert_change. destruct (tx_permit env); [|done].
  destruct (Covers _ _ _); [|done]. intros [= _ <-]. cbn. rewrite length_app. cbn. lia.
Qed.

Lemma each_withdraw {A} (ty : string) (name : A -> string) (g : A -> NetTables -> NetTables) (l : list A) env st x st' :
  each (fun y => withdraw NewID ty (name y) (g y)) l env st = inr (x, st') ->
  st_tables st' = foldl (fun t y => g y t) (st_tables st) l /\ length (st_log st') = length (st_log st) + length l.
Proof.
  revert st. induction l as [|y l IH]; intros st Hrun; cbn [each] in Hrun.
  { apply ret_inv in Hrun as [_ ->]. cbn. split; [done|lia]. }
  apply bind_inv in Hrun as (x1 & s1 & H1 & Hrun). destruct (IH _ Hrun) as [-> ->].
  unfold withdraw in H1. apply bind_inv in H1 as (x2 & s2 & H2 & H1).
  rewrite (log_grows _ _ _ _ _ _ _ _ _ H1). apply log_inv in H1 as [_ ->].
  unfold statement in H2. injection H2 as _ <-. cbn. split; [done|lia].
Qed.

Lemma foldl_net_members at_ id ks t :
  foldl (fun t a => with_net_members (alter (retired_member at_) (id, a) (nt_members t)) t) t ks =
  with_net_members (foldl (fun m k => alter (retired_member at_) k m) (nt_members t) ((fun a => (id, a)) <$> ks)) t.
Proof. revert t. induction ks as [|g ks IH]; intros t; [by destruct t|]. cbn [foldl fmap list_fmap]. by rewrite IH. Qed.
Lemma foldl_net_uplinks f ks t :
  foldl (fun t id => with_uplinks (alter f id (nt_uplinks t)) t) t ks =
  with_uplinks (foldl (fun m k => alter f k m) (nt_uplinks t) ks) t.
Proof. revert t. induction ks as [|g ks IH]; intros t; [by destruct t|]. cbn [foldl]. by rewrite IH. Qed.
Lemma foldl_net_attachments f ks t :
  foldl (fun t id => with_net_attachments (alter f id (nt_attachments t)) t) t ks =
  with_net_attachments (foldl (fun m k => alter f k m) (nt_attachments t) ks) t.
Proof. revert t. induction ks as [|g ks IH]; intros t; [by destruct t|]. cbn [foldl]. by rewrite IH. Qed.
Lemma foldl_net_anchors f ks t :
  foldl (fun t id => with_anchors (alter f id (nt_anchors t)) t) t ks =
  with_anchors (foldl (fun m k => alter f k m) (nt_anchors t) ks) t.
Proof. revert t. induction ks as [|g ks IH]; intros t; [by destruct t|]. cbn [foldl]. by rewrite IH. Qed.

(** The members of a group are keyed by it. *)
Lemma member_keys id (t : NetTables) : topology_ok t ->
  (fun a => (id, a)) <$> (nm_AssetID <$> List.filter (names_member id) (rows (nt_members t))) =
  (fun m => (nm_GroupID m, nm_AssetID m)) <$> List.filter (names_member id) (rows (nt_members t)).
Proof.
  intros _. rewrite <- list_fmap_compose. apply list_fmap_ext. intros i m Hm. cbn.
  apply list_elem_of_lookup_2, list_elem_of_In, filter_In in Hm as [_ Hm]. unfold names_member in Hm.
  by apply andb_true_iff in Hm as [->%String.eqb_eq _].
Qed.

Lemma cascade_inv id at_ env st x st' :
  topology_ok (st_tables st) -> retireNetGroupCascade NewID id at_ env st = inr (x, st') ->
  edges_withdrawn id at_ (st_tables st) (st_tables st') /\
  length (st_log st') = length (st_log st) + live_edges id (st_tables st).
Proof.
  intros Hok. unfold retireNetGroupCascade. intros (ms & s1 & [-> ->]%query_inv & Hrun)%bind_inv.
  apply bind_inv in Hrun as (x2 & s2 & H2 & Hrun).
  apply (each_withdraw "net_group_member" (fun a => id +++ "/" +++ a)) in H2 as [E2 L2]. rewrite foldl_net_members in E2.
  apply bind_inv in Hrun as (us & s3 & [-> ->]%query_inv & Hrun). apply bind_inv in Hrun as (x4 & s4 & H4 & Hrun).
  apply (each_withdraw "net_uplink" (fun k => k)) in H4 as [E4 L4]. rewrite foldl_net_uplinks in E4.
  apply bind_inv in Hrun as (xs & s5 & [-> ->]%query_inv & Hrun). apply bind_inv in Hrun as (x6 & s6 & H6 & Hrun).
  apply (each_withdraw "net_attachment" (fun k => k)) in H6 as [E6 L6]. rewrite foldl_net_attachments in E6.
  apply bind_inv in Hrun as (ys & s7 & [-> ->]%query_inv & Hrun).
  apply (each_withdraw "net_anchor" (fun k => k)) in Hrun as [E8 L8]. rewrite foldl_net_anchors in E8.
  rewrite L8, L6, L4, L2, !length_fmap, E8, E6, E4, E2. split; [|unfold live_edges; cbn; lia].
  destruct Hok. split; cbn; [..|done|done|done].
  - apply (swept_rows _ _ (fun m => (nm_GroupID m, nm_AssetID m))); [done| |by apply member_keys].
    intros k m Hk. by destruct (tk_members0 k m Hk) as [-> _].
  - apply (swept_rows _ _ nu_ID); [done| |done]. intros k u Hk. by apply tk_uplinks0.
  - apply (swept_rows _ _ na_ID); [done| |done]. intros k u Hk. by apply tk_attachments0.
  - apply (swept_rows _ _ an_ID); [done| |done]. intros k u Hk. by apply tk_anchors0.
Qed.
End Withdrawing.

(** ** Memberships *)

(** What a membership needs to be taken. *)
Definition member_accepted (m : NetGroupMember) (t : NetTables) : Prop :=
  is_Some (nt_groups t !! nm_GroupID m) /\ is_Some (nt_assets t !! nm_AssetID m) /\
  (live_row (nm_Lifecycle m) -> forall k n, nt_members t !! k = Some n -> live_row (nm_Lifecycle n) ->
     nm_AssetID n = nm_AssetID m -> nm_GroupID n = nm_GroupID m).

Lemma ValidateNetGroupMember_spec `{Unicode} m m' err : ValidateNetGroupMember m = (m', err) ->
  nm_GroupID m' = nm_GroupID m /\ nm_AssetID m' = nm_AssetID m /\ nm_UpdatedAt m' = nm_UpdatedAt m /\
  nm_CreatedAt m' = nm_CreatedAt m /\ nm_Role m' = nm_Role m /\
  (err = None -> nm_Role m' ∈ NetGroupMemberRoles /\ nm_Lifecycle m' ∈ edge_lifecycles).
Proof.
  unfold ValidateNetGroupMember. destruct (checkRequired [] _ _) as [v1 ?], (checkRequired v1 _ _) as [v2 ?].
  intros [= <- <-]. cbn. split_and!; [done..|].
  by intros [[_ Hr]%checkEnum_nil Hl]%OrNil_None%checkEnum_nil.
Qed.

(** The membership statement, when the validation has passed. *)
Lemma upsert_member_outcome m t : nm_Role m ∈ NetGroupMemberRoles -> nm_Lifecycle m ∈ edge_lifecycles ->
  (member_accepted m t /\ upsert_member m t = inr (with_net_members (<[(nm_GroupID m, nm_AssetID m) :=
     {| nm_GroupID := nm_GroupID m; nm_AssetID := nm_AssetID m; nm_Role := nm_Role m; nm_Lifecycle := nm_Lifecycle m;
        nm_CreatedAt := match nt_members t !! (nm_GroupID m, nm_AssetID m) with
                        | Some row => nm_CreatedAt row | None => nm_CreatedAt m end;
        nm_UpdatedAt := nm_UpdatedAt m |}]> (nt_members t)) t)) \/
  (~ member_accepted m t /\ exists e, upsert_member m t = inl e).
Proof.
  intros Hr%containsString_elem Hl%containsString_elem.
  destruct (upsert_member m t) as [e|t'] eqn:E.
  - right. split; [|by exists e]. intros (HG%known_spec & HA%known_spec & Hone). unfold upsert_member in E.
    rewrite Hr, Hl, HG, HA in E. cbn in E. destruct (is_live _ && _) eqn:He; [|done].
    apply andb_true_iff in He as [Hlive%is_live_row He]. apply existsb_exists in He as (n & Hin & Ht).
    apply list_elem_of_In, elem_of_table in Hin as [k Hk].
    apply andb_true_iff in Ht as [Ht Hne]. apply andb_true_iff in Ht as [Ha%String.eqb_eq Hn%is_live_row].
    rewrite (Hone Hlive k n Hk Hn Ha), String.eqb_refl in Hne. done.
  - left. pose proof E as (row & _ & _ & _ & _ & _ & _ & HG & HA & Hone)%upsert_member_inv. split; [by split_and!|].
    unfold upsert_member in E. repeat case_match; try done.
Qed.

(** * Theorems *)

Section Theorems.
Context `{Unicode} (NewID : nat -> string).

(** C21. Whatever requests are made of the declared topology, in whatever order and
    whether they commit or not, it stays well formed: every group declares what its
    availability needs and has a code of its own, every edge names rows that exist, an
    asset is a live member of one group at most, no two live uplinks or attachments
    join the same pair on a plane, no group uplinks to itself, and every pin names a
    membership of its attachment's group. *)
Theorem topology_well_formed st rs :
  topology_ok (st_tables st) -> topology_ok (st_tables (foldl (run_net NewID) st rs)).
Proof. revert st. induction rs as [|r rs IH]; intros st Hok; [done|]. by apply IH, run_net_ok. Qed.

(** After a group is retired no live edge names it: no membership, no uplink from it
    or to it, no attachment, no anchor. The edges that named it are retired and the
    others are as they were, the other groups are untouched, and each of these
    retirements is in the log. *)
Theorem RetireNetGroup_takes_edges seen fates p now id before st st' :
  topology_ok (st_tables st) -> nt_groups seen !! id = Some before -> ng_Lifecycle before <> LifecycleRetired ->
  RetireNetGroup NewID seen fates p now id st = (inr tt, st') ->
  let t := st_tables st in
  let t' := st_tables st' in
  nt_groups t' = alter (retired_group (FormatTime now)) id (nt_groups t) /\
  edges_withdrawn id (FormatTime now) (with_groups (nt_groups t') t) t' /\
  (forall k m, nt_members t' !! k = Some m -> live_row (nm_Lifecycle m) -> nm_GroupID m <> id) /\
  (forall k u, nt_uplinks t' !! k = Some u -> live_row (nu_Lifecycle u) -> nu_GroupID u <> id /\ nu_UpstreamGroupID u <> id) /\
  (forall k a, nt_attachments t' !! k = Some a -> live_row (na_Lifecycle a) -> na_GroupID a <> id) /\
  (forall k a, nt_anchors t' !! k = Some a -> live_row (an_Lifecycle a) -> an_GroupID a <> id) /\
  length (st_log st') = length (st_log st) + S (live_edges id t).
Proof.
  intros Hok Hb Hl%String.eqb_neq Hrun. cbv zeta. unfold RetireNetGroup in Hrun. rewrite Hb, Hl in Hrun.
  match type of Hrun with writeSerializable _ _ _ ?f _ = _ => pose proof (writeSerializable_written fates (Some p) now f st) as Hw end.
  rewrite Hrun in Hw. inversion Hw as [|x st2 Hbody]; subst. clear Hw Hrun.
  apply bind_inv in Hbody as (x1 & s1 & H1 & Hbody). apply bind_inv in Hbody as (x2 & s2 & H2 & Hbody).
  pose proof (log_grows _ _ _ _ _ _ _ _ _ _ H2) as L2. apply log_inv in H2 as [_ E2].
  unfold statement in H1. injection H1 as _ <-. cbn in E2, L2.
  apply cascade_inv in Hbody as [Hedges Hlog]; [|rewrite E2; by apply retired_group_ok].
  rewrite E2 in Hedges. rewrite (ew_groups _ _ _ _ Hedges).
  split; [done|]. split; [done|]. destruct Hedges. split_and!.
  - intros k m Hm Hlive Hid. pose proof (swept_none _ _ _ _ ew_members0 (fun v => andb_false_r _) k m Hm) as Hn.
    unfold names_member in Hn. by rewrite Hid, String.eqb_refl, (proj2 (is_live_row _) Hlive) in Hn.
  - intros k u Hu Hlive. pose proof (swept_none _ _ _ _ ew_uplinks0 (fun v => andb_false_r _) k u Hu) as Hn.
    unfold names_uplink in Hn. rewrite (proj2 (is_live_row _) Hlive), andb_true_r in Hn.
    by apply orb_false_iff in Hn as [Hg%String.eqb_neq Hup%String.eqb_neq].
  - intros k a Ha Hlive Hid. pose proof (swept_none _ _ _ _ ew_attachments0 (fun v => andb_false_r _) k a Ha) as Hn.
    unfold names_attachment in Hn. by rewrite Hid, String.eqb_refl, (proj2 (is_live_row _) Hlive) in Hn.
  - intros k a Ha Hlive Hid. pose proof (swept_none _ _ _ _ ew_anchors0 (fun v => andb_false_r _) k a Ha) as Hn.
    unfold names_anchor in Hn. by rewrite Hid, String.eqb_refl, (proj2 (is_live_row _) Hlive) in Hn.
  - rewrite Hlog, L2, E2. unfold live_edges. cbn. lia.
Qed.

(** A membership is taken exactly when it is valid, its group and its asset exist and,
    for a live one, the asset is not a live member of another group. It is then the row of
    its pair, with the role and the lifecycle asked for; a pair that was there before,
    live or withdrawn, keeps the moment it was first made. No other membership changes,
    and a refusal changes nothing. *)
Theorem AddNetGroupMember_outcome p now m st :
  Covers p "net_group_member" (nm_GroupID m +++ "/" +++ nm_AssetID m) = true ->
  let t := st_tables st in
  let '(res, st') := AddNetGroupMember NewID Commits p now m st in
  let '(m', err) := ValidateNetGroupMember m in
  let key := (nm_GroupID m, nm_AssetID m) in
  (res = inr tt <-> err = None /\ member_accepted m' t) /\
  (res = inr tt -> st_tables st' = with_net_members (<[key :=
     {| nm_GroupID := nm_GroupID m; nm_AssetID := nm_AssetID m; nm_Role := nm_Role m; nm_Lifecycle := nm_Lifecycle m';
        nm_CreatedAt := match nt_members t !! key with Some row => nm_CreatedAt row | None => nm_CreatedAt m end;
        nm_UpdatedAt := nm_UpdatedAt m |}]> (nt_members t)) t) /\
  (res <> inr tt -> st' = st).
Proof.
  intros Hc. cbv zeta. destruct (ValidateNetGroupMember m) as [m' err] eqn:Hv. unfold AddNetGroupMember. rewrite Hv.
  apply ValidateNetGroupMember_spec in Hv as (EG & EA & EU & EC & ER & Hv). destruct err as [ve|].
  { split_and!; try done. by split; [|intros []]. }
  destruct (Hv eq_refl) as [Hr Hl]. destruct (upsert_member_outcome m' (st_tables st) Hr Hl) as [(Hacc & Hup)|(Hacc & e & Hup)].
  - rewrite EG, EA, EU, EC, ER in Hup. rewrite EG, EA. unfold write, writeTx, mbind, Tx_bind, query, statement at 1.
    rewrite Hup. cbn [st_tables st_log st_ids].
    set (st1 := MkStore _ (st_log st) (st_ids st)).
    assert (exists st2, match nt_members (st_tables st) !! (nm_GroupID m, nm_AssetID m) with
      | Some before => logUpdate NewID "net_group_member" (nm_GroupID m +++ "/" +++ nm_AssetID m)
                         (net_group_member_struct before) (net_group_member_struct m')
      | None => logCreate NewID "net_group_member" (nm_GroupID m +++ "/" +++ nm_AssetID m) (net_group_member_struct m')
      end (env_of (Some p) now) st1 = inr (tt, st2) /\ st_tables st2 = st_tables st1) as (st2 & Hrun & E2).
    { destruct (nt_members _ !! _); [by apply logUpdate_runs|by apply logCreate_runs]. }
    unfold env_of in Hrun. cbv zeta. rewrite Hrun. split_and!; [done|by rewrite E2|done].
  - unfold write, writeTx, mbind, Tx_bind, query, statement. rewrite Hup. split_and!; [|done|done].
    by split; [|intros [_ ?]].
Qed.
End Theorems.

(** * Samples *)

#[local] Instance net_unicode : Unicode := {| lower_unicode := ascii_lower; quote_unicode := fun s => s |}.

Definition bare_estate : Store NetTables := MkStore
  {| nt_assets := {["sw1" := declared "sw1" "switch" None None "active" None 1;
                    "sw2" := declared "sw2" "switch" None None "active" None 1;
                    "s1" := declared "s1" "server" None None "active" None 1]};
     nt_kinds := {["server" := true; "switch" := false]}; nt_environments := ∅; nt_ports := {["sw1/eth1"]};
     nt_groups := ∅; nt_members := ∅; nt_uplinks := ∅; nt_attachments := ∅; nt_pins := []; nt_anchors := ∅ |} [] 0.

Definition proposed_provenance : Provenance :=
  {| pv_Source := "derived_link"; pv_Confidence := None; pv_FirstSeen := None; pv_LastSeen := None;
     pv_VerifiedBy := None; pv_VerifiedAt := None |}.

Definition sample_group (code role attrs : string) (version : Z) : NetGroup :=
  {| ng_ID := code; ng_Code := code; ng_Name := code; ng_Kind := "standalone"; ng_Role := role;
     ng_Availability := AvailStandalone; ng_MinHealthy := None; ng_FailoverMode := None; ng_EnvironmentID := None;
     ng_Lifecycle := LifecycleActive; ng_Provenance := declared_provenance; ng_Attrs := attrs; ng_CreatedAt := "t0";
     ng_UpdatedAt := "t0"; ng_RowVersion := version |}.
Definition sample_member (group asset at_ : string) : NetGroupMember :=
  {| nm_GroupID := group; nm_AssetID := asset; nm_Role := "member"; nm_Lifecycle := LifecycleActive; nm_CreatedAt := at_;
     nm_UpdatedAt := at_ |}.
Definition sample_uplink (id from to : string) : NetUplink :=
  {| nu_ID := id; nu_GroupID := from; nu_UpstreamGroupID := to; nu_Plane := PlaneData; nu_Lifecycle := LifecycleActive;
     nu_Provenance := declared_provenance; nu_CreatedAt := "t0"; nu_UpdatedAt := "t0" |}.
Definition sample_attachment (id asset group : string) : NetAttachment :=
  {| na_ID := id; na_AssetID := asset; na_GroupID := group; na_Plane := PlaneData; na_Lifecycle := LifecycleActive;
     na_Provenance := declared_provenance; na_CreatedAt := "t0"; na_UpdatedAt := "t0" |}.
Definition sample_anchor (id group : string) (provenance : Provenance) : NetAnchor :=
  {| an_ID := id; an_Code := id; an_Name := id; an_Scope := "external"; an_GroupID := group; an_EnvironmentID := None;
     an_Plane := PlaneData; an_Lifecycle := LifecycleActive; an_Provenance := provenance; an_CreatedAt := "t0";
     an_UpdatedAt := "t0"; an_RowVersion := 0 |}.

Definition net_asked (st : Store NetTables) (op : NetOp) : NetRequest :=
  {| nr_seen := st_tables st; nr_fates := fun _ => Commits; nr_permit := systemPermit "sample"; nr_now := 0%Z; nr_op := op |}.
Definition declare (st : Store NetTables) (op : NetOp) : Store NetTables := run_net sample_ids st (net_asked st op).

Definition declarations : list NetOp :=
  [OpCreateGroup (sample_group "core" "core" "{}" 0); OpCreateGroup (sample_group "acc" "access" "{}" 0);
   OpAddMember (sample_member "core" "sw1" "t0"); OpAddMember (sample_member "acc" "sw2" "t0");
   OpCreateUplink (sample_uplink "up" "acc" "core");
   OpCreateAttachment (sample_attachment "att" "s1" "core")
     [{| am_AttachmentID := "att"; am_AssetID := "sw1"; am_InterfaceID := Some "sw1/eth1" |}];
   OpCreateAnchor (sample_anchor "wan" "core" declared_provenance)].

Definition estate : Store NetTables := foldl declare bare_estate declarations.

Lemma bare_estate_ok : topology_ok (st_tables bare_estate).
Proof. split; cbn; try (intros; by apply lookup_empty_Some in H); try constructor. by intros m ?%not_elem_of_nil. Qed.

Lemma declare_ok st op : topology_ok (st_tables st) -> topology_ok (st_tables (declare st op)).
Proof. apply run_net_ok. Qed.

Lemma estate_ok : topology_ok (st_tables estate).
Proof. unfold estate, declarations. cbn [foldl]. do 7 apply declare_ok. apply bare_estate_ok. Qed.

Lemma topology_well_formed_witness :
  topology_ok (st_tables (foldl (run_net sample_ids) estate
    [net_asked estate (OpRetireGroup "core"); net_asked estate (OpAddMember (sample_member "acc" "sw1" "t1"))])).
Proof. apply (topology_well_formed sample_ids), estate_ok. Defined.

#[local] Opaque estate.

(** The core of the estate had a member, an uplink to it, an attachment and an anchor. *)
Lemma RetireNetGroup_takes_edges_witness :
  live_edges "core" (st_tables estate) = 4 /\
  (forall k u, nt_uplinks (st_tables (declare estate (OpRetireGroup "core"))) !! k = Some u -> live_row (nu_Lifecycle u) ->
     nu_GroupID u <> "core" /\ nu_UpstreamGroupID u <> "core").
Proof.
  split; [vm_compute; reflexivity|].
  destruct (RetireNetGroup sample_ids (st_tables estate) (fun _ => Commits) (systemPermit "sample") 0%Z "core" estate)
    as [res st'] eqn:E.
  change (declare estate (OpRetireGroup "core")) with
    (RetireNetGroup sample_ids (st_tables estate) (fun _ => Commits) (systemPermit "sample") 0%Z "core" estate).2.
  assert (res = inr tt) as -> by (change res with (res, st').1; rewrite <- E; vm_compute; reflexivity).
  assert (nt_groups (st_tables estate) !! "core" = Some (sample_group "core" "core" "{}" 1)) as Hrow by (vm_compute; reflexivity).
  assert (ng_Lifecycle (sample_group "core" "core" "{}" 1) <> LifecycleRetired) as Hlive by discriminate.
  destruct (RetireNetGroup_takes_edges sample_ids _ _ _ _ _ _ _ _ estate_ok Hrow Hlive E) as (_ & _ & _ & Hu & _).
  rewrite E. exact Hu.
Defined.

(** A switch of the core is refused in the access group, and the refusal changes nothing. *)
Lemma AddNetGroupMember_outcome_witness :
  ~ member_accepted (sample_member "acc" "sw1" "t1") (st_tables estate) /\
  declare estate (OpAddMember (sample_member "acc" "sw1" "t1")) = estate.
Proof.
  pose proof (AddNetGroupMember_outcome sample_ids (systemPermit "sample") 0%Z (sample_member "acc" "sw1" "t1") estate eq_refl) as Hout.
  change (declare estate _) with (AddNetGroupMember sample_ids Commits (systemPermit "sample") 0%Z
    (sample_member "acc" "sw1" "t1") estate).2.
  cbv zeta in Hout.
  destruct (AddNetGroupMember sample_ids Commits (systemPermit "sample") 0%Z (sample_member "acc" "sw1" "t1") estate)
    as [res st'] eqn:E.
  assert (res = inl (Wrapped ErrConflict)) as -> by (change res with (res, st').1; rewrite <- E; vm_compute; reflexivity).
  assert (ValidateNetGroupMember (sample_member "acc" "sw1" "t1") = (sample_member "acc" "sw1" "t1", None)) as Hv
    by (vm_compute; reflexivity).
  rewrite Hv in Hout. destruct Hout as (Hiff & _ & Hsame). split.
  - intros Hacc. pose proof (proj2 Hiff (conj eq_refl Hacc)) as Hbad. discriminate Hbad.
  - apply Hsame. discriminate.
Defined.

(** A withdrawn group still takes edges: an uplink to it, a member and an anchor are all
    accepted and are live. *)
Lemma edges_to_a_withdrawn_group :
  let gone := declare estate (OpRetireGroup "core") in
  let st := foldl declare gone
    [OpCreateUplink (sample_uplink "up2" "acc" "core"); OpAddMember (sample_member "core" "sw1" "t1");
     OpCreateAttachment (sample_attachment "att2" "s1" "core") []; OpCreateAnchor (sample_anchor "wan2" "core" declared_provenance)] in
  ng_Lifecycle <$> nt_groups (st_tables st) !! "core" = Some LifecycleRetired /\ live_edges "core" (st_tables st) = 4.
Proof. cbv zeta. split; vm_compute; reflexivity. Qed.

(** An anchor proposed from the cables is stored as one a person declared, while the log
    says where it came from. *)
Lemma anchor_source_lost :
  let st := declare estate (OpCreateAnchor (sample_anchor "wan2" "core" proposed_provenance)) in
  (pv_Source ∘ an_Provenance <$> nt_anchors (st_tables st) !! "wan2") = Some SourceDeclared /\
  exists row fields, last (st_log st) = Some row /\ cr_Diff row = Snapshot fields /\ fields !! "source" = Some (VText "derived_link").
Proof.
  cbv zeta. split; [vm_compute; reflexivity|]. eexists _, _.
  split; [vm_compute; reflexivity|]. split; vm_compute; reflexivity.
Qed.

(** A member that rejoins keeps the moment it was made; the log says it has changed. *)
Lemma rejoining_logs_a_creation :
  let st := foldl declare estate [OpRetireMember "core" "sw1"; OpAddMember (sample_member "core" "sw1" "t1")] in
  (nm_CreatedAt <$> nt_members (st_tables st) !! ("core", "sw1")) = Some "t0" /\
  exists row changes c, last (st_log st) = Some row /\ cr_Diff row = Changes changes /\ changes !! "created_at" = Some c.
Proof.
  cbv zeta. split; [vm_compute; reflexivity|]. eexists _, _, _.
  split; [vm_compute; reflexivity|]. split; vm_compute; reflexivity.
Qed.

(** The attributes of a group are not among the columns its update writes; the log says
    they have changed. *)
Lemma group_attributes_not_written :
  let st := declare estate (OpUpdateGroup (sample_group "acc" "access" "x" 1)) in
  (ng_Attrs <$> nt_groups (st_tables st) !! "acc") = Some "{}" /\
  exists row changes c, last (st_log st) = Some row /\ cr_Diff row = Changes changes /\ changes !! "attrs" = Some c.
Proof.
  cbv zeta. split; [vm_compute; reflexivity|]. eexists _, _, _.
  split; [vm_compute; reflexivity|]. split; vm_compute; reflexivity.
Qed.
