(* ===== verification/Derivation.v ===== *)
(** What the declared topology leaves to declare: [NetworkCoverage] and
    [DeriveNetworkProposal] of [internal/store/reach.go].

    The first counts the assets with and without a declared path on each plane. The
    second reads the cables and proposes the attachments and the uplinks they suggest. *)
From Stdlib Require Import String Ascii ZArith Lia.
From stdpp Require Import base gmap strings list.
From S2P Require Import Prelude Status Graph Text Errors Timestamps Actors Permits ChangeLog Projects Assets Ports Containment AssetWrites Invariants NetRows Topology.

#[local] Open Scope string_scope.
#[local] Open Scope list_scope.

(** * Definitions *)

(** ** Coverage *)

Record PlaneCoverage := { pc_Modelled : Z; pc_Unmodelled : Z }.

Record Coverage := { nc_TotalAttachable : Z; nc_Data : PlaneCoverage; nc_Mgmt : PlaneCoverage; nc_Storage : PlaneCoverage }.

(** A live attachment of the asset on the plane. *)
Definition attached_on (plane id : string) (t : NetTables) : bool :=
  existsb (fun na => String.eqb (na_AssetID na) id && is_live (na_Lifecycle na) && String.eqb (na_Plane na) plane)
    (rows (nt_attachments t)).

(** The [EXISTS] of one plane. *)
Definition modelled_on (plane : string) (closure : list ContainmentRow) (t : NetTables) (a : Asset) : bool :=
  existsb (fun r : ContainmentRow => String.eqb (snd (fst r)) (as_ID a) && attached_on plane (fst (fst r)) t) closure.

(** The [WHERE] of the statement. *)
Definition attachable (a : Asset) : bool := negb (IsRetired a) && containsString AttachableAssetKinds (as_Kind a).

(** [NetworkCoverage] *)
Definition NetworkCoverage (closure : list ContainmentRow) (t : NetTables) : Coverage :=
  let counted := List.filter attachable (rows (nt_assets t)) in
  let total := Z.of_nat (length counted) in
  let plane p := let n := Z.of_nat (count_if (modelled_on p closure t) counted) in
                 {| pc_Modelled := n; pc_Unmodelled := total - n |} in
  {| nc_TotalAttachable := total; nc_Data := plane PlaneData; nc_Mgmt := plane PlaneMgmt; nc_Storage := plane PlaneStorage |}.

(** ** Derivation *)

Record DerivedAttachment := {
  da_AssetID : string; da_AssetName : string; da_GroupID : string; da_GroupCode : string; da_Plane : string;
  da_InterfaceID : string
}.
Record DerivedUplink := {
  du_GroupID : string; du_GroupCode : string; du_UpstreamGroupID : string; du_UpstreamCode : string; du_Plane : string
}.
Record DerivationProposal := {
  dp_Attachments : list DerivedAttachment; dp_Uplinks : list DerivedUplink; dp_SkippedAmbiguous : nat
}.

(** [linkEnd] *)
Record LinkEnd := {
  le_AInterfaceID : string; le_BInterfaceID : string; le_AAssetID : string; le_BAssetID : string;
  le_AAssetName : string; le_BAssetName : string; le_AEnabled : bool; le_BEnabled : bool; le_AIsMgmt : bool;
  le_BIsMgmt : bool
}.

(** The query of the links: the live ones, with both ports and their assets. *)
Definition link_end (ports : gmap string Interface) (assets : gmap string Asset) (l : Link) : option LinkEnd :=
  if is_live (li_Lifecycle l) then
    ai ← ports !! li_A l; bi ← ports !! li_B l; aa ← assets !! if_AssetID ai; ba ← assets !! if_AssetID bi;
    Some {| le_AInterfaceID := if_ID ai; le_BInterfaceID := if_ID bi; le_AAssetID := if_AssetID ai;
            le_BAssetID := if_AssetID bi; le_AAssetName := as_Name aa; le_BAssetName := as_Name ba;
            le_AEnabled := if_Enabled ai; le_BEnabled := if_Enabled bi; le_AIsMgmt := if_IsMgmt ai;
            le_BIsMgmt := if_IsMgmt bi |}
  else None.

Definition link_ends (links : gmap string Link) (ports : gmap string Interface) (t : NetTables) : list LinkEnd :=
  omap (link_end ports (nt_assets t)) (rows links).

(** [memberInfo], and the query of the members: the live ones, of groups not withdrawn. *)
Record MemberInfo := { mi_AssetID : string; mi_GroupID : string; mi_GroupCode : string; mi_Role : string }.

Definition member_info (t : NetTables) (m : NetGroupMember) : option MemberInfo :=
  g ← nt_groups t !! nm_GroupID m;
  if is_live (nm_Lifecycle m) && negb (String.eqb (ng_Lifecycle g) LifecycleRetired)
  then Some {| mi_AssetID := nm_AssetID m; mi_GroupID := nm_GroupID m; mi_GroupCode := ng_Code g; mi_Role := ng_Role g |}
  else None.

(** [byAsset] *)
Definition by_asset (t : NetTables) : gmap string MemberInfo :=
  foldl (fun m mi => <[mi_AssetID mi := mi]> m) ∅ (omap (member_info t) (rows (nt_members t))).

(** [attachKey] and [uplinkKey]: an asset and a group, or two groups, and a plane. *)
Definition EdgeKey := (string * string * string)%type.

Definition attach_key (d : DerivedAttachment) : EdgeKey := (da_AssetID d, da_GroupID d, da_Plane d).
Definition uplink_key (d : DerivedUplink) : EdgeKey := (du_GroupID d, du_UpstreamGroupID d, du_Plane d).

Definition existing_attach (t : NetTables) : gset EdgeKey :=
  list_to_set ((fun a => (na_AssetID a, na_GroupID a, na_Plane a)) <$>
    List.filter (fun a => is_live (na_Lifecycle a)) (rows (nt_attachments t))).
Definition existing_uplink (t : NetTables) : gset EdgeKey :=
  list_to_set ((fun u => (nu_GroupID u, nu_UpstreamGroupID u, nu_Plane u)) <$>
    List.filter (fun u => is_live (nu_Lifecycle u)) (rows (nt_uplinks t))).

(** The variables of the loop. *)
Record Deriving := {
  dv_Attachments : list DerivedAttachment; dv_Uplinks : list DerivedUplink; dv_Skipped : nat;
  dv_seenAttach : gset EdgeKey; dv_seenUplink : gset EdgeKey
}.

Definition plane_of (isMgmt : bool) : string := if isMgmt then PlaneMgmt else PlaneData.

(** [addAttachment] *)
Definition addAttachment (existingAttach : gset EdgeKey) (fwd : MemberInfo) (hostAssetID hostAssetName : string)
    (hostIsMgmt : bool) (hostInterfaceID : string) (d : Deriving) : Deriving :=
  let plane := plane_of hostIsMgmt in
  let key := (hostAssetID, mi_GroupID fwd, plane) in
  if bool_decide (key ∈ existingAttach) || bool_decide (key ∈ dv_seenAttach d) then d
  else {| dv_Attachments := dv_Attachments d ++ [{| da_AssetID := hostAssetID; da_AssetName := hostAssetName;
            da_GroupID := mi_GroupID fwd; da_GroupCode := mi_GroupCode fwd; da_Plane := plane;
            da_InterfaceID := hostInterfaceID |}];
          dv_Uplinks := dv_Uplinks d; dv_Skipped := dv_Skipped d; dv_seenAttach := {[key]} ∪ dv_seenAttach d;
          dv_seenUplink := dv_seenUplink d |}.

(** The branch of two forwarders, once the cable has a direction. *)
Definition addUplink (existingUplink : gset EdgeKey) (downstream upstream : MemberInfo) (plane : string) (d : Deriving)
    : Deriving :=
  let key := (mi_GroupID downstream, mi_GroupID upstream, plane) in
  if bool_decide (key ∈ existingUplink) || bool_decide (key ∈ dv_seenUplink d) then d
  else {| dv_Attachments := dv_Attachments d; dv_Uplinks := dv_Uplinks d ++ [{| du_GroupID := mi_GroupID downstream;
            du_GroupCode := mi_GroupCode downstream; du_UpstreamGroupID := mi_GroupID upstream;
            du_UpstreamCode := mi_GroupCode upstream; du_Plane := plane |}];
          dv_Skipped := dv_Skipped d; dv_seenAttach := dv_seenAttach d; dv_seenUplink := {[key]} ∪ dv_seenUplink d |}.

(** One turn of the loop over the links. *)
Definition derive_link (byAsset : gmap string MemberInfo) (existingAttach existingUplink : gset EdgeKey)
    (d : Deriving) (l : LinkEnd) : Deriving :=
  if negb (le_AEnabled l) || negb (le_BEnabled l) then d
  else if String.eqb (le_AAssetID l) (le_BAssetID l) then d
  else match byAsset !! le_AAssetID l, byAsset !! le_BAssetID l with
  | Some aMember, Some bMember =>
      if String.eqb (mi_GroupID aMember) (mi_GroupID bMember) then d
      else
        let rankA := NetRoleRank (mi_Role aMember) in
        let rankB := NetRoleRank (mi_Role bMember) in
        let plane := plane_of (le_AIsMgmt l || le_BIsMgmt l) in
        if (rankB <? rankA)%nat then addUplink existingUplink aMember bMember plane d
        else if (rankA <? rankB)%nat then addUplink existingUplink bMember aMember plane d
        else {| dv_Attachments := dv_Attachments d; dv_Uplinks := dv_Uplinks d; dv_Skipped := S (dv_Skipped d);
                dv_seenAttach := dv_seenAttach d; dv_seenUplink := dv_seenUplink d |}
  | Some aMember, None =>
      addAttachment existingAttach aMember (le_BAssetID l) (le_BAssetName l) (le_BIsMgmt l) (le_BInterfaceID l) d
  | None, Some bMember =>
      addAttachment existingAttach bMember (le_AAssetID l) (le_AAssetName l) (le_AIsMgmt l) (le_AInterfaceID l) d
  | None, None => d
  end.

Definition attachment_less : DerivedAttachment -> DerivedAttachment -> bool :=
  lex_less da_AssetName str_ltb (fun a b => str_ltb (da_GroupCode a) (da_GroupCode b)).
Definition uplink_less : DerivedUplink -> DerivedUplink -> bool :=
  lex_less du_GroupCode str_ltb (fun a b => str_ltb (du_UpstreamCode a) (du_UpstreamCode b)).

(** [DeriveNetworkProposal] *)
Definition DeriveNetworkProposal (links : gmap string Link) (ports : gmap string Interface) (t : NetTables)
    : DerivationProposal :=
  let d := foldl (derive_link (by_asset t) (existing_attach t) (existing_uplink t))
    {| dv_Attachments := []; dv_Uplinks := []; dv_Skipped := 0; dv_seenAttach := ∅; dv_seenUplink := ∅ |}
    (link_ends links ports t) in
  {| dp_Attachments := isort attachment_less (dv_Attachments d); dp_Uplinks := isort uplink_less (dv_Uplinks d);
     dp_SkippedAmbiguous := dv_Skipped d |}.

(** * Lemmas *)

(** ** What one cable suggests *)

Inductive Suggestion := SAttach (d : DerivedAttachment) | SUplink (d : DerivedUplink) | SAmbiguous.

Definition suggest_attachment (fwd : MemberInfo) (host name : string) (isMgmt : bool) (port : string) : Suggestion :=
  SAttach {| da_AssetID := host; da_AssetName := name; da_GroupID := mi_GroupID fwd; da_GroupCode := mi_GroupCode fwd;
             da_Plane := plane_of isMgmt; da_InterfaceID := port |}.
Definition suggest_uplink (down up : MemberInfo) (plane : string) : Suggestion :=
  SUplink {| du_GroupID := mi_GroupID down; du_GroupCode := mi_GroupCode down; du_UpstreamGroupID := mi_GroupID up;
             du_UpstreamCode := mi_GroupCode up; du_Plane := plane |}.

Definition suggestion (byAsset : gmap string MemberInfo) (l : LinkEnd) : option Suggestion :=
  if negb (le_AEnabled l) || negb (le_BEnabled l) || String.eqb (le_AAssetID l) (le_BAssetID l) then None
  else match byAsset !! le_AAssetID l, byAsset !! le_BAssetID l with
  | Some a, Some b =>
      if String.eqb (mi_GroupID a) (mi_GroupID b) then None
      else if (NetRoleRank (mi_Role b) <? NetRoleRank (mi_Role a))%nat
           then Some (suggest_uplink a b (plane_of (le_AIsMgmt l || le_BIsMgmt l)))
      else if (NetRoleRank (mi_Role a) <? NetRoleRank (mi_Role b))%nat
           then Some (suggest_uplink b a (plane_of (le_AIsMgmt l || le_BIsMgmt l)))
      else Some SAmbiguous
  | Some a, None => Some (suggest_attachment a (le_BAssetID l) (le_BAssetName l) (le_BIsMgmt l) (le_BInterfaceID l))
  | None, Some b => Some (suggest_attachment b (le_AAssetID l) (le_AAssetName l) (le_AIsMgmt l) (le_AInterfaceID l))
  | None, None => None
  end.

Definition is_ambiguous (byAsset : gmap string MemberInfo) (l : LinkEnd) : bool :=
  match suggestion byAsset l with Some SAmbiguous => true | _ => false end.

Definition attach_suggestion (byAsset : gmap string MemberInfo) (l : LinkEnd) : option DerivedAttachment :=
  match suggestion byAsset l with Some (SAttach x) => Some x | _ => None end.
Definition uplink_suggestion (byAsset : gmap string MemberInfo) (l : LinkEnd) : option DerivedUplink :=
  match suggestion byAsset l with Some (SUplink x) => Some x | _ => None end.

(** ** A loop that keeps the first of each key not there before *)

Section Collecting.
Context {A : Type} (key : A -> EdgeKey) (ex : gset EdgeKey) (sug : LinkEnd -> option A).

Record collected (ls : list LinkEnd) (seen : gset EdgeKey) (xs : list A) : Prop := {
  co_seen : seen = list_to_set (key <$> xs);
  co_once : NoDup (key <$> xs);
  co_from : forall x, x ∈ xs -> (key x ∉ ex) /\ (exists l, l ∈ ls /\ sug l = Some x);
  co_all : forall l x, l ∈ ls -> sug l = Some x -> key x ∉ ex -> key x ∈ (key <$> xs)
}.

Lemma collected_nil : collected [] ∅ [].
Proof. split; [done|constructor|by intros x ?%not_elem_of_nil|by intros l x ?%not_elem_of_nil]. Qed.

Lemma collected_passed ls seen xs l :
  (forall x, sug l = Some x -> key x ∈ ex \/ key x ∈ seen) -> collected ls seen xs -> collected (ls ++ [l]) seen xs.
Proof.
  intros Hl []. split; [done|done|..].
  - intros x Hx. destruct (co_from0 x Hx) as (Hex & l' & Hl' & Hs). split; [done|]. exists l'. set_solver.
  - intros l' x [Hl'| ->%list_elem_of_singleton]%elem_of_app Hs Hex; [by eapply co_all0|].
    destruct (Hl x Hs) as [Hin|Hseen]; [done|]. subst seen. set_solver.
Qed.

Lemma collected_taken ls seen xs l x :
  sug l = Some x -> key x ∉ ex -> key x ∉ seen -> collected ls seen xs ->
  collected (ls ++ [l]) ({[key x]} ∪ seen) (xs ++ [x]).
Proof.
  intros Hs Hex Hseen []. split.
  - subst seen. rewrite fmap_app, list_to_set_app_L. cbn. set_solver.
  - rewrite fmap_app. apply NoDup_app. split_and!; [done| |apply NoDup_singleton].
    intros k Hk Hin%list_elem_of_singleton. subst k seen. set_solver.
  - intros y [Hy| ->%list_elem_of_singleton]%elem_of_app.
    + destruct (co_from0 y Hy) as (? & l' & ? & ?). split; [done|]. exists l'. set_solver.
    + split; [done|]. exists l. set_solver.
  - intros l' y Hl' Hy Hny. rewrite fmap_app. apply elem_of_app.
    apply elem_of_app in Hl' as [Hl'| ->%list_elem_of_singleton]; [left; by eapply co_all0|].
    right. rewrite Hs in Hy. injection Hy as ->. by left.
Qed.

(** What the loop leaves. *)
Lemma collected_keys ls seen xs k :
  collected ls seen xs -> k ∈ (key <$> xs) <-> (k ∉ ex) /\ (exists l x, l ∈ ls /\ sug l = Some x /\ key x = k).
Proof.
  intros []. split.
  - intros (x & -> & (Hex & l & Hl & Hs)%co_from0)%list_elem_of_fmap. split; [done|]. by exists l, x.
  - intros (Hex & l & x & Hl & Hs & <-). by eapply co_all0.
Qed.
End Collecting.

Section Loop.
Context (byAsset : gmap string MemberInfo) (exA exU : gset EdgeKey).

(** The loop so far, against the cables it has seen. *)
Record derived_from (ls : list LinkEnd) (d : Deriving) : Prop := {
  df_attachments : collected attach_key exA (attach_suggestion byAsset) ls (dv_seenAttach d) (dv_Attachments d);
  df_uplinks : collected uplink_key exU (uplink_suggestion byAsset) ls (dv_seenUplink d) (dv_Uplinks d);
  df_skipped : dv_Skipped d = count_if (is_ambiguous byAsset) ls
}.

(** A turn of the loop, as what it does with the suggestion. *)
Definition take (d : Deriving) (s : option Suggestion) : Deriving :=
  match s with
  | None => d
  | Some (SAttach x) =>
      if bool_decide (attach_key x ∈ exA) || bool_decide (attach_key x ∈ dv_seenAttach d) then d
      else {| dv_Attachments := dv_Attachments d ++ [x]; dv_Uplinks := dv_Uplinks d; dv_Skipped := dv_Skipped d;
              dv_seenAttach := {[attach_key x]} ∪ dv_seenAttach d; dv_seenUplink := dv_seenUplink d |}
  | Some (SUplink x) =>
      if bool_decide (uplink_key x ∈ exU) || bool_decide (uplink_key x ∈ dv_seenUplink d) then d
      else {| dv_Attachments := dv_Attachments d; dv_Uplinks := dv_Uplinks d ++ [x]; dv_Skipped := dv_Skipped d;
              dv_seenAttach := dv_seenAttach d; dv_seenUplink := {[uplink_key x]} ∪ dv_seenUplink d |}
  | Some SAmbiguous =>
      {| dv_Attachments := dv_Attachments d; dv_Uplinks := dv_Uplinks d; dv_Skipped := S (dv_Skipped d);
         dv_seenAttach := dv_seenAttach d; dv_seenUplink := dv_seenUplink d |}
  end.

Lemma derive_link_takes d l : derive_link byAsset exA exU d l = take d (suggestion byAsset l).
Proof.
  unfold derive_link, suggestion. destruct (negb _ || negb _); [done|]. cbn [orb]. destruct (String.eqb _ _); [done|].
  destruct (byAsset !! le_AAssetID l), (byAsset !! le_BAssetID l); try done.
  destruct (String.eqb _ _); [done|]. cbv zeta. by repeat case_match.
Qed.

Lemma count_if_snoc {A} (p : A -> bool) l x : count_if p (l ++ [x]) = (count_if p l + if p x then 1 else 0)%nat.
Proof. unfold count_if. rewrite List.filter_app, length_app. cbn. by destruct (p x). Qed.

Lemma derived_snoc ls d l : derived_from ls d -> derived_from (ls ++ [l]) (derive_link byAsset exA exU d l).
Proof.
  intros [Ha Hu Hs]. rewrite derive_link_takes.
  assert (Hpa : (forall x, suggestion byAsset l <> Some (SAttach x)) ->
    collected attach_key exA (attach_suggestion byAsset) (ls ++ [l]) (dv_seenAttach d) (dv_Attachments d)).
  { intros Hn. apply collected_passed; [|done]. intros x. unfold attach_suggestion.
    destruct (suggestion byAsset l) as [[y|y|]|]; try done. by destruct (Hn y). }
  assert (Hpu : (forall x, suggestion byAsset l <> Some (SUplink x)) ->
    collected uplink_key exU (uplink_suggestion byAsset) (ls ++ [l]) (dv_seenUplink d) (dv_Uplinks d)).
  { intros Hn. apply collected_passed; [|done]. intros x. unfold uplink_suggestion.
    destruct (suggestion byAsset l) as [[y|y|]|]; try done. by destruct (Hn y). }
  destruct (suggestion byAsset l) as [[x|x|]|] eqn:Es; cbn [take].
  - specialize (Hpu ltac:(done)). assert (attach_suggestion byAsset l = Some x) as Hx by (unfold attach_suggestion; by rewrite Es).
    assert (dv_Skipped d = count_if (is_ambiguous byAsset) (ls ++ [l])) as Hs'
      by (rewrite count_if_snoc; unfold is_ambiguous at 2; rewrite Es; lia).
    destruct (_ || _) eqn:E; split; cbn; try done.
    + apply collected_passed; [|done]. intros y Hy. rewrite Hx in Hy. injection Hy as <-.
      apply orb_true_iff in E. by rewrite !bool_decide_eq_true in E.
    + apply orb_false_iff in E as [E1%bool_decide_eq_false E2%bool_decide_eq_false]. by apply collected_taken.
  - specialize (Hpa ltac:(done)). assert (uplink_suggestion byAsset l = Some x) as Hx by (unfold uplink_suggestion; by rewrite Es).
    assert (dv_Skipped d = count_if (is_ambiguous byAsset) (ls ++ [l])) as Hs'
      by (rewrite count_if_snoc; unfold is_ambiguous at 2; rewrite Es; lia).
    destruct (_ || _) eqn:E; split; cbn; try done.
    + apply collected_passed; [|done]. intros y Hy. rewrite Hx in Hy. injection Hy as <-.
      apply orb_true_iff in E. by rewrite !bool_decide_eq_true in E.
    + apply orb_false_iff in E as [E1%bool_decide_eq_false E2%bool_decide_eq_false]. by apply collected_taken.
  - split; cbn; [by apply Hpa|by apply Hpu|]. rewrite count_if_snoc. unfold is_ambiguous at 2. rewrite Es. lia.
  - split; [by apply Hpa|by apply Hpu|]. rewrite count_if_snoc. unfold is_ambiguous at 2. rewrite Es. lia.
Qed.

Lemma derived_all ls : derived_from ls (foldl (derive_link byAsset exA exU)
  {| dv_Attachments := []; dv_Uplinks := []; dv_Skipped := 0; dv_seenAttach := ∅; dv_seenUplink := ∅ |} ls).
Proof.
  induction ls as [|l ls IH] using rev_ind; [split; [apply collected_nil|apply collected_nil|done]|].
  rewrite foldl_app. by apply derived_snoc.
Qed.
End Loop.

(** ** Forwarders, cables and edges *)

(** The asset is a live member of the group, which is not withdrawn. *)
Definition forwards (t : NetTables) (asset group : string) : Prop :=
  exists m g, nt_members t !! (group, asset) = Some m /\ live_row (nm_Lifecycle m) /\
    nt_groups t !! group = Some g /\ ng_Lifecycle g <> LifecycleRetired.

Definition role_of (t : NetTables) (group : string) : string := default "" (ng_Role <$> nt_groups t !! group).

(** A live cable between two enabled ports of two assets, seen from the first. *)
Definition wired_to (links : gmap string Link) (ports : gmap string Interface) (t : NetTables) (i j : Interface) : Prop :=
  exists k l, links !! k = Some l /\ live_row (li_Lifecycle l) /\
    ((ports !! li_A l = Some i /\ ports !! li_B l = Some j) \/ (ports !! li_A l = Some j /\ ports !! li_B l = Some i)) /\
    if_Enabled i = true /\ if_Enabled j = true /\ if_AssetID i <> if_AssetID j /\
    is_Some (nt_assets t !! if_AssetID i) /\ is_Some (nt_assets t !! if_AssetID j).

Definition has_attachment (t : NetTables) (k : EdgeKey) : Prop :=
  exists i a, nt_attachments t !! i = Some a /\ live_row (na_Lifecycle a) /\ (na_AssetID a, na_GroupID a, na_Plane a) = k.
Definition has_uplink (t : NetTables) (k : EdgeKey) : Prop :=
  exists i u, nt_uplinks t !! i = Some u /\ live_row (nu_Lifecycle u) /\ (nu_GroupID u, nu_UpstreamGroupID u, nu_Plane u) = k.

Lemma existing_attach_spec t k : k ∈ existing_attach t <-> has_attachment t k.
Proof.
  unfold existing_attach, has_attachment. rewrite elem_of_list_to_set, list_elem_of_fmap. split.
  - intros (a & -> & [Hin Hl%is_live_row]%list_elem_of_In%filter_In). apply list_elem_of_In, elem_of_table in Hin as [i Hi]. eauto.
  - intros (i & a & Hi & Hl%is_live_row & <-). exists a. split; [done|]. apply list_elem_of_In, filter_In.
    split; [|done]. apply list_elem_of_In, elem_of_table. eauto.
Qed.

Lemma existing_uplink_spec t k : k ∈ existing_uplink t <-> has_uplink t k.
Proof.
  unfold existing_uplink, has_uplink. rewrite elem_of_list_to_set, list_elem_of_fmap. split.
  - intros (a & -> & [Hin Hl%is_live_row]%list_elem_of_In%filter_In). apply list_elem_of_In, elem_of_table in Hin as [i Hi]. eauto.
  - intros (i & a & Hi & Hl%is_live_row & <-). exists a. split; [done|]. apply list_elem_of_In, filter_In.
    split; [|done]. apply list_elem_of_In, elem_of_table. eauto.
Qed.

(** The members as the loop looks them up: the one live membership of each asset. *)
Lemma foldl_by_asset (ms : list MemberInfo) (m0 : gmap string MemberInfo) a mi :
  foldl (fun m mi => <[mi_AssetID mi := mi]> m) m0 ms !! a = Some mi ->
  (mi ∈ ms /\ mi_AssetID mi = a) \/ m0 !! a = Some mi.
Proof.
  revert m0. induction ms as [|x ms IH]; intros m0; [by right|]. cbn [foldl].
  intros [[Hin Ha]|Hm]%IH; [left; split; [by right|done]|].
  apply lookup_insert_Some in Hm as [[<- ->]|[_ Hm]]; [left; split; [by left|done]|by right].
Qed.

Lemma foldl_by_asset_known (ms : list MemberInfo) (m0 : gmap string MemberInfo) a :
  ((exists mi, mi ∈ ms /\ mi_AssetID mi = a) \/ is_Some (m0 !! a)) ->
  is_Some (foldl (fun m mi => <[mi_AssetID mi := mi]> m) m0 ms !! a).
Proof.
  revert m0. induction ms as [|x ms IH]; intros m0; cbn [foldl].
  - by intros [(mi & ?%not_elem_of_nil & _)|Hm].
  - intros [(mi & [->|Hin]%elem_of_cons & <-)|Hm]; apply IH.
    + right. by rewrite lookup_insert_eq.
    + left. eauto.
    + right. rewrite lookup_insert_is_Some'. auto.
Qed.

Definition info_of (t : NetTables) (asset group : string) : MemberInfo :=
  {| mi_AssetID := asset; mi_GroupID := group; mi_GroupCode := default "" (ng_Code <$> nt_groups t !! group);
     mi_Role := role_of t group |}.

Lemma member_info_spec t mi : topology_ok t ->
  mi ∈ omap (member_info t) (rows (nt_members t)) <->
  forwards t (mi_AssetID mi) (mi_GroupID mi) /\ mi = info_of t (mi_AssetID mi) (mi_GroupID mi).
Proof.
  intros Hok. rewrite list_elem_of_omap. unfold member_info, forwards, info_of, role_of. split.
  - intros (m & [k Hm]%elem_of_table & Hs). destruct (tk_members _ Hok _ _ Hm) as (-> & _ & _).
    destruct (nt_groups t !! nm_GroupID m) as [g|] eqn:Hg; [|done]. cbn in Hs.
    destruct (is_live _) eqn:Hl; [|done]. destruct (String.eqb_spec (ng_Lifecycle g) LifecycleRetired); [done|].
    injection Hs as <-. cbn. rewrite Hg. split; [|done]. exists m, g. apply is_live_row in Hl. done.
  - intros [(m & g & Hm & Hl%is_live_row & Hg & Hr%String.eqb_neq) E]. exists m. split; [apply elem_of_table; eauto|].
    destruct (tk_members _ Hok _ _ Hm) as (Hk & _ & _). injection Hk as EG EA. rewrite <- EG, Hg. cbn.
    rewrite Hl, Hr. cbn. rewrite Hg in E. cbn in E. rewrite E. cbn. congruence.
Qed.

Lemma forwards_one t a g g' : topology_ok t -> forwards t a g -> forwards t a g' -> g = g'.
Proof.
  intros Hok (m & _ & Hm & Hl & _) (m' & _ & Hm' & Hl' & _).
  destruct (tk_members _ Hok _ _ Hm) as ([= EG EA] & _), (tk_members _ Hok _ _ Hm') as ([= EG' EA'] & _).
  pose proof (tk_one_group _ Hok _ _ _ _ Hm Hm' Hl Hl') as E. by injection (E ltac:(congruence)).
Qed.

Lemma by_asset_spec t a mi : topology_ok t ->
  by_asset t !! a = Some mi <-> exists g, forwards t a g /\ mi = info_of t a g.
Proof.
  intros Hok. unfold by_asset. split.
  - intros [[Hin <-]|Hm]%foldl_by_asset; [|done]. apply member_info_spec in Hin as [Hf E]; [|done]. eauto.
  - intros (g & Hf & ->).
    assert (info_of t a g ∈ omap (member_info t) (rows (nt_members t))) as Hin by by apply member_info_spec.
    destruct (foldl_by_asset_known (omap (member_info t) (rows (nt_members t))) ∅ a) as [mi Hmi]; [left; by exists (info_of t a g)|].
    rewrite Hmi. apply foldl_by_asset in Hmi as [[Hin' <-]|?]; [|done].
    apply member_info_spec in Hin' as [Hf' ->]; [|done]. cbn in *. by rewrite (forwards_one t _ _ _ Hok Hf Hf').
Qed.

Lemma by_asset_none t a : topology_ok t -> by_asset t !! a = None <-> forall g, ~ forwards t a g.
Proof.
  intros Hok. split.
  - intros Hn g Hf. assert (by_asset t !! a = Some (info_of t a g)) as E by (apply by_asset_spec; eauto). congruence.
  - intros Hn. destruct (by_asset t !! a) as [mi|] eqn:E; [|done]. apply by_asset_spec in E as (g & Hf & _); [|done].
    by destruct (Hn g).
Qed.

(** The two ports of a cable as the loop sees them. *)
Definition ends_at (e : LinkEnd) (i j : Interface) : Prop :=
  le_AAssetID e = if_AssetID i /\ le_BAssetID e = if_AssetID j /\ le_AEnabled e = if_Enabled i /\
  le_BEnabled e = if_Enabled j /\ le_AIsMgmt e = if_IsMgmt i /\ le_BIsMgmt e = if_IsMgmt j.

Definition enabled_cable (e : LinkEnd) : bool :=
  le_AEnabled e && le_BEnabled e && negb (String.eqb (le_AAssetID e) (le_BAssetID e)).

Lemma wired_to_sym links ports t i j : wired_to links ports t i j -> wired_to links ports t j i.
Proof. intros (k & l & Hk & Hl & Hp & Hi & Hj & Hne & Ha & Hb). exists k, l. split_and!; try done. destruct Hp; auto. Qed.

Lemma link_ends_wired links ports t e :
  e ∈ link_ends links ports t -> enabled_cable e = true -> exists i j, ends_at e i j /\ wired_to links ports t i j.
Proof.
  intros (l & [k Hk]%elem_of_table & He)%list_elem_of_omap Hu. unfold link_end in He.
  destruct (is_live _) eqn:Hl; [|done]. apply is_live_row in Hl.
  destruct (ports !! li_A l) as [i|] eqn:Hi; [|done]. destruct (ports !! li_B l) as [j|] eqn:Hj; [|done]. cbn in He.
  destruct (nt_assets t !! if_AssetID i) as [a|] eqn:Ha; [|done].
  destruct (nt_assets t !! if_AssetID j) as [b|] eqn:Hb; [|done]. injection He as <-. unfold enabled_cable in Hu. cbn in Hu.
  apply andb_true_iff in Hu as [[Hei Hej]%andb_true_iff Hne%negb_true_iff%String.eqb_neq].
  exists i, j. split; [done|]. exists k, l. rewrite Ha, Hb. split_and!; eauto.
Qed.

Lemma wired_link_ends links ports t i j :
  wired_to links ports t i j -> exists e, e ∈ link_ends links ports t /\ enabled_cable e = true /\ (ends_at e i j \/ ends_at e j i).
Proof.
  intros (k & l & Hk & Hl%is_live_row & Hp & Hi & Hj & Hne & [a Ha] & [b Hb]).
  assert (forall e, link_end ports (nt_assets t) l = Some e -> e ∈ link_ends links ports t) as Hin.
  { intros e He. apply list_elem_of_omap. exists l. split; [apply elem_of_table; eauto|done]. }
  unfold link_end in Hin. rewrite Hl in Hin. destruct Hp as [[Hpi Hpj]|[Hpi Hpj]]; rewrite Hpi, Hpj in Hin; cbn in Hin;
    rewrite Ha, Hb in Hin; cbn in Hin; eexists; (split; [by apply Hin|]); unfold enabled_cable; cbn; rewrite Hi, Hj; cbn;
    (split; [by apply negb_true_iff, String.eqb_neq|]); [by left|by right].
Qed.

(** What an attachment needs: a cable from a host that forwards nothing to a forwarder. *)
Definition suggests_attachment (links : gmap string Link) (ports : gmap string Interface) (t : NetTables) (k : EdgeKey) : Prop :=
  exists i j g, wired_to links ports t i j /\ forwards t (if_AssetID j) g /\ (forall g', ~ forwards t (if_AssetID i) g') /\
    k = (if_AssetID i, g, plane_of (if_IsMgmt i)).

(** What an uplink needs: a cable between forwarders of two groups, the first further
    from the edge. *)
Definition suggests_uplink (links : gmap string Link) (ports : gmap string Interface) (t : NetTables) (k : EdgeKey) : Prop :=
  exists i j down up, wired_to links ports t i j /\ forwards t (if_AssetID i) down /\ forwards t (if_AssetID j) up /\
    down <> up /\ (NetRoleRank (role_of t up) < NetRoleRank (role_of t down))%nat /\
    k = (down, up, plane_of (if_IsMgmt i || if_IsMgmt j)).

Section Suggestions.
Context (links : gmap string Link) (ports : gmap string Interface) (t : NetTables) (Hok : topology_ok t).

Lemma enabled_cable_open e : enabled_cable e = true ->
  negb (le_AEnabled e) || negb (le_BEnabled e) || String.eqb (le_AAssetID e) (le_BAssetID e) = false.
Proof. unfold enabled_cable. destruct (le_AEnabled e), (le_BEnabled e), (String.eqb _ _); done. Qed.

Lemma suggestion_enabled b e s : suggestion b e = Some s -> enabled_cable e = true.
Proof. unfold suggestion, enabled_cable. by destruct (le_AEnabled e), (le_BEnabled e), (String.eqb _ _). Qed.

Lemma attachment_suggested k :
  (exists e x, e ∈ link_ends links ports t /\ attach_suggestion (by_asset t) e = Some x /\ attach_key x = k) <->
  suggests_attachment links ports t k.
Proof.
  unfold attach_suggestion. split.
  - intros (e & x & He & Hs & <-). destruct (suggestion (by_asset t) e) as [[y|y|]|] eqn:E; try done. injection Hs as ->.
    pose proof (suggestion_enabled _ _ _ E) as Hu. destruct (link_ends_wired _ _ _ _ He Hu) as (i & j & Hij & Hw).
    destruct Hij as (EA & EB & _ & _ & EmA & EmB). unfold suggestion in E. rewrite (enabled_cable_open _ Hu), EA, EB in E.
    destruct (by_asset t !! if_AssetID i) as [a|] eqn:Ea, (by_asset t !! if_AssetID j) as [b|] eqn:Eb; [..|done].
    + by repeat case_match.
    + injection E as <-. apply by_asset_spec in Ea as (g & Hg & ->); [|done]. rewrite (by_asset_none t _ Hok) in Eb.
      exists j, i, g. split_and!; [by apply wired_to_sym|done|done|]. unfold attach_key. cbn. by rewrite EmB.
    + injection E as <-. apply by_asset_spec in Eb as (g & Hg & ->); [|done]. rewrite (by_asset_none t _ Hok) in Ea.
      exists i, j, g. split_and!; [done..|]. unfold attach_key. cbn. by rewrite EmA.
  - intros (i & j & g & Hw & Hg & Hn & ->). rewrite <- (by_asset_none t _ Hok) in Hn.
    assert (by_asset t !! if_AssetID j = Some (info_of t (if_AssetID j) g)) as Hj by (apply by_asset_spec; eauto).
    destruct (wired_link_ends _ _ _ _ _ Hw) as (e & He & Hu & [Hij|Hij]); destruct Hij as (EA & EB & _ & _ & EmA & EmB);
      exists e; unfold suggestion; rewrite (enabled_cable_open _ Hu), EA, EB, Hn, Hj; eexists;
      (split; [done|]); (split; [done|]); unfold attach_key; cbn; by rewrite ?EmA, ?EmB.
Qed.

Lemma uplink_suggested k :
  (exists e x, e ∈ link_ends links ports t /\ uplink_suggestion (by_asset t) e = Some x /\ uplink_key x = k) <->
  suggests_uplink links ports t k.
Proof.
  unfold uplink_suggestion. split.
  - intros (e & x & He & Hs & <-). destruct (suggestion (by_asset t) e) as [[y|y|]|] eqn:E; try done. injection Hs as ->.
    pose proof (suggestion_enabled _ _ _ E) as Hu. destruct (link_ends_wired _ _ _ _ He Hu) as (i & j & Hij & Hw).
    destruct Hij as (EA & EB & _ & _ & EmA & EmB). unfold suggestion in E. rewrite (enabled_cable_open _ Hu), EA, EB, EmA, EmB in E.
    destruct (by_asset t !! if_AssetID i) as [a|] eqn:Ea, (by_asset t !! if_AssetID j) as [b|] eqn:Eb; try done.
    apply by_asset_spec in Ea as (g & Hg & ->); [|done]. apply by_asset_spec in Eb as (g' & Hg' & ->); [|done].
    cbn [info_of mi_GroupID mi_Role] in E. destruct (String.eqb_spec g g'); [done|]. destruct (Nat.ltb_spec (NetRoleRank (role_of t g')) (NetRoleRank (role_of t g))).
    + injection E as <-. by exists i, j, g, g'.
    + destruct (Nat.ltb_spec (NetRoleRank (role_of t g)) (NetRoleRank (role_of t g'))); [|done]. injection E as <-.
      exists j, i, g', g. split_and!; [by apply wired_to_sym|done|done|done|done|]. unfold uplink_key. cbn. by rewrite orb_comm.
  - intros (i & j & down & up & Hw & Hd & Hup & Hne & Hr & ->).
    assert (by_asset t !! if_AssetID i = Some (info_of t (if_AssetID i) down)) as Hi by (apply by_asset_spec; eauto).
    assert (by_asset t !! if_AssetID j = Some (info_of t (if_AssetID j) up)) as Hj by (apply by_asset_spec; eauto).
    destruct (wired_link_ends _ _ _ _ _ Hw) as (e & He & Hu & [Hij|Hij]); destruct Hij as (EA & EB & _ & _ & EmA & EmB);
      exists e; unfold suggestion; rewrite (enabled_cable_open _ Hu), EA, EB, Hi, Hj; cbn [info_of mi_GroupID mi_Role];
      [rewrite (proj2 (String.eqb_neq _ _) Hne)|rewrite (proj2 (String.eqb_neq _ _) (not_eq_sym Hne))].
    + rewrite (proj2 (Nat.ltb_lt _ _) Hr). eexists. split; [done|]. split; [done|]. unfold uplink_key. cbn. by rewrite EmA, EmB.
    + rewrite (proj2 (Nat.ltb_ge _ _) (Nat.lt_le_incl _ _ Hr)), (proj2 (Nat.ltb_lt _ _) Hr). eexists.
      split; [done|]. split; [done|]. unfold uplink_key. cbn. by rewrite EmA, EmB, orb_comm.
Qed.
End Suggestions.

Lemma keys_isort {A} (key : A -> EdgeKey) (less : A -> A -> bool) l :
  (key <$> isort less l) ≡ₚ (key <$> l).
Proof. by rewrite isort_perm. Qed.

Lemma proposal_attachments links ports t :
  NoDup (attach_key <$> dp_Attachments (DeriveNetworkProposal links ports t)) /\
  (topology_ok t -> forall k, k ∈ (attach_key <$> dp_Attachments (DeriveNetworkProposal links ports t)) <->
    suggests_attachment links ports t k /\ ~ has_attachment t k).
Proof.
  unfold DeriveNetworkProposal. cbn [dp_Attachments].
  destruct (derived_all (by_asset t) (existing_attach t) (existing_uplink t) (link_ends links ports t)) as [Ha _ _].
  rewrite keys_isort. split; [by destruct Ha|]. intros Hok k. rewrite keys_isort, (collected_keys _ _ _ _ _ _ k Ha), existing_attach_spec.
  rewrite <- (attachment_suggested links ports t Hok k). tauto.
Qed.

Lemma proposal_uplinks links ports t :
  NoDup (uplink_key <$> dp_Uplinks (DeriveNetworkProposal links ports t)) /\
  (topology_ok t -> forall k, k ∈ (uplink_key <$> dp_Uplinks (DeriveNetworkProposal links ports t)) <->
    suggests_uplink links ports t k /\ ~ has_uplink t k).
Proof.
  unfold DeriveNetworkProposal. cbn [dp_Uplinks].
  destruct (derived_all (by_asset t) (existing_attach t) (existing_uplink t) (link_ends links ports t)) as [_ Hu _].
  rewrite keys_isort. split; [by destruct Hu|]. intros Hok k. rewrite keys_isort, (collected_keys _ _ _ _ _ _ k Hu), existing_uplink_spec.
  rewrite <- (uplink_suggested links ports t Hok k). tauto.
Qed.

(** ** A proposed edge, created *)

Section Creating.
Context `{Unicode} (NewID : nat -> string).

Lemma checkRequired_named ve field value : TrimSpace value <> "" -> checkRequired ve field value = (ve, TrimSpace value).
Proof. intros Hv. unfold checkRequired. by rewrite (proj2 (String.eqb_neq _ _) Hv). Qed.

Lemma plane_of_named b : String.eqb (plane_of b) "" = false.
Proof. by destruct b. Qed.

Lemma checkEnum_plane ve field b : checkEnum ve field (plane_of b) Planes = ve.
Proof. by destruct b. Qed.

(** What [NewNetUplink] makes of two groups. *)
Lemma NewNetUplink_runs id down up isMgmt now :
  TrimSpace down <> "" -> TrimSpace up <> "" -> down <> up ->
  exists u, NewNetUplink id down up (plane_of isMgmt) now = inr u /\ ValidateNetUplink u = None /\ nu_ID u = id /\
    nu_GroupID u = down /\ nu_UpstreamGroupID u = up /\ nu_Plane u = plane_of isMgmt /\
    nu_Lifecycle u = LifecycleActive /\ nu_Provenance u = declared_provenance.
Proof.
  intros Hd Hu Hne. unfold NewNetUplink. rewrite plane_of_named. cbv zeta.
  match goal with |- context [ValidateNetUplink ?x] => assert (ValidateNetUplink x = None) as Hv end.
  { unfold ValidateNetUplink. cbn [nu_GroupID nu_UpstreamGroupID nu_Plane nu_Lifecycle nu_Provenance].
    rewrite (checkRequired_named [] "group_id" down Hd), (checkRequired_named [] "upstream_group_id" up Hu).
    rewrite (proj2 (String.eqb_neq _ _) Hne), andb_false_r, checkEnum_plane. reflexivity. }
  rewrite Hv. eexists. split; [done|]. by split_and!.
Qed.

Lemma NewNetAttachment_runs id host group isMgmt now :
  TrimSpace host <> "" -> TrimSpace group <> "" ->
  exists a, NewNetAttachment id host group (plane_of isMgmt) now = inr a /\ ValidateNetAttachment a = None /\ na_ID a = id /\
    na_AssetID a = host /\ na_GroupID a = group /\ na_Plane a = plane_of isMgmt /\
    na_Lifecycle a = LifecycleActive /\ na_Provenance a = declared_provenance.
Proof.
  intros Hh Hg. unfold NewNetAttachment. rewrite plane_of_named. cbv zeta.
  match goal with |- context [ValidateNetAttachment ?x] => assert (ValidateNetAttachment x = None) as Hv end.
  { unfold ValidateNetAttachment. cbn [na_AssetID na_GroupID na_Plane na_Lifecycle na_Provenance].
    rewrite (checkRequired_named [] "asset_id" host Hh), (checkRequired_named [] "group_id" group Hg), checkEnum_plane. reflexivity. }
  rewrite Hv. eexists. split; [done|]. by split_and!.
Qed.

(** No live row of a key, as the statement counts them. *)
Lemma uplinks_between_none t down up plane :
  ~ has_uplink t (down, up, plane) -> (0 <? uplinks_between down up plane t)%nat = false.
Proof.
  intros Hn. unfold uplinks_between. rewrite count_if_pos. apply not_true_iff_false. intros (u & Hin & Hu)%existsb_exists.
  apply list_elem_of_In, elem_of_table in Hin as [k Hk]. apply andb_true_iff in Hu as [Hu Hp%String.eqb_eq].
  apply andb_true_iff in Hu as [Hu Hup%String.eqb_eq]. apply andb_true_iff in Hu as [Hl%is_live_row Hd%String.eqb_eq].
  apply Hn. exists k, u. split_and!; [done|done|congruence].
Qed.

Lemma attachments_between_none t host group plane :
  ~ has_attachment t (host, group, plane) -> (0 <? attachments_between host group plane t)%nat = false.
Proof.
  intros Hn. unfold attachments_between. rewrite count_if_pos. apply not_true_iff_false. intros (u & Hin & Hu)%existsb_exists.
  apply list_elem_of_In, elem_of_table in Hin as [k Hk]. apply andb_true_iff in Hu as [Hu Hp%String.eqb_eq].
  apply andb_true_iff in Hu as [Hu Hup%String.eqb_eq]. apply andb_true_iff in Hu as [Hl%is_live_row Hd%String.eqb_eq].
  apply Hn. exists k, u. split_and!; [done|done|congruence].
Qed.

Lemma contains_plane b : containsString Planes (plane_of b) = true.
Proof. by destruct b. Qed.

Lemma CreateNetUplink_runs fates p now u isMgmt (st : Store NetTables) :
  let t := st_tables st in
  settles fates -> ValidateNetUplink u = None -> Covers p "net_uplink" (nu_ID u) = true -> nt_uplinks t !! nu_ID u = None ->
  nu_Plane u = plane_of isMgmt -> nu_Lifecycle u = LifecycleActive -> nu_Provenance u = declared_provenance ->
  nu_GroupID u <> nu_UpstreamGroupID u -> ~ has_uplink t (nu_GroupID u, nu_UpstreamGroupID u, nu_Plane u) ->
  is_Some (nt_groups t !! nu_GroupID u) -> is_Some (nt_groups t !! nu_UpstreamGroupID u) ->
  (CreateNetUplink NewID fates p now u st).1 = inr tt.
Proof.
  intros t Hs Hv Hc Hf Hp Hl Hpr Hne Hn Hg%known_spec Hup%known_spec. unfold CreateNetUplink. rewrite Hv, writeSerializable_settles by done.
  unfold write, writeTx, mbind, Tx_bind, query. fold t. rewrite (uplinks_between_none _ _ _ _ Hn). unfold statement, insert_uplink.
  fold t. rewrite (known_fresh _ _ Hf), Hl, Hpr. cbn [is_live]. rewrite (uplinks_between_none _ _ _ _ Hn), Hg, Hup, Hp, contains_plane,
    (proj2 (String.eqb_neq _ _) Hne), andb_false_r. cbn -[env_of logCreate net_uplink_struct].
  match goal with |- context [logCreate _ _ _ _ _ ?s] =>
    destruct (logCreate_runs NewID p now "net_uplink" (nu_ID u) (net_uplink_struct u) s Hc) as (st' & Hrun & _) end.
  unfold env_of in Hrun. cbv zeta. by rewrite Hrun.
Qed.

Lemma CreateNetAttachment_runs fates p now a isMgmt host (st : Store NetTables) :
  let t := st_tables st in
  settles fates -> ValidateNetAttachment a = None -> Covers p "net_attachment" (na_ID a) = true ->
  nt_attachments t !! na_ID a = None -> na_Plane a = plane_of isMgmt -> na_Lifecycle a = LifecycleActive ->
  na_Provenance a = declared_provenance -> ~ has_attachment t (na_AssetID a, na_GroupID a, na_Plane a) ->
  nt_assets t !! na_AssetID a = Some host -> is_Some (nt_groups t !! na_GroupID a) ->
  (CreateNetAttachment NewID fates p now a [] st).1 = inr tt <-> default false (nt_kinds t !! as_Kind host) = true.
Proof.
  cbv zeta. intros Hs Hv Hc Hf Hp Hl Hpr Hn Ha Hg%known_spec. unfold CreateNetAttachment. rewrite Hv, writeSerializable_settles by done.
  unfold write, writeTx, mbind, Tx_bind, query. rewrite Ha. destruct (default false (nt_kinds (st_tables st) !! as_Kind host)); [|done].
  cbn [negb]. rewrite (attachments_between_none _ _ _ _ Hn). cbn [each]. unfold statement, insert_attachment.
  assert (known (nt_assets (st_tables st)) (na_AssetID a) = true) as Hka by (apply known_spec; eauto).
  unfold mret, Tx_ret. rewrite (known_fresh _ _ Hf), Hl, Hpr. cbn [is_live].
  rewrite (attachments_between_none _ _ _ _ Hn), Hg, Hka, Hp, contains_plane, andb_false_r.
  cbn -[env_of logCreate auditedNetAttachment].
  match goal with |- context [logCreate _ _ _ _ _ ?s] =>
    destruct (logCreate_runs NewID p now "net_attachment" (na_ID a) (auditedNetAttachment a []) s Hc) as (st' & Hrun & _) end.
  unfold env_of in Hrun. cbv zeta. by rewrite Hrun.
Qed.
End Creating.

(** ** Coverage *)

Lemma attached_on_spec plane id t :
  attached_on plane id t = true <-> exists k a, nt_attachments t !! k = Some a /\ live_row (na_Lifecycle a) /\
    na_AssetID a = id /\ na_Plane a = plane.
Proof.
  unfold attached_on. rewrite existsb_exists. split.
  - intros (a & [k Hk]%list_elem_of_In%elem_of_table & Ha). apply andb_true_iff in Ha as [Ha Hp%String.eqb_eq].
    apply andb_true_iff in Ha as [Hi%String.eqb_eq Hl%is_live_row]. by exists k, a.
  - intros (k & a & Hk & Hl%is_live_row & <- & <-). exists a. split; [apply list_elem_of_In, elem_of_table; eauto|].
    by rewrite Hl, !String.eqb_refl.
Qed.

(** The asset, or one it is inside, has a live attachment on the plane. *)
Definition covered_on (plane : string) (t : NetTables) (id : string) : Prop :=
  exists n anc, climb (parent_of (nt_assets t)) n id = Some anc /\ attached_on plane anc t = true.

Lemma modelled_on_spec plane (p : AssetTables) t a :
  assets_ok p -> nt_assets t = pt_assets p -> is_Some (pt_assets p !! as_ID a) ->
  modelled_on plane (pt_closure p) t a = true <-> covered_on plane t (as_ID a).
Proof.
  intros Hok Ea Hin. unfold modelled_on, covered_on. rewrite existsb_exists, Ea. split.
  - intros ([[anc d] n] & Hr%list_elem_of_In & Ht). cbn in Ht. apply andb_true_iff in Ht as [->%String.eqb_eq Ht].
    apply (closes_rows _ _ _ (ok_closure _ Hok)) in Hr as [_ Hc]. eauto.
  - intros (n & anc & Hc & Ht). exists ((anc, as_ID a), n). cbn. rewrite String.eqb_refl, Ht. split; [|done].
    apply list_elem_of_In, (closes_rows _ _ _ (ok_closure _ Hok)). done.
Qed.

(** The rows of a table that pass a test, counted by their keys. *)
Lemma count_keys (test : Asset -> bool) (m : gmap string Asset) : (forall k a, m !! k = Some a -> as_ID a = k) ->
  exists S : gset string, length (List.filter test (rows m)) = size S /\
    forall id, id ∈ S <-> exists a, m !! id = Some a /\ test a = true.
Proof.
  intros Hid. exists (dom (filter (fun kv => test kv.2 = true) m)). split.
  - rewrite size_dom. induction m as [|k a m Hk IH] using map_ind; [by rewrite map_filter_empty|].
    assert (rows (<[k:=a]> m) ≡ₚ a :: rows m) as Hp by (unfold rows; by rewrite map_to_list_insert).
    assert (length (List.filter test (rows (<[k:=a]> m))) = length (List.filter test (a :: rows m))) as -> by (by apply (count_if_perm test)).
    cbn. specialize (IH ltac:(intros j b Hj; apply Hid; rewrite lookup_insert_ne; [done|congruence])).
    destruct (test a) eqn:E.
    + rewrite map_filter_insert_True by done. rewrite map_size_insert_None; [by cbn; rewrite IH|].
      apply map_lookup_filter_None. by left.
    + rewrite map_filter_insert_False by (cbn; by rewrite E). by rewrite delete_id.
  - intros id. rewrite elem_of_dom. split.
    + intros [a [Ha Ht]%map_lookup_filter_Some]. eauto.
    + intros (a & Ha & Ht). exists a. by apply map_lookup_filter_Some.
Qed.

(** * Theorems *)

(** Coverage, against the tree of assets: on each plane it counts as modelled exactly
    the live assets of attachable kinds that, themselves or through an asset they are
    inside, have a live attachment on that plane; the others are unmodelled, and the two
    make the total. *)
Theorem NetworkCoverage_exact (p : AssetTables) t :
  assets_ok p -> nt_assets t = pt_assets p ->
  let c := NetworkCoverage (pt_closure p) t in
  exists total : gset string, nc_TotalAttachable c = Z.of_nat (size total) /\
    (forall id, id ∈ total <-> exists a, nt_assets t !! id = Some a /\ attachable a = true) /\
    forall plane pc, (plane, pc) ∈ [(PlaneData, nc_Data c); (PlaneMgmt, nc_Mgmt c); (PlaneStorage, nc_Storage c)] ->
      (0 <= pc_Unmodelled pc)%Z /\ (pc_Modelled pc + pc_Unmodelled pc = nc_TotalAttachable c)%Z /\
      exists S : gset string, pc_Modelled pc = Z.of_nat (size S) /\
        forall id, id ∈ S <-> id ∈ total /\ covered_on plane t id.
Proof.
  intros Hok Ea. cbv zeta. pose proof (rows_ids _ (ok_rows _ Hok)) as Hid. rewrite <- Ea in Hid.
  destruct (count_keys attachable (nt_assets t) Hid) as (total & Hn & Htot).
  exists total. split; [by cbn; rewrite Hn|]. split; [done|].
  assert (forall plane pc, pc = {| pc_Modelled := Z.of_nat (count_if (modelled_on plane (pt_closure p) t) (List.filter attachable (rows (nt_assets t))));
    pc_Unmodelled := Z.of_nat (length (List.filter attachable (rows (nt_assets t)))) -
      Z.of_nat (count_if (modelled_on plane (pt_closure p) t) (List.filter attachable (rows (nt_assets t)))) |} ->
    (0 <= pc_Unmodelled pc)%Z /\ (pc_Modelled pc + pc_Unmodelled pc = nc_TotalAttachable (NetworkCoverage (pt_closure p) t))%Z /\
    exists S : gset string, pc_Modelled pc = Z.of_nat (size S) /\ forall id, id ∈ S <-> id ∈ total /\ covered_on plane t id) as Hplane.
  { intros plane pc ->. cbn [pc_Modelled pc_Unmodelled nc_TotalAttachable NetworkCoverage].
    pose proof (count_if_le (modelled_on plane (pt_closure p) t) (List.filter attachable (rows (nt_assets t)))).
    split; [lia|]. split; [lia|]. unfold count_if. rewrite filter_filter.
    destruct (count_keys (fun a => attachable a && modelled_on plane (pt_closure p) t a) (nt_assets t) Hid) as (S & Hs & Hin).
    exists S. split; [by rewrite Hs|]. intros id. rewrite Hin, Htot.
    assert (forall a, nt_assets t !! id = Some a -> modelled_on plane (pt_closure p) t a = true <-> covered_on plane t id) as Hm.
    { intros a Ha. rewrite <- (Hid _ _ Ha). apply modelled_on_spec; [done|done|]. rewrite <- Ea, (Hid _ _ Ha). eauto. }
    split; [intros (a & Ha & [Ht Hc]%andb_true_iff)|intros [(a & Ha & Ht) Hc]].
    - split; [eauto|]. by apply (proj1 (Hm a Ha)).
    - exists a. split; [done|]. apply andb_true_iff. split; [done|]. by apply (proj2 (Hm a Ha)). }
  intros plane pc Hin. apply Hplane. rewrite !elem_of_cons in Hin. destruct Hin as [[= -> ->]|[[= -> ->]|[[= -> ->]|Hin]]]; [done..|].
  by apply not_elem_of_nil in Hin.
Qed.

(** C22. What derivation proposes, against the cables. An attachment of a host to a group
    on a plane is proposed exactly when an enabled live cable leads from a port of the
    host, which forwards for no group, to a member of that group, the plane being the one
    of the host's port, and no live attachment is there already. An uplink is proposed
    exactly when such a cable joins members of two groups whose roles give it a
    direction, and no live uplink is there. Nothing is proposed twice, and every cable
    between groups of one rank is counted and not guessed. *)
Theorem derivation_exact links ports t :
  let p := DeriveNetworkProposal links ports t in
  NoDup (attach_key <$> dp_Attachments p) /\ NoDup (uplink_key <$> dp_Uplinks p) /\
  dp_SkippedAmbiguous p = count_if (is_ambiguous (by_asset t)) (link_ends links ports t) /\
  (topology_ok t -> forall k,
     (k ∈ (attach_key <$> dp_Attachments p) <-> suggests_attachment links ports t k /\ ~ has_attachment t k) /\
     (k ∈ (uplink_key <$> dp_Uplinks p) <-> suggests_uplink links ports t k /\ ~ has_uplink t k)).
Proof.
  cbv zeta. destruct (proposal_attachments links ports t) as [Ha Ha'], (proposal_uplinks links ports t) as [Hu Hu'].
  split_and!; [done|done| |by intros Hok k; split; [apply Ha'|apply Hu']].
  unfold DeriveNetworkProposal. cbn [dp_SkippedAmbiguous].
  by destruct (derived_all (by_asset t) (existing_attach t) (existing_uplink t) (link_ends links ports t)) as [_ _ ->].
Qed.

(** Derivation settles: once every proposal has been declared, and nothing that was
    there withdrawn, it proposes nothing more. *)
Theorem derivation_settles links ports t t' :
  topology_ok t -> topology_ok t' ->
  nt_assets t' = nt_assets t -> nt_groups t' = nt_groups t -> nt_members t' = nt_members t ->
  (forall k, has_attachment t k \/ k ∈ (attach_key <$> dp_Attachments (DeriveNetworkProposal links ports t)) -> has_attachment t' k) ->
  (forall k, has_uplink t k \/ k ∈ (uplink_key <$> dp_Uplinks (DeriveNetworkProposal links ports t)) -> has_uplink t' k) ->
  dp_Attachments (DeriveNetworkProposal links ports t') = [] /\ dp_Uplinks (DeriveNetworkProposal links ports t') = [].
Proof.
  intros Hok Hok' Ea Eg Em Hatt Hup. destruct (proposal_attachments links ports t) as [_ Ha], (proposal_uplinks links ports t) as [_ Hu].
  destruct (proposal_attachments links ports t') as [_ Ha'], (proposal_uplinks links ports t') as [_ Hu'].
  specialize (Ha Hok). specialize (Hu Hok). specialize (Ha' Hok'). specialize (Hu' Hok').
  assert (forall k, suggests_attachment links ports t' k -> suggests_attachment links ports t k) as Sa.
  { intros k. unfold suggests_attachment, wired_to, forwards. rewrite Ea, Eg, Em. exact (fun x => x). }
  assert (forall k, suggests_uplink links ports t' k -> suggests_uplink links ports t k) as Su.
  { intros k. unfold suggests_uplink, wired_to, forwards, role_of. rewrite Ea, Eg, Em. exact (fun x => x). }
  split.
  - apply elem_of_nil_inv. intros d Hd. destruct (proj1 (Ha' (attach_key d))) as [Hs Hn]; [by apply list_elem_of_fmap_2|].
    apply Hn, Hatt. destruct (decide (attach_key d ∈ existing_attach t)) as [Hk|Hk]; rewrite existing_attach_spec in Hk; [by left|].
    right. apply Ha. split; [by apply Sa|done].
  - apply elem_of_nil_inv. intros d Hd. destruct (proj1 (Hu' (uplink_key d))) as [Hs Hn]; [by apply list_elem_of_fmap_2|].
    apply Hn, Hup. destruct (decide (uplink_key d ∈ existing_uplink t)) as [Hk|Hk]; rewrite existing_uplink_spec in Hk; [by left|].
    right. apply Hu. split; [by apply Su|done].
Qed.

(** A proposal can be declared. For any fresh identifier, what is proposed passes its
    constructor; the creation of a proposed uplink succeeds, under a permit that covers
    it and whenever one attempt commits; that of a proposed attachment does exactly when
    its host is of a kind whose table says it may be attached. *)
Theorem proposal_creatable `{Unicode} (NewID : nat -> string) links ports fates p now id st :
  let t := st_tables st in
  let proposal := DeriveNetworkProposal links ports t in
  topology_ok t -> (forall k, is_Some (nt_groups t !! k) \/ is_Some (nt_assets t !! k) -> TrimSpace k <> "") ->
  settles fates -> Covers p "net_uplink" id = true -> Covers p "net_attachment" id = true ->
  nt_uplinks t !! id = None -> nt_attachments t !! id = None ->
  (forall d, d ∈ dp_Uplinks proposal ->
     exists u, NewNetUplink id (du_GroupID d) (du_UpstreamGroupID d) (du_Plane d) now = inr u /\
       (CreateNetUplink NewID fates p now u st).1 = inr tt) /\
  (forall d, d ∈ dp_Attachments proposal ->
     exists a host, NewNetAttachment id (da_AssetID d) (da_GroupID d) (da_Plane d) now = inr a /\
       nt_assets t !! da_AssetID d = Some host /\
       ((CreateNetAttachment NewID fates p now a [] st).1 = inr tt <-> default false (nt_kinds t !! as_Kind host) = true)).
Proof.
  intros t proposal Hok Hnamed Hs Hcu Hca Hfu Hfa. subst proposal.
  destruct (proposal_attachments links ports t) as [_ Ha], (proposal_uplinks links ports t) as [_ Hu].
  assert (forall a g, forwards t a g -> is_Some (nt_groups t !! g)) as Hgroup by (intros a g (m & r & _ & _ & -> & _); eauto).
  split; intros d Hd.
  - destruct (proj1 (Hu Hok (uplink_key d)) (list_elem_of_fmap_2 _ _ _ Hd)) as [(i & j & down & up & _ & Hdown & Hup & Hne & _ & Ek) Hn].
    injection Ek as E1 E2 E3. unfold uplink_key in Hn. rewrite E1, E2, E3 in *. apply Hgroup in Hdown, Hup.
    destruct (NewNetUplink_runs id down up (if_IsMgmt i || if_IsMgmt j) now) as (u & Hnew & Hv & Fi & Fd & Fu & Fp & Fl & Fs); [auto..|].
    exists u. split; [done|].
    apply (CreateNetUplink_runs NewID fates p now u (if_IsMgmt i || if_IsMgmt j)); rewrite ?Fi, ?Fd, ?Fu, ?Fp; done.
  - destruct (proj1 (Ha Hok (attach_key d)) (list_elem_of_fmap_2 _ _ _ Hd)) as [(i & j & g & Hw & Hg & _ & Ek) Hn].
    injection Ek as E1 E2 E3. unfold attach_key in Hn. rewrite E1, E2, E3 in *. apply Hgroup in Hg.
    assert (is_Some (nt_assets t !! if_AssetID i)) as [host Hhost] by (by destruct Hw as (? & ? & _ & _ & _ & _ & _ & _ & ? & _)).
    destruct (NewNetAttachment_runs id (if_AssetID i) g (if_IsMgmt i) now) as (a & Hnew & Hv & Fi & Fd & Fu & Fp & Fl & Fs); [eauto..|].
    exists a, host. split; [done|]. split; [done|].
    apply (CreateNetAttachment_runs NewID fates p now a (if_IsMgmt i)); rewrite ?Fi, ?Fd, ?Fu, ?Fp; done.
Qed.

(** * Samples *)

#[local] Instance derivation_unicode : Unicode := {| lower_unicode := ascii_lower; quote_unicode := fun s => s |}.

Definition sample_port (asset name : string) (isMgmt : bool) : Interface :=
  {| if_ID := asset +++ "/" +++ name; if_AssetID := asset; if_Name := name; if_FormFactor := "rj45"; if_SpeedMbps := None;
     if_MAC := None; if_MTU := None; if_LagParentID := None; if_IsMgmt := isMgmt; if_Enabled := true;
     if_Lifecycle := LifecycleActive; if_CreatedAt := None; if_UpdatedAt := None; if_RowVersion := 1 |}.
Definition sample_cord (id a b : string) : Link :=
  {| li_ID := id; li_A := a; li_B := b; li_Medium := None; li_LengthM := None; li_Lifecycle := LifecycleActive;
     li_RowVersion := 1; li_BreakoutID := None; li_BreakoutPosition := None |}.

Definition cord_ports : gmap string Interface := list_to_map ((fun i => (if_ID i, i)) <$>
  [sample_port "s1" "eth0" false; sample_port "sw1" "eth1" false; sample_port "sw2" "eth1" false; sample_port "sw2" "eth2" false;
   sample_port "sw2" "eth3" false; sample_port "sw3" "oob" true]).
Definition cords : gmap string Link := list_to_map ((fun l => (li_ID l, l)) <$>
  [sample_cord "c1" "s1/eth0" "sw2/eth1"; sample_cord "c2" "sw1/eth1" "sw2/eth2"]).

(** A server, three switches and an access point; two of the switches in groups. *)
Definition unwired : Store NetTables := MkStore
  {| nt_assets := list_to_map ((fun '(id, kind) => (id, declared id kind None None "active" None 1)) <$>
       [("s1", "server"); ("sw1", "switch"); ("sw2", "switch"); ("sw3", "switch"); ("ap1", "access_point")]);
     nt_kinds := {["server" := true; "switch" := false; "access_point" := true]}; nt_environments := ∅; nt_ports := ∅;
     nt_groups := ∅; nt_members := ∅; nt_uplinks := ∅; nt_attachments := ∅; nt_pins := []; nt_anchors := ∅ |} [] 0.

Lemma unwired_ok : topology_ok (st_tables unwired).
Proof. split; cbn; try (intros; by apply lookup_empty_Some in H); try constructor. by intros m ?%not_elem_of_nil. Qed.

Definition grouped : Store NetTables := foldl declare unwired
  [OpCreateGroup (sample_group "core" "core" "{}" 0); OpCreateGroup (sample_group "acc" "access" "{}" 0);
   OpAddMember (sample_member "core" "sw1" "t0"); OpAddMember (sample_member "acc" "sw2" "t0")].

Lemma grouped_ok : topology_ok (st_tables grouped).
Proof. unfold grouped. cbn [foldl]. do 4 apply declare_ok. apply unwired_ok. Qed.

#[local] Opaque grouped.

(** What the cords suggest, and what was there before. *)
Lemma grouped_proposal :
  (attach_key <$> dp_Attachments (DeriveNetworkProposal cords cord_ports (st_tables grouped))) = [("s1", "acc", "data")] /\
  (uplink_key <$> dp_Uplinks (DeriveNetworkProposal cords cord_ports (st_tables grouped))) = [("acc", "core", "data")] /\
  nt_attachments (st_tables grouped) = ∅ /\ nt_uplinks (st_tables grouped) = ∅.
Proof. split_and!; vm_compute; reflexivity. Qed.

Lemma derivation_exact_witness :
  suggests_uplink cords cord_ports (st_tables grouped) ("acc", "core", "data").
Proof.
  destruct (derivation_exact cords cord_ports (st_tables grouped)) as (_ & _ & _ & Hp).
  destruct grouped_proposal as (_ & Hu & _). destruct (Hp grouped_ok ("acc", "core", "data")) as [_ Hiff].
  apply (proj1 Hiff). rewrite Hu. left.
Defined.

(** The estate once the proposals are declared. *)
Definition settled_estate : NetTables := st_tables (foldl declare grouped
  [OpCreateUplink (sample_uplink "u1" "acc" "core"); OpCreateAttachment (sample_attachment "a1" "s1" "acc") []]).

Lemma settled_estate_ok : topology_ok settled_estate.
Proof. unfold settled_estate. cbn [foldl]. do 2 apply declare_ok. apply grouped_ok. Qed.

Lemma settled_estate_rows :
  nt_attachments settled_estate !! "a1" = Some (sample_attachment "a1" "s1" "acc") /\
  nt_uplinks settled_estate !! "u1" = Some (sample_uplink "u1" "acc" "core") /\
  nt_assets settled_estate = nt_assets (st_tables grouped) /\ nt_groups settled_estate = nt_groups (st_tables grouped) /\
  nt_members settled_estate = nt_members (st_tables grouped).
Proof. split_and!; vm_compute; reflexivity. Qed.

#[local] Opaque settled_estate.

Lemma derivation_settles_witness :
  dp_Attachments (DeriveNetworkProposal cords cord_ports settled_estate) = [] /\
  dp_Uplinks (DeriveNetworkProposal cords cord_ports settled_estate) = [].
Proof.
  destruct grouped_proposal as (Ha & Hu & Na & Nu), settled_estate_rows as (Sa & Su & EA & EG & EM).
  apply (derivation_settles cords cord_ports (st_tables grouped) settled_estate grouped_ok settled_estate_ok EA EG EM).
  - intros k Hk. exists "a1", (sample_attachment "a1" "s1" "acc"). split; [exact Sa|]. split; [reflexivity|].
    destruct Hk as [(i & a & Hi & _)|Hk]; [rewrite Na in Hi; discriminate Hi|].
    rewrite Ha in Hk. symmetry. exact (proj1 (list_elem_of_singleton _ _) Hk).
  - intros k Hk. exists "u1", (sample_uplink "u1" "acc" "core"). split; [exact Su|]. split; [reflexivity|].
    destruct Hk as [(i & a & Hi & _)|Hk]; [rewrite Nu in Hi; discriminate Hi|].
    rewrite Hu in Hk. symmetry. exact (proj1 (list_elem_of_singleton _ _) Hk).
Defined.

Lemma proposal_creatable_witness :
  Datatypes.length (dp_Uplinks (DeriveNetworkProposal cords cord_ports (st_tables grouped))) = 1 /\
  (forall d, d ∈ dp_Uplinks (DeriveNetworkProposal cords cord_ports (st_tables grouped)) ->
     exists u, NewNetUplink "new" (du_GroupID d) (du_UpstreamGroupID d) (du_Plane d) 0%Z = inr u /\
       (CreateNetUplink sample_ids (fun _ => Commits) (systemPermit "sample") 0%Z u grouped).1 = inr tt).
Proof.
  assert (map_Forall (fun k (_ : NetGroup) => TrimSpace k <> "") (nt_groups (st_tables grouped)) /\
    map_Forall (fun k (_ : Asset) => TrimSpace k <> "") (nt_assets (st_tables grouped))) as [Hg Ha]
    by (apply (bool_decide_unpack _); vm_compute; exact I).
  split; [vm_compute; reflexivity|].
  refine (proj1 (proposal_creatable sample_ids cords cord_ports (fun _ => Commits) (systemPermit "sample") 0%Z "new" grouped
    grouped_ok _ _ eq_refl eq_refl eq_refl eq_refl)).
  - intros k [[g Hk]|[a Hk]]; [exact (Hg k g Hk)|exact (Ha k a Hk)].
  - by left.
Defined.

(** Racks of the hall with one attachment above them. *)
Definition hall_network : NetTables :=
  {| nt_assets := pt_assets (st_tables machine_hall); nt_kinds := ∅; nt_environments := ∅; nt_ports := ∅; nt_groups := ∅;
     nt_members := ∅; nt_uplinks := ∅; nt_attachments := {["a1" := sample_attachment "a1" "r1" "acc"]}; nt_pins := [];
     nt_anchors := ∅ |}.

#[local] Opaque machine_hall.

Lemma NetworkCoverage_exact_witness :
  nc_Data (NetworkCoverage (pt_closure (st_tables machine_hall)) hall_network) = {| pc_Modelled := 1; pc_Unmodelled := 1 |} /\
  exists S : gset string, size S = 1 /\ forall id, id ∈ S -> covered_on PlaneData hall_network id.
Proof.
  assert (nc_Data (NetworkCoverage (pt_closure (st_tables machine_hall)) hall_network) =
    {| pc_Modelled := 1; pc_Unmodelled := 1 |}) as Hc by (vm_compute; reflexivity).
  split; [exact Hc|].
  destruct (NetworkCoverage_exact (st_tables machine_hall) hall_network machine_hall_ok eq_refl) as (total & _ & _ & Hp).
  destruct (Hp PlaneData _ (list_elem_of_here _ _)) as (_ & _ & S & Hs & Hin). rewrite Hc in Hs. cbn in Hs.
  exists S. split; [lia|]. intros id Hid. exact (proj2 (proj1 (Hin id) Hid)).
Defined.

(** Derivation proposes an attachment of a switch that forwards for no group; the
    creation refuses its kind. *)
Lemma proposed_and_refused :
  let cords := <["c3" := sample_cord "c3" "sw2/eth3" "sw3/oob"]> cords in
  (attach_key <$> dp_Attachments (DeriveNetworkProposal cords cord_ports (st_tables grouped))) =
    [("s1", "acc", "data"); ("sw3", "acc", "mgmt")] /\
  exists ve, (CreateNetAttachment sample_ids (fun _ => Commits) (systemPermit "sample") 0%Z
    (sample_attachment "a2" "sw3" "acc") [] grouped).1 = inl (Invalid ve).
Proof. cbv zeta. split; [vm_compute; reflexivity|]. eexists. vm_compute. reflexivity. Qed.

(** An access point takes an attachment, and is in neither half of the coverage. *)
Lemma access_point_not_counted :
  let st := declare grouped (OpCreateAttachment (sample_attachment "a1" "ap1" "acc") []) in
  is_Some (nt_attachments (st_tables st) !! "a1") /\
  NetworkCoverage [(("ap1", "ap1"), 0)] (st_tables st) = NetworkCoverage [(("ap1", "ap1"), 0)] (st_tables grouped) /\
  attachable (declared "ap1" "access_point" None None "active" None 1) = false.
Proof. cbv zeta. split_and!; [eexists| |]; vm_compute; reflexivity. Qed.
