(* ===== verification/PowerRows.v ===== *)
(** The power chain: the rows of [internal/domain/power.go] with their constructors and
    checks.

    A panel distributes to feeds, a feed carries inputs, an asset draws through its
    inputs, and a tree of supplies stands above the panels. *)
From Stdlib Require Import String Ascii ZArith Lia.
From stdpp Require Import base gmap strings list.
From S2P Require Import Prelude Status Text Errors Timestamps Actors ChangeLog Assets.

#[local] Open Scope string_scope.
#[local] Open Scope list_scope.

(** * Definitions *)

(** ** Ratings *)

Definition PhaseSingle := "single".
Definition PhaseThree := "three".
Definition RatingPhases := [PhaseSingle; PhaseThree].

Definition PowerLifecycles :=
  [LifecyclePlanned; LifecycleActive; LifecycleMaintenance; LifecycleDeprecated; LifecycleRetired].

Record Rating := { rt_Voltage : option Z; rt_Amperage : option Z; rt_Phase : option string }.

(** [int(va * math.Sqrt(3))] of a positive [va]: the whole part of a root of [3 va va]. The
    two agree while the product is far from what a [float64] rounds, which is so for every
    rating under 27 million volt-amps. *)
Definition three_phase (va : Z) : Z := Z.sqrt (3 * va * va).

(** [Rating.CapacityVA] *)
Definition CapacityVA (r : Rating) : option Z :=
  match rt_Voltage r, rt_Amperage r with
  | Some v, Some a =>
      if ((v <=? 0) || (a <=? 0))%Z then None
      else Some (if bool_decide (rt_Phase r = Some PhaseThree) then three_phase (v * a) else (v * a)%Z)
  | _, _ => None
  end.

(** One figure of a rating: more than zero, or not recorded. *)
Definition check_positive (ve : ValidationError) (field : string) (v : option Z) : ValidationError :=
  match v with
  | Some n => if (n <=? 0)%Z then Add ve field "must be more than zero, or left empty if it is not recorded" else ve
  | None => ve
  end.

Definition check_phase (ve : ValidationError) (phase : option string) : ValidationError * option string :=
  match phase with
  | None => (ve, None)
  | Some p =>
      let trimmed := TrimSpace p in
      if String.eqb trimmed "" then (ve, None)
      else if negb (containsString RatingPhases trimmed)
      then (Add ve "phase" ("must be one of " +++ String.concat ", " RatingPhases), Some p)
      else (ve, Some trimmed)
  end.

(** [checkRating] *)
Definition checkRating (ve : ValidationError) (r : Rating) : ValidationError * Rating :=
  let ve := check_positive ve "voltage" (rt_Voltage r) in
  let ve := check_positive ve "amperage" (rt_Amperage r) in
  let '(ve, phase) := check_phase ve (rt_Phase r) in
  let ve := match rt_Amperage r, rt_Voltage r with
    | Some _, None => Add ve "voltage" "an amperage without a voltage cannot give a capacity; record both or neither"
    | _, _ => ve
    end in
  (ve, {| rt_Voltage := rt_Voltage r; rt_Amperage := rt_Amperage r; rt_Phase := phase |}).

(** ** Rows *)

Record PowerPanel := {
  pp_ID : string; pp_SiteID : string; pp_SourceID : option string; pp_Name : string; pp_Rating : Rating;
  pp_Notes : option string; pp_Lifecycle : string; pp_CreatedAt : string; pp_UpdatedAt : string; pp_RowVersion : Z
}.
Record PowerPanelSpec := {
  pps_SiteID : string; pps_SourceID : option string; pps_Name : string; pps_Rating : Rating;
  pps_Notes : option string; pps_Lifecycle : string
}.

Record PowerFeed := {
  pf_ID : string; pf_PanelID : string; pf_Name : string; pf_Rating : Rating; pf_MaxUtilisation : Z;
  pf_Notes : option string; pf_Lifecycle : string; pf_CreatedAt : string; pf_UpdatedAt : string; pf_RowVersion : Z
}.
Record PowerFeedSpec := {
  pfs_PanelID : string; pfs_Name : string; pfs_Rating : Rating; pfs_MaxUtilisation : Z;
  pfs_Notes : option string; pfs_Lifecycle : string
}.

Record PowerInput := {
  pi_ID : string; pi_AssetID : string; pi_FeedID : string; pi_Name : string; pi_DrawVA : option Z;
  pi_Notes : option string; pi_Lifecycle : string; pi_CreatedAt : string; pi_UpdatedAt : string; pi_RowVersion : Z
}.
Record PowerInputSpec := {
  pis_AssetID : string; pis_FeedID : string; pis_Name : string; pis_DrawVA : option Z;
  pis_Notes : option string; pis_Lifecycle : string
}.

Definition SourceUtility := "utility".
Definition SourceGenerator := "generator".
Definition SourceTransferSwitch := "transfer_switch".
Definition SourceUPS := "ups".
Definition SourceKinds := [SourceUtility; SourceGenerator; SourceTransferSwitch; SourceUPS].

(** [SharingIsAFault] *)
Definition SharingIsAFault (kind : string) : bool := String.eqb kind SourceUPS || String.eqb kind SourceTransferSwitch.

Record PowerSource := {
  ps_ID : string; ps_ParentID : option string; ps_SiteID : string; ps_AssetID : option string; ps_Name : string;
  ps_Kind : string; ps_Notes : option string; ps_Lifecycle : string; ps_CreatedAt : string; ps_UpdatedAt : string;
  ps_RowVersion : Z
}.
Record PowerSourceSpec := {
  pss_ParentID : option string; pss_SiteID : string; pss_AssetID : option string; pss_Name : string;
  pss_Kind : string; pss_Notes : option string; pss_Lifecycle : string
}.

(** ** Checks *)

Definition DefaultMaxUtilisation : Z := 80.

(** [PowerFeed.UsableVA] *)
Definition UsableVA (f : PowerFeed) : option Z :=
  match CapacityVA (pf_Rating f) with
  | Some capacity => Some (Z.quot (wrap64 (capacity * pf_MaxUtilisation f)) 100)
  | None => None
  end.

(** [checkUtilisation] *)
Definition checkUtilisation (ve : ValidationError) (pct : Z) : ValidationError :=
  if ((pct <=? 0) || (100 <? pct))%Z then Add ve "max_utilisation" "is a percentage: between 1 and 100" else ve.

Definition max_draw : Z := 100000.

(** [checkDraw] *)
Definition checkDraw (ve : ValidationError) (draw : option Z) : ValidationError :=
  match draw with
  | None => ve
  | Some d =>
      if (d <? 0)%Z then Add ve "draw_va" "cannot be negative"
      else if (max_draw <? d)%Z
      then Add ve "draw_va" "is larger than any single input; check the units — this is volt-amps"
      else ve
  end.

(** [defaultedPowerLifecycle] *)
Definition defaultedPowerLifecycle (ve : ValidationError) (lifecycle : string) : ValidationError * string :=
  let trimmed := TrimSpace lifecycle in
  let l := if String.eqb trimmed "" then LifecycleActive else trimmed in
  (checkEnum ve "lifecycle" l PowerLifecycles, l).

(** ** Panels *)

(** [NewPowerPanel] *)
Definition NewPowerPanel (id : string) (spec : PowerPanelSpec) (now : Time) : ValidationError + PowerPanel :=
  let '(ve, site) := checkRequired [] "site_id" (pps_SiteID spec) in
  let '(ve, name) := checkRequired ve "name" (pps_Name spec) in
  let '(ve, rating) := checkRating ve (pps_Rating spec) in
  let '(ve, lifecycle) := defaultedPowerLifecycle ve (pps_Lifecycle spec) in
  match OrNil ve with
  | Some e => inl e
  | None => inr {| pp_ID := id; pp_SiteID := site; pp_SourceID := blankToNil (pps_SourceID spec); pp_Name := name;
      pp_Rating := rating; pp_Notes := blankToNil (pps_Notes spec); pp_Lifecycle := lifecycle;
      pp_CreatedAt := FormatTime now; pp_UpdatedAt := FormatTime now; pp_RowVersion := 0 |}
  end.

(** [PowerPanel.Validate] *)
Definition ValidatePowerPanel (p : PowerPanel) : PowerPanel * option ValidationError :=
  let '(ve, site) := checkRequired [] "site_id" (pp_SiteID p) in
  let '(ve, name) := checkRequired ve "name" (pp_Name p) in
  let '(ve, rating) := checkRating ve (pp_Rating p) in
  let ve := checkEnum ve "lifecycle" (pp_Lifecycle p) PowerLifecycles in
  ({| pp_ID := pp_ID p; pp_SiteID := site; pp_SourceID := blankToNil (pp_SourceID p); pp_Name := name;
      pp_Rating := rating; pp_Notes := blankToNil (pp_Notes p); pp_Lifecycle := pp_Lifecycle p;
      pp_CreatedAt := pp_CreatedAt p; pp_UpdatedAt := pp_UpdatedAt p; pp_RowVersion := pp_RowVersion p |}, OrNil ve).

(** ** Feeds *)

(** [NewPowerFeed] *)
Definition NewPowerFeed (id : string) (spec : PowerFeedSpec) (now : Time) : ValidationError + PowerFeed :=
  let '(ve, panel) := checkRequired [] "panel_id" (pfs_PanelID spec) in
  let '(ve, name) := checkRequired ve "name" (pfs_Name spec) in
  let '(ve, rating) := checkRating ve (pfs_Rating spec) in
  let pct := if (pfs_MaxUtilisation spec =? 0)%Z then DefaultMaxUtilisation else pfs_MaxUtilisation spec in
  let ve := checkUtilisation ve pct in
  let '(ve, lifecycle) := defaultedPowerLifecycle ve (pfs_Lifecycle spec) in
  match OrNil ve with
  | Some e => inl e
  | None => inr {| pf_ID := id; pf_PanelID := panel; pf_Name := name; pf_Rating := rating; pf_MaxUtilisation := pct;
      pf_Notes := blankToNil (pfs_Notes spec); pf_Lifecycle := lifecycle; pf_CreatedAt := FormatTime now;
      pf_UpdatedAt := FormatTime now; pf_RowVersion := 0 |}
  end.

(** [PowerFeed.Validate] *)
Definition ValidatePowerFeed (f : PowerFeed) : PowerFeed * option ValidationError :=
  let '(ve, panel) := checkRequired [] "panel_id" (pf_PanelID f) in
  let '(ve, name) := checkRequired ve "name" (pf_Name f) in
  let '(ve, rating) := checkRating ve (pf_Rating f) in
  let ve := checkUtilisation ve (pf_MaxUtilisation f) in
  let ve := checkEnum ve "lifecycle" (pf_Lifecycle f) PowerLifecycles in
  ({| pf_ID := pf_ID f; pf_PanelID := panel; pf_Name := name; pf_Rating := rating; pf_MaxUtilisation := pf_MaxUtilisation f;
      pf_Notes := blankToNil (pf_Notes f); pf_Lifecycle := pf_Lifecycle f; pf_CreatedAt := pf_CreatedAt f;
      pf_UpdatedAt := pf_UpdatedAt f; pf_RowVersion := pf_RowVersion f |}, OrNil ve).

(** ** Inputs *)

(** [NewPowerInput] *)
Definition NewPowerInput (id : string) (spec : PowerInputSpec) (now : Time) : ValidationError + PowerInput :=
  let '(ve, asset) := checkRequired [] "asset_id" (pis_AssetID spec) in
  let '(ve, feed) := checkRequired ve "feed_id" (pis_FeedID spec) in
  let '(ve, name) := checkRequired ve "name" (pis_Name spec) in
  let ve := checkDraw ve (pis_DrawVA spec) in
  let '(ve, lifecycle) := defaultedPowerLifecycle ve (pis_Lifecycle spec) in
  match OrNil ve with
  | Some e => inl e
  | None => inr {| pi_ID := id; pi_AssetID := asset; pi_FeedID := feed; pi_Name := name; pi_DrawVA := pis_DrawVA spec;
      pi_Notes := blankToNil (pis_Notes spec); pi_Lifecycle := lifecycle; pi_CreatedAt := FormatTime now;
      pi_UpdatedAt := FormatTime now; pi_RowVersion := 0 |}
  end.

(** [PowerInput.Validate] *)
Definition ValidatePowerInput (i : PowerInput) : PowerInput * option ValidationError :=
  let '(ve, asset) := checkRequired [] "asset_id" (pi_AssetID i) in
  let '(ve, feed) := checkRequired ve "feed_id" (pi_FeedID i) in
  let '(ve, name) := checkRequired ve "name" (pi_Name i) in
  let ve := checkDraw ve (pi_DrawVA i) in
  let ve := checkEnum ve "lifecycle" (pi_Lifecycle i) PowerLifecycles in
  ({| pi_ID := pi_ID i; pi_AssetID := asset; pi_FeedID := feed; pi_Name := name; pi_DrawVA := pi_DrawVA i;
      pi_Notes := blankToNil (pi_Notes i); pi_Lifecycle := pi_Lifecycle i; pi_CreatedAt := pi_CreatedAt i;
      pi_UpdatedAt := pi_UpdatedAt i; pi_RowVersion := pi_RowVersion i |}, OrNil ve).

(** ** Supplies *)

Definition check_kind (ve : ValidationError) (kind : string) : ValidationError :=
  if containsString SourceKinds kind then ve else Add ve "kind" ("must be one of " +++ String.concat ", " SourceKinds).
Definition check_own_parent (ve : ValidationError) (parent : option string) (id : string) : ValidationError :=
  if bool_decide (parent = Some id) then Add ve "parent_id" "a supply cannot feed itself" else ve.

(** [NewPowerSource] *)
Definition NewPowerSource (id : string) (spec : PowerSourceSpec) (now : Time) : ValidationError + PowerSource :=
  let '(ve, site) := checkRequired [] "site_id" (pss_SiteID spec) in
  let '(ve, name) := checkRequired ve "name" (pss_Name spec) in
  let kind := TrimSpace (pss_Kind spec) in
  let ve := check_kind ve kind in
  let parent := blankToNil (pss_ParentID spec) in
  let ve := check_own_parent ve parent id in
  let '(ve, lifecycle) := defaultedPowerLifecycle ve (pss_Lifecycle spec) in
  match OrNil ve with
  | Some e => inl e
  | None => inr {| ps_ID := id; ps_ParentID := parent; ps_SiteID := site; ps_AssetID := blankToNil (pss_AssetID spec);
      ps_Name := name; ps_Kind := kind; ps_Notes := blankToNil (pss_Notes spec); ps_Lifecycle := lifecycle;
      ps_CreatedAt := FormatTime now; ps_UpdatedAt := FormatTime now; ps_RowVersion := 0 |}
  end.

(** [PowerSource.Validate] *)
Definition ValidatePowerSource (p : PowerSource) : PowerSource * option ValidationError :=
  let '(ve, site) := checkRequired [] "site_id" (ps_SiteID p) in
  let '(ve, name) := checkRequired ve "name" (ps_Name p) in
  let ve := check_kind ve (ps_Kind p) in
  let parent := blankToNil (ps_ParentID p) in
  let ve := check_own_parent ve parent (ps_ID p) in
  let ve := checkEnum ve "lifecycle" (ps_Lifecycle p) PowerLifecycles in
  ({| ps_ID := ps_ID p; ps_ParentID := parent; ps_SiteID := site; ps_AssetID := blankToNil (ps_AssetID p);
      ps_Name := name; ps_Kind := ps_Kind p; ps_Notes := blankToNil (ps_Notes p); ps_Lifecycle := ps_Lifecycle p;
      ps_CreatedAt := ps_CreatedAt p; ps_UpdatedAt := ps_UpdatedAt p; ps_RowVersion := ps_RowVersion p |}, OrNil ve).

(** ** Rows as the audit reads them *)

Definition rating_struct (r : Rating) : Struct :=
  MkStruct "Rating" [Column "voltage" (int_or_null (rt_Voltage r)); Column "amperage" (int_or_null (rt_Amperage r));
    Column "phase" (text_or_null (rt_Phase r))].

Definition power_panel_struct (p : PowerPanel) : Struct :=
  MkStruct "PowerPanel"
    [Column "id" (VText (pp_ID p)); Column "site_id" (VText (pp_SiteID p)); Column "source_id" (text_or_null (pp_SourceID p));
     Column "name" (VText (pp_Name p)); Embedded (rating_struct (pp_Rating p)); Column "notes" (text_or_null (pp_Notes p));
     Column "lifecycle" (VText (pp_Lifecycle p)); Column "created_at" (VText (pp_CreatedAt p));
     Column "updated_at" (VText (pp_UpdatedAt p)); Column "row_version" (VInt (pp_RowVersion p))].

Definition power_feed_struct (f : PowerFeed) : Struct :=
  MkStruct "PowerFeed"
    [Column "id" (VText (pf_ID f)); Column "panel_id" (VText (pf_PanelID f)); Column "name" (VText (pf_Name f));
     Embedded (rating_struct (pf_Rating f)); Column "max_utilisation" (VInt (pf_MaxUtilisation f));
     Column "notes" (text_or_null (pf_Notes f)); Column "lifecycle" (VText (pf_Lifecycle f));
     Column "created_at" (VText (pf_CreatedAt f)); Column "updated_at" (VText (pf_UpdatedAt f));
     Column "row_version" (VInt (pf_RowVersion f))].

Definition power_input_struct (i : PowerInput) : Struct :=
  MkStruct "PowerInput"
    [Column "id" (VText (pi_ID i)); Column "asset_id" (VText (pi_AssetID i)); Column "feed_id" (VText (pi_FeedID i));
     Column "name" (VText (pi_Name i)); Column "draw_va" (int_or_null (pi_DrawVA i)); Column "notes" (text_or_null (pi_Notes i));
     Column "lifecycle" (VText (pi_Lifecycle i)); Column "created_at" (VText (pi_CreatedAt i));
     Column "updated_at" (VText (pi_UpdatedAt i)); Column "row_version" (VInt (pi_RowVersion i))].

Definition power_source_struct (p : PowerSource) : Struct :=
  MkStruct "PowerSource"
    [Column "id" (VText (ps_ID p)); Column "parent_id" (text_or_null (ps_ParentID p)); Column "site_id" (VText (ps_SiteID p));
     Column "asset_id" (text_or_null (ps_AssetID p)); Column "name" (VText (ps_Name p)); Column "kind" (VText (ps_Kind p));
     Column "notes" (text_or_null (ps_Notes p)); Column "lifecycle" (VText (ps_Lifecycle p));
     Column "created_at" (VText (ps_CreatedAt p)); Column "updated_at" (VText (ps_UpdatedAt p));
     Column "row_version" (VInt (ps_RowVersion p))].
