(* ===== verification/Power.v ===== *)
(** The writes of the power chain: [internal/store/power.go] and
    [internal/store/power_sources.go].

    Panels, feeds, inputs and the supplies above the panels, each with its creation, its
    update and its retirement. The four tables have the same natural key (a name under
    what the row hangs off, among the live rows), which the typeclass [Chained] states. *)
From Stdlib Require Import String Ascii ZArith Lia.
From stdpp Require Import base gmap strings list.
From S2P Require Import Prelude Status Text Errors Timestamps Actors Permits ChangeLog Projects Assets Containment AssetWrites Invariants PowerRows.

#[local] Open Scope string_scope.
#[local] Open Scope list_scope.

(** * Definitions *)

(** ** The tables *)

Record PowerTables := {
  wt_assets : gmap string Asset;
  wt_panels : gmap string PowerPanel;
  wt_feeds : gmap string PowerFeed;
  wt_inputs : gmap string PowerInput;
  wt_sources : gmap string PowerSource
}.

Definition with_panels (p : gmap string PowerPanel) (t : PowerTables) : PowerTables :=
  {| wt_assets := wt_assets t; wt_panels := p; wt_feeds := wt_feeds t; wt_inputs := wt_inputs t; wt_sources := wt_sources t |}.
Definition with_feeds (f : gmap string PowerFeed) (t : PowerTables) : PowerTables :=
  {| wt_assets := wt_assets t; wt_panels := wt_panels t; wt_feeds := f; wt_inputs := wt_inputs t; wt_sources := wt_sources t |}.
Definition with_inputs (i : gmap string PowerInput) (t : PowerTables) : PowerTables :=
  {| wt_assets := wt_assets t; wt_panels := wt_panels t; wt_feeds := wt_feeds t; wt_inputs := i; wt_sources := wt_sources t |}.
Definition with_sources (s : gmap string PowerSource) (t : PowerTables) : PowerTables :=
  {| wt_assets := wt_assets t; wt_panels := wt_panels t; wt_feeds := wt_feeds t; wt_inputs := wt_inputs t; wt_sources := s |}.

(** A row of the chain: its key, what it hangs off, its name there and its lifecycle. *)
Class Chained (V : Type) := {
  ch_id : V -> string; ch_under : V -> string; ch_name : V -> string; ch_lifecycle : V -> string
}.
#[export] Instance panel_chained : Chained PowerPanel :=
  {| ch_id := pp_ID; ch_under := pp_SiteID; ch_name := pp_Name; ch_lifecycle := pp_Lifecycle |}.
#[export] Instance feed_chained : Chained PowerFeed :=
  {| ch_id := pf_ID; ch_under := pf_PanelID; ch_name := pf_Name; ch_lifecycle := pf_Lifecycle |}.
#[export] Instance input_chained : Chained PowerInput :=
  {| ch_id := pi_ID; ch_under := pi_AssetID; ch_name := pi_Name; ch_lifecycle := pi_Lifecycle |}.
#[export] Instance source_chained : Chained PowerSource :=
  {| ch_id := ps_ID; ch_under := ps_SiteID; ch_name := ps_Name; ch_lifecycle := ps_Lifecycle |}.

(** Not retired. *)
Definition in_use `{Chained V} (v : V) : bool := negb (String.eqb (ch_lifecycle v) LifecycleRetired).

(** A live row other than [self] of that name, under the same thing. *)
Definition name_taken `{Chained V} (m : gmap string V) (under name self : string) : bool :=
  existsb (fun v => String.eqb (ch_under v) under && String.eqb (ch_name v) name && in_use v && negb (String.eqb (ch_id v) self))
    (rows m).

(** ** Statements, with the constraints of their tables *)

(** A row put under its key: the checks of its own columns, the unique index over live
    names, its references. *)
Definition put_row `{Chained V} (table : PowerTables -> gmap string V) (with_table : gmap string V -> PowerTables -> PowerTables)
    (checks : V -> bool) (references : PowerTables -> V -> bool) (v : V) (t : PowerTables) : StoreError + PowerTables :=
  if negb (negb (String.eqb (ch_name v) "") && containsString PowerLifecycles (ch_lifecycle v) && checks v)
  then refused ErrInvalid
  else if in_use v && name_taken (table t) (ch_under v) (ch_name v) (ch_id v) then refused ErrConflict
  else if negb (references t v) then refused ErrInvalid
  else inr (with_table (<[ch_id v := v]> (table t)) t).

Definition insert_row `{Chained V} (table : PowerTables -> gmap string V) (put : V -> PowerTables -> StoreError + PowerTables)
    (v : V) (t : PowerTables) : StoreError + PowerTables :=
  if known (table t) (ch_id v) then refused ErrConflict else put v t.

Definition rating_checks (r : Rating) : bool :=
  positive_or_null (rt_Voltage r) && positive_or_null (rt_Amperage r) && names_a (containsString RatingPhases) (rt_Phase r).

Definition panel_references (t : PowerTables) (p : PowerPanel) : bool :=
  known (wt_assets t) (pp_SiteID p) && names_a (known (wt_sources t)) (pp_SourceID p).

Definition feed_checks (f : PowerFeed) : bool :=
  rating_checks (pf_Rating f) && (0 <? pf_MaxUtilisation f)%Z && (pf_MaxUtilisation f <=? 100)%Z.
Definition feed_references (t : PowerTables) (f : PowerFeed) : bool := known (wt_panels t) (pf_PanelID f).

Definition input_checks (i : PowerInput) : bool := match pi_DrawVA i with Some d => (0 <=? d)%Z | None => true end.
Definition input_references (t : PowerTables) (i : PowerInput) : bool :=
  known (wt_assets t) (pi_AssetID i) && known (wt_feeds t) (pi_FeedID i).

Definition source_checks (s : PowerSource) : bool :=
  containsString SourceKinds (ps_Kind s) && negb (bool_decide (ps_ParentID s = Some (ps_ID s))).
Definition source_references (t : PowerTables) (s : PowerSource) : bool :=
  names_a (known (wt_sources t)) (ps_ParentID s) && known (wt_assets t) (ps_SiteID s) && names_a (known (wt_assets t)) (ps_AssetID s).

Definition put_panel := put_row wt_panels with_panels (fun p => rating_checks (pp_Rating p)) panel_references.
Definition put_feed := put_row wt_feeds with_feeds feed_checks feed_references.
Definition put_input := put_row wt_inputs with_inputs input_checks input_references.
Definition put_source := put_row wt_sources with_sources source_checks source_references.

(** [UPDATE power_panel SET ... WHERE id = ? AND row_version = ?]; each leaves the column
    that its comment says is not editable. *)
Definition update_panel (p : PowerPanel) (t : PowerTables) : StoreError + PowerTables :=
  match wt_panels t !! pp_ID p with
  | Some row =>
      if (pp_RowVersion row =? pp_RowVersion p)%Z
      then put_panel {| pp_ID := pp_ID row; pp_SiteID := pp_SiteID row; pp_SourceID := pp_SourceID p; pp_Name := pp_Name p;
             pp_Rating := pp_Rating p; pp_Notes := pp_Notes p; pp_Lifecycle := pp_Lifecycle p; pp_CreatedAt := pp_CreatedAt row;
             pp_UpdatedAt := pp_UpdatedAt p; pp_RowVersion := pp_RowVersion row + 1 |} t
      else refused ErrStale
  | None => refused ErrStale
  end.

Definition update_feed (f : PowerFeed) (t : PowerTables) : StoreError + PowerTables :=
  match wt_feeds t !! pf_ID f with
  | Some row =>
      if (pf_RowVersion row =? pf_RowVersion f)%Z
      then put_feed {| pf_ID := pf_ID row; pf_PanelID := pf_PanelID row; pf_Name := pf_Name f; pf_Rating := pf_Rating f;
             pf_MaxUtilisation := pf_MaxUtilisation f; pf_Notes := pf_Notes f; pf_Lifecycle := pf_Lifecycle f;
             pf_CreatedAt := pf_CreatedAt row; pf_UpdatedAt := pf_UpdatedAt f; pf_RowVersion := pf_RowVersion row + 1 |} t
      else refused ErrStale
  | None => refused ErrStale
  end.

Definition update_input (i : PowerInput) (t : PowerTables) : StoreError + PowerTables :=
  match wt_inputs t !! pi_ID i with
  | Some row =>
      if (pi_RowVersion row =? pi_RowVersion i)%Z
      then put_input {| pi_ID := pi_ID row; pi_AssetID := pi_AssetID row; pi_FeedID := pi_FeedID i; pi_Name := pi_Name i;
             pi_DrawVA := pi_DrawVA i; pi_Notes := pi_Notes i; pi_Lifecycle := pi_Lifecycle i; pi_CreatedAt := pi_CreatedAt row;
             pi_UpdatedAt := pi_UpdatedAt i; pi_RowVersion := pi_RowVersion row + 1 |} t
      else refused ErrStale
  | None => refused ErrStale
  end.

Definition update_source (s : PowerSource) (t : PowerTables) : StoreError + PowerTables :=
  match wt_sources t !! ps_ID s with
  | Some row =>
      if (ps_RowVersion row =? ps_RowVersion s)%Z
      then put_source {| ps_ID := ps_ID row; ps_ParentID := ps_ParentID s; ps_SiteID := ps_SiteID row; ps_AssetID := ps_AssetID s;
             ps_Name := ps_Name s; ps_Kind := ps_Kind s; ps_Notes := ps_Notes s; ps_Lifecycle := ps_Lifecycle s;
             ps_CreatedAt := ps_CreatedAt row; ps_UpdatedAt := ps_UpdatedAt s; ps_RowVersion := ps_RowVersion row + 1 |} t
      else refused ErrStale
  | None => refused ErrStale
  end.

(** *** Retired rows: [SET lifecycle = ?, updated_at = ?, row_version = row_version + 1] *)

Definition panel_as (lifecycle at_ : string) (version : Z) (p : PowerPanel) : PowerPanel :=
  {| pp_ID := pp_ID p; pp_SiteID := pp_SiteID p; pp_SourceID := pp_SourceID p; pp_Name := pp_Name p; pp_Rating := pp_Rating p;
     pp_Notes := pp_Notes p; pp_Lifecycle := lifecycle; pp_CreatedAt := pp_CreatedAt p; pp_UpdatedAt := at_;
     pp_RowVersion := version |}.
Definition feed_as (lifecycle at_ : string) (version : Z) (f : PowerFeed) : PowerFeed :=
  {| pf_ID := pf_ID f; pf_PanelID := pf_PanelID f; pf_Name := pf_Name f; pf_Rating := pf_Rating f;
     pf_MaxUtilisation := pf_MaxUtilisation f; pf_Notes := pf_Notes f; pf_Lifecycle := lifecycle;
     pf_CreatedAt := pf_CreatedAt f; pf_UpdatedAt := at_; pf_RowVersion := version |}.
Definition input_as (lifecycle at_ : string) (version : Z) (i : PowerInput) : PowerInput :=
  {| pi_ID := pi_ID i; pi_AssetID := pi_AssetID i; pi_FeedID := pi_FeedID i; pi_Name := pi_Name i; pi_DrawVA := pi_DrawVA i;
     pi_Notes := pi_Notes i; pi_Lifecycle := lifecycle; pi_CreatedAt := pi_CreatedAt i; pi_UpdatedAt := at_;
     pi_RowVersion := version |}.
Definition source_as (lifecycle at_ : string) (version : Z) (s : PowerSource) : PowerSource :=
  {| ps_ID := ps_ID s; ps_ParentID := ps_ParentID s; ps_SiteID := ps_SiteID s; ps_AssetID := ps_AssetID s; ps_Name := ps_Name s;
     ps_Kind := ps_Kind s; ps_Notes := ps_Notes s; ps_Lifecycle := lifecycle; ps_CreatedAt := ps_CreatedAt s;
     ps_UpdatedAt := at_; ps_RowVersion := version |}.

(** ** Checks inside the transaction *)

(** The rows of [requireLiveAsset], [requireLivePanel], [requireLiveFeed] and
    [requireLiveSource]: present, and not retired. *)
Definition require_live (lifecycle : PowerTables -> option string) (field missing retired : string) : Tx PowerTables unit :=
  l ← query lifecycle;
  match l with
  | None => fail (Invalid (Add [] field missing))
  | Some l => if String.eqb l LifecycleRetired then fail (Invalid (Add [] field retired)) else mret tt
  end.

Definition requireLiveAsset (field id : string) : Tx PowerTables unit :=
  require_live (fun t => as_Lifecycle <$> wt_assets t !! id) field "choose an asset" "that asset has been retired".
Definition requireLivePanel (id : string) : Tx PowerTables unit :=
  require_live (fun t => pp_Lifecycle <$> wt_panels t !! id) "panel_id" "choose a panel" "that panel has been retired".
Definition requireLiveFeed (id : string) : Tx PowerTables unit :=
  require_live (fun t => pf_Lifecycle <$> wt_feeds t !! id) "feed_id" "choose a feed" "that feed has been retired".
Definition requireLiveSource (id : string) : Tx PowerTables unit :=
  require_live (fun t => ps_Lifecycle <$> wt_sources t !! id) "parent_id" "choose a supply" "that supply has been retired".

Definition if_named (id : option string) (check : string -> Tx PowerTables unit) : Tx PowerTables unit :=
  match id with Some id => check id | None => mret tt end.

(** [requireUniquePowerName] *)
Definition requireUniquePowerName `{Unicode} `{Chained V} (table : PowerTables -> gmap string V) (v : V) : Tx PowerTables unit :=
  if negb (in_use v) then mret tt
  else
    taken ← query (fun t => name_taken (table t) (ch_under v) (ch_name v) (ch_id v));
    if taken : bool then fail (Invalid (Add [] "name" ("something here is already called " +++ Quote (ch_name v)))) else mret tt.

Definition supplyDepthLimit : nat := 32.

Inductive ChainVerdict := ChainEnds | ChainLoops | ChainTooLong.

(** The loop of [requireNoSupplyCycle], with [depth] turns left. *)
Fixpoint supply_walk (depth : nat) (sources : gmap string PowerSource) (id cur : string) : ChainVerdict :=
  match depth with
  | O => ChainTooLong
  | S depth' =>
      if String.eqb cur id then ChainLoops
      else match sources !! cur with
           | None => ChainEnds
           | Some s => match ps_ParentID s with None => ChainEnds | Some next => supply_walk depth' sources id next end
           end
  end.

(** [requireNoSupplyCycle] *)
Definition requireNoSupplyCycle (id parentID : string) : Tx PowerTables unit :=
  verdict ← query (fun t => supply_walk supplyDepthLimit (wt_sources t) id parentID);
  match verdict with
  | ChainEnds => mret tt
  | ChainLoops => fail (Invalid (Add [] "parent_id" "that supply is fed by this one; the chain would loop"))
  | ChainTooLong => fail (Invalid (Add [] "parent_id" "that supply chain is longer than this system will follow"))
  end.

(** The counts the rows of the list pages carry: the live rows that hang off one. *)
Definition Feeds (t : PowerTables) (panelID : string) : nat :=
  count_if (fun f => String.eqb (pf_PanelID f) panelID && in_use f) (rows (wt_feeds t)).
Definition FeedInputs (t : PowerTables) (feedID : string) : nat :=
  count_if (fun i => String.eqb (pi_FeedID i) feedID && in_use i) (rows (wt_inputs t)).
Definition Panels (t : PowerTables) (sourceID : string) : nat :=
  count_if (fun p => bool_decide (pp_SourceID p = Some sourceID) && in_use p) (rows (wt_panels t)).
Definition Children (t : PowerTables) (sourceID : string) : nat :=
  count_if (fun s => bool_decide (ps_ParentID s = Some sourceID) && in_use s) (rows (wt_sources t)).

(** ** Operations *)

Section Operations.
Context `{Unicode} (NewID : nat -> string).

Definition Answer := ((StoreError + unit) * Store PowerTables)%type.

(** [CreatePowerPanel] *)
Definition CreatePowerPanel (fate : Fate) (permit : Permit) (now : Time) (p : PowerPanel) (st : Store PowerTables) : Answer :=
  match ValidatePowerPanel (panel_as (pp_Lifecycle p) (pp_UpdatedAt p) 1 p) with
  | (_, Some ve) => (inl (Invalid ve), st)
  | (p, None) => write fate (Some permit) now (
      _ ← requireLiveAsset "site_id" (pp_SiteID p);
      _ ← requireUniquePowerName wt_panels p;
      _ ← if_named (pp_SourceID p) requireLiveSource;
      _ ← statement (insert_row wt_panels put_panel p);
      logCreate NewID "power_panel" (pp_ID p) (power_panel_struct p)) st
  end.

(** [UpdatePowerPanel] *)
Definition UpdatePowerPanel (seen : PowerTables) (fate : Fate) (permit : Permit) (now : Time) (p : PowerPanel)
    (st : Store PowerTables) : Answer :=
  match wt_panels seen !! pp_ID p with
  | None => (inl (Wrapped ErrNotFound), st)
  | Some before =>
      match ValidatePowerPanel {| pp_ID := pp_ID p; pp_SiteID := pp_SiteID before; pp_SourceID := pp_SourceID p; pp_Name := pp_Name p;
              pp_Rating := pp_Rating p; pp_Notes := pp_Notes p; pp_Lifecycle := pp_Lifecycle p; pp_CreatedAt := pp_CreatedAt before;
              pp_UpdatedAt := FormatTime now; pp_RowVersion := pp_RowVersion p |} with
      | (_, Some ve) => (inl (Invalid ve), st)
      | (p, None) => write fate (Some permit) now (
          _ ← requireUniquePowerName wt_panels p;
          _ ← if_named (pp_SourceID p) requireLiveSource;
          _ ← statement (update_panel p);
          logUpdate NewID "power_panel" (pp_ID p) (power_panel_struct before) (power_panel_struct p)) st
      end
  end.

(** [RetirePowerPanel] and [retirePanelRow] *)
Definition RetirePowerPanel (seen : PowerTables) (fate : Fate) (permit : Permit) (now : Time) (id : string)
    (st : Store PowerTables) : Answer :=
  match wt_panels seen !! id with
  | None => (inl (Wrapped ErrNotFound), st)
  | Some before =>
      if (0 <? Feeds seen id)%nat then (inl (Wrapped ErrConflict), st)
      else
        let at_ := FormatTime now in
        write fate (Some permit) now (
          _ ← statement (fun t => inr (with_panels
                (alter (fun p => panel_as LifecycleRetired at_ (pp_RowVersion p + 1) p) (pp_ID before) (wt_panels t)) t));
          logUpdate NewID "power_panel" (pp_ID before) (power_panel_struct before)
            (power_panel_struct (panel_as LifecycleRetired at_ (pp_RowVersion before) before))) st
  end.

(** [CreatePowerFeed] *)
Definition CreatePowerFeed (fate : Fate) (permit : Permit) (now : Time) (f : PowerFeed) (st : Store PowerTables) : Answer :=
  match ValidatePowerFeed (feed_as (pf_Lifecycle f) (pf_UpdatedAt f) 1 f) with
  | (_, Some ve) => (inl (Invalid ve), st)
  | (f, None) => write fate (Some permit) now (
      _ ← requireLivePanel (pf_PanelID f);
      _ ← requireUniquePowerName wt_feeds f;
      _ ← statement (insert_row wt_feeds put_feed f);
      logCreate NewID "power_feed" (pf_ID f) (power_feed_struct f)) st
  end.

(** [UpdatePowerFeed] *)
Definition UpdatePowerFeed (seen : PowerTables) (fate : Fate) (permit : Permit) (now : Time) (f : PowerFeed)
    (st : Store PowerTables) : Answer :=
  match wt_feeds seen !! pf_ID f with
  | None => (inl (Wrapped ErrNotFound), st)
  | Some before =>
      match ValidatePowerFeed {| pf_ID := pf_ID f; pf_PanelID := pf_PanelID before; pf_Name := pf_Name f; pf_Rating := pf_Rating f;
              pf_MaxUtilisation := pf_MaxUtilisation f; pf_Notes := pf_Notes f; pf_Lifecycle := pf_Lifecycle f;
              pf_CreatedAt := pf_CreatedAt before; pf_UpdatedAt := FormatTime now; pf_RowVersion := pf_RowVersion f |} with
      | (_, Some ve) => (inl (Invalid ve), st)
      | (f, None) => write fate (Some permit) now (
          _ ← requireUniquePowerName wt_feeds f;
          _ ← statement (update_feed f);
          logUpdate NewID "power_feed" (pf_ID f) (power_feed_struct before) (power_feed_struct f)) st
      end
  end.

(** [RetirePowerFeed] and [retireFeedRow] *)
Definition RetirePowerFeed (seen : PowerTables) (fate : Fate) (permit : Permit) (now : Time) (id : string)
    (st : Store PowerTables) : Answer :=
  match wt_feeds seen !! id with
  | None => (inl (Wrapped ErrNotFound), st)
  | Some before =>
      if (0 <? FeedInputs seen id)%nat then (inl (Wrapped ErrConflict), st)
      else
        let at_ := FormatTime now in
        write fate (Some permit) now (
          _ ← statement (fun t => inr (with_feeds
                (alter (fun f => feed_as LifecycleRetired at_ (pf_RowVersion f + 1) f) (pf_ID before) (wt_feeds t)) t));
          logUpdate NewID "power_feed" (pf_ID before) (power_feed_struct before)
            (power_feed_struct (feed_as LifecycleRetired at_ (pf_RowVersion before) before))) st
  end.

(** [CreatePowerInput] *)
Definition CreatePowerInput (fate : Fate) (permit : Permit) (now : Time) (i : PowerInput) (st : Store PowerTables) : Answer :=
  match ValidatePowerInput (input_as (pi_Lifecycle i) (pi_UpdatedAt i) 1 i) with
  | (_, Some ve) => (inl (Invalid ve), st)
  | (i, None) => write fate (Some permit) now (
      _ ← requireLiveAsset "asset_id" (pi_AssetID i);
      _ ← requireLiveFeed (pi_FeedID i);
      _ ← requireUniquePowerName wt_inputs i;
      _ ← statement (insert_row wt_inputs put_input i);
      logCreate NewID "power_input" (pi_ID i) (power_input_struct i)) st
  end.

(** [UpdatePowerInput] *)
Definition UpdatePowerInput (seen : PowerTables) (fate : Fate) (permit : Permit) (now : Time) (i : PowerInput)
    (st : Store PowerTables) : Answer :=
  match wt_inputs seen !! pi_ID i with
  | None => (inl (Wrapped ErrNotFound), st)
  | Some before =>
      match ValidatePowerInput {| pi_ID := pi_ID i; pi_AssetID := pi_AssetID before; pi_FeedID := pi_FeedID i; pi_Name := pi_Name i;
              pi_DrawVA := pi_DrawVA i; pi_Notes := pi_Notes i; pi_Lifecycle := pi_Lifecycle i; pi_CreatedAt := pi_CreatedAt before;
              pi_UpdatedAt := FormatTime now; pi_RowVersion := pi_RowVersion i |} with
      | (_, Some ve) => (inl (Invalid ve), st)
      | (i, None) => write fate (Some permit) now (
          _ ← requireLiveFeed (pi_FeedID i);
          _ ← requireUniquePowerName wt_inputs i;
          _ ← statement (update_input i);
          logUpdate NewID "power_input" (pi_ID i) (power_input_struct before) (power_input_struct i)) st
      end
  end.

(** [RetirePowerInput] and [retireInputRow] *)
Definition RetirePowerInput (seen : PowerTables) (fate : Fate) (permit : Permit) (now : Time) (id : string)
    (st : Store PowerTables) : Answer :=
  match wt_inputs seen !! id with
  | None => (inl (Wrapped ErrNotFound), st)
  | Some before =>
      let at_ := FormatTime now in
      write fate (Some permit) now (
        _ ← statement (fun t => inr (with_inputs
              (alter (fun i => input_as LifecycleRetired at_ (pi_RowVersion i + 1) i) (pi_ID before) (wt_inputs t)) t));
        logUpdate NewID "power_input" (pi_ID before) (power_input_struct before)
          (power_input_struct (input_as LifecycleRetired at_ (pi_RowVersion before) before))) st
  end.

(** A supply's place in the tree: a live parent that is not fed by it. *)
Definition require_parent (s : PowerSource) : Tx PowerTables unit :=
  if_named (ps_ParentID s) (fun parent => _ ← requireLiveSource parent; requireNoSupplyCycle (ps_ID s) parent).

(** [CreatePowerSource] *)
Definition CreatePowerSource (fate : Fate) (permit : Permit) (now : Time) (s : PowerSource) (st : Store PowerTables) : Answer :=
  match ValidatePowerSource (source_as (ps_Lifecycle s) (ps_UpdatedAt s) 1 s) with
  | (_, Some ve) => (inl (Invalid ve), st)
  | (s, None) => write fate (Some permit) now (
      _ ← requireLiveAsset "site_id" (ps_SiteID s);
      _ ← if_named (ps_AssetID s) (requireLiveAsset "asset_id");
      _ ← require_parent s;
      _ ← requireUniquePowerName wt_sources s;
      _ ← statement (insert_row wt_sources put_source s);
      logCreate NewID "power_source" (ps_ID s) (power_source_struct s)) st
  end.

(** [UpdatePowerSource] *)
Definition UpdatePowerSource (seen : PowerTables) (fate : Fate) (permit : Permit) (now : Time) (s : PowerSource)
    (st : Store PowerTables) : Answer :=
  match wt_sources seen !! ps_ID s with
  | None => (inl (Wrapped ErrNotFound), st)
  | Some before =>
      match ValidatePowerSource {| ps_ID := ps_ID s; ps_ParentID := ps_ParentID s; ps_SiteID := ps_SiteID before; ps_AssetID := ps_AssetID s;
              ps_Name := ps_Name s; ps_Kind := ps_Kind s; ps_Notes := ps_Notes s; ps_Lifecycle := ps_Lifecycle s;
              ps_CreatedAt := ps_CreatedAt before; ps_UpdatedAt := FormatTime now; ps_RowVersion := ps_RowVersion s |} with
      | (_, Some ve) => (inl (Invalid ve), st)
      | (s, None) => write fate (Some permit) now (
          _ ← require_parent s;
          _ ← if_named (ps_AssetID s) (requireLiveAsset "asset_id");
          _ ← requireUniquePowerName wt_sources s;
          _ ← statement (update_source s);
          logUpdate NewID "power_source" (ps_ID s) (power_source_struct before) (power_source_struct s)) st
      end
  end.

(** [RetirePowerSource] *)
Definition RetirePowerSource (seen : PowerTables) (fate : Fate) (permit : Permit) (now : Time) (id : string)
    (st : Store PowerTables) : Answer :=
  match wt_sources seen !! id with
  | None => (inl (Wrapped ErrNotFound), st)
  | Some before =>
      if (0 <? Panels seen id)%nat || (0 <? Children seen id)%nat then (inl (Wrapped ErrConflict), st)
      else
        let at_ := FormatTime now in
        write fate (Some permit) now (
          _ ← statement (fun t => inr (with_sources
                (alter (fun s => source_as LifecycleRetired at_ (ps_RowVersion s + 1) s) id (wt_sources t)) t));
          logUpdate NewID "power_source" id (power_source_struct before)
            (power_source_struct (source_as LifecycleRetired at_ (ps_RowVersion before) before))) st
  end.
End Operations.

(** ** Requests *)

Inductive PowerOp :=
  | OpCreatePanel (p : PowerPanel) | OpUpdatePanel (p : PowerPanel) | OpRetirePanel (id : string)
  | OpCreateFeed (f : PowerFeed) | OpUpdateFeed (f : PowerFeed) | OpRetireFeed (id : string)
  | OpCreateInput (i : PowerInput) | OpUpdateInput (i : PowerInput) | OpRetireInput (id : string)
  | OpCreateSource (s : PowerSource) | OpUpdateSource (s : PowerSource) | OpRetireSource (id : string).

Record PowerRequest := { wr_seen : PowerTables; wr_fate : Fate; wr_permit : Permit; wr_now : Time; wr_op : PowerOp }.

Definition run_power `{Unicode} (NewID : nat -> string) (st : Store PowerTables) (r : PowerRequest) : Store PowerTables :=
  let '(seen, fate, permit, now) := (wr_seen r, wr_fate r, wr_permit r, wr_now r) in
  match wr_op r with
  | OpCreatePanel p => (CreatePowerPanel NewID fate permit now p st).2
  | OpUpdatePanel p => (UpdatePowerPanel NewID seen fate permit now p st).2
  | OpRetirePanel id => (RetirePowerPanel NewID seen fate permit now id st).2
  | OpCreateFeed f => (CreatePowerFeed NewID fate permit now f st).2
  | OpUpdateFeed f => (UpdatePowerFeed NewID seen fate permit now f st).2
  | OpRetireFeed id => (RetirePowerFeed NewID seen fate permit now id st).2
  | OpCreateInput i => (CreatePowerInput NewID fate permit now i st).2
  | OpUpdateInput i => (UpdatePowerInput NewID seen fate permit now i st).2
  | OpRetireInput id => (RetirePowerInput NewID seen fate permit now id st).2
  | OpCreateSource s => (CreatePowerSource NewID fate permit now s st).2
  | OpUpdateSource s => (UpdatePowerSource NewID seen fate permit now s st).2
  | OpRetireSource id => (RetirePowerSource NewID seen fate permit now id st).2
  end.

(** ** What a well-formed chain is *)

Record rating_ok (r : Rating) : Prop := {
  ro_voltage : forall v, rt_Voltage r = Some v -> (0 < v)%Z;
  ro_amperage : forall a, rt_Amperage r = Some a -> (0 < a)%Z;
  ro_phase : forall p, rt_Phase r = Some p -> p ∈ RatingPhases;
  ro_pair : is_Some (rt_Amperage r) -> is_Some (rt_Voltage r)
}.

(** A table of the chain: every row under its key, with its name and a lifecycle of the
    list, and no two live rows of one name under the same thing. *)
Record chain_ok `{Chained V} (row_ok : V -> Prop) (m : gmap string V) : Prop := {
  co_rows : forall k v, m !! k = Some v -> ch_id v = k /\ ch_lifecycle v ∈ PowerLifecycles /\ row_ok v;
  co_names : forall k k' v v', m !! k = Some v -> m !! k' = Some v' -> in_use v = true -> in_use v' = true ->
    ch_under v = ch_under v' -> ch_name v = ch_name v' -> k = k'
}.

Definition panel_ok (assets : gmap string Asset) (sources : gmap string PowerSource) (p : PowerPanel) : Prop :=
  rating_ok (pp_Rating p) /\ is_Some (assets !! pp_SiteID p) /\ refers sources (pp_SourceID p).
Definition feed_ok (panels : gmap string PowerPanel) (f : PowerFeed) : Prop :=
  rating_ok (pf_Rating f) /\ (1 <= pf_MaxUtilisation f <= 100)%Z /\ is_Some (panels !! pf_PanelID f).
Definition input_ok (assets : gmap string Asset) (feeds : gmap string PowerFeed) (i : PowerInput) : Prop :=
  (forall d, pi_DrawVA i = Some d -> (0 <= d <= 100000)%Z) /\
  is_Some (assets !! pi_AssetID i) /\ is_Some (feeds !! pi_FeedID i).
Definition source_ok (assets : gmap string Asset) (sources : gmap string PowerSource) (s : PowerSource) : Prop :=
  ps_Kind s ∈ SourceKinds /\ is_Some (assets !! ps_SiteID s) /\
  refers assets (ps_AssetID s) /\ refers sources (ps_ParentID s).

(** The supply above a supply. *)
Definition supplied_by (sources : gmap string PowerSource) (id : string) : option string := sources !! id ≫= ps_ParentID.

Record power_ok (t : PowerTables) : Prop := {
  wk_panels : chain_ok (panel_ok (wt_assets t) (wt_sources t)) (wt_panels t);
  wk_feeds : chain_ok (feed_ok (wt_panels t)) (wt_feeds t);
  wk_inputs : chain_ok (input_ok (wt_assets t) (wt_feeds t)) (wt_inputs t);
  wk_sources : chain_ok (source_ok (wt_assets t) (wt_sources t)) (wt_sources t);
  wk_tree : no_loop (supplied_by (wt_sources t))
}.

(** *** Nothing in use hangs off something retired *)

Definition serving `{Chained V} (m : gmap string V) (id : string) : Prop := exists v, m !! id = Some v /\ in_use v = true.

(** Every live row names, where it names one, a row of which [there] holds. *)
Definition hangs `{Chained V} (ref : V -> option string) (m : gmap string V) (there : string -> Prop) : Prop :=
  forall k v, m !! k = Some v -> in_use v = true -> forall id, ref v = Some id -> there id.

Record hangs_ok (t : PowerTables) : Prop := {
  ho_inputs : hangs (fun i => Some (pi_FeedID i)) (wt_inputs t) (serving (wt_feeds t));
  ho_feeds : hangs (fun f => Some (pf_PanelID f)) (wt_feeds t) (serving (wt_panels t));
  ho_panels : hangs pp_SourceID (wt_panels t) (serving (wt_sources t));
  ho_sources : hangs ps_ParentID (wt_sources t) (serving (wt_sources t))
}.

(** An edit that leaves a row in use where it was. *)
Definition stays_in_use `{Chained V} (m : gmap string V) (v : V) : Prop :=
  forall row, m !! ch_id v = Some row -> in_use row = true -> in_use v = true.

(** A request that reads what it writes over, takes no row out of use by an edit, and
    brings no feed back into use by an edit under a panel that is not. *)
Definition careful (t : PowerTables) (r : PowerRequest) : Prop :=
  wr_seen r = t /\
  match wr_op r with
  | OpUpdatePanel p => stays_in_use (wt_panels t) p
  | OpUpdateFeed f => stays_in_use (wt_feeds t) f /\ forall row, wt_feeds t !! pf_ID f = Some row ->
      in_use row = false -> in_use f = true -> serving (wt_panels t) (pf_PanelID row)
  | OpUpdateSource s => stays_in_use (wt_sources t) s
  | _ => True
  end.

Fixpoint careful_run `{Unicode} (NewID : nat -> string) (st : Store PowerTables) (rs : list PowerRequest) : Prop :=
  match rs with
  | [] => True
  | r :: rs => careful (st_tables st) r /\ careful_run NewID (run_power NewID st r) rs
  end.

(** * Lemmas *)

(** ** Tables of the chain *)

Section Chains.
Context `{Chained V}.
Implicit Types (m : gmap string V) (v : V).

Lemma name_not_taken m under name self : name_taken m under name self = false ->
  forall k v, m !! k = Some v -> in_use v = true -> ch_under v = under -> ch_name v = name -> ch_id v = self.
Proof.
  unfold name_taken. intros Hn k v Hk Hu <- <-. unfold rows in Hn. rewrite existsb_rows in Hn. specialize (Hn k v Hk).
  rewrite !String.eqb_refl, Hu in Hn. cbn in Hn. by apply negb_false_iff, String.eqb_eq in Hn.
Qed.

Lemma chain_mono (P Q : V -> Prop) m : (forall v, P v -> Q v) -> chain_ok P m -> chain_ok Q m.
Proof. intros Hpq [Hr Hn]. split; [|done]. intros k v Hk. destruct (Hr k v Hk) as (? & ? & ?). auto. Qed.

Lemma chain_insert (P : V -> Prop) m k v :
  ch_id v = k -> chain_ok P m -> P v -> ch_lifecycle v ∈ PowerLifecycles ->
  (in_use v = true -> name_taken m (ch_under v) (ch_name v) (ch_id v) = false) -> chain_ok P (<[k := v]> m).
Proof.
  intros <- [Hr Hn] Hv Hl Hfree. split.
  - intros k w. rewrite lookup_insert_Some. intros [[<- <-]|[_ Hk]]; eauto.
  - intros k k' w w'. rewrite !lookup_insert_Some.
    intros [[<- <-]|[_ Hk]] [[<- <-]|[_ Hk']] Hw Hw' Hu Hc; [done|..|by eapply Hn].
    + symmetry. rewrite <- (name_not_taken _ _ _ _ (Hfree Hw) k' w' Hk' Hw' (eq_sym Hu) (eq_sym Hc)).
      by destruct (Hr _ _ Hk').
    + rewrite <- (name_not_taken _ _ _ _ (Hfree Hw') k w Hk Hw Hu Hc). symmetry. by destruct (Hr _ _ Hk).
Qed.

(** A row taken out of use keeps the table as it should be. *)
Lemma chain_retired (P : V -> Prop) m f k :
  (forall v, ch_id (f v) = ch_id v /\ ch_lifecycle (f v) = LifecycleRetired) -> (forall v, P v -> P (f v)) ->
  chain_ok P m -> chain_ok P (alter f k m).
Proof.
  intros Hf Hp [Hr Hn]. split.
  - intros j v' (v & Hj & [->|[-> ->]])%alter_row; [by apply Hr|]. destruct (Hr _ _ Hj) as (Hid & _ & Hv), (Hf v) as [-> ->].
    split_and!; [done| |by apply Hp]. unfold PowerLifecycles. set_solver.
  - intros j j' v' w' (v & Hj & Hv)%alter_row (w & Hj' & Hw)%alter_row Hu Hu'.
    assert (forall x, in_use (f x) = true -> False) as Hno.
    { intros x. unfold in_use. by destruct (Hf x) as [_ ->]. }
    destruct Hv as [->|[_ ->]]; [|by apply Hno in Hu]. destruct Hw as [->|[_ ->]]; [|by apply Hno in Hu'].
    by eapply Hn.
Qed.

Lemma put_row_inv table with_table ck refs v t t' : put_row table with_table ck refs v t = inr t' ->
  t' = with_table (<[ch_id v := v]> (table t)) t /\ ch_lifecycle v ∈ PowerLifecycles /\ ck v = true /\ refs t v = true /\
  (in_use v = true -> name_taken (table t) (ch_under v) (ch_name v) (ch_id v) = false).
Proof.
  unfold put_row. destruct (negb (_ && _ && _)) eqn:Hc; [done|]. destruct (in_use v && _) eqn:Hn; [done|].
  destruct (refs t v); [|done]. intros [= <-]. apply negb_false_iff in Hc.
  apply andb_true_iff in Hc as [[_ Hl%containsString_elem]%andb_true_iff Hck]. split_and!; [done..|].
  intros Hu. by rewrite Hu in Hn.
Qed.
End Chains.

(** ** Ratings, and what the constraints of the columns mean *)

Lemma positive_or_null_spec v : positive_or_null v = true -> forall n, v = Some n -> (0 < n)%Z.
Proof. intros Hp n ->. by apply Z.ltb_lt. Qed.

Lemma rating_checks_ok r : rating_checks r = true -> (is_Some (rt_Amperage r) -> is_Some (rt_Voltage r)) -> rating_ok r.
Proof.
  unfold rating_checks. intros [[Hv Ha]%andb_true_iff Hp]%andb_true_iff Hpair.
  split; [by apply positive_or_null_spec|by apply positive_or_null_spec| |done].
  intros p Hr. rewrite Hr in Hp. by apply containsString_elem.
Qed.

Lemma checkRating_pair ve r ve' r' : checkRating ve r = (ve', r') -> ve' = [] ->
  is_Some (rt_Amperage r') -> is_Some (rt_Voltage r').
Proof.
  unfold checkRating. destruct (check_phase _ _) as [w phase]. intros [= <- <-]. cbn.
  destruct (rt_Amperage r), (rt_Voltage r); try done. by intros ?%Add_not_nil.
Qed.

(** ** What a validation passes *)

Lemma ValidatePowerPanel_spec `{Unicode} p p' : ValidatePowerPanel p = (p', None) ->
  pp_ID p' = pp_ID p /\ pp_Lifecycle p' = pp_Lifecycle p /\
  (is_Some (rt_Amperage (pp_Rating p')) -> is_Some (rt_Voltage (pp_Rating p'))).
Proof.
  unfold ValidatePowerPanel. destruct (checkRequired [] _ _) as [v1 ?], (checkRequired v1 _ _) as [v2 ?].
  destruct (checkRating v2 _) as [v3 r] eqn:E. intros [= <- [Hv _]%OrNil_None%checkEnum_nil]. cbn.
  split_and!; [done..|]. by apply (checkRating_pair _ _ _ _ E).
Qed.

Lemma ValidatePowerFeed_spec `{Unicode} f f' : ValidatePowerFeed f = (f', None) ->
  pf_ID f' = pf_ID f /\ pf_Lifecycle f' = pf_Lifecycle f /\
  (is_Some (rt_Amperage (pf_Rating f')) -> is_Some (rt_Voltage (pf_Rating f'))).
Proof.
  unfold ValidatePowerFeed. destruct (checkRequired [] _ _) as [v1 ?], (checkRequired v1 _ _) as [v2 ?].
  destruct (checkRating v2 _) as [v3 r] eqn:E. intros [= <- [Hv _]%OrNil_None%checkEnum_nil]. cbn.
  split_and!; [done..|]. apply (checkRating_pair _ _ _ _ E). unfold checkUtilisation in Hv.
  destruct (_ || _); [by apply Add_not_nil in Hv|done].
Qed.

Lemma ValidatePowerInput_spec `{Unicode} i i' : ValidatePowerInput i = (i', None) ->
  pi_ID i' = pi_ID i /\ pi_Lifecycle i' = pi_Lifecycle i /\ (forall d, pi_DrawVA i' = Some d -> (0 <= d <= 100000)%Z).
Proof.
  unfold ValidatePowerInput. destruct (checkRequired [] _ _) as [v1 ?], (checkRequired v1 _ _) as [v2 ?],
    (checkRequired v2 _ _) as [v3 ?].
  intros [= <- [Hv _]%OrNil_None%checkEnum_nil]. cbn. split_and!; [done..|]. intros d Hd. rewrite Hd in Hv. cbn in Hv.
  destruct (Z.ltb_spec d 0); [by apply Add_not_nil in Hv|].
  destruct (Z.ltb_spec max_draw d); [by apply Add_not_nil in Hv|]. unfold max_draw in *. lia.
Qed.

Lemma ValidatePowerSource_spec `{Unicode} s s' : ValidatePowerSource s = (s', None) ->
  ps_ID s' = ps_ID s /\ ps_Lifecycle s' = ps_Lifecycle s.
Proof.
  unfold ValidatePowerSource. destruct (checkRequired [] _ _) as [v1 ?], (checkRequired v1 _ _) as [v2 ?]. by intros [= <- _].
Qed.

(** ** Rows put *)

Section Puts.
Context (t : PowerTables) (Hok : power_ok t).

(** The other tables keep what they are when one of the tables they refer to grows. *)
Lemma put_panel_ok p t' : put_panel p t = inr t' ->
  (is_Some (rt_Amperage (pp_Rating p)) -> is_Some (rt_Voltage (pp_Rating p))) -> power_ok t'.
Proof.
  intros (-> & Hl & Hc & [Ha%known_spec Hs%names_known]%andb_true_iff & Hn)%put_row_inv Hpair. destruct Hok.
  assert (panel_ok (wt_assets t) (wt_sources t) p) as Hp by (split_and!; [by apply rating_checks_ok|done..]). split; cbn; try done.
  - by apply chain_insert.
  - apply (chain_mono (feed_ok (wt_panels t))); [|done]. intros f (? & [? ?] & ?). split_and!; [done..|]. rewrite lookup_insert_is_Some'. auto.
Qed.

Lemma put_feed_ok f t' : put_feed f t = inr t' ->
  (is_Some (rt_Amperage (pf_Rating f)) -> is_Some (rt_Voltage (pf_Rating f))) -> power_ok t'.
Proof.
  intros (-> & Hl & Hc & Hp%known_spec & Hn)%put_row_inv Hpair. destruct Hok.
  apply andb_true_iff in Hc as [[Hr Hlow%Z.ltb_lt]%andb_true_iff Hhigh%Z.leb_le].
  assert (feed_ok (wt_panels t) f) as Hf by (split_and!; [by apply rating_checks_ok|lia..|done]). split; cbn; try done.
  - by apply chain_insert.
  - apply (chain_mono (input_ok (wt_assets t) (wt_feeds t))); [|done]. intros i (? & ? & ?). split_and!; [done..|]. rewrite lookup_insert_is_Some'. auto.
Qed.

Lemma put_input_ok i t' : put_input i t = inr t' ->
  (forall d, pi_DrawVA i = Some d -> (0 <= d <= 100000)%Z) -> power_ok t'.
Proof.
  intros (-> & Hl & Hc & [Ha%known_spec Hf%known_spec]%andb_true_iff & Hn)%put_row_inv Hd. destruct Hok.
  split; cbn; try done. by apply chain_insert.
Qed.

(** The parents of the supplies, with one of them moved. *)
Lemma supplied_by_insert (m : gmap string PowerSource) s d :
  supplied_by (<[ps_ID s := s]> m) d = moved (supplied_by m) (ps_ID s) (ps_ParentID s) d.
Proof.
  unfold supplied_by, moved. case_decide as Hd; [by rewrite Hd, lookup_insert_eq|by rewrite lookup_insert_ne].
Qed.

Lemma put_source_ok s t' : put_source s t = inr t' ->
  (forall p, ps_ParentID s = Some p -> ~ under (supplied_by (wt_sources t)) (ps_ID s) p) -> power_ok t'.
Proof.
  intros (-> & Hl & [Hk%containsString_elem _]%andb_true_iff & Hrefs & Hn)%put_row_inv Hloop. destruct Hok.
  apply andb_true_iff in Hrefs as [[Hp%names_known Hs%known_spec]%andb_true_iff Ha%names_known].
  assert (forall ref, refers (wt_sources t) ref -> refers (<[ch_id s := s]> (wt_sources t)) ref) as Hgrow.
  { intros ref Href id E. rewrite lookup_insert_is_Some'. auto. }
  split; cbn; try done.
  - apply (chain_mono (panel_ok (wt_assets t) (wt_sources t))); [|done]. intros p (? & ? & ?). split_and!; [done..|]. by apply Hgrow.
  - apply (chain_mono (source_ok (wt_assets t) (wt_sources t))).
    { intros x (? & ? & ? & ?). split_and!; [done..|]. by apply Hgrow. }
    by apply chain_insert.
  - apply (no_loop_congr (moved (supplied_by (wt_sources t)) (ps_ID s) (ps_ParentID s))).
    { intros d. symmetry. apply supplied_by_insert. }
    by apply no_loop_moved.
Qed.
End Puts.

(** ** Rows taken out of use *)

Lemma retired_panel_ok t id at_ version : power_ok t ->
  power_ok (with_panels (alter (fun p => panel_as LifecycleRetired at_ (version p) p) id (wt_panels t)) t).
Proof.
  intros []. split; cbn; try done.
  - by apply chain_retired.
  - apply (chain_mono (feed_ok (wt_panels t))); [|done]. intros f (? & [? ?] & ?). split_and!; [done..|]. by apply alter_is_Some.
Qed.

Lemma retired_feed_ok t id at_ version : power_ok t ->
  power_ok (with_feeds (alter (fun f => feed_as LifecycleRetired at_ (version f) f) id (wt_feeds t)) t).
Proof.
  intros []. split; cbn; try done.
  - by apply chain_retired.
  - apply (chain_mono (input_ok (wt_assets t) (wt_feeds t))); [|done]. intros i (? & ? & ?). split_and!; [done..|]. by apply alter_is_Some.
Qed.

Lemma retired_input_ok t id at_ version : power_ok t ->
  power_ok (with_inputs (alter (fun i => input_as LifecycleRetired at_ (version i) i) id (wt_inputs t)) t).
Proof. intros []. split; cbn; try done. by apply chain_retired. Qed.

Lemma retired_source_ok t id at_ version : power_ok t ->
  power_ok (with_sources (alter (fun s => source_as LifecycleRetired at_ (version s) s) id (wt_sources t)) t).
Proof.
  intros []. set (retire := fun s => source_as LifecycleRetired at_ (version s) s).
  assert (forall ref, refers (wt_sources t) ref -> refers (alter retire id (wt_sources t)) ref) as Hgrow.
  { intros ref Href x E. apply alter_is_Some. auto. }
  split; cbn; try done.
  - apply (chain_mono (panel_ok (wt_assets t) (wt_sources t))); [|done]. intros p (? & ? & ?). split_and!; [done..|]. by apply Hgrow.
  - apply (chain_mono (source_ok (wt_assets t) (wt_sources t))).
    { intros x (? & ? & ? & ?). split_and!; [done..|]. by apply Hgrow. }
    by apply chain_retired.
  - apply (no_loop_congr (supplied_by (wt_sources t))); [|done]. intros d. unfold supplied_by.
    destruct (decide (d = id)) as [->|Hd]; [|by rewrite lookup_alter_ne]. rewrite lookup_alter_eq.
    by destruct (wt_sources t !! id).
Qed.

(** ** What the checks of a body establish *)

Create HintDb passed.

Lemma checks_require_live lifecycle field missing retired :
  checks (require_live lifecycle field missing retired) (fun t => exists l, lifecycle t = Some l /\ l <> LifecycleRetired).
Proof.
  apply checks_query. intros [l|]; [|apply checks_fail]. destruct (String.eqb_spec l LifecycleRetired); [apply checks_fail|].
  intros env st a st' [_ ->]%ret_inv. eauto.
Qed.

Definition live_panel (t : PowerTables) : string -> Prop := serving (wt_panels t).
Definition live_feed (t : PowerTables) : string -> Prop := serving (wt_feeds t).
Definition live_source (t : PowerTables) : string -> Prop := serving (wt_sources t).

(** A check followed by what its answer says. *)
Lemma checks_weaken {T A} (m : Tx T A) (P Q : T -> Prop) : checks m P -> (forall t, P t -> Q t) -> checks m Q.
Proof. intros Hm Hpq env st a st' [-> Hp]%Hm. auto. Qed.

Lemma in_use_lifecycle `{Chained V} (v : V) : in_use v = true <-> ch_lifecycle v <> LifecycleRetired.
Proof. unfold in_use. by rewrite negb_true_iff, String.eqb_neq. Qed.

Lemma live_row_of `{Chained V} (m : gmap string V) id :
  (exists l, ch_lifecycle <$> m !! id = Some l /\ l <> LifecycleRetired) -> exists v, m !! id = Some v /\ in_use v = true.
Proof. intros (l & (v & Hv & ->)%fmap_Some & Hl). exists v. by rewrite in_use_lifecycle. Qed.

Lemma checks_livePanel id : checks (requireLivePanel id) (fun t => live_panel t id).
Proof. eapply checks_weaken; [apply checks_require_live|]. intros t Ht. by apply live_row_of. Qed.
Lemma checks_liveFeed id : checks (requireLiveFeed id) (fun t => live_feed t id).
Proof. eapply checks_weaken; [apply checks_require_live|]. intros t Ht. by apply live_row_of. Qed.
Lemma checks_liveSource id : checks (requireLiveSource id) (fun t => live_source t id).
Proof. eapply checks_weaken; [apply checks_require_live|]. intros t Ht. by apply live_row_of. Qed.

Lemma checks_liveAsset field id : checks (requireLiveAsset field id) (fun _ => True).
Proof. eapply checks_weaken; [apply checks_require_live|done]. Qed.

Lemma checks_if_named ref check (Q : string -> PowerTables -> Prop) :
  (forall id, checks (check id) (Q id)) -> checks (if_named ref check) (fun t => forall id, ref = Some id -> Q id t).
Proof.
  intros Hc. destruct ref as [id|]; cbn.
  - eapply checks_weaken; [apply Hc|]. by intros t Ht x [= <-].
  - by intros env st a st' [_ ->]%ret_inv.
Qed.

Lemma checks_unique `{Unicode} `{Chained V} table (v : V) : checks (requireUniquePowerName table v) (fun _ => True).
Proof.
  unfold requireUniquePowerName. destruct (negb _); [apply checks_ret|]. apply checks_query. intros [].
  - apply checks_fail.
  - by intros env st a st' [_ ->]%ret_inv.
Qed.

(** The walk up the chain that comes to its end does not pass the supply. *)
Lemma supply_walk_ends depth sources id cur :
  supply_walk depth sources id cur = ChainEnds -> ~ under (supplied_by sources) id cur.
Proof.
  revert cur. induction depth as [|depth IH]; intros cur; [done|]. cbn.
  destruct (String.eqb_spec cur id) as [|Hne]; [done|]. intros Hw [[|m] Hm]; cbn in Hm; [by injection Hm as ->|].
  change (supplied_by sources cur) with (sources !! cur ≫= ps_ParentID) in Hm. destruct (sources !! cur) as [s|]; [|done]. cbn in Hm.
  destruct (ps_ParentID s) as [next|]; [|done]. apply (IH next Hw). by exists m.
Qed.

Lemma checks_acyclic id parent :
  checks (requireNoSupplyCycle id parent) (fun t => ~ under (supplied_by (wt_sources t)) id parent).
Proof.
  apply checks_query. intros []; [|apply checks_fail..]. intros env st a st' [_ ->]%ret_inv. split; [done|].
  intros E. by eapply supply_walk_ends.
Qed.

Lemma checks_parent s : checks (require_parent s) (fun t => forall p, ps_ParentID s = Some p ->
  live_source t p /\ ~ under (supplied_by (wt_sources t)) (ps_ID s) p).
Proof.
  apply checks_if_named. intros id. apply checks_bind; [apply checks_liveSource|intros _; apply checks_acyclic].
Qed.

Lemma checks_named_source ref : checks (if_named ref requireLiveSource) (fun t => forall id, ref = Some id -> live_source t id).
Proof. apply (checks_if_named _ _ (fun id t => live_source t id)), checks_liveSource. Qed.

Lemma checks_named_asset ref field : checks (if_named ref (requireLiveAsset field)) (fun _ => True).
Proof. eapply checks_weaken; [apply (checks_if_named _ _ (fun _ _ => True)), checks_liveAsset|done]. Qed.

#[export] Hint Resolve checks_livePanel checks_liveFeed checks_liveSource checks_liveAsset checks_unique checks_acyclic
  checks_parent checks_named_source checks_named_asset : passed.

(** A body of the power chain: its checks one after the other, then its statement. *)
Ltac checking :=
  repeat (eapply leads_after; [solve [eauto with passed]|intros _]); eapply leads_statement; [|intros _; keeping].

(** ** The operations keep the chain well formed *)

(** The statement of a body, with what its checks have established. *)
Ltac storing :=
  apply (leads_write _ _ _ _ _ power_ok); [|done..]; checking; intros t t' Ht;
  unfold insert_row, update_panel, update_feed, update_input, update_source; repeat case_match; try done; intros Hput.

(** The same, after the validation that comes first. *)
Ltac validated :=
  match goal with
  | |- context [ValidatePowerPanel ?p] => destruct (ValidatePowerPanel p) as [p' [ve|]] eqn:Hv; [done|]; apply ValidatePowerPanel_spec in Hv as (? & ? & ?)
  | |- context [ValidatePowerFeed ?f] => destruct (ValidatePowerFeed f) as [f' [ve|]] eqn:Hv; [done|]; apply ValidatePowerFeed_spec in Hv as (? & ? & ?)
  | |- context [ValidatePowerInput ?i] => destruct (ValidatePowerInput i) as [i' [ve|]] eqn:Hv; [done|]; apply ValidatePowerInput_spec in Hv as (? & ? & ?)
  | |- context [ValidatePowerSource ?s] => destruct (ValidatePowerSource s) as [s' [ve|]] eqn:Hv; [done|]; apply ValidatePowerSource_spec in Hv as (? & ?)
  end; storing.

Section Kept.
Context `{Unicode} (NewID : nat -> string).

Lemma run_power_ok st r : power_ok (st_tables st) -> power_ok (st_tables (run_power NewID st r)).
Proof.
  intros Hok. destruct r as [seen fate permit now op]. unfold run_power. cbn [wr_seen wr_fate wr_permit wr_now wr_op].
  destruct op; unfold CreatePowerPanel, UpdatePowerPanel, RetirePowerPanel, CreatePowerFeed, UpdatePowerFeed, RetirePowerFeed,
    CreatePowerInput, UpdatePowerInput, RetirePowerInput, CreatePowerSource, UpdatePowerSource, RetirePowerSource;
    try (destruct (_ !! _) as [before|]; [|done]); try (destruct (_ <? _)%nat; [done|]).
  - validated. eapply put_panel_ok; [|done..]. tauto.
  - validated. eapply put_panel_ok; [|done..]. tauto.
  - storing. injection Hput as <-. by apply retired_panel_ok.
  - validated. eapply put_feed_ok; [|done..]. tauto.
  - validated. eapply put_feed_ok; [|done..]. tauto.
  - storing. injection Hput as <-. by apply retired_feed_ok.
  - validated. eapply put_input_ok; [|done..]. tauto.
  - validated. eapply put_input_ok; [|done..]. tauto.
  - storing. injection Hput as <-. by apply retired_input_ok.
  - validated. eapply put_source_ok; [|done|]; [tauto|]. naive_solver.
  - validated. rename select (_ !! _ = Some _) into Hrow. assert (power_ok t) as Hpo by tauto.
    eapply put_source_ok; [done..|]. destruct (co_rows _ _ (wk_sources _ Hpo) _ _ Hrow) as [Hid _]. cbn in Hid |- *.
    rewrite Hid. naive_solver.
  - destruct (_ || _); [done|]. storing. injection Hput as <-. by apply retired_source_ok.
Qed.
End Kept.

(** ** Nothing in use hangs off something retired *)

Section Hanging.
Context `{Chained V}.
Implicit Types (m : gmap string V).

Lemma live_insert m k v id : (forall w, m !! k = Some w -> in_use w = true -> in_use v = true) -> serving m id -> serving (<[k := v]> m) id.
Proof.
  intros Hv (w & Hw & Hu). unfold serving. setoid_rewrite lookup_insert_Some. destruct (decide (k = id)) as [->|]; eauto 10.
Qed.

Lemma live_alter m f k id : id <> k -> serving m id -> serving (alter f k m) id.
Proof. intros Hne (w & Hw & Hu). exists w. by rewrite lookup_alter_ne. Qed.

Lemma hangs_mono ref m (P Q : string -> Prop) : (forall id, P id -> Q id) -> hangs ref m P -> hangs ref m Q.
Proof. intros Hpq Hm k v Hk Hu id Hr. eauto. Qed.

Lemma hangs_insert ref m P k v :
  hangs ref m P -> (in_use v = true -> forall id, ref v = Some id -> P id) -> hangs ref (<[k := v]> m) P.
Proof. intros Hm Hv j w. rewrite lookup_insert_Some. intros [[<- <-]|[_ Hj]]; eauto. Qed.

Lemma hangs_alter ref m P f k : (forall v, in_use (f v) = false) -> hangs ref m P -> hangs ref (alter f k m) P.
Proof.
  intros Hf Hm j w (v & Hj & [->|[-> ->]])%alter_row; [eauto|]. by rewrite Hf.
Qed.

End Hanging.

(** A row that nothing in use names can go. *)
Lemma hangs_unnamed `{Chained V} `{Chained W} (ref : V -> option string) (m : gmap string V) (n : gmap string W) f k :
  (forall j v, m !! j = Some v -> in_use v = true -> ref v <> Some k) ->
  hangs ref m (serving n) -> hangs ref m (serving (alter f k n)).
Proof. intros Hno Hm j v Hj Hu id Hr. apply live_alter; [|eauto]. intros ->. by apply (Hno j v). Qed.

Lemma feeds_none t id : (0 <? Feeds t id)%nat = false -> forall k f, wt_feeds t !! k = Some f -> in_use f = true -> pf_PanelID f <> id.
Proof.
  intros Hc k f Hk Hu <-. pose proof (count_rows_zero _ _ Hc k f Hk) as Hz. cbn in Hz. by rewrite String.eqb_refl, Hu in Hz.
Qed.
Lemma inputs_none t id : (0 <? FeedInputs t id)%nat = false -> forall k i, wt_inputs t !! k = Some i -> in_use i = true -> pi_FeedID i <> id.
Proof.
  intros Hc k f Hk Hu <-. pose proof (count_rows_zero _ _ Hc k f Hk) as Hz. cbn in Hz. by rewrite String.eqb_refl, Hu in Hz.
Qed.
Lemma panels_none t id : (0 <? Panels t id)%nat = false -> forall k p, wt_panels t !! k = Some p -> in_use p = true -> pp_SourceID p <> Some id.
Proof.
  intros Hc k f Hk Hu Hr. pose proof (count_rows_zero _ _ Hc k f Hk) as Hz. cbn in Hz. by rewrite bool_decide_eq_true_2, Hu in Hz.
Qed.
Lemma children_none t id : (0 <? Children t id)%nat = false -> forall k s, wt_sources t !! k = Some s -> in_use s = true -> ps_ParentID s <> Some id.
Proof.
  intros Hc k f Hk Hu Hr. pose proof (count_rows_zero _ _ Hc k f Hk) as Hz. cbn in Hz. by rewrite bool_decide_eq_true_2, Hu in Hz.
Qed.

(** Rows put, with what they hang off in use. *)
Section Hung.
Context (t : PowerTables) (Hh : hangs_ok t).

Lemma put_panel_hangs p t' : put_panel p t = inr t' ->
  (forall row, wt_panels t !! pp_ID p = Some row -> in_use row = true -> in_use p = true) ->
  (in_use p = true -> forall s, pp_SourceID p = Some s -> live_source t s) -> hangs_ok t'.
Proof.
  intros (-> & _)%put_row_inv Hstay Hs. destruct Hh. split; cbn; try done.
  - eapply hangs_mono; [|done]. intros id. by apply live_insert.
  - by apply hangs_insert.
Qed.

Lemma put_feed_hangs f t' : put_feed f t = inr t' ->
  (forall row, wt_feeds t !! pf_ID f = Some row -> in_use row = true -> in_use f = true) ->
  (in_use f = true -> live_panel t (pf_PanelID f)) -> hangs_ok t'.
Proof.
  intros (-> & _)%put_row_inv Hstay Hp. destruct Hh. split; cbn; try done.
  - eapply hangs_mono; [|done]. intros id. by apply live_insert.
  - apply hangs_insert; [done|]. by intros Hu id [= <-]; apply Hp.
Qed.

Lemma put_input_hangs i t' : put_input i t = inr t' -> live_feed t (pi_FeedID i) -> hangs_ok t'.
Proof.
  intros (-> & _)%put_row_inv Hf. destruct Hh. split; cbn; try done. apply hangs_insert; [done|]. by intros _ id [= <-].
Qed.

Lemma put_source_hangs s t' : put_source s t = inr t' ->
  (forall row, wt_sources t !! ps_ID s = Some row -> in_use row = true -> in_use s = true) ->
  (forall p, ps_ParentID s = Some p -> live_source t p) -> hangs_ok t'.
Proof.
  intros (-> & _)%put_row_inv Hstay Hp. destruct Hh.
  assert (forall id, serving (wt_sources t) id -> serving (<[ps_ID s := s]> (wt_sources t)) id) as Hgrow.
  { intros id. by apply live_insert. }
  split; cbn; try done.
  - by eapply hangs_mono.
  - apply hangs_insert; [by eapply hangs_mono|]. intros _ id Hid. by apply Hgrow, Hp.
Qed.
End Hung.

Lemma known_not {V} (m : gmap string V) id : known m id = false -> m !! id = None.
Proof. unfold known. rewrite bool_decide_eq_false. apply eq_None_not_Some. Qed.

(** Rows taken out of use that nothing in use names. *)

Lemma retired_panel_hangs t id at_ version : hangs_ok t -> (0 <? Feeds t id)%nat = false ->
  hangs_ok (with_panels (alter (fun p => panel_as LifecycleRetired at_ (version p) p) id (wt_panels t)) t).
Proof.
  intros [] Hc. split; cbn; try done; [|by apply hangs_alter].
  apply hangs_unnamed; [|done]. intros k f Hk Hu [= E]. by apply (feeds_none t id Hc k f).
Qed.

Lemma retired_feed_hangs t id at_ version : hangs_ok t -> (0 <? FeedInputs t id)%nat = false ->
  hangs_ok (with_feeds (alter (fun f => feed_as LifecycleRetired at_ (version f) f) id (wt_feeds t)) t).
Proof.
  intros [] Hc. split; cbn; try done; [|by apply hangs_alter].
  apply hangs_unnamed; [|done]. intros k i Hk Hu [= E]. by apply (inputs_none t id Hc k i).
Qed.

Lemma retired_input_hangs t id at_ version : hangs_ok t ->
  hangs_ok (with_inputs (alter (fun i => input_as LifecycleRetired at_ (version i) i) id (wt_inputs t)) t).
Proof. intros []. split; cbn; try done. by apply hangs_alter. Qed.

Lemma retired_source_hangs t id at_ version : hangs_ok t -> (0 <? Panels t id)%nat = false -> (0 <? Children t id)%nat = false ->
  hangs_ok (with_sources (alter (fun s => source_as LifecycleRetired at_ (version s) s) id (wt_sources t)) t).
Proof.
  intros [] Hp Hc. split; cbn; try done.
  - apply hangs_unnamed; [|done]. by apply panels_none.
  - apply hangs_alter; [done|]. apply hangs_unnamed; [|done]. by apply children_none.
Qed.

Section Withdrawn.
Context `{Unicode} (NewID : nat -> string).

(** The statement of a body, on the tables the request has read. *)
Ltac placing st Hh :=
  apply (leads_write _ _ _ _ _ (fun t => st_tables st = t)); [|done..]; checking; intros t t' Ht;
  unfold insert_row, update_panel, update_feed, update_input, update_source; repeat case_match; try done; intros Hput;
  assert (hangs_ok t) as Hnow by (destruct_and?; subst; exact Hh).

(** A row inserted has a key of its own. *)
Ltac fresh_row :=
  match goal with Hnew : known _ _ = false |- _ => apply known_not in Hnew; cbn in Hnew end.

Lemma run_power_hangs st r : power_ok (st_tables st) -> careful (st_tables st) r -> hangs_ok (st_tables st) ->
  hangs_ok (st_tables (run_power NewID st r)).
Proof.
  intros Hok [Hseen Hop] Hh. destruct r as [seen fate permit now op]. cbn in Hseen, Hop. subst seen.
  unfold run_power. cbn [wr_seen wr_fate wr_permit wr_now wr_op].
  destruct op; unfold CreatePowerPanel, UpdatePowerPanel, RetirePowerPanel, CreatePowerFeed, UpdatePowerFeed, RetirePowerFeed,
    CreatePowerInput, UpdatePowerInput, RetirePowerInput, CreatePowerSource, UpdatePowerSource, RetirePowerSource;
    try (destruct (_ !! _) as [before|] eqn:Hb; [|done]); try (destruct (_ <? _)%nat eqn:Hc; [done|]).
  - destruct (ValidatePowerPanel _) as [p' [ve|]] eqn:Hv; [done|]. placing st Hh. fresh_row.
    eapply put_panel_hangs; [done..| |]; [naive_solver|]. naive_solver.
  - destruct (ValidatePowerPanel _) as [p' [ve|]] eqn:Hv; [done|]. apply ValidatePowerPanel_spec in Hv as (Hid & Hl & _).
    placing st Hh. destruct_and?. subst t. cbn in Hid, Hl.
    rename select (_ !! pp_ID p' = Some _) into Hrow. destruct (co_rows _ _ (wk_panels _ Hok) _ _ Hrow) as [Hk _]. cbn in Hk.
    eapply put_panel_hangs; [done..| |]; cbn.
    + intros row. rewrite Hk, Hid. intros Hr Hu. unfold in_use. cbn. rewrite Hl. by apply (Hop row).
    + naive_solver.
  - placing st Hh. subst t. injection Hput as <-. destruct (co_rows _ _ (wk_panels _ Hok) _ _ Hb) as [Hk _]. cbn in Hk.
    apply (retired_panel_hangs _ _ _ (fun p => pp_RowVersion p + 1)%Z); [done|by rewrite Hk].
  - destruct (ValidatePowerFeed _) as [f' [ve|]] eqn:Hv; [done|]. placing st Hh. fresh_row.
    eapply put_feed_hangs; [done..| |]; naive_solver.
  - destruct (ValidatePowerFeed _) as [f' [ve|]] eqn:Hv; [done|]. apply ValidatePowerFeed_spec in Hv as (Hid & Hl & _).
    placing st Hh. destruct_and?. subst t. cbn in Hid, Hl.
    rename select (_ !! pf_ID f' = Some _) into Hrow. destruct (co_rows _ _ (wk_feeds _ Hok) _ _ Hrow) as [Hk _]. cbn in Hk.
    pose proof Hrow as Hthis. rewrite Hid, Hb in Hthis. injection Hthis as <-.
    rename select (stays_in_use _ _) into Hstay. rename select (forall row, _ -> in_use row = false -> _) into Hback.
    eapply put_feed_hangs; [done..| |]; cbn; unfold in_use; cbn; rewrite Hl.
    + intros row. rewrite Hk, Hrow. intros [= <-] Hu. by apply (Hstay _ Hb).
    + intros Hu. destruct (in_use (before)) eqn:Hwas; [by apply (ho_feeds _ Hnow _ _ Hrow Hwas)|by apply (Hback _ eq_refl)].
  - placing st Hh. subst t. injection Hput as <-. destruct (co_rows _ _ (wk_feeds _ Hok) _ _ Hb) as [Hk _]. cbn in Hk.
    apply (retired_feed_hangs _ _ _ (fun p => pf_RowVersion p + 1)%Z); [done|by rewrite Hk].
  - destruct (ValidatePowerInput _) as [i' [ve|]] eqn:Hv; [done|]. placing st Hh. eapply put_input_hangs; [done..|]. naive_solver.
  - destruct (ValidatePowerInput _) as [i' [ve|]] eqn:Hv; [done|]. placing st Hh. eapply put_input_hangs; [done..|]. cbn. naive_solver.
  - placing st Hh. injection Hput as <-. by apply (retired_input_hangs _ _ _ (fun p => pi_RowVersion p + 1)%Z).
  - destruct (ValidatePowerSource _) as [s' [ve|]] eqn:Hv; [done|]. placing st Hh. fresh_row.
    eapply put_source_hangs; [done..| |]; naive_solver.
  - destruct (ValidatePowerSource _) as [s' [ve|]] eqn:Hv; [done|]. apply ValidatePowerSource_spec in Hv as (Hid & Hl).
    placing st Hh. destruct_and?. subst t. cbn in Hid, Hl.
    rename select (_ !! ps_ID s' = Some _) into Hrow. destruct (co_rows _ _ (wk_sources _ Hok) _ _ Hrow) as [Hk _]. cbn in Hk.
    eapply put_source_hangs; [done..| |]; cbn; [|naive_solver].
    intros row. rewrite Hk, Hid. intros Hr Hu. unfold in_use. cbn. rewrite Hl. by apply (Hop row).
  - destruct (0 <? Children _ _)%nat eqn:Hch; [done|]. cbn [orb]. placing st Hh. subst t. injection Hput as <-.
    by apply (retired_source_hangs _ _ _ (fun p => ps_RowVersion p + 1)%Z).
Qed.
End Withdrawn.

(** * Theorems *)

Section Theorems.
Context `{Unicode} (NewID : nat -> string).

(** C19. Whatever requests are made of the power chain, in whatever order, on whatever they
    read and whether they commit or not, it stays well formed: every panel, feed, input
    and supply names rows that exist, two live ones never share a name under the same
    thing, ratings are of positive figures with a voltage wherever there is an amperage, a
    feed is used for 1 to 100 per cent of its capacity, a declared draw is between nothing
    and 100,000 volt-amps, and no supply feeds itself, however long the way round. *)
Theorem power_chain_well_formed st rs :
  power_ok (st_tables st) -> power_ok (st_tables (foldl (run_power NewID) st rs)).
Proof. revert st. induction rs as [|r rs IH]; intros st Hok; [done|]. apply IH, run_power_ok, Hok. Qed.

(** C20. Through any requests each of which reads what it writes over, none of which is an
    edit that takes a panel, a feed or a supply out of use, and none of which is an edit
    that brings a feed back into use under a panel that is not in use, nothing in use hangs
    off something retired: every live input is on a live feed, every live feed on a live
    panel, and every supply a live panel or supply names is in use. The edits left out are
    accepted by the code, which does not check them. *)
Theorem nothing_hangs_off_retired st rs :
  power_ok (st_tables st) -> hangs_ok (st_tables st) -> careful_run NewID st rs ->
  hangs_ok (st_tables (foldl (run_power NewID) st rs)).
Proof.
  revert st. induction rs as [|r rs IH]; intros st Hok Hh Hc; [done|]. destruct Hc as [Hr Hc].
  apply IH; [by apply run_power_ok|by apply run_power_hangs|done].
Qed.
End Theorems.

(** * Samples *)

#[local] Instance power_unicode : Unicode := {| lower_unicode := ascii_lower; quote_unicode := fun s => s |}.

Definition unpowered : Store PowerTables := MkStore
  {| wt_assets := {["hall" := declared "hall" "site" None None "active" None 1;
                    "srv" := declared "srv" "server" (Some "hall") None "active" None 1]};
     wt_panels := ∅; wt_feeds := ∅; wt_inputs := ∅; wt_sources := ∅ |} [] 0.

Definition rated (v a : Z) : Rating := {| rt_Voltage := Some v; rt_Amperage := Some a; rt_Phase := Some "single" |}.

Definition sample_source (id : string) (parent : option string) (kind : string) : PowerSource :=
  {| ps_ID := id; ps_ParentID := parent; ps_SiteID := "hall"; ps_AssetID := None; ps_Name := id; ps_Kind := kind;
     ps_Notes := None; ps_Lifecycle := LifecycleActive; ps_CreatedAt := "t0"; ps_UpdatedAt := "t0"; ps_RowVersion := 1 |}.
Definition sample_panel (id : string) (source : option string) : PowerPanel :=
  {| pp_ID := id; pp_SiteID := "hall"; pp_SourceID := source; pp_Name := id; pp_Rating := rated 230 63; pp_Notes := None;
     pp_Lifecycle := LifecycleActive; pp_CreatedAt := "t0"; pp_UpdatedAt := "t0"; pp_RowVersion := 1 |}.
Definition sample_feed (id panel lifecycle : string) (version : Z) : PowerFeed :=
  {| pf_ID := id; pf_PanelID := panel; pf_Name := id; pf_Rating := rated 230 16; pf_MaxUtilisation := 80; pf_Notes := None;
     pf_Lifecycle := lifecycle; pf_CreatedAt := "t0"; pf_UpdatedAt := "t0"; pf_RowVersion := version |}.
Definition sample_input (id asset feed : string) : PowerInput :=
  {| pi_ID := id; pi_AssetID := asset; pi_FeedID := feed; pi_Name := id; pi_DrawVA := Some 900%Z; pi_Notes := None;
     pi_Lifecycle := LifecycleActive; pi_CreatedAt := "t0"; pi_UpdatedAt := "t0"; pi_RowVersion := 1 |}.

Definition power_asked (st : Store PowerTables) (op : PowerOp) : PowerRequest :=
  {| wr_seen := st_tables st; wr_fate := Commits; wr_permit := systemPermit "sample"; wr_now := 0%Z; wr_op := op |}.
Definition wire (st : Store PowerTables) (op : PowerOp) : Store PowerTables := run_power sample_ids st (power_asked st op).

(** A server on two feeds of two panels, one behind a UPS and both behind the mains. *)
Definition wiring : list PowerOp :=
  [OpCreateSource (sample_source "mains" None "utility"); OpCreateSource (sample_source "ups" (Some "mains") "ups");
   OpCreatePanel (sample_panel "pa" (Some "ups")); OpCreatePanel (sample_panel "pb" (Some "mains"));
   OpCreateFeed (sample_feed "fa" "pa" LifecycleActive 1); OpCreateFeed (sample_feed "fb" "pb" LifecycleActive 1);
   OpCreateInput (sample_input "A" "srv" "fa"); OpCreateInput (sample_input "B" "srv" "fb")].

Definition powered : Store PowerTables := foldl wire unpowered wiring.

Lemma unpowered_ok : power_ok (st_tables unpowered).
Proof.
  split; cbn; try (split; [intros k v Hk|intros k k' v v' Hk]; exfalso; by apply lookup_empty_Some in Hk).
  intros [|n] d; unfold supplied_by; cbn; by rewrite lookup_empty.
Qed.

Lemma unpowered_hangs : hangs_ok (st_tables unpowered).
Proof. split; intros k v Hk; exfalso; cbn in Hk; by apply lookup_empty_Some in Hk. Qed.

Lemma wire_ok st op : power_ok (st_tables st) -> power_ok (st_tables (wire st op)).
Proof. apply run_power_ok. Qed.

Lemma powered_ok : power_ok (st_tables powered).
Proof. unfold powered, wiring. cbn [foldl]. do 8 apply wire_ok. apply unpowered_ok. Qed.

Lemma power_chain_well_formed_witness :
  power_ok (st_tables (foldl (run_power sample_ids) powered
    [power_asked powered (OpRetireInput "B"); power_asked powered (OpUpdateSource (sample_source "mains" (Some "ups") "utility"))])).
Proof. apply (power_chain_well_formed sample_ids), powered_ok. Defined.

(** A request that is no update is careful when it is made on what the tables hold. *)
Definition no_update (op : PowerOp) : Prop :=
  match op with OpUpdatePanel _ | OpUpdateFeed _ | OpUpdateSource _ => False | _ => True end.

Fixpoint wires (st : Store PowerTables) (ops : list PowerOp) : list PowerRequest :=
  match ops with [] => [] | op :: ops => power_asked st op :: wires (wire st op) ops end.

Lemma wires_careful st ops : Forall no_update ops -> careful_run sample_ids st (wires st ops).
Proof.
  intros Ho. revert st. induction Ho as [|op ops Hop _ IH]; intros st; [done|]. cbn [wires careful_run].
  split; [|apply IH]. split; [done|]. by destruct op.
Qed.

Lemma wires_fold st ops : foldl (run_power sample_ids) st (wires st ops) = foldl wire st ops.
Proof. revert st. induction ops as [|op ops IH]; intros st; [done|]. apply IH. Qed.

Lemma wire_hangs st op : no_update op -> power_ok (st_tables st) -> hangs_ok (st_tables st) -> hangs_ok (st_tables (wire st op)).
Proof. intros Hop Hok Hh. apply run_power_hangs; [done| |done]. split; [done|]. by destruct op. Qed.

Lemma powered_hangs : hangs_ok (st_tables powered).
Proof.
  unfold powered, wiring. cbn [foldl]. do 8 (apply wire_hangs; [done|repeat apply wire_ok; apply unpowered_ok|]).
  apply unpowered_hangs.
Qed.

(** The panel is kept while its feed carries the input, and goes after both. *)
Lemma nothing_hangs_off_retired_witness :
  let kept := wire powered (OpRetirePanel "pb") in
  let gone := foldl wire kept [OpRetireInput "B"; OpRetireFeed "fb"; OpRetirePanel "pb"] in
  live_panel (st_tables kept) "pb" /\ ~ live_panel (st_tables gone) "pb" /\ hangs_ok (st_tables gone).
Proof.
  cbv zeta. split_and!.
  - vm_compute. eexists. split; reflexivity.
  - intros (p & Hp & Hu). vm_compute in Hp. injection Hp as <-. vm_compute in Hu. discriminate.
  - set (kept := wire powered (OpRetirePanel "pb")). rewrite <- wires_fold.
    apply (nothing_hangs_off_retired sample_ids kept).
    + apply wire_ok, powered_ok.
    + apply wire_hangs; [exact I|exact powered_ok|exact powered_hangs].
    + apply wires_careful. repeat constructor.
Defined.

(** ** What the edit forms let through *)

(** An edit that sets the lifecycle retires a panel the retirement refuses to retire. *)
Lemma edit_retires_a_panel_in_use :
  let panel := {| pp_ID := "pb"; pp_SiteID := "hall"; pp_SourceID := Some "mains"; pp_Name := "pb"; pp_Rating := rated 230 63;
    pp_Notes := None; pp_Lifecycle := LifecycleRetired; pp_CreatedAt := "t0"; pp_UpdatedAt := "t0"; pp_RowVersion := 1 |} in
  (RetirePowerPanel sample_ids (st_tables powered) Commits (systemPermit "sample") 0%Z "pb" powered).1 = inl (Wrapped ErrConflict) /\
  (UpdatePowerPanel sample_ids (st_tables powered) Commits (systemPermit "sample") 0%Z panel powered).1 = inr tt /\
  (pf_Lifecycle <$> wt_feeds (st_tables (wire powered (OpUpdatePanel panel))) !! "fb") = Some LifecycleActive /\
  (pp_Lifecycle <$> wt_panels (st_tables (wire powered (OpUpdatePanel panel))) !! "pb") = Some LifecycleRetired.
Proof. cbv zeta. split_and!; vm_compute; reflexivity. Qed.

(** A feed comes back into use under a panel that is retired, where a new feed is refused. *)
Lemma edit_revives_a_feed_of_a_retired_panel :
  let gone := foldl wire powered [OpRetireInput "B"; OpRetireFeed "fb"; OpRetirePanel "pb"] in
  (CreatePowerFeed sample_ids Commits (systemPermit "sample") 0%Z (sample_feed "fc" "pb" LifecycleActive 1) gone).1 =
    inl (Invalid [{| fe_Field := "panel_id"; fe_Message := "that panel has been retired" |}]) /\
  (UpdatePowerFeed sample_ids (st_tables gone) Commits (systemPermit "sample") 0%Z (sample_feed "fb" "pb" LifecycleActive 2) gone).1 = inr tt.
Proof. cbv zeta. split; vm_compute; reflexivity. Qed.
