(* ===== verification/Supply.v ===== *)
(** What the power chain is for: [internal/store/power_findings.go].

    Where the inputs of an asset converge, what a failed feed or supply takes down, which
    feeds carry more than they should, and how much of the estate is not modelled. *)
From Stdlib Require Import String Ascii ZArith Lia.
From stdpp Require Import base gmap strings list sorting.
From S2P Require Import Prelude Status Text Errors Timestamps Actors Permits ChangeLog Projects Assets Containment AssetWrites Invariants PowerRows Power.

#[local] Open Scope string_scope.
#[local] Open Scope list_scope.

(** * Definitions *)

(** ** Findings *)

Definition FindingFalseRedundancy := "false_redundancy".
Definition FindingSingleFed := "single_fed".
Definition FindingOverAllocated := "over_allocated".

Definition PowerSeverityFault := "fault".
Definition PowerSeverityExpected := "expected".

Record PowerFinding := {
  fi_Kind : string; fi_EntityType : string; fi_EntityID : string; fi_Name : string; fi_Detail : string;
  fi_ServiceCount : nat; fi_BestTier : Z; fi_Panels : list string; fi_Severity : string
}.

Record PowerReport := {
  rp_Findings : list PowerFinding;
  rp_FalseRedundancy : nat; rp_SingleFed : nat; rp_OverAllocated : nat; rp_SharedUpstream : nat;
  rp_Assets : nat; rp_UnmodelledSites : nat; rp_UndeclaredDraw : nat; rp_UnratedFeeds : nat; rp_UnsourcedPanels : nat
}.

(** A report with one more finding, and what is added to its counts of convergences that
    are faults, of single-fed assets, of feeds over their limit and of those by design. *)
Definition report_with (f : list PowerFinding) (redundancy single over shared unrated : nat) (r : PowerReport) : PowerReport :=
  {| rp_Findings := rp_Findings r ++ f; rp_FalseRedundancy := rp_FalseRedundancy r + redundancy;
     rp_SingleFed := rp_SingleFed r + single; rp_OverAllocated := rp_OverAllocated r + over;
     rp_SharedUpstream := rp_SharedUpstream r + shared; rp_Assets := rp_Assets r; rp_UnmodelledSites := rp_UnmodelledSites r;
     rp_UndeclaredDraw := rp_UndeclaredDraw r; rp_UnratedFeeds := rp_UnratedFeeds r + unrated;
     rp_UnsourcedPanels := rp_UnsourcedPanels r |}.

(** ** The chain as one list *)

Record powerLink := {
  lk_AssetID : string; lk_AssetName : string; lk_InputName : string; lk_FeedID : string; lk_FeedName : string;
  lk_PanelID : string; lk_PanelName : string; lk_SourceID : option string; lk_DrawVA : option Z
}.

(** The joins of the two queries: a live input of a live asset with its feed and panel, of
    which [wanted] says whether they count. *)
Definition joined_input (t : PowerTables) (wanted : PowerFeed -> PowerPanel -> bool) (i : PowerInput) : option powerLink :=
  match wt_assets t !! pi_AssetID i, wt_feeds t !! pi_FeedID i with
  | Some a, Some f =>
      match wt_panels t !! pf_PanelID f with
      | Some p =>
          if in_use i && negb (String.eqb (as_Lifecycle a) LifecycleRetired) && wanted f p
          then Some {| lk_AssetID := pi_AssetID i; lk_AssetName := as_Name a; lk_InputName := pi_Name i; lk_FeedID := pi_FeedID i;
                       lk_FeedName := pf_Name f; lk_PanelID := pf_PanelID f; lk_PanelName := pp_Name p;
                       lk_SourceID := pp_SourceID p; lk_DrawVA := pi_DrawVA i |}
          else None
      | None => None
      end
  | _, _ => None
  end.

(** [ORDER BY a.name, i.name] and [ORDER BY i.asset_id] *)
Definition by_names (x y : powerLink) : bool :=
  str_ltb (lk_AssetName x) (lk_AssetName y) ||
  (String.eqb (lk_AssetName x) (lk_AssetName y) && str_ltb (lk_InputName x) (lk_InputName y)).
Definition by_asset_id (x y : powerLink) : bool := str_ltb (lk_AssetID x) (lk_AssetID y).

(** The rows [PowerFindings] reads: the feed and the panel are in use too. *)
Definition traced_links (t : PowerTables) : list powerLink :=
  isort by_names (omap (joined_input t (fun f p => in_use f && in_use p)) (rows (wt_inputs t))).

(** The rows [AssetsLosingPower] reads. *)
Definition losing_links (t : PowerTables) : list powerLink :=
  isort by_asset_id (omap (joined_input t (fun _ _ => true)) (rows (wt_inputs t))).

(** ** What rides on an asset *)

(** The tables the workload is counted from: the rows of the containment closure, the
    instances with their host, their service and their lifecycle, and the services with
    their tier and lifecycle. *)
Record Riding := {
  rd_closure : list (string * string);
  rd_instances : list (string * string * string);
  rd_services : gmap string (Z * string)
}.

Record powerWorkloadRow := { wl_services : nat; wl_tier : Z }.

(** The services that ride on an asset: [COUNT(DISTINCT s.id)] of the join. *)
Definition riding_services (rd : Riding) (assetID : string) : list string :=
  remove_dups (omap (fun '(host, service, lifecycle) =>
    match rd_services rd !! service with
    | Some (_, serviceLifecycle) =>
        if bool_decide ((assetID, host) ∈ rd_closure rd) && negb (String.eqb lifecycle LifecycleRetired) &&
           negb (String.eqb serviceLifecycle LifecycleRetired)
        then Some service else None
    | None => None
    end) (rd_instances rd)).

Definition min_tier (l : list Z) : Z := match l with [] => 0%Z | x :: l => foldl Z.min x l end.

(** [powerWorkload], for one asset: nothing counts as a row of zeros. *)
Definition powerWorkload (rd : Riding) (assetID : string) : powerWorkloadRow :=
  let services := riding_services rd assetID in
  {| wl_services := length services; wl_tier := min_tier (omap (fun s => fst <$> rd_services rd !! s) services) |}.

(** ** Supplies *)

Record supplyNode := { sn_ID : string; sn_Parent : option string; sn_Name : string; sn_Kind : string }.

Definition supply_node (s : PowerSource) : supplyNode :=
  {| sn_ID := ps_ID s; sn_Parent := ps_ParentID s; sn_Name := ps_Name s; sn_Kind := ps_Kind s |}.

(** [loadSupplyChains]: the live supplies, by identifier. *)
Definition loadSupplyChains (t : PowerTables) : gmap string supplyNode :=
  foldl (fun out s => <[ps_ID s := supply_node s]> out) ∅ (List.filter in_use (rows (wt_sources t))).

(** The walk of [supplyPath] above the panel. *)
Fixpoint supply_chain (depth : nat) (supplies : gmap string supplyNode) (cur : option string) : list string :=
  match depth, cur with
  | S depth, Some id =>
      match supplies !! id with
      | Some node => sn_ID node :: supply_chain depth supplies (sn_Parent node)
      | None => []
      end
  | _, _ => []
  end.

(** [supplyPath] *)
Definition supplyPath (l : powerLink) (supplies : gmap string supplyNode) : list string :=
  lk_FeedID l :: lk_PanelID l :: supply_chain supplyDepthLimit supplies (lk_SourceID l).

Record sharedAncestor := { sa_label : string; sa_what : string; sa_severity : string }.

(** [strings.ReplaceAll(kind, "_", " ")] *)
Fixpoint spaced (s : string) : string :=
  match s with
  | EmptyString => EmptyString
  | String c s => String (if Ascii.eqb c "_"%char then " "%char else c) (spaced s)
  end.

(** The loop of [lowestSharedAncestor] over the path of the first input. *)
Fixpoint shared_on (first : powerLink) (others : list (list string)) (supplies : gmap string supplyNode) (path : list string)
    : option sharedAncestor :=
  match path with
  | [] => None
  | id :: path =>
      if negb (forallb (fun p => containsString p id) others) then shared_on first others supplies path
      else if String.eqb id (lk_FeedID first)
      then Some {| sa_label := lk_FeedName first; sa_what := "feed"; sa_severity := PowerSeverityFault |}
      else if String.eqb id (lk_PanelID first)
      then Some {| sa_label := lk_PanelName first; sa_what := "panel"; sa_severity := PowerSeverityFault |}
      else match supplies !! id with
           | None => shared_on first others supplies path
           | Some node => Some {| sa_label := sn_Name node; sa_what := spaced (sn_Kind node);
               sa_severity := if SharingIsAFault (sn_Kind node) then PowerSeverityFault else PowerSeverityExpected |}
           end
  end.

(** [lowestSharedAncestor] *)
Definition lowestSharedAncestor (inputs : list powerLink) (supplies : gmap string supplyNode) : option sharedAncestor :=
  match inputs with
  | [] => None
  | first :: rest => shared_on first ((fun l => supplyPath l supplies) <$> rest) supplies (supplyPath first supplies)
  end.

(** ** Sentences *)

(** [countOf] *)
Definition countOf (n : nat) (one many : string) : string :=
  if (n =? 1)%nat then "1 " +++ one else Itoa (Z.of_nat n) +++ " " +++ many.

(** [joinNames] *)
Definition joinNames (names : list string) : string :=
  match names with
  | [] => "no inputs"
  | [a] => "input " +++ a
  | [a; b] => "inputs " +++ a +++ " and " +++ b
  | _ => "inputs " +++ String.concat ", " (removelast names) +++ " and " +++ List.last names ""
  end.

(** [sortedStrings] *)
Definition sortedStrings (l : list string) : list string := isort str_ltb l.

(** [sharedAncestor.finding] *)
Definition shared_finding (a : sharedAncestor) (assetID : string) (inputs : list powerLink) (w : powerWorkloadRow) : PowerFinding :=
  let verdict := if String.eqb (sa_severity a) PowerSeverityExpected
    then "which is the usual design rather than a fault" else "one failure takes all of them" in
  {| fi_Kind := FindingFalseRedundancy; fi_EntityType := "asset"; fi_EntityID := assetID;
     fi_Name := default "" (lk_AssetName <$> head inputs);
     fi_Detail := joinNames (sortedStrings (lk_InputName <$> inputs)) +++ " converge on " +++ sa_what a +++ " " +++ sa_label a +++
                  " — " +++ verdict;
     fi_ServiceCount := wl_services w; fi_BestTier := wl_tier w; fi_Panels := [sa_label a]; fi_Severity := sa_severity a |}.

Definition single_fed_finding (assetID : string) (l : powerLink) (w : powerWorkloadRow) : PowerFinding :=
  {| fi_Kind := FindingSingleFed; fi_EntityType := "asset"; fi_EntityID := assetID; fi_Name := lk_AssetName l;
     fi_Detail := "one input, on feed " +++ lk_FeedName l +++ " from panel " +++ lk_PanelName l +++ ", and " +++
                  countOf (wl_services w) "service" "services" +++ " ride on it";
     fi_ServiceCount := wl_services w; fi_BestTier := wl_tier w; fi_Panels := []; fi_Severity := PowerSeverityFault |}.

(** ** The report *)

(** One row into [byAsset] and [order]. *)
Definition group_link (s : list string * gmap string (list powerLink)) (l : powerLink) : list string * gmap string (list powerLink) :=
  let '(order, byAsset) := s in
  (if bool_decide (is_Some (byAsset !! lk_AssetID l)) then order else order ++ [lk_AssetID l],
   <[lk_AssetID l := default [] (byAsset !! lk_AssetID l) ++ [l]]> byAsset).

(** One turn of the loop over the assets. *)
Definition asset_turn (rd : Riding) (byAsset : gmap string (list powerLink)) (supplies : gmap string supplyNode)
    (report : PowerReport) (assetID : string) : PowerReport :=
  let inputs := default [] (byAsset !! assetID) in
  let w := powerWorkload rd assetID in
  if (2 <=? length inputs)%nat
  then match lowestSharedAncestor inputs supplies with
       | Some shared =>
           let fault := String.eqb (sa_severity shared) PowerSeverityFault in
           report_with [shared_finding shared assetID inputs w] (if fault then 1 else 0) 0 0 (if fault then 0 else 1) 0 report
       | None => report
       end
  else match inputs with
       | [l] => if (0 <? wl_services w)%nat then report_with [single_fed_finding assetID l w] 0 1 0 0 0 report else report
       | _ => report
       end.

(** The live inputs of a feed, and what they declare. *)
Definition feed_inputs (t : PowerTables) (feedID : string) : list PowerInput :=
  List.filter (fun i => String.eqb (pi_FeedID i) feedID && in_use i) (rows (wt_inputs t)).
Definition AllocatedVA (t : PowerTables) (feedID : string) : Z := sumZ (default 0%Z ∘ pi_DrawVA <$> feed_inputs t feedID).
Definition UndeclaredInputs (t : PowerTables) (feedID : string) : nat :=
  count_if (fun i => negb (bool_decide (is_Some (pi_DrawVA i)))) (feed_inputs t feedID).

Record PowerFeedRow := { fr_Feed : PowerFeed; fr_PanelName : string; fr_SiteName : string }.

Definition feed_row (t : PowerTables) (f : PowerFeed) : option PowerFeedRow :=
  match wt_panels t !! pf_PanelID f with
  | Some p =>
      match wt_assets t !! pp_SiteID p with
      | Some a => Some {| fr_Feed := f; fr_PanelName := pp_Name p; fr_SiteName := as_Name a |}
      | None => None
      end
  | None => None
  end.

(** [ORDER BY a.name, p.name, f.name] *)
Definition feed_before (x y : PowerFeedRow) : bool :=
  str_ltb (fr_SiteName x) (fr_SiteName y) ||
  (String.eqb (fr_SiteName x) (fr_SiteName y) &&
   (str_ltb (fr_PanelName x) (fr_PanelName y) ||
    (String.eqb (fr_PanelName x) (fr_PanelName y) && str_ltb (pf_Name (fr_Feed x)) (pf_Name (fr_Feed y))))).

(** [ListPowerFeeds]: of one panel where one is named, the live ones unless the retired
    are asked for. *)
Definition ListPowerFeeds (t : PowerTables) (panelID : string) (includeRetired : bool) : list PowerFeedRow :=
  isort feed_before (omap (feed_row t)
    (List.filter (fun f => (String.eqb panelID "" || String.eqb (pf_PanelID f) panelID) && (includeRetired || in_use f))
       (rows (wt_feeds t)))).

(** One turn of the loop of [powerUtilisation]. *)
Definition feed_turn (t : PowerTables) (report : PowerReport) (r : PowerFeedRow) : PowerReport :=
  let f := fr_Feed r in
  match UsableVA f with
  | None => report_with [] 0 0 0 0 1 report
  | Some usable =>
      let allocated := AllocatedVA t (pf_ID f) in
      if (allocated <=? usable)%Z then report
      else
        let undeclared := UndeclaredInputs t (pf_ID f) in
        let detail := Itoa allocated +++ " VA allocated against " +++ Itoa usable +++ " VA usable (" +++
          Itoa (pf_MaxUtilisation f) +++ "% of " +++ Itoa (default 0%Z (CapacityVA (pf_Rating f))) +++ " VA)" +++
          (if (0 <? undeclared)%nat
           then ", and " +++ Itoa (Z.of_nat undeclared) +++ " of its inputs declare no draw at all" else "") in
        report_with [{| fi_Kind := FindingOverAllocated; fi_EntityType := "power_feed"; fi_EntityID := pf_ID f;
          fi_Name := fr_PanelName r +++ " / " +++ pf_Name f; fi_Detail := detail; fi_ServiceCount := 0; fi_BestTier := 0;
          fi_Panels := []; fi_Severity := "" |}] 0 0 1 0 0 report
  end.

(** [unmodelledSites]: the live sites without a live panel. *)
Definition unmodelledSites (t : PowerTables) : nat :=
  count_if (fun a => String.eqb (as_Kind a) "site" && negb (String.eqb (as_Lifecycle a) LifecycleRetired) &&
    negb (existsb (fun p => String.eqb (pp_SiteID p) (as_ID a) && in_use p) (rows (wt_panels t)))) (rows (wt_assets t)).

(** [assetsWithPowerInput] *)
Definition assetsWithPowerInput (t : PowerTables) : nat := length (remove_dups (lk_AssetID <$> traced_links t)).

(** [PowerFindings], with [powerUtilisation] and [powerCoverage] *)
Definition PowerFindings (t : PowerTables) (rd : Riding) : PowerReport :=
  let '(order, byAsset) := foldl group_link ([], ∅) (traced_links t) in
  let report := foldl (asset_turn rd byAsset (loadSupplyChains t))
    {| rp_Findings := []; rp_FalseRedundancy := 0; rp_SingleFed := 0; rp_OverAllocated := 0; rp_SharedUpstream := 0;
       rp_Assets := assetsWithPowerInput t; rp_UnmodelledSites := 0; rp_UndeclaredDraw := 0; rp_UnratedFeeds := 0;
       rp_UnsourcedPanels := 0 |} order in
  let report := foldl (feed_turn t) report (ListPowerFeeds t "" false) in
  {| rp_Findings := rp_Findings report; rp_FalseRedundancy := rp_FalseRedundancy report; rp_SingleFed := rp_SingleFed report;
     rp_OverAllocated := rp_OverAllocated report; rp_SharedUpstream := rp_SharedUpstream report; rp_Assets := rp_Assets report;
     rp_UnmodelledSites := unmodelledSites t;
     rp_UndeclaredDraw := count_if (fun i => negb (bool_decide (is_Some (pi_DrawVA i))) && in_use i) (rows (wt_inputs t));
     rp_UnratedFeeds := rp_UnratedFeeds report;
     rp_UnsourcedPanels := count_if (fun p => negb (bool_decide (is_Some (pp_SourceID p))) && in_use p) (rows (wt_panels t)) |}.

(** ** What an outage takes down *)

(** One row into [total], [lost] and [order]. *)
Definition tally (failed : gset string) (s : list string * gmap string nat * gmap string nat) (l : powerLink)
    : list string * gmap string nat * gmap string nat :=
  let '(order, total, lost) := s in
  let a := lk_AssetID l in
  (if (default 0 (total !! a) =? 0)%nat then order ++ [a] else order,
   <[a := S (default 0 (total !! a))]> total,
   if bool_decide (lk_FeedID l ∈ failed) then <[a := S (default 0 (lost !! a))]> lost else lost).

(** [AssetsLosingPower] *)
Definition AssetsLosingPower (t : PowerTables) (feedIDs : list string) : list string :=
  match feedIDs with
  | [] => []
  | _ =>
      let '(order, total, lost) := foldl (tally (list_to_set feedIDs)) ([], ∅, ∅) (losing_links t) in
      List.filter (fun id => (0 <? default 0 (lost !! id))%nat && (default 0 (lost !! id) =? default 0 (total !! id))%nat) order
  end.

(** One pass over the supplies, in the order the map gives them. *)
Definition spread (s : gset string * bool) (e : string * supplyNode) : gset string * bool :=
  let '(failed, grew) := s in
  match sn_Parent e.2 with
  | Some parent => if bool_decide (e.1 ∈ failed) || negb (bool_decide (parent ∈ failed)) then s else ({[e.1]} ∪ failed, true)
  | None => s
  end.

(** The passes; the map may give its entries in another order every time. *)
Fixpoint spreading (depth : nat) (orders : nat -> list (string * supplyNode)) (failed : gset string) : gset string :=
  match depth with
  | O => failed
  | S depth =>
      let '(failed, grew) := foldl spread (failed, false) (orders depth) in
      if grew : bool then spreading depth orders failed else failed
  end.

(** The feeds off the panels of failed supplies. *)
Definition lost_feeds (t : PowerTables) (failed : gset string) : list string :=
  omap (fun f =>
    match wt_panels t !! pf_PanelID f with
    | Some p =>
        match pp_SourceID p with
        | Some source => if in_use f && in_use p && bool_decide (source ∈ failed) then Some (pf_ID f) else None
        | None => None
        end
    | None => None
    end) (rows (wt_feeds t)).

(** [AssetsLosingSupply] *)
Definition AssetsLosingSupply (t : PowerTables) (orders : nat -> list (string * supplyNode)) (sourceIDs : list string) : list string :=
  match sourceIDs with
  | [] => []
  | _ =>
      match lost_feeds t (spreading supplyDepthLimit orders (list_to_set sourceIDs)) with
      | [] => []
      | lost => AssetsLosingPower t lost
      end
  end.

(** The supply above a supply, of the live ones. *)
Definition fed_by (supplies : gmap string supplyNode) (id : string) : option string := supplies !! id ≫= sn_Parent.

(** What is at or below one of the failed supplies. *)
Definition below_supply (supplies : gmap string supplyNode) (roots : gset string) (id : string) : Prop :=
  exists m r, climb (fed_by supplies) m id = Some r /\ r ∈ roots.

(** No chain is longer than what the walks follow. *)
Definition short_chains (supplies : gmap string supplyNode) : Prop :=
  forall id, climb (fed_by supplies) supplyDepthLimit id = None.

(** No identifier is of two kinds of thing. *)
Record distinct_ids (t : PowerTables) : Prop := {
  di_feed_panel : forall id, is_Some (wt_feeds t !! id) -> wt_panels t !! id = None;
  di_feed_source : forall id, is_Some (wt_feeds t !! id) -> wt_sources t !! id = None;
  di_panel_source : forall id, is_Some (wt_panels t !! id) -> wt_sources t !! id = None;
  di_panel_named : wt_panels t !! "" = None
}.

(** The live feeds of a panel. *)
Definition panel_feeds (t : PowerTables) (panelID : string) : list string := pf_ID ∘ fr_Feed <$> ListPowerFeeds t panelID false.

(** One thing that takes all of an asset's power with it when it fails: a feed, a panel or
    a supply. *)
Definition single_failure (t : PowerTables) (orders : nat -> list (string * supplyNode)) (a : string) : Prop :=
  (exists feed, a ∈ AssetsLosingPower t [feed]) \/
  (exists panel, is_Some (wt_panels t !! panel) /\ a ∈ AssetsLosingPower t (panel_feeds t panel)) \/
  (exists supply, a ∈ AssetsLosingSupply t orders [supply]).

(** The counts of a report are the counts of its findings. *)
Definition of_kind (kind severity : string) (fi : PowerFinding) : bool :=
  String.eqb (fi_Kind fi) kind && String.eqb (fi_Severity fi) severity.
Record counted (r : PowerReport) : Prop := {
  ct_redundancy : rp_FalseRedundancy r = count_if (of_kind FindingFalseRedundancy PowerSeverityFault) (rp_Findings r);
  ct_shared : rp_SharedUpstream r = count_if (of_kind FindingFalseRedundancy PowerSeverityExpected) (rp_Findings r);
  ct_single : rp_SingleFed r = count_if (of_kind FindingSingleFed PowerSeverityFault) (rp_Findings r);
  ct_over : rp_OverAllocated r = count_if (of_kind FindingOverAllocated "") (rp_Findings r)
}.

(** * Lemmas *)

Lemma climb_fed supplies m id :
  climb (fed_by supplies) (S m) id = (supplies !! id ≫= sn_Parent) ≫= climb (fed_by supplies) m.
Proof. done. Qed.

(** ** Passes over the supplies *)

Section Spreading.
Context (supplies : gmap string supplyNode) (roots : gset string).

Lemma spread_grows l failed grew : forall failed' grew', foldl spread (failed, grew) l = (failed', grew') ->
  failed ⊆ failed' /\ (grew' = false -> failed' = failed).
Proof.
  revert failed grew. induction l as [|[id node] l IH]; intros failed grew failed' grew' Hf.
  { by injection Hf as <- <-. }
  cbn [foldl] in Hf. unfold spread at 2 in Hf. cbn [fst snd] in Hf.
  destruct (sn_Parent node) as [p|]; [|by eapply IH]. destruct (_ || _); [by eapply IH|].
  destruct (IH _ _ _ _ Hf) as [Hsub Hg]. split; [set_solver|].
  intros ->. exfalso. clear -Hf. enough (forall l failed, (foldl spread (failed, true) l).2 = true) as He.
  { specialize (He l ({[id]} ∪ failed)). by rewrite Hf in He. }
  clear. induction l as [|[id node] l IH]; intros failed; [done|]. cbn [foldl]. unfold spread at 2. cbn.
  repeat case_match; apply IH.
Qed.

Lemma spread_takes l failed grew failed' grew' id node parent : foldl spread (failed, grew) l = (failed', grew') ->
  (id, node) ∈ l -> sn_Parent node = Some parent -> parent ∈ failed -> id ∈ failed'.
Proof.
  revert failed grew. induction l as [|[x n] l IH]; intros failed grew Hf Hin Hp Hfail; [by apply not_elem_of_nil in Hin|].
  cbn [foldl] in Hf. apply elem_of_cons in Hin as [[= -> ->]|Hin].
  - unfold spread at 2 in Hf. cbn [fst snd] in Hf. rewrite Hp, (bool_decide_eq_true_2 (parent ∈ failed)) in Hf by done. cbn [negb] in Hf.
    rewrite orb_false_r in Hf. case_bool_decide.
    + by apply (proj1 (spread_grows _ _ _ _ _ Hf)).
    + apply (proj1 (spread_grows _ _ _ _ _ Hf)). set_solver.
  - destruct (spread (failed, grew) (x, n)) as [failed1 grew1] eqn:E. eapply IH; [done..|].
    assert (foldl spread (failed, grew) [(x, n)] = (failed1, grew1)) as E1 by done.
    by apply (proj1 (spread_grows _ _ _ _ _ E1)).
Qed.

Lemma spread_sound l failed grew failed' grew' : foldl spread (failed, grew) l = (failed', grew') ->
  (forall e, e ∈ l -> supplies !! e.1 = Some e.2) -> (forall x, x ∈ failed -> below_supply supplies roots x) ->
  forall x, x ∈ failed' -> below_supply supplies roots x.
Proof.
  revert failed grew. induction l as [|[id node] l IH]; intros failed grew Hf Hl Hs; [by injection Hf as <- <-|].
  cbn [foldl] in Hf. assert (supplies !! id = Some node) as Hid by (apply (Hl (id, node)); left).
  unfold spread at 2 in Hf. cbn [fst snd] in Hf.
  assert (forall e, e ∈ l -> supplies !! e.1 = Some e.2) as Hl' by (intros e He; apply Hl; by right).
  destruct (sn_Parent node) as [p|] eqn:Hp; [|by eapply IH]. destruct (_ || _) eqn:Hb; [by eapply IH|].
  eapply IH; [exact Hf|done|]. intros x [->%elem_of_singleton|Hx]%elem_of_union; [|by apply Hs].
  apply orb_false_iff in Hb as [_ Hb%negb_false_iff%bool_decide_eq_true]. destruct (Hs p Hb) as (m & r & Hm & Hr).
  exists (S m), r. split; [|done]. rewrite climb_fed, Hid. cbn. by rewrite Hp.
Qed.

Context (orders : nat -> list (string * supplyNode)) (Horders : forall n, orders n ≡ₚ map_to_list supplies).

Lemma order_spec n id node : (id, node) ∈ orders n <-> supplies !! id = Some node.
Proof. by rewrite Horders, elem_of_map_to_list. Qed.

(** After so many passes everything so far down has failed, and nothing else. *)
Lemma spreading_spec depth n failed :
  (forall x, x ∈ failed -> below_supply supplies roots x) ->
  (forall x m r, m <= n -> climb (fed_by supplies) m x = Some r -> r ∈ roots -> x ∈ failed) ->
  (forall x, x ∈ spreading depth orders failed -> below_supply supplies roots x) /\
  (forall x m r, m <= n + depth -> climb (fed_by supplies) m x = Some r -> r ∈ roots -> x ∈ spreading depth orders failed).
Proof.
  revert n failed. induction depth as [|depth IH]; intros n failed Hs Hc; [by rewrite Nat.add_0_r|]. cbn [spreading].
  destruct (foldl spread (failed, false) (orders depth)) as [failed' grew] eqn:E.
  pose proof (spread_grows _ _ _ _ _ E) as [Hsub Hstop].
  assert (forall x p, fed_by supplies x = Some p -> p ∈ failed -> x ∈ failed') as Hstep.
  { intros x p Hx Hp. unfold fed_by in Hx. destruct (supplies !! x) as [node|] eqn:Hn; [|done].
    eapply (spread_takes _ _ _ _ _ x node p E); [by apply order_spec|done..]. }
  destruct grew.
  - replace (n + S depth) with (S n + depth) by lia. apply IH.
    + eapply spread_sound; [exact E| |done]. intros [id node] He. by apply (order_spec depth).
    + intros x [|m] r Hm Hr Hin; [apply Hsub; by eapply (Hc x 0); [lia|..]|]. cbn [climb] in Hr.
      destruct (fed_by supplies x) as [p|] eqn:Hx; [|done]. apply (Hstep x p Hx). apply (Hc p m r); [lia|done..].
  - specialize (Hstop eq_refl). subst failed'. split; [done|]. intros x m r _. revert x.
    induction m as [|m IHm]; intros x Hr Hin; [by eapply (Hc x 0); [lia|..]|]. cbn [climb] in Hr.
    destruct (fed_by supplies x) as [p|] eqn:Hx; [|done]. by apply (Hstep x p Hx), IHm.
Qed.

(** The passes find everything at or below what failed, in whatever order the map is read. *)
Lemma spreading_below : short_chains supplies ->
  forall x, x ∈ spreading supplyDepthLimit orders roots <-> below_supply supplies roots x.
Proof.
  intros Hshort x. destruct (spreading_spec supplyDepthLimit 0 roots) as [Hs Hc].
  - intros y Hy. by exists 0, y.
  - intros y [|m] r Hm; [by intros [= ->]|lia].
  - split; [apply Hs|]. intros (m & r & Hm & Hr). destruct (decide (m <= supplyDepthLimit)) as [Hle|Hgt]; [by eapply Hc|].
    exfalso. replace m with (supplyDepthLimit + (m - supplyDepthLimit)) in Hm by lia. by rewrite climb_add, Hshort in Hm.
Qed.
End Spreading.

(** ** The chain above an input *)

Lemma elem_of_supply_chain supplies depth cur id : (forall k n, supplies !! k = Some n -> sn_ID n = k) ->
  id ∈ supply_chain depth supplies cur <->
  exists m c, m < depth /\ cur = Some c /\ climb (fed_by supplies) m c = Some id /\ is_Some (supplies !! id).
Proof.
  intros Hkeys. revert cur. induction depth as [|depth IH]; intros cur; cbn [supply_chain].
  { split; [by intros ?%not_elem_of_nil|]. intros (m & c & Hm & _). lia. }
  destruct cur as [c|]; [|split; [by intros ?%not_elem_of_nil|by intros (? & ? & _ & ? & _)]].
  destruct (supplies !! c) as [node|] eqn:Hc.
  - rewrite elem_of_cons, IH, (Hkeys _ _ Hc). split.
    + intros [->|(m & p & Hm & Hp & Hcl & Hid)]; [exists 0, c; split_and!; [lia|done|done|by eexists]|].
      exists (S m), c. split_and!; [lia|done| |done]. rewrite climb_fed, Hc. cbn. by rewrite Hp.
    + intros ([|m] & c' & Hm & [= <-] & Hcl & Hid); [left; by injection Hcl|right]. rewrite climb_fed, Hc in Hcl. cbn in Hcl. destruct (sn_Parent node) as [p|]; [|done]. exists m, p. split_and!; [lia|done..].
  - split; [by intros ?%not_elem_of_nil|]. intros ([|m] & c' & Hm & [= <-] & Hcl & Hid).
    + injection Hcl as <-. by rewrite Hc in Hid; destruct Hid.
    + by rewrite climb_fed, Hc in Hcl.
Qed.

(** The loop finds something exactly when the paths have something in common. *)
Lemma shared_on_spec first others supplies path :
  (forall id, id ∈ path -> id = lk_FeedID first \/ id = lk_PanelID first \/ is_Some (supplies !! id)) ->
  is_Some (shared_on first others supplies path) <-> exists id, id ∈ path /\ forall p, p ∈ others -> id ∈ p.
Proof.
  induction path as [|id path IH]; intros Hk; cbn [shared_on].
  { split; [by intros [? ?]|by intros (? & ?%not_elem_of_nil & _)]. }
  destruct (forallb _ others) eqn:E; cbn [negb].
  - assert (forall p, p ∈ others -> id ∈ p) as Hall.
    { intros p Hp. rewrite forallb_forall in E. apply containsString_elem, E. by apply list_elem_of_In. }
    split; [intros _; exists id; split; [left|done]|]. intros _.
    destruct (String.eqb_spec id (lk_FeedID first)); [by eexists|]. destruct (String.eqb_spec id (lk_PanelID first)); [by eexists|].
    destruct (Hk id) as [?|[?|[node ->]]]; [left|done..|]. by eexists.
  - rewrite IH by (intros x Hx; apply Hk; by right). split; intros (x & Hx & Hall).
    + exists x. split; [by right|done].
    + exists x. split; [|done]. apply elem_of_cons in Hx as [->|Hx]; [|done]. exfalso.
      rewrite <- not_true_iff_false, forallb_forall in E. apply E. intros p Hp. apply containsString_elem, Hall.
      by apply list_elem_of_In.
Qed.

Lemma lowestSharedAncestor_spec inputs supplies : inputs <> [] -> (forall k n, supplies !! k = Some n -> sn_ID n = k) ->
  is_Some (lowestSharedAncestor inputs supplies) <-> exists id, forall l, l ∈ inputs -> id ∈ supplyPath l supplies.
Proof.
  intros Hne Hkeys. destruct inputs as [|first rest]; [done|]. cbn [lowestSharedAncestor]. rewrite shared_on_spec.
  - split; intros (id & Hid).
    + destruct Hid as [Hf Hall]. exists id. intros l [->|Hl]%elem_of_cons; [done|]. apply Hall, list_elem_of_fmap. eauto.
    + exists id. split; [apply Hid; left|]. intros p (l & -> & Hl)%list_elem_of_fmap. apply Hid. by right.
  - intros id [->|[->|Hid]%elem_of_cons]%elem_of_cons; [auto..|]. right; right.
    by apply elem_of_supply_chain in Hid as (m & c & _ & _ & _ & ?).
Qed.

(** ** The loops over the links *)

Definition of_asset (a : string) (l : powerLink) : bool := String.eqb (lk_AssetID l) a.

Lemma of_asset_spec a l : of_asset a l = true <-> lk_AssetID l = a.
Proof. apply String.eqb_eq. Qed.

(** [byAsset] has every asset's links, and [order] every asset once. *)
Lemma group_links_spec links order byAsset : foldl group_link ([], ∅) links = (order, byAsset) ->
  NoDup order /\ (forall a, a ∈ order <-> is_Some (byAsset !! a)) /\
  (forall a, default [] (byAsset !! a) = List.filter (of_asset a) links) /\
  (forall a, is_Some (byAsset !! a) <-> List.filter (of_asset a) links <> []).
Proof.
  revert order byAsset. induction links as [|l links IH] using rev_ind; intros order byAsset.
  { intros [= <- <-]. cbn. split_and!; [constructor|intros a; rewrite lookup_empty..]; [|done|].
    - split; [by intros ?%not_elem_of_nil|by intros [? ?]].
    - by split; [intros [? ?]|]. }
  rewrite foldl_snoc. destruct (foldl group_link _ links) as [o m] eqn:E. cbn [group_link].
  destruct (IH o m eq_refl) as (Hnd & Ho & Hd & Hs). intros [= <- <-]. split_and!.
  - case_bool_decide as Hin; [done|]. apply NoDup_app. split_and!; [done| |apply NoDup_singleton].
    intros a Ha ->%list_elem_of_singleton. by apply Hin, Ho.
  - intros a. rewrite lookup_insert_is_Some. case_bool_decide as Hin.
    + rewrite Ho. split; [destruct (decide (lk_AssetID l = a)); auto|]. by intros [<-|[_ ?]].
    + rewrite elem_of_app, list_elem_of_singleton, Ho. destruct (decide (lk_AssetID l = a)); naive_solver.
  - intros a. rewrite List.filter_app. cbn. unfold of_asset at 2. destruct (String.eqb_spec (lk_AssetID l) a) as [<-|Hne].
    + rewrite lookup_insert_eq. cbn. by rewrite Hd.
    + by rewrite lookup_insert_ne, app_nil_r, Hd.
  - intros a. rewrite List.filter_app, lookup_insert_is_Some, Hs. cbn. unfold of_asset at 3.
    destruct (String.eqb_spec (lk_AssetID l) a) as [<-|Hne].
    + split; [|auto]. intros _. by destruct (List.filter _ links).
    + rewrite app_nil_r. naive_solver.
Qed.

(** [total] and [lost] are the counts, and [order] every asset with a link. *)
Lemma tally_links failed links order total lost : foldl (tally failed) ([], ∅, ∅) links = (order, total, lost) ->
  (forall a, a ∈ order <-> 0 < count_if (of_asset a) links) /\
  (forall a, default 0 (total !! a) = count_if (of_asset a) links) /\
  (forall a, default 0 (lost !! a) = count_if (fun l => of_asset a l && bool_decide (lk_FeedID l ∈ failed)) links).
Proof.
  revert order total lost. induction links as [|l links IH] using rev_ind; intros order total lost.
  { intros [= <- <- <-]. cbn. split_and!; intros a; [|by rewrite lookup_empty..]. split; [by intros ?%not_elem_of_nil|lia]. }
  rewrite foldl_snoc. destruct (foldl (tally failed) _ links) as [[o tot] los] eqn:E. cbn [tally].
  destruct (IH o tot los eq_refl) as (Ho & Ht & Hl). intros [= <- <- <-].
  assert (forall p, count_if p (links ++ [l]) = count_if p links + (if p l then 1 else 0)) as Hsnoc.
  { intros p. unfold count_if. rewrite List.filter_app, length_app. cbn. by destruct (p l). }
  split_and!; intros a; rewrite Hsnoc; unfold of_asset at 2 || unfold of_asset at 1; cbv beta;
    destruct (String.eqb_spec (lk_AssetID l) a) as [<-|Hne].
  - destruct (Nat.eqb_spec (default 0 (tot !! lk_AssetID l)) 0); rewrite ?elem_of_app, Ho; [set_solver by lia|]. rewrite Ht in *. lia.
  - destruct (_ =? _)%nat; rewrite ?elem_of_app, ?list_elem_of_singleton, Ho; [|lia]. split; [intros [?|?]; [lia|congruence]|lia].
  - rewrite lookup_insert_eq. cbn. rewrite Ht. lia.
  - rewrite lookup_insert_ne by done. rewrite Ht. lia.
  - case_bool_decide; cbn; [|rewrite Hl; lia]. rewrite lookup_insert_eq. cbn. rewrite Hl. lia.
  - cbn. case_bool_decide; [rewrite lookup_insert_ne by done|]; rewrite Hl; lia.
Qed.

Lemma count_if_elem {A} (p : A -> bool) l : 0 < count_if p l <-> exists x, x ∈ l /\ p x = true.
Proof. rewrite <- Nat.ltb_lt, count_if_pos, existsb_exists. by setoid_rewrite list_elem_of_In. Qed.

(** What is lost with feeds: the assets with an input, all of whose inputs are on them. *)
Lemma AssetsLosingPower_spec t feeds a : feeds <> [] ->
  a ∈ AssetsLosingPower t feeds <->
  (exists l, l ∈ losing_links t /\ lk_AssetID l = a) /\ (forall l, l ∈ losing_links t -> lk_AssetID l = a -> lk_FeedID l ∈ feeds).
Proof.
  intros Hne. unfold AssetsLosingPower. destruct feeds as [|f0 fs] eqn:Ef; [done|]. rewrite <- Ef. clear Ef Hne f0 fs.
  destruct (foldl _ _ _) as [[order total] lost] eqn:E. apply tally_links in E as (Ho & Ht & Hl).
  rewrite list_elem_of_In, filter_In, <- list_elem_of_In, Ho, Hl, Ht, andb_true_iff, Nat.ltb_lt, Nat.eqb_eq.
  rewrite count_if_andb_all, !count_if_elem. setoid_rewrite andb_true_iff. setoid_rewrite of_asset_spec.
  setoid_rewrite bool_decide_eq_true. setoid_rewrite elem_of_list_to_set. naive_solver.
Qed.

(** ** The rows the two queries read *)

Lemma elem_of_losing t l : l ∈ losing_links t <-> exists k i, wt_inputs t !! k = Some i /\ joined_input t (fun _ _ => true) i = Some l.
Proof. unfold losing_links, rows. rewrite elem_of_isort, list_elem_of_omap. setoid_rewrite elem_of_table. naive_solver. Qed.

(** What a link says, where the chain is well formed and nothing hangs off something retired. *)
Lemma losing_chain t l : power_ok t -> hangs_ok t -> l ∈ losing_links t ->
  exists f p, wt_feeds t !! lk_FeedID l = Some f /\ in_use f = true /\ wt_panels t !! lk_PanelID l = Some p /\ in_use p = true /\
    pf_PanelID f = lk_PanelID l /\ pp_SourceID p = lk_SourceID l.
Proof.
  intros Hok Hh (k & i & Hi & Hj)%elem_of_losing. unfold joined_input in Hj.
  destruct (wt_assets t !! _) as [a|]; [|done]. destruct (wt_feeds t !! _) as [f|] eqn:Hf; [|done].
  destruct (wt_panels t !! _) as [p|] eqn:Hp; [|done]. destruct (in_use i && _ && _) eqn:Hc; [|done]. injection Hj as <-. cbn.
  apply andb_true_iff in Hc as [[Hu _]%andb_true_iff _].
  destruct (ho_inputs _ Hh _ _ Hi Hu _ eq_refl) as (f' & Hf' & Hfu). rewrite Hf in Hf'. injection Hf' as <-.
  destruct (ho_feeds _ Hh _ _ Hf Hfu _ eq_refl) as (p' & Hp' & Hpu). rewrite Hp in Hp'. injection Hp' as <-.
  by exists f, p.
Qed.

(** Both reports read the same links then. *)
Lemma traced_is_losing t : hangs_ok t -> traced_links t ≡ₚ losing_links t.
Proof.
  intros Hh. unfold traced_links, losing_links. rewrite !isort_perm.
  enough (forall l : list PowerInput, (forall i, i ∈ l -> exists k, wt_inputs t !! k = Some i) ->
    omap (joined_input t (fun f p => in_use f && in_use p)) l = omap (joined_input t (fun _ _ => true)) l) as He.
  { rewrite He; [done|]. intros i Hi. by apply elem_of_table. }
  intros l. induction l as [|i l IH]; intros Hl; [done|]. cbn [omap list_omap]. rewrite IH by (intros j Hj; apply Hl; by right).
  enough (joined_input t (fun f p => in_use f && in_use p) i = joined_input t (fun _ _ => true) i) as -> by done.
  destruct (Hl i) as [k Hi]; [left|]. unfold joined_input.
  destruct (wt_assets t !! _) as [a|]; [|done]. destruct (wt_feeds t !! _) as [f|] eqn:Hf; [|done].
  destruct (wt_panels t !! _) as [p|] eqn:Hp; [|done]. destruct (in_use i) eqn:Hu; [|done]. cbn [andb].
  destruct (ho_inputs _ Hh _ _ Hi Hu _ eq_refl) as (f' & Hf' & Hfu). rewrite Hf in Hf'. injection Hf' as <-.
  destruct (ho_feeds _ Hh _ _ Hf Hfu _ eq_refl) as (p' & Hp' & Hpu). rewrite Hp in Hp'. injection Hp' as <-.
  by rewrite Hfu, Hpu.
Qed.

(** ** The live supplies, and the feeds below them *)

Lemma insert_each_lookup (l : list PowerSource) (m : gmap string supplyNode) k :
  (exists s, s ∈ l /\ ps_ID s = k /\ foldl (fun out s => <[ps_ID s := supply_node s]> out) m l !! k = Some (supply_node s)) \/
  ((forall s, s ∈ l -> ps_ID s <> k) /\ foldl (fun out s => <[ps_ID s := supply_node s]> out) m l !! k = m !! k).
Proof.
  revert m. induction l as [|s l IH]; intros m; [by right; split; [intros s ?%not_elem_of_nil|]|]. cbn [foldl].
  destruct (IH (<[ps_ID s := supply_node s]> m)) as [(x & Hx & Hid & E)|[Hno E]]; [left; exists x; split; [by right|done]|].
  rewrite E. destruct (decide (ps_ID s = k)) as [Hs|Hs].
  - left. exists s. rewrite Hs, lookup_insert_eq. split; [left|done].
  - right. rewrite lookup_insert_ne by done. split; [|done]. intros x [->|Hx]%elem_of_cons; [done|by apply Hno].
Qed.

Lemma loadSupplyChains_lookup t id : power_ok t -> loadSupplyChains t !! id =
  match wt_sources t !! id with Some s => if in_use s then Some (supply_node s) else None | None => None end.
Proof.
  intros Hok. unfold loadSupplyChains. set (l := List.filter in_use (rows (wt_sources t))).
  assert (forall s, s ∈ l <-> wt_sources t !! ps_ID s = Some s /\ in_use s = true) as Hl.
  { intros s. unfold l, rows. rewrite list_elem_of_In, filter_In, <- list_elem_of_In, elem_of_table. split; intros [Hs Hu]; [|eauto].
    destruct Hs as [k Hk]. split; [|done]. destruct (co_rows _ _ (wk_sources _ Hok) _ _ Hk) as [Hid _]. cbn in Hid. by rewrite Hid. }
  destruct (insert_each_lookup l ∅ id) as [(s & Hs & <- & E)|[Hno E]]; rewrite E.
  - apply Hl in Hs as [-> ->]. done.
  - rewrite lookup_empty. destruct (wt_sources t !! id) as [s|] eqn:Hs; [|done]. destruct (in_use s) eqn:Hu; [|done].
    destruct (co_rows _ _ (wk_sources _ Hok) _ _ Hs) as [Hid _]. cbn in Hid. exfalso. apply (Hno s); [|done].
    apply Hl. by rewrite Hid.
Qed.

Lemma supplies_keys t : power_ok t -> forall k n, loadSupplyChains t !! k = Some n -> sn_ID n = k.
Proof.
  intros Hok k n. rewrite loadSupplyChains_lookup by done. destruct (wt_sources t !! k) as [s|] eqn:Hs; [|done].
  destruct (in_use s); [|done]. intros [= <-]. destruct (co_rows _ _ (wk_sources _ Hok) _ _ Hs) as [Hid _]. exact Hid.
Qed.

Lemma supplies_live t id : power_ok t -> is_Some (loadSupplyChains t !! id) <-> live_source t id.
Proof.
  intros Hok. rewrite loadSupplyChains_lookup by done. unfold live_source, serving.
  destruct (wt_sources t !! id) as [s|]; [|split; [by intros [? ?]|by intros (? & ? & _)]].
  destruct (in_use s) eqn:Hu; [split; eauto|]. split; [by intros [? ?]|]. intros (s' & [= <-] & Hu'). congruence.
Qed.

(** Above a live supply there are live supplies only. *)
Lemma climb_live t m id r : power_ok t -> hangs_ok t -> live_source t id ->
  climb (fed_by (loadSupplyChains t)) m id = Some r -> live_source t r.
Proof.
  intros Hok Hh. revert id. induction m as [|m IH]; intros id Hid; [by intros [= <-]|].
  rewrite climb_fed, loadSupplyChains_lookup by done. destruct Hid as (s & Hs & Hu). rewrite Hs, Hu. cbn.
  destruct (ps_ParentID s) as [p|] eqn:Hp; [|done]. apply IH. by apply (ho_sources _ Hh _ _ Hs Hu).
Qed.

Lemma elem_of_lost_feeds t failed id : power_ok t -> id ∈ lost_feeds t failed <->
  exists f p s, wt_feeds t !! id = Some f /\ in_use f = true /\ wt_panels t !! pf_PanelID f = Some p /\ in_use p = true /\
    pp_SourceID p = Some s /\ s ∈ failed.
Proof.
  intros Hok. unfold lost_feeds, rows. rewrite list_elem_of_omap. setoid_rewrite elem_of_table. split.
  - intros (f & [k Hk] & Hf). destruct (co_rows _ _ (wk_feeds _ Hok) _ _ Hk) as [Hid _]. cbn in Hid. subst k.
    destruct (wt_panels t !! _) as [p|] eqn:Hp; [|done]. destruct (pp_SourceID p) as [s|] eqn:Hs; [|done].
    destruct (in_use f && _ && _) eqn:Hc; [|done]. injection Hf as <-.
    apply andb_true_iff in Hc as [[Hu Hpu]%andb_true_iff Hin%bool_decide_eq_true]. by exists f, p, s.
  - intros (f & p & s & Hf & Hu & Hp & Hpu & Hs & Hin). exists f. split; [by exists id|].
    destruct (co_rows _ _ (wk_feeds _ Hok) _ _ Hf) as [Hid _]. cbn in Hid.
    by rewrite Hp, Hs, Hu, Hpu, bool_decide_eq_true_2, Hid.
Qed.

(** ** The findings of the report *)

Definition no_findings : PowerReport :=
  {| rp_Findings := []; rp_FalseRedundancy := 0; rp_SingleFed := 0; rp_OverAllocated := 0; rp_SharedUpstream := 0;
     rp_Assets := 0; rp_UnmodelledSites := 0; rp_UndeclaredDraw := 0; rp_UnratedFeeds := 0; rp_UnsourcedPanels := 0 |}.

(** The links of an asset, as the report has them. *)
Definition links_of (t : PowerTables) (a : string) : list powerLink := List.filter (of_asset a) (traced_links t).

(** A loop whose turns each add findings of their own. *)
Lemma turns_findings {X} (turn : PowerReport -> X -> PowerReport) (own : X -> list PowerFinding) l r fi :
  (forall r x, rp_Findings (turn r x) = rp_Findings r ++ own x) ->
  fi ∈ rp_Findings (foldl turn r l) <-> fi ∈ rp_Findings r \/ exists x, x ∈ l /\ fi ∈ own x.
Proof.
  intros Hadds. revert r. induction l as [|x l IH]; intros r; cbn [foldl].
  { split; [auto|]. by intros [?|(x & ?%not_elem_of_nil & _)]. }
  rewrite IH, Hadds, elem_of_app. setoid_rewrite elem_of_cons. naive_solver.
Qed.

Section Turns.
Context (rd : Riding) (byAsset : gmap string (list powerLink)) (supplies : gmap string supplyNode).

Lemma asset_turn_adds r a :
  rp_Findings (asset_turn rd byAsset supplies r a) = rp_Findings r ++ rp_Findings (asset_turn rd byAsset supplies no_findings a).
Proof. unfold asset_turn. repeat case_match; cbn; by rewrite ?app_nil_r. Qed.

Lemma asset_turns_findings order r fi : fi ∈ rp_Findings (foldl (asset_turn rd byAsset supplies) r order) <->
  fi ∈ rp_Findings r \/ exists a, a ∈ order /\ fi ∈ rp_Findings (asset_turn rd byAsset supplies no_findings a).
Proof. apply (turns_findings _ (fun a => rp_Findings (asset_turn rd byAsset supplies no_findings a))), asset_turn_adds. Qed.

(** A convergence is of the asset of the turn, when its inputs have something in common. *)
Lemma asset_turn_convergence a b : (exists fi, fi ∈ rp_Findings (asset_turn rd byAsset supplies no_findings a) /\
    fi_Kind fi = FindingFalseRedundancy /\ fi_EntityID fi = b) <->
  a = b /\ 2 <= length (default [] (byAsset !! a)) /\ is_Some (lowestSharedAncestor (default [] (byAsset !! a)) supplies).
Proof.
  unfold asset_turn. destruct (Nat.leb_spec 2 (length (default [] (byAsset !! a)))) as [Hle|Hlt].
  - destruct (lowestSharedAncestor _ _) as [sh|] eqn:E.
    + cbn [report_with rp_Findings no_findings app]. split.
      * intros (fi & ->%list_elem_of_singleton & _ & Hid). by split_and!.
      * intros (-> & _). eexists. split; [by apply list_elem_of_singleton|done].
    + split; [by intros (fi & ?%not_elem_of_nil & _)|by intros (_ & _ & [? ?])].
  - split; [|intros (_ & ? & _); lia]. intros (fi & Hin & Hk & _). exfalso. revert Hin.
    repeat case_match; cbn; try (by intros ?%not_elem_of_nil). intros ->%list_elem_of_singleton. done.
Qed.
End Turns.

(** What the report says of an asset with one input. *)
Lemma asset_turn_single rd byAsset supplies a b : (exists fi, fi ∈ rp_Findings (asset_turn rd byAsset supplies no_findings a) /\
    fi_Kind fi = FindingSingleFed /\ fi_EntityID fi = b) <->
  a = b /\ length (default [] (byAsset !! a)) = 1 /\ 0 < wl_services (powerWorkload rd a).
Proof.
  unfold asset_turn. set (inputs := default [] (byAsset !! a)). destruct (Nat.leb_spec 2 (length inputs)) as [Hle|Hlt].
  - split; [|intros (_ & ? & _); lia]. intros (fi & Hin & Hk & _). exfalso. revert Hin.
    case_match; cbn; [|by intros ?%not_elem_of_nil]. by intros ->%list_elem_of_singleton.
  - destruct inputs as [|l [|l' ls]]; [|destruct (0 <? wl_services (powerWorkload rd a))%nat eqn:E|cbn in Hlt; lia];
      cbn [rp_Findings report_with no_findings app].
    + split; [by intros (fi & ?%not_elem_of_nil & _)|by intros (_ & ? & _)].
    + apply Nat.ltb_lt in E. split.
      * intros (fi & ->%list_elem_of_singleton & _ & Hid). by split_and!.
      * intros (-> & _). eexists. split; [by apply list_elem_of_singleton|done].
    + apply Nat.ltb_ge in E. split; [by intros (fi & ?%not_elem_of_nil & _)|intros (_ & _ & ?); lia].
Qed.

(** A finding of the assets is of one of the two kinds. *)
Lemma asset_turn_kinds rd byAsset supplies a fi : fi ∈ rp_Findings (asset_turn rd byAsset supplies no_findings a) ->
  fi_Kind fi <> FindingOverAllocated.
Proof. unfold asset_turn. repeat case_match; cbn; try (by intros ?%not_elem_of_nil); by intros ->%list_elem_of_singleton. Qed.

Lemma feed_turns_findings t rows r fi : fi ∈ rp_Findings (foldl (feed_turn t) r rows) <->
  fi ∈ rp_Findings r \/ exists row, row ∈ rows /\ fi ∈ rp_Findings (feed_turn t no_findings row).
Proof.
  apply (turns_findings _ (fun row => rp_Findings (feed_turn t no_findings row))). clear. intros r x. unfold feed_turn.
  repeat case_match; cbn; by rewrite ?app_nil_r.
Qed.

(** What the report says of a feed. *)
Lemma feed_turn_finding t row fi : fi ∈ rp_Findings (feed_turn t no_findings row) ->
  fi_Kind fi = FindingOverAllocated /\ fi_EntityID fi = pf_ID (fr_Feed row) /\
  exists usable, UsableVA (fr_Feed row) = Some usable /\ (usable < AllocatedVA t (pf_ID (fr_Feed row)))%Z.
Proof.
  unfold feed_turn. destruct (UsableVA _) as [u|]; cbn [report_with rp_Findings no_findings app]; [|by intros ?%not_elem_of_nil].
  destruct (Z.leb_spec (AllocatedVA t (pf_ID (fr_Feed row))) u); cbn; [by intros ?%not_elem_of_nil|].
  intros ->%list_elem_of_singleton. eauto.
Qed.

Lemma feed_turn_found t row usable : UsableVA (fr_Feed row) = Some usable -> (usable < AllocatedVA t (pf_ID (fr_Feed row)))%Z ->
  exists fi, fi ∈ rp_Findings (feed_turn t no_findings row) /\ fi_Kind fi = FindingOverAllocated /\
    fi_EntityID fi = pf_ID (fr_Feed row).
Proof.
  intros Hu Hlt. unfold feed_turn. rewrite Hu. destruct (Z.leb_spec (AllocatedVA t (pf_ID (fr_Feed row))) usable); [lia|].
  eexists. split; [by apply list_elem_of_singleton|done].
Qed.

(** The turn of one asset, on its own links. *)
Definition turn_of (t : PowerTables) (rd : Riding) (a : string) : list PowerFinding :=
  rp_Findings (asset_turn rd {[a := links_of t a]} (loadSupplyChains t) no_findings a).

(** The findings of the report are those of its loops. *)
Lemma PowerFindings_parts t rd fi : fi ∈ rp_Findings (PowerFindings t rd) <->
  (exists a, links_of t a <> [] /\ fi ∈ turn_of t rd a) \/
  (exists row, row ∈ ListPowerFeeds t "" false /\ fi ∈ rp_Findings (feed_turn t no_findings row)).
Proof.
  unfold PowerFindings. destruct (foldl group_link _ _) as [order byAsset] eqn:E. cbn [rp_Findings].
  apply group_links_spec in E as (_ & Ho & Hd & Hs). rewrite feed_turns_findings, asset_turns_findings. cbn [rp_Findings].
  assert (forall a, rp_Findings (asset_turn rd byAsset (loadSupplyChains t) no_findings a) = turn_of t rd a) as Hturn.
  { intros a. unfold turn_of, asset_turn. by rewrite Hd, lookup_singleton_eq. }
  setoid_rewrite Hturn. setoid_rewrite Ho. setoid_rewrite Hs.
  assert (fi ∈ [] <-> False) as -> by (split; [by apply not_elem_of_nil|done]). unfold links_of. tauto.
Qed.

Lemma turn_of_convergence t rd a b : (exists fi, fi ∈ turn_of t rd a /\ fi_Kind fi = FindingFalseRedundancy /\ fi_EntityID fi = b) <->
  a = b /\ 2 <= length (links_of t a) /\ is_Some (lowestSharedAncestor (links_of t a) (loadSupplyChains t)).
Proof. unfold turn_of. rewrite asset_turn_convergence. by rewrite lookup_singleton_eq. Qed.

Lemma turn_of_single t rd a b : (exists fi, fi ∈ turn_of t rd a /\ fi_Kind fi = FindingSingleFed /\ fi_EntityID fi = b) <->
  a = b /\ length (links_of t a) = 1 /\ 0 < wl_services (powerWorkload rd a).
Proof. unfold turn_of. rewrite asset_turn_single. by rewrite lookup_singleton_eq. Qed.

(** The convergences of the report. *)
Lemma PowerFindings_convergence t rd a : (exists fi, fi ∈ rp_Findings (PowerFindings t rd) /\
    fi_Kind fi = FindingFalseRedundancy /\ fi_EntityID fi = a) <->
  2 <= length (links_of t a) /\ is_Some (lowestSharedAncestor (links_of t a) (loadSupplyChains t)).
Proof.
  setoid_rewrite PowerFindings_parts. split.
  - intros (fi & [(b & _ & Hin)|(row & _ & (Hk' & _)%feed_turn_finding)] & Hk & Hid); [|by rewrite Hk in Hk'].
    destruct (proj1 (turn_of_convergence t rd b a)) as (-> & ?); [by exists fi|done].
  - intros Hc. destruct (proj2 (turn_of_convergence t rd a a)) as (fi & Hin & Hk); [done|]. exists fi. split; [left|done].
    exists a. split; [|done]. intros En. rewrite En in Hc. cbn in Hc. lia.
Qed.

Lemma PowerFindings_single t rd a : (exists fi, fi ∈ rp_Findings (PowerFindings t rd) /\
    fi_Kind fi = FindingSingleFed /\ fi_EntityID fi = a) <->
  length (links_of t a) = 1 /\ 0 < wl_services (powerWorkload rd a).
Proof.
  setoid_rewrite PowerFindings_parts. split.
  - intros (fi & [(b & _ & Hin)|(row & _ & (Hk' & _)%feed_turn_finding)] & Hk & Hid); [|by rewrite Hk in Hk'].
    destruct (proj1 (turn_of_single t rd b a)) as (-> & ?); [by exists fi|done].
  - intros Hc. destruct (proj2 (turn_of_single t rd a a)) as (fi & Hin & Hk); [done|]. exists fi. split; [left|done].
    exists a. split; [|done]. intros En. rewrite En in Hc. cbn in Hc. lia.
Qed.

(** ** The rows of the feeds *)

Lemma feed_row_total t id f : power_ok t -> wt_feeds t !! id = Some f -> exists r, feed_row t f = Some r /\ fr_Feed r = f.
Proof.
  intros Hok Hf. destruct (co_rows _ _ (wk_feeds _ Hok) _ _ Hf) as (_ & _ & _ & _ & [p Hpan]).
  destruct (co_rows _ _ (wk_panels _ Hok) _ _ Hpan) as (_ & _ & _ & [h Hsite] & _).
  eexists. unfold feed_row. by rewrite Hpan, Hsite.
Qed.

Lemma elem_of_ListPowerFeeds t panel r : power_ok t -> r ∈ ListPowerFeeds t panel false <->
  feed_row t (fr_Feed r) = Some r /\ wt_feeds t !! pf_ID (fr_Feed r) = Some (fr_Feed r) /\ in_use (fr_Feed r) = true /\
  (panel = "" \/ pf_PanelID (fr_Feed r) = panel).
Proof.
  intros Hok. unfold ListPowerFeeds, rows. rewrite elem_of_isort, list_elem_of_omap.
  setoid_rewrite list_elem_of_In. setoid_rewrite filter_In. setoid_rewrite <- list_elem_of_In. setoid_rewrite elem_of_table. split.
  - intros (f & ([k Hk] & Hc) & Hr). destruct (co_rows _ _ (wk_feeds _ Hok) _ _ Hk) as [Hid _]. cbn in Hid. subst k.
    apply andb_true_iff in Hc as [Hp Hu]. rewrite orb_true_iff, !String.eqb_eq in Hp.
    assert (fr_Feed r = f) as -> by (unfold feed_row in Hr; repeat case_match; by simplify_eq). by split_and!.
  - intros (Hr & Hf & Hu & Hp). exists (fr_Feed r). split; [|done]. split; [by eexists|].
    rewrite andb_true_iff, !orb_true_iff, !String.eqb_eq. auto.
Qed.

Lemma PowerFindings_over t rd id : power_ok t -> (exists fi, fi ∈ rp_Findings (PowerFindings t rd) /\
    fi_Kind fi = FindingOverAllocated /\ fi_EntityID fi = id) <->
  exists f usable, wt_feeds t !! id = Some f /\ in_use f = true /\ UsableVA f = Some usable /\ (usable < AllocatedVA t id)%Z.
Proof.
  intros Hok. setoid_rewrite PowerFindings_parts. split.
  - intros (fi & [(a & _ & Hin%asset_turn_kinds)|(row & Hrow & (_ & Hid' & u & Hu & Hlt)%feed_turn_finding)] & Hk & Hid); [done|].
    apply elem_of_ListPowerFeeds in Hrow as (_ & Hf & Huse & _); [|done]. rewrite <- Hid, Hid'. eauto 10.
  - intros (f & u & Hf & Huse & Hu & Hlt). destruct (feed_row_total t id f Hok Hf) as (r & Hr & <-).
    destruct (co_rows _ _ (wk_feeds _ Hok) _ _ Hf) as [Hid _]. cbn in Hid. rewrite <- Hid in Hlt, Hf.
    destruct (feed_turn_found t r u Hu Hlt) as (fi & Hin & Hk & He). exists fi. split; [right|by rewrite He, Hid].
    exists r. split; [|done]. apply elem_of_ListPowerFeeds; [done|]. split_and!; auto.
Qed.

(** ** The counts of the report *)

Lemma shared_severity first others supplies path sh : shared_on first others supplies path = Some sh ->
  sa_severity sh = PowerSeverityFault \/ sa_severity sh = PowerSeverityExpected.
Proof.
  induction path as [|id path IH]; cbn; [done|]. repeat case_match; auto; intros [= <-]; auto.
Qed.

Lemma lowest_severity inputs supplies sh : lowestSharedAncestor inputs supplies = Some sh ->
  sa_severity sh = PowerSeverityFault \/ sa_severity sh = PowerSeverityExpected.
Proof. destruct inputs; [done|]. apply shared_severity. Qed.

(** A report with one more finding, counted under its kind. *)
Lemma counted_with r f a b c d e : counted r ->
  a = count_if (of_kind FindingFalseRedundancy PowerSeverityFault) f -> b = count_if (of_kind FindingSingleFed PowerSeverityFault) f ->
  c = count_if (of_kind FindingOverAllocated "") f -> d = count_if (of_kind FindingFalseRedundancy PowerSeverityExpected) f ->
  counted (report_with f a b c d e r).
Proof. intros [E1 E2 E3 E4] -> -> -> ->. split; cbn [report_with rp_Findings rp_FalseRedundancy rp_SingleFed rp_OverAllocated rp_SharedUpstream]; rewrite count_if_app; congruence. Qed.

Lemma asset_turn_counted rd byAsset supplies r a : counted r -> counted (asset_turn rd byAsset supplies r a).
Proof.
  intros Hr. unfold asset_turn. destruct (_ <=? _)%nat.
  - destruct (lowestSharedAncestor _ _) as [sh|] eqn:E; [|done].
    destruct (lowest_severity _ _ _ E) as [Hs|Hs]; rewrite Hs; (apply counted_with; try done);
      unfold count_if, of_kind; cbn; by rewrite Hs.
  - repeat case_match; try done. by apply counted_with.
Qed.

Lemma feed_turn_counted t r row : counted r -> counted (feed_turn t r row).
Proof. intros Hr. unfold feed_turn. repeat case_match; try done; by apply counted_with. Qed.

Lemma PowerFindings_counted t rd : counted (PowerFindings t rd).
Proof.
  unfold PowerFindings. destruct (foldl group_link _ _) as [order byAsset].
  assert (forall l r, counted r -> counted (foldl (asset_turn rd byAsset (loadSupplyChains t)) r l)) as Ha.
  { intros l. induction l as [|a l IH]; intros r Hr; [done|]. by apply IH, asset_turn_counted. }
  assert (forall l r, counted r -> counted (foldl (feed_turn t) r l)) as Hf.
  { intros l. induction l as [|f l IH]; intros r Hr; [done|]. by apply IH, feed_turn_counted. }
  match goal with |- counted {| rp_Findings := rp_Findings ?r |} => assert (counted r) as [] by (by apply Hf, Ha) end.
  by split.
Qed.

(** ** What fails with one thing *)

Lemma AssetsLosingPower_nil t : AssetsLosingPower t [] = [].
Proof. done. Qed.

Lemma elem_of_links_of t a l : hangs_ok t -> l ∈ links_of t a <-> l ∈ losing_links t /\ lk_AssetID l = a.
Proof.
  intros Hh. unfold links_of. by rewrite list_elem_of_In, filter_In, <- list_elem_of_In, of_asset_spec, (traced_is_losing t Hh).
Qed.

(** Feeds take an asset down exactly when it has inputs and they are all on them. *)
Lemma losing_feeds t feeds a : hangs_ok t ->
  a ∈ AssetsLosingPower t feeds <-> links_of t a <> [] /\ forall l, l ∈ links_of t a -> lk_FeedID l ∈ feeds.
Proof.
  intros Hh. destruct (decide (feeds = [])) as [->|Hne].
  - split; [by intros ?%not_elem_of_nil|]. intros [Hl Ha]. destruct (links_of t a) as [|l ls] eqn:E; [done|].
    exfalso. by eapply not_elem_of_nil, (Ha l); left.
  - rewrite AssetsLosingPower_spec by done. setoid_rewrite elem_of_links_of; [|done]. split; intros [H1 H2]; split; try naive_solver.
    + destruct H1 as (l & Hl & Ha). intros E. assert (l ∈ links_of t a) as Hin by (by apply elem_of_links_of).
      rewrite E in Hin. by apply not_elem_of_nil in Hin.
    + destruct (links_of t a) as [|l ls] eqn:E; [done|]. exists l. apply elem_of_links_of; [done|]. rewrite E. left.
Qed.

Lemma elem_of_panel_feeds t panel id : power_ok t -> panel <> "" -> id ∈ panel_feeds t panel <->
  exists f, wt_feeds t !! id = Some f /\ in_use f = true /\ pf_PanelID f = panel.
Proof.
  intros Hok Hne. unfold panel_feeds. rewrite list_elem_of_fmap. setoid_rewrite elem_of_ListPowerFeeds; [|done]. split.
  - intros (r & -> & _ & Hf & Hu & [?|Hp]); [done|]. cbn. eauto.
  - intros (f & Hf & Hu & Hp). destruct (feed_row_total t id f Hok Hf) as (r & Hr & <-).
    destruct (co_rows _ _ (wk_feeds _ Hok) _ _ Hf) as [Hid _]. cbn in Hid. subst id. exists r. split_and!; auto.
Qed.

(** The links of an asset have a row at every step of their chain. *)
Lemma link_rows t a l : power_ok t -> hangs_ok t -> l ∈ links_of t a ->
  exists f p, wt_feeds t !! lk_FeedID l = Some f /\ in_use f = true /\ wt_panels t !! lk_PanelID l = Some p /\ in_use p = true /\
    pf_PanelID f = lk_PanelID l /\ pp_SourceID p = lk_SourceID l.
Proof. intros Hok Hh [Hl _]%elem_of_links_of; [|done]. by apply losing_chain. Qed.

Section Outage.
Context (t : PowerTables) (orders : nat -> list (string * supplyNode)).
Context (Hok : power_ok t) (Hh : hangs_ok t) (Hshort : short_chains (loadSupplyChains t)).
Context (Horders : forall n, orders n ≡ₚ map_to_list (loadSupplyChains t)).

(** Supplies take an asset down exactly when the panel of every input is at or below one of them. *)
Lemma losing_supplies ids a : a ∈ AssetsLosingSupply t orders ids <->
  links_of t a <> [] /\ forall l, l ∈ links_of t a -> exists c, lk_SourceID l = Some c /\
    below_supply (loadSupplyChains t) (list_to_set ids) c.
Proof.
  destruct ids as [|id ids].
  { split; [by intros ?%not_elem_of_nil|]. intros [Hne Hall]. destruct (links_of t a) as [|l ls]; [done|].
    destruct (Hall l) as (c & _ & m & r & _ & ?%not_elem_of_empty); [left|done]. }
  assert (AssetsLosingSupply t orders (id :: ids) =
    AssetsLosingPower t (lost_feeds t (spreading supplyDepthLimit orders (list_to_set (id :: ids))))) as ->.
  { unfold AssetsLosingSupply. by destruct (lost_feeds t _). }
  set (roots := list_to_set (id :: ids)). rewrite losing_feeds by done.
  enough (forall l, l ∈ links_of t a -> lk_FeedID l ∈ lost_feeds t (spreading supplyDepthLimit orders roots) <->
    exists c, lk_SourceID l = Some c /\ below_supply (loadSupplyChains t) roots c) as He by naive_solver.
  intros l Hl. destruct (link_rows t a l Hok Hh Hl) as (f & p & Hf & Hu & Hp & Hpu & Epan & Esrc).
  rewrite elem_of_lost_feeds by done. setoid_rewrite (spreading_below _ _ _ Horders Hshort). rewrite <- Esrc. split.
  - intros (f' & p' & c & Hf' & _ & Hp' & _ & Hc & Hb). rewrite Hf in Hf'. injection Hf' as <-.
    rewrite Epan, Hp in Hp'. injection Hp' as <-. by exists c.
  - intros (c & Hc & Hb). exists f, p, c. rewrite Epan. by split_and!.
Qed.

Lemma losing_supply s a : a ∈ AssetsLosingSupply t orders [s] <->
  links_of t a <> [] /\ forall l, l ∈ links_of t a -> exists m c, lk_SourceID l = Some c /\
    climb (fed_by (loadSupplyChains t)) m c = Some s.
Proof.
  rewrite losing_supplies. unfold below_supply. setoid_rewrite elem_of_list_to_set. setoid_rewrite list_elem_of_singleton. naive_solver.
Qed.

(** The path of an input: its feed, its panel and the supplies above it. *)
Lemma elem_of_supplyPath l id : id ∈ supplyPath l (loadSupplyChains t) <->
  id = lk_FeedID l \/ id = lk_PanelID l \/
  (is_Some (loadSupplyChains t !! id) /\ exists m c, lk_SourceID l = Some c /\ climb (fed_by (loadSupplyChains t)) m c = Some id).
Proof.
  unfold supplyPath. rewrite !elem_of_cons, elem_of_supply_chain by by apply supplies_keys. split.
  - intros [?|[?|(m & c & _ & ? & ? & ?)]]; [auto..|]. right; right. eauto.
  - intros [?|[?|(? & m & c & Hc & Hm)]]; [auto..|]. right; right. exists m, c. split_and!; [|done..].
    destruct (decide (m < supplyDepthLimit)) as [|Hge]; [done|]. exfalso.
    replace m with (supplyDepthLimit + (m - supplyDepthLimit)) in Hm by lia. by rewrite climb_add, Hshort in Hm.
Qed.
End Outage.

(** * Theorems *)

(** C18. The report of the power chain finds that the inputs of an asset converge exactly
    when there is one thing whose failure takes the asset down: where the chain is well
    formed, nothing in use hangs off something retired and no chain of supplies is longer
    than the 32 the walks follow, an asset with two inputs or more has a convergence among
    its findings if and only if it is lost with some one feed, with the feeds of some one
    panel or with some one supply, in whatever order the supplies are read. *)
Theorem convergence_is_single_failure t rd orders a :
  power_ok t -> hangs_ok t -> distinct_ids t -> short_chains (loadSupplyChains t) ->
  (forall n, orders n ≡ₚ map_to_list (loadSupplyChains t)) -> 2 <= length (links_of t a) ->
  (exists fi, fi ∈ rp_Findings (PowerFindings t rd) /\ fi_Kind fi = FindingFalseRedundancy /\ fi_EntityID fi = a) <->
  single_failure t orders a.
Proof.
  intros Hok Hh Hd Hshort Horders Hlen. rewrite PowerFindings_convergence.
  assert (links_of t a <> []) as Hne by (intros E; rewrite E in Hlen; cbn in Hlen; lia).
  rewrite lowestSharedAncestor_spec by (done || by apply supplies_keys).
  setoid_rewrite (elem_of_supplyPath t Hok Hshort). unfold single_failure. setoid_rewrite losing_feeds; [|done..].
  setoid_rewrite (losing_supply t orders Hok Hh Hshort Horders). split.
  - intros [_ [id Hid]].
    assert (is_Some (loadSupplyChains t !! id) -> is_Some (wt_sources t !! id)) as Hsrc.
    { intros (s & Hs & _)%supplies_live; [by exists s|done]. }
    destruct (links_of t a) as [|l0 ls] eqn:E; [done|]. rewrite <- E in *.
    assert (l0 ∈ links_of t a) as H0 by (rewrite E; left). destruct (link_rows t a l0 Hok Hh H0) as (f0 & p0 & Hf0 & _ & Hp0 & _).
    destruct (Hid l0 H0) as [->|[->|[Hs _]]].
    + left. exists (lk_FeedID l0). split; [done|]. intros l Hl. apply list_elem_of_singleton.
      destruct (link_rows t a l Hok Hh Hl) as (_ & p & _ & _ & Hp & _). destruct (Hid l Hl) as [?|[E1|[Hs _]]]; [done|..]; exfalso.
      * rewrite <- E1, (di_feed_panel t Hd) in Hp; [done|by exists f0].
      * apply Hsrc in Hs as [s Hs]. rewrite (di_feed_source t Hd) in Hs; [done|by exists f0].
    + right; left. exists (lk_PanelID l0). split_and!; [by exists p0|done|]. intros l Hl.
      destruct (link_rows t a l Hok Hh Hl) as (f & p & Hf & Hu & _ & _ & Hpan & _).
      apply elem_of_panel_feeds; [done|by intros En; rewrite En, (di_panel_named t Hd) in Hp0|].
      exists f. split_and!; [done..|]. rewrite Hpan. destruct (Hid l Hl) as [E1|[?|[Hs _]]]; [|done|]; exfalso.
      * rewrite E1, (di_feed_panel t Hd) in Hp0; [done|by exists f].
      * apply Hsrc in Hs as [s Hs]. rewrite (di_panel_source t Hd) in Hs; [done|by exists p0].
    + right; right. exists id. split; [done|]. intros l Hl. apply Hsrc in Hs as [s Hs].
      destruct (link_rows t a l Hok Hh Hl) as (f & p & Hf & _ & Hp & _). destruct (Hid l Hl) as [E1|[E1|[_ Hm]]]; [..|done]; exfalso.
      * rewrite (di_feed_source t Hd) in Hs; [done|rewrite E1; by exists f].
      * rewrite (di_panel_source t Hd) in Hs; [done|rewrite E1; by exists p].
  - intros [(feed & _ & Hall)|[(panel & [p Hp] & _ & Hall)|(s & _ & Hall)]]; (split; [done|]).
    + exists feed. intros l Hl%Hall%list_elem_of_singleton. auto.
    + exists panel. intros l Hl. right; left. pose proof (Hall l Hl) as (f & Hf & _ & Hpan)%elem_of_panel_feeds;
        [|done|by intros En; rewrite En, (di_panel_named t Hd) in Hp].
      destruct (link_rows t a l Hok Hh Hl) as (f' & p' & Hf' & _ & _ & _ & Hpan' & _). congruence.
    + exists s. intros l Hl. right; right. destruct (Hall l Hl) as (m & c & Hc & Hm). split; [|eauto].
      apply supplies_live; [done|]. apply (climb_live t m c); [done..| |done].
      destruct (link_rows t a l Hok Hh Hl) as (f & p & _ & _ & Hp & Hu & _ & Hsrc). apply (ho_panels _ Hh _ _ Hp Hu). congruence.
Qed.

(** Failed supplies take down exactly the assets all of whose live inputs hang below
    them, at whatever depth and in whatever order the supplies are read: an asset with one
    input elsewhere survives. *)
Theorem AssetsLosingSupply_exact t orders ids a :
  power_ok t -> hangs_ok t -> short_chains (loadSupplyChains t) ->
  (forall n, orders n ≡ₚ map_to_list (loadSupplyChains t)) ->
  a ∈ AssetsLosingSupply t orders ids <->
  links_of t a <> [] /\ forall l, l ∈ links_of t a -> exists c, lk_SourceID l = Some c /\
    below_supply (loadSupplyChains t) (list_to_set ids) c.
Proof. intros Hok Hh Hshort Horders. by apply losing_supplies. Qed.

(** What the report says of the chain is exact: an asset is single-fed when it has one
    live input and carries a service, a feed is over its limit when it is live and rated and
    its live inputs declare more than it may carry, and every count is the number of the
    findings it is the count of, convergences by design apart from those that are faults. *)
Theorem PowerFindings_exact t rd : power_ok t ->
  (forall a, (exists fi, fi ∈ rp_Findings (PowerFindings t rd) /\ fi_Kind fi = FindingSingleFed /\ fi_EntityID fi = a) <->
     length (links_of t a) = 1 /\ 0 < wl_services (powerWorkload rd a)) /\
  (forall id, (exists fi, fi ∈ rp_Findings (PowerFindings t rd) /\ fi_Kind fi = FindingOverAllocated /\ fi_EntityID fi = id) <->
     exists f usable, wt_feeds t !! id = Some f /\ in_use f = true /\ UsableVA f = Some usable /\ (usable < AllocatedVA t id)%Z) /\
  counted (PowerFindings t rd).
Proof.
  intros Hok. split_and!; [intros a; apply PowerFindings_single|intros id; by apply PowerFindings_over|apply PowerFindings_counted].
Qed.

(** * Samples *)

(** Two conditions of the theorems, as tests on the tables at hand. *)
Lemma short_chains_check supplies :
  map_Forall (fun id (_ : supplyNode) => climb (fed_by supplies) supplyDepthLimit id = None) supplies -> short_chains supplies.
Proof.
  intros Hs id. destruct (supplies !! id) as [n|] eqn:E; [by eapply Hs|].
  change supplyDepthLimit with (S 31). by rewrite climb_fed, E.
Qed.

Lemma distinct_ids_check t :
  map_Forall (fun id (_ : PowerFeed) => wt_panels t !! id = None /\ wt_sources t !! id = None) (wt_feeds t) ->
  map_Forall (fun id (_ : PowerPanel) => wt_sources t !! id = None /\ id <> "") (wt_panels t) -> distinct_ids t.
Proof.
  intros Hf Hp. split; [intros id [f Hid]..|].
  - by destruct (Hf _ _ Hid).
  - by destruct (Hf _ _ Hid).
  - by destruct (Hp _ _ Hid).
  - destruct (wt_panels t !! "") as [p|] eqn:E; [|done]. by destruct (Hp _ _ E).
Qed.

Definition no_load : Riding := {| rd_closure := []; rd_instances := []; rd_services := ∅ |}.
Definition one_service : Riding :=
  {| rd_closure := [("srv", "srv")]; rd_instances := [("srv", "mail", "active")]; rd_services := {["mail" := (1%Z, "active")]} |}.
Definition map_order (t : PowerTables) (n : nat) : list (string * supplyNode) := map_to_list (loadSupplyChains t).

Lemma powered_short : short_chains (loadSupplyChains (st_tables powered)).
Proof. apply short_chains_check. apply (bool_decide_unpack _). vm_compute. exact I. Qed.

Lemma powered_distinct : distinct_ids (st_tables powered).
Proof. apply distinct_ids_check; apply (bool_decide_unpack _); vm_compute; exact I. Qed.

(** The two inputs of the server meet at the mains alone, so the server is lost with them:
    the UPS takes one side only. *)
Lemma convergence_is_single_failure_witness :
  AssetsLosingSupply (st_tables powered) (map_order (st_tables powered)) ["ups"] = [] /\
  single_failure (st_tables powered) (map_order (st_tables powered)) "srv".
Proof.
  split; [vm_compute; reflexivity|].
  apply (proj1 (convergence_is_single_failure (st_tables powered) no_load (map_order (st_tables powered)) "srv"
    powered_ok powered_hangs powered_distinct powered_short (fun _ => Permutation_refl _) ltac:(vm_compute; lia))).
  eexists. split; [vm_compute; left|]. split; reflexivity.
Defined.

Lemma AssetsLosingSupply_exact_witness :
  links_of (st_tables powered) "srv" <> [] /\ "srv" ∈ AssetsLosingSupply (st_tables powered) (map_order (st_tables powered)) ["mains"] /\
  ~ "srv" ∈ AssetsLosingSupply (st_tables powered) (map_order (st_tables powered)) ["ups"].
Proof.
  assert (links_of (st_tables powered) "srv" <> []) as Hne by (vm_compute; discriminate).
  split; [exact Hne|]. split.
  - apply (AssetsLosingSupply_exact (st_tables powered) (map_order (st_tables powered)) ["mains"] "srv"
      powered_ok powered_hangs powered_short (fun _ => Permutation_refl _)).
    split; [exact Hne|]. intros l Hl. vm_compute in Hl.
    apply elem_of_cons in Hl as [->|Hl]; [exists "ups"|apply elem_of_cons in Hl as [->|Hl]; [exists "mains"|by apply not_elem_of_nil in Hl]].
    + split; [reflexivity|]. exists 1, "mains". split; [vm_compute; reflexivity|]. by apply elem_of_list_to_set, list_elem_of_singleton.
    + split; [reflexivity|]. exists 0, "mains". split; [reflexivity|]. by apply elem_of_list_to_set, list_elem_of_singleton.
  - intros Hin. vm_compute in Hin. by apply not_elem_of_nil in Hin.
Defined.

(** The feed that carries the server alone is over its limit once its rating is cut down. *)
Definition overloaded : Store PowerTables :=
  foldl wire powered [OpRetireInput "B";
    OpUpdateFeed {| pf_ID := "fa"; pf_PanelID := "pa"; pf_Name := "fa"; pf_Rating := rated 230 4; pf_MaxUtilisation := 80;
      pf_Notes := None; pf_Lifecycle := LifecycleActive; pf_CreatedAt := "t0"; pf_UpdatedAt := "t0"; pf_RowVersion := 1 |}].

Lemma PowerFindings_exact_witness :
  (exists fi, fi ∈ rp_Findings (PowerFindings (st_tables overloaded) one_service) /\
     fi_Kind fi = FindingSingleFed /\ fi_EntityID fi = "srv") /\
  (exists fi, fi ∈ rp_Findings (PowerFindings (st_tables overloaded) one_service) /\
     fi_Kind fi = FindingOverAllocated /\ fi_EntityID fi = "fa").
Proof.
  assert (power_ok (st_tables overloaded)) as Hok by (unfold overloaded; cbn [foldl]; do 2 apply wire_ok; exact powered_ok).
  pose proof (PowerFindings_exact (st_tables overloaded) one_service Hok) as (Hs & Ho & _). split.
  - apply Hs. vm_compute. lia.
  - apply Ho. eexists _, 736%Z. split; [vm_compute; reflexivity|]. split_and!; vm_compute; reflexivity.
Defined.

(** ** Where the walks stop *)

(** A chain of supplies, each behind the last: [prefix 1] on a supply, to [prefix n]. *)
Definition stage (prefix : string) (n : nat) : string := prefix +++ Itoa (Z.of_nat n).
Definition chain_ops (prefix : string) (n : nat) : list PowerOp :=
  (fun k => OpCreateSource (sample_source (stage prefix k) (Some (if (k =? 1)%nat then "mains" else stage prefix (k - 1))) "ups"))
    <$> seq 1 n.

(** A server on the ends of two chains that share the mains: 33 supplies from either end. *)
Definition deep_wiring : list PowerOp :=
  OpCreateSource (sample_source "mains" None "utility") :: chain_ops "a" 32 ++ chain_ops "b" 32 ++
  [OpCreatePanel (sample_panel "pa" (Some (stage "a" 32))); OpCreatePanel (sample_panel "pb" (Some (stage "b" 32)));
   OpCreateFeed (sample_feed "fa" "pa" LifecycleActive 1); OpCreateFeed (sample_feed "fb" "pb" LifecycleActive 1);
   OpCreateInput (sample_input "A" "srv" "fa"); OpCreateInput (sample_input "B" "srv" "fb")].

(** The guard on creation takes a chain of 33 supplies, which the path of an input does not
    follow to its top: the report has no finding for a server that the mains take down. *)
Lemma deep_chain_not_traced :
  let t := st_tables (foldl wire unpowered deep_wiring) in
  Datatypes.length (links_of t "srv") = 2 /\ rp_Findings (PowerFindings t no_load) = [] /\
  AssetsLosingSupply t (map_order t) ["mains"] = ["srv"].
Proof. cbv zeta. split_and!; vm_compute; reflexivity. Qed.

(** ** An input on a feed retired by an edit *)

(** The report reads the other input as the only one, and the outage of its feed still
    counts the input on the retired feed as one that carries the server. *)
Lemma retired_feed_still_carries :
  let t := st_tables (wire powered (OpUpdateFeed (sample_feed "fb" "pb" LifecycleRetired 1))) in
  (fi_Kind <$> rp_Findings (PowerFindings t one_service)) = [FindingSingleFed] /\
  AssetsLosingPower t ["fa"] = [] /\ AssetsLosingPower t ["fa"; "fb"] = ["srv"] /\
  AssetsLosingSupply t (map_order t) ["mains"] = [].
Proof. cbv zeta. split_and!; vm_compute; reflexivity. Qed.
