(* ===== verification/Escalation.v ===== *)
(** What project owners can bring about: the authorizer's reads on the tables of
    projects, what each request may leave behind under a scoped permit, and the
    theorem that no team of project owners can widen its own reach.
    [internal/auth/permit.go] on [internal/store/projects.go] and
    [internal/store/user_projects.go], with the creations of [circuits.go], [assets.go]
    and [services.go].

    A reach is computed from the projects, the assignments and the links. The requests of
    a session are those that write one of these tables: the operations of [Projects] and
    the creations of an asset, a service or a circuit inside a project. The latter two
    kinds run on the tables of their own components; [sees_assets] and [sees_services] say
    when those are the same database as the tables of projects. *)
From Stdlib Require Import String Ascii ZArith Lia.
From stdpp Require Import base gmap strings list.
From S2P Require Import Prelude Text Errors Status Timestamps Actors Permits ChangeLog Assets Containment AssetWrites Services Projects.

#[local] Open Scope string_scope.
#[local] Open Scope list_scope.

(** * Definitions *)

(** ** One database, seen by three components *)

(** The links of the projects, with those of one table read from elsewhere. *)
Definition relinked (t : LinkTable) (owners : gmap (string * string) ProjectLink)
    (links : gmap (LinkTable * string * string) ProjectLink) : gmap (LinkTable * string * string) ProjectLink :=
  map_imap (fun k l => if bool_decide (k.1.1 = t) then None else Some l) links ∪
  kmap (fun k : string * string => (t, k.1, k.2)) owners.

(** The tables of projects and those of assets, or of services, are of one database. *)
Record sees_assets (e : Estate) (t : AssetTables) : Prop := {
  sa_assets : forall id, id ∈ es_assets e <-> is_Some (pt_assets t !! id);
  sa_projects : forall P, is_Some (es_projects e !! P) <-> P ∈ pt_projects t;
  sa_links : forall P id, es_links e !! (ProjectAsset, P, id) = pt_owners t !! (P, id)
}.
Record sees_services (e : Estate) (t : ServiceTables) : Prop := {
  ss_services : forall id, id ∈ es_services e <-> is_Some (vt_services t !! id);
  ss_projects : forall P, is_Some (es_projects e !! P) <-> P ∈ vt_projects t;
  ss_links : forall P id, es_links e !! (ProjectService, P, id) = vt_owners t !! (P, id)
}.

(** The tables of projects after a request on those of assets, or of services. *)
Definition after_assets (e : Estate) (t : AssetTables) : Estate :=
  {| es_projects := es_projects e; es_links := relinked ProjectAsset (pt_owners t) (es_links e);
     es_assignments := es_assignments e; es_circuits := es_circuits e; es_assets := dom (pt_assets t);
     es_services := es_services e; es_providers := es_providers e; es_users := es_users e |}.
Definition after_services (e : Estate) (t : ServiceTables) : Estate :=
  {| es_projects := es_projects e; es_links := relinked ProjectService (vt_owners t) (es_links e);
     es_assignments := es_assignments e; es_circuits := es_circuits e; es_assets := es_assets e;
     es_services := dom (vt_services t); es_providers := es_providers e; es_users := es_users e |}.

Section Sessions.
Context `{Unicode} `{CodeRunes} (NewID : nat -> string).

(** A history of a team of people who are not administrators: they obtain permits, each
    from the tables as they then are, and use any permit they hold, old or new, for any
    operation on projects and for creating assets and services in projects. [seen] is
    what the request for an asset read before its transaction. *)
Inductive session (a : Authorizer) (team : gset string) (st0 : Store Estate) :
    list Permit -> Store Estate -> Prop :=
  | session_start : session a team st0 [] st0
  | session_mint permits st u p :
      session a team st0 permits st -> us_ID u ∈ team -> isAdministrator a u = false ->
      MintPermit a st (Some u) = inr p -> session a team st0 (p :: permits) st
  | session_op permits st op fates p now :
      session a team st0 permits st -> p ∈ permits ->
      session a team st0 permits (snd (run_op NewID op fates (Some p) now st))
  | session_asset permits st t seen fate p now projectID asset :
      session a team st0 permits st -> p ∈ permits -> sees_assets (st_tables st) t ->
      let st' := snd (CreateAssetInProject NewID seen fate (Some p) now projectID asset
                        (MkStore t (st_log st) (st_ids st))) in
      session a team st0 permits (MkStore (after_assets (st_tables st) (st_tables st')) (st_log st') (st_ids st'))
  | session_service permits st t fate p now projectID service :
      session a team st0 permits st -> p ∈ permits -> sees_services (st_tables st) t ->
      let st' := snd (CreateServiceInProject NewID fate (Some p) now projectID service
                        (MkStore t (st_log st) (st_ids st))) in
      session a team st0 permits (MkStore (after_services (st_tables st) (st_tables st')) (st_log st') (st_ids st')).
End Sessions.

Definition active (l : ProjectLink) : Prop := pl_Lifecycle l = LifecycleActive.

(** Somebody holds the project: an active assignment, and the project is not
    retired. *)
Definition held (users : string -> Prop) (e : Estate) (projectID : string) : Prop :=
  exists a pr, a ∈ es_assignments e /\ users (up_UserID a) /\ up_Lifecycle a = LifecycleActive /\
    up_ProjectID a = projectID /\ es_projects e !! projectID = Some pr /\ ProjectRetired pr = false.

(** An entity somebody's projects link to. *)
Definition reaches (users : string -> Prop) (e : Estate) (t : LinkTable) (id : string) : Prop :=
  exists P l, held users e P /\ es_links e !! (t, P, id) = Some l /\ active l.

(** Identifiers without the separator of link rows, as generated ones are. *)
Definition plain_ids (e : Estate) : Prop :=
  forall P, is_Some (es_projects e !! P) -> contains "/" P = false.

(** * Lemmas *)

(** ** The authorizer's reads *)

Lemma projects_for_user_spec e u P :
  P ∈ projects_for_user e u <-> held (fun v => v = u) e P.
Proof.
  unfold projects_for_user. rewrite isort_perm, list_elem_of_omap. split.
  - intros (a & Ha & Hs). destruct (String.eqb_spec (up_UserID a) u) as [Hu|]; [|done].
    destruct (String.eqb_spec (up_Lifecycle a) LifecycleActive) as [Hl|]; [|done]. cbn in Hs.
    destruct (es_projects e !! up_ProjectID a) as [pr|] eqn:Hp; [|done].
    destruct (ProjectRetired pr) eqn:Hr; [done|]. injection Hs as <-. by exists a, pr.
  - intros (a & pr & Ha & Hu & Hl & <- & Hp & Hr). exists a. split; [done|].
    rewrite Hu, Hl, !String.eqb_refl. cbn. by rewrite Hp, Hr.
Qed.

Lemma chunks_elem fuel ids s : (length ids <= fuel)%nat -> s ∈ concat (chunks fuel ids) <-> s ∈ ids.
Proof.
  revert ids. induction fuel as [|fuel IH]; intros ids Hf.
  - destruct ids; [done|cbn in Hf; lia].
  - destruct ids as [|i ids]; [done|]. cbn [chunks concat]. rewrite elem_of_app, IH.
    + rewrite <- elem_of_app. by rewrite firstn_skipn.
    + rewrite length_skipn. unfold idChunkSize. cbn [length] in *. lia.
Qed.

Lemma chunkIDs_elem ids s : s ∈ concat (chunkIDs ids) <-> s ∈ ids.
Proof.
  unfold chunkIDs. destruct (length ids <=? idChunkSize)%nat; [cbn; by rewrite app_nil_r|].
  by apply chunks_elem.
Qed.

(** The rows a chunk adds. *)
Definition linked_row (t : LinkTable) (e : Estate) (chunk : list string)
    (kl : LinkTable * string * string * ProjectLink) : bool :=
  let '((t', p, id), l) := kl in
  bool_decide (t' = t) && containsString chunk p && String.eqb (pl_Lifecycle l) LifecycleActive &&
  match es_projects e !! p with Some pr => negb (ProjectRetired pr) | None => false end.

Lemma dedupe_elem {A} (f : A -> bool) (g : A -> string) l out id :
  id ∈ foldl (fun out x => if f x && negb (containsString out (g x)) then out ++ [g x] else out) out l <->
  id ∈ out \/ exists x, x ∈ l /\ f x = true /\ g x = id.
Proof.
  revert out. induction l as [|x l IH]; intros out; cbn [foldl].
  - split; [auto|]. intros [?|(x & Hx & _)]; [done|by apply elem_of_nil in Hx].
  - rewrite IH. destruct (f x) eqn:Hf; cbn [andb].
    + destruct (containsString out (g x)) eqn:Hc; cbn [negb].
      * apply containsString_elem in Hc. split.
        -- intros [?|(y & Hy & Hfy & <-)]; [by left|]. right. exists y. rewrite elem_of_cons. auto.
        -- intros [?|(y & Hy & Hfy & <-)]; [by left|]. rewrite elem_of_cons in Hy.
           destruct Hy as [->|Hy]; [by left|right; eauto].
      * rewrite elem_of_app, list_elem_of_singleton. split.
        -- intros [[?| ->]|(y & Hy & Hfy & <-)]; [by left|right; exists x; rewrite elem_of_cons; auto|].
           right. exists y. rewrite elem_of_cons. auto.
        -- intros [?|(y & Hy & Hfy & <-)]; [auto|]. rewrite elem_of_cons in Hy.
           destruct Hy as [->|Hy]; [auto|right; eauto].
    + split.
      * intros [?|(y & Hy & Hfy & <-)]; [by left|]. right. exists y. rewrite elem_of_cons. auto.
      * intros [?|(y & Hy & Hfy & <-)]; [by left|]. rewrite elem_of_cons in Hy.
        destruct Hy as [->|Hy]; [congruence|right; eauto].
Qed.

Lemma entityIDsForProjects_spec t e ps id :
  id ∈ entityIDsForProjects t e ps <->
  exists P l pr, P ∈ ps /\ es_links e !! (t, P, id) = Some l /\ active l /\
    es_projects e !! P = Some pr /\ ProjectRetired pr = false.
Proof.
  assert (Hrow : forall chunk, (exists x, x ∈ map_to_list (es_links e) /\ linked_row t e chunk x = true /\
      (snd (fst x)) = id) <->
    exists P l pr, P ∈ chunk /\ es_links e !! (t, P, id) = Some l /\ active l /\
      es_projects e !! P = Some pr /\ ProjectRetired pr = false).
  { intros chunk. split.
    - intros ([[[t' P] id'] l] & Hin%elem_of_map_to_list & Hl & Heq). cbn in Heq. subst id'.
      unfold linked_row in Hl. rewrite !andb_true_iff, bool_decide_eq_true, containsString_elem in Hl.
      destruct Hl as (((-> & HP) & Hact) & Hpr).
      destruct (es_projects e !! P) as [pr|] eqn:Ep; [|done]. apply negb_true_iff in Hpr.
      exists P, l, pr. split_and!; try done. by apply String.eqb_eq in Hact.
    - intros (P & l & pr & HP & Hl & Ha & Hp & Hr). exists ((t, P, id), l).
      split; [by apply elem_of_map_to_list|]. split; [|done]. unfold linked_row.
      rewrite !andb_true_iff, bool_decide_eq_true, containsString_elem, Hp, Hr. unfold active in Ha.
      by rewrite Ha. }
  unfold entityIDsForProjects. destruct ps as [|p0 ps']; [|].
  { split; [by intros ?%elem_of_nil|]. by intros (P & l & pr & ?%elem_of_nil & _). }
  set (ps := p0 :: ps'). set (rows := map_to_list (es_links e)) in *.
  assert (Hout : forall cs out, id ∈ foldl (fun out chunk =>
      foldl (fun out kl =>
        let '((t', p, i), l) := kl in
        if bool_decide (t' = t) && containsString chunk p && String.eqb (pl_Lifecycle l) LifecycleActive &&
           match es_projects e !! p with Some pr => negb (ProjectRetired pr) | None => false end &&
           negb (containsString out i)
        then out ++ [i] else out) out rows) out cs <->
    id ∈ out \/ exists P l pr, P ∈ concat cs /\ es_links e !! (t, P, id) = Some l /\ active l /\
      es_projects e !! P = Some pr /\ ProjectRetired pr = false).
  { induction cs as [|c cs IH]; intros out; cbn [foldl concat].
    - split; [auto|]. intros [?|(P & l & pr & ?%elem_of_nil & _)]; done.
    - rewrite IH. clear IH.
      erewrite (foldl_pointwise _ (fun out x => if linked_row t e c x && negb (containsString out (snd (fst x)))
                                       then out ++ [snd (fst x)] else out))
        by (intros o [[[t' P] i] l]; reflexivity).
      rewrite dedupe_elem, Hrow. setoid_rewrite elem_of_app. naive_solver. }
  rewrite Hout. setoid_rewrite chunkIDs_elem. split; [intros [?%elem_of_nil|?]; done|auto].
Qed.

(** ** What a scoped permit covers *)

Lemma cannot_cover_projects a ps es id :
  Covers (scopedPermit a ps es) "project" id = false /\
  Covers (scopedPermit a ps es) "user_project" id = false.
Proof. split; vm_compute; reflexivity. Qed.

Lemma covers_link_row a ps es t P id :
  contains "/" P = false -> Covers (scopedPermit a ps es) (table_name t) (link_id P id) = true ->
  P ∈ ps /\ covers es (linked_type t) id = true.
Proof.
  intros HP [[Hc _]|(P' & ty & i & Hin & Hid & HP' & HP2 & Hcov)]%scoped_Covers.
  { destruct t, Hc as [Hc|Hc]; vm_compute in Hc; discriminate Hc. }
  assert (Hty : ty = linked_type t).
  { unfold linkable in Hin. rewrite !elem_of_cons, elem_of_nil in Hin. destruct t; cbn in Hin; naive_solver. }
  assert (E1 := proj2 (linkedEntityFromID_spec _ _ P' ty i) (conj Hin (conj Hid HP'))).
  assert (E2 : linkedEntityFromID (table_name t) (link_id P id) = Some (P, linked_type t, id)).
  { apply linkedEntityFromID_spec. split; [|done]. unfold linkable. rewrite !elem_of_cons. destruct t; auto. }
  rewrite E1 in E2. by injection E2 as -> -> ->.
Qed.

(** ** One request under a scoped permit *)

(** The tables a request under a scoped permit may leave behind: the projects and
    the assignments are as they were, what exists goes on existing, and an active link
    is one that was active, one to an entity the permit covers, or one to an entity that
    was not there. *)
Record confined (es : ScopedEntities) (e e' : Estate) : Prop := {
  cf_projects : es_projects e' = es_projects e;
  cf_assignments : es_assignments e' = es_assignments e;
  cf_entities : forall t id, entity_exists t id e = true -> entity_exists t id e' = true;
  cf_links : forall t P id l, es_links e' !! (t, P, id) = Some l -> active l ->
    (exists l0, es_links e !! (t, P, id) = Some l0 /\ active l0) \/
    covers es (linked_type t) id = true \/ entity_exists t id e = false
}.

Lemma confined_refl es e : confined es e e.
Proof. split; [done..|]. intros t P id l Hl Ha. left. eauto. Qed.

Lemma confined_circuits es e c :
  (forall id, is_Some (es_circuits e !! id) -> is_Some (c !! id)) -> confined es e (with_circuits c e).
Proof.
  intros Hc. split; [done..| |intros t P id l Hl Ha; left; eauto]. intros [] id; cbn; [done..|].
  rewrite !bool_decide_eq_true. apply Hc.
Qed.

Lemma relinked_lookup t owners links t' P id :
  relinked t owners links !! (t', P, id) = if decide (t' = t) then owners !! (P, id) else links !! (t', P, id).
Proof.
  assert (Inj eq eq (fun k : string * string => (t, k.1, k.2))) as Hinj by (intros [P1 i1] [P2 i2] [= -> ->]; done).
  unfold relinked. rewrite lookup_union, map_lookup_imap. destruct (decide (t' = t)) as [->|Hne].
  - pose proof (lookup_kmap (fun k : string * string => (t, k.1, k.2)) owners (P, id)) as Hk. cbn in Hk. rewrite Hk.
    cbn. destruct (links !! (t, P, id)); cbn; [rewrite bool_decide_eq_true_2 by done|]; by destruct (owners !! (P, id)).
  - rewrite (proj2 (lookup_kmap_None (fun k : string * string => (t, k.1, k.2)) owners (t', P, id)))
      by (intros [P1 i1] [= -> _ _]; done).
    cbn. destruct (links !! (t', P, id)); cbn; [by rewrite bool_decide_eq_false_2|done].
Qed.

(** A request elsewhere that adds at most one entity and its link. *)
Lemma confined_elsewhere es e e' t owners owners' P0 id0 l0 :
  es_projects e' = es_projects e -> es_assignments e' = es_assignments e ->
  es_links e' = relinked t owners' (es_links e) ->
  (forall P id, es_links e !! (t, P, id) = owners !! (P, id)) ->
  (forall t' id, entity_exists t' id e = true -> entity_exists t' id e' = true) ->
  owners' = owners \/ (entity_exists t id0 e = false /\ owners' = <[(P0, id0) := l0]> owners) ->
  confined es e e'.
Proof.
  intros Hp Ha Hl Hsees Hgrow Hcase. split; [done..|]. intros t' P id l Hl' Hact.
  rewrite Hl, relinked_lookup in Hl'. destruct (decide (t' = t)) as [->|]; [|left; eauto].
  destruct Hcase as [->|[Hn ->]]; [left; exists l; by rewrite Hsees|].
  apply lookup_insert_Some in Hl' as [[[= <- <-] _]|[_ Hl']]; [auto|]. left. exists l. by rewrite Hsees.
Qed.

Lemma no_such_circuit e id : es_circuits e !! id = None -> entity_exists ProjectCircuit id e = false.
Proof. intros Hn. cbn. rewrite Hn. by apply bool_decide_eq_false_2, is_Some_None. Qed.

(** Writing one link row. *)
Lemma confined_insert es e t P id l :
  (active l -> (exists l0, es_links e !! (t, P, id) = Some l0 /\ active l0) \/
     covers es (linked_type t) id = true \/ entity_exists t id e = false) ->
  confined es e (with_links (<[(t, P, id) := l]> (es_links e)) e).
Proof.
  intros Hl. split; [done..|]. cbn. intros t' P' id' l' Hl' Ha.
  destruct (decide ((t', P', id') = (t, P, id))) as [[= -> -> ->]|Hne].
  - rewrite lookup_insert_eq in Hl'. injection Hl' as <-. by apply Hl.
  - rewrite lookup_insert_ne in Hl' by done. left. eauto.
Qed.

(** [statement]s that refuse: what a statement that returned has checked. *)
Lemma upsert_link_inv t l e e' :
  upsert_link t l e = inr e' ->
  is_Some (es_projects e !! pl_ProjectID l) /\
  exists row, pl_Lifecycle row = pl_Lifecycle l /\ e' = with_links (<[link_key t l := row]> (es_links e)) e.
Proof.
  unfold upsert_link. destruct (link_constraints t l e) as [err|] eqn:Hc; [done|].
  intros [= <-]. split.
  - unfold link_constraints in Hc. repeat (case_match; try discriminate Hc).
    apply not_eq_None_Some. destruct (bool_decide_reflect (es_projects e !! pl_ProjectID l = None)); done.
  - destruct (es_links e !! link_key t l); eexists; (split; [|reflexivity]); reflexivity.
Qed.

Lemma insert_link_inv t l e e' :
  insert_link t l e = inr e' -> e' = with_links (<[link_key t l := l]> (es_links e)) e.
Proof.
  unfold insert_link. destruct (bool_decide _); [done|]. destruct (link_constraints t l e); [done|].
  by intros [= <-].
Qed.

Section Confinement.
Context `{Unicode} (NewID : nat -> string) (a : Actor) (ps : list string) (es : ScopedEntities).
Abbreviation scoped := (scopedPermit a ps es).

(** A body run under the permit leaves tables the permit confines. *)
Definition confines (now : Time) (fn : Tx Estate unit) (st : Store Estate) : Prop :=
  forall st', fn (env_of (Some scoped) now) st = inr (tt, st') -> confined es (st_tables st) (st_tables st').

Lemma written_confined now fn st out :
  confines now fn st -> written_by (Some scoped) now fn st out ->
  confined es (st_tables st) (st_tables (snd out)).
Proof. intros Hc [e|[] st' E]; [apply confined_refl|]. by apply Hc. Qed.

Lemma permit_covers now t id :
  (exists p, tx_permit (env_of (Some scoped) now) = Some p /\ Covers p t id = true) ->
  Covers scoped t id = true.
Proof. by intros (p & [= <-] & Hp). Qed.

Lemma insertCircuit_inv now c p st st' :
  insertCircuit NewID c (env_of p now) st = inr (tt, st') ->
  es_circuits (st_tables st) !! ci_ID c = None /\
  st_tables st' = with_circuits (<[ci_ID c := c]> (es_circuits (st_tables st))) (st_tables st).
Proof.
  unfold insertCircuit. intros Htx. tx_inv Htx. rewrite H1, H0.
  destruct (_ || _) in Htx0; [discriminate Htx0|].
  destruct (bool_decide_reflect (is_Some (es_circuits (st_tables st) !! ci_ID c))) as [|Hn];
    [discriminate Htx0|]. cbn [orb] in Htx0.
  destruct (_ && _) in Htx0; [discriminate Htx0|]. destruct (negb _) in Htx0; [discriminate Htx0|].
  injection Htx0 as <-. split; [|done]. by apply eq_None_not_Some.
Qed.

Lemma confined_new_circuit e c :
  es_circuits e !! ci_ID c = None -> confined es e (with_circuits (<[ci_ID c := c]> (es_circuits e)) e).
Proof.
  intros Hn. apply confined_circuits. intros id. rewrite lookup_insert_is_Some. intros ?.
  destruct (decide (ci_ID c = id)); auto.
Qed.

Lemma CreateProject_confined fate now q st :
  confined es (st_tables st) (st_tables (snd (CreateProject NewID fate (Some scoped) now q st))).
Proof.
  eapply written_confined; [|apply write_written]. intros st' Htx. tx_inv Htx.
  apply permit_covers in Htx. by rewrite (proj1 (cannot_cover_projects _ _ _ _)) in Htx.
Qed.

Lemma UpdateProject_confined fate now q tags st :
  confined es (st_tables st) (st_tables (snd (UpdateProject NewID fate (Some scoped) now q tags st))).
Proof.
  eapply written_confined; [|apply write_written]. intros st' Htx. apply bind_inv in Htx as (b & st1 & Hq & Htx).
  tx_inv Hq. destruct (es_projects (st_tables st) !! pr_ID q) as [before|]; [|discriminate Htx].
  cbv zeta in Htx. tx_inv Htx.
  apply permit_covers in Htx. by rewrite (proj1 (cannot_cover_projects _ _ _ _)) in Htx.
Qed.

Lemma RetireProject_confined fate now id st :
  confined es (st_tables st) (st_tables (snd (RetireProject NewID fate (Some scoped) now id st))).
Proof.
  eapply written_confined; [|apply write_written]. intros st' Htx. apply bind_inv in Htx as (b & st1 & Hq & Htx).
  tx_inv Hq. destruct (es_projects (st_tables st) !! id) as [before|]; [|discriminate Htx].
  destruct (ProjectRetired before); [apply ret_inv in Htx as [_ ->]; apply confined_refl|].
  cbv zeta in Htx. apply bind_inv in Htx as (b & st1 & _ & (b' & st2 & Htx & _)%bind_inv).
  tx_inv Htx. apply permit_covers in Htx. by rewrite (proj1 (cannot_cover_projects _ _ _ _)) in Htx.
Qed.

Lemma LinkProject_confined t fates now l st :
  plain_ids (st_tables st) ->
  confined es (st_tables st) (st_tables (snd (LinkProject NewID t fates (Some scoped) now l st))).
Proof.
  intros Hplain. eapply written_confined; [|apply writeSerializable_written]. intros st' Htx.
  apply bind_inv in Htx as (b & st1 & H1 & Htx).
  assert (st1 = st) as ->.
  { destruct (String.eqb _ _) in H1; [|by tx_inv H1]. unfold checkOwnerFree in H1.
    apply bind_inv in H1 as (taken & st2 & Hq & H1). tx_inv Hq.
    destruct (owned_elsewhere _ _ _ _); [discriminate H1|by tx_inv H1]. }
  apply bind_inv in Htx as (before & st2 & Hq & Htx). tx_inv Hq.
  apply bind_inv in Htx as (u & st3 & Hs & Htx). tx_inv Hs.
  apply upsert_link_inv in Hs as (Hpr & row & Hrow & ->).
  assert (Hc : Covers scoped (table_name t) (link_id (pl_ProjectID l) (pl_EntityID l)) = true /\
    st_tables st' = st_tables st3).
  { destruct (es_links (st_tables st) !! link_key t l); tx_inv Htx; (split; [|done]); by eapply permit_covers. }
  destruct Hc as [Hc ->]. apply covers_link_row in Hc as [_ Hc]; [|by apply Hplain]. rewrite H0.
  apply confined_insert. auto.
Qed.

Lemma retireLink_confined t fate now P E st :
  confined es (st_tables st) (st_tables (snd (retireLink NewID t fate (Some scoped) now P E st))).
Proof.
  eapply written_confined; [|apply write_written]. intros st' Htx. apply bind_inv in Htx as (b & st1 & Hq & Htx).
  tx_inv Hq. destruct (es_links (st_tables st) !! (t, P, E)) as [l|]; [|discriminate Htx].
  destruct (String.eqb _ _) in Htx; [apply ret_inv in Htx as [_ ->]; apply confined_refl|].
  tx_inv Htx. injection Htx0 as <-. rewrite H1, H0. apply confined_insert. unfold active. cbn. discriminate.
Qed.

Lemma AssignProject_confined fate now u P st :
  confined es (st_tables st) (st_tables (snd (AssignProject NewID fate (Some scoped) now u P st))).
Proof.
  eapply written_confined; [|apply write_written]. intros st' Htx. apply bind_inv in Htx as (b & st1 & Hq & Htx).
  tx_inv Hq. destruct (existsb _ _) in Htx; [apply ret_inv in Htx as [_ ->]; apply confined_refl|].
  tx_inv Htx. apply permit_covers in Htx. by rewrite (proj2 (cannot_cover_projects _ _ _ _)) in Htx.
Qed.

Lemma ReleaseProject_confined fate now u P st :
  confined es (st_tables st) (st_tables (snd (ReleaseProject NewID fate (Some scoped) now u P st))).
Proof.
  eapply written_confined; [|apply write_written]. intros st' Htx. apply bind_inv in Htx as (b & st1 & Hq & Htx).
  tx_inv Hq. destruct (List.find _ _) in Htx; [|apply ret_inv in Htx as [_ ->]; apply confined_refl].
  tx_inv Htx. apply permit_covers in Htx. by rewrite (proj2 (cannot_cover_projects _ _ _ _)) in Htx.
Qed.

Lemma CreateCircuit_confined fate now c st :
  confined es (st_tables st) (st_tables (snd (CreateCircuit NewID fate (Some scoped) now c st))).
Proof.
  unfold CreateCircuit. destruct (ValidateCircuit c) as [c' [ve|]]; [apply confined_refl|].
  eapply written_confined; [|apply write_written]. intros st' [Hn ->]%insertCircuit_inv.
  by apply confined_new_circuit.
Qed.
End Confinement.

(** ** Every body writes the log through its permit *)

Section Bodies.
Context `{Unicode} (NewID : nat -> string).

Lemma guarded_log_released t P ids : guarded (log_released NewID t P ids).
Proof.
  induction ids as [|i ids IH]; cbn [log_released]; [apply guarded_ret|].
  apply guarded_bind; [apply guarded_log|done].
Qed.

Lemma guarded_releaseLinks t P now : guarded (releaseLinks NewID t P now).
Proof.
  unfold releaseLinks. apply guarded_bind; [auto with tx|]. intros [|i ids]; [auto with tx|].
  apply guarded_bind; [auto with tx|]. intros _. apply guarded_log_released.
Qed.

Lemma guarded_checkOwnerFree t E P : guarded (checkOwnerFree t E P).
Proof. unfold checkOwnerFree. guarding. Qed.

Lemma guarded_insertCircuit c : guarded (insertCircuit NewID c).
Proof. unfold insertCircuit. guarding. Qed.

Lemma guarded_insertProjectCircuitLink P E now : guarded (insertProjectCircuitLink NewID P E now).
Proof. unfold insertProjectCircuitLink. guarding. Qed.

#[local] Hint Resolve guarded_releaseLinks guarded_checkOwnerFree guarded_insertCircuit
  guarded_insertProjectCircuitLink : tx.

(** The rows a request adds are stamped by the permit it was given, and for a
    circuit made inside a project by the narrower one the store makes, for a
    circuit that was not there. *)
Definition project_permit (p : Permit) (projectID circuitID : string) : Permit :=
  scopedPermit (PermitActor p) [projectID] {["circuit" := {[circuitID := true]}]}.

Inductive rows_by (p : Permit) (now : Time) (e : Estate) (rows : list ChangeRow) : Prop :=
  | rows_permit : Forall (stamped (env_of (Some p) now)) rows -> rows_by p now e rows
  | rows_circuit P id : PermitHoldsProject (Some p) P = true -> es_circuits e !! id = None ->
      Forall (stamped (env_of (Some (project_permit p P id)) now)) rows -> rows_by p now e rows.

Lemma rows_of_write {A} p now e (fn : Tx Estate A) st out :
  guarded fn -> written_by (Some p) now fn st out ->
  exists rows, st_log (snd out) = st_log st ++ rows /\ rows_by p now e rows.
Proof.
  intros Hg Hw. destruct out as [res st'].
  destruct (written_log (Some p) now fn st res st' Hg Hw) as (rows & Hrows & Hf).
  exists rows. split; [done|]. by apply rows_permit.
Qed.

Lemma run_op_log op fates p now st :
  exists rows, st_log (snd (run_op NewID op fates (Some p) now st)) = st_log st ++ rows /\
    rows_by p now (st_tables st) rows.
Proof.
  destruct op; cbn [run_op].
  1-7: eapply rows_of_write; [|first [apply write_written|apply writeSerializable_written]]; guarding.
  - unfold CreateCircuit. destruct (ValidateCircuit c) as [c' [ve|]].
    + exists []. rewrite app_nil_r. split; [done|]. by apply rows_permit.
    + eapply rows_of_write; [|apply write_written]. guarding.
  - unfold CreateCircuitInProject. destruct (ValidateCircuit c) as [c' [ve|]];
      [exists []; rewrite app_nil_r; split; [done|]; by apply rows_permit|].
    destruct (PermitHoldsProject (Some p) projectID) eqn:Hh; cbn [negb];
      [|exists []; rewrite app_nil_r; split; [done|]; by apply rows_permit].
    fold (project_permit p projectID (ci_ID (new_circuit c' now))). cbv zeta.
    match goal with |- context [write ?f ?q now ?b st] =>
      assert (Hg : guarded b) by guarding; assert (Hw := write_written f q now b st);
      destruct (write f q now b st) as [res st'] eqn:Eout end.
    destruct (written_log _ _ _ _ _ _ Hg Hw) as (rows & Hrows & Hf). exists rows. split; [done|].
    inversion Hw as [err|[] st1 Htx]; subst.
    + apply rows_permit. cbn [snd] in Hrows.
      replace rows with ([] : list ChangeRow); [done|]. apply (app_inv_head (st_log st')).
      by rewrite app_nil_r.
    + apply bind_inv in Htx as ([] & st1 & [Hn _]%insertCircuit_inv & _).
      by apply (rows_circuit _ _ _ _ projectID (ci_ID (new_circuit c' now))).
Qed.

Lemma run_op_confined op fates a ps es now st :
  plain_ids (st_tables st) ->
  confined es (st_tables st) (st_tables (snd (run_op NewID op fates (Some (scopedPermit a ps es)) now st))).
Proof.
  intros Hplain. destruct op; cbn [run_op].
  - apply CreateProject_confined.
  - apply UpdateProject_confined.
  - apply RetireProject_confined.
  - by apply LinkProject_confined.
  - apply retireLink_confined.
  - apply AssignProject_confined.
  - apply ReleaseProject_confined.
  - apply CreateCircuit_confined.
  - unfold CreateCircuitInProject. destruct (ValidateCircuit c) as [c' [ve|]]; [apply confined_refl|].
    destruct (negb _); [apply confined_refl|]. cbv zeta.
    match goal with |- context [write ?f ?q now ?b st] => destruct (write_written f q now b st) as [err|[] st' Htx] end;
      [apply confined_refl|].
    apply bind_inv in Htx as ([] & st1 & [Hn H1]%insertCircuit_inv & Htx).
    unfold insertProjectCircuitLink in Htx. cbv zeta in Htx. apply bind_inv in Htx as (b & st2 & Hs & Htx).
    tx_inv Hs. tx_inv Htx. apply insert_link_inv in Hs. cbn [snd]. rewrite H2, H0, Hs, H1. clear - Hn.
    set (k := new_circuit c' now) in *.
    destruct (confined_new_circuit es (st_tables st) k Hn) as [? ? Hc ?]. split; [done..| |].
    { intros t' i' Hi. specialize (Hc t' i' Hi). by destruct t'. }
    cbn [es_links with_links with_circuits]. intros t' P' id' l' Hl' Ha. unfold link_key in Hl'. cbn in Hl'.
    destruct (decide ((t', P', id') = (ProjectCircuit, projectID, ci_ID k))) as [[= -> -> ->]|Hne];
      [right; right; by apply no_such_circuit|].
    rewrite lookup_insert_ne in Hl' by done. left. eauto.
Qed.

Lemma run_op_ids op fates p now st : st_ids st <= st_ids (snd (run_op NewID op fates p now st)).
Proof.
  destruct op; cbn [run_op].
  1-7: eapply written_ids; [|first [apply write_written|apply writeSerializable_written]]; guarding.
  - unfold CreateCircuit. destruct (ValidateCircuit c) as [c' [ve|]]; [done|].
    eapply written_ids; [|apply write_written]. guarding.
  - unfold CreateCircuitInProject. destruct (ValidateCircuit c) as [c' [ve|]]; [done|].
    destruct (negb _); [done|]. eapply written_ids; [|apply write_written]. guarding.
Qed.
End Bodies.

(** ** Creations on the tables of assets and services *)

Section Creations.
Context `{Unicode} `{CodeRunes} (NewID : nat -> string).

Lemma absent_asset e t id : sees_assets e t -> pt_assets t !! id = None -> entity_exists ProjectAsset id e = false.
Proof. intros [Hs _ _] Hn. cbn. apply bool_decide_eq_false. rewrite Hs, Hn. by intros []. Qed.

Lemma absent_service e t id : sees_services e t -> vt_services t !! id = None -> entity_exists ProjectService id e = false.
Proof. intros [Hs _ _] Hn. cbn. apply bool_decide_eq_false. rewrite Hs, Hn. by intros []. Qed.

Lemma after_assets_confined es seen fate p now project asset e t lg ids :
  sees_assets e t ->
  confined es e (after_assets e (st_tables (snd (CreateAssetInProject NewID seen fate p now project asset (MkStore t lg ids))))).
Proof.
  intros Hv.
  destruct (CreateAssetInProject_effect NewID seen fate p now project asset (MkStore t lg ids)) as [_ Hcase].
  destruct (CreateAssetInProject _ _ _ _ _ _ _ _) as [res st']. cbn [snd st_tables st_log st_ids] in *.
  assert (exists l0, (forall id, is_Some (pt_assets t !! id) -> is_Some (pt_assets (st_tables st') !! id)) /\
    (pt_owners (st_tables st') = pt_owners t \/
     (entity_exists ProjectAsset (as_ID asset) e = false /\
      pt_owners (st_tables st') = <[(project, as_ID asset) := l0]> (pt_owners t)))) as (l0 & Hgrow & Ho).
  { destruct Hcase as [[-> _]|(_ & Hn & [row ->] & [l ->] & _)]; [by exists (new_owner "" "" ""); auto|].
    exists l. split; [intros id ?; rewrite lookup_insert_is_Some; destruct (decide (as_ID asset = id)); auto|].
    right. split; [|done]. by eapply absent_asset. }
  refine (confined_elsewhere es e (after_assets e (st_tables st')) ProjectAsset (pt_owners t) (pt_owners (st_tables st')) project (as_ID asset) l0 eq_refl eq_refl eq_refl _ _ Ho);
    [apply (sa_links _ _ Hv)|].
  intros [] id; cbn; [|done..]. rewrite !bool_decide_eq_true, (sa_assets _ _ Hv), elem_of_dom. apply Hgrow.
Qed.

Lemma after_services_confined es fate p now project service e t lg ids :
  sees_services e t ->
  confined es e (after_services e (st_tables (snd (CreateServiceInProject NewID fate p now project service (MkStore t lg ids))))).
Proof.
  intros Hv.
  destruct (CreateServiceInProject_effect NewID fate p now project service (MkStore t lg ids)) as [_ Hcase].
  destruct (CreateServiceInProject _ _ _ _ _ _ _) as [res st']. cbn [snd st_tables st_log st_ids] in *.
  assert (exists l0, (forall id, is_Some (vt_services t !! id) -> is_Some (vt_services (st_tables st') !! id)) /\
    (vt_owners (st_tables st') = vt_owners t \/
     (entity_exists ProjectService (svc_ID service) e = false /\
      vt_owners (st_tables st') = <[(project, svc_ID service) := l0]> (vt_owners t)))) as (l0 & Hgrow & Ho).
  { destruct Hcase as [[-> _]|(_ & Hn & (row & _ & ->) & _)]; [by exists (new_owner "" "" ""); auto|].
    eexists. split; [intros id ?; cbn; rewrite lookup_insert_is_Some; destruct (decide (svc_ID service = id)); auto|].
    right. split; [by eapply absent_service|reflexivity]. }
  refine (confined_elsewhere es e (after_services e (st_tables st')) ProjectService (vt_owners t) (vt_owners (st_tables st')) project (svc_ID service) l0 eq_refl eq_refl eq_refl _ _ Ho);
    [apply (ss_links _ _ Hv)|].
  intros [] id; cbn; [done| |done]. rewrite !bool_decide_eq_true, (ss_services _ _ Hv), elem_of_dom. apply Hgrow.
Qed.
End Creations.

(** ** What a team may write *)

Section Escalation.
Context `{Unicode} `{CodeRunes} (NewID : nat -> string) (a : Authorizer) (team : gset string).
Abbreviation member := (fun u => u ∈ team).

(** An entity within a team's own reach: one their projects link to, or an asset, a
    service or a circuit that did not exist. *)
Definition within_reach (e : Estate) (t : LinkTable) (id : string) : Prop :=
  reaches member e t id \/ entity_exists t id e = false.

(** A row a team may write: such an entity, or the link between a project of
    theirs and such an entity. *)
Definition may_write (e : Estate) (entityType id : string) : Prop :=
  (exists t, entityType = linked_type t /\ within_reach e t id) \/
  (exists t P i, entityType = table_name t /\ id = link_id P i /\ held member e P /\ within_reach e t i).

(** A row of the log a team may leave: about one of those, or about a port made for a new
    asset, under an identifier not used before; and in the name of one of them. *)
Definition may_log (e : Estate) (ids : nat) (r : ChangeRow) : Prop :=
  (may_write e (cr_EntityType r) (cr_EntityID r) \/
   (cr_EntityType r = "interface" /\ exists n, cr_EntityID r = NewID n /\ ids <= n)) /\
  cr_Actor r ∈ team.

(** A permit that lets its holder write nothing else. *)
Definition permit_within (e : Estate) (p : Permit) : Prop :=
  ac_ID (PermitActor p) ∈ team /\
  exists act ps es, p = scopedPermit act ps es /\ (forall P, P ∈ ps -> held member e P) /\
    forall ty id, covers es ty id = true -> exists t, ty = linked_type t /\ within_reach e t id.

Lemma permit_within_covers e p ty id :
  permit_within e p -> Covers p ty id = true -> may_write e ty id.
Proof.
  intros (_ & act & ps & es & -> & Hps & Hes) [[_ Hc]|(P & ty' & i & Hin & -> & HP & HPs & Hc)]%scoped_Covers.
  - left. by apply Hes.
  - apply Hes in Hc as (t & -> & Hr). right. exists t, P, i. split_and!; [|done|by apply Hps|done].
    unfold linkable in Hin. rewrite !elem_of_cons, elem_of_nil in Hin. destruct t; cbn in Hin; naive_solver.
Qed.

(** What the tables still have in common with those the team started from. *)
Record team_inv (e : Estate) (permits : list Permit) (e' : Estate) : Prop := {
  ti_permits : forall p, p ∈ permits -> permit_within e p;
  ti_projects : es_projects e' = es_projects e;
  ti_assignments : es_assignments e' = es_assignments e;
  ti_entities : forall t id, entity_exists t id e = true -> entity_exists t id e' = true;
  ti_links : forall t P id l, es_links e' !! (t, P, id) = Some l -> active l ->
    (exists l0, es_links e !! (t, P, id) = Some l0 /\ active l0) \/ within_reach e t id
}.

Lemma team_inv_held e permits e' us P : team_inv e permits e' -> held us e' P <-> held us e P.
Proof. intros Hi. unfold held. by rewrite (ti_projects _ _ _ Hi), (ti_assignments _ _ _ Hi). Qed.

Lemma team_inv_fresh e permits e' t id :
  team_inv e permits e' -> entity_exists t id e' = false -> entity_exists t id e = false.
Proof.
  intros Hi Hn. destruct (entity_exists t id e) eqn:He; [|done].
  by rewrite (ti_entities _ _ _ Hi _ _ He) in Hn.
Qed.

Lemma team_inv_reaches e permits e' t id :
  team_inv e permits e' -> reaches member e' t id -> within_reach e t id.
Proof.
  intros Hi (P & l & Hh & Hl & Ha). apply (team_inv_held _ _ _ _ _ Hi) in Hh.
  destruct (ti_links _ _ _ Hi _ _ _ _ Hl Ha) as [(l0 & Hl0 & Ha0)|]; [|done]. left. by exists P, l0.
Qed.

Lemma team_inv_mint e permits (st : Store Estate) u p :
  team_inv e permits (st_tables st) -> us_ID u ∈ team -> isAdministrator a u = false ->
  MintPermit a st (Some u) = inr p -> permit_within e p.
Proof.
  intros Hi Hu Ha. unfold MintPermit. destruct (us_IsActive u); cbn [negb]; [|done]. rewrite Ha.
  destruct (String.eqb (us_Role u) RoleProjectOwner); cbn [negb]; [|done].
  cbn [ProjectsForUser AssetIDsForProjects ServiceIDsForProjects CircuitIDsForProjects Estate_resolver].
  intros [= <-]. split; [done|]. set (ps := projects_for_user (st_tables st) (us_ID u)).
  assert (Hps : forall P, P ∈ ps -> held member (st_tables st) P).
  { intros P (r & pr & Hr & Hru & Hrest)%projects_for_user_spec. exists r, pr. by rewrite Hru. }
  assert (Hids : forall t id, id ∈ entityIDsForProjects t (st_tables st) ps -> within_reach e t id).
  { intros t id (P & l & pr & HP & Hl & Hact & _)%entityIDsForProjects_spec.
    eapply team_inv_reaches; [done|]. exists P, l. auto. }
  eexists _, ps, _. split; [reflexivity|]. split.
  { intros P HP%Hps. by apply (team_inv_held _ _ _ _ _ Hi). }
  intros ty id [[-> Hid%Hids]|[[-> Hid%Hids]|[-> Hid%Hids]]]%covers_three;
    [exists ProjectAsset|exists ProjectService|exists ProjectCircuit]; done.
Qed.

(** A step that is confined by what a permit of theirs covers. *)
Lemma team_inv_step e permits e' e'' es :
  team_inv e permits e' -> (forall ty id, covers es ty id = true -> exists t, ty = linked_type t /\ within_reach e t id) ->
  confined es e' e'' -> team_inv e permits e''.
Proof.
  intros Hi Hes [H1 H2 H3 H4]. pose proof Hi as [I1 I2 I3 I4 I5].
  split; [done|congruence|congruence|auto|].
  intros t P id l Hl Ha. destruct (H4 _ _ _ _ Hl Ha) as [(l0 & Hl0 & Ha0)|[Hc|Hn]].
  - by apply (I5 _ _ _ _ Hl0).
  - right. destruct (Hes _ _ Hc) as (t' & Ht & Hr). by destruct t, t'.
  - right. right. by eapply team_inv_fresh.
Qed.

Lemma team_inv_op e permits st op fates p now :
  plain_ids e -> team_inv e permits (st_tables st) -> p ∈ permits ->
  team_inv e permits (st_tables (snd (run_op NewID op fates (Some p) now st))).
Proof.
  intros Hplain Hi Hp. destruct (ti_permits _ _ _ Hi p Hp) as (_ & act & ps & es & -> & _ & Hes).
  assert (Hpl : plain_ids (st_tables st)) by (unfold plain_ids; by rewrite (ti_projects _ _ _ Hi)).
  eapply team_inv_step; [done|exact Hes|]. by apply run_op_confined.
Qed.

(** A step that is confined whatever is covered. *)
Lemma team_inv_creation e permits e' e'' : team_inv e permits e' -> confined ∅ e' e'' -> team_inv e permits e''.
Proof. intros Hi Hc. eapply team_inv_step; [done| |exact Hc]. by intros ty id Hf. Qed.

Lemma team_rows e permits st p now rows ids :
  team_inv e permits (st_tables st) -> p ∈ permits -> rows_by p now (st_tables st) rows -> Forall (may_log e ids) rows.
Proof.
  intros Hi Hp Hrows. destruct (ti_permits _ _ _ Hi p Hp) as [Hact Hw].
  assert (Hfrom : exists q, permit_within e q /\ Forall (stamped (env_of (Some q) now)) rows).
  { destruct Hrows as [Hf|P id HP Hn Hf]; [by exists p|]. eexists. split; [|exact Hf].
    split; [done|]. exists (PermitActor p), [P], {["circuit" := {[id := true]}]}. split; [done|].
    destruct Hw as (act & ps & es & -> & Hps & _). split.
    - intros P' ->%list_elem_of_singleton. apply Hps. by apply holdsProject_elem.
    - intros ty i (m & Ht & Hid)%covers_spec. apply lookup_singleton_Some in Ht as [<- <-].
      apply lookup_singleton_Some in Hid as [<- _]. exists ProjectCircuit. split; [done|]. right.
      eapply team_inv_fresh, no_such_circuit; done. }
  destruct Hfrom as (q & Hq & Hf). eapply Forall_impl; [exact Hf|]. cbn.
  intros r ((p' & [= <-] & Hc) & Ha & _). split; [left; by eapply permit_within_covers|].
  rewrite Ha. by destruct Hq.
Qed.

(** The rows of a creation under a permit of theirs, of an entity that was not there. *)
Lemma creation_may_log e permits e' p P t id r :
  team_inv e permits e' -> p ∈ permits -> PermitHoldsProject (Some p) P = true -> entity_exists t id e' = false ->
  (cr_EntityType r = linked_type t /\ cr_EntityID r = id) \/
  (cr_EntityType r = table_name t /\ cr_EntityID r = link_id P id) ->
  may_write e (cr_EntityType r) (cr_EntityID r).
Proof.
  intros Hi Hp HP Hn Hr. destruct (ti_permits _ _ _ Hi p Hp) as (_ & act & ps & es & -> & Hps & _).
  apply (team_inv_fresh _ _ _ _ _ Hi) in Hn. destruct Hr as [[-> ->]|[-> ->]].
  - left. exists t. split; [done|by right].
  - right. exists t, P, id. split_and!; [done..|by apply Hps, holdsProject_elem|by right].
Qed.

Lemma asset_rows e permits e' t lg ids ids0 p seen fate now P asset :
  team_inv e permits e' -> p ∈ permits -> sees_assets e' t -> ids0 <= ids ->
  exists rows, st_log (snd (CreateAssetInProject NewID seen fate (Some p) now P asset (MkStore t lg ids))) = lg ++ rows /\
    Forall (may_log e ids0) rows.
Proof.
  intros Hi Hp Hv Hids.
  destruct (CreateAssetInProject_effect NewID seen fate (Some p) now P asset (MkStore t lg ids)) as
    [_ [[_ ->]|(Hh & Hn & _ & _ & _ & rows & -> & Hf)]]; [exists []; by rewrite app_nil_r|].
  exists rows. split; [done|]. eapply Forall_impl; [exact Hf|]. intros r (_ & Ha & Hr). split.
  - destruct Hr as [?|[[? (n & ? & Hle)]|?]]; [left|right; split; [done|exists n; cbn in *; split; [done|lia]]|left].
    all: refine (creation_may_log _ _ _ p P ProjectAsset (as_ID asset) r Hi Hp Hh _ _); [by eapply absent_asset|auto].
  - rewrite Ha. by destruct (ti_permits _ _ _ Hi p Hp).
Qed.

Lemma service_rows e permits e' t lg ids ids0 p fate now P service :
  team_inv e permits e' -> p ∈ permits -> sees_services e' t ->
  exists rows, st_log (snd (CreateServiceInProject NewID fate (Some p) now P service (MkStore t lg ids))) = lg ++ rows /\
    Forall (may_log e ids0) rows.
Proof.
  intros Hi Hp Hv.
  destruct (CreateServiceInProject_effect NewID fate (Some p) now P service (MkStore t lg ids)) as
    [_ [[_ ->]|(Hh & Hn & _ & rows & -> & Hf)]]; [exists []; by rewrite app_nil_r|].
  exists rows. split; [done|]. eapply Forall_impl; [exact Hf|]. intros r (Ha & Hr). split.
  - left. refine (creation_may_log _ _ _ p P ProjectService (svc_ID service) r Hi Hp Hh _ _); [by eapply absent_service|auto].
  - rewrite Ha. by destruct (ti_permits _ _ _ Hi p Hp).
Qed.

Lemma session_inv st0 permits st :
  plain_ids (st_tables st0) -> session NewID a team st0 permits st ->
  team_inv (st_tables st0) permits (st_tables st) /\ st_ids st0 <= st_ids st /\
  exists rows, st_log st = st_log st0 ++ rows /\ Forall (may_log (st_tables st0) (st_ids st0)) rows.
Proof.
  intros Hplain. assert (forall lg1 lg2 rows1 : list ChangeRow,
    Forall (may_log (st_tables st0) (st_ids st0)) rows1 -> lg1 = st_log st0 ++ rows1 ->
    (exists rows2, lg2 = lg1 ++ rows2 /\ Forall (may_log (st_tables st0) (st_ids st0)) rows2) ->
    exists rows, lg2 = st_log st0 ++ rows /\ Forall (may_log (st_tables st0) (st_ids st0)) rows) as Hmore.
  { intros lg1 lg2 rows1 H1 -> (rows2 & -> & H2). exists (rows1 ++ rows2). rewrite app_assoc. split; [done|by apply Forall_app]. }
  induction 1 as [|permits st u p Hs (Hi & Hd & Hl) Hu Ha Hm|permits st op fates p now Hs (Hi & Hd & rows & Hl & Hr) Hp
    |permits st t seen fate p now P asset Hs (Hi & Hd & rows & Hl & Hr) Hp Hv st'
    |permits st t fate p now P service Hs (Hi & Hd & rows & Hl & Hr) Hp Hv st'].
  - split_and!; [|done|exists []; by rewrite app_nil_r]. split; [by intros p ?%elem_of_nil|done..|].
    intros t P id l Hl Ha. left. eauto.
  - split_and!; [|done..]. pose proof (team_inv_mint _ _ _ _ _ Hi Hu Ha Hm) as Hp.
    destruct Hi as [I1 I2 I3 I4 I5]. split; [|done..]. intros q [->|Hq]%elem_of_cons; auto.
  - split_and!; [by apply team_inv_op| |].
    + etransitivity; [exact Hd|apply run_op_ids].
    + refine (Hmore _ _ rows Hr Hl _). destruct (run_op_log NewID op fates p now st) as (rows' & Hrows' & Hby).
      exists rows'. split; [done|by eapply team_rows].
  - cbn [st_tables st_log st_ids]. split_and!.
    + eapply team_inv_creation; [done|]. by apply after_assets_confined.
    + etransitivity; [exact Hd|]. apply (CreateAssetInProject_effect NewID seen fate (Some p) now P asset (MkStore t (st_log st) (st_ids st))).
    + refine (Hmore _ _ rows Hr Hl _). by eapply asset_rows.
  - cbn [st_tables st_log st_ids]. split_and!.
    + eapply team_inv_creation; [done|]. by apply after_services_confined.
    + etransitivity; [exact Hd|]. apply (CreateServiceInProject_effect NewID fate (Some p) now P service (MkStore t (st_log st) (st_ids st))).
    + refine (Hmore _ _ rows Hr Hl _). by eapply service_rows.
Qed.

(** C1. Project owners cannot widen their own reach. Take any people who are not
    administrators, any permits they obtain while they work, each from the tables
    as they then are and used as often and as late as they like, and any sequence of
    the requests that write the tables a reach is computed from, the operations on
    projects, links and assignments, the creation of a circuit and the creation of an
    asset, a service or a circuit inside a project, in any order, each committing,
    failing or losing its race. The projects they hold are the ones they held. Whatever
    their projects come to link to, and whatever a permit of theirs covers, was linked
    to a project of theirs at the start, or is an asset, a service or a circuit that did
    not exist then, or, for a permit, the link of such an entity to a project they hold.
    And every row they leave in the change log is about such an entity, about its link to
    a project they hold, or about a port under an identifier made during the session, and
    carries the name of one of them. Requests that write none of these tables are not
    part of a session. *)
Theorem no_escalation st0 permits st :
  plain_ids (st_tables st0) -> session NewID a team st0 permits st ->
  (forall P, held member (st_tables st) P <-> held member (st_tables st0) P) /\
  (forall t id, reaches member (st_tables st) t id -> within_reach (st_tables st0) t id) /\
  (forall p ty id, p ∈ permits -> Covers p ty id = true -> may_write (st_tables st0) ty id) /\
  exists rows, st_log st = st_log st0 ++ rows /\ Forall (may_log (st_tables st0) (st_ids st0)) rows.
Proof.
  intros Hplain Hs. destruct (session_inv st0 permits st Hplain Hs) as (Hi & _ & Hl). split_and!; [| | |done].
  - intros P. by apply (team_inv_held _ _ _ _ _ Hi).
  - intros t id. by apply (team_inv_reaches _ _ _ _ _ Hi).
  - intros p ty id Hp. apply permit_within_covers. by apply (ti_permits _ _ _ Hi).
Qed.
End Escalation.

(** * Samples *)

#[local] Instance team_codes : CodeRunes := fun _ => true.
#[local] Instance team_tables : Unicode := {| lower_unicode := ascii_lower; quote_unicode := fun s => s |}.

Definition sample_owner : AppUser :=
  {| us_ID := "u1"; us_Username := "ada"; us_DisplayName := None; us_Email := None; us_Source := "local";
     us_PasswordHash := None; us_IsActive := true; us_LastLoginAt := None;
     us_CreatedAt := "2026-08-01T10:00:00Z"; us_Role := RoleProjectOwner; us_CanSeeCosts := false;
     us_Subject := None |}.

Definition sample_permit : Permit :=
  match MintPermit (∅ : Authorizer) sample_store (Some sample_owner) with
  | inr p => p
  | inl _ => systemPermit ""
  end.

(** The tables of assets of the same database, and a device nobody has yet. *)
Definition box (id : string) : Asset := declared id "server" None None "active" (Some "m1") 1.

Definition sample_boxes : AssetTables :=
  let t := with_owners {[("p1", "a1") := sample_link "p1" "a1"]} (with_assets {["a1" := box "a1"; "a2" := box "a2"]} no_assets) in
  {| pt_assets := pt_assets t; pt_closure := pt_closure t; pt_environments := pt_environments t;
     pt_memberships := pt_memberships t; pt_interfaces := pt_interfaces t; pt_members := pt_members t;
     pt_attachments := pt_attachments t; pt_pins := pt_pins t; pt_links := pt_links t; pt_kinds := pt_kinds t;
     pt_roles := pt_roles t; pt_form_factors := pt_form_factors t; pt_teams := pt_teams t;
     pt_storage_kinds := pt_storage_kinds t; pt_device_types := pt_device_types t;
     pt_components := pt_components t; pt_fastened := pt_fastened t; pt_projects := {["p1"; "p2"]};
     pt_owners := pt_owners t |}.

(** She makes a circuit in her project, then a device there, which comes with two ports,
    and then asks for somebody else's device. *)
Definition sample_first (st : Store Estate) : Store Estate :=
  snd (run_op sample_id (OpCreateCircuitInProject "p1" (sample_circuit "c2")) (fun _ => Commits) (Some sample_permit) 0%Z st).

Definition sample_second (st : Store Estate) : Store Estate :=
  let st' := snd (CreateAssetInProject sample_id sample_boxes Commits (Some sample_permit) 0%Z "p1" (box "a3")
                    (MkStore sample_boxes (st_log st) (st_ids st))) in
  MkStore (after_assets (st_tables st) (st_tables st')) (st_log st') (st_ids st').

Definition sample_requests (st : Store Estate) : Store Estate :=
  snd (run_op sample_id (OpLink ProjectAsset (sample_link "p1" "a2")) (fun _ => Commits) (Some sample_permit) 0%Z
         (sample_second (sample_first st))).

Lemma sample_plain : plain_ids sample_estate.
Proof.
  intros P [p Hp]. cbn in Hp.
  apply lookup_insert_Some in Hp as [[<- _]|[_ Hp]]; [done|].
  by apply lookup_singleton_Some in Hp as [<- _].
Qed.

Lemma sample_boxes_seen : sees_assets (st_tables (sample_first sample_store)) sample_boxes.
Proof.
  assert (es_assets (st_tables (sample_first sample_store)) = {["a1"; "a2"]}) as Ha by (vm_compute; reflexivity).
  assert (es_projects (st_tables (sample_first sample_store)) = es_projects sample_estate) as Hp by (vm_compute; reflexivity).
  assert (es_links (st_tables (sample_first sample_store)) =
    <[(ProjectCircuit, "p1", "c2") := new_owner "p1" "c2" (FormatTime 0)]> (es_links sample_estate)) as Hl by (vm_compute; reflexivity).
  split.
  - intros id. rewrite Ha, <- elem_of_dom. by assert (dom (pt_assets sample_boxes) = {["a1"; "a2"]}) as -> by (vm_compute; reflexivity).
  - intros P. rewrite Hp, <- elem_of_dom. by assert (dom (es_projects sample_estate) = {["p1"; "p2"]}) as -> by (vm_compute; reflexivity).
  - intros P id. rewrite Hl, lookup_insert_ne by discriminate.
    change ((<[(ProjectAsset, "p1", "a1") := sample_link "p1" "a1"]> {[(ProjectCircuit, "p1", "c1") := sample_link "p1" "c1"]}
      : gmap (LinkTable * string * string) ProjectLink) !! (ProjectAsset, P, id) =
      ({[("p1", "a1") := sample_link "p1" "a1"]} : gmap (string * string) ProjectLink) !! (P, id)).
    destruct (decide (("p1", "a1") = (P, id))) as [[= <- <-]|Hne].
    + by rewrite lookup_insert_eq, lookup_singleton_eq.
    + rewrite lookup_insert_ne by congruence. by rewrite !lookup_singleton_ne by congruence.
Qed.

Lemma sample_session : session sample_id ∅ {["u1"]} sample_store [sample_permit] (sample_requests sample_store).
Proof.
  unfold sample_requests. apply session_op; [|by left].
  apply (session_asset sample_id ∅ {["u1"]} sample_store [sample_permit] (sample_first sample_store) sample_boxes);
    [|by left|exact sample_boxes_seen].
  apply session_op; [|by left]. apply (session_mint _ _ _ _ _ _ sample_owner); [constructor|set_solver|done|].
  vm_compute. reflexivity.
Qed.

Lemma no_escalation_witness :
  length (st_log (sample_requests sample_store)) = 6%nat /\
  es_links (st_tables (sample_requests sample_store)) !! (ProjectAsset, "p1", "a2") = None /\
  is_Some (es_links (st_tables (sample_requests sample_store)) !! (ProjectAsset, "p1", "a3")) /\
  ~ reaches (fun u => u ∈ ({["u1"]} : gset string)) (st_tables (sample_requests sample_store)) ProjectAsset "a2".
Proof.
  destruct (no_escalation sample_id ∅ {["u1"]} sample_store [sample_permit] (sample_requests sample_store)
    sample_plain sample_session) as (_ & Hr & _).
  split; [vm_compute; reflexivity|]. split; [vm_compute; reflexivity|]. split; [vm_compute; by eexists|].
  intros [(P & l & _ & Hl & _)|Hn]%Hr; [|by vm_compute in Hn].
  cbn in Hl. apply lookup_insert_Some in Hl as [[[=] _]|[_ Hl]].
  by apply lookup_singleton_Some in Hl as [[=] _].
Defined.
