(* ===== verification/Path.v ===== *)
(** The route between two ends of the estate: [internal/store/path.go].

    The cables of the data plane make an adjacency of assets; a breadth-first
    search from one end gives distances, and the assets and adjacencies of every
    shortest route are marked. When there is no route over the cables whose ports
    are enabled, the ports that block one are named.

    A cable is a link row joined with its two interfaces. Go ranges over maps in
    any order; the loops here that do so only add to sets or take a minimum. The
    search visits a vertex once, so the number of vertices bounds its loop. *)
From Stdlib Require Import String Ascii Lia Sorted.
From stdpp Require Import base gmap strings list.
From S2P Require Import Prelude Status.

#[local] Open Scope string_scope.
#[local] Open Scope list_scope.
#[local] Open Scope nat_scope.

(** * Definitions *)

(** ** Cables *)

(** [NeighbourPort], the columns the route needs. *)
Record NeighbourPort := {
  np_AssetID : string; np_Name : string; np_IsMgmt : bool; np_Enabled : bool
}.

(** A row of [link], with its two ports. *)
Record NeighbourLink := {
  nl_ID : string; nl_Lifecycle : string; nl_A : NeighbourPort; nl_B : NeighbourPort
}.

(** [orderPair] *)
Definition orderPair (a b : string) : string * string := if str_ltb b a then (b, a) else (a, b).

Abbreviation Adjacency := (gmap string (list string)).

Definition neighbours (adj : Adjacency) (u : string) : list string := adj.[u | []].

(** The statement of [dataPlaneAdjacency]: the cables it reads, and whether both
    ports of one are enabled. *)
Definition data_plane (l : NeighbourLink) : bool :=
  String.eqb (nl_Lifecycle l) LifecycleActive && negb (np_IsMgmt (nl_A l)) && negb (np_IsMgmt (nl_B l)) &&
  negb (String.eqb (np_AssetID (nl_A l)) (np_AssetID (nl_B l))).
Definition both_enabled (l : NeighbourLink) : bool := np_Enabled (nl_A l) && np_Enabled (nl_B l).

(** The [add] of [dataPlaneAdjacency]: a pair already seen adds nothing. *)
Definition add_pair (st : Adjacency * gset (string * string)) (l : NeighbourLink)
    : Adjacency * gset (string * string) :=
  let '(adj, seen) := st in
  let a := np_AssetID (nl_A l) in let b := np_AssetID (nl_B l) in
  if bool_decide (orderPair a b ∈ seen) then (adj, seen)
  else
    let adj := <[a := neighbours adj a ++ [b]]> adj in
    let adj := <[b := neighbours adj b ++ [a]]> adj in
    (adj, {[orderPair a b]} ∪ seen).

(** [dataPlaneAdjacency]: the live adjacency and the patched one. *)
Definition adjacency_of (links : list NeighbourLink) : Adjacency :=
  isort str_ltb <$> fst (foldl add_pair (∅, ∅) links).
Definition dataPlaneAdjacency (links : list NeighbourLink) : Adjacency * Adjacency :=
  let rows := List.filter data_plane links in
  (adjacency_of (List.filter both_enabled rows), adjacency_of rows).

(** ** Breadth-first search *)

Abbreviation Distances := (gmap string nat).

(** The loop over the neighbours of [u]. *)
Definition discover (d : nat) (st : Distances * list string) (v : string) : Distances * list string :=
  let '(dist, queue) := st in
  match dist !! v with Some _ => st | None => (<[v := d]> dist, queue ++ [v]) end.

Fixpoint bfs_loop (fuel : nat) (adj : Adjacency) (dist : Distances) (queue : list string) : Distances :=
  match queue with
  | [] => dist
  | u :: queue' =>
      match fuel with
      | O => dist
      | S fuel' =>
          let '(dist', queue'') := foldl (discover (S (dist.[u | 0]))) (dist, queue') (neighbours adj u) in
          bfs_loop fuel' adj dist' queue''
      end
  end.

(** Every vertex the search can meet. *)
Definition vertices (adj : Adjacency) (seeds : list string) : gset string :=
  list_to_set (seeds ++ concat (map_to_list adj).*2).

(** [bfs] *)
Definition bfs (adj : Adjacency) (seeds : list string) : Distances :=
  let '(dist, queue) := foldl (discover 0) (∅, []) (isort str_ltb seeds) in
  bfs_loop (size (vertices adj seeds)) adj dist queue.

(** ** Shortest routes *)

(** The shortest way through a vertex that both searches reached. *)
Definition shorter (dh : Distances) (best : option nat) (uf : string * nat) : option nat :=
  match dh !! fst uf with
  | Some hu => match best with
               | Some d => Some (if hu + snd uf <? d then hu + snd uf else d)
               | None => Some (hu + snd uf)
               end
  | None => best
  end.

(** The marks of one vertex [u], at distance [hu] from the anchor. *)
Definition mark_vertex (adj : Adjacency) (far : Distances) (d : nat)
    (marks : gset string * gset (string * string)) (uh : string * nat)
    : gset string * gset (string * string) :=
  let '(u, hu) := uh in
  match far !! u with
  | Some fu =>
      if hu + fu =? d then
        foldl (fun '(nodes, edges) v =>
          match far !! v with
          | Some fv => if hu + 1 + fv =? d then ({[v]} ∪ nodes, {[orderPair u v]} ∪ edges) else (nodes, edges)
          | None => (nodes, edges)
          end) ({[u]} ∪ fst marks, snd marks) (neighbours adj u)
      else marks
  | None => marks
  end.

(** The [mark] of [shortestUnion]. *)
Definition mark (adj : Adjacency) (far : Distances) (marks : gset string * gset (string * string))
    (anchor : string) : gset string * gset (string * string) :=
  let dh := bfs adj [anchor] in
  match foldl (shorter dh) None (map_to_list far) with
  | None => marks
  | Some d => foldl (mark_vertex adj far d) marks (map_to_list dh)
  end.

(** [shortestUnion] *)
Definition shortestUnion (adj : Adjacency) (fromIDs toIDs : list string)
    : list string * gset (string * string) :=
  match fromIDs, toIDs with
  | [], _ | _, [] => ([], ∅)
  | _, _ =>
      let distFrom := bfs adj fromIDs in
      let distTo := bfs adj toIDs in
      let marks := foldl (mark adj distTo) (∅, ∅) fromIDs in
      let '(nodes, edges) := foldl (mark adj distFrom) marks toIDs in
      (isort str_ltb (elements nodes), edges)
  end.

(** [pathHops] *)
Definition pathHops (adj : Adjacency) (fromIDs toIDs : list string) : nat :=
  let dist := bfs adj fromIDs in
  default 0 (foldl (fun best t =>
    match dist !! t with
    | Some d => match best with Some b => Some (if d <? b then d else b) | None => Some d end
    | None => best
    end) None toIDs).

(** ** Walks *)

Inductive trail (adj : Adjacency) : nat -> string -> string -> Prop :=
  | trail_nil u : trail adj 0 u u
  | trail_snoc n s u v : trail adj n s u -> v ∈ neighbours adj u -> trail adj (S n) s v.

(** The length of the shortest walk from the set [seeds] to [v]. *)
Definition distance (adj : Adjacency) (seeds : list string) (v : string) (d : nat) : Prop :=
  (exists s, s ∈ seeds /\ trail adj d s v) /\
  forall s n, s ∈ seeds -> trail adj n s v -> d <= n.

Definition symmetric (adj : Adjacency) : Prop :=
  forall u v, v ∈ neighbours adj u -> u ∈ neighbours adj v.

(** [u] lies on a walk from [a] to the nearest of [side], and the step from [u] to
    [v] does. *)
Definition on_route (adj : Adjacency) (a : string) (side : list string) (u : string) : Prop :=
  exists n m t, t ∈ side /\ trail adj n a u /\ trail adj m u t /\ distance adj side a (n + m).

Definition route_step (adj : Adjacency) (a : string) (side : list string) (u v : string) : Prop :=
  exists n m t, t ∈ side /\ trail adj n a u /\ v ∈ neighbours adj u /\ trail adj m v t /\
    distance adj side a (S (n + m)).

(** Some anchor of one end has a walk to some anchor of the other. *)
Definition connected (adj : Adjacency) (from to : list string) : Prop :=
  exists s t n, s ∈ from /\ t ∈ to /\ trail adj n s t.

(** The cable joins [u] and [v], in either direction. *)
Definition joins (l : NeighbourLink) (u v : string) : Prop :=
  (np_AssetID (nl_A l) = u /\ np_AssetID (nl_B l) = v) \/ (np_AssetID (nl_A l) = v /\ np_AssetID (nl_B l) = u).

(** A cable of the data plane between [u] and [v]; one that is up at both ends. *)
Definition patched (links : list NeighbourLink) (u v : string) : Prop :=
  exists l, l ∈ links /\ data_plane l = true /\ joins l u v.
Definition live (links : list NeighbourLink) (u v : string) : Prop :=
  exists l, l ∈ links /\ data_plane l = true /\ both_enabled l = true /\ joins l u v.

(** * Lemmas *)

(** ** Walks *)

Lemma trail_app adj n m u v w : trail adj n u v -> trail adj m v w -> trail adj (n + m) u w.
Proof.
  intros Hu. induction 1 as [|m s x w _ IH Hw]; [by rewrite Nat.add_0_r|].
  rewrite Nat.add_succ_r. apply (trail_snoc _ _ _ x); auto.
Qed.

Lemma trail_one adj u v : v ∈ neighbours adj u -> trail adj 1 u v.
Proof. intros Hv. by apply (trail_snoc _ _ _ u); [constructor|]. Qed.

Lemma trail_rev adj n u v : symmetric adj -> trail adj n u v -> trail adj n v u.
Proof.
  intros Hs. induction 1 as [|n s x v _ IH Hv]; [constructor|].
  apply (trail_app _ 1 n v x s); [by apply trail_one, Hs|done].
Qed.

Lemma distance_unique adj seeds v d e : distance adj seeds v d -> distance adj seeds v e -> d = e.
Proof.
  intros [(s & Hs & Hw) Hmin] [(s' & Hs' & Hw') Hmin'].
  apply Nat.le_antisymm; [by apply (Hmin s')|by apply (Hmin' s)].
Qed.

(** ** The search *)

(** Discovering adds fresh vertices, at one distance, to the map and to the end of
    the queue. *)
Lemma discover_all d ns dist queue :
  exists dist' new, foldl (discover d) (dist, queue) ns = (dist', queue ++ new) /\
    (forall v e, dist !! v = Some e -> dist' !! v = Some e) /\
    (forall v e, dist' !! v = Some e -> dist !! v = Some e \/ (dist !! v = None /\ e = d /\ v ∈ new /\ v ∈ ns)) /\
    (forall v, v ∈ new -> dist' !! v = Some d /\ v ∈ ns) /\
    (forall v, v ∈ ns -> is_Some (dist' !! v)) /\
    size dist' = size dist + length new.
Proof.
  revert dist queue. induction ns as [|w ns IH]; intros dist queue; cbn [foldl].
  - exists dist, []. rewrite app_nil_r. split; [done|]. split_and!; auto; by intros v ?%elem_of_nil.
  - unfold discover at 2. destruct (dist !! w) as [e0|] eqn:Hw.
    + destruct (IH dist queue) as (dist' & new & -> & H1 & H2 & H3 & H4 & H5).
      exists dist', new. setoid_rewrite elem_of_cons. split; [done|]. split_and!; [done| | | |done].
      * intros v e Hv. destruct (H2 v e Hv) as [?|(? & ? & ? & ?)]; [by left|right; auto].
      * intros v Hv. destruct (H3 v Hv). auto.
      * intros v [->|Hv]; [eauto|auto].
    + destruct (IH (<[w := d]> dist) (queue ++ [w])) as (dist' & new & -> & H1 & H2 & H3 & H4 & H5).
      exists dist', (w :: new). rewrite <- app_assoc. setoid_rewrite elem_of_cons. split; [done|].
      split_and!.
      * intros v e Hv. apply H1. rewrite lookup_insert_ne; [done|]. by intros ->; rewrite Hw in Hv.
      * intros v e Hv. destruct (H2 v e Hv) as [Hi|(Hn & -> & ? & ?)].
        -- apply lookup_insert_Some in Hi as [[<- <-]|[_ Hi]]; [right; auto|by left].
        -- apply lookup_insert_None in Hn as [Hn _]. right. auto.
      * intros v [->|Hv]; [split; [apply H1, lookup_insert_eq|by left]|]. destruct (H3 v Hv). auto.
      * intros v [->|Hv]; [exists d; apply H1, lookup_insert_eq|auto].
      * rewrite H5, map_size_insert_None by done. cbn. lia.
Qed.

Section Search.
Context (adj : Adjacency) (seeds : list string).

(** What holds whenever the loop tests the queue: distances are those of walks,
    every vertex not in the queue has been expanded, and the queue is in the order
    of its distances, which are those of the last level and the next. *)
Record bfs_inv (dist : Distances) (queue : list string) : Prop := {
  bi_sound : forall v d, dist !! v = Some d -> exists s, s ∈ seeds /\ trail adj d s v;
  bi_seeds : forall s, s ∈ seeds -> dist !! s = Some 0;
  bi_queue : forall v, v ∈ queue -> is_Some (dist !! v);
  bi_done : forall u d v, dist !! u = Some d -> u ∉ queue -> v ∈ neighbours adj u ->
    exists e, dist !! v = Some e /\ e <= S d;
  bi_level : forall u queue' v d e, queue = u :: queue' -> dist !! u = Some d -> dist !! v = Some e -> e <= S d;
  bi_sorted : StronglySorted (fun u v => forall d e, dist !! u = Some d -> dist !! v = Some e -> d <= e) queue
}.

Lemma sorted_extend (dist dist' : Distances) queue :
  (forall v, v ∈ queue -> is_Some (dist !! v)) ->
  (forall v e, dist !! v = Some e -> dist' !! v = Some e) ->
  StronglySorted (fun u v => forall d e, dist !! u = Some d -> dist !! v = Some e -> d <= e) queue ->
  StronglySorted (fun u v => forall d e, dist' !! u = Some d -> dist' !! v = Some e -> d <= e) queue.
Proof.
  intros Hq Hext Hs. induction Hs as [|u queue _ IH Hf]; constructor.
  - apply IH. intros v Hv. apply Hq. by right.
  - rewrite Forall_forall in Hf |- *. intros v Hv d e Hd He.
    destruct (Hq u) as [d0 Hd0]; [by left|]. destruct (Hq v) as [e0 He0]; [by right|].
    pose proof (Hext _ _ Hd0). pose proof (Hext _ _ He0). simplify_eq. by apply (Hf v Hv).
Qed.

Lemma sorted_app_last (R : string -> string -> Prop) q new :
  StronglySorted R q -> StronglySorted R new -> (forall u v, u ∈ q -> v ∈ new -> R u v) ->
  StronglySorted R (q ++ new).
Proof.
  intros Hq Hn Hc. induction Hq as [|u q _ IH Hf]; [done|]. cbn. constructor.
  - apply IH. intros v w Hv Hw. apply Hc; [by right|done].
  - apply Forall_app. split; [done|]. apply Forall_forall. intros v Hv. apply Hc; [by left|done].
Qed.

Lemma sorted_same (R : string -> string -> Prop) l : (forall u v, u ∈ l -> v ∈ l -> R u v) -> StronglySorted R l.
Proof.
  induction l as [|u l IH]; intros Hr; constructor.
  - apply IH. intros v w Hv Hw. apply Hr; by right.
  - apply Forall_forall. intros v Hv. apply Hr; [by left|by right].
Qed.

Lemma bfs_step dist queue u queue' :
  bfs_inv dist queue -> queue = u :: queue' ->
  exists dist' new, foldl (discover (S (dist.[u | 0]))) (dist, queue') (neighbours adj u) = (dist', queue' ++ new) /\
    bfs_inv dist' (queue' ++ new) /\ size dist' = size dist + length new.
Proof.
  intros [B1 B2 B3 B4 B5 B6] ->. destruct (B3 u) as [d Hd]; [by left|].
  replace (dist.[u | 0]) with d by (by rewrite Hd).
  destruct (discover_all (S d) (neighbours adj u) dist queue') as (dist' & new & -> & H1 & H2 & H3 & H4 & H5).
  exists dist', new. split; [done|]. split; [|done].
  assert (Hle : forall v e, dist' !! v = Some e -> e <= S d).
  { intros v e [Hv|(_ & -> & _)]%H2; [by apply (B5 u queue' v d e)|lia]. }
  inversion B6 as [|? ? Hs Hf]; subst. rewrite Forall_forall in Hf. split.
  - intros v e [Hv|(_ & -> & _ & Hv)]%H2; [by apply B1|]. destruct (B1 u d Hd) as (s & Hs' & Hw).
    exists s. split; [done|]. by apply (trail_snoc _ _ _ u).
  - intros s Hs'. by apply H1, B2.
  - intros v [Hv|Hv]%elem_of_app; [|by eexists; apply H3].
    destruct (B3 v) as [e He]; [by right|]. eauto.
  - intros w e v Hw Hn Hv. apply H2 in Hw as [Hw|(_ & _ & Hnew & _)].
    + destruct (decide (w = u)) as [->|Hne].
      * simplify_eq. destruct (H4 v Hv) as [e' He']. exists e'. split; [done|]. by apply (Hle v).
      * destruct (B4 w e v Hw) as (e' & He' & Hle'); [|done|exists e'; auto].
        intros [->|Hq]%elem_of_cons; [done|]. apply Hn, elem_of_app. by left.
    + exfalso. apply Hn, elem_of_app. by right.
  - intros w queue'' v dw e Hq Hw He. etransitivity; [by apply (Hle v)|]. apply le_n_S.
    destruct queue' as [|q queue']; cbn in Hq.
    + assert (Hin : w ∈ new) by (rewrite Hq; left). apply H3 in Hin as [Hin _]. simplify_eq. lia.
    + injection Hq as -> _. destruct (B3 w) as [dw0 Hdw0]; [right; left|].
      pose proof (H1 _ _ Hdw0). simplify_eq. by apply (Hf w); [left|..].
  - apply sorted_app_last.
    + apply (sorted_extend dist); [|done|done]. intros v Hv. apply B3. by right.
    + apply sorted_same. intros v w Hv Hw dv dw Hdv Hdw. apply H3 in Hv as [Hv _], Hw as [Hw _]. simplify_eq. lia.
    + intros v w Hv Hw dv dw Hdv Hdw. apply H3 in Hw as [Hw _]. simplify_eq.
      by apply (Hle v).
Qed.

Lemma trail_vertices d s v : s ∈ seeds -> trail adj d s v -> v ∈ vertices adj seeds.
Proof.
  unfold vertices. rewrite elem_of_list_to_set, elem_of_app, (list_elem_of_In (concat _)), in_concat.
  intros Hs. inversion 1 as [|n ? u ? Hw Hv]; subst; [by left|right].
  unfold neighbours in Hv. destruct (adj !! u) as [ns|] eqn:Hu; cbn in Hv; [|by apply elem_of_nil in Hv].
  exists ns. split; [|by apply list_elem_of_In]. apply list_elem_of_In, list_elem_of_fmap.
  exists (u, ns). split; [done|]. by apply elem_of_map_to_list.
Qed.

Lemma inv_bounded dist queue : bfs_inv dist queue -> size dist <= size (vertices adj seeds).
Proof.
  intros Hi. rewrite <- size_dom. apply subseteq_size. intros v [d Hd]%elem_of_dom.
  destruct (bi_sound _ _ Hi v d Hd) as (s & Hs & Hw). by apply (trail_vertices d s).
Qed.

(** The loop ends with an empty queue: the vertices not discovered yet and the
    queue together bound the turns left. *)
Lemma bfs_loop_inv fuel dist queue :
  bfs_inv dist queue -> size (vertices adj seeds) + length queue <= fuel + size dist ->
  bfs_inv (bfs_loop fuel adj dist queue) [].
Proof.
  revert dist queue. induction fuel as [|fuel IH]; intros dist [|u queue] Hi Hm; [done| |done|].
  { pose proof (inv_bounded _ _ Hi). cbn in Hm. lia. }
  cbn [bfs_loop]. destruct (bfs_step dist (u :: queue) u queue Hi eq_refl) as (dist' & new & -> & Hi' & Hsz).
  apply IH; [done|]. rewrite length_app. cbn in Hm. lia.
Qed.

Lemma bfs_start dist queue :
  foldl (discover 0) (∅, []) (isort str_ltb seeds) = (dist, queue) -> bfs_inv dist queue /\ size dist = length queue.
Proof.
  destruct (discover_all 0 (isort str_ltb seeds) ∅ []) as (dist' & new & -> & H1 & H2 & H3 & H4 & H5).
  intros [= <- <-]. cbn [app]. split; [|by rewrite H5, map_size_empty].
  assert (Hz : forall v e, dist' !! v = Some e -> e = 0 /\ v ∈ new /\ v ∈ seeds).
  { intros v e [Hv|(_ & -> & Hn & Hv)]%H2; [by rewrite lookup_empty in Hv|]. by rewrite isort_perm in Hv. }
  split.
  - intros v d (-> & _ & Hv)%Hz. exists v. split; [done|constructor].
  - intros s Hs. destruct (H4 s) as [e He]; [by rewrite isort_perm|]. by destruct (Hz s e He) as [-> _].
  - intros v Hv. eexists. by apply H3.
  - intros u d v (_ & Hn & _)%Hz Hq. done.
  - intros u queue' v d e _ _ [-> _]%Hz. lia.
  - apply sorted_same. intros u v _ _ d e [-> _]%Hz [-> _]%Hz. lia.
Qed.

(** What an emptied queue leaves is the distance to every vertex a walk reaches. *)
Lemma inv_reach dist n s v :
  bfs_inv dist [] -> s ∈ seeds -> trail adj n s v -> exists e, dist !! v = Some e /\ e <= n.
Proof.
  intros Hi Hs. induction 1 as [s|n s u w Hw IH Hv]; [exists 0; split; [by apply (bi_seeds _ _ Hi)|lia]|].
  destruct (IH Hs) as (e & He & Hle). destruct (bi_done _ _ Hi u e w He) as (e' & He' & Hle'); [by apply not_elem_of_nil|done|].
  exists e'. split; [done|lia].
Qed.

Lemma inv_distance dist v d : bfs_inv dist [] -> dist !! v = Some d <-> distance adj seeds v d.
Proof.
  intros Hi. split.
  - intros Hd. split; [by apply (bi_sound _ _ Hi)|]. intros s n Hs Hw.
    destruct (inv_reach dist n s v Hi Hs Hw) as (e & He & Hle). by simplify_eq.
  - intros [(s & Hs & Hw) Hmin]. destruct (inv_reach dist d s v Hi Hs Hw) as (e & He & Hle).
    rewrite He. f_equal. destruct (bi_sound _ _ Hi v e He) as (s' & Hs' & Hw').
    apply (Nat.le_antisymm _ _ Hle). by apply (Hmin s').
Qed.

Lemma bfs_done : bfs_inv (bfs adj seeds) [].
Proof.
  unfold bfs. destruct (foldl _ _ _) as [dist queue] eqn:Hf. destruct (bfs_start _ _ Hf) as [Hi Hs].
  apply bfs_loop_inv; [done|]. rewrite Hs. lia.
Qed.

Lemma bfs_distance v d : bfs adj seeds !! v = Some d <-> distance adj seeds v d.
Proof. apply inv_distance, bfs_done. Qed.

Lemma bfs_reach n s v : s ∈ seeds -> trail adj n s v -> exists e, bfs adj seeds !! v = Some e /\ e <= n.
Proof. apply inv_reach, bfs_done. Qed.
End Search.

(** ** Minima and collections over loops *)

(** The step of a minimum over the values that are there. *)
Definition least {A} (f : A -> option nat) (best : option nat) (x : A) : option nat :=
  match f x with
  | Some n => match best with Some b => Some (if n <? b then n else b) | None => Some n end
  | None => best
  end.

Lemma foldl_least_from {A} (f : A -> option nat) l best :
  match foldl (least f) best l with
  | None => best = None /\ forall x, x ∈ l -> f x = None
  | Some d => (best = Some d \/ exists x, x ∈ l /\ f x = Some d) /\
              (forall b, best = Some b -> d <= b) /\ forall x n, x ∈ l -> f x = Some n -> d <= n
  end.
Proof.
  revert best. induction l as [|x l IH]; intros best; cbn [foldl].
  { destruct best as [d|].
    - split_and!; [by left|by intros b [= ->]|by intros y n ?%elem_of_nil].
    - split; [done|]. by intros y ?%elem_of_nil. }
  specialize (IH (least f best x)).
  assert (Hl1 : x ∈ x :: l) by left. assert (Hl2 : forall y, y ∈ l -> y ∈ x :: l) by (intros; by right).
  destruct (f x) as [n|] eqn:Hx.
  - assert (Hb : exists b, least f best x = Some b /\ b <= n /\ (forall b0, best = Some b0 -> b <= b0) /\
                   (b = n \/ best = Some b)).
    { unfold least. rewrite Hx. destruct best as [b|]; [|exists n; split_and!; [done|lia|done|by left]].
      destruct (Nat.ltb_spec n b); eexists; split_and!; eauto; intros ? [= <-]; lia. }
    destruct Hb as (b & Hb & Hn & Hall & Hor). rewrite Hb in IH |- *.
    destruct (foldl _ _ l) as [d|]; [|by destruct IH]. destruct IH as (Hd & Hmin & Hl). specialize (Hmin b eq_refl).
    split_and!.
    + destruct Hd as [[= ->]|(y & Hy & Hd)]; [|right; eauto]. destruct Hor as [->|?]; [right; eauto|by left].
    + intros b0 H0. specialize (Hall b0 H0). lia.
    + intros y m [->|Hy]%elem_of_cons Hm; [simplify_eq; lia|eauto].
  - assert (Hb : least f best x = best) by (unfold least; by rewrite Hx). rewrite Hb in IH |- *.
    destruct (foldl _ _ l) as [d|].
    + destruct IH as (Hd & Hmin & Hl). split_and!; [|done|].
      * destruct Hd as [?|(y & ? & ?)]; [by left|right; eauto].
      * intros y m [->|Hy]%elem_of_cons Hm; [by rewrite Hx in Hm|eauto].
    + destruct IH as [? Hl]. split; [done|]. intros y [->|Hy]%elem_of_cons; auto.
Qed.

Lemma foldl_least {A} (f : A -> option nat) l d :
  foldl (least f) None l = Some d <->
  (exists x, x ∈ l /\ f x = Some d) /\ forall x n, x ∈ l -> f x = Some n -> d <= n.
Proof.
  pose proof (foldl_least_from f l None) as Hl. destruct (foldl _ _ _) as [e|].
  - destruct Hl as ([?|(x & Hx & He)] & _ & Hmin); [done|]. split; [intros [= ->]; eauto|].
    intros [(y & Hy & Hd) Hmin']. f_equal. apply Nat.le_antisymm; eauto.
  - destruct Hl as [_ Hl]. split; [done|]. intros [(x & Hx & Hd) _]. by rewrite Hl in Hd.
Qed.

Lemma foldl_least_None {A} (f : A -> option nat) l :
  foldl (least f) None l = None <-> forall x, x ∈ l -> f x = None.
Proof.
  pose proof (foldl_least_from f l None) as Hl. destruct (foldl _ _ _) as [e|]; [|by destruct Hl].
  split; [done|]. intros Hn. destruct Hl as ([?|(x & Hx & He)] & _); [done|]. by rewrite Hn in He.
Qed.

(** A loop that only adds to what is collected. *)
Lemma foldl_collect {A B} (f : A -> B -> A) (P : A -> Prop) (Q : B -> Prop) l a :
  (forall a x, P (f a x) <-> P a \/ Q x) -> P (foldl f a l) <-> P a \/ exists x, x ∈ l /\ Q x.
Proof.
  intros Hf. revert a. induction l as [|x l IH]; intros a; cbn [foldl].
  - split; [by left|]. intros [?|(x & Hx & _)]; [done|by apply elem_of_nil in Hx].
  - rewrite IH, Hf. setoid_rewrite elem_of_cons. firstorder (subst; eauto).
Qed.

(** ** Marking *)

Section Marking.
Context (adj : Adjacency) (Hsym : symmetric adj) (a : string) (side : list string).
#[local] Abbreviation dh := (bfs adj [a]).
#[local] Abbreviation far := (bfs adj side).

Lemma from_anchor u h : dh !! u = Some h -> trail adj h a u.
Proof. intros [(s & ->%list_elem_of_singleton & Hw) _]%bfs_distance. done. Qed.

Lemma anchor_reaches n u : trail adj n a u -> exists h, dh !! u = Some h /\ h <= n.
Proof. apply bfs_reach. by left. Qed.

Lemma to_side u f : far !! u = Some f -> exists t, t ∈ side /\ trail adj f u t.
Proof. intros [(t & Ht & Hw) _]%bfs_distance. eauto using trail_rev. Qed.

Lemma side_reached n u t : t ∈ side -> trail adj n u t -> exists f, far !! u = Some f /\ f <= n.
Proof. intros Ht Hw%(trail_rev _ _ _ _ Hsym). by apply (bfs_reach adj side n t). Qed.

(** Through any vertex the way is no shorter than the way there is. *)
Lemma through u h f : dh !! u = Some h -> far !! u = Some f -> exists d, far !! a = Some d /\ d <= h + f.
Proof.
  intros Hh%from_anchor (t & Ht & Hf)%to_side. apply (side_reached _ _ t Ht). by apply (trail_app _ _ _ _ u).
Qed.

Lemma anchor_zero : dh !! a = Some 0.
Proof. destruct (anchor_reaches 0 a) as (h & Hh & Hle); [constructor|]. by replace 0 with h by lia. Qed.

Lemma route_length : foldl (shorter dh) None (map_to_list far) = far !! a.
Proof.
  rewrite (foldl_pointwise _ (least (fun uf : string * nat => (fun hu => hu + uf.2) <$> dh !! uf.1))).
  2: { intros best [u fu]. unfold shorter, least. cbn. by destruct (dh !! u). }
  destruct (far !! a) as [d|] eqn:Hd.
  - apply foldl_least. split.
    + exists (a, d). rewrite elem_of_map_to_list. cbn. by rewrite anchor_zero.
    + intros [u f] n Hf%elem_of_map_to_list (h & Hh & ->)%fmap_Some. cbn in *.
      destruct (through u h f Hh Hf) as (e & He & Hle). by simplify_eq.
  - apply foldl_least_None. intros [u f] Hf%elem_of_map_to_list. cbn. destruct (dh !! u) as [h|] eqn:Hh; [|done].
    destruct (through u h f Hh Hf) as (e & He & _). by simplify_eq.
Qed.

Lemma on_route_iff u :
  on_route adj a side u <-> exists d h f, far !! a = Some d /\ dh !! u = Some h /\ far !! u = Some f /\ h + f = d.
Proof.
  split.
  - intros (n & m & t & Ht & Hn & Hm & Hd%bfs_distance).
    destruct (anchor_reaches n u Hn) as (h & Hh & ?), (side_reached m u t Ht Hm) as (f & Hf & ?).
    destruct (through u h f Hh Hf) as (d & Hd' & ?). exists d, h, f. simplify_eq. split_and!; auto; lia.
  - intros (d & h & f & Hd & Hh%from_anchor & (t & Ht & Hf)%to_side & <-). exists h, f, t.
    split_and!; auto. by apply bfs_distance.
Qed.

Lemma route_step_iff u v :
  route_step adj a side u v <->
  v ∈ neighbours adj u /\
  exists d h f g, far !! a = Some d /\ dh !! u = Some h /\ far !! u = Some f /\ h + f = d /\
    far !! v = Some g /\ h + 1 + g = d.
Proof.
  split.
  - intros (n & m & t & Ht & Hn & Hv & Hm & Hd%bfs_distance). split; [done|].
    destruct (anchor_reaches n u Hn) as (h & Hh & ?), (side_reached m v t Ht Hm) as (g & Hg & ?).
    destruct (side_reached (1 + m) u t Ht) as (f & Hf & ?); [by apply (trail_app _ 1 m u v t); [apply trail_one|]|].
    destruct (through u h f Hh Hf) as (d & Hd' & ?). apply to_side in Hg as Hg'. destruct Hg' as (t' & Ht' & Hg').
    destruct (side_reached (1 + g) u t' Ht') as (f' & Hf' & ?); [by apply (trail_app _ 1 g u v t'); [apply trail_one|]|].
    exists d, h, f, g. simplify_eq. split_and!; auto; lia.
  - intros (Hv & d & h & f & g & Hd & Hh%from_anchor & _ & _ & (t & Ht & Hg)%to_side & <-). exists h, g, t.
    split_and!; auto. replace (S (h + g)) with (h + 1 + g) by lia. by apply bfs_distance.
Qed.

(** The step forward lands on a vertex of a route. *)
Lemma step_on_route u v : route_step adj a side u v -> on_route adj a side v.
Proof.
  intros (n & m & t & Ht & Hn & Hv & Hm & Hd). exists (n + 1), m, t. split_and!; auto.
  - apply (trail_app _ _ _ _ u); [done|]. by apply trail_one.
  - by replace (n + 1 + m) with (S (n + m)) by lia.
Qed.
(** What one vertex of the anchor's search adds. *)
Definition adds_node (d : nat) (u : string) (xh : string * nat) : Prop :=
  exists f, far !! xh.1 = Some f /\ xh.2 + f = d /\
    (u = xh.1 \/ u ∈ neighbours adj xh.1 /\ exists g, far !! u = Some g /\ xh.2 + 1 + g = d).
Definition adds_edge (d : nat) (e : string * string) (xh : string * nat) : Prop :=
  exists f, far !! xh.1 = Some f /\ xh.2 + f = d /\
    exists v, v ∈ neighbours adj xh.1 /\ e = orderPair xh.1 v /\ exists g, far !! v = Some g /\ xh.2 + 1 + g = d.

Lemma mark_vertex_nodes d marks xh u :
  u ∈ (mark_vertex adj far d marks xh).1 <-> u ∈ marks.1 \/ adds_node d u xh.
Proof.
  destruct xh as [x h]. unfold mark_vertex, adds_node; cbn [fst snd]. destruct (far !! x) as [f|]; [|firstorder congruence].
  destruct (Nat.eqb_spec (h + f) d) as [Hd|Hd]; [|firstorder congruence].
  rewrite (foldl_collect _ (fun m : gset string * gset (string * string) => u ∈ m.1)
             (fun v => v = u /\ exists g, far !! v = Some g /\ h + 1 + g = d)).
  2: { intros [ns es] v. destruct (far !! v) as [g|]; [|firstorder congruence].
       destruct (Nat.eqb_spec (h + 1 + g) d); cbn; [rewrite elem_of_union, elem_of_singleton|];
         firstorder (subst; eauto; congruence). }
  cbn. rewrite elem_of_union, elem_of_singleton. split.
  - intros [[->|?]|(v & Hv & -> & g & Hg)]; [right; eauto|by left|right; eauto 10].
  - intros [?|(f' & [= <-] & _ & [->|(Hv & g & Hg)])]; [auto|auto|right; eauto].
Qed.

Lemma mark_vertex_edges d marks xh e :
  e ∈ (mark_vertex adj far d marks xh).2 <-> e ∈ marks.2 \/ adds_edge d e xh.
Proof.
  destruct xh as [x h]. unfold mark_vertex, adds_edge; cbn [fst snd]. destruct (far !! x) as [f|]; [|firstorder congruence].
  destruct (Nat.eqb_spec (h + f) d) as [Hd|Hd]; [|firstorder congruence].
  rewrite (foldl_collect _ (fun m : gset string * gset (string * string) => e ∈ m.2)
             (fun v => e = orderPair x v /\ exists g, far !! v = Some g /\ h + 1 + g = d)).
  2: { intros [ns es] v. destruct (far !! v) as [g|]; [|firstorder congruence].
       destruct (Nat.eqb_spec (h + 1 + g) d); cbn; [rewrite elem_of_union, elem_of_singleton|];
         firstorder (subst; eauto; congruence). }
  cbn. split; [intros [?|(v & ? & ? & ?)]|intros [?|(f' & [= <-] & _ & v & ? & ? & ?)]]; eauto 10.
Qed.

Lemma mark_nodes marks u : u ∈ (mark adj far marks a).1 <-> u ∈ marks.1 \/ on_route adj a side u.
Proof.
  unfold mark. rewrite route_length. destruct (far !! a) as [d|] eqn:Hd.
  2: { rewrite on_route_iff. split; [by left|]. intros [?|(d & ? & ? & ? & _)]; congruence. }
  rewrite (foldl_collect _ (fun m : gset string * gset (string * string) => u ∈ m.1) (adds_node d u)) by
    (intros; apply mark_vertex_nodes).
  apply or_iff_compat_l. split.
  - intros ([x h] & Hh%elem_of_map_to_list & f & Hf & He & [->|(Hv & g & Hg & Heq)]).
    + apply on_route_iff. eauto 10.
    + apply (step_on_route x), route_step_iff. eauto 12.
  - intros (d' & h & f & Hd' & Hh & Hf & Heq)%on_route_iff. simplify_eq.
    exists (u, h). rewrite elem_of_map_to_list. split; [done|]. exists f. cbn. auto.
Qed.

Lemma mark_edges marks e :
  e ∈ (mark adj far marks a).2 <->
  e ∈ marks.2 \/ exists u v, e = orderPair u v /\ route_step adj a side u v.
Proof.
  unfold mark. rewrite route_length. destruct (far !! a) as [d|] eqn:Hd.
  2: { setoid_rewrite route_step_iff. split; [by left|]. intros [?|(u & v & _ & _ & d & ? & ? & ? & ? & _)]; congruence. }
  rewrite (foldl_collect _ (fun m : gset string * gset (string * string) => e ∈ m.2) (adds_edge d e)) by
    (intros; apply mark_vertex_edges).
  apply or_iff_compat_l. setoid_rewrite route_step_iff. split.
  - intros ([x h] & Hh%elem_of_map_to_list & f & Hf & Heq & v & Hv & -> & g & Hg & Hs). eauto 15.
  - intros (u & v & -> & Hv & d' & h & f & g & Hd' & Hh & Hf & Heq & Hg & Hs). simplify_eq.
    exists (u, h). rewrite elem_of_map_to_list. split; [done|]. exists f. cbn. eauto 10.
Qed.

End Marking.

(** An anchor is on a route of its own exactly when it reaches the far side. *)
Lemma connected_route adj a side :
  symmetric adj -> (exists u, on_route adj a side u) <-> exists t n, t ∈ side /\ trail adj n a t.
Proof.
  intros Hsym. split.
  - intros (u & n & m & t & Ht & Hn & Hm & _). exists t, (n + m). split; [done|]. by apply (trail_app _ _ _ _ u).
  - intros (t & n & Ht & Hw). apply (trail_rev _ _ _ _ Hsym) in Hw as Hr.
    destruct (bfs_reach adj side n t a Ht Hr) as (d & Hd%bfs_distance & _). pose proof Hd as [(t' & Ht' & Hw') _].
    exists a, 0, d, t'. split_and!; [done|constructor|by apply trail_rev|done].
Qed.

Lemma no_route adj a u : ~ on_route adj a [] u.
Proof. intros (n & m & t & Ht & _). by apply elem_of_nil in Ht. Qed.

Lemma no_step adj a u v : ~ route_step adj a [] u v.
Proof. intros (n & m & t & Ht & _). by apply elem_of_nil in Ht. Qed.

Lemma union_marks adj from to nodes edges :
  symmetric adj -> shortestUnion adj from to = (nodes, edges) ->
  (forall u, u ∈ nodes <-> (exists a, a ∈ from /\ on_route adj a to u) \/ (exists a, a ∈ to /\ on_route adj a from u)) /\
  (forall e, e ∈ edges <->
     (exists a, a ∈ from /\ exists u v, e = orderPair u v /\ route_step adj a to u v) \/
     (exists a, a ∈ to /\ exists u v, e = orderPair u v /\ route_step adj a from u v)) /\
  sorted_by str_ltb nodes.
Proof.
  intros Hsym Hu.
  destruct (decide (from = [] \/ to = [])) as [He|He].
  { assert (nodes = [] /\ edges = ∅) as [-> ->].
    { unfold shortestUnion in Hu. destruct He as [->| ->]; [|destruct from]; by injection Hu as <- <-. }
    split_and!; [intros x; split..|constructor]; try set_solver.
    all: destruct He as [->| ->]; intros [(a & Ha & H)|(a & Ha & H)]; try by apply elem_of_nil in Ha.
    all: try by apply no_route in H. all: by destruct H as (? & ? & _ & H%no_step). }
  assert (Hf : from <> [] /\ to <> []) by tauto. unfold shortestUnion in Hu.
  destruct from as [|f from]; [tauto|]. destruct to as [|t to]; [tauto|].
  destruct (foldl (mark adj (bfs adj (f :: from))) _ _) as [ns es] eqn:Hm. injection Hu as <- <-.
  assert (Hns : ns = (ns, es).1) by done. assert (Hes : es = (ns, es).2) by done. rewrite <- Hm in Hns, Hes.
  split_and!.
  - intros u. rewrite elem_of_isort, elem_of_elements, Hns.
    rewrite (foldl_collect _ (fun m : gset string * gset (string * string) => u ∈ m.1)
               (fun a => on_route adj a (f :: from) u)) by (intros; by apply mark_nodes).
    rewrite (foldl_collect _ (fun m : gset string * gset (string * string) => u ∈ m.1)
               (fun a => on_route adj a (t :: to) u)) by (intros; by apply mark_nodes).
    cbn. set_solver.
  - intros e. rewrite Hes.
    rewrite (foldl_collect _ (fun m : gset string * gset (string * string) => e ∈ m.2)
               (fun a => exists u v, e = orderPair u v /\ route_step adj a (f :: from) u v)) by (intros; by apply mark_edges).
    rewrite (foldl_collect _ (fun m : gset string * gset (string * string) => e ∈ m.2)
               (fun a => exists u v, e = orderPair u v /\ route_step adj a (t :: to) u v)) by (intros; by apply mark_edges).
    cbn. set_solver.
  - apply isort_sorted; apply _.
Qed.

(** ** The adjacency of the cables *)

Lemma str_ltb_asym_ne a b : a <> b -> str_ltb b a = negb (str_ltb a b).
Proof.
  intros Hne. destruct (str_ltb a b) eqn:H1, (str_ltb b a) eqn:H2; auto.
  - by rewrite (sw_asym _ _ H1) in H2.
  - destruct Hne. by apply str_ltb_total.
Qed.

Lemma orderPair_eq a b u v : orderPair u v = orderPair a b <-> (a = u /\ b = v) \/ (a = v /\ b = u).
Proof.
  unfold orderPair. destruct (decide (a = b)) as [->|Hab].
  { rewrite str_ltb_irrefl. destruct (str_ltb v u) eqn:Huv; split; intuition congruence. }
  destruct (decide (u = v)) as [->|Huv].
  { rewrite str_ltb_irrefl. destruct (str_ltb b a); split; intuition congruence. }
  split.
  - destruct (str_ltb v u), (str_ltb b a); intros [= ? ?]; auto.
  - intros [[-> ->]|[-> ->]]; [done|]. rewrite (str_ltb_asym_ne v u) by congruence. by destruct (str_ltb v u).
Qed.

Lemma orderPair_comm u v : orderPair u v = orderPair v u.
Proof. apply orderPair_eq. auto. Qed.

Lemma neighbours_insert adj a ns u : neighbours (<[a := ns]> adj) u = if decide (a = u) then ns else neighbours adj u.
Proof. unfold neighbours. rewrite lookup_insert. by destruct (decide (a = u)). Qed.

Lemma add_pair_inv links adj seen :
  Forall (fun l => np_AssetID (nl_A l) <> np_AssetID (nl_B l)) links ->
  (forall u v, v ∈ neighbours adj u <-> orderPair u v ∈ seen) ->
  forall u v, v ∈ neighbours (foldl add_pair (adj, seen) links).1 u <->
    orderPair u v ∈ (foldl add_pair (adj, seen) links).2.
Proof.
  intros Hl. revert adj seen. induction Hl as [|l links Hne _ IH]; intros adj seen Hi; [done|].
  cbn [foldl add_pair]. case_bool_decide as Hs; [by apply IH|]. apply IH. intros u v.
  rewrite elem_of_union, elem_of_singleton, orderPair_eq, <- Hi, !neighbours_insert.
  destruct (decide (np_AssetID (nl_A l) = np_AssetID (nl_B l))) as [|_]; [done|].
  destruct (decide (np_AssetID (nl_B l) = u)) as [<-|]; [|destruct (decide (np_AssetID (nl_A l) = u)) as [<-|]].
  all: rewrite ?elem_of_app, ?list_elem_of_singleton; intuition congruence.
Qed.

Lemma adjacency_of_spec links u v :
  Forall (fun l => np_AssetID (nl_A l) <> np_AssetID (nl_B l)) links ->
  v ∈ neighbours (adjacency_of links) u <-> exists l, l ∈ links /\ joins l u v.
Proof.
  intros Hl. unfold adjacency_of, neighbours at 1. rewrite lookup_fmap.
  transitivity (v ∈ neighbours (foldl add_pair (∅, ∅) links).1 u).
  { unfold neighbours. destruct (_ !! u); cbn; [by rewrite elem_of_isort|done]. }
  rewrite add_pair_inv; [|done|]. 2: { intros x y. unfold neighbours. rewrite lookup_empty. cbn. set_solver. }
  rewrite (foldl_collect _ (fun st : Adjacency * gset (string * string) => orderPair u v ∈ st.2) (fun l => joins l u v)).
  { cbn. set_solver. }
  intros [adj seen] l. unfold add_pair, joins. rewrite <- orderPair_eq.
  case_bool_decide as Hs; cbn; [|set_solver]. split; [by left|]. by intros [?| ->].
Qed.

Lemma data_plane_ne links (p : NeighbourLink -> bool) :
  (forall l, p l = true -> data_plane l = true) ->
  Forall (fun l => np_AssetID (nl_A l) <> np_AssetID (nl_B l)) (List.filter p links).
Proof.
  intros Hp. apply Forall_forall. intros l [_ Hl%Hp]%list_elem_of_In%filter_In.
  unfold data_plane in Hl. apply andb_true_iff in Hl as [_ Hl]. by apply negb_true_iff, String.eqb_neq in Hl.
Qed.

Lemma live_neighbours links u v : v ∈ neighbours (dataPlaneAdjacency links).1 u <-> live links u v.
Proof.
  cbn. rewrite adjacency_of_spec.
  - unfold live. setoid_rewrite list_elem_of_In. setoid_rewrite filter_In. setoid_rewrite filter_In. firstorder.
  - apply Forall_forall. intros l [Hl _]%list_elem_of_In%filter_In. apply list_elem_of_In in Hl. revert l Hl.
    apply Forall_forall, data_plane_ne. done.
Qed.

Lemma patched_neighbours links u v : v ∈ neighbours (dataPlaneAdjacency links).2 u <-> patched links u v.
Proof.
  cbn. rewrite adjacency_of_spec by by apply data_plane_ne.
  unfold patched. setoid_rewrite list_elem_of_In. setoid_rewrite filter_In. firstorder.
Qed.

Lemma joins_sym l u v : joins l u v <-> joins l v u.
Proof. unfold joins. tauto. Qed.

Lemma live_symmetric links : symmetric (dataPlaneAdjacency links).1.
Proof. intros u v. rewrite !live_neighbours. intros (l & ? & ? & ? & ?%joins_sym). by exists l. Qed.

Lemma patched_symmetric links : symmetric (dataPlaneAdjacency links).2.
Proof. intros u v. rewrite !patched_neighbours. intros (l & ? & ? & ?%joins_sym). by exists l. Qed.

(** ** Ends that are joined *)

(** A route is marked when the ends are joined, and only then. *)
Lemma union_connected adj from to :
  symmetric adj -> (shortestUnion adj from to).1 <> [] <-> connected adj from to.
Proof.
  intros Hsym. destruct (shortestUnion adj from to) as [nodes edges] eqn:Hu. cbn.
  destruct (union_marks adj from to nodes edges Hsym Hu) as (Hn & _). split.
  - destruct nodes as [|u nodes]; [done|]. intros _. destruct (proj1 (Hn u)) as [(a & Ha & Hr)|(a & Ha & Hr)]; [by left|..].
    + destruct (proj1 (connected_route adj a to Hsym)) as (t & n & Ht & Hw); [by exists u|]. by exists a, t, n.
    + destruct (proj1 (connected_route adj a from Hsym)) as (t & n & Ht & Hw); [by exists u|].
      exists t, a, n. split_and!; auto. by apply trail_rev.
  - intros (s & t & n & Hs & Ht & Hw). destruct (proj2 (connected_route adj s to Hsym)) as (u & Hr); [eauto|].
    intros ->. apply (not_elem_of_nil u), Hn. left. eauto.
Qed.

Lemma hops_least adj from to :
  connected adj from to ->
  (exists s t, s ∈ from /\ t ∈ to /\ trail adj (pathHops adj from to) s t) /\
  forall s t n, s ∈ from -> t ∈ to -> trail adj n s t -> pathHops adj from to <= n.
Proof.
  intros (s & t & n & Hs & Ht & Hw). unfold pathHops.
  rewrite (foldl_pointwise _ (least (fun t => bfs adj from !! t))).
  2: { intros best x. unfold least. by destruct (bfs adj from !! x). }
  destruct (foldl _ None to) as [d|] eqn:Hf; cbn.
  - apply foldl_least in Hf as [(t' & Ht' & Hd) Hmin]. apply bfs_distance in Hd as Hdist.
    destruct Hdist as [(s' & Hs' & Hw') _]. split; [eauto 10|]. intros s1 t1 n1 H1 H2 H3.
    destruct (bfs_reach adj from n1 s1 t1 H1 H3) as (e & He & Hle). specialize (Hmin t1 e H2 He). lia.
  - rewrite foldl_least_None in Hf. destruct (bfs_reach adj from n s t Hs Hw) as (e & He & _). by rewrite Hf in He.
Qed.

(** * Theorems *)

(** The breadth-first search ends, and its map holds exactly the vertices a walk
    from the seeds reaches, each with the length of the shortest such walk: a vertex
    it does not hold cannot be reached. *)
Theorem bfs_shortest adj seeds :
  (forall v d, bfs adj seeds !! v = Some d <-> distance adj seeds v d) /\
  (forall v, bfs adj seeds !! v = None <-> forall s n, s ∈ seeds -> ~ trail adj n s v).
Proof.
  split; [apply bfs_distance|]. intros v. destruct (bfs adj seeds !! v) as [d|] eqn:Hd; split; try done.
  - intros Hno. apply bfs_distance in Hd as [(s & Hs & Hw) _]. by destruct (Hno s d Hs).
  - intros _ s n Hs Hw. destruct (bfs_reach adj seeds n s v Hs Hw) as (e & He & _). congruence.
Qed.

(** C27. Over the cables of the data plane whose two ports are enabled, the assets and
    adjacencies that the search marks are exactly those on a shortest route from some
    single anchor of either end to the nearest anchor of the other: no second route of a
    dual-homed host is missed and no detour is marked. Something is marked exactly when
    some anchor of one end can reach some anchor of the other, and the hops reported are
    then those of the shortest such way. It is of what is marked, before the drawing adds
    the anchors no route joins, cuts to its budget and fetches the cables between what is
    left. *)
Theorem shortestUnion_routes links from to :
  let adj := (dataPlaneAdjacency links).1 in
  let '(nodes, edges) := shortestUnion adj from to in
  (forall u v, v ∈ neighbours adj u <-> live links u v) /\
  (forall u, u ∈ nodes <->
     (exists a, a ∈ from /\ on_route adj a to u) \/ (exists a, a ∈ to /\ on_route adj a from u)) /\
  (forall e, e ∈ edges <->
     (exists a, a ∈ from /\ exists u v, e = orderPair u v /\ route_step adj a to u v) \/
     (exists a, a ∈ to /\ exists u v, e = orderPair u v /\ route_step adj a from u v)) /\
  (nodes <> [] <-> connected adj from to) /\
  (nodes <> [] ->
     (exists s t, s ∈ from /\ t ∈ to /\ trail adj (pathHops adj from to) s t) /\
     forall s t n, s ∈ from -> t ∈ to -> trail adj n s t -> pathHops adj from to <= n).
Proof.
  pose proof (live_symmetric links) as Hsym. intros adj. destruct (shortestUnion adj from to) as [nodes edges] eqn:Hu.
  destruct (union_marks adj from to nodes edges Hsym Hu) as (Hn & He & _).
  pose proof (union_connected adj from to Hsym) as Hc. rewrite Hu in Hc. cbn [fst] in Hc.
  split; [intros; apply live_neighbours|]. split_and!; [done|done|done|]. intros Hne. by apply hops_least, Hc.
Qed.
