(* ===== verification/Routes.v ===== *)
(** A route asked for by name: the rest of [internal/store/path.go].

    [Path] resolves the two ends of the question, searches the cables of the data
    plane between them, names the ports that are in the way when there is no route,
    and cuts what is drawn to a budget. The tables it reads are a record of rows; the
    two services' own rows, which decorate the drawing, are left out, and so are the
    failures of the database, which every read passes on. *)
From Stdlib Require Import String Ascii Lia Sorted.
From stdpp Require Import base gmap strings list.
From S2P Require Import Prelude Status Graph Errors Path.

#[local] Open Scope string_scope.
#[local] Open Scope list_scope.
#[local] Open Scope nat_scope.

(** * Definitions *)

(** ** The tables *)

Record AssetRow := { ar_Name : string; ar_Lifecycle : string }.
Record InstanceRow := { si_ServiceID : string; si_Host : string; si_Lifecycle : string }.
Record AttachmentRow := { na_AssetID : string; na_GroupID : string; na_Lifecycle : string; na_Plane : string }.
Record MemberRow := { gm_GroupID : string; gm_AssetID : string; gm_Lifecycle : string }.

Record Plant := {
  pl_assets : gmap string AssetRow;
  pl_services : gset string;
  pl_instances : list InstanceRow;
  pl_closure : list (string * string);     (* ancestor, descendant; an asset is its own ancestor *)
  pl_attachments : list AttachmentRow;
  pl_members : list MemberRow;
  pl_links : list NeighbourLink
}.

(** [SELECT DISTINCT x ... ORDER BY x] *)
Definition distinct (l : list string) : list string := isort str_ltb (elements (list_to_set l : gset string)).

(** ** The question *)

(** [PathQuery] *)
Record PathQuery := {
  pq_FromServiceID : string; pq_FromAssetID : string; pq_ToServiceID : string; pq_ToAssetID : string
}.

(** [PathEnd] *)
Record PathEnd := { pe_ServiceID : string; pe_AssetIDs : list string }.

(** The hosts of a service's active placements that are not retired. *)
Definition placed (p : Plant) (serviceID : string) : list string :=
  omap (fun i => a ← pl_assets p !! si_Host i;
          if String.eqb (si_ServiceID i) serviceID && String.eqb (si_Lifecycle i) LifecycleActive &&
             negb (String.eqb (ar_Lifecycle a) LifecycleRetired)
          then Some (si_Host i) else None) (pl_instances p).

(** [resolvePathEnd] *)
Definition resolvePathEnd (p : Plant) (serviceID assetID : string) : Sentinel + PathEnd :=
  if negb (String.eqb assetID "") then
    match pl_assets p !! assetID with
    | None => inl ErrNotFound
    | Some _ => inr {| pe_ServiceID := ""; pe_AssetIDs := [assetID] |}
    end
  else if negb (bool_decide (serviceID ∈ pl_services p)) then inl ErrNotFound
  else inr {| pe_ServiceID := serviceID; pe_AssetIDs := distinct (placed p serviceID) |}.

(** [resolveAttachedChassis] *)
Definition resolveAttachedChassis (p : Plant) (serviceID assetID : string) : PathEnd :=
  let descendants := if negb (String.eqb assetID "") then [assetID] else placed p serviceID in
  let member (c : string * string) (na : AttachmentRow) (m : MemberRow) :=
    if bool_decide (snd c ∈ descendants) && String.eqb (na_AssetID na) (fst c) &&
       String.eqb (na_Lifecycle na) LifecycleActive && String.eqb (na_Plane na) PlaneData &&
       String.eqb (gm_GroupID m) (na_GroupID na) && String.eqb (gm_Lifecycle m) LifecycleActive
    then Some (gm_AssetID m) else None in
  {| pe_ServiceID := "";
     pe_AssetIDs := distinct (c ← pl_closure p; na ← pl_attachments p; omap (member c na) (pl_members p)) |}.

(** [withoutAnchors] *)
Definition withoutAnchors (ids anchors : list string) : list string :=
  match ids, anchors with
  | [], _ | _, [] => ids
  | _, _ => List.filter (fun id => negb (bool_decide (id ∈ anchors))) ids
  end.

(** ** What is drawn *)

(** [NeighbourAsset], the columns the route needs. *)
Record NeighbourAsset := { ha_ID : string; ha_Hop : nat; ha_Name : string; ha_Lifecycle : string }.

(** [pathAssets] *)
Definition pathAssets (p : Plant) (ids : list string) (distFrom : Distances) : list NeighbourAsset :=
  let rows := omap (fun id => a ← pl_assets p !! id;
                      Some {| ha_ID := id; ha_Hop := distFrom.[id | 0]; ha_Name := ar_Name a;
                              ha_Lifecycle := ar_Lifecycle a |}) (elements (list_to_set ids : gset string)) in
  let rows := isort (lex_less ha_Name str_ltb (fun a b => str_ltb (ha_ID a) (ha_ID b))) rows in
  isort (lex_less ha_Hop Nat.ltb (fun a b => str_ltb (ha_Name a) (ha_Name b))) rows.

(** [neighbourhoodLinks]: the active cables with both ends inside the set. *)
Definition neighbourhoodLinks (p : Plant) (ids : list string) : list NeighbourLink :=
  isort (fun a b => str_ltb (nl_ID a) (nl_ID b))
    (List.filter (fun l => String.eqb (nl_Lifecycle l) LifecycleActive &&
                           bool_decide (np_AssetID (nl_A l) ∈ ids) && bool_decide (np_AssetID (nl_B l) ∈ ids))
       (pl_links p)).

(** [portLabel] *)
Definition portLabel (asset : string) (port : NeighbourPort) : string :=
  let asset := if String.eqb asset "" then "?" else asset in
  if negb (np_Enabled port) then asset +++ "/" +++ np_Name port +++ " (disabled)"
  else asset +++ "/" +++ np_Name port.

(** The name of an asset among those loaded: the map of [blockingPorts] and [Path]. *)
Definition names (rows : list NeighbourAsset) : gmap string string :=
  foldl (fun m a => <[ha_ID a := ha_Name a]> m) ∅ rows.

Definition link_pair (l : NeighbourLink) : string * string :=
  orderPair (np_AssetID (nl_A l)) (np_AssetID (nl_B l)).

Definition cable_label (name : gmap string string) (l : NeighbourLink) : string :=
  portLabel (name.[np_AssetID (nl_A l) | ""]) (nl_A l) +++ " ↔ " +++ portLabel (name.[np_AssetID (nl_B l) | ""]) (nl_B l).

(** The tallies of [blockingPorts]: cables and cables down, and the labels, by pair. *)
Abbreviation Tallies := (gmap (string * string) (nat * nat) * gmap (string * string) (list string))%type.

(** The loop over the links. *)
Definition tally_link (name : gmap string string) (edges : gset (string * string))
    (st : Tallies) (l : NeighbourLink) : Tallies :=
  let '(byPair, label) := st in
  let key := link_pair l in
  if negb (bool_decide (key ∈ edges)) then (byPair, label)
  else
    let '(total, down) := byPair.[key | (0, 0)] in
    if both_enabled l then (<[key := (S total, down)]> byPair, label)
    else (<[key := (S total, S down)]> byPair, <[key := label.[key | []] ++ [cable_label name l]]> label).

Definition PathDefaultMaxAssets : nat := 60.

(** [blockingPorts] *)
Definition blockingPorts (p : Plant) (patched : Adjacency) (from to : PathEnd) : list string :=
  match pe_AssetIDs from, pe_AssetIDs to with
  | [], _ | _, [] => []
  | fromIDs, toIDs =>
      let '(marked, edges) := shortestUnion patched fromIDs toIDs in
      match marked with
      | [] => []
      | _ =>
          let marked := take PathDefaultMaxAssets marked in
          let links := neighbourhoodLinks p marked in
          let name := names (pathAssets p marked ∅) in
          let '(byPair, label) := foldl (tally_link name edges) (∅, ∅) links in
          isort str_ltb (concat ((fun '(key, (total, down)) =>
            if (0 <? down) && (down =? total) then label.[key | []] else []) <$> map_to_list byPair))
      end
  end.

(** [PathGraph] *)
Record PathGraph := {
  pg_From : PathEnd; pg_To : PathEnd;
  pg_Found : bool; pg_Hops : nat; pg_Unrouted : list string; pg_AssetsElided : nat; pg_Blocked : list string;
  pg_Assets : list NeighbourAsset; pg_Links : list NeighbourLink
}.

(** The order of the cut: anchors, then what the search reached, nearest first. *)
Definition cut_less (anchors : list string) (dist : Distances) : string -> string -> bool :=
  lex_less (fun id => bool_decide (id ∈ anchors)) (fun x y => x && negb y)
    (lex_less (fun id => bool_decide (is_Some (dist !! id))) (fun x y => x && negb y)
      (lex_less (fun id => dist.[id | 0]) Nat.ltb str_ltb)).

(** The assets drawn before the cut, in order of their ids. *)
Definition drawn_ids (networkMode : bool) (from to marked : list string) : list string :=
  distinct (marked ++ from ++ (if networkMode then [] else to)).

(** The anchors with no route to the far side. *)
Definition unrouted_ids (adj : Adjacency) (networkMode : bool) (from to : list string) : list string :=
  let distB := bfs adj to in
  let distA := bfs adj from in
  isort str_ltb (
    (match to with [] => [] | _ => List.filter (fun id => negb (bool_decide (is_Some (distB !! id)))) from end) ++
    (if networkMode then [] else List.filter (fun id => negb (bool_decide (is_Some (distA !! id)))) to)).

(** The budget: what is kept, in order of ids, and how many were cut. *)
Definition budget (adj : Adjacency) (from to ids : list string) : list string * nat :=
  if PathDefaultMaxAssets <? length ids then
    (isort str_ltb (take PathDefaultMaxAssets (isort (cut_less (from ++ to) (bfs adj from)) ids)),
     length ids - PathDefaultMaxAssets)
  else (ids, 0).

(** [Path] once its ends are resolved. *)
Definition path_between (p : Plant) (networkMode : bool) (From To : PathEnd) : PathGraph :=
  let from := pe_AssetIDs From in
  let to := pe_AssetIDs To in
  let '(adj, patched) := dataPlaneAdjacency (pl_links p) in
  let '(marked, edges) := shortestUnion adj from to in
  let Found := 0 <? length marked in
  let Hops := if Found then pathHops adj from to else 0 in
  let Blocked := if Found then [] else blockingPorts p patched From To in
  let ids := drawn_ids networkMode from to marked in
  let Unrouted := unrouted_ids adj networkMode from to in
  match ids with
  | [] => {| pg_From := From; pg_To := To; pg_Found := Found; pg_Hops := Hops; pg_Unrouted := Unrouted;
             pg_AssetsElided := 0; pg_Blocked := Blocked; pg_Assets := []; pg_Links := [] |}
  | _ =>
      let '(ids, AssetsElided) := budget adj from to ids in
      let Unrouted := List.filter (fun id => bool_decide (id ∈ ids)) Unrouted in
      let Assets := pathAssets p ids (bfs adj from) in
      let name := names Assets in
      {| pg_From := From; pg_To := To; pg_Found := Found; pg_Hops := Hops;
         pg_Unrouted := isort str_ltb ((fun id => name.[id | id]) <$> Unrouted);
         pg_AssetsElided := AssetsElided; pg_Blocked := Blocked; pg_Assets := Assets;
         pg_Links := List.filter (fun l => bool_decide (link_pair l ∈ edges)) (neighbourhoodLinks p ids) |}
  end.

(** [Path] *)
Definition Path (p : Plant) (q : PathQuery) : Sentinel + PathGraph :=
  if Bool.eqb (String.eqb (pq_FromServiceID q) "") (String.eqb (pq_FromAssetID q) "") then inl ErrInvalid
  else if negb (String.eqb (pq_ToServiceID q) "") && negb (String.eqb (pq_ToAssetID q) "") then inl ErrInvalid
  else
    match resolvePathEnd p (pq_FromServiceID q) (pq_FromAssetID q) with
    | inl e => inl e
    | inr From =>
        let networkMode := String.eqb (pq_ToServiceID q) "" && String.eqb (pq_ToAssetID q) "" in
        if networkMode then
          let chassis := resolveAttachedChassis p (pq_FromServiceID q) (pq_FromAssetID q) in
          inr (path_between p networkMode From
                 {| pe_ServiceID := pe_ServiceID chassis;
                    pe_AssetIDs := withoutAnchors (pe_AssetIDs chassis) (pe_AssetIDs From) |})
        else
          match resolvePathEnd p (pq_ToServiceID q) (pq_ToAssetID q) with
          | inl e => inl e
          | inr To => inr (path_between p networkMode From To)
          end
    end.

(** The cables [blockingPorts] looks at, and the pairs of the routes over what is patched. *)
Definition blocking_edges (p : Plant) (from to : PathEnd) : gset (string * string) :=
  (shortestUnion (dataPlaneAdjacency (pl_links p)).2 (pe_AssetIDs from) (pe_AssetIDs to)).2.
Definition blocking_marked (p : Plant) (from to : PathEnd) : list string :=
  (shortestUnion (dataPlaneAdjacency (pl_links p)).2 (pe_AssetIDs from) (pe_AssetIDs to)).1.

(** An active cable, and the mark of a management port at either end. *)
Definition active_cable (l : NeighbourLink) : Prop := nl_Lifecycle l = LifecycleActive.
Definition unmixed (p : Plant) : Prop :=
  forall l l', l ∈ pl_links p -> l' ∈ pl_links p -> active_cable l' -> link_pair l' = link_pair l ->
    data_plane l = true -> data_plane l' = true.

(** The name [Path] shows for an id. *)
Definition shown_name (p : Plant) (id : string) : string :=
  match pl_assets p !! id with Some a => ar_Name a | None => id end.

(** [id] is an anchor that no route joins to the far side. *)
Definition stranded_anchor (adj : Adjacency) (networkMode : bool) (from to : list string) (id : string) : Prop :=
  (id ∈ from /\ to <> [] /\ forall t n, t ∈ to -> ~ trail adj n id t) \/
  (networkMode = false /\ id ∈ to /\ forall s n, s ∈ from -> ~ trail adj n s id).

(** What the label of a cable says, from the asset rows. *)
Definition cable_text (p : Plant) (l : NeighbourLink) : string :=
  let name id := match pl_assets p !! id with Some a => ar_Name a | None => "" end in
  portLabel (name (np_AssetID (nl_A l))) (nl_A l) +++ " ↔ " +++ portLabel (name (np_AssetID (nl_B l))) (nl_B l).

(** * Lemmas *)

(** ** The tallies *)

Definition on_pair (edges : gset (string * string)) (key : string * string) (l : NeighbourLink) : bool :=
  bool_decide (link_pair l = key) && bool_decide (key ∈ edges).
Definition down_pair (edges : gset (string * string)) (key : string * string) (l : NeighbourLink) : bool :=
  on_pair edges key l && negb (both_enabled l).

Lemma tally_spec name edges links key :
  let st := foldl (tally_link name edges) (∅, ∅) links in
  st.1 .[key | (0, 0)] = (count_if (on_pair edges key) links, count_if (down_pair edges key) links) /\
  st.2 .[key | []] = cable_label name <$> List.filter (down_pair edges key) links.
Proof.
  cbn zeta. induction links as [|l links IH] using rev_ind; [by cbn; rewrite !lookup_empty|].
  rewrite foldl_app, !count_if_app, List.filter_app, fmap_app. destruct (foldl _ _ _) as [byPair label].
  cbn [fst snd foldl] in *. destruct IH as [IH1 IH2].
  assert (Hone : forall f : NeighbourLink -> bool, count_if f [l] = if f l then 1 else 0)
    by (intros f; unfold count_if; cbn; by destruct (f l)).
  rewrite !Hone. cbn [List.filter]. unfold tally_link.
  assert (Hon : on_pair edges key l = bool_decide (link_pair l = key) && bool_decide (key ∈ edges)) by done.
  unfold down_pair at 2 4. rewrite Hon. clear Hone Hon.
  case_bool_decide as Hin; cbn [negb].
  - destruct (decide (link_pair l = key)) as [<-|Hne].
    + rewrite (bool_decide_true (link_pair l = link_pair l)), (bool_decide_true (link_pair l ∈ edges)) by done.
      rewrite IH1. cbn. destruct (both_enabled l); cbn; rewrite ?lookup_insert_eq, ?IH2; cbn; rewrite ?app_nil_r; split; auto; f_equal; lia.
    + rewrite (bool_decide_false (link_pair l = key)) by done. cbn. rewrite app_nil_r, !Nat.add_0_r, <- IH1, <- IH2.
      destruct (byPair.[link_pair l | (0, 0)]) as [t d]. destruct (both_enabled l); cbn; by rewrite !lookup_insert_ne.
  - replace (bool_decide (link_pair l = key) && bool_decide (key ∈ edges)) with false.
    2: { case_bool_decide as Hk; [|done]. rewrite <- Hk, bool_decide_false; done. }
    cbn. by rewrite app_nil_r, !Nat.add_0_r.
Qed.

Lemma blocking_tallies name edges links s :
  let '(byPair, label) := foldl (tally_link name edges) (∅, ∅) links in
  s ∈ isort str_ltb (concat ((fun '(key, (total, down)) =>
        if (0 <? down) && (down =? total) then label.[key | []] else []) <$> map_to_list byPair)) <->
  exists l, l ∈ links /\ link_pair l ∈ edges /\ both_enabled l = false /\ s = cable_label name l /\
    forall l', l' ∈ links -> link_pair l' = link_pair l -> both_enabled l' = false.
Proof.
  pose proof (tally_spec name edges links) as Ht. destruct (foldl _ _ _) as [byPair label]. cbn [fst snd] in Ht.
  rewrite elem_of_isort, list_elem_of_In, in_concat. setoid_rewrite <- list_elem_of_In. split.
  - intros (ls & ([key [total down]] & -> & Hk%elem_of_map_to_list)%list_elem_of_fmap & Hs).
    destruct (Ht key) as [Hc Hl]. rewrite Hk in Hc. cbn in Hc. injection Hc as -> ->.
    destruct (_ && _) eqn:Hb; [|by apply elem_of_nil in Hs]. apply andb_true_iff in Hb as [Hpos Heq%Nat.eqb_eq].
    rewrite Hl in Hs. apply list_elem_of_fmap in Hs as (l & -> & Hin%list_elem_of_In).
    apply filter_In in Hin as [Hin Hd]. apply list_elem_of_In in Hin. unfold down_pair, on_pair in Hd.
    apply andb_true_iff in Hd as [[Hp%bool_decide_eq_true He%bool_decide_eq_true]%andb_true_iff Hdown%negb_true_iff].
    exists l. rewrite Hp. split_and!; auto. intros l' Hl' Hp'. apply negb_true_iff.
    apply (proj1 (count_if_andb_all (on_pair edges key) (fun l => negb (both_enabled l)) links) Heq l' Hl').
    unfold on_pair. by rewrite Hp', !bool_decide_true.
  - intros (l & Hin & He & Hd & -> & Hall). destruct (Ht (link_pair l)) as [Hc Hl].
    assert (Hdp : down_pair edges (link_pair l) l = true) by (unfold down_pair, on_pair; by rewrite !bool_decide_true, Hd).
    assert (Hpos : 0 < count_if (down_pair edges (link_pair l)) links).
    { apply Nat.ltb_lt. rewrite count_if_pos. apply existsb_elem_of. eauto. }
    assert (Heq : count_if (down_pair edges (link_pair l)) links = count_if (on_pair edges (link_pair l)) links).
    { apply (count_if_andb_all (on_pair edges (link_pair l)) (fun l => negb (both_enabled l))).
      intros l' Hl' [Hp _]%andb_true_iff. apply bool_decide_eq_true in Hp. by rewrite (Hall l'). }
    destruct (byPair !! link_pair l) as [[total down]|] eqn:Hk; [|cbn in Hc; injection Hc; lia].
    cbn in Hc. injection Hc as -> ->. eexists. split.
    + apply list_elem_of_fmap. eexists (_, (_, _)). split; [done|]. by apply elem_of_map_to_list.
    + rewrite (proj2 (Nat.ltb_lt _ _) Hpos), (proj2 (Nat.eqb_eq _ _) Heq). cbn. rewrite Hl.
      apply list_elem_of_fmap. exists l. split; [done|]. by apply list_elem_of_In, filter_In; split; [apply list_elem_of_In|].
Qed.

(** ** The cables that block a route *)

Lemma elem_of_neighbourhoodLinks p ids l :
  l ∈ neighbourhoodLinks p ids <->
  l ∈ pl_links p /\ active_cable l /\ np_AssetID (nl_A l) ∈ ids /\ np_AssetID (nl_B l) ∈ ids.
Proof.
  unfold neighbourhoodLinks, active_cable. rewrite elem_of_isort, list_elem_of_In, filter_In, <- list_elem_of_In.
  rewrite !andb_true_iff, String.eqb_eq, !bool_decide_eq_true. tauto.
Qed.

Lemma same_pair p ids l l' :
  l ∈ neighbourhoodLinks p ids -> l' ∈ pl_links p -> active_cable l' -> link_pair l' = link_pair l ->
  l' ∈ neighbourhoodLinks p ids.
Proof.
  intros (_ & _ & Ha & Hb)%elem_of_neighbourhoodLinks Hin Hact Hp. apply elem_of_neighbourhoodLinks.
  apply orderPair_eq in Hp as [[Hea Heb]|[Hea Heb]]; rewrite Hea in Ha; rewrite Heb in Hb; auto.
Qed.

Lemma joins_pair l u v : joins l u v <-> link_pair l = orderPair u v.
Proof. unfold link_pair, joins. rewrite (orderPair_eq u v (np_AssetID (nl_A l))). intuition congruence. Qed.

Lemma blockingPorts_spec p from to s :
  s ∈ blockingPorts p (dataPlaneAdjacency (pl_links p)).2 from to <->
  exists l, l ∈ neighbourhoodLinks p (take PathDefaultMaxAssets (blocking_marked p from to)) /\
    link_pair l ∈ blocking_edges p from to /\ both_enabled l = false /\
    s = cable_label (names (pathAssets p (take PathDefaultMaxAssets (blocking_marked p from to)) ∅)) l /\
    forall l', l' ∈ pl_links p -> active_cable l' -> link_pair l' = link_pair l -> both_enabled l' = false.
Proof.
  unfold blockingPorts, blocking_marked, blocking_edges.
  assert (Hnone : forall e l, l ∈ neighbourhoodLinks p (take PathDefaultMaxAssets []) -> link_pair l ∈ (e : gset (string * string)) -> False).
  { intros e l (_ & _ & Ha & _)%elem_of_neighbourhoodLinks. by apply elem_of_nil in Ha. }
  destruct (pe_AssetIDs from) as [|f fs]; [cbn [shortestUnion fst]|destruct (pe_AssetIDs to) as [|t ts]; [cbn [shortestUnion fst]|]].
  1,2: split; [by intros ?%elem_of_nil|intros (l & Hl & He & _); by apply (Hnone _ l) in He].
  destruct (shortestUnion _ _ _) as [marked edges]. cbn [fst snd]. destruct marked as [|x marked].
  { split; [by intros ?%elem_of_nil|intros (l & Hl & He & _); by apply (Hnone _ l) in He]. }
  set (ids := take _ _). pose proof (blocking_tallies (names (pathAssets p ids ∅)) edges (neighbourhoodLinks p ids) s) as Hb.
  destruct (foldl _ _ _) as [byPair label]. rewrite Hb. apply exist_proper. intros l. split.
  - intros (Hl & He & Hd & Hs & Hall). split_and!; auto. intros l' Hl' Ha Hp. apply Hall; [|done]. by apply (same_pair p ids l).
  - intros (Hl & He & Hd & Hs & Hall). split_and!; auto. intros l' (Hl' & Ha & _)%elem_of_neighbourhoodLinks. by apply Hall.
Qed.

(** A shortest route over patched cables, every step of which is live, is live. *)
Lemma route_live links a to t d k m u :
  let adj := (dataPlaneAdjacency links).2 in
  (forall u v, route_step adj a to u v -> live links u v) ->
  t ∈ to -> distance adj to a d -> trail adj k a u -> trail adj m u t -> k + m = d ->
  trail (dataPlaneAdjacency links).1 k a u.
Proof.
  cbn zeta. intros Hlive Ht Hd Hw. revert m. remember a as a0 eqn:Ha in Hw. induction Hw as [|k s u v Hk IH Hv]; subst; [constructor|].
  intros m Hm Heq. apply (trail_snoc _ _ _ u).
  - apply (IH eq_refl (1 + m)); [|lia]. apply (trail_app _ 1 m u v t); [by apply trail_one|done].
  - apply live_neighbours, Hlive. exists k, m, t. split_and!; auto. by rewrite <- Heq in Hd.
Qed.

Lemma start_on_route adj a side u v : route_step adj a side u v -> on_route adj a side u.
Proof.
  intros (n & m & t & Ht & Hn & Hv & Hm & Hd). exists n, (1 + m), t. split_and!; auto.
  - apply (trail_app _ 1 m u v t); [by apply trail_one|done].
  - by replace (n + (1 + m)) with (S (n + m)) by lia.
Qed.

Lemma blocked_complete p from to :
  let adj := (dataPlaneAdjacency (pl_links p)) in
  connected adj.2 (pe_AssetIDs from) (pe_AssetIDs to) ->
  length (blocking_marked p from to) <= PathDefaultMaxAssets -> unmixed p ->
  blockingPorts p adj.2 from to = [] -> connected adj.1 (pe_AssetIDs from) (pe_AssetIDs to).
Proof.
  cbn zeta. set (adj := (dataPlaneAdjacency (pl_links p)).2). intros (a & t0 & n & Ha & Ht0 & Hw0) Hlen Hmix Hnil.
  pose proof (patched_symmetric (pl_links p)) as Hsym. fold adj in Hsym.
  destruct (shortestUnion adj (pe_AssetIDs from) (pe_AssetIDs to)) as [nodes edges] eqn:Hu.
  destruct (union_marks _ _ _ _ _ Hsym Hu) as (Hn & He & _).
  assert (Hmk : blocking_marked p from to = nodes) by (unfold blocking_marked; fold adj; by rewrite Hu).
  assert (Hed : blocking_edges p from to = edges) by (unfold blocking_edges; fold adj; by rewrite Hu).
  rewrite Hmk in Hlen.
  apply (trail_rev _ _ _ _ Hsym) in Hw0. destruct (bfs_reach adj _ n t0 a Ht0 Hw0) as (d & Hd%bfs_distance & _).
  pose proof Hd as [(t & Ht & Hw%(trail_rev _ _ _ _ Hsym)) _].
  exists a, t, d. split_and!; auto. apply (route_live _ a (pe_AssetIDs to) t d d 0 t); [|done|done|done|constructor|lia].
  intros u v Hs. pose proof Hs as (_ & _ & _ & _ & _ & Hv & _). apply patched_neighbours in Hv as (l & Hl & Hdp & Hj).
  destruct (both_enabled l) eqn:Hen; [exists l; auto|].
  destruct (existsb (fun l' => bool_decide (link_pair l' = link_pair l) && both_enabled l' &&
                               String.eqb (nl_Lifecycle l') LifecycleActive) (pl_links p)) eqn:Hex.
  - apply existsb_elem_of in Hex as (l' & Hl' & [[Hp%bool_decide_eq_true Hen']%andb_true_iff Hact%String.eqb_eq]%andb_true_iff).
    exists l'. split_and!; [done|by apply (Hmix l l')|done|]. apply joins_pair. rewrite Hp. by apply joins_pair.
  - exfalso. eapply (not_elem_of_nil (A := string)). rewrite <- Hnil. apply blockingPorts_spec.
    exists l. rewrite Hmk, Hed, take_ge by done. split_and!; [| |done|done|].
    + apply elem_of_neighbourhoodLinks. unfold data_plane in Hdp.
      assert (Hact : active_cable l) by (unfold active_cable; by destruct (String.eqb_spec (nl_Lifecycle l) LifecycleActive)).
      assert (u ∈ nodes /\ v ∈ nodes) as [Hun Hvn].
      { split; apply Hn; left; exists a; split; auto; [by apply (start_on_route _ _ _ u v)|by apply (step_on_route _ _ _ u v)]. }
      destruct Hj as [[-> ->]|[-> ->]]; auto.
    + apply He. left. exists a. split; [done|]. exists u, v. split; [by apply joins_pair|done].
    + intros l' Hl' Hact Hp. rewrite existsb_false, Forall_forall in Hex. specialize (Hex l' Hl'). cbn in Hex.
      rewrite bool_decide_true in Hex by done. unfold active_cable in Hact. rewrite Hact in Hex. by destruct (both_enabled l').
Qed.

(** ** The budget *)

#[export] Instance true_first_total : StrictTotal (fun x y : bool => x && negb y).
Proof. split; [split|]; by intros [] []; try intros []. Qed.

#[export] Instance cut_less_weak anchors dist : StrictWeak (cut_less anchors dist).
Proof. unfold cut_less. do 3 (apply lex_less_weak; [apply _|]). exact st_weak. Qed.

Lemma elem_of_distinct x l : x ∈ distinct l <-> x ∈ l.
Proof. unfold distinct. by rewrite elem_of_isort, elem_of_elements, elem_of_list_to_set. Qed.

Lemma distinct_nodup l : NoDup (distinct l).
Proof. unfold distinct. rewrite isort_perm. apply NoDup_elements. Qed.

(** What sorts first is in the prefix when there is room for all of it. *)
Lemma first_in_prefix anchors dist l k x :
  sorted_by (cut_less anchors dist) l -> count_if (fun id => bool_decide (id ∈ anchors)) l <= k ->
  x ∈ l -> x ∈ anchors -> x ∈ take k l.
Proof.
  intros Hs. revert k. induction Hs as [|y l _ IH Hf]; intros k Hc Hx Ha; [by apply elem_of_nil in Hx|].
  unfold count_if in Hc; cbn in Hc. case_bool_decide as Hy.
  - cbn in Hc. destruct k as [|k]; [lia|]. cbn. apply elem_of_cons in Hx as [->|Hx]; [left|right].
    apply IH; [|done|done]. unfold count_if. lia.
  - apply elem_of_cons in Hx as [->|Hx]; [done|]. rewrite Forall_forall in Hf. specialize (Hf x Hx).
    unfold cut_less, lex_less in Hf. rewrite (bool_decide_true (x ∈ anchors)), (bool_decide_false (y ∈ anchors)) in Hf by done.
    done.
Qed.

Lemma anchors_counted anchors l :
  NoDup l -> count_if (fun id => bool_decide (id ∈ anchors)) l <= size (list_to_set anchors : gset string).
Proof.
  intros Hn. unfold count_if. set (f := List.filter _ l).
  assert (Hnf : NoDup f) by by apply bool_filter_nodup.
  rewrite <- (size_list_to_set (C := gset string) f Hnf). apply subseteq_size.
  intros x [_ Hx%bool_decide_eq_true]%elem_of_list_to_set%elem_of_bool_filter. by apply elem_of_list_to_set.
Qed.

Lemma budget_spec adj from to ids :
  NoDup ids ->
  let '(kept, elided) := budget adj from to ids in
  (forall x, x ∈ kept -> x ∈ ids) /\ NoDup kept /\ length kept <= PathDefaultMaxAssets /\
  length ids = length kept + elided /\
  (size (list_to_set (from ++ to) : gset string) <= PathDefaultMaxAssets ->
   forall x, x ∈ ids -> x ∈ from ++ to -> x ∈ kept).
Proof.
  intros Hn. unfold budget. destruct (Nat.ltb_spec PathDefaultMaxAssets (length ids)) as [Hlt|Hge].
  2: { split_and!; auto; lia. }
  set (s := isort (cut_less (from ++ to) (bfs adj from)) ids).
  assert (Hp : s ≡ₚ ids) by apply isort_perm.
  assert (Hl : length s = length ids) by by rewrite Hp.
  split_and!.
  - intros x Hx%elem_of_isort%elem_of_take_inv. by rewrite Hp in Hx.
  - rewrite isort_perm. rewrite <- Hp in Hn. rewrite <- (take_drop PathDefaultMaxAssets s) in Hn. by apply NoDup_app in Hn as [? _].
  - rewrite isort_length, length_take. lia.
  - rewrite isort_length, length_take, Hl. lia.
  - intros Hroom x Hx Ha. apply elem_of_isort, (first_in_prefix (from ++ to) (bfs adj from)); [apply isort_sorted, _| |by rewrite Hp|done].
    etransitivity; [|exact Hroom]. apply anchors_counted. by rewrite Hp.
Qed.

(** ** The assets and their names *)

Lemma elem_of_pathAssets p ids dist a :
  a ∈ pathAssets p ids dist <->
  exists row, ha_ID a ∈ ids /\ pl_assets p !! ha_ID a = Some row /\
    a = {| ha_ID := ha_ID a; ha_Hop := dist.[ha_ID a | 0]; ha_Name := ar_Name row; ha_Lifecycle := ar_Lifecycle row |}.
Proof.
  unfold pathAssets. rewrite !elem_of_isort, list_elem_of_omap. split.
  - intros (id & Hid & Ha). rewrite elem_of_elements, elem_of_list_to_set in Hid.
    destruct (pl_assets p !! id) as [row|] eqn:Hr; [|done]. injection Ha as <-. by exists row.
  - intros (row & Hid & Hr & ->). exists (ha_ID a). rewrite elem_of_elements, elem_of_list_to_set.
    split; [done|]. cbn. by rewrite Hr.
Qed.

Lemma pathAssets_length p ids dist : NoDup ids -> length (pathAssets p ids dist) <= length ids.
Proof.
  intros Hn. unfold pathAssets. rewrite !isort_length. etransitivity; [apply omap_length_le|].
  change (size (list_to_set ids : gset string) <= length ids). by rewrite size_list_to_set.
Qed.

Lemma names_spec rows id :
  (forall n, names rows !! id = Some n -> exists a, a ∈ rows /\ ha_ID a = id /\ ha_Name a = n) /\
  (names rows !! id = None -> forall a, a ∈ rows -> ha_ID a <> id).
Proof.
  unfold names. induction rows as [|a rows [IH1 IH2]] using rev_ind; [split; [done|by intros _ a ?%elem_of_nil]|].
  rewrite foldl_app. cbn. destruct (decide (ha_ID a = id)) as [<-|Hne].
  - rewrite lookup_insert_eq. split; [|done]. intros n [= <-]. exists a. split; [|done]. apply elem_of_app. right. by left.
  - rewrite lookup_insert_ne by done. split.
    + intros n Hn. destruct (IH1 n Hn) as (b & Hb & ?). exists b. split; [|done]. apply elem_of_app. by left.
    + intros Hn b [Hb|Hb%list_elem_of_singleton]%elem_of_app; [by apply IH2|by subst].
Qed.

Lemma names_pathAssets p ids dist id z :
  id ∈ ids -> (names (pathAssets p ids dist)).[id | z] = match pl_assets p !! id with Some a => ar_Name a | None => z end.
Proof.
  intros Hid. destruct (names_spec (pathAssets p ids dist) id) as [Hs Hn].
  destruct (names _ !! id) as [n|] eqn:E.
  - destruct (Hs n eq_refl) as (a & (row & _ & Hr & Ha)%elem_of_pathAssets & He & <-). rewrite He in Hr.
    rewrite Hr, Ha. done.
  - destruct (pl_assets p !! id) as [row|] eqn:Hr; [|done]. exfalso.
    apply (Hn eq_refl {| ha_ID := id; ha_Hop := dist.[id | 0]; ha_Name := ar_Name row; ha_Lifecycle := ar_Lifecycle row |});
      [|done]. apply elem_of_pathAssets. by exists row.
Qed.

Lemma unrouted_stranded adj networkMode from to id :
  symmetric adj -> id ∈ unrouted_ids adj networkMode from to <-> stranded_anchor adj networkMode from to id.
Proof.
  intros Hsym. unfold unrouted_ids, stranded_anchor. rewrite elem_of_isort, elem_of_app.
  assert (Hno : forall seeds v, negb (bool_decide (is_Some (bfs adj seeds !! v))) = true <->
                  forall s n, s ∈ seeds -> ~ trail adj n s v).
  { intros seeds v. rewrite negb_true_iff, bool_decide_eq_false. split.
    - intros Hn s n Hs Hw. apply Hn. destruct (bfs_reach adj seeds n s v Hs Hw) as (e & -> & _). by eexists.
    - intros Hn [d [(s & Hs & Hw) _]%bfs_distance]. by apply (Hn s d). }
  apply Morphisms_Prop.or_iff_morphism.
  - transitivity (to <> [] /\ id ∈ List.filter (fun id => negb (bool_decide (is_Some (bfs adj to !! id)))) from).
    { destruct to; [|by split; [|intros []]]. split; [by intros ?%elem_of_nil|by intros []]. }
    rewrite elem_of_bool_filter, Hno. split.
    + intros (Hne & Hin & Hw). split_and!; auto. intros t n Ht Hwk%(trail_rev _ _ _ _ Hsym). by apply (Hw t n).
    + intros (Hin & Hne & Hw). split_and!; auto. intros t n Ht Hwk%(trail_rev _ _ _ _ Hsym). by apply (Hw t n).
  - destruct networkMode; [split; [by intros ?%elem_of_nil|by intros []]|]. rewrite elem_of_bool_filter, Hno. tauto.
Qed.

(** ** The answer *)

Lemma stranded_drawn adj networkMode from to marked id :
  stranded_anchor adj networkMode from to id -> id ∈ drawn_ids networkMode from to marked /\ id ∈ from ++ to.
Proof.
  unfold drawn_ids. rewrite elem_of_distinct, !elem_of_app. intros [(? & _)|(-> & ? & _)]; auto.
Qed.

Lemma no_links p : neighbourhoodLinks p [] = [].
Proof.
  destruct (neighbourhoodLinks p []) as [|l ls] eqn:E; [done|].
  assert (Hl : l ∈ neighbourhoodLinks p []) by (rewrite E; left).
  apply elem_of_neighbourhoodLinks in Hl as (_ & _ & Ha & _). by apply elem_of_nil in Ha.
Qed.

(** The graph in terms of what the budget keeps. *)
Lemma path_between_fields p networkMode From To :
  let adj := (dataPlaneAdjacency (pl_links p)).1 in
  let from := pe_AssetIDs From in
  let to := pe_AssetIDs To in
  let su := shortestUnion adj from to in
  let kept := budget adj from to (drawn_ids networkMode from to su.1) in
  let g := path_between p networkMode From To in
  pg_Found g = (0 <? length su.1) /\
  pg_Hops g = (if pg_Found g then pathHops adj from to else 0) /\
  pg_Blocked g = (if pg_Found g then [] else blockingPorts p (dataPlaneAdjacency (pl_links p)).2 From To) /\
  pg_AssetsElided g = kept.2 /\
  pg_Assets g = pathAssets p kept.1 (bfs adj from) /\
  pg_Links g = List.filter (fun l => bool_decide (link_pair l ∈ su.2)) (neighbourhoodLinks p kept.1) /\
  forall n, n ∈ pg_Unrouted g <->
    exists id, id ∈ kept.1 /\ stranded_anchor adj networkMode from to id /\ n = shown_name p id.
Proof.
  cbn zeta. unfold path_between. pose proof (live_symmetric (pl_links p)) as Hsym.
  destruct (dataPlaneAdjacency (pl_links p)) as [adj patched]. cbn [fst snd] in *.
  destruct (shortestUnion adj _ _) as [marked edges]. cbn [fst snd].
  destruct (drawn_ids _ _ _ _) as [|id0 ids0] eqn:Hids.
  - cbn [pg_Found pg_Hops pg_Blocked pg_AssetsElided pg_Assets pg_Links pg_Unrouted]. split_and!; try reflexivity.
    { change (@nil NeighbourLink = List.filter (fun l => bool_decide (link_pair l ∈ edges)) (neighbourhoodLinks p [])).
      by rewrite no_links. }
    intros n. rewrite unrouted_stranded by done. split.
    + intros Hs%(stranded_drawn _ _ _ _ marked). destruct Hs as [Hs _]. rewrite Hids in Hs. by apply elem_of_nil in Hs.
    + intros (id & Hid & _). by apply elem_of_nil in Hid.
  - rewrite <- Hids. destruct (budget _ _ _ _) as [kept elided].
    cbn [fst snd pg_Found pg_Hops pg_Blocked pg_AssetsElided pg_Assets pg_Links pg_Unrouted]. split_and!; try reflexivity.
    intros n. rewrite elem_of_isort, list_elem_of_fmap. setoid_rewrite elem_of_bool_filter.
    setoid_rewrite unrouted_stranded; [|done]. setoid_rewrite bool_decide_eq_true. split.
    + intros (id & -> & Hs & Hk). exists id. split_and!; auto. by rewrite names_pathAssets.
    + intros (id & Hk & Hs & ->). exists id. split_and!; auto. by rewrite names_pathAssets.
Qed.

Lemma found_connected p networkMode From To :
  pg_Found (path_between p networkMode From To) = true <->
  connected (dataPlaneAdjacency (pl_links p)).1 (pe_AssetIDs From) (pe_AssetIDs To).
Proof.
  destruct (path_between_fields p networkMode From To) as (-> & _). rewrite Nat.ltb_lt.
  rewrite <- union_connected by apply live_symmetric. destruct (_.1); cbn; split; try done; lia.
Qed.

(** * Theorems *)

(** The answer to a question between two ends. A route is found exactly when some
    anchor of one end reaches some anchor of the other over enabled data-plane cables,
    and its hops are the fewest; at most sixty assets are drawn, none of them off the
    routes and the anchors; when the anchors fit the budget every one of them is drawn
    and the anchors named as having no route are exactly the stranded ones. *)
Theorem path_between_answer p networkMode From To :
  let adj := (dataPlaneAdjacency (pl_links p)).1 in
  let from := pe_AssetIDs From in
  let to := pe_AssetIDs To in
  let drawn := drawn_ids networkMode from to (shortestUnion adj from to).1 in
  let g := path_between p networkMode From To in
  (pg_Found g = true <-> connected adj from to) /\
  (pg_Found g = true ->
     (exists s t, s ∈ from /\ t ∈ to /\ trail adj (pg_Hops g) s t) /\
     forall s t n, s ∈ from -> t ∈ to -> trail adj n s t -> pg_Hops g <= n) /\
  length (pg_Assets g) <= PathDefaultMaxAssets /\
  (forall a, a ∈ pg_Assets g -> ha_ID a ∈ drawn) /\
  (pg_AssetsElided g = 0 -> forall id, id ∈ drawn -> is_Some (pl_assets p !! id) -> id ∈ ha_ID <$> pg_Assets g) /\
  (size (list_to_set (from ++ to) : gset string) <= PathDefaultMaxAssets ->
     (forall id, id ∈ from ++ (if networkMode then [] else to) -> is_Some (pl_assets p !! id) ->
        id ∈ ha_ID <$> pg_Assets g) /\
     forall n, n ∈ pg_Unrouted g <-> exists id, stranded_anchor adj networkMode from to id /\ n = shown_name p id).
Proof.
  cbn zeta. destruct (path_between_fields p networkMode From To) as (_ & Hh & _ & He & Ha & _ & Hu).
  pose proof (found_connected p networkMode From To) as Hf.
  set (adj := (dataPlaneAdjacency (pl_links p)).1) in *. set (g := path_between p networkMode From To) in *.
  set (from := pe_AssetIDs From) in *. set (to := pe_AssetIDs To) in *.
  set (drawn := drawn_ids networkMode from to (shortestUnion adj from to).1) in *.
  assert (Hn : NoDup drawn) by apply distinct_nodup.
  pose proof (budget_spec adj from to drawn Hn) as Hb. destruct (budget adj from to drawn) as [kept elided].
  cbn [fst snd] in *. destruct Hb as (Hsub & Hnk & Hlen & Hsz & Hkeep).
  assert (Hshow : forall id, id ∈ kept -> is_Some (pl_assets p !! id) -> id ∈ ha_ID <$> pg_Assets g).
  { intros id Hid [row Hr]. rewrite Ha. apply list_elem_of_fmap.
    exists {| ha_ID := id; ha_Hop := (bfs adj from).[id | 0]; ha_Name := ar_Name row; ha_Lifecycle := ar_Lifecycle row |}.
    split; [done|]. apply elem_of_pathAssets. by exists row. }
  split_and!.
  - exact Hf.
  - intros Ht. rewrite Hh, Ht. by apply hops_least, Hf.
  - rewrite Ha. etransitivity; [by apply pathAssets_length|done].
  - intros a. rewrite Ha. intros (_ & Hid & _)%elem_of_pathAssets. auto.
  - rewrite He. intros -> id Hid. apply Hshow.
    assert (Hp : kept ⊆+ drawn) by (by apply NoDup_submseteq).
    apply submseteq_length_Permutation in Hp; [by rewrite Hp|lia].
  - intros Hroom. split.
    + intros id Hid. apply Hshow, Hkeep; [done| |].
      * apply elem_of_distinct, elem_of_app. by right.
      * destruct networkMode; [rewrite app_nil_r in Hid; apply elem_of_app; by left|done].
    + intros n. rewrite Hu. split; [intros (id & _ & Hs & ->); eauto|]. intros (id & Hs & ->). exists id.
      split; [|done]. destruct (stranded_drawn _ _ _ _ (shortestUnion adj from to).1 _ Hs). by apply Hkeep.
Qed.

Lemma blocked_sound p from to s :
  let adj := (dataPlaneAdjacency (pl_links p)).2 in
  s ∈ blockingPorts p adj from to ->
  connected adj (pe_AssetIDs from) (pe_AssetIDs to) /\
  exists l u v, l ∈ pl_links p /\ active_cable l /\ joins l u v /\ s = cable_text p l /\ both_enabled l = false /\
    ((exists a, a ∈ pe_AssetIDs from /\ route_step adj a (pe_AssetIDs to) u v) \/
     (exists a, a ∈ pe_AssetIDs to /\ route_step adj a (pe_AssetIDs from) u v)) /\
    forall l', l' ∈ pl_links p -> active_cable l' -> joins l' u v -> both_enabled l' = false.
Proof.
  cbn zeta. rewrite blockingPorts_spec. unfold blocking_marked, blocking_edges.
  pose proof (patched_symmetric (pl_links p)) as Hsym. set (adj := (dataPlaneAdjacency (pl_links p)).2) in *.
  pose proof (union_connected adj (pe_AssetIDs from) (pe_AssetIDs to) Hsym) as Hc.
  destruct (shortestUnion adj _ _) as [nodes edges] eqn:Hu. cbn [fst snd] in *.
  destruct (union_marks _ _ _ _ _ Hsym Hu) as (_ & He & _).
  intros (l & Hl & Hp & Hd & -> & Hall). pose proof Hl as (Hin & Hact & Ha & Hb)%elem_of_neighbourhoodLinks. split.
  - apply Hc. intros ->. by apply elem_of_nil in Ha.
  - assert (Huv : exists u v, link_pair l = orderPair u v /\
      ((exists a, a ∈ pe_AssetIDs from /\ route_step adj a (pe_AssetIDs to) u v) \/
       (exists a, a ∈ pe_AssetIDs to /\ route_step adj a (pe_AssetIDs from) u v))).
    { apply He in Hp as [(a & Haf & u & v & ? & ?)|(a & Hat & u & v & ? & ?)]; exists u, v; split; eauto. }
    destruct Huv as (u & v & Hpair & Hstep). exists l, u, v. split_and!; [done|done|by apply joins_pair| |done|done|].
    + unfold cable_label, cable_text. by rewrite !names_pathAssets.
    + intros l' Hl' Hact' Hj%joins_pair. apply Hall; [done|done|]. by rewrite Hj.
Qed.

Lemma data_plane_active l : data_plane l = true -> active_cable l.
Proof. unfold data_plane, active_cable. by destruct (String.eqb_spec (nl_Lifecycle l) LifecycleActive). Qed.

Lemma step_patched links a seeds u v : route_step (dataPlaneAdjacency links).2 a seeds u v -> patched links u v.
Proof. intros (_ & _ & _ & _ & _ & Hv & _). by apply patched_neighbours in Hv. Qed.

(** C28. Ports are named only when no live route exists and one would over the data cables
    as patched. Each name is of a cable with a disabled port, between two assets next to
    each other on a shortest such route, where a data cable with a disabled port joins the
    two and no cable of either plane between them is enabled at both ends. The cable named
    is that data cable or another of the two assets, of the management plane maybe; it is
    of the data plane when no pair of assets has a management cable beside a data cable,
    and then, when the routes fit the budget, something is always named. *)
Theorem blocked_ports_named p networkMode From To :
  let adj := dataPlaneAdjacency (pl_links p) in
  let from := pe_AssetIDs From in
  let to := pe_AssetIDs To in
  let g := path_between p networkMode From To in
  (forall s, s ∈ pg_Blocked g ->
     ~ connected adj.1 from to /\ connected adj.2 from to /\
     exists l u v, l ∈ pl_links p /\ active_cable l /\ joins l u v /\ s = cable_text p l /\ both_enabled l = false /\
       ((exists a, a ∈ from /\ route_step adj.2 a to u v) \/ (exists a, a ∈ to /\ route_step adj.2 a from u v)) /\
       (exists d, d ∈ pl_links p /\ data_plane d = true /\ joins d u v /\ both_enabled d = false) /\
       (forall l', l' ∈ pl_links p -> active_cable l' -> joins l' u v -> both_enabled l' = false) /\
       (unmixed p -> data_plane l = true)) /\
  (unmixed p -> length (blocking_marked p From To) <= PathDefaultMaxAssets ->
   ~ connected adj.1 from to -> connected adj.2 from to -> pg_Blocked g <> []).
Proof.
  cbn zeta. destruct (path_between_fields p networkMode From To) as (_ & _ & Hb & _).
  pose proof (found_connected p networkMode From To) as Hf. rewrite Hb. split.
  - intros s. destruct (pg_Found _) eqn:Hfound; [by intros ?%elem_of_nil|].
    intros (Hc & l & u & v & Hl & Hact & Hj & Hs & Hd & Hr & Hall)%blocked_sound. split; [by intros ?%Hf|].
    split; [done|]. exists l, u, v.
    assert (patched (pl_links p) u v) as (d & Hdl & Hdp & Hdj).
    { destruct Hr as [(a & _ & Hr)|(a & _ & Hr)]; by apply step_patched in Hr. }
    split_and!; auto.
    + exists d. split_and!; auto. by apply Hall; [|apply data_plane_active|].
    + intros Hmix. apply (Hmix d); try done. apply joins_pair in Hj, Hdj. congruence.
  - intros Hmix Hlen Hno Hc. destruct (pg_Found _) eqn:Hfound; [by destruct Hno; apply Hf|].
    intros Hnil. by apply Hno, (blocked_complete p From To).
Qed.

(** ** A small plant *)

Definition sample_port (asset name : string) (mgmt enabled : bool) : NeighbourPort :=
  {| np_AssetID := asset; np_Name := name; np_IsMgmt := mgmt; np_Enabled := enabled |}.

Definition sample_cable (id : string) (a b : NeighbourPort) : NeighbourLink :=
  {| nl_ID := id; nl_Lifecycle := LifecycleActive; nl_A := a; nl_B := b |}.

(** A host whose only cable to the switch ends in a disabled port. *)
Definition sample_plant (extra : list NeighbourLink) : Plant := {|
  pl_assets := <["h1" := {| ar_Name := "hv-01"; ar_Lifecycle := LifecycleActive |}]>
    (<["s1" := {| ar_Name := "sw-01"; ar_Lifecycle := LifecycleActive |}]> ∅);
  pl_services := ∅; pl_instances := []; pl_closure := []; pl_attachments := []; pl_members := [];
  pl_links := [sample_cable "l1" (sample_port "h1" "eno2" false false) (sample_port "s1" "p7" false true)] ++ extra
|}.

Definition sample_management : NeighbourLink :=
  sample_cable "l2" (sample_port "h1" "mgmt0" true true) (sample_port "s1" "mgmt1" true true).

Definition sample_question : PathQuery :=
  {| pq_FromServiceID := ""; pq_FromAssetID := "h1"; pq_ToServiceID := ""; pq_ToAssetID := "s1" |}.

Definition blocked_of (r : Sentinel + PathGraph) : option (bool * list string) :=
  match r with inr g => Some (pg_Found g, pg_Blocked g) | inl _ => None end.

Lemma sample_blocked :
  blocked_of (Path (sample_plant []) sample_question) = Some (false, ["hv-01/eno2 (disabled) ↔ sw-01/p7"]).
Proof. vm_compute. reflexivity. Qed.

(** A management cable beside the disabled one: the tally counts it among the cables
    of the pair, and the port in the way is no longer named. *)
Lemma management_cable_hides_port :
  blocked_of (Path (sample_plant [sample_management]) sample_question) = Some (false, []).
Proof. vm_compute. reflexivity. Qed.

(** A disabled management cable beside the disabled data cable is named with it. *)
Lemma management_cable_named :
  let idle := sample_cable "l2" (sample_port "h1" "mgmt0" true false) (sample_port "s1" "mgmt1" true true) in
  blocked_of (Path (sample_plant [idle]) sample_question) =
    Some (false, ["hv-01/eno2 (disabled) ↔ sw-01/p7"; "hv-01/mgmt0 (disabled) ↔ sw-01/mgmt1"]).
Proof. vm_compute. reflexivity. Qed.

(** A management cable beside an enabled one is drawn as part of the route. *)
Lemma management_cable_drawn :
  let data := sample_cable "l3" (sample_port "h1" "eno1" false true) (sample_port "s1" "p8" false true) in
  match Path (sample_plant [data; sample_management]) sample_question with
  | inr g => nl_ID <$> pg_Links g = ["l1"; "l2"; "l3"]
  | inl _ => False
  end.
Proof. vm_compute. reflexivity. Qed.

Lemma blocked_ports_named_witness :
  let end_of id := {| pe_ServiceID := ""; pe_AssetIDs := [id] |} in
  let p := sample_plant [] in
  pg_Blocked (path_between p false (end_of "h1") (end_of "s1")) <> [] /\
  ~ live (pl_links p) "h1" "s1".
Proof.
  cbn zeta. set (p := sample_plant []). set (e := fun id => {| pe_ServiceID := ""; pe_AssetIDs := [id] |}).
  destruct (blocked_ports_named p false (e "h1") (e "s1")) as [Hs Hc]. split.
  - apply Hc.
    + intros l l' ->%list_elem_of_singleton ->%list_elem_of_singleton. done.
    + vm_compute. lia.
    + intros Hcon. apply union_connected in Hcon; [|apply live_symmetric]. apply Hcon. vm_compute. reflexivity.
    + apply union_connected; [apply patched_symmetric|]. vm_compute. discriminate.
  - intros (l & ->%list_elem_of_singleton & _ & Hen & _). discriminate.
Defined.

(** With more anchors than the budget, anchors themselves are cut. *)
Definition many_anchors : list string :=
  concat ((fun i => (fun j => String (ascii_of_nat (97 + i)) (String (ascii_of_nat (97 + j)) EmptyString)) <$> seq 0 8)
            <$> seq 0 8).

Lemma anchors_are_cut :
  let p := {| pl_assets := list_to_map ((fun id => (id, {| ar_Name := id; ar_Lifecycle := LifecycleActive |})) <$> many_anchors);
              pl_services := {["svc"]};
              pl_instances := (fun id => {| si_ServiceID := "svc"; si_Host := id; si_Lifecycle := LifecycleActive |}) <$> many_anchors;
              pl_closure := []; pl_attachments := []; pl_members := []; pl_links := [] |} in
  match Path p {| pq_FromServiceID := "svc"; pq_FromAssetID := ""; pq_ToServiceID := ""; pq_ToAssetID := "" |} with
  | inr g => pg_AssetsElided g = 4 /\ length (pg_Assets g) = 60
  | inl _ => False
  end.
Proof. vm_compute. done. Qed.
