(* ===== verification/Cost.v ===== *)
(** What an estate costs: [internal/domain/cost.go].

    Money is an [int64] of minor units, with its wrap-around. *)
From Stdlib Require Import String Ascii ZArith Lia.
From stdpp Require Import base gmap strings list.
From S2P Require Import Prelude Status Timestamps.

#[local] Open Scope string_scope.
#[local] Open Scope list_scope.
#[local] Open Scope Z_scope.

(** * Definitions *)

(** ** Periods and scopes *)

Definition CostOnce := "once".
Definition CostMonthly := "monthly".
Definition CostYearly := "yearly".
Definition CostPeriods := [CostOnce; CostMonthly; CostYearly].

Definition CostUniversal := "universal".
Definition CostConditional := "conditional".
Definition CostPerConsumer := "per_consumer".
Definition CostScopes := [CostUniversal; CostConditional; CostPerConsumer].

(** [NeedsConsumers] *)
Definition NeedsConsumers (scope : string) : bool :=
  String.eqb scope CostConditional || String.eqb scope CostPerConsumer.

(** [CostPeriodDescription] *)
Definition CostPeriodDescription (period : string) : string :=
  if String.eqb period CostOnce then
    "Paid once. Counted as capital committed and never as a run rate — " +++
    "a switch bought two years ago is not part of what this month costs."
  else if String.eqb period CostMonthly then
    "Paid every month. The natural unit of a run rate."
  else if String.eqb period CostYearly then
    "Paid every year. Divided by twelve for the monthly run rate, so a " +++
    "yearly support contract and a monthly hosting bill can be added together."
  else "".

(** ** Dates *)

(** [monthsBetween] *)
Definition monthsBetween (a b : Date) : Z :=
  let months := (dt_Year b - dt_Year a) * 12 + dt_Month b - dt_Month a in
  if dt_Day b <? dt_Day a then months - 1 else months.

(** ** Cost lines *)

(** [divRound] *)
Definition divRound (n d : Z) : Z :=
  if d =? 0 then 0
  else if 0 <=? n then wrap64 (Z.quot (wrap64 (n + Z.quot d 2)) d)
  else wrap64 (- wrap64 (Z.quot (wrap64 (wrap64 (- n) + Z.quot d 2)) d)).

Record Cost := {
  co_ID : string; co_Kind : string; co_Period : string; co_AmountMinor : Z;
  co_Note : option string; co_ValidFrom : string; co_ValidUntil : option string;
  co_AppliesTo : string; co_ProviderID : option string; co_Lifecycle : string;
  co_CreatedAt : string; co_UpdatedAt : string; co_RowVersion : Z
}.

(** [Cost.AppliesOn] *)
Definition AppliesOn (c : Cost) (date : string) : bool :=
  if String.eqb (co_Lifecycle c) LifecycleRetired then false
  else if str_ltb date (co_ValidFrom c) then false
  else match co_ValidUntil c with None => true | Some u => negb (str_ltb u date) end.

(** [Cost.MonthlyMinor] *)
Definition MonthlyMinor (c : Cost) : Z :=
  if String.eqb (co_Period c) CostMonthly then co_AmountMinor c
  else if String.eqb (co_Period c) CostYearly then divRound (co_AmountMinor c) 12
  else 0.

(** [Cost.CapitalMinor] *)
Definition CapitalMinor (c : Cost) : Z :=
  if String.eqb (co_Period c) CostOnce then co_AmountMinor c else 0.

(** [Cost.AnnualMinor] *)
Definition AnnualMinor (c : Cost) : Z :=
  if String.eqb (co_Period c) CostMonthly then wrap64 (co_AmountMinor c * 12)
  else if String.eqb (co_Period c) CostYearly then co_AmountMinor c
  else 0.

(** [Cost.AmortisedMonthlyMinor]: the monthly part, and whether the line can be
    spread at all. *)
Definition AmortisedMonthlyMinor (c : Cost) (eolDate : option string) (on : string) : Z * bool :=
  if negb (String.eqb (co_Period c) CostOnce) || negb (AppliesOn c on) then (0, false)
  else match eolDate with
  | None => (0, false)
  | Some eol =>
      if String.eqb eol "" then (0, false)
      else match ParseDate (co_ValidFrom c) with
      | None => (0, false)
      | Some start =>
          match ParseDate eol with
          | None => (0, false)
          | Some end_ =>
              let months := monthsBetween start end_ in
              if months <=? 0 then (0, false)
              else match ParseDate on with
              | None => (0, false)
              | Some today =>
                  if Before today start || negb (Before today end_) then (0, true)
                  else (divRound (co_AmountMinor c) months, true)
              end
          end
      end
  end.

(** ** Totals *)

Record CostTotals := {
  tt_CapitalMinor : Z; tt_MonthlyMinor : Z; tt_AnnualMinor : Z;
  tt_AmortisedMonthlyMinor : Z; tt_Amortisable : Z; tt_Unamortisable : Z; tt_Lines : Z
}.

Definition no_costs : CostTotals :=
  {| tt_CapitalMinor := 0; tt_MonthlyMinor := 0; tt_AnnualMinor := 0;
     tt_AmortisedMonthlyMinor := 0; tt_Amortisable := 0; tt_Unamortisable := 0; tt_Lines := 0 |}.

Definition TotalMonthlyMinor (t : CostTotals) : Z :=
  wrap64 (tt_MonthlyMinor t + tt_AmortisedMonthlyMinor t).
Definition HasAmortisation (t : CostTotals) : bool :=
  (0 <? tt_Amortisable t) || (0 <? tt_Unamortisable t).
Definition FullyWrittenOff (t : CostTotals) : bool :=
  (0 <? tt_Amortisable t) && (tt_AmortisedMonthlyMinor t =? 0).
Definition IsZero (t : CostTotals) : bool := tt_Lines t =? 0.

(** The two counters and the spread figure of [Add], for a one-off. *)
Definition add_amortised (t : CostTotals) (amortised : Z * bool) : CostTotals :=
  if snd amortised
  then {| tt_CapitalMinor := tt_CapitalMinor t; tt_MonthlyMinor := tt_MonthlyMinor t;
          tt_AnnualMinor := tt_AnnualMinor t;
          tt_AmortisedMonthlyMinor := wrap64 (tt_AmortisedMonthlyMinor t + fst amortised);
          tt_Amortisable := wrap64 (tt_Amortisable t + 1);
          tt_Unamortisable := tt_Unamortisable t; tt_Lines := tt_Lines t |}
  else {| tt_CapitalMinor := tt_CapitalMinor t; tt_MonthlyMinor := tt_MonthlyMinor t;
          tt_AnnualMinor := tt_AnnualMinor t;
          tt_AmortisedMonthlyMinor := tt_AmortisedMonthlyMinor t;
          tt_Amortisable := tt_Amortisable t;
          tt_Unamortisable := wrap64 (tt_Unamortisable t + 1); tt_Lines := tt_Lines t |}.

(** [CostTotals.Add] *)
Definition AddCost (t : CostTotals) (c : Cost) (eolDate : option string) (on : string) : CostTotals :=
  let t' := {| tt_CapitalMinor := wrap64 (tt_CapitalMinor t + CapitalMinor c);
               tt_MonthlyMinor := wrap64 (tt_MonthlyMinor t + MonthlyMinor c);
               tt_AnnualMinor := wrap64 (tt_AnnualMinor t + AnnualMinor c);
               tt_AmortisedMonthlyMinor := tt_AmortisedMonthlyMinor t;
               tt_Amortisable := tt_Amortisable t; tt_Unamortisable := tt_Unamortisable t;
               tt_Lines := wrap64 (tt_Lines t + 1) |} in
  if negb (String.eqb (co_Period c) CostOnce) then t'
  else add_amortised t' (AmortisedMonthlyMinor c eolDate on).

(** [CostTotals.Plus] *)
Definition Plus (t other : CostTotals) : CostTotals :=
  {| tt_CapitalMinor := wrap64 (tt_CapitalMinor t + tt_CapitalMinor other);
     tt_MonthlyMinor := wrap64 (tt_MonthlyMinor t + tt_MonthlyMinor other);
     tt_AnnualMinor := wrap64 (tt_AnnualMinor t + tt_AnnualMinor other);
     tt_AmortisedMonthlyMinor := wrap64 (tt_AmortisedMonthlyMinor t + tt_AmortisedMonthlyMinor other);
     tt_Amortisable := wrap64 (tt_Amortisable t + tt_Amortisable other);
     tt_Unamortisable := wrap64 (tt_Unamortisable t + tt_Unamortisable other);
     tt_Lines := wrap64 (tt_Lines t + tt_Lines other) |}.

(** * Lemmas *)

(** ** Rounding *)

(** [divRound] is within half a divisor of the quotient. *)
Lemma divRound_nearest n d :
  0 <= n -> 0 < d -> n + d < 2 ^ 63 ->
  2 * Z.abs (d * divRound n d - n) <= d /\ 0 <= divRound n d <= n + d.
Proof.
  intros Hn Hd Hr. unfold divRound.
  rewrite (proj2 (Z.eqb_neq d 0)) by lia. rewrite (proj2 (Z.leb_le 0 n)) by done.
  rewrite (Z.quot_div_nonneg d 2) by lia.
  pose proof (Z.div_mod d 2 ltac:(lia)). pose proof (Z.mod_pos_bound d 2 ltac:(lia)).
  rewrite (wrap64_id (n + d / 2)) by (unfold int64; lia).
  rewrite Z.quot_div_nonneg by lia.
  pose proof (Z.div_mod (n + d / 2) d ltac:(lia)). pose proof (Z.mod_pos_bound (n + d / 2) d Hd).
  assert (0 <= (n + d / 2) / d <= n + d) by nia.
  rewrite wrap64_id by (unfold int64; lia). nia.
Qed.

(** A negative amount rounds as the positive one does. *)
Lemma divRound_neg n d :
  0 < n -> 0 < d -> n + d < 2 ^ 63 -> divRound (- n) d = - divRound n d.
Proof.
  intros Hn Hd Hr. destruct (divRound_nearest n d) as [_ Hb]; [lia..|].
  revert Hb. unfold divRound.
  rewrite (proj2 (Z.eqb_neq d 0)), (proj2 (Z.leb_le 0 n)), (proj2 (Z.leb_gt 0 (- n))) by lia.
  rewrite Z.opp_involutive, (wrap64_id n) by (unfold int64; lia). intros Hb.
  apply wrap64_id. unfold int64. lia.
Qed.

(** What a line adds to each figure. A one-off is capital and never
    part of a run rate; a monthly line is exact in both rates; a yearly line is
    exact over the year, and twelve of its rounded months differ from the year
    by at most six minor units. *)
Theorem run_rate c :
  0 <= co_AmountMinor c -> 12 * co_AmountMinor c < 2 ^ 63 -> co_Period c ∈ CostPeriods ->
  (co_Period c = CostOnce ->
     MonthlyMinor c = 0 /\ AnnualMinor c = 0 /\ CapitalMinor c = co_AmountMinor c) /\
  (co_Period c <> CostOnce -> CapitalMinor c = 0 /\ Z.abs (12 * MonthlyMinor c - AnnualMinor c) <= 6) /\
  (co_Period c = CostMonthly ->
     MonthlyMinor c = co_AmountMinor c /\ AnnualMinor c = 12 * co_AmountMinor c) /\
  (co_Period c = CostYearly -> AnnualMinor c = co_AmountMinor c).
Proof.
  intros H0 Hb Hp. unfold MonthlyMinor, AnnualMinor, CapitalMinor.
  assert (Hr : 0 <= co_AmountMinor c + 12 < 2 ^ 63) by lia.
  destruct (divRound_nearest (co_AmountMinor c) 12) as [Hd _]; [lia..|].
  unfold CostPeriods in Hp. rewrite !elem_of_cons in Hp.
  destruct Hp as [->|[->|[->|[]%elem_of_nil]]]; cbn [String.eqb Ascii.eqb Bool.eqb];
    unfold CostOnce, CostMonthly, CostYearly; cbn -[Z.mul Z.abs divRound wrap64 Z.sub];
    rewrite ?wrap64_id by (unfold int64; lia); split_and!; try done; intros _; split; done || lia.
Qed.

Definition sample_cost (period : string) (amount : Z) : Cost :=
  {| co_ID := "c"; co_Kind := "hardware"; co_Period := period; co_AmountMinor := amount;
     co_Note := None; co_ValidFrom := "2024-01-20"; co_ValidUntil := None;
     co_AppliesTo := CostUniversal; co_ProviderID := None; co_Lifecycle := LifecycleActive;
     co_CreatedAt := ""; co_UpdatedAt := ""; co_RowVersion := 1 |}.

Lemma run_rate_witness :
  CapitalMinor (sample_cost CostYearly 94000) = 0 /\
  MonthlyMinor (sample_cost CostYearly 94000) = 7833 /\ 12 * 7833 = 93996.
Proof.
  split; [|vm_compute; done].
  apply (run_rate (sample_cost CostYearly 94000)); [done..| |done].
  vm_compute. by right; right; left.
Defined.

(** ** Amortisation *)

Lemma monthsBetween_bound s t a b :
  ParseDate s = Some a -> ParseDate t = Some b -> monthsBetween a b < 120000.
Proof.
  intros ?%ParseDate_range ?%ParseDate_range. unfold monthsBetween. case_match; lia.
Qed.

(** A line in force on a date that parses started on or before that day. *)
Lemma AppliesOn_started c on start today :
  AppliesOn c on = true -> ParseDate (co_ValidFrom c) = Some start -> ParseDate on = Some today ->
  Before today start = false.
Proof.
  unfold AppliesOn. intros H Hs Ht. repeat case_match; try done;
    by rewrite <- (ParseDate_Before _ _ _ _ Ht Hs).
Qed.

(** Straight-line amortisation. A line that cannot be spread adds
    nothing; one that can is a one-off in force on the day, bought before the
    day, for a life of at least one month; it adds nothing once that life is
    over, and until then a monthly part whose sum over the life is the amount to
    within half a unit a month. *)
Theorem AmortisedMonthlyMinor_spec c eolDate on :
  0 <= co_AmountMinor c < 2 ^ 62 ->
  match AmortisedMonthlyMinor c eolDate on with
  | (v, false) => v = 0
  | (v, true) =>
      co_Period c = CostOnce /\ AppliesOn c on = true /\
      exists eol start end_ today,
        eolDate = Some eol /\ ParseDate (co_ValidFrom c) = Some start /\
        ParseDate eol = Some end_ /\ ParseDate on = Some today /\
        0 < monthsBetween start end_ /\ Before today start = false /\
        (Before today end_ = false -> v = 0) /\
        (Before today end_ = true ->
           2 * Z.abs (monthsBetween start end_ * v - co_AmountMinor c) <= monthsBetween start end_)
  end.
Proof.
  intros Ha. unfold AmortisedMonthlyMinor.
  destruct (String.eqb_spec (co_Period c) CostOnce) as [Hp|]; [|done].
  destruct (AppliesOn c on) eqn:Hon; [|done]. cbn [negb orb].
  destruct eolDate as [eol|]; [|done]. destruct (String.eqb eol ""); [done|].
  destruct (ParseDate (co_ValidFrom c)) as [start|] eqn:Hs; [|done].
  destruct (ParseDate eol) as [end_|] eqn:He; [|done].
  destruct (Z.leb_spec (monthsBetween start end_) 0); [done|].
  destruct (ParseDate on) as [today|] eqn:Ht; [|done].
  pose proof (AppliesOn_started _ _ _ _ Hon Hs Ht) as Hst. rewrite Hst. cbn [orb].
  pose proof (monthsBetween_bound _ _ _ _ Hs He) as Hm.
  destruct (divRound_nearest (co_AmountMinor c) (monthsBetween start end_)) as [Hd _]; [lia..|].
  destruct (Before today end_) eqn:Hb; cbn [negb];
    (split_and!; [done..|]; exists eol, start, end_, today; split_and!; done || by rewrite Hb).
Qed.

Lemma AmortisedMonthlyMinor_spec_witness :
  AmortisedMonthlyMinor (sample_cost CostOnce 120000) (Some "2029-01-20") "2025-06-01" = (2000, true) /\
  co_Period (sample_cost CostOnce 120000) = CostOnce.
Proof.
  split; [vm_compute; reflexivity|].
  apply (AmortisedMonthlyMinor_spec (sample_cost CostOnce 120000) (Some "2029-01-20") "2025-06-01").
  cbn. lia.
Defined.

(** ** Totals *)

(** A cost line with the end of support of what it is attached to. *)
Definition totals (lines : list (Cost * option string)) (on : string) : CostTotals :=
  foldl (fun t l => AddCost t (fst l) (snd l) on) no_costs lines.

(** A field of the totals is the wrapped sum of the lines' contributions. *)
Definition is_once (c : Cost) : bool := String.eqb (co_Period c) CostOnce.
Definition b2z (b : bool) : Z := if b then 1 else 0.

Definition sums_of (lines : list (Cost * option string)) (on : string) : CostTotals :=
  let sum f := wrap64 (sumZ (f <$> lines)) in
  {| tt_CapitalMinor := sum (fun l => CapitalMinor (fst l));
     tt_MonthlyMinor := sum (fun l => MonthlyMinor (fst l));
     tt_AnnualMinor := sum (fun l => AnnualMinor (fst l));
     tt_AmortisedMonthlyMinor := sum (fun l => fst (AmortisedMonthlyMinor (fst l) (snd l) on));
     tt_Amortisable := sum (fun l => b2z (snd (AmortisedMonthlyMinor (fst l) (snd l) on)));
     tt_Unamortisable :=
       sum (fun l => b2z (is_once (fst l) && negb (snd (AmortisedMonthlyMinor (fst l) (snd l) on))));
     tt_Lines := sum (fun _ => 1) |}.

Lemma AmortisedMonthlyMinor_false c eol on :
  snd (AmortisedMonthlyMinor c eol on) = false -> fst (AmortisedMonthlyMinor c eol on) = 0.
Proof. unfold AmortisedMonthlyMinor. repeat case_match; try done. Qed.

Lemma AmortisedMonthlyMinor_once c eol on :
  is_once c = false -> AmortisedMonthlyMinor c eol on = (0, false).
Proof. unfold AmortisedMonthlyMinor, is_once. by intros ->. Qed.

Lemma Plus_sums l1 l2 on : Plus (sums_of l1 on) (sums_of l2 on) = sums_of (l1 ++ l2) on.
Proof.
  unfold Plus, sums_of. cbn [tt_CapitalMinor tt_MonthlyMinor tt_AnnualMinor tt_AmortisedMonthlyMinor
    tt_Amortisable tt_Unamortisable tt_Lines].
  rewrite !wrap64_add_l, !wrap64_add_r. by rewrite !fmap_app, !sumZ_app.
Qed.

Lemma AddCost_sums lines c eol on :
  AddCost (sums_of lines on) c eol on = sums_of (lines ++ [(c, eol)]) on.
Proof.
  rewrite <- Plus_sums. unfold AddCost, Plus, sums_of, add_amortised. cbn [tt_CapitalMinor tt_MonthlyMinor tt_AnnualMinor tt_AmortisedMonthlyMinor
    tt_Amortisable tt_Unamortisable tt_Lines fmap list_fmap fst snd].
  unfold sumZ. cbn [foldr]. rewrite !Z.add_0_r, !wrap64_add_r.
  pose proof (AmortisedMonthlyMinor_false c eol on) as Hf.
  pose proof (AmortisedMonthlyMinor_once c eol on) as Ho.
  unfold is_once in *. destruct (String.eqb (co_Period c) CostOnce); cbn [negb andb].
  - destruct (snd (AmortisedMonthlyMinor c eol on)); cbn [negb b2z].
    + by rewrite !Z.add_0_r, !wrap64_idem.
    + by rewrite Hf, !Z.add_0_r, !wrap64_idem by done.
  - rewrite Ho by done. cbn [fst snd b2z]. by rewrite !Z.add_0_r, !wrap64_idem.
Qed.

Lemma totals_sums lines on : totals lines on = sums_of lines on.
Proof.
  induction lines as [|[c eol] l IH] using rev_ind; [reflexivity|].
  unfold totals. rewrite foldl_snoc. cbn [fst snd]. rewrite <- AddCost_sums. f_equal. apply IH.
Qed.

Lemma sum_b2z {A} (p : A -> bool) l :
  sumZ ((fun x => b2z (p x)) <$> l) = Z.of_nat (count_if p l).
Proof.
  unfold count_if. induction l as [|x l IH]; [done|]. rewrite fmap_cons. unfold sumZ in *.
  cbn [foldr List.filter]. rewrite IH. destruct (p x); cbn [b2z length]; lia.
Qed.

(** Every one-off is counted once: spread, or not spreadable. *)
Lemma amortised_partition lines on :
  (count_if (fun l => snd (AmortisedMonthlyMinor (fst l) (snd l) on)) lines +
   count_if (fun l => is_once (fst l) && negb (snd (AmortisedMonthlyMinor (fst l) (snd l) on))) lines =
   count_if (fun l => is_once (fst l)) lines)%nat.
Proof.
  unfold count_if. induction lines as [|[c eol] l IH]; [done|]. cbn [List.filter fst snd].
  pose proof (AmortisedMonthlyMinor_once c eol on) as Ho.
  destruct (is_once c); [|rewrite Ho by done]; cbn [andb snd]; [|done].
  destruct (snd (AmortisedMonthlyMinor c eol on)); cbn [negb length]; lia.
Qed.

(** Totals are additive, wrap-around included: the totals of two
    batches merge into the totals of both, the order of the lines does not
    matter, and every one-off is counted exactly once, as spread or as not
    spreadable. *)
Theorem totals_merge l1 l2 on :
  totals (l1 ++ l2) on = Plus (totals l1 on) (totals l2 on) /\
  (l1 ≡ₚ l2 -> totals l1 on = totals l2 on) /\
  (Z.of_nat (length l1) < 2 ^ 63 ->
     tt_Lines (totals l1 on) = Z.of_nat (length l1) /\
     tt_Amortisable (totals l1 on) + tt_Unamortisable (totals l1 on) =
       Z.of_nat (count_if (fun l => is_once (fst l)) l1)) /\
  tt_CapitalMinor (totals l1 on) = wrap64 (sumZ ((fun l => CapitalMinor (fst l)) <$> l1)) /\
  tt_MonthlyMinor (totals l1 on) = wrap64 (sumZ ((fun l => MonthlyMinor (fst l)) <$> l1)).
Proof.
  rewrite !totals_sums. split_and!; [by rewrite Plus_sums| | |done|done].
  - intros Hp. unfold sums_of. by rewrite Hp.
  - intros Hl. unfold sums_of. cbn [tt_Lines tt_Amortisable tt_Unamortisable].
    pose proof (amortised_partition l1 on) as Hp.
    pose proof (count_if_le (fun l : Cost * option string => is_once (fst l)) l1).
    assert (Hc : forall p : Cost * option string -> bool, (count_if p l1 <= length l1)%nat ->
      wrap64 (sumZ ((fun l => b2z (p l)) <$> l1)) = Z.of_nat (count_if p l1)).
    { intros p Hle. rewrite sum_b2z. apply wrap64_id. unfold int64. lia. }
    split.
    + change (fun _ : Cost * option string => 1) with (fun _ : Cost * option string => b2z true).
      rewrite (Hc (fun _ => true) (count_if_le _ _)). f_equal. unfold count_if. by rewrite filter_true.
    + rewrite (Hc _ (count_if_le _ _)), (Hc _ (count_if_le _ _)). lia.
Qed.
