(* ===== verification/PowerCost.v ===== *)
(** What the declared draw costs: [internal/store/power_cost.go] and
    [internal/domain/power_cost.go].

    The estate's declared load counts every asset once, by the largest figure on any of its
    inputs, and nothing that stands inside an asset that declares its own. The tariff and
    the declared PUE turn it into money by one division at the end. *)
From Stdlib Require Import String Ascii ZArith Lia.
From stdpp Require Import base gmap strings list sorting.
From S2P Require Import Prelude Status Text Errors Timestamps Actors Permits ChangeLog Projects Assets Containment AssetWrites Invariants Cost PowerRows Power Supply.

#[local] Open Scope string_scope.
#[local] Open Scope list_scope.

(** * Definitions *)

Definition PowerHoursPerMonth : Z := 730.

Record DeclaredDraw := {
  dd_TotalVA : Z; dd_Declaring : nat; dd_UndeclaredDraw : nat; dd_UnmodelledSites : nat; dd_Assets : nat
}.

(** ** The declared draw of the estate *)

Definition live_asset (a : Asset) : bool := negb (String.eqb (as_Lifecycle a) LifecycleRetired).

(** The figures on the live inputs of an asset: [MAX] skips what is not recorded. *)
Definition declared_draws (t : PowerTables) (assetID : string) : list Z :=
  omap (fun i => if String.eqb (pi_AssetID i) assetID && in_use i then pi_DrawVA i else None) (rows (wt_inputs t)).
Definition max_of (l : list Z) : option Z := match l with [] => None | x :: l => Some (foldl Z.max x l) end.
Definition max_draw_of (t : PowerTables) (assetID : string) : option Z := max_of (declared_draws t assetID).

(** A live asset that declares a draw of its own. *)
Definition drawing (t : PowerTables) (assetID : string) : bool :=
  match wt_assets t !! assetID with
  | Some a => live_asset a && bool_decide (is_Some (max_draw_of t assetID))
  | None => false
  end.

(** [EXISTS (SELECT 1 FROM asset_closure c ... WHERE c.descendant_id = a.id AND c.depth > 0 ...)] *)
Definition inside_drawing (t : PowerTables) (cl : list ContainmentRow) (assetID : string) : bool :=
  existsb (fun r => String.eqb r.1.2 assetID && (0 <? r.2)%nat && drawing t r.1.1) cl.

(** The assets of the sum: live ones, in no other that declares. *)
Definition counted_assets (t : PowerTables) (cl : list ContainmentRow) : list Asset :=
  List.filter (fun a => live_asset a && negb (inside_drawing t cl (as_ID a))) (rows (wt_assets t)).

(** [DeclaredPowerDraw] *)
Definition DeclaredPowerDraw (t : PowerTables) (cl : list ContainmentRow) : DeclaredDraw :=
  let figures := omap (fun a => max_draw_of t (as_ID a)) (counted_assets t cl) in
  {| dd_TotalVA := sumZ figures; dd_Declaring := length figures;
     dd_UndeclaredDraw := count_if (fun i => negb (bool_decide (is_Some (pi_DrawVA i))) && in_use i) (rows (wt_inputs t));
     dd_UnmodelledSites := unmodelledSites t; dd_Assets := assetsWithPowerInput t |}.

(** ** The estimate *)

Record PowerEstimate := { pe_Draw : DeclaredDraw; pe_Tariff : Z; pe_PUEHundredths : Z }.

(** [PowerEstimate.Configured], [HasFigure] and [PUEDeclared] *)
Definition Configured (e : PowerEstimate) : bool := (0 <? pe_Tariff e)%Z.
Definition HasFigure (e : PowerEstimate) : bool := Configured e && (0 <? dd_TotalVA (pe_Draw e))%Z.
Definition PUEDeclared (e : PowerEstimate) : bool := (0 <? pe_PUEHundredths e)%Z.

(** [effectivePUEHundredths] *)
Definition effectivePUEHundredths (e : PowerEstimate) : Z :=
  if (pe_PUEHundredths e <=? 0)%Z then 100%Z else pe_PUEHundredths e.

(** [pad2] and [PowerEstimate.PUE] *)
Definition pad_two (n : Z) : string := if (n <? 10)%Z then "0" +++ Itoa n else Itoa n.
Definition PUE (e : PowerEstimate) : string :=
  let h := effectivePUEHundredths e in Itoa (Z.quot h 100) +++ "." +++ pad_two (Z.rem h 100).

(** Products of [int64]s, each wrapped as it is made. *)
Definition mul64 (a b : Z) : Z := wrap64 (a * b).

(** [PowerEstimate.MonthlyMinor] *)
Definition PowerMonthlyMinor (e : PowerEstimate) : Z :=
  divRound (mul64 (mul64 (dd_TotalVA (pe_Draw e)) PowerHoursPerMonth) (pe_Tariff e)) (1000 * 100).

(** [PowerEstimate.KWhPerMonthTenths] *)
Definition KWhPerMonthTenths (e : PowerEstimate) : Z :=
  divRound (mul64 (mul64 (dd_TotalVA (pe_Draw e)) PowerHoursPerMonth) 10) 1000.

Definition tenths (n : Z) : string := Itoa (Z.quot n 10) +++ "." +++ Itoa (Z.rem n 10).

(** [PowerEstimate.KWhPerMonth] *)
Definition KWhPerMonth (e : PowerEstimate) : string := tenths (KWhPerMonthTenths e).

(** [PowerEstimate.FacilityMonthlyMinor] *)
Definition FacilityMonthlyMinor (e : PowerEstimate) : Z :=
  divRound (mul64 (mul64 (mul64 (dd_TotalVA (pe_Draw e)) PowerHoursPerMonth) (pe_Tariff e)) (effectivePUEHundredths e))
    (1000 * 100 * 100).

(** [PowerEstimate.FacilityKWhPerMonthTenths] and [FacilityKWhPerMonth] *)
Definition FacilityKWhPerMonthTenths (e : PowerEstimate) : Z :=
  divRound (mul64 (mul64 (mul64 (dd_TotalVA (pe_Draw e)) PowerHoursPerMonth) 10) (effectivePUEHundredths e)) (1000 * 100).
Definition FacilityKWhPerMonth (e : PowerEstimate) : string := tenths (FacilityKWhPerMonthTenths e).

(** ** What the sum has to count *)

(** One asset inside another, at any depth. *)
Definition inside (assets : gmap string Asset) (inner outer : string) : Prop :=
  exists n, climb (parent_of assets) (S n) inner = Some outer.

(** The assets that put a figure into the sum. *)
Definition contributes (t : PowerTables) (cl : list ContainmentRow) (assetID : string) : Prop :=
  exists a, a ∈ counted_assets t cl /\ as_ID a = assetID /\ is_Some (max_draw_of t assetID).

(** * Lemmas *)

Lemma max_of_spec l m : max_of l = Some m -> m ∈ l /\ forall x, x ∈ l -> (x <= m)%Z.
Proof.
  destruct l as [|x l]; [done|]. cbn. intros [= <-]. revert x. induction l as [|y l IH]; intros x; cbn.
  - split; [left|]. by intros z ->%list_elem_of_singleton.
  - destruct (IH (Z.max x y)) as [Hin Hle]. split.
    + apply elem_of_cons in Hin as [E|Hin]; [|by do 2 right]. rewrite E. destruct (Z.max_dec x y) as [->| ->]; [left|right; left].
    + intros z [->|[->|Hz]%elem_of_cons]%elem_of_cons; [..|apply Hle; by right].
      * transitivity (Z.max x y); [lia|]. apply Hle. left.
      * transitivity (Z.max x y); [lia|]. apply Hle. left.
Qed.

Lemma max_of_none l : max_of l = None <-> l = [].
Proof. by destruct l. Qed.

Lemma drawing_spec t id : drawing t id = true <->
  exists a, wt_assets t !! id = Some a /\ live_asset a = true /\ is_Some (max_draw_of t id).
Proof.
  unfold drawing. destruct (wt_assets t !! id) as [a|]; [|split; [done|by intros (? & ? & _)]].
  rewrite andb_true_iff, bool_decide_eq_true. naive_solver.
Qed.

Section Counting.
Context (t : PowerTables) (cl : list ContainmentRow).
Context (Hkeys : forall k a, wt_assets t !! k = Some a -> as_ID a = k).
Context (Hcl : closes (fun d => is_Some (wt_assets t !! d)) (parent_of (wt_assets t)) cl).

Lemma inside_drawing_spec id : inside_drawing t cl id = true <->
  is_Some (wt_assets t !! id) /\ exists outer, inside (wt_assets t) id outer /\ drawing t outer = true.
Proof.
  unfold inside_drawing. rewrite existsb_exists. setoid_rewrite <- list_elem_of_In. split.
  - intros ([[a d] n] & Hin & Hc). cbn [fst snd] in Hc. apply andb_true_iff in Hc as [[->%String.eqb_eq Hn%Nat.ltb_lt]%andb_true_iff Hd].
    apply (closes_rows _ _ _ Hcl) in Hin as [Hid Hm]. split; [done|]. exists a. split; [|done]. exists (pred n).
    by replace (S (pred n)) with n by lia.
  - intros [Hid (outer & [n Hn] & Hd)]. exists ((outer, id), S n). split; [by apply (closes_rows _ _ _ Hcl)|].
    cbn. by rewrite String.eqb_refl, Hd.
Qed.

Lemma contributes_spec id : contributes t cl id <-> drawing t id = true /\ inside_drawing t cl id = false.
Proof.
  unfold contributes, counted_assets, rows. rewrite drawing_spec. setoid_rewrite list_elem_of_In. setoid_rewrite filter_In.
  setoid_rewrite <- list_elem_of_In. setoid_rewrite elem_of_table. setoid_rewrite andb_true_iff. setoid_rewrite negb_true_iff.
  split.
  - intros (a & ([k Hk] & Hl & Hn) & <- & Hm). rewrite (Hkeys _ _ Hk) in *. split; [by exists a|done].
  - intros [(a & Ha & Hl & Hm) Hn]. exists a. rewrite (Hkeys _ _ Ha). split_and!; [by exists id|done..].
Qed.

(** Of the assets around a drawing one, the outermost that draws. *)
Lemma outermost id : drawing t id = true -> contributes t cl id \/ exists outer, inside (wt_assets t) id outer /\ contributes t cl outer.
Proof.
  intros Hd. destruct (inside_drawing t cl id) eqn:E; [|left; by apply contributes_spec]. right.
  set (around := List.filter (fun r => String.eqb r.1.2 id && drawing t r.1.1) cl).
  assert (exists bound, forall r, r ∈ around -> r.2 <= bound) as [bound Hbound].
  { clear. induction around as [|r l [b Hb]]; [exists 0; by intros r ?%not_elem_of_nil|].
    exists (Nat.max r.2 b). intros x [->|Hx]%elem_of_cons; [lia|]. specialize (Hb x Hx). lia. }
  assert (is_Some (wt_assets t !! id)) as Hid by (by apply inside_drawing_spec in E as [? _]).
  assert (forall n outer, climb (parent_of (wt_assets t)) n id = Some outer -> drawing t outer = true -> n <= bound) as Htop.
  { intros n outer Hn Ho. apply (Hbound ((outer, id), n)). unfold around. rewrite list_elem_of_In, filter_In, <- list_elem_of_In.
    split; [by apply (closes_rows _ _ _ Hcl)|]. cbn. by rewrite String.eqb_refl. }
  apply inside_drawing_spec in E as (_ & outer & [n Hn] & Ho).
  enough (forall k n outer, bound - n <= k -> climb (parent_of (wt_assets t)) (S n) id = Some outer -> drawing t outer = true ->
    exists outer, inside (wt_assets t) id outer /\ contributes t cl outer) as Hk by (by eapply (Hk bound n outer); [lia|..]).
  clear n outer Hn Ho. intros k. induction k as [|k IH]; intros n outer Hle Hn Ho; pose proof (Htop _ _ Hn Ho); [lia|].
  destruct (inside_drawing t cl outer) eqn:E.
  - apply inside_drawing_spec in E as (_ & outer' & [m Hm] & Ho'). apply (IH (n + S m) outer'); [lia| |done].
    change (S (n + S m)) with (S n + S m). by rewrite climb_add, Hn.
  - exists outer. split; [by exists n|]. by apply contributes_spec.
Qed.
End Counting.

(** The figures of the sum, by the assets that put them there. *)
Lemma figures_of t (l : list Asset) : omap (fun a => max_draw_of t (as_ID a)) l =
  default 0%Z ∘ max_draw_of t <$> (as_ID <$> List.filter (fun a => bool_decide (is_Some (max_draw_of t (as_ID a)))) l).
Proof.
  induction l as [|a l IH]; [done|]. cbn. destruct (max_draw_of t (as_ID a)) as [m|] eqn:E; cbn; rewrite IH; [|done].
  by rewrite E.
Qed.

Lemma NoDup_fmap_filter {A B} (f : A -> B) (p : A -> bool) l : NoDup (f <$> l) -> NoDup (f <$> List.filter p l).
Proof.
  induction l as [|x l IH]; [done|]. cbn. intros [Hx Hl]%NoDup_cons. destruct (p x); [|auto]. cbn. apply NoDup_cons.
  split; [|auto]. intros (y & E & Hy)%list_elem_of_fmap. apply Hx, list_elem_of_fmap. exists y. split; [done|].
  by apply list_elem_of_In, filter_In in Hy as [Hy%list_elem_of_In _].
Qed.

Lemma NoDup_row_ids {V} (id : V -> string) (m : gmap string V) : (forall k v, m !! k = Some v -> id v = k) -> NoDup (id <$> rows m).
Proof.
  intros Hid. replace (id <$> rows m) with ((map_to_list m).*1); [apply NoDup_fst_map_to_list|].
  unfold rows. rewrite <- list_fmap_compose. apply list_fmap_ext. intros i [k v] Hi. cbn. symmetry. apply Hid.
  apply elem_of_map_to_list. by eapply list_elem_of_lookup_2.
Qed.

Lemma max_draw_bounds t id m : power_ok t -> max_draw_of t id = Some m -> (0 <= m <= 100000)%Z.
Proof.
  intros Hok [Hin _]%max_of_spec. unfold declared_draws, rows in Hin. apply list_elem_of_omap in Hin as (i & [k Hk]%elem_of_table & Hi).
  destruct (_ && _); [|done]. destruct (co_rows _ _ (wk_inputs _ Hok) _ _ Hk) as (_ & _ & Hd & _). auto.
Qed.

Lemma sum_bounds (l : list Z) : (forall x, x ∈ l -> (0 <= x <= 100000)%Z) -> (0 <= sumZ l <= 100000 * Z.of_nat (length l))%Z.
Proof.
  induction l as [|x l IH]; intros Hl; [done|]. specialize (IH (fun y Hy => Hl y (list_elem_of_further _ _ _ Hy))).
  pose proof (Hl x (list_elem_of_here _ _)). unfold sumZ in *. cbn [foldr length]. lia.
Qed.

(** Rounding in range, and of a fraction that is not in lowest terms. *)
Lemma divRound_quotient n d : (0 <= n)%Z -> (0 < d)%Z -> (n + d < 2 ^ 63)%Z -> divRound n d = ((n + d / 2) / d)%Z.
Proof.
  intros Hn Hd Hr. unfold divRound. rewrite (proj2 (Z.eqb_neq d 0)), (proj2 (Z.leb_le 0 n)) by lia.
  rewrite (Z.quot_div_nonneg d 2) by lia. assert (0 <= d / 2 <= d)%Z by (Z.div_mod_to_equations; lia).
  rewrite (wrap64_id (n + d / 2)) by (unfold int64; lia). rewrite Z.quot_div_nonneg by lia.
  assert (0 <= (n + d / 2) / d <= n + d / 2)%Z by (split; [apply Z.div_pos; lia|apply Z.div_le_upper_bound; nia]).
  apply wrap64_id. unfold int64. lia.
Qed.

Lemma divRound_hundredths n d : (0 <= n)%Z -> (0 < d)%Z -> (n * 100 + (2 * d) * 100 < 2 ^ 63)%Z ->
  divRound (n * 100) (2 * d * 100) = divRound n (2 * d).
Proof.
  intros Hn Hd Hr. rewrite !divRound_quotient by lia. replace (2 * d * 100 / 2)%Z with (d * 100)%Z by (Z.div_mod_to_equations; lia).
  replace (2 * d / 2)%Z with d by (Z.div_mod_to_equations; lia). rewrite <- Z.mul_add_distr_r. apply Z.div_mul_cancel_r; lia.
Qed.

Lemma mul64_id a b : (0 <= a * b < 2 ^ 63)%Z -> mul64 a b = (a * b)%Z.
Proof. intros Hr. apply wrap64_id. unfold int64. lia. Qed.

(** * Theorems *)

(** C23. The declared load counts every draw once: the assets that put a figure into the sum
    are live, none of them stands inside another, and every live asset that declares a draw
    is one of them or stands inside one; the sum is of the largest figure of each, so it is
    at most 100,000 volt-amps an asset and is not negative. *)
Theorem declared_draw_once t cl :
  power_ok t -> (forall k a, wt_assets t !! k = Some a -> as_ID a = k) ->
  closes (fun d => is_Some (wt_assets t !! d)) (parent_of (wt_assets t)) cl ->
  (forall id, contributes t cl id -> drawing t id = true) /\
  (forall inner outer, contributes t cl inner -> contributes t cl outer -> ~ inside (wt_assets t) inner outer) /\
  (forall id, drawing t id = true ->
     contributes t cl id \/ exists outer, inside (wt_assets t) id outer /\ contributes t cl outer) /\
  (exists ids, NoDup ids /\ (forall id, id ∈ ids <-> contributes t cl id) /\
     dd_Declaring (DeclaredPowerDraw t cl) = length ids /\
     dd_TotalVA (DeclaredPowerDraw t cl) = sumZ (default 0%Z ∘ max_draw_of t <$> ids)) /\
  (0 <= dd_TotalVA (DeclaredPowerDraw t cl) <= 100000 * Z.of_nat (dd_Declaring (DeclaredPowerDraw t cl)))%Z.
Proof.
  intros Hok Hkeys Hcl. split_and!.
  - intros id Hc. by apply contributes_spec in Hc as [? _].
  - intros inner outer Hi Ho Hin. apply contributes_spec in Hi as [Hd Hn]; [|done..]. apply contributes_spec in Ho as [Hdo _]; [|done..].
    assert (inside_drawing t cl inner = true) as E; [|congruence]. apply inside_drawing_spec; [done|]. split; [|by exists outer].
    apply drawing_spec in Hd as (a & Ha & _). by exists a.
  - intros id Hd. by apply outermost.
  - exists (as_ID <$> List.filter (fun a => bool_decide (is_Some (max_draw_of t (as_ID a)))) (counted_assets t cl)). split_and!.
    + by apply NoDup_fmap_filter, NoDup_fmap_filter, NoDup_row_ids.
    + intros id. rewrite list_elem_of_fmap. setoid_rewrite list_elem_of_In. setoid_rewrite filter_In.
      setoid_rewrite <- list_elem_of_In. setoid_rewrite bool_decide_eq_true. unfold contributes. naive_solver.
    + unfold DeclaredPowerDraw. cbn [dd_Declaring]. by rewrite figures_of, length_fmap.
    + unfold DeclaredPowerDraw. cbn [dd_TotalVA]. by rewrite figures_of.
  - apply sum_bounds. intros m (a & _ & Hm)%list_elem_of_omap. by eapply max_draw_bounds.
  - apply sum_bounds. intros m (a & _ & Hm)%list_elem_of_omap. by eapply max_draw_bounds.
Qed.

(** The estimate rounds once: while the product stays in 64 bits the monthly figure is
    the exact one to the nearest minor unit, and with no PUE declared the figure for the
    facility is that same figure, in money and in energy. *)
Theorem estimate_rounds_once e :
  let va := dd_TotalVA (pe_Draw e) in
  (0 <= va)%Z -> (0 < pe_Tariff e)%Z -> (va * PowerHoursPerMonth * pe_Tariff e * 100 + 10000000 < 2 ^ 63)%Z ->
  (2 * Z.abs (100000 * PowerMonthlyMinor e - va * PowerHoursPerMonth * pe_Tariff e) <= 100000)%Z /\
  (PUEDeclared e = false ->
     FacilityMonthlyMinor e = PowerMonthlyMinor e /\
     ((va * PowerHoursPerMonth * 1000 + 10000000 < 2 ^ 63)%Z -> FacilityKWhPerMonthTenths e = KWhPerMonthTenths e)).
Proof.
  intros va Hva Htariff Hr. unfold PowerHoursPerMonth in *. unfold PowerMonthlyMinor, PowerHoursPerMonth. fold va.
  assert (0 <= va * 730)%Z by lia. assert (va * 730 <= va * 730 * pe_Tariff e)%Z by nia.
  rewrite (mul64_id va) by lia. rewrite mul64_id by lia. change (1000 * 100)%Z with 100000%Z. split.
  { destruct (divRound_nearest (va * 730 * pe_Tariff e) 100000) as [Hd _]; lia. }
  unfold PUEDeclared. intros Hpue%Z.ltb_ge. unfold FacilityMonthlyMinor, FacilityKWhPerMonthTenths, KWhPerMonthTenths.
  unfold effectivePUEHundredths, PowerHoursPerMonth. fold va. rewrite (proj2 (Z.leb_le _ _) Hpue).
  rewrite (mul64_id va 730) by lia. rewrite (mul64_id (va * 730) (pe_Tariff e)) by lia. split.
  - rewrite mul64_id by lia. change (1000 * 100 * 100)%Z with (2 * 50000 * 100)%Z. change 100000%Z with (2 * 50000)%Z.
    apply divRound_hundredths; lia.
  - intros Hk. rewrite (mul64_id (va * 730) 10) by lia. rewrite mul64_id by lia.
    change (1000 * 100)%Z with (2 * 500 * 100)%Z. change 1000%Z with (2 * 500)%Z. apply divRound_hundredths; lia.
Qed.

(** * Samples *)

(** The machine hall with power to a rack, to the server in it on both its feeds, and to a
    server of the other rack. *)
Definition powered_hall : Store PowerTables :=
  foldl wire (MkStore {| wt_assets := pt_assets (st_tables machine_hall); wt_panels := ∅; wt_feeds := ∅; wt_inputs := ∅;
      wt_sources := ∅ |} [] 0)
    ([OpCreateSource (sample_source "mains" None "utility"); OpCreatePanel (sample_panel "pa" (Some "mains"));
      OpCreateFeed (sample_feed "fa" "pa" LifecycleActive 1); OpCreateFeed (sample_feed "fb" "pa" LifecycleActive 1);
      OpCreateInput (sample_input "R" "r1" "fa"); OpCreateInput (sample_input "A" "s1" "fa");
      OpCreateInput (sample_input "B" "s1" "fb"); OpCreateInput (sample_input "C" "s2" "fb")]).

Definition hall_closure : list ContainmentRow := pt_closure (st_tables machine_hall).

Lemma powered_hall_ok : power_ok (st_tables powered_hall).
Proof.
  unfold powered_hall. cbn [foldl]. do 8 apply wire_ok.
  split; cbn; try (split; [intros k v Hk|intros k k' v v' Hk]; exfalso; by apply lookup_empty_Some in Hk).
  intros [|n] d; unfold supplied_by; cbn; by rewrite lookup_empty.
Qed.

(** Inputs are wired without touching the assets. *)
Lemma powered_hall_assets : wt_assets (st_tables powered_hall) = pt_assets (st_tables machine_hall).
Proof. vm_compute. reflexivity. Qed.

(** The rack and the other server count; the server in the rack does not, though it
    declares 900 volt-amps on each of two inputs. *)
Lemma declared_draw_once_witness :
  dd_TotalVA (DeclaredPowerDraw (st_tables powered_hall) hall_closure) = 1800%Z /\
  drawing (st_tables powered_hall) "s1" = true /\
  (contributes (st_tables powered_hall) hall_closure "s1" \/
   exists outer, inside (wt_assets (st_tables powered_hall)) "s1" outer /\ contributes (st_tables powered_hall) hall_closure outer).
Proof.
  assert (drawing (st_tables powered_hall) "s1" = true) as Hd by (vm_compute; reflexivity).
  split; [vm_compute; reflexivity|]. split; [exact Hd|].
  refine (proj1 (proj2 (proj2 (declared_draw_once (st_tables powered_hall) hall_closure powered_hall_ok _ _))) "s1" Hd).
  - rewrite powered_hall_assets. exact (rows_ids _ (ok_rows _ machine_hall_ok)).
  - rewrite powered_hall_assets. exact (ok_closure _ machine_hall_ok).
Defined.

Definition sample_estimate : PowerEstimate :=
  {| pe_Draw := DeclaredPowerDraw (st_tables powered_hall) hall_closure; pe_Tariff := 2847; pe_PUEHundredths := 0 |}.

Lemma estimate_rounds_once_witness :
  PowerMonthlyMinor sample_estimate = 37410%Z /\ FacilityMonthlyMinor sample_estimate = 37410%Z /\ KWhPerMonth sample_estimate = "1314.0".
Proof.
  assert (PowerMonthlyMinor sample_estimate = 37410%Z) as E by (vm_compute; reflexivity). split; [exact E|].
  split; [|vm_compute; reflexivity]. rewrite <- E.
  refine (proj1 (proj2 (estimate_rounds_once sample_estimate _ _ _) eq_refl)); vm_compute; (reflexivity || discriminate).
Defined.
