(* ===== verification/Capacity.v ===== *)
(** What a cluster can carry: [internal/domain/capacity.go], and the form field
    that reads an overcommit ratio back ([internal/web/handlers/app.go]).

    Optional integers are [option Z]; sums, products and quotients are those of
    Go's 64-bit [int]. *)
From Stdlib Require Import String Ascii ZArith Lia.
From stdpp Require Import base gmap strings list pretty.
From S2P Require Import Prelude Text.

#[local] Open Scope string_scope.
#[local] Open Scope list_scope.
#[local] Open Scope Z_scope.

(** * Definitions *)

Definition DefaultCPUOvercommit : Z := 100.

(** [fmt.Sprintf("%02d", n)] *)
Definition two_digits (n : Z) : string :=
  if (0 <=? n) && (n <? 10) then "0" +++ Itoa n else Itoa n.

(** [RatioText] *)
Definition RatioText (hundredths : Z) : string :=
  let whole := Z.quot hundredths 100 in
  let frac := Z.rem hundredths 100 in
  if frac =? 0 then Itoa whole
  else if Z.rem frac 10 =? 0 then Itoa whole +++ "." +++ Itoa (Z.quot frac 10)
  else Itoa whole +++ "." +++ two_digits frac.

(** The fractional part of [numbers.ratio]: [(frac + "00")[:2]] when it is
    empty or too long, zeroes added while it is too short. *)
Definition ratio_frac (frac : string) : string :=
  match frac with
  | EmptyString => "00"
  | String a EmptyString => String a "0"
  | String a (String b _) => String a (String b EmptyString)
  end.

(** [numbers.ratio], on the trimmed form value: [None] when the field is
    recorded as bad, [Some None] when it is blank. *)
Definition ratio (value : string) : option (option Z) :=
  let v := TrimSuffix value ":1" in
  if String.eqb v "" then Some None
  else
    let '(whole, frac) := match cut "." v with
                          | Some (w, f) => (w, Some f)
                          | None => (v, None)
                          end in
    match Atoi whole with
    | None => None
    | Some n =>
        let hundredths := wrap64 (n * 100) in
        match frac with
        | None => Some (Some hundredths)
        | Some f =>
            match Atoi (ratio_frac f) with
            | None => None
            | Some d => Some (Some (wrap64 (hundredths + d)))
            end
        end
    end.

Record HostCapacity := {
  hc_AssetID : string; hc_Name : string; hc_CPUCores : option Z; hc_MemoryMB : option Z
}.

(** [HostCapacity.Measured] *)
Definition Measured (h : HostCapacity) : bool :=
  match hc_CPUCores h, hc_MemoryMB h with Some _, Some _ => true | _, _ => false end.

Record WorkloadClaim := {
  wc_AssetID : string; wc_Name : string;
  wc_VCPUProvisioned : option Z; wc_VCPUAllocated : option Z;
  wc_MemoryProvisionedMB : option Z; wc_MemoryAllocatedMB : option Z
}.

Record ClusterCapacity := {
  cc_Hosts : Z; cc_Survivors : Z; cc_UnmeasuredHosts : Z; cc_RawCores : Z; cc_RawMemoryMB : Z;
  cc_UsableVCPU : Z; cc_UsableMemoryMB : Z; cc_AllocatedVCPU : Z; cc_AllocatedMemoryMB : Z;
  cc_ProvisionedVCPU : Z; cc_ProvisionedMemoryMB : Z; cc_UnallocatedWorkloads : Z;
  cc_Overcommit : Z; cc_OvercommitDeclared : bool; cc_SurvivorsDeclared : bool
}.

(** [ClusterCapacity.OvercommitRatio] *)
Definition OvercommitRatio (c : ClusterCapacity) : string := RatioText (cc_Overcommit c) +++ ":1".

(** [ClusterCapacity.Complete] *)
Definition Complete (c : ClusterCapacity) : bool :=
  (cc_UnmeasuredHosts c =? 0) && (cc_UnallocatedWorkloads c =? 0) && (0 <? cc_Hosts c) &&
  cc_SurvivorsDeclared c && cc_OvercommitDeclared c.

(** [ClusterCapacity.RedundancyPremium] *)
Definition RedundancyPremium (c : ClusterCapacity) : Z :=
  if negb (cc_SurvivorsDeclared c) || (cc_Survivors c <=? 0) || (cc_Hosts c <=? cc_Survivors c) then 0
  else wrap64 (Z.quot (wrap64 (wrap64 (cc_Hosts c - cc_Survivors c) * 100)) (cc_Survivors c)).

(** [ClusterCapacity.CPUOversubscribed], [MemoryOversubscribed] *)
Definition CPUOversubscribed (c : ClusterCapacity) : bool :=
  (0 <? cc_UsableVCPU c) && (cc_UsableVCPU c <? cc_ProvisionedVCPU c).
Definition MemoryOversubscribed (c : ClusterCapacity) : bool :=
  (0 <? cc_UsableMemoryMB c) && (cc_UsableMemoryMB c <? cc_ProvisionedMemoryMB c).

(** [ClusterCapacity.UnfundedVCPU], [UnfundedMemoryMB] *)
Definition UnfundedVCPU (c : ClusterCapacity) : Z :=
  if cc_ProvisionedVCPU c <=? cc_AllocatedVCPU c then 0
  else wrap64 (cc_ProvisionedVCPU c - cc_AllocatedVCPU c).
Definition UnfundedMemoryMB (c : ClusterCapacity) : Z :=
  if cc_ProvisionedMemoryMB c <=? cc_AllocatedMemoryMB c then 0
  else wrap64 (cc_ProvisionedMemoryMB c - cc_AllocatedMemoryMB c).

(** ** [ComputeCapacity] *)

(** The first loop: unmeasured and measured hosts, cores, memory. *)
Record HostTotals := { ht_unmeasured : Z; ht_measured : Z; ht_cores : Z; ht_memory : Z }.

Definition add_host (t : HostTotals) (h : HostCapacity) : HostTotals :=
  match hc_CPUCores h, hc_MemoryMB h with
  | Some cores, Some memory =>
      {| ht_unmeasured := ht_unmeasured t; ht_measured := wrap64 (ht_measured t + 1);
         ht_cores := wrap64 (ht_cores t + cores); ht_memory := wrap64 (ht_memory t + memory) |}
  | _, _ =>
      {| ht_unmeasured := wrap64 (ht_unmeasured t + 1); ht_measured := ht_measured t;
         ht_cores := ht_cores t; ht_memory := ht_memory t |}
  end.

Definition no_hosts : HostTotals :=
  {| ht_unmeasured := 0; ht_measured := 0; ht_cores := 0; ht_memory := 0 |}.

(** [survivors], clamped. *)
Definition survivors_of (survivors hosts : Z) : Z :=
  if (survivors <=? 0) || (hosts <? survivors) then hosts else survivors.

(** The two divisions by the host count. *)
Definition usable_memory (memory survivors hosts : Z) : Z :=
  wrap64 (Z.quot (wrap64 (memory * survivors)) hosts).
Definition usable_vcpu (cores survivors hosts overcommit : Z) : Z :=
  wrap64 (Z.quot (wrap64 (usable_memory cores survivors hosts * overcommit)) 100).

(** The last loop: the workloads' claims. *)
Record ClaimTotals := {
  ct_unallocated : Z; ct_vcpu : Z; ct_memory : Z; ct_pvcpu : Z; ct_pmemory : Z
}.

Definition no_claims : ClaimTotals :=
  {| ct_unallocated := 0; ct_vcpu := 0; ct_memory := 0; ct_pvcpu := 0; ct_pmemory := 0 |}.

(** [if v != nil { total += *v }] *)
Definition add_opt (total : Z) (v : option Z) : Z :=
  match v with Some x => wrap64 (total + x) | None => total end.

(** What is provisioned: the cap, or the allocation where nobody set one. *)
Definition provisioned (cap allocation : option Z) : option Z :=
  match cap with Some _ => cap | None => allocation end.

Definition add_claim (t : ClaimTotals) (w : WorkloadClaim) : ClaimTotals :=
  {| ct_unallocated := match wc_VCPUAllocated w, wc_MemoryAllocatedMB w with
                       | None, None => wrap64 (ct_unallocated t + 1)
                       | _, _ => ct_unallocated t
                       end;
     ct_vcpu := add_opt (ct_vcpu t) (wc_VCPUAllocated w);
     ct_memory := add_opt (ct_memory t) (wc_MemoryAllocatedMB w);
     ct_pvcpu := add_opt (ct_pvcpu t) (provisioned (wc_VCPUProvisioned w) (wc_VCPUAllocated w));
     ct_pmemory :=
       add_opt (ct_pmemory t) (provisioned (wc_MemoryProvisionedMB w) (wc_MemoryAllocatedMB w)) |}.

(** [ComputeCapacity] *)
Definition ComputeCapacity (hosts : list HostCapacity) (claims : list WorkloadClaim)
    (survivors : Z) (overcommit : option Z) : ClusterCapacity :=
  let n := Z.of_nat (length hosts) in
  let over := default DefaultCPUOvercommit overcommit in
  let h := foldl add_host no_hosts hosts in
  let left := survivors_of survivors n in
  let usable := (0 <? ht_measured h) && (0 <? n) in
  let c := foldl add_claim no_claims claims in
  {| cc_Hosts := n; cc_Survivors := left; cc_UnmeasuredHosts := ht_unmeasured h;
     cc_RawCores := ht_cores h; cc_RawMemoryMB := ht_memory h;
     cc_UsableVCPU := if usable then usable_vcpu (ht_cores h) left n over else 0;
     cc_UsableMemoryMB := if usable then usable_memory (ht_memory h) left n else 0;
     cc_AllocatedVCPU := ct_vcpu c; cc_AllocatedMemoryMB := ct_memory c;
     cc_ProvisionedVCPU := ct_pvcpu c; cc_ProvisionedMemoryMB := ct_pmemory c;
     cc_UnallocatedWorkloads := ct_unallocated c; cc_Overcommit := over;
     cc_OvercommitDeclared := match overcommit with Some _ => true | None => false end;
     cc_SurvivorsDeclared := (0 <? survivors) && (survivors <=? n) |}.

(** * Lemmas *)

(** ** A ratio is read back *)

Lemma frac_text_read f :
  0 < f < 100 ->
  let t := if Z.rem f 10 =? 0 then Itoa (Z.quot f 10) else two_digits f in
  Atoi (ratio_frac t) = Some f /\ contains ":" t = false.
Proof.
  intros Hf.
  assert (H : forallb (fun k => let f := Z.of_nat k in
      let t := if Z.rem f 10 =? 0 then Itoa (Z.quot f 10) else two_digits f in
      bool_decide (Atoi (ratio_frac t) = Some f /\ contains ":" t = false)) (seq 1 99) = true)
    by (vm_compute; reflexivity).
  rewrite forallb_forall in H. specialize (H (Z.to_nat f)).
  rewrite Z2Nat.id in H by lia. apply bool_decide_eq_true in H; [done|]. apply in_seq. lia.
Qed.

(** The text of a ratio: its whole part, and a fraction where there is one. *)
Lemma RatioText_shape n :
  0 <= n ->
  (n mod 100 = 0 /\ RatioText n = Itoa (n / 100)) \/
  (exists t, RatioText n = Itoa (n / 100) +++ "." +++ t /\
     Atoi (ratio_frac t) = Some (n mod 100) /\ contains ":" t = false).
Proof.
  intros Hn. unfold RatioText. rewrite Z.quot_div_nonneg, (Z.rem_mod_nonneg n 100) by lia.
  pose proof (Z.mod_pos_bound n 100 ltac:(lia)).
  destruct (Z.eqb_spec (n mod 100) 0) as [E|E]; [by left|right].
  destruct (frac_text_read (n mod 100) ltac:(lia)) as [H1 H2].
  destruct (Z.rem (n mod 100) 10 =? 0); eauto.
Qed.

Lemma RatioText_contains n : 0 <= n -> contains ":" (RatioText n) = false.
Proof.
  intros Hn. assert (Hq : 0 <= n / 100) by (apply Z.div_pos; lia).
  pose proof (Itoa_contains ":" _ Hq eq_refl) as Hi.
  destruct (RatioText_shape n Hn) as [[_ ->]|(t & -> & _ & Ht)]; [done|].
  by rewrite !contains_app, Hi, Ht.
Qed.

(** A text that is not blank is its whole and fractional parts. *)
Lemma ratio_read n :
  0 <= n < 2 ^ 63 -> TrimSuffix (RatioText n) ":1" = RatioText n ->
  ratio (RatioText n) = Some (Some n).
Proof.
  intros Hn Htrim. assert (Hq : 0 <= n / 100) by (apply Z.div_pos; lia).
  pose proof (Z.div_mod n 100 ltac:(lia)) as Hdm. pose proof (Z.mod_pos_bound n 100 ltac:(lia)).
  unfold ratio. rewrite Htrim.
  destruct (RatioText_shape n (proj1 Hn)) as [[Hm ->]|(t & -> & Ht & _)].
  - destruct (String.eqb_spec (Itoa (n / 100)) "") as [H'|_]; [by apply Itoa_not_nil in H'|].
    rewrite cut_none by (by apply Itoa_contains). rewrite Atoi_Itoa by lia.
    rewrite wrap64_id by (unfold int64; lia). do 2 f_equal. lia.
  - change ("." +++ t) with (String "." t).
    destruct (String.eqb_spec (Itoa (n / 100) +++ String "." t) "") as [H'|_].
    { apply (f_equal String.length) in H'. rewrite append_length in H'. cbn in H'. lia. }
    rewrite cut_app by (by apply Itoa_contains). rewrite Atoi_Itoa, Ht by lia.
    rewrite (wrap64_id (n / 100 * 100)) by (unfold int64; lia).
    rewrite wrap64_id by (unfold int64; lia). do 2 f_equal. lia.
Qed.

(** A ratio offered back is accepted: the form field reads the text
    [RatioText] renders, with or without the ":1" of [OvercommitRatio], as the
    hundredths it was rendered from. *)
Theorem ratio_RatioText n :
  0 <= n < 2 ^ 63 ->
  ratio (RatioText n) = Some (Some n) /\ ratio (RatioText n +++ ":1") = Some (Some n).
Proof.
  intros Hn.
  assert (H : TrimSuffix (RatioText n) ":1" = RatioText n).
  { apply (TrimSuffix_absent _ _ ":"); [done|]. apply RatioText_contains. lia. }
  assert (Hr : ratio (RatioText n) = Some (Some n)) by by apply ratio_read.
  split; [done|]. unfold ratio. rewrite TrimSuffix_app by done. unfold ratio in Hr. by rewrite H in Hr.
Qed.

Lemma ratio_RatioText_witness :
  ratio (RatioText 205 +++ ":1") = Some (Some 205) /\ RatioText 205 = "2.05" /\ RatioText 150 = "1.5".
Proof. split; [apply ratio_RatioText; lia|done]. Defined.

(** ** Totals over hosts *)

(** A measurement that the sums can carry. *)
Definition cores_of (h : HostCapacity) : Z :=
  match hc_CPUCores h, hc_MemoryMB h with Some c, Some _ => c | _, _ => 0 end.
Definition memory_of (h : HostCapacity) : Z :=
  match hc_CPUCores h, hc_MemoryMB h with Some _, Some m => m | _, _ => 0 end.

Definition host_sums (hosts : list HostCapacity) : HostTotals :=
  {| ht_unmeasured := wrap64 (Z.of_nat (count_if (fun h => negb (Measured h)) hosts));
     ht_measured := wrap64 (Z.of_nat (count_if Measured hosts));
     ht_cores := wrap64 (sumZ (cores_of <$> hosts)); ht_memory := wrap64 (sumZ (memory_of <$> hosts)) |}.

Lemma host_totals hosts : foldl add_host no_hosts hosts = host_sums hosts.
Proof.
  induction hosts as [|h l IH] using rev_ind; [reflexivity|].
  rewrite foldl_snoc, IH. unfold add_host, host_sums. rewrite !fmap_app, !sumZ_app.
  unfold count_if. rewrite !List.filter_app, !length_app, !Nat2Z.inj_add.
  destruct h as [i name [cores|] [memory|]];
    cbn [List.filter fmap list_fmap Measured cores_of memory_of hc_CPUCores hc_MemoryMB negb length
         ht_unmeasured ht_measured ht_cores ht_memory];
    unfold sumZ; cbn [foldr]; change (Z.of_nat 1) with 1; change (Z.of_nat 0) with 0;
    by rewrite ?Z.add_0_r, ?wrap64_add_l.
Qed.

(** ** Totals over workloads *)

Definition unallocated (w : WorkloadClaim) : bool :=
  match wc_VCPUAllocated w, wc_MemoryAllocatedMB w with None, None => true | _, _ => false end.

Definition claim_sums (claims : list WorkloadClaim) : ClaimTotals :=
  let sum f := wrap64 (sumZ ((fun w => default 0 (f w)) <$> claims)) in
  {| ct_unallocated := wrap64 (Z.of_nat (count_if unallocated claims));
     ct_vcpu := sum wc_VCPUAllocated; ct_memory := sum wc_MemoryAllocatedMB;
     ct_pvcpu := sum (fun w => provisioned (wc_VCPUProvisioned w) (wc_VCPUAllocated w));
     ct_pmemory := sum (fun w => provisioned (wc_MemoryProvisionedMB w) (wc_MemoryAllocatedMB w)) |}.

Lemma add_opt_wrap s v : add_opt (wrap64 s) v = wrap64 (s + default 0 v).
Proof. destruct v; cbn; [apply wrap64_add_l|by rewrite Z.add_0_r]. Qed.

Lemma claim_totals claims : foldl add_claim no_claims claims = claim_sums claims.
Proof.
  induction claims as [|w l IH] using rev_ind; [reflexivity|].
  rewrite foldl_snoc, IH. unfold add_claim, claim_sums. rewrite !fmap_app, !sumZ_app.
  unfold count_if. rewrite !List.filter_app, !length_app, !Nat2Z.inj_add.
  cbn [ct_unallocated ct_vcpu ct_memory ct_pvcpu ct_pmemory List.filter fmap list_fmap].
  rewrite !add_opt_wrap. unfold sumZ; cbn [foldr]. rewrite !Z.add_0_r. f_equal.
  unfold unallocated. destruct (wc_VCPUAllocated w), (wc_MemoryAllocatedMB w); cbn [length];
    change (Z.of_nat 1) with 1; change (Z.of_nat 0) with 0; by rewrite ?Z.add_0_r, ?wrap64_add_l.
Qed.

(** ** What survives a loss *)

Lemma survivors_of_bound survivors n : 0 < n -> 1 <= survivors_of survivors n <= n.
Proof.
  intros Hn. unfold survivors_of. destruct (Z.leb_spec survivors 0), (Z.ltb_spec n survivors);
    cbn [orb]; lia.
Qed.

(** Estates whose products stay within the machine integers. *)
Definition capacity_in_range (hosts : list HostCapacity) (overcommit : Z) : Prop :=
  let n := Z.of_nat (length hosts) in
  Forall (fun h => 0 <= cores_of h /\ 0 <= memory_of h) hosts /\ 0 <= overcommit /\ n < 2 ^ 63 /\
  sumZ (cores_of <$> hosts) * n < 2 ^ 63 /\ sumZ (cores_of <$> hosts) * overcommit < 2 ^ 63 /\
  sumZ (memory_of <$> hosts) * n < 2 ^ 63.

Lemma usable_memory_exact m s n :
  0 <= m -> 1 <= s <= n -> m * n < 2 ^ 63 ->
  usable_memory m s n = m * s / n /\ 0 <= m * s / n <= m.
Proof.
  intros Hm Hs Hb. unfold usable_memory.
  assert (0 <= m * s / n <= m).
  { split; [apply Z.div_pos; nia|]. apply Z.div_le_upper_bound; nia. }
  rewrite (wrap64_id (m * s)) by (unfold int64; nia).
  rewrite Z.quot_div_nonneg by nia. split; [|done]. apply wrap64_id. unfold int64. nia.
Qed.

Lemma usable_vcpu_exact c s n over :
  0 <= c -> 1 <= s <= n -> 0 <= over -> c * n < 2 ^ 63 -> c * over < 2 ^ 63 ->
  usable_vcpu c s n over = c * s / n * over / 100.
Proof.
  intros Hc Hs Ho H1 H2. unfold usable_vcpu.
  destruct (usable_memory_exact c s n Hc Hs H1) as [-> Hb].
  assert (0 <= c * s / n * over <= c * over) by nia.
  rewrite (wrap64_id (c * s / n * over)) by (unfold int64; lia).
  rewrite Z.quot_div_nonneg by lia. apply wrap64_id. unfold int64.
  pose proof (Z.div_pos (c * s / n * over) 100). pose proof (Z.div_le_upper_bound (c * s / n * over) 100 (c * s / n * over)). lia.
Qed.

Lemma no_measured_host hosts :
  count_if Measured hosts = 0%nat -> sumZ (cores_of <$> hosts) = 0 /\ sumZ (memory_of <$> hosts) = 0.
Proof.
  unfold count_if. induction hosts as [|h l IH]; [done|]. cbn [List.filter].
  destruct (Measured h) eqn:E; [done|]. intros Hl. destruct (IH Hl) as [H1 H2].
  rewrite !fmap_cons. unfold sumZ in *. cbn [foldr]. rewrite H1, H2.
  unfold Measured in E. unfold cores_of, memory_of. destruct (hc_CPUCores h), (hc_MemoryMB h); done.
Qed.

Lemma count_Measured_pos hosts : hosts = [] -> count_if Measured hosts = 0%nat.
Proof. by intros ->. Qed.

(** What a cluster can sell, within range. *)
Lemma ComputeCapacity_usable hosts claims survivors overcommit :
  capacity_in_range hosts (default DefaultCPUOvercommit overcommit) ->
  let n := Z.of_nat (length hosts) in
  let cores := sumZ (cores_of <$> hosts) in
  let memory := sumZ (memory_of <$> hosts) in
  let left := survivors_of survivors n in
  let c := ComputeCapacity hosts claims survivors overcommit in
  cc_RawCores c = cores /\ cc_RawMemoryMB c = memory /\
  cc_UsableVCPU c = cores * left / n * default DefaultCPUOvercommit overcommit / 100 /\
  cc_UsableMemoryMB c = memory * left / n /\ cc_UsableMemoryMB c <= memory /\ 0 <= cores /\ 0 <= memory.
Proof.
  intros (Hnn & Ho & Hn & H1 & H2 & H3) n cores memory left c. fold n cores memory in Hn, H1, H2, H3.
  assert (Hc0 : 0 <= cores).
  { apply sumZ_nonneg, Forall_fmap. eapply Forall_impl; [exact Hnn|]. by intros h [? _]. }
  assert (Hm0 : 0 <= memory).
  { apply sumZ_nonneg, Forall_fmap. eapply Forall_impl; [exact Hnn|]. by intros h [_ ?]. }
  subst c. unfold ComputeCapacity. rewrite host_totals.
  cbn [cc_RawCores cc_RawMemoryMB cc_UsableVCPU cc_UsableMemoryMB host_sums ht_cores ht_memory ht_measured].
  fold n cores memory left.
  pose proof (count_if_le Measured hosts) as Hle.
  destruct (decide (n = 0)) as [Hz|Hz].
  { assert (hosts = []) as Hnil by (destruct hosts; [done|]; subst n; cbn in Hz; lia).
    destruct (no_measured_host hosts (count_Measured_pos _ Hnil)) as [Hc Hm]. fold cores in Hc. fold memory in Hm.
    rewrite Hz, andb_false_r, Hc, Hm. done. }
  assert (Hn0 : 0 < n) by (subst n; lia).
  pose proof (survivors_of_bound survivors n Hn0) as Hs. fold left in Hs.
  rewrite !wrap64_id by (unfold int64; subst n; nia). rewrite (proj2 (Z.ltb_lt 0 n)) by done.
  rewrite andb_true_r.
  destruct (usable_memory_exact memory left n) as [HU HB]; [done..|].
  destruct (Z.ltb_spec 0 (Z.of_nat (count_if Measured hosts))) as [Hp|Hp].
  - rewrite HU, usable_vcpu_exact by done. split_and!; done || lia.
  - destruct (no_measured_host hosts) as [Hc Hm]; [lia|]. fold cores in Hc. fold memory in Hm.
    rewrite Hc, Hm, !Z.mul_0_l, Z.div_0_l by lia. done.
Qed.

(** ** Measuring more hosts *)

(** [hosts'] is [hosts] once somebody measured some of the machines. *)
Definition measures_more (hosts hosts' : list HostCapacity) : Prop :=
  Forall2 (fun h h' => Measured h = true -> h' = h) hosts hosts'.

Lemma unmeasured_nothing h : Measured h = false -> cores_of h = 0 /\ memory_of h = 0.
Proof. unfold Measured, cores_of, memory_of. by destruct (hc_CPUCores h), (hc_MemoryMB h). Qed.

Lemma measures_more_sums hosts hosts' :
  measures_more hosts hosts' -> Forall (fun h => 0 <= cores_of h /\ 0 <= memory_of h) hosts' ->
  Forall (fun h => 0 <= cores_of h /\ 0 <= memory_of h) hosts /\
  sumZ (cores_of <$> hosts) <= sumZ (cores_of <$> hosts') /\
  sumZ (memory_of <$> hosts) <= sumZ (memory_of <$> hosts').
Proof.
  intros Hm. induction Hm as [|h h' l l' Hh Hl IH]; intros Hf; [done|].
  apply Forall_cons in Hf as [[Hc Hmem] Hf]. destruct (IH Hf) as (IH1 & IH2 & IH3).
  rewrite !fmap_cons. unfold sumZ in *. cbn [foldr].
  destruct (Measured h) eqn:E; [rewrite (Hh eq_refl) in *|destruct (unmeasured_nothing h E)];
    (split_and!; [constructor; [lia|done]|lia|lia]).
Qed.

(** Totals over measured hosts are lower bounds. Measuring more of
    a cluster's hosts changes neither its host count nor its survivors, and can
    only raise the raw and the usable figures; usable memory never exceeds raw
    memory. *)
Theorem ComputeCapacity_lower_bound hosts hosts' claims survivors overcommit :
  measures_more hosts hosts' ->
  capacity_in_range hosts' (default DefaultCPUOvercommit overcommit) ->
  let c := ComputeCapacity hosts claims survivors overcommit in
  let c' := ComputeCapacity hosts' claims survivors overcommit in
  cc_Hosts c = cc_Hosts c' /\ cc_Survivors c = cc_Survivors c' /\
  0 <= cc_RawCores c <= cc_RawCores c' /\ 0 <= cc_RawMemoryMB c <= cc_RawMemoryMB c' /\
  0 <= cc_UsableVCPU c <= cc_UsableVCPU c' /\
  0 <= cc_UsableMemoryMB c <= cc_UsableMemoryMB c' /\
  cc_UsableMemoryMB c' <= cc_RawMemoryMB c'.
Proof.
  intros Hm Hr' c c'. pose proof Hr' as (Hnn' & Ho & Hn & H1 & H2 & H3).
  destruct (measures_more_sums _ _ Hm Hnn') as (Hnn & Hc & Hmem).
  assert (Hlen : length hosts = length hosts') by by eapply Forall2_length.
  assert (Hc0 : 0 <= sumZ (cores_of <$> hosts)).
  { apply sumZ_nonneg, Forall_fmap. eapply Forall_impl; [exact Hnn|]. by intros h [? _]. }
  assert (Hm0 : 0 <= sumZ (memory_of <$> hosts)).
  { apply sumZ_nonneg, Forall_fmap. eapply Forall_impl; [exact Hnn|]. by intros h [_ ?]. }
  assert (Hr : capacity_in_range hosts (default DefaultCPUOvercommit overcommit)).
  { unfold capacity_in_range. rewrite Hlen. split_and!; try done; nia. }
  destruct (ComputeCapacity_usable hosts claims survivors overcommit Hr) as (E1 & E2 & E3 & E4 & _).
  destruct (ComputeCapacity_usable hosts' claims survivors overcommit Hr') as (F1 & F2 & F3 & F4 & F5 & _).
  fold c in E1, E2, E3, E4. fold c' in F1, F2, F3, F4, F5.
  assert (Hh : cc_Hosts c = cc_Hosts c') by (subst c c'; cbn; by rewrite Hlen).
  assert (Hs : cc_Survivors c = cc_Survivors c') by (subst c c'; cbn; by rewrite Hlen).
  rewrite E1, E2, E3, E4, F1, F2, F3 in *. rewrite F4 in *. rewrite Hlen in *.
  destruct (decide (length hosts' = 0%nat)) as [Hz|Hz].
  { apply nil_length_inv in Hz. subst hosts'. destruct hosts; [|done]. cbn. rewrite !Z.div_0_r. done. }
  pose proof (survivors_of_bound survivors (Z.of_nat (length hosts')) ltac:(lia)) as Hsb.
  set (left := survivors_of survivors (Z.of_nat (length hosts'))) in *.
  set (n := Z.of_nat (length hosts')) in *. set (over := default DefaultCPUOvercommit overcommit) in *.
  assert (Hdiv : forall a b, 0 <= a <= b -> 0 <= a * left / n <= b * left / n).
  { intros a b Hab. split; [apply Z.div_pos; nia|apply Z.div_le_mono; nia]. }
  pose proof (Hdiv _ _ (conj Hc0 Hc)) as Hd1. pose proof (Hdiv _ _ (conj Hm0 Hmem)) as Hd2.
  split_and!; try done; try lia.
  - apply Z.div_pos; nia.
  - apply Z.div_le_mono; nia.
Qed.

Definition sample_host (cores memory : option Z) : HostCapacity :=
  {| hc_AssetID := "h"; hc_Name := "h"; hc_CPUCores := cores; hc_MemoryMB := memory |}.

Lemma ComputeCapacity_lower_bound_witness :
  cc_UsableVCPU (ComputeCapacity [sample_host (Some 32) (Some 1024); sample_host (Some 16) None] [] 1 (Some 300)) <=
  cc_UsableVCPU (ComputeCapacity [sample_host (Some 32) (Some 1024); sample_host (Some 16) (Some 512)] [] 1 (Some 300)) /\
  cc_UsableVCPU (ComputeCapacity [sample_host (Some 32) (Some 1024); sample_host (Some 16) None] [] 1 (Some 300)) = 48 /\
  cc_UsableVCPU (ComputeCapacity [sample_host (Some 32) (Some 1024); sample_host (Some 16) (Some 512)] [] 1 (Some 300)) = 72.
Proof.
  split; [|vm_compute; done].
  apply (ComputeCapacity_lower_bound
           [sample_host (Some 32) (Some 1024); sample_host (Some 16) None]
           [sample_host (Some 32) (Some 1024); sample_host (Some 16) (Some 512)] [] 1 (Some 300)).
  - repeat constructor. intros [=].
  - split_and!; [repeat constructor; cbn; lia|vm_compute; congruence|vm_compute; done..].
Defined.

(** Totals are totals only when every host and every workload has its numbers
    and both ratios were declared. *)
Lemma Complete_iff hosts claims survivors overcommit :
  Z.of_nat (length hosts) < 2 ^ 63 -> Z.of_nat (length claims) < 2 ^ 63 ->
  Complete (ComputeCapacity hosts claims survivors overcommit) = true <->
  forallb Measured hosts = true /\ forallb (fun w => negb (unallocated w)) claims = true /\
  hosts <> [] /\ 1 <= survivors <= Z.of_nat (length hosts) /\ overcommit <> None.
Proof.
  intros Hh Hw. unfold Complete, ComputeCapacity. rewrite host_totals, claim_totals.
  cbn [cc_UnmeasuredHosts cc_UnallocatedWorkloads cc_Hosts cc_SurvivorsDeclared cc_OvercommitDeclared
       host_sums claim_sums ht_unmeasured ct_unallocated].
  pose proof (count_if_le (fun h => negb (Measured h)) hosts).
  pose proof (count_if_le unallocated claims).
  rewrite !wrap64_id by (unfold int64; lia).
  rewrite !andb_true_iff, !Z.eqb_eq, !Z.leb_le, !Z.ltb_lt.
  rewrite <- (count_if_negb_0 Measured), <- (count_if_negb_0 (fun w => negb (unallocated w))).
  assert (E : count_if (fun x => negb (negb (unallocated x))) claims = count_if unallocated claims).
  { unfold count_if. f_equal. apply List.filter_ext. intros w. apply negb_involutive. }
  rewrite E. destruct overcommit; destruct hosts; cbn [length] in *; intuition (try done; lia).
Qed.

(** The redundancy premium is the whole percentage by which each usable unit
    costs more: hosts over survivors, rounded down. *)
Lemma RedundancyPremium_floor hosts claims survivors overcommit :
  1 <= survivors <= Z.of_nat (length hosts) -> 100 * Z.of_nat (length hosts) < 2 ^ 63 ->
  let c := ComputeCapacity hosts claims survivors overcommit in
  (100 + RedundancyPremium c) * survivors <= 100 * cc_Hosts c < (101 + RedundancyPremium c) * survivors.
Proof.
  intros Hs Hb c. unfold RedundancyPremium.
  assert (E : cc_SurvivorsDeclared c = true /\ cc_Survivors c = survivors /\ cc_Hosts c = Z.of_nat (length hosts)).
  { subst c. cbn. split_and!; [lia| |done]. unfold survivors_of.
    destruct (Z.leb_spec survivors 0), (Z.ltb_spec (Z.of_nat (length hosts)) survivors); cbn [orb]; lia. }
  destruct E as (-> & -> & ->). cbn [negb orb].
  destruct (Z.leb_spec survivors 0); [lia|]. cbn [orb].
  destruct (Z.leb_spec (Z.of_nat (length hosts)) survivors); [lia|].
  set (n := Z.of_nat (length hosts)) in *.
  rewrite (wrap64_id (n - survivors)) by (unfold int64; lia).
  rewrite (wrap64_id ((n - survivors) * 100)) by (unfold int64; lia).
  rewrite Z.quot_div_nonneg by lia.
  pose proof (Z.div_mod ((n - survivors) * 100) survivors ltac:(lia)).
  pose proof (Z.mod_pos_bound ((n - survivors) * 100) survivors ltac:(lia)).
  pose proof (Z.div_pos ((n - survivors) * 100) survivors ltac:(lia) ltac:(lia)).
  assert ((n - survivors) * 100 / survivors <= (n - survivors) * 100) by nia.
  rewrite wrap64_id by (unfold int64; lia). nia.
Qed.

Lemma RedundancyPremium_floor_witness :
  let c := ComputeCapacity [sample_host None None; sample_host None None; sample_host None None] [] 2 None in
  (100 + RedundancyPremium c) * 2 <= 300 /\ RedundancyPremium c = 50.
Proof.
  split; [|vm_compute; reflexivity].
  apply (RedundancyPremium_floor [sample_host None None; sample_host None None; sample_host None None] [] 2 None);
    cbn; lia.
Defined.
