(* ===== verification/Ranges.v ===== *)
(** Port-name ranges: [internal/domain/range_expand.go].

    The bounds are Go's 64-bit [int]. The loop that writes the names has fuel:
    [None] is a call that has not returned yet. *)
From Stdlib Require Import String Ascii ZArith Lia.
From stdpp Require Import base gmap strings list pretty.
From S2P Require Import Prelude Text.

#[local] Open Scope string_scope.
#[local] Open Scope list_scope.
#[local] Open Scope Z_scope.

(** * Definitions *)

(** ** Expansion *)

(** [isZeroPadded] *)
Definition isZeroPadded (s : string) : bool :=
  match s with String a (String _ _) => Ascii.eqb a "0" | _ => false end.

Definition MaxRangeExpansion : Z := 4096.

(** The errors of [ExpandRange], one per message. *)
Inductive RangeError :=
  | NeverOpened (spec : string)
  | NeverClosed (spec : string)
  | MoreThanOneRange (spec : string)
  | NotARange (spec : string)
  | LeadingZeros (spec bound trimmed : string)
  | NotANumber (spec bound : string)
  | CountsBackwards (spec : string)
  | TooManyNames (spec : string).

(** [for i := first; i <= last; i++ { out = append(...) }] *)
Fixpoint expand_loop (fuel : nat) (prefix suffix : string) (i last : Z) : option (list string) :=
  match fuel with
  | O => None
  | S fuel' =>
      if i <=? last
      then rest ← expand_loop fuel' prefix suffix (wrap64 (i + 1)) last;
           Some ((prefix +++ Itoa i +++ suffix) :: rest)
      else Some []
  end.

(** The bounds of a spec with a bracket, or the error that refuses it. *)
Definition range_bounds (spec prefix body suffix : string) : RangeError + (Z * Z) :=
  if contains_bracket prefix || contains_bracket suffix then inl (MoreThanOneRange spec)
  else match cut "-" body with
  | None => inl (NotARange spec)
  | Some (lo, hi) =>
      if isZeroPadded lo then inl (LeadingZeros spec lo (trim_zeros lo))
      else if isZeroPadded hi then inl (LeadingZeros spec hi (trim_zeros hi))
      else match Atoi lo with
      | None => inl (NotANumber spec lo)
      | Some first =>
          match Atoi hi with
          | None => inl (NotANumber spec hi)
          | Some last =>
              if last <? first then inl (CountsBackwards spec)
              else if MaxRangeExpansion <=? wrap64 (last - first) then inl (TooManyNames spec)
              else inr (first, last)
          end
      end
  end.

(** [ExpandRange] *)
Definition ExpandRange (fuel : nat) (spec : string) : option (RangeError + list string) :=
  match cut "[" spec with
  | None => Some (if contains "]" spec then inl (NeverOpened spec) else inr [spec])
  | Some (prefix, rest) =>
      match cut "]" rest with
      | None => Some (inl (NeverClosed spec))
      | Some (body, suffix) =>
          match range_bounds spec prefix body suffix with
          | inl e => Some (inl e)
          | inr (first, last) => inr <$> expand_loop fuel prefix suffix first last
          end
      end
  end.

Example expand_three : ExpandRange 10 "eth[8-10]/0" = Some (inr ["eth8/0"; "eth9/0"; "eth10/0"]).
Proof. vm_compute. reflexivity. Qed.

(** * Lemmas *)

(** What an accepted spec says. *)
Lemma range_bounds_inr spec prefix body suffix first last :
  range_bounds spec prefix body suffix = inr (first, last) ->
  exists lo hi, body = lo +++ String "-" hi /\ Atoi lo = Some first /\ Atoi hi = Some last /\
    isZeroPadded lo = false /\ isZeroPadded hi = false /\
    0 <= first <= last /\ last < 2 ^ 63 /\ last - first < MaxRangeExpansion /\
    contains_bracket prefix = false /\ contains_bracket suffix = false.
Proof.
  unfold range_bounds. destruct (contains_bracket prefix || contains_bracket suffix) eqn:Eb; [done|].
  apply orb_false_iff in Eb as [Hb1 Hb2].
  destruct (cut "-" body) as [[lo hi]|] eqn:Ec; [|done]. apply cut_spec in Ec as [-> Hlo].
  destruct (isZeroPadded lo) eqn:Z1; [done|]. destruct (isZeroPadded hi) eqn:Z2; [done|].
  destruct (Atoi lo) as [f|] eqn:Hf; [|done]. destruct (Atoi hi) as [l|] eqn:Hl; [|done].
  pose proof (Atoi_nonneg _ _ Hlo Hf). pose proof (Atoi_range _ _ Hl) as Hr. unfold int64 in Hr.
  destruct (Z.ltb_spec l f); [done|]. rewrite wrap64_id by (unfold int64; lia).
  destruct (Z.leb_spec MaxRangeExpansion (l - f)); [done|]. intros [= <- <-].
  exists lo, hi. split_and!; done || lia.
Qed.

(** The names a range stands for. *)
Definition range_names (prefix suffix : string) (first last : Z) : list string :=
  (fun k => prefix +++ Itoa (first + Z.of_nat k) +++ suffix) <$>
    seq 0 (Z.to_nat (last - first + 1)).

Lemma expand_loop_names fuel prefix suffix i last :
  - 2 ^ 63 <= i -> last < 2 ^ 63 - 1 -> (Z.to_nat (last - i + 1) < fuel)%nat ->
  expand_loop fuel prefix suffix i last = Some (range_names prefix suffix i last).
Proof.
  revert i. induction fuel as [|fuel IH]; intros i Hi Hl Hf; [lia|]. cbn [expand_loop].
  destruct (Z.leb_spec i last).
  - rewrite wrap64_id by (unfold int64; lia). rewrite IH by lia. cbn [mbind option_bind].
    unfold range_names. replace (Z.to_nat (last - i + 1)) with (S (Z.to_nat (last - (i + 1) + 1))) by lia.
    rewrite <- cons_seq, fmap_cons, <- fmap_S_seq, <- list_fmap_compose. do 2 f_equal.
    { by rewrite Z.add_0_r. }
    apply list_fmap_ext. intros k x _. cbn. do 3 f_equal. lia.
  - unfold range_names. by replace (Z.to_nat (last - i + 1)) with 0%nat by lia.
Qed.

(** A loop up to the last machine integer never leaves. *)
Lemma expand_loop_forever fuel prefix suffix i :
  i < 2 ^ 63 -> expand_loop fuel prefix suffix i (2 ^ 63 - 1) = None.
Proof.
  revert i. induction fuel as [|fuel IH]; intros i Hi; [done|]. cbn [expand_loop].
  rewrite (proj2 (Z.leb_le i (2 ^ 63 - 1))) by lia.
  pose proof (wrap64_range (i + 1)) as Hw. unfold int64 in Hw. by rewrite IH by lia.
Qed.

(** A range names each port once. *)
Lemma range_names_nodup prefix suffix first last : NoDup (range_names prefix suffix first last).
Proof.
  unfold range_names. apply NoDup_fmap_2; [|apply NoDup_seq]. intros k1 k2 H.
  apply append_cancel_l, append_cancel_r in H. unfold Itoa in H.
  apply (inj (pretty : Z -> string)) in H. lia.
Qed.

Lemma range_names_length prefix suffix first last :
  length (range_names prefix suffix first last) = Z.to_nat (last - first + 1).
Proof. unfold range_names. by rewrite length_fmap, length_seq. Qed.

(** What a spec with a bracket stands for, when it is accepted. *)
Definition denotes (spec prefix suffix : string) (first last : Z) : Prop :=
  exists lo hi, spec = prefix +++ "[" +++ lo +++ "-" +++ hi +++ "]" +++ suffix /\
    Atoi lo = Some first /\ Atoi hi = Some last /\
    isZeroPadded lo = false /\ isZeroPadded hi = false /\
    0 <= first <= last /\ last - first < MaxRangeExpansion.

(** The three outcomes of a call. *)
Lemma ExpandRange_cases fuel spec :
  (exists r, ExpandRange fuel spec = Some r /\
     ((exists e, r = inl e) \/ (r = inr [spec] /\ contains_bracket spec = false))) \/
  (exists prefix suffix first last, denotes spec prefix suffix first last /\ last < 2 ^ 63 /\
     ExpandRange fuel spec = inr <$> expand_loop fuel prefix suffix first last).
Proof.
  unfold ExpandRange. destruct (cut "[" spec) as [[prefix rest]|] eqn:E1.
  - destruct (cut "]" rest) as [[body suffix]|] eqn:E2; [|left; eauto].
    destruct (range_bounds spec prefix body suffix) as [e|[first last]] eqn:E3; [left; eauto|].
    right. exists prefix, suffix, first, last.
    apply range_bounds_inr in E3 as (lo & hi & -> & H1 & H2 & H3 & H4 & H5 & H6 & H7 & _).
    split; [|done]. exists lo, hi. split_and!; try done; try lia.
    apply cut_spec in E1 as [-> _]. apply cut_spec in E2 as [-> _].
    rewrite !append_assoc. cbn. reflexivity.
  - left. destruct (contains "]" spec) eqn:E2; [eauto|]. eexists. split; [done|]. right. split; [done|].
    unfold contains_bracket. rewrite E2, orb_false_r. clear E2.
    induction spec as [|a s IH]; [done|]. cbn in E1 |- *. destruct (Ascii.eqb a "["); [done|].
    destruct (cut "[" s) as [[]|]; [done|]. by apply IH.
Qed.

(** ** Properties *)

(** C40. Expansion returns, within the cap. Unless the upper bound is the
    largest machine integer, every call returns: an error, the spec itself when
    it has no bracket, or the names from the low bound to the high one in order,
    each once, at most 4096 of them. Neither bound then starts with a zero that has
    anything after it, which is all the code looks at: a bound with a sign may be padded,
    and [Port[+01-+02]] is expanded to [Port1] and [Port2]. *)
Theorem ExpandRange_names fuel spec :
  (Z.to_nat MaxRangeExpansion < fuel)%nat ->
  (forall prefix suffix first, ~ denotes spec prefix suffix first (2 ^ 63 - 1)) ->
  exists r, ExpandRange fuel spec = Some r /\
  forall names, r = inr names ->
    NoDup names /\ (1 <= length names <= Z.to_nat MaxRangeExpansion)%nat /\
    (contains_bracket spec = false -> names = [spec]) /\
    (contains_bracket spec = true -> exists prefix suffix first last,
       denotes spec prefix suffix first last /\ names = range_names prefix suffix first last).
Proof.
  intros Hf Hmax.
  destruct (ExpandRange_cases fuel spec) as [(r & -> & Hr)|(prefix & suffix & first & last & Hd & Hl & ->)].
  - exists r. split; [done|]. intros names ->. destruct Hr as [[e He]|[[= ->] Hb]]; [done|].
    split_and!; [apply NoDup_singleton|cbn; lia|unfold MaxRangeExpansion; cbn; lia|done|].
    rewrite Hb. done.
  - assert (last <> 2 ^ 63 - 1) by (intros ->; by apply (Hmax prefix suffix first)).
    pose proof Hd as (lo & hi & Hs & _ & _ & _ & _ & H5 & H6).
    rewrite expand_loop_names by (try lia; unfold MaxRangeExpansion in *; lia).
    eexists. split; [done|]. intros names [= <-]. rewrite range_names_length.
    split_and!; [apply range_names_nodup|lia|unfold MaxRangeExpansion in *; lia| |by eauto 10].
    subst spec. intros Hb. exfalso. unfold contains_bracket in Hb.
    apply orb_false_iff in Hb as [Hb _]. rewrite !contains_app in Hb.
    apply orb_false_iff in Hb as [_ Hb]. done.
Qed.

Lemma ExpandRange_names_witness :
  (exists r, ExpandRange 4097 "eth0" = Some r /\ r = inr ["eth0"]) /\
  ExpandRange 4097 "Port[01-48]" = Some (inl (LeadingZeros "Port[01-48]" "01" "1")).
Proof.
  split; [|vm_compute; reflexivity].
  destruct (ExpandRange_names 4097 "eth0") as (r & Hr & Hn).
  - vm_compute. lia.
  - intros prefix suffix first (lo & hi & Hs & _).
    assert (Hc : contains "[" "eth0" = contains "[" (prefix +++ "[" +++ lo +++ "-" +++ hi +++ "]" +++ suffix)).
    { by rewrite Hs. }
    rewrite !contains_app, orb_comm in Hc. done.
  - exists r. split; [done|]. revert Hr. vm_compute. congruence.
Defined.

(** A range that ends at the largest machine integer is accepted and
    never finishes: the loop counter wraps below the bound it is compared with,
    so no amount of fuel ends the loop. *)
Theorem ExpandRange_forever spec prefix body suffix rest first :
  cut "[" spec = Some (prefix, rest) -> cut "]" rest = Some (body, suffix) ->
  range_bounds spec prefix body suffix = inr (first, 2 ^ 63 - 1) ->
  forall fuel, ExpandRange fuel spec = None.
Proof.
  intros H1 H2 H3 fuel. unfold ExpandRange. rewrite H1, H2, H3.
  apply range_bounds_inr in H3 as (lo & hi & _ & _ & _ & _ & _ & H & _).
  by rewrite expand_loop_forever by lia.
Qed.

Lemma ExpandRange_forever_witness :
  ExpandRange 4097 "eth[9223372036854775806-9223372036854775807]" = None.
Proof.
  by apply (ExpandRange_forever _ "eth" "9223372036854775806-9223372036854775807" ""
              "9223372036854775806-9223372036854775807]" 9223372036854775806).
Defined.

(** A sign hides the padding from the check: the names lose what was typed. *)
Lemma ExpandRange_signed_padding :
  ExpandRange 10 "Port[+01-+02]" = Some (inr ["Port1"; "Port2"]).
Proof. vm_compute. reflexivity. Qed.
