(* ===== verification/Netip.v ===== *)
(** Go's [net/netip] as the address code uses it: parsing of addresses and
    prefixes, masking, unmapping and the canonical text; with [bytes.Compare]
    and the big-endian reading of [math/big].

    An address is its bytes, four or sixteen, most significant first, each byte
    a [Z] of the range 0..255. *)
From Stdlib Require Import String Ascii ZArith Lia.
From stdpp Require Import base gmap strings list pretty.
From S2P Require Import Prelude Text.

#[local] Open Scope string_scope.
#[local] Open Scope list_scope.
#[local] Open Scope Z_scope.

(** * Definitions *)

(** ** Bytes *)

(** [bytes.Compare] *)
Fixpoint bytes_compare (a b : list Z) : comparison :=
  match a, b with
  | [], [] => Eq
  | [], _ => Lt
  | _, [] => Gt
  | x :: a', y :: b' => match Z.compare x y with Eq => bytes_compare a' b' | r => r end
  end.

(** [big.Int.SetBytes]: the big-endian value. *)
Definition be_value (l : list Z) : Z := foldl (fun v b => 256 * v + b) 0 l.

(** [n] bytes of a value, most significant first. *)
Fixpoint be_bytes (n : nat) (v : Z) : list Z :=
  match n with
  | O => []
  | S n' => be_bytes n' (v / 256) ++ [v mod 256]
  end.

Definition byte (b : Z) : Prop := 0 <= b < 256.

(** ** Addresses *)

(** [netip.Addr], valid ones: [addr_is4] tells IPv4 from IPv6, IPv4-mapped
    IPv6 addresses being IPv6. *)
Record Addr := { addr_is4 : bool; addr_bytes : list Z; addr_zone : string }.

Definition v4 (bytes : list Z) : Addr :=
  {| addr_is4 := true; addr_bytes := bytes; addr_zone := "" |}.
Definition v6 (bytes : list Z) (zone : string) : Addr :=
  {| addr_is4 := false; addr_bytes := bytes; addr_zone := zone |}.

Definition mapped_prefix : list Z := [0; 0; 0; 0; 0; 0; 0; 0; 0; 0; 255; 255].

(** [Addr.Is4In6] *)
Definition Is4In6 (a : Addr) : bool :=
  negb (addr_is4 a) && bool_decide (take 12 (addr_bytes a) = mapped_prefix).

(** [Addr.Unmap] *)
Definition Unmap (a : Addr) : Addr := if Is4In6 a then v4 (drop 12 (addr_bytes a)) else a.

(** [Addr.WithZone("")] *)
Definition without_zone (a : Addr) : Addr :=
  if addr_is4 a then a else v6 (addr_bytes a) "".

(** ** Parsing *)

(** [parseIPv4Fields]: [pos] fields are done, [digLen] digits of the current one
    read, [prev] is whether the previous byte was not a dot. *)
Fixpoint ipv4_fields (s : string) (pos : nat) (val : Z) (digLen : nat) (fields : list Z)
    : option (list Z) :=
  match s with
  | EmptyString => if (pos <? 3)%nat then None else Some (fields ++ [val])
  | String c s' =>
      match digit c with
      | Some d =>
          if (digLen =? 1)%nat && (val =? 0) then None
          else let val := 10 * val + d in
               if 255 <? val then None else ipv4_fields s' pos val (S digLen) fields
      | None =>
          if Ascii.eqb c "." then
            if (digLen =? 0)%nat || String.eqb s' "" then None
            else if (pos =? 3)%nat then None
            else ipv4_fields s' (S pos) 0 0 (fields ++ [val])
          else None
      end
  end.

Definition parseIPv4 (s : string) : option (list Z) := ipv4_fields s 0 0 0 [].

Definition hex_digit (c : ascii) : option Z :=
  let n := Z.of_N (N_of_ascii c) in
  if (48 <=? n) && (n <=? 57) then Some (n - 48)
  else if (97 <=? n) && (n <=? 102) then Some (n - 87)
  else if (65 <=? n) && (n <=? 70) then Some (n - 55)
  else None.

(** The hex number at the head of [s], its digits counted, and what follows. *)
Fixpoint take_hex (s : string) (off : nat) (acc : Z) : option (Z * nat * string) :=
  match s with
  | String c s' =>
      match hex_digit c with
      | Some d => if (3 <? off)%nat then None else take_hex s' (S off) (16 * acc + d)
      | None => Some (acc, off, s)
      end
  | EmptyString => Some (acc, off, s)
  end.

(** The loop of [parseIPv6], one turn per two bytes: the bytes so far, where the
    ellipsis is, and what is left of the text. *)
Fixpoint ipv6_groups (turns : nat) (s : string) (ellipsis : option nat) (ip : list Z)
    : option (list Z * option nat * string) :=
  match turns with
  | O => Some (ip, ellipsis, s)
  | S turns' =>
      '(acc, off, rest) ← take_hex s 0 0;
      if (off =? 0)%nat then None
      else match rest with
      | EmptyString => Some (ip ++ [acc / 256; acc mod 256], ellipsis, "")
      | String c rest' =>
          if Ascii.eqb c "." then
            if bool_decide (ellipsis = None) && negb (length ip =? 12)%nat then None
            else if (16 <? length ip + 4)%nat then None
            else fields ← parseIPv4 s; Some (ip ++ fields, ellipsis, "")
          else
            let ip := ip ++ [acc / 256; acc mod 256] in
            if negb (Ascii.eqb c ":") then None
            else match rest' with
            | EmptyString => None
            | String c2 rest'' =>
                if Ascii.eqb c2 ":" then
                  match ellipsis, rest'' with
                  | Some _, _ => None
                  | None, EmptyString => Some (ip, Some (length ip), "")
                  | None, _ => ipv6_groups turns' rest'' (Some (length ip)) ip
                  end
                else ipv6_groups turns' rest' ellipsis ip
            end
      end
  end.

(** The ellipsis, expanded. *)
Definition ipv6_expand (r : list Z * option nat * string) : option (list Z) :=
  let '(ip, ellipsis, s) := r in
  if negb (String.eqb s "") then None
  else if (length ip <? 16)%nat then
    match ellipsis with
    | None => None
    | Some e => Some (take e ip ++ replicate (16 - length ip) 0 ++ drop e ip)
    end
  else match ellipsis with Some _ => None | None => Some ip end.

Definition parseIPv6 (input : string) : option Addr :=
  '(s, zone) ← match cut "%" input with
               | None => Some (input, "")
               | Some (s, zone) => if String.eqb zone "" then None else Some (s, zone)
               end;
  match s with
  | String ":" (String ":" EmptyString) => Some (v6 (replicate 16 0) zone)
  | String ":" (String ":" s') =>
      ip ← ipv6_groups 8 s' (Some 0%nat) [] ≫= ipv6_expand; Some (v6 ip zone)
  | _ => ip ← ipv6_groups 8 s None [] ≫= ipv6_expand; Some (v6 ip zone)
  end.

(** [netip.ParseAddr]: the first of [. : %] decides. *)
Fixpoint addr_kind (s : string) : option ascii :=
  match s with
  | EmptyString => None
  | String c s' =>
      if Ascii.eqb c "." || Ascii.eqb c ":" || Ascii.eqb c "%" then Some c else addr_kind s'
  end.

Definition netip_ParseAddr (s : string) : option Addr :=
  c ← addr_kind s;
  if Ascii.eqb c "." then v4 <$> parseIPv4 s
  else if Ascii.eqb c ":" then parseIPv6 s
  else None.

(** [netip.Prefix]: a zoneless address and a length. *)
Record NetPrefix := { np_addr : Addr; np_bits : Z }.

(** [strings.LastIndex] of a byte, with the slices around it. *)
Fixpoint cut_last (sep : ascii) (s : string) : option (string * string) :=
  match s with
  | EmptyString => None
  | String a s' =>
      match cut_last sep s' with
      | Some (before, after) => Some (String a before, after)
      | None => if Ascii.eqb a sep then Some ("", s') else None
      end
  end.

(** [netip.ParsePrefix] *)
Definition netip_ParsePrefix (s : string) : option NetPrefix :=
  '(text, bitsStr) ← cut_last "/" s;
  a ← netip_ParseAddr text;
  if negb (addr_is4 a) && negb (String.eqb (addr_zone a) "") then None
  else if match bitsStr with
          | String c (String _ _) => negb (bool_decide (digit c <> None)) || Ascii.eqb c "0"
          | _ => false
          end then None
  else bits ← Atoi bitsStr;
       if (bits <? 0) || ((if addr_is4 a then 32 else 128) <? bits) then None
       else Some {| np_addr := a; np_bits := bits |}.

(** [Prefix.Masked] on the bytes of the address. *)
Fixpoint mask_bytes (bits : Z) (l : list Z) : list Z :=
  match l with
  | [] => []
  | b :: l' =>
      (if 8 <=? bits then b else if bits <=? 0 then 0 else Z.shiftl (Z.shiftr b (8 - bits)) (8 - bits))
      :: mask_bytes (bits - 8) l'
  end.

Definition Masked (p : NetPrefix) : NetPrefix :=
  {| np_addr := {| addr_is4 := addr_is4 (np_addr p);
                   addr_bytes := mask_bytes (np_bits p) (addr_bytes (np_addr p));
                   addr_zone := addr_zone (np_addr p) |};
     np_bits := np_bits p |}.

(** ** Canonical text *)

Definition ipv4_text (l : list Z) : string := String.concat "." (Itoa <$> l).

Definition hex_char (d : Z) : ascii :=
  ascii_of_N (Z.to_N (if d <? 10 then 48 + d else 87 + d)).

(** Hexadecimal without leading zeros. *)
Definition hex_text (w : Z) : string :=
  let c k := hex_char (w / 16 ^ k mod 16) in
  if 4096 <=? w then String (c 3) (String (c 2) (String (c 1) (String (c 0) "")))
  else if 256 <=? w then String (c 2) (String (c 1) (String (c 0) ""))
  else if 16 <=? w then String (c 1) (String (c 0) "")
  else String (c 0) "".

(** The eight 16-bit groups. *)
Fixpoint words (l : list Z) : list Z :=
  match l with
  | hi :: lo :: l' => 256 * hi + lo :: words l'
  | _ => []
  end.

Fixpoint zero_run (l : list Z) : nat :=
  match l with 0 :: l' => S (zero_run l') | _ => O end.

(** The longest run of at least two zero groups, the first of equals:
    where it starts and ends. *)
Fixpoint longest_run (i : nat) (l : list Z) (best : nat * nat) : nat * nat :=
  match l with
  | [] => best
  | _ :: l' =>
      let run := zero_run l in
      longest_run (S i) l'
        (if (2 <=? run)%nat && (snd best - fst best <? run)%nat then (i, (i + run)%nat) else best)
  end.

Definition ipv6_text (bytes : list Z) : string :=
  let w := words bytes in
  let '(zs, ze) := longest_run 0 w (255%nat, 255%nat) in
  let text l := String.concat ":" (hex_text <$> l) in
  if (zs =? 255)%nat then text w
  else text (take zs w) +++ "::" +++ text (drop ze w).

(** [Addr.String] *)
Definition Addr_String (a : Addr) : string :=
  let zone := if String.eqb (addr_zone a) "" then "" else "%" +++ addr_zone a in
  if addr_is4 a then ipv4_text (addr_bytes a)
  else if Is4In6 a then "::ffff:" +++ ipv4_text (drop 12 (addr_bytes a)) +++ zone
  else ipv6_text (addr_bytes a) +++ zone.

(** [Prefix.String] *)
Definition Prefix_String (p : NetPrefix) : string :=
  Addr_String (np_addr p) +++ "/" +++ Itoa (np_bits p).

Definition text_of (s : string) : option string := Addr_String <$> netip_ParseAddr s.

Example ipv4_round : text_of "10.20.30.5" = Some "10.20.30.5". Proof. vm_compute. reflexivity. Qed.
Example ipv4_zero : netip_ParseAddr "10.20.030.5" = None. Proof. vm_compute. reflexivity. Qed.
Example ipv6_round : text_of "2001:DB8:0:0:1:0:0:1" = Some "2001:db8::1:0:0:1".
Proof. vm_compute. reflexivity. Qed.
Example ipv6_loop : text_of "::1" = Some "::1". Proof. vm_compute. reflexivity. Qed.
Example ipv6_any : text_of "::" = Some "::". Proof. vm_compute. reflexivity. Qed.
Example ipv6_tail : text_of "fe80::%eth0" = Some "fe80::%eth0". Proof. vm_compute. reflexivity. Qed.
Example ipv6_four : text_of "64:ff9b::192.0.2.33" = Some "64:ff9b::c000:221".
Proof. vm_compute. reflexivity. Qed.
Example ipv6_bad : netip_ParseAddr "1::2::3" = None. Proof. vm_compute. reflexivity. Qed.
Example ipv6_long : netip_ParseAddr "1:2:3:4:5:6:7:8:9" = None. Proof. vm_compute. reflexivity. Qed.

(** * Lemmas *)

(** ** Big-endian values *)

Lemma be_value_acc v l :
  foldl (fun v b => 256 * v + b) v l = v * 256 ^ Z.of_nat (length l) + be_value l.
Proof.
  unfold be_value. revert v. induction l as [|b l IH]; intros v; cbn [foldl length]; [lia|].
  rewrite IH, (IH (256 * 0 + b)). rewrite Nat2Z.inj_succ, Z.pow_succ_r by lia. lia.
Qed.

Lemma be_value_cons b l : be_value (b :: l) = b * 256 ^ Z.of_nat (length l) + be_value l.
Proof. unfold be_value at 1. cbn [foldl]. rewrite be_value_acc. lia. Qed.

Lemma be_value_snoc l b : be_value (l ++ [b]) = 256 * be_value l + b.
Proof. unfold be_value. by rewrite foldl_snoc. Qed.

Lemma be_value_range l : Forall byte l -> 0 <= be_value l < 256 ^ Z.of_nat (length l).
Proof.
  induction 1 as [|b l Hb Hl IH]; [done|]. rewrite be_value_cons. cbn [length].
  rewrite Nat2Z.inj_succ, Z.pow_succ_r by lia. unfold byte in Hb. nia.
Qed.

Lemma be_bytes_length n v : length (be_bytes n v) = n.
Proof. revert v. induction n as [|n IH]; intros v; cbn [be_bytes]; [done|]. rewrite length_app, IH. cbn. lia. Qed.

Lemma be_bytes_byte n v : Forall byte (be_bytes n v).
Proof.
  revert v. induction n as [|n IH]; intros v; cbn [be_bytes]; [constructor|].
  apply Forall_app. split; [done|]. repeat constructor; apply Z.mod_pos_bound; lia.
Qed.

Lemma be_value_bytes n v : 0 <= v < 256 ^ Z.of_nat n -> be_value (be_bytes n v) = v.
Proof.
  revert v. induction n as [|n IH]; intros v Hv; cbn [be_bytes].
  - cbn in *. lia.
  - rewrite Nat2Z.inj_succ, Z.pow_succ_r in Hv by lia. rewrite be_value_snoc, IH.
    + pose proof (Z.div_mod v 256). lia.
    + split; [apply Z.div_pos; lia|apply Z.div_lt_upper_bound; lia].
Qed.

(** ** Comparing bytes compares values *)

Lemma bytes_compare_value a b :
  Forall byte a -> Forall byte b -> length a = length b ->
  bytes_compare a b = Z.compare (be_value a) (be_value b).
Proof.
  intros Ha. revert b. induction Ha as [|x a Hx Ha IH]; intros [|y b] Hb Hl; try done.
  apply Forall_cons in Hb as [Hy Hb]. injection Hl as Hl. cbn [bytes_compare].
  rewrite IH by done. rewrite !be_value_cons, Hl.
  pose proof (be_value_range a Ha) as Ra. pose proof (be_value_range b Hb) as Rb. rewrite Hl in Ra.
  set (p := 256 ^ Z.of_nat (length b)) in *.
  destruct (Z.compare_spec x y), (Z.compare_spec (be_value a) (be_value b)),
    (Z.compare_spec (x * p + be_value a) (y * p + be_value b)); done || nia.
Qed.

Lemma bytes_compare_refl a : bytes_compare a a = Eq.
Proof. induction a as [|x a IH]; [done|]. cbn. by rewrite Z.compare_refl. Qed.

Lemma bytes_compare_eq a b : bytes_compare a b = Eq -> a = b.
Proof.
  revert b. induction a as [|x a IH]; intros [|y b]; cbn; try done.
  destruct (Z.compare_spec x y) as [->| |]; try done. intros H. f_equal. by apply IH.
Qed.

Lemma bytes_compare_antisym a b : bytes_compare b a = CompOpp (bytes_compare a b).
Proof.
  revert b. induction a as [|x a IH]; intros [|y b]; cbn; try done.
  rewrite (Z.compare_antisym x y). destruct (Z.compare x y); cbn; [apply IH|done|done].
Qed.

Lemma bytes_compare_trans a b c :
  bytes_compare a b = Lt -> bytes_compare b c = Lt -> bytes_compare a c = Lt.
Proof.
  revert b c. induction a as [|x a IH]; intros [|y b] [|z c]; cbn; try done.
  destruct (Z.compare_spec x y), (Z.compare_spec y z), (Z.compare_spec x z); subst; try done; try lia.
  apply IH.
Qed.

Definition bytes_ltb (a b : list Z) : bool :=
  match bytes_compare a b with Lt => true | _ => false end.

#[export] Instance bytes_ltb_strict_total : StrictTotal bytes_ltb.
Proof.
  apply strict_total_intro; unfold bytes_ltb.
  - intros a. by rewrite bytes_compare_refl.
  - intros a b c. destruct (bytes_compare a b) eqn:E1; try done.
    destruct (bytes_compare b c) eqn:E2; try done. by rewrite (bytes_compare_trans a b c).
  - intros a b. rewrite (bytes_compare_antisym a b). destruct (bytes_compare a b) eqn:E; try done.
    intros _ _. by apply bytes_compare_eq.
Qed.

(** ** Parsed addresses are bytes *)

Definition addr_ok (a : Addr) : Prop :=
  length (addr_bytes a) = (if addr_is4 a then 4%nat else 16%nat) /\ Forall byte (addr_bytes a).

Lemma ipv4_fields_ok s pos val digLen fields l :
  ipv4_fields s pos val digLen fields = Some l ->
  length fields = pos -> (pos <= 3)%nat -> 0 <= val <= 255 -> Forall byte fields ->
  length l = 4%nat /\ Forall byte l.
Proof.
  revert pos val digLen fields. induction s as [|c s IH]; intros pos val digLen fields; cbn [ipv4_fields].
  - destruct (Nat.ltb_spec pos 3); [done|]. intros [= <-] Hl Hp Hv Hf. rewrite length_app. cbn.
    split; [lia|]. apply Forall_app. split; [done|]. repeat constructor; lia.
  - destruct (digit c) as [d|] eqn:E.
    + apply digit_range in E. case_match; [done|]. destruct (Z.ltb_spec 255 (10 * val + d)); [done|].
      intros H1 H2 H3 H4 H5. eapply IH; try done; lia.
    + case_match; [|done]. case_match; [done|]. destruct (Nat.eqb_spec pos 3); [done|].
      intros H1 H2 H3 H4 H5. eapply IH; try done; try lia.
      * rewrite length_app. cbn. lia.
      * apply Forall_app. split; [done|]. repeat constructor; lia.
Qed.

Lemma parseIPv4_ok s l : parseIPv4 s = Some l -> length l = 4%nat /\ Forall byte l.
Proof. intros H. eapply ipv4_fields_ok; [exact H|done|lia|lia|constructor]. Qed.

Lemma hex_digit_range c d : hex_digit c = Some d -> 0 <= d < 16.
Proof. unfold hex_digit. repeat case_match; intros [= <-]; lia. Qed.

Lemma take_hex_range s off acc acc' off' rest :
  take_hex s off acc = Some (acc', off', rest) -> (off <= 4)%nat -> 0 <= acc < 16 ^ Z.of_nat off ->
  (off' <= 4)%nat /\ 0 <= acc' < 16 ^ Z.of_nat off'.
Proof.
  revert off acc. induction s as [|c s IH]; intros off acc; cbn [take_hex]; [by intros [= <- <- <-]|].
  destruct (hex_digit c) as [d|] eqn:E; [|by intros [= <- <- <-]].
  apply hex_digit_range in E. destruct (Nat.ltb_spec 3 off); [done|]. intros H1 H2 H3.
  eapply IH; [exact H1|lia|]. rewrite Nat2Z.inj_succ, Z.pow_succ_r by lia. lia.
Qed.

Lemma group_bytes acc : 0 <= acc < 65536 -> Forall byte [acc / 256; acc mod 256].
Proof.
  intros H. repeat constructor; [apply Z.div_pos; lia|apply Z.div_lt_upper_bound; lia| |];
    apply Z.mod_pos_bound; lia.
Qed.

Lemma ipv6_groups_ok turns s ellipsis ip ip' e' s' :
  ipv6_groups turns s ellipsis ip = Some (ip', e', s') ->
  (length ip + 2 * turns = 16)%nat -> Forall byte ip -> Forall (fun e => e <= length ip)%nat (option_list ellipsis) ->
  (length ip' <= 16)%nat /\ Forall byte ip' /\ Forall (fun e => e <= length ip')%nat (option_list e').
Proof.
  revert s ellipsis ip. induction turns as [|turns IH]; intros s ellipsis ip; cbn [ipv6_groups].
  { intros [= <- <- <-] Hl Hb He. split_and!; done || lia. }
  intros H Hl Hb He. apply bind_Some in H as ([[acc off] rest] & Ht & H).
  apply take_hex_range in Ht as [Ho Ha]; [|lia|cbn; lia].
  destruct (Nat.eqb_spec off 0); [done|].
  assert (Hacc : 0 <= acc < 65536).
  { assert (16 ^ Z.of_nat off <= 16 ^ 4) by (apply Z.pow_le_mono_r; lia).
    change (16 ^ 4) with 65536 in *. lia. }
  pose proof (group_bytes acc Hacc) as Hg.
  assert (Hb' : Forall byte (ip ++ [acc / 256; acc mod 256])) by by apply Forall_app.
  assert (Hlen : length (ip ++ [acc / 256; acc mod 256]) = (length ip + 2)%nat) by apply length_app.
  assert (He' : forall m, (length ip <= m)%nat -> Forall (fun e => e <= m)%nat (option_list ellipsis)).
  { intros m Hm. eapply Forall_impl; [exact He|]. intros e H'. cbn beta in H'. lia. }
  destruct rest as [|c rest].
  { injection H as <- <- <-. rewrite Hlen. split_and!; [lia|done|]. apply He'. lia. }
  destruct (Ascii.eqb c ".").
  { case_match; [done|]. destruct (Nat.ltb_spec 16 (length ip + 4)); [done|].
    apply bind_Some in H as (f & Hf & H). injection H as <- <- <-.
    apply parseIPv4_ok in Hf as [Hf1 Hf2]. rewrite length_app, Hf1.
    split_and!; [lia|by apply Forall_app|]. apply He'. lia. }
  destruct (negb (Ascii.eqb c ":")); [done|]. destruct rest as [|c2 rest]; [done|].
  destruct (Ascii.eqb c2 ":").
  - destruct ellipsis as [e|]; [done|]. destruct rest as [|c3 rest].
    + injection H as <- <- <-. rewrite Hlen. split_and!; [lia|done|]. repeat constructor.
    + eapply IH; [exact H|lia|done|]. repeat constructor.
  - eapply IH; [exact H|lia|done|]. apply He'. lia.
Qed.

Lemma ipv6_expand_ok r l :
  ipv6_expand r = Some l -> (length (fst (fst r)) <= 16)%nat -> Forall byte (fst (fst r)) ->
  Forall (fun e => e <= length (fst (fst r)))%nat (option_list (snd (fst r))) ->
  length l = 16%nat /\ Forall byte l.
Proof.
  destruct r as [[ip e] s]. cbn [fst snd]. unfold ipv6_expand. intros H Hl Hb He.
  destruct (negb (String.eqb s "")); [done|].
  destruct (Nat.ltb_spec (length ip) 16); (destruct e as [e|]; [|try done]); try done.
  - injection H as <-. apply Forall_cons in He as [He _].
    rewrite !length_app, length_take, length_drop, length_replicate. split; [lia|].
    rewrite !Forall_app. split_and!; [by apply Forall_take|by apply Forall_replicate|by apply Forall_drop].
  - injection H as <-. split; [lia|done].
Qed.

Lemma parseIPv6_ok s a : parseIPv6 s = Some a -> addr_ok a /\ addr_is4 a = false.
Proof.
  unfold parseIPv6. intros H. apply bind_Some in H as ([t zone] & _ & H).
  assert (Hgo : forall u e, Forall (fun e => e <= 0)%nat (option_list e) ->
    (ip ← ipv6_groups 8 u e [] ≫= ipv6_expand; Some (v6 ip zone)) = Some a ->
    addr_ok a /\ addr_is4 a = false).
  { intros u e He Hu. apply bind_Some in Hu as (ip & Hu & [= <-]).
    apply bind_Some in Hu as ([[ip' e'] s'] & Hg & Hx).
    apply ipv6_groups_ok in Hg as (G1 & G2 & G3); [|done|constructor|done].
    by apply ipv6_expand_ok in Hx as [X1 X2]. }
  assert (Hany : addr_ok (v6 (replicate 16 0) zone)).
  { split; [done|]. by apply Forall_replicate. }
  assert (HN : Forall (fun e => e <= 0)%nat (option_list (@None nat))) by constructor.
  assert (HS : Forall (fun e => e <= 0)%nat (option_list (Some 0%nat))) by (repeat constructor).
  repeat (case_match; try (by eapply Hgo; [|exact H])); by injection H as <-.
Qed.

Lemma netip_ParseAddr_ok s a : netip_ParseAddr s = Some a -> addr_ok a.
Proof.
  unfold netip_ParseAddr. intros H. apply bind_Some in H as (c & _ & H).
  destruct (Ascii.eqb c ".").
  - destruct (parseIPv4 s) as [l|] eqn:E; [|done]. injection H as <-. by apply parseIPv4_ok in E.
  - destruct (Ascii.eqb c ":"); [|done]. by apply parseIPv6_ok in H as [H _].
Qed.

Lemma Unmap_ok a : addr_ok a -> addr_ok (Unmap a).
Proof.
  intros [Hl Hb]. unfold Unmap. destruct (Is4In6 a) eqn:E; [|done]. unfold Is4In6 in E.
  apply andb_true_iff in E as [E _]. apply negb_true_iff in E. rewrite E in Hl.
  split; cbn; [rewrite length_drop; lia|by apply Forall_drop].
Qed.

Lemma without_zone_ok a : addr_ok a -> addr_ok (without_zone a).
Proof. intros [Hl Hb]. unfold without_zone. by destruct (addr_is4 a) eqn:E; split; cbn; rewrite ?E. Qed.

Lemma netip_ParsePrefix_ok s p :
  netip_ParsePrefix s = Some p ->
  addr_ok (np_addr p) /\ 0 <= np_bits p <= 8 * Z.of_nat (length (addr_bytes (np_addr p))).
Proof.
  unfold netip_ParsePrefix. intros H. apply bind_Some in H as ([t b] & _ & H).
  apply bind_Some in H as (a & Ha & H). apply netip_ParseAddr_ok in Ha.
  case_match; [done|]. case_match; [done|]. apply bind_Some in H as (bits & _ & H).
  destruct ((bits <? 0) || ((if addr_is4 a then 32 else 128) <? bits)) eqn:Eb; [done|].
  injection H as <-. cbn [np_addr np_bits]. apply orb_false_iff in Eb as [Eb1 Eb2].
  apply Z.ltb_ge in Eb1. apply Z.ltb_ge in Eb2. split; [done|].
  destruct Ha as [-> _]. destruct (addr_is4 a); lia.
Qed.

(** ** Masks, as arithmetic *)

Lemma pow_256 n : 256 ^ Z.of_nat n = 2 ^ (8 * Z.of_nat n).
Proof. change 256 with (2 ^ 8). by rewrite <- Z.pow_mul_r by lia. Qed.

(** A checked fact about every byte and every shift. *)
Lemma every_byte (p : Z -> nat -> bool) :
  forallb (fun b => forallb (p (Z.of_nat b)) (seq 0 9)) (seq 0 256) = true ->
  forall b k, byte b -> (k < 9)%nat -> p b k = true.
Proof.
  intros H b k Hb Hk. unfold byte in Hb. rewrite forallb_forall in H.
  specialize (H (Z.to_nat b) ltac:(apply in_seq; lia)). rewrite forallb_forall in H.
  specialize (H k ltac:(apply in_seq; lia)). by rewrite Z2Nat.id in H by lia.
Qed.

(** Dividing a head byte and a tail by a power of two. *)
Lemma split_div b v n h :
  0 <= h <= n -> 0 <= v -> (b * 2 ^ n + v) / 2 ^ h * 2 ^ h = b * 2 ^ n + v / 2 ^ h * 2 ^ h.
Proof.
  intros Hh Hv. replace n with (n - h + h) at 1 by lia. rewrite Z.pow_add_r by lia.
  rewrite Z.mul_assoc, Z.div_add_l by (apply Z.pow_nonzero; lia).
  replace (2 ^ n) with (2 ^ (n - h) * 2 ^ h) by (rewrite <- Z.pow_add_r by lia; f_equal; lia). lia.
Qed.

Lemma head_div b v n k :
  0 <= n -> 0 <= k -> 0 <= v < 2 ^ n -> (b * 2 ^ n + v) / 2 ^ (n + k) = b / 2 ^ k.
Proof.
  intros Hn Hk Hv. rewrite Z.pow_add_r by lia.
  rewrite <- Z.div_div by (first [apply Z.pow_nonzero|apply Z.pow_pos_nonneg]; lia).
  rewrite Z.div_add_l, (Z.div_small v) by (first [apply Z.pow_nonzero; lia|lia]). f_equal. lia.
Qed.

(** Masking keeps the leading bits: the value rounded down to a multiple of the
    host part. *)
Lemma mask_value l bits :
  Forall byte l -> bits <= 8 * Z.of_nat (length l) ->
  let h := 8 * Z.of_nat (length l) - bits in
  be_value (mask_bytes bits l) = be_value l / 2 ^ h * 2 ^ h /\
  length (mask_bytes bits l) = length l /\ Forall byte (mask_bytes bits l).
Proof.
  intros Hl. revert bits. induction Hl as [|b l Hb Hl IH]; intros bits Hbits; cbn [mask_bytes length].
  { split_and!; [done|done|constructor]. }
  cbn [length] in Hbits. destruct (IH (bits - 8)) as (IH1 & IH2 & IH3); [lia|].
  rewrite !be_value_cons, IH1, IH2, !pow_256. set (n := 8 * Z.of_nat (length l)) in *.
  pose proof (be_value_range l Hl) as Hv. rewrite pow_256 in Hv. fold n in Hv.
  replace (8 * Z.of_nat (S (length l)) - bits) with (n + 8 - bits) by lia.
  replace (n - (bits - 8)) with (n + 8 - bits) by lia.
  assert (Hn : 0 <= n) by lia.
  assert (Hsmall : n <= n + 8 - bits -> be_value l / 2 ^ (n + 8 - bits) = 0).
  { intros Hle. apply Z.div_small. split; [lia|]. eapply Z.lt_le_trans; [apply Hv|]. apply Z.pow_le_mono_r; lia. }
  unfold byte in Hb. destruct (Z.leb_spec 8 bits); [|destruct (Z.leb_spec bits 0)].
  - rewrite split_div by lia. split_and!; [done|lia|]. by constructor.
  - rewrite Hsmall by lia. rewrite (Z.div_small (b * 2 ^ n + be_value l)).
    { split_and!; [lia|lia|]. constructor; [unfold byte; lia|done]. }
    split; [nia|]. apply (Z.lt_le_trans _ (2 ^ (n + 8))).
    + rewrite Z.pow_add_r by lia. change (2 ^ 8) with 256. nia.
    + apply Z.pow_le_mono_r; lia.
  - rewrite Hsmall by lia. replace (n + 8 - bits) with (n + (8 - bits)) by lia.
    rewrite head_div by lia. rewrite Z.shiftl_mul_pow2, Z.shiftr_div_pow2 by lia.
    rewrite Z.pow_add_r by lia. split_and!; [lia|lia|]. constructor; [|done]. unfold byte.
    assert (0 < 2 ^ (8 - bits)) by (apply Z.pow_pos_nonneg; lia).
    pose proof (Z.mul_div_le b (2 ^ (8 - bits)) ltac:(lia)).
    pose proof (Z.div_pos b (2 ^ (8 - bits)) ltac:(lia) ltac:(lia)). nia.
Qed.
