(* ===== verification/Addresses.v ===== *)
(** Stored addresses: [internal/domain/ipaddr.go] and
    [internal/domain/iprange.go].

    An address or a network is kept as canonical text, a family and big-endian
    bytes, so that containment is a comparison of bytes. Errors of the parsers
    are [None]; Go's [big.Int] is [Z]. *)
From Stdlib Require Import String Ascii ZArith Lia.
From stdpp Require Import base gmap strings list pretty.
From S2P Require Import Prelude Text Errors Netip.

#[local] Open Scope string_scope.
#[local] Open Scope list_scope.
#[local] Open Scope Z_scope.

(** * Definitions *)

(** ** Addresses and prefixes *)

Record AddrValue := { av_Text : string; av_Family : Z; av_Start : list Z }.

Record PrefixValue := {
  pv_Text : string; pv_Family : Z; pv_Start : list Z; pv_End : list Z; pv_Bits : Z
}.

(** [ParseAddr] *)
Definition ParseAddr (s : string) : option AddrValue :=
  let trimmed := TrimSpace s in
  if String.eqb trimmed "" then None
  else a ← netip_ParseAddr trimmed;
       let a := without_zone (Unmap a) in
       Some {| av_Text := Addr_String a; av_Family := if addr_is4 a then 4 else 6;
               av_Start := addr_bytes a |}.

(** [end[i/8] |= 1 << (7 - i%8)] *)
Definition set_bit (l : list Z) (i : nat) : list Z :=
  alter (fun b => Z.lor b (Z.shiftl 1 (7 - Z.of_nat (i mod 8)))) (i / 8)%nat l.

(** [broadcast]: [for i := bits; i < totalBits; i++]. *)
Definition broadcast (start : list Z) (bits : Z) : list Z :=
  foldl set_bit start (drop (Z.to_nat bits) (seq 0 (8 * length start))).

(** [ParsePrefix] *)
Definition ParsePrefix (s : string) : option PrefixValue :=
  let trimmed := TrimSpace s in
  if String.eqb trimmed "" then None
  else p ← netip_ParsePrefix trimmed;
       let p := Masked p in
       let addr := without_zone (Unmap (np_addr p)) in
       Some {| pv_Text := Prefix_String p; pv_Family := if addr_is4 addr then 4 else 6;
               pv_Start := addr_bytes addr; pv_End := broadcast (addr_bytes addr) (np_bits p);
               pv_Bits := np_bits p |}.

(** [PrefixSize], of [prefix_tree.go]. *)
Definition PrefixSize (cidr : string) : option Z :=
  p ← netip_ParsePrefix cidr;
  let bits := if negb (addr_is4 (np_addr p)) && negb (Is4In6 (np_addr p)) then 128 else 32 in
  let host := bits - np_bits p in
  if host <? 0 then None else Some (Z.shiftl 1 host).

(** [strings.Map] dropping the separators. *)
Fixpoint drop_separators (s : string) : string :=
  match s with
  | EmptyString => ""
  | String a s' =>
      if Ascii.eqb a ":" || Ascii.eqb a "-" || Ascii.eqb a "." || Ascii.eqb a " "
      then drop_separators s' else String a (drop_separators s')
  end.

(** [(r < '0' || r > '9') && (r < 'a' || r > 'f')], negated, of every byte. *)
Fixpoint all_hex (s : string) : bool :=
  match s with
  | EmptyString => true
  | String a s' =>
      let n := N_of_ascii a in
      (((48 <=? n) && (n <=? 57)) || ((97 <=? n) && (n <=? 102)))%N && all_hex s'
  end.

(** The loop that writes the pairs with their colons. *)
Fixpoint mac_pairs (s : string) : string :=
  match s with
  | String a (String b EmptyString) => String a (String b EmptyString)
  | String a (String b s') => String a (String b (String ":" (mac_pairs s')))
  | _ => ""
  end.

(** [ParseMAC]. Lower-casing bytes rather than runes changes no result: a text
    with a byte outside ASCII has no twelve hex digits either way. *)
Definition ParseMAC (s : string) : option string :=
  let cleaned := drop_separators (ascii_lower (TrimSpace s)) in
  if negb (String.length cleaned =? 12)%nat then None
  else if negb (all_hex cleaned) then None
  else Some (mac_pairs cleaned).

Example mac_cisco : ParseMAC "0A1B.2c3d.4E5F" = Some "0a:1b:2c:3d:4e:5f".
Proof. vm_compute. reflexivity. Qed.

(** ** Ranges *)

Record IPRange := {
  ir_ID : string; ir_StartText : string; ir_EndText : string; ir_AddrFamily : Z;
  ir_AddrStart : list Z; ir_AddrEnd : list Z; ir_VRFID : option string; ir_Role : option string;
  ir_Description : option string; ir_Lifecycle : string; ir_CreatedAt : option string;
  ir_UpdatedAt : option string; ir_RowVersion : Z
}.

(** What [SetBounds] refuses: which ends do not parse, a change of family, an
    end before the start. *)
Inductive BoundsError :=
  | BadBounds (start_bad end_bad : bool)
  | MixedFamilies (start end_ : Z)
  | EndsBeforeStart (start end_ : string).

(** [IPRange.SetBounds] *)
Definition SetBounds (r : IPRange) (start end_ : string) : BoundsError + IPRange :=
  match ParseAddr start, ParseAddr end_ with
  | Some sv, Some ev =>
      if negb (av_Family sv =? av_Family ev) then inl (MixedFamilies (av_Family sv) (av_Family ev))
      else match bytes_compare (av_Start sv) (av_Start ev) with
           | Gt => inl (EndsBeforeStart (av_Text sv) (av_Text ev))
           | _ => inr {| ir_ID := ir_ID r; ir_StartText := av_Text sv; ir_EndText := av_Text ev;
                         ir_AddrFamily := av_Family sv; ir_AddrStart := av_Start sv;
                         ir_AddrEnd := av_Start ev; ir_VRFID := ir_VRFID r; ir_Role := ir_Role r;
                         ir_Description := ir_Description r; ir_Lifecycle := ir_Lifecycle r;
                         ir_CreatedAt := ir_CreatedAt r; ir_UpdatedAt := ir_UpdatedAt r;
                         ir_RowVersion := ir_RowVersion r |}
           end
  | sv, ev => inl (BadBounds (bool_decide (sv = None)) (bool_decide (ev = None)))
  end.

(** [NewIPRange] *)
Definition NewIPRange (id start end_ : string) : BoundsError + IPRange :=
  SetBounds {| ir_ID := id; ir_StartText := ""; ir_EndText := ""; ir_AddrFamily := 0;
               ir_AddrStart := []; ir_AddrEnd := []; ir_VRFID := None; ir_Role := None;
               ir_Description := None; ir_Lifecycle := "active"; ir_CreatedAt := None;
               ir_UpdatedAt := None; ir_RowVersion := 0 |} start end_.

(** [IPRange.Size] *)
Definition Size (r : IPRange) : Z :=
  if bool_decide (ir_AddrStart r = []) || bool_decide (ir_AddrEnd r = []) then 0
  else be_value (ir_AddrEnd r) - be_value (ir_AddrStart r) + 1.

(** ** The first free address *)

Record AddrSpan := { as_Start : list Z; as_End : list Z }.

(** [SpanOf] *)
Definition SpanOf (addr : list Z) : AddrSpan := {| as_Start := addr; as_End := addr |}.

Definition span_less (x y : AddrSpan) : bool :=
  match bytes_compare (as_Start x) (as_Start y) with Lt => true | _ => false end.

(** [textFromInt] *)
Definition textFromInt (v family : Z) : string :=
  let width := if family =? 6 then 16%nat else 4%nat in
  if 256 ^ Z.of_nat width <=? v then ""
  else Addr_String (Unmap (if family =? 6 then v6 (be_bytes width v) "" else v4 (be_bytes width v))).

(** The walk over the sorted spans: the candidate when it stops. *)
Fixpoint walk_spans (width : nat) (spans : list AddrSpan) (candidate : Z) : Z :=
  match spans with
  | [] => candidate
  | s :: spans' =>
      if negb (length (as_Start s) =? width)%nat || negb (length (as_End s) =? width)%nat
      then walk_spans width spans' candidate
      else if be_value (as_End s) <? candidate then walk_spans width spans' candidate
      else if candidate <? be_value (as_Start s) then candidate
      else walk_spans width spans' (be_value (as_End s) + 1)
  end.

(** The usable bounds of a prefix. *)
Definition usable (pv : PrefixValue) (bits : Z) : Z * Z :=
  let lo := be_value (pv_Start pv) in
  let hi := be_value (pv_End pv) in
  if (pv_Family pv =? 4) && (bits <=? 30) then (lo + 1, hi - 1) else (lo, hi).

(** [FirstFreeAddress] *)
Definition FirstFreeAddress (cidr : string) (taken : list AddrSpan) : option string :=
  p ← netip_ParsePrefix cidr;
  pv ← ParsePrefix cidr;
  let '(lo, hi) := usable pv (np_bits p) in
  if hi <? lo then None
  else
    let candidate := walk_spans (length (pv_Start pv)) (isort span_less taken) lo in
    if hi <? candidate then None else Some (textFromInt candidate (pv_Family pv)).

Definition span (a b : list Z) : AddrSpan := {| as_Start := a; as_End := b |}.

Example free_skips :
  FirstFreeAddress "10.0.0.0/29" [span [10; 0; 0; 4] [10; 0; 0; 5]; span [10; 0; 0; 1] [10; 0; 0; 3]] =
  Some "10.0.0.6".
Proof. vm_compute. reflexivity. Qed.

Example mapped_prefix_is_one_address :
  (fun pv => (pv_Start pv, pv_End pv, pv_Family pv, pv_Bits pv)) <$> ParsePrefix "::ffff:10.0.0.0/104" =
  Some ([10; 0; 0; 0], [10; 0; 0; 0], 4, 104).
Proof. vm_compute. reflexivity. Qed.

(** * Lemmas *)

(** ** Broadcast addresses *)

(** The bytes [broadcast] computes, one at a time. *)
Fixpoint fill_bytes (bits : Z) (l : list Z) : list Z :=
  match l with
  | [] => []
  | b :: l' => foldl (fun b i => Z.lor b (Z.shiftl 1 (7 - Z.of_nat i))) b (drop (Z.to_nat bits) (seq 0 8))
               :: fill_bytes (bits - 8) l'
  end.

Lemma set_bits_tail b l idx :
  foldl set_bit (b :: l) ((fun i => 8 + i)%nat <$> idx) = b :: foldl set_bit l idx.
Proof.
  revert l. induction idx as [|i idx IH]; intros l; [done|]. rewrite fmap_cons. cbn [foldl].
  rewrite <- IH. f_equal. unfold set_bit.
  replace ((8 + i) / 8)%nat with (S (i / 8)) by (replace (8 + i)%nat with (i + 1 * 8)%nat by lia; rewrite Nat.div_add by lia; lia).
  replace ((8 + i) mod 8)%nat with (i mod 8)%nat
    by (replace (8 + i)%nat with (i + 1 * 8)%nat by lia; by rewrite Nat.Div0.mod_add).
  done.
Qed.

Lemma set_bits_head b l idx :
  Forall (fun i => (i < 8)%nat) idx ->
  foldl set_bit (b :: l) idx = foldl (fun b i => Z.lor b (Z.shiftl 1 (7 - Z.of_nat i))) b idx :: l.
Proof.
  revert b. induction idx as [|i idx IH]; intros b H; [done|]. apply Forall_cons in H as [Hi H].
  cbn [foldl]. rewrite <- IH by done. f_equal. unfold set_bit.
  by rewrite Nat.div_small, Nat.mod_small by done.
Qed.

Lemma broadcast_fill start bits : broadcast start bits = fill_bytes bits start.
Proof.
  revert bits. induction start as [|b l IH]; intros bits.
  { unfold broadcast. cbn. by rewrite drop_nil. }
  cbn [fill_bytes]. rewrite <- IH. unfold broadcast. cbn [length].
  replace (8 * S (length l))%nat with (8 + 8 * length l)%nat by lia.
  rewrite seq_app, drop_app, foldl_app, length_seq.
  rewrite set_bits_head.
  2: { apply Forall_drop, Forall_forall. intros i Hi. apply list_elem_of_In, in_seq in Hi. lia. }
  replace (seq (0 + 8) (8 * length l)) with ((fun i => 8 + i)%nat <$> seq 0 (8 * length l))
    by (by rewrite fmap_add_seq).
  rewrite <- fmap_drop, set_bits_tail. do 3 f_equal. lia.
Qed.

Lemma fill_byte b k :
  byte b -> (k < 9)%nat ->
  foldl (fun b i => Z.lor b (Z.shiftl 1 (7 - Z.of_nat i))) b (drop k (seq 0 8)) =
    b / 2 ^ (8 - Z.of_nat k) * 2 ^ (8 - Z.of_nat k) + (2 ^ (8 - Z.of_nat k) - 1).
Proof.
  intros Hb Hk. apply Z.eqb_eq.
  apply (every_byte (fun b k => foldl (fun b i => Z.lor b (Z.shiftl 1 (7 - Z.of_nat i))) b (drop k (seq 0 8)) =?
    b / 2 ^ (8 - Z.of_nat k) * 2 ^ (8 - Z.of_nat k) + (2 ^ (8 - Z.of_nat k) - 1))); [|done|done].
  vm_compute. reflexivity.
Qed.

Lemma fill_bytes_ok bits l :
  Forall byte l -> length (fill_bytes bits l) = length l /\ Forall byte (fill_bytes bits l).
Proof.
  intros Hl. revert bits. induction Hl as [|b l Hb Hl IH]; intros bits; cbn [fill_bytes]; [done|].
  destruct (IH (bits - 8)) as [IH1 IH2]. cbn [length]. split; [by rewrite IH1|]. constructor; [|done].
  pose proof (every_byte (fun b k => let r := foldl (fun b i => Z.lor b (Z.shiftl 1 (7 - Z.of_nat i))) b
    (drop k (seq 0 8)) in (0 <=? r) && (r <? 256)) ltac:(vm_compute; reflexivity) b) as H.
  destruct (decide (Z.to_nat bits < 9)%nat) as [Hk|Hk].
  - specialize (H _ Hb Hk). cbv beta zeta in H. unfold byte. lia.
  - by rewrite drop_ge by (rewrite length_seq; lia).
Qed.

(** Filling sets the host part: the value rounded up to the end of its block. *)
Lemma fill_value l bits :
  Forall byte l -> bits <= 8 * Z.of_nat (length l) ->
  let h := Z.min (8 * Z.of_nat (length l)) (8 * Z.of_nat (length l) - bits) in
  be_value (fill_bytes bits l) = be_value l / 2 ^ h * 2 ^ h + (2 ^ h - 1).
Proof.
  intros Hl. revert bits. induction Hl as [|b l Hb Hl IH]; intros bits Hbits; cbn [fill_bytes length].
  { cbn [length] in Hbits. by replace (Z.min _ _) with 0 by lia. }
  cbn [length] in Hbits.
  rewrite !be_value_cons, IH, (proj1 (fill_bytes_ok (bits - 8) l Hl)), !pow_256 by lia.
  pose proof (be_value_range l Hl) as Hv. rewrite pow_256 in Hv.
  set (n := 8 * Z.of_nat (length l)) in *. replace (8 * Z.of_nat (S (length l))) with (n + 8) by lia.
  assert (Hn : 0 <= n) by lia.
  destruct (Z.leb_spec 8 bits).
  - rewrite drop_ge by (rewrite length_seq; lia). cbn [foldl].
    replace (Z.min n (n - (bits - 8))) with (n + 8 - bits) by lia.
    replace (Z.min (n + 8) (n + 8 - bits)) with (n + 8 - bits) by lia.
    rewrite split_div by lia. lia.
  - rewrite fill_byte by (done || lia).
    set (k := 8 - Z.of_nat (Z.to_nat bits)) in *.
    replace (Z.min n (n - (bits - 8))) with n by lia.
    replace (Z.min (n + 8) (n + 8 - bits)) with (n + k) by lia.
    rewrite (Z.div_small (be_value l)) by lia. rewrite head_div by lia.
    rewrite Z.pow_add_r by lia. lia.
Qed.

(** ** What a stored prefix covers *)

(** A prefix as its block: the masked start, the filled end, the address it was
    written with, all of one width. *)
Lemma ParsePrefix_inv s pv :
  ParsePrefix s = Some pv ->
  exists p, netip_ParsePrefix (TrimSpace s) = Some p /\ pv_Bits pv = np_bits p /\
    pv_Start pv = addr_bytes (Unmap (np_addr (Masked p))) /\
    pv_End pv = fill_bytes (np_bits p) (pv_Start pv) /\
    pv_Family pv = (if addr_is4 (Unmap (np_addr (Masked p))) then 4 else 6) /\
    addr_ok (np_addr p) /\ addr_ok (np_addr (Masked p)) /\
    0 <= np_bits p <= 8 * Z.of_nat (length (addr_bytes (np_addr p))).
Proof.
  unfold ParsePrefix. case_match; [done|]. intros H'. apply bind_Some in H' as (p & Hp & [= <-]).
  exists p. cbn [pv_Start pv_End pv_Family pv_Bits]. apply netip_ParsePrefix_ok in Hp as Hok.
  destruct Hok as [Ha Hb].
  assert (Hm : addr_ok (np_addr (Masked p))).
  { destruct Ha as [Hl Hby]. destruct (mask_value _ (np_bits p) Hby ltac:(lia)) as (_ & M2 & M3).
    split; cbn; [by rewrite M2|done]. }
  assert (Hz : forall a, addr_bytes (without_zone a) = addr_bytes a /\
                    addr_is4 (without_zone a) = addr_is4 a).
  { intros a. unfold without_zone. by destruct (addr_is4 a) eqn:E. }
  rewrite broadcast_fill, !(proj1 (Hz _)), (proj2 (Hz _)). split_and!; try done; lia.
Qed.

(** Values of one block: those with the same leading bits. *)
Lemma block_iff a x h :
  0 <= h -> (a / 2 ^ h * 2 ^ h <= x <= a / 2 ^ h * 2 ^ h + (2 ^ h - 1)) <-> x / 2 ^ h = a / 2 ^ h.
Proof.
  intros Hh. assert (Hp : 0 < 2 ^ h) by (apply Z.pow_pos_nonneg; lia).
  pose proof (Z.div_mod x (2 ^ h) ltac:(lia)). pose proof (Z.mod_pos_bound x (2 ^ h) Hp).
  split; [|intros E; rewrite E in *; lia].
  intros Hx. symmetry. apply (Z.div_unique_pos _ _ _ (x - a / 2 ^ h * 2 ^ h)); lia.
Qed.

(** The number of bits of an address that a prefix leaves to the hosts. *)
Definition host_bits (p : NetPrefix) : Z := 8 * Z.of_nat (length (addr_bytes (np_addr p))) - np_bits p.

(** The bounds of a prefix that is not of an IPv4-mapped network. *)
Lemma ParsePrefix_bounds s pv p :
  ParsePrefix s = Some pv -> netip_ParsePrefix (TrimSpace s) = Some p -> Is4In6 (np_addr (Masked p)) = false ->
  0 <= host_bits p /\ pv_Family pv = (if addr_is4 (np_addr p) then 4 else 6) /\
  (Forall byte (pv_Start pv) /\ length (pv_Start pv) = length (addr_bytes (np_addr p)) /\
   be_value (pv_Start pv) = be_value (addr_bytes (np_addr p)) / 2 ^ host_bits p * 2 ^ host_bits p) /\
  (Forall byte (pv_End pv) /\ length (pv_End pv) = length (addr_bytes (np_addr p)) /\
   be_value (pv_End pv) = be_value (pv_Start pv) + (2 ^ host_bits p - 1)).
Proof.
  intros H Hp Hm. unfold host_bits. apply ParsePrefix_inv in H as (p' & Hp' & Hb & Hs & He & Hf & [_ Ha] & Hma & Hbits).
  assert (p' = p) as -> by congruence. unfold Unmap in Hs, Hf. rewrite Hm in Hs, Hf. cbn in Hs, Hf.
  set (width := length (addr_bytes (np_addr p))) in *. set (h := 8 * Z.of_nat width - np_bits p).
  destruct (mask_value _ (np_bits p) Ha ltac:(lia)) as (M1 & M2 & M3). fold width h in M1, M2.
  rewrite <- Hs in M1, M2, M3.
  pose proof (fill_value (pv_Start pv) (np_bits p) M3 ltac:(lia)) as F1. cbv zeta in F1.
  destruct (fill_bytes_ok (np_bits p) (pv_Start pv) M3) as [F2 F3].
  rewrite <- He in F1, F2, F3. rewrite M2 in F1, F2. fold h in F1.
  replace (Z.min (8 * Z.of_nat width) h) with h in F1 by lia.
  assert (0 < 2 ^ h) by (apply Z.pow_pos_nonneg; lia).
  assert (be_value (pv_Start pv) / 2 ^ h * 2 ^ h = be_value (pv_Start pv)) as E by (rewrite M1, Z.div_mul; lia).
  split_and!; try done; lia.
Qed.

(** A stored prefix is exactly its block. Unless the masked network is
    an IPv4-mapped one, the two byte bounds of a prefix that parses have the
    width of its family, and an address of that width lies between them, as
    bytes compare, exactly when it agrees with the address that was typed on
    the leading bits; the block holds [2 ^ (width - bits)] addresses. *)
Theorem ParsePrefix_block s pv p :
  ParsePrefix s = Some pv -> netip_ParsePrefix (TrimSpace s) = Some p ->
  Is4In6 (np_addr (Masked p)) = false ->
  let width := length (addr_bytes (np_addr p)) in
  let h := 8 * Z.of_nat width - np_bits p in
  pv_Family pv = (if addr_is4 (np_addr p) then 4 else 6) /\
  length (pv_Start pv) = width /\ length (pv_End pv) = width /\
  be_value (pv_End pv) - be_value (pv_Start pv) + 1 = 2 ^ h /\
  forall x, Forall byte x -> length x = width ->
    (bytes_compare (pv_Start pv) x <> Gt /\ bytes_compare x (pv_End pv) <> Gt) <->
    be_value x / 2 ^ h = be_value (addr_bytes (np_addr p)) / 2 ^ h.
Proof.
  intros H Hp Hm width h. destruct (ParsePrefix_bounds _ _ _ H Hp Hm) as (Hh & Hf & (M3 & M2 & M1) & F3 & F2 & F1).
  change (host_bits p) with h in *. fold width in M2, F2.
  split_and!; [done|done|done|lia|]. intros x Hx Hlx.
  rewrite !bytes_compare_value, F1, M1 by (done || congruence).
  rewrite !Z.compare_ngt_iff. rewrite <- block_iff by lia. lia.
Qed.

Lemma ParsePrefix_block_witness :
  (fun pv => (pv_Start pv, pv_End pv)) <$> ParsePrefix " 10.20.30.5/22 " =
    Some ([10; 20; 28; 0], [10; 20; 31; 255]) /\
  bytes_compare [10; 20; 28; 0] [10; 20; 29; 7] <> Gt /\ bytes_compare [10; 20; 29; 7] [10; 20; 31; 255] <> Gt.
Proof.
  split; [vm_compute; reflexivity|].
  pose proof (ParsePrefix_block " 10.20.30.5/22 "
    {| pv_Text := "10.20.28.0/22"; pv_Family := 4; pv_Start := [10; 20; 28; 0];
       pv_End := [10; 20; 31; 255]; pv_Bits := 22 |}
    {| np_addr := v4 [10; 20; 30; 5]; np_bits := 22 |}) as H.
  destruct H as (_ & _ & _ & _ & H); [vm_compute; reflexivity..|].
  apply (H [10; 20; 29; 7]); [repeat constructor; unfold byte; lia|reflexivity|vm_compute; reflexivity].
Defined.

(** The bug behind the hypothesis: an IPv4-mapped network keeps its IPv6 length
    beside its IPv4 bytes, so its end is its start and its size is unknown. *)
Lemma mapped_prefix_loses_its_block :
  (fun pv => (pv_Text pv, pv_Family pv, pv_Start pv, pv_End pv)) <$> ParsePrefix "::ffff:10.0.0.0/104" =
    Some ("::ffff:10.0.0.0/104", 4, [10; 0; 0; 0], [10; 0; 0; 0]) /\
  PrefixSize "::ffff:10.0.0.0/104" = None.
Proof. split; vm_compute; reflexivity. Qed.

(** A range that is accepted holds at least one address and is of one family. *)
Lemma ParseAddr_ok s v :
  ParseAddr s = Some v ->
  length (av_Start v) = (if (av_Family v =? 4)%Z then 4 else 16)%nat /\ Forall byte (av_Start v) /\
  (av_Family v = 4 \/ av_Family v = 6).
Proof.
  unfold ParseAddr. case_match; [done|]. intros H'. apply bind_Some in H' as (a & Ha & [= <-]).
  apply netip_ParseAddr_ok, Unmap_ok, without_zone_ok in Ha as [Hl Hb]. cbn.
  destruct (addr_is4 (without_zone (Unmap a))); split_and!; auto.
Qed.

Lemma SetBounds_size r start end_ r' :
  SetBounds r start end_ = inr r' ->
  length (ir_AddrStart r') = length (ir_AddrEnd r') /\
  1 <= Size r' <= 256 ^ Z.of_nat (length (ir_AddrStart r')) /\
  (forall x, Forall byte x -> length x = length (ir_AddrStart r') ->
     (bytes_compare (ir_AddrStart r') x <> Gt /\ bytes_compare x (ir_AddrEnd r') <> Gt) <->
     be_value (ir_AddrStart r') <= be_value x < be_value (ir_AddrStart r') + Size r').
Proof.
  unfold SetBounds. destruct (ParseAddr start) as [sv|] eqn:Es; [|done].
  destruct (ParseAddr end_) as [ev|] eqn:Ee; [|done].
  destruct (Z.eqb_spec (av_Family sv) (av_Family ev)) as [Hf|]; [|done]. cbn [negb].
  apply ParseAddr_ok in Es as (Ls & Bs & _). apply ParseAddr_ok in Ee as (Le & Be & _).
  rewrite <- Hf in Le. assert (Hl : length (av_Start sv) = length (av_Start ev)) by congruence.
  intros H. assert (Hc : bytes_compare (av_Start sv) (av_Start ev) <> Gt) by (intros E; by rewrite E in H).
  assert (Hr : ir_AddrStart r' = av_Start sv /\ ir_AddrEnd r' = av_Start ev)
    by (destruct (bytes_compare (av_Start sv) (av_Start ev)); [|..|done]; by injection H as <-).
  destruct Hr as [-> ->]. split; [done|].
  rewrite bytes_compare_value, Z.compare_ngt_iff in Hc by done.
  pose proof (be_value_range _ Bs) as Rs. pose proof (be_value_range _ Be) as Re. rewrite <- Hl in Re.
  assert (Hsz : Size r' = be_value (av_Start ev) - be_value (av_Start sv) + 1).
  { unfold Size. destruct (bytes_compare (av_Start sv) (av_Start ev)); [| |done]; injection H as <-; cbn;
      rewrite !bool_decide_eq_false_2; try done; intros E; rewrite E in *; cbn in *; case_match; done. }
  rewrite Hsz. split; [lia|]. intros x Hx Hlx.
  rewrite !bytes_compare_value, !Z.compare_ngt_iff by congruence || done. lia.
Qed.

(** ** IPv4 text is read back *)

(** The digits at the head of a field. *)
Fixpoint field_digits (s : string) (val : Z) (digLen : nat) : option (Z * nat) :=
  match s with
  | EmptyString => Some (val, digLen)
  | String c s' =>
      match digit c with
      | Some d =>
          if (digLen =? 1)%nat && (val =? 0) then None
          else let val := 10 * val + d in
               if 255 <? val then None else field_digits s' val (S digLen)
      | None => None
      end
  end.

Lemma ipv4_fields_digits s rest pos val digLen fields v d :
  field_digits s val digLen = Some (v, d) ->
  ipv4_fields (s +++ rest) pos val digLen fields = ipv4_fields rest pos v d fields.
Proof.
  revert val digLen. induction s as [|c s IH]; intros val digLen; cbn [field_digits]; [by intros [= <- <-]|].
  rewrite append_cons. cbn [ipv4_fields]. destruct (digit c); [|done].
  case_match; [done|]. case_match; [done|]. apply IH.
Qed.

Lemma byte_digits b : byte b -> exists d, field_digits (Itoa b) 0 0 = Some (b, S d).
Proof.
  intros Hb. pose proof (every_byte (fun b _ => match field_digits (Itoa b) 0 0 with
    | Some (v, S _) => v =? b | _ => false end) ltac:(vm_compute; reflexivity) b 0%nat Hb ltac:(lia)) as H.
  cbn beta in H. destruct (field_digits (Itoa b) 0 0) as [[v [|d]]|]; try done.
  apply Z.eqb_eq in H as ->. by exists d.
Qed.

(** A field followed by a dot, and the last field. *)
Lemma ipv4_fields_dot b rest pos fields :
  byte b -> rest <> "" -> (pos < 3)%nat ->
  ipv4_fields (Itoa b +++ String "." rest) pos 0 0 fields = ipv4_fields rest (S pos) 0 0 (fields ++ [b]).
Proof.
  intros Hb Hr Hp. destruct (byte_digits b Hb) as [d Hd].
  rewrite (ipv4_fields_digits _ _ _ _ _ _ _ _ Hd). cbn [ipv4_fields].
  change (digit ".") with (@None Z). change (Ascii.eqb "." ".") with true. cbn [Nat.eqb orb].
  destruct (String.eqb_spec rest ""); [done|]. destruct (Nat.eqb_spec pos 3); [lia|done].
Qed.

Lemma ipv4_fields_last b fields :
  byte b -> ipv4_fields (Itoa b) 3 0 0 fields = Some (fields ++ [b]).
Proof.
  intros Hb. destruct (byte_digits b Hb) as [d Hd].
  pose proof (ipv4_fields_digits (Itoa b) "" 3 0 0 fields _ _ Hd) as H.
  assert (E : forall s, s +++ "" = s) by (induction s as [|c s IH]; [done|]; by rewrite append_cons, IH).
  rewrite E in H. by rewrite H.
Qed.

Lemma byte_text_not_nil b : byte b -> Itoa b <> "".
Proof. intros Hb. apply Itoa_not_nil. unfold byte in Hb. lia. Qed.

Lemma ipv4_text_shape a b c d :
  ipv4_text [a; b; c; d] = Itoa a +++ String "." (Itoa b +++ String "." (Itoa c +++ String "." (Itoa d))).
Proof. reflexivity. Qed.

Lemma addr_kind_digits s rest :
  (forall c, digit c = None -> contains c s = false) -> addr_kind (s +++ String "." rest) = Some "."%char.
Proof.
  induction s as [|a s IH]; intros H; [done|]. rewrite append_cons. cbn [addr_kind].
  assert (Ha : digit a <> None).
  { intros E. specialize (H a E). cbn in H. by rewrite Ascii.eqb_refl in H. }
  destruct (Ascii.eqb_spec a "."); [by subst|]. destruct (Ascii.eqb_spec a ":"); [by subst|].
  destruct (Ascii.eqb_spec a "%"); [by subst|]. cbn [orb]. apply IH. intros c Hc.
  specialize (H c Hc). cbn in H. by apply orb_false_iff in H as [_ H].
Qed.

(** The text of an IPv4 address parses as that address. *)
Lemma ipv4_text_parses l :
  length l = 4%nat -> Forall byte l -> netip_ParseAddr (ipv4_text l) = Some (v4 l).
Proof.
  intros Hl Hb. destruct l as [|a [|b [|c [|d [|]]]]]; try done.
  rewrite !Forall_cons in Hb. destruct Hb as (Ha & Hb & Hc & Hd & _).
  rewrite ipv4_text_shape. unfold netip_ParseAddr. rewrite addr_kind_digits.
  2: { intros x Hx. apply Itoa_contains; [|done]. unfold byte in Ha. lia. }
  cbn [mbind option_bind]. change (Ascii.eqb "." ".") with true. cbn iota. unfold parseIPv4.
  assert (Hne : forall s t, s <> "" -> s +++ t <> "") by (intros [|? ?] t; [done|]; by rewrite append_cons).
  rewrite !ipv4_fields_dot by (try done; try lia; try apply Hne; by apply byte_text_not_nil).
  by rewrite ipv4_fields_last.
Qed.

(** ** The lowest free address *)

(** A span that covers a value, seen from a prefix of [width] bytes. *)
Definition covers (width : nat) (s : AddrSpan) (x : Z) : Prop :=
  length (as_Start s) = width /\ length (as_End s) = width /\
  be_value (as_Start s) <= x <= be_value (as_End s).

Definition span_ok (s : AddrSpan) : Prop := Forall byte (as_Start s) /\ Forall byte (as_End s).

#[export] Instance span_less_weak : StrictWeak span_less.
Proof. apply (key_less_weak as_Start bytes_ltb). apply _. Qed.

Lemma span_less_start s s' width :
  span_ok s -> span_ok s' -> length (as_Start s) = width -> length (as_Start s') = width ->
  span_less s' s = false -> be_value (as_Start s) <= be_value (as_Start s').
Proof.
  intros [Hs _] [Hs' _] Hl Hl'. unfold span_less. rewrite bytes_compare_value by (done || congruence).
  destruct (Z.compare_spec (be_value (as_Start s')) (be_value (as_Start s))); done || lia.
Qed.

(** The walk stops at the first value at or above the candidate that no span
    covers. *)
Lemma walk_spans_spec width spans candidate :
  sorted_by span_less spans -> Forall span_ok spans ->
  candidate <= walk_spans width spans candidate /\
  (forall y, candidate <= y < walk_spans width spans candidate ->
     exists s, s ∈ spans /\ covers width s y) /\
  (forall s, s ∈ spans -> ~ covers width s (walk_spans width spans candidate)).
Proof.
  intros Hs. revert candidate. induction Hs as [|s spans Hs IH Hmin]; intros candidate Hok.
  { cbn. split_and!; [lia|lia|by intros s ?%elem_of_nil]. }
  apply Forall_cons in Hok as [Hos Hok]. cbn [walk_spans].
  destruct (negb (length (as_Start s) =? width)%nat || negb (length (as_End s) =? width)%nat) eqn:Ew.
  { destruct (IH candidate Hok) as (I1 & I2 & I3). split_and!; [done| |].
    - intros y Hy. destruct (I2 y Hy) as (s' & Hin & Hc). exists s'. split; [by right|done].
    - intros s' [->|Hin]%elem_of_cons; [|by apply I3]. intros (C1 & C2 & _).
      rewrite C1, C2, Nat.eqb_refl in Ew. done. }
  apply orb_false_iff in Ew as [Ew1 Ew2]. apply negb_false_iff, Nat.eqb_eq in Ew1.
  apply negb_false_iff, Nat.eqb_eq in Ew2.
  destruct (Z.ltb_spec (be_value (as_End s)) candidate) as [Hlt|Hge].
  { destruct (IH candidate Hok) as (I1 & I2 & I3). split_and!; [done| |].
    - intros y Hy. destruct (I2 y Hy) as (s' & Hin & Hc). exists s'. split; [by right|done].
    - intros s' [->|Hin]%elem_of_cons; [|by apply I3]. intros (_ & _ & C). lia. }
  destruct (Z.ltb_spec candidate (be_value (as_Start s))) as [Hgap|Hin].
  { split_and!; [lia|lia|]. intros s' [->|Hs']%elem_of_cons (C1 & C2 & C); [lia|].
    rewrite Forall_forall in Hmin, Hok.
    pose proof (span_less_start s s' width Hos (Hok _ Hs') Ew1 C1 (Hmin _ Hs')). lia. }
  destruct (IH (be_value (as_End s) + 1) Hok) as (I1 & I2 & I3). split_and!; [lia| |].
  - intros y Hy. destruct (decide (y <= be_value (as_End s))).
    + exists s. split; [left|]. split_and!; done || lia.
    + destruct (I2 y ltac:(lia)) as (s' & Hs' & Hc). exists s'. split; [by right|done].
  - intros s' [->|Hs']%elem_of_cons; [|by apply I3]. intros (_ & _ & C). lia.
Qed.

Lemma ParsePrefix_parses s p : TrimSpace s = s -> netip_ParsePrefix s = Some p -> exists pv, ParsePrefix s = Some pv.
Proof. intros Ht Hp. unfold ParsePrefix. rewrite Ht, Hp. destruct (String.eqb_spec s ""); [by subst|]. by eexists. Qed.

(** A value is an address of a prefix when it agrees with the address written on the
    leading bits; a host may have it when, in an IPv4 prefix of 30 bits or fewer, the bits
    left to it are not all zero, which is the network, nor all one, the broadcast. *)
Definition assignable (p : NetPrefix) (x : Z) : Prop :=
  x / 2 ^ host_bits p = be_value (addr_bytes (np_addr p)) / 2 ^ host_bits p /\
  (addr_is4 (np_addr p) = true -> np_bits p <= 30 ->
   x mod 2 ^ host_bits p <> 0 /\ x mod 2 ^ host_bits p <> 2 ^ host_bits p - 1).

(** Those are the values between the usable bounds. *)
Lemma usable_assignable s pv p lo hi x :
  ParsePrefix s = Some pv -> netip_ParsePrefix (TrimSpace s) = Some p -> Is4In6 (np_addr (Masked p)) = false ->
  usable pv (np_bits p) = (lo, hi) -> lo <= x <= hi <-> assignable p x.
Proof.
  intros H Hp Hm Hu. destruct (ParsePrefix_bounds _ _ _ H Hp Hm) as (Hh & Hf & (_ & _ & Es) & _ & _ & Ee).
  unfold assignable. set (h := host_bits p) in *. rewrite <- block_iff, <- Es by done.
  assert (0 < 2 ^ h) by (apply Z.pow_pos_nonneg; lia). unfold usable in Hu. rewrite Hf, Ee in Hu.
  assert (be_value (pv_Start pv) <= x <= be_value (pv_Start pv) + (2 ^ h - 1) -> x mod 2 ^ h = x - be_value (pv_Start pv)) as Hmod.
  { intros Hx. symmetry. apply (Z.mod_unique_pos _ _ (be_value (addr_bytes (np_addr p)) / 2 ^ h)); lia. }
  destruct (addr_is4 (np_addr p)); cbn in Hu; [destruct (Z.leb_spec (np_bits p) 30)|]; injection Hu as <- <-; split.
  - intros Hx. split; [lia|]. intros _ _. rewrite Hmod; lia.
  - intros [Hx Hends]. destruct Hends as [E1 E2]; [done|done|]. rewrite Hmod in E1, E2 by done. lia.
  - intros Hx. split; [done|]. lia.
  - by intros [].
  - intros Hx. by split.
  - by intros [].
Qed.

(** An address of an IPv4 prefix is written as one. *)
Lemma assignable_text p x : addr_ok (np_addr p) -> addr_is4 (np_addr p) = true -> 0 <= host_bits p <= 32 -> assignable p x ->
  netip_ParseAddr (textFromInt x 4) = Some (v4 (be_bytes 4 x)) /\ be_value (be_bytes 4 x) = x.
Proof.
  intros [Hl Hb] H4 Hh [Hx _]. rewrite H4 in Hl. pose proof (be_value_range _ Hb) as R. rewrite Hl in R.
  set (h := host_bits p) in *. assert (0 < 2 ^ h) by (apply Z.pow_pos_nonneg; lia).
  assert (0 <= x < 256 ^ Z.of_nat 4) as Hrange.
  { change (Z.of_nat 4) with 4 in *. replace (256 ^ 4) with (2 ^ (32 - h) * 2 ^ h) in *
      by (rewrite <- Z.pow_add_r by lia; replace (32 - h + h) with 32 by lia; reflexivity).
    set (a := be_value (addr_bytes (np_addr p))) in *.
    assert (0 <= a / 2 ^ h < 2 ^ (32 - h)) as Ha by (split; [apply Z.div_pos|apply Z.div_lt_upper_bound]; lia).
    rewrite <- Hx in Ha. pose proof (Z.div_mod x (2 ^ h) ltac:(lia)). pose proof (Z.mod_pos_bound x (2 ^ h) ltac:(lia)). nia. }
  split; [|by apply be_value_bytes]. unfold textFromInt.
  destruct (Z.leb_spec (256 ^ Z.of_nat (if 4 =? 6 then 16%nat else 4%nat)) x) as [Hbig|_].
  { change (if 4 =? 6 then 16%nat else 4%nat) with 4%nat in Hbig. lia. }
  apply ipv4_text_parses; [apply be_bytes_length|apply be_bytes_byte].
Qed.

(** C38. The first free address is the lowest one nobody has taken, for a prefix written
    without spaces around it whose network is not an IPv4-mapped one. The addresses of the
    prefix that a host may have are those that agree with it on the leading bits, without
    the network and the broadcast in an IPv4 prefix of 30 bits or fewer, and with them in
    one of 31 or 32 and in IPv6. The one returned is such an address, covered by no span
    of the prefix's width, and every such address below it is covered; nothing is returned
    only when every such address is covered. For IPv4 the text returned reads back as that
    address. *)
Theorem FirstFreeAddress_least cidr taken p :
  Forall span_ok taken -> TrimSpace cidr = cidr -> netip_ParsePrefix cidr = Some p -> Is4In6 (np_addr (Masked p)) = false ->
  let width := length (addr_bytes (np_addr p)) in
  match FirstFreeAddress cidr taken with
  | Some text =>
      exists x, assignable p x /\ text = textFromInt x (if addr_is4 (np_addr p) then 4 else 6) /\
        (forall s, s ∈ taken -> ~ covers width s x) /\
        (forall y, assignable p y -> y < x -> exists s, s ∈ taken /\ covers width s y) /\
        (addr_is4 (np_addr p) = true -> netip_ParseAddr text = Some (v4 (be_bytes 4 x)) /\ be_value (be_bytes 4 x) = x)
  | None => forall y, assignable p y -> exists s, s ∈ taken /\ covers width s y
  end.
Proof.
  intros Hok Htrim Hp Hm width. destruct (ParsePrefix_parses _ _ Htrim Hp) as (pv & Hpv).
  unfold FirstFreeAddress. rewrite Hp, Hpv. cbn [mbind option_bind].
  assert (netip_ParsePrefix (TrimSpace cidr) = Some p) as Hp' by by rewrite Htrim.
  destruct (ParsePrefix_bounds _ _ _ Hpv Hp' Hm) as (Hh & Hf & (_ & Hw & _) & _).
  destruct (usable pv (np_bits p)) as [lo hi] eqn:Hu.
  pose proof (fun x => usable_assignable _ _ _ _ _ x Hpv Hp' Hm Hu) as Has.
  destruct (walk_spans_spec width (isort span_less taken) lo) as (W1 & W2 & W3).
  { apply isort_sorted, _. }
  { by rewrite isort_perm. }
  rewrite Hw. fold width. set (c := walk_spans width (isort span_less taken) lo) in *.
  setoid_rewrite elem_of_isort in W2. setoid_rewrite elem_of_isort in W3.
  destruct (Z.ltb_spec hi lo) as [|Hlh]; [intros y Hy%Has; lia|].
  destruct (Z.ltb_spec hi c) as [Hc|Hc]; [intros y Hy%Has; apply W2; lia|].
  assert (assignable p c) as Hx by (apply Has; lia).
  exists c. split_and!; [done|by rewrite Hf|done|by intros y Hy%Has Hyc; apply W2; lia|]. intros H4.
  destruct (netip_ParsePrefix_ok _ _ Hp) as [Ha Hbits]. rewrite Hf, H4. apply (assignable_text p); try done.
  split; [done|]. unfold host_bits. destruct Ha as [Hl _]. rewrite Hl, H4. lia.
Qed.

Lemma FirstFreeAddress_least_witness :
  let p := {| np_addr := v4 [10; 0; 0; 0]; np_bits := 30 |} in
  netip_ParsePrefix "10.0.0.0/30" = Some p /\ assignable p 167772161 /\ ~ assignable p 167772160 /\
  FirstFreeAddress "10.0.0.0/30" [SpanOf [10; 0; 0; 1]] = Some "10.0.0.2" /\
  FirstFreeAddress "10.0.0.0/31" [] = Some "10.0.0.0" /\
  exists x, assignable p x /\ x <> 167772161 /\ "10.0.0.2" = textFromInt x 4.
Proof.
  intros p. split_and!; try (vm_compute; reflexivity).
  - by split.
  - intros [_ [Hz _]]; done.
  - assert (E : FirstFreeAddress "10.0.0.0/30" [SpanOf [10; 0; 0; 1]] = Some "10.0.0.2") by (vm_compute; reflexivity).
    pose proof (FirstFreeAddress_least "10.0.0.0/30" [SpanOf [10; 0; 0; 1]] p) as H. rewrite E in H.
    destruct H as (x & Hx & Ht & Hfree & _); [repeat constructor; unfold byte; lia|vm_compute; reflexivity..|].
    exists x. split_and!; [done| |done]. intros ->. apply (Hfree (SpanOf [10; 0; 0; 1])); [left|].
    split_and!; [done..|cbn; lia].
Defined.
