(* ===== verification/PrefixTree.v ===== *)
(** The prefix tree: [internal/domain/prefix_tree.go].

    [BuildPrefixTree] sorts the prefixes so that a parent precedes what it
    contains, finds every parent with a stack of open ancestors, and adds up
    what is allocated. Sizes are Go's [big.Int], [Z] here. *)
From Stdlib Require Import String Ascii ZArith Lia.
From stdpp Require Import base gmap strings list.
From S2P Require Import Prelude Text Netip Addresses.

#[local] Open Scope string_scope.
#[local] Open Scope list_scope.
#[local] Open Scope Z_scope.

(** * Definitions *)

(** [Prefix] of [network.go]. *)
Record Prefix := {
  px_ID : string; px_CIDRText : string; px_AddrFamily : Z; px_AddrStart : list Z;
  px_AddrEnd : list Z; px_EnvironmentID : option string; px_Role : option string;
  px_VRFID : option string; px_VLANRefID : option string; px_Lifecycle : string;
  px_CreatedAt : option string; px_UpdatedAt : option string; px_RowVersion : Z
}.

Record PrefixNode := {
  pn_Prefix : Prefix; pn_Depth : Z; pn_ParentID : option string; pn_Size : option Z;
  pn_Allocated : option Z; pn_Addresses : Z; pn_Children : Z
}.

(** [vrfKey] *)
Definition vrfKey (id : option string) : string := default "" id.

(** [contains] *)
Definition prefix_contains (outer inner : Prefix) : bool :=
  if negb (String.eqb (vrfKey (px_VRFID outer)) (vrfKey (px_VRFID inner))) ||
     negb (px_AddrFamily outer =? px_AddrFamily inner)
  then false
  else match bytes_compare (px_AddrStart outer) (px_AddrStart inner),
             bytes_compare (px_AddrEnd outer) (px_AddrEnd inner) with
       | Gt, _ | _, Lt => false
       | _, _ => negb (bool_decide (px_AddrStart outer = px_AddrStart inner) &&
                       bool_decide (px_AddrEnd outer = px_AddrEnd inner))
       end.

(** The tree order. *)
Definition prefix_less : Prefix -> Prefix -> bool :=
  lex_less (fun p => vrfKey (px_VRFID p)) str_ltb
    (lex_less px_AddrFamily Z.ltb
      (lex_less px_AddrStart bytes_ltb (fun a b => bytes_ltb (px_AddrEnd b) (px_AddrEnd a)))).

Definition node_less (a b : PrefixNode) : bool := prefix_less (pn_Prefix a) (pn_Prefix b).

Definition new_node (p : Prefix) : PrefixNode :=
  {| pn_Prefix := p; pn_Depth := 0; pn_ParentID := None; pn_Size := PrefixSize (px_CIDRText p);
     pn_Allocated := None; pn_Addresses := 0; pn_Children := 0 |}.

(** The nodes and the stack of open ancestors, innermost first. *)
Record TreeState := { ts_nodes : list PrefixNode; ts_stack : list nat; ts_direct : list Z }.

(** [for len(stack) > 0 && !contains(nodes[top], nodes[i])] *)
Fixpoint pop_stack (nodes : list PrefixNode) (inner : PrefixNode) (stack : list nat) : list nat :=
  match stack with
  | [] => []
  | top :: stack' =>
      match nodes !! top with
      | Some outer => if prefix_contains (pn_Prefix outer) (pn_Prefix inner) then stack
                      else pop_stack nodes inner stack'
      | None => stack
      end
  end.

Definition with_parent (n parent : PrefixNode) : PrefixNode :=
  {| pn_Prefix := pn_Prefix n; pn_Depth := wrap64 (pn_Depth parent + 1);
     pn_ParentID := Some (px_ID (pn_Prefix parent)); pn_Size := pn_Size n;
     pn_Allocated := pn_Allocated n; pn_Addresses := pn_Addresses n; pn_Children := pn_Children n |}.

Definition with_child (n : PrefixNode) : PrefixNode :=
  {| pn_Prefix := pn_Prefix n; pn_Depth := pn_Depth n; pn_ParentID := pn_ParentID n;
     pn_Size := pn_Size n; pn_Allocated := pn_Allocated n; pn_Addresses := pn_Addresses n;
     pn_Children := wrap64 (pn_Children n + 1) |}.

(** One turn of the first loop. *)
Definition place_node (addressesInRange : gmap string Z) (st : TreeState) (i : nat) : TreeState :=
  match ts_nodes st !! i with
  | None => st
  | Some n =>
      let stack := pop_stack (ts_nodes st) n (ts_stack st) in
      let nodes :=
        match stack with
        | parent :: _ =>
            match ts_nodes st !! parent with
            | Some p => alter with_child parent (<[i := with_parent n p]> (ts_nodes st))
            | None => ts_nodes st
            end
        | [] => ts_nodes st
        end in
      {| ts_nodes := nodes; ts_stack := i :: stack;
         ts_direct := <[i := addressesInRange.[px_ID (pn_Prefix n)|0]]> (ts_direct st) |}
  end.

(** [for j := i - 1; j >= 0; j--]: the nearest earlier node of that id. *)
Fixpoint find_before (nodes : list PrefixNode) (id : string) (i : nat) : option nat :=
  match i with
  | O => None
  | S j => match nodes !! j with
           | Some n => if bool_decide (px_ID (pn_Prefix n) = id) then Some j
                       else find_before nodes id j
           | None => find_before nodes id j
           end
  end.

(** One turn of the second loop, on [allocated] and [directAddrs]. *)
Definition charge_parent (addressesInRange : gmap string Z) (nodes : list PrefixNode)
    (s : list Z * list Z) (i : nat) : list Z * list Z :=
  let '(allocated, direct) := s in
  match nodes !! i with
  | None => s
  | Some n =>
      match pn_ParentID n with
      | None => s
      | Some id =>
          match find_before nodes id i with
          | None => s
          | Some j =>
              (match pn_Size n with
               | Some size => alter (fun a => a + size) j allocated
               | None => allocated
               end,
               alter (fun d => wrap64 (d - addressesInRange.[px_ID (pn_Prefix n)|0])) j direct)
          end
      end
  end.

(** The last loop. *)
Definition finish_node (n : PrefixNode) (allocated direct : Z) : PrefixNode :=
  let direct := if direct <? 0 then 0 else direct in
  {| pn_Prefix := pn_Prefix n; pn_Depth := pn_Depth n; pn_ParentID := pn_ParentID n;
     pn_Size := pn_Size n; pn_Allocated := Some (allocated + direct); pn_Addresses := direct;
     pn_Children := pn_Children n |}.

(** [BuildPrefixTree] *)
Definition BuildPrefixTree (prefixes : list Prefix) (addressesInRange : gmap string Z)
    : list PrefixNode :=
  let nodes := isort node_less (new_node <$> prefixes) in
  let idx := seq 0 (length nodes) in
  let st := foldl (place_node addressesInRange)
              {| ts_nodes := nodes; ts_stack := []; ts_direct := replicate (length nodes) 0 |} idx in
  let '(allocated, direct) :=
    foldl (charge_parent addressesInRange (ts_nodes st))
      (replicate (length nodes) 0, ts_direct st) idx in
  zip_with (fun n ad => finish_node n (fst ad) (snd ad)) (ts_nodes st) (zip allocated direct).

(** [PrefixNode.IsFull] *)
Definition IsFull (n : PrefixNode) : bool :=
  match pn_Size n, pn_Allocated n with Some s, Some a => s <=? a | _, _ => false end.

(** [Prefix.SetCIDR]; an error leaves the prefix as it was. *)
Definition SetCIDR (p : Prefix) (cidr : string) : option Prefix :=
  pv ← ParsePrefix cidr;
  Some {| px_ID := px_ID p; px_CIDRText := pv_Text pv; px_AddrFamily := pv_Family pv;
          px_AddrStart := pv_Start pv; px_AddrEnd := pv_End pv;
          px_EnvironmentID := px_EnvironmentID p; px_Role := px_Role p; px_VRFID := px_VRFID p;
          px_VLANRefID := px_VLANRefID p; px_Lifecycle := px_Lifecycle p;
          px_CreatedAt := px_CreatedAt p; px_UpdatedAt := px_UpdatedAt p;
          px_RowVersion := px_RowVersion p |}.

Definition sample_prefix (id cidr : string) (start end_ : list Z) : Prefix :=
  {| px_ID := id; px_CIDRText := cidr; px_AddrFamily := 4; px_AddrStart := start; px_AddrEnd := end_;
     px_EnvironmentID := None; px_Role := None; px_VRFID := None; px_VLANRefID := None;
     px_Lifecycle := "active"; px_CreatedAt := None; px_UpdatedAt := None; px_RowVersion := 1 |}.

Definition sample_prefixes : list Prefix :=
  [ sample_prefix "c" "10.0.1.0/25" [10; 0; 1; 0] [10; 0; 1; 127];
    sample_prefix "a" "10.0.0.0/16" [10; 0; 0; 0] [10; 0; 255; 255];
    sample_prefix "d" "10.0.2.0/24" [10; 0; 2; 0] [10; 0; 2; 255];
    sample_prefix "b" "10.0.1.0/24" [10; 0; 1; 0] [10; 0; 1; 255] ].

Example sample_tree :
  (fun n => (px_ID (pn_Prefix n), pn_ParentID n, pn_Depth n, pn_Children n, pn_Allocated n, pn_Addresses n)) <$>
    BuildPrefixTree sample_prefixes (list_to_map [("a", 40); ("b", 30); ("c", 10)]) =
  [ ("a", None, 0, 2, Some 522, 10); ("b", Some "a", 1, 1, Some 148, 20);
    ("c", Some "b", 2, 0, Some 10, 10); ("d", Some "a", 1, 0, Some 0, 0) ].
Proof. vm_compute. reflexivity. Qed.

(** * Lemmas *)

(** ** Containment *)

Lemma str_same_key (p q : Prefix) :
  negb (String.eqb (vrfKey (px_VRFID p)) (vrfKey (px_VRFID q))) ||
    negb (px_AddrFamily p =? px_AddrFamily q) = false <->
  vrfKey (px_VRFID p) = vrfKey (px_VRFID q) /\ px_AddrFamily p = px_AddrFamily q.
Proof. rewrite orb_false_iff, !negb_false_iff, String.eqb_eq, Z.eqb_eq. done. Qed.

(** One prefix strictly contains another: the same address space, a range that
    covers it, and not the same range. *)
Definition same_space (p q : Prefix) : Prop :=
  vrfKey (px_VRFID p) = vrfKey (px_VRFID q) /\ px_AddrFamily p = px_AddrFamily q.

Definition bytes_le (a b : list Z) : Prop := bytes_ltb b a = false.

Lemma bytes_le_refl a : bytes_le a a.
Proof. apply (st_irrefl bytes_ltb). Qed.

Lemma bytes_le_trans a b c : bytes_le a b -> bytes_le b c -> bytes_le a c.
Proof. unfold bytes_le. intros H1 H2. by apply (sw_negtrans (less := bytes_ltb) a b c). Qed.

Lemma bytes_le_antisym a b : bytes_le a b -> bytes_le b a -> a = b.
Proof. unfold bytes_le. intros H1 H2. by apply (st_total (less := bytes_ltb)). Qed.

Lemma bytes_ltb_le a b : bytes_ltb a b = true -> bytes_le a b.
Proof. apply (sw_asym (less := bytes_ltb)). Qed.

Lemma bytes_le_not_lt a b : bytes_le a b -> bytes_ltb b a = true -> False.
Proof. unfold bytes_le. congruence. Qed.

Lemma prefix_contains_iff p q :
  prefix_contains p q = true <->
  same_space p q /\ bytes_le (px_AddrStart p) (px_AddrStart q) /\
  bytes_le (px_AddrEnd q) (px_AddrEnd p) /\
  (px_AddrStart p <> px_AddrStart q \/ px_AddrEnd p <> px_AddrEnd q).
Proof.
  unfold prefix_contains, same_space, bytes_le, bytes_ltb.
  destruct (negb _ || negb _) eqn:E.
  { split; [done|]. intros (H & _). apply str_same_key in H. congruence. }
  apply str_same_key in E.
  rewrite (bytes_compare_antisym (px_AddrStart p) (px_AddrStart q)).
  destruct (bytes_compare (px_AddrStart p) (px_AddrStart q)) eqn:E1;
    destruct (bytes_compare (px_AddrEnd p) (px_AddrEnd q)) eqn:E2; cbn [CompOpp];
    try (split; [done|by intros (_ & ? & ? & _)]);
    rewrite negb_true_iff, andb_false_iff, !bool_decide_eq_false; naive_solver.
Qed.

Lemma contains_trans p q r :
  prefix_contains p q = true -> prefix_contains q r = true -> prefix_contains p r = true.
Proof.
  rewrite !prefix_contains_iff. intros ([A1 A2] & A3 & A4 & A5) ([B1 B2] & B3 & B4 & B5).
  split_and!; [split; congruence|by eapply bytes_le_trans|by eapply bytes_le_trans|].
  destruct (decide (px_AddrStart p = px_AddrStart r)) as [E|]; [right|by left].
  destruct (decide (px_AddrEnd p = px_AddrEnd r)) as [E'|]; [|done].
  exfalso. rewrite <- E in B3. rewrite <- E' in B4.
  pose proof (bytes_le_antisym _ _ A3 B3) as S1. pose proof (bytes_le_antisym _ _ B4 A4) as S2.
  destruct A5; congruence.
Qed.

Lemma contains_irrefl p : prefix_contains p p = false.
Proof.
  destruct (prefix_contains p p) eqn:E; [|done]. apply prefix_contains_iff in E as (_ & _ & _ & [H|H]); done.
Qed.

(** A container sorts before what it contains. *)
Lemma contains_less p q : prefix_contains p q = true -> prefix_less p q = true.
Proof.
  intros ([H1 H2] & H3 & H4 & H5)%prefix_contains_iff. unfold prefix_less, lex_less.
  rewrite !decide_True by done. case_decide as E.
  - destruct H5 as [|H5]; [done|]. destruct (bytes_ltb (px_AddrEnd q) (px_AddrEnd p)) eqn:F; [done|].
    exfalso. apply H5. by apply bytes_le_antisym.
  - destruct (bytes_ltb (px_AddrStart p) (px_AddrStart q)) eqn:F; [done|].
    exfalso. apply E. by apply bytes_le_antisym.
Qed.

#[export] Instance prefix_less_weak : StrictWeak prefix_less.
Proof.
  unfold prefix_less. apply lex_less_weak; [apply _|]. apply lex_less_weak; [apply _|].
  apply lex_less_weak; [apply _|]. apply (key_less_weak px_AddrEnd (fun a b => bytes_ltb b a)).
  apply (flip_strict_total bytes_ltb). apply _.
Qed.

(** What the order says of two prefixes of one space. *)
Lemma prefix_less_false p q :
  prefix_less q p = false -> same_space p q -> bytes_le (px_AddrStart p) (px_AddrStart q).
Proof.
  intros H [H1 H2]. unfold prefix_less, lex_less in H. rewrite !decide_True in H by done.
  case_decide as E; [|done]. rewrite E. apply bytes_le_refl.
Qed.

(** Sorting keeps a space together: what lies between two of its members is of
    it. *)
Lemma space_between p m q :
  prefix_less m p = false -> prefix_less q m = false -> same_space p q -> same_space p m.
Proof.
  intros H1 H2 [E1 E2]. unfold prefix_less, lex_less in H1, H2.
  destruct (decide (vrfKey (px_VRFID m) = vrfKey (px_VRFID p))) as [D1|D1];
    destruct (decide (vrfKey (px_VRFID q) = vrfKey (px_VRFID m))) as [D2|D2]; try (exfalso; congruence).
  - split; [done|]. destruct (decide (px_AddrFamily m = px_AddrFamily p)) as [|D3]; [done|].
    destruct (decide (px_AddrFamily q = px_AddrFamily m)) as [|D4]; [congruence|].
    apply Z.ltb_ge in H1. apply Z.ltb_ge in H2. lia.
  - exfalso. rewrite <- E1 in H2. apply D1. by apply (st_total (less := str_ltb)).
Qed.

(** ** The stack of open ancestors *)

(** Prefixes of one space never overlap without nesting: what CIDR blocks do. *)
Definition laminar (p q : Prefix) : Prop :=
  same_space p q ->
  p = q \/ prefix_contains p q = true \/ prefix_contains q p = true \/
  bytes_ltb (px_AddrEnd p) (px_AddrStart q) = true \/ bytes_ltb (px_AddrEnd q) (px_AddrStart p) = true.

Fixpoint drop_until (f : nat -> bool) (l : list nat) : list nat :=
  match l with [] => [] | k :: l' => if f k then l else drop_until f l' end.

(** The indices below [m], last first, that satisfy [f]. *)
Definition below (f : nat -> bool) (m : nat) : list nat := List.filter f (rev (seq 0 m)).

Lemma below_S f m : below f (S m) = if f m then m :: below f m else below f m.
Proof. unfold below. rewrite seq_S, rev_app_distr. cbn. by destruct (f m). Qed.

Lemma elem_of_below f m k : k ∈ below f m <-> (k < m)%nat /\ f k = true.
Proof.
  unfold below. rewrite elem_of_bool_filter, list_elem_of_In, <- in_rev, in_seq.
  split; intros [? ?]; split; done || lia.
Qed.

Lemma below_ext f g m : (forall k, (k < m)%nat -> f k = g k) -> below f m = below g m.
Proof.
  induction m as [|m IH]; intros H; [done|]. rewrite !below_S, H by lia.
  rewrite IH; [done|]. intros. apply H. lia.
Qed.

(** The head of such a list cuts the rest off at itself. *)
Lemma below_head f m k l : below f m = k :: l -> (k < m)%nat /\ f k = true /\ l = below f k.
Proof.
  induction m as [|m IH]; [done|]. rewrite below_S. destruct (f m) eqn:E.
  - intros [= <- <-]. split_and!; [lia|done|done].
  - intros H. destruct (IH H) as (? & ? & ?). split_and!; [lia|done|done].
Qed.

(** *** Tables: lists indexed by a function *)

Section Table.
Context {A : Type} (m : nat).

Lemma table_lookup (f : nat -> A) k : (k < m)%nat -> (f <$> seq 0 m) !! k = Some (f k).
Proof. intros Hk. rewrite list_lookup_fmap, lookup_seq_lt by done. done. Qed.

Lemma table_ext (f g : nat -> A) :
  (forall k, (k < m)%nat -> f k = g k) -> f <$> seq 0 m = g <$> seq 0 m.
Proof.
  intros H. apply list_fmap_ext. intros k x Hk. apply lookup_seq in Hk as [-> Hk]. by apply H.
Qed.

Lemma table_alter (h : A -> A) (f : nat -> A) k :
  alter h k (f <$> seq 0 m) = (fun j => if decide (j = k) then h (f j) else f j) <$> seq 0 m.
Proof.
  apply list_eq. intros j. destruct (decide (j = k)) as [->|Hne].
  - rewrite list_lookup_alter_eq, !list_lookup_fmap. destruct (seq 0 m !! k) as [x|] eqn:E; [|done].
    apply lookup_seq in E as [-> _]. cbn. by rewrite decide_True.
  - rewrite list_lookup_alter_ne by done. rewrite !list_lookup_fmap.
    destruct (seq 0 m !! j) as [x|] eqn:E; [|done].
    apply lookup_seq in E as [-> _]. cbn. by rewrite decide_False.
Qed.

Lemma table_insert (x : A) (f : nat -> A) k :
  <[k := x]> (f <$> seq 0 m) = (fun j => if decide (j = k) then x else f j) <$> seq 0 m.
Proof.
  destruct (decide (k < m)%nat) as [Hk|Hk].
  - apply list_eq. intros j. destruct (decide (j = k)) as [->|Hne].
    + rewrite list_lookup_insert_eq by (by rewrite length_fmap, length_seq).
      rewrite table_lookup by done. by rewrite decide_True.
    + rewrite list_lookup_insert_ne by done. rewrite !list_lookup_fmap.
      destruct (seq 0 m !! j) as [y|] eqn:E; [|done].
      apply lookup_seq in E as [-> _]. cbn. by rewrite decide_False.
  - rewrite list_insert_ge by (rewrite length_fmap, length_seq; lia). apply table_ext.
    intros j Hj. rewrite decide_False by lia. done.
Qed.
End Table.

Section Stack.
Context (P : nat -> Prefix) (n : nat).
Hypothesis Hsorted : forall j k, (j < k < n)%nat -> prefix_less (P k) (P j) = false.
Hypothesis Hlaminar : forall j k, (j < n)%nat -> (k < n)%nat -> laminar (P j) (P k).
Hypothesis Hbounds : forall j, (j < n)%nat -> bytes_le (px_AddrStart (P j)) (px_AddrEnd (P j)).
Hypothesis Hids : forall j k, (j < n)%nat -> (k < n)%nat -> px_ID (P j) = px_ID (P k) -> j = k.

Local Definition C (j k : nat) : bool := prefix_contains (P j) (P k).

(** The ancestors of a prefix, innermost first. *)
Definition anc (i : nat) : list nat := below (fun j => C j i) i.

Lemma C_before j i : (j < n)%nat -> (i < n)%nat -> C j i = true -> (j < i)%nat.
Proof.
  intros Hj Hi H. destruct (Nat.lt_trichotomy j i) as [|[->|Hl]]; [done| |].
  - unfold C in H. by rewrite contains_irrefl in H.
  - apply contains_less in H. by rewrite Hsorted in H by lia.
Qed.

(** What lies between a prefix and its container is in the container. *)
Lemma C_between j m i : (j < m < i)%nat -> (i < n)%nat -> C j i = true -> C j m = true.
Proof.
  intros Hm Hi H. unfold C in *. pose proof H as ([E1 E2] & S & E & _)%prefix_contains_iff.
  assert (Hjm : same_space (P j) (P m)).
  { apply (space_between _ _ (P i)); [apply Hsorted; lia|apply Hsorted; lia|split; done]. }
  assert (Hmi : same_space (P m) (P i)) by (destruct Hjm; split; congruence).
  pose proof (prefix_less_false (P m) (P i) (Hsorted m i ltac:(lia)) Hmi) as Smi.
  pose proof (prefix_less_false (P j) (P m) (Hsorted j m ltac:(lia)) Hjm) as Sjm.
  pose proof (Hbounds i Hi) as Bi. pose proof (Hbounds m ltac:(lia)) as Bm.
  destruct (Hlaminar j m ltac:(lia) ltac:(lia) Hjm) as [Heq|[Hc|[Hc|[Hc|Hc]]]].
  - exfalso. assert (j = m); [|lia]. apply Hids; [lia|lia|]. by rewrite Heq.
  - done.
  - apply contains_less in Hc. by rewrite Hsorted in Hc by lia.
  - exfalso. eapply bytes_le_not_lt; [|exact Hc].
    eapply bytes_le_trans; [exact Smi|]. by eapply bytes_le_trans.
  - exfalso. eapply bytes_le_not_lt; [|exact Hc]. by eapply bytes_le_trans.
Qed.

(** An ancestor of an ancestor's index range is an ancestor of both. *)
Lemma C_up j k i : (j < k)%nat -> (k < i)%nat -> (i < n)%nat -> C k i = true -> C j k = C j i.
Proof.
  intros H1 H2 Hi Hk. destruct (C j i) eqn:E.
  - by apply (C_between j k i).
  - destruct (C j k) eqn:E'; [|done]. rewrite <- E. symmetry. by apply (contains_trans _ (P k)).
Qed.

(** Popping the ancestors of the previous prefix leaves those of the next. *)
Lemma pop_below m k :
  (k <= m)%nat -> (S m < n)%nat -> C m (S m) = false ->
  drop_until (fun j => C j (S m)) (below (fun j => C j m) k) = below (fun j => C j (S m)) k.
Proof.
  intros Hk Hm Hc. induction k as [|k IH]; [done|]. rewrite !below_S.
  destruct (C k (S m)) eqn:E.
  - rewrite (C_between k m (S m)) by (done || lia). cbn [drop_until]. rewrite E. f_equal.
    apply below_ext. intros j Hj. destruct (C j (S m)) eqn:E1.
    + apply (C_between j m (S m)); done || lia.
    + destruct (C j m) eqn:E2; [|done]. rewrite <- E1. symmetry.
      assert (C j k = true) by (apply (C_between j k m); done || lia). by apply (contains_trans _ (P k)).
  - destruct (C k m); [cbn [drop_until]; rewrite E|]; apply IH; lia.
Qed.

Definition open_stack (i : nat) : list nat :=
  match i with O => [] | S m => m :: anc m end.

Lemma pop_open i : (i < n)%nat -> drop_until (fun j => C j i) (open_stack i) = anc i.
Proof.
  intros Hi. destruct i as [|m]; [done|]. unfold open_stack, anc. rewrite below_S. cbn [drop_until].
  destruct (C m (S m)) eqn:E.
  - f_equal. apply below_ext. intros j Hj. cbn beta. apply C_up; done || lia.
  - by apply pop_below.
Qed.

(** The parent's ancestors are the rest of a prefix's. *)
Lemma anc_parent i k l : (i < n)%nat -> anc i = k :: l -> (k < i)%nat /\ C k i = true /\ l = anc k.
Proof.
  intros Hi (Hk & Hc & ->)%below_head. split_and!; [done|done|]. apply below_ext.
  intros j Hj. cbn beta in *. symmetry. apply C_up; done || lia.
Qed.

(** The direct children found among the first [i] prefixes. *)
Definition kids (i k : nat) : list nat :=
  List.filter (fun m => bool_decide (head (anc m) = Some k)) (seq 0 i).

Lemma kids_S i k :
  kids (S i) k = kids i k ++ (if decide (head (anc i) = Some k) then [i] else []).
Proof.
  unfold kids. rewrite seq_S, List.filter_app. cbn. f_equal.
  destruct (decide (head (anc i) = Some k)); [by rewrite bool_decide_true|by rewrite bool_decide_false].
Qed.

Lemma length_kids_S i k :
  Z.of_nat (length (kids (S i) k)) =
    Z.of_nat (length (kids i k)) + (if decide (head (anc i) = Some k) then 1 else 0).
Proof. rewrite kids_S, length_app. case_decide; cbn; lia. Qed.

(** What the first loop has written after [i] turns. *)
Definition node_at (i k : nat) : PrefixNode :=
  {| pn_Prefix := P k;
     pn_Depth := if (k <? i)%nat then wrap64 (Z.of_nat (length (anc k))) else 0;
     pn_ParentID := if (k <? i)%nat then (fun j => px_ID (P j)) <$> head (anc k) else None;
     pn_Size := PrefixSize (px_CIDRText (P k)); pn_Allocated := None; pn_Addresses := 0;
     pn_Children := wrap64 (Z.of_nat (length (kids i k))) |}.

Context (addr : gmap string Z).
Local Definition in_range (k : nat) : Z := addr.[px_ID (P k)|0].

Definition state_at (i : nat) : TreeState :=
  {| ts_nodes := node_at i <$> seq 0 n; ts_stack := open_stack i;
     ts_direct := (fun k => if (k <? i)%nat then in_range k else 0) <$> seq 0 n |}.

Lemma pop_stack_drop i inner stack :
  Forall (fun j => (j < n)%nat) stack ->
  pop_stack (node_at i <$> seq 0 n) inner stack =
    drop_until (fun j => prefix_contains (P j) (pn_Prefix inner)) stack.
Proof.
  induction 1 as [|top stack Ht Hs IH]; [done|]. cbn [pop_stack drop_until].
  rewrite table_lookup by done. cbn [pn_Prefix node_at]. by rewrite IH.
Qed.

Lemma open_stack_lt i : (i < n)%nat -> Forall (fun j => (j < n)%nat) (open_stack i).
Proof.
  intros Hi. destruct i as [|m]; [constructor|]. constructor; [lia|].
  apply Forall_forall. intros j [Hj _]%elem_of_below. lia.
Qed.

(** One more index written. *)
Lemma index_S {A} (x y : A) k i :
  (if (k <? S i)%nat then x else y) = (if decide (k = i) then x else if (k <? i)%nat then x else y).
Proof.
  destruct (decide (k = i)) as [->|]; [by rewrite (proj2 (Nat.ltb_lt i (S i))) by lia|].
  destruct (Nat.ltb_spec k i), (Nat.ltb_spec k (S i)); done || lia.
Qed.

Lemma place_node_step i : (i < n)%nat -> place_node addr (state_at i) i = state_at (S i).
Proof.
  intros Hi. unfold place_node. change (ts_nodes (state_at i)) with (node_at i <$> seq 0 n).
  change (ts_stack (state_at i)) with (open_stack i).
  change (ts_direct (state_at i)) with ((fun k => if (k <? i)%nat then in_range k else 0) <$> seq 0 n).
  rewrite table_lookup by done. rewrite pop_stack_drop by (by apply open_stack_lt).
  cbn [pn_Prefix node_at]. change (fun j => prefix_contains (P j) (P i)) with (fun j => C j i).
  rewrite pop_open by done. unfold state_at. cbn [open_stack].
  rewrite table_insert. f_equal.
  2: { apply table_ext. intros k Hk. rewrite index_S. by case_decide; subst. }
  destruct (anc i) as [|k l] eqn:E.
  - apply table_ext. intros j Hj. unfold node_at. rewrite !index_S, length_kids_S, E. cbn [head].
    rewrite (decide_False (P := None = Some j)) by done. rewrite Z.add_0_r.
    by case_decide; subst; rewrite ?E, ?Nat.ltb_irrefl.
  - destruct (anc_parent i k l Hi E) as (Hk & _ & Hl). rewrite table_lookup by lia.
    rewrite table_insert, table_alter. apply table_ext. intros j Hj.
    unfold with_child, with_parent, node_at. rewrite !index_S, length_kids_S, E. cbn [head].
    destruct (decide (j = k)) as [->|Hjk].
    + rewrite !(decide_False (P := k = i)) by lia. cbn. rewrite (decide_True (P := Some k = Some k)) by done.
      by rewrite (wrap64_add_l (Z.of_nat _) 1).
    + rewrite (decide_False (P := Some k = Some j)) by congruence. rewrite Z.add_0_r.
      destruct (decide (j = i)) as [->|Hji]; [|done].
      cbn [pn_Prefix pn_Depth pn_ParentID pn_Size pn_Allocated pn_Addresses pn_Children].
      rewrite E, (proj2 (Nat.ltb_lt k i) Hk), wrap64_add_l. subst l. cbn [length head].
      f_equal. f_equal. lia.
Qed.

Lemma place_all : foldl (place_node addr) (state_at 0) (seq 0 n) = state_at n.
Proof.
  assert (H : forall i, (i <= n)%nat -> foldl (place_node addr) (state_at 0) (seq 0 i) = state_at i).
  { induction i as [|i IH]; intros Hi; [done|]. rewrite seq_S, foldl_snoc, IH by lia.
    apply place_node_step. lia. }
  by apply H.
Qed.

(** The second loop finds the parent by its id. *)
Lemma find_before_parent k i :
  (k < i)%nat -> (i <= n)%nat -> find_before (node_at n <$> seq 0 n) (px_ID (P k)) i = Some k.
Proof.
  induction i as [|i IH]; intros Hk Hi; [lia|]. cbn [find_before].
  rewrite table_lookup by lia. cbn [pn_Prefix node_at].
  destruct (decide (i = k)) as [->|Hne]; [by rewrite bool_decide_true|].
  rewrite bool_decide_false; [apply IH; lia|]. intros E. apply Hne. apply Hids; done || lia.
Qed.

Local Definition px_size (k : nat) : Z := default 0 (PrefixSize (px_CIDRText (P k))).

Definition allocated_at (i k : nat) : Z := sumZ (px_size <$> kids i k).
Definition direct_at (i k : nat) : Z := wrap64 (in_range k - sumZ (in_range <$> kids i k)).

Lemma sum_kids_S (f : nat -> Z) i k :
  sumZ (f <$> kids (S i) k) =
    sumZ (f <$> kids i k) + (if decide (head (anc i) = Some k) then f i else 0).
Proof. rewrite kids_S, fmap_app, sumZ_app. case_decide; cbn; lia. Qed.

Lemma charge_step i :
  (i < n)%nat ->
  charge_parent addr (node_at n <$> seq 0 n) (allocated_at i <$> seq 0 n, direct_at i <$> seq 0 n) i =
    (allocated_at (S i) <$> seq 0 n, direct_at (S i) <$> seq 0 n).
Proof.
  intros Hi. unfold charge_parent. rewrite table_lookup by done.
  cbn [pn_ParentID pn_Size pn_Prefix node_at]. rewrite (proj2 (Nat.ltb_lt i n) Hi).
  unfold allocated_at, direct_at.
  destruct (anc i) as [|k l] eqn:E; cbn [head fmap option_fmap option_map].
  - f_equal; apply table_ext; intros j Hj; rewrite !sum_kids_S, E; cbn [head];
      rewrite (decide_False (P := None = Some j)) by done; by rewrite Z.add_0_r.
  - destruct (anc_parent i k l Hi E) as (Hk & _). rewrite find_before_parent by lia.
    f_equal.
    + assert (Hsz : forall l' : list Z,
        match PrefixSize (px_CIDRText (P i)) with
        | Some size => alter (fun a => a + size) k l'
        | None => l'
        end = alter (fun a => a + px_size i) k l').
      { intros l'. unfold px_size. destruct (PrefixSize (px_CIDRText (P i))); [done|]. cbn.
        apply list_eq. intros j. destruct (decide (j = k)) as [->|].
        - rewrite list_lookup_alter_eq. destruct (l' !! k); [|done]. cbn. by rewrite Z.add_0_r.
        - by rewrite list_lookup_alter_ne. }
      rewrite Hsz, table_alter. apply table_ext. intros j Hj. rewrite sum_kids_S, E. cbn [head].
      destruct (decide (j = k)) as [->|]; [by rewrite decide_True|].
      rewrite decide_False by congruence. lia.
    + rewrite table_alter. apply table_ext. intros j Hj. rewrite sum_kids_S, E. cbn [head].
      destruct (decide (j = k)) as [->|]; [rewrite decide_True by done|rewrite decide_False by congruence].
      * unfold Z.sub at 1. rewrite wrap64_add_l. f_equal. unfold in_range. lia.
      * by rewrite Z.add_0_r.
Qed.

Lemma charge_all :
  foldl (charge_parent addr (node_at n <$> seq 0 n)) (allocated_at 0 <$> seq 0 n, direct_at 0 <$> seq 0 n)
    (seq 0 n) = (allocated_at n <$> seq 0 n, direct_at n <$> seq 0 n).
Proof.
  assert (H : forall i, (i <= n)%nat ->
    foldl (charge_parent addr (node_at n <$> seq 0 n)) (allocated_at 0 <$> seq 0 n, direct_at 0 <$> seq 0 n)
      (seq 0 i) = (allocated_at i <$> seq 0 n, direct_at i <$> seq 0 n)).
  { induction i as [|i IH]; intros Hi; [done|]. rewrite seq_S, foldl_snoc, IH by lia.
    apply charge_step. lia. }
  by apply H.
Qed.

(** The finished nodes. *)
Definition final_node (k : nat) : PrefixNode := finish_node (node_at n k) (allocated_at n k) (direct_at n k).

Lemma build_sorted :
  (forall k, int64 (in_range k)) ->
  (let st := foldl (place_node addr)
    {| ts_nodes := new_node <$> (P <$> seq 0 n); ts_stack := []; ts_direct := replicate n 0 |} (seq 0 n) in
  let '(allocated, direct) :=
    foldl (charge_parent addr (ts_nodes st)) (replicate n 0, ts_direct st) (seq 0 n) in
  zip_with (fun n ad => finish_node n (fst ad) (snd ad)) (ts_nodes st) (zip allocated direct)) =
    final_node <$> seq 0 n.
Proof.
  intros Haddr.
  assert (Hrep : forall z : Z, replicate n z = (fun _ : nat => z) <$> seq 0 n).
  { intros z. apply list_eq. intros j. rewrite list_lookup_fmap. destruct (seq 0 n !! j) eqn:E.
    - apply lookup_seq in E as [_ E]. by rewrite lookup_replicate_2.
    - apply lookup_ge_None in E. rewrite length_seq in E. by apply lookup_ge_None; rewrite length_replicate. }
  assert (H0 : {| ts_nodes := new_node <$> (P <$> seq 0 n); ts_stack := []; ts_direct := replicate n 0 |} = state_at 0).
  { unfold state_at. rewrite Hrep. f_equal. by rewrite <- list_fmap_compose. }
  cbv zeta. rewrite H0, place_all. cbn [ts_nodes ts_direct state_at].
  assert (Hd : (fun k => if (k <? n)%nat then in_range k else 0) <$> seq 0 n = direct_at 0 <$> seq 0 n).
  { apply table_ext. intros k Hk. rewrite (proj2 (Nat.ltb_lt k n) Hk). unfold direct_at.
    change (kids 0 k) with (@nil nat). cbn. by rewrite Z.sub_0_r, wrap64_id. }
  rewrite Hd, Hrep. change ((fun _ : nat => 0) <$> seq 0 n) with (allocated_at 0 <$> seq 0 n).
  rewrite charge_all. apply list_eq. intros j.
  rewrite lookup_zip_with, !list_lookup_fmap. rewrite lookup_zip_with, !list_lookup_fmap.
  by destruct (seq 0 n !! j).
Qed.
End Stack.

(** ** The whole build *)

Lemma isort_new_node l : isort node_less (new_node <$> l) = new_node <$> isort prefix_less l.
Proof.
  induction l as [|p l IH]; [done|]. rewrite fmap_cons.
  change (insert_sorted node_less (new_node p) (isort node_less (new_node <$> l)) =
          new_node <$> insert_sorted prefix_less p (isort prefix_less l)).
  rewrite IH. clear IH. induction (isort prefix_less l) as [|q l' IH]; [done|].
  cbn [fmap list_fmap insert_sorted]. unfold node_less at 1. cbn [pn_Prefix new_node].
  destruct (prefix_less q p); [|done]. by rewrite IH.
Qed.

Definition dummy_prefix : Prefix := sample_prefix "" "" [] [].

Lemma list_table {A} (l : list A) d : l = (fun k => nth k l d) <$> seq 0 (length l).
Proof.
  apply list_eq. intros k. rewrite list_lookup_fmap. destruct (seq 0 (length l) !! k) as [j|] eqn:E.
  - apply lookup_seq in E as [-> Hk]. cbn. by apply lookup_lt_is_Some_2 in Hk as [x Hx];
      rewrite Hx; rewrite (nth_lookup_Some _ _ _ _ Hx).
  - apply lookup_ge_None in E. rewrite length_seq in E. by apply lookup_ge_None.
Qed.

Lemma bool_filter_fmap {A B} (f : A -> B) (p : B -> bool) l :
  List.filter p (f <$> l) = f <$> List.filter (fun x => p (f x)) l.
Proof. induction l as [|x l IH]; [done|]. cbn. rewrite IH. by destruct (p (f x)). Qed.

Lemma below_length f m : length (below f m) = count_if f (seq 0 m).
Proof. unfold below. symmetry. apply (count_if_perm f), Permutation_rev. Qed.

(** The estates the tree is built for: one row per id, ranges that do not end
    before they start, blocks that nest or do not meet. *)
Definition valid_space (prefixes : list Prefix) : Prop :=
  NoDup (px_ID <$> prefixes) /\
  (forall p, p ∈ prefixes -> bytes_le (px_AddrStart p) (px_AddrEnd p)) /\
  (forall p q, p ∈ prefixes -> q ∈ prefixes -> laminar p q).

(** The sorted prefixes, by index. *)
Definition sorted_prefix (prefixes : list Prefix) (k : nat) : Prefix :=
  nth k (isort prefix_less prefixes) dummy_prefix.

Lemma sorted_prefix_table prefixes :
  isort prefix_less prefixes = sorted_prefix prefixes <$> seq 0 (length prefixes).
Proof. rewrite <- (isort_length prefix_less prefixes). apply list_table. Qed.

Section Whole.
Context (prefixes : list Prefix) (Hvalid : valid_space prefixes).
Local Abbreviation P := (sorted_prefix prefixes).
Local Abbreviation n := (length prefixes).

Lemma sorted_prefix_lookup k : (k < n)%nat -> isort prefix_less prefixes !! k = Some (P k).
Proof. intros Hk. rewrite sorted_prefix_table. by apply table_lookup. Qed.

Lemma sorted_prefix_elem k : (k < n)%nat -> P k ∈ prefixes.
Proof.
  intros Hk. apply (elem_of_isort prefix_less). eapply list_elem_of_lookup_2. by apply sorted_prefix_lookup.
Qed.

Lemma sorted_prefix_index q : q ∈ prefixes -> exists k, (k < n)%nat /\ q = P k.
Proof.
  rewrite <- (elem_of_isort prefix_less), sorted_prefix_table. intros (k & -> & Hk)%list_elem_of_fmap. exists k. split; [|done].
  apply list_elem_of_In, in_seq in Hk. lia.
Qed.

Lemma whole_sorted j k : (j < k < n)%nat -> prefix_less (P k) (P j) = false.
Proof.
  intros H. apply (sorted_by_lookup prefix_less (isort prefix_less prefixes) j k); [|lia|..].
  - apply isort_sorted, _.
  - apply sorted_prefix_lookup. lia.
  - apply sorted_prefix_lookup. lia.
Qed.

Lemma whole_ids j k : (j < n)%nat -> (k < n)%nat -> px_ID (P j) = px_ID (P k) -> j = k.
Proof.
  intros Hj Hk H. destruct Hvalid as [Hn _]. rewrite <- (isort_perm prefix_less prefixes) in Hn.
  apply (NoDup_lookup _ j k (px_ID (P j)) Hn);
    rewrite list_lookup_fmap, sorted_prefix_lookup by done; cbn; by rewrite ?H.
Qed.

Lemma whole_laminar j k : (j < n)%nat -> (k < n)%nat -> laminar (P j) (P k).
Proof. intros Hj Hk. apply Hvalid; by apply sorted_prefix_elem. Qed.

Lemma whole_bounds j : (j < n)%nat -> bytes_le (px_AddrStart (P j)) (px_AddrEnd (P j)).
Proof. intros Hj. apply Hvalid. by apply sorted_prefix_elem. Qed.

Local Abbreviation before := (C_before P n whole_sorted).
Local Abbreviation up := (anc_parent P n whole_sorted whole_laminar whole_bounds whole_ids).

(** Containers of a prefix, counted over the whole estate. *)
Lemma containers_anc k :
  (k < n)%nat ->
  length (anc P k) = count_if (fun q => prefix_contains q (P k)) prefixes.
Proof.
  intros Hk. unfold anc. rewrite below_length.
  rewrite <- (count_if_perm _ _ _ (isort_perm prefix_less prefixes)), sorted_prefix_table.
  unfold count_if. rewrite bool_filter_fmap, length_fmap.
  replace n with (k + (n - k))%nat by lia. rewrite seq_app, List.filter_app, length_app. cbn.
  rewrite (filter_none _ (seq k (n - k))); [cbn; unfold C; lia|].
  intros j Hj. apply list_elem_of_In, in_seq in Hj.
  destruct (prefix_contains (P j) (P k)) eqn:E; [|done].
  apply (before j k) in E; lia.
Qed.

(** The parent is the narrowest container. *)
Lemma parent_narrowest k id :
  (k < n)%nat ->
  (fun j => px_ID (P j)) <$> head (anc P k) = Some id <->
  exists q, q ∈ prefixes /\ px_ID q = id /\ prefix_contains q (P k) = true /\
    forall r, r ∈ prefixes -> prefix_contains r (P k) = true -> r = q \/ prefix_contains r q = true.
Proof.
  intros Hk. split.
  - destruct (anc P k) as [|j l] eqn:E; [done|]. cbn. intros [= <-].
    destruct (up k j l Hk E) as (Hj & Hc & Hl).
    exists (P j). split; [apply sorted_prefix_elem; lia|]. split_and!; [done|done|].
    intros r Hr Hrc. apply sorted_prefix_index in Hr as (m & Hm & ->).
    assert (Hin : m ∈ anc P k).
    { apply elem_of_below. split; [by apply before|done]. }
    rewrite E in Hin. apply elem_of_cons in Hin as [->|Hin]; [by left|right].
    rewrite Hl in Hin. by apply elem_of_below in Hin as [_ Hin].
  - intros (q & Hq & <- & Hc & Hmin). apply sorted_prefix_index in Hq as (m & Hm & ->).
    assert (Hin : m ∈ anc P k) by (apply elem_of_below; split; [by apply before|done]).
    destruct (anc P k) as [|j l] eqn:E; [by apply elem_of_nil in Hin|].
    destruct (up k j l Hk E) as (Hj & Hcj & Hl). cbn. do 2 f_equal.
    apply elem_of_cons in Hin as [->|Hin]; [done|]. rewrite Hl in Hin.
    apply elem_of_below in Hin as [Hmj _].
    destruct (Hmin (P j)) as [->|Hjm]; [apply sorted_prefix_elem; lia|done|done|].
    apply before in Hjm; lia.
Qed.

(** The direct children of a prefix, as rows of the tree. *)
Lemma children_kids addr k :
  (k < n)%nat ->
  List.filter (fun y => bool_decide (pn_ParentID y = Some (px_ID (P k))))
    (final_node P n addr <$> seq 0 n) = final_node P n addr <$> kids P n k.
Proof.
  intros Hk. rewrite bool_filter_fmap. f_equal. unfold kids. apply filter_ext_in.
  intros m Hm. apply in_seq in Hm. apply bool_decide_ext. cbn [pn_ParentID final_node finish_node node_at].
  rewrite (proj2 (Nat.ltb_lt m n)) by lia.
  destruct (anc P m) as [|j l] eqn:E; cbn; [done|].
  destruct (up m j l ltac:(lia) E) as (Hj & _). split; [|by intros [= ->]].
  intros [= H]. f_equal. apply whole_ids; done || lia.
Qed.
End Whole.

Lemma build_table prefixes addressesInRange :
  valid_space prefixes -> (forall id, int64 (addressesInRange.[id|0])) ->
  BuildPrefixTree prefixes addressesInRange =
    final_node (sorted_prefix prefixes) (length prefixes) addressesInRange <$> seq 0 (length prefixes).
Proof.
  intros Hv Ha. unfold BuildPrefixTree. cbv zeta. rewrite isort_new_node, length_fmap, isort_length.
  rewrite sorted_prefix_table.
  apply (build_sorted (sorted_prefix prefixes) (length prefixes) (whole_sorted prefixes)
    (whole_laminar prefixes Hv) (whole_bounds prefixes Hv) (whole_ids prefixes Hv) addressesInRange).
  intros k. apply Ha.
Qed.

(** ** CIDR blocks nest *)

(** A prefix whose bounds are those of a block of [2 ^ h] addresses. *)
Definition is_block (width : nat) (p : Prefix) : Prop :=
  length (px_AddrStart p) = width /\ length (px_AddrEnd p) = width /\
  Forall byte (px_AddrStart p) /\ Forall byte (px_AddrEnd p) /\
  exists h a, 0 <= h /\ be_value (px_AddrStart p) = a * 2 ^ h /\
    be_value (px_AddrEnd p) = a * 2 ^ h + (2 ^ h - 1).

Lemma bytes_ltb_value a b :
  Forall byte a -> Forall byte b -> length a = length b ->
  bytes_ltb a b = (be_value a <? be_value b).
Proof.
  intros Ha Hb Hl. unfold bytes_ltb. rewrite bytes_compare_value by done.
  by destruct (Z.compare_spec (be_value a) (be_value b)), (Z.ltb_spec (be_value a) (be_value b)); try lia.
Qed.

(** Two blocks of one width: the smaller is inside the larger or apart from it. *)
Lemma blocks_apart h1 a1 h2 a2 :
  0 <= h1 <= h2 ->
  a2 * 2 ^ h2 <= a1 * 2 ^ h1 /\ a1 * 2 ^ h1 + (2 ^ h1 - 1) <= a2 * 2 ^ h2 + (2 ^ h2 - 1) \/
  a1 * 2 ^ h1 + (2 ^ h1 - 1) < a2 * 2 ^ h2 \/ a2 * 2 ^ h2 + (2 ^ h2 - 1) < a1 * 2 ^ h1.
Proof.
  intros Hh. assert (E : 2 ^ h2 = 2 ^ (h2 - h1) * 2 ^ h1) by (rewrite <- Z.pow_add_r by lia; f_equal; lia).
  rewrite E. set (m := 2 ^ (h2 - h1)). assert (0 < 2 ^ h1) by (apply Z.pow_pos_nonneg; lia).
  set (u := 2 ^ h1) in *.
  destruct (Z.lt_ge_cases a1 (a2 * m)); [right; left; nia|].
  destruct (Z.lt_ge_cases a1 (a2 * m + m)); [left; nia|right; right; nia].
Qed.

Lemma blocks_laminar width p q :
  is_block width p -> is_block width q ->
  (px_AddrStart p = px_AddrStart q -> px_AddrEnd p = px_AddrEnd q -> p = q) -> laminar p q.
Proof.
  intros (P1 & P2 & P3 & P4 & h1 & a1 & H1 & S1 & E1) (Q1 & Q2 & Q3 & Q4 & h2 & a2 & H2 & S2 & E2) Hd Hs.
  destruct (decide (px_AddrStart p = px_AddrStart q /\ px_AddrEnd p = px_AddrEnd q)) as [[Ds De]|Hne];
    [left; by apply Hd|].
  assert (Hs' : same_space q p) by (destruct Hs; split; congruence).
  rewrite !prefix_contains_iff. unfold bytes_le. rewrite !bytes_ltb_value by congruence || done.
  assert (Hneq : px_AddrStart p <> px_AddrStart q \/ px_AddrEnd p <> px_AddrEnd q).
  { destruct (decide (px_AddrStart p = px_AddrStart q)); [right|by left]. intros ?. by apply Hne. }
  assert (Hneq' : px_AddrStart q <> px_AddrStart p \/ px_AddrEnd q <> px_AddrEnd p) by naive_solver.
  rewrite S1, E1, S2, E2, !Z.ltb_ge, !Z.ltb_lt. right.
  destruct (Z.le_ge_cases h1 h2).
  - destruct (blocks_apart h1 a1 h2 a2) as [[? ?]|[?|?]]; [lia|..]; tauto.
  - destruct (blocks_apart h2 a2 h1 a1) as [[? ?]|[?|?]]; [lia|..]; tauto.
Qed.

(** What [SetCIDR] stores is a block. *)
Lemma SetCIDR_block p cidr p' np :
  SetCIDR p cidr = Some p' -> netip_ParsePrefix (TrimSpace cidr) = Some np ->
  Is4In6 (np_addr (Masked np)) = false ->
  is_block (length (addr_bytes (np_addr np))) p' /\
  px_AddrFamily p' = if addr_is4 (np_addr np) then 4 else 6.
Proof.
  intros H Hnp Hm. unfold SetCIDR in H. apply bind_Some in H as (pv & Hpv & [= <-]).
  pose proof Hpv as (q & Hq & _ & Hs & He & Hf & [_ Ha] & Hma & Hb)%ParsePrefix_inv.
  assert (q = np) as -> by congruence. unfold Unmap in Hs, Hf. rewrite Hm in Hs, Hf.
  destruct (mask_value _ (np_bits np) Ha ltac:(lia)) as (M1 & M2 & M3).
  cbn in Hs. rewrite <- Hs in M1, M2, M3.
  destruct (fill_bytes_ok (np_bits np) (pv_Start pv) M3) as [F2 F3].
  pose proof (fill_value (pv_Start pv) (np_bits np) M3 ltac:(lia)) as F1. cbv zeta in F1.
  rewrite <- He in F1, F2, F3. rewrite M2 in F1, F2.
  set (h := 8 * Z.of_nat (length (addr_bytes (np_addr np))) - np_bits np) in *.
  replace (Z.min _ h) with h in F1 by lia.
  assert (0 < 2 ^ h) by (apply Z.pow_pos_nonneg; lia). rewrite M1, Z.div_mul in F1 by lia.
  split; [|done]. cbn. split_and!; [done|done|done|done|].
  exists h, (be_value (addr_bytes (np_addr np)) / 2 ^ h). split_and!; [lia|done|done].
Qed.

(** ** Properties *)

(** The rows whose parent is a given prefix. *)
Definition children_of (t : list PrefixNode) (id : string) : list PrefixNode :=
  List.filter (fun y => bool_decide (pn_ParentID y = Some id)) t.

(** C37. The prefix tree is the containment order of the estate. Over prefixes
    with distinct ids whose ranges nest or do not meet, the rows are the
    prefixes, each after everything that contains it and with nothing foreign
    between it and what it contains; the depth is the number of its containers
    and the parent the narrowest of them; the children counted are the rows that
    name it as parent; the addresses are those in its range that no child
    claims, and what is allocated is its children's sizes and those addresses. *)
Theorem BuildPrefixTree_spec prefixes addressesInRange :
  valid_space prefixes -> (forall id, int64 (addressesInRange.[id|0])) ->
  let t := BuildPrefixTree prefixes addressesInRange in
  (pn_Prefix <$> t ≡ₚ prefixes) /\
  (forall i m j x y z, (i < m < j)%nat -> t !! i = Some x -> t !! m = Some y -> t !! j = Some z ->
     prefix_contains (pn_Prefix z) (pn_Prefix x) = false /\
     (prefix_contains (pn_Prefix x) (pn_Prefix z) = true -> prefix_contains (pn_Prefix x) (pn_Prefix y) = true)) /\
  forall x, x ∈ t ->
    let p := pn_Prefix x in
    let children := children_of t (px_ID p) in
    pn_Depth x = wrap64 (Z.of_nat (count_if (fun q => prefix_contains q p) prefixes)) /\
    (forall id, pn_ParentID x = Some id <->
       exists q, q ∈ prefixes /\ px_ID q = id /\ prefix_contains q p = true /\
         forall r, r ∈ prefixes -> prefix_contains r p = true -> r = q \/ prefix_contains r q = true) /\
    pn_Children x = wrap64 (Z.of_nat (length children)) /\
    pn_Addresses x = Z.max 0 (wrap64 (addressesInRange.[px_ID p|0] -
      sumZ ((fun y => addressesInRange.[px_ID (pn_Prefix y)|0]) <$> children))) /\
    pn_Allocated x = Some (sumZ ((fun y => default 0 (pn_Size y)) <$> children) + pn_Addresses x).
Proof.
  intros Hv Ha t. assert (Ht : t = BuildPrefixTree prefixes addressesInRange) by done.
  rewrite (build_table prefixes addressesInRange Hv Ha) in Ht. clearbody t. subst t.
  set (P := sorted_prefix prefixes). set (n := length prefixes).
  split_and!.
  - rewrite <- list_fmap_compose.
    change (pn_Prefix ∘ final_node P n addressesInRange) with P. unfold P, n.
    rewrite <- sorted_prefix_table. apply isort_perm.
  - intros i m j x y z Hij Hx Hy Hz.
    rewrite list_lookup_fmap in Hx, Hy, Hz.
    destruct (seq 0 n !! i) as [?|] eqn:Ei; [|done]. destruct (seq 0 n !! m) as [?|] eqn:Em; [|done].
    destruct (seq 0 n !! j) as [?|] eqn:Ej; [|done].
    apply lookup_seq in Ei as [-> Hi]. apply lookup_seq in Em as [-> Hm]. apply lookup_seq in Ej as [-> Hj].
    injection Hx as <-. injection Hy as <-. injection Hz as <-. cbn [pn_Prefix final_node finish_node node_at Nat.add].
    split.
    + destruct (prefix_contains (P j) (P i)) eqn:E; [|done].
      apply (C_before P n (whole_sorted prefixes)) in E; lia.
    + intros E. apply (C_between P n (whole_sorted prefixes) (whole_laminar prefixes Hv)
        (whole_bounds prefixes Hv) (whole_ids prefixes Hv) i m j); done || lia.
  - intros x (k & -> & Hk)%list_elem_of_fmap. apply list_elem_of_In, in_seq in Hk.
    assert (Hkn : (k < n)%nat) by lia. clear Hk.
    cbn [pn_Prefix final_node finish_node node_at]. unfold children_of.
    change (px_ID (P k)) with (px_ID (sorted_prefix prefixes k)).
    unfold P, n. rewrite (children_kids prefixes Hv addressesInRange k Hkn). fold P n.
    rewrite <- !list_fmap_compose.
    change ((fun y => addressesInRange.[px_ID (pn_Prefix y)|0]) ∘ final_node P n addressesInRange)
      with (in_range P addressesInRange).
    change ((fun y => default 0 (pn_Size y)) ∘ final_node P n addressesInRange) with (px_size P).
    cbn [pn_Depth pn_ParentID pn_Children pn_Addresses pn_Allocated final_node finish_node node_at].
    rewrite (proj2 (Nat.ltb_lt k n) Hkn), length_fmap. split_and!.
    + unfold P. by rewrite (containers_anc prefixes k Hkn).
    + intros id. apply (parent_narrowest prefixes Hv k id Hkn).
    + done.
    + unfold direct_at. destruct (Z.ltb_spec (wrap64 (in_range P addressesInRange k -
        sumZ (in_range P addressesInRange <$> kids P n k))) 0); unfold in_range in *; fold P; lia.
    + done.
Qed.

Lemma sample_valid : valid_space sample_prefixes.
Proof.
  split; [apply NoDup_ListNoDup; cbn; repeat (constructor; [cbn; intuition discriminate|]); constructor|].
  split.
  - intros p Hp. repeat (apply elem_of_cons in Hp as [->|Hp]; [reflexivity|]). by apply elem_of_nil in Hp.
  - intros p q Hp Hq. unfold laminar. intros _.
    repeat (apply elem_of_cons in Hp as [->|Hp]); [..|by apply elem_of_nil in Hp];
      (repeat (apply elem_of_cons in Hq as [->|Hq]); [..|by apply elem_of_nil in Hq]);
      first [by left|right; left; reflexivity|right; right; left; reflexivity
            |right; right; right; left; reflexivity|right; right; right; right; reflexivity].
Qed.

Lemma BuildPrefixTree_spec_witness :
  pn_Prefix <$> BuildPrefixTree sample_prefixes ∅ ≡ₚ sample_prefixes.
Proof.
  apply (BuildPrefixTree_spec sample_prefixes ∅).
  - exact sample_valid.
  - intros id. rewrite lookup_empty. cbn. unfold int64. lia.
Defined.
