(* ===== verification/EdgeRows.v ===== *)
(** Sockets, pools, routes and the edges that resolve through them: the rows of
    [internal/domain/endpoint.go], with their constructors and checks, and those of the
    dependency of [internal/domain/dependency.go]. *)
From Stdlib Require Import String Ascii ZArith Qcanon.
From stdpp Require Import base gmap strings list.
From S2P Require Import Prelude Status Dependency Graph Text Errors Timestamps Actors ChangeLog.

#[local] Open Scope string_scope.
#[local] Open Scope list_scope.

(** * Definitions *)

(** ** Vocabularies *)

Definition ProtoTCP := "tcp".
Definition ProtoUDP := "udp".
Definition ProtoSCTP := "sctp".
Definition ProtoUnix := "unix".
Definition L4Protos := [ProtoTCP; ProtoUDP; ProtoSCTP; ProtoUnix].
Definition BindScopes := [BindLoopback; BindHost; BindVIP; BindClusterIP; BindNodePort; BindIngress; BindUnix].
Definition TLSModes := ["none"; "tls"; "mtls"; "starttls"].
Definition Exposures := ["internal"; "environment"; "cross_env"; "external"].
Definition EndpointLifecycles := [LifecycleActive; LifecycleRetired].
Definition MatchTypes := ["sni"; "host_header"; "path_prefix"; "default"].
Definition TLSTerminations := ["passthrough"; "terminate"; "reencrypt"].
Definition DependencySources :=
  [SourceDeclared; "discovered_netstat"; "discovered_systemd"; "discovered_k8s"; "discovered_config"].

(** ** Rows *)

(** [domain.Endpoint]; the engine's own, smaller [Endpoint] is in [Graph]. *)
Record Socket := {
  so_ID : string; so_ServiceID : string; so_Name : string; so_L4Proto : string; so_Port : option Z;
  so_UnixPath : option string; so_BindScope : string; so_IPAddressID : option string; so_L7Proto : option string;
  so_TLSMode : string; so_CertificateID : option string; so_Exposure : string; so_Lifecycle : string;
  so_CreatedAt : option string; so_UpdatedAt : option string; so_RowVersion : Z
}.

Record BackendPool := {
  bp_ID : string; bp_ServiceID : string; bp_Name : string; bp_LBAlgorithm : option string; bp_Lifecycle : string;
  bp_RowVersion : Z; bp_CreatedAt : string; bp_UpdatedAt : string
}.

Record BackendMember := { bm_PoolID : string; bm_EndpointID : string; bm_Weight : Z; bm_IsBackup : bool }.

(** [domain.Route]; the engine's own is in [Graph]. *)
Record RoutingRule := {
  ro_ID : string; ro_FrontendEndpointID : string; ro_MatchType : string; ro_MatchValue : option string;
  ro_BackendPoolID : string; ro_TLSTermination : option string; ro_Priority : Z; ro_Lifecycle : string;
  ro_RowVersion : Z; ro_CreatedAt : string; ro_UpdatedAt : string
}.

Definition SocketRetired (e : Socket) : bool := String.eqb (so_Lifecycle e) LifecycleRetired.
Definition PoolRetired (p : BackendPool) : bool := String.eqb (bp_Lifecycle p) LifecycleRetired.
Definition RouteRetired (r : RoutingRule) : bool := String.eqb (ro_Lifecycle r) LifecycleRetired.

(** [domain.ServiceInstance], the placement of a service on a host. *)
Record ServiceInstance := {
  si_ID : string; si_ServiceID : string; si_HostAssetID : string; si_RuntimeType : string; si_Role : option string;
  si_Shard : option string; si_Ordinal : Z; si_DesiredState : string; si_Lifecycle : string; si_Source : string;
  si_CreatedAt : string; si_UpdatedAt : string; si_RowVersion : Z
}.

(** [ServiceInstance.RoleOrEmpty] and [ServiceInstance.ShardOrEmpty] *)
Definition RoleOrEmpty (si : ServiceInstance) : string := match si_Role si with Some r => r | None => "" end.
Definition ShardOrEmpty (si : ServiceInstance) : string := match si_Shard si with Some s => s | None => "" end.

(** ** Sockets *)

(** A text column that is there and not empty. *)
Definition recorded (s : option string) : bool := match s with Some v => negb (String.eqb v "") | None => false end.

(** The exclusive part of [Endpoint.Validate]: a path for a unix socket, a port for the
    rest. *)
Definition check_listening (ve : ValidationError) (e : Socket) : ValidationError :=
  if String.eqb (so_L4Proto e) ProtoUnix then
    let ve := if recorded (so_UnixPath e) then ve else Add ve "unix_path" "is required for a unix socket" in
    match so_Port e with Some _ => Add ve "port" "must be empty for a unix socket" | None => ve end
  else
    let ve := match so_Port e with
      | None => Add ve "port" ("is required for " +++ so_L4Proto e)
      | Some p => if ((p <? 1) || (65535 <? p))%Z then Add ve "port" "must be between 1 and 65535" else ve
      end in
    if recorded (so_UnixPath e) then Add ve "unix_path" ("must be empty for " +++ so_L4Proto e) else ve.

(** [Endpoint.Validate] *)
Definition ValidateSocket (e : Socket) : Socket * option ValidationError :=
  let '(ve, name) := checkRequired [] "name" (so_Name e) in
  let '(ve, _) := checkRequired ve "service_id" (so_ServiceID e) in
  let ve := checkEnum ve "l4_proto" (so_L4Proto e) L4Protos in
  let ve := checkEnum ve "bind_scope" (so_BindScope e) BindScopes in
  let ve := checkEnum ve "tls_mode" (so_TLSMode e) TLSModes in
  let ve := checkEnum ve "exposure" (so_Exposure e) Exposures in
  let lifecycle := if String.eqb (so_Lifecycle e) "" then LifecycleActive else so_Lifecycle e in
  let ve := checkEnum ve "lifecycle" lifecycle EndpointLifecycles in
  let ve := check_listening ve e in
  ({| so_ID := so_ID e; so_ServiceID := so_ServiceID e; so_Name := name; so_L4Proto := so_L4Proto e; so_Port := so_Port e;
      so_UnixPath := so_UnixPath e; so_BindScope := so_BindScope e; so_IPAddressID := so_IPAddressID e;
      so_L7Proto := so_L7Proto e; so_TLSMode := so_TLSMode e; so_CertificateID := so_CertificateID e;
      so_Exposure := so_Exposure e; so_Lifecycle := lifecycle; so_CreatedAt := so_CreatedAt e;
      so_UpdatedAt := so_UpdatedAt e; so_RowVersion := so_RowVersion e |}, OrNil ve).

(** [NewEndpoint] *)
Definition NewSocket (id serviceID name proto : string) (port : option Z) (bindScope : string) : ValidationError + Socket :=
  let '(e, err) := ValidateSocket
    {| so_ID := id; so_ServiceID := serviceID; so_Name := name; so_L4Proto := proto; so_Port := port; so_UnixPath := None;
       so_BindScope := bindScope; so_IPAddressID := None; so_L7Proto := None; so_TLSMode := "none";
       so_CertificateID := None; so_Exposure := "internal"; so_Lifecycle := LifecycleActive; so_CreatedAt := None;
       so_UpdatedAt := None; so_RowVersion := 0 |} in
  match err with Some ve => inl ve | None => inr e end.

(** [Endpoint.Addr] *)
Definition SocketAddr (e : Socket) : string :=
  match (if String.eqb (so_L4Proto e) ProtoUnix then so_UnixPath e else None) with
  | Some path => path
  | None => match so_Port e with None => so_L4Proto e | Some p => so_L4Proto e +++ "/" +++ Itoa p end
  end.

(** ** Pools and routes *)

(** The last check of two of the validators. *)
Definition check_edge_lifecycle `{Unicode} (ve : ValidationError) (lifecycle : string) : ValidationError :=
  if String.eqb lifecycle LifecycleActive || String.eqb lifecycle LifecycleRetired then ve
  else Add ve "lifecycle" (Quote lifecycle +++ " is not a lifecycle").

(** [BackendPool.Validate] *)
Definition ValidateBackendPool `{Unicode} (p : BackendPool) : BackendPool * option ValidationError :=
  let '(ve, _) := checkRequired [] "service_id" (bp_ServiceID p) in
  let '(ve, name) := checkRequired ve "name" (bp_Name p) in
  let ve := check_edge_lifecycle ve (bp_Lifecycle p) in
  ({| bp_ID := bp_ID p; bp_ServiceID := bp_ServiceID p; bp_Name := name; bp_LBAlgorithm := bp_LBAlgorithm p;
      bp_Lifecycle := bp_Lifecycle p; bp_RowVersion := bp_RowVersion p; bp_CreatedAt := bp_CreatedAt p;
      bp_UpdatedAt := bp_UpdatedAt p |}, OrNil ve).

(** [NewBackendPool] *)
Definition NewBackendPool `{Unicode} (id serviceID name : string) (lbAlgorithm : option string) : ValidationError + BackendPool :=
  let '(p, err) := ValidateBackendPool
    {| bp_ID := id; bp_ServiceID := serviceID; bp_Name := TrimSpace name; bp_LBAlgorithm := lbAlgorithm;
       bp_Lifecycle := LifecycleActive; bp_RowVersion := 0; bp_CreatedAt := ""; bp_UpdatedAt := "" |} in
  match err with Some ve => inl ve | None => inr p end.

(** [Route.Validate], which rewrites nothing. *)
Definition ValidateRoute `{Unicode} (r : RoutingRule) : option ValidationError :=
  let '(ve, _) := checkRequired [] "frontend_endpoint_id" (ro_FrontendEndpointID r) in
  let '(ve, _) := checkRequired ve "backend_pool_id" (ro_BackendPoolID r) in
  let ve := checkEnum ve "match_type" (ro_MatchType r) MatchTypes in
  let ve := checkOptionalEnum ve "tls_termination" (ro_TLSTermination r) TLSTerminations in
  OrNil (check_edge_lifecycle ve (ro_Lifecycle r)).

(** [NewRoute] *)
Definition NewRoute `{Unicode} (id frontendEndpointID matchType backendPoolID : string) : ValidationError + RoutingRule :=
  let r := {| ro_ID := id; ro_FrontendEndpointID := frontendEndpointID; ro_MatchType := matchType; ro_MatchValue := None;
              ro_BackendPoolID := backendPoolID; ro_TLSTermination := None; ro_Priority := 100; ro_Lifecycle := LifecycleActive;
              ro_RowVersion := 0; ro_CreatedAt := ""; ro_UpdatedAt := "" |} in
  match ValidateRoute r with Some ve => inl ve | None => inr r end.

(** ** Dependencies *)

(** The columns of an edge that the operations of the store set, the others as they
    are. *)
Definition set_edge (endpoint route : option string) (failureMode : string) (confidence : option Qc) (d : Dependency) : Dependency :=
  {| dep_ID := dep_ID d; dep_ConsumerServiceID := dep_ConsumerServiceID d; dep_ConsumerInstanceID := dep_ConsumerInstanceID d;
     dep_ProviderEndpointID := endpoint; dep_ProviderRouteID := route; dep_Nature := dep_Nature d;
     dep_ToleranceSeconds := dep_ToleranceSeconds d; dep_FailureMode := failureMode; dep_IdentityID := dep_IdentityID d;
     dep_AuthMethod := dep_AuthMethod d; dep_FirewallRuleRef := dep_FirewallRuleRef d; dep_Source := dep_Source d;
     dep_Confidence := confidence; dep_FirstSeen := dep_FirstSeen d; dep_LastSeen := dep_LastSeen d;
     dep_VerifiedBy := dep_VerifiedBy d; dep_VerifiedAt := dep_VerifiedAt d; dep_Lifecycle := dep_Lifecycle d;
     dep_CreatedAt := dep_CreatedAt d; dep_UpdatedAt := dep_UpdatedAt d; dep_RowVersion := dep_RowVersion d |}.

(** One side of the provider, with the empty text of a form as no side. *)
Definition side (id : option string) : option string := if recorded id then id else None.

Definition check_provider (ve : ValidationError) (endpoint route : option string) : ValidationError :=
  if recorded endpoint && recorded route then Add ve "provider" "set either a provider endpoint or a route, not both"
  else if negb (recorded endpoint) && negb (recorded route) then Add ve "provider" "a provider endpoint or route is required"
  else ve.

Definition check_tolerance (ve : ValidationError) (nature : string) (tolerance : option Z) : ValidationError :=
  if String.eqb nature NatureAsync then
    match tolerance with
    | None => Add ve "tolerance_seconds" "is required for an async dependency"
    | Some s => if (s <? 0)%Z then Add ve "tolerance_seconds" "must not be negative" else ve
    end
  else ve.

(** The confidence is the number its [float64] stands for, NaN left out. *)
Definition check_edge_confidence (ve : ValidationError) (confidence : option Qc) : ValidationError :=
  match confidence with
  | Some c => if bool_decide (c < 0)%Qc || bool_decide (1 < c)%Qc then Add ve "confidence" "must be between 0 and 1" else ve
  | None => ve
  end.

(** [Dependency.Validate] *)
Definition ValidateDependency (d : Dependency) : Dependency * option ValidationError :=
  let '(ve, _) := checkRequired [] "consumer_service_id" (dep_ConsumerServiceID d) in
  let ve := checkEnum ve "nature" (dep_Nature d) Natures in
  let ve := checkEnum ve "source" (dep_Source d) DependencySources in
  let '(ve, mode) := checkRequired ve "failure_mode" (dep_FailureMode d) in
  let ve := check_provider ve (dep_ProviderEndpointID d) (dep_ProviderRouteID d) in
  let ve := check_tolerance ve (dep_Nature d) (dep_ToleranceSeconds d) in
  let ve := check_edge_confidence ve (dep_Confidence d) in
  (set_edge (side (dep_ProviderEndpointID d)) (side (dep_ProviderRouteID d)) mode (dep_Confidence d) d, OrNil ve).

Record DependencySpec := {
  ds_ConsumerServiceID : string; ds_ConsumerInstanceID : option string; ds_ProviderEndpointID : option string;
  ds_ProviderRouteID : option string; ds_Nature : string; ds_ToleranceSeconds : option Z; ds_FailureMode : string;
  ds_IdentityID : option string; ds_AuthMethod : option string; ds_FirewallRuleRef : option string; ds_Source : string
}.

(** [NewDependency] *)
Definition NewDependency (id : string) (spec : DependencySpec) (now : Time) : ValidationError + Dependency :=
  let source := if String.eqb (ds_Source spec) "" then SourceDeclared else ds_Source spec in
  let '(d, err) := ValidateDependency
    {| dep_ID := id; dep_ConsumerServiceID := ds_ConsumerServiceID spec; dep_ConsumerInstanceID := ds_ConsumerInstanceID spec;
       dep_ProviderEndpointID := ds_ProviderEndpointID spec; dep_ProviderRouteID := ds_ProviderRouteID spec;
       dep_Nature := ds_Nature spec; dep_ToleranceSeconds := ds_ToleranceSeconds spec; dep_FailureMode := ds_FailureMode spec;
       dep_IdentityID := ds_IdentityID spec; dep_AuthMethod := ds_AuthMethod spec;
       dep_FirewallRuleRef := ds_FirewallRuleRef spec; dep_Source := source; dep_Confidence := None; dep_FirstSeen := None;
       dep_LastSeen := None; dep_VerifiedBy := None; dep_VerifiedAt := None; dep_Lifecycle := LifecycleActive;
       dep_CreatedAt := FormatTime now; dep_UpdatedAt := FormatTime now; dep_RowVersion := 0 |} in
  match err with Some ve => inl ve | None => inr d end.

(** [AgentConfidence], the half. *)
Definition AgentConfidence : Qc := Q2Qc (QArith_base.Qmake 1 2).

(** [ConfidenceFor] *)
Definition ConfidenceFor (actor : Actor) (requested : option Qc) : option Qc :=
  if negb (String.eqb (ac_Kind actor) ActorKindAgent) then requested else Some AgentConfidence.

(** ** Rows as the audit reads them *)

Definition number_or_null (q : option Qc) : Value := match q with Some q => VNum q | None => VNull end.

Definition socket_struct (e : Socket) : Struct :=
  MkStruct "Endpoint"
    [Column "id" (VText (so_ID e)); Column "service_id" (VText (so_ServiceID e)); Column "name" (VText (so_Name e));
     Column "l4_proto" (VText (so_L4Proto e)); Column "port" (int_or_null (so_Port e));
     Column "unix_path" (text_or_null (so_UnixPath e)); Column "bind_scope" (VText (so_BindScope e));
     Column "ip_address_id" (text_or_null (so_IPAddressID e)); Column "l7_proto" (text_or_null (so_L7Proto e));
     Column "tls_mode" (VText (so_TLSMode e)); Column "certificate_id" (text_or_null (so_CertificateID e));
     Column "exposure" (VText (so_Exposure e)); Column "lifecycle" (VText (so_Lifecycle e));
     Column "created_at" (text_or_null (so_CreatedAt e)); Column "updated_at" (text_or_null (so_UpdatedAt e));
     Column "row_version" (VInt (so_RowVersion e))].

Definition backend_pool_struct (p : BackendPool) : Struct :=
  MkStruct "BackendPool"
    [Column "id" (VText (bp_ID p)); Column "service_id" (VText (bp_ServiceID p)); Column "name" (VText (bp_Name p));
     Column "lb_algorithm" (text_or_null (bp_LBAlgorithm p)); Column "lifecycle" (VText (bp_Lifecycle p));
     Column "row_version" (VInt (bp_RowVersion p)); Column "created_at" (VText (bp_CreatedAt p));
     Column "updated_at" (VText (bp_UpdatedAt p))].

Definition backend_member_struct (m : BackendMember) : Struct :=
  MkStruct "BackendMember"
    [Column "pool_id" (VText (bm_PoolID m)); Column "endpoint_id" (VText (bm_EndpointID m));
     Column "weight" (VInt (bm_Weight m)); Column "is_backup" (VBool (bm_IsBackup m))].

Definition route_struct (r : RoutingRule) : Struct :=
  MkStruct "Route"
    [Column "id" (VText (ro_ID r)); Column "frontend_endpoint_id" (VText (ro_FrontendEndpointID r));
     Column "match_type" (VText (ro_MatchType r)); Column "match_value" (text_or_null (ro_MatchValue r));
     Column "backend_pool_id" (VText (ro_BackendPoolID r)); Column "tls_termination" (text_or_null (ro_TLSTermination r));
     Column "priority" (VInt (ro_Priority r)); Column "lifecycle" (VText (ro_Lifecycle r));
     Column "row_version" (VInt (ro_RowVersion r)); Column "created_at" (VText (ro_CreatedAt r));
     Column "updated_at" (VText (ro_UpdatedAt r))].

Definition dependency_struct (d : Dependency) : Struct :=
  MkStruct "Dependency"
    [Column "id" (VText (dep_ID d)); Column "consumer_service_id" (VText (dep_ConsumerServiceID d));
     Column "consumer_instance_id" (text_or_null (dep_ConsumerInstanceID d));
     Column "provider_endpoint_id" (text_or_null (dep_ProviderEndpointID d));
     Column "provider_route_id" (text_or_null (dep_ProviderRouteID d)); Column "nature" (VText (dep_Nature d));
     Column "tolerance_seconds" (int_or_null (dep_ToleranceSeconds d)); Column "failure_mode" (VText (dep_FailureMode d));
     Column "identity_id" (text_or_null (dep_IdentityID d)); Column "auth_method" (text_or_null (dep_AuthMethod d));
     Column "firewall_rule_ref" (text_or_null (dep_FirewallRuleRef d)); Column "source" (VText (dep_Source d));
     Column "confidence" (number_or_null (dep_Confidence d)); Column "first_seen" (text_or_null (dep_FirstSeen d));
     Column "last_seen" (text_or_null (dep_LastSeen d)); Column "verified_by" (text_or_null (dep_VerifiedBy d));
     Column "verified_at" (text_or_null (dep_VerifiedAt d)); Column "lifecycle" (VText (dep_Lifecycle d));
     Column "created_at" (VText (dep_CreatedAt d)); Column "updated_at" (VText (dep_UpdatedAt d));
     Column "row_version" (VInt (dep_RowVersion d))].

(** [auditedDependency] ([internal/store/deps.go]) *)
Definition auditedDependency (d : Dependency) (classes : list string) : Struct :=
  MkStruct "dependencyAudit"
    [Embedded (dependency_struct d); Column "data_classes" (VText (String.concat "," (isort str_ltb classes)))].

(** * Lemmas *)

Lemma check_edge_lifecycle_nil `{Unicode} ve l : check_edge_lifecycle ve l = [] -> ve = [] /\ l ∈ EndpointLifecycles.
Proof.
  unfold check_edge_lifecycle. destruct (_ || _) eqn:E; [|by intros ?%Add_not_nil]. intros ->. split; [done|].
  apply orb_true_iff in E as [->%String.eqb_eq| ->%String.eqb_eq]; unfold EndpointLifecycles; set_solver.
Qed.
