(* ===== verification/Edges.v ===== *)
(** The writes of the dependency graph: [internal/store/deps.go].

    Sockets, pools and their members, routes, and the edges between services, each with
    the classes of data it carries. [seen] is the tables as the reads before a
    transaction saw them. A write of an edge runs under a permit made for that edge
    alone, once the caller's own has been shown to cover the services at both ends. *)
From Stdlib Require Import String Ascii ZArith Qcanon Lia.
From stdpp Require Import base gmap strings list.
From S2P Require Import Prelude Status Dependency Graph Text Errors Timestamps Actors Permits ChangeLog Containment AssetWrites Cabling Invariants Fixtures EdgeRows.

#[local] Open Scope string_scope.
#[local] Open Scope list_scope.

(** * Definitions *)

(** ** The tables *)

(** What other parts of the store keep is here as what these writes read of it: the rows
    of services and placements, the keys of addresses and identities, the codes of the
    data classes in their order. *)
Record EdgeTables := {
  et_services : gmap string Service;
  et_instances : gmap string ServiceInstance;
  et_addresses : gset string;
  et_identities : gset string;
  et_data_classes : list string;
  et_endpoints : gmap string Socket;
  et_pools : gmap string BackendPool;
  et_members : gmap (string * string) BackendMember;
  et_routes : gmap string RoutingRule;
  et_dependencies : gmap string Dependency;
  et_carried : list (string * string)
}.

Definition with_endpoints (e : gmap string Socket) (t : EdgeTables) : EdgeTables :=
  {| et_services := et_services t; et_instances := et_instances t; et_addresses := et_addresses t;
     et_identities := et_identities t; et_data_classes := et_data_classes t; et_endpoints := e; et_pools := et_pools t;
     et_members := et_members t; et_routes := et_routes t; et_dependencies := et_dependencies t; et_carried := et_carried t |}.
Definition with_pools (p : gmap string BackendPool) (t : EdgeTables) : EdgeTables :=
  {| et_services := et_services t; et_instances := et_instances t; et_addresses := et_addresses t;
     et_identities := et_identities t; et_data_classes := et_data_classes t; et_endpoints := et_endpoints t; et_pools := p;
     et_members := et_members t; et_routes := et_routes t; et_dependencies := et_dependencies t; et_carried := et_carried t |}.
Definition with_pool_members (m : gmap (string * string) BackendMember) (t : EdgeTables) : EdgeTables :=
  {| et_services := et_services t; et_instances := et_instances t; et_addresses := et_addresses t;
     et_identities := et_identities t; et_data_classes := et_data_classes t; et_endpoints := et_endpoints t; et_pools := et_pools t;
     et_members := m; et_routes := et_routes t; et_dependencies := et_dependencies t; et_carried := et_carried t |}.
Definition with_routes (r : gmap string RoutingRule) (t : EdgeTables) : EdgeTables :=
  {| et_services := et_services t; et_instances := et_instances t; et_addresses := et_addresses t;
     et_identities := et_identities t; et_data_classes := et_data_classes t; et_endpoints := et_endpoints t; et_pools := et_pools t;
     et_members := et_members t; et_routes := r; et_dependencies := et_dependencies t; et_carried := et_carried t |}.
Definition with_dependencies (d : gmap string Dependency) (t : EdgeTables) : EdgeTables :=
  {| et_services := et_services t; et_instances := et_instances t; et_addresses := et_addresses t;
     et_identities := et_identities t; et_data_classes := et_data_classes t; et_endpoints := et_endpoints t; et_pools := et_pools t;
     et_members := et_members t; et_routes := et_routes t; et_dependencies := d; et_carried := et_carried t |}.
Definition with_carried (c : list (string * string)) (t : EdgeTables) : EdgeTables :=
  {| et_services := et_services t; et_instances := et_instances t; et_addresses := et_addresses t;
     et_identities := et_identities t; et_data_classes := et_data_classes t; et_endpoints := et_endpoints t; et_pools := et_pools t;
     et_members := et_members t; et_routes := et_routes t; et_dependencies := et_dependencies t; et_carried := c |}.

(** ** Statements, with the constraints of their tables *)

(** A row that an [UPDATE ... WHERE id = ? AND row_version = ?] finds, and
    [requireVersion] when it finds none. *)
Definition at_version {V} (m : gmap string V) (version : V -> Z) (id : string) (v : Z) (k : V -> StoreError + EdgeTables)
    : StoreError + EdgeTables :=
  match m !! id with
  | Some row => if (version row =? v)%Z then k row else refused ErrStale
  | None => refused ErrStale
  end.

(** A row put under a key: the checks of its columns, the unique index, the references. *)
Definition put_edge_row (row_checks : bool) (taken : bool) (references : bool) (t' : EdgeTables) : StoreError + EdgeTables :=
  if negb row_checks then refused ErrInvalid
  else if taken then refused ErrConflict
  else if negb references then refused ErrInvalid
  else inr t'.

Definition socket_checks (e : Socket) : bool :=
  containsString L4Protos (so_L4Proto e) && containsString BindScopes (so_BindScope e) &&
  containsString TLSModes (so_TLSMode e) && containsString Exposures (so_Exposure e) &&
  containsString EndpointLifecycles (so_Lifecycle e) &&
  (if String.eqb (so_L4Proto e) ProtoUnix
   then bool_decide (is_Some (so_UnixPath e)) && bool_decide (so_Port e = None)
   else bool_decide (is_Some (so_Port e)) && bool_decide (so_UnixPath e = None)).

(** [UNIQUE (service_id, name)], withdrawn sockets included. *)
Definition socket_taken (t : EdgeTables) (e : Socket) : bool :=
  existsb (fun x => String.eqb (so_ServiceID x) (so_ServiceID e) && String.eqb (so_Name x) (so_Name e) &&
                    negb (String.eqb (so_ID x) (so_ID e))) (rows (et_endpoints t)).

Definition put_socket (e : Socket) (t : EdgeTables) : StoreError + EdgeTables :=
  put_edge_row (socket_checks e) (socket_taken t e)
    (known (et_services t) (so_ServiceID e) && names_a (fun a => bool_decide (a ∈ et_addresses t)) (so_IPAddressID e))
    (with_endpoints (<[so_ID e := e]> (et_endpoints t)) t).

Definition insert_socket (e : Socket) (t : EdgeTables) : StoreError + EdgeTables :=
  if known (et_endpoints t) (so_ID e) then refused ErrConflict else put_socket e t.

Definition update_socket (e : Socket) (at_ : string) (t : EdgeTables) : StoreError + EdgeTables :=
  at_version (et_endpoints t) so_RowVersion (so_ID e) (so_RowVersion e) (fun row =>
    put_socket {| so_ID := so_ID row; so_ServiceID := so_ServiceID row; so_Name := so_Name e; so_L4Proto := so_L4Proto e;
      so_Port := so_Port e; so_UnixPath := so_UnixPath e; so_BindScope := so_BindScope e; so_IPAddressID := so_IPAddressID e;
      so_L7Proto := so_L7Proto e; so_TLSMode := so_TLSMode e; so_CertificateID := so_CertificateID e;
      so_Exposure := so_Exposure e; so_Lifecycle := so_Lifecycle e; so_CreatedAt := so_CreatedAt row;
      so_UpdatedAt := Some at_; so_RowVersion := so_RowVersion row + 1 |} t).

Definition retired_socket (at_ : string) (row : Socket) : Socket :=
  {| so_ID := so_ID row; so_ServiceID := so_ServiceID row; so_Name := so_Name row; so_L4Proto := so_L4Proto row;
     so_Port := so_Port row; so_UnixPath := so_UnixPath row; so_BindScope := so_BindScope row;
     so_IPAddressID := so_IPAddressID row; so_L7Proto := so_L7Proto row; so_TLSMode := so_TLSMode row;
     so_CertificateID := so_CertificateID row; so_Exposure := so_Exposure row; so_Lifecycle := LifecycleRetired;
     so_CreatedAt := so_CreatedAt row; so_UpdatedAt := Some at_; so_RowVersion := so_RowVersion row + 1 |}.
Definition retire_socket (id at_ : string) (version : Z) (t : EdgeTables) : StoreError + EdgeTables :=
  at_version (et_endpoints t) so_RowVersion id version (fun row =>
    inr (with_endpoints (<[id := retired_socket at_ row]> (et_endpoints t)) t)).

(** [idx_backend_pool_name_active] *)
Definition pool_taken (t : EdgeTables) (p : BackendPool) : bool :=
  is_live (bp_Lifecycle p) &&
  existsb (fun x => String.eqb (bp_ServiceID x) (bp_ServiceID p) && String.eqb (bp_Name x) (bp_Name p) &&
                    is_live (bp_Lifecycle x) && negb (String.eqb (bp_ID x) (bp_ID p))) (rows (et_pools t)).

Definition put_pool (p : BackendPool) (t : EdgeTables) : StoreError + EdgeTables :=
  put_edge_row (containsString EndpointLifecycles (bp_Lifecycle p)) (pool_taken t p)
    (known (et_services t) (bp_ServiceID p)) (with_pools (<[bp_ID p := p]> (et_pools t)) t).

Definition insert_pool (p : BackendPool) (t : EdgeTables) : StoreError + EdgeTables :=
  if known (et_pools t) (bp_ID p) then refused ErrConflict else put_pool p t.

Definition update_pool (p : BackendPool) (at_ : string) (t : EdgeTables) : StoreError + EdgeTables :=
  at_version (et_pools t) bp_RowVersion (bp_ID p) (bp_RowVersion p) (fun row =>
    put_pool {| bp_ID := bp_ID row; bp_ServiceID := bp_ServiceID row; bp_Name := bp_Name p; bp_LBAlgorithm := bp_LBAlgorithm p;
      bp_Lifecycle := bp_Lifecycle row; bp_RowVersion := bp_RowVersion row + 1; bp_CreatedAt := bp_CreatedAt row;
      bp_UpdatedAt := at_ |} t).

Definition pool_as (lifecycle at_ : string) (version : Z) (row : BackendPool) : BackendPool :=
  {| bp_ID := bp_ID row; bp_ServiceID := bp_ServiceID row; bp_Name := bp_Name row; bp_LBAlgorithm := bp_LBAlgorithm row;
     bp_Lifecycle := lifecycle; bp_RowVersion := version; bp_CreatedAt := bp_CreatedAt row; bp_UpdatedAt := at_ |}.
Definition retire_pool (id at_ : string) (version : Z) (t : EdgeTables) : StoreError + EdgeTables :=
  at_version (et_pools t) bp_RowVersion id version (fun row =>
    inr (with_pools (<[id := pool_as LifecycleRetired at_ (bp_RowVersion row + 1) row]> (et_pools t)) t)).

Definition insert_pool_member (m : BackendMember) (t : EdgeTables) : StoreError + EdgeTables :=
  put_edge_row true (bool_decide (is_Some (et_members t !! (bm_PoolID m, bm_EndpointID m))))
    (known (et_pools t) (bm_PoolID m) && known (et_endpoints t) (bm_EndpointID m))
    (with_pool_members (<[(bm_PoolID m, bm_EndpointID m) := m]> (et_members t)) t).

Definition route_checks (r : RoutingRule) : bool :=
  containsString MatchTypes (ro_MatchType r) && names_a (containsString TLSTerminations) (ro_TLSTermination r) &&
  containsString EndpointLifecycles (ro_Lifecycle r).

Definition put_route (r : RoutingRule) (t : EdgeTables) : StoreError + EdgeTables :=
  put_edge_row (route_checks r) false
    (known (et_endpoints t) (ro_FrontendEndpointID r) && known (et_pools t) (ro_BackendPoolID r))
    (with_routes (<[ro_ID r := r]> (et_routes t)) t).

Definition insert_route (r : RoutingRule) (t : EdgeTables) : StoreError + EdgeTables :=
  if known (et_routes t) (ro_ID r) then refused ErrConflict else put_route r t.

Definition update_route (r : RoutingRule) (at_ : string) (t : EdgeTables) : StoreError + EdgeTables :=
  at_version (et_routes t) ro_RowVersion (ro_ID r) (ro_RowVersion r) (fun row =>
    put_route {| ro_ID := ro_ID row; ro_FrontendEndpointID := ro_FrontendEndpointID row; ro_MatchType := ro_MatchType r;
      ro_MatchValue := ro_MatchValue r; ro_BackendPoolID := ro_BackendPoolID row; ro_TLSTermination := ro_TLSTermination r;
      ro_Priority := ro_Priority r; ro_Lifecycle := ro_Lifecycle row; ro_RowVersion := ro_RowVersion row + 1;
      ro_CreatedAt := ro_CreatedAt row; ro_UpdatedAt := at_ |} t).

Definition route_as (lifecycle at_ : string) (version : Z) (row : RoutingRule) : RoutingRule :=
  {| ro_ID := ro_ID row; ro_FrontendEndpointID := ro_FrontendEndpointID row; ro_MatchType := ro_MatchType row;
     ro_MatchValue := ro_MatchValue row; ro_BackendPoolID := ro_BackendPoolID row; ro_TLSTermination := ro_TLSTermination row;
     ro_Priority := ro_Priority row; ro_Lifecycle := lifecycle; ro_RowVersion := version;
     ro_CreatedAt := ro_CreatedAt row; ro_UpdatedAt := at_ |}.
Definition retire_route (id at_ : string) (version : Z) (t : EdgeTables) : StoreError + EdgeTables :=
  at_version (et_routes t) ro_RowVersion id version (fun row =>
    inr (with_routes (<[id := route_as LifecycleRetired at_ (ro_RowVersion row + 1) row]> (et_routes t)) t)).

(** The checks of the table, the one of the exclusive provider with them. *)
Definition dependency_checks (d : Dependency) : bool :=
  containsString Natures (dep_Nature d) && containsString DependencySources (dep_Source d) &&
  containsString EndpointLifecycles (dep_Lifecycle d) &&
  xorb (bool_decide (is_Some (dep_ProviderEndpointID d))) (bool_decide (is_Some (dep_ProviderRouteID d))).

Definition dependency_references (t : EdgeTables) (d : Dependency) : bool :=
  known (et_services t) (dep_ConsumerServiceID d) && names_a (known (et_instances t)) (dep_ConsumerInstanceID d) &&
  names_a (known (et_endpoints t)) (dep_ProviderEndpointID d) && names_a (known (et_routes t)) (dep_ProviderRouteID d) &&
  names_a (fun i => bool_decide (i ∈ et_identities t)) (dep_IdentityID d).

Definition put_dependency (d : Dependency) (t : EdgeTables) : StoreError + EdgeTables :=
  put_edge_row (dependency_checks d) false (dependency_references t d)
    (with_dependencies (<[dep_ID d := d]> (et_dependencies t)) t).

(** The columns of a stored edge that an update sets, from [d]; the rest, [row_version]
    apart, as they are. *)
Definition corrected (d row : Dependency) : Dependency :=
  {| dep_ID := dep_ID row; dep_ConsumerServiceID := dep_ConsumerServiceID row; dep_ConsumerInstanceID := dep_ConsumerInstanceID d;
     dep_ProviderEndpointID := dep_ProviderEndpointID d; dep_ProviderRouteID := dep_ProviderRouteID d; dep_Nature := dep_Nature d;
     dep_ToleranceSeconds := dep_ToleranceSeconds d; dep_FailureMode := dep_FailureMode d; dep_IdentityID := dep_IdentityID d;
     dep_AuthMethod := dep_AuthMethod d; dep_FirewallRuleRef := dep_FirewallRuleRef d; dep_Source := dep_Source d;
     dep_Confidence := dep_Confidence d; dep_FirstSeen := dep_FirstSeen row; dep_LastSeen := dep_LastSeen row;
     dep_VerifiedBy := dep_VerifiedBy d; dep_VerifiedAt := dep_VerifiedAt d; dep_Lifecycle := dep_Lifecycle d;
     dep_CreatedAt := dep_CreatedAt row; dep_UpdatedAt := dep_UpdatedAt d; dep_RowVersion := dep_RowVersion row + 1 |}.

(** An edge with its last columns set. *)
Definition stamped_edge (verifiedBy verifiedAt : option string) (lifecycle updatedAt : string) (version : Z) (d : Dependency)
    : Dependency :=
  {| dep_ID := dep_ID d; dep_ConsumerServiceID := dep_ConsumerServiceID d; dep_ConsumerInstanceID := dep_ConsumerInstanceID d;
     dep_ProviderEndpointID := dep_ProviderEndpointID d; dep_ProviderRouteID := dep_ProviderRouteID d; dep_Nature := dep_Nature d;
     dep_ToleranceSeconds := dep_ToleranceSeconds d; dep_FailureMode := dep_FailureMode d; dep_IdentityID := dep_IdentityID d;
     dep_AuthMethod := dep_AuthMethod d; dep_FirewallRuleRef := dep_FirewallRuleRef d; dep_Source := dep_Source d;
     dep_Confidence := dep_Confidence d; dep_FirstSeen := dep_FirstSeen d; dep_LastSeen := dep_LastSeen d;
     dep_VerifiedBy := verifiedBy; dep_VerifiedAt := verifiedAt; dep_Lifecycle := lifecycle; dep_CreatedAt := dep_CreatedAt d;
     dep_UpdatedAt := updatedAt; dep_RowVersion := version |}.

Definition insert_dependency (d : Dependency) (t : EdgeTables) : StoreError + EdgeTables :=
  if known (et_dependencies t) (dep_ID d) then refused ErrConflict else put_dependency d t.

Definition update_dependency (d : Dependency) (t : EdgeTables) : StoreError + EdgeTables :=
  at_version (et_dependencies t) dep_RowVersion (dep_ID d) (dep_RowVersion d) (fun row => put_dependency (corrected d row) t).

Definition retire_dependency (id at_ : string) (t : EdgeTables) : StoreError + EdgeTables :=
  inr (with_dependencies (alter (fun d =>
    stamped_edge (dep_VerifiedBy d) (dep_VerifiedAt d) LifecycleRetired at_ (dep_RowVersion d + 1) d) id (et_dependencies t)) t).

Definition verify_dependency (id verifiedBy at_ : string) (t : EdgeTables) : StoreError + EdgeTables :=
  inr (with_dependencies (alter (fun d =>
    stamped_edge (Some verifiedBy) (Some at_) (dep_Lifecycle d) at_ (dep_RowVersion d + 1) d) id (et_dependencies t)) t).

Definition insert_class (id class : string) (t : EdgeTables) : StoreError + EdgeTables :=
  put_edge_row true (bool_decide ((id, class) ∈ et_carried t))
    (known (et_dependencies t) id && containsString (et_data_classes t) class)
    (with_carried (et_carried t ++ [(id, class)]) t).

(** ** Reads *)

(** [GetEndpoint] and [GetDependency]: their joins drop a row whose service is not there. *)
Definition GetEndpoint (t : EdgeTables) (id : string) : option Socket :=
  e ← et_endpoints t !! id; if known (et_services t) (so_ServiceID e) then Some e else None.
Definition GetDependency (t : EdgeTables) (id : string) : option Dependency :=
  d ← et_dependencies t !! id; if known (et_services t) (dep_ConsumerServiceID d) then Some d else None.

(** [DataClassesFor] of one edge. *)
Definition DataClassesFor (t : EdgeTables) (id : string) : list string :=
  omap (fun '(d, c) => if String.eqb d id then Some c else None) (et_carried t).

(** [resolveProviderService] *)
Definition resolveProviderService (t : EdgeTables) (endpointID routeID : option string) : StoreError + string :=
  match endpointID, routeID with
  | Some e, _ => match et_endpoints t !! e with Some row => inr (so_ServiceID row) | None => inl (Wrapped ErrNotFound) end
  | None, Some r =>
      match et_routes t !! r ≫= fun r => et_endpoints t !! ro_FrontendEndpointID r with
      | Some row => inr (so_ServiceID row)
      | None => inl (Wrapped ErrNotFound)
      end
  | None, None => inl (Wrapped ErrForbidden)
  end.

(** [authorizeDependencySubjects]: the permit the write runs under. *)
Definition authorizeDependencySubjects (t : EdgeTables) (p : Permit) (consumerServiceID : string)
    (providerEndpointID providerRouteID : option string) (dependencyID : string) : StoreError + Permit :=
  match resolveProviderService t providerEndpointID providerRouteID with
  | inl e => inl e
  | inr providerServiceID =>
      if negb (Covers p "service" consumerServiceID) then inl (Wrapped ErrForbidden)
      else if negb (Covers p "service" providerServiceID) then inl (Wrapped ErrForbidden)
      else inr (narrow p "dependency" [dependencyID])
  end.

(** ** Checks inside the transaction *)

(** [derefString] *)
Definition derefString (s : option string) : string := default "" s.

(** The socket a route fronts. *)
Definition frontend (t : EdgeTables) (routeID : string) : option string := ro_FrontendEndpointID <$> et_routes t !! routeID.

(** The count of [requireLiveProvider]. *)
Definition live_providers (endpointID routeID : option string) (t : EdgeTables) : nat :=
  count_if (fun e => is_live (so_Lifecycle e) &&
      (String.eqb (so_ID e) (derefString endpointID) || bool_decide (frontend t (derefString routeID) = Some (so_ID e))))
    (rows (et_endpoints t)).

(** [requireLiveProvider] *)
Definition requireLiveProvider (endpointID routeID : option string) : Tx EdgeTables unit :=
  live ← query (live_providers endpointID routeID);
  if (live =? 0)%nat then fail (Wrapped ErrConflict) else mret tt.

(** The live edges that resolve through a socket, and the pools it is in. *)
Definition edges_through (id : string) (t : EdgeTables) : nat :=
  count_if (fun d => is_live (dep_Lifecycle d) &&
      (bool_decide (dep_ProviderEndpointID d = Some id) || bool_decide (dep_ProviderRouteID d ≫= frontend t = Some id)))
    (rows (et_dependencies t)).
Definition pools_of (id : string) (t : EdgeTables) : nat :=
  count_if (fun m => String.eqb (bm_EndpointID m) id) (rows (et_members t)).
Definition routes_to (id : string) (t : EdgeTables) : nat :=
  count_if (fun r => String.eqb (ro_BackendPoolID r) id && negb (String.eqb (ro_Lifecycle r) LifecycleRetired)) (rows (et_routes t)).
Definition edges_on_route (id : string) (t : EdgeTables) : nat :=
  count_if (fun d => bool_decide (dep_ProviderRouteID d = Some id) && is_live (dep_Lifecycle d)) (rows (et_dependencies t)).

(** A refusal while anything is counted. *)
Definition while_none (count : EdgeTables -> nat) : Tx EdgeTables unit :=
  n ← query count; if (0 <? n)%nat then fail (Wrapped ErrConflict) else mret tt.

Definition clear_classes (id : string) (t : EdgeTables) : StoreError + EdgeTables :=
  inr (with_carried (List.filter (fun '(d, _) => negb (String.eqb d id)) (et_carried t)) t).

(** [setDataClasses]; [None] is a nil slice. *)
Definition setDataClasses (id : string) (classes : option (list string)) : Tx EdgeTables unit :=
  match classes with
  | None => mret tt
  | Some classes =>
      _ ← statement (clear_classes id);
      each (fun c => if String.eqb c "" then mret tt
                     else _ ← requireVocabulary et_data_classes "data_class" c; statement (insert_class id c)) classes
  end.

(** ** Operations *)

Section Operations.
Context `{Unicode} (NewID : nat -> string).

Definition EdgeAnswer := ((StoreError + unit) * Store EdgeTables)%type.

Definition socket_stamped (created updated : option string) (version : Z) (e : Socket) : Socket :=
  {| so_ID := so_ID e; so_ServiceID := so_ServiceID e; so_Name := so_Name e; so_L4Proto := so_L4Proto e; so_Port := so_Port e;
     so_UnixPath := so_UnixPath e; so_BindScope := so_BindScope e; so_IPAddressID := so_IPAddressID e;
     so_L7Proto := so_L7Proto e; so_TLSMode := so_TLSMode e; so_CertificateID := so_CertificateID e;
     so_Exposure := so_Exposure e; so_Lifecycle := so_Lifecycle e; so_CreatedAt := created; so_UpdatedAt := updated;
     so_RowVersion := version |}.

(** [CreateEndpoint] *)
Definition CreateEndpoint (fate : Fate) (p : Permit) (now : Time) (e : Socket) (st : Store EdgeTables) : EdgeAnswer :=
  match ValidateSocket e with
  | (_, Some ve) => (inl (Invalid ve), st)
  | (e, None) =>
      let e := socket_stamped (Some (FormatTime now)) (Some (FormatTime now)) 1 e in
      write fate (Some p) now (
        _ ← statement (insert_socket e);
        logCreate NewID "endpoint" (so_ID e) (socket_struct e)) st
  end.

(** [UpdateEndpoint] *)
Definition UpdateEndpoint (seen : EdgeTables) (fate : Fate) (p : Permit) (now : Time) (e : Socket) (st : Store EdgeTables)
    : EdgeAnswer :=
  match ValidateSocket e with
  | (_, Some ve) => (inl (Invalid ve), st)
  | (e, None) =>
      match GetEndpoint seen (so_ID e) with
      | None => (inl (Wrapped ErrNotFound), st)
      | Some before =>
          match et_services seen !! so_ServiceID before with
          | None => (inl (Wrapped ErrNotFound), st)
          | Some svc =>
              if String.eqb (svc_Lifecycle svc) LifecycleRetired then (inl (Wrapped ErrConflict), st)
              else if SocketRetired before then (inl (Wrapped ErrConflict), st)
              else
                let at_ := FormatTime now in
                write fate (Some p) now (
                  _ ← statement (update_socket e at_);
                  logUpdate NewID "endpoint" (so_ID e) (socket_struct before) 
                    (socket_struct (socket_stamped (so_CreatedAt e) (Some at_) (so_RowVersion e) e))) st
          end
      end
  end.

(** [RetireEndpoint] *)
Definition RetireEndpoint (seen : EdgeTables) (fates : nat -> Fate) (p : Permit) (now : Time) (id : string)
    (st : Store EdgeTables) : EdgeAnswer :=
  match GetEndpoint seen id with
  | None => (inl (Wrapped ErrNotFound), st)
  | Some before =>
      if SocketRetired before then (inr tt, st)
      else writeSerializable fates (Some p) now (
        _ ← while_none (edges_through id);
        _ ← while_none (pools_of id);
        _ ← statement (retire_socket id (FormatTime now) (so_RowVersion before));
        log NewID "endpoint" id ActionRetire (lifecycle_diff (so_Lifecycle before) LifecycleRetired) "") st
  end.

(** [CreateBackendPool] *)
Definition CreateBackendPool (fate : Fate) (p : Permit) (now : Time) (pool : BackendPool) (st : Store EdgeTables) : EdgeAnswer :=
  match ValidateBackendPool pool with
  | (_, Some ve) => (inl (Invalid ve), st)
  | (pool, None) =>
      let at_ := FormatTime now in
      let pool := {| bp_ID := bp_ID pool; bp_ServiceID := bp_ServiceID pool; bp_Name := bp_Name pool;
        bp_LBAlgorithm := bp_LBAlgorithm pool; bp_Lifecycle := bp_Lifecycle pool; bp_RowVersion := 1; bp_CreatedAt := at_;
        bp_UpdatedAt := at_ |} in
      write fate (Some p) now (
        _ ← statement (insert_pool pool);
        logCreate NewID "backend_pool" (bp_ID pool) (backend_pool_struct pool)) st
  end.

(** [UpdateBackendPool] *)
Definition UpdateBackendPool (seen : EdgeTables) (fate : Fate) (p : Permit) (now : Time) (pool : BackendPool)
    (st : Store EdgeTables) : EdgeAnswer :=
  match et_pools seen !! bp_ID pool with
  | None => (inl (Wrapped ErrNotFound), st)
  | Some before =>
      match ValidateBackendPool {| bp_ID := bp_ID pool; bp_ServiceID := bp_ServiceID before; bp_Name := bp_Name pool;
              bp_LBAlgorithm := bp_LBAlgorithm pool; bp_Lifecycle := bp_Lifecycle before; bp_RowVersion := bp_RowVersion pool;
              bp_CreatedAt := bp_CreatedAt before; bp_UpdatedAt := bp_UpdatedAt pool |} with
      | (_, Some ve) => (inl (Invalid ve), st)
      | (pool, None) =>
          let at_ := FormatTime now in
          write fate (Some p) now (
            _ ← statement (update_pool pool at_);
            logUpdate NewID "backend_pool" (bp_ID pool) (backend_pool_struct before)
              (backend_pool_struct (pool_as (bp_Lifecycle pool) at_ (bp_RowVersion pool) pool))) st
      end
  end.

(** [AddBackendMember] *)
Definition AddBackendMember (fate : Fate) (p : Permit) (now : Time) (m : BackendMember) (st : Store EdgeTables) : EdgeAnswer :=
  write fate (Some p) now (
    _ ← statement (insert_pool_member m);
    logCreate NewID "backend_member" (bm_PoolID m +++ "/" +++ bm_EndpointID m) (backend_member_struct m)) st.

(** [RetireBackendPool] *)
Definition RetireBackendPool (seen : EdgeTables) (fates : nat -> Fate) (p : Permit) (now : Time) (id : string)
    (st : Store EdgeTables) : EdgeAnswer :=
  match et_pools seen !! id with
  | None => (inl (Wrapped ErrNotFound), st)
  | Some before =>
      if PoolRetired before then (inr tt, st)
      else
        let at_ := FormatTime now in
        writeSerializable fates (Some p) now (
          _ ← while_none (routes_to id);
          _ ← statement (retire_pool id at_ (bp_RowVersion before));
          logUpdate NewID "backend_pool" id (backend_pool_struct before)
            (backend_pool_struct (pool_as LifecycleRetired at_ (bp_RowVersion before) before))) st
  end.

(** [CreateRoute] *)
Definition CreateRoute (fate : Fate) (p : Permit) (now : Time) (r : RoutingRule) (st : Store EdgeTables) : EdgeAnswer :=
  match ValidateRoute r with
  | Some ve => (inl (Invalid ve), st)
  | None =>
      let at_ := FormatTime now in
      let r := {| ro_ID := ro_ID r; ro_FrontendEndpointID := ro_FrontendEndpointID r; ro_MatchType := ro_MatchType r;
        ro_MatchValue := ro_MatchValue r; ro_BackendPoolID := ro_BackendPoolID r; ro_TLSTermination := ro_TLSTermination r;
        ro_Priority := ro_Priority r; ro_Lifecycle := ro_Lifecycle r; ro_RowVersion := 1; ro_CreatedAt := at_;
        ro_UpdatedAt := at_ |} in
      write fate (Some p) now (
        _ ← statement (insert_route r);
        logCreate NewID "route" (ro_ID r) (route_struct r)) st
  end.

(** [UpdateRoute] *)
Definition UpdateRoute (seen : EdgeTables) (fate : Fate) (p : Permit) (now : Time) (r : RoutingRule) (st : Store EdgeTables)
    : EdgeAnswer :=
  match et_routes seen !! ro_ID r with
  | None => (inl (Wrapped ErrNotFound), st)
  | Some before =>
      let r := {| ro_ID := ro_ID r; ro_FrontendEndpointID := ro_FrontendEndpointID before; ro_MatchType := ro_MatchType r;
        ro_MatchValue := ro_MatchValue r; ro_BackendPoolID := ro_BackendPoolID before; ro_TLSTermination := ro_TLSTermination r;
        ro_Priority := ro_Priority r; ro_Lifecycle := ro_Lifecycle before; ro_RowVersion := ro_RowVersion r;
        ro_CreatedAt := ro_CreatedAt before; ro_UpdatedAt := ro_UpdatedAt r |} in
      match ValidateRoute r with
      | Some ve => (inl (Invalid ve), st)
      | None =>
          let at_ := FormatTime now in
          write fate (Some p) now (
            _ ← statement (update_route r at_);
            logUpdate NewID "route" (ro_ID r) (route_struct before)
              (route_struct (route_as (ro_Lifecycle r) at_ (ro_RowVersion r) r))) st
      end
  end.

(** [RetireRoute] *)
Definition RetireRoute (seen : EdgeTables) (fates : nat -> Fate) (p : Permit) (now : Time) (id : string)
    (st : Store EdgeTables) : EdgeAnswer :=
  match et_routes seen !! id with
  | None => (inl (Wrapped ErrNotFound), st)
  | Some before =>
      if RouteRetired before then (inr tt, st)
      else
        let at_ := FormatTime now in
        writeSerializable fates (Some p) now (
          _ ← while_none (edges_on_route id);
          _ ← statement (retire_route id at_ (ro_RowVersion before));
          logUpdate NewID "route" id (route_struct before)
            (route_struct (route_as LifecycleRetired at_ (ro_RowVersion before) before))) st
  end.

(** The confidence the store records for a write by an actor. *)
Definition graded (actor : Actor) (d : Dependency) : Dependency :=
  set_edge (dep_ProviderEndpointID d) (dep_ProviderRouteID d) (dep_FailureMode d) (ConfidenceFor actor (dep_Confidence d)) d.

(** [CreateDependency] *)
Definition CreateDependency (seen : EdgeTables) (fates : nat -> Fate) (p : Permit) (now : Time) (d : Dependency)
    (classes : option (list string)) (st : Store EdgeTables) : EdgeAnswer :=
  match ValidateDependency (stamped_edge (dep_VerifiedBy d) (dep_VerifiedAt d) (dep_Lifecycle d) (dep_UpdatedAt d) 1 d) with
  | (_, Some ve) => (inl (Invalid ve), st)
  | (d, None) =>
      match CheckProvenanceWrite (PermitActor p) (dep_Source d) with
      | Some ve => (inl (Invalid ve), st)
      | None =>
          let d := graded (PermitActor p) d in
          match authorizeDependencySubjects seen p (dep_ConsumerServiceID d) (dep_ProviderEndpointID d) (dep_ProviderRouteID d)
                  (dep_ID d) with
          | inl e => (inl e, st)
          | inr depPermit =>
              writeSerializable fates (Some depPermit) now (
                _ ← requireLiveProvider (dep_ProviderEndpointID d) (dep_ProviderRouteID d);
                _ ← statement (insert_dependency d);
                _ ← setDataClasses (dep_ID d) classes;
                logCreate NewID "dependency" (dep_ID d) (auditedDependency d (default [] classes))) st
          end
      end
  end.

(** The columns of a submitted edge that [UpdateDependency] takes from the stored one. *)
Definition pinned (before d : Dependency) (at_ : string) : Dependency :=
  {| dep_ID := dep_ID d; dep_ConsumerServiceID := dep_ConsumerServiceID d; dep_ConsumerInstanceID := dep_ConsumerInstanceID d;
     dep_ProviderEndpointID := dep_ProviderEndpointID d; dep_ProviderRouteID := dep_ProviderRouteID d; dep_Nature := dep_Nature d;
     dep_ToleranceSeconds := dep_ToleranceSeconds d; dep_FailureMode := dep_FailureMode d; dep_IdentityID := dep_IdentityID d;
     dep_AuthMethod := dep_AuthMethod d; dep_FirewallRuleRef := dep_FirewallRuleRef d; dep_Source := dep_Source before;
     dep_Confidence := dep_Confidence d; dep_FirstSeen := dep_FirstSeen d; dep_LastSeen := dep_LastSeen d;
     dep_VerifiedBy := dep_VerifiedBy before; dep_VerifiedAt := dep_VerifiedAt before; dep_Lifecycle := dep_Lifecycle before;
     dep_CreatedAt := dep_CreatedAt before; dep_UpdatedAt := at_; dep_RowVersion := dep_RowVersion d |}.

(** [UpdateDependency] *)
Definition UpdateDependency (seen : EdgeTables) (fates : nat -> Fate) (p : Permit) (now : Time) (d : Dependency)
    (classes : option (list string)) (st : Store EdgeTables) : EdgeAnswer :=
  match ValidateDependency d with
  | (_, Some ve) => (inl (Invalid ve), st)
  | (d, None) =>
      match CheckProvenanceWrite (PermitActor p) (dep_Source d) with
      | Some ve => (inl (Invalid ve), st)
      | None =>
          let d := graded (PermitActor p) d in
          match GetDependency seen (dep_ID d) with
          | None => (inl (Wrapped ErrNotFound), st)
          | Some before =>
              let beforeClasses := DataClassesFor seen (dep_ID d) in
              let d := pinned before d (FormatTime now) in
              match authorizeDependencySubjects seen p (dep_ConsumerServiceID before) (dep_ProviderEndpointID before)
                      (dep_ProviderRouteID before) (dep_ID d) with
              | inl e => (inl e, st)
              | inr _ =>
                  match authorizeDependencySubjects seen p (dep_ConsumerServiceID d) (dep_ProviderEndpointID d)
                          (dep_ProviderRouteID d) (dep_ID d) with
                  | inl e => (inl e, st)
                  | inr depPermit =>
                      writeSerializable fates (Some depPermit) now (
                        _ ← requireLiveProvider (dep_ProviderEndpointID d) (dep_ProviderRouteID d);
                        _ ← statement (update_dependency d);
                        _ ← setDataClasses (dep_ID d) classes;
                        logUpdate NewID "dependency" (dep_ID d) (auditedDependency before beforeClasses)
                          (auditedDependency d (default beforeClasses classes))) st
                  end
              end
          end
      end
  end.

(** [RetireDependency] *)
Definition RetireDependency (seen : EdgeTables) (fate : Fate) (p : Permit) (now : Time) (id : string) (st : Store EdgeTables)
    : EdgeAnswer :=
  match GetDependency seen id with
  | None => (inl (Wrapped ErrNotFound), st)
  | Some before =>
      if String.eqb (dep_Lifecycle before) LifecycleRetired then (inr tt, st)
      else match authorizeDependencySubjects seen p (dep_ConsumerServiceID before) (dep_ProviderEndpointID before)
                   (dep_ProviderRouteID before) id with
      | inl e => (inl e, st)
      | inr depPermit =>
          write fate (Some depPermit) now (
            _ ← statement (retire_dependency id (FormatTime now));
            log NewID "dependency" id ActionRetire (lifecycle_diff (dep_Lifecycle before) LifecycleRetired) "") st
      end
  end.

(** [VerifyDependency] *)
Definition VerifyDependency (seen : EdgeTables) (fate : Fate) (p : Permit) (now : Time) (id : string) (st : Store EdgeTables)
    : EdgeAnswer :=
  match CheckAttestationWrite (PermitActor p) with
  | Some ve => (inl (Invalid ve), st)
  | None =>
      match GetDependency seen id with
      | None => (inl (Wrapped ErrNotFound), st)
      | Some before =>
          match authorizeDependencySubjects seen p (dep_ConsumerServiceID before) (dep_ProviderEndpointID before)
                  (dep_ProviderRouteID before) id with
          | inl e => (inl e, st)
          | inr depPermit =>
              let at_ := FormatTime now in
              let verifiedBy := ac_ID (PermitActor p) in
              write fate (Some depPermit) now (
                _ ← statement (verify_dependency id verifiedBy at_);
                logUpdate NewID "dependency" id (dependency_struct before)
                  (dependency_struct (stamped_edge (Some verifiedBy) (Some at_) (dep_Lifecycle before) (dep_UpdatedAt before)
                    (dep_RowVersion before) before))) st
          end
      end
  end.
End Operations.

(** ** Requests *)

Inductive EdgeOp :=
  | OpCreateEndpoint (e : Socket) | OpUpdateEndpoint (e : Socket) | OpRetireEndpoint (id : string)
  | OpCreatePool (p : BackendPool) | OpUpdatePool (p : BackendPool) | OpRetirePool (id : string)
  | OpAddBackend (m : BackendMember)
  | OpCreateRoute (r : RoutingRule) | OpUpdateRoute (r : RoutingRule) | OpRetireRoute (id : string)
  | OpCreateDependency (d : Dependency) (classes : option (list string))
  | OpUpdateDependency (d : Dependency) (classes : option (list string))
  | OpRetireDependency (id : string) | OpVerifyDependency (id : string).

Record EdgeRequest := {
  eq_seen : EdgeTables; eq_fate : Fate; eq_fates : nat -> Fate; eq_permit : Permit; eq_now : Time; eq_op : EdgeOp
}.

Definition run_edge `{Unicode} (NewID : nat -> string) (st : Store EdgeTables) (r : EdgeRequest) : EdgeAnswer :=
  let '(seen, fate, fates) := (eq_seen r, eq_fate r, eq_fates r) in
  let '(p, now) := (eq_permit r, eq_now r) in
  match eq_op r with
  | OpCreateEndpoint e => CreateEndpoint NewID fate p now e st
  | OpUpdateEndpoint e => UpdateEndpoint NewID seen fate p now e st
  | OpRetireEndpoint id => RetireEndpoint NewID seen fates p now id st
  | OpCreatePool pool => CreateBackendPool NewID fate p now pool st
  | OpUpdatePool pool => UpdateBackendPool NewID seen fate p now pool st
  | OpRetirePool id => RetireBackendPool NewID seen fates p now id st
  | OpAddBackend m => AddBackendMember NewID fate p now m st
  | OpCreateRoute rt => CreateRoute NewID fate p now rt st
  | OpUpdateRoute rt => UpdateRoute NewID seen fate p now rt st
  | OpRetireRoute id => RetireRoute NewID seen fates p now id st
  | OpCreateDependency d classes => CreateDependency NewID seen fates p now d classes st
  | OpUpdateDependency d classes => UpdateDependency NewID seen fates p now d classes st
  | OpRetireDependency id => RetireDependency NewID seen fate p now id st
  | OpVerifyDependency id => VerifyDependency NewID seen fate p now id st
  end.

(** ** What well-formed tables are *)

(** Where a socket listens: a unix socket at a path, the others on a port. *)
Definition listens (e : Socket) : Prop :=
  if String.eqb (so_L4Proto e) ProtoUnix
  then (exists path, so_UnixPath e = Some path /\ path <> "") /\ so_Port e = None
  else (exists p, so_Port e = Some p /\ (1 <= p <= 65535)%Z) /\ so_UnixPath e = None.

Record socket_ok (t : EdgeTables) (e : Socket) : Prop := {
  sk_name : so_Name e <> "";
  sk_proto : so_L4Proto e ∈ L4Protos;
  sk_bind : so_BindScope e ∈ BindScopes;
  sk_tls : so_TLSMode e ∈ TLSModes;
  sk_exposure : so_Exposure e ∈ Exposures;
  sk_lifecycle : so_Lifecycle e ∈ EndpointLifecycles;
  sk_listens : listens e;
  sk_service : is_Some (et_services t !! so_ServiceID e);
  sk_address : forall a, so_IPAddressID e = Some a -> a ∈ et_addresses t
}.

Record pool_ok (t : EdgeTables) (p : BackendPool) : Prop := {
  po_name : bp_Name p <> "";
  po_lifecycle : bp_Lifecycle p ∈ EndpointLifecycles;
  po_service : is_Some (et_services t !! bp_ServiceID p)
}.

Record route_ok (t : EdgeTables) (r : RoutingRule) : Prop := {
  rk_match : ro_MatchType r ∈ MatchTypes;
  rk_tls : forall m, ro_TLSTermination r = Some m -> m ∈ TLSTerminations;
  rk_lifecycle : ro_Lifecycle r ∈ EndpointLifecycles;
  rk_frontend : is_Some (et_endpoints t !! ro_FrontendEndpointID r);
  rk_pool : is_Some (et_pools t !! ro_BackendPoolID r)
}.

(** The one provider of an edge: a socket, or a route. *)
Definition provided (t : EdgeTables) (d : Dependency) : Prop :=
  (exists e, dep_ProviderEndpointID d = Some e /\ dep_ProviderRouteID d = None /\ is_Some (et_endpoints t !! e)) \/
  (exists r, dep_ProviderEndpointID d = None /\ dep_ProviderRouteID d = Some r /\ is_Some (et_routes t !! r)).

Record dependency_ok (t : EdgeTables) (d : Dependency) : Prop := {
  dk_consumer : is_Some (et_services t !! dep_ConsumerServiceID d);
  dk_instance : refers (et_instances t) (dep_ConsumerInstanceID d);
  dk_identity : forall i, dep_IdentityID d = Some i -> i ∈ et_identities t;
  dk_provider : provided t d;
  dk_nature : dep_Nature d ∈ Natures;
  dk_source : dep_Source d ∈ DependencySources;
  dk_lifecycle : dep_Lifecycle d ∈ EndpointLifecycles;
  dk_mode : dep_FailureMode d <> "";
  dk_tolerance : dep_Nature d = NatureAsync -> exists s, dep_ToleranceSeconds d = Some s /\ (0 <= s)%Z;
  dk_confidence : forall c, dep_Confidence d = Some c -> (0 <= c <= 1)%Qc
}.

Definition live_pool (p : BackendPool) : Prop := bp_Lifecycle p = LifecycleActive.

Record edges_ok (t : EdgeTables) : Prop := {
  eo_endpoints : forall k e, et_endpoints t !! k = Some e -> so_ID e = k /\ socket_ok t e;
  eo_socket_names : forall k k' e e', et_endpoints t !! k = Some e -> et_endpoints t !! k' = Some e' ->
    so_ServiceID e = so_ServiceID e' -> so_Name e = so_Name e' -> k = k';
  eo_pools : forall k p, et_pools t !! k = Some p -> bp_ID p = k /\ pool_ok t p;
  eo_pool_names : forall k k' p p', et_pools t !! k = Some p -> et_pools t !! k' = Some p' -> live_pool p -> live_pool p' ->
    bp_ServiceID p = bp_ServiceID p' -> bp_Name p = bp_Name p' -> k = k';
  eo_members : forall k m, et_members t !! k = Some m -> k = (bm_PoolID m, bm_EndpointID m) /\
    is_Some (et_pools t !! bm_PoolID m) /\ is_Some (et_endpoints t !! bm_EndpointID m);
  eo_routes : forall k r, et_routes t !! k = Some r -> ro_ID r = k /\ route_ok t r;
  eo_dependencies : forall k d, et_dependencies t !! k = Some d -> dep_ID d = k /\ dependency_ok t d;
  eo_carried : forall d c, (d, c) ∈ et_carried t -> is_Some (et_dependencies t !! d) /\ c ∈ et_data_classes t;
  eo_carried_once : NoDup (et_carried t)
}.

(** ** Edges that resolve *)

(** The socket the traffic of an edge reaches. *)
Definition provider_socket (t : EdgeTables) (d : Dependency) : option Socket :=
  match dep_ProviderEndpointID d with
  | Some e => et_endpoints t !! e
  | None => r ← dep_ProviderRouteID d; e ← frontend t r; et_endpoints t !! e
  end.

Definition provider_live (t : EdgeTables) (d : Dependency) : Prop :=
  exists e, provider_socket t d = Some e /\ so_Lifecycle e = LifecycleActive.

(** Tables on which every live edge reaches a socket in use, and no socket or route has the
    empty key, which the query of [requireLiveProvider] takes for the side that is not
    named. *)
Record flowing (t : EdgeTables) : Prop := {
  fl_ok : edges_ok t;
  fl_live : forall k d, et_dependencies t !! k = Some d -> dep_Lifecycle d = LifecycleActive -> provider_live t d;
  fl_sockets : et_endpoints t !! "" = None;
  fl_routes : et_routes t !! "" = None
}.

(** A request that withdraws sockets by their retirement only, as the handlers' requests
    do, and creates rows under keys that are not empty: the edit of a socket leaves it in
    use. *)
Definition orderly (r : EdgeRequest) : Prop :=
  match eq_op r with
  | OpCreateEndpoint e => so_ID e <> ""
  | OpUpdateEndpoint e => so_Lifecycle e <> LifecycleRetired
  | OpCreateRoute r => ro_ID r <> ""
  | _ => True
  end.

(** ** What a write of an edge may touch *)

(** The edge a request is about, and the edges whose two ends it needs to hold: the one
    submitted, the one stored, or both. *)
Definition edge_asked (op : EdgeOp) : option string :=
  match op with
  | OpCreateDependency d _ | OpUpdateDependency d _ => Some (dep_ID d)
  | OpRetireDependency id | OpVerifyDependency id => Some id
  | _ => None
  end.

Definition edge_ends (seen : EdgeTables) (op : EdgeOp) : list Dependency :=
  match op with
  | OpCreateDependency d _ => [(ValidateDependency d).1]
  | OpUpdateDependency d _ => (ValidateDependency d).1 :: option_list (GetDependency seen (dep_ID d))
  | OpRetireDependency id | OpVerifyDependency id => option_list (GetDependency seen id)
  | _ => []
  end.

(** A permit that covers the services at both ends of an edge. *)
Definition covers_ends (seen : EdgeTables) (p : Permit) (d : Dependency) : Prop :=
  Covers p "service" (dep_ConsumerServiceID d) = true /\
  exists s, resolveProviderService seen (dep_ProviderEndpointID d) (dep_ProviderRouteID d) = inr s /\ Covers p "service" s = true.

Definition not_of (id : string) : string * string -> bool := fun '(d, _) => negb (String.eqb d id).

(** The tables other than those of the edges and the classes they carry. *)
Definition other_tables (t : EdgeTables) :=
  (et_services t, et_instances t, et_addresses t, et_identities t, et_data_classes t, et_endpoints t, et_pools t, et_members t,
   et_routes t).

Record edge_confined (id : string) (t t' : EdgeTables) : Prop := {
  ec_others : other_tables t' = other_tables t;
  ec_edges : forall k, k <> id -> et_dependencies t' !! k = et_dependencies t !! k;
  ec_classes : List.filter (not_of id) (et_carried t') = List.filter (not_of id) (et_carried t);
  ec_keys : forall k d, et_dependencies t' !! k = Some d -> dep_ID d = k
}.

(** A write about one edge: its row, its classes, and log rows about it by the actor of
    the permit. *)
Record edge_write (p : Permit) (id : string) (st st' : Store EdgeTables) : Prop := {
  wr_tables : edge_confined id (st_tables st) (st_tables st');
  wr_log : exists logged, st_log st' = st_log st ++ logged /\
    Forall (fun c => cr_EntityType c = "dependency" /\ cr_EntityID c = id /\ cr_Actor c = ac_ID (PermitActor p)) logged
}.

(** What a request may do to the row of an edge that it does not write whole: the ends of
    its life and its attestation each by one operation alone. *)
Definition pinned_columns (r : EdgeRequest) (id : string) (d d' : Dependency) : Prop :=
  dep_ConsumerServiceID d' = dep_ConsumerServiceID d /\ dep_Source d' = dep_Source d /\ dep_CreatedAt d' = dep_CreatedAt d /\
  dep_FirstSeen d' = dep_FirstSeen d /\ dep_LastSeen d' = dep_LastSeen d /\
  (dep_VerifiedBy d' = dep_VerifiedBy d /\ dep_VerifiedAt d' = dep_VerifiedAt d \/
   eq_op r = OpVerifyDependency id /\ ac_Kind (PermitActor (eq_permit r)) = ActorKindUser /\
   dep_VerifiedBy d' = Some (ac_ID (PermitActor (eq_permit r))) /\ dep_VerifiedAt d' = Some (FormatTime (eq_now r))) /\
  (dep_Lifecycle d' = dep_Lifecycle d \/ eq_op r = OpRetireDependency id /\ dep_Lifecycle d' = LifecycleRetired).

Definition run_edges `{Unicode} (NewID : nat -> string) (st : Store EdgeTables) (rs : list EdgeRequest) : Store EdgeTables :=
  foldl (fun st r => (run_edge NewID st r).2) st rs.

(** * Lemmas *)

(** ** Statements that went through *)

Lemma put_edge_row_inv c k r t t' : put_edge_row c k r t = inr t' -> c = true /\ k = false /\ r = true /\ t' = t.
Proof. unfold put_edge_row. destruct c, k, r; try done. by intros [= <-]. Qed.

Lemma at_version_inv {V} (m : gmap string V) version id v k t' : at_version m version id v k = inr t' ->
  exists row, m !! id = Some row /\ version row = v /\ k row = inr t'.
Proof.
  unfold at_version. destruct (m !! id) as [row|]; [|done]. destruct (Z.eqb_spec (version row) v); [|done]. eauto.
Qed.

Lemma insert_fresh {V} (m : gmap string V) id (k : StoreError + EdgeTables) t' :
  (if known m id then refused ErrConflict else k) = inr t' -> m !! id = None /\ k = inr t'.
Proof.
  unfold known. case_bool_decide as Hk; [done|]. intros Hr. split; [by apply eq_None_not_Some|done].
Qed.


(** ** What a validation passes *)

Lemma check_listening_nil ve e : check_listening ve e = [] ->
  ve = [] /\ (if String.eqb (so_L4Proto e) ProtoUnix then recorded (so_UnixPath e) = true
              else forall p, so_Port e = Some p -> (1 <= p <= 65535)%Z).
Proof.
  unfold check_listening. destruct (String.eqb (so_L4Proto e) ProtoUnix).
  - destruct (so_Port e); [by intros ?%Add_not_nil|]. destruct (recorded _); [done|by intros ?%Add_not_nil].
  - destruct (recorded _); [by intros ?%Add_not_nil|]. destruct (so_Port e) as [p|]; [|by intros ?%Add_not_nil].
    destruct (_ || _) eqn:E; [by intros ?%Add_not_nil|]. intros ->. split; [done|]. intros q [= <-].
    apply orb_false_iff in E as [?%Z.ltb_ge ?%Z.ltb_ge]. lia.
Qed.

Lemma ValidateSocket_spec e e' : ValidateSocket e = (e', None) ->
  so_ID e' = so_ID e /\ so_Name e' <> "" /\ (so_Lifecycle e <> LifecycleRetired -> so_Lifecycle e' = LifecycleActive) /\
  check_listening [] e' = [].
Proof.
  unfold ValidateSocket. destruct (checkRequired [] _ _) as [v1 name] eqn:E1, (checkRequired v1 _ _) as [v2 ?] eqn:E2.
  intros [= <- Hv%OrNil_None]. destruct (check_listening_nil _ _ Hv) as [Hv' Hl].
  apply checkEnum_nil in Hv' as [Hv' Hlife]. repeat apply checkEnum_nil in Hv' as [Hv' _].
  apply checkRequired_nil in E2 as (-> & _ & _); [|done]. apply checkRequired_nil in E1 as (_ & _ & Hn); [|done].
  cbn. split_and!; [done..| |].
  - destruct (String.eqb_spec (so_Lifecycle e) "") as [->|Hne]; [done|]. intros Hr. unfold EndpointLifecycles in Hlife. set_solver.
  - revert Hv. unfold check_listening. cbn. destruct (String.eqb (so_L4Proto e) ProtoUnix).
    + destruct (so_Port e); [by intros ?%Add_not_nil|]. destruct (recorded _); [done|by intros ?%Add_not_nil].
    + destruct (recorded _); [by intros ?%Add_not_nil|]. destruct (so_Port e) as [p|]; [|by intros ?%Add_not_nil].
      destruct (_ || _); [by intros ?%Add_not_nil|done].
Qed.

Lemma socket_checks_ok e : socket_checks e = true -> check_listening [] e = [] ->
  so_L4Proto e ∈ L4Protos /\ so_BindScope e ∈ BindScopes /\ so_TLSMode e ∈ TLSModes /\ so_Exposure e ∈ Exposures /\
  so_Lifecycle e ∈ EndpointLifecycles /\ listens e.
Proof.
  unfold socket_checks. intros Hc [_ Hl]%check_listening_nil.
  rewrite !andb_true_iff, !containsString_elem in Hc. destruct Hc as [[[[[? ?] ?] ?] ?] Hx]. split_and!; try done.
  unfold listens. destruct (String.eqb (so_L4Proto e) ProtoUnix).
  - apply andb_true_iff in Hx as [_ Hp%bool_decide_eq_true]. split; [|done]. unfold recorded in Hl.
    destruct (so_UnixPath e) as [path|]; [|done]. exists path. split; [done|]. by apply negb_true_iff, String.eqb_neq in Hl.
  - apply andb_true_iff in Hx as [[p Hp]%bool_decide_eq_true Hu%bool_decide_eq_true]. split; [|done]. exists p. auto.
Qed.

Lemma ValidateBackendPool_spec `{Unicode} p p' : ValidateBackendPool p = (p', None) ->
  bp_ID p' = bp_ID p /\ bp_Name p' <> "" /\ bp_Lifecycle p' = bp_Lifecycle p.
Proof.
  unfold ValidateBackendPool. destruct (checkRequired [] _ _) as [v1 ?] eqn:E1, (checkRequired v1 _ _) as [v2 name] eqn:E2.
  intros [= <- [Hv _]%OrNil_None%check_edge_lifecycle_nil]. by apply checkRequired_nil in E2 as (_ & _ & ?).
Qed.

Lemma check_tolerance_nil ve nature tol : check_tolerance ve nature tol = [] ->
  ve = [] /\ (nature = NatureAsync -> exists s, tol = Some s /\ (0 <= s)%Z).
Proof.
  unfold check_tolerance. destruct (String.eqb_spec nature NatureAsync) as [->|Hne]; [|done].
  destruct tol as [s|]; [|by intros ?%Add_not_nil]. destruct (Z.ltb_spec s 0); [by intros ?%Add_not_nil|]. eauto.
Qed.

Lemma check_edge_confidence_nil ve c : check_edge_confidence ve c = [] -> ve = [] /\ forall q, c = Some q -> (0 <= q <= 1)%Qc.
Proof.
  unfold check_edge_confidence. destruct c as [q|]; [|done]. destruct (_ || _) eqn:E; [by intros ?%Add_not_nil|].
  intros ->. split; [done|]. intros ? [= <-].
  apply orb_false_iff in E as [?%bool_decide_eq_false ?%bool_decide_eq_false]. by split; apply Qcnot_lt_le.
Qed.

(** What a validated edge has that the constraints of its table do not say. *)
Record validated (d : Dependency) : Prop := {
  vd_mode : dep_FailureMode d <> "";
  vd_tolerance : dep_Nature d = NatureAsync -> exists s, dep_ToleranceSeconds d = Some s /\ (0 <= s)%Z;
  vd_confidence : forall c, dep_Confidence d = Some c -> (0 <= c <= 1)%Qc
}.

Lemma ValidateDependency_spec d d' : ValidateDependency d = (d', None) ->
  validated d' /\
  d' = set_edge (dep_ProviderEndpointID d') (dep_ProviderRouteID d') (dep_FailureMode d') (dep_Confidence d) d.
Proof.
  unfold ValidateDependency. destruct (checkRequired [] _ _) as [v1 ?] eqn:E1, (checkRequired _ _ (dep_FailureMode d)) as [v2 mode] eqn:E2.
  intros [= <- [Hv Hc]%OrNil_None%check_edge_confidence_nil]. apply check_tolerance_nil in Hv as [Hv Ht].
  split; [|done]. split; [|done..]. cbn. unfold check_provider in Hv.
  assert (v2 = []) as Hv2 by (destruct (_ && _); [by apply Add_not_nil in Hv|destruct (_ && _); [by apply Add_not_nil in Hv|done]]).
  by apply checkRequired_nil in E2 as (_ & _ & ?).
Qed.

Lemma graded_validated actor d : validated d -> validated (graded actor d).
Proof.
  intros []. split; [done..|]. cbn. unfold ConfidenceFor. destruct (negb _); [done|]. intros c [= <-]. by vm_compute.
Qed.

(** ** Growth *)

(** Tables with every row of others, for the references of the rows that stay. *)
Record grows (t t' : EdgeTables) : Prop := {
  gr_services : et_services t' = et_services t;
  gr_instances : et_instances t' = et_instances t;
  gr_addresses : et_addresses t' = et_addresses t;
  gr_identities : et_identities t' = et_identities t;
  gr_classes : et_data_classes t' = et_data_classes t;
  gr_endpoints : forall k, is_Some (et_endpoints t !! k) -> is_Some (et_endpoints t' !! k);
  gr_pools : forall k, is_Some (et_pools t !! k) -> is_Some (et_pools t' !! k);
  gr_routes : forall k, is_Some (et_routes t !! k) -> is_Some (et_routes t' !! k);
  gr_dependencies : forall k, is_Some (et_dependencies t !! k) -> is_Some (et_dependencies t' !! k)
}.

Lemma insert_grows {V} (m : gmap string V) i v k : is_Some (m !! k) -> is_Some (<[i := v]> m !! k).
Proof. rewrite lookup_insert_is_Some'. auto. Qed.
#[local] Hint Resolve insert_grows : go.

#[local] Hint Resolve alter_is_Some : go.
Ltac growing := split; cbn; try done; auto with go.

Section Growth.
Context (t t' : EdgeTables) (Hg : grows t t').

Lemma socket_grows e : socket_ok t e -> socket_ok t' e.
Proof. destruct Hg as [Hs _ Ha]. intros []. split; rewrite ?Hs, ?Ha; done. Qed.
Lemma pool_grows p : pool_ok t p -> pool_ok t' p.
Proof. destruct Hg as [Hs]. intros []. split; rewrite ?Hs; done. Qed.
Lemma route_grows r : route_ok t r -> route_ok t' r.
Proof. destruct Hg. intros []. split; auto. Qed.
Lemma dependency_grows d : dependency_ok t d -> dependency_ok t' d.
Proof.
  destruct Hg as [Hs Hi Ha Hd Hc He Hp Hr Hdd]. intros []. split; rewrite ?Hs, ?Hi, ?Hd; try done.
  destruct dk_provider0 as [(e & ? & ? & ?)|(r & ? & ? & ?)]; [left; exists e|right; exists r]; auto.
Qed.
End Growth.

(** The unchanged tables of well-formed ones, after others have grown. *)
Lemma edges_frame t t' : edges_ok t -> grows t t' ->
  (et_endpoints t' = et_endpoints t \/
     (forall k e, et_endpoints t' !! k = Some e -> so_ID e = k /\ socket_ok t' e) /\
     (forall k k' e e', et_endpoints t' !! k = Some e -> et_endpoints t' !! k' = Some e' ->
       so_ServiceID e = so_ServiceID e' -> so_Name e = so_Name e' -> k = k')) ->
  (et_pools t' = et_pools t \/
     (forall k p, et_pools t' !! k = Some p -> bp_ID p = k /\ pool_ok t' p) /\
     (forall k k' p p', et_pools t' !! k = Some p -> et_pools t' !! k' = Some p' -> live_pool p -> live_pool p' ->
       bp_ServiceID p = bp_ServiceID p' -> bp_Name p = bp_Name p' -> k = k')) ->
  (forall k m, et_members t' !! k = Some m -> et_members t !! k = Some m \/ (k = (bm_PoolID m, bm_EndpointID m) /\
     is_Some (et_pools t' !! bm_PoolID m) /\ is_Some (et_endpoints t' !! bm_EndpointID m))) ->
  (forall k r, et_routes t' !! k = Some r -> et_routes t !! k = Some r \/ (ro_ID r = k /\ route_ok t' r)) ->
  (forall k d, et_dependencies t' !! k = Some d -> et_dependencies t !! k = Some d \/ (dep_ID d = k /\ dependency_ok t' d)) ->
  (forall d c, (d, c) ∈ et_carried t' -> (d, c) ∈ et_carried t \/ (is_Some (et_dependencies t' !! d) /\ c ∈ et_data_classes t')) ->
  NoDup (et_carried t') -> edges_ok t'.
Proof.
  intros [] Hg He Hp Hm Hr Hd Hc Hn. split; try done.
  - destruct He as [He|[He _]]; [|done]. rewrite He. intros k e Hk. destruct (eo_endpoints0 k e Hk).
    split; [done|]. by apply (socket_grows t).
  - destruct He as [->|[_ He]]; [|done]. done.
  - destruct Hp as [Hp|[Hp _]]; [|done]. rewrite Hp. intros k p Hk. destruct (eo_pools0 k p Hk).
    split; [done|]. by apply (pool_grows t).
  - destruct Hp as [->|[_ Hp]]; [|done]. done.
  - intros k m [Hk|Hk]%Hm; [|done]. destruct (eo_members0 k m Hk) as (? & ? & ?). destruct Hg. auto.
  - intros k r [Hk|Hk]%Hr; [|done]. destruct (eo_routes0 k r Hk). split; [done|]. by apply (route_grows t).
  - intros k d [Hk|Hk]%Hd; [|done]. destruct (eo_dependencies0 k d Hk). split; [done|]. by apply (dependency_grows t).
  - intros d c [Hk|Hk]%Hc; [|done]. destruct (eo_carried0 d c Hk). destruct Hg as [? ? ? ? -> ?]. auto.
Qed.

(** ** Statements keep the tables well formed *)

Section Statements.
Context (t : EdgeTables) (Hok : edges_ok t).

Lemma put_socket_ok e t' : put_socket e t = inr t' -> so_Name e <> "" -> check_listening [] e = [] -> edges_ok t'.
Proof.
  intros (Hc & Hfree & [Hs%known_spec Ha]%andb_true_iff & ->)%put_edge_row_inv Hname Hl. pose proof (none_of_rows _ _ Hfree) as Hn.
  destruct (socket_checks_ok e Hc Hl) as (? & ? & ? & ? & ? & ?).
  assert (grows t (with_endpoints (<[so_ID e := e]> (et_endpoints t)) t)) as Hg by growing.
  apply (edges_frame t); cbn; auto; [|by destruct Hok]. right. split.
  - intros k x [[<- <-]|[_ Hk]]%lookup_insert_Some.
    + split; [done|]. split; cbn; try done. intros a E. rewrite E in Ha. by apply bool_decide_eq_true in Ha.
    + destruct (eo_endpoints _ Hok k x Hk). split; [done|]. by apply (socket_grows t).
  - intros k k' x x'. rewrite !lookup_insert_Some. intros [[<- <-]|[_ Hk]] [[<- <-]|[_ Hk']] Hsv Hnm; [done|..|by eapply (eo_socket_names _ Hok)].
    + specialize (Hn k' x' Hk'). cbn in Hn. rewrite Hsv, Hnm, !String.eqb_refl in Hn.
      apply negb_false_iff, String.eqb_eq in Hn as <-. symmetry. by destruct (eo_endpoints _ Hok _ _ Hk').
    + specialize (Hn k x Hk). cbn in Hn. rewrite <- Hsv, <- Hnm, !String.eqb_refl in Hn.
      apply negb_false_iff, String.eqb_eq in Hn as <-. by destruct (eo_endpoints _ Hok _ _ Hk).
Qed.

Lemma put_pool_ok p t' : put_pool p t = inr t' -> bp_Name p <> "" -> edges_ok t'.
Proof.
  intros (Hc%containsString_elem & Hfree & Hs%known_spec & ->)%put_edge_row_inv Hname.
  assert (grows t (with_pools (<[bp_ID p := p]> (et_pools t)) t)) as Hg by growing.
  assert (forall k x, et_pools t !! k = Some x -> live_pool x -> live_pool p -> bp_ServiceID x = bp_ServiceID p ->
    bp_Name x = bp_Name p -> bp_ID x = bp_ID p) as Hn.
  { intros k x Hk Hx Hlp Hsv Hnm. unfold pool_taken, is_live, live_pool in *. rewrite Hlp in Hfree. cbn in Hfree.
    pose proof (none_of_rows _ _ Hfree k x Hk) as Hn. cbn in Hn. rewrite Hsv, Hnm, Hx, !String.eqb_refl in Hn.
    by apply negb_false_iff, String.eqb_eq in Hn. }
  apply (edges_frame t); cbn; auto; [|by destruct Hok]. right. split.
  - intros k x [[<- <-]|[_ Hk]]%lookup_insert_Some; [done|].
    destruct (eo_pools _ Hok k x Hk). split; [done|]. by apply (pool_grows t).
  - intros k k' x x'. rewrite !lookup_insert_Some.
    intros [[<- <-]|[_ Hk]] [[<- <-]|[_ Hk']] Hl Hl' Hsv Hnm; [done|..|by eapply (eo_pool_names _ Hok)].
    + symmetry. rewrite <- (Hn k' x' Hk') by done. by destruct (eo_pools _ Hok _ _ Hk').
    + rewrite <- (Hn k x Hk) by done. symmetry. by destruct (eo_pools _ Hok _ _ Hk).
Qed.

Lemma insert_pool_member_ok m t' : insert_pool_member m t = inr t' -> edges_ok t'.
Proof.
  intros (_ & _ & [Hp%known_spec He%known_spec]%andb_true_iff & ->)%put_edge_row_inv.
  apply (edges_frame t); cbn; auto; [growing| |by destruct Hok].
  intros k x [[<- <-]|[_ Hk]]%lookup_insert_Some; auto.
Qed.

Lemma put_route_ok r t' : put_route r t = inr t' -> edges_ok t'.
Proof.
  intros (Hc & _ & [He%known_spec Hp%known_spec]%andb_true_iff & ->)%put_edge_row_inv.
  apply (edges_frame t); cbn; auto; [growing| |by destruct Hok].
  intros k x [[<- <-]|[_ Hk]]%lookup_insert_Some; [|auto]. right. split; [done|]. unfold route_checks in Hc.
  rewrite !andb_true_iff, !containsString_elem in Hc. destruct Hc as [[? Ht] ?]. split; try done.
  intros m E. rewrite E in Ht. by apply containsString_elem.
Qed.

Lemma put_dependency_ok d t' : put_dependency d t = inr t' -> validated d -> edges_ok t'.
Proof.
  intros (Hc & _ & Hr & ->)%put_edge_row_inv [].
  apply (edges_frame t); cbn; auto; [growing| |by destruct Hok].
  intros k x [[<- <-]|[_ Hk]]%lookup_insert_Some; [|auto]. right. split; [done|].
  unfold dependency_checks, dependency_references in *. rewrite !andb_true_iff, !containsString_elem in Hc.
  rewrite !andb_true_iff in Hr.
  destruct Hc as [[[? ?] ?] Hx], Hr as [[[[Hsv%known_spec Hin%names_known] He%names_known] Hro%names_known] Hi].
  split; cbn; try done.
  - intros i E. rewrite E in Hi. by apply bool_decide_eq_true in Hi.
  - destruct (dep_ProviderEndpointID d) as [e|] eqn:Ee, (dep_ProviderRouteID d) as [r|] eqn:Er; cbn in Hx; try done.
    + left. exists e. auto.
    + right. exists r. auto.
Qed.

Lemma carried_ok c : NoDup c ->
  (forall d x, (d, x) ∈ c -> (d, x) ∈ et_carried t \/ (is_Some (et_dependencies t !! d) /\ x ∈ et_data_classes t)) ->
  edges_ok (with_carried c t).
Proof. intros Hn Hc. apply (edges_frame t); cbn; auto. growing. Qed.

Lemma cleared_ok id : edges_ok (with_carried (List.filter (fun '(d, _) => negb (String.eqb d id)) (et_carried t)) t).
Proof.
  apply carried_ok.
  - apply bool_filter_nodup, Hok.
  - intros d x [? _]%elem_of_bool_filter. by left.
Qed.

Lemma insert_class_ok id c t' : insert_class id c t = inr t' -> edges_ok t'.
Proof.
  intros (_ & Hfree%bool_decide_eq_false & [Hd%known_spec Hc%containsString_elem]%andb_true_iff & ->)%put_edge_row_inv.
  apply carried_ok.
  - apply NoDup_app. split_and!; [apply Hok| |apply NoDup_singleton]. intros x Hx ->%list_elem_of_singleton. done.
  - intros d x [?|[= -> ->]%list_elem_of_singleton]%elem_of_app; auto.
Qed.
End Statements.

(** ** Withdrawals keep the tables well formed *)

Lemma retired_is_lifecycle : LifecycleRetired ∈ EndpointLifecycles.
Proof. unfold EndpointLifecycles. set_solver. Qed.

Section Withdrawals.
Context (t : EdgeTables) (Hok : edges_ok t).

Lemma insert_socket_ok e t' : insert_socket e t = inr t' -> so_Name e <> "" -> check_listening [] e = [] -> edges_ok t'.
Proof. intros [_ Hp]%insert_fresh. by eapply put_socket_ok. Qed.
Lemma insert_pool_ok p t' : insert_pool p t = inr t' -> bp_Name p <> "" -> edges_ok t'.
Proof. intros [_ Hp]%insert_fresh. by eapply put_pool_ok. Qed.
Lemma insert_route_ok r t' : insert_route r t = inr t' -> edges_ok t'.
Proof. intros [_ Hp]%insert_fresh. by eapply put_route_ok. Qed.
Lemma insert_dependency_ok d t' : insert_dependency d t = inr t' -> validated d -> edges_ok t'.
Proof. intros [_ Hp]%insert_fresh. by eapply put_dependency_ok. Qed.

Lemma update_socket_ok e at_ t' : update_socket e at_ t = inr t' -> so_Name e <> "" -> check_listening [] e = [] -> edges_ok t'.
Proof. intros (row & _ & _ & Hp)%at_version_inv ? Hl. by eapply put_socket_ok. Qed.
Lemma update_pool_ok p at_ t' : update_pool p at_ t = inr t' -> bp_Name p <> "" -> edges_ok t'.
Proof. intros (row & _ & _ & Hp)%at_version_inv ?. by eapply put_pool_ok. Qed.
Lemma update_route_ok r at_ t' : update_route r at_ t = inr t' -> edges_ok t'.
Proof. intros (row & _ & _ & Hp)%at_version_inv. by eapply put_route_ok. Qed.
Lemma update_dependency_ok d t' : update_dependency d t = inr t' -> validated d -> edges_ok t'.
Proof. intros (row & _ & _ & Hp)%at_version_inv []. by eapply put_dependency_ok. Qed.

Lemma retire_socket_ok id at_ v t' : retire_socket id at_ v t = inr t' -> edges_ok t'.
Proof.
  intros (row & Hrow & _ & [= <-])%at_version_inv. destruct (eo_endpoints _ Hok _ _ Hrow) as [Hid []].
  assert (grows t (with_endpoints (<[id := retired_socket at_ row]> (et_endpoints t)) t)) as Hg by growing.
  apply (edges_frame t); cbn; auto; [|by destruct Hok]. right. split.
  - intros k e [[<- <-]|[_ Hk]]%lookup_insert_Some.
    + split; [done|]. split; try done. apply retired_is_lifecycle.
    + destruct (eo_endpoints _ Hok k e Hk). split; [done|]. by apply (socket_grows t).
  - intros k k' e e'. rewrite !lookup_insert_Some.
    intros [[<- <-]|[_ Hk]] [[<- <-]|[_ Hk']] Hsv Hnm; [done|..]; by eapply (eo_socket_names _ Hok).
Qed.

Lemma retire_pool_ok id at_ v t' : retire_pool id at_ v t = inr t' -> edges_ok t'.
Proof.
  intros (row & Hrow & _ & [= <-])%at_version_inv. destruct (eo_pools _ Hok _ _ Hrow) as [Hid []].
  set (gone := pool_as _ _ _ row).
  assert (grows t (with_pools (<[id := gone]> (et_pools t)) t)) as Hg by growing.
  apply (edges_frame t); cbn; auto; [|by destruct Hok]. right. split.
  - intros k p [[<- <-]|[_ Hk]]%lookup_insert_Some.
    + split; [done|]. split; try done. apply retired_is_lifecycle.
    + destruct (eo_pools _ Hok k p Hk). split; [done|]. by apply (pool_grows t).
  - intros k k' p p'. rewrite !lookup_insert_Some.
    intros [[<- <-]|[_ Hk]] [[<- <-]|[_ Hk']] Hl Hl' Hsv Hnm; try done; by eapply (eo_pool_names _ Hok).
Qed.

Lemma retire_route_ok id at_ v t' : retire_route id at_ v t = inr t' -> edges_ok t'.
Proof.
  intros (row & Hrow & _ & [= <-])%at_version_inv. destruct (eo_routes _ Hok _ _ Hrow) as [Hid []].
  apply (edges_frame t); cbn; auto; [growing| |by destruct Hok].
  intros k r [[<- <-]|[_ Hk]]%lookup_insert_Some; [|auto]. right. split; [done|]. split; try done. apply retired_is_lifecycle.
Qed.

(** An edge whose last columns change. *)
Lemma stamp_edge_ok f id : (forall d, exists by_ at_ l u v, f d = stamped_edge by_ at_ l u v d /\ (l = dep_Lifecycle d \/ l = LifecycleRetired)) ->
  edges_ok (with_dependencies (alter f id (et_dependencies t)) t).
Proof.
  intros Hf. apply (edges_frame t); cbn; auto; [growing| |by destruct Hok].
  intros k d' (d & Hk & [->|[-> ->]])%alter_row; [auto|]. right. destruct (eo_dependencies _ Hok _ _ Hk) as [Hid []].
  destruct (Hf d) as (b & a & l & u & v & -> & Hl). split; [done|]. split; try done. cbn.
  destruct Hl as [->| ->]; [done|apply retired_is_lifecycle].
Qed.

Lemma retire_dependency_ok id at_ t' : retire_dependency id at_ t = inr t' -> edges_ok t'.
Proof. intros [= <-]. apply stamp_edge_ok. intros d. do 5 eexists. split; [done|]. by right. Qed.

Lemma verify_dependency_ok id who at_ t' : verify_dependency id who at_ t = inr t' -> edges_ok t'.
Proof. intros [= <-]. apply stamp_edge_ok. intros d. do 5 eexists. split; [done|]. by left. Qed.
End Withdrawals.

(** ** Live edges keep a live provider *)

Section Flow.
Context (t : EdgeTables) (Hf : flowing t).

Lemma provider_keys d e : provider_socket t d = Some e ->
  exists k, et_endpoints t !! k = Some e /\
    (dep_ProviderEndpointID d = Some k \/ dep_ProviderEndpointID d = None /\ dep_ProviderRouteID d ≫= frontend t = Some k).
Proof.
  unfold provider_socket. destruct (dep_ProviderEndpointID d) as [k|]; [eauto|].
  destruct (dep_ProviderRouteID d) as [r|]; [|done]. cbn. destruct (frontend t r) as [k|]; [|done]. cbn. eauto.
Qed.

(** Tables whose routes front the same sockets, and whose sockets in use are still there
    where an edge reaches them. *)
Lemma provider_live_keeps t' d : provider_live t d ->
  (forall r k, dep_ProviderRouteID d = Some r -> frontend t r = Some k -> frontend t' r = Some k) ->
  (forall k e, et_endpoints t !! k = Some e -> so_Lifecycle e = LifecycleActive ->
     dep_ProviderEndpointID d = Some k \/ dep_ProviderRouteID d ≫= frontend t = Some k ->
     exists e', et_endpoints t' !! k = Some e' /\ so_Lifecycle e' = LifecycleActive) ->
  provider_live t' d.
Proof.
  intros (e & (k & Hk & Hs)%provider_keys & Hl) Hr He.
  destruct (He k e Hk Hl) as (e' & Hk' & Hl'); [naive_solver|]. exists e'. split; [|done]. unfold provider_socket.
  destruct Hs as [->|[-> Hs]]; [done|]. destruct (dep_ProviderRouteID d) as [r|]; [|done]. cbn in *.
  by rewrite (Hr r k eq_refl Hs).
Qed.

(** The count of the provider's check, on an edge with one side. *)
Lemma live_providers_spec d : dependency_checks d = true ->
  live_providers (dep_ProviderEndpointID d) (dep_ProviderRouteID d) t <> 0%nat -> provider_live t d.
Proof.
  intros Hc Hn. assert ((0 <? live_providers (dep_ProviderEndpointID d) (dep_ProviderRouteID d) t)%nat = true) as Hp.
  { apply Nat.ltb_lt. lia. }
  unfold live_providers in Hp. rewrite count_if_pos in Hp.
  apply existsb_elem_of in Hp as (e & (k & Hk)%elem_of_table & [Hl%String.eqb_eq Hx]%andb_true_iff).
  destruct (eo_endpoints _ (fl_ok _ Hf) k e Hk) as [<- _].
  unfold dependency_checks in Hc. apply andb_true_iff in Hc as [_ Hc]. exists e. split; [|done]. unfold provider_socket.
  destruct (dep_ProviderEndpointID d) as [a|], (dep_ProviderRouteID d) as [r|]; cbn in *; try done.
  - apply orb_true_iff in Hx as [<-%String.eqb_eq|Hx]; [done|]. unfold frontend in Hx. by rewrite (fl_routes _ Hf) in Hx.
  - apply orb_true_iff in Hx as [Hx%String.eqb_eq|Hx%bool_decide_eq_true].
    + rewrite Hx in Hk. by rewrite (fl_sockets _ Hf) in Hk.
    + by rewrite Hx.
Qed.

(** A dependency names rows that are there. *)
Lemma dependency_route_known k d r : et_dependencies t !! k = Some d -> dep_ProviderRouteID d = Some r -> is_Some (et_routes t !! r).
Proof.
  intros Hk Hr. destruct (eo_dependencies _ (fl_ok _ Hf) k d Hk) as [_ [_ _ _ Hp]].
  destruct Hp as [(e & _ & E & _)|(r' & _ & E & Hs)]; congruence.
Qed.
End Flow.

(** Sockets put: a new one, or one in use. *)
Lemma put_socket_flows t e t' : flowing t -> put_socket e t = inr t' -> so_Name e <> "" -> check_listening [] e = [] ->
  so_ID e <> "" -> (et_endpoints t !! so_ID e = None \/ so_Lifecycle e = LifecycleActive) -> flowing t'.
Proof.
  intros Hf Hp Hn Hl Hid Hor. pose proof (put_socket_ok t (fl_ok _ Hf) _ _ Hp Hn Hl) as Hok.
  apply put_edge_row_inv in Hp as (_ & _ & _ & ->). split; [done|..|cbn; rewrite lookup_insert_ne by done; by apply Hf|by apply Hf].
  intros k d Hk Ha. apply (provider_live_keeps t); [by eapply fl_live|done|]. intros j x Hj Hx _. cbn.
  destruct (decide (so_ID e = j)) as [<-|Hne]; [|rewrite lookup_insert_ne by done; eauto].
  rewrite lookup_insert_eq. destruct Hor as [Hfresh|?]; [congruence|eauto].
Qed.

Lemma retire_socket_flows t id at_ v t' : flowing t -> edges_through id t = 0%nat -> retire_socket id at_ v t = inr t' -> flowing t'.
Proof.
  intros Hf Hz Hr. pose proof (retire_socket_ok t (fl_ok _ Hf) _ _ _ _ Hr) as Hok.
  apply at_version_inv in Hr as (row & Hrow & _ & [= <-]).
  split; [done|..|cbn|by apply Hf].
  - intros k d Hk Ha. apply (provider_live_keeps t); [by eapply fl_live|done|]. intros j x Hj Hx Hs. cbn.
    rewrite lookup_insert_ne; [eauto|]. intros <-.
    assert ((0 <? edges_through id t)%nat = false) as Hz' by (by rewrite Hz).
    pose proof (count_rows_zero _ _ Hz' k d Hk) as Hc. cbn in Hc. unfold is_live in Hc. rewrite Ha in Hc. cbn in Hc.
    apply orb_false_iff in Hc as [?%bool_decide_eq_false ?%bool_decide_eq_false]. naive_solver.
  - rewrite lookup_insert_ne; [by apply Hf|]. intros ->. by rewrite (fl_sockets _ Hf) in Hrow.
Qed.

(** Routes put: a new one, or one that fronts what it fronted. *)
Lemma put_route_flows t r t' : flowing t -> put_route r t = inr t' -> ro_ID r <> "" ->
  (et_routes t !! ro_ID r = None \/ frontend t (ro_ID r) = Some (ro_FrontendEndpointID r)) -> flowing t'.
Proof.
  intros Hf Hp Hid Hor. pose proof (put_route_ok t (fl_ok _ Hf) _ _ Hp) as Hok.
  apply put_edge_row_inv in Hp as (_ & _ & _ & ->). split; [done|..|by apply Hf|cbn; rewrite lookup_insert_ne by done; by apply Hf].
  intros k d Hk Ha. apply (provider_live_keeps t); [by eapply fl_live| |eauto]. intros s j Hs Hj. unfold frontend in *. cbn.
  destruct (decide (ro_ID r = s)) as [<-|Hne]; [|by rewrite lookup_insert_ne].
  rewrite lookup_insert_eq. destruct Hor as [Hfresh|Hsame]; [by rewrite Hfresh in Hj|]. cbn. congruence.
Qed.

Lemma retire_route_flows t id at_ v t' : flowing t -> retire_route id at_ v t = inr t' -> flowing t'.
Proof.
  intros Hf Hr. pose proof (retire_route_ok t (fl_ok _ Hf) _ _ _ _ Hr) as Hok.
  apply at_version_inv in Hr as (row & Hrow & _ & [= <-]). split; [done|..|by apply Hf|cbn].
  - intros k d Hk Ha. apply (provider_live_keeps t); [by eapply fl_live| |eauto]. intros s j Hs Hj. unfold frontend in *. cbn.
    destruct (decide (id = s)) as [<-|Hne]; [|by rewrite lookup_insert_ne]. rewrite lookup_insert_eq. by rewrite Hrow in Hj.
  - rewrite lookup_insert_ne; [by apply Hf|]. intros ->. by rewrite (fl_routes _ Hf) in Hrow.
Qed.

(** Tables with the same sockets, routes and edges. *)
Lemma same_flow t t' : flowing t -> edges_ok t' -> et_endpoints t' = et_endpoints t -> et_routes t' = et_routes t ->
  et_dependencies t' = et_dependencies t -> flowing t'.
Proof.
  intros [] Hok He Hr Hd. split; [done| |by rewrite He|by rewrite Hr]. rewrite Hd. intros k d Hk Ha.
  apply (provider_live_keeps t); [eauto| |rewrite He; eauto]. unfold frontend. by rewrite Hr.
Qed.

(** An edge put, its provider shown to be live. *)
Lemma put_dependency_flows t d t' : flowing t -> put_dependency d t = inr t' -> validated d ->
  live_providers (dep_ProviderEndpointID d) (dep_ProviderRouteID d) t <> 0%nat -> flowing t'.
Proof.
  intros Hf Hp Hv Hl. pose proof (put_dependency_ok t (fl_ok _ Hf) _ _ Hp Hv) as Hok.
  apply put_edge_row_inv in Hp as (Hc & _ & _ & ->). split; [done|..|by apply Hf|by apply Hf].
  cbn. intros k x [[<- <-]|[_ Hk]]%lookup_insert_Some Ha; [by apply (live_providers_spec t)|by apply (fl_live t Hf k)].
Qed.

(** Edges whose last columns change, none of them to live. *)
Lemma stamp_edge_flows t f id : flowing t ->
  (forall d, exists by_ at_ l u v, f d = stamped_edge by_ at_ l u v d /\ (l = dep_Lifecycle d \/ l = LifecycleRetired)) ->
  flowing (with_dependencies (alter f id (et_dependencies t)) t).
Proof.
  intros Hf Hs. split; [by apply stamp_edge_ok, Hs; apply Hf|..|by apply Hf|by apply Hf].
  cbn. intros k d' (d & Hk & [->|[-> ->]])%alter_row Ha; [by apply (fl_live t Hf k)|].
  destruct (Hs d) as (b & a & l & u & v & E & Hl). rewrite E in *. cbn in Ha.
  destruct Hl as [->| ->]; [|done]. by apply (fl_live t Hf id d Hk).
Qed.

(** ** Operations keep what their statements keep *)

Section Kept.
Context `{Unicode} (NewID : nat -> string) (strict : bool) (I : EdgeTables -> Prop).

(** What the statements of the operations keep, each after the checks that come before
    it; [strict] when the requests are orderly. *)
Record statements_keep : Prop := {
  ke_insert_socket : forall t e t', I t -> insert_socket e t = inr t' -> so_Name e <> "" -> check_listening [] e = [] ->
    (strict = true -> so_ID e <> "") -> I t';
  ke_update_socket : forall t e at_ t', I t -> update_socket e at_ t = inr t' -> so_Name e <> "" -> check_listening [] e = [] ->
    (strict = true -> so_Lifecycle e = LifecycleActive) -> I t';
  ke_retire_socket : forall t id at_ v t', I t -> edges_through id t = 0%nat -> retire_socket id at_ v t = inr t' -> I t';
  ke_insert_pool : forall t p t', I t -> insert_pool p t = inr t' -> bp_Name p <> "" -> I t';
  ke_update_pool : forall t p at_ t', I t -> update_pool p at_ t = inr t' -> bp_Name p <> "" -> I t';
  ke_retire_pool : forall t id at_ v t', I t -> retire_pool id at_ v t = inr t' -> I t';
  ke_insert_member : forall t m t', I t -> insert_pool_member m t = inr t' -> I t';
  ke_insert_route : forall t r t', I t -> insert_route r t = inr t' -> (strict = true -> ro_ID r <> "") -> I t';
  ke_update_route : forall t r at_ t', I t -> update_route r at_ t = inr t' -> I t';
  ke_retire_route : forall t id at_ v t', I t -> retire_route id at_ v t = inr t' -> I t';
  ke_insert_dependency : forall t d t', I t -> live_providers (dep_ProviderEndpointID d) (dep_ProviderRouteID d) t <> 0%nat ->
    insert_dependency d t = inr t' -> validated d -> I t';
  ke_update_dependency : forall t d t', I t -> live_providers (dep_ProviderEndpointID d) (dep_ProviderRouteID d) t <> 0%nat ->
    update_dependency d t = inr t' -> validated d -> I t';
  ke_retire_dependency : forall t id at_ t', I t -> retire_dependency id at_ t = inr t' -> I t';
  ke_verify_dependency : forall t id who at_ t', I t -> verify_dependency id who at_ t = inr t' -> I t';
  ke_clear : forall t id, I t -> I (with_carried (List.filter (fun '(d, _) => negb (String.eqb d id)) (et_carried t)) t);
  ke_insert_class : forall t id c t', I t -> insert_class id c t = inr t' -> I t'
}.

Context (HI : statements_keep).

Lemma kept_requireVocabulary codes field v : keeps I (requireVocabulary codes field v).
Proof. by intros env st a st' ->%requireVocabulary_inv. Qed.

Lemma checks_requireLiveProvider e r : checks (requireLiveProvider e r) (fun t => live_providers e r t <> 0%nat).
Proof.
  apply checks_query. intros n. destruct (Nat.eqb_spec n 0); [apply checks_fail|].
  intros env st a st' [_ ->]%ret_inv. split; [done|]. by intros <-.
Qed.

Lemma checks_while_none count : checks (while_none count) (fun t => count t = 0%nat).
Proof.
  apply checks_query. intros n. destruct (Nat.ltb_spec 0 n); [apply checks_fail|].
  intros env st a st' [_ ->]%ret_inv. split; [done|]. intros <-. lia.
Qed.

Lemma kept_checks {A} (m : Tx EdgeTables A) Q : checks m Q -> keeps I m.
Proof. by intros Hm env st a st' [-> _]%Hm. Qed.

Lemma kept_setDataClasses id classes : keeps I (setDataClasses id classes).
Proof.
  destruct classes as [classes|]; [|apply kept_ret]. apply kept_bind.
  - apply kept_statement. intros t t' Ht [= <-]. by apply (ke_clear HI).
  - intros _. apply kept_each. intros c. destruct (String.eqb c ""); [apply kept_ret|].
    apply kept_bind; [apply kept_requireVocabulary|]. intros _. apply kept_statement.
    intros t t' Hi Ht. by eapply (ke_insert_class HI).
Qed.

#[local] Hint Resolve kept_requireVocabulary kept_setDataClasses : keeps.

Lemma CreateEndpoint_keeps fate p now e st : (strict = true -> so_ID e <> "") ->
  I (st_tables st) -> I (st_tables (CreateEndpoint NewID fate p now e st).2).
Proof.
  intros Hid Hi. unfold CreateEndpoint. destruct (ValidateSocket e) as [e' [ve|]] eqn:E; [done|].
  apply ValidateSocket_spec in E as (He & Hn & _ & Hl). cbv zeta. apply kept_write; [|done]. keeping.
  apply kept_statement. intros ? ? ? Ht. eapply (ke_insert_socket HI); [done|exact Ht|done..|]. cbn. by rewrite He.
Qed.

Lemma UpdateEndpoint_keeps seen fate p now e st : (strict = true -> so_Lifecycle e <> LifecycleRetired) ->
  I (st_tables st) -> I (st_tables (UpdateEndpoint NewID seen fate p now e st).2).
Proof.
  intros Hlife Hi. unfold UpdateEndpoint. destruct (ValidateSocket e) as [e' [ve|]] eqn:E; [done|].
  apply ValidateSocket_spec in E as (_ & Hn & Hact & Hl).
  destruct (GetEndpoint _ _) as [before|]; [|done]. destruct (et_services _ !! _) as [svc|]; [|done].
  destruct (String.eqb _ _); [done|]. destruct (SocketRetired _); [done|]. cbv zeta. apply kept_write; [|done]. keeping.
  apply kept_statement. intros ? ? ? Ht. eapply (ke_update_socket HI); [done|exact Ht|done..|]. auto.
Qed.

Lemma RetireEndpoint_keeps seen fates p now id st :
  I (st_tables st) -> I (st_tables (RetireEndpoint NewID seen fates p now id st).2).
Proof.
  intros Hi. unfold RetireEndpoint. destruct (GetEndpoint _ _) as [before|]; [|done]. destruct (SocketRetired _); [done|].
  apply leads_writeSerializable with (P := I); [|done..]. eapply leads_after; [apply checks_while_none|]. intros _.
  eapply leads_after; [apply checks_while_none|]. intros _. apply leads_statement; [|intros; apply kept_log].
  intros t t' [[Ht Hz] _] Hr. by eapply (ke_retire_socket HI).
Qed.

Lemma CreateBackendPool_keeps fate p now pool st :
  I (st_tables st) -> I (st_tables (CreateBackendPool NewID fate p now pool st).2).
Proof.
  intros Hi. unfold CreateBackendPool. destruct (ValidateBackendPool pool) as [pool' [ve|]] eqn:E; [done|].
  apply ValidateBackendPool_spec in E as (_ & Hn & _). cbv zeta. apply kept_write; [|done]. keeping.
  apply kept_statement. intros ? ? ? Ht. by eapply (ke_insert_pool HI).
Qed.

Lemma UpdateBackendPool_keeps seen fate p now pool st :
  I (st_tables st) -> I (st_tables (UpdateBackendPool NewID seen fate p now pool st).2).
Proof.
  intros Hi. unfold UpdateBackendPool. destruct (et_pools _ !! _) as [before|]; [|done].
  destruct (ValidateBackendPool _) as [pool' [ve|]] eqn:E; [done|].
  apply ValidateBackendPool_spec in E as (_ & Hn & _). cbv zeta. apply kept_write; [|done]. keeping.
  apply kept_statement. intros ? ? ? Ht. by eapply (ke_update_pool HI).
Qed.

Lemma RetireBackendPool_keeps seen fates p now id st :
  I (st_tables st) -> I (st_tables (RetireBackendPool NewID seen fates p now id st).2).
Proof.
  intros Hi. unfold RetireBackendPool. destruct (et_pools _ !! _) as [before|]; [|done]. destruct (PoolRetired _); [done|].
  cbv zeta. apply kept_writeSerializable; [|done]. keeping.
  apply kept_statement. intros ? ? ? Ht. by eapply (ke_retire_pool HI).
Qed.

Lemma AddBackendMember_keeps fate p now m st :
  I (st_tables st) -> I (st_tables (AddBackendMember NewID fate p now m st).2).
Proof.
  intros Hi. unfold AddBackendMember. apply kept_write; [|done]. keeping.
  apply kept_statement. intros ? ? ? Ht. by eapply (ke_insert_member HI).
Qed.

Lemma CreateRoute_keeps fate p now r st : (strict = true -> ro_ID r <> "") ->
  I (st_tables st) -> I (st_tables (CreateRoute NewID fate p now r st).2).
Proof.
  intros Hid Hi. unfold CreateRoute. destruct (ValidateRoute r); [done|]. cbv zeta. apply kept_write; [|done]. keeping.
  apply kept_statement. intros ? ? ? Ht. by eapply (ke_insert_route HI).
Qed.

Lemma UpdateRoute_keeps seen fate p now r st :
  I (st_tables st) -> I (st_tables (UpdateRoute NewID seen fate p now r st).2).
Proof.
  intros Hi. unfold UpdateRoute. destruct (et_routes _ !! _) as [before|]; [|done]. cbv zeta. destruct (ValidateRoute _); [done|].
  apply kept_write; [|done]. keeping. apply kept_statement. intros ? ? ? Ht. by eapply (ke_update_route HI).
Qed.

Lemma RetireRoute_keeps seen fates p now id st :
  I (st_tables st) -> I (st_tables (RetireRoute NewID seen fates p now id st).2).
Proof.
  intros Hi. unfold RetireRoute. destruct (et_routes _ !! _) as [before|]; [|done]. destruct (RouteRetired _); [done|].
  cbv zeta. apply kept_writeSerializable; [|done]. keeping.
  apply kept_statement. intros ? ? ? Ht. by eapply (ke_retire_route HI).
Qed.

Lemma CreateDependency_keeps seen fates p now d classes st :
  I (st_tables st) -> I (st_tables (CreateDependency NewID seen fates p now d classes st).2).
Proof.
  intros Hi. unfold CreateDependency. destruct (ValidateDependency _) as [d' [ve|]] eqn:E; [done|].
  apply ValidateDependency_spec in E as [Hv%(graded_validated (PermitActor p)) _].
  destruct (CheckProvenanceWrite _ _); [done|]. cbv zeta. destruct (authorizeDependencySubjects _ _ _ _ _ _); [done|].
  apply leads_writeSerializable with (P := I); [|done..]. eapply leads_after; [apply checks_requireLiveProvider|]. intros _.
  apply leads_statement; [|intros; keeping]. intros t t' [Ht Hl] Hins. by eapply (ke_insert_dependency HI).
Qed.

Lemma pinned_validated before d at_ : validated d -> validated (pinned before d at_).
Proof. by intros []. Qed.

Lemma UpdateDependency_keeps seen fates p now d classes st :
  I (st_tables st) -> I (st_tables (UpdateDependency NewID seen fates p now d classes st).2).
Proof.
  intros Hi. unfold UpdateDependency. destruct (ValidateDependency _) as [d' [ve|]] eqn:E; [done|].
  apply ValidateDependency_spec in E as [Hv%(graded_validated (PermitActor p)) _].
  destruct (CheckProvenanceWrite _ _); [done|]. cbv zeta. destruct (GetDependency _ _) as [before|]; [|done].
  do 2 (destruct (authorizeDependencySubjects _ _ _ _ _ _); [done|]).
  apply leads_writeSerializable with (P := I); [|done..]. eapply leads_after; [apply checks_requireLiveProvider|]. intros _.
  apply leads_statement; [|intros; keeping]. intros t t' [Ht Hl] Hup. eapply (ke_update_dependency HI); [exact Ht|exact Hl|exact Hup|].
  by apply pinned_validated.
Qed.

Lemma RetireDependency_keeps seen fate p now id st :
  I (st_tables st) -> I (st_tables (RetireDependency NewID seen fate p now id st).2).
Proof.
  intros Hi. unfold RetireDependency. destruct (GetDependency _ _) as [before|]; [|done]. destruct (String.eqb _ _); [done|].
  destruct (authorizeDependencySubjects _ _ _ _ _ _); [done|]. apply kept_write; [|done]. keeping.
  apply kept_statement. intros ? ? ? Ht. by eapply (ke_retire_dependency HI).
Qed.

Lemma VerifyDependency_keeps seen fate p now id st :
  I (st_tables st) -> I (st_tables (VerifyDependency NewID seen fate p now id st).2).
Proof.
  intros Hi. unfold VerifyDependency. destruct (CheckAttestationWrite _); [done|]. destruct (GetDependency _ _) as [before|]; [|done].
  destruct (authorizeDependencySubjects _ _ _ _ _ _); [done|]. cbv zeta. apply kept_write; [|done]. keeping.
  apply kept_statement. intros ? ? ? Ht. by eapply (ke_verify_dependency HI).
Qed.

Lemma run_edge_keeps st r : (strict = true -> orderly r) -> I (st_tables st) -> I (st_tables (run_edge NewID st r).2).
Proof.
  unfold orderly, run_edge. intros Ho Hi. destruct (eq_op r);
    [by apply CreateEndpoint_keeps|by apply UpdateEndpoint_keeps|by apply RetireEndpoint_keeps|by apply CreateBackendPool_keeps
    |by apply UpdateBackendPool_keeps|by apply RetireBackendPool_keeps|by apply AddBackendMember_keeps|by apply CreateRoute_keeps
    |by apply UpdateRoute_keeps|by apply RetireRoute_keeps|by apply CreateDependency_keeps|by apply UpdateDependency_keeps
    |by apply RetireDependency_keeps|by apply VerifyDependency_keeps].
Qed.

Lemma run_edges_keep st rs : (strict = true -> Forall orderly rs) -> I (st_tables st) -> I (st_tables (run_edges NewID st rs)).
Proof.
  unfold run_edges. revert st. induction rs as [|r rs IH]; intros st Ho Hi; [done|]. cbn [foldl].
  assert (strict = true -> orderly r /\ Forall orderly rs) as Ho' by (intros Hs; by apply Forall_cons, Ho).
  apply IH; [by intros [_ ?]%Ho'|]. apply run_edge_keeps; [by intros [? _]%Ho'|done].
Qed.
End Kept.

(** The two invariants. *)
Lemma edges_ok_statements : statements_keep false edges_ok.
Proof.
  split; intros;
    [eapply insert_socket_ok|eapply update_socket_ok|eapply retire_socket_ok|eapply insert_pool_ok|eapply update_pool_ok
    |eapply retire_pool_ok|eapply insert_pool_member_ok|eapply insert_route_ok|eapply update_route_ok|eapply retire_route_ok
    |eapply insert_dependency_ok|eapply update_dependency_ok|eapply retire_dependency_ok|eapply verify_dependency_ok
    |eapply cleared_ok|eapply insert_class_ok]; eassumption.
Qed.

Lemma flowing_statements : statements_keep true flowing.
Proof.
  split.
  - intros t e t' Hf [Hnew Hp]%insert_fresh Hn Hl Hid. eapply put_socket_flows; eauto.
  - intros t e at_ t' Hf (row & Hrow & _ & Hp)%at_version_inv Hn Hl Ha. specialize (Ha eq_refl).
    eapply put_socket_flows; [exact Hf|exact Hp|done..| |by right]. cbn.
    destruct (eo_endpoints _ (fl_ok _ Hf) _ _ Hrow) as [-> _]. intros E. rewrite E in Hrow. by rewrite (fl_sockets _ Hf) in Hrow.
  - intros t id at_ v t' Hf Hz Hr. by eapply retire_socket_flows.
  - intros t p t' Hf Hp Hn. pose proof (insert_pool_ok _ (fl_ok _ Hf) _ _ Hp Hn).
    apply insert_fresh in Hp as [_ (_ & _ & _ & ->)%put_edge_row_inv]. by apply (same_flow t).
  - intros t p at_ t' Hf Hp Hn. pose proof (update_pool_ok _ (fl_ok _ Hf) _ _ _ Hp Hn).
    apply at_version_inv in Hp as (row & _ & _ & (_ & _ & _ & ->)%put_edge_row_inv). by apply (same_flow t).
  - intros t id at_ v t' Hf Hp. pose proof (retire_pool_ok _ (fl_ok _ Hf) _ _ _ _ Hp).
    apply at_version_inv in Hp as (row & _ & _ & [= <-]). by apply (same_flow t).
  - intros t m t' Hf Hp. pose proof (insert_pool_member_ok _ (fl_ok _ Hf) _ _ Hp).
    apply put_edge_row_inv in Hp as (_ & _ & _ & ->). by apply (same_flow t).
  - intros t r t' Hf [Hnew Hp]%insert_fresh Hid. eapply put_route_flows; eauto.
  - intros t r at_ t' Hf (row & Hrow & _ & Hp)%at_version_inv.
    destruct (eo_routes _ (fl_ok _ Hf) _ _ Hrow) as [Hid _].
    eapply put_route_flows; [exact Hf|exact Hp|..]; cbn; rewrite Hid.
    + intros E. rewrite E in Hrow. by rewrite (fl_routes _ Hf) in Hrow.
    + right. unfold frontend. by rewrite Hrow.
  - intros t id at_ v t' Hf Hr. by eapply retire_route_flows.
  - intros t d t' Hf Hl [_ Hp]%insert_fresh Hv. by eapply put_dependency_flows.
  - intros t d t' Hf Hl (row & Hrow & _ & Hp)%at_version_inv Hv. eapply put_dependency_flows; [exact Hf|exact Hp| |exact Hl].
    by destruct Hv.
  - intros t id at_ t' Hf [= <-]. apply stamp_edge_flows; [done|]. intros d. do 5 eexists. split; [done|]. by right.
  - intros t id who at_ t' Hf [= <-]. apply stamp_edge_flows; [done|]. intros d. do 5 eexists. split; [done|]. by left.
  - intros t id Hf. apply (same_flow t); try done. apply cleared_ok, Hf.
  - intros t id c t' Hf Hp. pose proof (insert_class_ok _ (fl_ok _ Hf) _ _ _ Hp).
    apply put_edge_row_inv in Hp as (_ & _ & _ & ->). by apply (same_flow t).
Qed.

(** ** Writes of one edge *)

Section Confined.
Context `{Unicode} (NewID : nat -> string) (id : string) (t0 : EdgeTables).

Lemma confined_put d t t' : edge_confined id t0 t -> put_dependency d t = inr t' -> dep_ID d = id -> edge_confined id t0 t'.
Proof.
  intros [Ho He Hc Hk] (_ & _ & _ & ->)%put_edge_row_inv <-. split; cbn; [exact Ho| |done|].
  - intros k Hn. rewrite lookup_insert_ne by done. auto.
  - intros k x [[<- <-]|[_ Hx]]%lookup_insert_Some; eauto.
Qed.

Lemma confined_alter f t : (forall d, dep_ID (f d) = dep_ID d) -> edge_confined id t0 t ->
  edge_confined id t0 (with_dependencies (alter f id (et_dependencies t)) t).
Proof.
  intros Hf [Ho He Hc Hk]. split; cbn; [exact Ho| |done|].
  - intros k Hn. rewrite lookup_alter_ne by done. auto.
  - intros k x (d & Hd & [->|[_ ->]])%alter_row; rewrite ?Hf; eauto.
Qed.

Lemma confined_carried c t : List.filter (not_of id) c = List.filter (not_of id) (et_carried t) ->
  edge_confined id t0 t -> edge_confined id t0 (with_carried c t).
Proof. intros Hc' [Ho He Hc Hk]. split; cbn; [exact Ho|done|congruence|done]. Qed.

Lemma confined_classes classes : keeps (edge_confined id t0) (setDataClasses id classes).
Proof.
  destruct classes as [classes|]; [|apply kept_ret]. apply kept_bind.
  - apply kept_statement. intros t t' Ht [= <-]. apply confined_carried; [|done]. rewrite filter_filter.
    apply List.filter_ext. intros [d c]. cbn. by destruct (String.eqb d id).
  - intros _. apply kept_each. intros c. destruct (String.eqb c ""); [apply kept_ret|].
    apply kept_bind; [apply kept_requireVocabulary|]. intros _. apply kept_statement.
    intros t t' Ht (_ & _ & _ & ->)%put_edge_row_inv. apply confined_carried; [|done].
    rewrite List.filter_app. cbn. rewrite String.eqb_refl. apply app_nil_r.
Qed.
End Confined.

Section EdgeWrites.
Context `{Unicode} (NewID : nat -> string).

#[local] Hint Resolve guarded_requireVocabulary guarded_each : tx.

Lemma guarded_requireLiveProvider e r : guarded (requireLiveProvider e r).
Proof. unfold requireLiveProvider. guarding. Qed.

Lemma guarded_setDataClasses id classes : guarded (setDataClasses id classes).
Proof. unfold setDataClasses. guarding. apply guarded_each. guarding. Qed.

#[local] Hint Resolve guarded_requireLiveProvider guarded_setDataClasses : tx.

Definition keyed_edges (t : EdgeTables) : Prop := forall k d, et_dependencies t !! k = Some d -> dep_ID d = k.

(** A body under the permit of one edge. *)
Lemma confined_written {A} p now (fn : Tx EdgeTables A) id st res (Q : Prop) : keyed_edges (st_tables st) -> Q ->
  guarded fn -> keeps (edge_confined id (st_tables st)) fn -> written_by (Some (narrow p "dependency" [id])) now fn st res ->
  res.2 = st \/ edge_write p id st res.2 /\ Q.
Proof.
  intros Hk HQ Hg Hc [e|a st' Hrun]; [by left|]. right. cbn. split; [|done]. split; [by eapply Hc|].
  destruct (Hg _ _ _ _ Hrun) as [(logged & Hl & Hs) _]. exists logged. split; [done|].
  eapply Forall_impl; [exact Hs|]. intros c ((q & [= <-] & Hq) & Ha & _).
  apply narrow_Covers in Hq as [-> ->%list_elem_of_singleton]; [done|]. do 2 apply list_elem_of_further. apply list_elem_of_here.
Qed.

Lemma authorizeDependencySubjects_inv t p c e r id permit : authorizeDependencySubjects t p c e r id = inr permit ->
  permit = narrow p "dependency" [id] /\ Covers p "service" c = true /\
  exists s, resolveProviderService t e r = inr s /\ Covers p "service" s = true.
Proof.
  unfold authorizeDependencySubjects. destruct (resolveProviderService t e r) as [|s]; [done|].
  destruct (Covers p "service" c) eqn:Hc; [|done]. cbn. destruct (Covers p "service" s) eqn:Hs; [|done]. intros [= <-]. eauto.
Qed.

Lemma kept_confined id t {A} (m : Tx EdgeTables A) Q : checks m Q -> keeps (edge_confined id t) m.
Proof. by intros Hm env st a st' [-> _]%Hm. Qed.

Lemma ValidateDependency_keeps d d' err : ValidateDependency d = (d', err) -> dep_ID d' = dep_ID d.
Proof.
  unfold ValidateDependency. destruct (checkRequired _ _ _) as [v1 ?], (checkRequired _ _ (dep_FailureMode d)) as [v2 ?].
  by intros [= <- _].
Qed.

Lemma ValidateDependency_version b a l u v d : (ValidateDependency (stamped_edge b a l u v d)).2 = (ValidateDependency d).2 /\
  dep_ConsumerServiceID (ValidateDependency (stamped_edge b a l u v d)).1 = dep_ConsumerServiceID (ValidateDependency d).1 /\
  dep_ProviderEndpointID (ValidateDependency (stamped_edge b a l u v d)).1 = dep_ProviderEndpointID (ValidateDependency d).1 /\
  dep_ProviderRouteID (ValidateDependency (stamped_edge b a l u v d)).1 = dep_ProviderRouteID (ValidateDependency d).1.
Proof. by split_and!. Qed.

Lemma CreateDependency_confined seen fates p now d classes st :
  keyed_edges (st_tables st) -> let st' := (CreateDependency NewID seen fates p now d classes st).2 in
  st' = st \/ edge_write p (dep_ID d) st st' /\ Forall (covers_ends seen p) (edge_ends seen (OpCreateDependency d classes)).
Proof.
  intros Hk. cbv zeta. unfold CreateDependency.
  destruct (ValidateDependency_version (dep_VerifiedBy d) (dep_VerifiedAt d) (dep_Lifecycle d) (dep_UpdatedAt d) 1 d) as (_ & Ec & Ee & Er).
  destruct (ValidateDependency (stamped_edge _ _ _ _ _ _)) as [d' [ve|]] eqn:E; [by left|]. apply ValidateDependency_keeps in E.
  destruct (CheckProvenanceWrite _ _); [by left|]. cbv zeta.
  destruct (authorizeDependencySubjects _ _ _ _ _ _) as [|permit] eqn:Ea; [by left|].
  apply authorizeDependencySubjects_inv in Ea as (-> & Hcov). cbn [fst] in Ec, Ee, Er. cbn in E, Hcov.
  cbn -[ValidateDependency]. rewrite E.
  eapply confined_written; [done| | | |apply writeSerializable_written].
  - apply Forall_singleton. unfold covers_ends. by rewrite <- Ec, <- Ee, <- Er.
  - guarding.
  - keeping; [|by apply confined_classes].
    apply kept_statement. intros t t' Ht [_ Hp]%insert_fresh. by eapply confined_put.
Qed.

Lemma UpdateDependency_confined seen fates p now d classes st :
  keyed_edges (st_tables st) -> let st' := (UpdateDependency NewID seen fates p now d classes st).2 in
  st' = st \/ edge_write p (dep_ID d) st st' /\ Forall (covers_ends seen p) (edge_ends seen (OpUpdateDependency d classes)).
Proof.
  intros Hk. cbv zeta. unfold UpdateDependency. cbn [edge_ends].
  destruct (ValidateDependency d) as [d' [ve|]] eqn:E; [by left|]. apply ValidateDependency_keeps in E.
  destruct (CheckProvenanceWrite _ _); [by left|]. cbn -[ValidateDependency]. rewrite E.
  destruct (GetDependency seen (dep_ID d)) as [before|] eqn:Eb; [|by left].
  destruct (authorizeDependencySubjects _ _ _ _ _ _) as [|permit] eqn:Ea; [by left|].
  apply authorizeDependencySubjects_inv in Ea as (_ & Hbefore).
  destruct (authorizeDependencySubjects _ _ _ _ _ _) as [|permit'] eqn:Ea; [by left|].
  apply authorizeDependencySubjects_inv in Ea as (-> & Hcov).
  eapply confined_written; [done| | | |apply writeSerializable_written].
  - apply Forall_cons. split; [done|]. by apply Forall_singleton.
  - guarding.
  - keeping; [|by apply confined_classes].
    apply kept_statement. intros t t' Ht (row & Hrow & _ & Hp)%at_version_inv. eapply confined_put; [exact Ht|exact Hp|].
    cbn in Hrow |- *. rewrite (ec_keys _ _ _ Ht _ _ Hrow). done.
Qed.

Lemma RetireDependency_confined seen fate p now id st :
  keyed_edges (st_tables st) -> let st' := (RetireDependency NewID seen fate p now id st).2 in
  st' = st \/ edge_write p id st st' /\ Forall (covers_ends seen p) (edge_ends seen (OpRetireDependency id)).
Proof.
  intros Hk. cbv zeta. unfold RetireDependency. cbn [edge_ends].
  destruct (GetDependency seen id) as [before|]; [|by left]. destruct (String.eqb _ _); [by left|].
  destruct (authorizeDependencySubjects _ _ _ _ _ _) as [|permit] eqn:Ea; [by left|].
  apply authorizeDependencySubjects_inv in Ea as (-> & Hcov).
  eapply confined_written; [done| | | |apply write_written].
  - by apply Forall_singleton.
  - guarding.
  - keeping. apply kept_statement. intros t t' Ht [= <-]. by apply confined_alter.
Qed.

Lemma VerifyDependency_confined seen fate p now id st :
  keyed_edges (st_tables st) -> let st' := (VerifyDependency NewID seen fate p now id st).2 in
  st' = st \/ edge_write p id st st' /\ Forall (covers_ends seen p) (edge_ends seen (OpVerifyDependency id)).
Proof.
  intros Hk. cbv zeta. unfold VerifyDependency. cbn [edge_ends]. destruct (CheckAttestationWrite _); [by left|].
  destruct (GetDependency seen id) as [before|]; [|by left].
  destruct (authorizeDependencySubjects _ _ _ _ _ _) as [|permit] eqn:Ea; [by left|].
  apply authorizeDependencySubjects_inv in Ea as (-> & Hcov). cbv zeta.
  eapply confined_written; [done| | | |apply write_written].
  - by apply Forall_singleton.
  - guarding.
  - keeping. apply kept_statement. intros t t' Ht [= <-]. by apply confined_alter.
Qed.
End EdgeWrites.

(** ** Columns that stay *)

Section Pinned.
Context `{Unicode} (NewID : nat -> string).

(** The statements of sockets, pools and routes leave the edges as they are. *)
Ltac leaves :=
  repeat match goal with
  | Hst : (if known _ _ then _ else _) = inr _ |- _ => apply insert_fresh in Hst as [_ Hst]
  | Hst : at_version _ _ _ _ _ = inr _ |- _ => apply at_version_inv in Hst as (? & _ & _ & Hst); cbv beta in Hst
  | Hst : put_edge_row _ _ _ _ = inr _ |- _ => apply put_edge_row_inv in Hst as (_ & _ & _ & ->)
  | Hst : inr _ = inr _ |- _ => injection Hst as <-
  end; done.

Lemma edges_untouched st r : edge_asked (eq_op r) = None ->
  et_dependencies (st_tables (run_edge NewID st r).2) = et_dependencies (st_tables st).
Proof.
  intros Hr. set (I := fun t => et_dependencies t = et_dependencies (st_tables st)). change (I (st_tables (run_edge NewID st r).2)).
  assert (I (st_tables st)) as Hi by done. unfold run_edge. destruct (eq_op r); try done;
    unfold CreateEndpoint, UpdateEndpoint, RetireEndpoint, CreateBackendPool, UpdateBackendPool, RetireBackendPool,
      AddBackendMember, CreateRoute, UpdateRoute, RetireRoute; cbv zeta; repeat (case_match; try done);
    ((apply kept_write || apply kept_writeSerializable); [|exact Hi]); keeping; apply kept_statement;
    intros t t' Ht Hst; unfold I in *; rewrite <- Ht; clear Ht;
    unfold insert_socket, update_socket, retire_socket, insert_pool, update_pool, retire_pool, insert_pool_member, insert_route,
      update_route, retire_route in Hst; unfold put_socket, put_pool, put_route in Hst; leaves.
Qed.

(** An edge kept in its row, with the columns that stay. *)
Definition stays (r : EdgeRequest) (k : string) (d : Dependency) (t : EdgeTables) : Prop :=
  exists d', et_dependencies t !! k = Some d' /\ pinned_columns r k d d'.

Lemma pinned_refl r k d : pinned_columns r k d d.
Proof. repeat split; auto. Qed.

Lemma stays_classes r k d id classes : keeps (stays r k d) (setDataClasses id classes).
Proof.
  destruct classes as [classes|]; [|apply kept_ret]. apply kept_bind.
  - by apply kept_statement; intros t t' Ht [= <-].
  - intros _. apply kept_each. intros c. destruct (String.eqb c ""); [apply kept_ret|].
    apply kept_bind; [apply kept_requireVocabulary|]. intros _. apply kept_statement.
    by intros t t' Ht (_ & _ & _ & ->)%put_edge_row_inv.
Qed.

#[local] Hint Resolve stays_classes : keeps.

Lemma run_edge_stays st r k d : keyed_edges (st_tables st) -> eq_seen r = st_tables st ->
  et_dependencies (st_tables st) !! k = Some d -> edge_asked (eq_op r) = Some k ->
  stays r k d (st_tables (run_edge NewID st r).2).
Proof.
  intros Hkeys Hseen Hk Ha. assert (stays r k d (st_tables st)) as Hst by (exists d; split; [done|apply pinned_refl]).
  unfold run_edge. rewrite Hseen. destruct (eq_op r) as [| | | | | | | | | |x classes|x classes|id|id] eqn:Hop; try done;
    injection Ha as Hid.
  - unfold CreateDependency. destruct (ValidateDependency _) as [x' [ve|]] eqn:E; [done|]. apply ValidateDependency_keeps in E.
    destruct (CheckProvenanceWrite _ _); [done|]. cbv zeta. destruct (authorizeDependencySubjects _ _ _ _ _ _); [done|].
    apply leads_writeSerializable with (P := fun t => et_dependencies t !! k = Some d) (R := stays r k d); [|done..].
    eapply leads_after; [apply checks_requireLiveProvider|]. intros _. apply leads_statement; [|intros; keeping].
    intros t t' [Ht _] [Hnew _]%insert_fresh. cbn in Hnew, E. congruence.
  - unfold UpdateDependency. destruct (ValidateDependency _) as [x' [ve|]] eqn:E; [done|]. apply ValidateDependency_keeps in E.
    destruct (CheckProvenanceWrite _ _); [done|]. cbn -[ValidateDependency pinned]. rewrite E, Hid. unfold GetDependency. rewrite Hk. cbn -[pinned].
    destruct (known _ _); [|done]. do 2 (destruct (authorizeDependencySubjects _ _ _ _ _ _); [done|]).
    apply leads_writeSerializable with (P := fun t => et_dependencies t !! k = Some d) (R := stays r k d); [|done..].
    eapply leads_after; [apply checks_requireLiveProvider|]. intros _. apply leads_statement; [|intros; keeping].
    intros t t' [Ht _] (row & Hrow & _ & (_ & _ & _ & ->)%put_edge_row_inv)%at_version_inv. cbn in Hrow, E |- *.
    assert (row = d) as -> by congruence. exists (corrected (pinned d (graded (PermitActor (eq_permit r)) x') (FormatTime (eq_now r))) d).
    split; [|by repeat split; auto]. cbn. rewrite (Hkeys _ _ Hk). apply lookup_insert_eq.
  - subst id. unfold RetireDependency. destruct (GetDependency _ _) as [before|]; [|done]. destruct (String.eqb _ _); [done|].
    destruct (authorizeDependencySubjects _ _ _ _ _ _); [done|].
    apply leads_write with (P := fun t => et_dependencies t !! k = Some d) (R := stays r k d); [|done..]. apply leads_statement; [|intros; apply kept_log].
    intros t t' Ht [= <-]. eexists. split; [cbn; by rewrite lookup_alter_eq, Ht|]. repeat split; auto.
  - subst id. unfold VerifyDependency. destruct (CheckAttestationWrite _) eqn:Hatt; [done|]. destruct (GetDependency _ _) as [before|]; [|done].
    destruct (authorizeDependencySubjects _ _ _ _ _ _); [done|]. cbv zeta.
    apply leads_write with (P := fun t => et_dependencies t !! k = Some d) (R := stays r k d); [|done..]. apply leads_statement; [|intros; apply kept_logUpdate].
    intros t t' Ht [= <-]. eexists. split; [cbn; by rewrite lookup_alter_eq, Ht|]. unfold CheckAttestationWrite in Hatt.
    destruct (String.eqb_spec (ac_Kind (PermitActor (eq_permit r))) ActorKindUser); [|done]. repeat split; auto.
Qed.
End Pinned.

(** ** Outcomes *)

Lemma while_none_run count env (st : Store EdgeTables) :
  while_none count env st = if (0 <? count (st_tables st))%nat then inl (Wrapped ErrConflict) else inr (tt, st).
Proof. unfold while_none, query, mbind, Tx_bind. by destruct (0 <? count (st_tables st))%nat. Qed.

Lemma retire_body_run (id at_ : string) version env (st : Store EdgeTables) (k : Tx EdgeTables unit) :
  (_ ← while_none (edges_through id); _ ← while_none (pools_of id); _ ← statement (retire_socket id at_ version); k) env st =
  if (0 <? edges_through id (st_tables st))%nat || (0 <? pools_of id (st_tables st))%nat then inl (Wrapped ErrConflict)
  else match et_endpoints (st_tables st) !! id with
  | Some row =>
      if (so_RowVersion row =? version)%Z
      then k env (MkStore (with_endpoints (<[id := retired_socket at_ row]> (et_endpoints (st_tables st))) (st_tables st))
                    (st_log st) (st_ids st))
      else inl (Wrapped ErrStale)
  | None => inl (Wrapped ErrStale)
  end.
Proof.
  unfold mbind, Tx_bind. rewrite while_none_run. destruct (0 <? edges_through id _)%nat; [done|].
  rewrite while_none_run. cbn [orb]. destruct (0 <? pools_of id _)%nat; [done|].
  unfold statement, retire_socket, at_version. destruct (et_endpoints _ !! id) as [row|]; [|done].
  by destruct (so_RowVersion row =? version)%Z.
Qed.

(** The same classes in another order are the same audited row. *)
Lemma audited_classes_order d classes classes' : classes ≡ₚ classes' -> auditedDependency d classes = auditedDependency d classes'.
Proof.
  intros Hp. unfold auditedDependency. enough (isort str_ltb classes = isort str_ltb classes') as -> by done.
  apply (sorted_by_unique str_ltb); [intros x y _ _; apply str_ltb_total|exact (isort_sorted str_ltb _)..|by rewrite !isort_perm].
Qed.

(** * Theorems *)

Section Theorems.
Context `{Unicode} (NewID : nat -> string).

(** C13. Whatever requests are made of the dependency graph, in whatever order, on whatever they
    read and whether they commit or not, its tables stay well formed: every socket
    listens at a path or on a port from 1 to 65535 and shares its name with no other of
    its service, no two live pools of a service share theirs, members, routes and edges
    name rows that exist, an edge has one provider, a known nature, source and lifecycle,
    a failure mode, a tolerance when it is asynchronous and a confidence from 0 to 1, and
    the classes it carries are of the vocabulary, each once. *)
Theorem edges_well_formed st rs : edges_ok (st_tables st) -> edges_ok (st_tables (run_edges NewID st rs)).
Proof. by apply (run_edges_keep NewID false _ edges_ok_statements). Qed.

(** C12. Both ends of an edge are asked for. A request that writes an edge changes nothing, or it
    changes that edge alone, its row and the classes it carries, logs rows about it alone
    in the name of the one who asked, and the permit it came with covers the consumer's
    service and the provider's: of the edge as stored where there is one, and of the edge
    as submitted where one is. *)
Theorem dependency_confined st r id :
  edges_ok (st_tables st) -> edge_asked (eq_op r) = Some id ->
  let st' := (run_edge NewID st r).2 in
  st' = st \/ edge_write (eq_permit r) id st st' /\ Forall (covers_ends (eq_seen r) (eq_permit r)) (edge_ends (eq_seen r) (eq_op r)).
Proof.
  intros Hok. assert (keyed_edges (st_tables st)) as Hk by (intros k d Hd; by destruct (eo_dependencies _ Hok k d Hd)).
  cbv zeta. unfold run_edge. destruct (eq_op r); try done; intros [= <-];
    [by apply CreateDependency_confined|by apply UpdateDependency_confined|by apply RetireDependency_confined
    |by apply VerifyDependency_confined].
Qed.

(** C14. An edge keeps what only one operation may write. Through any request made on what the
    tables hold, an edge stays in its row with the consumer, the source and the dates it
    was declared with; who verified it and when change only by a verification, to the
    person who asked for it and the time they did; and its lifecycle changes only by its
    retirement, to retired. *)
Theorem edge_columns_stay st r id d :
  edges_ok (st_tables st) -> eq_seen r = st_tables st -> et_dependencies (st_tables st) !! id = Some d ->
  exists d', et_dependencies (st_tables (run_edge NewID st r).2) !! id = Some d' /\ pinned_columns r id d d'.
Proof.
  intros Hok Hseen Hd. assert (keyed_edges (st_tables st)) as Hk by (intros k x Hx; by destruct (eo_dependencies _ Hok k x Hx)).
  destruct (edge_asked (eq_op r)) as [k|] eqn:Ha.
  - destruct (decide (k = id)) as [->|Hne]; [by apply run_edge_stays|].
    assert (et_dependencies (st_tables (run_edge NewID st r).2) !! id = Some d) as Hsame.
    { assert ((run_edge NewID st r).2 = st \/ edge_confined k (st_tables st) (st_tables (run_edge NewID st r).2)) as [->|Hc]; [|done|].
      - unfold run_edge. destruct (eq_op r) as [| | | | | | | | | |x cl|x cl|i|i]; try done; injection Ha as <-.
        + destruct (CreateDependency_confined NewID (eq_seen r) (eq_fates r) (eq_permit r) (eq_now r) x cl st Hk) as [?|[[? _] _]]; auto.
        + destruct (UpdateDependency_confined NewID (eq_seen r) (eq_fates r) (eq_permit r) (eq_now r) x cl st Hk) as [?|[[? _] _]]; auto.
        + destruct (RetireDependency_confined NewID (eq_seen r) (eq_fate r) (eq_permit r) (eq_now r) i st Hk) as [?|[[? _] _]]; auto.
        + destruct (VerifyDependency_confined NewID (eq_seen r) (eq_fate r) (eq_permit r) (eq_now r) i st Hk) as [?|[[? _] _]]; auto.
      - by rewrite (ec_edges _ _ _ Hc). }
    exists d. split; [done|apply pinned_refl].
  - exists d. rewrite edges_untouched by done. split; [done|apply pinned_refl].
Qed.

(** C15. The withdrawal of a socket, on what the tables hold and with one of its attempts
    committing: not found when it is not there, no change when it is withdrawn already, a
    conflict while a live edge resolves through it, by name or through a route in front of
    it, or a pool has it for a backend; otherwise forbidden, and nothing changed, under a
    permit that does not cover the socket, and under one that does the socket withdrawn, no
    other row of any table changed, and one row added to the log, of the retirement. *)
Theorem RetireEndpoint_outcome st fates p now id :
  settles fates ->
  let t := st_tables st in
  let res := RetireEndpoint NewID t fates p now id st in
  match GetEndpoint t id with
  | None => res = (inl (Wrapped ErrNotFound), st)
  | Some e =>
      if SocketRetired e then res = (inr tt, st)
      else if (0 <? edges_through id t)%nat || (0 <? pools_of id t)%nat then res = (inl (Wrapped ErrConflict), st)
      else if Covers p "endpoint" id then
        res.1 = inr tt /\ st_tables res.2 = with_endpoints (<[id := retired_socket (FormatTime now) e]> (et_endpoints t)) t /\
        exists row, st_log res.2 = st_log st ++ [row] /\
          said row = ("endpoint", id, ActionRetire, lifecycle_diff (so_Lifecycle e) LifecycleRetired)
      else res = (inl (Wrapped ErrForbidden), st)
  end.
Proof.
  intros Hs. cbv zeta. unfold RetireEndpoint. destruct (GetEndpoint (st_tables st) id) as [e|] eqn:Ee; [|done].
  destruct (SocketRetired e); [done|]. rewrite writeSerializable_settles by done.
  pose proof Ee as (row & Hrow & Hkn)%bind_Some. destruct (known _ _); [injection Hkn as ->|done].
  unfold write, writeTx. fold (env_of (Some p) now). rewrite retire_body_run, Hrow, Z.eqb_refl.
  destruct (_ || _); [done|].
  destruct (Covers p "endpoint" id) eqn:Hc; [|by rewrite log_refused].
  edestruct (log_runs NewID (T := EdgeTables)) as (st' & Hrun & Ht); [exact Hc|]. rewrite Hrun. split_and!; [done|exact Ht|].
  apply log_said in Hrun as ([|row [|? ?]] & Hlog & Hsaid); try done. injection Hsaid as ????.
  exists row. split; [exact Hlog|]. unfold said. congruence.
Qed.
End Theorems.

(** * Samples *)

#[local] Instance edge_unicode : Unicode := {| lower_unicode := ascii_lower; quote_unicode := fun s => s |}.

Definition undeclared : Store EdgeTables := MkStore
  {| et_services := list_to_map ((fun s => (s, plain_service s)) <$> ["shop"; "db"; "edge"]); et_instances := ∅; et_addresses := ∅;
     et_identities := ∅; et_data_classes := ["chd"; "pii"]; et_endpoints := ∅; et_pools := ∅; et_members := ∅; et_routes := ∅;
     et_dependencies := ∅; et_carried := [] |} [] 0.

Definition sample_socket (id service lifecycle : string) (port version : Z) : Socket :=
  {| so_ID := id; so_ServiceID := service; so_Name := id; so_L4Proto := ProtoTCP; so_Port := Some port; so_UnixPath := None;
     so_BindScope := BindHost; so_IPAddressID := None; so_L7Proto := None; so_TLSMode := "none"; so_CertificateID := None;
     so_Exposure := "internal"; so_Lifecycle := lifecycle; so_CreatedAt := None; so_UpdatedAt := None; so_RowVersion := version |}.
Definition sample_pool (id : string) : BackendPool :=
  {| bp_ID := id; bp_ServiceID := "db"; bp_Name := id; bp_LBAlgorithm := None; bp_Lifecycle := LifecycleActive; bp_RowVersion := 1;
     bp_CreatedAt := "t0"; bp_UpdatedAt := "t0" |}.
Definition sample_member (pool endpoint : string) : BackendMember :=
  {| bm_PoolID := pool; bm_EndpointID := endpoint; bm_Weight := 1; bm_IsBackup := false |}.
Definition sample_route (id endpoint pool : string) : RoutingRule :=
  {| ro_ID := id; ro_FrontendEndpointID := endpoint; ro_MatchType := "default"; ro_MatchValue := None; ro_BackendPoolID := pool;
     ro_TLSTermination := None; ro_Priority := 100; ro_Lifecycle := LifecycleActive; ro_RowVersion := 1; ro_CreatedAt := "t0";
     ro_UpdatedAt := "t0" |}.

Definition edge_request (st : Store EdgeTables) (p : Permit) (op : EdgeOp) : EdgeRequest :=
  {| eq_seen := st_tables st; eq_fate := Commits; eq_fates := fun _ => Commits; eq_permit := p; eq_now := 0%Z; eq_op := op |}.
Lemma seen_by st p op : eq_seen (edge_request st p op) = st_tables st.
Proof. done. Qed.
Definition ask (p : Permit) (op : EdgeOp) (st : Store EdgeTables) : EdgeAnswer := run_edge sample_ids st (edge_request st p op).
Definition declare (st : Store EdgeTables) (op : EdgeOp) : Store EdgeTables := (ask (systemPermit "sample") op st).2.

(** A shop that depends on a database by its socket, and on it again through a route. *)
Definition declarations : list EdgeOp :=
  [OpCreateEndpoint (sample_socket "pg" "db" LifecycleActive 5432 1); OpCreateEndpoint (sample_socket "lb" "edge" LifecycleActive 443 1);
   OpCreatePool (sample_pool "pool"); OpCreateRoute (sample_route "rt" "lb" "pool");
   OpCreateDependency (mk_dep "d1" "shop" (Some "pg") None NatureHard None) (Some ["pii"]);
   OpCreateDependency (mk_dep "d2" "shop" None (Some "rt") NatureAsync (Some 60%Z)) None].

Definition linked : Store EdgeTables := foldl declare undeclared declarations.

Example linked_edges : (map_to_list (et_dependencies (st_tables linked))).*1 = ["d1"; "d2"] /\
  et_carried (st_tables linked) = [("d1", "pii")] /\ length (st_log linked) = 6.
Proof. vm_compute. auto. Qed.

Lemma undeclared_flowing : flowing (st_tables undeclared).
Proof.
  split; [split| |done..]; cbn; try done; try (by intros k v Hk; rewrite lookup_empty in Hk);
    try (by intros k k' v v' Hk; rewrite lookup_empty in Hk).
  - by intros d c Hc%not_elem_of_nil.
  - constructor.
Qed.

Lemma declared_ok st op : edges_ok (st_tables st) -> edges_ok (st_tables (declare st op)).
Proof. by apply (run_edge_keeps sample_ids false _ edges_ok_statements). Qed.

Lemma linked_ok : edges_ok (st_tables linked).
Proof. unfold linked, declarations. cbn [foldl]. do 6 apply declared_ok. apply undeclared_flowing. Qed.

Definition by_hand (op : EdgeOp) : EdgeRequest := edge_request linked (systemPermit "sample") op.

Lemma edges_well_formed_witness :
  edges_ok (st_tables (run_edges sample_ids linked
    [by_hand (OpRetireEndpoint "pg"); by_hand (OpRetireDependency "d1"); by_hand (OpRetireEndpoint "pg")])).
Proof. apply (edges_well_formed sample_ids), linked_ok. Defined.

(** One who holds the shop and the database, and one who holds the shop alone. *)
Definition holder (services : list string) : Permit :=
  scopedPermit {| ac_ID := "ann"; ac_Name := "ann"; ac_Kind := ActorKindUser |} []
    {["service" := list_to_map ((fun s => (s, true)) <$> services)]}.

Lemma dependency_confined_witness :
  let r := edge_request linked (holder ["shop"; "db"]) (OpVerifyDependency "d1") in
  (run_edge sample_ids linked (edge_request linked (holder ["shop"]) (OpVerifyDependency "d1"))).1 = inl (Wrapped ErrForbidden) /\
  edge_write (eq_permit r) "d1" linked (run_edge sample_ids linked r).2.
Proof.
  cbv zeta. split; [vm_compute; reflexivity|].
  destruct (dependency_confined sample_ids linked (edge_request linked (holder ["shop"; "db"]) (OpVerifyDependency "d1")) "d1"
    linked_ok eq_refl) as [Hsame|[Hw _]]; [|exact Hw].
  exfalso. apply (f_equal (fun st => dep_VerifiedBy <$> et_dependencies (st_tables st) !! "d1")) in Hsame.
  vm_compute in Hsame. discriminate Hsame.
Defined.

Lemma edge_columns_stay_witness :
  let r := edge_request linked (holder ["shop"; "db"]) (OpVerifyDependency "d1") in
  exists d d', et_dependencies (st_tables linked) !! "d1" = Some d /\ dep_VerifiedBy d = None /\
    et_dependencies (st_tables (run_edge sample_ids linked r).2) !! "d1" = Some d' /\
    dep_VerifiedBy d' = Some "ann" /\ pinned_columns r "d1" d d'.
Proof.
  cbv zeta. set (r := edge_request linked (holder ["shop"; "db"]) (OpVerifyDependency "d1")).
  destruct (et_dependencies (st_tables linked) !! "d1") as [d|] eqn:Hd; [|vm_compute in Hd; discriminate Hd].
  destruct (edge_columns_stay sample_ids linked r "d1" d linked_ok (seen_by linked _ _) Hd) as (d' & Hd' & Hp).
  exists d, d'. split_and!; [done| |done| |done].
  - vm_compute in Hd. injection Hd as <-. reflexivity.
  - vm_compute in Hd'. injection Hd' as <-. reflexivity.
Defined.

Lemma RetireEndpoint_outcome_witness :
  (RetireEndpoint sample_ids (st_tables linked) (fun _ => Commits) (systemPermit "sample") 0%Z "pg" linked).1 = inl (Wrapped ErrConflict) /\
  (RetireEndpoint sample_ids (st_tables linked) (fun _ => Commits) (systemPermit "sample") 0%Z "pg" linked) =
    (inl (Wrapped ErrConflict), linked).
Proof.
  split; [vm_compute; reflexivity|].
  pose proof (RetireEndpoint_outcome sample_ids linked (fun _ => Commits) (systemPermit "sample") 0%Z "pg" (or_introl eq_refl)) as Ho.
  cbv zeta in Ho. destruct (GetEndpoint (st_tables linked) "pg") as [e|] eqn:He; [|vm_compute in He; discriminate He].
  replace (SocketRetired e) with false in Ho by (vm_compute in He; injection He as <-; reflexivity).
  replace (0 <? edges_through "pg" (st_tables linked))%nat with true in Ho by (vm_compute; reflexivity). exact Ho.
Defined.

(** ** What the checks let through *)

(** A route keeps an edge off it once withdrawn only while nothing asks: the check of the
    provider looks at the socket the route fronts, and not at the route. *)
Lemma edge_declared_on_a_retired_route :
  let freed := foldl declare linked [OpRetireDependency "d2"; OpRetireRoute "rt"] in
  let asked := ask (systemPermit "sample") (OpCreateDependency (mk_dep "d3" "shop" None (Some "rt") NatureHard None) None) freed in
  (ro_Lifecycle <$> et_routes (st_tables freed) !! "rt") = Some LifecycleRetired /\ asked.1 = inr tt /\
  (dep_Lifecycle <$> et_dependencies (st_tables asked.2) !! "d3") = Some LifecycleActive.
Proof. cbv zeta. split_and!; vm_compute; reflexivity. Qed.

(** A withdrawn socket becomes the backend of a pool, the state its retirement refuses to
    leave behind. *)
Lemma retired_socket_joins_a_pool :
  let freed := foldl declare linked [OpRetireDependency "d1"; OpRetireEndpoint "pg"] in
  let asked := ask (systemPermit "sample") (OpAddBackend (sample_member "pool" "pg")) freed in
  (so_Lifecycle <$> et_endpoints (st_tables freed) !! "pg") = Some LifecycleRetired /\ asked.1 = inr tt /\
  pools_of "pg" (st_tables asked.2) = 1.
Proof. cbv zeta. split_and!; vm_compute; reflexivity. Qed.

(** An edit with the lifecycle set withdraws a socket a live edge resolves through. *)
Lemma edit_withdraws_a_socket_in_use :
  let asked := ask (systemPermit "sample") (OpUpdateEndpoint (sample_socket "pg" "db" LifecycleRetired 5432 1)) linked in
  (ask (systemPermit "sample") (OpRetireEndpoint "pg") linked).1 = inl (Wrapped ErrConflict) /\ asked.1 = inr tt /\
  edges_through "pg" (st_tables asked.2) = 1 /\
  live_providers (Some "pg") None (st_tables asked.2) = 0.
Proof. cbv zeta. split_and!; vm_compute; reflexivity. Qed.

(** A machine that may not verify an edge may create one that is verified. *)
Definition machine : Permit :=
  scopedPermit {| ac_ID := "monitor:probe"; ac_Name := "monitor:probe"; ac_Kind := ActorKindAgent |} []
    {["service" := list_to_map [("shop", true); ("db", true)]]}.

Definition found (id source : string) (verifiedBy : option string) (nature : string) (version : Z) : Dependency :=
  {| dep_ID := id; dep_ConsumerServiceID := "shop"; dep_ConsumerInstanceID := None; dep_ProviderEndpointID := Some "pg";
     dep_ProviderRouteID := None; dep_Nature := nature; dep_ToleranceSeconds := None; dep_FailureMode := "stops";
     dep_IdentityID := None; dep_AuthMethod := None; dep_FirewallRuleRef := None; dep_Source := source; dep_Confidence := None;
     dep_FirstSeen := None; dep_LastSeen := None; dep_VerifiedBy := verifiedBy; dep_VerifiedAt := verifiedBy;
     dep_Lifecycle := LifecycleActive; dep_CreatedAt := ""; dep_UpdatedAt := ""; dep_RowVersion := version |}.

Lemma edge_created_already_verified :
  let asked := ask machine (OpCreateDependency (found "d3" "discovered_netstat" (Some "ann") NatureHard 1) None) linked in
  (ask machine (OpVerifyDependency "d1") linked).1 <> inr tt /\ asked.1 = inr tt /\
  (dep_VerifiedBy <$> et_dependencies (st_tables asked.2) !! "d3") = Some (Some "ann").
Proof. cbv zeta. split_and!; [vm_compute; discriminate|vm_compute; reflexivity..]. Qed.

(** And it may rewrite an edge a person declared, by not saying that it is declared. *)
Lemma declared_edge_rewritten_by_a_machine :
  let asked := ask machine (OpUpdateDependency (found "d1" "discovered_netstat" None NatureOptional 1) None) linked in
  (ask machine (OpUpdateDependency (found "d1" SourceDeclared None NatureOptional 1) None) linked).1 <> inr tt /\ asked.1 = inr tt /\
  ((fun d => (dep_Source d, dep_Nature d)) <$> et_dependencies (st_tables asked.2) !! "d1") = Some (SourceDeclared, NatureOptional).
Proof. cbv zeta. split_and!; [vm_compute; discriminate|vm_compute; reflexivity..]. Qed.
