(* ===== verification/Loading.v ===== *)
(** From the tables to the engine: [LoadGraph] and [DownInstances] of
    [internal/store/graph.go].

    The graph the impact engine reasons about is read from the tables of services,
    placements, sockets, pools, routes and edges, and from the containment of the assets.
    What [loadNetGraph], [loadStructures] and [loadClusters] return is an argument. *)
From Stdlib Require Import String Ascii ZArith Lia.
From stdpp Require Import base gmap strings list.
From S2P Require Import Prelude Status Dependency Graph Text Errors Timestamps Permits ChangeLog Assets Containment AssetWrites Invariants Fixtures EdgeRows Edges.

#[local] Open Scope string_scope.
#[local] Open Scope list_scope.

(** * Definitions *)

(** ** Reads of the tables *)

Definition by_id {V} (id : V -> string) : list V -> list V := isort (fun x y => str_ltb (id x) (id y)).

Definition service_in_use (s : Service) : bool := negb (String.eqb (svc_Lifecycle s) LifecycleRetired).
Definition placement_in_use (si : ServiceInstance) : bool := negb (String.eqb (si_Lifecycle si) LifecycleRetired).

Definition loaded_services (t : EdgeTables) : gmap string Service :=
  index_by svc_ID id (List.filter service_in_use (rows (et_services t))).

(** The placements that are not withdrawn, in the order of their keys. *)
Definition loaded_placements (t : EdgeTables) : list ServiceInstance :=
  by_id si_ID (List.filter placement_in_use (rows (et_instances t))).

Definition loaded_instance (si : ServiceInstance) : Instance :=
  {| inst_ID := si_ID si; inst_ServiceID := si_ServiceID si; inst_HostAssetID := si_HostAssetID si;
     inst_Role := RoleOrEmpty si; inst_Shard := ShardOrEmpty si; inst_Disabled := String.eqb (si_DesiredState si) "disabled" |}.

Definition loaded_endpoint (services : gmap string Service) (e : Socket) : Endpoint :=
  {| ep_ID := so_ID e; ep_ServiceID := so_ServiceID e; ep_Name := so_Name e; ep_BindScope := so_BindScope e;
     ep_Exposure := so_Exposure e;
     ep_ServiceEnvID := match services !! so_ServiceID e with Some svc => svc_EnvironmentID svc | None => "" end |}.

Definition loaded_route (r : RoutingRule) : Route :=
  {| rt_ID := ro_ID r; rt_FrontendEndpointID := ro_FrontendEndpointID r; rt_BackendPoolID := ro_BackendPoolID r;
     rt_Name := match ro_MatchValue r with
                | Some v => if String.eqb v "" then ro_MatchType r else v
                | None => ro_MatchType r
                end |}.

Definition member_less : BackendMember -> BackendMember -> bool :=
  lex_less bm_PoolID str_ltb (fun x y => str_ltb (bm_EndpointID x) (bm_EndpointID y)).

(** The live edges, in the order of their keys. *)
Definition loaded_deps (t : EdgeTables) : list Dependency :=
  by_id dep_ID (List.filter (fun d => is_live (dep_Lifecycle d)) (rows (et_dependencies t))).

Definition RuntimeK8sWorkload := "k8s_workload".
Definition KindK8sNode := "k8s_node".

(** The cluster of each service with a placement on one: the rows of [rt_k8s] are the
    placement and the cluster it names. *)
Definition loaded_clusters_of (t : EdgeTables) (rt_k8s : list (string * option string)) : gmap string string :=
  let instanceService := index_by si_ID si_ServiceID (loaded_placements t) in
  let joined := List.filter (fun '(i, _) => match et_instances t !! i with
    | Some si => String.eqb (si_RuntimeType si) RuntimeK8sWorkload
    | None => false
    end) rt_k8s in
  foldl (fun m '(i, cluster) => match cluster with
    | Some c => if String.eqb c "" then m
                else match instanceService !! i with Some svc => <[svc := c]> m | None => m end
    | None => m
    end) ∅ joined.

(** The nodes at or below the clusters named. *)
Definition loaded_nodes (a : AssetTables) (clusters : gmap string string) : gmap string (list string) :=
  group_by (fun r : ContainmentRow => bool_decide (fst (fst r) ∈ (map_to_list clusters).*2) &&
      match pt_assets a !! snd (fst r) with Some x => String.eqb (as_Kind x) KindK8sNode | None => false end)
    (fun r => fst (fst r)) (fun r => snd (fst r)) (pt_closure a).

(** [LoadGraph] *)
Definition LoadGraph (t : EdgeTables) (a : AssetTables) (rt_k8s : list (string * option string)) (net : option NetGraph)
    (structures : list Structure_) (clusters : list Cluster) : Graph :=
  let services := loaded_services t in
  let clusters_of := loaded_clusters_of t rt_k8s in
  {| g_Services := services;
     g_Instances := group_by (fun si => known services (si_ServiceID si)) si_ServiceID loaded_instance (loaded_placements t);
     g_Endpoints := index_by so_ID (loaded_endpoint services)
       (List.filter (fun e => is_live (so_Lifecycle e)) (rows (et_endpoints t)));
     g_Routes := index_by ro_ID loaded_route (rows (et_routes t));
     g_PoolMembers := group_by (fun _ => true) bm_PoolID bm_EndpointID (isort member_less (rows (et_members t)));
     g_Deps := loaded_deps t;
     g_ServiceClusterAssetID := clusters_of;
     g_ClusterNodes := loaded_nodes a clusters_of;
     g_Clusters := clusters; g_Structures := structures; g_Net := net |}.

(** [DownInstances]: the placements hosted at or below the assets. *)
Definition DownInstances (t : EdgeTables) (a : AssetTables) (assetIDs : list string) : gset string :=
  match assetIDs with
  | [] => ∅
  | _ => list_to_set (si_ID <$> List.filter (fun si =>
           existsb (fun r : ContainmentRow => String.eqb (snd (fst r)) (si_HostAssetID si) && bool_decide (fst (fst r) ∈ assetIDs))
             (pt_closure a)) (rows (et_instances t)))
  end.

(** * Lemmas *)

Section Building.
Context {V W : Type} (key : V -> string) (f : V -> W).

(** A table read through a test, under the keys its rows carry. *)
Lemma index_rows (m : gmap string V) (p : V -> bool) k : (forall k v, m !! k = Some v -> key v = k) ->
  index_by key f (List.filter p (rows m)) !! k = match m !! k with Some v => if p v then Some (f v) else None | None => None end.
Proof.
  intros Hk. unfold index_by.
  assert (forall w, w ∈ List.filter p (rows m) -> m !! key w = Some w /\ p w = true) as Hin.
  { intros w [(j & Hj)%elem_of_table Hp]%elem_of_bool_filter. by rewrite (Hk _ _ Hj). }
  assert ((exists v, m !! k = Some v /\ p v = true) \/ ~ (exists v, m !! k = Some v /\ p v = true)) as [(v & Hv & Hp)|Hno].
  { destruct (m !! k) as [v|]; [destruct (p v) eqn:E|]; [left; eauto|right; intros (w & [= <-] & Hw); congruence|right; by intros (w & ? & _)]. }
  - rewrite Hv, Hp, <- (Hk _ _ Hv). apply index_in.
    + apply elem_of_bool_filter. split; [apply elem_of_table; eauto|done].
    + intros w [Hw _]%Hin E. rewrite E, (Hk _ _ Hv) in Hw. congruence.
  - rewrite index_out; [|intros w [Hw Hpw]%Hin E; subst; eauto]. rewrite lookup_empty. destruct (m !! k) as [v|] eqn:E; [|done].
    destruct (p v) eqn:Ep; [exfalso; eauto|done].
Qed.

End Building.

Lemma elem_of_by_id {V} (id : V -> string) l v : v ∈ by_id id l <-> v ∈ l.
Proof. apply elem_of_isort. Qed.

Lemma by_id_sorted {V} (id : V -> string) l : sorted_by (fun x y => str_ltb (id x) (id y)) (by_id id l).
Proof. apply isort_sorted, key_less_weak, _. Qed.

Section Loaded.
Context (t : EdgeTables) (a : AssetTables) (rt_k8s : list (string * option string)) (net : option NetGraph)
  (structures : list Structure_) (clusters : list Cluster).

Definition graph_of_tables : Graph := LoadGraph t a rt_k8s net structures clusters.

Lemma loaded_endpoint_lookup k : edges_ok t ->
  g_Endpoints graph_of_tables !! k =
  match et_endpoints t !! k with
  | Some e => if is_live (so_Lifecycle e) then Some (loaded_endpoint (loaded_services t) e) else None
  | None => None
  end.
Proof. intros Hok. apply index_rows. intros j e Hj. by destruct (eo_endpoints _ Hok j e Hj). Qed.

Lemma loaded_route_lookup k : edges_ok t -> g_Routes graph_of_tables !! k = loaded_route <$> et_routes t !! k.
Proof.
  intros Hok. cbn. rewrite <- (filter_all (rows (et_routes t))), index_rows; [by destruct (et_routes t !! k)|].
  intros j r Hj. by destruct (eo_routes _ Hok j r Hj).
Qed.

Lemma elem_of_loaded_deps d : d ∈ loaded_deps t <-> exists k, et_dependencies t !! k = Some d /\ dep_Lifecycle d = LifecycleActive.
Proof.
  unfold loaded_deps. rewrite elem_of_by_id, elem_of_bool_filter. unfold is_live, rows. rewrite elem_of_table, String.eqb_eq. naive_solver.
Qed.

(** The engine finds, for an edge whose provider is in use, the service that owns it. *)
Lemma provider_found d e : edges_ok t -> provider_socket t d = Some e -> so_Lifecycle e = LifecycleActive ->
  providerServiceID graph_of_tables d = so_ServiceID e.
Proof.
  intros Hok He Hl. unfold providerServiceID, provider_socket in *. destruct (dep_ProviderEndpointID d) as [k|].
  - rewrite loaded_endpoint_lookup, He by done. unfold is_live. by rewrite Hl.
  - destruct (dep_ProviderRouteID d) as [r|]; [|done]. cbn in He. rewrite loaded_route_lookup by done. unfold frontend in He.
    destruct (et_routes t !! r) as [rt|]; [|done]. cbn in He |- *. rewrite loaded_endpoint_lookup, He by done. unfold is_live. by rewrite Hl.
Qed.
End Loaded.

(** Requests on edges leave the services as they are. *)
Lemma services_statements S : statements_keep false (fun t => et_services t = S).
Proof.
  split; intros; try done;
    unfold insert_socket, update_socket, retire_socket, put_socket, insert_pool, update_pool, retire_pool, put_pool,
      insert_pool_member, insert_route, update_route, retire_route, put_route, insert_dependency, update_dependency,
      retire_dependency, verify_dependency, put_dependency, insert_class, put_edge_row, at_version in *;
    repeat case_match; by simplify_eq.
Qed.

Lemma loaded_service t k s : (forall j r, et_services t !! j = Some r -> svc_ID r = j) -> et_services t !! k = Some s ->
  is_Some (loaded_services t !! k) <-> svc_Lifecycle s <> LifecycleRetired.
Proof.
  intros Hk Hs. unfold loaded_services. rewrite (index_rows svc_ID id _ _ _ Hk), Hs. unfold service_in_use.
  destruct (String.eqb_spec (svc_Lifecycle s) LifecycleRetired) as [E|E]; cbn; [|by split; [|eauto]].
  split; [by intros []|done].
Qed.

(** * Theorems *)


(** The capacity the engine counts. A graph has the services that are not retired, and for
    each of them its placements that are not withdrawn and no others, in the order of
    their keys; for any other service it has none. *)
Theorem LoadGraph_capacity t a rt_k8s net structures clusters :
  (forall k s, et_services t !! k = Some s -> svc_ID s = k) ->
  let g := LoadGraph t a rt_k8s net structures clusters in
  (forall k s, g_Services g !! k = Some s <-> et_services t !! k = Some s /\ svc_Lifecycle s <> LifecycleRetired) /\
  (forall k, default [] (g_Instances g !! k) =
     if known (g_Services g) k then loaded_instance <$> List.filter (fun si => String.eqb (si_ServiceID si) k) (loaded_placements t)
     else []) /\
  (forall si, si ∈ loaded_placements t <-> exists k, et_instances t !! k = Some si /\ si_Lifecycle si <> LifecycleRetired) /\
  sorted_by (fun x y => str_ltb (si_ID x) (si_ID y)) (loaded_placements t).
Proof.
  intros Hk. cbv zeta. split_and!.
  - intros k s. cbn. unfold loaded_services. rewrite (index_rows svc_ID id _ _ _ Hk). unfold service_in_use.
    destruct (et_services t !! k) as [x|]; [|naive_solver].
    destruct (String.eqb_spec (svc_Lifecycle x) LifecycleRetired); naive_solver.
  - intros k. cbn. rewrite group_lookup. destruct (known (loaded_services t) k) eqn:E.
    + f_equal. apply List.filter_ext. intros si. destruct (String.eqb_spec (si_ServiceID si) k) as [->|]; [by rewrite E|].
      apply andb_false_r.
    + assert (forall l, List.filter (fun si => known (loaded_services t) (si_ServiceID si) && String.eqb (si_ServiceID si) k) l = []) as ->; [|done].
      induction l as [|si l IH]; [done|]. cbn. destruct (String.eqb_spec (si_ServiceID si) k) as [->|]; [by rewrite E|by rewrite andb_false_r].
  - intros si. unfold loaded_placements. rewrite elem_of_by_id, elem_of_bool_filter. unfold rows, placement_in_use.
    rewrite elem_of_table, negb_true_iff, String.eqb_neq. naive_solver.
  - apply by_id_sorted.
Qed.

(** What going down takes with it. On a containment whose closure is that of its tree, the
    placements that assets take down are those hosted on one of them or on an asset
    somewhere below one. *)
Theorem DownInstances_exact t a assetIDs id :
  assets_ok a ->
  id ∈ DownInstances t a assetIDs <->
  exists k si root n, et_instances t !! k = Some si /\ si_ID si = id /\ root ∈ assetIDs /\
    is_Some (pt_assets a !! si_HostAssetID si) /\ climb (parent_of (pt_assets a)) n (si_HostAssetID si) = Some root.
Proof.
  intros Hok. pose proof (ok_closure _ Hok) as Hc. unfold DownInstances.
  assert (id ∈ (match assetIDs with [] => ∅ | _ => list_to_set (si_ID <$> List.filter (fun si =>
    existsb (fun r : ContainmentRow => String.eqb (snd (fst r)) (si_HostAssetID si) && bool_decide (fst (fst r) ∈ assetIDs))
      (pt_closure a)) (rows (et_instances t))) end : gset string) <->
    exists si, si ∈ rows (et_instances t) /\ si_ID si = id /\
      exists root n, ((root, si_HostAssetID si), n) ∈ pt_closure a /\ root ∈ assetIDs) as ->.
  { transitivity (exists si, si ∈ List.filter (fun si => existsb (fun r : ContainmentRow =>
        String.eqb (snd (fst r)) (si_HostAssetID si) && bool_decide (fst (fst r) ∈ assetIDs)) (pt_closure a))
        (rows (et_instances t)) /\ si_ID si = id).
    - destruct assetIDs as [|i ids].
      + split; [set_solver|]. intros (si & [_ Hx]%elem_of_bool_filter & _). exfalso.
        apply existsb_elem_of in Hx as (r & _ & [_ Hx%bool_decide_eq_true]%andb_true_iff). by apply not_elem_of_nil in Hx.
      + rewrite elem_of_list_to_set, list_elem_of_fmap. naive_solver.
    - setoid_rewrite elem_of_bool_filter. setoid_rewrite existsb_elem_of. split.
      + intros (si & (Hsi & [[x y] n] & Hr & [Hy%String.eqb_eq Hx%bool_decide_eq_true]%andb_true_iff) & Hid). cbn in *. subst y.
        exists si. split_and!; [done..|]. eauto.
      + intros (si & Hsi & Hid & root & n & Hr & Hx). exists si. split; [|done]. split; [done|]. eexists. split; [exact Hr|].
        cbn. rewrite String.eqb_refl. by apply bool_decide_eq_true. }
  unfold rows. setoid_rewrite elem_of_table. destruct Hc as [_ Hr _]. setoid_rewrite Hr. naive_solver.
Qed.

(** * Samples *)

#[local] Existing Instance edge_unicode.

(** The requests that declare the tables of [linked], made one after the other. *)
Definition one_by_one : list EdgeRequest := by_hand <$> declarations.

Lemma one_by_one_orderly : Forall orderly one_by_one.
Proof. repeat constructor; discriminate. Qed.

Lemma undeclared_keyed k s : et_services (st_tables undeclared) !! k = Some s -> svc_ID s = k.
Proof.
  intros Hs%elem_of_list_to_map_2. cbn in Hs. rewrite !elem_of_cons, elem_of_nil in Hs. naive_solver.
Qed.


(** Three placements of one service, one of them withdrawn, and one of a service that is
    not in use. *)
Definition placement (id service host lifecycle : string) : string * ServiceInstance :=
  (id, {| si_ID := id; si_ServiceID := service; si_HostAssetID := host; si_RuntimeType := "systemd"; si_Role := None;
          si_Shard := None; si_Ordinal := 0; si_DesiredState := "running"; si_Lifecycle := lifecycle; si_Source := "declared";
          si_CreatedAt := ""; si_UpdatedAt := ""; si_RowVersion := 1 |}).

Definition hosted : EdgeTables :=
  {| et_services := {["shop" := plain_service "shop"]};
     et_instances := list_to_map [placement "i2" "shop" "s2" "active"; placement "i1" "shop" "s1" "active";
       placement "i3" "shop" "s1" "retired"; placement "i4" "gone" "r1" "active"];
     et_addresses := ∅; et_identities := ∅; et_data_classes := []; et_endpoints := ∅; et_pools := ∅; et_members := ∅; et_routes := ∅;
     et_dependencies := ∅; et_carried := [] |}.

Lemma hosted_keyed k s : et_services hosted !! k = Some s -> svc_ID s = k.
Proof. cbn. rewrite lookup_singleton_Some. by intros [<- <-]. Qed.

Lemma LoadGraph_capacity_witness :
  let g := LoadGraph hosted no_assets [] None [] [] in
  inst_ID <$> default [] (g_Instances g !! "shop") = ["i1"; "i2"] /\ default [] (g_Instances g !! "gone") = [].
Proof.
  cbv zeta. destruct (LoadGraph_capacity hosted no_assets [] None [] [] hosted_keyed) as (_ & Hi & _ & _).
  cbv zeta in Hi. rewrite !Hi. split; vm_compute; reflexivity.
Defined.

Lemma DownInstances_exact_witness :
  "i1" ∈ DownInstances hosted (st_tables machine_hall) ["r1"] /\ "i2" ∉ DownInstances hosted (st_tables machine_hall) ["r1"].
Proof.
  split; [|apply (bool_decide_eq_true_1 _); vm_compute; reflexivity].
  apply (DownInstances_exact hosted (st_tables machine_hall) ["r1"] "i1" machine_hall_ok).
  exists "i1", (placement "i1" "shop" "s1" "active").2, "r1", 1. split_and!; [vm_compute; reflexivity|reflexivity|left|..].
  - eexists. vm_compute. reflexivity.
  - vm_compute. reflexivity.
Defined.
