(* ===== verification/Fit.v ===== *)
(** Whether what is in a cabinet fits it: [internal/domain/fit.go], and what
    [internal/store/fit.go] feeds it.

    Nothing here refuses a placement: every check returns findings. A measurement nobody
    took is [None], and a check that needs it says so instead of passing. *)
From Stdlib Require Import String Ascii ZArith Lia.
From stdpp Require Import base gmap strings list.
From S2P Require Import Prelude Text Errors Status Assets Racks Ports Containment Invariants.

#[local] Open Scope string_scope.
#[local] Open Scope list_scope.
#[local] Open Scope Z_scope.

(** * Definitions *)

(** ** Vocabularies and measures *)

Definition FindingFaultSeverity := "fault".
Definition FindingRiskSeverity := "risk".
Definition FindingGapSeverity := "gap".

Definition AirflowFrontToRear := "front_to_rear".
Definition AirflowRearToFront := "rear_to_front".
Definition AirflowSideToRear := "side_to_rear".
Definition AirflowSideToSide := "side_to_side".
Definition AirflowPassive := "passive".
Definition AirflowLabels : gmap string string :=
  {[AirflowFrontToRear := "front to rear"; AirflowRearToFront := "rear to front"; AirflowSideToRear := "sides to rear";
    AirflowSideToSide := "side to side"; AirflowPassive := "moves no air"]}.

(** [DrawsFromSide] *)
Definition DrawsFromSide (airflow : string) : bool :=
  String.eqb airflow AirflowSideToRear || String.eqb airflow AirflowSideToSide.

Definition PortFaceFront := "front".
Definition PortFaceRear := "rear".
Definition PortFaceBoth := "both".

Definition DenseLeadCount : Z := 24.
Definition CableRouteAllowanceMM : Z := 500.
Definition RearClearanceMM : Z := 75.
Definition RackFaceplateMM : Z := 483.
Definition SideBreatherMinWidthMM : Z := 700.

(** [RackUnitMM]: the double nearest 44.45, in units of 2^-47. *)
Definition RackUnitMM : Z := 6255781357394330.

(** [SideClearanceMM] *)
Definition SideClearanceMM (widthMM : Z) : Z := Z.quot (wrap64 (widthMM - RackFaceplateMM)) 2.

Definition FitTooDeep := "too_deep".
Definition FitOverloaded := "overloaded".
Definition FitSideStarved := "side_starved".
Definition FitOpposedAir := "opposed_airflow".
Definition FitDepthUnknown := "depth_unknown".
Definition FitLoadUnknown := "load_unknown".
Definition FitAirflowUnkown := "airflow_unknown".
Definition FitPortsWrongFace := "ports_wrong_face".
Definition FitLeadDensity := "lead_density".
Definition FitCableTooShort := "cable_too_short".
Definition FitPortFaceUnknown := "port_face_unknown".

(** ** What is checked, and what is found *)

Record FitProblem := { fp_Kind : string; fp_Severity : string; fp_AssetID : string; fp_Asset : string; fp_Detail : string }.

Record FitInput := {
  fi_AssetID : string; fi_Name : string; fi_Position : Z; fi_Height : Z; fi_Face : string; fi_DepthMM : option Z;
  fi_WeightGrams : option Z; fi_Airflow : option string; fi_PortFace : option string; fi_Leads : Z
}.

Record CableRun := {
  cn_LinkID : string; cn_Label : string; cn_LengthM : Z; cn_FromUnit : Z; cn_ToUnit : Z; cn_FromFace : option string;
  cn_ToFace : option string; cn_FromName : string; cn_ToName : string
}.

(** [domain.RackFit] *)
Record RackMeasures := { rk_UsableDepthMM : option Z; rk_WidthMM : option Z; rk_MaxLoadGrams : option Z }.

Record RackLoad := { rl_TotalGrams : Z; rl_Weighed : Z; rl_Unweighed : Z }.

Definition about_rack (kind severity detail : string) : FitProblem :=
  {| fp_Kind := kind; fp_Severity := severity; fp_AssetID := ""; fp_Asset := ""; fp_Detail := detail |}.
Definition about_box (kind severity : string) (b : FitInput) (detail : string) : FitProblem :=
  {| fp_Kind := kind; fp_Severity := severity; fp_AssetID := fi_AssetID b; fp_Asset := fi_Name b; fp_Detail := detail |}.

(** [Kilograms], [boxCount], [leads] *)
Definition Kilograms (grams : Z) : string :=
  let whole := Z.quot grams 1000 in
  let frac := Z.quot (Z.rem grams 1000) 100 in
  if frac =? 0 then Itoa whole +++ " kg" else Itoa whole +++ "." +++ Itoa frac +++ " kg".
Definition boxCount (n : Z) : string := if n =? 1 then "1 placed box" else Itoa n +++ " placed boxes".
Definition lead_count (n : Z) : string := if n =? 1 then "1 lead" else Itoa n +++ " leads".

Definition countZ {A} (p : A -> bool) (l : list A) : Z := Z.of_nat (count_if p l).
Definition unknown {A} (o : option A) : bool := match o with None => true | Some _ => false end.

(** ** Depth *)

Definition too_deep (usable : Z) (b : FitInput) : option FitProblem :=
  depth ← fi_DepthMM b;
  let needs := wrap64 (depth + RearClearanceMM) in
  if usable <? needs
  then Some (about_box FitTooDeep FindingFaultSeverity b
         (Itoa depth +++ "mm chassis plus " +++ Itoa RearClearanceMM +++ "mm for cabling needs " +++ Itoa needs +++
          "mm, and the cabinet has " +++ Itoa usable +++ "mm"))
  else None.

(** [CheckDepth] *)
Definition CheckDepth (rack : RackMeasures) (boxes : list FitInput) : list FitProblem :=
  match rk_UsableDepthMM rack with
  | None =>
      match boxes with
      | [] => []
      | _ => [about_rack FitDepthUnknown FindingGapSeverity
                ("no usable depth recorded, so nothing in it can be checked (" +++ Itoa (Z.of_nat (length boxes)) +++ " placed)")]
      end
  | Some usable =>
      let unmeasured := countZ (fun b => unknown (fi_DepthMM b)) boxes in
      omap (too_deep usable) boxes ++
      if 0 <? unmeasured
      then [about_rack FitDepthUnknown FindingGapSeverity (boxCount unmeasured +++ " have no catalogued depth")] else []
  end.

(** ** Load *)

Definition add_weight (l : RackLoad) (b : FitInput) : RackLoad :=
  match fi_WeightGrams b with
  | None => {| rl_TotalGrams := rl_TotalGrams l; rl_Weighed := rl_Weighed l; rl_Unweighed := rl_Unweighed l + 1 |}
  | Some g => {| rl_TotalGrams := wrap64 (rl_TotalGrams l + g); rl_Weighed := rl_Weighed l + 1; rl_Unweighed := rl_Unweighed l |}
  end.

(** [Load] *)
Definition RackLoadOf (boxes : list FitInput) : RackLoad :=
  foldl add_weight {| rl_TotalGrams := 0; rl_Weighed := 0; rl_Unweighed := 0 |} boxes.

(** [CheckLoad] *)
Definition CheckLoad (rack : RackMeasures) (boxes : list FitInput) : list FitProblem :=
  let load := RackLoadOf boxes in
  match rk_MaxLoadGrams rack with
  | None =>
      if 0 <? rl_Weighed load
      then [about_rack FitLoadUnknown FindingGapSeverity
              ("carrying at least " +++ Kilograms (rl_TotalGrams load) +++ " with no load rating recorded")]
      else []
  | Some rated =>
      if rl_TotalGrams load <=? rated then []
      else
        let detail := "at least " +++ Kilograms (rl_TotalGrams load) +++ " on a " +++ Kilograms rated +++ " rating" in
        let verb := if rl_Unweighed load =? 1 then "is" else "are" in
        let detail := if 0 <? rl_Unweighed load
          then detail +++ ", and " +++ Itoa (rl_Unweighed load) +++ " of " +++ Itoa (rl_Weighed load + rl_Unweighed load) +++
               " boxes " +++ verb +++ " unweighed"
          else detail in
        [about_rack FitOverloaded FindingFaultSeverity detail]
  end.

(** ** Airflow *)

(** [airflowOpposes] *)
Definition airflowOpposes (a b : string) : bool :=
  (String.eqb a AirflowFrontToRear && String.eqb b AirflowRearToFront) ||
  (String.eqb a AirflowRearToFront && String.eqb b AirflowFrontToRear).

(** [sortByPosition], an insertion sort that keeps the order of ties. *)
Definition sortByPosition : list FitInput -> list FitInput := isort (fun x y => fi_Position x <? fi_Position y).

Definition side_breather (rack : RackMeasures) (b : FitInput) : option FitProblem :=
  airflow ← fi_Airflow b;
  if negb (DrawsFromSide airflow) then None
  else match rk_WidthMM rack with
  | None => Some (about_box FitAirflowUnkown FindingGapSeverity b
              "draws air from the sides and the cabinet width is not recorded")
  | Some width =>
      if width <? SideBreatherMinWidthMM
      then Some (about_box FitSideStarved FindingRiskSeverity b
             ("draws air from the sides in a " +++ Itoa width +++ "mm cabinet, which leaves about " +++
              Itoa (SideClearanceMM width) +++ "mm a side for both the cable channel and its intake"))
      else None
  end.

(** The units from the top of one box to the bottom of the next, both counted. *)
Definition units_between (lower upper : FitInput) : Z := wrap64 (fi_Position upper - (fi_Position lower + fi_Height lower - 1)).

Definition opposed_finding (lower upper : FitInput) (down up : string) : FitProblem :=
  about_box FitOpposedAir FindingRiskSeverity upper
    ("blows " +++ AirflowLabels.[up | ""] +++ " directly above " +++ fi_Name lower +++ ", which blows " +++ AirflowLabels.[down | ""]).

Definition opposed (pair : FitInput * FitInput) : option FitProblem :=
  let '(lower, upper) := pair in
  down ← fi_Airflow lower; up ← fi_Airflow upper;
  if (units_between lower upper <? 1) || (2 <? units_between lower upper) then None
  else if negb (airflowOpposes down up) then None
  else Some (opposed_finding lower upper down up).

(** The neighbours in a slice. *)
Definition neighbouring {A} (l : list A) : list (A * A) := zip l (tail l).

(** [CheckAirflow] *)
Definition CheckAirflow (rack : RackMeasures) (boxes : list FitInput) : list FitProblem :=
  let undeclared := countZ (fun b => unknown (fi_Airflow b)) boxes in
  omap (side_breather rack) boxes ++ omap opposed (neighbouring (sortByPosition boxes)) ++
  if 0 <? undeclared
  then [about_rack FitAirflowUnkown FindingGapSeverity (boxCount undeclared +++ " have no declared airflow")] else [].

(** ** Cabling *)

Definition dense (rack : RackMeasures) (b : FitInput) : option FitProblem :=
  _ ← fi_PortFace b; width ← rk_WidthMM rack;
  if (DenseLeadCount <=? fi_Leads b) && (width <? SideBreatherMinWidthMM)
  then Some (about_box FitLeadDensity FindingRiskSeverity b
         (lead_count (fi_Leads b) +++ " land on it in a " +++ Itoa width +++ "mm cabinet, which leaves about " +++
          Itoa (SideClearanceMM width) +++ "mm a side for the whole channel"))
  else None.

(** A run between faces that are declared and opposite, with the two faces. *)
Definition crosses (run : CableRun) : option (string * string) :=
  from ← cn_FromFace run; to ← cn_ToFace run;
  if String.eqb from PortFaceBoth || String.eqb to PortFaceBoth then None
  else if String.eqb from to then None
  else Some (from, to).

(** [m[k]++] *)
Definition inc (k : string) (m : gmap string Z) : gmap string Z := <[k := m.[k | 0] + 1]> m.

(** The maps [crossing] and [firstFor]. *)
Definition count_crossing (acc : gmap string Z * gmap string string) (run : CableRun) : gmap string Z * gmap string string :=
  match crosses run with
  | None => acc
  | Some (from, to) =>
      let '(crossing, firstFor) := acc in
      (inc (cn_ToName run) (inc (cn_FromName run) crossing),
       if known firstFor (cn_FromName run) then firstFor
       else <[cn_FromName run := cn_FromName run +++ " (" +++ from +++ " ports) to " +++ cn_ToName run +++ " (" +++ to +++ " ports)"]>
              firstFor)
  end.

Definition crossing_finding (name detail : string) (ends : Z) : FitProblem :=
  {| fp_Kind := FitPortsWrongFace; fp_Severity := FindingRiskSeverity; fp_AssetID := ""; fp_Asset := name;
     fp_Detail := detail +++ " — " +++ lead_count ends +++ " cross the cabinet to reach the far end" |}.

Definition wrong_face (acc : gmap string Z * gmap string string) (name : string) : option FitProblem :=
  detail ← acc.2 !! name; Some (crossing_finding name detail (acc.1.[name | 0])).

(** The double nearest a natural number, ties to even. *)
Definition to_double (n : Z) : Z :=
  let k := Z.max 0 (Z.log2 n - 52) in
  let q := Z.shiftr n k in
  let r := n - Z.shiftl q k in
  let half := Z.shiftr (Z.shiftl 1 k) 1 in
  Z.shiftl (if half <? r then q + 1 else if (0 <? k) && (r =? half) && Z.odd q then q + 1 else q) k.

(** [int(float64(gap) * RackUnitMM)] *)
Definition drop_mm (gap : Z) : Z := Z.shiftr (to_double (to_double gap * RackUnitMM)) 47.

(** The units a run spans, and what it needs to reach. *)
Definition run_gap (run : CableRun) : Z :=
  let gap := wrap64 (cn_FromUnit run - cn_ToUnit run) in if gap <? 0 then wrap64 (- gap) else gap.
Definition need_mm (run : CableRun) : Z := wrap64 (drop_mm (run_gap run) + CableRouteAllowanceMM).

Definition short_finding (run : CableRun) : FitProblem :=
  {| fp_Kind := FitCableTooShort; fp_Severity := FindingFaultSeverity; fp_AssetID := ""; fp_Asset := cn_Label run;
     fp_Detail := "declared " +++ Itoa (cn_LengthM run) +++ "m across " +++ Itoa (run_gap run) +++ " units, which needs about " +++
       Itoa (need_mm run) +++ "mm once routed (" +++ Itoa (run_gap run) +++ " units of drop plus " +++ Itoa CableRouteAllowanceMM +++
       "mm to reach the channel and back). Either the length is wrong or the cable is under tension" |}.

Definition too_short (run : CableRun) : option FitProblem :=
  if cn_LengthM run <=? 0 then None
  else if need_mm run <=? wrap64 (cn_LengthM run * 1000) then None
  else Some (short_finding run).

(** [CheckCabling] *)
Definition CheckCabling (rack : RackMeasures) (boxes : list FitInput) (runs : list CableRun) : list FitProblem :=
  let undeclared := countZ (fun b => unknown (fi_PortFace b) && (0 <? fi_Leads b)) boxes in
  let acc := foldl count_crossing (∅, ∅) runs in
  omap (dense rack) boxes ++
  omap (wrong_face acc) (isort str_ltb (map_to_list acc.1).*1) ++
  omap too_short runs ++
  if 0 <? undeclared
  then [about_rack FitPortFaceUnknown FindingGapSeverity
          (boxCount undeclared +++ " cabled but with no declared port face, so nothing can be said about which way their leads run")]
  else [].

(** ** One cabinet of the estate *)

(** [store.AssetRow] with the columns of the model these checks read. *)
Record FitRow := {
  fr_Row : AssetRow; fr_DeviceTypeDepthMM : option Z; fr_DeviceTypeWeightGrams : option Z;
  fr_DeviceTypeAirflow : option string; fr_DeviceTypePortFace : option string
}.
Definition fr_ID (row : FitRow) : string := as_ID (aw_Asset (fr_Row row)).
Definition fr_Name (row : FitRow) : string := as_Name (aw_Asset (fr_Row row)).

(** The unit of a row that is placed and in use. *)
Definition placed_unit (row : FitRow) : option Z :=
  position ← as_RackPosition (aw_Asset (fr_Row row));
  if String.eqb (as_Lifecycle (aw_Asset (fr_Row row))) LifecycleRetired then None else Some position.
Definition is_placed (row : FitRow) : bool := negb (unknown (placed_unit row)).

(** The live cables with an end on a box in the cabinet, and the ports at their ends. *)
Definition rack_cables (t : AssetTables) (ids : list string) : list (Link * Interface * Interface) :=
  omap (fun l => ia ← pt_interfaces t !! li_A l; ib ← pt_interfaces t !! li_B l;
          if String.eqb (li_Lifecycle l) LifecycleActive && (containsString ids (if_AssetID ia) || containsString ids (if_AssetID ib))
          then Some (l, ia, ib) else None) (rows (pt_links t)).

Definition cable_run (unitOf : gmap string Z) (nameOf : gmap string string) (faceOf : gmap string (option string))
    (row : Link * Interface * Interface) : option CableRun :=
  let '(l, ia, ib) := row in
  ua ← unitOf !! if_AssetID ia; ub ← unitOf !! if_AssetID ib;
  let name i := nameOf.[if_AssetID i | ""] in
  Some {| cn_LinkID := li_ID l; cn_Label := name ia +++ "/" +++ if_Name ia +++ " to " +++ name ib +++ "/" +++ if_Name ib;
          cn_LengthM := match li_LengthM l with Some m => if 0 <? m then m else 0 | None => 0 end; cn_FromUnit := ua; cn_ToUnit := ub;
          cn_FromFace := faceOf.[if_AssetID ia | None]; cn_ToFace := faceOf.[if_AssetID ib | None]; cn_FromName := name ia;
          cn_ToName := name ib |}.

(** One lead more on each end that is in the cabinet. *)
Definition count_leads (unitOf : gmap string Z) (acc : gmap string Z) (row : Link * Interface * Interface) : gmap string Z :=
  let '(_, ia, ib) := row in
  let acc := if known unitOf (if_AssetID ia) then inc (if_AssetID ia) acc else acc in
  if known unitOf (if_AssetID ib) then inc (if_AssetID ib) acc else acc.

(** [rackCabling] *)
Definition rackCabling (t : AssetTables) (contents : list FitRow) : gmap string Z * list CableRun :=
  let placed := List.filter is_placed contents in
  let unitOf := index_by fr_ID (fun row => default 0 (placed_unit row)) placed in
  let nameOf := index_by fr_ID fr_Name placed in
  match placed with
  | [] => (∅, [])
  | _ =>
      let faceOf := index_by fr_ID fr_DeviceTypePortFace contents in
      let cables := rack_cables t (fr_ID <$> placed) in
      (foldl (count_leads unitOf) ∅ cables,
       isort (fun x y => str_ltb (cn_Label x) (cn_Label y)) (omap (cable_run unitOf nameOf faceOf) cables))
  end.

Definition fit_box (leadsOf : gmap string Z) (row : FitRow) : option FitInput :=
  position ← placed_unit row;
  let a := aw_Asset (fr_Row row) in
  Some {| fi_AssetID := as_ID a; fi_Name := as_Name a; fi_Position := position;
    fi_Height := match aw_DeviceTypeUHeight (fr_Row row) with Some h => if 0 <? h then h else 1 | None => 1 end;
    fi_Face := match as_RackFace a with Some f => if String.eqb f "" then FaceFront else f | None => FaceFront end;
    fi_DepthMM := fr_DeviceTypeDepthMM row; fi_WeightGrams := fr_DeviceTypeWeightGrams row; fi_Airflow := fr_DeviceTypeAirflow row;
    fi_PortFace := fr_DeviceTypePortFace row; fi_Leads := leadsOf.[as_ID a | 0] |}.

Record RackFitReport := {
  rr_RackID : string; rr_RackName : string; rr_Fit : RackMeasures; rr_Load : RackLoad; rr_Problems : list FitProblem
}.

(** [rackFitFrom] *)
Definition rackFitFrom (rack : Asset) (contents : list FitRow) (leadsOf : gmap string Z) (runs : list CableRun) : RackFitReport :=
  let fit := {| rk_UsableDepthMM := as_UsableDepthMM rack; rk_WidthMM := as_WidthMM rack; rk_MaxLoadGrams := as_MaxLoadGrams rack |} in
  let boxes := omap (fit_box leadsOf) contents in
  {| rr_RackID := as_ID rack; rr_RackName := as_Name rack; rr_Fit := fit; rr_Load := RackLoadOf boxes;
     rr_Problems := CheckDepth fit boxes ++ CheckLoad fit boxes ++ CheckAirflow fit boxes ++ CheckCabling fit boxes runs |}.

(** [SQLStore.RackFit], on the row of the rack and of what is in it. *)
Definition RackFit (t : AssetTables) (rack : Asset) (contents : list FitRow) : RackFitReport :=
  let '(leadsOf, runs) := rackCabling t contents in rackFitFrom rack contents leadsOf runs.

(** [RackFitReport.LoadPercent] *)
Definition LoadPercent (r : RackFitReport) : Z :=
  match rk_MaxLoadGrams (rr_Fit r) with
  | None => -1
  | Some rated =>
      if (rated <=? 0) || (rl_Weighed (rr_Load r) =? 0) then -1
      else Z.quot (wrap64 (rl_TotalGrams (rr_Load r) * 100)) rated
  end.

(** [RackFitReport.Measured] *)
Definition RackMeasured (r : RackFitReport) : bool :=
  negb (unknown (rk_UsableDepthMM (rr_Fit r))) || negb (unknown (rk_WidthMM (rr_Fit r))) || negb (unknown (rk_MaxLoadGrams (rr_Fit r))).

(** ** What the checks are measured against *)

(** The top unit of a box. *)
Definition fi_top (b : FitInput) : Z := fi_Position b + fi_Height b - 1.

(** Boxes of at least a unit each, above the floor, no two of them in one unit. *)
Record stacked (boxes : list FitInput) : Prop := {
  sk_sized : forall b, b ∈ boxes -> 0 < fi_Position b /\ 1 <= fi_Height b /\ fi_top b < 2 ^ 62;
  sk_positions : NoDup (fi_Position <$> boxes);
  sk_apart : forall b c, b ∈ boxes -> c ∈ boxes -> fi_Position b < fi_Position c -> fi_top b < fi_Position c
}.

(** A box that blows into the one above it, with the finding about it. *)
Definition blows_against (lower upper : FitInput) (p : FitProblem) : Prop :=
  exists down up, fi_Airflow lower = Some down /\ fi_Airflow upper = Some up /\ airflowOpposes down up = true /\
    p = opposed_finding lower upper down up.

(** A weight a box may have: its own when it was weighed. *)
Definition may_weigh (b : FitInput) (w : Z) : Prop := match fi_WeightGrams b with Some g => w = g | None => 0 <= w end.

(** How many ends of crossing leads are at the boxes of a name. *)
Definition ends_at (name : string) (run : CableRun) : Z :=
  match crosses run with
  | None => 0
  | Some _ => (if String.eqb (cn_FromName run) name then 1 else 0) + (if String.eqb (cn_ToName run) name then 1 else 0)
  end.

(** The sentence about a crossing lead that starts at a name. *)
Definition crossing_from (name : string) (run : CableRun) : option string :=
  '(from, to) ← crosses run;
  if String.eqb (cn_FromName run) name
  then Some (cn_FromName run +++ " (" +++ from +++ " ports) to " +++ cn_ToName run +++ " (" +++ to +++ " ports)") else None.

(** A run between units of a cabinet. *)
Definition spans_cabinet (run : CableRun) : Prop :=
  1 <= cn_FromUnit run <= 1000 /\ 1 <= cn_ToUnit run <= 1000 /\ cn_LengthM run < 2 ^ 40.

(** The ends a live cable has on an asset. *)
Definition end_on (t : AssetTables) (id port : string) : Z :=
  match pt_interfaces t !! port with Some i => if String.eqb (if_AssetID i) id then 1 else 0 | None => 0 end.
Definition ends_on (t : AssetTables) (id : string) (l : Link) : Z :=
  if String.eqb (li_Lifecycle l) LifecycleActive && known (pt_interfaces t) (li_A l) && known (pt_interfaces t) (li_B l)
  then end_on t id (li_A l) + end_on t id (li_B l) else 0.

(** * Lemmas *)

Lemma elem_of_neighbouring {A} (l : list A) x y : (x, y) ∈ neighbouring l <-> exists i, l !! i = Some x /\ l !! S i = Some y.
Proof.
  unfold neighbouring. rewrite list_elem_of_lookup. split.
  - intros (i & (x' & y' & Hp & Hx & Hy)%lookup_zip_with_Some). injection Hp as <- <-. exists i. by rewrite lookup_tail in Hy.
  - intros (i & Hx & Hy). exists i. apply lookup_zip_with_Some. exists x, y. by rewrite lookup_tail.
Qed.

Section Stacked.
Context (boxes : list FitInput) (Hs : stacked boxes).
Let l := sortByPosition boxes.

Lemma elem_of_sortByPosition b : b ∈ l <-> b ∈ boxes.
Proof. apply elem_of_isort. Qed.

Lemma sorted_positions i j b c : l !! i = Some b -> l !! j = Some c -> ((i < j)%nat <-> fi_Position b < fi_Position c).
Proof.
  intros Hb Hc.
  assert (forall i j b c, l !! i = Some b -> l !! j = Some c -> (i < j)%nat -> fi_Position b < fi_Position c) as Hlt.
  { intros i' j' b' c' Hb' Hc' Hij. assert ((fi_Position c' <? fi_Position b') = false) as Hle%Z.ltb_ge.
    { apply (sorted_by_lookup (fun x y => fi_Position x <? fi_Position y) l i' j'); [|done..].
      apply isort_sorted. split; intros; rewrite ?Z.ltb_lt, ?Z.ltb_ge in *; lia. }
    assert (fi_Position b' <> fi_Position c'); [|lia]. intros E.
    assert (NoDup (fi_Position <$> l)) as Hnd.
    { unfold l, sortByPosition. rewrite isort_perm. apply Hs. }
    assert (i' = j'); [|lia]. eapply NoDup_lookup; [exact Hnd|rewrite list_lookup_fmap, Hb'; reflexivity|].
    rewrite list_lookup_fmap, Hc'. cbn. by rewrite E. }
  split; [by apply Hlt|]. intros Hp. destruct (Nat.lt_trichotomy i j) as [?|[->|Hji]]; [done|..].
  - rewrite Hb in Hc. injection Hc as <-. lia.
  - pose proof (Hlt _ _ _ _ Hc Hb Hji). lia.
Qed.

(** Neighbours in the sorted slice have nothing between them in the cabinet. *)
Lemma neighbours_touching lower upper : (lower, upper) ∈ neighbouring l <->
  lower ∈ boxes /\ upper ∈ boxes /\ fi_Position lower < fi_Position upper /\
  (forall b, b ∈ boxes -> ~ (fi_Position lower < fi_Position b < fi_Position upper)).
Proof.
  rewrite elem_of_neighbouring. split.
  - intros (i & Hlo & Hup). split_and!.
    + eapply elem_of_sortByPosition, list_elem_of_lookup_2, Hlo.
    + eapply elem_of_sortByPosition, list_elem_of_lookup_2, Hup.
    + apply (sorted_positions i (S i)); [done..|lia].
    + intros b (k & Hk)%elem_of_sortByPosition%list_elem_of_lookup [H1 H2].
      apply (sorted_positions i k) in H1; [|done..]. apply (sorted_positions k (S i)) in H2; [lia|done..].
  - intros ((i & Hi)%elem_of_sortByPosition%list_elem_of_lookup & (j & Hj)%elem_of_sortByPosition%list_elem_of_lookup & Hp & Hno).
    exists i. split; [done|]. pose proof Hp as Hij. apply (sorted_positions i j) in Hij; [|done..].
    destruct (decide (j = S i)) as [->|Hne]; [done|exfalso].
    destruct (lookup_lt_is_Some_2 l (S i)) as [b Hb]; [apply lookup_lt_Some in Hj; lia|].
    apply (Hno b); [eapply elem_of_sortByPosition, list_elem_of_lookup_2, Hb|].
    split; [apply (sorted_positions i (S i))|apply (sorted_positions (S i) j)]; done || lia.
Qed.

Lemma units_between_stacked lower upper : lower ∈ boxes -> upper ∈ boxes ->
  units_between lower upper = fi_Position upper - fi_top lower.
Proof.
  intros Hl Hu. destruct (sk_sized _ Hs _ Hl) as (? & ? & ?), (sk_sized _ Hs _ Hu) as (? & ? & ?).
  unfold units_between, fi_top in *. apply wrap64_id. unfold int64. lia.
Qed.
End Stacked.

Lemma side_breather_kind rack b p : side_breather rack b = Some p -> fp_Kind p <> FitOpposedAir.
Proof.
  unfold side_breather. destruct (fi_Airflow b) as [a|]; [|done]. cbn. destruct (negb _); [done|].
  destruct (rk_WidthMM rack) as [w|]; [destruct (_ <? _); [|done]|]; by intros [= <-].
Qed.

(** ** Load *)

Lemma countZ_snoc {A} (p : A -> bool) l x : countZ p (l ++ [x]) = countZ p l + (if p x then 1 else 0).
Proof. unfold countZ, count_if. rewrite List.filter_app, length_app. cbn. destruct (p x); cbn; lia. Qed.

Lemma RackLoadOf_spec boxes : RackLoadOf boxes =
  {| rl_TotalGrams := wrap64 (sumZ (omap fi_WeightGrams boxes)); rl_Weighed := countZ (fun b => negb (unknown (fi_WeightGrams b))) boxes;
     rl_Unweighed := countZ (fun b => unknown (fi_WeightGrams b)) boxes |}.
Proof.
  unfold RackLoadOf. induction boxes as [|b boxes IH] using rev_ind; [done|].
  rewrite foldl_snoc, IH, omap_app, sumZ_app, !countZ_snoc. unfold add_weight. cbn. destruct (fi_WeightGrams b) as [g|]; cbn.
  - f_equal; try lia. rewrite wrap64_add_l. f_equal. lia.
  - f_equal; try lia. f_equal. lia.
Qed.

(** The weights that are known are the least the boxes can weigh. *)
Lemma least_weights boxes :
  Forall2 may_weigh boxes (default 0 ∘ fi_WeightGrams <$> boxes) /\
  sumZ (default 0 ∘ fi_WeightGrams <$> boxes) = sumZ (omap fi_WeightGrams boxes) /\
  (forall ws, Forall2 may_weigh boxes ws -> sumZ (omap fi_WeightGrams boxes) <= sumZ ws).
Proof.
  split_and!.
  - rewrite <- (map_id boxes) at 1. apply Forall2_fmap, Forall_Forall2_diag, Forall_true. intros b. unfold may_weigh. cbn.
    by destruct (fi_WeightGrams b).
  - unfold compose, sumZ. induction boxes as [|b boxes IH]; [done|]. cbn in *. destruct (fi_WeightGrams b); cbn; lia.
  - unfold sumZ. intros ws. induction 1 as [|b w boxes ws Hb Hws IH]; [done|]. unfold may_weigh in Hb. cbn in *.
    destruct (fi_WeightGrams b); cbn; lia.
Qed.

(** ** Cabling *)

Lemma inc_lookup k k' m : (inc k m).[k' | 0] = m.[k' | 0] + (if String.eqb k k' then 1 else 0).
Proof.
  unfold inc. destruct (String.eqb_spec k k') as [->|Hne]; [by rewrite lookup_insert_eq|].
  rewrite lookup_insert_ne by done. lia.
Qed.

Lemma inc_dom k m k' : is_Some (inc k m !! k') <-> k' = k \/ is_Some (m !! k').
Proof.
  unfold inc. destruct (decide (k = k')) as [->|Hne]; [rewrite lookup_insert_eq; naive_solver eauto|].
  rewrite lookup_insert_ne by done. naive_solver.
Qed.

Lemma omap_snoc {A B} (f : A -> option B) l x : omap f (l ++ [x]) = omap f l ++ option_list (f x).
Proof. rewrite omap_app. cbn. by destruct (f x). Qed.

(** What the two maps hold of a name. *)
Lemma head_app {A} (l k : list A) : head (l ++ k) = match head l with Some x => Some x | None => head k end.
Proof. by destruct l. Qed.

(** What one more lead does to the two maps, at a name. *)
Lemma count_crossing_step c f run name :
  let acc := count_crossing (c, f) run in
  acc.1.[name | 0] = c.[name | 0] + ends_at name run /\
  acc.2 !! name = match f !! name with Some x => Some x | None => crossing_from name run end /\
  (is_Some (acc.2 !! name) -> is_Some (acc.1 !! name) \/ is_Some (f !! name)) /\
  (is_Some (c !! name) -> is_Some (acc.1 !! name)).
Proof.
  cbv zeta. unfold count_crossing, ends_at, crossing_from.
  destruct (crosses run) as [[from to]|]; cbn [fst snd mbind option_bind]; [|split_and!; [lia|by destruct (f !! name)|auto|done]].
  rewrite !inc_lookup, !inc_dom. unfold known. split_and!; [lia| | |auto].
  - destruct (String.eqb_spec (cn_FromName run) name) as [<-|Hne]; case_bool_decide as Hd.
    + by destruct Hd as [x ->].
    + rewrite lookup_insert_eq. destruct (f !! cn_FromName run); [by destruct Hd|done].
    + by destruct (f !! name).
    + rewrite lookup_insert_ne by done. by destruct (f !! name).
  - destruct (decide (name = cn_FromName run)) as [->|Hne]; [auto|]. case_bool_decide; [auto|]. rewrite lookup_insert_ne by done. auto.
Qed.

(** What the two maps hold of a name. *)
Lemma count_crossing_spec runs name :
  let acc := foldl count_crossing (∅, ∅) runs in
  acc.1.[name | 0] = sumZ (ends_at name <$> runs) /\ acc.2 !! name = head (omap (crossing_from name) runs) /\
  (is_Some (acc.2 !! name) -> is_Some (acc.1 !! name)).
Proof.
  cbv zeta. induction runs as [|run runs IH] using rev_ind; [split_and!; try done; by intros []|].
  rewrite foldl_snoc, fmap_app, sumZ_app, omap_snoc, head_app. destruct (foldl count_crossing (∅, ∅) runs) as [c f].
  cbn [fst snd] in IH. destruct IH as (IHc & IHf & IHd), (count_crossing_step c f run name) as (-> & -> & Hd & Hc).
  rewrite IHc, IHf. split_and!.
  - unfold sumZ. cbn. lia.
  - destruct (head _); [done|]. by destruct (crossing_from name run).
  - intros Hx. destruct Hd as [?|?]; [|done|auto].
    destruct (count_crossing_step c f run name) as (_ & -> & _). by rewrite IHf.
Qed.

Lemma RackUnitMM_nearest : Z.abs (100 * RackUnitMM - 4445 * 2 ^ 47) <= 50.
Proof. vm_compute. discriminate. Qed.

(** The arithmetic of doubles gives the exact answer for any cabinet. *)
Lemma drop_mm_exact gap : 0 <= gap <= 1000 -> drop_mm gap = gap * 4445 / 100.
Proof.
  intros Hg. assert (forallb (fun g => drop_mm g =? g * 4445 / 100) (seqZ 0 1001) = true) as Hall by (vm_compute; reflexivity).
  rewrite forallb_forall in Hall. apply Z.eqb_eq, Hall, list_elem_of_In, elem_of_seqZ. lia.
Qed.

Lemma need_mm_exact run : spans_cabinet run ->
  need_mm run = Z.abs (cn_FromUnit run - cn_ToUnit run) * 4445 / 100 + CableRouteAllowanceMM.
Proof.
  intros (? & ? & ?). assert (run_gap run = Z.abs (cn_FromUnit run - cn_ToUnit run)) as Hg.
  { unfold run_gap. rewrite (wrap64_id (_ - _)) by (unfold int64; lia).
    destruct (Z.ltb_spec (cn_FromUnit run - cn_ToUnit run) 0); [rewrite wrap64_id by (unfold int64; lia)|]; lia. }
  unfold need_mm. rewrite Hg, drop_mm_exact by lia. set (d := Z.abs _). assert (0 <= d * 4445 / 100 <= 44450).
  { split; [apply Z.div_pos|apply Z.div_le_upper_bound]; lia. }
  apply wrap64_id. unfold int64, CableRouteAllowanceMM. lia.
Qed.

Lemma too_short_exact run p : spans_cabinet run ->
  too_short run = Some p <-> p = short_finding run /\ 0 < cn_LengthM run /\
    cn_LengthM run * 1000 < Z.abs (cn_FromUnit run - cn_ToUnit run) * 4445 / 100 + CableRouteAllowanceMM.
Proof.
  intros Hr. unfold too_short. destruct (Z.leb_spec (cn_LengthM run) 0) as [|Hl].
  { split; [done|]. intros (_ & ? & _). lia. }
  rewrite <- (need_mm_exact run Hr), wrap64_id by (destruct Hr as (_ & _ & ?); unfold int64; lia).
  destruct (Z.leb_spec (need_mm run) (cn_LengthM run * 1000)); split; try done.
  - intros (_ & _ & ?). lia.
  - intros ?%Some_inj. auto.
  - by intros [-> _].
Qed.

(** ** Leads *)

Definition row_ends (id : string) (row : Link * Interface * Interface) : Z :=
  (if String.eqb (if_AssetID row.1.2) id then 1 else 0) + (if String.eqb (if_AssetID row.2) id then 1 else 0).

Lemma count_leads_spec unitOf cables id : is_Some (unitOf !! id) ->
  (foldl (count_leads unitOf) ∅ cables).[id | 0] = sumZ (row_ends id <$> cables).
Proof.
  intros Hid. assert (forall k m, (if known unitOf k then inc k m else m).[id | 0] = m.[id | 0] + (if String.eqb k id then 1 else 0)) as Hone.
  { intros k m. unfold known. case_bool_decide as Hk; [apply inc_lookup|].
    destruct (String.eqb_spec k id) as [->|]; [done|lia]. }
  induction cables as [|[[l ia] ib] cables IH] using rev_ind; [done|].
  rewrite foldl_snoc, fmap_app, sumZ_app, <- IH. unfold count_leads, row_ends, sumZ. cbn [fst snd fmap list_fmap foldr].
  rewrite !Hone. lia.
Qed.

Lemma rack_cables_ends t ids id : containsString ids id = true ->
  sumZ (row_ends id <$> rack_cables t ids) = sumZ (ends_on t id <$> rows (pt_links t)).
Proof.
  intros Hid. unfold rack_cables, sumZ. induction (rows (pt_links t)) as [|l ls IH]; [done|]. cbn [omap list_omap fmap list_fmap foldr].
  rewrite <- IH. unfold ends_on, end_on, known. clear IH.
  destruct (pt_interfaces t !! li_A l) as [ia|]; cbn [mbind option_bind]; [|by rewrite (bool_decide_false _) , andb_false_r by (by intros [])].
  destruct (pt_interfaces t !! li_B l) as [ib|]; cbn [mbind option_bind]; [|by rewrite (bool_decide_false (is_Some None)), andb_false_r by (by intros [])].
  rewrite !(bool_decide_true (is_Some _)) by eauto. rewrite !andb_true_r. destruct (String.eqb (li_Lifecycle l) LifecycleActive); [|done]. cbn [andb].
  destruct (containsString ids (if_AssetID ia) || containsString ids (if_AssetID ib)) eqn:E; [done|].
  apply orb_false_iff in E as [Ea Eb].
  destruct (String.eqb_spec (if_AssetID ia) id); [congruence|]. by destruct (String.eqb_spec (if_AssetID ib) id); [congruence|].
Qed.

(** ** Which check a finding is of *)

Lemma kind_of_opposed lower upper p : opposed (lower, upper) = Some p -> fp_Kind p = FitOpposedAir.
Proof.
  unfold opposed. destruct (fi_Airflow lower), (fi_Airflow upper); try done. cbn. destruct (_ || _); [done|].
  destruct (negb _); [done|]. by intros [= <-].
Qed.

Lemma wrong_face_kind acc name p : wrong_face acc name = Some p -> fp_Kind p = FitPortsWrongFace /\ fp_Asset p = name.
Proof. unfold wrong_face. destruct (acc.2 !! name); [|done]. by intros [= <-]. Qed.

Lemma too_short_kind run p : too_short run = Some p -> fp_Kind p = FitCableTooShort.
Proof. unfold too_short. destruct (_ <=? _); [done|]. destruct (need_mm run <=? _); [done|]. by intros ?%Some_inj; subst p. Qed.

Lemma dense_kind rack b p : dense rack b = Some p -> fp_Kind p = FitLeadDensity.
Proof. unfold dense. destruct (fi_PortFace b), (rk_WidthMM rack); try done. cbn. destruct (_ && _); [|done]. by intros [= <-]. Qed.

Lemma elem_of_if_single {A} (b : bool) (x y : A) : x ∈ (if b then [y] else []) -> x = y.
Proof. destruct b; [by intros ?%list_elem_of_singleton|by intros ?%not_elem_of_nil]. Qed.

(** The findings of a kind among those of the cabling. *)
Lemma elem_of_cabling rack boxes runs p : p ∈ CheckCabling rack boxes runs ->
  fp_Kind p = FitPortsWrongFace \/ fp_Kind p = FitCableTooShort ->
  p ∈ omap (wrong_face (foldl count_crossing (∅, ∅) runs)) (isort str_ltb (map_to_list (foldl count_crossing (∅, ∅) runs).1).*1) \/
  p ∈ omap too_short runs.
Proof.
  unfold CheckCabling. rewrite !elem_of_app. intros [(b & _ & Hb%dense_kind)%list_elem_of_omap|[?|[?| ->%elem_of_if_single]]] Hk; auto.
  - exfalso. rewrite Hb in Hk. by destruct Hk.
  - exfalso. by destruct Hk.
Qed.

Lemma wrong_faces_found rack boxes runs :
  List.filter (fun p => String.eqb (fp_Kind p) FitPortsWrongFace) (CheckCabling rack boxes runs) =
  omap (wrong_face (foldl count_crossing (∅, ∅) runs)) (isort str_ltb (map_to_list (foldl count_crossing (∅, ∅) runs).1).*1).
Proof.
  unfold CheckCabling. rewrite !List.filter_app. set (faced := omap (wrong_face _) _).
  rewrite (filter_none _ (omap (dense rack) boxes)), (filter_none _ (omap too_short runs)),
    (filter_none _ (if 0 <? countZ (fun b => unknown (fi_PortFace b) && (0 <? fi_Leads b)) boxes then _ else _)).
  - rewrite app_nil_r. apply filter_true. intros p (n & _ & [-> _]%wrong_face_kind)%list_elem_of_omap. done.
  - by intros p ->%elem_of_if_single.
  - by intros p (run & _ & ->%too_short_kind)%list_elem_of_omap.
  - by intros p (b & _ & ->%dense_kind)%list_elem_of_omap.
Qed.

(** * Theorems *)

(** C30. Which boxes are reported as blowing against each other. In a cabinet where no two boxes
    share a unit, exactly those that are fed the exhaust of the box below them: nothing is
    placed between the two, at most one unit is free, both declare which way they blow, and
    the ways are opposite. *)
Theorem opposed_air_exact rack boxes p :
  stacked boxes ->
  p ∈ CheckAirflow rack boxes /\ fp_Kind p = FitOpposedAir <->
  exists lower upper, lower ∈ boxes /\ upper ∈ boxes /\ fi_top lower < fi_Position upper <= fi_top lower + 2 /\
    (forall b, b ∈ boxes -> ~ (fi_Position lower < fi_Position b < fi_Position upper)) /\ blows_against lower upper p.
Proof.
  intros Hs. transitivity (exists pair, pair ∈ neighbouring (sortByPosition boxes) /\ opposed pair = Some p).
  { unfold CheckAirflow. rewrite !elem_of_app, !list_elem_of_omap. split.
    - intros [[(b & _ & Hb%side_breather_kind)|[Hp| ->%elem_of_if_single]] Hk]; done.
    - intros ([lower upper] & Hn & Hp). split; [eauto|by eapply kind_of_opposed]. }
  split.
  - intros ([lower upper] & (Hl & Hu & Hpos & Hno)%(neighbours_touching _ Hs) & Ho). exists lower, upper. do 2 (split; [done|]).
    unfold opposed in Ho. rewrite (units_between_stacked _ Hs) in Ho by done.
    destruct (fi_Airflow lower) as [down|] eqn:Ed, (fi_Airflow upper) as [up|] eqn:Eu; try done. cbn in Ho.
    destruct (_ || _) eqn:Eg; [done|]. apply orb_false_iff in Eg as [H1%Z.ltb_ge H2%Z.ltb_ge].
    destruct (airflowOpposes down up) eqn:Ea; [|done]. injection Ho as <-.
    split; [lia|]. split; [exact Hno|]. exists down, up. by split_and!.
  - intros (lower & upper & Hl & Hu & Hg & Hno & down & up & Ed & Eu & Ea & ->).
    destruct (sk_sized _ Hs _ Hl) as (? & ? & ?). exists (lower, upper). split.
    + apply (neighbours_touching _ Hs). split_and!; [done|done| |done]. unfold fi_top in Hg. lia.
    + unfold opposed. rewrite Ed, (units_between_stacked _ Hs) by done. cbn. rewrite Eu. cbn. rewrite Ea. cbn.
      destruct (_ || _) eqn:Eg; [|done]. exfalso. apply orb_true_iff in Eg as [?%Z.ltb_lt|?%Z.ltb_lt]; lia.
Qed.

(** C31. When a cabinet is reported as overloaded: exactly when it is rated and whatever the boxes
    nobody weighed may weigh, it carries more than its rating. *)
Theorem CheckLoad_certain rack boxes :
  Forall (fun g => 0 <= g) (omap fi_WeightGrams boxes) -> sumZ (omap fi_WeightGrams boxes) < 2 ^ 63 ->
  (exists p, p ∈ CheckLoad rack boxes /\ fp_Kind p = FitOverloaded) <->
  exists rated, rk_MaxLoadGrams rack = Some rated /\ forall ws, Forall2 may_weigh boxes ws -> rated < sumZ ws.
Proof.
  intros Hw Hb. pose proof (sumZ_nonneg _ Hw). destruct (least_weights boxes) as (Hl & He & Hle).
  unfold CheckLoad. rewrite RackLoadOf_spec. cbn [rl_TotalGrams]. rewrite wrap64_id by (unfold int64; lia).
  destruct (rk_MaxLoadGrams rack) as [rated|].
  - destruct (Z.leb_spec (sumZ (omap fi_WeightGrams boxes)) rated) as [Hr|Hr].
    + split; [by intros (p & ?%not_elem_of_nil & _)|]. intros (r & [= <-] & Hall). specialize (Hall _ Hl). lia.
    + split; [|intros _; eexists; split; [by left|done]]. intros _. exists rated. split; [done|]. intros ws Hws%Hle. lia.
  - split; [|by intros (r & ? & _)]. by intros (p & ->%elem_of_if_single & ?).
Qed.

(** Which cables are reported as too short. Between boxes at units of a cabinet, exactly those
    with a length that is less than the drop, at 44.45 mm to a unit, and the allowance; the
    rounding of the floating-point product never decides. *)
Theorem short_cables_exact rack boxes runs p :
  Forall spans_cabinet runs ->
  p ∈ CheckCabling rack boxes runs /\ fp_Kind p = FitCableTooShort <->
  exists run, run ∈ runs /\ p = short_finding run /\ 0 < cn_LengthM run /\
    cn_LengthM run * 1000 < Z.abs (cn_FromUnit run - cn_ToUnit run) * 4445 / 100 + CableRouteAllowanceMM.
Proof.
  rewrite Forall_forall. intros Hr. split.
  - intros [Hp Hk]. pose proof (elem_of_cabling _ _ _ _ Hp (or_intror Hk)) as [(n & _ & [Hn _]%wrong_face_kind)%list_elem_of_omap|Ho].
    { by rewrite Hk in Hn. }
    apply list_elem_of_omap in Ho as (run & Hrun & (-> & ? & ?)%(too_short_exact _ _ (Hr _ Hrun))). eauto.
  - intros (run & Hrun & Ho). assert (too_short run = Some p) as Hs by (by apply too_short_exact; [apply Hr|]).
    split; [|by eapply too_short_kind]. unfold CheckCabling. rewrite !elem_of_app, !list_elem_of_omap. right. right. left. eauto.
Qed.

(** Which crossings are reported: one finding for each name from which a lead crosses the
    cabinet, in the order of the names, about the first such lead, with the number of ends
    of crossing leads at the name. *)
Theorem crossing_leads_named rack boxes runs :
  let found := List.filter (fun p => String.eqb (fp_Kind p) FitPortsWrongFace) (CheckCabling rack boxes runs) in
  sorted_by str_ltb (fp_Asset <$> found) /\ NoDup (fp_Asset <$> found) /\
  (forall p, p ∈ found <-> exists name detail, head (omap (crossing_from name) runs) = Some detail /\
     p = crossing_finding name detail (sumZ (ends_at name <$> runs))).
Proof.
  cbv zeta. rewrite wrong_faces_found. set (acc := foldl count_crossing (∅, ∅) runs).
  set (names := isort str_ltb (map_to_list acc.1).*1).
  assert (fp_Asset <$> omap (wrong_face acc) names = List.filter (known acc.2) names) as ->.
  { induction names as [|n names IH]; [done|]. cbn. unfold wrong_face at 1, known at 1. rewrite <- IH.
    destruct (acc.2 !! n); [by rewrite bool_decide_true by eauto|by rewrite bool_decide_false by (by intros [])]. }
  assert (NoDup names) as Hnd by (unfold names; rewrite isort_perm; apply NoDup_fst_map_to_list).
  split_and!; [by apply filter_sorted_by, isort_sorted, _|by apply bool_filter_nodup|]. intros p. rewrite list_elem_of_omap. split.
  - intros (n & _ & Hp). unfold wrong_face in Hp. destruct (acc.2 !! n) as [detail|] eqn:Ed; [|done]. injection Hp as <-.
    destruct (count_crossing_spec runs n) as (Hc & Hf & _). fold acc in Hc, Hf. exists n, detail. by rewrite <- Hf, <- Hc.
  - intros (n & detail & Hd & ->). destruct (count_crossing_spec runs n) as (Hc & Hf & Hk). fold acc in Hc, Hf, Hk.
    rewrite Hd in Hf. exists n. split.
    + unfold names. rewrite elem_of_isort. destruct Hk as [c Hk]; [eauto|]. apply list_elem_of_fmap. exists (n, c).
      split; [done|]. by apply elem_of_map_to_list.
    + unfold wrong_face. rewrite Hf. cbn. by rewrite Hc.
Qed.

(** What counts as a lead on a box: each end of a live cable that is on one of its ports, so
    that a cable between two boxes of the cabinet is one lead on each. *)
Theorem leads_exact t contents row :
  row ∈ contents -> is_placed row = true ->
  (rackCabling t contents).1.[fr_ID row | 0] = sumZ (ends_on t (fr_ID row) <$> rows (pt_links t)).
Proof.
  intros Hr Hp. assert (row ∈ List.filter is_placed contents) as Hin by (by apply elem_of_bool_filter).
  unfold rackCabling. destruct (List.filter is_placed contents) as [|r rs] eqn:E; [by apply not_elem_of_nil in Hin|].
  rewrite <- E in *. cbn [fst]. rewrite count_leads_spec.
  - apply rack_cables_ends, containsString_elem, list_elem_of_fmap. eauto.
  - by apply index_dom.
Qed.

(** * Samples *)

Definition sample_fit (name : string) (position height : Z) (face airflow : string) (weight : option Z) : FitInput :=
  {| fi_AssetID := name; fi_Name := name; fi_Position := position; fi_Height := height; fi_Face := face; fi_DepthMM := Some 700;
     fi_WeightGrams := weight; fi_Airflow := Some airflow; fi_PortFace := Some PortFaceFront; fi_Leads := 0 |}.
Definition server : FitInput := sample_fit "server" 1 2 FaceFront AirflowFrontToRear (Some 20000).
Definition switch : FitInput := sample_fit "switch" 3 1 FaceFront AirflowRearToFront None.
Definition cabinet : RackMeasures := {| rk_UsableDepthMM := Some 770; rk_WidthMM := Some 600; rk_MaxLoadGrams := Some 15000 |}.

Lemma sample_stacked : stacked [server; switch].
Proof.
  split.
  - intros b Hb. apply elem_of_cons in Hb as [->|[->|?%not_elem_of_nil]%elem_of_cons]; [| |done]; unfold fi_top; cbn; lia.
  - cbn. rewrite !NoDup_cons. split_and!; [intros ?%list_elem_of_singleton; lia|by intros ?%not_elem_of_nil|constructor].
  - intros b c Hb Hc. apply elem_of_cons in Hb as [->|[->|?%not_elem_of_nil]%elem_of_cons]; [| |done];
      (apply elem_of_cons in Hc as [->|[->|?%not_elem_of_nil]%elem_of_cons]; [| |done]); unfold fi_top; cbn; lia.
Qed.

Lemma opposed_air_exact_witness :
  opposed_finding server switch AirflowFrontToRear AirflowRearToFront ∈ CheckAirflow cabinet [server; switch].
Proof.
  apply (opposed_air_exact cabinet [server; switch] (opposed_finding server switch AirflowFrontToRear AirflowRearToFront) sample_stacked).
  exists server, switch. split; [by left|]. split; [by right; left|]. split; [vm_compute; split; [reflexivity|discriminate]|]. split.
  - intros b Hb. apply elem_of_cons in Hb as [->|[->|?%not_elem_of_nil]%elem_of_cons]; [cbn; lia|cbn; lia|done].
  - exists AirflowFrontToRear, AirflowRearToFront. split_and!; reflexivity.
Defined.

Lemma CheckLoad_certain_witness :
  exists p, p ∈ CheckLoad cabinet [server; switch] /\ fp_Detail p = "at least 20 kg on a 15 kg rating, and 1 of 2 boxes is unweighed".
Proof.
  assert (Forall (fun g => 0 <= g) (omap fi_WeightGrams [server; switch])) as Hw by (repeat constructor; discriminate).
  assert (sumZ (omap fi_WeightGrams [server; switch]) < 2 ^ 63) as Hb by (vm_compute; reflexivity).
  assert (forall ws, Forall2 may_weigh [server; switch] ws -> 15000 < sumZ ws) as Hall.
  { intros ws (w & ws' & -> & (v & ws'' & Hv & ->%Forall2_nil_inv_l & ->)%Forall2_cons_inv_l & ->)%Forall2_cons_inv_l.
    unfold may_weigh in Hv. cbn in *. lia. }
  destruct (proj2 (CheckLoad_certain cabinet [server; switch] Hw Hb) (ex_intro _ 15000 (conj eq_refl Hall))) as (p & Hp & _).
  exists p. split; [exact Hp|]. vm_compute in Hp. apply list_elem_of_singleton in Hp as ->. reflexivity.
Defined.

Definition short_run : CableRun :=
  {| cn_LinkID := "c"; cn_Label := "server/e0 to panel/1"; cn_LengthM := 1; cn_FromUnit := 1; cn_ToUnit := 40;
     cn_FromFace := Some PortFaceRear; cn_ToFace := Some PortFaceFront; cn_FromName := "server"; cn_ToName := "panel" |}.

Lemma short_cables_exact_witness :
  short_finding short_run ∈ CheckCabling cabinet [server] [short_run].
Proof.
  assert (Forall spans_cabinet [short_run]) as Hr by (repeat constructor; vm_compute; discriminate || reflexivity).
  apply (short_cables_exact cabinet [server] [short_run] (short_finding short_run) Hr). exists short_run.
  split; [by left|]. split; [reflexivity|]. split; vm_compute; reflexivity.
Defined.

Example crossing_lead_counted :
  fp_Detail <$> CheckCabling cabinet [server] [short_run] =
  ["server (rear ports) to panel (front ports) — 1 lead cross the cabinet to reach the far end";
   "declared 1m across 39 units, which needs about 2233mm once routed (39 units of drop plus 500mm to reach the channel and back). Either the length is wrong or the cable is under tension"].
Proof. vm_compute. reflexivity. Qed.

(** ** What the checks miss *)

(** Two half-depth boxes back to back share a unit. The second hides the first from the box
    above them: the slice is compared neighbour by neighbour, and the face is not looked at. *)
Lemma back_to_back_hides_opposition :
  let front := sample_fit "front" 2 1 FaceFront AirflowFrontToRear None in
  let rear := sample_fit "rear" 2 1 FaceRear AirflowPassive None in
  fp_Kind <$> CheckAirflow cabinet [front; switch] = [FitOpposedAir] /\
  CheckAirflow cabinet [front; rear; switch] = [].
Proof. cbv zeta. split; vm_compute; reflexivity. Qed.
